(* ===== verification/_CoqProject ===== *)
-Q . S2P
Prelude.v
Bytes.v
WireEnum.v
Float.v
Ema.v
Vocab.v
Json.v
Policy.v
Session.v
Streams.v
Clock.v
Blocks.v
Buffer.v
Timeline.v
Delivery.v
Cursor.v
Uplink.v
UplinkInv.v
UplinkReach.v
StreamBodies.v
Envelope.v
UplinkLog.v
UplinkProps.v
Evidence.v
Focus.v
FocusLink.v
Level.v
Classify.v
Transcript.v
Asr.v
Endpoint.v
EndpointProps.v
EndpointSteps.v
EndpointOrder.v
Wake.v
Arbiter.v
Document.v
Values.v
Settings.v
Stored.v
Registry.v
SettingsService.v
SettingsContract.v
Button.v
TurnView.v
Canonical.v
AlertBodies.v
AlertWire.v
AlertDelivery.v
AlertSync.v
Schedule.v
Journal.v
Timers.v
Occurrences.v
Link.v
LinkIngress.v
LinkControl.v
LinkAdmission.v
