(* ===== verification/Prelude.v ===== *)
(** * EchoMuse controller: from the device's audio to the decided request, verified

    EchoMuse pairs a microphone device with a Rust controller ([controller-rs]).
    The device streams its capture (microphone, loudness cells, echo-canceller
    metadata) and its render reference as EMA1 frames; the controller keeps
    the streams, decides which turns, replies and diagnostics may read them and
    hands each of those its audio; and from what the speech workers make of it
    decides whether the device was called, which device answers, and where the
    request ends.  It also keeps every speaker's alarms: stored on a calendar,
    changed through a journal, delivered to a cache on the device that rings them
    without the controller.  This library models those two paths, from the bytes
    of a frame to the decisions and from the text of an event to the cache, and
    proves what their users rely on.  Paths below are
    relative to [src/controller-rs/crates/] unless they start with [src/].

    ** How the parts interact

    A device's sockets are admitted one session at a time ([LinkAdmission]); a live
    session's tasks ([Link], [LinkControl]) queue what the runtime sends, time its
    commands, watch for silence and bring what the device sends to the ordered
    ingress, the urgent path or telemetry ([LinkIngress]).
    A control frame's text becomes a typed message or the code of the rule it
    breaks ([Envelope], on [Json], [Session] and [StreamBodies]); the first must
    be a hello, which admission answers with the policy the device is to run.
    A media frame's bytes become a [Packet] ([Ema]); the session's stream registry
    admits it or names the rule it breaks ([Streams]); the uplink stores it in
    its epoch's buffer through the timeline ([Buffer], [Timeline]), works out
    which subscription's backfill it continues, and releases to every
    subscription what it can now be given ([Cursor]), into a bounded outbox the
    runtime drains ([Delivery]).  Controller decisions open, convert and close
    subscriptions; device reports end streams and subscriptions; mute erases;
    [poll] renews, times out and ends what is due ([Uplink]).  What the speech
    workers make of a turn's audio is put back into sample order by the evidence
    assembler ([Evidence]), the endpoint reducer's only input.

    A wake candidate is decided by [Wake] and, between the devices of a house,
    by [Arbiter].  In a turn the reducer ([Endpoint]) classifies every cell the
    assembler releases ([Classify], against the levels of [Level]), follows the
    recognizers' texts ([Asr], by the text rules of [Transcript]) and decides at
    each block whether the request has started, may have ended, has ended or
    must be given up.  Meanwhile the device ducks its playback under focus
    leases the controller keeps alive ([Focus], [FocusLink]).

    An alarm's request gives the time it first rings ([Schedule]) and an operation
    that is journaled before anything is written ([Journal]); it is stored as a
    line in the description of a calendar event, and reading the calendar gives
    the occurrences of a speaker ([Occurrences]).  Those are brought to the device
    as snapshots and deltas ([AlertDelivery]) whose objects, digests and pages are
    those of [AlertBodies], in the canonical text of [Canonical]; what the device
    answers is decoded by [AlertWire].  [Timers] keeps what Home Assistant says of
    a satellite's timers.

    ** Files

    - [Prelude]: results, machine integers, the list methods of the source,
      the [rank] measure for loops that move a position over marks, the
      [guards] rewrite database that turns early returns into conjunctions.
    - [Bytes]: bytes and little-endian fields; fixed-size chunks of a slice.
    - [WireEnum]: [protocol/src/macros.rs] and [error.rs]: the class [WireEnum]
      with its laws, which every wire vocabulary instantiates.
    - [Ema]: [protocol/src/ema.rs]: headers, cells, metadata records, frames.
    - [Vocab]: [protocol/src/vocab.rs]: message types, capabilities, stream
      names, digests.
    - [Json]: [protocol/src/json.rs]: JSON values, the typed fields of an object,
      and schemas, what a decoder is compared with.  [Policy], [Session]:
      [protocol/src/session.rs]: the detector policy and the device's check of
      it; the hello, admission, [session.ready] and the small bodies.
      [StreamBodies]: the bodies of [protocol/src/streams.rs].  [Envelope]:
      [protocol/src/envelope.rs].
    - [Float]: [f64] as IEEE 754 binary64.
    - [Streams]: [protocol/src/streams.rs]: the epochs of a session.  A
      [HashMap] keyed by stream and epoch is a [gmap]; the remembered ended
      epochs are a list, oldest first.
    - [Clock]: [turn/src/time.rs], [turn/src/endpoint.rs] (stream starts),
      [uplink/src/starts.rs], [uplink/src/config.rs].
    - [Evidence]: [turn/src/evidence.rs]: the assembler that puts the speech
      workers' results back into sample order.
    - [Blocks], [Buffer]: [uplink/src/buffer.rs] and [chunk.rs]: the index of
      what an epoch holds, and the ring of records under it.  The ring is a
      list indexed modulo its length as the code indexes it.
    - [Timeline]: [uplink/src/timeline.rs].
    - [Delivery]: [uplink/src/wire.rs], [chunk.rs] and the [Outbox] of
      [uplink.rs].
    - [Cursor]: the [Cursor] and [release] of [uplink/src/uplink.rs].
    - [Uplink]: the rest of [uplink/src/uplink.rs], one definition per method;
      [UplinkEvent] and [uplink_step] are a session's calls in ingress order.
    - [UplinkInv], [UplinkReach]: the invariant of the uplink, kept by each
      operation and so by every reachable state.
    - [UplinkLog]: the specification of a session by its delivery log, and the
      refinement of the operations to its four effects.
    - [UplinkProps]: the contracts of settling, muting, opening, converting and
      polling.
    - [Focus]: [playback/src/focus.rs] and the released leases of
      [voice/src/session.rs]; [FocusLink]: the device's lease table
      ([src/device/internal/focus/focus.go]) and the two ends over a link that
      delays and loses messages.
    - [Level]: [turn/src/level.rs] and [reply.rs]: loudness percentiles and the
      early-answer watch.
    - [Classify]: [turn/src/classify.rs]: the class of every 32 ms cell.
    - [Transcript]: [turn/src/text.rs]: words, edit distance, the wake phrase.
    - [Asr]: [turn/src/asr.rs], [completeness.rs], [pause.rs]: the words so far.
    - [Endpoint]: [turn/src/endpoint.rs] and [trace.rs]: the reducer, one
      definition per method; [PolicyEvent] and [policy_step] are the runtime's
      calls.  [EndpointProps]: its end, its deadline, its bounds.
      [EndpointSteps]: a run as the cells, blocks and closes it visits in
      sample order, the invariants of those steps and the contract of a commit.
      [EndpointOrder]: a run refines one reading of the released evidence.
    - [Wake]: [turn/src/wake.rs].
    - [Arbiter]: [voice/src/arbiter.rs] and the scopes of [core/src/types.rs].
    - [Document]: [settings/src/json.rs]: UTF-8, ordered JSON objects, the text
      Python's [json.dumps] writes, floats by their shortest digits.
    - [Values]: [settings/src/values.rs]: the value types, each a [SettingType]
      with its [SettingLaws].  [Settings]: [settings/src/settings.rs]: the forty
      keys, the typed settings, the defaults.
    - [Stored]: [settings/src/stored.rs] and [edit.rs]: documents as stored, how
      fleet and device combine, the dashboard's edits.
    - [Registry]: [settings/src/registry.rs]: the wake models.  A directory is a
      [gmap] of file names; a change is the list of its writes and removals, so a
      crash is a prefix of it.
    - [SettingsService]: [settings/src/service.rs], [ready.rs], [db.rs]; the rows
      are part of the state, an [Arc] is the publication and device it was made
      for.  [SettingsContract]: what the service guarantees, over
      histories in which other services write and delete rows at any moment.
    - [Button]: [presentation/src/button.rs].  [TurnView]: [turn_view.rs] and
      [phase.rs] of [presentation].

    - [Canonical]: [protocol/src/canonical.rs]: the text that digests are of.
      [AlertBodies]: [protocol/src/alerts.rs]: the objects of the alert cache and
      the pages of a snapshot.  [AlertWire]: [alerts/src/wire.rs].
    - [AlertDelivery]: [alerts/src/delivery.rs].  [AlertSync]: the device's
      delivery position and cache ([src/device/internal/alerts/delivery.go]:
      [ApplyDelta], [ApplySnapshotPage], [ackLocked]), whose writes may fail and
      whose store may come back empty or corrupt, the link between the two, which
      loses messages and sessions, and what they agree on.  The device's local
      operations, rings, sounds and the form of a body are left out.
    - [Schedule]: [alerts/src/schedule.rs].  [Journal]: [alerts/src/journal.rs] over
      the tables of [db/schema/v40.sql], each a list of rows or a [gmap].
      [Timers]: [alerts/src/timers.rs] and the timer events of
      [core/src/services.rs].  [Occurrences]: [alerts/src/ids.rs],
      [description.rs], [calendar.rs] and the items of [ha/src/calendar.rs].

    - [Link]: [link/src/session.rs], [commands.rs] and the control writer of
      [control.rs]: the calls of a session's tasks as steps of one state.
      [LinkIngress]: [ingress.rs].  [LinkControl]: the rest of [control.rs],
      [config.rs] and the text of a refused media frame.  [LinkAdmission]:
      [auth.rs], [registry.rs], [handshake.rs] and the joining of [server.rs].

    ** How state is modelled

    Rust's [u8], [u32], [u64] and [usize] are [N] (indices into lists are
    [nat]).  Saturating and checked operations are written out; a sum the code
    leaves unchecked is exact here, and the invariants bound the positions that
    flow into them.  The sums of the near-miss plan, and the rounding of a
    cursor's start up to the device's grid ([next_multiple_of] in [attribute] and
    [on_packet]), are bounded by nothing the code checks: within a grid step of
    2^64 the code overflows where the model does not.  [Result] is [result E A]; a method that changes
    its object takes the state and returns the new one, with the value it
    returns.  Loops over mutable vectors are structural recursion or recursion
    on fuel: [as_chunks] and [settle_from] take the length of the list, the
    loops of [Buffer] and [Cursor] take the number of marks they can stop at,
    and the theorem of each shows the fuel is never what ends it
    ([segments_tile], [release_contiguous], [settle_subs_ends_exactly]).
    [outbox_drain] is [None] where a counter would underflow; [outbox_accounts]
    excludes it.

    An [f32] probability is its bit pattern, compared as IEEE 754 does; an [f64]
    is a [spec_float] of the Standard Library at binary64, every operation
    rounded.  A text is its list of [char]s, and where the code counts UTF-8
    bytes - always at the boundary of a [char] - the model counts [char]s; the
    Unicode tables of Rust's library are the class [Unicode], the grammar's
    judgement of a text the class [Completeness].  The reducer's state is in
    three parts, [CellSide], [TextSide] and [TurnPolicy], each with the fields
    of the trace it writes.  A cancellation token of [tokio_util] is a number,
    in the set of cancelled ones for good once cancelled.

    JSON text is read and written by [serde_json], the class [SerdeJson]: what
    it does with a text is a parameter, a [Value] is the data type it documents,
    and [canonical] is what reading back a written value gives.

    The settings' reading of a JSON text is the class [SerdeText]; theorems that
    read back what was written assume it of the texts written ([reads_back]), and
    [SerdeLaws] that a number read is a 64-bit integer or a finite float.  SHA-256
    is the class [Digest], of which only the length of a digest is assumed.  A
    database or file failure is an argument of the command that meets it.

    What Tokio shares between tasks is one state, and a task that waits has no step:
    an [mpsc] channel and its byte semaphore are a [Queue], a [watch] channel the
    value it holds, an [Arc] its place in a list.  A history is any sequence of the
    tasks' calls; a call that takes more than one lock, or waits in between, is that
    many steps.

    Dates and time zones are those of [jiff], the class [Jiff]; UUIDs and their
    hashes those of [uuid], the class [UuidCrate]; a sort is the stable insertion
    sort [sort_by].  A transaction is a function from tables to tables that gives
    an error instead of tables when it is rolled back.

    Subscription IDs the controller generates are random outside the program;
    the operations that open a subscription take the drawn ID.  Theorems about
    the log assume, where they need it, that a session's IDs are distinct
    ([NoDup (opened_in ...)]); the other standing hypothesis, [event_ok], is
    what the decoders establish: counters fit in 64 bits and a packet's records
    are in its form ([packet_fits], proved of every parsed frame).

    ** What is proved

    - Wire: encoding and parsing are inverse to each other, the encoder accepts
      exactly the frames the rules allow, a parsed frame obeys them; records
      and render frames round trip; vocabularies parse exactly what they print;
      admission asks for exactly the required capabilities.
    - Control: every decoder accepts its schema and nothing else, a refusal has
      the code of the first rule broken and names the device the frame named,
      encoded frames fit and read back; what [session.ready] carries is what the
      device activates, and what the wire decodes satisfies [event_ok].
    - Registry: consistent after any events; a packet is accepted exactly when
      the rules let it, and accepted sequence numbers increase.
    - Buffer and timeline: first copy wins, segments tile what is asked and are
      true, chunks carry exactly the held records, memory is bounded, reads are
      exact or say why not, classification follows the device's order, erasing
      forgets.
    - Delivery: no counter underflows, backlogs equal what is queued; a release
      is contiguous, true and terminates; across a whole session each stream's
      audio is one unbroken line, each subscription ends exactly once and its
      end is last.
    - Uplink: settling ends exactly what must end; candidates and conversions
      do what they promise or change nothing; mute is silent and forgets for
      the rest of the session; subscriptions belong to the current capture
      epoch; a poll leaves nothing due, provided the epochs waited on are held,
      which one lemma shows can fail for reference epochs.
    - Evidence: cells and recognizer results leave in sample order whatever the
      arrival order, and without missing audio two arrival orders of the same
      evidence leave the same output; with missing audio they need not.

    - Focus: a lease the controller counts on is held by the device, whatever
      the link loses or delays; renewals answered in time keep it alive.
    - Cells and texts: classes are the first rule of a table that matches, runs
      are dated back no further than the speech they belong to, levels are
      percentiles of what counts; the edit distance is the least number of
      edits, the wake phrase is stripped by a minimal window, the prefix is
      current after every block.
    - Endpoint: an utterance ends at most once, its trace tells its decisions,
      audio and the clock bound it, a commit stands for command speech heard
      and words judged and nothing that revokes it, questions are asked once;
      and a run decides what one reading of the released evidence decides, so
      the workers' order, the batches and the clock do not show.
    - Wake: a function of the evidence in time, in whatever order it came;
      never accepted unverified.  Arbiter: one device answers.
    - Settings: every value that is read is valid and reads back equal; written
      strings and floats read back; an edit of a document changes its settings and
      nothing else, a wrong one is refused by its first fault.
    - Registry: what is offered is on disk under its digest, after a crash at any
      point of a change too.
    - Settings service: memory and snapshots follow the rows over every history of
      commands and failures, so a restart publishes the same settings, but of
      rows that others changed and nobody has read since; an edit is all or
      nothing and has its effect key by key; no history leaves a selected wake
      model unusable, and what [session.ready] grants from it is activated; a
      watcher is woken exactly by a change, or by its row coming or going.
    - Presentation: taps are conserved and grouped, a physical event acts once, a
      turn opens exactly on its release; a device shows the turn or is one paced
      update behind; a long answer is cut to fit.

    - Alerts: after a refresh, with nothing lost since, the device's cache is what the
      calendar asks for, and an occurrence reported armed is in the device's cache, or
      the device lost its cache and is owed, or is being sent, a snapshot; a snapshot's pages are its objects once each, in order, under
      their digest; every body is accepted by its schema alone.
    - Alarms: an alarm first rings at the first time its rule allows after now; the
      journal never loses or rewrites a request and answers a repeated one with its
      row as it stands;
      an alarm written on a calendar is read back as it was, whatever text stands
      with it; timers tick down and are dropped once.

    - Link: in every interleaving a device has one routed session, of its newest
      admitted hello, and its audio socket is handed over once; a hello is admitted
      exactly when every check passes; each command ends acknowledged, timed out or
      failed with the session; a session is lost only after the silence it allows; a
      frame reaches one place, in order, and the mute stops capture before the runtime
      hears of it; an ended session leaves no capture permission alive.

    ** Not modelled

    The voice orchestrator, the recorder, the records and the playback client are
    tasks that join the parts above over channels, files and HTTP; what they add
    is mostly the order of I/O, and each would need most of its collaborators as
    parameters.  Signal processing, LED frames and equalisation are floating-point
    arithmetic over samples; speech models, SQL, HTTP, TLS, the dashboard and the
    clients of Home Assistant and ESPHome are I/O or engines outside the sources.
    Of the link, the listeners, the HTTP upgrade, the asset socket and the shell are
    left out; of the settings service, its task and channels are the order in
    which commands are served.  Of the device's firmware only what the controller's
    theorems need of it is here: its leases, its alert cache and its check of a
    policy. *)

From stdpp Require Export base numbers list option gmap strings pretty.
From Stdlib Require Export Lia.
From Stdlib Require Strings.Byte.

#[export] Set Default Goal Selector "!".

Declare Scope em_scope.
Delimit Scope em_scope with em.
Open Scope N_scope.

(** ** Results: Rust's [Result<A, E>] with the argument order of the source's
    error-carrying functions. *)
Inductive result (E A : Type) : Type :=
  | Ok (a : A)
  | Err (e : E).
Arguments Ok {E A} a.
Arguments Err {E A} e.

(** The [?] operator: continue with the value or return the error. *)
Notation "'let?' x ':=' e 'in' k" :=
  (match e with Ok x => k | Err err => Err err end)
  (at level 10, x pattern, e at level 200, k at level 200) : em_scope.
Open Scope em_scope.

#[export] Instance result_eq_dec {E A} `{EqDecision E, EqDecision A} :
  EqDecision (result E A).
Proof. solve_decision. Defined.

Definition ok_or {E A} (e : E) (o : option A) : result E A :=
  match o with Some a => Ok a | None => Err e end.

Definition map_err {E F A} (f : E -> F) (r : result E A) : result F A :=
  match r with Ok a => Ok a | Err e => Err (f e) end.

Definition is_ok {E A} (r : result E A) : bool :=
  match r with Ok _ => true | Err _ => false end.

(** ** Text.  A [char] is its Unicode scalar value and the text the program
    computes on (transcripts, not wire names) is the list of its characters, so a
    position in it counts characters where the source counts bytes. *)
Abbreviation Char := N.
Abbreviation Text := (list N).

(** ** Unsigned machine integers.  A [u8], [u32] or [u64] is an [N]; the
    operations that saturate or check are written out, and the theorems that
    need the width carry it as a bound. *)
Definition u8_max : N := 255.
Definition u32_max : N := 4294967295.
Definition u64_max : N := 18446744073709551615.

Definition sat_add64 (a b : N) : N := N.min (a + b) u64_max.
Definition sat_mul64 (a b : N) : N := N.min (a * b) u64_max.
Definition checked_add64 (a b : N) : option N :=
  if a + b <=? u64_max then Some (a + b) else None.
Definition checked_sub64 (a b : N) : option N :=
  if b <=? a then Some (a - b) else None.
Definition is_multiple_of (a b : N) : bool :=
  if b =? 0 then a =? 0 else a mod b =? 0.
(** Exact: within [b] of 2^64 the code's [u64] would overflow. *)
Definition next_multiple_of (a b : N) : N :=
  if a mod b =? 0 then a else a + (b - a mod b).
Definition div_ceil (a b : N) : N :=
  if a mod b =? 0 then a / b else a / b + 1.

(** [lia] with the equations of division and remainder in scope. *)
Ltac div_lia := zify; Z.to_euclidean_division_equations; lia.
Ltac div_nia := zify; Z.to_euclidean_division_equations; nia.

Lemma next_multiple_of_ge a b : a <= next_multiple_of a b.
Proof. unfold next_multiple_of. destruct (N.eqb_spec (a mod b) 0); lia. Qed.

Lemma next_multiple_of_lt a b : b <> 0 -> next_multiple_of a b < a + b.
Proof.
  intros Hb. unfold next_multiple_of. pose proof (N.mod_lt a b Hb).
  destruct (N.eqb_spec (a mod b) 0); div_lia.
Qed.

Lemma next_multiple_of_mod a b : b <> 0 -> next_multiple_of a b mod b = 0.
Proof.
  intros Hb. unfold next_multiple_of.
  destruct (N.eqb_spec (a mod b) 0) as [->|Hne]; [done|].
  pose proof (N.div_mod a b Hb). pose proof (N.mod_lt a b Hb).
  replace (a + (b - a mod b)) with ((a / b + 1) * b) by lia.
  by apply N.Div0.mod_mul.
Qed.

Lemma next_multiple_of_1 a : next_multiple_of a 1 = a.
Proof. unfold next_multiple_of. by rewrite N.mod_1_r. Qed.

Lemma div_ceil_spec a b : b <> 0 -> a <= div_ceil a b * b < a + b.
Proof.
  intros Hb. unfold div_ceil.
  pose proof (N.div_mod a b Hb). pose proof (N.mod_lt a b Hb).
  destruct (N.eqb_spec (a mod b) 0); div_nia.
Qed.

Lemma div_lt_mul a b u : u <> 0 -> a / u < b -> a < b * u.
Proof.
  intros Hu H. pose proof (N.div_mod a u Hu). pose proof (N.mod_lt a u Hu). nia.
Qed.

Lemma mul_le_div a b u : u <> 0 -> a * u <= b -> a <= b / u.
Proof. intros Hu H. apply N.div_le_lower_bound; lia. Qed.

Lemma is_multiple_of_spec a b : b <> 0 -> is_multiple_of a b = true <-> a mod b = 0.
Proof.
  intros Hb. unfold is_multiple_of.
  destruct (N.eqb_spec b 0); [done|]. by rewrite N.eqb_eq.
Qed.

Lemma checked_add64_Some a b c : checked_add64 a b = Some c <-> c = a + b /\ a + b <= u64_max.
Proof.
  unfold checked_add64. destruct (N.leb_spec (a + b) u64_max); naive_solver lia.
Qed.

(** Saturating sums of saturating products compose: the arithmetic behind a
    timestamp carried forward twice. *)
Lemma sat_add64_mul_assoc x a b k :
  sat_add64 (sat_add64 x (sat_mul64 a k)) (sat_mul64 b k) = sat_add64 x (sat_mul64 (a + b) k).
Proof. unfold sat_add64, sat_mul64. rewrite N.mul_add_distr_r. lia. Qed.

(** ** Lists: the iterator methods the source uses. *)
Section lists.
Context {A : Type}.

(** [VecDeque::retain] and [Vec::retain]. *)
Definition retain (p : A -> bool) (l : list A) : list A := List.filter p l.

(** [iter().find(p)] and [iter().any(p)]. *)
Definition find_first (p : A -> bool) (l : list A) : option A := List.find p l.
Definition any (p : A -> bool) (l : list A) : bool := List.existsb p l.

(** [partition_point]: the length of the prefix satisfying [p], for a list
    partitioned by it; and [Vec::insert]. *)
Fixpoint partition_point (p : A -> bool) (l : list A) : nat :=
  match l with x :: l => if p x then S (partition_point p l) else O | [] => O end.
Definition insert_at (at_ : nat) (a : A) (l : list A) : list A := take at_ l ++ a :: drop at_ l.

(** [iter().take_while(p)]. *)
Fixpoint take_while (p : A -> bool) (l : list A) : list A :=
  match l with x :: l => if p x then x :: take_while p l else [] | [] => [] end.

(** [iter().position(p)]. *)
Fixpoint position (p : A -> bool) (l : list A) : option nat :=
  match l with
  | [] => None
  | x :: l => if p x then Some 0%nat else S <$> position p l
  end.

(** [iter_mut().find(p)] followed by an assignment through the reference. *)
Fixpoint update_first (p : A -> bool) (f : A -> A) (l : list A) : list A :=
  match l with
  | [] => []
  | x :: l => if p x then f x :: l else x :: update_first p f l
  end.

(** [Vec::remove(i)], whose index the callers keep in range. *)
Definition remove_at (i : nat) (l : list A) : list A := take i l ++ drop (S i) l.

(** [iter().filter(p).max_by_key(key)]: the index of the last element of
    greatest key among those satisfying [p]. *)
Fixpoint max_index_from (p : A -> bool) (key : A -> N) (i : nat)
    (best : option (nat * N)) (l : list A) : option (nat * N) :=
  match l with
  | [] => best
  | x :: l =>
      let best' :=
        if p x then
          match best with
          | Some (_, k) => if k <=? key x then Some (i, key x) else best
          | None => Some (i, key x)
          end
        else best in
      max_index_from p key (S i) best' l
  end.

Definition max_index (p : A -> bool) (key : A -> N) (l : list A) : option nat :=
  fst <$> max_index_from p key 0 None l.

Lemma max_index_from_spec p key l i best j k :
  max_index_from p key i best l = Some (j, k) ->
  (best = Some (j, k) \/
    exists x, (i <= j)%nat /\ l !! (j - i)%nat = Some x /\ p x = true /\ key x = k) /\
  (forall b kb, best = Some (b, kb) -> kb <= k) /\
  (forall x, x ∈ l -> p x = true -> key x <= k).
Proof.
  revert i best. induction l as [|y l IH]; intros i best; simpl.
  { intros ->. split_and!; [by left|by intros ?? [= -> ->]|by intros ? ?%elem_of_nil]. }
  intros H. destruct (IH _ _ H) as (Hsrc & Hbest & Hall). clear IH H.
  split_and!.
  - destruct Hsrc as [Hsrc|(x & Hle & Hx & Hp & Hk)].
    + destruct (p y) eqn:Hp; [|by left].
      destruct best as [[b kb]|].
      * destruct (kb <=? key y); [|by left].
        injection Hsrc as <- <-. right. exists y. rewrite Nat.sub_diag. naive_solver lia.
      * injection Hsrc as <- <-. right. exists y. rewrite Nat.sub_diag. naive_solver lia.
    + right. exists x. split_and!; [lia| |done|done].
      replace (j - i)%nat with (S (j - S i)) by lia. done.
  - intros b kb ->. destruct (p y); [|by eapply Hbest].
    destruct (N.leb_spec kb (key y)); [|by eapply Hbest].
    specialize (Hbest _ _ eq_refl). lia.
  - intros x [->|Hx]%elem_of_cons Hpx; [|by auto].
    rewrite Hpx in Hbest. destruct best as [[b kb]|].
    + destruct (N.leb_spec kb (key y)); specialize (Hbest _ _ eq_refl); lia.
    + specialize (Hbest _ _ eq_refl). lia.
Qed.

Lemma max_index_Some p key l j :
  max_index p key l = Some j ->
  exists x, l !! j = Some x /\ p x = true /\ forall y, y ∈ l -> p y = true -> key y <= key x.
Proof.
  unfold max_index. destruct (max_index_from p key 0 None l) as [[j' k]|] eqn:E; [|done].
  intros [= ->]. apply max_index_from_spec in E as ([?|(x & _ & Hx & Hp & Hk)] & _ & Hall); [done|].
  rewrite Nat.sub_0_r in Hx. exists x. subst k. auto.
Qed.

Lemma max_index_from_None p key l i best :
  max_index_from p key i best l = None -> best = None /\ forall x, x ∈ l -> p x = false.
Proof.
  revert i best. induction l as [|y l IH]; intros i best; simpl.
  { intros ->. split; [done|by intros ? ?%elem_of_nil]. }
  intros (Hb & Hall)%IH. destruct (p y) eqn:Hp.
  - destruct best as [[b kb]|]; [by destruct (kb <=? key y)|done].
  - split; [done|]. intros x [->|Hx]%elem_of_cons; auto.
Qed.

Lemma max_index_None p key l : max_index p key l = None -> forall x, x ∈ l -> p x = false.
Proof.
  unfold max_index. destruct (max_index_from p key 0 None l) eqn:E; [done|].
  intros _. by apply max_index_from_None in E as [_ ?].
Qed.

Lemma elem_of_retain p (l : list A) x : x ∈ retain p l <-> x ∈ l /\ p x = true.
Proof. unfold retain. rewrite !list_elem_of_In. apply filter_In. Qed.
Lemma retain_app p (l1 l2 : list A) : retain p (l1 ++ l2) = retain p l1 ++ retain p l2.
Proof. unfold retain. induction l1 as [|x l1 IH]; [done|]. cbn. destruct (p x); cbn; by rewrite IH. Qed.

Lemma any_true p (l : list A) : any p l = true <-> exists x, x ∈ l /\ p x = true.
Proof.
  unfold any. rewrite existsb_exists. setoid_rewrite list_elem_of_In. done.
Qed.

Lemma any_false p (l : list A) : any p l = false <-> forall x, x ∈ l -> p x = false.
Proof.
  rewrite <- not_true_iff_false, any_true. split.
  - intros H x Hx. destruct (p x) eqn:E; [|done]. destruct H; eauto.
  - intros H (x & Hx & E). rewrite H in E; done.
Qed.

Lemma find_first_Some p (l : list A) x : find_first p l = Some x -> x ∈ l /\ p x = true.
Proof. unfold find_first. rewrite list_elem_of_In. apply find_some. Qed.

Lemma find_first_None p (l : list A) : find_first p l = None <-> any p l = false.
Proof.
  unfold find_first, any. induction l as [|x l IH]; simpl; [done|].
  destruct (p x); simpl; done.
Qed.

Lemma position_Some p (l : list A) i :
  position p l = Some i -> exists x, l !! i = Some x /\ p x = true.
Proof.
  revert i. induction l as [|y l IH]; intros i; simpl; [done|].
  destruct (p y) eqn:E; [intros [= <-]; simpl; eauto|].
  destruct (position p l) as [j|]; [|done]. intros [= <-]. simpl. by apply IH.
Qed.

Lemma retain_cons p (x : A) l : retain p (x :: l) = if p x then x :: retain p l else retain p l.
Proof. done. Qed.

Lemma position_find p (l : list A) i : position p l = Some i -> l !! i = find_first p l.
Proof.
  revert i. induction l as [|x l IH]; intros i; cbn; [done|]. destruct (p x); [by intros [= <-]|].
  destruct (position p l) as [j|]; [|done]. intros [= <-]. by apply IH.
Qed.

Lemma position_None p (l : list A) : position p l = None <-> any p l = false.
Proof.
  unfold any. induction l as [|x l IH]; simpl; [done|].
  destruct (p x); simpl; [done|]. rewrite <- IH. by destruct (position p l).
Qed.

Lemma length_update_first p f (l : list A) : length (update_first p f l) = length l.
Proof. induction l as [|x l IH]; simpl; [done|]. destruct (p x); simpl; congruence. Qed.

Lemma length_remove_at i (l : list A) :
  (i < length l)%nat -> S (length (remove_at i l)) = length l.
Proof. intros H. unfold remove_at. rewrite length_app, length_take, length_drop. lia. Qed.

Lemma elem_of_remove_at i (l : list A) x : x ∈ remove_at i l -> x ∈ l.
Proof.
  unfold remove_at. intros [H|H]%elem_of_app.
  - apply elem_of_take in H as (j & Hj & _). apply list_elem_of_lookup; eauto.
  - apply list_elem_of_lookup in H as (j & Hj). rewrite lookup_drop in Hj.
    apply list_elem_of_lookup; eauto.
Qed.
End lists.

(** ** Landmarks: the measure of a loop that moves a position from one mark to a
    later one. *)
Definition rank (marks : list N) (pos : N) : nat :=
  length (List.filter (fun m => pos <? m) marks).

Lemma rank_le marks pos : (rank marks pos <= length marks)%nat.
Proof.
  unfold rank. induction marks as [|m marks IH]; simpl; [lia|]. destruct (pos <? m); simpl; lia.
Qed.

Lemma rank_mono marks pos pos' : pos <= pos' -> (rank marks pos' <= rank marks pos)%nat.
Proof.
  intros H. unfold rank. induction marks as [|m marks IH]; simpl; [done|].
  destruct (N.ltb_spec pos' m), (N.ltb_spec pos m); simpl; lia.
Qed.

Lemma rank_lt marks pos m : m ∈ marks -> pos < m -> (rank marks m < rank marks pos)%nat.
Proof.
  intros Hm Hp. unfold rank. induction marks as [|x marks IH]; [by apply elem_of_nil in Hm|].
  pose proof (rank_mono marks pos m ltac:(lia)) as Hmono. unfold rank in Hmono. simpl.
  apply elem_of_cons in Hm as [<-|Hm].
  - rewrite N.ltb_irrefl, (proj2 (N.ltb_lt pos m)) by done. simpl. lia.
  - specialize (IH Hm). destruct (N.ltb_spec m x), (N.ltb_spec pos x); simpl; lia.
Qed.

(** ** Reasoning about guards: a sequence of early returns succeeds exactly
    when every guard lets it through.  [guard_simpl] turns such a statement
    into the conjunction of its guards. *)
Create Rewrite HintDb guards.

Lemma guard_ok {E A} (b : bool) (e : E) (k : result E A) x :
  (if b then Err e else k) = Ok x <-> b = false /\ k = Ok x.
Proof. destruct b; naive_solver. Qed.

Lemma bind_ok {E A B} (r : result E A) (k : A -> result E B) y :
  (let? x := r in k x) = Ok y <-> exists x, r = Ok x /\ k x = Ok y.
Proof. destruct r; naive_solver. Qed.

Lemma some_ok {E A B} (o : option A) (e : E) (k : A -> result E B) y :
  match o with Some x => k x | None => Err e end = Ok y <-> exists x, o = Some x /\ k x = Ok y.
Proof. destruct o; naive_solver. Qed.

Lemma ok_or_ok {E A} (e : E) (o : option A) x : ok_or e o = Ok x <-> o = Some x.
Proof. destruct o; naive_solver. Qed.

Lemma map_err_ok {E F A} (f : E -> F) (r : result E A) x : map_err f r = Ok x <-> r = Ok x.
Proof. destruct r; naive_solver. Qed.

Lemma ok_inj {E A} (x y : A) : @Ok E A x = Ok y <-> x = y.
Proof. naive_solver. Qed.

Lemma negb_false (b : bool) : negb b = false <-> b = true.
Proof. by destruct b. Qed.

#[export] Hint Rewrite @guard_ok @bind_ok @some_ok @ok_or_ok @map_err_ok @ok_inj
  negb_false orb_false_iff andb_false_iff andb_true_iff orb_true_iff negb_true_iff
  bool_decide_eq_true bool_decide_eq_false
  N.eqb_eq N.eqb_neq N.ltb_lt N.ltb_ge N.leb_le N.leb_gt
  Z.eqb_eq Z.eqb_neq Z.ltb_lt Z.ltb_ge Z.leb_le Z.leb_gt
  Nat.ltb_lt Nat.ltb_ge Nat.leb_le Nat.leb_gt Nat.eqb_eq Nat.eqb_neq : guards.

Ltac guard_simpl := autorewrite with guards.
Ltac guard_simpl_in H := autorewrite with guards in H.
