(* ===== verification/Bytes.v ===== *)
(** * Bytes and little-endian integers

    The wire carries bytes; [Bytes], [BytesMut] and [&[u8]] are lists of
    [Byte.byte].  This file has the little-endian conversions of the Rust
    standard library ([to_le_bytes], [from_le_bytes]) at any width, the signed
    16-bit view, [as_chunks], and the lemmas that make them inverses. *)
From S2P Require Import Prelude.
From Stdlib Require Import Strings.Byte.

Abbreviation byte := Init.Byte.byte.

#[export] Instance byte_eq_dec : EqDecision byte := Byte.byte_eq_dec.

(** The value of a byte, and the byte of a value modulo 256 ([as u8]). *)
Definition u8_of (b : byte) : N := Byte.to_N b.
Definition byte_of (n : N) : byte := default Byte.x00 (Byte.of_N (n mod 256)).

Lemma u8_of_bound b : u8_of b < 256.
Proof. unfold u8_of. pose proof (Byte.to_N_bounded b). lia. Qed.

Lemma byte_of_u8 b : byte_of (u8_of b) = b.
Proof.
  unfold byte_of, u8_of. rewrite N.mod_small by (pose proof (Byte.to_N_bounded b); lia).
  by rewrite Byte.of_to_N.
Qed.

Lemma u8_of_byte n : u8_of (byte_of n) = n mod 256.
Proof.
  unfold byte_of, u8_of. destruct (Byte.of_N (n mod 256)) as [b|] eqn:E; simpl.
  - by apply Byte.to_of_N_iff in E.
  - apply Byte.of_N_None_iff in E. pose proof (N.mod_lt n 256). lia.
Qed.

Lemma u8_of_byte_small n : n < 256 -> u8_of (byte_of n) = n.
Proof. intros. rewrite u8_of_byte. by apply N.mod_small. Qed.

Lemma u8_of_inj a b : u8_of a = u8_of b -> a = b.
Proof. intros H. by rewrite <- (byte_of_u8 a), <- (byte_of_u8 b), H. Qed.

(** [to_le_bytes] on an integer of [w] bytes, and [from_le_bytes]. *)
Fixpoint to_le (w : nat) (n : N) : list byte :=
  match w with
  | O => []
  | S w => byte_of n :: to_le w (n / 256)
  end.

Fixpoint from_le (bs : list byte) : N :=
  match bs with
  | [] => 0
  | b :: bs => u8_of b + 256 * from_le bs
  end.

Lemma length_to_le w n : length (to_le w n) = w.
Proof. revert n. induction w; intros; simpl; auto. Qed.

Lemma from_le_bound bs : from_le bs < 256 ^ N.of_nat (length bs).
Proof.
  induction bs as [|b bs IH]; simpl length; [simpl; lia|].
  rewrite Nat2N.inj_succ, N.pow_succ_r'. simpl. pose proof (u8_of_bound b). lia.
Qed.

Lemma from_to_le w n : n < 256 ^ N.of_nat w -> from_le (to_le w n) = n.
Proof.
  revert n. induction w as [|w IH]; intros n H; [simpl in *; lia|].
  rewrite Nat2N.inj_succ, N.pow_succ_r' in H. cbn [to_le from_le].
  rewrite u8_of_byte, IH.
  - pose proof (N.div_mod n 256). lia.
  - apply N.Div0.div_lt_upper_bound; lia.
Qed.

Lemma to_from_le bs : to_le (length bs) (from_le bs) = bs.
Proof.
  induction bs as [|b bs IH]; [done|]. cbn [length from_le to_le].
  pose proof (u8_of_bound b). f_equal.
  - apply u8_of_inj. rewrite u8_of_byte, N.mul_comm, N.Div0.mod_add. by apply N.mod_small.
  - rewrite N.mul_comm, N.div_add by lia. rewrite (N.div_small (u8_of b)) by done. exact IH.
Qed.

(** [i16::from_le_bytes] and [i16::to_le_bytes]: two's complement. *)
Definition i16_of_u16 (n : N) : Z := if n <? 32768 then Z.of_N n else (Z.of_N n - 65536)%Z.
Definition u16_of_i16 (z : Z) : N := Z.to_N (z mod 65536).
Definition i16_range (z : Z) : Prop := (-32768 <= z < 32768)%Z.

Definition i16_from_le (bs : list byte) : Z := i16_of_u16 (from_le bs).
Definition i16_to_le (z : Z) : list byte := to_le 2 (u16_of_i16 z).

Lemma i16_of_u16_range n : n < 65536 -> i16_range (i16_of_u16 n).
Proof. unfold i16_of_u16, i16_range. destruct (N.ltb_spec n 32768); lia. Qed.

Lemma u16_of_i16_lt z : u16_of_i16 z < 65536.
Proof. unfold u16_of_i16. pose proof (Z.mod_pos_bound z 65536). lia. Qed.

Lemma i16_u16 z : i16_range z -> i16_of_u16 (u16_of_i16 z) = z.
Proof.
  unfold i16_range, i16_of_u16, u16_of_i16. intros H.
  destruct (Z.leb_spec 0 z).
  - rewrite Z.mod_small by lia. destruct (N.ltb_spec (Z.to_N z) 32768); lia.
  - replace (z mod 65536)%Z with (z + 65536)%Z; [destruct (N.ltb_spec (Z.to_N (z + 65536)) 32768); lia|].
    rewrite <- (Z.mod_add z 1 65536) by lia. rewrite Z.mod_small; lia.
Qed.

Lemma u16_i16 n : n < 65536 -> u16_of_i16 (i16_of_u16 n) = n.
Proof.
  unfold i16_of_u16, u16_of_i16. intros H. destruct (N.ltb_spec n 32768).
  - rewrite Z.mod_small by lia. lia.
  - rewrite <- (Z.mod_add _ 1 65536) by lia. rewrite Z.mod_small by lia. lia.
Qed.

Lemma i16_from_to_le z : i16_range z -> i16_from_le (i16_to_le z) = z.
Proof.
  intros H. unfold i16_from_le, i16_to_le. rewrite from_to_le by (apply u16_of_i16_lt).
  by apply i16_u16.
Qed.

Lemma i16_to_from_le bs : length bs = 2%nat -> i16_to_le (i16_from_le bs) = bs.
Proof.
  intros H. unfold i16_from_le, i16_to_le.
  pose proof (from_le_bound bs) as Hb. rewrite H in Hb. simpl in Hb.
  rewrite u16_i16 by done. rewrite <- H. apply to_from_le.
Qed.

Lemma length_i16_to_le z : length (i16_to_le z) = 2%nat.
Proof. apply length_to_le. Qed.

(** [as_chunks::<W>().0]: the whole [w]-byte chunks of a slice.  The fuel is
    the slice's length, which is enough because [w] is never 0. *)
Fixpoint chunks_fuel (fuel w : nat) (bs : list byte) : list (list byte) :=
  match fuel with
  | O => []
  | S fuel =>
      if (w <=? length bs)%nat then take w bs :: chunks_fuel fuel w (drop w bs) else []
  end.
Definition as_chunks (w : nat) (bs : list byte) : list (list byte) :=
  chunks_fuel (length bs) w bs.

Lemma chunks_fuel_concat fuel w (cs : list (list byte)) :
  (0 < w)%nat -> Forall (fun c => length c = w) cs -> (length cs <= fuel)%nat ->
  chunks_fuel fuel w (concat cs) = cs.
Proof.
  intros Hw. revert fuel. induction cs as [|c cs IH]; intros fuel Hf Hlen.
  - destruct fuel; [done|]. simpl. destruct (Nat.leb_spec w 0); [lia|done].
  - apply Forall_cons in Hf as [Hc Hf]. destruct fuel; [simpl in Hlen; lia|].
    simpl. destruct (Nat.leb_spec w (length (c ++ concat cs))) as [Hle|Hgt].
    + rewrite take_app_length' by done. rewrite drop_app_length' by done.
      f_equal. apply IH; [done|]. simpl in Hlen. lia.
    + rewrite length_app in Hgt. lia.
Qed.

Lemma length_concat_chunks w (cs : list (list byte)) :
  Forall (fun c => length c = w) cs -> length (concat cs) = (length cs * w)%nat.
Proof.
  induction 1 as [|c cs Hc _ IH]; [done|]. simpl. rewrite length_app. lia.
Qed.

Lemma as_chunks_concat w (cs : list (list byte)) :
  (0 < w)%nat -> Forall (fun c => length c = w) cs -> as_chunks w (concat cs) = cs.
Proof.
  intros Hw Hf. apply chunks_fuel_concat; [done|done|].
  rewrite (length_concat_chunks w) by done. nia.
Qed.

Lemma chunks_fuel_length fuel w bs :
  (0 < w)%nat -> (length bs <= fuel)%nat ->
  Forall (fun c => length c = w) (chunks_fuel fuel w bs) /\
  length (chunks_fuel fuel w bs) = (length bs / w)%nat.
Proof.
  intros Hw. revert bs. induction fuel as [|fuel IH]; intros bs Hlen; simpl.
  - replace (length bs) with 0%nat by lia. by rewrite Nat.Div0.div_0_l.
  - destruct (Nat.leb_spec w (length bs)) as [Hle|Hgt].
    + destruct (IH (drop w bs)) as [Hf Hl]; [rewrite length_drop; lia|]. split.
      * constructor; [rewrite length_take; lia|done].
      * simpl. rewrite Hl, length_drop.
        replace (length bs) with (length bs - w + 1 * w)%nat at 2 by lia.
        rewrite Nat.div_add by lia. lia.
    + split; [constructor|]. by rewrite Nat.div_small.
Qed.

Lemma as_chunks_widths w bs : (0 < w)%nat -> Forall (fun c => length c = w) (as_chunks w bs).
Proof. intros Hw. by apply chunks_fuel_length. Qed.

Lemma length_as_chunks w bs : (0 < w)%nat -> length (as_chunks w bs) = (length bs / w)%nat.
Proof. intros Hw. by apply chunks_fuel_length. Qed.

Lemma concat_chunks_fuel fuel w n bs :
  (0 < w)%nat -> length bs = (n * w)%nat -> (n <= fuel)%nat -> concat (chunks_fuel fuel w bs) = bs.
Proof.
  intros Hw. revert n bs. induction fuel as [|fuel IH]; intros n bs Hlen Hn; simpl.
  - destruct bs; [done|]. simpl in Hlen. nia.
  - destruct (Nat.leb_spec w (length bs)) as [Hle|Hgt].
    + simpl. rewrite (IH (pred n)); [apply take_drop| |lia].
      rewrite length_drop. nia.
    + destruct bs; [done|]. destruct n; simpl in *; nia.
Qed.

Lemma concat_as_chunks w n bs :
  (0 < w)%nat -> length bs = (n * w)%nat -> concat (as_chunks w bs) = bs.
Proof. intros Hw Hlen. apply (concat_chunks_fuel _ _ n); [done|done|nia]. Qed.

(** The [i]-th chunk, and the chunks of a slice on the chunk grid. *)
Lemma chunks_fuel_lookup fuel w bs i :
  (0 < w)%nat -> (length bs <= fuel)%nat -> ((i + 1) * w <= length bs)%nat ->
  chunks_fuel fuel w bs !! i = Some (take w (drop (i * w) bs)).
Proof.
  intros Hw. revert bs i. induction fuel as [|fuel IH]; intros bs i Hlen Hi; [nia|].
  cbn [chunks_fuel]. destruct (Nat.leb_spec w (length bs)) as [Hle|]; [|nia].
  destruct i as [|i]; [done|]. cbn [lookup list_lookup].
  rewrite IH by (rewrite length_drop; nia). by rewrite drop_drop.
Qed.

Lemma as_chunks_slice w bs a n i :
  (0 < w)%nat -> ((a + n) * w <= length bs)%nat -> (i < n)%nat ->
  as_chunks w (take (n * w) (drop (a * w) bs)) !! i = as_chunks w bs !! (a + i)%nat.
Proof.
  intros Hw Hlen Hi. unfold as_chunks.
  assert (Ht : length (take (n * w) (drop (a * w) bs)) = (n * w)%nat)
    by (rewrite length_take, length_drop; nia).
  rewrite !chunks_fuel_lookup by (rewrite ?Ht; nia). f_equal.
  rewrite skipn_firstn_comm, take_take, drop_drop.
  replace (w `min` (n * w - i * w))%nat with w by nia. do 2 f_equal. nia.
Qed.
