(* ===== verification/WireEnum.v ===== *)
(** * Closed string vocabularies

    The [wire_enum!] macro of [protocol/src/macros.rs] (and its twin
    [vocabulary!] of [uplink/src/wire.rs]) declares a fieldless enum whose
    variants map one to one onto wire spellings.  What the macro generates is
    the class [WireEnum]; what every vocabulary owes its users is the class
    [WireLaws], against which the round trips are proved once. *)
From S2P Require Import Prelude.

Class WireEnum (A : Type) := {
  (** The exact wire spelling. *)
  as_str : A -> string;
  (** Every value, in declaration order. *)
  ALL : list A;
}.

(** The generated [match text { $( $wire => Some(..), )+ _ => None }]: the
    first variant, in declaration order, spelled [text]. *)
Definition from_wire {A} `{WireEnum A} (text : string) : option A :=
  find_first (fun v => String.eqb (as_str v) text) ALL.

Class WireLaws (A : Type) `{WireEnum A} := {
  all_complete (a : A) : a ∈ ALL;
  spellings_distinct : NoDup (as_str <$> ALL);
}.

Ltac solve_wire_laws :=
  split;
  [ intros []; apply list_elem_of_In; simpl; tauto
  | apply (bool_decide_unpack _); vm_compute; exact I ].

Section laws.
Context {A : Type} `{WL : WireLaws A}.

#[export] Instance as_str_inj : Inj (=) (=) as_str.
Proof.
  intros a b Hab. pose proof spellings_distinct as Hnd.
  pose proof (all_complete a) as [i Hi]%list_elem_of_lookup.
  pose proof (all_complete b) as [j Hj]%list_elem_of_lookup.
  assert (Hij : i = j).
  { eapply NoDup_lookup; [exact Hnd| |].
    - by rewrite list_lookup_fmap, Hi.
    - by rewrite list_lookup_fmap, Hj, Hab. }
  congruence.
Qed.

Lemma from_wire_as_str (a : A) : from_wire (as_str a) = Some a.
Proof.
  unfold from_wire.
  destruct (find_first (fun v => String.eqb (as_str v) (as_str a)) ALL) as [b|] eqn:E.
  - apply find_first_Some in E as [_ E]. apply String.eqb_eq in E. by apply (inj as_str) in E as ->.
  - apply find_first_None, any_false with (x := a) in E; [|apply all_complete].
    by rewrite String.eqb_refl in E.
Qed.

Lemma from_wire_Some text (a : A) : from_wire text = Some a -> as_str a = text.
Proof. intros [_ E]%find_first_Some. by apply String.eqb_eq in E. Qed.

Lemma from_wire_iff text (a : A) : from_wire text = Some a <-> as_str a = text.
Proof. split; [apply from_wire_Some|intros <-; apply from_wire_as_str]. Qed.

Lemma from_wire_None text : from_wire text = None <-> forall a : A, as_str a <> text.
Proof.
  split.
  - intros Hn a <-. by rewrite from_wire_as_str in Hn.
  - intros Hn. destruct (from_wire text) as [a|] eqn:E; [|done].
    by destruct (Hn a); apply from_wire_Some.
Qed.

(** Vocabularies are decidable and countable through their spellings. *)
#[export] Instance wire_eq_dec : EqDecision A | 100.
Proof.
  intros a b. destruct (decide (as_str a = as_str b)) as [E|E].
  - left. by apply (inj as_str).
  - right. congruence.
Defined.
End laws.

#[export] Instance wire_countable {A} `{WL : WireLaws A} `{EqDecision A} : Countable A | 100.
Proof. refine (inj_countable as_str from_wire from_wire_as_str). Defined.

(** ** [protocol/src/error.rs] *)
Inductive ProtocolErrorCode :=
  | Pe_UnsupportedProtocol | Pe_MalformedMessage | Pe_MalformedFrame | Pe_Oversize | Pe_WrongSession
  | Pe_WrongDevice | Pe_UnexpectedMessage | Pe_BadStream | Pe_UnknownEpoch | Pe_StreamEnded | Pe_Sequence
  | Pe_SampleOrder | Pe_UnexpectedKind.

#[export] Instance ProtocolErrorCode_wire : WireEnum ProtocolErrorCode := {
  as_str c := match c with
    | Pe_UnsupportedProtocol => "unsupported_protocol"
    | Pe_MalformedMessage => "malformed_message"
    | Pe_MalformedFrame => "malformed_frame"
    | Pe_Oversize => "oversize"
    | Pe_WrongSession => "wrong_session"
    | Pe_WrongDevice => "wrong_device"
    | Pe_UnexpectedMessage => "unexpected_message"
    | Pe_BadStream => "bad_stream"
    | Pe_UnknownEpoch => "unknown_epoch"
    | Pe_StreamEnded => "stream_ended"
    | Pe_Sequence => "sequence"
    | Pe_SampleOrder => "sample_order"
    | Pe_UnexpectedKind => "unexpected_kind"
    end%string;
  ALL := [Pe_UnsupportedProtocol; Pe_MalformedMessage; Pe_MalformedFrame; Pe_Oversize; Pe_WrongSession;
          Pe_WrongDevice; Pe_UnexpectedMessage; Pe_BadStream; Pe_UnknownEpoch; Pe_StreamEnded; Pe_Sequence;
          Pe_SampleOrder; Pe_UnexpectedKind];
}.
#[export] Instance ProtocolErrorCode_laws : WireLaws ProtocolErrorCode.
Proof. solve_wire_laws. Qed.

(** A violation of the device link contract, and its [Display] text. *)
Record ProtocolError := mkProtocolError { pe_code : ProtocolErrorCode; pe_detail : string }.

Definition malformed (detail : string) : ProtocolError :=
  mkProtocolError Pe_MalformedMessage detail.

Definition protocol_error_display (e : ProtocolError) : string :=
  (as_str (pe_code e) +:+ ": " +:+ pe_detail e)%string.
