(* ===== verification/Float.v ===== *)
(** * Floating point: Rust's and Go's [f64]

    A [f64] is a [spec_float] of the Standard Library at binary64, every
    operation rounded as IEEE 754 does; a decimal literal is the quotient of two
    integers, which is how it is read. *)
From Stdlib Require Import Floats.SpecFloat.
From S2P Require Import Prelude.

Definition F64 : Type := spec_float.
Definition f64_prec : Z := 53.
Definition f64_emax : Z := 1024.
Definition f64_of_Z (z : Z) : F64 := binary_normalize f64_prec f64_emax z 0 false.
Definition f64_add : F64 -> F64 -> F64 := SFadd f64_prec f64_emax.
Definition f64_sub : F64 -> F64 -> F64 := SFsub f64_prec f64_emax.
Definition f64_mul : F64 -> F64 -> F64 := SFmul f64_prec f64_emax.
Definition f64_div : F64 -> F64 -> F64 := SFdiv f64_prec f64_emax.
Definition f64_leb : F64 -> F64 -> bool := SFleb.
Definition f64_ltb : F64 -> F64 -> bool := SFltb.
(** [num / den], both exact. *)
Definition f64_ratio (num den : Z) : F64 := f64_div (f64_of_Z num) (f64_of_Z den).
(** [f64::is_finite]. *)
Definition f64_is_finite (x : F64) : bool :=
  match x with S754_zero _ | S754_finite _ _ _ => true | _ => false end.
(** [f64::max]: of a number and a NaN, the number. *)
Definition f64_max (a b : F64) : F64 :=
  match SFcompare a b with
  | Some Lt => b
  | Some _ => a
  | None => match a with S754_nan => b | _ => a end
  end.
(** [x.floor() as usize]: a negative number or a NaN is 0. *)
Definition f64_floor_index (x : F64) : N :=
  match x with
  | S754_finite false m e =>
      match e with
      | Z0 => Npos m
      | Zpos e => N.min (N.shiftl (Npos m) (Npos e)) u64_max
      | Zneg e => N.shiftr (Npos m) (Npos e)
      end
  | S754_infinity false => u64_max
  | _ => 0
  end.
(** [f64::total_cmp], with one NaN, above every number. *)
Definition f64_total_key (x : F64) : Z :=
  match x with S754_zero true => (-1)%Z | _ => 0%Z end.
Definition f64_total_cmp (a b : F64) : comparison :=
  match SFcompare a b with
  | Some Eq => Z.compare (f64_total_key a) (f64_total_key b)
  | Some c => c
  | None => match a, b with S754_nan, S754_nan => Eq | S754_nan, _ => Gt | _, _ => Lt end
  end.
(** [==], [abs], [trunc], [fract] (exact, as its subtraction is), [round] (half
    away from zero) and the cast to [i64]. *)
Definition f64_eqb : F64 -> F64 -> bool := SFeqb.
Definition f64_abs : F64 -> F64 := SFabs.
Definition f64_trunc (x : F64) : F64 :=
  match x with
  | S754_finite s m (Zneg e) =>
      binary_normalize f64_prec f64_emax (cond_Zopp s (Zpos m / 2 ^ Zpos e)) 0 s
  | _ => x
  end.
Definition f64_fract (x : F64) : F64 :=
  match x with
  | S754_finite s m (Zneg e) =>
      binary_normalize f64_prec f64_emax (cond_Zopp s (Zpos m mod 2 ^ Zpos e)) (Zneg e) false
  | S754_finite _ _ _ | S754_zero _ => S754_zero false
  | _ => S754_nan
  end.
Definition f64_round (x : F64) : F64 :=
  match x with
  | S754_finite s m (Zneg e) =>
      binary_normalize f64_prec f64_emax
        (cond_Zopp s ((2 * Zpos m + 2 ^ Zpos e) / (2 * 2 ^ Zpos e))) 0 s
  | _ => x
  end.
Definition f64_as_i64 (x : F64) : Z :=
  match x with
  | S754_finite s m e =>
      let n := match e with Zneg e => Zpos m / 2 ^ Zpos e | _ => Zpos m * 2 ^ e end in
      Z.max (- 2 ^ 63) (Z.min (2 ^ 63 - 1) (cond_Zopp s n))
  | S754_infinity s => if s then - 2 ^ 63 else 2 ^ 63 - 1
  | _ => 0
  end%Z.

(** ** Exactness *)
Section exact.
Open Scope Z_scope.

Lemma digits2_pos_bounds p : 2 ^ (Zpos (digits2_pos p) - 1) <= Zpos p < 2 ^ Zpos (digits2_pos p).
Proof.
  induction p as [p IH|p IH|]; cbn [digits2_pos]; [| |by cbn].
  all: rewrite Pos2Z.inj_succ, Z.pow_succ_r by lia.
  all: replace (Z.succ (Zpos (digits2_pos p)) - 1) with (Z.succ (Zpos (digits2_pos p) - 1)) by lia;
    rewrite Z.pow_succ_r by lia; lia.
Qed.

Lemma digits2_pos_unique p d : 2 ^ (d - 1) <= Zpos p < 2 ^ d -> Zpos (digits2_pos p) = d.
Proof.
  intros [Hl Hu]. pose proof (digits2_pos_bounds p) as [Hl' Hu'].
  assert (0 < d) by (destruct (Z.ltb_spec 0 d) as [|Hd]; [done|]; pose proof (Z.pow_pos_nonneg 2 d);
    destruct (Z.eq_dec d 0) as [->|]; [cbn in *; lia|rewrite Z.pow_neg_r in Hu by lia; lia]).
  destruct (Z.lt_trichotomy (Zpos (digits2_pos p)) d) as [Hc|[Hc|Hc]]; [|done|].
  - pose proof (Z.pow_le_mono_r 2 (Zpos (digits2_pos p)) (d - 1) ltac:(lia) ltac:(lia)). lia.
  - pose proof (Z.pow_le_mono_r 2 d (Zpos (digits2_pos p) - 1) ltac:(lia) ltac:(lia)). lia.
Qed.

Lemma digits2_pos_shift p q d :
  0 <= d -> Zpos q = Zpos p * 2 ^ d -> Zpos (digits2_pos q) = Zpos (digits2_pos p) + d.
Proof.
  intros Hd E. apply digits2_pos_unique. pose proof (digits2_pos_bounds p) as [Hl Hu]. rewrite E.
  replace (Zpos (digits2_pos p) + d - 1) with (Zpos (digits2_pos p) - 1 + d) by lia.
  rewrite !Z.pow_add_r by lia. pose proof (Z.pow_pos_nonneg 2 d). nia.
Qed.

Lemma digits2_pos_mono p q : Zpos p <= Zpos q -> Zpos (digits2_pos p) <= Zpos (digits2_pos q).
Proof.
  intros Hpq. pose proof (digits2_pos_bounds p). pose proof (digits2_pos_bounds q).
  destruct (Z.leb_spec (Zpos (digits2_pos p)) (Zpos (digits2_pos q))) as [|Hlt]; [done|].
  pose proof (Z.pow_le_mono_r 2 (Zpos (digits2_pos q)) (Zpos (digits2_pos p) - 1) ltac:(lia) ltac:(lia)). lia.
Qed.

Lemma iter_xO_spec p d : Zpos (Pos.iter xO p d) = Zpos p * 2 ^ Zpos d.
Proof.
  induction d as [|d IH] using Pos.peano_ind; [by cbn; lia|].
  rewrite Pos.iter_succ, Pos2Z.inj_succ, Z.pow_succ_r by lia. lia.
Qed.

Notation fexp64 := (fexp f64_prec f64_emax).

(** A number that needs no bit dropped is not rounded. *)
Lemma binary_round_exact s mz ez m e :
  e <= ez -> Zpos m = Zpos mz * 2 ^ (ez - e) -> bounded f64_prec f64_emax m e = true ->
  binary_round f64_prec f64_emax s mz ez = S754_finite s m e.
Proof.
  intros He Em Hb. unfold bounded, canonical_mantissa in Hb. apply andb_true_iff in Hb as [Hc Hm].
  apply Z.eqb_eq in Hc. apply Z.leb_le in Hm.
  assert (Hd : Zpos (digits2_pos mz) + ez = Zpos (digits2_pos m) + e)
    by (rewrite (digits2_pos_shift mz m (ez - e)); lia).
  unfold binary_round. rewrite Hd, Hc.
  assert (Hs : shl_align mz ez e = (m, e)).
  { unfold shl_align. destruct (e - ez) as [|d|d] eqn:Ed; [|lia|].
    - replace ez with e in * by lia. rewrite Z.sub_diag in Em. f_equal. lia.
    - f_equal. apply Pos2Z.inj. rewrite iter_xO_spec, Em. do 2 f_equal. lia. }
  rewrite Hs. unfold binary_round_aux, shr_fexp. cbn [Zdigits2 shr_record_of_loc].
  rewrite Hc, Z.sub_diag. cbn [shr shr_m loc_of_shr_record round_nearest_even Zdigits2].
  rewrite Hc, Z.sub_diag. cbn [shr shr_m]. by apply Z.leb_le in Hm as ->.
Qed.

Lemma fexp64_mono a b : a <= b -> fexp64 a <= fexp64 b.
Proof. unfold fexp. lia. Qed.

(** The remainder of a canonical mantissa is written exactly. *)
Lemma binary_round_nonzero s mz e m :
  bounded f64_prec f64_emax m e = true -> Zpos mz <= Zpos m ->
  exists m' e', binary_round f64_prec f64_emax s mz e = S754_finite s m' e'.
Proof.
  intros Hb Hle. unfold bounded, canonical_mantissa in Hb. apply andb_true_iff in Hb as [Hc Hm].
  apply Z.eqb_eq in Hc. apply Z.leb_le in Hm.
  set (e' := fexp64 (Zpos (digits2_pos mz) + e)).
  assert (He' : e' <= e).
  { unfold e'. pose proof (digits2_pos_mono mz m Hle).
    pose proof (fexp64_mono (Zpos (digits2_pos mz) + e) (Zpos (digits2_pos m) + e) ltac:(lia)). lia. }
  set (m' := Z.to_pos (Zpos mz * 2 ^ (e - e'))).
  assert (Hm' : Zpos m' = Zpos mz * 2 ^ (e - e')) by (unfold m'; rewrite Z2Pos.id; [done|]; pose proof (Z.pow_pos_nonneg 2 (e - e')); nia).
  exists m', e'. apply binary_round_exact; [done|done|]. unfold bounded, canonical_mantissa.
  rewrite (digits2_pos_shift mz m' (e - e')) by (lia || done).
  replace (Zpos (digits2_pos mz) + (e - e') + e') with (Zpos (digits2_pos mz) + e) by lia.
  fold e'. rewrite Z.eqb_refl. apply Z.leb_le in Hm. apply andb_true_iff. split; [done|]. apply Z.leb_le. lia.
Qed.

(** A whole number below 2^53 survives the cast to an integer and back. *)
Lemma f64_whole_round_trip x :
  valid_binary f64_prec f64_emax x = true -> f64_eqb (f64_fract x) (S754_zero false) = true ->
  f64_ltb (f64_abs x) (f64_of_Z (2 ^ 53)) = true ->
  - 2 ^ 53 < f64_as_i64 x < 2 ^ 53 /\ (f64_of_Z (f64_as_i64 x) = x \/ x = S754_zero true /\ f64_as_i64 x = 0).
Proof.
  intros Hv Hf Hl. destruct x as [[]|s| |s m e]; try done; [by split; [cbn; lia|right]|by split; [cbn; lia|left]|].
  cbn [valid_binary] in Hv. pose proof Hv as Hb. unfold bounded, canonical_mantissa in Hv.
  apply andb_true_iff in Hv as [Hc Hm]. apply Z.eqb_eq in Hc.
  assert (Hbig : f64_of_Z (2 ^ 53) = S754_finite false (2 ^ 52)%positive 1) by (vm_compute; reflexivity).
  rewrite Hbig in Hl. unfold f64_ltb, f64_abs, SFltb, SFabs, SFcompare in Hl.
  pose proof (digits2_pos_bounds m) as Hd.
  assert (He : e <= 0).
  { destruct (Z.compare_spec e 1) as [->|Hlt|Hgt]; [|lia|done]. exfalso.
    unfold fexp, emin, f64_prec, f64_emax in Hc. assert (H : Zpos (digits2_pos m) = 53) by lia.
    assert (HK : (m < 2 ^ 52)%positive)
      by (unfold Pos.lt, Pos.compare; destruct (Pos.compare_cont Eq m (2 ^ 52)); [done|done|done]).
    apply Pos2Z.pos_lt_pos in HK. rewrite Pos2Z.inj_pow, H in *. lia. }
  assert (Hd53 : Zpos (digits2_pos m) <= 53) by (unfold fexp, emin, f64_prec, f64_emax in Hc; lia).
  assert (Hm53 : Zpos m < 2 ^ 53) by (pose proof (Z.pow_le_mono_r 2 (Zpos (digits2_pos m)) 53 ltac:(lia) Hd53); lia).
  set (d := - e). assert (Ed : e = - d) by lia. assert (0 <= d) by lia.
  pose proof (Z.pow_pos_nonneg 2 d ltac:(lia) ltac:(lia)) as Hp.
  assert (Hn : (match e with Zneg e => Zpos m / 2 ^ Zpos e | _ => Zpos m * 2 ^ e end) = Zpos m / 2 ^ d).
  { destruct e as [|e|e]; [|lia|]; subst d; cbn; [by rewrite Z.mul_1_r, Z.div_1_r|done]. }
  assert (Hmod : Zpos m mod 2 ^ d = 0).
  { destruct e as [|e|e]; [subst d; cbn; apply Z.mod_1_r|lia|].
    assert (Ed' : d = Zpos e) by reflexivity. unfold f64_fract in Hf.
    destruct (Zpos m mod 2 ^ d) as [|r|r] eqn:Er; [done| |pose proof (Z.mod_pos_bound (Zpos m) (2 ^ d) Hp); lia].
    exfalso. assert (Hr : Zpos r <= Zpos m) by (rewrite <- Er; apply Z.mod_le; lia).
    rewrite Ed' in Er. rewrite Er in Hf.
    destruct (binary_round_nonzero s r (Z.neg e) m Hb Hr) as (m' & e' & Hrr).
    destruct s; cbn [cond_Zopp] in Hf; rewrite ?Pos2Z.opp_pos in Hf; cbn [binary_normalize] in Hf; rewrite Hrr in Hf; done. }
  set (n := Zpos m / 2 ^ d). assert (Hmn : Zpos m = n * 2 ^ d) by (pose proof (Z.div_mod (Zpos m) (2 ^ d)); lia).
  assert (Hnb : 0 < n < 2 ^ 53) by nia.
  assert (Hcast : f64_as_i64 (S754_finite s m e) = cond_Zopp s n).
  { cbn [f64_as_i64]. rewrite Hn. fold n. destruct s; cbn [cond_Zopp]; lia. }
  rewrite Hcast. split; [destruct s; cbn [cond_Zopp]; lia|]. left.
  destruct n as [|n|n]; [lia| |lia].
  assert (Hr : binary_round f64_prec f64_emax s n 0 = S754_finite s m e)
    by (apply binary_round_exact; [done|rewrite Hmn; do 2 f_equal; lia|done]).
  by destruct s.
Qed.
End exact.

Lemma f64_of_Z_valid z : (- 2 ^ 53 < z < 2 ^ 53)%Z -> valid_binary f64_prec f64_emax (f64_of_Z z) = true.
Proof.
  intros Hz.
  assert (Hp : forall s p, (Zpos p < 2 ^ 53)%Z -> valid_binary f64_prec f64_emax (binary_round f64_prec f64_emax s p 0) = true).
  { intros s p Hp. pose proof (digits2_pos_bounds p) as [Hl _]. set (d := Zpos (digits2_pos p)) in *.
    assert (Hd : (0 < d <= 53)%Z).
    { split; [lia|]. destruct (Z.leb_spec d 53) as [|Hgt]; [done|].
      pose proof (Z.pow_le_mono_r 2 53 (d - 1) ltac:(lia) ltac:(lia)). lia. }
    pose proof (Z.pow_pos_nonneg 2 (53 - d) ltac:(lia) ltac:(lia)) as Hpos.
    set (m := Z.to_pos (Zpos p * 2 ^ (53 - d))).
    assert (Em : (Zpos m = Zpos p * 2 ^ (53 - d))%Z) by (unfold m; rewrite Z2Pos.id; [done|nia]).
    assert (Hb : bounded f64_prec f64_emax m (d - 53) = true).
    { unfold bounded, canonical_mantissa. rewrite (digits2_pos_shift p m (53 - d)) by (lia || done). fold d.
      apply andb_true_iff. split; [apply Z.eqb_eq|apply Z.leb_le]; unfold fexp, emin, f64_prec, f64_emax; lia. }
    rewrite (binary_round_exact s p 0 m (d - 53)); [done|lia|rewrite Em; do 2 f_equal; lia|done]. }
  destruct z as [|p|p]; [done| |]; apply Hp; lia.
Qed.
