(* ===== verification/Ema.v ===== *)
(** * EMA1 audio frames ([controller-rs/crates/protocol/src/ema.rs])

    A frame is a 64-byte little-endian header followed by PCM16 samples, cell
    records or AFE records.  [parse] is [Packet::parse], [encode] and
    [encode_render] are the encoders.  [EmaRules] states the wire contract
    independently of the order in which the code checks it; the theorems show
    that both directions of the codec implement exactly that contract. *)
From S2P Require Import Prelude Bytes WireEnum.

Definition HEADER_BYTES : nat := 64.
Definition MAGIC : list byte := [Byte.x45; Byte.x4d; Byte.x41; Byte.x31].
Definition UNCERTAINTY_UNKNOWN : N := 4294967295.
Definition CAPTURE_RATE : N := 16000.
Definition RENDER_RATE : N := 48000.
Definition CELL_SAMPLES : N := 512.
Definition AFE_PERIOD_SAMPLES : N := 1280.
Definition CELL_RECORD_BYTES : nat := 4.
Definition AFE_RECORD_BYTES : nat := 14.

(** ** Kinds and formats *)
Inductive Kind := K_Mic | K_Reference | K_Render | K_Cells | K_Afe.
#[export] Instance Kind_eq_dec : EqDecision Kind.
Proof. solve_decision. Defined.

Definition kind_u8 (k : Kind) : N :=
  match k with K_Mic => 1 | K_Reference => 2 | K_Render => 3 | K_Cells => 4 | K_Afe => 5 end.

Definition kind_from_u8 (value : N) : option Kind :=
  match value with
  | 1 => Some K_Mic
  | 2 => Some K_Reference
  | 3 => Some K_Render
  | 4 => Some K_Cells
  | 5 => Some K_Afe
  | _ => None
  end.

Inductive Format := Pcm16 | CellV1 | AfeV1.
Definition format_u8 (f : Format) : N :=
  match f with Pcm16 => 1 | CellV1 => 2 | AfeV1 => 3 end.

Definition kind_format (k : Kind) : Format :=
  match k with
  | K_Cells => CellV1
  | K_Afe => AfeV1
  | K_Mic | K_Reference | K_Render => Pcm16
  end.

Definition kind_sample_rate (k : Kind) : N :=
  match k with K_Render => RENDER_RATE | _ => CAPTURE_RATE end.

Definition kind_max_frames (k : Kind) : N :=
  match k with
  | K_Mic | K_Reference => 1280
  | K_Render => 3840
  | K_Cells => 320
  | K_Afe => 125
  end.

Definition samples_per_frame (k : Kind) : N :=
  match k with
  | K_Cells => CELL_SAMPLES
  | K_Afe => AFE_PERIOD_SAMPLES
  | K_Mic | K_Reference | K_Render => 1
  end.

(** ** Bit sets.  [bits & !KNOWN] is [N.ldiff]; a set is the number of its
    bits. *)
Definition bits_known (known bits : N) : option N :=
  if N.ldiff bits known =? 0 then Some bits else None.
Definition bits_contain (bits other : N) : bool := N.land bits other =? other.

Definition FLAGS_NONE : N := 0.
Definition FLAG_DISCONTINUITY : N := 1.
Definition FLAG_MUTED : N := 2.
Definition FLAG_UNDERRUN : N := 4.
Definition FLAG_ESTIMATED : N := 8.
Definition FLAG_DIGITAL_SILENCE : N := 16.
Definition FLAGS_KNOWN : N := 31.
Definition flags_from_bits (bits : N) : option N := bits_known FLAGS_KNOWN bits.

Definition SOURCE_NONE : N := 0.
Definition SOURCE_CONTENT : N := 1.
Definition SOURCE_ALERT : N := 2.
Definition SOURCE_DIALOG : N := 4.
Definition SOURCE_EARCON : N := 8.
Definition SOURCE_KNOWN : N := 15.
(** [SourceMask::from_bits], a [u32] kept as its low byte. *)
Definition mask_from_bits (bits : N) : option N :=
  if N.ldiff bits SOURCE_KNOWN =? 0 then Some (bits mod 256) else None.

Definition payload_bytes (k : Kind) (flags frames : N) : N :=
  match k with
  | K_Cells => frames * N.of_nat CELL_RECORD_BYTES
  | K_Afe => frames * N.of_nat AFE_RECORD_BYTES
  | _ => if bits_contain flags FLAG_DIGITAL_SILENCE then 0 else frames * 2
  end.

(** ** Headers *)
Record Header := mkHeader {
  h_kind : Kind;
  h_flags : N;
  h_epoch : N;
  h_sequence : N;
  h_first_sample : N;
  h_mono_ns : N;
  h_uncertainty_us : option N;
  h_frame_count : N;
  h_generation : N;
  h_source_mask : N;
}.

Definition header_payload_bytes (h : Header) : N :=
  payload_bytes (h_kind h) (h_flags h) (h_frame_count h).

Definition header_end_sample (h : Header) : option N :=
  checked_add64 (h_first_sample h) (h_frame_count h * samples_per_frame (h_kind h)).

(** ** Cell and AFE records *)
Definition byte_at (bs : list byte) (i : nat) : N := u8_of (default Byte.x00 (bs !! i)).

Record Cell := mkCell { c_e_centi : Z; c_flags : N; c_mask : N }.
#[export] Instance Cell_eq_dec : EqDecision Cell.
Proof. solve_decision. Defined.

Definition E_MIN : Z := (-12000)%Z.
Definition E_MAX : Z := 0%Z.
Definition CELL_GAP : N := 1.
Definition CELL_MUTED : N := 2.
Definition CELL_FLAGS_KNOWN : N := 3.
Definition cell_flags_from_bits (bits : N) : option N := bits_known CELL_FLAGS_KNOWN bits.

Inductive CellError :=
  | Loudness (e : Z)
  | CellUndefinedFlags (bits : N)
  | CellUndefinedSources (bits : N)
  | GapLoudness (e : Z).

Definition cell_from_bytes (raw : list byte) : Cell := {|
  c_e_centi := i16_from_le (take 2 raw);
  c_flags := byte_at raw 2;
  c_mask := byte_at raw 3;
|}.

Definition cell_parse (raw : list byte) : result CellError Cell :=
  let cell := cell_from_bytes raw in
  if negb ((E_MIN <=? c_e_centi cell)%Z && (c_e_centi cell <=? E_MAX)%Z) then
    Err (Loudness (c_e_centi cell))
  else if bool_decide (cell_flags_from_bits (byte_at raw 2) = None) then
    Err (CellUndefinedFlags (byte_at raw 2))
  else if bool_decide (mask_from_bits (byte_at raw 3) = None) then
    Err (CellUndefinedSources (byte_at raw 3))
  else if bits_contain (c_flags cell) CELL_GAP && negb (c_e_centi cell =? E_MIN)%Z then
    Err (GapLoudness (c_e_centi cell))
  else Ok cell.

Definition cell_to_bytes (c : Cell) : list byte :=
  i16_to_le (c_e_centi c) ++ [byte_of (c_flags c); byte_of (c_mask c)].

Definition AFE_GAP : N := 1.
Definition AFE_FLAGS_KNOWN : N := 63.
Definition afe_flags_from_bits (bits : N) : option N := bits_known AFE_FLAGS_KNOWN bits.

Record AfeRecord := mkAfe {
  a_frames : N; a_flags : N; a_playback : N; a_erle_max : N; a_erle_mean : N;
  a_erle_frames : N; a_dtd_max : N; a_dtd_frames : N; a_rms_max : N; a_rms_mean : N;
  a_vad_max : N; a_vad_frames : N; a_volume : N; a_lost : N;
}.
#[export] Instance AfeRecord_eq_dec : EqDecision AfeRecord.
Proof. solve_decision. Defined.

Definition AFE_MAX_FRAMES : N := 10.
Definition AFE_DTD_MAX : N := 31.
Definition AFE_VAD_MAX : N := 3.
Definition AFE_VOLUME_MAX : N := 127.

Inductive AfeError :=
  | ReservedFlags (bits : N)
  | OutOfRange (field : string) (value max : N).

Definition afe_from_bytes (b : list byte) : AfeRecord := {|
  a_frames := byte_at b 0; a_flags := byte_at b 1; a_playback := byte_at b 2;
  a_erle_max := byte_at b 3; a_erle_mean := byte_at b 4; a_erle_frames := byte_at b 5;
  a_dtd_max := byte_at b 6; a_dtd_frames := byte_at b 7; a_rms_max := byte_at b 8;
  a_rms_mean := byte_at b 9; a_vad_max := byte_at b 10; a_vad_frames := byte_at b 11;
  a_volume := byte_at b 12; a_lost := byte_at b 13;
|}.

Definition afe_bounds (r : AfeRecord) : list (string * N * N) := [
  ("frames"%string, a_frames r, AFE_MAX_FRAMES);
  ("playback"%string, a_playback r, a_frames r);
  ("erle_frames"%string, a_erle_frames r, a_frames r);
  ("dtd_frames"%string, a_dtd_frames r, a_frames r);
  ("vad_frames"%string, a_vad_frames r, a_frames r);
  ("dtd_max"%string, a_dtd_max r, AFE_DTD_MAX);
  ("vad_max"%string, a_vad_max r, AFE_VAD_MAX);
  ("volume"%string, a_volume r, AFE_VOLUME_MAX)
].

Definition afe_parse (raw : list byte) : result AfeError AfeRecord :=
  if bool_decide (afe_flags_from_bits (byte_at raw 1) = None) then
    Err (ReservedFlags (byte_at raw 1))
  else
    let r := afe_from_bytes raw in
    match find_first (fun '(_, value, max) => max <? value) (afe_bounds r) with
    | Some (field, value, max) => Err (OutOfRange field value max)
    | None => Ok r
    end.

Definition afe_to_bytes (r : AfeRecord) : list byte :=
  byte_of <$> [a_frames r; a_flags r; a_playback r; a_erle_max r; a_erle_mean r;
    a_erle_frames r; a_dtd_max r; a_dtd_frames r; a_rms_max r; a_rms_mean r; a_vad_max r;
    a_vad_frames r; a_volume r; a_lost r].

(** ** Frame errors *)
Inductive FrameError :=
  | Fe_Short (len : nat)
  | Fe_Magic (head : list byte)
  | Fe_Kind (kind : N)
  | Fe_UndefinedFlags (bits : N)
  | Fe_DigitalSilenceOutsideReference (kind : Kind)
  | Fe_Channels (channels : N)
  | Fe_Format (kind : Kind) (format : N)
  | Fe_ZeroEpoch
  | Fe_SampleRate (kind : Kind) (rate : N)
  | Fe_FrameCount (kind : Kind) (count : N)
  | Fe_Generation (kind : Kind) (generation : N)
  | Fe_SourceMask (kind : Kind) (mask : N)
  | Fe_CellAlignment (sample : N)
  | Fe_AfeAlignment (sample : N)
  | Fe_PayloadBytes (expected header : N)
  | Fe_FrameLength (header : N) (actual : nat)
  | Fe_SampleOverflow
  | Fe_Cell (index : nat) (error : CellError)
  | Fe_Afe (index : nat) (error : AfeError)
  | Fe_UncertaintySentinel
  | Fe_PayloadTooLong (len : nat).

(** ** [RawHeader::check]: the header rules, in the firmware's order *)
Record RawHeader := mkRaw {
  r_kind : Kind; r_flags : N; r_channels : N; r_format : N; r_epoch : N;
  r_first_sample : N; r_sample_rate : N; r_frame_count : N; r_generation : N;
  r_source_mask : N; r_payload_bytes : N;
}.

Definition raw_check (r : RawHeader) : result FrameError unit :=
  let kind := r_kind r in
  match flags_from_bits (r_flags r) with
  | None => Err (Fe_UndefinedFlags (r_flags r))
  | Some flags =>
    if bits_contain flags FLAG_DIGITAL_SILENCE && bool_decide (kind <> K_Reference) then
      Err (Fe_DigitalSilenceOutsideReference kind)
    else if negb (r_channels r =? 1) then Err (Fe_Channels (r_channels r))
    else if negb (r_format r =? format_u8 (kind_format kind)) then
      Err (Fe_Format kind (r_format r))
    else if r_epoch r =? 0 then Err Fe_ZeroEpoch
    else if negb (r_sample_rate r =? kind_sample_rate kind) then
      Err (Fe_SampleRate kind (r_sample_rate r))
    else if (r_frame_count r =? 0) || (kind_max_frames kind <? r_frame_count r) then
      Err (Fe_FrameCount kind (r_frame_count r))
    else if bool_decide (kind <> K_Render) && negb (r_generation r =? 0) then
      Err (Fe_Generation kind (r_generation r))
    else if (bool_decide (kind <> K_Reference) && negb (r_source_mask r =? 0))
            || bool_decide (mask_from_bits (r_source_mask r) = None) then
      Err (Fe_SourceMask kind (r_source_mask r))
    else if bool_decide (kind = K_Cells) && negb (is_multiple_of (r_first_sample r) CELL_SAMPLES)
      then Err (Fe_CellAlignment (r_first_sample r))
    else if bool_decide (kind = K_Afe)
            && negb (is_multiple_of (r_first_sample r) AFE_PERIOD_SAMPLES)
      then Err (Fe_AfeAlignment (r_first_sample r))
    else
      let expected := payload_bytes kind flags (r_frame_count r) in
      if negb (r_payload_bytes r =? expected) then
        Err (Fe_PayloadBytes expected (r_payload_bytes r))
      else Ok tt
  end.

Definition header_check (h : Header) (payload_len : N) : result FrameError unit :=
  if bool_decide (h_uncertainty_us h = Some UNCERTAINTY_UNKNOWN) then
    Err Fe_UncertaintySentinel
  else raw_check {|
    r_kind := h_kind h; r_flags := h_flags h; r_channels := 1;
    r_format := format_u8 (kind_format (h_kind h)); r_epoch := h_epoch h;
    r_first_sample := h_first_sample h; r_sample_rate := kind_sample_rate (h_kind h);
    r_frame_count := h_frame_count h; r_generation := h_generation h;
    r_source_mask := h_source_mask h; r_payload_bytes := payload_len;
  |}.

(** [Header::write]. *)
Definition header_write (h : Header) (payload_len : N) : list byte :=
  MAGIC
  ++ [byte_of (kind_u8 (h_kind h)); byte_of (h_flags h); byte_of 1;
      byte_of (format_u8 (kind_format (h_kind h)))]
  ++ to_le 8 (h_epoch h)
  ++ to_le 8 (h_sequence h)
  ++ to_le 8 (h_first_sample h)
  ++ to_le 8 (h_mono_ns h)
  ++ to_le 4 (default UNCERTAINTY_UNKNOWN (h_uncertainty_us h))
  ++ to_le 4 (kind_sample_rate (h_kind h))
  ++ to_le 4 (h_frame_count h)
  ++ to_le 4 (h_generation h)
  ++ to_le 4 (h_source_mask h)
  ++ to_le 4 payload_len.

(** [decode_raw] on the 64 header bytes. *)
Definition le_at (w : nat) (head : list byte) (at_ : nat) : N := from_le (take w (drop at_ head)).

Definition decode_raw (head : list byte) : result FrameError (Header * N) :=
  if negb (bool_decide (take 4 head = MAGIC)) then Err (Fe_Magic (take 4 head))
  else match kind_from_u8 (byte_at head 4) with
  | None => Err (Fe_Kind (byte_at head 4))
  | Some kind =>
    let raw := {|
      r_kind := kind; r_flags := byte_at head 5; r_channels := byte_at head 6;
      r_format := byte_at head 7; r_epoch := le_at 8 head 8;
      r_first_sample := le_at 8 head 24; r_sample_rate := le_at 4 head 44;
      r_frame_count := le_at 4 head 48; r_generation := le_at 4 head 52;
      r_source_mask := le_at 4 head 56; r_payload_bytes := le_at 4 head 60;
    |} in
    let? _ := raw_check raw in
    let uncertainty := le_at 4 head 40 in
    Ok ({|
      h_kind := kind; h_flags := r_flags raw; h_epoch := r_epoch raw;
      h_sequence := le_at 8 head 16; h_first_sample := r_first_sample raw;
      h_mono_ns := le_at 8 head 32;
      h_uncertainty_us :=
        if negb (uncertainty =? UNCERTAINTY_UNKNOWN) then Some uncertainty else None;
      h_frame_count := r_frame_count raw; h_generation := r_generation raw;
      h_source_mask := r_source_mask raw mod 256;
    |}, r_payload_bytes raw)
  end.

Definition decode_header (bytes : list byte) : result FrameError Header :=
  if (length bytes <? HEADER_BYTES)%nat then Err (Fe_Short (length bytes))
  else let? (header, _) := decode_raw (take HEADER_BYTES bytes) in Ok header.

(** ** Packets *)
Fixpoint check_each {R E} (parse : list byte -> result E R) (wrap : nat -> E -> FrameError)
    (index : nat) (chunks : list (list byte)) : result FrameError unit :=
  match chunks with
  | [] => Ok tt
  | raw :: chunks =>
      let? _ := map_err (wrap index) (parse raw) in
      check_each parse wrap (S index) chunks
  end.

Definition check_records (kind : Kind) (payload : list byte) : result FrameError unit :=
  match kind with
  | K_Cells => check_each cell_parse Fe_Cell 0 (as_chunks CELL_RECORD_BYTES payload)
  | K_Afe => check_each afe_parse Fe_Afe 0 (as_chunks AFE_RECORD_BYTES payload)
  | K_Mic | K_Reference | K_Render => Ok tt
  end.

Record Packet := mkPacket { p_header : Header; p_end_sample : N; p_payload : list byte }.

Definition parse (frame : list byte) : result FrameError Packet :=
  if (length frame <? HEADER_BYTES)%nat then Err (Fe_Short (length frame))
  else
    let? (header, header_payload) := decode_raw (take HEADER_BYTES frame) in
    let actual := (length frame - HEADER_BYTES)%nat in
    if negb (N.of_nat actual =? header_payload) then Err (Fe_FrameLength header_payload actual)
    else
      let? end_sample := ok_or Fe_SampleOverflow (header_end_sample header) in
      let payload := drop HEADER_BYTES frame in
      let? _ := check_records (h_kind header) payload in
      Ok {| p_header := header; p_end_sample := end_sample; p_payload := payload |}.

Inductive Content :=
  | C_Pcm (samples : list Z)
  | C_DigitalSilence (frames : N)
  | C_Cells (cells : list Cell)
  | C_Afe (records : list AfeRecord).

Definition content (p : Packet) : Content :=
  match h_kind (p_header p) with
  | K_Cells => C_Cells (cell_from_bytes <$> as_chunks CELL_RECORD_BYTES (p_payload p))
  | K_Afe => C_Afe (afe_from_bytes <$> as_chunks AFE_RECORD_BYTES (p_payload p))
  | _ =>
      if bits_contain (h_flags (p_header p)) FLAG_DIGITAL_SILENCE then
        C_DigitalSilence (h_frame_count (p_header p))
      else C_Pcm (i16_from_le <$> as_chunks 2 (p_payload p))
  end.

(** ** Encoders *)
Definition encode (header : Header) (payload : list byte) : result FrameError (list byte) :=
  if u32_max <? N.of_nat (length payload) then Err (Fe_PayloadTooLong (length payload))
  else
    let payload_len := N.of_nat (length payload) in
    let? _ := header_check header payload_len in
    let? _ := ok_or Fe_SampleOverflow (header_end_sample header) in
    let? _ := check_records (h_kind header) payload in
    Ok (header_write header payload_len ++ payload).

(** [u32::try_from(n).unwrap_or(u32::MAX)]. *)
Definition clamp_u32 (n : N) : N := if n <=? u32_max then n else u32_max.

Definition render_header (epoch sequence first_sample generation flags frame_count : N) : Header := {|
  h_kind := K_Render; h_flags := flags; h_epoch := epoch; h_sequence := sequence;
  h_first_sample := first_sample; h_mono_ns := 0; h_uncertainty_us := None;
  h_frame_count := frame_count; h_generation := generation; h_source_mask := SOURCE_NONE;
|}.

Definition encode_render (epoch sequence first_sample generation flags : N) (pcm : list Z) :
    result FrameError (list byte) :=
  let frame_count := clamp_u32 (N.of_nat (length pcm)) in
  let header := render_header epoch sequence first_sample generation flags frame_count in
  let payload_len := header_payload_bytes header in
  let? _ := header_check header (clamp_u32 payload_len) in
  let? _ := ok_or Fe_SampleOverflow (header_end_sample header) in
  Ok (header_write header (payload_len mod 2 ^ 32) ++ concat (i16_to_le <$> pcm)).
(** ** What the wire allows *)

(** The invariants Rust's integer types give a header. *)
Record header_typed (h : Header) : Prop := {
  ht_epoch : h_epoch h <= u64_max;
  ht_sequence : h_sequence h <= u64_max;
  ht_first : h_first_sample h <= u64_max;
  ht_mono : h_mono_ns h <= u64_max;
  ht_uncertainty u : h_uncertainty_us h = Some u -> u <= u32_max;
  ht_generation : h_generation h <= u32_max;
}.

(** The rules of one header, in no particular order. *)
Record HeaderRules (h : Header) : Prop := {
  hr_flags : h_flags h < 32;
  hr_silence : bits_contain (h_flags h) FLAG_DIGITAL_SILENCE = true -> h_kind h = K_Reference;
  hr_epoch : h_epoch h <> 0;
  hr_frames : 1 <= h_frame_count h <= kind_max_frames (h_kind h);
  hr_generation : h_kind h <> K_Render -> h_generation h = 0;
  hr_mask : h_source_mask h < 16;
  hr_mask_kind : h_kind h <> K_Reference -> h_source_mask h = 0;
  hr_aligned : h_first_sample h mod samples_per_frame (h_kind h) = 0;
  hr_uncertainty : h_uncertainty_us h <> Some UNCERTAINTY_UNKNOWN;
}.

Record cell_ok (c : Cell) : Prop := {
  co_loudness : (E_MIN <= c_e_centi c <= E_MAX)%Z;
  co_flags : c_flags c < 4;
  co_mask : c_mask c < 16;
  co_gap : bits_contain (c_flags c) CELL_GAP = true -> c_e_centi c = E_MIN;
}.

Record afe_ok (r : AfeRecord) : Prop := {
  ao_flags : a_flags r < 64;
  ao_frames : a_frames r <= AFE_MAX_FRAMES;
  ao_playback : a_playback r <= a_frames r;
  ao_erle : a_erle_frames r <= a_frames r;
  ao_dtd : a_dtd_frames r <= a_frames r;
  ao_vad : a_vad_frames r <= a_frames r;
  ao_dtd_max : a_dtd_max r <= AFE_DTD_MAX;
  ao_vad_max : a_vad_max r <= AFE_VAD_MAX;
  ao_volume : a_volume r <= AFE_VOLUME_MAX;
}.

Definition records_ok (k : Kind) (payload : list byte) : Prop :=
  match k with
  | K_Cells => Forall cell_ok (cell_from_bytes <$> as_chunks CELL_RECORD_BYTES payload)
  | K_Afe => Forall afe_ok (afe_from_bytes <$> as_chunks AFE_RECORD_BYTES payload)
  | _ => True
  end.

Record EmaRules (h : Header) (payload : list byte) : Prop := {
  er_header : HeaderRules h;
  er_length : N.of_nat (length payload) = header_payload_bytes h;
  er_end : h_first_sample h + h_frame_count h * samples_per_frame (h_kind h) <= u64_max;
  er_records : records_ok (h_kind h) payload;
}.

(** ** Bit sets *)
Lemma ldiff_ones_0 b n : N.ldiff b (N.ones n) = 0 <-> b < 2 ^ n.
Proof.
  rewrite N.ldiff_ones_r, N.shiftl_mul_pow2, N.shiftr_div_pow2.
  pose proof (N.pow_nonzero 2 n). pose proof (N.div_mod b (2 ^ n)).
  pose proof (N.mod_lt b (2 ^ n)). split; intros.
  - assert (b / 2 ^ n = 0) by nia. nia.
  - rewrite N.div_small by done. lia.
Qed.

Lemma flags_known b : flags_from_bits b = None <-> 32 <= b.
Proof.
  unfold flags_from_bits, bits_known, FLAGS_KNOWN. change 31 with (N.ones 5).
  destruct (N.eqb_spec (N.ldiff b (N.ones 5)) 0) as [E|E]; rewrite ldiff_ones_0 in E;
    change (2 ^ 5) with 32 in E; naive_solver lia.
Qed.
Lemma flags_from_bits_Some b f : flags_from_bits b = Some f <-> f = b /\ b < 32.
Proof.
  unfold flags_from_bits, bits_known, FLAGS_KNOWN. change 31 with (N.ones 5).
  destruct (N.eqb_spec (N.ldiff b (N.ones 5)) 0) as [E|E]; rewrite ldiff_ones_0 in E;
    change (2 ^ 5) with 32 in E; naive_solver.
Qed.
Lemma cell_flags_known b : cell_flags_from_bits b <> None <-> b < 4.
Proof.
  unfold cell_flags_from_bits, bits_known, CELL_FLAGS_KNOWN. change 3 with (N.ones 2).
  destruct (N.eqb_spec (N.ldiff b (N.ones 2)) 0) as [E|E]; rewrite ldiff_ones_0 in E;
    change (2 ^ 2) with 4 in E; naive_solver.
Qed.
Lemma afe_flags_known b : afe_flags_from_bits b <> None <-> b < 64.
Proof.
  unfold afe_flags_from_bits, bits_known, AFE_FLAGS_KNOWN. change 63 with (N.ones 6).
  destruct (N.eqb_spec (N.ldiff b (N.ones 6)) 0) as [E|E]; rewrite ldiff_ones_0 in E;
    change (2 ^ 6) with 64 in E; naive_solver.
Qed.
Lemma mask_known b : mask_from_bits b <> None <-> b < 16.
Proof.
  unfold mask_from_bits, SOURCE_KNOWN. change 15 with (N.ones 4).
  destruct (N.eqb_spec (N.ldiff b (N.ones 4)) 0) as [E|E]; rewrite ldiff_ones_0 in E;
    change (2 ^ 4) with 16 in E; naive_solver.
Qed.

(** ** Records *)
Lemma cell_parse_ok raw c : cell_parse raw = Ok c <-> c = cell_from_bytes raw /\ cell_ok c.
Proof.
  unfold cell_parse. cbv zeta. guard_simpl. rewrite cell_flags_known, mask_known.
  split.
  - intros (He & Hf & Hm & Hg & <-). split; [done|]. constructor; [done|done|done|].
    intros Hgap. destruct Hg as [Hg|Hg]; [congruence|done].
  - intros (-> & [He Hf Hm Hg]). split_and!; [lia|lia|done|done| |done].
    destruct (bits_contain _ CELL_GAP); [right; by apply Hg|by left].
Qed.

Lemma afe_bounds_ok r :
  find_first (fun '(_, value, max) => max <? value) (afe_bounds r) = None <->
  a_frames r <= AFE_MAX_FRAMES /\ a_playback r <= a_frames r /\ a_erle_frames r <= a_frames r /\
  a_dtd_frames r <= a_frames r /\ a_vad_frames r <= a_frames r /\ a_dtd_max r <= AFE_DTD_MAX /\
  a_vad_max r <= AFE_VAD_MAX /\ a_volume r <= AFE_VOLUME_MAX.
Proof. rewrite find_first_None. unfold any, afe_bounds. cbn. guard_simpl. naive_solver. Qed.

Lemma afe_parse_ok raw r : afe_parse raw = Ok r <-> r = afe_from_bytes raw /\ afe_ok r.
Proof.
  unfold afe_parse. cbv zeta. guard_simpl. rewrite afe_flags_known.
  destruct (find_first _ _) as [[[? ?] ?]|] eqn:E.
  - split; [naive_solver|]. intros (-> & []).
    by rewrite (proj2 (afe_bounds_ok _)) in E.
  - apply afe_bounds_ok in E. split.
    + intros (Hf & [= <-]). split; [done|]. constructor; tauto || done.
    + intros (-> & []). done.
Qed.

Lemma check_each_ok {R E} (p : list byte -> result E R) (from : list byte -> R) (ok : R -> Prop)
    wrap i chunks :
  (forall raw r, p raw = Ok r <-> r = from raw /\ ok r) ->
  check_each p wrap i chunks = Ok tt <-> Forall ok (from <$> chunks).
Proof.
  intros Hp. revert i. induction chunks as [|raw chunks IH]; intros i; simpl.
  { split; [intros _; constructor|done]. }
  guard_simpl. rewrite Forall_cons, <- (IH (S i)). split.
  - intros (r & Hr & ?). guard_simpl_in Hr. apply Hp in Hr as [-> ?]. done.
  - intros [Hok ?]. exists (from raw). guard_simpl. by rewrite Hp.
Qed.

Lemma check_records_ok k payload : check_records k payload = Ok tt <-> records_ok k payload.
Proof.
  destruct k; simpl; [done|done|done| |].
  - apply check_each_ok, cell_parse_ok.
  - apply check_each_ok, afe_parse_ok.
Qed.

(** Reading back a record that was written. *)
Lemma cell_from_to_bytes c :
  i16_range (c_e_centi c) -> c_flags c < 256 -> c_mask c < 256 ->
  cell_from_bytes (cell_to_bytes c) = c.
Proof.
  intros He Hf Hm. destruct c as [e f m]; simpl in *. unfold cell_from_bytes, cell_to_bytes.
  cbn [c_e_centi c_flags c_mask]. rewrite (take_app_length' (i16_to_le e)) by (by rewrite length_i16_to_le).
  rewrite i16_from_to_le by done. unfold byte_at.
  rewrite !lookup_app_r by (rewrite length_i16_to_le; lia). rewrite length_i16_to_le. simpl.
  by rewrite !u8_of_byte_small.
Qed.

Lemma afe_to_from_bytes raw : length raw = AFE_RECORD_BYTES -> afe_to_bytes (afe_from_bytes raw) = raw.
Proof.
  intros H. do 14 (destruct raw as [|? raw]; [done|]). destruct raw; [|done].
  unfold afe_to_bytes, afe_from_bytes, byte_at. simpl. by rewrite !byte_of_u8.
Qed.

Lemma cell_to_from_bytes raw : length raw = CELL_RECORD_BYTES -> cell_to_bytes (cell_from_bytes raw) = raw.
Proof.
  intros H. do 4 (destruct raw as [|? raw]; [done|]). destruct raw; [|done].
  unfold cell_to_bytes, cell_from_bytes, byte_at. cbn [c_e_centi c_flags c_mask].
  rewrite i16_to_from_le by done. simpl. by rewrite !byte_of_u8.
Qed.

(** ** Header rules *)
Lemma kind_from_u8_Some n k : kind_from_u8 n = Some k <-> n = kind_u8 k.
Proof.
  split.
  - destruct n as [|[[[?|?|]|[?|?|]|]|[[?|?|]|[?|?|]|]|]]; intros H; try discriminate H; by injection H as <-.
  - intros ->. by destruct k.
Qed.

Lemma aligned_iff k s :
  (k = K_Cells -> is_multiple_of s CELL_SAMPLES = true) /\
  (k = K_Afe -> is_multiple_of s AFE_PERIOD_SAMPLES = true) <->
  s mod samples_per_frame k = 0.
Proof.
  destruct k; simpl; rewrite ?N.mod_1_r; split; try (by intros; done); try (by intros; split).
  - intros [H _]. by apply is_multiple_of_spec, H.
  - intros H. split; [|done]. intros _. by apply is_multiple_of_spec.
  - intros [_ H]. by apply is_multiple_of_spec, H.
  - intros H. split; [done|]. intros _. by apply is_multiple_of_spec.
Qed.

(** What [RawHeader::check] accepts. *)
Lemma raw_check_ok r :
  raw_check r = Ok tt <->
  r_flags r < 32 /\
  (bits_contain (r_flags r) FLAG_DIGITAL_SILENCE = true -> r_kind r = K_Reference) /\
  r_channels r = 1 /\ r_format r = format_u8 (kind_format (r_kind r)) /\ r_epoch r <> 0 /\
  r_sample_rate r = kind_sample_rate (r_kind r) /\
  1 <= r_frame_count r <= kind_max_frames (r_kind r) /\
  (r_kind r <> K_Render -> r_generation r = 0) /\
  (r_kind r <> K_Reference -> r_source_mask r = 0) /\ r_source_mask r < 16 /\
  r_first_sample r mod samples_per_frame (r_kind r) = 0 /\
  r_payload_bytes r = payload_bytes (r_kind r) (r_flags r) (r_frame_count r).
Proof.
  unfold raw_check. cbv zeta.
  destruct (flags_from_bits (r_flags r)) as [f|] eqn:Ef;
    [apply flags_from_bits_Some in Ef as [-> Hf]|apply flags_known in Ef; split; [done|lia]].
  guard_simpl. rewrite mask_known, <- aligned_iff.
  destruct r as [k f ch fmt ep fs sr fc g m pl]; cbn [r_kind r_flags r_channels r_format r_epoch
    r_first_sample r_sample_rate r_frame_count r_generation r_source_mask r_payload_bytes] in *.
  split.
  - intros (Hs & ? & ? & ? & ? & ? & Hg & [Hm ?] & Ha & Hb & ? & _).
    assert (Hdec : forall k', ~ k <> k' -> k = k') by (intros; by apply dec_stable).
    split_and!; try done; try lia.
    + intros E. destruct Hs; [congruence|auto].
    + tauto.
    + tauto.
    + tauto.
    + tauto.
  - intros (? & Hs & ? & ? & ? & ? & ? & Hg & Hm & ? & [Ha Hb] & ?).
    split_and!; try done; try lia.
    + destruct (bits_contain f _); [right; by auto|by left].
    + destruct (decide (k = K_Render)); [left; by auto|right; auto].
    + destruct (decide (k = K_Reference)); [left; by auto|right; auto].
    + destruct (decide (k = K_Cells)); [right; auto|by left].
    + destruct (decide (k = K_Afe)); [right; auto|by left].
Qed.

Lemma header_check_ok h n :
  header_check h n = Ok tt <-> HeaderRules h /\ n = header_payload_bytes h.
Proof.
  unfold header_check. guard_simpl. rewrite raw_check_ok.
  cbn [r_kind r_flags r_channels r_format r_epoch
    r_first_sample r_sample_rate r_frame_count r_generation r_source_mask r_payload_bytes].
  split.
  - intros (? & ? & ? & ? & ? & ? & ? & ? & ? & ? & ? & ? & ?). split; [constructor|]; done.
  - intros [[] ?]. done.
Qed.

Lemma length_header_write h n : length (header_write h n) = HEADER_BYTES.
Proof. unfold header_write. rewrite !length_app, !length_to_le. done. Qed.

Lemma payload_bytes_max k f n : n <= kind_max_frames k -> payload_bytes k f n <= 7680.
Proof.
  unfold payload_bytes, CELL_RECORD_BYTES, AFE_RECORD_BYTES, kind_max_frames.
  destruct k; try case_match; lia.
Qed.

Lemma kind_max_frames_le k : kind_max_frames k <= 3840.
Proof. by destruct k. Qed.

(** Where each field of a written header sits. *)
Lemma header_write_layout h n :
  let head := header_write h n in
  take 4 head = MAGIC /\ byte_at head 4 = u8_of (byte_of (kind_u8 (h_kind h))) /\
  byte_at head 5 = u8_of (byte_of (h_flags h)) /\ byte_at head 6 = 1 /\
  byte_at head 7 = u8_of (byte_of (format_u8 (kind_format (h_kind h)))) /\
  le_at 8 head 8 = from_le (to_le 8 (h_epoch h)) /\
  le_at 8 head 16 = from_le (to_le 8 (h_sequence h)) /\
  le_at 8 head 24 = from_le (to_le 8 (h_first_sample h)) /\
  le_at 8 head 32 = from_le (to_le 8 (h_mono_ns h)) /\
  le_at 4 head 40 = from_le (to_le 4 (default UNCERTAINTY_UNKNOWN (h_uncertainty_us h))) /\
  le_at 4 head 44 = from_le (to_le 4 (kind_sample_rate (h_kind h))) /\
  le_at 4 head 48 = from_le (to_le 4 (h_frame_count h)) /\
  le_at 4 head 52 = from_le (to_le 4 (h_generation h)) /\
  le_at 4 head 56 = from_le (to_le 4 (h_source_mask h)) /\
  le_at 4 head 60 = from_le (to_le 4 n).
Proof. cbv zeta. split_and!; reflexivity. Qed.

Lemma rules_payload_small h : HeaderRules h -> header_payload_bytes h <= 7680.
Proof. intros []. apply payload_bytes_max. lia. Qed.

(** The bytes of a header decode to the header they encode. *)
Lemma decode_raw_write h :
  header_typed h -> HeaderRules h ->
  decode_raw (header_write h (header_payload_bytes h)) = Ok (h, header_payload_bytes h).
Proof.
  intros Ht Hr. pose proof (rules_payload_small h Hr) as Hn.
  set (n := header_payload_bytes h) in *.
  pose proof (kind_max_frames_le (h_kind h)) as Hmf.
  pose proof (proj2 (header_check_ok h n) (conj Hr eq_refl)) as Hck.
  destruct (header_write_layout h n) as
    (E0 & E4 & E5 & E6 & E7 & E8 & E16 & E24 & E32 & E40 & E44 & E48 & E52 & E56 & E60).
  destruct Hr, Ht.
  assert (H8 : forall v, v <= u64_max -> from_le (to_le 8 v) = v)
    by (intros v Hv; apply from_to_le; unfold u64_max in Hv; simpl; lia).
  assert (H4 : forall v, v <= u32_max -> from_le (to_le 4 v) = v)
    by (intros v Hv; apply from_to_le; unfold u32_max in Hv; simpl; lia).
  rewrite u8_of_byte_small in E4 by (by destruct (h_kind h)).
  rewrite u8_of_byte_small in E5 by lia.
  rewrite u8_of_byte_small in E7 by (by destruct (h_kind h)).
  rewrite H8 in E8, E16, E24, E32 by done.
  rewrite H4 in E40, E44, E48, E52, E56, E60
    by (unfold u32_max, UNCERTAINTY_UNKNOWN in *; first
      [ lia | by destruct (h_kind h) | destruct (h_uncertainty_us h); simpl; auto; lia ]).
  unfold decode_raw. rewrite E0, bool_decide_eq_true_2 by done. cbn [negb].
  rewrite E4, (proj2 (kind_from_u8_Some _ (h_kind h)) eq_refl).
  rewrite E5, E6, E7, E8, E16, E24, E32, E40, E44, E48, E52, E56, E60.
  cbv zeta. unfold header_check in Hck. rewrite bool_decide_eq_false_2 in Hck by done.
  rewrite Hck. cbn [r_flags r_epoch r_first_sample r_frame_count r_generation r_source_mask
    r_payload_bytes].
  do 2 f_equal. destruct h as [k f ep sq fs mo u fc g m]; cbn in *.
  rewrite (N.mod_small m) by lia. f_equal.
  destruct u as [u|]; simpl; [|done].
  destruct (N.eqb_spec u UNCERTAINTY_UNKNOWN); [congruence|done].
Qed.

Lemma to_le_from_le w bs : length bs = w -> to_le w (from_le bs) = bs.
Proof. intros <-. apply to_from_le. Qed.

Lemma from_le_max w bs : length bs = w -> from_le bs <= 256 ^ N.of_nat w - 1.
Proof. intros <-. pose proof (from_le_bound bs). lia. Qed.

(** The 64 header bytes as the fields they carry. *)
Lemma header_split head :
  length head = HEADER_BYTES ->
  head = take 4 head
    ++ [byte_of (byte_at head 4); byte_of (byte_at head 5); byte_of (byte_at head 6);
        byte_of (byte_at head 7)]
    ++ to_le 8 (le_at 8 head 8) ++ to_le 8 (le_at 8 head 16) ++ to_le 8 (le_at 8 head 24)
    ++ to_le 8 (le_at 8 head 32) ++ to_le 4 (le_at 4 head 40) ++ to_le 4 (le_at 4 head 44)
    ++ to_le 4 (le_at 4 head 48) ++ to_le 4 (le_at 4 head 52) ++ to_le 4 (le_at 4 head 56)
    ++ to_le 4 (le_at 4 head 60).
Proof.
  intros H. unfold le_at, byte_at. rewrite !byte_of_u8.
  rewrite !to_le_from_le by (rewrite length_take, length_drop, H; done).
  do 64 (destruct head as [|? head]; [done|]). destruct head; [reflexivity|done].
Qed.

Lemma le_at_max w head i : length head = HEADER_BYTES -> (i + w <= 64)%nat ->
  le_at w head i <= 256 ^ N.of_nat w - 1.
Proof.
  intros H Hi. apply from_le_max. rewrite length_take, length_drop, H.
  unfold HEADER_BYTES. lia.
Qed.

(** A header that decodes is typed, obeys the rules and is the only encoding
    of what it decodes to. *)
Lemma write_decode_raw head h n :
  length head = HEADER_BYTES -> decode_raw head = Ok (h, n) ->
  header_typed h /\ HeaderRules h /\ n = header_payload_bytes h /\ header_write h n = head.
Proof.
  intros Hlen Hd. unfold decode_raw in Hd. cbv zeta in Hd.
  rewrite guard_ok in Hd. destruct Hd as [Hmagic Hd]. guard_simpl_in Hmagic.
  rewrite some_ok in Hd. destruct Hd as (k & Hk%kind_from_u8_Some & Hd).
  rewrite bind_ok in Hd. destruct Hd as ([] & Hck & Hd). apply raw_check_ok in Hck.
  cbn [r_kind r_flags r_channels r_format r_epoch
    r_first_sample r_sample_rate r_frame_count r_generation r_source_mask r_payload_bytes] in *.
  destruct Hck as (Hf & Hs & Hch & Hfm & Hep & Hsr & Hfc & Hg & Hm & Hm16 & Hal & Hpl).
  injection Hd as <- <-. cbn [h_kind h_flags h_epoch h_sequence h_first_sample h_mono_ns
    h_uncertainty_us h_frame_count h_generation h_source_mask].
  rewrite (N.mod_small (le_at 4 head 56)) by lia.
  assert (Hu : default UNCERTAINTY_UNKNOWN
    (if negb (le_at 4 head 40 =? UNCERTAINTY_UNKNOWN) then Some (le_at 4 head 40) else None)
    = le_at 4 head 40) by (destruct (N.eqb_spec (le_at 4 head 40) UNCERTAINTY_UNKNOWN); done).
  pose proof (fun i Hi => le_at_max 8 head i Hlen Hi) as B8.
  pose proof (fun i Hi => le_at_max 4 head i Hlen Hi) as B4.
  change (256 ^ N.of_nat 8 - 1) with u64_max in B8.
  change (256 ^ N.of_nat 4 - 1) with u32_max in B4.
  split_and!.
  - constructor; cbn; [by apply B8; lia..| |by apply B4; lia].
    intros u. destruct (negb _); [|done]. intros [= <-]. apply B4. lia.
  - constructor; cbn; try done.
    destruct (N.eqb_spec (le_at 4 head 40) UNCERTAINTY_UNKNOWN); cbn; congruence.
  - done.
  - unfold header_write. cbn [h_kind h_flags h_epoch h_sequence h_first_sample h_mono_ns
      h_uncertainty_us h_frame_count h_generation h_source_mask].
    rewrite Hu, <- Hk, <- Hfm, <- Hsr, <- Hmagic, <- Hch.
    symmetry. by apply header_split.
Qed.

(** ** Frames *)
Lemma header_end_Some h e :
  header_end_sample h = Some e <->
  e = h_first_sample h + h_frame_count h * samples_per_frame (h_kind h) /\
  h_first_sample h + h_frame_count h * samples_per_frame (h_kind h) <= u64_max.
Proof. apply checked_add64_Some. Qed.

Lemma encode_ok h payload frame :
  encode h payload = Ok frame <->
  EmaRules h payload /\ frame = header_write h (header_payload_bytes h) ++ payload.
Proof.
  unfold encode. cbv zeta. rewrite guard_ok, bind_ok. split.
  - intros (_ & [] & [Hr Hl]%header_check_ok & Hk).
    rewrite bind_ok in Hk. destruct Hk as (e & He & Hk).
    rewrite bind_ok in Hk. destruct Hk as ([] & Hrec%check_records_ok & [= <-]).
    rewrite ok_or_ok, header_end_Some in He. destruct He as [_ He].
    rewrite Hl. split; [by constructor|done].
  - intros ([Hr Hl He Hrec] & ->). pose proof (rules_payload_small _ Hr).
    split; [apply N.ltb_ge; unfold u32_max; lia|].
    exists tt. split; [by apply header_check_ok|].
    rewrite bind_ok. eexists. split; [by apply ok_or_ok, header_end_Some|].
    rewrite bind_ok. exists tt. rewrite check_records_ok, Hl. done.
Qed.

Lemma parse_ok frame p :
  parse frame = Ok p <->
  header_typed (p_header p) /\ EmaRules (p_header p) (p_payload p) /\
  header_end_sample (p_header p) = Some (p_end_sample p) /\
  frame = header_write (p_header p) (header_payload_bytes (p_header p)) ++ p_payload p.
Proof.
  unfold parse. cbv zeta. rewrite guard_ok, bind_ok. split.
  - intros (Hlen & [h n] & Hd & Hp). rewrite Nat.ltb_ge in Hlen.
    rewrite guard_ok, bind_ok in Hp. destruct Hp as (Hact & e & He & Hp).
    rewrite bind_ok in Hp. destruct Hp as ([] & Hrec%check_records_ok & [= <-]).
    apply write_decode_raw in Hd as (Ht & Hr & -> & Hw); [|by rewrite length_take_le].
    guard_simpl_in Hact. rewrite ok_or_ok in He. cbn [p_header p_payload p_end_sample].
    split_and!; [done| |done|by rewrite Hw, take_drop].
    apply header_end_Some in He as He'. destruct He' as [_ He'].
    constructor; [done|by rewrite length_drop|done|done].
  - intros (Ht & [Hr Hl He Hrec] & Hend & ->).
    rewrite length_app, length_header_write. split; [apply Nat.ltb_ge; lia|].
    exists (p_header p, header_payload_bytes (p_header p)).
    rewrite take_app_length', drop_app_length' by (by rewrite length_header_write).
    split; [by apply decode_raw_write|].
    rewrite guard_ok, bind_ok. split.
    { guard_simpl. rewrite <- Hl. f_equal. lia. }
    exists (p_end_sample p). split; [by apply ok_or_ok|].
    rewrite bind_ok. exists tt. rewrite check_records_ok. by destruct p.
Qed.

(** ** The codec's contract *)

(** [content] decodes as many records as the header counts. *)
Definition content_length (c : Content) : N :=
  match c with
  | C_Pcm l => N.of_nat (length l)
  | C_DigitalSilence n => n
  | C_Cells l => N.of_nat (length l)
  | C_Afe l => N.of_nat (length l)
  end.

Definition content_valid (c : Content) : Prop :=
  match c with
  | C_Pcm l => Forall i16_range l
  | C_DigitalSilence _ => True
  | C_Cells l => Forall cell_ok l
  | C_Afe l => Forall afe_ok l
  end.

Lemma length_chunks_exact w n bs :
  (0 < w)%nat -> N.of_nat (length bs) = n * N.of_nat w -> N.of_nat (length (as_chunks w bs)) = n.
Proof.
  intros Hw H. rewrite length_as_chunks by done.
  replace (length bs) with (N.to_nat n * w)%nat by lia. rewrite Nat.div_mul by lia. lia.
Qed.

Lemma content_length_rules p :
  EmaRules (p_header p) (p_payload p) -> content_length (content p) = h_frame_count (p_header p).
Proof.
  intros [_ Hl _ _]. unfold content, header_payload_bytes, payload_bytes in *.
  destruct (h_kind (p_header p)), (bits_contain (h_flags (p_header p)) FLAG_DIGITAL_SILENCE);
    cbn [content_length]; rewrite ?length_fmap; try done;
    apply length_chunks_exact; (unfold CELL_RECORD_BYTES, AFE_RECORD_BYTES in *; lia).
Qed.

Lemma pcm_chunks_range bs : Forall i16_range (i16_from_le <$> as_chunks 2 bs).
Proof.
  rewrite Forall_fmap. eapply Forall_impl; [by apply (as_chunks_widths 2); lia|].
  intros c Hc. cbn in *. apply i16_of_u16_range. pose proof (from_le_bound c) as Hb.
  rewrite Hc in Hb. done.
Qed.

Lemma content_valid_rules p :
  EmaRules (p_header p) (p_payload p) -> content_valid (content p).
Proof.
  intros [_ _ _ Hr]. unfold content, records_ok in *.
  destruct (h_kind (p_header p)), (bits_contain (h_flags (p_header p)) FLAG_DIGITAL_SILENCE);
    done || apply pcm_chunks_range.
Qed.

(** PCM samples survive the trip through the payload bytes. *)
Lemma pcm_bytes_roundtrip pcm :
  Forall i16_range pcm -> i16_from_le <$> as_chunks 2 (concat (i16_to_le <$> pcm)) = pcm.
Proof.
  intros Hp. rewrite as_chunks_concat; [|lia|].
  - rewrite <- list_fmap_compose. apply list_fmap_id_ext || idtac.
    rewrite <- (list_fmap_id pcm) at 2. apply list_fmap_ext. intros i x Hx. cbn.
    apply i16_from_to_le. by eapply Forall_lookup_1.
  - apply Forall_fmap, Forall_true. intros. apply length_i16_to_le.
Qed.

Lemma length_pcm_bytes pcm : length (concat (i16_to_le <$> pcm)) = (2 * length pcm)%nat.
Proof.
  rewrite (length_concat_chunks 2), length_fmap; [lia|].
  apply Forall_fmap, Forall_true. intros. apply length_i16_to_le.
Qed.

(** When [encode_render] accepts its arguments. *)
Definition render_args_ok (epoch first_sample flags : N) (pcm : list Z) : Prop :=
  flags < 32 /\ bits_contain flags FLAG_DIGITAL_SILENCE = false /\ epoch <> 0 /\
  1 <= N.of_nat (length pcm) <= 3840 /\ first_sample + N.of_nat (length pcm) <= u64_max.

Lemma render_header_rules epoch sequence first_sample generation flags n :
  HeaderRules (render_header epoch sequence first_sample generation flags n) <->
  flags < 32 /\ bits_contain flags FLAG_DIGITAL_SILENCE = false /\ epoch <> 0 /\ 1 <= n <= 3840.
Proof.
  split.
  - intros [Hf Hs He Hn _ _ _ _ _]. cbn in *. split_and!; try done; try lia.
    destruct (bits_contain _ _); [by specialize (Hs eq_refl)|done].
  - intros (Hf & Hs & He & Hn). constructor; cbn; try done; [congruence|apply N.mod_1_r].
Qed.

Lemma encode_render_ok epoch sequence first_sample generation flags pcm frame :
  encode_render epoch sequence first_sample generation flags pcm = Ok frame <->
  render_args_ok epoch first_sample flags pcm /\
  let h := render_header epoch sequence first_sample generation flags (N.of_nat (length pcm)) in
  frame = header_write h (header_payload_bytes h) ++ concat (i16_to_le <$> pcm).
Proof.
  unfold encode_render, render_args_ok. cbv zeta. split.
  - intros H. rewrite bind_ok in H. destruct H as ([] & [Hr Hl]%header_check_ok & H).
    rewrite bind_ok in H. destruct H as (e & [_ He]%ok_or_ok%header_end_Some & H). apply ok_inj in H as <-.
    pose proof (rules_payload_small _ Hr) as Hsm.
    apply render_header_rules in Hr as (Hf & Hs & Hep & Hn).
    unfold clamp_u32 in *. destruct (N.leb_spec (N.of_nat (length pcm)) u32_max);
      [|unfold u32_max in *; lia].
    cbn [h_first_sample h_frame_count h_kind samples_per_frame render_header] in He.
    split; [split_and!; done || lia|]. rewrite N.mod_small; [done|]. lia.
  - intros ((Hf & Hs & Hep & Hn & He) & ->).
    assert (Hc : clamp_u32 (N.of_nat (length pcm)) = N.of_nat (length pcm)).
    { unfold clamp_u32, u32_max. destruct (N.leb_spec (N.of_nat (length pcm)) 4294967295); lia. }
    rewrite Hc. set (h := render_header _ _ _ _ _ _).
    assert (Hr : HeaderRules h) by (by apply render_header_rules).
    pose proof (rules_payload_small _ Hr) as Hsm.
    rewrite bind_ok. exists tt. split.
    { apply header_check_ok. split; [done|]. unfold clamp_u32, u32_max.
      destruct (N.leb_spec (header_payload_bytes h) 4294967295); lia. }
    rewrite bind_ok. eexists. split.
    { apply ok_or_ok, header_end_Some. split; [done|]. cbn. lia. }
    by rewrite N.mod_small by lia.
Qed.

(** C38: Encoding then parsing is the identity: every frame [encode] produces
    for a header whose integers fit their Rust types parses back to the same
    header and payload, with the end sample the header implies. *)
Theorem parse_encode h payload frame :
  header_typed h -> encode h payload = Ok frame ->
  parse frame = Ok {|
    p_header := h;
    p_end_sample := h_first_sample h + h_frame_count h * samples_per_frame (h_kind h);
    p_payload := payload;
  |}.
Proof.
  intros Ht [Hr ->]%encode_ok. apply parse_ok. cbn. split_and!; [done|done| |done].
  destruct Hr. by apply header_end_Some.
Qed.

(** The wire form is canonical: a frame that parses is exactly what
    [encode] writes for the packet it parses to, so no two frames parse to the
    same packet and parsing loses nothing. *)
Theorem encode_parse frame p :
  parse frame = Ok p -> encode (p_header p) (p_payload p) = Ok frame.
Proof. intros (_ & Hr & _ & ->)%parse_ok. by apply encode_ok. Qed.

(** The encoder accepts exactly the frames the wire contract [EmaRules]
    allows, whatever order it checks the rules in. *)
Theorem encode_accepts_iff_rules h payload :
  (exists frame, encode h payload = Ok frame) <-> EmaRules h payload.
Proof.
  split.
  - by intros (frame & [Hr _]%encode_ok).
  - intros Hr. eexists. by apply encode_ok.
Qed.

(** Every packet the parser returns obeys the wire contract, its end sample is
    one past its last sample and fits in a [u64], and [content] decodes exactly
    the announced number of records, each of them valid. *)
Theorem parse_sound frame p :
  parse frame = Ok p ->
  EmaRules (p_header p) (p_payload p) /\
  p_end_sample p = h_first_sample (p_header p)
    + h_frame_count (p_header p) * samples_per_frame (h_kind (p_header p)) /\
  p_end_sample p <= u64_max /\
  content_length (content p) = h_frame_count (p_header p) /\ content_valid (content p).
Proof.
  intros (_ & Hr & [He Hm]%header_end_Some & _)%parse_ok. split_and!; [done|done|lia| |].
  - by apply content_length_rules.
  - by apply content_valid_rules.
Qed.

(** The render encoder and the packet reader agree: when its arguments are
    in range, [encode_render] produces a frame, and that frame parses to a
    render packet whose samples, generation and position are the ones given. *)
Theorem render_roundtrip epoch sequence first_sample generation flags pcm :
  Forall i16_range pcm -> epoch <= u64_max -> sequence <= u64_max -> generation <= u32_max ->
  render_args_ok epoch first_sample flags pcm ->
  exists frame p,
    encode_render epoch sequence first_sample generation flags pcm = Ok frame /\
    parse frame = Ok p /\ content p = C_Pcm pcm /\
    p_header p = render_header epoch sequence first_sample generation flags
                   (N.of_nat (length pcm)) /\
    p_end_sample p = first_sample + N.of_nat (length pcm).
Proof.
  intros Hpcm Hep Hsq Hg Hargs. pose proof Hargs as (Hf & Hs & He & Hn & Hend).
  set (h := render_header epoch sequence first_sample generation flags (N.of_nat (length pcm))).
  set (bytes := concat (i16_to_le <$> pcm)).
  exists (header_write h (header_payload_bytes h) ++ bytes).
  exists {| p_header := h; p_end_sample := first_sample + N.of_nat (length pcm); p_payload := bytes |}.
  assert (Hl : N.of_nat (length bytes) = header_payload_bytes h).
  { unfold bytes. rewrite length_pcm_bytes. unfold header_payload_bytes. cbn. rewrite Hs. lia. }
  split_and!; [by apply encode_render_ok| | |done|done].
  - apply parse_ok. cbn [p_header p_payload p_end_sample]. split_and!; [| | |done].
    + constructor; cbn; try done; lia.
    + constructor; [by apply render_header_rules|done|cbn; lia|done].
    + apply header_end_Some. cbn. lia.
  - unfold content, h, bytes. cbn [p_header p_payload h_kind h_flags render_header].
    by rewrite Hs, pcm_bytes_roundtrip.
Qed.

(** Cell and AFE records survive encoding: a valid record written as bytes
    parses back to itself, and a record that parses is written back to the same
    bytes. *)
Theorem records_roundtrip c r raw_c raw_r :
  (cell_ok c -> cell_parse (cell_to_bytes c) = Ok c) /\
  (length raw_c = CELL_RECORD_BYTES -> cell_parse raw_c = Ok c -> cell_to_bytes c = raw_c) /\
  (length raw_r = AFE_RECORD_BYTES -> afe_parse raw_r = Ok r -> afe_to_bytes r = raw_r).
Proof.
  split_and!.
  - intros Hok. pose proof Hok as [He Hf Hm _]. apply cell_parse_ok. split; [|done].
    symmetry. apply cell_from_to_bytes; [|lia|lia].
    unfold i16_range, E_MIN, E_MAX in *. lia.
  - intros Hlen [-> _]%cell_parse_ok. by apply cell_to_from_bytes.
  - intros Hlen [-> _]%afe_parse_ok. by apply afe_to_from_bytes.
Qed.

(** ** Witnesses *)
Definition example_mic : Header := {|
  h_kind := K_Mic; h_flags := FLAG_DISCONTINUITY; h_epoch := 111; h_sequence := 7;
  h_first_sample := 4096; h_mono_ns := 1000000; h_uncertainty_us := Some 250;
  h_frame_count := 2; h_generation := 0; h_source_mask := 0;
|}.
Definition example_payload : list byte := [Byte.x01; Byte.x00; Byte.xff; Byte.xff].
Definition example_frame : list byte := header_write example_mic 4 ++ example_payload.

Lemma parse_encode_witness :
  parse example_frame =
  Ok {| p_header := example_mic; p_end_sample := 4098; p_payload := example_payload |}.
Proof.
  refine (parse_encode example_mic example_payload example_frame _ _); [|vm_compute; reflexivity].
  constructor; unfold u64_max, u32_max; cbn; try lia. intros u [= <-]. lia.
Defined.

Lemma encode_parse_witness : encode example_mic example_payload = Ok example_frame.
Proof.
  refine (encode_parse example_frame
    {| p_header := example_mic; p_end_sample := 4098; p_payload := example_payload |} _).
  vm_compute; reflexivity.
Defined.

Lemma parse_sound_witness :
  content {| p_header := example_mic; p_end_sample := 4098; p_payload := example_payload |}
    = C_Pcm [1%Z; (-1)%Z] /\
  EmaRules example_mic example_payload.
Proof.
  split; [vm_compute; reflexivity|].
  refine (proj1 (parse_sound example_frame
    {| p_header := example_mic; p_end_sample := 4098; p_payload := example_payload |} _)).
  vm_compute; reflexivity.
Defined.

Lemma render_roundtrip_witness :
  exists frame p,
    encode_render 9 0 0 3 0 [5%Z; (-5)%Z] = Ok frame /\ parse frame = Ok p /\
    content p = C_Pcm [5%Z; (-5)%Z] /\ p_header p = render_header 9 0 0 3 0 2 /\
    p_end_sample p = 2.
Proof.
  refine (render_roundtrip 9 0 0 3 0 [5%Z; (-5)%Z] _ _ _ _ _).
  - repeat constructor; done.
  - unfold u64_max; lia.
  - unfold u64_max; lia.
  - unfold u32_max; lia.
  - unfold render_args_ok, u64_max. cbn. split_and!; done || lia.
Defined.

Lemma records_roundtrip_witness :
  cell_parse (cell_to_bytes (mkCell (-100) 2 1)) = Ok (mkCell (-100) 2 1).
Proof.
  refine (proj1 (records_roundtrip (mkCell (-100) 2 1) (afe_from_bytes []) [] []) _).
  constructor; cbn; unfold E_MIN, E_MAX; done || lia.
Defined.
