(* ===== verification/Vocab.v ===== *)
(** * Vocabularies of the device link ([protocol/src/vocab.rs], [streams.rs])

    Message types and their directions, capabilities and admission's required
    set, stream names and their EMA1 kinds, stream and end reasons, and the
    SHA-256 text form. *)
From S2P Require Import Prelude Bytes WireEnum Ema.

(** ** Message types *)
Inductive MessageType :=
  | Mt_SessionHello | Mt_SessionReady | Mt_SessionRejected | Mt_Heartbeat |
  Mt_ClockRequest | Mt_ClockReply | Mt_CommandAck | Mt_ProtocolError | Mt_StreamOpen |
  Mt_StreamEnd | Mt_RenderStart | Mt_RenderEnd | Mt_RenderCancel | Mt_RenderProgress |
  Mt_RenderFinished | Mt_FocusAcquire | Mt_FocusRenew | Mt_FocusRelease | Mt_WakeCandidate
  | Mt_WakeCandidateEnd | Mt_WakeStats | Mt_WakeNearMiss | Mt_UplinkOpen | Mt_UplinkRenew
  | Mt_UplinkClose | Mt_UplinkEnded | Mt_PrivacyChanged | Mt_ButtonAction |
  Mt_AlertSnapshot | Mt_AlertDelta | Mt_AlertAck | Mt_AlertLocalOperation |
  Mt_AlertOpResult | Mt_AlertAct | Mt_AlertRing | Mt_AlertPrefetch | Mt_AlertRingEnded |
  Mt_AlertState | Mt_TurnView | Mt_TimerView | Mt_Leds | Mt_LedAnim | Mt_VolumeSet |
  Mt_Config | Mt_ShellOpen | Mt_ShellClose | Mt_WifiChange | Mt_WifiCommit | Mt_WifiScan |
  Mt_Ping | Mt_VolumeState | Mt_AmbientLight | Mt_Log | Mt_WifiResult | Mt_WifiScanResult
  | Mt_BleAdverts | Mt_Stats | Mt_Pong.
#[export] Instance MessageType_wire : WireEnum MessageType := {
  as_str v := match v with
    | Mt_SessionHello => "session.hello"
    | Mt_SessionReady => "session.ready"
    | Mt_SessionRejected => "session.rejected"
    | Mt_Heartbeat => "heartbeat"
    | Mt_ClockRequest => "clock.request"
    | Mt_ClockReply => "clock.reply"
    | Mt_CommandAck => "command.ack"
    | Mt_ProtocolError => "protocol.error"
    | Mt_StreamOpen => "stream.open"
    | Mt_StreamEnd => "stream.end"
    | Mt_RenderStart => "render.start"
    | Mt_RenderEnd => "render.end"
    | Mt_RenderCancel => "render.cancel"
    | Mt_RenderProgress => "render.progress"
    | Mt_RenderFinished => "render.finished"
    | Mt_FocusAcquire => "focus.acquire"
    | Mt_FocusRenew => "focus.renew"
    | Mt_FocusRelease => "focus.release"
    | Mt_WakeCandidate => "wake.candidate"
    | Mt_WakeCandidateEnd => "wake.candidate_end"
    | Mt_WakeStats => "wake.stats"
    | Mt_WakeNearMiss => "wake.near_miss"
    | Mt_UplinkOpen => "uplink.open"
    | Mt_UplinkRenew => "uplink.renew"
    | Mt_UplinkClose => "uplink.close"
    | Mt_UplinkEnded => "uplink.ended"
    | Mt_PrivacyChanged => "privacy.changed"
    | Mt_ButtonAction => "button.action"
    | Mt_AlertSnapshot => "alert.snapshot"
    | Mt_AlertDelta => "alert.delta"
    | Mt_AlertAck => "alert.ack"
    | Mt_AlertLocalOperation => "alert.local_operation"
    | Mt_AlertOpResult => "alert.op_result"
    | Mt_AlertAct => "alert.act"
    | Mt_AlertRing => "alert.ring"
    | Mt_AlertPrefetch => "alert.prefetch"
    | Mt_AlertRingEnded => "alert.ring_ended"
    | Mt_AlertState => "alert.state"
    | Mt_TurnView => "turn.view"
    | Mt_TimerView => "timer.view"
    | Mt_Leds => "leds"
    | Mt_LedAnim => "led_anim"
    | Mt_VolumeSet => "volume_set"
    | Mt_Config => "config"
    | Mt_ShellOpen => "shell_open"
    | Mt_ShellClose => "shell_close"
    | Mt_WifiChange => "wifi_change"
    | Mt_WifiCommit => "wifi_commit"
    | Mt_WifiScan => "wifi_scan"
    | Mt_Ping => "ping"
    | Mt_VolumeState => "volume_state"
    | Mt_AmbientLight => "ambient_light"
    | Mt_Log => "log"
    | Mt_WifiResult => "wifi_result"
    | Mt_WifiScanResult => "wifi_scan_result"
    | Mt_BleAdverts => "ble_adverts"
    | Mt_Stats => "stats"
    | Mt_Pong => "pong"
    end%string;
  ALL := [Mt_SessionHello; Mt_SessionReady; Mt_SessionRejected; Mt_Heartbeat;
          Mt_ClockRequest; Mt_ClockReply; Mt_CommandAck; Mt_ProtocolError; Mt_StreamOpen;
          Mt_StreamEnd; Mt_RenderStart; Mt_RenderEnd; Mt_RenderCancel; Mt_RenderProgress;
          Mt_RenderFinished; Mt_FocusAcquire; Mt_FocusRenew; Mt_FocusRelease;
          Mt_WakeCandidate; Mt_WakeCandidateEnd; Mt_WakeStats; Mt_WakeNearMiss;
          Mt_UplinkOpen; Mt_UplinkRenew; Mt_UplinkClose; Mt_UplinkEnded;
          Mt_PrivacyChanged; Mt_ButtonAction; Mt_AlertSnapshot; Mt_AlertDelta;
          Mt_AlertAck; Mt_AlertLocalOperation; Mt_AlertOpResult; Mt_AlertAct;
          Mt_AlertRing; Mt_AlertPrefetch; Mt_AlertRingEnded; Mt_AlertState; Mt_TurnView;
          Mt_TimerView; Mt_Leds; Mt_LedAnim; Mt_VolumeSet; Mt_Config; Mt_ShellOpen;
          Mt_ShellClose; Mt_WifiChange; Mt_WifiCommit; Mt_WifiScan; Mt_Ping;
          Mt_VolumeState; Mt_AmbientLight; Mt_Log; Mt_WifiResult; Mt_WifiScanResult;
          Mt_BleAdverts; Mt_Stats; Mt_Pong];
}.
#[export] Instance MessageType_laws : WireLaws MessageType.
Proof. solve_wire_laws. Qed.

Definition sent_by_device (m : MessageType) : bool :=
  match m with
  | Mt_SessionHello | Mt_Heartbeat | Mt_ClockRequest | Mt_CommandAck | Mt_ProtocolError
  | Mt_StreamOpen | Mt_StreamEnd | Mt_RenderProgress | Mt_RenderFinished |
  Mt_WakeCandidate | Mt_WakeCandidateEnd | Mt_WakeStats | Mt_WakeNearMiss |
  Mt_UplinkEnded | Mt_PrivacyChanged | Mt_ButtonAction | Mt_AlertAck |
  Mt_AlertLocalOperation | Mt_AlertRingEnded | Mt_AlertState | Mt_VolumeState |
  Mt_AmbientLight | Mt_Log | Mt_WifiResult | Mt_WifiScanResult | Mt_BleAdverts |
  Mt_Stats | Mt_Pong => true
  | _ => false
  end.

(** [matches!(self, Heartbeat | CommandAck | ProtocolError) || !self.sent_by_device()]. *)
Definition sent_by_controller (m : MessageType) : bool :=
  match m with Mt_Heartbeat | Mt_CommandAck | Mt_ProtocolError => true | _ => false end
  || negb (sent_by_device m).

(** ** Capabilities *)
Inductive Capability :=
  | Cap_AudioTimeline | Cap_UplinkSubscriptions | Cap_DeviceWake | Cap_RenderReference |
  Cap_RenderProgress | Cap_FocusLeases | Cap_AlertCache | Cap_TurnProtocol | Cap_Leds |
  Cap_LedAnim | Cap_Buttons | Cap_ButtonHold | Cap_AmbientLight | Cap_AlertPrefetch |
  Cap_LocalWakeChime | Cap_NoInputChime | Cap_AnnouncementChime | Cap_OpenRules |
  Cap_NearMiss | Cap_AfeMetadata | Cap_WifiControl | Cap_BleProxy | Cap_PrivacyMute |
  Cap_ScreenWake | Cap_ScreenOverlay | Cap_TurnView | Cap_TimerView | Cap_KioskPlugin.
#[export] Instance Capability_wire : WireEnum Capability := {
  as_str v := match v with
    | Cap_AudioTimeline => "audio_timeline_v1"
    | Cap_UplinkSubscriptions => "uplink_leases_v1"
    | Cap_DeviceWake => "device_wake_v1"
    | Cap_RenderReference => "render_reference_v1"
    | Cap_RenderProgress => "render_progress_v1"
    | Cap_FocusLeases => "focus_leases_v1"
    | Cap_AlertCache => "alert_cache_v1"
    | Cap_TurnProtocol => "turn_protocol_v1"
    | Cap_Leds => "leds"
    | Cap_LedAnim => "led_anim"
    | Cap_Buttons => "buttons"
    | Cap_ButtonHold => "button_hold"
    | Cap_AmbientLight => "ambient_light"
    | Cap_AlertPrefetch => "alert_prefetch"
    | Cap_LocalWakeChime => "local_wake_chime"
    | Cap_NoInputChime => "no_input_chime"
    | Cap_AnnouncementChime => "announcement_chime"
    | Cap_OpenRules => "open_rules_v1"
    | Cap_NearMiss => "near_miss_v1"
    | Cap_AfeMetadata => "afe_metadata_v1"
    | Cap_WifiControl => "wifi_control"
    | Cap_BleProxy => "ble_proxy"
    | Cap_PrivacyMute => "privacy_mute"
    | Cap_ScreenWake => "screen_wake"
    | Cap_ScreenOverlay => "screen_overlay"
    | Cap_TurnView => "turn_view_v1"
    | Cap_TimerView => "timer_view_v1"
    | Cap_KioskPlugin => "kiosk_plugin"
    end%string;
  ALL := [Cap_AudioTimeline; Cap_UplinkSubscriptions; Cap_DeviceWake; Cap_RenderReference;
          Cap_RenderProgress; Cap_FocusLeases; Cap_AlertCache; Cap_TurnProtocol; Cap_Leds;
          Cap_LedAnim; Cap_Buttons; Cap_ButtonHold; Cap_AmbientLight; Cap_AlertPrefetch;
          Cap_LocalWakeChime; Cap_NoInputChime; Cap_AnnouncementChime; Cap_OpenRules;
          Cap_NearMiss; Cap_AfeMetadata; Cap_WifiControl; Cap_BleProxy; Cap_PrivacyMute;
          Cap_ScreenWake; Cap_ScreenOverlay; Cap_TurnView; Cap_TimerView;
          Cap_KioskPlugin];
}.
#[export] Instance Capability_laws : WireLaws Capability.
Proof. solve_wire_laws. Qed.

Definition REQUIRED_CAPABILITIES : list Capability :=
  [Cap_AudioTimeline; Cap_UplinkSubscriptions; Cap_DeviceWake; Cap_RenderReference;
  Cap_RenderProgress; Cap_FocusLeases; Cap_AlertCache; Cap_TurnProtocol].

(** What one hello announced: known capabilities, and the unknown names apart.
    The [BTreeSet]s are finite sets; nothing the code does depends on more than
    membership and, for listing, the declaration order. *)
Record Capabilities := mkCapabilities {
  cap_known : gset Capability;
  cap_unknown : gset string;
}.

Definition capabilities_default : Capabilities := mkCapabilities ∅ ∅.

Definition add_name (out : Capabilities) (name : string) : Capabilities :=
  match from_wire name with
  | Some capability => mkCapabilities ({[capability]} ∪ cap_known out) (cap_unknown out)
  | None => mkCapabilities (cap_known out) ({[name]} ∪ cap_unknown out)
  end.

Definition from_names (names : list string) : Capabilities :=
  foldl add_name capabilities_default names.

Definition capabilities_contains (caps : Capabilities) (c : Capability) : bool :=
  bool_decide (c ∈ cap_known caps).

Definition missing_required (caps : Capabilities) : list Capability :=
  retain (fun c => negb (capabilities_contains caps c)) REQUIRED_CAPABILITIES.

Inductive Platform :=
  | Pf_FireOs6 | Pf_FireOs6Crown | Pf_Lineage18Crown.
#[export] Instance Platform_wire : WireEnum Platform := {
  as_str v := match v with
    | Pf_FireOs6 => "fireos6"
    | Pf_FireOs6Crown => "fireos6_crown"
    | Pf_Lineage18Crown => "lineage18_crown"
    end%string;
  ALL := [Pf_FireOs6; Pf_FireOs6Crown; Pf_Lineage18Crown];
}.
#[export] Instance Platform_laws : WireLaws Platform.
Proof. solve_wire_laws. Qed.

Inductive RejectReason :=
  | Rj_PendingApproval | Rj_Unauthorized | Rj_Protocol.
#[export] Instance RejectReason_wire : WireEnum RejectReason := {
  as_str v := match v with
    | Rj_PendingApproval => "pending_approval"
    | Rj_Unauthorized => "unauthorized"
    | Rj_Protocol => "protocol"
    end%string;
  ALL := [Rj_PendingApproval; Rj_Unauthorized; Rj_Protocol];
}.
#[export] Instance RejectReason_laws : WireLaws RejectReason.
Proof. solve_wire_laws. Qed.

Inductive AckStatus :=
  | Ack_Accepted | Ack_Applied | Ack_Durable | Ack_Rejected.
#[export] Instance AckStatus_wire : WireEnum AckStatus := {
  as_str v := match v with
    | Ack_Accepted => "accepted"
    | Ack_Applied => "applied"
    | Ack_Durable => "durable"
    | Ack_Rejected => "rejected"
    end%string;
  ALL := [Ack_Accepted; Ack_Applied; Ack_Durable; Ack_Rejected];
}.
#[export] Instance AckStatus_laws : WireLaws AckStatus.
Proof. solve_wire_laws. Qed.

(** ** Streams *)
Inductive StreamId :=
  | Mic | Reference | Cells | Afe.
#[export] Instance StreamId_wire : WireEnum StreamId := {
  as_str v := match v with
    | Mic => "mic"
    | Reference => "reference"
    | Cells => "cells"
    | Afe => "afe"
    end%string;
  ALL := [Mic; Reference; Cells; Afe];
}.
#[export] Instance StreamId_laws : WireLaws StreamId.
Proof. solve_wire_laws. Qed.
#[export] Instance StreamId_eq_dec : EqDecision StreamId.
Proof. solve_decision. Defined.

Definition stream_kind (s : StreamId) : Kind :=
  match s with
  | Mic => K_Mic
  | Reference => K_Reference
  | Cells => K_Cells
  | Afe => K_Afe
  end.

Definition stream_of_kind (k : Kind) : option StreamId :=
  match k with
  | K_Mic => Some Mic
  | K_Reference => Some Reference
  | K_Cells => Some Cells
  | K_Afe => Some Afe
  | K_Render => None
  end.

Inductive StreamReason :=
  | Rs_Start | Rs_Discontinuity | Rs_Privacy | Rs_ClockReset | Rs_RenderEpoch.
#[export] Instance StreamReason_wire : WireEnum StreamReason := {
  as_str v := match v with
    | Rs_Start => "start"
    | Rs_Discontinuity => "discontinuity"
    | Rs_Privacy => "privacy"
    | Rs_ClockReset => "clock_reset"
    | Rs_RenderEpoch => "render_epoch"
    end%string;
  ALL := [Rs_Start; Rs_Discontinuity; Rs_Privacy; Rs_ClockReset; Rs_RenderEpoch];
}.
#[export] Instance StreamReason_laws : WireLaws StreamReason.
Proof. solve_wire_laws. Qed.

Inductive UplinkEndedReason :=
  | Ue_Closed | Ue_Ttl | Ue_Mute | Ue_Epoch | Ue_Overrun | Ue_Session.
#[export] Instance UplinkEndedReason_wire : WireEnum UplinkEndedReason := {
  as_str v := match v with
    | Ue_Closed => "closed"
    | Ue_Ttl => "ttl"
    | Ue_Mute => "mute"
    | Ue_Epoch => "epoch"
    | Ue_Overrun => "overrun"
    | Ue_Session => "session"
    end%string;
  ALL := [Ue_Closed; Ue_Ttl; Ue_Mute; Ue_Epoch; Ue_Overrun; Ue_Session];
}.
#[export] Instance UplinkEndedReason_laws : WireLaws UplinkEndedReason.
Proof. solve_wire_laws. Qed.

(** A value reported for information only: unknown text is kept as sent. *)
Inductive Reported (T : Type) :=
  | Known (v : T)
  | Unrecognized (text : string).
Arguments Known {T} v.
Arguments Unrecognized {T} text.

(** ** SHA-256 in the link's text form *)
Definition HEX : string := "0123456789abcdef".
Definition hex_digit (n : N) : Ascii.ascii := default Ascii.zero (String.get (N.to_nat n) HEX).

Definition is_lower_hex (c : Ascii.ascii) : bool :=
  let n := Ascii.N_of_ascii c in ((48 <=? n) && (n <=? 57)) || ((97 <=? n) && (n <=? 102)).

Fixpoint string_all (p : Ascii.ascii -> bool) (s : string) : bool :=
  match s with EmptyString => true | String c s => p c && string_all p s end.

Definition sha256_parse (text : string) : option string :=
  if (String.length text =? 64)%nat && string_all is_lower_hex text then Some text else None.

Fixpoint sha256_from_digest (digest : list byte) : string :=
  match digest with
  | [] => EmptyString
  | b :: digest =>
      String (hex_digit (N.shiftr (u8_of b) 4))
        (String (hex_digit (N.land (u8_of b) 15)) (sha256_from_digest digest))
  end.

(** ** Facts *)
Lemma from_names_spec names :
  (forall c, c ∈ cap_known (from_names names) <-> as_str c ∈ names) /\
  (forall n, n ∈ cap_unknown (from_names names) <-> n ∈ names /\ forall c : Capability, as_str c <> n).
Proof.
  unfold from_names.
  enough (H : forall names out,
    (forall c, c ∈ cap_known (foldl add_name out names) <-> c ∈ cap_known out \/ as_str c ∈ names) /\
    (forall n, n ∈ cap_unknown (foldl add_name out names) <->
      n ∈ cap_unknown out \/ n ∈ names /\ forall c : Capability, as_str c <> n)).
  { destruct (H names capabilities_default) as [H1 H2]. split; intros x.
    - rewrite H1. set_solver.
    - rewrite H2. set_solver. }
  clear names. induction names as [|name names IH]; intros out; simpl.
  { split; intros; set_solver. }
  unfold add_name at 2 4. destruct (from_wire name) as [cap|] eqn:E.
  - apply from_wire_Some in E as <-.
    destruct (IH (mkCapabilities ({[cap]} ∪ cap_known out) (cap_unknown out))) as [H1 H2].
    split; intros x; [rewrite H1|rewrite H2]; cbn [cap_known cap_unknown].
    + rewrite elem_of_union, elem_of_singleton, elem_of_cons. split; [naive_solver|].
      intros [?|[Heq|?]]; [by left; right|left; left; by apply (inj as_str)|by right].
    + rewrite elem_of_cons. split; [naive_solver|].
      intros [?|[[->|?] Hn]]; [by left|by destruct (Hn cap)|by right].
  - pose proof (proj1 (from_wire_None (A:=Capability) name) E) as Hn.
    destruct (IH (mkCapabilities (cap_known out) ({[name]} ∪ cap_unknown out))) as [H1 H2].
    split; intros x; [rewrite H1|rewrite H2]; cbn [cap_known cap_unknown].
    + rewrite elem_of_cons. split; [naive_solver|].
      intros [?|[Heq|?]]; [by left|by destruct (Hn x)|by right].
    + rewrite elem_of_union, elem_of_singleton, elem_of_cons. split; [|naive_solver].
      intros [[->|?]|[? ?]]; [right; split; [by left|done]|by left|naive_solver].
Qed.

Lemma stream_kind_of_kind s : stream_of_kind (stream_kind s) = Some s.
Proof. by destruct s. Qed.
Lemma stream_of_kind_Some k s : stream_of_kind k = Some s <-> k = stream_kind s.
Proof. by destruct k, s. Qed.
Lemma samples_per_frame_pos k : samples_per_frame k <> 0.
Proof. by destruct k. Qed.

Lemma hex_digit_lower n : n < 16 -> is_lower_hex (hex_digit n) = true.
Proof.
  intros H. assert (Hn : n ∈ (N.of_nat <$> seq 0 16)).
  { apply list_elem_of_fmap. exists (N.to_nat n). split; [lia|]. apply elem_of_seq. lia. }
  revert n H Hn. apply Forall_forall || idtac.
  intros n _ Hn. repeat (apply elem_of_cons in Hn as [->|Hn]; [reflexivity|]).
  by apply elem_of_nil in Hn.
Qed.

Lemma hex_digit_inj a b : a < 16 -> b < 16 -> hex_digit a = hex_digit b -> a = b.
Proof.
  intros Ha Hb.
  assert (Hall : forall n, n < 16 -> n ∈ (N.of_nat <$> seq 0 16)).
  { intros n Hn. apply list_elem_of_fmap. exists (N.to_nat n). split; [lia|]. apply elem_of_seq. lia. }
  pose proof (Hall a Ha) as Ia. pose proof (Hall b Hb) as Ib. clear Ha Hb Hall.
  repeat (apply elem_of_cons in Ia as [->|Ia];
    [repeat (apply elem_of_cons in Ib as [->|Ib]; [by try discriminate|]); by apply elem_of_nil in Ib|]).
  by apply elem_of_nil in Ia.
Qed.

Lemma nibbles_lt b : N.shiftr (u8_of b) 4 < 16 /\ N.land (u8_of b) 15 < 16.
Proof.
  pose proof (u8_of_bound b). rewrite N.shiftr_div_pow2. change 15 with (N.ones 4).
  rewrite N.land_ones. change (2 ^ 4) with 16. split; [apply N.Div0.div_lt_upper_bound; lia|].
  apply N.mod_lt. lia.
Qed.

(** Every vocabulary of the link parses exactly what it prints: a text reads
    as a value if and only if it is that value's wire spelling. *)
Theorem wire_roundtrip {A} `{WL : WireLaws A} (text : string) (a : A) :
  from_wire text = Some a <-> as_str a = text.
Proof. split; [apply from_wire_Some|intros <-; apply from_wire_as_str]. Qed.

Lemma wire_roundtrip_witness : from_wire "uplink.open" = Some Mt_UplinkOpen.
Proof. apply (wire_roundtrip (A:=MessageType) "uplink.open" Mt_UplinkOpen). reflexivity. Defined.

(** Every message type has a direction, and exactly the heartbeat, the
    acknowledgement and the protocol error travel both ways. *)
Theorem message_directions m :
  sent_by_device m || sent_by_controller m = true /\
  (sent_by_device m && sent_by_controller m = true <->
   m = Mt_Heartbeat \/ m = Mt_CommandAck \/ m = Mt_ProtocolError).
Proof. destruct m; (split; [reflexivity|]); cbn; naive_solver. Qed.

Lemma capabilities_contains_spec names c :
  capabilities_contains (from_names names) c = bool_decide (as_str c ∈ names).
Proof. destruct (from_names_spec names) as [Hk _]. apply bool_decide_ext, Hk. Qed.

Lemma missing_required_spec names :
  missing_required (from_names names)
    = retain (fun c => bool_decide (as_str c ∉ names)) REQUIRED_CAPABILITIES.
Proof.
  unfold missing_required, retain. apply filter_ext. intros x.
  by rewrite capabilities_contains_spec, bool_decide_not.
Qed.

(** Admission asks for the eight required capabilities by name: a hello is
    missing exactly those it did not announce, in the required order, an
    announced name counts only as itself, and unknown names are kept apart. *)
Theorem capabilities_admission names c :
  (capabilities_contains (from_names names) c = true <-> as_str c ∈ names) /\
  missing_required (from_names names)
    = retain (fun c => bool_decide (as_str c ∉ names)) REQUIRED_CAPABILITIES /\
  (missing_required (from_names names) = [] <->
   forall c, c ∈ REQUIRED_CAPABILITIES -> as_str c ∈ names).
Proof.
  split_and!; [rewrite capabilities_contains_spec; apply bool_decide_eq_true|apply missing_required_spec|].
  rewrite missing_required_spec. split.
  - intros Hnil x Hx. apply dec_stable. intros Hn.
    enough (Hin : x ∈ retain (fun c => bool_decide (as_str c ∉ names)) REQUIRED_CAPABILITIES).
    { rewrite Hnil in Hin. by apply elem_of_nil in Hin. }
    apply elem_of_retain. split; [done|by apply bool_decide_eq_true].
  - intros Hall. destruct (retain _ _) as [|x l] eqn:E; [done|].
    assert (Hx : x ∈ retain (fun c => bool_decide (as_str c ∉ names)) REQUIRED_CAPABILITIES)
      by (rewrite E; apply elem_of_cons; by left).
    apply elem_of_retain in Hx as [Hx Hn%bool_decide_eq_true]. by apply Hall in Hx.
Qed.

(** A digest's text form is always accepted by the parser and determines the
    digest: 32 bytes print as 64 lowercase hex digits, injectively. *)
Theorem sha256_text_form digest digest' :
  length digest = 32%nat ->
  sha256_parse (sha256_from_digest digest) = Some (sha256_from_digest digest) /\
  (sha256_from_digest digest = sha256_from_digest digest' -> digest = digest').
Proof.
  intros Hlen.
  assert (Hl : forall d, String.length (sha256_from_digest d) = (2 * length d)%nat).
  { induction d as [|b d IH]; [done|]. simpl. rewrite IH. lia. }
  assert (Hx : forall d, string_all is_lower_hex (sha256_from_digest d) = true).
  { induction d as [|b d IH]; [done|]. simpl. destruct (nibbles_lt b).
    by rewrite !hex_digit_lower. }
  split.
  - unfold sha256_parse. by rewrite Hl, Hx, Hlen.
  - clear Hlen. revert digest'. induction digest as [|b d IH]; intros [|b' d']; try done.
    simpl. intros [= Hh Hlo Hd]. f_equal; [|by apply IH].
    destruct (nibbles_lt b), (nibbles_lt b').
    apply hex_digit_inj in Hh; [|done..]. apply hex_digit_inj in Hlo; [|done..].
    apply u8_of_inj. rewrite !N.shiftr_div_pow2 in Hh. change 15 with (N.ones 4) in Hlo.
    rewrite !N.land_ones in Hlo. change (2 ^ 4) with 16 in *.
    pose proof (N.div_mod (u8_of b) 16). pose proof (N.div_mod (u8_of b') 16). lia.
Qed.

Lemma sha256_text_form_witness :
  sha256_parse (sha256_from_digest (replicate 32 Byte.xab))
    = Some (sha256_from_digest (replicate 32 Byte.xab)).
Proof. refine (proj1 (sha256_text_form (replicate 32 Byte.xab) [] _)). reflexivity. Defined.
