(* ===== verification/Json.v ===== *)
(** * JSON at the link boundary ([protocol/src/json.rs])

    [Value] is the data type [serde_json] documents: an integer within [i64] or
    [u64], or a float; an object is its entries in key order.  Reading and
    writing JSON text is [serde_json]'s own, the class [SerdeJson].  [Fields]
    are the typed accessors every decoder of a body is written with, and
    [parse_u64_decimal] the uint64 form of the link. *)
From S2P Require Import Prelude WireEnum Float.

(** ** Values *)
Inductive Number :=
  | NInt (z : Z)
  | NFloat (x : F64).

Inductive Value :=
  | VNull
  | VBool (b : bool)
  | VNumber (n : Number)
  | VString (text : string)
  | VArray (items : list Value)
  | VObject (entries : list (string * Value)).

Abbreviation Object := (list (string * Value)).

(** [serde_json::from_str::<Value>] with its error's text, [to_string] of what
    a [Serialize] wrote, and of a [Value]. *)
Class SerdeJson := {
  from_str : string -> result string Value;
  to_string : Value -> result string string;
  value_to_string : Value -> string;
}.

Definition value_as_str (v : Value) : option string :=
  match v with VString text => Some text | _ => None end.
Definition value_as_array (v : Value) : option (list Value) :=
  match v with VArray items => Some items | _ => None end.
Definition value_as_object (v : Value) : option Object :=
  match v with VObject entries => Some entries | _ => None end.
Definition is_null (v : Value) : bool := match v with VNull => true | _ => false end.

(** An integer, when it is representable. *)
Definition value_as_u64 (v : Value) : option N :=
  match v with
  | VNumber (NInt z) => if ((0 <=? z) && (z <=? Z.of_N u64_max))%Z then Some (Z.to_N z) else None
  | _ => None
  end.
Definition value_as_i64 (v : Value) : option Z :=
  match v with
  | VNumber (NInt z) => if ((- 2 ^ 63 <=? z) && (z <? 2 ^ 63))%Z then Some z else None
  | _ => None
  end.

(** [Map::get], [Map::insert] (a [BTreeMap] keeps its keys in byte order) and
    [Map::remove]. *)
Fixpoint object_get (key : string) (o : Object) : option Value :=
  match o with
  | [] => None
  | (k, v) :: o => if String.eqb k key then Some v else object_get key o
  end.
Fixpoint object_insert (key : string) (v : Value) (o : Object) : Object :=
  match o with
  | [] => [(key, v)]
  | (k, w) :: rest =>
      match String.compare key k with
      | Eq => (k, v) :: rest
      | Lt => (key, v) :: o
      | Gt => (k, w) :: object_insert key v rest
      end
  end.

(** What reading back a written value gives: the entries of every object in
    key order, the last of a repeated key. *)
Fixpoint canonical (v : Value) : Value :=
  match v with
  | VArray items => VArray (List.map canonical items)
  | VObject entries =>
      VObject (List.fold_left (fun o '(k, w) => object_insert k (canonical w) o) entries [])
  | _ => v
  end.

(** ** uint64 decimal strings *)
Definition is_ascii_digit (c : Ascii.ascii) : bool :=
  let n := Ascii.N_of_ascii c in (48 <=? n) && (n <=? 57).

Fixpoint all_digits (text : string) : bool :=
  match text with EmptyString => true | String c text => is_ascii_digit c && all_digits text end.

(** [str::parse::<u64>] on digits: [checked_mul] by ten, then [checked_add]. *)
Definition push_digit (acc : N) (c : Ascii.ascii) : option N :=
  let scaled := acc * 10 in
  if scaled <=? u64_max then checked_add64 scaled (Ascii.N_of_ascii c - 48) else None.
Fixpoint parse_digits (acc : N) (text : string) : option N :=
  match text with
  | EmptyString => Some acc
  | String c text => push_digit acc c ≫= fun acc => parse_digits acc text
  end.

Definition parse_u64_decimal (text : string) : option N :=
  if String.eqb text EmptyString || negb (all_digits text) then None else parse_digits 0 text.

(** The serializer of a [u64]: [collect_str]. *)
Definition u64_string (value : N) : Value := VString (pretty value).

(** ** The fields of one object *)
Record Fields := mkFields { fd_object : Object; fd_owner : string }.

Definition fields_error (f : Fields) (key rule : string) : ProtocolError :=
  malformed (fd_owner f +:+ "." +:+ key +:+ " " +:+ rule).

Definition raw (f : Fields) (key : string) : option Value := object_get key (fd_object f).

Definition present (f : Fields) (key : string) : option Value :=
  match raw f key with
  | Some v => if is_null v then None else Some v
  | None => None
  end.

Definition field_string (f : Fields) (key : string) : result ProtocolError string :=
  ok_or (fields_error f key "must be a string") (raw f key ≫= value_as_str).

Definition nonempty_string (f : Fields) (key : string) : result ProtocolError string :=
  match raw f key ≫= value_as_str with
  | Some text =>
      if String.eqb text "" then Err (fields_error f key "must be a non-empty string") else Ok text
  | None => Err (fields_error f key "must be a non-empty string")
  end.

Definition optional_string (f : Fields) (key : string) : result ProtocolError (option string) :=
  match present f key with
  | None => Ok None
  | Some (VString text) => Ok (Some text)
  | Some _ => Err (fields_error f key "must be a string or null")
  end.

Definition optional_text (f : Fields) (key : string) : result ProtocolError (option string) :=
  let? text := optional_string f key in
  Ok (match text with Some t => if String.eqb t "" then None else Some t | None => None end).

Definition optional_bool (f : Fields) (key : string) : result ProtocolError (option bool) :=
  match present f key with
  | None => Ok None
  | Some (VBool b) => Ok (Some b)
  | Some _ => Err (fields_error f key "must be a boolean or null")
  end.

Definition optional_count (f : Fields) (key : string) : result ProtocolError (option N) :=
  match present f key with
  | None => Ok None
  | Some value =>
      ok_or (fields_error f key "must be a non-negative integer") (Some <$> value_as_u64 value)
  end.

Definition field_u64_string (f : Fields) (key : string) : result ProtocolError N :=
  ok_or (fields_error f key "must be a uint64 decimal string")
    ((raw f key ≫= value_as_str) ≫= parse_u64_decimal).

Definition optional_u64_string (f : Fields) (key : string) : result ProtocolError (option N) :=
  match present f key with
  | None => Ok None
  | Some _ => let? n := field_u64_string f key in Ok (Some n)
  end.

Definition field_object (f : Fields) (key : string) : result ProtocolError Object :=
  ok_or (fields_error f key "must be an object") (raw f key ≫= value_as_object).

Definition optional_object (f : Fields) (key : string) : result ProtocolError (option Object) :=
  match present f key with
  | None => Ok None
  | Some (VObject o) => Ok (Some o)
  | Some _ => Err (fields_error f key "must be an object or null")
  end.

Definition field_array (f : Fields) (key : string) : result ProtocolError (list Value) :=
  ok_or (fields_error f key "must be an array") (raw f key ≫= value_as_array).

Definition optional_array (f : Fields) (key : string) : result ProtocolError (option (list Value)) :=
  match present f key with
  | None => Ok None
  | Some (VArray items) => Ok (Some items)
  | Some _ => Err (fields_error f key "must be an array or null")
  end.

(** A value's text for an error's detail. *)
Definition sent `{SerdeJson} (f : Fields) (key : string) : string :=
  match raw f key with Some v => value_to_string v | None => "absent" end.

(** [option.map(parse).transpose()?]. *)
Definition transpose {A B} (parse : A -> result ProtocolError B) (o : option A) :
    result ProtocolError (option B) :=
  match o with
  | Some a => let? b := parse a in Ok (Some b)
  | None => Ok None
  end.

(** [iter().map(f).collect::<Result<Vec<_>, _>>()]: the first error. *)
Fixpoint collect {A B} (f : A -> result ProtocolError B) (l : list A) : result ProtocolError (list B) :=
  match l with
  | [] => Ok []
  | x :: l => let? y := f x in let? ys := collect f l in Ok (y :: ys)
  end.

(** ** Facts *)

(** The integer a digit string denotes. *)
Fixpoint decimal_value (acc : N) (text : string) : N :=
  match text with
  | EmptyString => acc
  | String c text => decimal_value (acc * 10 + (Ascii.N_of_ascii c - 48)) text
  end.

Lemma decimal_value_ge text acc : acc <= decimal_value acc text.
Proof.
  revert acc. induction text as [|c text IH]; intros acc; cbn; [lia|].
  etrans; [|apply IH]. lia.
Qed.

Lemma parse_digits_spec text acc n :
  acc <= u64_max ->
  parse_digits acc text = Some n <-> n = decimal_value acc text /\ n <= u64_max.
Proof.
  revert acc. induction text as [|c text IH]; intros acc Hacc; cbn; [naive_solver|].
  pose proof (decimal_value_ge text (acc * 10 + (Ascii.N_of_ascii c - 48))) as Hge.
  unfold push_digit, checked_add64.
  destruct (N.leb_spec (acc * 10) u64_max); cbn; [|split; [done|lia]].
  destruct (N.leb_spec (acc * 10 + (Ascii.N_of_ascii c - 48)) u64_max); cbn; [by apply IH|].
  split; [done|lia].
Qed.

(** The uint64 form accepts exactly the nonempty digit strings whose value is
    a [u64], leading zeros allowed, and reads their value. *)
Lemma parse_u64_decimal_spec text n :
  parse_u64_decimal text = Some n <->
  text <> "" /\ all_digits text = true /\ n = decimal_value 0 text /\ n <= u64_max.
Proof.
  unfold parse_u64_decimal. destruct (String.eqb_spec text ""); cbn; [naive_solver|].
  destruct (all_digits text); cbn; [|naive_solver].
  rewrite parse_digits_spec by done. naive_solver.
Qed.

Lemma pretty_N_char_value d : d < 10 -> Ascii.N_of_ascii (pretty_N_char d) = d + 48.
Proof.
  intros H. destruct d as [|p]; [done|].
  do 4 (try (destruct p as [p|p|]; try reflexivity)); exfalso; lia.
Qed.

Lemma pretty_N_char_digit d : d < 10 -> is_ascii_digit (pretty_N_char d) = true.
Proof. intros H. unfold is_ascii_digit. rewrite pretty_N_char_value by done.
  apply andb_true_intro. rewrite !N.leb_le. lia.
Qed.

Lemma pretty_N_go_reads x s :
  (x <= u64_max -> parse_digits 0 (pretty_N_go x s) = parse_digits x s) /\ all_digits (pretty_N_go x s) = all_digits s.
Proof.
  revert s. induction x as [x IH] using (well_founded_induction N.lt_wf_0); intros s.
  destruct (decide (x = 0)) as [->|Hx]; [by rewrite pretty_N_go_0|].
  rewrite pretty_N_go_step by lia.
  assert (Hm : x mod 10 < 10) by (apply N.mod_lt; lia).
  pose proof (N.div_mod x 10 ltac:(lia)) as Hd.
  destruct (IH (x / 10) ltac:(apply N.div_lt; lia) (String (pretty_N_char (x mod 10)) s)) as [H1 H2].
  split.
  - intros Hmax. rewrite H1 by div_lia. cbn [parse_digits]. unfold push_digit, checked_add64.
    rewrite pretty_N_char_value, N.add_sub by done.
    destruct (N.leb_spec (x / 10 * 10) u64_max); [|div_lia].
    replace (x / 10 * 10 + x mod 10) with x by lia.
    destruct (N.leb_spec x u64_max); [done|lia].
  - rewrite H2. cbn [all_digits]. by rewrite pretty_N_char_digit.
Qed.

(** What [u64_string] writes, [parse_u64_decimal] reads back. *)
Lemma u64_decimal_roundtrip n : n <= u64_max -> parse_u64_decimal (pretty n) = Some n.
Proof.
  intros Hn. unfold parse_u64_decimal, pretty, pretty_N.
  destruct (decide (n = 0)) as [->|Hz]; [done|].
  destruct (pretty_N_go_reads n "") as [H1 H2].
  destruct (String.eqb_spec (pretty_N_go n "") "") as [E|_].
  { rewrite E in H1. specialize (H1 Hn). cbn in H1. congruence. }
  rewrite H2. cbn [negb orb all_digits]. by apply H1.
Qed.

(** *** Objects *)
Lemma string_compare_refl a : String.compare a a = Eq.
Proof. pose proof (String.compare_antisym a a) as E. by destruct (String.compare a a). Qed.

Lemma object_get_insert key k v o :
  object_get key (object_insert k v o) = if String.eqb k key then Some v else object_get key o.
Proof.
  induction o as [|[k' w] o IH]; cbn; [done|].
  destruct (String.compare k k') eqn:E; cbn.
  - apply String.compare_eq_iff in E as ->. by destruct (String.eqb_spec k' key).
  - done.
  - rewrite IH. destruct (String.eqb_spec k' key) as [->|Hne]; [|done].
    destruct (String.eqb_spec k key) as [->|]; [|done].
    by rewrite string_compare_refl in E.
Qed.

(** *** Accessors: what each accepts, and that it refuses as
    [malformed_message]. *)
Lemma field_string_Ok f key text : field_string f key = Ok text <-> raw f key = Some (VString text).
Proof. unfold field_string. destruct (raw f key) as [[]|]; cbn; naive_solver. Qed.

Lemma nonempty_string_Ok f key text :
  nonempty_string f key = Ok text <-> raw f key = Some (VString text) /\ text <> "".
Proof.
  unfold nonempty_string. destruct (raw f key) as [[| | |t| |]|]; cbn; try naive_solver.
  destruct (String.eqb_spec t ""); naive_solver.
Qed.

(** Present and not null. *)
Lemma present_Some f key v : present f key = Some v <-> raw f key = Some v /\ v <> VNull.
Proof. unfold present. destruct (raw f key) as [[]|]; cbn; naive_solver. Qed.
Lemma present_None f key : present f key = None <-> raw f key = None \/ raw f key = Some VNull.
Proof. unfold present. destruct (raw f key) as [[]|]; cbn; naive_solver. Qed.

Lemma field_u64_string_Ok f key n :
  field_u64_string f key = Ok n <->
  exists text, raw f key = Some (VString text) /\ parse_u64_decimal text = Some n.
Proof.
  unfold field_u64_string. destruct (raw f key) as [[| | |t| |]|]; cbn; try naive_solver.
  destruct (parse_u64_decimal t) eqn:E; cbn; naive_solver.
Qed.

(** A decoder whose every error is [malformed_message]. *)
Definition refuses_malformed {A} (r : result ProtocolError A) : Prop :=
  forall e, r = Err e -> pe_code e = Pe_MalformedMessage.

Lemma refuses_bind {A B} (r : result ProtocolError A) (k : A -> result ProtocolError B) :
  refuses_malformed r -> (forall a, refuses_malformed (k a)) ->
  refuses_malformed (let? a := r in k a).
Proof. intros Hr Hk. destruct r as [a|e]; [apply Hk|]. intros e' [= <-]. by apply Hr. Qed.
Lemma refuses_ok {A} (a : A) : refuses_malformed (Ok a).
Proof. by intros e. Qed.
Lemma refuses_fields_error {A} f key rule : refuses_malformed (Err (A:=A) (fields_error f key rule)).
Proof. by intros e [= <-]. Qed.
Lemma refuses_ok_or {A} f key rule (o : option A) : refuses_malformed (ok_or (fields_error f key rule) o).
Proof. by destruct o; intros e [= <-]. Qed.

Create HintDb refuses.
#[export] Hint Resolve refuses_ok refuses_fields_error refuses_ok_or : refuses.

Ltac refuses_by_cases :=
  repeat match goal with
    | |- refuses_malformed (match ?x with _ => _ end) => destruct x
    end; auto with refuses.

Lemma refuses_accessors f key :
  refuses_malformed (field_string f key) /\ refuses_malformed (nonempty_string f key) /\ refuses_malformed (optional_string f key) /\ refuses_malformed (optional_bool f key) /\ refuses_malformed (optional_count f key) /\ refuses_malformed (field_u64_string f key) /\ refuses_malformed (field_object f key) /\ refuses_malformed (optional_object f key) /\ refuses_malformed (field_array f key) /\ refuses_malformed (optional_array f key).
Proof.
  split_and!; unfold field_string, nonempty_string, optional_string, optional_bool, optional_count,
    field_u64_string, field_object, optional_object, field_array, optional_array;
    refuses_by_cases.
Qed.

Lemma refuses_optional_text f key : refuses_malformed (optional_text f key).
Proof.
  unfold optional_text. apply refuses_bind; [apply refuses_accessors|]. auto with refuses.
Qed.
Lemma refuses_optional_u64 f key : refuses_malformed (optional_u64_string f key).
Proof.
  unfold optional_u64_string. destruct (present f key); [|auto with refuses].
  apply refuses_bind; [apply refuses_accessors|auto with refuses].
Qed.
Lemma refuses_transpose {A B} (parse : A -> result ProtocolError B) o :
  (forall a, refuses_malformed (parse a)) -> refuses_malformed (transpose parse o).
Proof.
  intros Hp. destruct o; cbn; [|auto with refuses].
  apply refuses_bind; auto with refuses.
Qed.
Lemma refuses_collect {A B} (parse : A -> result ProtocolError B) l :
  (forall a, refuses_malformed (parse a)) -> refuses_malformed (collect parse l).
Proof.
  intros Hp. induction l as [|x l IH]; cbn; [auto with refuses|].
  apply refuses_bind; [done|]. intros b. apply refuses_bind; auto with refuses.
Qed.

(** Discharges [refuses_malformed] of a decoder, field by field. *)
Ltac solve_refuses :=
  repeat (first
    [ apply refuses_optional_text | apply refuses_optional_u64 | apply refuses_accessors
    | apply refuses_transpose; intros ?
    | apply refuses_collect; intros ?
    | apply refuses_bind; [|intros ?]
    | match goal with |- refuses_malformed (match ?x with _ => _ end) => destruct x end
    | solve [auto with refuses] ]).

(** ** Schemas

    What the protocol document says of a body: which fields it has, of what
    type, which may be absent or null.  A decoder is right about what it accepts
    when it accepts the values of its schema and no others. *)
Inductive Schema :=
  | Sc_Any
  | Sc_Text (ok : string -> bool)
  | Sc_Bool
  | Sc_Count (max : N)
  | Sc_That (ok : Value -> bool)
  | Sc_Array (items : Schema)
  | Sc_Map (key : string -> bool) (values : Schema)
  | Sc_Record (fields : list (string * Presence * Schema))
with Presence := Required | Nullable | Optional.

Definition any_text (text : string) : bool := true.
Definition nonempty_text (text : string) : bool := negb (String.eqb text "").
Definition u64_text (text : string) : bool := bool_decide (is_Some (parse_u64_decimal text)).

(** A field's value against its rule: a [Nullable] field must be there, an
    [Optional] one need not. *)
Definition field_conforms (check : Value -> bool) (presence : Presence) (v : option Value) : bool :=
  match presence, v with
  | _, Some v => match presence with Required => false | _ => is_null v end || check v
  | Optional, None => true
  | _, None => false
  end.

Fixpoint conforms (s : Schema) (v : Value) : bool :=
  match s, v with
  | Sc_Any, _ => true
  | Sc_Text ok, VString text => ok text
  | Sc_Bool, VBool _ => true
  | Sc_Count max, _ => match value_as_u64 v with Some n => n <=? max | None => false end
  | Sc_That ok, _ => ok v
  | Sc_Array s, VArray items => forallb (conforms s) items
  | Sc_Map key s, VObject o =>
      forallb (fun kv => key kv.1 && (is_null kv.2 || conforms s kv.2)) o
  | Sc_Record fields, VObject o =>
      List.forallb (fun '(key, presence, s) =>
        field_conforms (conforms s) presence (object_get key o)) fields
  | _, _ => false
  end.

Definition in_record (f : Fields) (key : string) (presence : Presence) (s : Schema) : bool :=
  field_conforms (conforms s) presence (raw f key).

Lemma value_as_u64_max v n : value_as_u64 v = Some n -> n <= u64_max.
Proof.
  destruct v as [| |[z|]| | |]; cbn -[u64_max]; try done.
  destruct ((0 <=? z)%Z && (z <=? Z.of_N u64_max)%Z) eqn:E; [|done]. intros [= <-].
  apply andb_true_iff in E. rewrite !Z.leb_le in E. lia.
Qed.

(** [is_ok] of a sequence of reads, whose later reads do not depend on what the
    earlier ones returned. *)
Lemma is_ok_bind {E A B} (r : result E A) (k : A -> result E B) b :
  (forall a, r = Ok a -> is_ok (k a) = b) -> is_ok (let? a := r in k a) = is_ok r && b.
Proof. intros H. destruct r; cbn; auto. Qed.

Lemma is_ok_ok_or {E A} (e : E) (o : option A) : is_ok (ok_or e o) = bool_decide (is_Some o).
Proof. by destruct o. Qed.

Section accepts.
Context (f : Fields) (key : string).

Lemma field_string_accepts : is_ok (field_string f key) = in_record f key Required (Sc_Text any_text).
Proof. unfold field_string, in_record. by destruct (raw f key) as [[]|]. Qed.
Lemma nonempty_string_accepts :
  is_ok (nonempty_string f key) = in_record f key Required (Sc_Text nonempty_text).
Proof.
  unfold nonempty_string, in_record, nonempty_text.
  destruct (raw f key) as [[| | |t| |]|]; cbn; try done. by destruct (String.eqb t "").
Qed.
Lemma field_u64_accepts : is_ok (field_u64_string f key) = in_record f key Required (Sc_Text u64_text).
Proof.
  unfold field_u64_string, in_record, u64_text. rewrite is_ok_ok_or.
  by destruct (raw f key) as [[]|].
Qed.
Lemma field_array_accepts : is_ok (field_array f key) = in_record f key Required (Sc_Array Sc_Any).
Proof.
  unfold field_array, in_record. destruct (raw f key) as [[| | | |l|]|]; cbn; try done.
  by induction l.
Qed.

Lemma optional_string_accepts :
  is_ok (optional_string f key) = in_record f key Optional (Sc_Text any_text).
Proof. unfold optional_string, present, in_record. by destruct (raw f key) as [[]|]. Qed.
Lemma optional_text_accepts :
  is_ok (optional_text f key) = in_record f key Optional (Sc_Text any_text).
Proof. unfold optional_text. rewrite is_ok_bind with (b := true), andb_true_r by done. apply optional_string_accepts. Qed.
Lemma optional_bool_accepts : is_ok (optional_bool f key) = in_record f key Optional Sc_Bool.
Proof. unfold optional_bool, present, in_record. by destruct (raw f key) as [[]|]. Qed.
Lemma optional_count_accepts : is_ok (optional_count f key) = in_record f key Optional (Sc_Count u64_max).
Proof.
  unfold optional_count, present, in_record.
  destruct (raw f key) as [[| |n| | |]|]; cbn -[value_as_u64]; try done.
  destruct (value_as_u64 (VNumber n)) as [k|] eqn:E; cbn; [|done].
  symmetry. apply N.leb_le. by eapply value_as_u64_max.
Qed.
Lemma optional_u64_accepts :
  is_ok (optional_u64_string f key) = in_record f key Optional (Sc_Text u64_text).
Proof.
  unfold optional_u64_string. destruct (present f key) as [v|] eqn:E.
  - rewrite is_ok_bind with (b := true), andb_true_r, field_u64_accepts by done.
    apply present_Some in E as [E Hv]. unfold in_record. rewrite E. by destruct v.
  - apply present_None in E. unfold in_record. by destruct E as [-> | ->].
Qed.

(** A nested record or list, absent or null or as its own decoder reads it. *)
Lemma optional_object_accepts {A} (parse : Object -> result ProtocolError A) fields :
  (forall o, is_ok (parse o) = conforms (Sc_Record fields) (VObject o)) ->
  is_ok (let? o := optional_object f key in transpose parse o)
    = in_record f key Optional (Sc_Record fields).
Proof.
  intros Hp. unfold optional_object, present, in_record.
  destruct (raw f key) as [[| | | | |o]|]; cbn; try done. specialize (Hp o). cbn in Hp.
  rewrite <- Hp. by destruct (parse o).
Qed.
Lemma optional_array_accepts {A} (parse : list Value -> result ProtocolError A) s :
  (forall l, is_ok (parse l) = forallb (conforms s) l) ->
  is_ok (let? o := optional_array f key in transpose parse o) = in_record f key Optional (Sc_Array s).
Proof.
  intros Hp. unfold optional_array, present, in_record.
  destruct (raw f key) as [[| | | |l|]|]; cbn; try done. rewrite <- Hp. by destruct (parse l).
Qed.
End accepts.

Lemma collect_accepts {A B} (parse : A -> result ProtocolError B) ok l :
  (forall a, is_ok (parse a) = ok a) -> is_ok (collect parse l) = forallb ok l.
Proof.
  intros Hp. induction l as [|x l IH]; cbn [collect forallb]; [done|].
  rewrite <- Hp, <- IH. apply is_ok_bind. intros y _.
  by rewrite is_ok_bind with (b := true), andb_true_r.
Qed.

Lemma mapM_accepts {A B} (f : A -> option B) ok l :
  (forall a, bool_decide (is_Some (f a)) = ok a) -> bool_decide (is_Some (mapM f l)) = forallb ok l.
Proof.
  intros Hf. induction l as [|x l IH]; cbn [forallb mapM]; [done|]. rewrite <- Hf.
  change (mapM f (x :: l)) with (f x ≫= fun y => mapM f l ≫= fun k => Some (y :: k)).
  destruct (f x); cbn; [|done]. rewrite <- IH. by destruct (mapM f l).
Qed.

(** ** A decoder against its schema *)
Lemma conforms_record owner fields o :
  conforms (Sc_Record fields) (VObject o) =
  forallb (fun '(key, presence, s) => in_record (mkFields o owner) key presence s) fields.
Proof. reflexivity. Qed.

Lemma is_ok_read {E A B} (r : result E A) (k : A -> result E B) x y :
  is_ok r = x -> (forall a, is_ok (k a) = y) -> is_ok (let? a := r in k a) = x && y.
Proof. intros <- H. apply is_ok_bind. auto. Qed.

(** Two reads that check one field. *)
Lemma is_ok_read2 {E A B C} (r : result E A) (m : A -> result E B) (k : B -> result E C) x y :
  is_ok (let? a := r in m a) = x -> (forall b, is_ok (k b) = y) ->
  is_ok (let? a := r in let? b := m a in k b) = x && y.
Proof. intros <- H. destruct r as [a|]; cbn; [|done]. by destruct (m a); cbn. Qed.

Lemma is_ok_map_err {E F A} (f : E -> F) (r : result E A) : is_ok (map_err f r) = is_ok r.
Proof. by destruct r. Qed.

Create HintDb accepts.
#[export] Hint Resolve field_string_accepts nonempty_string_accepts field_u64_accepts
  optional_string_accepts optional_text_accepts optional_bool_accepts optional_count_accepts
  optional_u64_accepts : accepts.

(** Proves that a decoder accepts what its schema allows, its reads being in
    the order of the schema's fields. *)
Ltac solve_accepts owner :=
  lazymatch goal with |- _ = conforms ?s _ => let s' := eval hnf in s in change s with s' end;
  rewrite (conforms_record owner); cbn [forallb];
  repeat first
    [ reflexivity
    | apply is_ok_read; [solve [auto with accepts]|intros ?]
    | apply is_ok_read; [|intros ?] ].

(** *** Reading a written object *)
Definition canonical_entries (entries : Object) : Object :=
  List.fold_left (fun o '(k, w) => object_insert k (canonical w) o) entries [].

Lemma canonical_object entries : canonical (VObject entries) = VObject (canonical_entries entries).
Proof. reflexivity. Qed.

Lemma fold_insert_get key entries acc :
  NoDup entries.*1 ->
  object_get key (List.fold_left (fun o '(k, w) => object_insert k (canonical w) o) entries acc) =
  match object_get key entries with Some v => Some (canonical v) | None => object_get key acc end.
Proof.
  revert acc. induction entries as [|[k w] entries IH]; intros acc; cbn; [done|].
  intros [Hk Hnd]%NoDup_cons. rewrite IH by done. destruct (String.eqb_spec k key) as [->|Hne].
  - assert (Hn : object_get key entries = None).
    { clear -Hk. induction entries as [|[k w] entries IH]; cbn in *; [done|].
      apply not_elem_of_cons in Hk as [Hne Hk].
      destruct (String.eqb_spec k key) as [->|]; [done|by apply IH]. }
    by rewrite Hn, object_get_insert, String.eqb_refl.
  - destruct (object_get key entries); [done|]. rewrite object_get_insert.
    by destruct (String.eqb_spec k key).
Qed.

(** The keys a writer uses are distinct, so reading the written object finds
    under each key what was written under it. *)
Lemma canonical_get key entries :
  NoDup entries.*1 ->
  object_get key (canonical_entries entries) = canonical <$> object_get key entries.
Proof.
  intros H. unfold canonical_entries. rewrite fold_insert_get by done.
  by destruct (object_get key entries).
Qed.

(** The keys of a written object are distinct. *)
Ltac distinct_keys := apply (bool_decide_unpack _); vm_compute; exact I.

(** Reads of a written object at literal keys. *)
Ltac read_written :=
  rewrite ?canonical_object;
  repeat (rewrite canonical_get by distinct_keys);
  cbn [object_get String.eqb Ascii.eqb Bool.eqb fmap option_fmap option_map canonical].

Lemma collect_Ok {A B} (f : A -> result ProtocolError B) l ys :
  collect f l = Ok ys -> Forall2 (fun x y => f x = Ok y) l ys.
Proof.
  revert ys. induction l as [|x l IH]; intros ys; cbn; [by intros [= <-]|].
  destruct (f x) as [y|] eqn:E; [|done]. destruct (collect f l) as [ys'|]; [|done].
  intros [= <-]. by constructor; [|apply IH].
Qed.

Lemma object_get_None key o : object_get key o = None <-> key ∉ o.*1.
Proof.
  induction o as [|[k v] o IH]; cbn; [by split; [intros _ ?%elem_of_nil|]|].
  rewrite not_elem_of_cons. destruct (String.eqb_spec k key); naive_solver.
Qed.
Lemma object_get_key key v o : object_get key o = Some v -> key ∈ o.*1.
Proof. intros H. apply dec_stable. intros Hn%object_get_None. congruence. Qed.

Lemma object_get_elem key v o : NoDup o.*1 -> (key, v) ∈ o -> object_get key o = Some v.
Proof.
  induction o as [|[k w] o IH]; cbn; [by intros _ ?%elem_of_nil|].
  intros [Hk Hnd]%NoDup_cons [[= -> ->]|Hin]%elem_of_cons; [by rewrite String.eqb_refl|].
  destruct (String.eqb_spec k key) as [->|_]; [|by apply IH].
  destruct Hk. apply list_elem_of_fmap. by exists (key, v).
Qed.
