(* ===== verification/Policy.v ===== *)
(** * The detector policy ([protocol/src/session.rs]) and the device that runs it

    Thresholds, opening rules and the policy [session.ready] carries, each built
    only when valid; what [Serialize] writes of them; and the device's side: the
    policy as Go decodes it ([src/device/internal/proto/proto.go]) and the checks
    of [src/device/internal/wakeword/detector/types.go], so that what the
    controller can build and what the device accepts are compared. *)
From S2P Require Import Prelude WireEnum Float Json Vocab.

(** ** Detector policy *)
Inductive RuleProfile := Rp_Idle | Rp_Playback.
#[export] Instance RuleProfile_wire : WireEnum RuleProfile := {
  as_str v := match v with Rp_Idle => "idle" | Rp_Playback => "playback" end%string;
  ALL := [Rp_Idle; Rp_Playback];
}.
#[export] Instance RuleProfile_laws : WireLaws RuleProfile.
Proof. solve_wire_laws. Qed.
#[export] Instance RuleProfile_eq_dec : EqDecision RuleProfile.
Proof. solve_decision. Defined.

Inductive RuleCombine := Rc_Mean | Rc_All.
#[export] Instance RuleCombine_wire : WireEnum RuleCombine := {
  as_str v := match v with Rc_Mean => "mean" | Rc_All => "all" end%string;
  ALL := [Rc_Mean; Rc_All];
}.
#[export] Instance RuleCombine_laws : WireLaws RuleCombine.
Proof. solve_wire_laws. Qed.

Inductive PolicyError :=
  | Po_Threshold (name : string) (value : F64)
  | Po_DuckDb (value : F64)
  | Po_RuleWindows (windows : N)
  | Po_RuleThreshold (threshold : F64)
  | Po_TooManyOpenRules (n : nat)
  | Po_TooManyShadowRules (n : nat)
  | Po_NoRuleForProfile (profile : RuleProfile).

Definition MAX_OPEN_RULES : nat := 6.
Definition MAX_SHADOW_RULES : nat := 8.

Definition unit_interval (value : F64) : bool :=
  f64_ltb (f64_of_Z 0) value && f64_leb value (f64_of_Z 1).

Record Thresholds := mkThresholds { th_idle : F64; th_playback : F64; th_near_miss : F64 }.

Fixpoint check_thresholds (named : list (string * F64)) : result PolicyError unit :=
  match named with
  | [] => Ok tt
  | (name, value) :: named =>
      if negb (unit_interval value) then Err (Po_Threshold name value) else check_thresholds named
  end.

Definition thresholds_new (idle playback near_miss : F64) : result PolicyError Thresholds :=
  let? _ := check_thresholds [("idle", idle); ("playback", playback); ("near_miss", near_miss)] in
  Ok (mkThresholds idle playback near_miss).

Record OpenRule := mkOpenRule {
  or_profile : RuleProfile;
  or_windows : N;
  or_combine : RuleCombine;
  or_threshold : F64;
}.

Definition open_rule_new (profile : RuleProfile) (windows : N) (combine : RuleCombine)
    (threshold : F64) : result PolicyError OpenRule :=
  if negb ((1 <=? windows) && (windows <=? 3)) then Err (Po_RuleWindows windows)
  else if negb (unit_interval threshold) then Err (Po_RuleThreshold threshold)
  else Ok (mkOpenRule profile windows combine threshold).

Record DetectorPolicy := mkDetectorPolicy {
  dp_thresholds : Thresholds;
  dp_duck_db : F64;
  dp_open_rules : option (list OpenRule);
  dp_shadow_rules : option (list OpenRule);
}.

Definition HOP_BLOCKS : N := 2.
Definition SMOOTHING : N := 3.
Definition CLEAR_AFTER_UNSCORED : N := 6.
Definition DUCK_MAX_PER_WINDOW : N := 2.
Definition DUCK_WINDOW_MS : N := 5000.

Fixpoint check_profiles (rules : list OpenRule) (profiles : list RuleProfile) : result PolicyError unit :=
  match profiles with
  | [] => Ok tt
  | p :: profiles =>
      if negb (any (fun r => bool_decide (or_profile r = p)) rules) then Err (Po_NoRuleForProfile p)
      else check_profiles rules profiles
  end.

Definition check_open_rules (open_rules : option (list OpenRule)) : result PolicyError unit :=
  match open_rules with
  | Some rules =>
      if (MAX_OPEN_RULES <? length rules)%nat then Err (Po_TooManyOpenRules (length rules))
      else check_profiles rules ALL
  | None => Ok tt
  end.

Definition check_shadow_rules (shadow_rules : option (list OpenRule)) : result PolicyError unit :=
  match shadow_rules with
  | Some rules =>
      if (MAX_SHADOW_RULES <? length rules)%nat then Err (Po_TooManyShadowRules (length rules))
      else Ok tt
  | None => Ok tt
  end.

Definition detector_policy_new (thresholds : Thresholds) (duck_db : F64)
    (open_rules shadow_rules : option (list OpenRule)) : result PolicyError DetectorPolicy :=
  if negb (f64_is_finite duck_db) then Err (Po_DuckDb duck_db)
  else
    let? _ := check_open_rules open_rules in
    let? _ := check_shadow_rules shadow_rules in
    Ok (mkDetectorPolicy thresholds duck_db open_rules shadow_rules).

Definition without_rules (p : DetectorPolicy) : DetectorPolicy :=
  mkDetectorPolicy (dp_thresholds p) (dp_duck_db p) None None.

(** ** What [Serialize] writes: the fields in declaration order.  A float that
    is not a number is written as null. *)
Definition nat_value (n : N) : Value := VNumber (NInt (Z.of_N n)).
Definition f64_value (x : F64) : Value := if f64_is_finite x then VNumber (NFloat x) else VNull.
Definition wire_value {A} `{WireEnum A} (a : A) : Value := VString (as_str a).

Definition thresholds_value (t : Thresholds) : Value :=
  VObject [("idle", f64_value (th_idle t)); ("playback", f64_value (th_playback t));
           ("near_miss", f64_value (th_near_miss t))].
Definition open_rule_value (r : OpenRule) : Value :=
  VObject [("profile", wire_value (or_profile r)); ("windows", nat_value (or_windows r));
           ("combine", wire_value (or_combine r)); ("threshold", f64_value (or_threshold r))].
Definition rules_field (key : string) (rules : option (list OpenRule)) : Object :=
  match rules with Some rules => [(key, VArray (open_rule_value <$> rules))] | None => [] end.
Definition duck_value (duck_db : F64) : Value :=
  VObject [("duck_db", f64_value duck_db); ("max_per_window", nat_value DUCK_MAX_PER_WINDOW);
           ("window_ms", nat_value DUCK_WINDOW_MS)].
Definition policy_value (p : DetectorPolicy) : Value :=
  VObject ([("thresholds", thresholds_value (dp_thresholds p)); ("hop_blocks", nat_value HOP_BLOCKS);
            ("smoothing", nat_value SMOOTHING);
            ("clear_after_unscored", nat_value CLEAR_AFTER_UNSCORED);
            ("provisional_duck", duck_value (dp_duck_db p))]
           ++ rules_field "open_rules" (dp_open_rules p)
           ++ rules_field "shadow_rules" (dp_shadow_rules p)).


(** ** The device's reading and check of a policy

    [proto.DetectorPolicy] as Go's [encoding/json] fills it from the fields of
    an object: an absent or null one leaves the zero value.  Each check is
    whether the Go function returns no error. *)
Record GoRule := mkGoRule {
  gr_profile : string; gr_windows : Z; gr_combine : string; gr_threshold : F64;
}.
Record GoThresholds := mkGoThresholds { gt_idle : F64; gt_playback : F64; gt_near_miss : F64 }.
Record GoPolicy := mkGoPolicy {
  gp_thresholds : GoThresholds;
  gp_hop_blocks : Z;
  gp_smoothing : Z;
  gp_clear_after_unscored : Z;
  gp_duck_db : F64;
  gp_open_rules : option (list GoRule);
  gp_shadow_rules : option (list GoRule);
}.

Definition go_float (o : Object) (key : string) : option F64 :=
  match object_get key o with
  | None | Some VNull => Some (f64_of_Z 0)
  | Some (VNumber (NFloat x)) => Some x
  | Some (VNumber (NInt z)) => Some (f64_of_Z z)
  | _ => None
  end.
Definition go_int (o : Object) (key : string) : option Z :=
  match object_get key o with
  | None | Some VNull => Some 0%Z
  | Some v => value_as_i64 v
  end.
Definition go_string (o : Object) (key : string) : option string :=
  match object_get key o with
  | None | Some VNull => Some ""
  | Some v => value_as_str v
  end.
Definition go_struct (o : Object) (key : string) : option Object :=
  match object_get key o with
  | None | Some VNull => Some []
  | Some v => value_as_object v
  end.
Definition go_slice {A} (decode : Value -> option A) (o : Object) (key : string) : option (option (list A)) :=
  match object_get key o with
  | None | Some VNull => Some None
  | Some v => items ← value_as_array v; Some <$> mapM decode items
  end.

Definition go_rule (v : Value) : option GoRule :=
  o ← value_as_object v;
  profile ← go_string o "profile";
  windows ← go_int o "windows";
  combine ← go_string o "combine";
  threshold ← go_float o "threshold";
  Some (mkGoRule profile windows combine threshold).

Definition go_thresholds (o : Object) : option GoThresholds :=
  idle ← go_float o "idle";
  playback ← go_float o "playback";
  near_miss ← go_float o "near_miss";
  Some (mkGoThresholds idle playback near_miss).

Definition go_policy (v : Value) : option GoPolicy :=
  o ← value_as_object v;
  thresholds ← (go_struct o "thresholds" ≫= go_thresholds);
  hop_blocks ← go_int o "hop_blocks";
  smoothing ← go_int o "smoothing";
  clear ← go_int o "clear_after_unscored";
  duck ← (go_struct o "provisional_duck" ≫= fun d => go_float d "duck_db");
  open ← go_slice go_rule o "open_rules";
  shadow ← go_slice go_rule o "shadow_rules";
  Some (mkGoPolicy thresholds hop_blocks smoothing clear duck open shadow).

Definition go_unit (v : F64) : bool := f64_ltb (f64_of_Z 0) v && f64_leb v (f64_of_Z 1).

Definition CheckPolicy (hop_blocks smoothing clear : Z) : bool :=
  ((hop_blocks * 1280 =? 2560) && (smoothing =? 3) && (clear =? 6))%Z.

Definition thresholds_validate (t : GoThresholds) : bool :=
  go_unit (gt_idle t) && go_unit (gt_playback t) && go_unit (gt_near_miss t).

Definition rule_validate (r : GoRule) : bool :=
  (String.eqb (gr_profile r) "idle" || String.eqb (gr_profile r) "playback") &&
  ((1 <=? gr_windows r) && (gr_windows r <=? 3))%Z &&
  (String.eqb (gr_combine r) "mean" || String.eqb (gr_combine r) "all") &&
  go_unit (gr_threshold r).

Fixpoint check_live_rules (rules : list GoRule) (idle playback : bool) : bool :=
  match rules with
  | [] => idle && playback
  | o :: rules =>
      if negb (rule_validate o) then false
      else check_live_rules rules (idle || String.eqb (gr_profile o) "idle")
             (playback || String.eqb (gr_profile o) "playback")
  end.

Definition CheckRules (open : option (list GoRule)) (shadow : list GoRule) : bool :=
  match open with
  | Some open => if (6 <? length open)%nat then false else check_live_rules open false false
  | None => true
  end &&
  (if (8 <? length shadow)%nat then false else forallb rule_validate shadow).

Definition model_validate (graph_sha256 : string) (p : GoPolicy) : bool :=
  (String.length graph_sha256 =? 64)%nat && string_all is_lower_hex graph_sha256 &&
  thresholds_validate (gp_thresholds p) &&
  CheckRules (gp_open_rules p) (default [] (gp_shadow_rules p)).

(** [activate], up to loading the files: a policy it refuses leaves the
    detector unavailable. *)
Definition device_activates (graph_sha256 : string) (p : GoPolicy) : bool :=
  CheckPolicy (gp_hop_blocks p) (gp_smoothing p) (gp_clear_after_unscored p) &&
  CheckRules (gp_open_rules p) (default [] (gp_shadow_rules p)) &&
  model_validate graph_sha256 p.

(** *** What the controller can build is what the device accepts *)
Definition go_rule_of (r : OpenRule) : GoRule :=
  mkGoRule (as_str (or_profile r)) (Z.of_N (or_windows r)) (as_str (or_combine r)) (or_threshold r).
Definition go_rules_of (rules : option (list OpenRule)) : option (list GoRule) :=
  match rules with Some rules => Some (go_rule_of <$> rules) | None => None end.

Definition rule_built (r : OpenRule) : Prop :=
  open_rule_new (or_profile r) (or_windows r) (or_combine r) (or_threshold r) = Ok r.

Lemma rule_validate_new profile windows combine threshold :
  is_ok (open_rule_new profile windows combine threshold)
    = rule_validate (go_rule_of (mkOpenRule profile windows combine threshold)).
Proof.
  unfold open_rule_new, rule_validate, go_rule_of, go_unit. cbn [gr_profile gr_windows gr_combine gr_threshold or_profile or_windows or_combine or_threshold].
  assert ((1 <=? Z.of_N windows) && (Z.of_N windows <=? 3) = ((1 <=? windows)%N && (windows <=? 3)%N))%Z as ->.
  { apply eq_true_iff_eq. rewrite !andb_true_iff, !Z.leb_le, !N.leb_le. lia. }
  fold (unit_interval threshold).
  by destruct profile, combine, ((1 <=? windows) && (windows <=? 3)), (unit_interval threshold).
Qed.

Lemma rule_built_validates r : rule_built r <-> rule_validate (go_rule_of r) = true.
Proof.
  destruct r as [p w c t]. unfold rule_built. rewrite <- rule_validate_new. cbn.
  unfold open_rule_new. destruct ((1 <=? w) && (w <=? 3)), (unit_interval t); cbn; naive_solver.
Qed.

Lemma thresholds_validate_new idle playback near_miss :
  is_ok (thresholds_new idle playback near_miss)
    = thresholds_validate (mkGoThresholds idle playback near_miss).
Proof.
  unfold thresholds_new, thresholds_validate. cbn -[unit_interval go_unit].
  change go_unit with unit_interval.
  by destruct (unit_interval idle), (unit_interval playback), (unit_interval near_miss).
Qed.

Lemma check_live_rules_built rules idle playback :
  Forall rule_built rules ->
  check_live_rules (go_rule_of <$> rules) idle playback =
  (idle || any (fun r => bool_decide (or_profile r = Rp_Idle)) rules) &&
  (playback || any (fun r => bool_decide (or_profile r = Rp_Playback)) rules).
Proof.
  intros H. revert idle playback. induction H as [|r rules Hr _ IH]; intros idle playback; cbn.
  { by rewrite !orb_false_r. }
  apply rule_built_validates in Hr. rewrite Hr. cbn. rewrite IH.
  unfold any. destruct (or_profile r), idle, playback; cbn; try reflexivity; try by rewrite ?andb_true_r.
Qed.

Lemma validate_built rules : Forall rule_built rules -> forallb rule_validate (go_rule_of <$> rules) = true.
Proof. induction 1 as [|r rules Hr _ IH]; cbn; [done|]. apply rule_built_validates in Hr. by rewrite Hr. Qed.

(** Whatever rules were built, a policy of them is built exactly when the
    device's [CheckRules] accepts them and the duck is a finite number. *)
Lemma policy_new_iff thresholds duck_db open shadow :
  Forall rule_built (default [] open) -> Forall rule_built (default [] shadow) ->
  is_ok (detector_policy_new thresholds duck_db open shadow) =
  f64_is_finite duck_db &&
  CheckRules (go_rules_of open) (default [] (go_rules_of shadow)).
Proof.
  intros Ho Hs. unfold detector_policy_new. destruct (f64_is_finite duck_db); cbn; [|done].
  unfold CheckRules. transitivity (is_ok (check_open_rules open) && is_ok (check_shadow_rules shadow)).
  { destruct (check_open_rules open), (check_shadow_rules shadow); done. }
  f_equal.
  - destruct open as [rules|]; cbn -[Nat.ltb]; [|done]. rewrite length_fmap.
    change MAX_OPEN_RULES with 6%nat. destruct (6 <? length rules)%nat; [done|].
    rewrite check_live_rules_built by done. cbn.
    by destruct (any (fun r => bool_decide (or_profile r = Rp_Idle)) rules),
      (any (fun r => bool_decide (or_profile r = Rp_Playback)) rules).
  - destruct shadow as [rules|]; cbn -[Nat.ltb]; [|done]. rewrite length_fmap.
    change MAX_SHADOW_RULES with 8%nat. destruct (8 <? length rules)%nat; [done|].
    cbn. symmetry. by apply validate_built.
Qed.

(** *** The policy as the device reads it off the wire *)
Lemma unit_interval_finite x : unit_interval x = true -> f64_is_finite x = true.
Proof. by destruct x as [[]|[]| |[]]. Qed.

Lemma rule_built_inv r :
  rule_built r -> 1 <= or_windows r <= 3 /\ unit_interval (or_threshold r) = true.
Proof.
  unfold rule_built, open_rule_new. rewrite <- !N.leb_le.
  destruct (1 <=? or_windows r), (or_windows r <=? 3), (unit_interval (or_threshold r)); done.
Qed.

Section written.
Context (entries : Object) (Hnd : NoDup entries.*1) (key : string).

Lemma go_string_reads text :
  object_get key entries = Some (VString text) -> go_string (canonical_entries entries) key = Some text.
Proof. intros H. unfold go_string. by rewrite canonical_get, H. Qed.
Lemma go_int_reads n :
  object_get key entries = Some (nat_value n) -> n < 2 ^ 63 ->
  go_int (canonical_entries entries) key = Some (Z.of_N n).
Proof.
  intros H Hn. unfold go_int. rewrite canonical_get, H by done. cbn -[Z.pow].
  destruct (_ && _)%Z eqn:E; [done|]. apply andb_false_iff in E. rewrite Z.leb_gt, Z.ltb_ge in E. lia.
Qed.
Lemma go_float_reads x :
  object_get key entries = Some (f64_value x) -> f64_is_finite x = true ->
  go_float (canonical_entries entries) key = Some x.
Proof. intros H Hx. unfold go_float. rewrite canonical_get, H by done. unfold f64_value. by rewrite Hx. Qed.
Lemma go_struct_reads o :
  object_get key entries = Some (VObject o) ->
  go_struct (canonical_entries entries) key = Some (canonical_entries o).
Proof. intros H. unfold go_struct. by rewrite canonical_get, H. Qed.
End written.

Ltac solve_written :=
  lazymatch goal with
  | |- NoDup _ => distinct_keys
  | |- object_get _ _ = _ => reflexivity
  | |- f64_is_finite _ = true => first [assumption | by apply unit_interval_finite]
  | |- _ => lia
  end.

Lemma go_rule_reads r : rule_built r -> go_rule (canonical (open_rule_value r)) = Some (go_rule_of r).
Proof.
  intros [Hw Ht]%rule_built_inv. unfold go_rule, open_rule_value. rewrite canonical_object.
  cbn [value_as_object mbind option_bind].
  rewrite go_string_reads with (key := "profile") (text := (as_str (or_profile r))),
    go_int_reads with (key := "windows") (n := (or_windows r)),
    go_string_reads with (key := "combine") (text := (as_str (or_combine r))),
    go_float_reads with (key := "threshold") (x := (or_threshold r))
    by solve_written.
  done.
Qed.

Lemma go_rules_read rules :
  Forall rule_built rules ->
  mapM go_rule (List.map canonical (open_rule_value <$> rules)) = Some (go_rule_of <$> rules).
Proof.
  intros H. induction H as [|r rules Hr _ IH]; [done|].
  cbn [List.map fmap list_fmap]. change (mapM go_rule (?x :: ?l))
    with (go_rule x ≫= fun y => mapM go_rule l ≫= fun k => Some (y :: k)).
  rewrite go_rule_reads by done. cbn [mbind option_bind].
  change (list_fmap _ _ open_rule_value rules) with (open_rule_value <$> rules). by rewrite IH.
Qed.

(** A policy value whose parts were built by their constructors. *)
Definition policy_built (p : DetectorPolicy) : Prop :=
  (exists idle playback near_miss, thresholds_new idle playback near_miss = Ok (dp_thresholds p)) /\
  Forall rule_built (default [] (dp_open_rules p)) /\
  Forall rule_built (default [] (dp_shadow_rules p)) /\
  detector_policy_new (dp_thresholds p) (dp_duck_db p) (dp_open_rules p) (dp_shadow_rules p) = Ok p.

Definition go_thresholds_of (t : Thresholds) : GoThresholds :=
  mkGoThresholds (th_idle t) (th_playback t) (th_near_miss t).
Definition go_policy_of (p : DetectorPolicy) : GoPolicy :=
  mkGoPolicy (go_thresholds_of (dp_thresholds p)) 2 3 6 (dp_duck_db p)
    (go_rules_of (dp_open_rules p)) (go_rules_of (dp_shadow_rules p)).

Lemma thresholds_new_inv i p n t :
  thresholds_new i p n = Ok t ->
  t = mkThresholds i p n /\
  unit_interval i = true /\ unit_interval p = true /\ unit_interval n = true.
Proof.
  unfold thresholds_new. cbn -[unit_interval].
  destruct (unit_interval i), (unit_interval p), (unit_interval n); cbn -[unit_interval]; naive_solver.
Qed.

Definition thresholds_fields (t : Thresholds) : Object :=
  [("idle", f64_value (th_idle t)); ("playback", f64_value (th_playback t));
   ("near_miss", f64_value (th_near_miss t))].

Lemma go_thresholds_reads i p n t :
  thresholds_new i p n = Ok t ->
  go_thresholds (canonical_entries (thresholds_fields t)) = Some (go_thresholds_of t).
Proof.
  intros (-> & Hi & Hp & Hn)%thresholds_new_inv. unfold go_thresholds.
  rewrite go_float_reads with (key := "idle") (x := i),
    go_float_reads with (key := "playback") (x := p),
    go_float_reads with (key := "near_miss") (x := n) by solve_written.
  done.
Qed.

Lemma go_rules_field_reads key rules entries :
  Forall rule_built (default [] rules) ->
  object_get key entries = (match rules with Some l => Some (VArray (open_rule_value <$> l)) | None => None end) ->
  NoDup entries.*1 ->
  go_slice go_rule (canonical_entries entries) key = Some (go_rules_of rules).
Proof.
  intros Hb He Hnd. unfold go_slice. rewrite canonical_get, He by done.
  destruct rules as [l|]; cbn; [|done]. change (List.map (fun r => canonical r)) with (List.map canonical).
  by rewrite go_rules_read.
Qed.

(** The wire form of a policy reads back, on the device, as the policy. *)
Lemma go_policy_reads p :
  policy_built p -> go_policy (canonical (policy_value p)) = Some (go_policy_of p).
Proof.
  intros ((i & q & n & Ht) & Ho & Hs & Hn). unfold policy_value. rewrite canonical_object.
  set (entries := (_ ++ _) : Object).
  assert (Hnd : NoDup entries.*1).
  { subst entries. destruct (dp_open_rules p), (dp_shadow_rules p); distinct_keys. }
  assert (Hduck : f64_is_finite (dp_duck_db p) = true).
  { revert Hn. unfold detector_policy_new. by destruct (f64_is_finite (dp_duck_db p)). }
  unfold go_policy. cbn [value_as_object mbind option_bind].
  rewrite (go_struct_reads entries Hnd "thresholds" (thresholds_fields (dp_thresholds p))) by done.
  cbn [mbind option_bind]. rewrite (go_thresholds_reads _ _ _ _ Ht).
  rewrite (go_int_reads entries Hnd "hop_blocks" 2), (go_int_reads entries Hnd "smoothing" 3),
    (go_int_reads entries Hnd "clear_after_unscored" 6) by done.
  rewrite (go_struct_reads entries Hnd "provisional_duck"
             [("duck_db", f64_value (dp_duck_db p)); ("max_per_window", nat_value 2);
              ("window_ms", nat_value 5000)]) by done.
  cbn [mbind option_bind]. rewrite go_float_reads with (key := "duck_db") (x := (dp_duck_db p)) by solve_written.
  rewrite (go_rules_field_reads "open_rules" (dp_open_rules p)),
    (go_rules_field_reads "shadow_rules" (dp_shadow_rules p)) by
    (try done; subst entries; by destruct (dp_open_rules p), (dp_shadow_rules p)).
  done.
Qed.

(** ** The controller's policies and the device *)
Lemma without_rules_built p : policy_built p -> policy_built (without_rules p).
Proof.
  intros (Ht & _ & _ & Hn). split_and!; [done|by constructor|by constructor|].
  revert Hn. unfold detector_policy_new, without_rules; cbn. by destruct (f64_is_finite (dp_duck_db p)).
Qed.

Lemma built_policy_checks p :
  policy_built p -> CheckRules (go_rules_of (dp_open_rules p)) (default [] (go_rules_of (dp_shadow_rules p))) = true.
Proof.
  intros (_ & Ho & Hs & Hn). pose proof (policy_new_iff (dp_thresholds p) (dp_duck_db p) _ _ Ho Hs) as E.
  rewrite Hn in E. cbn [is_ok] in E. symmetry in E. by apply andb_true_iff in E as [_ E].
Qed.

Lemma built_policy_activates graph p :
  sha256_parse graph = Some graph -> policy_built p -> device_activates graph (go_policy_of p) = true.
Proof.
  intros Hg Hp. pose proof (built_policy_checks p Hp) as Hr.
  assert (Ht : thresholds_validate (go_thresholds_of (dp_thresholds p)) = true).
  { destruct Hp as ((i & q & n & Ht) & _). pose proof Ht as (E & _)%thresholds_new_inv.
    pose proof (thresholds_validate_new i q n) as V. rewrite Ht in V. by rewrite E. }
  unfold device_activates, model_validate. cbn [go_policy_of gp_thresholds gp_hop_blocks gp_smoothing
    gp_clear_after_unscored gp_open_rules gp_shadow_rules].
  rewrite Hr, Ht. unfold sha256_parse in Hg. by destruct (_ && _).
Qed.

Definition sample_rules : list OpenRule :=
  [mkOpenRule Rp_Idle 3 Rc_Mean (f64_ratio 9 10); mkOpenRule Rp_Playback 1 Rc_All (f64_of_Z 1)].
Definition sample_policy : DetectorPolicy :=
  mkDetectorPolicy (mkThresholds (f64_ratio 9 10) (f64_ratio 65 100) (f64_ratio 17 100))
    (f64_of_Z (-18)) (Some sample_rules) None.
Definition sample_digest : string := "0123456789abcdef0123456789abcdef0123456789abcdef0123456789abcdef".

(** Nothing the device would accept is refused: over rules that were built,
    a policy is built exactly when the device's [CheckRules] accepts the rules
    and the duck is a finite number; a rule or a set of thresholds is built
    exactly when the device's validation accepts it. *)
Theorem policies_refused_with_cause thresholds duck_db open shadow :
  (forall idle playback near_miss,
     is_ok (thresholds_new idle playback near_miss)
       = thresholds_validate (mkGoThresholds idle playback near_miss)) /\
  (forall profile windows combine threshold,
     is_ok (open_rule_new profile windows combine threshold)
       = rule_validate (go_rule_of (mkOpenRule profile windows combine threshold))) /\
  (Forall rule_built (default [] open) -> Forall rule_built (default [] shadow) ->
   is_ok (detector_policy_new thresholds duck_db open shadow) =
   f64_is_finite duck_db && CheckRules (go_rules_of open) (default [] (go_rules_of shadow))).
Proof.
  split_and!; [apply thresholds_validate_new|apply rule_validate_new|apply policy_new_iff].
Qed.

Lemma policies_refused_with_cause_witness :
  is_ok (detector_policy_new (dp_thresholds sample_policy) (f64_of_Z (-18)) (Some sample_rules) None) = true.
Proof.
  destruct (policies_refused_with_cause (dp_thresholds sample_policy) (f64_of_Z (-18)) (Some sample_rules) None)
    as (_ & _ & H). rewrite H; [reflexivity|repeat constructor|by constructor].
Defined.
