(* ===== verification/Session.v ===== *)
(** * Handshake and lifecycle bodies ([protocol/src/session.rs])

    [session.hello] and what admission makes of it, [session.ready],
    [heartbeat], [clock.request] and [clock.reply], [command.ack] and the
    device's [protocol.error]. *)
From S2P Require Import Prelude WireEnum Float Json Vocab Policy.

(** ** [session.hello] *)
Inductive HelloPlatform :=
  | Hp_Supported (platform : Platform)
  | Hp_Unsupported (sent : option string).

Record HelloPrivacy := mkHelloPrivacy { hp_muted : option bool; hp_capture_epoch : option N }.

Inductive AlarmWakeup := Aw_Ok | Aw_Unavailable.
#[export] Instance AlarmWakeup_wire : WireEnum AlarmWakeup := {
  as_str v := match v with
    | Aw_Ok => "ok"
    | Aw_Unavailable => "alarm_wakeup_unavailable"
    end%string;
  ALL := [Aw_Ok; Aw_Unavailable];
}.
#[export] Instance AlarmWakeup_laws : WireLaws AlarmWakeup.
Proof. solve_wire_laws. Qed.

Record HelloAlerts := mkHelloAlerts {
  ha_delivery_epoch : option string;
  ha_acked_sequence : option N;
  ha_wakeup : option (Reported AlarmWakeup);
}.

Inductive VolumeLevel :=
  | Vl_Level (level : N)
  | Vl_Unavailable.
Record HelloVolume := mkHelloVolume { hv_level : option VolumeLevel; hv_seeded : option bool }.

Inductive AmbientLightCode := Al_Ok | Al_NoChip | Al_NoAttribute | Al_Unknown.
#[export] Instance AmbientLightCode_wire : WireEnum AmbientLightCode := {
  as_str v := match v with
    | Al_Ok => "ok"
    | Al_NoChip => "no_chip"
    | Al_NoAttribute => "no_attribute"
    | Al_Unknown => "unknown"
    end%string;
  ALL := [Al_Ok; Al_NoChip; Al_NoAttribute; Al_Unknown];
}.
#[export] Instance AmbientLightCode_laws : WireLaws AmbientLightCode.
Proof. solve_wire_laws. Qed.

Record AmbientLightStatus := mkAmbientLightStatus {
  al_code : option (Reported AmbientLightCode);
  al_detail : option string;
  al_seen : list string;
  al_path : option string;
}.

Record SessionHello := mkSessionHello {
  sh_capabilities : Capabilities;
  sh_platform : HelloPlatform;
  sh_firmware_version : option string;
  sh_os_version : option string;
  sh_privacy : option HelloPrivacy;
  sh_alerts : option HelloAlerts;
  sh_assets : option (list string);
  sh_volume : option HelloVolume;
  sh_ambient_light_status : option AmbientLightStatus;
}.

(** [match T::from_wire(text) { Some(known) => Known, None => Unrecognized }]. *)
Definition as_reported {A} `{WireEnum A} (text : string) : Reported A :=
  match from_wire text with Some known => Known known | None => Unrecognized text end.

Definition parse_privacy (object : Object) : result ProtocolError HelloPrivacy :=
  let f := mkFields object "session.hello.privacy" in
  let? muted := optional_bool f "muted" in
  let? capture_epoch := optional_u64_string f "capture_epoch" in
  Ok (mkHelloPrivacy muted capture_epoch).

Definition parse_alerts (object : Object) : result ProtocolError HelloAlerts :=
  let f := mkFields object "session.hello.alerts" in
  let? delivery_epoch := optional_string f "delivery_epoch" in
  let? acked_sequence := optional_count f "acked_sequence" in
  let? wakeup := optional_string f "wakeup" in
  Ok (mkHelloAlerts delivery_epoch acked_sequence (as_reported <$> wakeup)).

Definition parse_assets (f : Fields) (items : list Value) : result ProtocolError (list string) :=
  collect (fun item => ok_or (fields_error f "assets" "must hold SHA-256 hex strings")
                         (value_as_str item ≫= sha256_parse)) items.

Definition parse_volume_level (f : Fields) : result ProtocolError (option VolumeLevel) :=
  match raw f "level" with
  | None => Ok None
  | Some VNull => Ok (Some Vl_Unavailable)
  | Some value =>
      match value_as_u64 value with
      | Some level =>
          if level <=? 127 then Ok (Some (Vl_Level level))
          else Err (fields_error f "level" "must be an integer 0..127 or null")
      | None => Err (fields_error f "level" "must be an integer 0..127 or null")
      end
  end.

Definition parse_volume (object : Object) : result ProtocolError HelloVolume :=
  let f := mkFields object "session.hello.volume" in
  let? level := parse_volume_level f in
  let? seeded := optional_bool f "seeded" in
  Ok (mkHelloVolume level seeded).

Definition parse_ambient (object : Object) : result ProtocolError AmbientLightStatus :=
  let f := mkFields object "session.hello.ambient_light_status" in
  let? seen :=
    (let? items := optional_array f "seen" in
     match items with
     | None => Ok []
     | Some items => ok_or (fields_error f "seen" "must be a string array") (mapM value_as_str items)
     end) in
  let? code := optional_string f "code" in
  let? detail := optional_text f "detail" in
  let? path := optional_text f "path" in
  Ok (mkAmbientLightStatus (as_reported <$> code) detail seen path).

Definition PROTOCOL_VERSION : N := 1.

Section hello.
Context `{SerdeJson}.

Definition protocols_ok (f : Fields) : bool :=
  match raw f "protocols" ≫= value_as_array with
  | Some items =>
      forallb (fun p => bool_decide (is_Some (value_as_i64 p))) items &&
      any (fun p => bool_decide (value_as_u64 p = Some PROTOCOL_VERSION)) items
  | None => false
  end.

Definition parse_platform (f : Fields) : HelloPlatform :=
  match raw f "platform" with
  | Some (VString text) =>
      match from_wire text with
      | Some platform => Hp_Supported platform
      | None => Hp_Unsupported (Some (value_to_string (VString text)))
      end
  | Some other => Hp_Unsupported (Some (value_to_string other))
  | None => Hp_Unsupported None
  end.

(** The fields after the protocols, in the order they are read. *)
Definition hello_fields (f : Fields) : result ProtocolError SessionHello :=
  let? names := field_array f "capabilities" in
  let? names := ok_or (fields_error f "capabilities" "must be a string array")
                  (mapM value_as_str names) in
  let capabilities := from_names names in
  let platform := parse_platform f in
  let? firmware_version := optional_text f "firmware_version" in
  let? os_version := optional_text f "os_version" in
  let? privacy := (let? o := optional_object f "privacy" in transpose parse_privacy o) in
  let? alerts := (let? o := optional_object f "alerts" in transpose parse_alerts o) in
  let? assets := (let? o := optional_array f "assets" in transpose (parse_assets f) o) in
  let? volume := (let? o := optional_object f "volume" in transpose parse_volume o) in
  let? ambient :=
    (let? o := optional_object f "ambient_light_status" in transpose parse_ambient o) in
  Ok (mkSessionHello capabilities platform firmware_version os_version privacy alerts assets
        volume ambient).

Definition hello_parse (body : Object) : result ProtocolError SessionHello :=
  let f := mkFields body "session.hello" in
  if negb (protocols_ok f) then
    Err (mkProtocolError Pe_UnsupportedProtocol ("protocols " +:+ sent f "protocols"))
  else hello_fields f.
End hello.

(** ** Admission *)
Inductive AdmissionRefusal :=
  | Ar_MissingCapabilities (missing : list Capability)
  | Ar_UnsupportedPlatform (sent : option string).

Definition refusal_reason (r : AdmissionRefusal) : RejectReason := Rj_Protocol.

Definition refusal_display (r : AdmissionRefusal) : string :=
  match r with
  | Ar_MissingCapabilities missing =>
      foldl (fun out c => out +:+ " " +:+ as_str c) "missing required capabilities:" missing
  | Ar_UnsupportedPlatform (Some sent) => "unsupported platform " +:+ sent
  | Ar_UnsupportedPlatform None => "no platform"
  end.

Definition check_admission (hello : SessionHello) : result AdmissionRefusal Platform :=
  match missing_required (sh_capabilities hello) with
  | [] =>
      match sh_platform hello with
      | Hp_Supported platform => Ok platform
      | Hp_Unsupported sent => Err (Ar_UnsupportedPlatform sent)
      end
  | missing => Err (Ar_MissingCapabilities missing)
  end.

(** ** [session.ready] *)
Record SpeechAssets := mkSpeechAssets {
  as_runtime_sha256 : string; as_graph_sha256 : string; as_sidecar_sha256 : string;
}.
Definition assets_value (a : SpeechAssets) : Value :=
  VObject [("runtime_sha256", VString (as_runtime_sha256 a));
           ("graph_sha256", VString (as_graph_sha256 a));
           ("sidecar_sha256", VString (as_sidecar_sha256 a))].

Record ReadyGrant := mkReadyGrant {
  rg_capture_permitted : bool;
  rg_assets : SpeechAssets;
  rg_detector : DetectorPolicy;
  rg_afe_metadata : bool;
}.

(** [server_boot_id] is the text of a [uuid::Uuid]. *)
Record SessionReady := mkSessionReady {
  sr_protocol : N;
  sr_session_id : string;
  sr_server_boot_id : string;
  sr_capture_permitted : bool;
  sr_assets : SpeechAssets;
  sr_detector : DetectorPolicy;
  sr_afe_metadata : option bool;
  sr_utc_ms : N;
}.

Definition session_ready_new (grant : ReadyGrant) (capabilities : Capabilities)
    (session_id server_boot_id : string) (utc_ms : N) : SessionReady :=
  let detector := if capabilities_contains capabilities Cap_OpenRules then rg_detector grant
                  else without_rules (rg_detector grant) in
  let afe := rg_afe_metadata grant && capabilities_contains capabilities Cap_AfeMetadata in
  mkSessionReady PROTOCOL_VERSION session_id server_boot_id (rg_capture_permitted grant)
    (rg_assets grant) detector (if afe then Some true else None) utc_ms.

Definition ready_afe_metadata (r : SessionReady) : bool :=
  bool_decide (sr_afe_metadata r = Some true).

Definition session_ready_value (r : SessionReady) : Value :=
  VObject ([("protocol", nat_value (sr_protocol r)); ("session_id", VString (sr_session_id r));
            ("server_boot_id", VString (sr_server_boot_id r));
            ("capture_permitted", VBool (sr_capture_permitted r));
            ("assets", assets_value (sr_assets r)); ("detector", policy_value (sr_detector r))]
           ++ match sr_afe_metadata r with Some b => [("afe_metadata", VBool b)] | None => [] end
           ++ [("utc_ms", u64_string (sr_utc_ms r))]).

(** ** The small bodies *)
Record SessionRejected := mkSessionRejected { sj_reason : RejectReason }.
Definition session_rejected_value (r : SessionRejected) : Value :=
  VObject [("reason", wire_value (sj_reason r))].

Record Heartbeat := mkHeartbeat { hb_mono_ns : N }.
Definition heartbeat_parse (body : Object) : result ProtocolError Heartbeat :=
  let? mono_ns := field_u64_string (mkFields body "heartbeat") "mono_ns" in
  Ok (mkHeartbeat mono_ns).
Definition heartbeat_value (h : Heartbeat) : Value := VObject [("mono_ns", u64_string (hb_mono_ns h))].

Record ClockRequest := mkClockRequest { cq_nonce : string }.
Definition clock_request_parse (body : Object) : result ProtocolError ClockRequest :=
  let? nonce := nonempty_string (mkFields body "clock.request") "nonce" in
  Ok (mkClockRequest nonce).

Record ClockReply := mkClockReply { cr_nonce : string; cr_utc_ms : N }.
Definition clock_reply_to (request : ClockRequest) (utc_ms : N) : ClockReply :=
  mkClockReply (cq_nonce request) utc_ms.
Definition clock_reply_value (r : ClockReply) : Value :=
  VObject [("nonce", VString (cr_nonce r)); ("utc_ms", u64_string (cr_utc_ms r))].

Record CommandAck := mkCommandAck {
  ca_message_id : string; ca_status : AckStatus; ca_error : option string;
}.
Definition command_ack_parse (body : Object) : result ProtocolError CommandAck :=
  let f := mkFields body "command.ack" in
  let? message_id := nonempty_string f "message_id" in
  let? status :=
    ok_or (fields_error f "status" "must be accepted, applied, durable or rejected")
      (match field_string f "status" with Ok text => from_wire text | Err _ => None end) in
  let? error := optional_string f "error" in
  Ok (mkCommandAck message_id status error).
Definition command_ack_value (a : CommandAck) : Value :=
  VObject [("message_id", VString (ca_message_id a)); ("status", wire_value (ca_status a));
           ("error", match ca_error a with Some e => VString e | None => VNull end)].

Record ProtocolErrorReport := mkProtocolErrorReport {
  pr_code : Reported ProtocolErrorCode; pr_detail : string;
}.
Definition error_report_parse (body : Object) : result ProtocolError ProtocolErrorReport :=
  let f := mkFields body "protocol.error" in
  let? code := nonempty_string f "code" in
  let? detail := field_string f "detail" in
  Ok (mkProtocolErrorReport (as_reported code) detail).

Definition protocol_error_value (e : ProtocolError) : Value :=
  VObject [("code", wire_value (pe_code e)); ("detail", VString (pe_detail e))].

(** ** Schemas of the bodies *)
Definition hello_privacy_schema : Schema :=
  Sc_Record [("muted", Optional, Sc_Bool); ("capture_epoch", Optional, Sc_Text u64_text)].
Definition hello_alerts_schema : Schema :=
  Sc_Record [("delivery_epoch", Optional, Sc_Text any_text);
             ("acked_sequence", Optional, Sc_Count u64_max);
             ("wakeup", Optional, Sc_Text any_text)].
Definition hello_volume_schema : Schema :=
  Sc_Record [("level", Optional, Sc_Count 127); ("seeded", Optional, Sc_Bool)].
Definition hello_ambient_schema : Schema :=
  Sc_Record [("seen", Optional, Sc_Array (Sc_Text any_text)); ("code", Optional, Sc_Text any_text);
             ("detail", Optional, Sc_Text any_text); ("path", Optional, Sc_Text any_text)].

Definition sha256_text (text : string) : bool :=
  (String.length text =? 64)%nat && string_all is_lower_hex text.

(** An array of integers, one of them 1. *)
Definition speaks_protocol_1 (v : Value) : bool :=
  match v with
  | VArray items =>
      forallb (fun p => bool_decide (is_Some (value_as_i64 p))) items &&
      any (fun p => match p with VNumber (NInt 1) => true | _ => false end) items
  | _ => false
  end.

Definition hello_schema : Schema :=
  Sc_Record [
    ("protocols", Required, Sc_That speaks_protocol_1);
    ("capabilities", Required, Sc_Array (Sc_Text any_text));
    ("firmware_version", Optional, Sc_Text any_text);
    ("os_version", Optional, Sc_Text any_text);
    ("privacy", Optional, hello_privacy_schema);
    ("alerts", Optional, hello_alerts_schema);
    ("assets", Optional, Sc_Array (Sc_Text sha256_text));
    ("volume", Optional, hello_volume_schema);
    ("ambient_light_status", Optional, hello_ambient_schema)].

Lemma parse_privacy_accepts o : is_ok (parse_privacy o) = conforms hello_privacy_schema (VObject o).
Proof. solve_accepts "session.hello.privacy". Qed.
Lemma parse_alerts_accepts o : is_ok (parse_alerts o) = conforms hello_alerts_schema (VObject o).
Proof. solve_accepts "session.hello.alerts". Qed.
Lemma parse_volume_accepts o : is_ok (parse_volume o) = conforms hello_volume_schema (VObject o).
Proof.
  solve_accepts "session.hello.volume".
  unfold parse_volume_level, in_record. destruct (raw _ _) as [[| |n| | |]|]; cbn -[value_as_u64]; try done.
  destruct (value_as_u64 (VNumber n)) as [k|]; [|done]. by destruct (k <=? 127).
Qed.
Lemma parse_ambient_accepts o : is_ok (parse_ambient o) = conforms hello_ambient_schema (VObject o).
Proof.
  solve_accepts "session.hello.ambient_light_status".
  unfold in_record, optional_array, present. destruct (raw _ _) as [[| | | |l|]|]; try done.
  cbn [is_null]. rewrite is_ok_ok_or. apply mapM_accepts. by intros [].
Qed.
Lemma parse_assets_accepts f l : is_ok (parse_assets f l) = forallb (conforms (Sc_Text sha256_text)) l.
Proof.
  apply collect_accepts. intros v. rewrite is_ok_ok_or. destruct v; try done.
  cbn. unfold sha256_parse. fold (sha256_text text). by destruct (sha256_text text).
Qed.

Lemma is_one_value v :
  bool_decide (value_as_u64 v = Some PROTOCOL_VERSION) =
  match v with VNumber (NInt 1) => true | _ => false end.
Proof.
  destruct v as [| |[z|]| | |]; try reflexivity. destruct (decide (z = 1%Z)) as [->|Hz]; [reflexivity|].
  rewrite bool_decide_eq_false_2.
  - by destruct z as [|[]|].
  - unfold value_as_u64, PROTOCOL_VERSION. destruct (_ && _)%Z eqn:E; [|congruence].
    apply andb_true_iff in E. rewrite !Z.leb_le in E. intros [= Ez]. apply (f_equal Z.of_N) in Ez.
    rewrite Z2N.id in Ez by lia. lia.
Qed.

Lemma protocols_ok_conforms f :
  protocols_ok f = in_record f "protocols" Required (Sc_That speaks_protocol_1).
Proof.
  unfold protocols_ok, in_record. destruct (raw f "protocols") as [[| | | |l|]|]; try done.
  cbn [mbind option_bind value_as_array field_conforms conforms orb]. unfold speaks_protocol_1. f_equal.
  unfold any. induction l as [|v l IH]; [done|]. cbn [existsb]. rewrite IH. f_equal.
  apply is_one_value.
Qed.

Section hello_facts.
Context `{SerdeJson}.

Lemma capabilities_read f :
  is_ok (let? names := field_array f "capabilities" in
         ok_or (fields_error f "capabilities" "must be a string array") (mapM value_as_str names))
  = in_record f "capabilities" Required (Sc_Array (Sc_Text any_text)).
Proof.
  unfold field_array, in_record. destruct (raw f "capabilities") as [[| | | |l|]|]; try done.
  cbn [mbind option_bind value_as_array ok_or]. rewrite is_ok_ok_or. apply mapM_accepts. by intros [].
Qed.

Lemma hello_fields_refuse f : refuses_malformed (hello_fields f).
Proof.
  unfold hello_fields, parse_privacy, parse_alerts, parse_assets, parse_volume, parse_volume_level,
    parse_ambient.
  solve_refuses.
Qed.

Lemma hello_fields_announce f hello :
  hello_fields f = Ok hello ->
  exists names, raw f "capabilities" = Some (VArray (VString <$> names)) /\
    sh_capabilities hello = from_names names /\ sh_platform hello = parse_platform f.
Proof.
  unfold hello_fields, field_array. destruct (raw f "capabilities") as [[| | | |l|]|]; try done.
  cbn [mbind option_bind value_as_array ok_or].
  destruct (mapM value_as_str l) as [names|] eqn:E; [|done]. cbn [ok_or].
  intros Hh. exists names. split.
  - do 2 f_equal. apply mapM_Some in E. clear Hh. induction E as [|v name l names Hv _ IH]; [done|].
    cbn. f_equal; [|done]. by destruct v; simplify_eq/=.
  - repeat match type of Hh with (match ?r with _ => _ end) = _ => destruct r; [|done] end.
    by injection Hh as <-.
Qed.

(** C37: A hello is decoded exactly when it is what the protocol asks for: an
    array of integers with 1 among them, capability names, and every
    descriptive field absent, null or of its type, down to the nested records.
    The refusal's code says which: [unsupported_protocol] when the protocols
    are wrong, whatever else is, and [malformed_message] otherwise. *)
Theorem hello_decoded_by_schema body :
  is_ok (hello_parse body) = conforms hello_schema (VObject body) /\
  forall e, hello_parse body = Err e ->
    pe_code e = if protocols_ok (mkFields body "session.hello")
                then Pe_MalformedMessage else Pe_UnsupportedProtocol.
Proof.
  split.
  - unfold hello_parse, hello_fields, hello_schema. rewrite (conforms_record "session.hello").
    cbn [forallb]. rewrite <- protocols_ok_conforms.
    set (f := mkFields body "session.hello"). destruct (protocols_ok f); [cbn [negb]|done].
    cbn [andb]. apply is_ok_read2; [apply capabilities_read|intros names].
    repeat (apply is_ok_read; [|intros ?]); auto with accepts.
    + apply optional_object_accepts, parse_privacy_accepts.
    + apply optional_object_accepts, parse_alerts_accepts.
    + apply optional_array_accepts, parse_assets_accepts.
    + apply optional_object_accepts, parse_volume_accepts.
    + apply optional_object_accepts, parse_ambient_accepts.
  - unfold hello_parse. destruct (protocols_ok _); cbn [negb]; [|by intros e [= <-]].
    apply hello_fields_refuse.
Qed.

(** A decoded hello is admitted with a platform exactly when it announced
    each of the eight required capabilities by name and sent that platform's
    name; otherwise the capabilities it missed, in the required order, are the
    refusal, and only when none is missing the platform it sent. *)
Theorem admission_contract body hello :
  hello_parse body = Ok hello ->
  let f := mkFields body "session.hello" in
  exists names, raw f "capabilities" = Some (VArray (VString <$> names)) /\
  let missing := retain (fun c => bool_decide (as_str c ∉ names)) REQUIRED_CAPABILITIES in
  (forall p, check_admission hello = Ok p <->
     missing = [] /\ raw f "platform" = Some (VString (as_str p))) /\
  (missing <> [] -> check_admission hello = Err (Ar_MissingCapabilities missing)) /\
  (missing = [] -> (forall p : Platform, raw f "platform" <> Some (VString (as_str p))) ->
     check_admission hello = Err (Ar_UnsupportedPlatform (value_to_string <$> raw f "platform"))).
Proof.
  cbv zeta. unfold hello_parse. destruct (protocols_ok _); cbn [negb]; [|done].
  set (f := mkFields body "session.hello").
  intros (names & Hnames & Hc & Hp)%hello_fields_announce. exists names. split; [done|].
  unfold check_admission. rewrite Hc, Hp, missing_required_spec.
  set (missing := retain _ _). unfold parse_platform.
  destruct missing as [|c missing].
  - split_and!; [|done|].
    + intros p. destruct (raw f "platform") as [[| | |t| |]|]; try naive_solver.
      destruct (from_wire (A:=Platform) t) as [q|] eqn:E.
      * apply from_wire_Some in E as <-. split; [naive_solver|]. intros [_ E]. f_equal. apply (inj as_str). congruence.
      * split; [done|]. intros [_ Ep]. by destruct (proj1 (from_wire_None t) E p); congruence.
    + intros _ Hn. destruct (raw f "platform") as [[| | |t| |]|]; try done.
      destruct (from_wire t) as [q|] eqn:E; [|done].
      apply from_wire_Some in E as <-. by destruct (Hn q).
  - split_and!; [|done|done]. intros p. naive_solver.
Qed.
End hello_facts.

(** What admission sends, the device runs: from a policy built by the
    constructors and a well-formed digest, the [session.ready] written to any
    device reads back there, JSON object and all, as that policy - without the
    rule lists unless the device announced them - and passes every check the
    device makes before it scores.  The [afe] stream is asked for exactly when
    the grant wants it and the device announced it. *)
Theorem ready_policies_activate grant names session_id boot utc_ms :
  policy_built (rg_detector grant) ->
  sha256_parse (as_graph_sha256 (rg_assets grant)) = Some (as_graph_sha256 (rg_assets grant)) ->
  let ready := session_ready_new grant (from_names names) session_id boot utc_ms in
  let announced := bool_decide ("open_rules_v1" ∈ names) in
  (exists detector,
     (o ← value_as_object (canonical (session_ready_value ready)); object_get "detector" o) = Some detector /\
     exists policy, go_policy detector = Some policy /\
       gp_thresholds policy = go_thresholds_of (dp_thresholds (rg_detector grant)) /\
       gp_duck_db policy = dp_duck_db (rg_detector grant) /\
       gp_open_rules policy = (if announced then go_rules_of (dp_open_rules (rg_detector grant)) else None) /\
       gp_shadow_rules policy = (if announced then go_rules_of (dp_shadow_rules (rg_detector grant)) else None) /\
       device_activates (as_graph_sha256 (rg_assets grant)) policy = true) /\
  ready_afe_metadata ready = rg_afe_metadata grant && bool_decide ("afe_metadata_v1" ∈ names).
Proof.
  intros Hp Hg. cbv zeta. unfold session_ready_new. rewrite !capabilities_contains_spec.
  change (as_str Cap_OpenRules) with "open_rules_v1". change (as_str Cap_AfeMetadata) with "afe_metadata_v1".
  split; [|unfold ready_afe_metadata; cbn [sr_afe_metadata]; by destruct (_ && _)].
  set (sent := if bool_decide ("open_rules_v1" ∈ names) then _ else _).
  assert (Hs : policy_built sent) by (subst sent; case_match; auto using without_rules_built).
  exists (canonical (policy_value sent)). split.
  { unfold session_ready_value. rewrite canonical_object. cbn [value_as_object mbind option_bind sr_afe_metadata].
    rewrite canonical_get; [by destruct (_ && _)|]. destruct (_ && _); distinct_keys. }
  exists (go_policy_of sent). rewrite go_policy_reads by done.
  split_and!; [done|..|by apply built_policy_activates]; subst sent; by case_match.
Qed.

Lemma ready_policies_activate_witness :
  exists policy, go_policy (canonical (policy_value (without_rules sample_policy))) = Some policy /\
    device_activates sample_digest policy = true.
Proof.
  destruct (ready_policies_activate
    (mkReadyGrant true (mkSpeechAssets sample_digest sample_digest sample_digest) sample_policy true)
    ["afe_metadata_v1"] "s" "b" 7) as [(d & Hd & policy & Hp & _ & _ & _ & _ & Ha) _].
  - split_and!.
    + by exists (f64_ratio 9 10), (f64_ratio 65 100), (f64_ratio 17 100).
    + repeat constructor.
    + by constructor.
    + reflexivity.
  - reflexivity.
  - exists policy. split; [|exact Ha]. rewrite <- Hp. f_equal. vm_compute in Hd. vm_compute. congruence.
Defined.

(** ** The small bodies *)
Definition heartbeat_schema : Schema := Sc_Record [("mono_ns", Required, Sc_Text u64_text)].
Definition clock_request_schema : Schema := Sc_Record [("nonce", Required, Sc_Text nonempty_text)].
Definition command_ack_schema : Schema :=
  Sc_Record [("message_id", Required, Sc_Text nonempty_text);
             ("status", Required, Sc_Text (fun t => bool_decide (is_Some (from_wire (A:=AckStatus) t))));
             ("error", Optional, Sc_Text any_text)].
Definition error_report_schema : Schema :=
  Sc_Record [("code", Required, Sc_Text nonempty_text); ("detail", Required, Sc_Text any_text)].

Lemma command_ack_accepts o : is_ok (command_ack_parse o) = conforms command_ack_schema (VObject o).
Proof.
  solve_accepts "command.ack".
  rewrite is_ok_ok_or. unfold field_string, in_record.
  destruct (raw _ "status") as [[]|]; try done.
Qed.

Lemma heartbeat_reads o h :
  hb_mono_ns h <= u64_max -> canonical (heartbeat_value h) = VObject o -> heartbeat_parse o = Ok h.
Proof.
  destruct h as [n]. intros Hn. unfold heartbeat_value. rewrite canonical_object. intros [= <-].
  unfold heartbeat_parse, field_u64_string, raw. cbn [fd_object]. read_written.
  cbn [u64_string canonical value_as_str mbind option_bind hb_mono_ns] in *.
  by rewrite u64_decimal_roundtrip.
Qed.

Lemma command_ack_reads o a :
  ca_message_id a <> "" -> canonical (command_ack_value a) = VObject o -> command_ack_parse o = Ok a.
Proof.
  destruct a as [id st e]. intros Hid. unfold command_ack_value. rewrite canonical_object. intros [= <-].
  cbn [ca_message_id ca_status ca_error] in *.
  unfold command_ack_parse, nonempty_string, field_string, optional_string, present, raw. cbn [fd_object].
  read_written. cbn -[from_wire]. destruct (String.eqb_spec id ""); [done|].
  destruct st, e; reflexivity.
Qed.

(** Each lifecycle body is decoded exactly when it is of its schema, every
    refusal is [malformed_message], and what the controller itself writes - the
    two bodies that travel both ways - reads back. *)
Theorem lifecycle_bodies o :
  is_ok (heartbeat_parse o) = conforms heartbeat_schema (VObject o) /\
  is_ok (clock_request_parse o) = conforms clock_request_schema (VObject o) /\
  is_ok (command_ack_parse o) = conforms command_ack_schema (VObject o) /\
  is_ok (error_report_parse o) = conforms error_report_schema (VObject o) /\
  refuses_malformed (heartbeat_parse o) /\ refuses_malformed (clock_request_parse o) /\
  refuses_malformed (command_ack_parse o) /\ refuses_malformed (error_report_parse o) /\
  (forall h, hb_mono_ns h <= u64_max ->
     canonical (heartbeat_value h) = VObject o -> heartbeat_parse o = Ok h) /\
  (forall a, ca_message_id a <> "" ->
     canonical (command_ack_value a) = VObject o -> command_ack_parse o = Ok a).
Proof.
  split_and!.
  - solve_accepts "heartbeat".
  - solve_accepts "clock.request".
  - apply command_ack_accepts.
  - solve_accepts "protocol.error".
  - unfold heartbeat_parse. solve_refuses.
  - unfold clock_request_parse. solve_refuses.
  - unfold command_ack_parse. solve_refuses.
  - unfold error_report_parse. solve_refuses.
  - apply heartbeat_reads.
  - apply command_ack_reads.
Qed.

Lemma lifecycle_bodies_witness : heartbeat_parse [("mono_ns", VString "18446744073709551615")] = Ok (mkHeartbeat u64_max).
Proof.
  apply (lifecycle_bodies [("mono_ns", VString "18446744073709551615")]); [cbn; lia|vm_compute; reflexivity].
Defined.

(** ** A hello the tests send *)
Definition sample_hello : Object :=
  [("capabilities", VArray (VString ∘ as_str <$> REQUIRED_CAPABILITIES));
   ("platform", VString "fireos6"); ("protocols", VArray [VNumber (NInt 1)])].

#[local] Instance no_text : SerdeJson := {
  from_str _ := Err "no text"; to_string _ := Ok ""; value_to_string _ := "";
}.

Lemma admission_contract_witness :
  exists hello, hello_parse sample_hello = Ok hello /\ check_admission hello = Ok Pf_FireOs6.
Proof.
  destruct (hello_parse sample_hello) as [hello|] eqn:E; [|by vm_compute in E].
  exists hello. split; [done|].
  destruct (admission_contract sample_hello hello E) as (names & Hn & Hok & _).
  apply Hok. split; [|reflexivity]. injection Hn as Hn.
  assert (Hnames : names = as_str <$> REQUIRED_CAPABILITIES).
  { assert (Hinj : Inj (=) (=) VString) by by intros ?? [=]. apply (inj (fmap VString)).
    by rewrite <- list_fmap_compose. }
  rewrite Hnames. vm_compute. reflexivity.
Defined.
