(* ===== verification/Streams.v ===== *)
(** * The stream registry ([controller-rs/crates/protocol/src/streams.rs])

    [StreamRegistry] checks every uplink packet of a session against the stream
    epochs the device announced.  The state is the source's: a map from
    (stream, epoch) to the epoch's ordering state, the current epoch of each
    stream and a bounded queue of ended epochs.  An operation that takes
    [&mut self] and can fail returns the new registry and a [result]. *)
From S2P Require Import Prelude Bytes WireEnum Ema Vocab.
From Stdlib Require Import Sorting.Sorted.

Record StreamOpen := mkStreamOpen {
  so_stream : StreamId;
  so_epoch : N;
  so_reason : option (Reported StreamReason);
}.

Record StreamEnd := mkStreamEnd {
  se_stream : StreamId;
  se_epoch : N;
  se_final_sample : N;
  se_reason : option (Reported StreamReason);
}.

Record UplinkEnded := mkUplinkEnded {
  ue_subscription_id : string;
  ue_reason : UplinkEndedReason;
  ue_last_sample : gmap StreamId (option N);
  ue_clipped_start : gmap StreamId (option N);
}.

Inductive BackfillGrant :=
  | BgEpoch (epoch : N)
  | BgEveryOpenEpoch.
#[export] Instance BackfillGrant_eq_dec : EqDecision BackfillGrant.
Proof. solve_decision. Defined.

Definition ENDED_EPOCHS_REMEMBERED : nat := 64.

Record EpochState := mkEpochState {
  ep_ended : bool;
  ep_last_sequence : option N;
  ep_live : option N;
  ep_runs : list N;
  ep_grants : N;
}.

Definition epoch_fresh : EpochState := mkEpochState false None None [] 0.

Record StreamRegistry := mkRegistry {
  rg_afe_metadata : bool;
  rg_epochs : gmap (StreamId * N) EpochState;
  rg_current : gmap StreamId N;
  rg_ended : list (StreamId * N);
}.

Definition registry_new (afe_metadata : bool) : StreamRegistry :=
  mkRegistry afe_metadata ∅ ∅ [].

Definition registry_open (r : StreamRegistry) (open : StreamOpen) :
    StreamRegistry * result ProtocolError unit :=
  let stream := so_stream open in
  let epoch := so_epoch open in
  if bool_decide (stream = Afe) && negb (rg_afe_metadata r) then
    (r, Err (mkProtocolError Pe_BadStream "afe stream in a session without afe_metadata"))
  else
    let enter epochs :=
      (mkRegistry (rg_afe_metadata r) epochs (<[stream := epoch]> (rg_current r)) (rg_ended r),
       Ok tt) in
    match rg_epochs r !! (stream, epoch) with
    | Some state =>
        if ep_ended state then
          (r, Err (mkProtocolError Pe_BadStream
                 (as_str stream +:+ " epoch " +:+ pretty epoch +:+ " already ended")))
        else enter (rg_epochs r)
    | None => enter (<[(stream, epoch) := epoch_fresh]> (rg_epochs r))
    end.

Definition registry_end (r : StreamRegistry) (e : StreamEnd) :
    StreamRegistry * result ProtocolError unit :=
  let key := (se_stream e, se_epoch e) in
  match rg_epochs r !! key with
  | None =>
      (r, Err (mkProtocolError Pe_UnknownEpoch
             ("stream.end for unknown " +:+ as_str (se_stream e) +:+ " epoch "
              +:+ pretty (se_epoch e))))
  | Some state =>
      if ep_ended state then (r, Ok tt)
      else
        let epochs := <[key := mkEpochState true (ep_last_sequence state) (ep_live state) [] 0]>
                        (rg_epochs r) in
        let current :=
          if bool_decide (rg_current r !! se_stream e = Some (se_epoch e))
          then delete (se_stream e) (rg_current r) else rg_current r in
        let ended := rg_ended r ++ [key] in
        if (ENDED_EPOCHS_REMEMBERED <? length ended)%nat then
          match ended with
          | oldest :: rest => (mkRegistry (rg_afe_metadata r) (delete oldest epochs) current rest, Ok tt)
          | [] => (mkRegistry (rg_afe_metadata r) epochs current [], Ok tt)
          end
        else (mkRegistry (rg_afe_metadata r) epochs current ended, Ok tt)
  end.

Definition registry_current (r : StreamRegistry) (stream : StreamId) : option N :=
  rg_current r !! stream.

Definition registry_is_open (r : StreamRegistry) (stream : StreamId) (epoch : N) : bool :=
  match rg_epochs r !! (stream, epoch) with Some s => negb (ep_ended s) | None => false end.

(** [grants.saturating_add(1)] on every open epoch the grant covers. *)
Definition grant_one (stream : StreamId) (grant : BackfillGrant) (key : StreamId * N)
    (state : EpochState) : option EpochState :=
  let covered := match grant with BgEpoch e => e =? key.2 | BgEveryOpenEpoch => true end in
  Some (if bool_decide (key.1 = stream) && covered && negb (ep_ended state) then
    mkEpochState (ep_ended state) (ep_last_sequence state) (ep_live state) (ep_runs state)
      (N.min (ep_grants state + 1) u32_max)
  else state).

Definition grant_backfill (r : StreamRegistry) (stream : StreamId) (grant : BackfillGrant) :
    StreamRegistry :=
  mkRegistry (rg_afe_metadata r) (map_imap (grant_one stream grant) (rg_epochs r))
    (rg_current r) (rg_ended r).

(** Where a packet starting at [first] and ending before [end_] puts the
    epoch: [Some] of the new live position, runs and grants, or [None] when it
    goes back outside any backfill run. *)
Definition place_packet (state : EpochState) (first end_ : N) :
    option (option N * list N * N) :=
  let advance :=
    Some (Some first, retain (fun next => next <? first) (ep_runs state), ep_grants state) in
  match ep_live state with
  | Some live =>
      if first <? live then
        match max_index (fun next => next <=? first) (fun next => next) (ep_runs state) with
        | Some i => Some (Some live, <[i := end_]> (ep_runs state), ep_grants state)
        | None =>
            if 0 <? ep_grants state then
              Some (Some live, ep_runs state ++ [end_], ep_grants state - 1)
            else None
        end
      else advance
  | None => advance
  end.

(** The stream an uplink packet of [kind] belongs to in this session. *)
Definition session_stream (r : StreamRegistry) (kind : Kind) : option StreamId :=
  match stream_of_kind kind with
  | Some Afe => if rg_afe_metadata r then Some Afe else None
  | other => other
  end.

Definition registry_check (r : StreamRegistry) (packet : Packet) :
    StreamRegistry * result ProtocolError StreamId :=
  let header := p_header packet in
  match session_stream r (h_kind header) with
  | None =>
      (r, Err (mkProtocolError Pe_UnexpectedKind
             ("kind " +:+ pretty (kind_u8 (h_kind header))
              +:+ " is not an uplink stream of this session")))
  | Some stream =>
    let epoch := h_epoch header in
    match rg_epochs r !! (stream, epoch) with
    | None =>
        (r, Err (mkProtocolError Pe_UnknownEpoch
               (as_str stream +:+ " epoch " +:+ pretty epoch +:+ " was never opened")))
    | Some state =>
      if ep_ended state then
        (r, Err (mkProtocolError Pe_StreamEnded
               (as_str stream +:+ " epoch " +:+ pretty epoch +:+ " already ended")))
      else
      let stale :=
        match ep_last_sequence state with Some last => h_sequence header <=? last | None => false end in
      if stale then
        (r, Err (mkProtocolError Pe_Sequence
               (as_str stream +:+ " sequence " +:+ pretty (h_sequence header) +:+ " after "
                +:+ pretty (default 0 (ep_last_sequence state)))))
      else
      let first := h_first_sample header in
      match place_packet state first (p_end_sample packet) with
      | None =>
          (r, Err (mkProtocolError Pe_SampleOrder
                 (as_str stream +:+ " first sample " +:+ pretty first +:+ " goes back from "
                  +:+ pretty (default 0 (ep_live state)) +:+ " outside a backfill run")))
      | Some (live, runs, grants) =>
          (mkRegistry (rg_afe_metadata r)
             (<[(stream, epoch) := mkEpochState false (Some (h_sequence header)) live runs grants]>
                (rg_epochs r))
             (rg_current r) (rg_ended r),
           Ok stream)
      end
    end
  end.

Definition registry_clear (r : StreamRegistry) : StreamRegistry :=
  mkRegistry (rg_afe_metadata r) ∅ ∅ [].

(** ** A session's events, in the order the runtime calls the registry *)
Inductive RegEvent :=
  | Re_Open (open : StreamOpen)
  | Re_End (e : StreamEnd)
  | Re_Grant (stream : StreamId) (grant : BackfillGrant)
  | Re_Check (packet : Packet)
  | Re_Clear.

Definition registry_apply (r : StreamRegistry) (ev : RegEvent) : StreamRegistry :=
  match ev with
  | Re_Open o => (registry_open r o).1
  | Re_End e => (registry_end r e).1
  | Re_Grant s g => grant_backfill r s g
  | Re_Check p => (registry_check r p).1
  | Re_Clear => registry_clear r
  end.

(** ** The invariant, with the number of ended epochs remembered as a bound *)
Record registry_inv_upto (bound : nat) (r : StreamRegistry) : Prop := {
  (** The current epoch of a stream is open. *)
  ri_current s e : rg_current r !! s = Some e -> registry_is_open r s e = true;
  (** The queue holds exactly the ended epochs, each once, and is bounded. *)
  ri_ended k : k ∈ rg_ended r <-> exists st, rg_epochs r !! k = Some st /\ ep_ended st = true;
  ri_nodup : NoDup (rg_ended r);
  ri_bound : (length (rg_ended r) <= bound)%nat;
  (** An ended epoch has no run under way and no grant left. *)
  ri_closed k st : rg_epochs r !! k = Some st -> ep_ended st = true ->
    ep_runs st = [] /\ ep_grants st = 0;
  (** An epoch has a live position once it has had a packet. *)
  ri_live k st : rg_epochs r !! k = Some st -> is_Some (ep_last_sequence st) <-> is_Some (ep_live st);
  (** The AFE stream exists only in a session that asked for it. *)
  ri_afe e st : rg_epochs r !! (Afe, e) = Some st -> rg_afe_metadata r = true;
}.
Abbreviation registry_inv := (registry_inv_upto ENDED_EPOCHS_REMEMBERED).

Lemma is_open_spec r s e :
  registry_is_open r s e = true <-> exists st, rg_epochs r !! (s, e) = Some st /\ ep_ended st = false.
Proof.
  unfold registry_is_open. destruct (rg_epochs r !! (s, e)) as [st|]; [|naive_solver].
  rewrite negb_true_iff. naive_solver.
Qed.

Lemma registry_empty_inv b : registry_inv (mkRegistry b ∅ ∅ []).
Proof.
  constructor; cbn; intros; simplify_map_eq; try done.
  - split; [by intros ?%elem_of_nil|]. intros (st & Hst & _). by simplify_map_eq.
  - constructor.
  - unfold ENDED_EPOCHS_REMEMBERED. lia.
Qed.

(** Replacing an open epoch's state by another open state, or adding an open
    epoch, keeps the invariant. *)
Lemma registry_insert_inv n r k st :
  registry_inv_upto n r ->
  (forall st0, rg_epochs r !! k = Some st0 -> ep_ended st0 = false) ->
  ep_ended st = false -> (is_Some (ep_last_sequence st) <-> is_Some (ep_live st)) ->
  (k.1 = Afe -> rg_afe_metadata r = true) ->
  registry_inv_upto n (mkRegistry (rg_afe_metadata r) (<[k := st]> (rg_epochs r)) (rg_current r) (rg_ended r)).
Proof.
  intros [Hc He Hn Hb Hcl Hl Ha] Hold Hopen Hlive Hafe. constructor; cbn; try done.
  - intros s e (st' & Hst' & Hop)%Hc%is_open_spec. apply is_open_spec. cbn.
    destruct (decide (k = (s, e))) as [->|Hne].
    + exists st. by rewrite lookup_insert_eq.
    + exists st'. by rewrite lookup_insert_ne.
  - intros k'. rewrite He. destruct (decide (k = k')) as [<-|Hne].
    + rewrite lookup_insert_eq. split; [intros (? & ?%Hold & ?)|intros (? & [= <-] & ?)]; congruence.
    + by rewrite lookup_insert_ne.
  - intros k' st' [[<- <-]|[Hne H]]%lookup_insert_Some ?; [congruence|by eapply Hcl].
  - intros k' st' [[<- <-]|[Hne H]]%lookup_insert_Some; [done|by eapply Hl].
  - intros e st' [[Hk _]|[Hne H]]%lookup_insert_Some; [apply Hafe; by rewrite Hk|by eapply Ha].
Qed.

(** Making an open epoch current keeps the invariant. *)
Lemma registry_set_current_inv n r s e :
  registry_inv_upto n r -> registry_is_open r s e = true ->
  registry_inv_upto n (mkRegistry (rg_afe_metadata r) (rg_epochs r) (<[s := e]> (rg_current r)) (rg_ended r)).
Proof.
  intros [Hc He Hn Hb Hcl Hl Ha] Ho. constructor; cbn; try done.
  intros s' e' [[<- <-]|[Hne H]]%lookup_insert_Some; [done|]. by apply Hc.
Qed.

Lemma registry_open_inv r o : registry_inv r -> registry_inv (registry_open r o).1.
Proof.
  intros Hr. unfold registry_open. cbv zeta.
  destruct (bool_decide _ && negb _) eqn:Eafe; [done|].
  destruct (rg_epochs r !! (so_stream o, so_epoch o)) as [st|] eqn:E.
  - destruct (ep_ended st) eqn:Est; [done|]. cbn.
    apply registry_set_current_inv; [done|]. apply is_open_spec. eauto.
  - cbn. set (r' := mkRegistry (rg_afe_metadata r)
      (<[(so_stream o, so_epoch o) := epoch_fresh]> (rg_epochs r)) (rg_current r) (rg_ended r)).
    change (registry_inv (mkRegistry (rg_afe_metadata r') (rg_epochs r')
      (<[so_stream o := so_epoch o]> (rg_current r')) (rg_ended r'))).
    apply registry_set_current_inv.
    + apply registry_insert_inv; [done|congruence|done|done|].
      cbn. intros Hs. rewrite bool_decide_eq_true_2 in Eafe by done.
      by destruct (rg_afe_metadata r).
    + apply is_open_spec. exists epoch_fresh. cbn. by rewrite lookup_insert_eq.
Qed.

(** Ending an open epoch: it joins the queue, which may grow by one. *)
Lemma registry_end_step r key st :
  registry_inv r -> rg_epochs r !! key = Some st -> ep_ended st = false ->
  registry_inv_upto (S ENDED_EPOCHS_REMEMBERED) (mkRegistry (rg_afe_metadata r)
    (<[key := mkEpochState true (ep_last_sequence st) (ep_live st) [] 0]> (rg_epochs r))
    (if bool_decide (rg_current r !! key.1 = Some key.2) then delete key.1 (rg_current r)
     else rg_current r) (rg_ended r ++ [key])).
Proof.
  intros [Hc He Hn Hb Hcl Hl Ha] E Est. destruct key as [s0 e0]; cbn [fst snd].
  assert (Hnew : (s0, e0) ∉ rg_ended r) by (intros (? & ? & ?)%He; congruence).
  constructor; cbn.
  - intros s e Hs. assert (Hold : (s, e) <> (s0, e0) /\ rg_current r !! s = Some e).
    { case_bool_decide as Hd; [apply lookup_delete_Some in Hs as [? ?]|]; split; congruence. }
    destruct Hold as [Hne (st' & Hst' & Hop)%Hc%is_open_spec].
    apply is_open_spec. exists st'. cbn. by rewrite lookup_insert_ne.
  - intros k. rewrite elem_of_app, list_elem_of_singleton, He.
    destruct (decide ((s0, e0) = k)) as [<-|Hne].
    + rewrite lookup_insert_eq. split; [intros _; eauto|by right].
    + rewrite lookup_insert_ne by done. split; [by intros [?|?]|by left].
  - apply NoDup_app. split_and!; [done| |apply NoDup_singleton].
    by intros x Hx ->%list_elem_of_singleton.
  - rewrite length_app. cbn. lia.
  - intros k st' [[<- <-]|[Hne H]]%lookup_insert_Some ?; [by split|by eapply Hcl].
  - intros k st' [[<- <-]|[Hne H]]%lookup_insert_Some; [exact (Hl _ _ E)|by eapply Hl].
  - intros e st' [[Hk _]|[Hne H]]%lookup_insert_Some; [|by eapply Ha].
    injection Hk as -> ->. by eapply Ha.
Qed.

(** Forgetting the oldest ended epoch. *)
Lemma registry_forget_step n b epochs current oldest rest :
  registry_inv_upto (S n) (mkRegistry b epochs current (oldest :: rest)) ->
  registry_inv_upto n (mkRegistry b (delete oldest epochs) current rest).
Proof.
  intros [Hc He Hn Hb Hcl Hl Ha]. cbn in *. apply NoDup_cons in Hn as [Hnot Hn].
  assert (Hold : exists st, epochs !! oldest = Some st /\ ep_ended st = true)
    by (apply He, elem_of_cons; by left).
  constructor; cbn; try done.
  - intros s e (st & Hst & Hop)%Hc%is_open_spec. apply is_open_spec. cbn in *. exists st.
    rewrite lookup_delete_ne; [done|]. intros ->. destruct Hold as (st' & ? & ?). congruence.
  - intros k. destruct (decide (oldest = k)) as [<-|Hne].
    + rewrite lookup_delete_eq. split; [done|by intros (? & ? & _)].
    + rewrite lookup_delete_ne, <- He, elem_of_cons by done.
      split; [by right|by intros [?|?]].
  - lia.
  - intros k st [_ H]%lookup_delete_Some. by eapply Hcl.
  - intros k st [_ H]%lookup_delete_Some. exact (Hl _ _ H).
  - intros e st [_ H]%lookup_delete_Some. by eapply Ha.
Qed.

Lemma registry_inv_weaken n m r :
  registry_inv_upto n r -> (length (rg_ended r) <= m)%nat -> registry_inv_upto m r.
Proof. intros [] ?. by constructor. Qed.

Lemma registry_end_inv r e : registry_inv r -> registry_inv (registry_end r e).1.
Proof.
  intros Hr. unfold registry_end. cbv zeta.
  destruct (rg_epochs r !! (se_stream e, se_epoch e)) as [st|] eqn:E; [|done].
  destruct (ep_ended st) eqn:Est; [done|].
  pose proof (registry_end_step r _ st Hr E Est) as Hstep. cbn [fst snd] in Hstep.
  destruct (Nat.ltb_spec ENDED_EPOCHS_REMEMBERED (length (rg_ended r ++ [(se_stream e, se_epoch e)]))).
  - destruct (rg_ended r ++ _) as [|oldest rest] eqn:Eq; [by destruct (rg_ended r)|].
    by apply registry_forget_step.
  - by eapply registry_inv_weaken.
Qed.

Lemma grant_backfill_inv r s g : registry_inv r -> registry_inv (grant_backfill r s g).
Proof.
  intros [Hc He Hn Hb Hcl Hl Ha].
  assert (Hlk : forall k st, rg_epochs (grant_backfill r s g) !! k = Some st <->
    exists st0, rg_epochs r !! k = Some st0 /\ grant_one s g k st0 = Some st).
  { intros k st. cbn. rewrite map_lookup_imap. by rewrite bind_Some. }
  assert (Hsame : forall k st0 st, grant_one s g k st0 = Some st ->
    ep_ended st = ep_ended st0 /\ ep_last_sequence st = ep_last_sequence st0 /\
    ep_live st = ep_live st0 /\ ep_runs st = ep_runs st0 /\
    (ep_ended st0 = true -> ep_grants st = ep_grants st0)).
  { intros k st0 st [= <-]. destruct (ep_ended st0) eqn:E.
    - by rewrite andb_false_r.
    - case_match; cbn; by rewrite ?E. }
  constructor; try done.
  - intros s' e (st0 & Hst & Hop)%Hc%is_open_spec. apply is_open_spec.
    eexists. split; [apply Hlk; eexists; split; [exact Hst|reflexivity]|].
    by rewrite (proj1 (Hsame _ _ _ eq_refl)).
  - intros k. rewrite He. split.
    + intros (st0 & Hst & Hend). eexists. split; [apply Hlk; eexists; split; [exact Hst|reflexivity]|].
      by rewrite (proj1 (Hsame _ _ _ eq_refl)).
    + intros (st & (st0 & Hst & Hg)%Hlk & Hend). exists st0. split; [done|].
      by rewrite <- (proj1 (Hsame _ _ _ Hg)).
  - intros k st (st0 & Hst & Hg)%Hlk Hend. destruct (Hsame _ _ _ Hg) as (E1 & _ & _ & E2 & E3).
    rewrite E1 in Hend. destruct (Hcl k st0) as [Hr Hgr]; [done..|]. rewrite E2, E3; done.
  - intros k st (st0 & Hst & Hg)%Hlk. destruct (Hsame _ _ _ Hg) as (_ & -> & -> & _).
    exact (Hl _ _ Hst).
  - intros e st (st0 & Hst & Hg)%Hlk. by eapply Ha.
Qed.

Lemma place_packet_live st first end_ live runs grants :
  place_packet st first end_ = Some (live, runs, grants) -> is_Some live.
Proof. unfold place_packet. intros. repeat case_match; naive_solver. Qed.

Lemma session_stream_Some r k s :
  session_stream r k = Some s -> k = stream_kind s /\ (s = Afe -> rg_afe_metadata r = true).
Proof.
  unfold session_stream. destruct (stream_of_kind k) as [[]|] eqn:E; try done;
    apply stream_of_kind_Some in E; try (by intros [= <-]).
  destruct (rg_afe_metadata r) eqn:Ea; [by intros [= <-]|done].
Qed.

Lemma registry_check_inv r p : registry_inv r -> registry_inv (registry_check r p).1.
Proof.
  intros Hr. unfold registry_check. cbv zeta.
  destruct (session_stream r _) as [s|] eqn:Es; [|done].
  apply session_stream_Some in Es as [_ Hafe].
  destruct (rg_epochs r !! (s, _)) as [st|] eqn:E; [|done].
  destruct (ep_ended st) eqn:Est; [done|].
  destruct (match ep_last_sequence st with Some _ => _ | None => _ end); [done|].
  destruct (place_packet _ _ _) as [[[live runs] grants]|] eqn:Ep; [|done]. cbn.
  apply registry_insert_inv; [done|congruence|done| |done].
  apply place_packet_live in Ep. cbn. by split.
Qed.

Lemma registry_apply_inv r ev : registry_inv r -> registry_inv (registry_apply r ev).
Proof.
  intros Hr. destruct ev; cbn.
  - by apply registry_open_inv.
  - by apply registry_end_inv.
  - by apply grant_backfill_inv.
  - by apply registry_check_inv.
  - apply registry_empty_inv.
Qed.

(** ** What the registry accepts *)

(** Where a packet of samples [[first, end_)] may go in an open epoch. *)
Inductive placed (st : EpochState) (first end_ : N) : option N -> list N -> N -> Prop :=
  | placed_advance :
      (forall live, ep_live st = Some live -> live <= first) ->
      placed st first end_ (Some first) (retain (fun next => next <? first) (ep_runs st)) (ep_grants st)
  | placed_continue live i next :
      ep_live st = Some live -> first < live -> ep_runs st !! i = Some next -> next <= first ->
      (forall next', next' ∈ ep_runs st -> next' <= first -> next' <= next) ->
      placed st first end_ (Some live) (<[i := end_]> (ep_runs st)) (ep_grants st)
  | placed_start live :
      ep_live st = Some live -> first < live -> (forall next, next ∈ ep_runs st -> first < next) ->
      0 < ep_grants st ->
      placed st first end_ (Some live) (ep_runs st ++ [end_]) (ep_grants st - 1).

Lemma place_packet_sound st first end_ live runs grants :
  place_packet st first end_ = Some (live, runs, grants) -> placed st first end_ live runs grants.
Proof.
  unfold place_packet. destruct (ep_live st) as [l|] eqn:El.
  - destruct (N.ltb_spec first l) as [Hlt|Hge].
    + destruct (max_index _ _ _) as [i|] eqn:Ei.
      * intros [= <- <- <-]. apply max_index_Some in Ei as (next & Hi & Hn%N.leb_le & Hmax).
        eapply placed_continue; [done|done|done|done|]. intros next' Hin Hle. apply Hmax; [done|].
        by apply N.leb_le.
      * destruct (N.ltb_spec 0 (ep_grants st)); [|done]. intros [= <- <- <-].
        apply placed_start; [done|done| |done]. intros next Hin.
        apply N.leb_gt. by apply (max_index_None _ _ _ Ei).
    + intros [= <- <- <-]. apply placed_advance. rewrite El. by intros ? [= <-].
  - intros [= <- <- <-]. apply placed_advance. by rewrite El.
Qed.

Lemma place_packet_complete st first end_ live runs grants :
  placed st first end_ live runs grants -> is_Some (place_packet st first end_).
Proof.
  unfold place_packet. intros [Hadv|l i next El Hlt Hi Hle _|l El Hlt Hnone Hg].
  - destruct (ep_live st) as [l|]; [|done]. specialize (Hadv _ eq_refl).
    by destruct (N.ltb_spec first l); [lia|].
  - rewrite El. destruct (N.ltb_spec first l); [|lia].
    destruct (max_index _ _ _) eqn:Em; [done|].
    apply max_index_None with (x := next) in Em; [|by eapply list_elem_of_lookup_2].
    apply N.leb_gt in Em. lia.
  - rewrite El. destruct (N.ltb_spec first l); [|lia].
    destruct (max_index _ _ _); [done|]. by destruct (N.ltb_spec 0 (ep_grants st)); [|lia].
Qed.

(** The rules an accepted packet of stream [s] obeys. *)
Record packet_allowed (r : StreamRegistry) (p : Packet) (s : StreamId) (st : EpochState) : Prop := {
  pa_stream : h_kind (p_header p) = stream_kind s;
  pa_afe : s = Afe -> rg_afe_metadata r = true;
  pa_epoch : rg_epochs r !! (s, h_epoch (p_header p)) = Some st;
  pa_open : ep_ended st = false;
  pa_sequence last : ep_last_sequence st = Some last -> last < h_sequence (p_header p);
  pa_placed : exists live runs grants,
    placed st (h_first_sample (p_header p)) (p_end_sample p) live runs grants;
}.

Lemma session_stream_intro r s :
  (s = Afe -> rg_afe_metadata r = true) -> session_stream r (stream_kind s) = Some s.
Proof.
  unfold session_stream. rewrite stream_kind_of_kind. destruct s; try done. by intros ->.
Qed.

(** An accepted packet obeys the rules and only its epoch's state moves. *)
Lemma registry_check_Ok r p r' s :
  registry_check r p = (r', Ok s) ->
  exists st live runs grants,
    packet_allowed r p s st /\
    placed st (h_first_sample (p_header p)) (p_end_sample p) live runs grants /\
    rg_epochs r' = <[(s, h_epoch (p_header p)) :=
      mkEpochState false (Some (h_sequence (p_header p))) live runs grants]> (rg_epochs r).
Proof.
  unfold registry_check. cbv zeta.
  destruct (session_stream r _) as [s0|] eqn:Es; [|done].
  apply session_stream_Some in Es as [Hk Hafe].
  destruct (rg_epochs r !! (s0, _)) as [st|] eqn:E; [|done].
  destruct (ep_ended st) eqn:Est; [done|].
  destruct (match ep_last_sequence st with Some _ => _ | None => _ end) eqn:Eq; [done|].
  destruct (place_packet _ _ _) as [[[live runs] grants]|] eqn:Ep; [|done].
  intros [= <- <-]. apply place_packet_sound in Ep.
  exists st, live, runs, grants. split_and!; [|done|done]. constructor; [done..| |by eauto].
  intros last El. rewrite El in Eq. by apply N.leb_gt.
Qed.

Lemma registry_check_Err r p r' e : registry_check r p = (r', Err e) -> r' = r.
Proof.
  unfold registry_check. cbv zeta. intros H. repeat case_match; by simplify_eq.
Qed.

Lemma registry_check_allowed r p s st :
  packet_allowed r p s st -> exists r', registry_check r p = (r', Ok s).
Proof.
  intros [Hk Hafe E Est Hseq (live & runs & grants & Hpl%place_packet_complete)].
  unfold registry_check. cbv zeta. rewrite Hk, session_stream_intro, E, Est by done.
  destruct Hpl as [[[l rs] g] ->].
  destruct (ep_last_sequence st) as [last|]; [|by eexists].
  rewrite (proj2 (N.leb_gt _ _)) by (by apply Hseq). by eexists.
Qed.

(** ** Sequences *)
(** Whether an event leaves the epoch [key] alone: it neither ends it nor
    clears the session. *)
Definition keeps (key : StreamId * N) (ev : RegEvent) : bool :=
  match ev with
  | Re_End e => negb (bool_decide ((se_stream e, se_epoch e) = key))
  | Re_Clear => false
  | _ => true
  end.

(** The sequence numbers of the packets accepted on [key], in order. *)
Fixpoint accepted (key : StreamId * N) (r : StreamRegistry) (evs : list RegEvent) : list N :=
  match evs with
  | [] => []
  | ev :: evs =>
      match ev with
      | Re_Check p =>
          match (registry_check r p).2 with
          | Ok s => if bool_decide ((s, h_epoch (p_header p)) = key) then [h_sequence (p_header p)] else []
          | Err _ => []
          end
      | _ => []
      end ++ accepted key (registry_apply r ev) evs
  end.

(** An event that keeps an open epoch leaves it open, with its last sequence
    unchanged unless it is an accepted packet of that epoch. *)
Lemma registry_apply_keeps r ev key st :
  registry_inv r -> rg_epochs r !! key = Some st -> ep_ended st = false -> keeps key ev = true ->
  exists st', rg_epochs (registry_apply r ev) !! key = Some st' /\ ep_ended st' = false /\
    (ep_last_sequence st' = ep_last_sequence st \/
     exists p s, ev = Re_Check p /\ (registry_check r p).2 = Ok s /\
       (s, h_epoch (p_header p)) = key /\ ep_last_sequence st' = Some (h_sequence (p_header p))).
Proof.
  intros Hr E Est Hk. destruct ev as [o|e|s g|p|]; cbn [registry_apply].
  - exists st. split_and!; [|done|by left]. unfold registry_open. cbv zeta.
    destruct (bool_decide _ && _); [done|].
    destruct (rg_epochs r !! (so_stream o, so_epoch o)) as [st0|] eqn:Eo;
      [by destruct (ep_ended st0)|]. cbn. rewrite lookup_insert_ne; [done|congruence].
  - exists st. split_and!; [|done|by left]. cbn in Hk. rewrite negb_true_iff in Hk.
    apply bool_decide_eq_false in Hk. unfold registry_end. cbv zeta.
    destruct (rg_epochs r !! (se_stream e, se_epoch e)) as [st0|] eqn:Ee; [|done].
    destruct (ep_ended st0) eqn:E0; [done|]. destruct (_ <? _)%nat; [|cbn; by rewrite lookup_insert_ne].
    destruct (rg_ended r ++ _) as [|oldest rest] eqn:Eq; cbn; [by rewrite lookup_insert_ne|].
    assert (oldest <> key).
    { intros ->. assert (Hin : key ∈ rg_ended r ++ [(se_stream e, se_epoch e)])
        by (rewrite Eq; apply elem_of_cons; by left).
      apply elem_of_app in Hin as [(st1 & ? & ?)%(ri_ended _ _ Hr)|?%list_elem_of_singleton]; congruence. }
    by rewrite lookup_delete_ne, lookup_insert_ne.
  - eexists. cbn. rewrite map_lookup_imap, E. cbn. split_and!; [done| |left]; by case_match.
  - destruct (registry_check r p) as [r' [s|err]] eqn:Ec; cbn.
    + pose proof Ec as Ec'. apply registry_check_Ok in Ec as (st0 & live & runs & grants & _ & _ & ->).
      destruct (decide ((s, h_epoch (p_header p)) = key)) as [<-|Hne].
      * eexists. rewrite lookup_insert_eq. split_and!; [done|done|right].
        exists p, s. by rewrite Ec'.
      * exists st. rewrite lookup_insert_ne by done. split_and!; [done|done|by left].
    + apply registry_check_Err in Ec as ->. exists st. split_and!; [done|done|by left].
  - done.
Qed.

Lemma accepted_sorted key r evs :
  registry_inv r -> Forall (fun ev => keeps key ev = true) evs ->
  StronglySorted N.lt (accepted key r evs) /\
  (forall st last, rg_epochs r !! key = Some st -> ep_ended st = false ->
    ep_last_sequence st = Some last -> Forall (N.lt last) (accepted key r evs)).
Proof.
  revert r. induction evs as [|ev evs IH]; intros r Hr Hks; [split; constructor|].
  apply Forall_cons in Hks as [Hk Hks].
  destruct (IH (registry_apply r ev) (registry_apply_inv _ _ Hr) Hks) as [IHs IHb]. clear IH.
  cbn [accepted].
  (* Either this event is an accepted packet of [key], or it adds nothing. *)
  destruct (match ev with Re_Check _ => _ | _ => _ end) as [|q [|]] eqn:Ehead.
  - split; [done|]. intros st last E Est El.
    destruct (registry_apply_keeps r ev key st) as (st' & E' & Est' & [El'|(p & s & -> & Hc & Hkey & _)]);
      [done..| |].
    + apply (IHb st'); [done|done|congruence].
    + rewrite Hc, bool_decide_eq_true_2 in Ehead by done. done.
  - destruct ev as [| | |p|]; try done.
    destruct (registry_check r p) as [r' [s|err]] eqn:Ec; cbn in Ehead; [|done].
    case_bool_decide as Hkey; [|done]. injection Ehead as <-.
    cbn [registry_apply] in *. rewrite Ec in *. cbn in *.
    apply registry_check_Ok in Ec as (st0 & live & runs & grants & [] & _ & E').
    assert (Hb : Forall (N.lt (h_sequence (p_header p))) (accepted key r' evs)).
    { eapply IHb; [rewrite E', <- Hkey; apply lookup_insert_eq|done|done]. }
    split; [by constructor|]. intros st last E Est El. rewrite <- Hkey in E.
    assert (Hlt : last < h_sequence (p_header p)) by (apply pa_sequence0; congruence).
    constructor; [done|]. eapply Forall_impl; [exact Hb|]. intros x Hx. cbn in *. lia.
  - destruct ev as [| | |p|]; try done. destruct (registry_check r p).2; [|done]. by case_bool_decide.
Qed.

(** In every session, whatever the device sends and the controller grants,
    the registry stays consistent: each stream's current epoch is open, the
    ended epochs are remembered once each and at most 64 of them, an ended epoch
    has neither runs nor grants, and the AFE stream exists only if the session
    asked for it. *)
Theorem registry_reachable_inv afe_metadata evs :
  registry_inv (foldl registry_apply (registry_new afe_metadata) evs).
Proof.
  assert (H : forall evs r, registry_inv r -> registry_inv (foldl registry_apply r evs)).
  { induction evs0 as [|ev evs0 IH]; intros r Hr; [done|]. apply IH. by apply registry_apply_inv. }
  apply H, registry_empty_inv.
Qed.

(** The registry accepts a packet exactly when it names an open epoch of a
    stream of this session, its sequence is above the epoch's last, and it moves
    the live position forward, continues the furthest run it can, or starts a run
    that was granted; and a rejected packet changes nothing. *)
Theorem registry_check_spec r p :
  (forall s, (exists r', registry_check r p = (r', Ok s)) <-> exists st, packet_allowed r p s st) /\
  (forall r' e, registry_check r p = (r', Err e) -> r' = r).
Proof.
  split; [|apply registry_check_Err]. intros s. split.
  - intros (r' & (st & ? & ? & ? & Ha & _)%registry_check_Ok). by exists st.
  - intros (st & Ha). by eapply registry_check_allowed.
Qed.

(** On one epoch the accepted packets' sequence numbers strictly increase, in
    any interleaving with other streams, epochs and grants, until the epoch ends. *)
Theorem accepted_sequences_increase afe_metadata before evs key :
  Forall (fun ev => keeps key ev = true) evs ->
  StronglySorted N.lt
    (accepted key (foldl registry_apply (registry_new afe_metadata) before) evs).
Proof.
  intros Hk. refine (proj1 (accepted_sorted key _ evs _ Hk)).
  generalize (registry_empty_inv afe_metadata : registry_inv (registry_new afe_metadata)).
  generalize (registry_new afe_metadata).
  induction before as [|ev before IH]; intros r Hr; [done|]. by apply IH, registry_apply_inv.
Qed.

(** ** Witness *)
Definition example_open : StreamOpen := mkStreamOpen Mic 111 (Some (Known Rs_Start)).
Definition example_packet (sequence first : N) : Packet := {|
  p_header := {| h_kind := K_Mic; h_flags := 0; h_epoch := 111; h_sequence := sequence;
    h_first_sample := first; h_mono_ns := 0; h_uncertainty_us := None; h_frame_count := 2;
    h_generation := 0; h_source_mask := 0 |};
  p_end_sample := first + 2; p_payload := [] |}.

Lemma accepted_sequences_increase_witness :
  let r := registry_apply (registry_new false) (Re_Open example_open) in
  accepted (Mic, 111) r
    [Re_Check (example_packet 4 100); Re_Check (example_packet 3 102);
     Re_Check (example_packet 5 50); Re_Grant Mic (BgEpoch 111); Re_Check (example_packet 6 50);
     Re_Check (example_packet 7 102)] = [4; 6; 7] /\
  StronglySorted N.lt (accepted (Mic, 111) r
    [Re_Check (example_packet 4 100); Re_Check (example_packet 3 102)]).
Proof.
  split; [vm_compute; reflexivity|].
  refine (accepted_sequences_increase false [Re_Open example_open]
    [Re_Check (example_packet 4 100); Re_Check (example_packet 3 102)] (Mic, 111) _).
  repeat constructor.
Defined.
