(* ===== verification/Clock.v ===== *)
(** * Sample time, stream starts and the uplink's configuration

    [turn/src/time.rs] (positions and lengths on a capture epoch's timeline, the
    512-sample cell grid, the controller's monotonic clock), the stream-start
    formulas of [turn/src/endpoint.rs] and [uplink/src/starts.rs], and
    [uplink/src/config.rs].  A [Sample], a [Samples], a [CellIndex] and a
    [MonoInstant] are newtypes over [u64] in the source; here they are the [N]
    they wrap, and the operators that saturate say so.  A [Duration] is its
    number of nanoseconds. *)
From S2P Require Import Prelude Bytes WireEnum Ema Vocab.

(** ** Positions and lengths *)
Abbreviation Sample := N.
Abbreviation Samples := N.
Abbreviation CellIndex := N.
Abbreviation MonoInstant := N.
Abbreviation Duration := N.

Definition SAMPLE_RATE : N := 16000.

(** [Epoch::new]: zero is not an epoch. *)
Definition Epoch_new (value : N) : option N := if value =? 0 then None else Some value.

Definition from_ms (ms : N) : Samples := ms * SAMPLE_RATE / 1000.
Definition as_ms (s : Samples) : N := s * 1000 / SAMPLE_RATE.
Definition whole_cells (s : Samples) : N := s / CELL_SAMPLES.

Definition sample_cell (s : Sample) : CellIndex := s / CELL_SAMPLES.
(** [saturating_sub] is subtraction on [N]. *)
Definition sample_since (s earlier : Sample) : Samples := s - earlier.
Definition round_down (s : Sample) (grid : N) : Sample := s - s mod grid.
Definition sample_add (s : Sample) (d : Samples) : Sample := sat_add64 s d.
Definition sample_sub (s : Sample) (d : Samples) : Sample := s - d.

Record SampleSpan := mkSampleSpan { ss_start : Sample; ss_end : Sample }.
Definition sample_span_new (start end_ : Sample) : SampleSpan :=
  mkSampleSpan start (N.max end_ start).
Definition sample_span_len (s : SampleSpan) : Samples := sample_since (ss_end s) (ss_start s).
Definition sample_span_is_empty (s : SampleSpan) : bool := ss_end s <=? ss_start s.
Definition sample_span_overlaps (s other : SampleSpan) : bool :=
  (ss_start s <? ss_end other) && (ss_start other <? ss_end s).

Definition cell_start (c : CellIndex) : Sample := c * CELL_SAMPLES.
Definition cell_end (c : CellIndex) : Sample := (c + 1) * CELL_SAMPLES.
Definition cell_next (c : CellIndex) : CellIndex := c + 1.

(** ** The controller's clock *)
Definition after (t : MonoInstant) (d : Duration) : MonoInstant := sat_add64 t (N.min d u64_max).
Definition mono_since (t earlier : MonoInstant) : Duration := N.min (t - earlier) u64_max.
Definition from_secs (s : N) : Duration := s * 1000000000.
Definition from_millis (ms : N) : Duration := ms * 1000000.
Definition as_millis (d : Duration) : N := d / 1000000.

(** ** Stream starts *)
Definition candidate_mic_start (support_start : Sample) : Sample :=
  round_down (sample_sub support_start 4800) CELL_SAMPLES.
Definition wake_start (support_start : Sample) : Sample := sample_sub support_start 4800.
Definition cells_start (mic_start : Sample) : CellIndex :=
  sample_cell (sample_sub mic_start 160000).
Definition reply_start (trigger first_retained : Sample) : Sample :=
  N.max (sample_sub trigger (from_ms 780)) first_retained.

Definition REFERENCE_LEAD : Samples := 40000.
Definition NEAR_MISS_AFE_LEAD : Samples := 16000.
Definition NEAR_MISS_TAIL : Samples := 4800.
Definition NEAR_MISS_GRACE : Samples := 16000.

Record CandidateStarts := mkCandidateStarts {
  cs_mic : Sample;
  cs_cells : Sample;
  cs_reference : Sample;
  cs_afe : option Sample;
}.

Definition reference_start (mic_start : Sample) : Sample := sample_sub mic_start REFERENCE_LEAD.
Definition afe_start (mic_start : Sample) : Sample :=
  round_down (sample_sub mic_start REFERENCE_LEAD) AFE_PERIOD_SAMPLES.

Definition candidate_starts (support_start : Sample) (afe_session : bool) : CandidateStarts :=
  let mic := candidate_mic_start support_start in {|
    cs_mic := mic;
    cs_cells := cell_start (cells_start mic);
    cs_reference := reference_start mic;
    cs_afe := if afe_session then Some (afe_start mic) else None;
  |}.

Definition device_grid (stream : StreamId) : N :=
  match stream with
  | Mic | Cells => CELL_SAMPLES
  | Afe => AFE_PERIOD_SAMPLES
  | Reference => 2560
  end.

Definition device_grid_start (stream : StreamId) (requested : Sample) : option Sample :=
  if bool_decide (stream = Reference) then None
  else Some (round_down requested (device_grid stream)).

Definition device_history (stream : StreamId) : N :=
  match stream with
  | Mic => 96000
  | Reference => 128000
  | Cells => 500 * CELL_SAMPLES
  | Afe => 100 * AFE_PERIOD_SAMPLES
  end.

(** ** Configuration *)
Record Retention := mkRetention {
  rt_mic : N; rt_reference : N; rt_cells : N; rt_afe : N;
}.
Definition retention_default : Retention :=
  mkRetention (40 * 16000) (40 * 16000) (60 * 16000) (60 * 16000).
Definition retention_of (r : Retention) (stream : StreamId) : N :=
  match stream with
  | Mic => rt_mic r
  | Reference => rt_reference r
  | Cells => rt_cells r
  | Afe => rt_afe r
  end.

Record UplinkConfig := mkUplinkConfig {
  retention : Retention;
  max_blocks : nat;
  capture_epochs_kept : nat;
  reference_epochs_kept : nat;
  hole_wait : Duration;
  max_backlog_bytes : N;
  max_backlog_deliveries : N;
}.
Definition config_default : UplinkConfig := {|
  retention := retention_default;
  max_blocks := 4096;
  capture_epochs_kept := 2;
  reference_epochs_kept := 2;
  hole_wait := from_secs 2;
  max_backlog_bytes := N.shiftl 2 20;
  max_backlog_deliveries := 8192;
|}.

Record SessionTerms := mkSessionTerms { t_afe_metadata : bool; t_near_miss : bool }.
Definition session_terms (caps : Capabilities) (afe_metadata_sent : bool) : SessionTerms := {|
  t_afe_metadata := afe_metadata_sent && capabilities_contains caps Cap_AfeMetadata;
  t_near_miss := capabilities_contains caps Cap_NearMiss;
|}.

(** ** Lemmas *)
Lemma round_down_mul s grid : grid <> 0 -> round_down s grid = s / grid * grid.
Proof.
  intros Hg. unfold round_down. pose proof (N.div_mod s grid Hg) as Hd.
  generalize dependent (s / grid). generalize (s mod grid). intros r q ->. lia.
Qed.

Lemma round_down_le s grid : round_down s grid <= s.
Proof. apply N.le_sub_l. Qed.

Lemma round_down_gt s grid : grid <> 0 -> s < round_down s grid + grid.
Proof.
  intros Hg. unfold round_down. pose proof (N.mod_lt s grid Hg) as Hr.
  generalize dependent (s mod grid). intros r Hr. lia.
Qed.

Lemma round_down_mod s grid : grid <> 0 -> round_down s grid mod grid = 0.
Proof. intros Hg. rewrite round_down_mul by done. by apply N.Div0.mod_mul. Qed.

Lemma round_down_fix s grid : s mod grid = 0 -> round_down s grid = s.
Proof. unfold round_down. intros ->. apply N.sub_0_r. Qed.

Lemma device_grid_pos stream : device_grid stream <> 0.
Proof. by destruct stream. Qed.

Lemma after_ge t d : t <= u64_max -> t <= after t d.
Proof. unfold after, sat_add64. lia. Qed.

Lemma after_gt t d : t < u64_max -> 0 < d -> t < after t d.
Proof. unfold after, sat_add64. lia. Qed.

Lemma after_bound t d : after t d <= u64_max.
Proof. unfold after, sat_add64. lia. Qed.

(** The cells tile a capture epoch's timeline: a sample is in exactly the cell
    [Sample::cell] names, consecutive cells meet, and a whole number of
    milliseconds survives the conversion to samples and back. *)
Theorem cells_tile_timeline s c :
  (sample_cell s = c <-> cell_start c <= s < cell_end c) /\
  cell_end c = cell_start (cell_next c) /\
  as_ms (from_ms c) = c.
Proof.
  unfold sample_cell, cell_start, cell_end, cell_next, as_ms, from_ms, CELL_SAMPLES, SAMPLE_RATE.
  split_and!; [|lia|].
  - split; [intros <-; div_lia|]. intros H. symmetry. apply (N.div_unique s 512 c (s - c * 512)); lia.
  - replace (c * 16000 / 1000) with (c * 16); [|div_lia].
    replace (c * 16 * 1000) with (c * 16000) by lia. by rewrite N.div_mul.
Qed.

(** A candidate's stream starts keep the wire contract: each lies on the grid
    the device rounds it to, so the device moves none of them; the mic starts
    300 ms before the wake word's support, less than a cell early; the loudness
    history is 10 s and the AFE and reference leads 2.5 s, clipped at sample
    zero; and every start is inside the ring the device keeps of its stream. *)
Theorem candidate_starts_contract support_start afe_session :
  let starts := candidate_starts support_start afe_session in
  let mic := cs_mic starts in
  device_grid_start Mic mic = Some mic /\
  device_grid_start Cells (cs_cells starts) = Some (cs_cells starts) /\
  (mic <= support_start - 4800 < mic + CELL_SAMPLES) /\
  (cs_cells starts <= mic - 160000 < cs_cells starts + CELL_SAMPLES) /\
  cs_reference starts = mic - 40000 /\
  (is_Some (cs_afe starts) <-> afe_session = true) /\
  (forall a, cs_afe starts = Some a ->
    device_grid_start Afe a = Some a /\ a <= mic - 40000 < a + AFE_PERIOD_SAMPLES /\
    support_start - a < device_history Afe) /\
  support_start - mic < device_history Mic /\
  support_start - cs_cells starts < device_history Cells /\
  support_start - cs_reference starts < device_history Reference.
Proof.
  cbv zeta. unfold candidate_starts. cbn [cs_mic cs_cells cs_reference cs_afe].
  unfold device_grid_start. cbn [device_grid]. rewrite !bool_decide_eq_false_2 by done.
  assert (Hm : candidate_mic_start support_start <= support_start - 4800
               < candidate_mic_start support_start + CELL_SAMPLES).
  { split; [apply round_down_le|by apply round_down_gt]. }
  assert (Hmm : candidate_mic_start support_start mod 512 = 0) by by apply round_down_mod.
  generalize dependent (candidate_mic_start support_start). intros mic Hm Hmm.
  assert (Hc : cell_start (cells_start mic) = round_down (mic - 160000) CELL_SAMPLES).
  { symmetry. by apply round_down_mul. }
  assert (Hcb : cell_start (cells_start mic) <= mic - 160000
                < cell_start (cells_start mic) + CELL_SAMPLES).
  { rewrite Hc. split; [apply round_down_le|by apply round_down_gt]. }
  unfold CELL_SAMPLES in *. split_and!; try done; try (unfold device_history, CELL_SAMPLES; lia).
  - f_equal. by apply round_down_fix.
  - f_equal. apply round_down_fix. rewrite Hc. by apply round_down_mod.
  - destruct afe_session; [done|]. split; [by intros [? [=]]|done].
  - intros a Ha. destruct afe_session; [|done]. injection Ha as <-.
    pose proof (round_down_le (mic - 40000) AFE_PERIOD_SAMPLES).
    pose proof (round_down_gt (mic - 40000) AFE_PERIOD_SAMPLES ltac:(done)).
    assert (Hfix : round_down (afe_start mic) AFE_PERIOD_SAMPLES = afe_start mic).
    { apply round_down_fix. by apply round_down_mod. }
    unfold afe_start, sample_sub, REFERENCE_LEAD, device_history, AFE_PERIOD_SAMPLES in *.
    generalize dependent (round_down (mic - 40000) 1280). intros a Hle Hgt Hfix.
    split_and!; [by f_equal|done|done|lia].
  - unfold reference_start, sample_sub, REFERENCE_LEAD, device_history. lia.
Qed.
