(* ===== verification/Blocks.v ===== *)
(** * The block index of an epoch buffer ([uplink/src/buffer.rs], [BlockIndex])

    Which records of a stream epoch are held, with the timing of the packet that
    first brought them, and which the device reported missing.  The index is a
    list of disjoint blocks in order; a removal from the middle of the deque is
    a recursion on the suffix the loop stands at.  Its meaning is [index_view],
    what each position holds; the lemmas give every operation as a function of
    the view. *)
From S2P Require Import Prelude Bytes WireEnum Ema Vocab.

(** ** Spans and block metadata *)
Record Span := mkSpan { sp_start : N; sp_end : N }.
#[export] Instance Span_eq_dec : EqDecision Span.
Proof. solve_decision. Defined.

Definition span_new (start end_ : N) : option Span :=
  if start <=? end_ then Some (mkSpan start end_) else None.
(** [end - start]: every span of the program has [start <= end]. *)
Definition span_len (s : Span) : N := sp_end s - sp_start s.
Definition span_is_empty (s : Span) : bool := sp_start s =? sp_end s.

(** Device monotonic nanoseconds per 16 kHz sample. *)
Definition SAMPLE_NS : N := 62500.

Record BlockMeta := mkMeta {
  bm_flags : N;
  bm_mono_ns : N;
  bm_uncertainty_us : option N;
  bm_source_mask : N;
}.
#[export] Instance BlockMeta_eq_dec : EqDecision BlockMeta.
Proof. solve_decision. Defined.

Definition meta_of (packet : Packet) : BlockMeta :=
  let header := p_header packet in {|
    bm_flags := default FLAGS_NONE (flags_from_bits (N.ldiff (h_flags header) FLAG_DISCONTINUITY));
    bm_mono_ns := h_mono_ns header;
    bm_uncertainty_us := h_uncertainty_us header;
    bm_source_mask := h_source_mask header;
  |}.

(** [BlockMeta::advanced]. *)
Definition advanced (m : BlockMeta) (records unit : N) : BlockMeta :=
  mkMeta (bm_flags m) (sat_add64 (bm_mono_ns m) (sat_mul64 records (unit * SAMPLE_NS)))
    (bm_uncertainty_us m) (bm_source_mask m).

Inductive SegmentKind :=
  | Sk_Data (meta : BlockMeta) (discontinuity : bool)
  | Sk_Missing
  | Sk_Evicted
  | Sk_Unknown.
Record Segment := mkSegment { sg_span : Span; sg_kind : SegmentKind }.

Inductive Lookup :=
  | Lk_Data (end_ : N) (meta : BlockMeta) (discontinuity : bool)
  | Lk_Missing (end_ : N)
  | Lk_Evicted (until : N)
  | Lk_Unknown (next_known : option N).

(** ** Blocks *)
Inductive BlockKind :=
  | Bk_Data (meta : BlockMeta) (discontinuity : bool)
  | Bk_Missing.
#[export] Instance BlockKind_eq_dec : EqDecision BlockKind.
Proof. solve_decision. Defined.

Record Block := mkBlock { b_first : N; b_end : N; b_kind : BlockKind }.

Record BlockIndex := mkIndex {
  bx_unit : N;
  bx_capacity : N;
  bx_max_blocks : nat;
  bx_blocks : list Block;
  bx_end : N;
  bx_floor : N;
}.

(** [while blocks.front().is_some_and(|b| b.end <= floor) { pop_front() }]. *)
Fixpoint drop_ended (floor : N) (blocks : list Block) : list Block :=
  match blocks with
  | b :: rest => if b_end b <=? floor then drop_ended floor rest else blocks
  | [] => []
  end.

(** The front block, cut at the floor. *)
Definition cut_front (unit floor : N) (blocks : list Block) : list Block :=
  match blocks with
  | b :: rest =>
      if b_first b <? floor then
        mkBlock floor (b_end b)
          match b_kind b with
          | Bk_Data meta _ => Bk_Data (advanced meta (floor - b_first b) unit) false
          | Bk_Missing => Bk_Missing
          end :: rest
      else blocks
  | [] => []
  end.

Definition raise_floor (x : BlockIndex) (floor : N) : BlockIndex :=
  if floor <=? bx_floor x then x
  else mkIndex (bx_unit x) (bx_capacity x) (bx_max_blocks x)
         (cut_front (bx_unit x) floor (drop_ended floor (bx_blocks x))) (bx_end x) floor.

Definition advance (x : BlockIndex) (end_ : N) : BlockIndex :=
  let e := N.max (bx_end x) end_ in
  raise_floor
    (mkIndex (bx_unit x) (bx_capacity x) (bx_max_blocks x) (bx_blocks x) e (bx_floor x))
    (e - bx_capacity x).

(** [while blocks.len() > max_blocks]: pops the oldest and raises the floor
    over it. *)
Fixpoint enforce_limit (max : nat) (floor : N) (blocks : list Block) : N * list Block :=
  match blocks with
  | oldest :: rest =>
      if (max <? length blocks)%nat then enforce_limit max (N.max floor (b_end oldest)) rest
      else (floor, blocks)
  | [] => (floor, [])
  end.

Definition enforce_block_limit (x : BlockIndex) : BlockIndex :=
  let '(floor, blocks) := enforce_limit (bx_max_blocks x) (bx_floor x) (bx_blocks x) in
  mkIndex (bx_unit x) (bx_capacity x) (bx_max_blocks x) blocks (bx_end x) floor.

Definition after_block (blocks : list Block) (pos : N) : nat :=
  partition_point (fun b => b_end b <=? pos) blocks.

(** The loop of [uncovered] from block [after(first)] on. *)
Fixpoint uncovered_from (cur end_ : N) (data_only : bool) (blocks : list Block) : list (N * N) :=
  match blocks with
  | b :: rest =>
      if end_ <=? b_first b then if cur <? end_ then [(cur, end_)] else []
      else if data_only && bool_decide (b_kind b = Bk_Missing) then
        uncovered_from cur end_ data_only rest
      else
        (if cur <? b_first b then [(cur, b_first b)] else [])
        ++ uncovered_from (N.max cur (b_end b)) end_ data_only rest
  | [] => if cur <? end_ then [(cur, end_)] else []
  end.

Definition uncovered (blocks : list Block) (first end_ : N) (data_only : bool) : list (N * N) :=
  uncovered_from first end_ data_only (drop (after_block blocks first) blocks).

(** [VecDeque::insert]. *)
Definition insert_block (block : Block) (blocks : list Block) : list Block :=
  insert_at (partition_point (fun b => b_first b <? b_first block) blocks) block blocks.

(** The loop of [cut_missing] on the suffix at its index: after a right piece
    is put back the next iteration finds it starting at [end_] and stops. *)
Fixpoint cut_from (first end_ : N) (blocks : list Block) : list Block :=
  match blocks with
  | b :: rest =>
      if end_ <=? b_first b then blocks
      else
        (if b_first b <? first then [mkBlock (b_first b) first (b_kind b)] else [])
        ++ (if end_ <? b_end b then mkBlock end_ (b_end b) (b_kind b) :: rest
            else cut_from first end_ rest)
  | [] => []
  end.

Definition cut_missing (first end_ : N) (blocks : list Block) : list Block :=
  let at_ := after_block blocks first in
  take at_ blocks ++ cut_from first end_ (drop at_ blocks).

Definition with_blocks (x : BlockIndex) (blocks : list Block) : BlockIndex :=
  mkIndex (bx_unit x) (bx_capacity x) (bx_max_blocks x) blocks (bx_end x) (bx_floor x).

(** One novel range of [insert_data]. *)
Definition data_block (unit first : N) (meta : BlockMeta) (discontinuity : bool) (r : N * N) : Block :=
  mkBlock r.1 r.2
    (Bk_Data (advanced meta (r.1 - first) unit) (discontinuity && (r.1 =? first))).

Definition put_data (unit first : N) (meta : BlockMeta) (discontinuity : bool)
    (blocks : list Block) (r : N * N) : list Block :=
  insert_block (data_block unit first meta discontinuity r) (cut_missing r.1 r.2 blocks).

(** Returns the index and the newly held ranges. *)
Definition insert_data (x : BlockIndex) (first end_ : N) (meta : BlockMeta) (discontinuity : bool) :
    BlockIndex * list (N * N) :=
  let x := advance x end_ in
  let from := N.max first (bx_floor x) in
  if end_ <=? from then (x, [])
  else
    let novel := uncovered (bx_blocks x) from end_ true in
    (enforce_block_limit
       (with_blocks x (foldl (put_data (bx_unit x) first meta discontinuity) (bx_blocks x) novel)),
     novel).

Definition put_missing (blocks : list Block) (r : N * N) : list Block :=
  insert_block (mkBlock r.1 r.2 Bk_Missing) blocks.

Definition insert_missing (x : BlockIndex) (first end_ : N) : BlockIndex :=
  let x := advance x end_ in
  let from := N.max first (bx_floor x) in
  if end_ <=? from then x
  else enforce_block_limit
         (with_blocks x (foldl put_missing (bx_blocks x) (uncovered (bx_blocks x) from end_ false))).

Definition index_lookup (x : BlockIndex) (pos : N) : Lookup :=
  if pos <? bx_floor x then Lk_Evicted (bx_floor x)
  else
    let next := bx_blocks x !! after_block (bx_blocks x) pos in
    match next with
    | Some b =>
        if b_first b <=? pos then
          match b_kind b with
          | Bk_Data meta discontinuity =>
              Lk_Data (b_end b) (advanced meta (pos - b_first b) (bx_unit x))
                (discontinuity && (pos =? b_first b))
          | Bk_Missing => Lk_Missing (b_end b)
          end
        else Lk_Unknown (Some (b_first b))
    | None => Lk_Unknown None
    end.

(** ** The meaning of a block list: what each record index holds *)
Inductive View := V_Data (meta : BlockMeta) (discontinuity : bool) | V_Missing.

Definition block_view (unit : N) (b : Block) (p : N) : View :=
  match b_kind b with
  | Bk_Data meta discontinuity =>
      V_Data (advanced meta (p - b_first b) unit) (discontinuity && (p =? b_first b))
  | Bk_Missing => V_Missing
  end.

Fixpoint view (unit : N) (blocks : list Block) (p : N) : option View :=
  match blocks with
  | b :: rest =>
      if p <? b_first b then None
      else if p <? b_end b then Some (block_view unit b p)
      else view unit rest p
  | [] => None
  end.

Definition index_view (x : BlockIndex) : N -> option View := view (bx_unit x) (bx_blocks x).

Definition is_data (v : option View) : bool :=
  match v with Some (V_Data _ _) => true | _ => false end.

(** Nonempty blocks, in order and disjoint, from [lo] to [hi]. *)
Fixpoint chain (lo : N) (blocks : list Block) (hi : N) : Prop :=
  match blocks with
  | b :: rest => lo <= b_first b /\ b_first b < b_end b /\ chain (b_end b) rest hi
  | [] => lo <= hi
  end.

Record index_wf (x : BlockIndex) : Prop := {
  ix_chain : chain (bx_floor x) (bx_blocks x) (bx_end x);
  ix_floor : bx_end x - bx_capacity x <= bx_floor x;
  ix_blocks : (length (bx_blocks x) <= bx_max_blocks x)%nat;
  ix_unit : bx_unit x <> 0;
  ix_capacity : 1 <= bx_capacity x;
  ix_max : (1 <= bx_max_blocks x)%nat;
}.

(** ** Chains *)
Lemma advanced_add m a b unit : advanced (advanced m a unit) b unit = advanced m (a + b) unit.
Proof. unfold advanced. cbn. f_equal. apply sat_add64_mul_assoc. Qed.

Lemma advanced_0 m unit : bm_mono_ns m <= u64_max -> advanced m 0 unit = m.
Proof.
  destruct m as [f n u s]. unfold advanced, sat_add64, sat_mul64. cbn. intros H. f_equal. lia.
Qed.

Lemma chain_le lo bs hi : chain lo bs hi -> lo <= hi.
Proof.
  revert lo. induction bs as [|b bs IH]; intros lo; cbn; [done|].
  intros (? & ? & ?%IH). lia.
Qed.

Lemma chain_lo lo lo' bs hi : chain lo bs hi -> lo' <= lo -> chain lo' bs hi.
Proof. destruct bs as [|b bs]; cbn; [lia|]. intros (? & ? & ?) ?. split_and!; [lia|done|done]. Qed.

Lemma chain_hi lo bs hi hi' : chain lo bs hi -> hi <= hi' -> chain lo bs hi'.
Proof.
  revert lo. induction bs as [|b bs IH]; intros lo; cbn; [lia|].
  intros (? & ? & ?) ?. split_and!; [done|done|by apply IH].
Qed.

Lemma view_below unit lo bs hi p : chain lo bs hi -> p < lo -> view unit bs p = None.
Proof.
  destruct bs as [|b bs]; cbn; [done|]. intros (? & ? & ?) ?.
  by destruct (N.ltb_spec p (b_first b)); [|lia].
Qed.

Lemma view_above unit lo bs hi p : chain lo bs hi -> hi <= p -> view unit bs p = None.
Proof.
  revert lo. induction bs as [|b bs IH]; intros lo; cbn; [done|]. intros (? & ? & Hc) ?.
  destruct (N.ltb_spec p (b_first b)); [done|]. pose proof (chain_le _ _ _ Hc).
  destruct (N.ltb_spec p (b_end b)); [lia|]. by eapply IH.
Qed.

Lemma view_bounds unit lo bs hi p v : chain lo bs hi -> view unit bs p = Some v -> lo <= p < hi.
Proof.
  intros Hc Hv. destruct (N.lt_ge_cases p lo) as [H|H].
  { by rewrite (view_below _ _ _ _ _ Hc H) in Hv. }
  destruct (N.lt_ge_cases p hi) as [H'|H']; [lia|].
  by rewrite (view_above _ _ _ _ _ Hc H') in Hv.
Qed.

(** The view of the head block, and past it. *)
Lemma view_head unit b bs p :
  b_first b <= p < b_end b -> view unit (b :: bs) p = Some (block_view unit b p).
Proof.
  intros H. cbn. destruct (N.ltb_spec p (b_first b)); [lia|].
  by destruct (N.ltb_spec p (b_end b)); [|lia].
Qed.

Lemma view_tail unit b bs hi p :
  chain (b_end b) bs hi -> b_first b <= b_end b -> ~ (b_first b <= p < b_end b) ->
  view unit (b :: bs) p = view unit bs p.
Proof.
  intros Hc Hb H. cbn. destruct (N.ltb_spec p (b_first b)) as [Hl|Hl].
  - symmetry. apply (view_below _ _ _ _ _ Hc). lia.
  - by destruct (N.ltb_spec p (b_end b)); [lia|].
Qed.

(** ** Raising the floor *)
Lemma drop_ended_chain floor lo bs hi :
  chain lo bs hi -> chain lo (drop_ended floor bs) hi.
Proof.
  revert lo. induction bs as [|b bs IH]; intros lo; cbn; [done|]. intros (? & ? & Hc).
  destruct (N.leb_spec (b_end b) floor); [|done].
  apply (chain_lo (b_end b)); [by apply IH|lia].
Qed.

Lemma drop_ended_head floor bs b rest : drop_ended floor bs = b :: rest -> floor < b_end b.
Proof.
  induction bs as [|b' bs IH]; cbn; [done|].
  destruct (N.leb_spec (b_end b') floor); [done|]. by intros [= <- <-].
Qed.

Lemma drop_ended_view unit floor lo bs hi p :
  chain lo bs hi -> floor <= p -> view unit (drop_ended floor bs) p = view unit bs p.
Proof.
  revert lo. induction bs as [|b bs IH]; intros lo; cbn [drop_ended chain]; [done|].
  intros (? & ? & Hc) Hp. destruct (N.leb_spec (b_end b) floor); [|done].
  rewrite (IH _ Hc Hp). symmetry. apply (view_tail _ _ _ hi); [done|lia|lia].
Qed.

Lemma drop_ended_length floor bs : (length (drop_ended floor bs) <= length bs)%nat.
Proof.
  induction bs as [|b bs IH]; cbn; [done|]. destruct (_ <=? _); cbn; lia.
Qed.

Lemma cut_front_chain unit floor lo bs hi :
  chain lo bs hi -> (forall b rest, bs = b :: rest -> floor < b_end b) -> floor <= hi ->
  chain floor (cut_front unit floor bs) hi.
Proof.
  destruct bs as [|b bs]; cbn; [done|]. intros (? & ? & Hc) Hb Hf.
  specialize (Hb _ _ eq_refl). destruct (N.ltb_spec (b_first b) floor); cbn; split_and!; done || lia.
Qed.

Lemma cut_front_view unit floor lo bs hi p :
  chain lo bs hi -> (forall b rest, bs = b :: rest -> floor < b_end b) -> floor <= p ->
  view unit (cut_front unit floor bs) p = view unit bs p.
Proof.
  destruct bs as [|b bs]; cbn [cut_front chain]; [done|]. intros (? & ? & Hc) Hb Hp.
  specialize (Hb _ _ eq_refl). destruct (N.ltb_spec (b_first b) floor); [|done].
  cbn. destruct (N.ltb_spec p floor); [lia|]. destruct (N.ltb_spec p (b_first b)); [lia|].
  destruct (N.ltb_spec p (b_end b)); [|done]. f_equal. unfold block_view. cbn.
  destruct (b_kind b) as [m d|]; cbn; [|done]. rewrite advanced_add. f_equal; [f_equal; lia|].
  rewrite (proj2 (N.eqb_neq p (b_first b))) by lia. by rewrite andb_false_r.
Qed.

Lemma cut_front_length unit floor bs : length (cut_front unit floor bs) = length bs.
Proof. destruct bs; cbn; [done|]. by destruct (_ <? _). Qed.

(** What a step that only forgets leaves: everything from the new floor on. *)
Definition forgets (x x' : BlockIndex) : Prop :=
  bx_floor x <= bx_floor x' /\
  forall p, index_view x' p = if p <? bx_floor x' then None else index_view x p.

Definition same_shape (x x' : BlockIndex) : Prop :=
  bx_unit x' = bx_unit x /\ bx_capacity x' = bx_capacity x /\ bx_max_blocks x' = bx_max_blocks x.

(** The invariant without its length bound and with [end] moved ahead of the
    floor, as it is inside an operation. *)
Definition index_pre (x : BlockIndex) : Prop :=
  chain (bx_floor x) (bx_blocks x) (bx_end x) /\ bx_unit x <> 0 /\ 1 <= bx_capacity x /\
  (1 <= bx_max_blocks x)%nat.

Lemma raise_floor_spec x floor :
  index_pre x -> floor <= bx_end x ->
  index_pre (raise_floor x floor) /\ forgets x (raise_floor x floor) /\
  same_shape x (raise_floor x floor) /\ bx_end (raise_floor x floor) = bx_end x /\
  bx_floor (raise_floor x floor) = N.max floor (bx_floor x) /\
  (length (bx_blocks (raise_floor x floor)) <= length (bx_blocks x))%nat.
Proof.
  intros (Hc & Hu & Hcap & Hm) Hf. unfold raise_floor, forgets, same_shape, index_pre, index_view.
  destruct (N.leb_spec floor (bx_floor x)).
  { split_and!; try done; try lia. intros p. destruct (N.ltb_spec p (bx_floor x)); [|done].
    by apply (view_below _ _ _ _ _ Hc). }
  pose proof (drop_ended_chain floor _ _ _ Hc) as Hd.
  pose proof (drop_ended_head floor (bx_blocks x)) as Hh. cbn.
  split_and!; try done; try lia.
  - by apply (cut_front_chain _ _ (bx_floor x)).
  - intros p. destruct (N.ltb_spec p floor).
    + eapply view_below; [|done]. by apply (cut_front_chain _ _ (bx_floor x)).
    + rewrite (cut_front_view _ _ _ _ _ _ Hd Hh) by done. by eapply drop_ended_view.
  - rewrite cut_front_length. apply drop_ended_length.
Qed.

Lemma advance_spec x end_ :
  index_wf x ->
  index_wf (advance x end_) /\ forgets x (advance x end_) /\ same_shape x (advance x end_) /\
  bx_end (advance x end_) = N.max (bx_end x) end_.
Proof.
  intros [Hc Hf Hb Hu Hcap Hm]. unfold advance.
  set (e := N.max (bx_end x) end_). set (y := mkIndex _ _ _ _ e _).
  assert (Hy : index_pre y).
  { split_and!; try done. eapply chain_hi; [exact Hc|apply N.le_max_l]. }
  destruct (raise_floor_spec y (e - bx_capacity x) Hy ltac:(apply N.le_sub_l))
    as ((Hc' & _) & Hg & (Hs1 & Hs2 & Hs3) & He & Hfl & Hlen).
  cbn in *. split_and!; try done.
  - split; rewrite ?Hs1, ?Hs2, ?Hs3; try done; [rewrite He, Hfl; subst e; lia|subst y; cbn in *; lia].
Qed.

(** ** The block limit *)
Lemma enforce_limit_spec unit max floor bs hi :
  chain floor bs hi ->
  let '(floor', bs') := enforce_limit max floor bs in
  floor <= floor' /\ chain floor' bs' hi /\ (length bs' <= max)%nat /\
  forall p, view unit bs' p = if p <? floor' then None else view unit bs p.
Proof.
  revert floor. induction bs as [|b bs IH]; intros floor Hc; cbn [enforce_limit].
  { split_and!; [done|done|cbn; lia|]. intros p. by destruct (_ <? _). }
  destruct (Nat.ltb_spec max (length (b :: bs))) as [Hlt|Hge].
  - destruct Hc as (H1 & H2 & Hc).
    specialize (IH (N.max floor (b_end b)) ltac:(replace (N.max floor (b_end b)) with (b_end b) by lia; done)).
    destruct (enforce_limit max _ bs) as [floor' bs']. destruct IH as (Hf & Hc' & Hl & Hv).
    split_and!; [lia|done|done|]. intros p. rewrite Hv. destruct (N.ltb_spec p floor'); [done|].
    symmetry. apply (view_tail _ _ _ hi); [done|lia|lia].
  - split_and!; [done|done|done|]. intros p. destruct (N.ltb_spec p floor); [|done].
    by apply (view_below _ _ _ _ _ Hc).
Qed.

Lemma enforce_block_limit_spec x :
  index_pre x -> bx_end x - bx_capacity x <= bx_floor x ->
  index_wf (enforce_block_limit x) /\ forgets x (enforce_block_limit x) /\
  same_shape x (enforce_block_limit x) /\ bx_end (enforce_block_limit x) = bx_end x.
Proof.
  intros (Hc & Hu & Hcap & Hm) Hf. unfold enforce_block_limit.
  pose proof (enforce_limit_spec (bx_unit x) (bx_max_blocks x) _ _ _ Hc) as H.
  destruct (enforce_limit _ _ _) as [floor bs]. destruct H as (Hfl & Hc' & Hl & Hv).
  split_and!; try done. split; cbn; done || lia.
Qed.

(** ** Suffixes: the blocks from [after(pos)] on *)
Lemma drop_after pos bs : drop (after_block bs pos) bs = drop_ended pos bs.
Proof.
  unfold after_block. induction bs as [|b bs IH]; cbn; [done|]. by destruct (b_end b <=? pos).
Qed.

(** ** The uncovered parts of a range *)
Definition in_range (r : N * N) (p : N) : bool := (r.1 <=? p) && (p <? r.2).
Definition in_ranges (rs : list (N * N)) (p : N) : bool := any (fun r => in_range r p) rs.

Fixpoint ranges_wf (lo : N) (rs : list (N * N)) (hi : N) : Prop :=
  match rs with
  | (a, b) :: rs => lo <= a /\ a < b /\ b <= hi /\ ranges_wf b rs hi
  | [] => True
  end.

Definition covered (data_only : bool) (v : option View) : bool :=
  match v with Some (V_Data _ _) => true | Some V_Missing => negb data_only | None => false end.

Lemma in_range_true r p : in_range r p = true <-> r.1 <= p < r.2.
Proof. unfold in_range. rewrite andb_true_iff, N.leb_le, N.ltb_lt. lia. Qed.

Lemma ranges_wf_lo lo lo' rs hi : ranges_wf lo rs hi -> lo' <= lo -> ranges_wf lo' rs hi.
Proof. destruct rs as [|[a b] rs]; cbn; [done|]. intros (? & ? & ? & ?) ?. split_and!; done || lia. Qed.

Lemma ranges_wf_in lo rs hi p : ranges_wf lo rs hi -> in_ranges rs p = true -> lo <= p < hi.
Proof.
  revert lo. induction rs as [|[a b] rs IH]; intros lo; cbn; [done|].
  intros (? & ? & ? & Hr). rewrite orb_true_iff. intros [H'|H'].
  - apply in_range_true in H'. cbn in H'. lia.
  - specialize (IH _ Hr H'). lia.
Qed.

(** The range from [c] on. *)
Lemma last_range_spec end_ c :
  ranges_wf c (if c <? end_ then [(c, end_)] else []) end_ /\
  forall p, in_ranges (if c <? end_ then [(c, end_)] else []) p = (c <=? p) && (p <? end_).
Proof.
  destruct (N.ltb_spec c end_); cbn.
  - split; [split_and!; done|]. intros p. unfold in_range. cbn. by rewrite orb_false_r.
  - split; [done|]. intros p. destruct (N.leb_spec c p), (N.ltb_spec p end_); cbn; try done; exfalso; lia.
Qed.

Lemma uncovered_from_spec unit data_only end_ lo bs hi cur :
  chain lo bs hi ->
  ranges_wf cur (uncovered_from cur end_ data_only bs) end_ /\
  (forall p, in_ranges (uncovered_from cur end_ data_only bs) p
    = (cur <=? p) && (p <? end_) && negb (covered data_only (view unit bs p))).
Proof.
  pose proof (last_range_spec end_) as Htail.
  revert lo cur. induction bs as [|b bs IH]; intros lo cur Hc; cbn [uncovered_from].
  { destruct (Htail cur) as [H1 H2]. split; [done|]. intros p. rewrite H2. cbn. by rewrite andb_true_r. }
  destruct Hc as (H1 & H2 & Hc). destruct (N.leb_spec end_ (b_first b)).
  { destruct (Htail cur) as [H3 H4]. split; [done|]. intros p. rewrite H4. cbn.
    destruct (N.ltb_spec p end_); [|by rewrite andb_false_r].
    destruct (N.ltb_spec p (b_first b)); [|lia]. by rewrite !andb_true_r. }
  destruct (data_only && bool_decide (b_kind b = Bk_Missing)) eqn:Em.
  { apply andb_true_iff in Em as [-> Hk%bool_decide_eq_true].
    destruct (IH _ cur Hc) as [H3 H4]. split; [done|]. intros p. rewrite H4. f_equal. f_equal.
    destruct (decide (b_first b <= p < b_end b)) as [Hin|Hout].
    - rewrite (view_head _ _ _ _ Hin), (view_below _ _ _ _ p Hc) by lia.
      unfold block_view. by rewrite Hk.
    - by rewrite (view_tail _ _ _ _ _ Hc) by (done || lia). }
  assert (Hcov : covered data_only (Some (block_view unit b cur)) = true /\
    forall p, covered data_only (Some (block_view unit b p)) = true).
  { unfold block_view. destruct (b_kind b); cbn; [done|]. destruct data_only; [|done].
    by rewrite bool_decide_eq_true_2 in Em. }
  destruct Hcov as [_ Hcov]. destruct (IH _ (N.max cur (b_end b)) Hc) as [H3 H4]. split.
  - destruct (N.ltb_spec cur (b_first b)); cbn; [split_and!; try lia|];
(eapply ranges_wf_lo; [exact H3|lia]).
  - intros p. unfold in_ranges, any in *. rewrite existsb_app, H4. clear H3 H4 IH.
    assert (Hhd : existsb (fun r => in_range r p) (if cur <? b_first b then [(cur, b_first b)] else [])
                  = (cur <=? p) && (p <? b_first b)).
    { destruct (N.ltb_spec cur (b_first b)); cbn; [by rewrite orb_false_r|].
      destruct (N.leb_spec cur p), (N.ltb_spec p (b_first b)); cbn; try done; exfalso; lia. }
    rewrite Hhd. destruct (decide (b_first b <= p < b_end b)) as [Hin|Hout].
    + rewrite (view_head _ _ _ _ Hin), Hcov, andb_false_r.
      destruct (N.ltb_spec p (b_first b)); [lia|]. rewrite andb_false_r. cbn.
      by rewrite (proj2 (N.leb_gt _ _)) by lia.
    + rewrite (view_tail _ _ _ _ _ Hc) by (done || lia).
      destruct (N.ltb_spec p (b_first b)) as [Hl|Hl].
      * rewrite (view_below _ _ _ _ p Hc) by lia.
        rewrite (proj2 (N.leb_gt (N.max cur (b_end b)) p)) by lia.
        rewrite (proj2 (N.ltb_lt p end_)) by lia. cbn. by rewrite ?andb_true_r, ?orb_false_r, ?andb_true_r.
      * rewrite andb_false_r. cbn. f_equal. f_equal.
        destruct (N.leb_spec (N.max cur (b_end b)) p), (N.leb_spec cur p); try done; exfalso; lia.
Qed.

Lemma uncovered_spec unit lo bs hi first end_ data_only :
  chain lo bs hi ->
  ranges_wf first (uncovered bs first end_ data_only) end_ /\
  (forall p, in_ranges (uncovered bs first end_ data_only) p
    = (first <=? p) && (p <? end_) && negb (covered data_only (view unit bs p))).
Proof.
  intros Hc. unfold uncovered. rewrite drop_after.
  pose proof (drop_ended_chain first _ _ _ Hc) as Hd.
  destruct (uncovered_from_spec unit data_only end_ _ _ _ first Hd) as [H1 H2].
  split; [done|]. intros p. rewrite H2. destruct (N.leb_spec first p); [|done].
  by rewrite (drop_ended_view _ _ _ _ _ _ Hc).
Qed.

(** ** Inserting a block into free space *)
Lemma insert_block_cons blk b bs :
  insert_block blk (b :: bs) =
  if b_first b <? b_first blk then b :: insert_block blk bs else blk :: b :: bs.
Proof. unfold insert_block. cbn. by destruct (b_first b <? b_first blk). Qed.

Lemma insert_block_spec unit blk lo bs hi :
  chain lo bs hi -> lo <= b_first blk -> b_first blk < b_end blk -> b_end blk <= hi ->
  (forall p, b_first blk <= p < b_end blk -> view unit bs p = None) ->
  chain lo (insert_block blk bs) hi /\
  forall p, view unit (insert_block blk bs) p =
    if in_range (b_first blk, b_end blk) p then Some (block_view unit blk p) else view unit bs p.
Proof.
  intros Hc Hlo Hb Hhi. revert lo Hc Hlo. induction bs as [|b bs IH]; intros lo Hc Hlo Hfree.
  - split; [cbn in *; lia|]. intros p. unfold in_range. cbn.
    destruct (N.ltb_spec p (b_first blk)), (N.leb_spec (b_first blk) p); cbn; (done || lia).
  - rewrite insert_block_cons. destruct Hc as (H1 & H2 & Hc).
    assert (Hnc : forall p, b_first blk <= p < b_end blk -> ~ (b_first b <= p < b_end b)).
    { intros p Hp Hin. specialize (Hfree _ Hp). by rewrite view_head in Hfree. }
    destruct (N.ltb_spec (b_first b) (b_first blk)) as [Hlt|Hge].
    + assert (b_end b <= b_first blk).
      { destruct (N.le_gt_cases (b_end b) (b_first blk)); [done|].
        exfalso. apply (Hnc (b_first blk)); lia. }
      destruct (IH _ Hc) as [Hc' Hv]; [lia| |].
      { intros p Hp. rewrite <- (Hfree p Hp). symmetry. apply (view_tail _ _ _ hi); [done|lia|lia]. }
      split; [done|]. intros p. cbn. rewrite Hv.
      destruct (in_range _ p) eqn:E; [|done]. apply in_range_true in E. cbn in E.
      destruct (N.ltb_spec p (b_first b)); [lia|]. by destruct (N.ltb_spec p (b_end b)); [lia|].
    + assert (b_end blk <= b_first b).
      { destruct (N.le_gt_cases (b_end blk) (b_first b)); [done|].
        exfalso. apply (Hnc (b_first b)); lia. }
      split; [done|]. intros p. destruct (in_range _ p) eqn:E.
      * apply in_range_true in E. by apply view_head.
      * apply (view_tail _ _ _ hi); [cbn; done|lia|].
        intros Hin. by rewrite (proj2 (in_range_true (b_first blk, b_end blk) p) Hin) in E.
Qed.

(** ** Cutting missing marks *)
Lemma cut_missing_cons a e b bs :
  cut_missing a e (b :: bs) =
  if b_end b <=? a then b :: cut_missing a e bs else cut_from a e (b :: bs).
Proof. unfold cut_missing, after_block. cbn [partition_point]. by destruct (b_end b <=? a). Qed.

Lemma view_missing_const unit b p q :
  block_view unit b p = V_Missing -> block_view unit b q = V_Missing.
Proof. unfold block_view. by destruct (b_kind b). Qed.

Lemma view_cons_piece unit f e k bs hi p :
  chain e bs hi -> f < e ->
  view unit (mkBlock f e k :: bs) p =
  if in_range (f, e) p then Some (block_view unit (mkBlock f e k) p) else view unit bs p.
Proof.
  intros Hc Hfe. destruct (in_range (f, e) p) eqn:E.
  - apply in_range_true in E. by apply view_head.
  - apply (view_tail _ _ _ hi); [done|cbn; lia|]. cbn. intros Hin.
    by rewrite (proj2 (in_range_true (f, e) p) Hin) in E.
Qed.

Section cut.
Context (unit a e hi : N) (b : Block) (bs : list Block).
Hypotheses (Hae : a < e) (Hend : a < b_end b) (Hf : b_first b < e) (Hwf : b_first b < b_end b)
  (Hc : chain (b_end b) bs hi) (Hk : b_kind b = Bk_Missing).

(** What must be left of the positions from the cut on. *)
Definition cut_rest (bs' : list Block) : Prop :=
  forall p, view unit bs' p = if p <? N.max a (b_first b) then None
    else if in_range (a, e) p then None else view unit (b :: bs) p.

Lemma missing_view q : block_view unit b q = V_Missing.
Proof using Hk. unfold block_view. by rewrite Hk. Qed.

(** The block reaches past the cut, which leaves its end. *)
Lemma cut_rest_short : e < b_end b -> cut_rest (mkBlock e (b_end b) (b_kind b) :: bs).
Proof using Hae Hend Hf Hwf Hc Hk.
  intros Hlt p. rewrite (view_cons_piece _ _ _ _ _ hi) by done.
  destruct (N.ltb_spec p (N.max a (b_first b))) as [Hp|Hp].
  { destruct (in_range (e, b_end b) p) eqn:E; [apply in_range_true in E; cbn in *; lia|].
    apply (view_below _ _ _ _ _ Hc). lia. }
  destruct (in_range (a, e) p) eqn:E.
  { apply in_range_true in E. cbn in E.
    destruct (in_range (e, b_end b) p) eqn:E'; [apply in_range_true in E'; cbn in *; lia|].
    apply (view_below _ _ _ _ _ Hc). lia. }
  destruct (in_range (e, b_end b) p) eqn:E'.
  { apply in_range_true in E'. cbn in E'. rewrite view_head, missing_view by lia.
    unfold block_view. cbn. by rewrite Hk. }
  symmetry. apply (view_tail _ _ _ hi); [done|lia|]. intros Hin.
  assert (~ (a <= p < e)) by (intros Hx; by rewrite (proj2 (in_range_true (a, e) p) Hx) in E).
  assert (~ (e <= p < b_end b)) by (intros Hx; by rewrite (proj2 (in_range_true (e, b_end b) p) Hx) in E').
  lia.
Qed.

(** The cut takes the block's end and goes on behind it. *)
Lemma cut_rest_long bs' :
  b_end b <= e -> (forall p, view unit bs' p = if in_range (a, e) p then None else view unit bs p) -> cut_rest bs'.
Proof using Hae Hend Hf Hwf Hc Hk.
  intros Hge Hv p. rewrite Hv. destruct (N.ltb_spec p (N.max a (b_first b))).
  { destruct (in_range _ _); [done|]. apply (view_below _ _ _ _ _ Hc). lia. }
  destruct (in_range (a, e) p) eqn:E; [done|]. symmetry.
  apply (view_tail _ _ _ hi); [done|lia|]. intros Hin.
  rewrite (proj2 (in_range_true (a, e) p)) in E; [done|cbn; lia].
Qed.

(** The block's start stays before what is left. *)
Lemma cut_head lo bs' :
  lo <= b_first b -> chain (N.min e (b_end b)) bs' hi -> cut_rest bs' ->
  let cut := (if b_first b <? a then [mkBlock (b_first b) a (b_kind b)] else []) ++ bs' in
  chain lo cut hi /\ forall p, view unit cut p = if in_range (a, e) p then None else view unit (b :: bs) p.
Proof using Hae Hend Hf Hwf Hc Hk.
  intros Hlo Hc' Hv. assert (Hbelow : forall p, p < b_first b ->
    None = if in_range (a, e) p then None else view unit (b :: bs) p).
  { intros p Hp. destruct (in_range _ _); [done|]. cbn. by destruct (N.ltb_spec p (b_first b)); [|lia]. }
  destruct (N.ltb_spec (b_first b) a) as [Hlt|Hge]; cbn [app].
  - split; [cbn; split_and!; [done|done|]; eapply chain_lo; [exact Hc'|lia]|].
    intros p. rewrite (view_cons_piece _ _ _ _ _ hi) by (done || (eapply chain_lo; [exact Hc'|lia])).
    destruct (in_range (b_first b, a) p) eqn:E.
    + apply in_range_true in E. cbn in E. rewrite view_head, missing_view by lia.
      destruct (in_range (a, e) p) eqn:E'; [apply in_range_true in E'; cbn in *; lia|].
      unfold block_view. cbn. by rewrite Hk.
    + rewrite Hv. destruct (N.ltb_spec p (N.max a (b_first b))); [|done].
      assert (~ (b_first b <= p < a)) by (intros Hx; by rewrite (proj2 (in_range_true (b_first b, a) p) Hx) in E).
      apply Hbelow. lia.
  - split; [eapply chain_lo; [exact Hc'|lia]|]. intros p. rewrite Hv.
    destruct (N.ltb_spec p (N.max a (b_first b))); [|done]. apply Hbelow. lia.
Qed.
End cut.

Lemma cut_from_spec unit a e lo bs hi :
  chain lo bs hi -> a < e -> e <= hi -> (forall b rest, bs = b :: rest -> a < b_end b) ->
  (forall p, a <= p < e -> is_data (view unit bs p) = false) ->
  chain lo (cut_from a e bs) hi /\
  forall p, view unit (cut_from a e bs) p = if in_range (a, e) p then None else view unit bs p.
Proof.
  intros Hc Hae Hehi. revert lo Hc. induction bs as [|b bs IH]; intros lo Hc Hend Hnd.
  { split; [done|]. intros p. cbn. by destruct (in_range _ _). }
  destruct Hc as (H1 & H2 & Hc). specialize (Hend _ _ eq_refl). cbn [cut_from].
  destruct (N.leb_spec e (b_first b)) as [Hf|Hf].
  { split; [done|]. intros p. destruct (in_range (a, e) p) eqn:E; [|done].
    apply in_range_true in E. cbn in *. by destruct (N.ltb_spec p (b_first b)); [|lia]. }
  assert (Hk : b_kind b = Bk_Missing).
  { specialize (Hnd (N.max a (b_first b)) ltac:(lia)). rewrite view_head in Hnd by lia.
    unfold block_view in Hnd. by destruct (b_kind b). }
  destruct (N.ltb_spec e (b_end b)) as [Hlt|Hge].
  - apply cut_head; try done; [|by apply (cut_rest_short unit a e hi)].
    replace (N.min e (b_end b)) with e by lia. cbn. split_and!; [lia|done|done].
  - destruct (IH _ Hc) as [Hc' Hv].
    + intros b' rest ->. cbn in Hc. lia.
    + intros p Hp. destruct (decide (b_first b <= p < b_end b)) as [Hin|Hout].
      * by rewrite (view_below _ _ _ _ p Hc) by lia.
      * rewrite <- (view_tail unit b bs hi p) by (done || lia). by apply Hnd.
    + apply cut_head; try done; [|by apply (cut_rest_long unit a e hi)].
      by replace (N.min e (b_end b)) with (b_end b) by lia.
Qed.

Lemma cut_missing_spec unit a e lo bs hi :
  chain lo bs hi -> a < e -> e <= hi ->
  (forall p, a <= p < e -> is_data (view unit bs p) = false) ->
  chain lo (cut_missing a e bs) hi /\
  forall p, view unit (cut_missing a e bs) p = if in_range (a, e) p then None else view unit bs p.
Proof.
  intros Hc Hae Hehi. revert lo Hc. induction bs as [|b bs IH]; intros lo Hc Hnd.
  { split; [done|]. intros p. cbn. by destruct (in_range _ _). }
  rewrite cut_missing_cons. destruct (N.leb_spec (b_end b) a) as [Hle|Hgt].
  - destruct Hc as (H1 & H2 & Hc).
    destruct (IH _ Hc) as [Hc' Hv].
    { intros p Hp. rewrite <- (view_tail unit b bs hi p) by (done || lia). by apply Hnd. }
    split; [done|]. intros p. cbn [view]. rewrite Hv.
    destruct (in_range (a, e) p) eqn:E; [|done]. apply in_range_true in E. cbn in E.
    destruct (N.ltb_spec p (b_first b)); [done|]. by destruct (N.ltb_spec p (b_end b)); [lia|].
  - apply cut_from_spec; try done. by intros ? ? [= <- <-].
Qed.

(** ** Adding the novel ranges *)
Definition data_view (unit first : N) (meta : BlockMeta) (discontinuity : bool) (p : N) : View :=
  V_Data (advanced meta (p - first) unit) (discontinuity && (p =? first)).

Lemma put_data_spec unit first meta d r lo bs hi :
  chain lo bs hi -> first <= r.1 -> lo <= r.1 -> r.1 < r.2 -> r.2 <= hi ->
  (forall p, r.1 <= p < r.2 -> is_data (view unit bs p) = false) ->
  chain lo (put_data unit first meta d bs r) hi /\
  forall p, view unit (put_data unit first meta d bs r) p =
    if in_range r p then Some (data_view unit first meta d p) else view unit bs p.
Proof.
  destruct r as [a e]. cbn [fst snd]. intros Hc Hfa Hla Hae Hehi Hnd. unfold put_data. cbn [fst snd].
  destruct (cut_missing_spec unit a e lo bs hi Hc Hae Hehi Hnd) as [Hc' Hv'].
  destruct (insert_block_spec unit (data_block unit first meta d (a, e)) lo (cut_missing a e bs) hi)
    as [Hc'' Hv'']; try done.
  { intros p Hp. rewrite Hv'. by rewrite (proj2 (in_range_true (a, e) p)). }
  split; [done|]. intros p. rewrite Hv'', Hv'. cbn [b_first b_end data_block fst snd].
  destruct (in_range (a, e) p) eqn:E; [|done]. apply in_range_true in E. cbn in E.
  unfold block_view, data_view. cbn. rewrite advanced_add.
  replace (a - first + (p - a)) with (p - first) by lia. do 2 f_equal.
  destruct d; cbn; [|done].
  destruct (N.eqb_spec p first), (N.eqb_spec a first), (N.eqb_spec p a); cbn; done || lia.
Qed.

Lemma put_missing_spec unit r lo bs hi :
  chain lo bs hi -> lo <= r.1 -> r.1 < r.2 -> r.2 <= hi ->
  (forall p, r.1 <= p < r.2 -> view unit bs p = None) ->
  chain lo (put_missing bs r) hi /\
  forall p, view unit (put_missing bs r) p =
    if in_range r p then Some V_Missing else view unit bs p.
Proof.
  destruct r as [a e]. cbn [fst snd]. intros Hc Hla Hae Hehi Hfree.
  destruct (insert_block_spec unit (mkBlock a e Bk_Missing) lo bs hi) as [Hc' Hv']; try done.
Qed.

(** A fold of [put] over ordered ranges that are free when it starts. *)
Section put_ranges.
Context (unit : N) (put : list Block -> N * N -> list Block) (new : N -> View)
  (free : option View -> bool) (first hi lo : N).
Hypothesis put_spec : forall r bs,
  chain lo bs hi -> first <= r.1 -> r.1 < r.2 -> r.2 <= hi ->
  (forall p, r.1 <= p < r.2 -> free (view unit bs p) = true) ->
  chain lo (put bs r) hi /\
  forall p, view unit (put bs r) p = if in_range r p then Some (new p) else view unit bs p.

Lemma put_ranges_spec from rs end_ bs :
  chain lo bs hi -> first <= from -> ranges_wf from rs end_ -> end_ <= hi ->
  (forall p, in_ranges rs p = true -> free (view unit bs p) = true) ->
  chain lo (foldl put bs rs) hi /\
  forall p, view unit (foldl put bs rs) p =
    if in_ranges rs p then Some (new p) else view unit bs p.
Proof.
  revert from bs. induction rs as [|[a e] rs IH]; intros from bs Hc Hf Hr He Hfree; [done|].
  destruct Hr as (H1 & H2 & H3 & Hr). cbn [foldl].
  destruct (put_spec (a, e) bs) as [Hc' Hv']; try done; cbn; try lia.
  { intros p Hp. apply Hfree. cbn. by rewrite (proj2 (in_range_true (a, e) p)). }
  destruct (IH e (put bs (a, e)) Hc') as [Hc'' Hv'']; try done; try lia.
  { intros p Hp. rewrite Hv'. pose proof (ranges_wf_in _ _ _ _ Hr Hp).
    destruct (in_range (a, e) p) eqn:E; [apply in_range_true in E; cbn in E; lia|].
    apply Hfree. cbn. by rewrite E. }
  split; [done|]. intros p. rewrite Hv'', Hv'. unfold in_ranges, any. cbn.
  destruct (in_range (a, e) p), (existsb _ rs); done.
Qed.
End put_ranges.

(** ** The operations as functions of the view *)

(** What position [p] holds after data [[first, end_)] arrives: the first copy
    of a position wins, and only a missing mark or nothing gives way. *)
Definition view_insert_data (old : option View) (floor unit first end_ : N) (meta : BlockMeta)
    (discontinuity : bool) (p : N) : option View :=
  if p <? floor then None
  else if is_data old then old
  else if (first <=? p) && (p <? end_) then Some (data_view unit first meta discontinuity p)
  else old.

(** After a missing report: it marks only what nothing is known about. *)
Definition view_insert_missing (old : option View) (floor first end_ p : N) : option View :=
  if p <? floor then None
  else match old with
  | Some v => Some v
  | None => if (first <=? p) && (p <? end_) then Some V_Missing else None
  end.

(** The ranges a packet newly fills. *)
Definition novel_at (x x1 : BlockIndex) (first end_ p : N) : bool :=
  (N.max first (bx_floor x1) <=? p) && (p <? end_) && negb (is_data (index_view x p)).

Lemma covered_data v : covered true v = is_data v.
Proof. by destruct v as [[]|]. Qed.

Lemma index_wf_pre x : index_wf x -> index_pre x.
Proof. by intros [? ? ? ? ? ?]. Qed.

Lemma insert_data_spec x first end_ meta d :
  index_wf x ->
  let '(x', novel) := insert_data x first end_ meta d in
  index_wf x' /\ same_shape x x' /\
  bx_floor x <= bx_floor (advance x end_) <= bx_floor x' /\
  bx_end x' = N.max (bx_end x) end_ /\
  (forall p, index_view x' p =
    view_insert_data (index_view x p) (bx_floor x') (bx_unit x) first end_ meta d p) /\
  ranges_wf (N.max first (bx_floor (advance x end_))) novel end_ /\
  forall p, in_ranges novel p = novel_at x (advance x end_) first end_ p.
Proof.
  intros Hwf. unfold insert_data.
  destruct (advance_spec x end_ Hwf) as (Hwf1 & [Hfl Hv] & Hs & He).
  revert Hwf1 Hfl Hv Hs He. generalize (advance x end_). intros x1 Hwf1 Hfl Hv Hs He.
  pose proof Hs as (Hs1 & Hs2 & Hs3).
  set (from := N.max first (bx_floor x1)). unfold view_insert_data, novel_at. fold from.
  destruct (N.leb_spec end_ from) as [Hempty|Hfrom].
  { split_and!; try done.
    - intros p. rewrite Hv. destruct (N.ltb_spec p (bx_floor x1)); [done|].
      destruct (is_data _); [done|]. destruct (N.leb_spec first p), (N.ltb_spec p end_); cbn; try done.
      exfalso. subst from. lia.
    - intros p. cbn. destruct (N.leb_spec from p), (N.ltb_spec p end_); cbn; try done. lia. }
  pose proof (ix_chain _ Hwf1) as Hc.
  destruct (uncovered_spec (bx_unit x1) _ _ _ from end_ true Hc) as [Hr Hin].
  set (novel := uncovered _ from end_ true) in *.
  destruct (put_ranges_spec (bx_unit x1) (put_data (bx_unit x1) first meta d)
    (data_view (bx_unit x1) first meta d) (fun v => negb (is_data v)) from (bx_end x1) (bx_floor x1))
    with (from := from) (rs := novel) (end_ := end_) (bs := bx_blocks x1) as [Hc' Hv']; try done; try lia.
  { intros r bs Hcb Hf1 Hr1 Hr2 Hfree. apply put_data_spec; try done; try (subst from; lia).
    intros p Hp. specialize (Hfree p Hp). by apply negb_true_iff. }
  { intros p. rewrite Hin, covered_data, !andb_true_iff. intros [_ ?]. done. }
  destruct (enforce_block_limit_spec (with_blocks x1 (foldl (put_data (bx_unit x1) first meta d)
    (bx_blocks x1) novel))) as (Hwf2 & [Hfl2 Hv2] & (Ht1 & Ht2 & Ht3) & He2).
  { destruct Hwf1. split_and!; done. }
  { apply (ix_floor _ Hwf1). }
  set (x2 := enforce_block_limit _) in *. clearbody x2. cbn in *. unfold same_shape. split_and!; try done; try congruence; try lia.
  - intros p. rewrite Hv2. destruct (N.ltb_spec p (bx_floor x2)) as [|Hp]; [done|].
    rewrite Hv', Hin, covered_data, Hs1. fold (index_view x1 p).
    assert (Hx : index_view x1 p = index_view x p).
    { rewrite Hv. by destruct (N.ltb_spec p (bx_floor x1)); [lia|]. }
    unfold index_view in Hx. rewrite Hs1 in Hx. rewrite Hx. fold (index_view x p).
    destruct (is_data (index_view x p)); [by rewrite andb_false_r|]. rewrite andb_true_r.
    replace (from <=? p) with (first <=? p); [done|].
    destruct (N.leb_spec first p), (N.leb_spec from p); try done; subst from; lia.
  - intros p. rewrite Hin, covered_data. destruct (N.leb_spec from p); [|done]. f_equal. f_equal.
    fold (index_view x1 p). rewrite Hv. by destruct (N.ltb_spec p (bx_floor x1)); [subst from; lia|].
Qed.

Lemma insert_missing_spec x first end_ :
  index_wf x ->
  let x' := insert_missing x first end_ in
  index_wf x' /\ same_shape x x' /\ bx_floor x <= bx_floor x' /\
  bx_end x' = N.max (bx_end x) end_ /\
  forall p, index_view x' p = view_insert_missing (index_view x p) (bx_floor x') first end_ p.
Proof.
  intros Hwf. unfold insert_missing.
  destruct (advance_spec x end_ Hwf) as (Hwf1 & [Hfl Hv] & Hs & He).
  revert Hwf1 Hfl Hv Hs He. generalize (advance x end_). intros x1 Hwf1 Hfl Hv Hs He.
  pose proof Hs as (Hs1 & Hs2 & Hs3).
  set (from := N.max first (bx_floor x1)). unfold view_insert_missing.
  destruct (N.leb_spec end_ from) as [Hempty|Hfrom]; cbv zeta.
  { split_and!; try done. intros p. rewrite Hv. destruct (N.ltb_spec p (bx_floor x1)); [done|].
    destruct (index_view x p); [done|]. destruct (N.leb_spec first p), (N.ltb_spec p end_); cbn; try done.
    exfalso. subst from. lia. }
  pose proof (ix_chain _ Hwf1) as Hc.
  destruct (uncovered_spec (bx_unit x1) _ _ _ from end_ false Hc) as [Hr Hin].
  set (gaps := uncovered _ from end_ false) in *.
  assert (Hcov : forall v, covered false v = bool_decide (is_Some v)).
  { by intros [[]|]. }
  destruct (put_ranges_spec (bx_unit x1) put_missing (fun _ => V_Missing)
    (fun v => negb (bool_decide (is_Some v))) from (bx_end x1) (bx_floor x1))
    with (from := from) (rs := gaps) (end_ := end_) (bs := bx_blocks x1) as [Hc' Hv']; try done; try lia.
  { intros r bs Hcb Hf1 Hr1 Hr2 Hfree. apply put_missing_spec; try done; try (subst from; lia).
    intros p Hp. specialize (Hfree p Hp). apply negb_true_iff, bool_decide_eq_false in Hfree.
    by apply eq_None_not_Some. }
  { intros p. rewrite Hin, Hcov, !andb_true_iff. intros [_ ?]. done. }
  destruct (enforce_block_limit_spec (with_blocks x1 (foldl put_missing (bx_blocks x1) gaps)))
    as (Hwf2 & [Hfl2 Hv2] & (Ht1 & Ht2 & Ht3) & He2).
  { destruct Hwf1. split_and!; done. }
  { apply (ix_floor _ Hwf1). }
  set (x2 := enforce_block_limit _) in *. clearbody x2. cbn in *. unfold same_shape. split_and!; try done; try congruence; try lia.
  intros p. rewrite Hv2. destruct (N.ltb_spec p (bx_floor x2)) as [|Hp]; [done|].
  rewrite Hv', Hin, Hcov. fold (index_view x1 p). rewrite Hv.
  destruct (N.ltb_spec p (bx_floor x1)); [lia|]. destruct (index_view x p); cbn.
  { by rewrite andb_false_r. }
  rewrite andb_true_r.
  replace (from <=? p) with (first <=? p); [done|].
  destruct (N.leb_spec first p), (N.leb_spec from p); try done; subst from; lia.
Qed.

(** ** Lookups *)

(** The positions at which what a buffer holds can change. *)
Definition block_marks (bs : list Block) : list N := flat_map (fun b => [b_first b; b_end b]) bs.
Definition index_marks (x : BlockIndex) : list N := bx_floor x :: block_marks (bx_blocks x).

Lemma length_block_marks bs : length (block_marks bs) = (2 * length bs)%nat.
Proof.
  induction bs as [|b bs IH]; [done|].
  change (length (b_first b :: b_end b :: block_marks bs) = (2 * length (b :: bs))%nat).
  cbn [length]. rewrite IH. lia.
Qed.

Lemma elem_of_block_marks bs b :
  b ∈ bs -> b_first b ∈ block_marks bs /\ b_end b ∈ block_marks bs.
Proof.
  intros H. unfold block_marks. rewrite !list_elem_of_In in *. rewrite !in_flat_map.
  split; exists b; cbn; auto.
Qed.

(** The block at [after(pos)]. *)
Lemma after_block_spec unit bs lo hi pos :
  chain lo bs hi ->
  match bs !! after_block bs pos with
  | Some b => b ∈ bs /\ pos < b_end b /\ b_first b < b_end b <= hi /\
      (forall q, pos <= q < b_end b -> view unit bs q
        = if q <? b_first b then None else Some (block_view unit b q))
  | None => forall q, pos <= q -> view unit bs q = None
  end.
Proof.
  intros Hc. rewrite <- (Nat.add_0_r (after_block bs pos)), <- lookup_drop, drop_after.
  pose proof (fun lo hi p => drop_ended_view unit pos lo bs hi p) as Hv.
  pose proof (drop_ended_head pos bs) as Hh. pose proof (drop_ended_chain pos _ _ _ Hc) as Hd.
  assert (Hsub : forall b, b ∈ drop_ended pos bs -> b ∈ bs).
  { intros b Hb. rewrite <- drop_after in Hb. rewrite <- (take_drop (after_block bs pos) bs).
    apply elem_of_app. by right. }
  destruct (drop_ended pos bs) as [|b rest]; cbn [lookup list_lookup].
  - intros q Hq. by rewrite <- (Hv lo hi q Hc Hq).
  - destruct Hd as (H1 & H2 & Hd). specialize (Hh _ _ eq_refl).
    split_and!; [apply Hsub; by left|done|done|by eapply chain_le|].
    intros q Hq. rewrite <- (Hv lo hi q) by (done || lia). cbn.
    destruct (q <? b_first b); [done|]. by destruct (N.ltb_spec q (b_end b)); [|lia].
Qed.

(** What a lookup promises of the view [v] of an index with this floor. *)
Definition lookup_ok (v : N -> option View) (unit floor hi pos : N) (l : Lookup) : Prop :=
  match l with
  | Lk_Data e meta d => floor <= pos < e /\ e <= hi /\ forall q, pos <= q < e ->
      v q = Some (V_Data (advanced meta (q - pos) unit) (d && (q =? pos)))
  | Lk_Missing e => floor <= pos < e /\ e <= hi /\ forall q, pos <= q < e -> v q = Some V_Missing
  | Lk_Evicted until => pos < until /\ until = floor
  | Lk_Unknown (Some next) => floor <= pos < next /\ next <= hi /\ is_Some (v next) /\
      forall q, pos <= q < next -> v q = None
  | Lk_Unknown None => floor <= pos /\ forall q, pos <= q -> v q = None
  end.

(** The position a lookup answers up to. *)
Definition lookup_end (l : Lookup) : option N :=
  match l with
  | Lk_Data e _ _ | Lk_Missing e | Lk_Evicted e => Some e
  | Lk_Unknown next => next
  end.

Lemma index_lookup_spec x pos :
  index_wf x ->
  lookup_ok (index_view x) (bx_unit x) (bx_floor x) (bx_end x) pos (index_lookup x pos) /\
  (forall e, lookup_end (index_lookup x pos) = Some e -> pos < e /\ e ∈ index_marks x).
Proof.
  intros Hwf. unfold index_lookup, index_marks. destruct (N.ltb_spec pos (bx_floor x)) as [Hf|Hf].
  { split; [done|]. intros e [= <-]. split; [done|by left]. }
  pose proof (after_block_spec (bx_unit x) _ _ _ pos (ix_chain _ Hwf)) as H.
  destruct (bx_blocks x !! _) as [b|]; [|by split].
  destruct H as (Hin & Hend & (Hne & Hhi) & Hv). apply elem_of_block_marks in Hin as [Hi1 Hi2].
  unfold index_view. destruct (N.leb_spec (b_first b) pos) as [Hle|Hgt].
  - assert (Hv' : forall q, pos <= q < b_end b ->
      view (bx_unit x) (bx_blocks x) q = Some (block_view (bx_unit x) b q)).
    { intros q Hq. rewrite Hv by done. by destruct (N.ltb_spec q (b_first b)); [lia|]. }
    unfold block_view in Hv'. destruct (b_kind b) as [meta d|]; cbn [lookup_ok lookup_end].
    + split; [|intros e [= <-]; split; [done|by right]]. split_and!; [done..|].
      intros q Hq. rewrite Hv' by done. rewrite advanced_add. do 2 f_equal; [f_equal; lia|].
      destruct d; cbn; [|done].
      destruct (N.eqb_spec q (b_first b)), (N.eqb_spec q pos), (N.eqb_spec pos (b_first b)); cbn; done || lia.
    + split; [|intros e [= <-]; split; [done|by right]]. split_and!; done.
  - cbn [lookup_ok lookup_end]. split; [|intros e [= <-]; split; [done|by right]].
    split_and!; [done|done|lia| |].
    + rewrite Hv by lia. by rewrite N.ltb_irrefl.
    + intros q Hq. rewrite Hv by lia. by destruct (N.ltb_spec q (b_first b)); [|lia].
Qed.
