(* ===== verification/Buffer.v ===== *)
(** * The storage of one stream epoch ([uplink/src/buffer.rs], [EpochBuffer])

    A ring of records addressed by position modulo the capacity, under the block
    index of [Blocks].  Positions outside are stream samples, inside record
    indices.  [held_record] is what the buffer holds at a record index; the
    theorems give the operations as functions of it: the first copy of a record
    wins, whatever overlaps, and a lookup, a read and a chunk return exactly what
    is held. *)
From S2P Require Import Prelude Bytes WireEnum Ema Vocab Clock Blocks.

(** ** Chunk data ([uplink/src/chunk.rs]) *)
(** [Pcm] is little-endian PCM16 bytes. *)
Definition Pcm : Type := list byte.
Definition pcm_samples (p : Pcm) : list Z := i16_from_le <$> as_chunks 2 p.
Definition pcm_len (p : Pcm) : nat := (length p / 2)%nat.

Inductive ChunkData :=
  | Cd_Pcm (pcm : Pcm)
  | Cd_DigitalSilence (frames : N)
  | Cd_Cells (cells : list Cell)
  | Cd_Afe (records : list AfeRecord).

Definition chunk_data_bytes (d : ChunkData) : N :=
  match d with
  | Cd_Pcm pcm => N.of_nat (length pcm)
  | Cd_DigitalSilence _ => 0
  | Cd_Cells cells => N.of_nat (length cells * CELL_RECORD_BYTES)
  | Cd_Afe records => N.of_nat (length records * AFE_RECORD_BYTES)
  end.

(** ** The buffer *)
Inductive Records :=
  | Rc_Pcm (ring : list Z)
  | Rc_Cells (ring : list Cell)
  | Rc_Afe (ring : list AfeRecord).

(** The source's [scratch] is an allocation reused between calls: each call
    clears it first. *)
Record EpochBuffer := mkBuffer { eb_index : BlockIndex; eb_records : Records }.

Definition GAP_CELL : Cell := mkCell E_MIN CELL_GAP SOURCE_NONE.
Definition afe_default : AfeRecord := mkAfe 0 0 0 0 0 0 0 0 0 0 0 0 0 0.

Definition buffer_new (stream : StreamId) (retention : N) (max_blocks : nat) : EpochBuffer :=
  let unit := samples_per_frame (stream_kind stream) in {|
    eb_index := {|
      bx_unit := unit;
      bx_capacity := N.max (retention / unit) 1;
      bx_max_blocks := Nat.max max_blocks 1;
      bx_blocks := []; bx_end := 0; bx_floor := 0 |};
    eb_records := match stream with
      | Mic | Reference => Rc_Pcm []
      | Cells => Rc_Cells []
      | Afe => Rc_Afe []
      end |}.

Definition eb_unit (b : EpochBuffer) : N := bx_unit (eb_index b).
Definition buffer_end (b : EpochBuffer) : N := bx_end (eb_index b) * eb_unit b.

(** [while ranges.peek().is_some_and(|(_, end)| pos >= *end) { ranges.next() }]. *)
Fixpoint skip_ranges (pos : N) (ranges : list (N * N)) : list (N * N) :=
  match ranges with
  | (s, e) :: rest => if e <=? pos then skip_ranges pos rest else ranges
  | [] => []
  end.

Fixpoint write_loop {A} (capacity pos : N) (values : list A) (ranges : list (N * N))
    (ring : list A) : list A :=
  match values with
  | [] => ring
  | value :: values =>
      match skip_ranges pos ranges with
      | (start, end_) :: rest =>
          let ring :=
            if start <=? pos then <[N.to_nat (pos mod capacity) := value]> ring else ring in
          write_loop capacity (pos + 1) values ((start, end_) :: rest) ring
      | [] => ring
      end
  end.

(** [write]: the ring gets its full size on first use. *)
Definition write {A} (ring : list A) (capacity : N) (fill : A) (first : N) (values : list A)
    (novel : list (N * N)) : list A :=
  let ring := match ring with [] => replicate (N.to_nat capacity) fill | _ => ring end in
  write_loop capacity first values novel ring.

Definition write_records (records : Records) (capacity first : N) (content : Content)
    (novel : list (N * N)) : Records :=
  match records, content with
  | Rc_Pcm ring, C_Pcm samples => Rc_Pcm (write ring capacity 0%Z first samples novel)
  | Rc_Pcm ring, C_DigitalSilence frames =>
      Rc_Pcm (write ring capacity 0%Z first (replicate (N.to_nat frames) 0%Z) novel)
  | Rc_Cells ring, C_Cells cells => Rc_Cells (write ring capacity GAP_CELL first cells novel)
  | Rc_Afe ring, C_Afe afes => Rc_Afe (write ring capacity afe_default first afes novel)
  | _, _ => records
  end.

Definition ranges_total (ranges : list (N * N)) : N := foldr (fun r n => r.2 - r.1 + n) 0 ranges.

(** Returns the buffer and how many stream samples were new. *)
Definition store (b : EpochBuffer) (packet : Packet) : EpochBuffer * N :=
  let header := p_header packet in
  let unit := eb_unit b in
  let first := h_first_sample header / unit in
  let end_ := first + h_frame_count header in
  let '(index, novel) :=
    insert_data (eb_index b) first end_ (meta_of packet)
      (bits_contain (h_flags header) FLAG_DISCONTINUITY) in
  let stored := ranges_total novel in
  let records :=
    if 0 <? stored then
      write_records (eb_records b) (bx_capacity index) first (content packet) novel
    else eb_records b in
  (mkBuffer index records, stored * unit).

Definition mark_missing (b : EpochBuffer) (span : Span) : EpochBuffer :=
  let unit := eb_unit b in
  mkBuffer (insert_missing (eb_index b) (sp_start span / unit) (div_ceil (sp_end span) unit))
    (eb_records b).

(** [EpochBuffer::lookup], in stream samples. *)
Definition buffer_lookup (b : EpochBuffer) (pos : N) : Lookup :=
  let unit := eb_unit b in
  match index_lookup (eb_index b) (pos / unit) with
  | Lk_Data end_ meta discontinuity => Lk_Data (end_ * unit) meta discontinuity
  | Lk_Missing end_ => Lk_Missing (end_ * unit)
  | Lk_Evicted until => Lk_Evicted (until * unit)
  | Lk_Unknown next => Lk_Unknown ((fun n => n * unit) <$> next)
  end.

(** The loop of [segments]; [None] is running out of [fuel]. *)
Fixpoint segments_from (b : EpochBuffer) (fuel : nat) (pos end_ : N) : option (list Segment) :=
  if pos <? end_ then
    match fuel with
    | O => None
    | S fuel =>
        let '(e, kind) :=
          match buffer_lookup b pos with
          | Lk_Data e meta discontinuity => (e, Sk_Data meta discontinuity)
          | Lk_Missing e => (e, Sk_Missing)
          | Lk_Evicted until => (until, Sk_Evicted)
          | Lk_Unknown next => (default end_ next, Sk_Unknown)
          end in
        let e := N.min e end_ in
        (fun rest => mkSegment (mkSpan pos e) kind :: rest) <$> segments_from b fuel e end_
    end
  else Some [].

(** The positions where a lookup can stop, and one more step to the span's end. *)
Definition segments_fuel (b : EpochBuffer) : nat := (2 * length (bx_blocks (eb_index b)) + 2)%nat.

Definition segments (b : EpochBuffer) (span : Span) : option (list Segment) :=
  segments_from b (segments_fuel b) (sp_start span) (sp_end span).

(** The ring indices of a span, in order. *)
Definition slots (b : EpochBuffer) (span : Span) : list nat :=
  let unit := eb_unit b in
  let first := sp_start span / unit in
  (fun i => N.to_nat ((first + N.of_nat i) mod bx_capacity (eb_index b)))
    <$> seq 0 (N.to_nat (sp_end span / unit - first)).

(** [ring[i]] for each slot; the span is held, so the ring has every slot. *)
Definition copy_ring {A} (default_ : A) (ring : list A) (indices : list nat) : list A :=
  (fun i => default default_ (ring !! i)) <$> indices.

Definition copy_pcm (b : EpochBuffer) (span : Span) (out : list Z) : list Z :=
  match eb_records b with Rc_Pcm ring => out ++ copy_ring 0%Z ring (slots b span) | _ => out end.
Definition copy_cells (b : EpochBuffer) (span : Span) (out : list Cell) : list Cell :=
  match eb_records b with
  | Rc_Cells ring => out ++ copy_ring GAP_CELL ring (slots b span) | _ => out end.
Definition copy_afe (b : EpochBuffer) (span : Span) (out : list AfeRecord) : list AfeRecord :=
  match eb_records b with
  | Rc_Afe ring => out ++ copy_ring afe_default ring (slots b span) | _ => out end.

(** [Bytes::slice]. *)
Definition slice {A} (l : list A) (from to : nat) : list A := take (to - from) (drop from l).

(** The part of [packet]'s payload that is [span]'s PCM, when it has it. *)
Definition packet_slice (packet : option Packet) (span : Span) : option Pcm :=
  match packet with
  | Some p =>
      let h := p_header p in
      let silent := bits_contain (h_flags h) FLAG_DIGITAL_SILENCE in
      if negb silent && (h_first_sample h <=? sp_start span) && (sp_end span <=? p_end_sample p)
      then Some (slice (p_payload p) (N.to_nat ((sp_start span - h_first_sample h) * 2))
                   (N.to_nat ((sp_end span - h_first_sample h) * 2)))
      else None
  | None => None
  end.

Definition chunk_data (b : EpochBuffer) (span : Span) (meta : BlockMeta) (packet : option Packet) :
    ChunkData :=
  match eb_records b with
  | Rc_Pcm ring =>
      if bits_contain (bm_flags meta) FLAG_DIGITAL_SILENCE then Cd_DigitalSilence (span_len span)
      else match packet_slice packet span with
      | Some pcm => Cd_Pcm pcm
      | None => Cd_Pcm (concat (i16_to_le <$> copy_ring 0%Z ring (slots b span)))
      end
  | Rc_Cells _ => Cd_Cells (copy_cells b span [])
  | Rc_Afe _ => Cd_Afe (copy_afe b span [])
  end.

(** ** The ring *)

(** Two positions of one window of [capacity] have different slots. *)
Lemma slot_inj capacity lo p q :
  1 <= capacity -> lo <= p < lo + capacity -> lo <= q < lo + capacity ->
  p mod capacity = q mod capacity -> p = q.
Proof.
  intros Hc Hp Hq He. pose proof (N.div_mod p capacity ltac:(lia)) as H1.
  pose proof (N.div_mod q capacity ltac:(lia)) as H2. rewrite He in H1.
  assert (p / capacity = q / capacity) as E by nia. rewrite E in H1. congruence.
Qed.

Lemma skip_ranges_wf pos lo rs hi : ranges_wf lo rs hi -> ranges_wf lo (skip_ranges pos rs) hi.
Proof.
  revert lo. induction rs as [|[s e] rs IH]; intros lo; cbn; [done|]. intros (? & ? & ? & Hr).
  destruct (e <=? pos); [|done]. eapply ranges_wf_lo; [by apply IH|lia].
Qed.

Lemma skip_ranges_in pos lo rs hi p :
  ranges_wf lo rs hi -> pos <= p -> in_ranges (skip_ranges pos rs) p = in_ranges rs p.
Proof.
  revert lo. induction rs as [|[s e] rs IH]; intros lo; cbn [skip_ranges ranges_wf]; [done|].
  intros (? & ? & ? & Hr) Hp. destruct (N.leb_spec e pos) as [He|]; [|done]. rewrite (IH _ Hr Hp).
  unfold in_ranges, any. cbn [existsb]. destruct (in_range (s, e) p) eqn:E; [|done].
  apply in_range_true in E. cbn in E. lia.
Qed.

Lemma skip_ranges_head pos rs s e rest : skip_ranges pos rs = (s, e) :: rest -> pos < e.
Proof.
  induction rs as [|[s' e'] rs IH]; cbn; [done|]. destruct (N.leb_spec e' pos); [done|].
  by intros [= <- <- <-].
Qed.

(** The position at the head of the remaining ranges is theirs or before them. *)
Lemma head_in_ranges pos lo s e rest hi :
  ranges_wf lo ((s, e) :: rest) hi -> pos < e ->
  in_ranges ((s, e) :: rest) pos = (s <=? pos).
Proof.
  intros (? & ? & ? & Hr) Hp. unfold in_ranges, any. cbn.
  destruct (existsb _ rest) eqn:E; [pose proof (ranges_wf_in _ _ _ _ Hr E); lia|].
  unfold in_range. cbn. rewrite (proj2 (N.ltb_lt pos e)) by done. by rewrite andb_true_r, orb_false_r.
Qed.

Section write_loop.
Context {A : Type} (capacity : N) (hi : N).
Implicit Types (values ring : list A) (rs : list (N * N)).

Lemma length_write_loop pos values rs ring :
  length (write_loop capacity pos values rs ring) = length ring.
Proof.
  revert pos rs ring. induction values as [|v values IH]; intros pos rs ring; cbn; [done|].
  destruct (skip_ranges pos rs) as [|[s e] rest]; [done|]. rewrite IH.
  destruct (s <=? pos); [apply length_insert|done].
Qed.

(** A slot no range position maps to keeps its value. *)
Lemma write_loop_miss lo pos values rs ring j :
  ranges_wf lo rs hi ->
  (forall q, pos <= q -> in_ranges rs q = true -> N.to_nat (q mod capacity) <> j) ->
  write_loop capacity pos values rs ring !! j = ring !! j.
Proof.
  revert lo pos rs ring. induction values as [|v values IH]; intros lo pos rs ring Hr Hj; cbn; [done|].
  pose proof (skip_ranges_wf pos _ _ _ Hr) as Hr'.
  pose proof (fun p => skip_ranges_in pos _ _ _ p Hr) as Hin.
  pose proof (skip_ranges_head pos rs) as Hh.
  destruct (skip_ranges pos rs) as [|[s e] rest]; [done|]. specialize (Hh _ _ _ eq_refl).
  rewrite (IH lo); [|done|].
  - destruct (N.leb_spec s pos) as [Hs|]; [|done]. apply list_lookup_insert_ne.
    apply Hj; [done|]. rewrite <- Hin by done. rewrite (head_in_ranges _ _ _ _ _ _ Hr' Hh).
    by apply N.leb_le.
  - intros q Hq Hq'. apply Hj; [lia|]. rewrite <- Hin; [done|lia].
Qed.

(** The slot of a range position holds its value, when no other range
    position maps to it. *)
Lemma write_loop_hit lo pos values rs ring p :
  ranges_wf lo rs hi -> pos <= p < pos + N.of_nat (length values) -> in_ranges rs p = true ->
  (forall q, pos <= q -> in_ranges rs q = true -> q <> p ->
    N.to_nat (q mod capacity) <> N.to_nat (p mod capacity)) ->
  (N.to_nat (p mod capacity) < length ring)%nat ->
  write_loop capacity pos values rs ring !! N.to_nat (p mod capacity)
  = values !! N.to_nat (p - pos).
Proof.
  revert lo pos rs ring. induction values as [|v values IH]; intros lo pos rs ring Hr Hp Hin Hinj Hlen;
    cbn [length] in *; [lia|]. cbn [write_loop].
  pose proof (skip_ranges_wf pos _ _ _ Hr) as Hr'.
  pose proof (fun p => skip_ranges_in pos _ _ _ p Hr) as Hskip.
  pose proof (skip_ranges_head pos rs) as Hh.
  destruct (skip_ranges pos rs) as [|[s e] rest].
  { by rewrite <- (Hskip p) in Hin by lia. }
  specialize (Hh _ _ _ eq_refl). destruct (decide (p = pos)) as [->|Hne].
  - rewrite N.sub_diag. cbn [lookup list_lookup]. rewrite (write_loop_miss lo); [|done|].
    + rewrite <- (Hskip pos), (head_in_ranges _ _ _ _ _ _ Hr' Hh) in Hin by done. rewrite Hin.
      by apply list_lookup_insert_eq.
    + intros q Hq Hq'. apply Hinj; [lia| |lia]. rewrite <- Hskip; [done|lia].
  - rewrite (IH lo); [|done|lia| | |].
    + replace (N.to_nat (p - pos)) with (S (N.to_nat (p - (pos + 1)))) by lia. done.
    + rewrite Hskip; [done|lia].
    + intros q Hq Hq' Hqp. apply Hinj; [lia| |done]. rewrite <- Hskip; [done|lia].
    + destruct (s <=? pos); [by rewrite length_insert|done].
Qed.
End write_loop.

(** ** What a buffer holds *)
Inductive Rec := R_Pcm (sample : Z) | R_Cell (cell : Cell) | R_Afe (record : AfeRecord).

Definition ring_at (records : Records) (i : nat) : option Rec :=
  match records with
  | Rc_Pcm ring => R_Pcm <$> ring !! i
  | Rc_Cells ring => R_Cell <$> ring !! i
  | Rc_Afe ring => R_Afe <$> ring !! i
  end.
Definition ring_length (records : Records) : nat :=
  match records with Rc_Pcm r => length r | Rc_Cells r => length r | Rc_Afe r => length r end.
Definition records_of (stream : StreamId) (records : Records) : Prop :=
  match stream, records with
  | (Mic | Reference), Rc_Pcm _ | Cells, Rc_Cells _ | Afe, Rc_Afe _ => True
  | _, _ => False
  end.

(** The records a packet carries, one per frame. *)
Definition content_records (c : Content) : list Rec :=
  match c with
  | C_Pcm samples => R_Pcm <$> samples
  | C_DigitalSilence frames => replicate (N.to_nat frames) (R_Pcm 0%Z)
  | C_Cells cells => R_Cell <$> cells
  | C_Afe records => R_Afe <$> records
  end.
Definition content_of (stream : StreamId) (c : Content) : Prop :=
  match stream, c with
  | (Mic | Reference), (C_Pcm _ | C_DigitalSilence _) | Cells, C_Cells _ | Afe, C_Afe _ => True
  | _, _ => False
  end.

(** The record at index [p], with its timing and whether the device skipped
    audio just before it. *)
Definition held_record (b : EpochBuffer) (p : N) : option (BlockMeta * bool * Rec) :=
  match index_view (eb_index b) p with
  | Some (V_Data meta d) =>
      (fun r => (meta, d, r)) <$> ring_at (eb_records b) (N.to_nat (p mod bx_capacity (eb_index b)))
  | _ => None
  end.

Definition is_missing (b : EpochBuffer) (p : N) : bool :=
  match index_view (eb_index b) p with Some V_Missing => true | _ => false end.

Record buffer_wf (stream : StreamId) (b : EpochBuffer) : Prop := {
  bw_index : index_wf (eb_index b);
  bw_unit : eb_unit b = samples_per_frame (stream_kind stream);
  bw_records : records_of stream (eb_records b);
  bw_ring : ring_length (eb_records b) = N.to_nat (bx_capacity (eb_index b)) \/
    (ring_length (eb_records b) = 0%nat /\ forall p, is_data (index_view (eb_index b) p) = false);
}.

Lemma held_record_data stream b p :
  buffer_wf stream b -> is_data (index_view (eb_index b) p) = true <-> is_Some (held_record b p).
Proof.
  intros [Hi _ _ Hr]. unfold held_record. destruct (index_view _ p) as [[m d|]|] eqn:Ev; cbn;
    try (split; [done|by intros [? ?]]).
  split; [|done]. intros _. apply fmap_is_Some.
  destruct Hr as [Hr|[_ Hr]]; [|by specialize (Hr p); rewrite Ev in Hr].
  pose proof (N.mod_lt p (bx_capacity (eb_index b))) as Hm. pose proof (ix_capacity _ Hi).
  destruct (eb_records b); cbn in *; apply fmap_is_Some, lookup_lt_is_Some; lia.
Qed.

(** ** Writing a packet's records *)
Lemma write_spec {A} (ring values : list A) capacity fill first novel lo hi :
  1 <= capacity -> ranges_wf lo novel hi ->
  (length ring = N.to_nat capacity \/ length ring = 0%nat) ->
  length (write ring capacity fill first values novel) = N.to_nat capacity /\
  (forall p, in_ranges novel p = true -> first <= p < first + N.of_nat (length values) ->
    (forall q, first <= q -> in_ranges novel q = true -> q <> p ->
      N.to_nat (q mod capacity) <> N.to_nat (p mod capacity)) ->
    write ring capacity fill first values novel !! N.to_nat (p mod capacity)
    = values !! N.to_nat (p - first)) /\
  (forall j, length ring = N.to_nat capacity ->
    (forall q, first <= q -> in_ranges novel q = true -> N.to_nat (q mod capacity) <> j) ->
    write ring capacity fill first values novel !! j = ring !! j).
Proof.
  intros Hc Hr Hlen. unfold write.
  set (ring' := match ring with [] => _ | _ => _ end).
  assert (Hl : length ring' = N.to_nat capacity).
  { subst ring'. destruct ring as [|v ring]; [apply length_replicate|]. cbn in *. lia. }
  split_and!.
  - by rewrite length_write_loop.
  - intros p Hp Hb Hinj. eapply write_loop_hit; [exact Hr|done|done|done|].
    rewrite Hl. pose proof (N.mod_lt p capacity). lia.
  - intros j Hfull Hj. erewrite write_loop_miss; [|exact Hr|exact Hj].
    subst ring'. destruct ring; [cbn in *; lia|done].
Qed.

Lemma write_records_spec stream rc content capacity first novel lo hi :
  1 <= capacity -> ranges_wf lo novel hi -> records_of stream rc -> content_of stream content ->
  (ring_length rc = N.to_nat capacity \/ ring_length rc = 0%nat) ->
  let rc' := write_records rc capacity first content novel in
  records_of stream rc' /\ ring_length rc' = N.to_nat capacity /\
  (forall p, in_ranges novel p = true ->
    first <= p < first + N.of_nat (length (content_records content)) ->
    (forall q, first <= q -> in_ranges novel q = true -> q <> p ->
      N.to_nat (q mod capacity) <> N.to_nat (p mod capacity)) ->
    ring_at rc' (N.to_nat (p mod capacity)) = content_records content !! N.to_nat (p - first)) /\
  (forall j, ring_length rc = N.to_nat capacity ->
    (forall q, first <= q -> in_ranges novel q = true -> N.to_nat (q mod capacity) <> j) ->
    ring_at rc' j = ring_at rc j).
Proof.
  intros Hc Hr Hrc Hct Hlen.
  assert (Hpcm : forall (ring values : list Z), (length ring = N.to_nat capacity \/ length ring = 0%nat) ->
    _) by (intros ring values H; exact (write_spec ring values capacity 0%Z first novel lo hi Hc Hr H)).
  destruct rc as [ring|ring|ring], content as [samples|frames|cells|afes]; cbn [write_records];
    try (destruct stream; done); cbn [ring_length ring_at content_records] in *.
  - destruct (Hpcm ring samples Hlen) as (H1 & H2 & H3). cbv zeta. split_and!; [by destruct stream|done| |].
    + intros p Hp Hb Hi. rewrite length_fmap in Hb. cbn [ring_at]. by rewrite H2, list_lookup_fmap.
    + intros j Hj Hq. cbn [ring_at]. by rewrite H3.
  - destruct (Hpcm ring (replicate (N.to_nat frames) 0%Z) Hlen) as (H1 & H2 & H3). cbv zeta.
    split_and!; [by destruct stream|done| |].
    + intros p Hp Hb Hi. rewrite length_replicate in Hb. cbn [ring_at].
      rewrite H2 by (rewrite ?length_replicate; done). rewrite !lookup_replicate_2 by lia. done.
    + intros j Hj Hq. cbn [ring_at]. by rewrite H3.
  - destruct (write_spec ring cells capacity GAP_CELL first novel lo hi Hc Hr Hlen) as (H1 & H2 & H3).
    cbv zeta. split_and!; [by destruct stream|done| |].
    + intros p Hp Hb Hi. rewrite length_fmap in Hb. cbn [ring_at]. by rewrite H2, list_lookup_fmap.
    + intros j Hj Hq. cbn [ring_at]. by rewrite H3.
  - destruct (write_spec ring afes capacity afe_default first novel lo hi Hc Hr Hlen) as (H1 & H2 & H3).
    cbv zeta. split_and!; [by destruct stream|done| |].
    + intros p Hp Hb Hi. rewrite length_fmap in Hb. cbn [ring_at]. by rewrite H2, list_lookup_fmap.
    + intros j Hj Hq. cbn [ring_at]. by rewrite H3.
Qed.

(** ** Storing a packet *)
Record packet_fits (stream : StreamId) (p : Packet) : Prop := {
  pf_kind : h_kind (p_header p) = stream_kind stream;
  pf_rules : EmaRules (p_header p) (p_payload p);
  pf_end : p_end_sample p
    = h_first_sample (p_header p) + h_frame_count (p_header p) * samples_per_frame (stream_kind stream);
}.

Definition packet_record (unit : N) (packet : Packet) (p : N) : option (BlockMeta * bool * Rec) :=
  let first := h_first_sample (p_header packet) / unit in
  if (first <=? p) && (p <? first + h_frame_count (p_header packet)) then
    (fun r => (advanced (meta_of packet) (p - first) unit,
               bits_contain (h_flags (p_header packet)) FLAG_DISCONTINUITY && (p =? first), r))
      <$> content_records (content packet) !! N.to_nat (p - first)
  else None.

Lemma content_of_kind stream p :
  h_kind (p_header p) = stream_kind stream -> content_of stream (content p).
Proof.
  intros H. unfold content. rewrite H. destruct stream; cbn; try done; by destruct (bits_contain _ _).
Qed.

Lemma length_content_records c : N.of_nat (length (content_records c)) = content_length c.
Proof. destruct c; cbn; rewrite ?length_fmap, ?length_replicate; lia. Qed.

Lemma ranges_total_0 lo rs hi : ranges_wf lo rs hi -> ranges_total rs = 0 -> rs = [].
Proof. destruct rs as [|[a e] rs]; cbn; [done|]. intros (? & ? & ? & ?). lia. Qed.

Lemma packet_record_in stream unit p q :
  packet_fits stream p -> h_first_sample (p_header p) / unit <= q
    < h_first_sample (p_header p) / unit + h_frame_count (p_header p) ->
  is_Some (packet_record unit p q).
Proof.
  intros [Hk Hr _] Hq. unfold packet_record.
  rewrite (proj2 (N.leb_le _ q)), (proj2 (N.ltb_lt q _)) by lia. cbn.
  apply fmap_is_Some, lookup_lt_is_Some. pose proof (length_content_records (content p)).
  pose proof (content_length_rules _ Hr). lia.
Qed.

(** What a store's index change means for the ring: the novel ranges lie in the
    packet and in the ring's window, hold nothing yet, and with what was held
    before they are all that is held after. *)
Lemma store_window x first end_ meta d index novel :
  index_wf x -> insert_data x first end_ meta d = (index, novel) ->
  let hi := bx_end index in
  let lo := hi - bx_capacity index in
  1 <= bx_capacity index /\ bx_capacity index = bx_capacity x /\ lo <= bx_floor index /\
  (exists from, ranges_wf from novel end_) /\
  (forall p, in_ranges novel p = true ->
    lo <= p < hi /\ first <= p < end_ /\ is_data (index_view x p) = false) /\
  (forall p, is_data (index_view x p) = true -> p < hi) /\
  (forall p, bx_floor index <= p -> is_data (index_view x p) = false -> first <= p < end_ ->
    in_ranges novel p = true).
Proof.
  intros Hi He. cbv zeta.
  pose proof (insert_data_spec x first end_ meta d Hi) as Hs. rewrite He in Hs.
  destruct Hs as (Hi' & (Hs1 & Hs2 & Hs3) & Hfl & Hend & Hview & Hrw & Hnov).
  destruct (advance_spec x end_ Hi) as (Hi1 & _ & (_ & Ha2 & _) & Hae).
  pose proof (ix_floor _ Hi1) as Hwin. rewrite Hae, Ha2, <- Hs2, <- Hend in Hwin.
  split_and!; [apply (ix_capacity _ Hi')|done|apply (ix_floor _ Hi')|by eexists| | |].
  - intros p Hp. pose proof (ranges_wf_in _ _ _ _ Hrw Hp). rewrite Hnov in Hp. unfold novel_at in Hp.
    rewrite !andb_true_iff, negb_true_iff in Hp. split_and!; (lia || apply Hp).
  - intros p Hp. unfold index_view in Hp. destruct (view _ _ p) eqn:Ev; [|done].
    apply (view_bounds _ _ _ _ _ _ (ix_chain _ Hi)) in Ev. lia.
  - intros p Hp Hd Hr. rewrite Hnov. unfold novel_at. rewrite Hd.
    by rewrite (proj2 (N.leb_le _ p)), (proj2 (N.ltb_lt p _)) by lia.
Qed.

(** The ring after a store: novel slots hold the packet's records, slots of
    positions still held keep theirs. *)
Lemma store_ring stream b first end_ meta d content index novel :
  buffer_wf stream b -> content_of stream content ->
  end_ = first + N.of_nat (length (content_records content)) ->
  insert_data (eb_index b) first end_ meta d = (index, novel) ->
  let records := if 0 <? ranges_total novel then
      write_records (eb_records b) (bx_capacity index) first content novel
    else eb_records b in
  records_of stream records /\
  (ring_length records = N.to_nat (bx_capacity index) \/
   ring_length records = 0%nat /\ novel = []) /\
  (forall p, in_ranges novel p = true ->
    ring_at records (N.to_nat (p mod bx_capacity index)) = content_records content !! N.to_nat (p - first)) /\
  (forall p, is_data (index_view (eb_index b) p) = true -> bx_floor index <= p ->
    ring_at records (N.to_nat (p mod bx_capacity index))
    = ring_at (eb_records b) (N.to_nat (p mod bx_capacity index))).
Proof.
  intros [Hi Hu Hrc Hring] Hct -> He. cbv zeta.
  destruct (store_window _ _ _ _ _ _ _ Hi He) as (Hcap & Hcs & Hlo & (from & Hrw) & Hnov & Hold & _).
  rewrite <- Hcs in Hring.
  assert (Hinj : forall p q, bx_end index - bx_capacity index <= p < bx_end index ->
    bx_end index - bx_capacity index <= q < bx_end index ->
    q <> p -> N.to_nat (q mod bx_capacity index) <> N.to_nat (p mod bx_capacity index)).
  { intros p q Hp Hq Hne Heq%N2Nat.inj. apply Hne.
    apply (slot_inj (bx_capacity index) (bx_end index - bx_capacity index)); done || lia. }
  destruct (N.ltb_spec 0 (ranges_total novel)) as [Hpos|Hzero].
  - destruct (write_records_spec stream (eb_records b) content (bx_capacity index) first novel from _
      Hcap Hrw Hrc Hct ltac:(tauto)) as (H1 & H2 & H3 & H4).
    split_and!; [done|by left| |].
    + intros p Hp. apply H3; [done|by apply Hnov|]. intros q _ Hq Hne. apply Hinj; by apply Hnov || done.
    + intros p Hp Hpf. destruct Hring as [Hring|[_ Hring]]; [|by rewrite Hring in Hp].
      apply H4; [done|]. intros q _ Hq. apply Hinj; [split; [lia|by apply Hold]|by apply Hnov|].
      intros ->. apply Hnov in Hq. destruct Hq as (_ & _ & Hq). congruence.
  - assert (novel = []) as -> by (eapply ranges_total_0; [exact Hrw|lia]).
    split_and!; [done| |done|done]. destruct Hring as [?|[? _]]; [by left|by right].
Qed.

(** What a store leaves: the index's new entry and the records written for it. *)
Section storing.
Context (stream : StreamId) (b : EpochBuffer) (packet : Packet) (index : BlockIndex) (novel : list (N * N)).
Let unit : N := eb_unit b.
Let first : N := h_first_sample (p_header packet) / unit.
Let end_ : N := first + h_frame_count (p_header packet).
Let d : bool := bits_contain (h_flags (p_header packet)) FLAG_DISCONTINUITY.
Hypotheses (Hwf : buffer_wf stream b) (Hfit : packet_fits stream packet)
  (He : insert_data (eb_index b) first end_ (meta_of packet) d = (index, novel)).
Let records : Records :=
  if 0 <? ranges_total novel then
    write_records (eb_records b) (bx_capacity index) first (content packet) novel
  else eb_records b.

Lemma stored_view p :
  index_view index p = view_insert_data (index_view (eb_index b) p) (bx_floor index) unit first end_ (meta_of packet) d p.
Proof using Hwf He.
  pose proof (insert_data_spec (eb_index b) first end_ (meta_of packet) d (bw_index _ _ Hwf)) as Hs.
  rewrite He in Hs. apply Hs.
Qed.

Lemma stored_novel p :
  bx_floor index <= p -> is_data (index_view (eb_index b) p) = false -> (first <=? p) && (p <? end_) = true ->
  in_ranges novel p = true.
Proof using Hwf He.
  intros Hp Hd [?%N.leb_le ?%N.ltb_lt]%andb_true_iff.
  by apply (store_window _ _ _ _ _ _ _ (bw_index _ _ Hwf) He).
Qed.

Lemma stored_data p :
  is_data (index_view index p) = true -> is_data (index_view (eb_index b) p) = true \/ in_ranges novel p = true.
Proof using Hwf He.
  rewrite stored_view. unfold view_insert_data. destruct (N.ltb_spec p (bx_floor index)); [done|].
  destruct (is_data (index_view (eb_index b) p)) eqn:Ed; [by left|].
  destruct ((first <=? p) && _) eqn:Er; [|by rewrite Ed]. intros _. right. by apply stored_novel.
Qed.

Lemma stored_ring :
  records_of stream records /\
  (ring_length records = N.to_nat (bx_capacity index) \/ ring_length records = 0%nat /\ novel = []) /\
  (forall p, in_ranges novel p = true ->
    ring_at records (N.to_nat (p mod bx_capacity index)) = content_records (content packet) !! N.to_nat (p - first)) /\
  (forall p, is_data (index_view (eb_index b) p) = true -> bx_floor index <= p ->
    ring_at records (N.to_nat (p mod bx_capacity index))
    = ring_at (eb_records b) (N.to_nat (p mod bx_capacity index))).
Proof using Hwf Hfit He.
  pose proof Hfit as [Hk Hrules _]. pose proof (content_length_rules _ Hrules) as Hlen.
  rewrite <- length_content_records in Hlen.
  apply (store_ring stream b first end_ (meta_of packet) d (content packet) index novel Hwf (content_of_kind _ _ Hk)); [|exact He].
  unfold end_. by rewrite Hlen.
Qed.

Lemma stored_capacity : bx_capacity index = bx_capacity (eb_index b).
Proof using Hwf He. apply (store_window _ _ _ _ _ _ _ (bw_index _ _ Hwf) He). Qed.

Lemma stored_wf : buffer_wf stream (mkBuffer index records).
Proof using Hwf Hfit He.
  pose proof (insert_data_spec (eb_index b) first end_ (meta_of packet) d (bw_index _ _ Hwf)) as Hs.
  rewrite He in Hs. destruct Hs as (Hi' & [Hss _] & _). destruct stored_ring as (Hrc & Hring & _).
  split; cbn; [done| |done|].
  - unfold eb_unit. cbn. rewrite Hss. apply (bw_unit _ _ Hwf).
  - destruct Hring as [?|[Hz Hn]]; [by left|right]. split; [done|].
    intros p. destruct (is_data (index_view index p)) eqn:Ed; [|done].
    destruct (stored_data _ Ed) as [Hd|Hd]; [|by rewrite Hn in Hd].
    destruct (bw_ring _ _ Hwf) as [Hr|[_ Hr]]; [|by rewrite Hr in Hd].
    pose proof (proj1 (store_window _ _ _ _ _ _ _ (bw_index _ _ Hwf) He)) as Hcap.
    unfold records in Hz. rewrite Hn in Hz. cbn in Hz. rewrite <- stored_capacity in Hr. lia.
Qed.

Lemma stored_held p :
  held_record (mkBuffer index records) p =
    if p <? bx_floor index then None
    else match held_record b p with Some r => Some r | None => packet_record unit packet p end.
Proof using Hwf Hfit He.
  unfold held_record at 1. cbn [eb_index eb_records]. rewrite stored_view. unfold view_insert_data.
  destruct (N.ltb_spec p (bx_floor index)) as [|Hpf]; [done|]. destruct stored_ring as (_ & _ & Hnew & Hkeep).
  pose proof (held_record_data _ _ p Hwf) as Hh. unfold held_record in *. rewrite <- stored_capacity in *.
  assert (Hfresh : is_data (index_view (eb_index b) p) = false ->
    (if (first <=? p) && (p <? end_) then
       (fun r => (advanced (meta_of packet) (p - first) unit, d && (p =? first), r))
         <$> ring_at records (N.to_nat (p mod bx_capacity index)) else None) = packet_record unit packet p).
  { intros Hd. unfold packet_record. fold first. fold end_. fold d. destruct ((first <=? p) && _) eqn:Er; [|done].
    by rewrite Hnew by (by apply stored_novel). }
  destruct (index_view (eb_index b) p) as [[m dd|]|] eqn:Ev; cbn [is_data] in *.
  - rewrite Hkeep by (rewrite ?Ev; done). destruct (proj1 Hh eq_refl) as [r Hr]. by rewrite Hr.
  - rewrite <- Hfresh by done. by destruct ((first <=? p) && _).
  - rewrite <- Hfresh by done. by destruct ((first <=? p) && _).
Qed.

Lemma stored_missing p :
  is_missing (mkBuffer index records) p = (bx_floor index <=? p) && is_missing b p
    && negb (bool_decide (is_Some (packet_record unit packet p))).
Proof using Hwf Hfit He.
  unfold is_missing. cbn [eb_index]. rewrite stored_view. unfold view_insert_data.
  destruct (N.ltb_spec p (bx_floor index)) as [Hp|Hp]; [by rewrite (proj2 (N.leb_gt _ _)) by done|].
  rewrite (proj2 (N.leb_le (bx_floor index) p)) by done. cbn [andb].
  pose proof (packet_record_in stream unit packet p Hfit) as Hin.
  unfold packet_record in *. fold first end_ in Hin |- *.
  destruct (index_view (eb_index b) p) as [[m dd|]|]; cbn [is_data]; try done.
  - destruct ((first <=? p) && _) eqn:Er; [|done]. apply andb_true_iff in Er as [?%N.leb_le ?%N.ltb_lt].
    rewrite bool_decide_eq_true_2; [done|]. by apply Hin.
  - by destruct ((first <=? p) && (p <? end_)).
Qed.
End storing.

Lemma store_spec stream b packet :
  buffer_wf stream b -> packet_fits stream packet ->
  let b' := (store b packet).1 in
  buffer_wf stream b' /\ bx_floor (eb_index b) <= bx_floor (eb_index b') /\
  same_shape (eb_index b) (eb_index b') /\
  bx_end (eb_index b') = N.max (bx_end (eb_index b))
    (h_first_sample (p_header packet) / eb_unit b + h_frame_count (p_header packet)) /\
  (forall p, held_record b' p =
    if p <? bx_floor (eb_index b') then None
    else match held_record b p with Some r => Some r | None => packet_record (eb_unit b) packet p end) /\
  (forall p, is_missing b' p = (bx_floor (eb_index b') <=? p) && is_missing b p
    && negb (bool_decide (is_Some (packet_record (eb_unit b) packet p)))).
Proof.
  intros Hwf Hfit. unfold store.
  destruct (insert_data (eb_index b) _ _ (meta_of packet) _) as [index novel] eqn:He. cbv zeta. cbn [fst eb_index].
  epose proof (insert_data_spec (eb_index b) _ _ (meta_of packet) _ (bw_index _ _ Hwf)) as Hs. rewrite He in Hs.
  destruct Hs as (_ & Hss & Hfl & Hend & _).
  split_and!; [by eapply stored_wf|lia|done|done| |].
  - intros p. by apply (stored_held stream).
  - intros p. by apply (stored_missing stream).
Qed.

(** ** Reports of missing audio *)
Lemma mark_missing_spec stream b span :
  buffer_wf stream b ->
  let b' := mark_missing b span in
  buffer_wf stream b' /\ bx_floor (eb_index b) <= bx_floor (eb_index b') /\
  same_shape (eb_index b) (eb_index b') /\
  (forall p, held_record b' p =
    if p <? bx_floor (eb_index b') then None else held_record b p) /\
  (forall p, is_missing b' p = (bx_floor (eb_index b') <=? p) &&
    (is_missing b p ||
     (bool_decide (held_record b p = None) && (sp_start span / eb_unit b <=? p)
      && (p <? div_ceil (sp_end span) (eb_unit b))))).
Proof.
  intros Hwf. cbv zeta. unfold mark_missing.
  set (first := sp_start span / eb_unit b). set (end_ := div_ceil (sp_end span) (eb_unit b)).
  destruct (insert_missing_spec (eb_index b) first end_ (bw_index _ _ Hwf))
    as (Hi' & Hss & Hfl & _ & Hview).
  set (index := insert_missing _ _ _) in *. pose proof Hss as (Hs1 & Hs2 & _). cbn [eb_index].
  split_and!; [|done|done| |].
  - split; cbn; [done| |by apply (bw_records _ _ Hwf)|].
    + unfold eb_unit. cbn. rewrite Hs1. apply (bw_unit _ _ Hwf).
    + rewrite Hs2. destruct (bw_ring _ _ Hwf) as [?|[? Hd]]; [by left|right]. split; [done|].
      intros p. rewrite Hview. unfold view_insert_missing. destruct (p <? _); [done|].
      specialize (Hd p). destruct (index_view _ p) as [[]|]; [done|done|]. by destruct (_ && _).
  - intros p. unfold held_record. cbn [eb_index eb_records]. rewrite Hview, Hs2.
    unfold view_insert_missing. destruct (p <? _); [done|].
    destruct (index_view _ p) as [[]|]; [done|done|]. by destruct (_ && _).
  - intros p. pose proof (held_record_data _ _ p Hwf) as Hh.
    unfold is_missing. cbn [eb_index]. rewrite Hview. unfold view_insert_missing.
    destruct (N.ltb_spec p (bx_floor index)) as [Hp|Hp]; [by rewrite (proj2 (N.leb_gt _ _)) by done|].
    rewrite (proj2 (N.leb_le (bx_floor index) p)) by done. cbn [andb].
    destruct (index_view (eb_index b) p) as [[m d|]|]; cbn [is_data orb] in *; [|done|].
    + destruct (proj1 Hh eq_refl) as [r ->]. by rewrite bool_decide_eq_false_2.
    + assert (held_record b p = None) as ->.
      { apply eq_None_not_Some. intros H. by apply Hh in H. }
      rewrite bool_decide_eq_true_2 by done. cbn [andb]. by destruct ((first <=? p) && (p <? end_)).
Qed.

Lemma buffer_new_wf stream retention max_blocks :
  buffer_wf stream (buffer_new stream retention max_blocks).
Proof.
  split; cbn; [|done|by destruct stream|right; split; [by destruct stream|done]].
  split; cbn; try lia. apply samples_per_frame_pos.
Qed.

(** ** Lookups and segments, in stream samples *)

(** What the buffer knows of the record holding sample [s], when [meta] is the
    timing of the record holding [start]. *)
Definition sample_ok (b : EpochBuffer) (start s : N) (kind : SegmentKind) : Prop :=
  let unit := eb_unit b in
  let q := s / unit in
  match kind with
  | Sk_Data meta d =>
      exists r, held_record b q =
        Some (advanced meta (q - start / unit) unit, d && (q =? start / unit), r)
  | Sk_Missing => is_missing b q = true
  | Sk_Evicted => q < bx_floor (eb_index b)
  | Sk_Unknown => bx_floor (eb_index b) <= q /\ held_record b q = None /\ is_missing b q = false
  end.

Definition lookup_kind (l : Lookup) : SegmentKind :=
  match l with
  | Lk_Data _ meta d => Sk_Data meta d
  | Lk_Missing _ => Sk_Missing
  | Lk_Evicted _ => Sk_Evicted
  | Lk_Unknown _ => Sk_Unknown
  end.

Definition buffer_marks (b : EpochBuffer) : list N := (fun m => m * eb_unit b) <$> index_marks (eb_index b).

Lemma held_record_view stream b q m d :
  buffer_wf stream b -> index_view (eb_index b) q = Some (V_Data m d) ->
  exists r, held_record b q = Some (m, d, r).
Proof.
  intros Hwf Hv. destruct (proj1 (held_record_data _ _ q Hwf)) as [[[m' d'] r] Hr];
    [by rewrite Hv|]. exists r. unfold held_record in *. rewrite Hv in *.
  destruct (ring_at _ _); [|done]. by injection Hr as <- <- <-.
Qed.

Lemma held_record_none b q :
  index_view (eb_index b) q = None -> held_record b q = None /\ is_missing b q = false.
Proof. unfold held_record, is_missing. by intros ->. Qed.

Lemma buffer_lookup_spec stream b pos :
  buffer_wf stream b ->
  (forall s, pos <= s -> (forall e, lookup_end (buffer_lookup b pos) = Some e -> s < e) ->
    sample_ok b pos s (lookup_kind (buffer_lookup b pos))) /\
  (forall e, lookup_end (buffer_lookup b pos) = Some e ->
    pos < e /\ e ∈ buffer_marks b /\ e mod eb_unit b = 0) /\
  (forall next, buffer_lookup b pos = Lk_Unknown (Some next) ->
    is_Some (held_record b (next / eb_unit b)) \/ is_missing b (next / eb_unit b) = true).
Proof.
  intros Hwf. set (u := eb_unit b). assert (Hu : u <> 0) by apply (ix_unit _ (bw_index _ _ Hwf)).
  destruct (index_lookup_spec (eb_index b) (pos / u) (bw_index _ _ Hwf)) as [Hok Hend].
  assert (He : forall e, lookup_end (buffer_lookup b pos) = Some e ->
    exists e0, e = e0 * u /\ lookup_end (index_lookup (eb_index b) (pos / u)) = Some e0).
  { unfold buffer_lookup. fold u. destruct (index_lookup _ _) as [?|?|?|[]]; cbn; intros e [= <-]; eauto. }
  assert (Hidx : forall s e, s < e * u -> s / u < e) by
    (intros s e Hs; apply N.Div0.div_lt_upper_bound; lia).
  split_and!.
  - intros s Hs Hse. pose proof (N.Div0.div_le_mono pos s u Hs) as Hq. unfold sample_ok. fold u.
    unfold buffer_lookup in *. fold u in Hse |- *.
    destruct (index_lookup (eb_index b) (pos / u)) as [e m d|e|e|[next|]];
      cbn [lookup_kind lookup_end lookup_ok fmap option_fmap option_map] in *.
    + specialize (Hidx s e (Hse _ eq_refl)). destruct Hok as (_ & _ & Hv).
      eapply held_record_view; [exact Hwf|]. apply Hv. lia.
    + specialize (Hidx s e (Hse _ eq_refl)). destruct Hok as (_ & _ & Hv).
      unfold is_missing. by rewrite Hv by lia.
    + specialize (Hidx s e (Hse _ eq_refl)). by destruct Hok as [_ <-].
    + specialize (Hidx s next (Hse _ eq_refl)). destruct Hok as (? & _ & _ & Hv).
      split; [lia|]. apply held_record_none, Hv. lia.
    + destruct Hok as (? & Hv). split; [lia|]. apply held_record_none, Hv. lia.
  - intros e (e0 & -> & He0)%He. destruct (Hend _ He0) as [H1 H2]. split_and!.
    + apply div_lt_mul; done.
    + unfold buffer_marks. apply list_elem_of_fmap. by exists e0.
    + by apply N.Div0.mod_mul.
  - intros next. unfold buffer_lookup. fold u.
    destruct (index_lookup (eb_index b) (pos / u)) as [e m d|e|e|[n|]]; try done.
    cbn. intros [= <-]. rewrite N.div_mul by done. destruct Hok as (_ & _ & Hn & _).
    pose proof (held_record_data _ _ n Hwf) as Hh. unfold is_missing.
    destruct (index_view (eb_index b) n) as [[]|]; [left; by apply Hh|by right|by destruct Hn].
Qed.

(** ** Segments *)
Definition segment_ok (b : EpochBuffer) (sg : Segment) : Prop :=
  forall s, sp_start (sg_span sg) <= s < sp_end (sg_span sg) ->
    sample_ok b (sp_start (sg_span sg)) s (sg_kind sg).

(** The spans follow each other, nonempty, from [pos] to [end_]. *)
Fixpoint tiling (pos : N) (segs : list Segment) (end_ : N) : Prop :=
  match segs with
  | sg :: rest =>
      sp_start (sg_span sg) = pos /\ pos < sp_end (sg_span sg) /\ sp_end (sg_span sg) <= end_ /\
      tiling (sp_end (sg_span sg)) rest end_
  | [] => end_ <= pos
  end.

Lemma segments_from_spec stream b end_ pos fuel :
  buffer_wf stream b -> (rank (buffer_marks b) pos < fuel)%nat ->
  exists segs, segments_from b fuel pos end_ = Some segs /\ tiling pos segs end_ /\
    Forall (segment_ok b) segs.
Proof.
  intros Hwf. revert pos. induction fuel as [|fuel IH]; intros pos Hf; [lia|]. cbn [segments_from].
  destruct (N.ltb_spec pos end_) as [Hlt|]; [|by exists []].
  destruct (buffer_lookup_spec _ _ pos Hwf) as (Hok & Hend & _).
  set (l := buffer_lookup b pos) in *.
  assert (Hstep : exists e, (match l with
      | Lk_Data e meta d => (e, Sk_Data meta d) | Lk_Missing e => (e, Sk_Missing)
      | Lk_Evicted until => (until, Sk_Evicted) | Lk_Unknown next => (default end_ next, Sk_Unknown)
      end) = (e, lookup_kind l) /\ pos < e /\
      (forall e', lookup_end l = Some e' -> e' = e) /\ (end_ <= e \/ e ∈ buffer_marks b)).
  { destruct l as [e m d|e|e|[e|]]; cbn in *; eexists; (split; [reflexivity|]).
    5: { split_and!; [done|done|by left]. }
    all: destruct (Hend _ eq_refl) as (? & ? & _); split_and!; [done|by intros ? [= <-]|by right]. }
  destruct Hstep as (e & -> & Hpe & Heq & Hmark). cbv beta iota.
  assert (Hsok : segment_ok b (mkSegment (mkSpan pos (N.min e end_)) (lookup_kind l))).
  { intros s Hs. cbn in Hs. apply Hok; [lia|]. intros e' He'. rewrite (Heq _ He'). lia. }
  destruct (N.le_gt_cases end_ e) as [Hge|Hgt].
  - replace (N.min e end_) with end_ in * by lia.
    assert (segments_from b fuel end_ end_ = Some []) as ->.
    { destruct fuel; cbn; by rewrite N.ltb_irrefl. }
    eexists. split; [done|]. cbn. split_and!; try done. by constructor.
  - replace (N.min e end_) with e in * by lia. destruct Hmark as [|Hmark]; [lia|].
    pose proof (rank_lt _ _ _ Hmark Hpe).
    destruct (IH e ltac:(lia)) as (segs & -> & Ht & Hall). eexists. split; [done|]. cbn.
    split_and!; try done; [lia|]. by constructor.
Qed.

Lemma length_buffer_marks b : length (buffer_marks b) = (2 * length (bx_blocks (eb_index b)) + 1)%nat.
Proof. unfold buffer_marks, index_marks. rewrite length_fmap. cbn. rewrite length_block_marks. lia. Qed.

Lemma segments_spec stream b span :
  buffer_wf stream b ->
  exists segs, segments b span = Some segs /\ tiling (sp_start span) segs (sp_end span) /\
    Forall (segment_ok b) segs.
Proof.
  intros Hwf. apply (segments_from_spec stream); [done|]. unfold segments_fuel.
  pose proof (rank_le (buffer_marks b) (sp_start span)). rewrite length_buffer_marks in *. lia.
Qed.

(** ** Chunks *)

(** A PCM record is a 16-bit sample, and zero under digital silence. *)
Definition rec_ok (m : BlockMeta) (r : Rec) : Prop :=
  match r with
  | R_Pcm z => i16_range z /\ (bits_contain (bm_flags m) FLAG_DIGITAL_SILENCE = true -> z = 0%Z)
  | _ => True
  end.

Definition records_valid (b : EpochBuffer) : Prop :=
  forall p m d r, held_record b p = Some (m, d, r) -> rec_ok m r.

Lemma meta_of_silence p :
  bits_contain (bm_flags (meta_of p)) FLAG_DIGITAL_SILENCE = true ->
  bits_contain (h_flags (p_header p)) FLAG_DIGITAL_SILENCE = true.
Proof.
  unfold bits_contain, meta_of, FLAG_DIGITAL_SILENCE, FLAG_DISCONTINUITY. cbn [bm_flags].
  destruct (flags_from_bits _) as [f|] eqn:E; cbn [default]; [|done].
  apply flags_from_bits_Some in E as [-> _]. rewrite !N.eqb_eq. intros Hl.
  transitivity (N.land (N.ldiff (h_flags (p_header p)) 1) 16); [|done].
  apply N.bits_inj. intros n. rewrite !N.land_spec, N.ldiff_spec.
  destruct (N.eq_dec n 0) as [->|Hn]; [by rewrite !andb_false_r|].
  replace (N.testbit 1 n) with false; [by rewrite andb_true_r|].
  symmetry. apply N.bits_above_log2. cbn. lia.
Qed.

Lemma packet_record_ok stream unit p q m d r :
  packet_fits stream p -> packet_record unit p q = Some (m, d, r) -> rec_ok m r.
Proof.
  intros [Hk Hr _]. unfold packet_record. destruct (_ && _); [|done].
  destruct (content_records _ !! _) as [r'|] eqn:E; [|done]. cbn. intros [= <- _ <-].
  pose proof (content_valid_rules _ Hr) as Hv. revert E Hv. unfold rec_ok. cbn [advanced bm_flags].
  intros E Hv. destruct r' as [z| |]; [|done..].
  assert (Hz : i16_range z /\ (content p = C_DigitalSilence (h_frame_count (p_header p)) -> z = 0%Z)).
  { destruct (content p) as [l|n|l|l]; cbn in E.
    - rewrite list_lookup_fmap in E. destruct (l !! _) as [z'|] eqn:El; [|done]. injection E as <-.
      split; [by eapply Forall_lookup_1|done].
    - apply lookup_replicate in E as [[= ->] _]. unfold i16_range. split; [lia|done].
    - rewrite list_lookup_fmap in E. by destruct (l !! _).
    - rewrite list_lookup_fmap in E. by destruct (l !! _). }
  destruct Hz as [Hz1 Hz2]. split; [done|]. intros Hs%meta_of_silence. apply Hz2.
  unfold content. pose proof (hr_silence _ (er_header _ _ Hr) Hs) as ->. by rewrite Hs.
Qed.

Lemma store_valid stream b packet :
  buffer_wf stream b -> packet_fits stream packet -> records_valid b ->
  records_valid (store b packet).1.
Proof.
  intros Hwf Hfit Hv p m d r. destruct (store_spec _ _ _ Hwf Hfit) as (_ & _ & _ & _ & -> & _).
  destruct (p <? _); [done|]. destruct (held_record b p) as [[[m' d'] r']|] eqn:E.
  - intros [= <- <- <-]. by eapply Hv.
  - by apply packet_record_ok with (stream := stream).
Qed.

Lemma mark_missing_valid stream b span :
  buffer_wf stream b -> records_valid b -> records_valid (mark_missing b span).
Proof.
  intros Hwf Hv p m d r. destruct (mark_missing_spec _ b span Hwf) as (_ & _ & _ & -> & _).
  destruct (p <? _); [done|]. apply Hv.
Qed.

Definition chunk_records (d : ChunkData) : list Rec :=
  match d with
  | Cd_Pcm pcm => R_Pcm <$> pcm_samples pcm
  | Cd_DigitalSilence frames => replicate (N.to_nat frames) (R_Pcm 0%Z)
  | Cd_Cells cells => R_Cell <$> cells
  | Cd_Afe records => R_Afe <$> records
  end.

(** The records held in [span], in order. *)
Definition held_records (b : EpochBuffer) (span : Span) : list (option Rec) :=
  let first := sp_start span / eb_unit b in
  (fun i => snd <$> held_record b (first + N.of_nat i))
    <$> seq 0 (N.to_nat (sp_end span / eb_unit b - first)).

(** A span that is held with the flags of [meta]; every piece of a lookup is. *)
Definition span_held (b : EpochBuffer) (span : Span) (meta : BlockMeta) : Prop :=
  sp_start span mod eb_unit b = 0 /\ sp_end span mod eb_unit b = 0 /\
  forall q, sp_start span / eb_unit b <= q < sp_end span / eb_unit b ->
    exists m d r, held_record b q = Some (m, d, r) /\ bm_flags m = bm_flags meta.

Definition span_present (b : EpochBuffer) (span : Span) : Prop :=
  forall q, sp_start span / eb_unit b <= q < sp_end span / eb_unit b -> is_Some (held_record b q).

Lemma span_held_present b span meta : span_held b span meta -> span_present b span.
Proof. intros (_ & _ & H) q Hq. destruct (H q Hq) as (m & d & r & -> & _). done. Qed.

(** The packet's records are those held, wherever the two overlap. *)
Definition packet_agrees (b : EpochBuffer) (packet : Packet) : Prop :=
  forall q r r', snd <$> held_record b q = Some r ->
    snd <$> packet_record (eb_unit b) packet q = Some r' -> r = r'.

(** A copy out of the ring is what is held. *)
Lemma copy_ring_held {A} (inj : A -> Rec) (dflt : A) (ring : list A) b span :
  (forall i, ring_at (eb_records b) i = inj <$> ring !! i) -> span_present b span ->
  Some <$> (inj <$> copy_ring dflt ring (slots b span)) = held_records b span.
Proof.
  intros Hat Hh. unfold copy_ring, slots, held_records.
  rewrite <- !list_fmap_compose. apply list_fmap_ext. intros i x Hx%lookup_seq.
  destruct Hx as [-> Hlt]. cbn [compose]. cbn.
  destruct (Hh (sp_start span / eb_unit b + N.of_nat i) ltac:(lia)) as [[[m d] r] Hr].
  rewrite Hr. cbn. unfold held_record in Hr. destruct (index_view _ _) as [[]|]; [|done|done].
  rewrite Hat in Hr. destruct (ring !! _); [|done]. cbn in *. by injection Hr as <- <- <-.
Qed.

Lemma unit_pcm stream b ring :
  buffer_wf stream b -> eb_records b = Rc_Pcm ring ->
  eb_unit b = 1 /\ (stream = Mic \/ stream = Reference).
Proof.
  intros [_ Hu Hr _] Hring. rewrite Hu. rewrite Hring in Hr. destruct stream; cbn in *; tauto.
Qed.

(** Under digital silence every held record is a zero sample. *)
Lemma silence_held stream b ring span meta :
  buffer_wf stream b -> records_valid b -> eb_records b = Rc_Pcm ring -> span_held b span meta ->
  bits_contain (bm_flags meta) FLAG_DIGITAL_SILENCE = true ->
  Some <$> replicate (N.to_nat (span_len span)) (R_Pcm 0%Z) = held_records b span.
Proof.
  intros Hwf Hv Hring (_ & _ & Hh) Hs. destruct (unit_pcm _ _ _ Hwf Hring) as [Hu _].
  unfold held_records, span_len. rewrite Hu in *. rewrite !N.div_1_r in *.
  apply list_eq. intros i. rewrite !list_lookup_fmap.
  destruct (decide (i < N.to_nat (sp_end span - sp_start span))%nat) as [Hi|Hi].
  - rewrite lookup_replicate_2, lookup_seq_lt by done. cbn.
    destruct (Hh (sp_start span + N.of_nat i) ltac:(lia)) as (m & d & r & Hr & Hm).
    rewrite Hr. cbn. do 2 f_equal. pose proof (Hv _ _ _ _ Hr) as Hok.
    unfold held_record in Hr. rewrite Hring in Hr. destruct (index_view _ _) as [[]|]; [|done|done].
    cbn in Hr. destruct (ring !! _) as [z|]; [|done]. injection Hr as <- <- <-. cbn in Hok.
    f_equal. symmetry. apply Hok. by rewrite Hm.
  - rewrite lookup_seq_ge by lia. rewrite (lookup_ge_None_2 (replicate _ _)) by (rewrite length_replicate; lia). done.
Qed.

(** The packet's own payload bytes are what is held, when they agree. *)
Lemma slice_held stream b ring span meta p pcm :
  buffer_wf stream b -> eb_records b = Rc_Pcm ring -> span_held b span meta ->
  packet_fits stream p -> packet_agrees b p -> packet_slice (Some p) span = Some pcm ->
  Some <$> (R_Pcm <$> pcm_samples pcm) = held_records b span.
Proof.
  intros Hwf Hring (_ & _ & Hh) [Hk Hr He] Ha. destruct (unit_pcm _ _ _ Hwf Hring) as [Hu Hst].
  unfold packet_slice. destruct (negb _ && _ && _) eqn:Eb; [|done]. intros [= <-].
  rewrite !andb_true_iff, negb_true_iff, !N.leb_le in Eb. destruct Eb as [[Hs H1] H2].
  set (f := h_first_sample (p_header p)) in *. set (n := h_frame_count (p_header p)) in *.
  assert (Hspf : samples_per_frame (stream_kind stream) = 1) by (destruct Hst as [-> | ->]; done).
  rewrite Hspf, N.mul_1_r in He.
  assert (Hlen : N.of_nat (length (p_payload p)) = n * 2).
  { rewrite (er_length _ _ Hr). unfold header_payload_bytes. rewrite Hk. unfold payload_bytes.
    rewrite Hs. by destruct Hst as [-> | ->]. }
  assert (Hc : content p = C_Pcm (i16_from_le <$> as_chunks 2 (p_payload p))).
  { unfold content. rewrite Hk, Hs. by destruct Hst as [-> | ->]. }
  unfold held_records, pcm_samples, slice. rewrite Hu in *. rewrite !N.div_1_r in *.
  set (a := N.to_nat (sp_start span - f)). set (k := N.to_nat (sp_end span - sp_start span)).
  replace (N.to_nat ((sp_end span - f) * 2) - N.to_nat ((sp_start span - f) * 2))%nat
    with (k * 2)%nat by lia.
  replace (N.to_nat ((sp_start span - f) * 2)) with (a * 2)%nat by lia.
  apply list_eq. intros i. rewrite !list_lookup_fmap.
  destruct (decide (i < k)%nat) as [Hi|Hi].
  - rewrite as_chunks_slice, lookup_seq_lt by lia. cbn.
    destruct (Hh (sp_start span + N.of_nat i) ltac:(lia)) as (m & d & r & Hq & _). rewrite Hq. cbn.
    assert (Hin : is_Some (as_chunks 2 (p_payload p) !! (a + i)%nat)).
    { apply lookup_lt_is_Some. rewrite length_as_chunks by lia.
      apply (Nat.div_le_lower_bound (length (p_payload p)) 2 (S (a + i))); lia. }
    destruct Hin as [c Hc']. rewrite Hc'. cbn. f_equal. f_equal. symmetry.
    apply (Ha (sp_start span + N.of_nat i)); [by rewrite Hq|]. unfold packet_record.
    rewrite Hu, N.div_1_r. fold f n.
    rewrite (proj2 (N.leb_le _ _)), (proj2 (N.ltb_lt _ _)) by lia. cbn [andb].
    rewrite Hc. cbn [content_records]. rewrite !list_lookup_fmap.
    replace (N.to_nat (sp_start span + N.of_nat i - f)) with (a + i)%nat by lia. by rewrite Hc'.
  - rewrite lookup_seq_ge by lia. cbn. rewrite (lookup_ge_None_2 (as_chunks _ _)); [done|].
    rewrite length_as_chunks, length_take by lia. apply (Nat.le_trans _ k); [|lia].
    apply Nat.Div0.div_le_upper_bound. lia.
Qed.

Lemma copied_pcm_held stream b ring span meta :
  buffer_wf stream b -> records_valid b -> eb_records b = Rc_Pcm ring -> span_held b span meta ->
  Some <$> (R_Pcm <$> pcm_samples (concat (i16_to_le <$> copy_ring 0%Z ring (slots b span))))
  = held_records b span.
Proof.
  intros Hwf Hv Hring Hh. unfold pcm_samples. rewrite pcm_bytes_roundtrip.
  - apply copy_ring_held; [|by eapply span_held_present]. intros i. by rewrite Hring.
  - pose proof (copy_ring_held R_Pcm 0%Z ring b span ltac:(by rewrite Hring)
      (span_held_present _ _ _ Hh)) as He.
    apply Forall_lookup_2. intros i z Hz. destruct Hh as (_ & _ & Hh).
    assert (Hi : held_records b span !! i = Some (Some (R_Pcm z)))
      by (by rewrite <- He, !list_lookup_fmap, Hz).
    unfold held_records in Hi. rewrite list_lookup_fmap in Hi.
    destruct (seq _ _ !! i) as [j|]; [|done]. cbn in Hi. injection Hi as Hi.
    destruct (held_record b _) as [[[m d] r]|] eqn:Eh; [|done]. injection Hi as ->.
    by apply (Hv _ _ _ _ Eh).
Qed.

(** ** Properties *)

(** Storing a packet keeps the buffer well formed and changes what it holds
    exactly so: records below the raised floor are forgotten, a record already
    held keeps its first copy with the timing of the packet that brought it, and
    the packet's other records are held with its own, a missing mark giving way
    to them. *)
Theorem store_first_copy_wins stream b packet :
  buffer_wf stream b -> packet_fits stream packet ->
  let b' := (store b packet).1 in
  buffer_wf stream b' /\
  (forall p, held_record b' p =
    if p <? bx_floor (eb_index b') then None
    else match held_record b p with Some r => Some r | None => packet_record (eb_unit b) packet p end) /\
  (forall p, is_missing b' p = (bx_floor (eb_index b') <=? p) && is_missing b p
    && negb (bool_decide (is_Some (packet_record (eb_unit b) packet p)))).
Proof.
  intros Hwf Hfit. by destruct (store_spec _ _ _ Hwf Hfit) as (? & _ & _ & _ & ? & ?).
Qed.

(** The pieces of a read follow each other from its start to its end without a
    hole or an overlap, the loop that makes them ends, and each piece says of
    every sample in it exactly what the buffer knows: held with the timing
    carried forward to it, reported missing, dropped, or unknown. *)
Theorem segments_tile stream b span :
  buffer_wf stream b ->
  exists segs, segments b span = Some segs /\ tiling (sp_start span) segs (sp_end span) /\
    Forall (segment_ok b) segs.
Proof. apply segments_spec. Qed.

(** A chunk carries exactly the records held in its span, in order, whether
    they are copied out of the ring, cut from the packet that brought them, or
    stand for digital silence. *)
Theorem chunk_data_exact stream b span meta packet :
  buffer_wf stream b -> records_valid b -> span_held b span meta ->
  (forall p, packet = Some p -> packet_fits stream p /\ packet_agrees b p) ->
  Some <$> chunk_records (chunk_data b span meta packet) = held_records b span.
Proof.
  intros Hwf Hv Hh Hp. unfold chunk_data, copy_cells, copy_afe.
  destruct (eb_records b) as [ring|ring|ring] eqn:Er; cbn [app].
  - destruct (bits_contain (bm_flags meta) _) eqn:Es.
    { by eapply silence_held. }
    destruct (packet_slice packet span) as [pcm|] eqn:Ep.
    + destruct packet as [p|]; [|done]. destruct (Hp p eq_refl) as [Hf Ha]. by eapply slice_held.
    + by eapply copied_pcm_held.
  - apply copy_ring_held; [|by eapply span_held_present]. intros i. by rewrite Er.
  - apply copy_ring_held; [|by eapply span_held_present]. intros i. by rewrite Er.
Qed.

(** A buffer's operations, in the order the timeline calls them. *)
Inductive BufferOp := Bo_Store (packet : Packet) | Bo_Missing (span : Span).
Definition buffer_step (b : EpochBuffer) (op : BufferOp) : EpochBuffer :=
  match op with Bo_Store p => (store b p).1 | Bo_Missing s => mark_missing b s end.
Definition op_fits (stream : StreamId) (op : BufferOp) : Prop :=
  match op with Bo_Store p => packet_fits stream p | Bo_Missing _ => True end.

Lemma buffer_step_wf stream b op :
  buffer_wf stream b -> records_valid b -> op_fits stream op ->
  buffer_wf stream (buffer_step b op) /\ records_valid (buffer_step b op) /\
  same_shape (eb_index b) (eb_index (buffer_step b op)).
Proof.
  intros Hwf Hv Hop. destruct op as [p|s]; cbn.
  - destruct (store_spec _ _ _ Hwf Hop) as (? & _ & ? & _).
    split_and!; [done|by eapply store_valid|done].
  - destruct (mark_missing_spec _ b s Hwf) as (? & _ & ? & _).
    split_and!; [done|by eapply mark_missing_valid|done].
Qed.

(** C40: Whatever packets arrive and however they overlap, an epoch's buffer stays
    within its bounds: at most [max_blocks] runs of metadata, nothing held older
    than its retention behind the newest record, and a ring no longer than the
    capacity. *)
Theorem buffer_bounded stream retention max_blocks ops b :
  Forall (op_fits stream) ops ->
  b = foldl buffer_step (buffer_new stream retention max_blocks) ops ->
  buffer_wf stream b /\ records_valid b /\
  let capacity := N.max (retention / samples_per_frame (stream_kind stream)) 1 in
  (length (bx_blocks (eb_index b)) <= Nat.max max_blocks 1)%nat /\
  (ring_length (eb_records b) <= N.to_nat capacity)%nat /\
  (forall p, is_Some (held_record b p) -> bx_end (eb_index b) - capacity <= p < bx_end (eb_index b)).
Proof.
  intros Hops ->.
  assert (H : forall b, buffer_wf stream b -> records_valid b ->
    buffer_wf stream (foldl buffer_step b ops) /\ records_valid (foldl buffer_step b ops) /\
    same_shape (eb_index b) (eb_index (foldl buffer_step b ops))).
  { induction Hops as [|op ops Hop _ IH]; intros b Hwf Hv; [done|]. cbn.
    destruct (buffer_step_wf _ _ _ Hwf Hv Hop) as (Hwf' & Hv' & (S1 & S2 & S3)).
    destruct (IH _ Hwf' Hv') as (? & ? & (T1 & T2 & T3)).
    split_and!; [done|done|]. split_and!; congruence. }
  destruct (H _ (buffer_new_wf stream retention max_blocks)) as (Hwf & Hv & (_ & Hc & Hm)).
  { intros p m d r. unfold held_record. done. }
  split_and!; [done|done|]. cbv zeta. cbn in Hc, Hm. pose proof (bw_index _ _ Hwf) as Hi.
  split_and!.
  - rewrite <- Hm. apply (ix_blocks _ Hi).
  - rewrite <- Hc. destruct (bw_ring _ _ Hwf) as [->|[-> _]]; lia.
  - intros p Hp%(held_record_data _ _ _ Hwf). unfold index_view in Hp.
    destruct (view _ _ p) eqn:Ev; [|done]. apply (view_bounds _ _ _ _ _ _ (ix_chain _ Hi)) in Ev.
    pose proof (ix_floor _ Hi). rewrite Hc in *. lia.
Qed.

(** A parsed packet of the stream's kind fits. *)
Lemma packet_fits_parsed stream frame p :
  parse frame = Ok p -> h_kind (p_header p) = stream_kind stream -> packet_fits stream p.
Proof.
  intros (_ & Hr & [He _]%header_end_Some & _)%parse_ok Hk. split; [done|done|]. by rewrite He, Hk.
Qed.

(** ** Witnesses *)
Definition mic_packet (first mono_ns : N) (flags : N) (pcm : list Z) : Packet := {|
  p_header := {| h_kind := K_Mic; h_flags := flags; h_epoch := 7; h_sequence := 1;
    h_first_sample := first; h_mono_ns := mono_ns; h_uncertainty_us := Some 5;
    h_frame_count := N.of_nat (length pcm); h_generation := 0; h_source_mask := 0 |};
  p_end_sample := first + N.of_nat (length pcm);
  p_payload := concat (i16_to_le <$> pcm) |}.
Definition packet_frame (p : Packet) : list byte :=
  header_write (p_header p) (header_payload_bytes (p_header p)) ++ p_payload p.

Definition example_first : Packet := mic_packet 10 1000 FLAG_DISCONTINUITY [1%Z; 2%Z; 3%Z; 4%Z].
Definition example_second : Packet := mic_packet 12 900 0 [30%Z; 40%Z; 50%Z; 60%Z].
Definition example_buffer : EpochBuffer := (store (buffer_new Mic 6 8) example_first).1.

Lemma example_first_fits : packet_fits Mic example_first.
Proof. by apply (packet_fits_parsed Mic (packet_frame example_first)). Qed.
Lemma example_second_fits : packet_fits Mic example_second.
Proof. by apply (packet_fits_parsed Mic (packet_frame example_second)). Qed.

Lemma store_first_copy_wins_witness :
  let b' := (store example_buffer example_second).1 in
  buffer_wf Mic b' /\
  (fun p => snd <$> held_record b' p) <$> [10; 11; 12; 13; 14; 15; 16]
  = [Some (R_Pcm 1%Z); Some (R_Pcm 2%Z); Some (R_Pcm 3%Z); Some (R_Pcm 4%Z);
     Some (R_Pcm 50%Z); Some (R_Pcm 60%Z); None].
Proof.
  split; [|vm_compute; reflexivity].
  refine (proj1 (store_first_copy_wins Mic example_buffer example_second _ example_second_fits)).
  refine (proj1 (store_spec Mic _ _ (buffer_new_wf Mic 6 8) example_first_fits)).
Defined.

Lemma segments_tile_witness :
  segments example_buffer (mkSpan 8 16) = Some
    [mkSegment (mkSpan 8 10) Sk_Unknown;
     mkSegment (mkSpan 10 14) (Sk_Data (mkMeta 0 1000 (Some 5) 0) true);
     mkSegment (mkSpan 14 16) Sk_Unknown] /\
  exists segs, segments example_buffer (mkSpan 8 16) = Some segs /\ tiling 8 segs 16 /\
    Forall (segment_ok example_buffer) segs.
Proof.
  split; [vm_compute; reflexivity|].
  refine (segments_tile Mic example_buffer (mkSpan 8 16) _).
  refine (proj1 (store_spec Mic _ _ (buffer_new_wf Mic 6 8) example_first_fits)).
Defined.

Lemma example_buffer_valid : buffer_wf Mic example_buffer /\ records_valid example_buffer.
Proof.
  destruct (buffer_step_wf Mic (buffer_new Mic 6 8) (Bo_Store example_first)) as (H1 & H2 & _);
    [apply buffer_new_wf|done|apply example_first_fits|]. by split.
Qed.

Lemma chunk_data_exact_witness :
  Some <$> chunk_records (chunk_data example_buffer (mkSpan 11 13) (mkMeta 0 0 None 0)
    (Some example_first)) = [Some (R_Pcm 2%Z); Some (R_Pcm 3%Z)].
Proof.
  refine (eq_trans (chunk_data_exact Mic example_buffer (mkSpan 11 13) (mkMeta 0 0 None 0)
    (Some example_first) (proj1 example_buffer_valid) (proj2 example_buffer_valid) _ _) _).
  - split_and!; [vm_compute; reflexivity|vm_compute; reflexivity|].
    intros q Hq. change (11 <= q < 13) in Hq.
    assert (q = 11 \/ q = 12) as [-> | ->] by lia; eexists _, _, _; split; vm_compute; reflexivity.
  - intros p [= <-]. split; [exact example_first_fits|]. intros q r r' H1 H2.
    unfold packet_record in H2. change (h_first_sample _ / _) with 10 in H2.
    change (h_frame_count _) with 4 in H2.
    destruct (N.leb_spec 10 q), (N.ltb_spec q (10 + 4)); cbn [andb fmap option_fmap option_map] in H2;
      try discriminate H2.
    assert (q = 10 \/ q = 11 \/ q = 12 \/ q = 13) as [-> | [-> | [-> | ->]]] by lia;
      vm_compute in H1, H2; congruence.
  - vm_compute; reflexivity.
Defined.

Lemma buffer_bounded_witness :
  let b := foldl buffer_step (buffer_new Mic 6 8)
    [Bo_Store example_first; Bo_Missing (mkSpan 14 20); Bo_Store example_second] in
  buffer_wf Mic b.
Proof.
  refine (proj1 (buffer_bounded Mic 6 8
    [Bo_Store example_first; Bo_Missing (mkSpan 14 20); Bo_Store example_second] _ _ eq_refl)).
  repeat constructor; apply example_first_fits || apply example_second_fits.
Defined.
