(* ===== verification/Timeline.v ===== *)
(** * The session's audio timeline ([uplink/src/timeline.rs])

    [Track] records how one stream epoch's packets arrive: live packets move
    forward, a packet that goes back belongs to a backfill run, and a new run is
    handed to the oldest subscription waiting for one.  [Timeline] keeps the
    bounded list of epochs of each stream, reads from them, and erases them on
    the privacy mute.  A method that takes [&mut self] returns the new state. *)
From S2P Require Import Prelude Bytes WireEnum Ema Vocab Clock Blocks Buffer.

(** ** Arrival order of one stream epoch *)
(** [SubKey]: a session-unique number. *)
Abbreviation SubKey := N.

Record Claim := mkClaim { cl_key : SubKey; cl_fresh : bool; cl_floor : option N }.

Inductive Path := Advance | RunPath (owner : option SubKey).
#[export] Instance Path_eq_dec : EqDecision Path.
Proof. solve_decision. Defined.

Inductive Attribution := At_Run (start : N) | At_NoRun.

Record Run := mkRun { run_next : N; run_owner : option SubKey }.

Record Classified := mkClassified {
  cf_path : Path;
  cf_missing : option Span;
  cf_attributed : list (SubKey * Attribution);
}.

Record Track := mkTrack {
  tk_live_end : option N;
  tk_runs : list Run;
  tk_claims : list Claim;
}.

Definition track_default : Track := mkTrack None [] [].

Definition track_claim (t : Track) (claim : Claim) : Track :=
  mkTrack (tk_live_end t) (tk_runs t) (tk_claims t ++ [claim]).

Definition track_drop_claims (t : Track) (key : SubKey) : Track :=
  mkTrack (tk_live_end t) (tk_runs t) (retain (fun c => negb (cl_key c =? key)) (tk_claims t)).

(** [hand_over]: the remaining claims, what each popped claim is told, and the
    claim the run goes to. *)
Fixpoint hand_over (claims : list Claim) (first : N) (fresh_only : bool) :
    list Claim * list (SubKey * Attribution) * option SubKey :=
  match claims with
  | [] => ([], [], None)
  | front :: rest =>
      if fresh_only && negb (cl_fresh front) then (claims, [], None)
      else
        let below := match cl_floor front with Some floor => first <? floor | None => false end in
        if below then
          if fresh_only then (claims, [], None)
          else
            let '(claims, out, owner) := hand_over rest first fresh_only in
            (claims, (cl_key front, At_NoRun) :: out, owner)
        else (rest, [(cl_key front, At_Run first)], Some (cl_key front))
  end.

Definition classify (t : Track) (first end_ : N) (discontinuity : bool) : Track * Classified :=
  let below := match tk_live_end t with Some live => first <? live | None => false end in
  if below then
    let continuing :=
      match max_index (fun r => run_next r <=? first) run_next (tk_runs t) with
      | Some i =>
          match tk_runs t !! i with
          | Some run => if (first =? run_next run) || discontinuity then Some (i, run) else None
          | None => None
          end
      | None => None
      end in
    match continuing with
    | Some (i, run) =>
        let missing :=
          if run_next run <? first then Some (mkSpan (run_next run) first) else None in
        (mkTrack (tk_live_end t) (<[i := mkRun end_ (run_owner run)]> (tk_runs t)) (tk_claims t),
         mkClassified (RunPath (run_owner run)) missing [])
    | None =>
        let '(claims, attributed, owner) := hand_over (tk_claims t) first false in
        (mkTrack (tk_live_end t) (tk_runs t ++ [mkRun end_ owner]) claims,
         mkClassified (RunPath owner) None attributed)
    end
  else
    let missing :=
      match tk_live_end t with
      | Some live => if discontinuity && (live <? first) then Some (mkSpan live first) else None
      | None => None
      end in
    let '(claims, attributed, _) := hand_over (tk_claims t) first true in
    (mkTrack (Some end_) [] claims, mkClassified Advance missing attributed).

(** ** The epochs *)
Record EpochStream := mkEpochStream { es_epoch : N; es_buffer : EpochBuffer; es_track : Track }.

Inductive ReadError :=
  | UnknownEpoch
  | WrongStream
  | Misaligned
  | NotHeld (segment : Segment).

(** [stores: [StreamStore; 4]], by [slot]. *)
Record Stores := mkStores {
  st_mic : list EpochStream; st_cells : list EpochStream;
  st_afe : list EpochStream; st_reference : list EpochStream;
}.
Definition stores_get (s : Stores) (stream : StreamId) : list EpochStream :=
  match stream with
  | Mic => st_mic s | Cells => st_cells s | Afe => st_afe s | Reference => st_reference s
  end.
Definition stores_set (s : Stores) (stream : StreamId) (es : list EpochStream) : Stores :=
  match stream with
  | Mic => mkStores es (st_cells s) (st_afe s) (st_reference s)
  | Cells => mkStores (st_mic s) es (st_afe s) (st_reference s)
  | Afe => mkStores (st_mic s) (st_cells s) es (st_reference s)
  | Reference => mkStores (st_mic s) (st_cells s) (st_afe s) es
  end.

Record Timeline := mkTimeline {
  tl_config : UplinkConfig;
  tl_stores : Stores;
  tl_capture : option N;
  tl_reference : option N;
  tl_erased : gset N;
}.

Definition timeline_new (config : UplinkConfig) : Timeline :=
  mkTimeline config (mkStores [] [] [] []) None None ∅.

Definition epochs (tl : Timeline) (stream : StreamId) : list EpochStream :=
  stores_get (tl_stores tl) stream.

Definition with_epochs (tl : Timeline) (stream : StreamId) (es : list EpochStream) : Timeline :=
  mkTimeline (tl_config tl) (stores_set (tl_stores tl) stream es) (tl_capture tl) (tl_reference tl)
    (tl_erased tl).

Definition find_epoch (es : list EpochStream) (epoch : N) : option EpochStream :=
  find_first (fun e => es_epoch e =? epoch) es.
Definition timeline_get (tl : Timeline) (stream : StreamId) (epoch : N) : option EpochStream :=
  find_epoch (epochs tl stream) epoch.

(** An assignment through [get_mut]. *)
Definition timeline_update (tl : Timeline) (stream : StreamId) (epoch : N)
    (f : EpochStream -> EpochStream) : Timeline :=
  with_epochs tl stream (update_first (fun e => es_epoch e =? epoch) f (epochs tl stream)).

Definition timeline_end (tl : Timeline) (stream : StreamId) (epoch : N) : option N :=
  (fun e => buffer_end (es_buffer e)) <$> timeline_get tl stream epoch.

Definition check_grid (stream : StreamId) (span : Span) : result ReadError unit :=
  let unit := samples_per_frame (stream_kind stream) in
  if negb (is_multiple_of (sp_start span) unit) || negb (is_multiple_of (sp_end span) unit)
  then Err Misaligned else Ok tt.

(** The segments of a buffer; its loop always ends ([segments_spec]). *)
Definition segments_list (b : EpochBuffer) (span : Span) : list Segment :=
  default [] (segments b span).

Definition timeline_segments (tl : Timeline) (stream : StreamId) (epoch : N) (span : Span) :
    result ReadError (list Segment) :=
  let? held := ok_or UnknownEpoch (timeline_get tl stream epoch) in
  let? _ := check_grid stream span in
  Ok (segments_list (es_buffer held) span).

Definition is_data_segment (sg : Segment) : bool :=
  match sg_kind sg with Sk_Data _ _ => true | _ => false end.

Definition timeline_held (tl : Timeline) (stream : StreamId) (epoch : N) (span : Span) :
    result ReadError EpochBuffer :=
  let? held := ok_or UnknownEpoch (timeline_get tl stream epoch) in
  let? _ := check_grid stream span in
  match find_first (fun sg => negb (is_data_segment sg)) (segments_list (es_buffer held) span) with
  | Some gap => Err (NotHeld gap)
  | None => Ok (es_buffer held)
  end.

(** The reads append to [out] and return it. *)
Definition read_pcm (tl : Timeline) (stream : StreamId) (epoch : N) (span : Span) (out : list Z) :
    result ReadError (list Z) :=
  if negb (bool_decide (stream = Mic) || bool_decide (stream = Reference)) then Err WrongStream
  else
    let? buffer := timeline_held tl stream epoch span in
    Ok (copy_pcm buffer span out).
Definition read_cells (tl : Timeline) (epoch : N) (span : Span) (out : list Cell) :
    result ReadError (list Cell) :=
  let? buffer := timeline_held tl Cells epoch span in
  Ok (copy_cells buffer span out).
Definition read_afe (tl : Timeline) (epoch : N) (span : Span) (out : list AfeRecord) :
    result ReadError (list AfeRecord) :=
  let? buffer := timeline_held tl Afe epoch span in
  Ok (copy_afe buffer span out).

Definition is_erased (tl : Timeline) (stream : StreamId) (epoch : N) : bool :=
  negb (bool_decide (stream = Reference)) && bool_decide (epoch ∈ tl_erased tl).

Definition epochs_kept (config : UplinkConfig) (stream : StreamId) : nat :=
  Nat.max match stream with
    | Reference => reference_epochs_kept config
    | _ => capture_epochs_kept config
    end 1.

(** [while epochs.len() >= kept { pop_front() }]. *)
Fixpoint make_room {A} (kept : nat) (l : list A) : list A :=
  match l with
  | _ :: rest => if (kept <=? length l)%nat then make_room kept rest else l
  | [] => []
  end.

Definition epoch_new (config : UplinkConfig) (stream : StreamId) (epoch : N) : EpochStream :=
  mkEpochStream epoch (buffer_new stream (retention_of (retention config) stream) (max_blocks config))
    track_default.

(** [ensure]; the reference it returns is reached through [timeline_update]. *)
Definition ensure (tl : Timeline) (stream : StreamId) (epoch : N) : Timeline :=
  let es := epochs tl stream in
  match position (fun e => es_epoch e =? epoch) es with
  | Some _ => tl
  | None =>
      with_epochs tl stream
        (make_room (epochs_kept (tl_config tl) stream) es ++ [epoch_new (tl_config tl) stream epoch])
  end.

Definition set_capture (tl : Timeline) (epoch : option N) : Timeline :=
  mkTimeline (tl_config tl) (tl_stores tl) epoch (tl_reference tl) (tl_erased tl).
Definition set_reference (tl : Timeline) (epoch : option N) : Timeline :=
  mkTimeline (tl_config tl) (tl_stores tl) (tl_capture tl) epoch (tl_erased tl).

Definition map_stores (f : StreamId -> list EpochStream -> list EpochStream) (s : Stores) : Stores :=
  mkStores (f Mic (st_mic s)) (f Cells (st_cells s)) (f Afe (st_afe s)) (f Reference (st_reference s)).

Definition drop_epoch_claims (key : SubKey) (e : EpochStream) : EpochStream :=
  mkEpochStream (es_epoch e) (es_buffer e) (track_drop_claims (es_track e) key).

Definition timeline_drop_claims (tl : Timeline) (key : SubKey) : Timeline :=
  mkTimeline (tl_config tl) (map_stores (fun _ => fmap (drop_epoch_claims key)) (tl_stores tl))
    (tl_capture tl) (tl_reference tl) (tl_erased tl).

Definition STREAMS : list StreamId := [Mic; Cells; Afe; Reference].

(** [erase]: the capture epochs go and are refused from now on, the reference
    epochs are emptied. *)
Definition erase_epochs (config : UplinkConfig) (stream : StreamId) (es : list EpochStream) :
    list EpochStream :=
  match stream with
  | Reference => (fun e => epoch_new config Reference (es_epoch e)) <$> es
  | _ => []
  end.
Definition erased_epochs (stream : StreamId) (es : list EpochStream) : gset N :=
  match stream with Reference => ∅ | _ => list_to_set (es_epoch <$> es) end.

Definition erase (tl : Timeline) : Timeline :=
  let gone := ⋃ ((fun stream => erased_epochs stream (epochs tl stream)) <$> STREAMS) in
  let capture : gset N := match tl_capture tl with Some e => {[ e ]} | None => ∅ end in
  mkTimeline (tl_config tl) (map_stores (erase_epochs (tl_config tl)) (tl_stores tl)) None
    (tl_reference tl) (tl_erased tl ∪ gone ∪ capture).

Definition timeline_clear (tl : Timeline) : Timeline :=
  mkTimeline (tl_config tl) (mkStores [] [] [] []) None None (tl_erased tl).

(** ** Who gets a run *)
Definition can_take (first : N) (c : Claim) : bool :=
  match cl_floor c with Some floor => floor <=? first | None => true end.
Definition no_runs (cs : list Claim) : list (SubKey * Attribution) :=
  (fun c => (cl_key c, At_NoRun)) <$> cs.

(** A run starting at [first] goes to the oldest claim it can belong to; those
    it passes over are told they get none. *)
Inductive handed (first : N) : list Claim -> list (SubKey * Attribution) -> option SubKey -> Prop :=
  | handed_none passed :
      Forall (fun c => can_take first c = false) passed -> handed first passed (no_runs passed) None
  | handed_run passed c :
      Forall (fun c => can_take first c = false) passed -> can_take first c = true ->
      handed first (passed ++ [c]) (no_runs passed ++ [(cl_key c, At_Run first)]) (Some (cl_key c)).

Lemma below_can_take first c :
  match cl_floor c with Some floor => first <? floor | None => false end = negb (can_take first c).
Proof.
  unfold can_take. destruct (cl_floor c) as [f|]; [|done]. by rewrite N.leb_antisym, negb_involutive.
Qed.

Lemma hand_over_run claims first rest out owner :
  hand_over claims first false = (rest, out, owner) ->
  exists taken, claims = taken ++ rest /\ handed first taken out owner /\ (owner = None -> rest = []).
Proof.
  revert rest out owner. induction claims as [|c claims IH]; intros rest out owner; cbn.
  { intros [= <- <- <-]. exists []. split_and!; [done|by apply (handed_none first [])|done]. }
  rewrite below_can_take. destruct (can_take first c) eqn:Ec; cbn.
  - intros [= <- <- <-]. exists [c]. split_and!; [done|by apply (handed_run first [])|done].
  - destruct (hand_over claims first false) as [[rest' out'] owner'] eqn:E. intros [= <- <- <-].
    destruct (IH _ _ _ eq_refl) as (taken & -> & Hh & Ho). exists (c :: taken).
    split_and!; [done| |done]. destruct Hh as [passed Hp|passed c' Hp Hc'].
    + apply (handed_none first (c :: passed)). by constructor.
    + apply (handed_run first (c :: passed)); [by constructor|done].
Qed.

(** Live audio answers only a fresh claim, and only the oldest. *)
Lemma hand_over_live claims first rest out owner :
  hand_over claims first true = (rest, out, owner) ->
  (rest = claims /\ out = [] /\ owner = None) \/
  exists c, claims = c :: rest /\ cl_fresh c = true /\ can_take first c = true /\
    out = [(cl_key c, At_Run first)] /\ owner = Some (cl_key c).
Proof.
  destruct claims as [|c claims]; cbn; [intros [= <- <- <-]; by left|].
  rewrite below_can_take. destruct (cl_fresh c) eqn:Ef, (can_take first c) eqn:Ec; cbn;
    intros [= <- <- <-]; [right; by exists c|by left..].
Qed.

(** Placing a packet is the device's order.  A packet below the live position
    is part of a backfill run and leaves the live position alone; one at or past
    it moves the live position to its end and closes every run.  Claims are
    answered from the front and the others keep their order: a new run goes to
    the oldest claim whose start it does not precede, those passed over are told
    they get none, and live audio answers at most one claim, a fresh one.  A
    range is reported missing only when the packet is flagged, and then it is
    the one between the position reached and the packet. *)
Theorem classify_spec t first end_ discontinuity :
  let '(t', c) := classify t first end_ discontinuity in
  (exists taken, tk_claims t = taken ++ tk_claims t' /\
    match cf_path c with
    | Advance =>
        (forall live, tk_live_end t = Some live -> live <= first) /\
        tk_live_end t' = Some end_ /\ tk_runs t' = [] /\
        (cf_attributed c = [] /\ taken = [] \/
         exists cl, taken = [cl] /\ cl_fresh cl = true /\ can_take first cl = true /\
           cf_attributed c = [(cl_key cl, At_Run first)])
    | RunPath owner =>
        (exists live, tk_live_end t = Some live /\ first < live) /\
        tk_live_end t' = tk_live_end t /\
        ((taken = [] /\ cf_attributed c = [] /\
          exists i run, tk_runs t !! i = Some run /\ run_owner run = owner /\ run_next run <= first /\
            (forall run', run' ∈ tk_runs t -> run_next run' <= first -> run_next run' <= run_next run) /\
            tk_runs t' = <[i := mkRun end_ owner]> (tk_runs t)) \/
         (handed first taken (cf_attributed c) owner /\ cf_missing c = None /\
          tk_runs t' = tk_runs t ++ [mkRun end_ owner]))
    end) /\
  (forall span, cf_missing c = Some span ->
    discontinuity = true /\ sp_start span < first /\ sp_end span = first /\
    (tk_live_end t = Some (sp_start span) \/ sp_start span ∈ (run_next <$> tk_runs t))).
Proof.
  unfold classify.
  destruct (match tk_live_end t with Some live => first <? live | None => false end) eqn:Eb.
  - destruct (tk_live_end t) as [live|] eqn:El; [|done]. apply N.ltb_lt in Eb.
    assert (Hnew : let '(claims, attributed, owner) := hand_over (tk_claims t) first false in
      exists taken, tk_claims t = taken ++ claims /\ handed first taken attributed owner).
    { destruct (hand_over _ _ _) as [[claims out] owner] eqn:Eh.
      apply hand_over_run in Eh as (taken & ? & ? & _). eauto. }
    destruct (max_index _ _ _) as [i|] eqn:Em.
    + apply max_index_Some in Em as (run & Hi & Hn%N.leb_le & Hmax). rewrite Hi.
      destruct ((first =? run_next run) || discontinuity) eqn:Ed.
      * cbn. split.
        { exists []. split_and!; [done|by exists live|done|left]. split_and!; [done|done|].
          exists i, run. split_and!; try done. intros run' Hin Hle. by apply Hmax, N.leb_le. }
        intros span. destruct (N.ltb_spec (run_next run) first); [|done]. intros [= <-]. cbn.
        rewrite (proj2 (N.eqb_neq _ _)) in Ed by lia. split_and!; [done|done|done|right].
        apply list_elem_of_fmap. exists run. split; [done|by eapply list_elem_of_lookup_2].
      * destruct (hand_over _ _ _) as [[claims out] owner]. destruct Hnew as (taken & Ht & Hh). cbn.
        split; [|done]. exists taken. split_and!; [done|by exists live|done|by right].
    + destruct (hand_over _ _ _) as [[claims out] owner]. destruct Hnew as (taken & Ht & Hh). cbn.
      split; [|done]. exists taken. split_and!; [done|by exists live|done|by right].
  - destruct (hand_over _ _ _) as [[claims out] owner] eqn:Eh. cbn. split.
    + assert (Hl : forall live, tk_live_end t = Some live -> live <= first).
      { intros live El. rewrite El in Eb. by apply N.ltb_ge. }
      apply hand_over_live in Eh as [(-> & -> & _)|(cl & -> & ? & ? & -> & _)].
      * exists []. split_and!; [done|done|done|done|by left].
      * exists [cl]. split_and!; [done|done|done|done|right]. by exists cl.
    + intros span. destruct (tk_live_end t) as [live|]; [|done].
      destruct (discontinuity && (live <? first)) eqn:Ed; [|done]. intros [= <-].
      apply andb_true_iff in Ed as [-> Hlt%N.ltb_lt]. cbn. split_and!; try done. by left.
Qed.

(** ** The timeline's invariant *)
Definition epoch_wf (stream : StreamId) (e : EpochStream) : Prop :=
  buffer_wf stream (es_buffer e) /\ records_valid (es_buffer e).

Record epochs_wf (config : UplinkConfig) (stream : StreamId) (es : list EpochStream) : Prop := {
  ew_distinct : NoDup (es_epoch <$> es);
  ew_kept : (length es <= epochs_kept config stream)%nat;
  ew_each : Forall (epoch_wf stream) es;
}.

Definition timeline_wf (tl : Timeline) : Prop :=
  forall stream, epochs_wf (tl_config tl) stream (epochs tl stream).

Lemma stores_get_set s stream es stream' :
  stores_get (stores_set s stream es) stream'
  = if bool_decide (stream' = stream) then es else stores_get s stream'.
Proof. by destruct stream, stream'. Qed.

Lemma epochs_with tl stream es stream' :
  epochs (with_epochs tl stream es) stream' = if bool_decide (stream' = stream) then es else epochs tl stream'.
Proof. apply stores_get_set. Qed.

Lemma epochs_with_eq tl stream es : epochs (with_epochs tl stream es) stream = es.
Proof. rewrite epochs_with. by rewrite bool_decide_eq_true_2. Qed.

Lemma stores_get_map f s stream : stores_get (map_stores f s) stream = f stream (stores_get s stream).
Proof. by destruct stream. Qed.

Lemma with_epochs_wf tl stream es :
  timeline_wf tl -> epochs_wf (tl_config tl) stream es -> timeline_wf (with_epochs tl stream es).
Proof.
  intros Hwf Hes stream'. rewrite epochs_with. case_bool_decide; [by subst|]. apply Hwf.
Qed.

Lemma epoch_new_wf config stream epoch : epoch_wf stream (epoch_new config stream epoch).
Proof. split; [apply buffer_new_wf|]. intros p m d r. done. Qed.

Lemma epochs_wf_nil config stream : epochs_wf config stream [].
Proof. split; cbn; [constructor|lia|constructor]. Qed.

Lemma timeline_new_wf config : timeline_wf (timeline_new config).
Proof. intros stream. destruct stream; apply epochs_wf_nil. Qed.

Lemma find_epoch_Some es epoch e :
  find_epoch es epoch = Some e -> e ∈ es /\ es_epoch e = epoch.
Proof. intros [H1 H2%N.eqb_eq]%find_first_Some. done. Qed.

Lemma find_epoch_None es epoch : find_epoch es epoch = None <-> epoch ∉ es_epoch <$> es.
Proof.
  unfold find_epoch. rewrite find_first_None, any_false. split.
  - intros H (e & -> & He)%list_elem_of_fmap. specialize (H e He). cbn in H. by rewrite N.eqb_refl in H.
  - intros H e He. apply N.eqb_neq. intros <-. apply H, list_elem_of_fmap. eauto.
Qed.

Lemma timeline_get_wf tl stream epoch e :
  timeline_wf tl -> timeline_get tl stream epoch = Some e ->
  epoch_wf stream e /\ es_epoch e = epoch /\ e ∈ epochs tl stream.
Proof.
  intros Hwf [H1 H2]%find_epoch_Some. split_and!; [|done|done].
  by eapply Forall_forall in H1; [|apply (ew_each _ _ _ (Hwf stream))].
Qed.

Lemma update_first_epochs epoch f es :
  (forall e, es_epoch (f e) = es_epoch e) ->
  es_epoch <$> update_first (fun e => es_epoch e =? epoch) f es = es_epoch <$> es.
Proof.
  intros Hf. induction es as [|e es IH]; cbn; [done|].
  destruct (es_epoch e =? epoch); cbn; [by rewrite Hf|by rewrite IH].
Qed.

Lemma update_first_Forall {A} (P : A -> Prop) p f (l : list A) :
  (forall x, P x -> p x = true -> P (f x)) -> Forall P l -> Forall P (update_first p f l).
Proof.
  intros Hf. induction 1 as [|x l Hx Hl IH]; cbn; [constructor|].
  destruct (p x) eqn:E; constructor; auto.
Qed.

Lemma timeline_update_wf tl stream epoch f :
  timeline_wf tl -> (forall e, es_epoch (f e) = es_epoch e) ->
  (forall e, epoch_wf stream e -> epoch_wf stream (f e)) ->
  timeline_wf (timeline_update tl stream epoch f).
Proof.
  intros Hwf He Hf. apply with_epochs_wf; [done|]. destruct (Hwf stream) as [H1 H2 H3]. split.
  - by rewrite update_first_epochs.
  - by rewrite length_update_first.
  - apply update_first_Forall; [|done]. auto.
Qed.

Lemma find_epoch_update es epoch f epoch' :
  (forall e, es_epoch (f e) = es_epoch e) ->
  find_epoch (update_first (fun e => es_epoch e =? epoch) f es) epoch'
  = (if epoch' =? epoch then f else id) <$> find_epoch es epoch'.
Proof.
  intros Hf. unfold find_epoch, find_first. induction es as [|e es IH]; cbn; [done|].
  destruct (N.eqb_spec (es_epoch e) epoch) as [<-|Hne]; cbn.
  - rewrite Hf. destruct (N.eqb_spec (es_epoch e) epoch') as [<-|Hne']; cbn.
    + by rewrite N.eqb_refl.
    + destruct (N.eqb_spec epoch' (es_epoch e)); [congruence|].
      by destruct (List.find _ es).
  - destruct (N.eqb_spec (es_epoch e) epoch') as [<-|Hne']; cbn; [|done].
    by destruct (N.eqb_spec (es_epoch e) epoch).
Qed.

Lemma timeline_get_update tl stream epoch f stream' epoch' :
  (forall e, es_epoch (f e) = es_epoch e) ->
  timeline_get (timeline_update tl stream epoch f) stream' epoch'
  = (if bool_decide (stream' = stream) && (epoch' =? epoch) then f else id)
    <$> timeline_get tl stream' epoch'.
Proof.
  intros Hf. unfold timeline_get, timeline_update. rewrite epochs_with.
  case_bool_decide; [subst; by apply find_epoch_update|].
  cbn. by destruct (find_epoch _ _).
Qed.

Lemma drop_claims_wf tl key : timeline_wf tl -> timeline_wf (timeline_drop_claims tl key).
Proof.
  intros Hwf stream. unfold epochs, timeline_drop_claims. cbn. rewrite stores_get_map.
  destruct (Hwf stream) as [H1 H2 H3]. split.
  - rewrite <- list_fmap_compose. exact H1.
  - by rewrite length_fmap.
  - apply Forall_fmap. eapply Forall_impl; [exact H3|]. by intros e [? ?].
Qed.

(** ** Keeping room for a new epoch *)
Lemma make_room_spec {A} kept (l : list A) :
  (1 <= kept)%nat -> exists dropped, l = dropped ++ make_room kept l /\
    (length (make_room kept l) < kept)%nat /\ ((length l < kept)%nat -> make_room kept l = l).
Proof.
  intros Hk. induction l as [|x l IH]; cbn [make_room]; [exists []; cbn; auto|].
  destruct (Nat.leb_spec kept (length (x :: l))) as [Hge|Hlt].
  - destruct IH as (dropped & Hd & Hl & _). exists (x :: dropped). split_and!; [by rewrite Hd at 1|done|].
    cbn in *. lia.
  - exists []. auto.
Qed.


Lemma ensure_held tl stream epoch :
  epoch ∈ es_epoch <$> epochs tl stream -> ensure tl stream epoch = tl.
Proof.
  intros Hin. unfold ensure. destruct (position _ _) eqn:E; [done|].
  exfalso. apply position_None in E. apply (find_epoch_None (epochs tl stream) epoch); [|done].
  by apply find_first_None.
Qed.

Lemma ensure_new tl stream epoch :
  epoch ∉ es_epoch <$> epochs tl stream ->
  ensure tl stream epoch = with_epochs tl stream
    (make_room (epochs_kept (tl_config tl) stream) (epochs tl stream)
     ++ [epoch_new (tl_config tl) stream epoch]).
Proof.
  intros Hin. unfold ensure. apply find_epoch_None, find_first_None, position_None in Hin.
  by rewrite Hin.
Qed.

Lemma epochs_kept_pos config stream : (1 <= epochs_kept config stream)%nat.
Proof. unfold epochs_kept. lia. Qed.

Lemma ensure_wf tl stream epoch : timeline_wf tl -> timeline_wf (ensure tl stream epoch).
Proof.
  intros Hwf. destruct (decide (epoch ∈ es_epoch <$> epochs tl stream)) as [Hin|Hout].
  { by rewrite ensure_held. }
  rewrite ensure_new by done. apply with_epochs_wf; [done|]. destruct (Hwf stream) as [H1 H2 H3].
  destruct (make_room_spec _ (epochs tl stream) (epochs_kept_pos (tl_config tl) stream))
    as (dropped & Hd & Hl & _).
  rewrite Hd in H1, H3, Hout. rewrite fmap_app in H1, Hout. split.
  - rewrite fmap_app. apply NoDup_app in H1 as (_ & _ & H1). apply NoDup_app. split_and!; [done| |].
    + intros x Hx [-> | []%elem_of_nil]%elem_of_cons. apply Hout, elem_of_app. by right.
    + apply NoDup_singleton.
  - rewrite length_app. cbn. lia.
  - apply Forall_app in H3 as [_ H3]. apply Forall_app. split; [done|]. constructor; [|done].
    apply epoch_new_wf.
Qed.

Lemma ensure_epochs_other tl stream epoch stream' :
  stream' <> stream -> epochs (ensure tl stream epoch) stream' = epochs tl stream'.
Proof.
  intros Hne. unfold ensure. destruct (position _ _); [done|]. rewrite epochs_with.
  by rewrite bool_decide_eq_false_2.
Qed.

Lemma ensure_in tl stream epoch : epoch ∈ es_epoch <$> epochs (ensure tl stream epoch) stream.
Proof.
  destruct (decide (epoch ∈ es_epoch <$> epochs tl stream)) as [Hin|Hout]; [by rewrite ensure_held|].
  rewrite ensure_new, epochs_with_eq, fmap_app by done. apply elem_of_app. right. by left.
Qed.

Lemma ensure_subset tl stream epoch stream' x :
  x ∈ es_epoch <$> epochs (ensure tl stream epoch) stream' ->
  x ∈ es_epoch <$> epochs tl stream' \/ (stream' = stream /\ x = epoch).
Proof.
  destruct (decide (stream' = stream)) as [->|Hne]; [|rewrite ensure_epochs_other by done; by left].
  destruct (decide (epoch ∈ es_epoch <$> epochs tl stream)) as [Hin|Hout];
    [rewrite ensure_held by done; by left|].
  rewrite ensure_new, epochs_with_eq, fmap_app by done.
  intros [Hx|[->|[]%elem_of_nil]%elem_of_cons]%elem_of_app; [left|by right].
  destruct (make_room_spec _ (epochs tl stream) (epochs_kept_pos (tl_config tl) stream))
    as (dropped & Hd & _). rewrite Hd, fmap_app. apply elem_of_app. by right.
Qed.

Lemma ensure_fields tl stream epoch :
  tl_config (ensure tl stream epoch) = tl_config tl /\
  tl_capture (ensure tl stream epoch) = tl_capture tl /\
  tl_reference (ensure tl stream epoch) = tl_reference tl /\
  tl_erased (ensure tl stream epoch) = tl_erased tl.
Proof. unfold ensure. by destruct (position _ _). Qed.

(** [ensure] makes a stream epoch available and keeps the bound: the epochs of
    a stream stay distinct and no more than configured, one already held keeps
    its audio and its arrival order, a new one starts empty, only the oldest are
    dropped for it and only when there is no room. *)
Theorem ensure_spec tl stream epoch :
  timeline_wf tl ->
  timeline_wf (ensure tl stream epoch) /\
  (epoch ∈ es_epoch <$> epochs tl stream -> ensure tl stream epoch = tl) /\
  (epoch ∉ es_epoch <$> epochs tl stream -> exists dropped kept,
    epochs tl stream = dropped ++ kept /\
    epochs (ensure tl stream epoch) stream = kept ++ [epoch_new (tl_config tl) stream epoch] /\
    (length (epochs tl stream) < epochs_kept (tl_config tl) stream -> dropped = [])%nat) /\
  (forall stream', stream' <> stream -> epochs (ensure tl stream epoch) stream' = epochs tl stream') /\
  is_Some (timeline_get (ensure tl stream epoch) stream epoch).
Proof.
  intros Hwf. split_and!; [by apply ensure_wf|apply ensure_held| |apply ensure_epochs_other|].
  - intros Hout. rewrite ensure_new, epochs_with_eq by done.
    destruct (make_room_spec _ (epochs tl stream) (epochs_kept_pos (tl_config tl) stream))
      as (dropped & Hd & _ & Hkeep).
    exists dropped, (make_room (epochs_kept (tl_config tl) stream) (epochs tl stream)).
    split_and!; [done|done|]. intros Hlt. apply (f_equal length) in Hd.
    rewrite Hkeep, length_app in Hd by done. destruct dropped; [done|cbn in Hd; lia].
  - unfold timeline_get. destruct (find_epoch _ _) eqn:E; [done|].
    apply find_epoch_None in E. destruct E. apply ensure_in.
Qed.

(** ** The privacy mute *)
Lemma erase_epochs_get tl stream :
  epochs (erase tl) stream = erase_epochs (tl_config tl) stream (epochs tl stream).
Proof. unfold erase, epochs. cbn. apply stores_get_map. Qed.

Lemma erase_wf tl : timeline_wf tl -> timeline_wf (erase tl).
Proof.
  intros Hwf stream. rewrite erase_epochs_get. destruct (Hwf stream) as [H1 H2 H3].
  destruct stream; cbn; try apply epochs_wf_nil. split.
  - rewrite <- list_fmap_compose. exact H1.
  - by rewrite length_fmap.
  - apply Forall_fmap, Forall_true. intros e. apply epoch_new_wf.
Qed.

Lemma erased_in tl stream epoch :
  stream <> Reference ->
  epoch ∈ es_epoch <$> epochs tl stream \/ tl_capture tl = Some epoch \/ epoch ∈ tl_erased tl ->
  epoch ∈ tl_erased (erase tl).
Proof.
  intros Hs H. unfold erase. cbn [tl_erased]. rewrite !elem_of_union.
  destruct H as [H|[->|H]]; [|right; by apply elem_of_singleton|by left; left]. left. right.
  apply elem_of_union_list. exists (erased_epochs stream (epochs tl stream)). split.
  - apply list_elem_of_fmap. exists stream. split; [done|]. unfold STREAMS. rewrite !elem_of_cons. destruct stream; tauto.
  - destruct stream; cbn; try done; by apply elem_of_list_to_set.
Qed.

(** The privacy mute erases: no audio of a capture stream is held any longer,
    the reference epochs stay open but empty, and every capture epoch that was
    held or current is refused from then on, as every one erased before. *)
Theorem erase_forgets tl stream epoch span :
  timeline_wf tl ->
  timeline_wf (erase tl) /\ tl_capture (erase tl) = None /\
  (stream <> Reference ->
    timeline_segments (erase tl) stream epoch span = Err UnknownEpoch /\
    (is_Some (timeline_get tl stream epoch) \/ tl_capture tl = Some epoch \/
     is_erased tl stream epoch = true -> is_erased (erase tl) stream epoch = true)) /\
  (es_epoch <$> epochs (erase tl) Reference) = (es_epoch <$> epochs tl Reference) /\
  (forall e p, e ∈ epochs (erase tl) Reference ->
    held_record (es_buffer e) p = None /\ es_track e = track_default).
Proof.
  intros Hwf. split_and!; [by apply erase_wf|done| | |].
  - intros Hs. split.
    + unfold timeline_segments, timeline_get. rewrite erase_epochs_get. by destruct stream.
    + intros H. unfold is_erased in *. rewrite bool_decide_eq_false_2 in * by done. cbn in *.
      apply bool_decide_eq_true. apply (erased_in tl stream); [done|].
      destruct H as [[e [Hin <-]%find_epoch_Some]|[H|H%bool_decide_eq_true]]; [left|by right; left|by right; right].
      apply list_elem_of_fmap. eauto.
  - rewrite erase_epochs_get. cbn. rewrite <- list_fmap_compose. done.
  - intros e p. rewrite erase_epochs_get. intros (e' & -> & _)%list_elem_of_fmap. done.
Qed.

(** ** Reads *)
Lemma tiling_find pos segs end_ s :
  tiling pos segs end_ -> pos <= s < end_ ->
  exists sg, sg ∈ segs /\ sp_start (sg_span sg) <= s < sp_end (sg_span sg).
Proof.
  revert pos. induction segs as [|sg segs IH]; intros pos; cbn; [lia|]. intros (<- & H1 & H2 & Ht) Hs.
  destruct (N.lt_ge_cases s (sp_end (sg_span sg))) as [Hl|Hg].
  - exists sg. split; [by left|lia].
  - destruct (IH _ Ht) as (sg' & Hin & ?); [lia|]. exists sg'. split; [by right|done].
Qed.

Lemma segments_list_spec stream b span :
  buffer_wf stream b ->
  tiling (sp_start span) (segments_list b span) (sp_end span) /\
  Forall (segment_ok b) (segments_list b span).
Proof.
  intros Hwf. unfold segments_list. by destruct (segments_spec _ _ span Hwf) as (segs & -> & ? & ?).
Qed.

(** The first piece that is not held, with everything before it held. *)
Lemma find_gap b pos segs end_ gap :
  tiling pos segs end_ -> Forall (segment_ok b) segs ->
  find_first (fun sg => negb (is_data_segment sg)) segs = Some gap ->
  pos <= sp_start (sg_span gap) /\ sp_start (sg_span gap) < sp_end (sg_span gap) <= end_ /\
  segment_ok b gap /\ is_data_segment gap = false /\
  (forall s, pos <= s < sp_start (sg_span gap) -> is_Some (held_record b (s / eb_unit b))).
Proof.
  unfold find_first. revert pos. induction segs as [|sg segs IH]; intros pos; cbn [tiling List.find]; [done|].
  intros (<- & H1 & H2 & Ht) [Hok Hall]%Forall_cons. destruct (is_data_segment sg) eqn:Ed; cbn [negb].
  - intros Hf. destruct (IH _ Ht Hall Hf) as (H3 & H4 & H5 & H6 & H7).
    split_and!; try done; [lia|lia|lia|]. intros s Hs.
    destruct (N.lt_ge_cases s (sp_end (sg_span sg))) as [Hl|Hg]; [|apply H7; lia].
    specialize (Hok s ltac:(lia)). unfold is_data_segment in Ed.
    destruct (sg_kind sg); [|done..]. destruct Hok as [r ->]. done.
  - intros [= <-]. split_and!; done || lia.
Qed.

Lemma timeline_held_Ok tl stream epoch span b :
  timeline_wf tl -> timeline_held tl stream epoch span = Ok b ->
  exists e, timeline_get tl stream epoch = Some e /\ es_buffer e = b /\ span_present b span.
Proof.
  intros Hwf. unfold timeline_held. rewrite bind_ok. intros (e & Hg%ok_or_ok & H).
  rewrite bind_ok in H. destruct H as ([] & Hgrid & H).
  destruct (timeline_get_wf _ _ _ _ Hwf Hg) as ([Hb _] & _ & _).
  destruct (segments_list_spec _ _ span Hb) as [Ht Hall].
  destruct (find_first _ _) eqn:Ef; [done|]. injection H as <-. exists e. split_and!; [done|done|].
  apply find_first_None in Ef. rewrite any_false in Ef.
  intros q Hq. assert (Hu : eb_unit (es_buffer e) <> 0) by apply (ix_unit _ (bw_index _ _ Hb)).
  assert (Hs : sp_start span <= q * eb_unit (es_buffer e) < sp_end span).
  { unfold check_grid in Hgrid. rewrite guard_ok, orb_false_iff, !negb_false in Hgrid.
    destruct Hgrid as [[Ha He] _]. rewrite <- (bw_unit _ _ Hb) in Ha, He.
    rewrite is_multiple_of_spec in Ha, He by done.
    pose proof (N.div_mod (sp_start span) _ Hu). pose proof (N.div_mod (sp_end span) _ Hu). nia. }
  destruct (tiling_find _ _ _ _ Ht Hs) as (sg & Hin & Hsg).
  specialize (Ef _ Hin). apply negb_false in Ef. unfold is_data_segment in Ef.
  eapply Forall_forall in Hall; [|exact Hin]. specialize (Hall _ Hsg). unfold sample_ok in Hall.
  rewrite N.div_mul in Hall by done. destruct (sg_kind sg); [|done..]. destruct Hall as [r ->]. done.
Qed.

(** What a read of [span] promises, for records of one type. *)
Definition read_outcome {A} (inj : A -> Rec) (carries : bool) (tl : Timeline) (stream : StreamId)
    (epoch : N) (span : Span) (out : list A) (r : result ReadError (list A)) : Prop :=
  match r with
  | Ok out' => carries = true /\ exists e values, timeline_get tl stream epoch = Some e /\
      out' = out ++ values /\ Some <$> (inj <$> values) = held_records (es_buffer e) span
  | Err WrongStream => carries = false
  | Err UnknownEpoch => carries = true /\ timeline_get tl stream epoch = None
  | Err Misaligned => carries = true /\ let unit := samples_per_frame (stream_kind stream) in
      ~ (sp_start span mod unit = 0 /\ sp_end span mod unit = 0)
  | Err (NotHeld gap) => carries = true /\ exists e, timeline_get tl stream epoch = Some e /\
      sp_start span <= sp_start (sg_span gap) /\
      sp_start (sg_span gap) < sp_end (sg_span gap) <= sp_end span /\
      segment_ok (es_buffer e) gap /\ is_data_segment gap = false /\
      forall s, sp_start span <= s < sp_start (sg_span gap) ->
        is_Some (held_record (es_buffer e) (s / eb_unit (es_buffer e)))
  end.

Lemma timeline_held_Err {A} (inj : A -> Rec) tl stream epoch span out err :
  timeline_wf tl -> timeline_held tl stream epoch span = Err err ->
  read_outcome inj true tl stream epoch span out (Err err).
Proof.
  intros Hwf. unfold timeline_held. destruct (timeline_get tl stream epoch) as [e|] eqn:Hg; cbn [ok_or].
  2: { by intros [= <-]. }
  destruct (check_grid stream span) as [[]|err'] eqn:Hgrid.
  - destruct (timeline_get_wf _ _ _ _ Hwf Hg) as ([Hb _] & _ & _).
    destruct (segments_list_spec _ _ span Hb) as [Ht Hall].
    destruct (find_first _ _) as [gap|] eqn:Ef; [|done]. intros [= <-]. cbn. split; [done|].
    exists e. split; [done|]. destruct (find_gap _ _ _ _ _ Ht Hall Ef) as (? & ? & ? & ? & ?). done.
  - intros [= <-]. unfold check_grid in Hgrid. destruct (_ || _) eqn:Eg; [|done].
    injection Hgrid as <-. cbn. split; [done|]. intros [H1 H2].
    pose proof (samples_per_frame_pos (stream_kind stream)) as Hu.
    by rewrite (proj2 (is_multiple_of_spec _ _ Hu) H1), (proj2 (is_multiple_of_spec _ _ Hu) H2) in Eg.
Qed.

Lemma read_held {A} (inj : A -> Rec) (dflt : A) (copy : EpochBuffer -> Span -> list A -> list A)
    (ring_of : EpochBuffer -> list A) tl stream epoch span out :
  timeline_wf tl ->
  (forall e, timeline_get tl stream epoch = Some e ->
    (forall i, ring_at (eb_records (es_buffer e)) i = inj <$> ring_of (es_buffer e) !! i) /\
    copy (es_buffer e) span out = out ++ copy_ring dflt (ring_of (es_buffer e)) (slots (es_buffer e) span)) ->
  read_outcome inj true tl stream epoch span out
    (let? buffer := timeline_held tl stream epoch span in Ok (copy buffer span out)).
Proof.
  intros Hwf Hring. destruct (timeline_held tl stream epoch span) as [b|err] eqn:Eh.
  - apply timeline_held_Ok in Eh as (e & Hg & <- & Hp); [|done].
    destruct (Hring _ Hg) as [Hat ->]. split; [done|].
    eexists _, _. split_and!; [done|done|]. by apply copy_ring_held.
  - by apply timeline_held_Err.
Qed.

(** A read by range is exact.  It succeeds only if every record of the range is
    held, and then it appends those records in order; otherwise it says why:
    the wrong kind of stream, an epoch that is not held, a range off the record
    grid, or the first piece that is not held, everything before it being
    held. *)
Theorem reads_exact tl stream epoch span pcm cells afes :
  timeline_wf tl ->
  read_outcome R_Pcm (bool_decide (stream = Mic \/ stream = Reference)) tl stream epoch span pcm
    (read_pcm tl stream epoch span pcm) /\
  read_outcome R_Cell true tl Cells epoch span cells (read_cells tl epoch span cells) /\
  read_outcome R_Afe true tl Afe epoch span afes (read_afe tl epoch span afes).
Proof.
  intros Hwf. split_and!.
  - unfold read_pcm. destruct (bool_decide (stream = Mic) || bool_decide (stream = Reference)) eqn:Es;
      cbn [negb].
    + assert (Hst : stream = Mic \/ stream = Reference)
        by (rewrite orb_true_iff, !bool_decide_eq_true in Es; done).
      rewrite bool_decide_eq_true_2 by done.
      apply (read_held R_Pcm 0%Z copy_pcm
        (fun b => match eb_records b with Rc_Pcm ring => ring | _ => [] end)); [done|].
      intros e ([Hb _] & _)%timeline_get_wf; [|done]. pose proof (bw_records _ _ Hb) as Hr.
      unfold copy_pcm. by destruct (eb_records (es_buffer e)), Hst as [-> | ->].
    + rewrite bool_decide_eq_false_2; [done|].
      rewrite orb_false_iff, !bool_decide_eq_false in Es. tauto.
  - apply (read_held R_Cell GAP_CELL copy_cells
      (fun b => match eb_records b with Rc_Cells ring => ring | _ => [] end)); [done|].
    intros e ([Hb _] & _)%timeline_get_wf; [|done]. pose proof (bw_records _ _ Hb) as Hr.
    unfold copy_cells. by destruct (eb_records (es_buffer e)).
  - apply (read_held R_Afe afe_default copy_afe
      (fun b => match eb_records b with Rc_Afe ring => ring | _ => [] end)); [done|].
    intros e ([Hb _] & _)%timeline_get_wf; [|done]. pose proof (bw_records _ _ Hb) as Hr.
    unfold copy_afe. by destruct (eb_records (es_buffer e)).
Qed.

(** ** Witnesses *)
Definition example_timeline : Timeline :=
  timeline_update (set_capture (ensure (timeline_new config_default) Mic 7) (Some 7)) Mic 7
    (fun e => mkEpochStream (es_epoch e) (store (es_buffer e) example_first).1
      (classify (es_track e) 10 14 true).1).

Lemma example_timeline_wf : timeline_wf example_timeline.
Proof.
  apply timeline_update_wf; [|done|].
  - exact (ensure_wf _ Mic 7 (timeline_new_wf config_default)).
  - intros e [Hb Hv]. split; [apply (store_spec Mic); [done|apply example_first_fits]|].
    eapply store_valid; [done|apply example_first_fits|done].
Qed.

Lemma ensure_spec_witness :
  timeline_wf (ensure example_timeline Mic 8) /\
  (es_epoch <$> epochs (ensure (ensure example_timeline Mic 8) Mic 9) Mic) = [8; 9].
Proof.
  split; [|vm_compute; reflexivity].
  refine (proj1 (ensure_spec example_timeline Mic 8 example_timeline_wf)).
Defined.

Lemma erase_forgets_witness :
  is_erased (erase example_timeline) Mic 7 = true /\
  timeline_segments (erase example_timeline) Mic 7 (mkSpan 10 14) = Err UnknownEpoch.
Proof.
  destruct (erase_forgets example_timeline Mic 7 (mkSpan 10 14) example_timeline_wf)
    as (_ & _ & H & _). destruct (H ltac:(done)) as [Hu He].
  split; [apply He; right; left; vm_compute; reflexivity|exact Hu].
Defined.

Lemma reads_exact_witness :
  read_pcm example_timeline Mic 7 (mkSpan 11 14) [9%Z] = Ok [9%Z; 2%Z; 3%Z; 4%Z] /\
  read_pcm example_timeline Mic 7 (mkSpan 12 16) []
    = Err (NotHeld (mkSegment (mkSpan 14 16) Sk_Unknown)) /\
  read_outcome R_Pcm true example_timeline Mic 7 (mkSpan 12 16) []
    (read_pcm example_timeline Mic 7 (mkSpan 12 16) []).
Proof.
  split_and!; [vm_compute; reflexivity|vm_compute; reflexivity|].
  refine (proj1 (reads_exact example_timeline Mic 7 (mkSpan 12 16) [] [] [] example_timeline_wf)).
Defined.
