(* ===== verification/Delivery.v ===== *)
(** * Deliveries and commands ([uplink/src/chunk.rs], [uplink/src/wire.rs]), and the outbox

    What a subscription delivers to its consumer, the commands the controller
    sends about it, and the queue between the uplink and its consumers
    ([Outbox] of [uplink/src/uplink.rs]) with its per-subscription accounts.
    [drain] subtracts unsigned counters: [None] is the underflow, which the
    theorem excludes. *)
From S2P Require Import Prelude Bytes WireEnum Ema Vocab Streams Clock Blocks Buffer.

(** ** Subscription commands *)
Definition SUBSCRIPTION_TTL : Duration := from_secs 3.
Definition RENEW_INTERVAL : Duration := from_secs 1.

Inductive SubscriptionReason :=
  | Sr_Candidate | Sr_Turn | Sr_Reply | Sr_Diagnostic | Sr_NearMiss.
#[export] Instance SubscriptionReason_wire : WireEnum SubscriptionReason := {
  as_str v := match v with
    | Sr_Candidate => "candidate"
    | Sr_Turn => "turn"
    | Sr_Reply => "reply"
    | Sr_Diagnostic => "diagnostic"
    | Sr_NearMiss => "near_miss"
    end%string;
  ALL := [Sr_Candidate; Sr_Turn; Sr_Reply; Sr_Diagnostic; Sr_NearMiss];
}.
#[export] Instance SubscriptionReason_laws : WireLaws SubscriptionReason.
Proof. solve_wire_laws. Qed.
#[export] Instance SubscriptionReason_eq_dec : EqDecision SubscriptionReason.
Proof. solve_decision. Defined.

Inductive OpenReason := Or_Turn | Or_Reply | Or_Diagnostic | Or_NearMiss.
#[export] Instance OpenReason_wire : WireEnum OpenReason := {
  as_str v := match v with
    | Or_Turn => "turn"
    | Or_Reply => "reply"
    | Or_Diagnostic => "diagnostic"
    | Or_NearMiss => "near_miss"
    end%string;
  ALL := [Or_Turn; Or_Reply; Or_Diagnostic; Or_NearMiss];
}.
#[export] Instance OpenReason_laws : WireLaws OpenReason.
Proof. solve_wire_laws. Qed.
#[export] Instance OpenReason_eq_dec : EqDecision OpenReason.
Proof. solve_decision. Defined.

(** [From<OpenReason> for SubscriptionReason]. *)
Definition reason_of_open (r : OpenReason) : SubscriptionReason :=
  match r with
  | Or_Turn => Sr_Turn
  | Or_Reply => Sr_Reply
  | Or_Diagnostic => Sr_Diagnostic
  | Or_NearMiss => Sr_NearMiss
  end.

Inductive CloseReason := Cr_Rejected | Cr_ArbitrationLost | Cr_Committed | Cr_Closed.
#[export] Instance CloseReason_wire : WireEnum CloseReason := {
  as_str v := match v with
    | Cr_Rejected => "rejected"
    | Cr_ArbitrationLost => "arbitration_lost"
    | Cr_Committed => "committed"
    | Cr_Closed => "closed"
    end%string;
  ALL := [Cr_Rejected; Cr_ArbitrationLost; Cr_Committed; Cr_Closed];
}.
#[export] Instance CloseReason_laws : WireLaws CloseReason.
Proof. solve_wire_laws. Qed.

(** [SubscriptionId] and [Owner] wrap a text. *)
Abbreviation SubscriptionId := string.
Abbreviation Owner := string.
Definition nonempty (id : string) : option string :=
  if bool_decide (id = EmptyString) then None else Some id.
Definition subscription_from_device (id : string) : option SubscriptionId := nonempty id.
Definition owner_new (id : string) : option Owner := nonempty id.
Definition owner_of_subscription (id : SubscriptionId) : Owner := id.

Abbreviation Generation := N.
Definition GENERATION_FIRST : Generation := 1.
Definition generation_next (g : Generation) : Generation := N.min (g + 1) u32_max.

Inductive StreamStart := StartAt (sample : Sample) | StartLive.

(** [BTreeMap<StreamId, StreamStart>]; it iterates in the order of the streams. *)
Definition StreamMap : Type := gmap StreamId StreamStart.
Definition stream_list (m : StreamMap) : list (StreamId * StreamStart) :=
  omap (fun s => pair s <$> m !! s) [Mic; Reference; Cells; Afe].

Record UplinkOpen := mkOpen {
  uo_subscription_id : SubscriptionId;
  uo_owner : Owner;
  uo_reason : OpenReason;
  uo_streams : StreamMap;
  uo_ttl : Duration;
}.
(** [Conversion]; its [reason] is always [turn]. *)
Record Conversion := mkConversion { cv_owner : Owner }.
Record UplinkRenew := mkRenew {
  ur_subscription_id : SubscriptionId;
  ur_ttl : Duration;
  ur_conversion : option Conversion;
}.
Record UplinkClose := mkClose { uc_subscription_id : SubscriptionId; uc_reason : CloseReason }.

Inductive UplinkCommand :=
  | Cmd_Open (body : UplinkOpen)
  | Cmd_Renew (body : UplinkRenew)
  | Cmd_Close (body : UplinkClose).

Definition command_message_type (c : UplinkCommand) : MessageType :=
  match c with
  | Cmd_Open _ => Mt_UplinkOpen
  | Cmd_Renew _ => Mt_UplinkRenew
  | Cmd_Close _ => Mt_UplinkClose
  end.
Definition command_subscription (c : UplinkCommand) : SubscriptionId :=
  match c with
  | Cmd_Open b => uo_subscription_id b
  | Cmd_Renew b => ur_subscription_id b
  | Cmd_Close b => uc_subscription_id b
  end.

Record Outgoing := mkOutgoing { og_generation : Generation; og_command : UplinkCommand }.

(** ** Deliveries *)
Inductive MissingCause :=
  | Mc_Device | Mc_Clipped | Mc_NotSent | Mc_Overwritten | Mc_TimedOut | Mc_Evicted.

Inductive ChunkBody :=
  | Cb_Data (meta : BlockMeta) (discontinuity : bool) (data : ChunkData)
  | Cb_Missing (cause : MissingCause).

Record Chunk := mkChunk {
  ck_subscription : SubscriptionId;
  ck_generation : Generation;
  ck_stream : StreamId;
  ck_epoch : N;
  ck_span : Span;
  ck_body : ChunkBody;
}.
Definition chunk_bytes (c : Chunk) : N :=
  match ck_body c with Cb_Data _ _ data => chunk_data_bytes data | Cb_Missing _ => 0 end.

Inductive EndCause :=
  | Ec_Closed (reason : CloseReason)
  | Ec_Device (report : UplinkEnded)
  | Ec_CaptureEpoch
  | Ec_Muted
  | Ec_SessionLost
  | Ec_Rejected (code : option string)
  | Ec_Overflow.

Record Ended := mkEnded {
  en_subscription : SubscriptionId;
  en_owner : Owner;
  en_reason : SubscriptionReason;
  en_generation : Generation;
  en_cause : EndCause;
}.

Inductive Delivery := Dl_Chunk (chunk : Chunk) | Dl_Ended (ended : Ended).

Definition delivery_subscription (d : Delivery) : SubscriptionId :=
  match d with Dl_Chunk c => ck_subscription c | Dl_Ended e => en_subscription e end.
Definition delivery_bytes (d : Delivery) : N :=
  match d with Dl_Chunk c => chunk_bytes c | Dl_Ended _ => 0 end.
Definition is_ended (d : Delivery) : bool := match d with Dl_Ended _ => true | _ => false end.

Record Backlog := mkBacklog { bl_deliveries : N; bl_payload_bytes : N }.
Definition backlog_default : Backlog := mkBacklog 0 0.
Record Accounting := mkAccounting { ac_chunks : N; ac_payload_bytes : N }.
Definition accounting_default : Accounting := mkAccounting 0 0.

(** ** The outbox *)
Record Account := mkAccount { acc_backlog : Backlog; acc_delivered : Accounting }.
Definition account_default : Account := mkAccount backlog_default accounting_default.

Record Outbox := mkOutbox {
  ob_queue : list Delivery;
  ob_accounts : gmap SubscriptionId Account;
  ob_max_bytes : N;
  ob_max_deliveries : N;
}.

(** [Outbox::push]: false when the subscription is now over its bounds. *)
Definition push (o : Outbox) (d : Delivery) : Outbox * bool :=
  let id := delivery_subscription d in
  let account := default account_default (ob_accounts o !! id) in
  let backlog := mkBacklog (bl_deliveries (acc_backlog account) + 1)
    (bl_payload_bytes (acc_backlog account) + delivery_bytes d) in
  let within := (bl_payload_bytes backlog <=? ob_max_bytes o)
    && (bl_deliveries backlog <=? ob_max_deliveries o) in
  (mkOutbox (ob_queue o ++ [d]) (<[id := mkAccount backlog (acc_delivered account)]> (ob_accounts o))
     (ob_max_bytes o) (ob_max_deliveries o), within).

(** One delivery of [drain]: the accounts after it. *)
Definition drain_one (accounts : gmap SubscriptionId Account) (d : Delivery) :
    option (gmap SubscriptionId Account) :=
  let id := delivery_subscription d in
  match accounts !! id with
  | None => Some accounts
  | Some account =>
      match checked_sub64 (bl_deliveries (acc_backlog account)) 1,
            checked_sub64 (bl_payload_bytes (acc_backlog account)) (delivery_bytes d) with
      | Some deliveries, Some bytes =>
          let delivered :=
            match d with
            | Dl_Chunk c => mkAccounting (ac_chunks (acc_delivered account) + 1)
                (ac_payload_bytes (acc_delivered account) + chunk_bytes c)
            | Dl_Ended _ => acc_delivered account
            end in
          Some (if is_ended d then delete id accounts
                else <[id := mkAccount (mkBacklog deliveries bytes) delivered]> accounts)
      | _, _ => None
      end
  end.

Fixpoint drain_accounts (accounts : gmap SubscriptionId Account) (queue : list Delivery) :
    option (gmap SubscriptionId Account) :=
  match queue with
  | [] => Some accounts
  | d :: queue => accounts ← drain_one accounts d; drain_accounts accounts queue
  end.

(** [Outbox::drain]: the emptied outbox and [out] with the deliveries. *)
Definition outbox_drain (o : Outbox) (out : list Delivery) : option (Outbox * list Delivery) :=
  accounts ← drain_accounts (ob_accounts o) (ob_queue o);
  Some (mkOutbox [] accounts (ob_max_bytes o) (ob_max_deliveries o), out ++ ob_queue o).

Definition reset_backlog (a : Account) : Account := mkAccount backlog_default (acc_delivered a).
Definition count_delivery (accounts : gmap SubscriptionId Account) (d : Delivery) :
    gmap SubscriptionId Account :=
  match accounts !! delivery_subscription d with
  | Some a =>
      <[delivery_subscription d := mkAccount (mkBacklog (bl_deliveries (acc_backlog a) + 1)
        (bl_payload_bytes (acc_backlog a))) (acc_delivered a)]> accounts
  | None => accounts
  end.

Definition discard_chunks (o : Outbox) : Outbox :=
  let queue := retain is_ended (ob_queue o) in
  mkOutbox queue (foldl count_delivery (reset_backlog <$> ob_accounts o) queue)
    (ob_max_bytes o) (ob_max_deliveries o).

Definition discard_chunks_of (o : Outbox) (id : SubscriptionId) : Outbox :=
  mkOutbox
    (retain (fun d => negb (bool_decide (delivery_subscription d = id)) || is_ended d) (ob_queue o))
    (alter reset_backlog id (ob_accounts o)) (ob_max_bytes o) (ob_max_deliveries o).

(** ** The accounts follow the queue *)

(** The deliveries of [id] up to its first end: those its account counts. *)
Fixpoint pending (id : SubscriptionId) (queue : list Delivery) : list Delivery :=
  match queue with
  | [] => []
  | d :: queue =>
      if bool_decide (delivery_subscription d = id)
      then d :: (if is_ended d then [] else pending id queue)
      else pending id queue
  end.
Definition total_bytes (ds : list Delivery) : N := foldr (fun d n => delivery_bytes d + n) 0 ds.
Definition no_end (id : SubscriptionId) (queue : list Delivery) : Prop :=
  Forall (fun d => delivery_subscription d = id -> is_ended d = false) queue.

Record tally (b : Backlog) (id : SubscriptionId) (queue : list Delivery) : Prop := {
  ty_deliveries : N.of_nat (length (pending id queue)) <= bl_deliveries b;
  ty_bytes : total_bytes (pending id queue) <= bl_payload_bytes b;
  ty_exact : no_end id queue ->
    bl_deliveries b = N.of_nat (length (pending id queue)) /\
    bl_payload_bytes b = total_bytes (pending id queue);
}.

Definition tallies (accounts : gmap SubscriptionId Account) (queue : list Delivery) : Prop :=
  forall id a, accounts !! id = Some a -> tally (acc_backlog a) id queue.

Record outbox_inv (o : Outbox) : Prop := {
  oi_tallies : tallies (ob_accounts o) (ob_queue o);
  oi_counted d : d ∈ ob_queue o -> is_Some (ob_accounts o !! delivery_subscription d);
}.

Lemma total_bytes_app l1 l2 : total_bytes (l1 ++ l2) = total_bytes l1 + total_bytes l2.
Proof. unfold total_bytes. induction l1 as [|d l1 IH]; cbn; [done|]. rewrite IH. lia. Qed.

Lemma ended_bytes d : is_ended d = true -> delivery_bytes d = 0.
Proof. by destruct d. Qed.

Lemma pending_app id q1 q2 :
  exists tail, pending id (q1 ++ q2) = pending id q1 ++ tail /\
    (tail = [] \/ tail = pending id q2) /\ (no_end id q1 -> tail = pending id q2).
Proof.
  induction q1 as [|d q1 IH]; cbn [app pending].
  - exists (pending id q2). auto.
  - destruct IH as (tail & -> & H1 & H2). case_bool_decide as Hd.
    + destruct (is_ended d) eqn:Ed.
      * exists []. split_and!; [done|by left|]. intros [Hn _]%Forall_cons. by rewrite Hn in Ed.
      * exists tail. split_and!; [done|done|]. intros [_ Hn]%Forall_cons. auto.
    + exists tail. split_and!; [done|done|]. intros [_ Hn]%Forall_cons. auto.
Qed.

Lemma pending_none id queue :
  (forall d, d ∈ queue -> delivery_subscription d <> id) -> pending id queue = [].
Proof.
  induction queue as [|d queue IH]; intros H; cbn; [done|].
  rewrite bool_decide_eq_false_2 by (apply H; by left). apply IH. intros d' Hd. apply H. by right.
Qed.

(** The part of the queue that is not [id]'s does not matter to its account. *)
Lemma pending_retain id p queue :
  (forall d, d ∈ queue -> delivery_subscription d = id -> p d = true) ->
  pending id (retain p queue) = pending id queue /\ (no_end id (retain p queue) -> no_end id queue).
Proof.
  unfold retain, no_end. induction queue as [|d queue IH]; intros H; cbn [List.filter pending]; [done|].
  destruct IH as [IH1 IH2]; [intros d' Hd; apply H; by right|].
  specialize (H d ltac:(by left)). destruct (p d) eqn:Ep; cbn [pending].
  - rewrite IH1. split; [done|]. intros [? ?]%Forall_cons. constructor; auto.
  - rewrite bool_decide_eq_false_2 by (intros Hd; by specialize (H Hd)). split; [done|].
    intros Hn. constructor; [|auto]. intros Hd. by specialize (H Hd).
Qed.

Lemma push_inv o d : outbox_inv o -> outbox_inv (push o d).1.
Proof.
  intros [Ht Hc]. unfold push. cbn. split; cbn.
  - intros id a. rewrite lookup_insert_Some. intros [[<- <-]|[Hne Ha]]; cbn.
    + set (id := delivery_subscription d) in *. set (a := default _ _).
      assert (Hold : tally (acc_backlog a) id (ob_queue o)).
      { subst a. destruct (ob_accounts o !! id) as [a|] eqn:Ea; cbn; [by apply Ht|].
        assert (Hp : pending id (ob_queue o) = []).
        { apply pending_none. intros d' Hd' Hid. apply Hc in Hd'. rewrite Hid, Ea in Hd'. by destruct Hd'. }
        split; rewrite Hp; done. }
      destruct (pending_app id (ob_queue o) [d]) as (tail & Hp & Hcase & Hexact).
      assert (Hd : pending id [d] = [d]).
      { cbn. rewrite bool_decide_eq_true_2 by done. by destruct (is_ended d). }
      rewrite Hd in *. destruct Hold as [H1 H2 H3].
      split; cbn; rewrite Hp, ?length_app, ?total_bytes_app.
      * destruct Hcase as [-> | ->]; cbn; lia.
      * destruct Hcase as [-> | ->]; cbn; lia.
      * intros [Hn _]%Forall_app. rewrite (Hexact Hn). destruct (H3 Hn) as [-> ->]. cbn. lia.
    + destruct (Ht _ _ Ha) as [H1 H2 H3].
      destruct (pending_app id (ob_queue o) [d]) as (tail & Hp & Hcase & _).
      assert (pending id [d] = []) as Hd by (cbn; by rewrite bool_decide_eq_false_2).
      rewrite Hd in Hcase. assert (tail = []) as -> by tauto. rewrite app_nil_r in Hp.
      split; rewrite Hp; [done|done|]. intros [Hn _]%Forall_app. auto.
  - intros d' [Hd'|Hd']%elem_of_app.
    + destruct (Hc _ Hd') as [a Ha]. destruct (decide (delivery_subscription d = delivery_subscription d')) as [->|Hne].
      * rewrite lookup_insert_eq. done.
      * rewrite lookup_insert_ne by done. rewrite Ha. done.
    + apply list_elem_of_singleton in Hd' as ->. rewrite lookup_insert_eq. done.
Qed.

(** One delivery is subtracted from an account that counts it. *)
Lemma drain_one_ok accounts d queue :
  tallies accounts (d :: queue) ->
  exists accounts', drain_one accounts d = Some accounts' /\ tallies accounts' queue.
Proof.
  intros Ht. unfold drain_one. set (id := delivery_subscription d).
  assert (Hother : forall id' a, id' <> id -> accounts !! id' = Some a -> tally (acc_backlog a) id' queue).
  { intros id' a Hne Ha. destruct (Ht _ _ Ha) as [H1 H2 H3]. cbn [pending] in *.
    rewrite bool_decide_eq_false_2 in * by (by intros <-). split; [done|done|].
    intros Hn. apply H3. constructor; [|done]. by intros <-. }
  destruct (accounts !! id) as [a|] eqn:Ea.
  - destruct (Ht _ _ Ea) as [H1 H2 H3]. cbn [pending] in *. rewrite bool_decide_eq_true_2 in * by done.
    cbn [length total_bytes foldr] in *. unfold checked_sub64.
    rewrite (proj2 (N.leb_le 1 _)), (proj2 (N.leb_le (delivery_bytes d) _)) by (unfold total_bytes in *; cbn in *; lia).
    eexists. split; [done|]. destruct (is_ended d) eqn:Ed.
    + intros id' a' [Hne Ha]%lookup_delete_Some. by apply Hother.
    + intros id' a' [[<- <-]|[Hne Ha]]%lookup_insert_Some; [|by apply Hother].
      unfold total_bytes in *. cbn in *. split; cbn; unfold total_bytes; [lia|lia|].
      intros Hn. destruct H3 as [H3 H4]; [by constructor|]. lia.
  - eexists. split; [done|]. intros id' a Ha. apply Hother; [congruence|done].
Qed.

Lemma drain_accounts_ok accounts queue :
  tallies accounts queue ->
  exists accounts', drain_accounts accounts queue = Some accounts' /\ tallies accounts' [].
Proof.
  revert accounts. induction queue as [|d queue IH]; intros accounts Ht; cbn; [eauto|].
  destruct (drain_one_ok _ _ _ Ht) as (accounts' & -> & Ht'). cbn. by apply IH.
Qed.

(** How many deliveries of [id] are queued. *)
Definition count_of (id : SubscriptionId) (queue : list Delivery) : N :=
  N.of_nat (length (List.filter (fun d => bool_decide (delivery_subscription d = id)) queue)).

Lemma count_deliveries accounts queue id :
  foldl count_delivery accounts queue !! id =
  (fun a => mkAccount (mkBacklog (bl_deliveries (acc_backlog a) + count_of id queue)
     (bl_payload_bytes (acc_backlog a))) (acc_delivered a)) <$> accounts !! id.
Proof.
  unfold count_of. revert accounts. induction queue as [|d queue IH]; intros accounts; cbn.
  - destruct (accounts !! id) as [[[] ?]|]; cbn; [|done]. by rewrite N.add_0_r.
  - rewrite IH. unfold count_delivery. destruct (accounts !! delivery_subscription d) as [a|] eqn:Ea.
    + case_bool_decide as Hd.
      * subst id. rewrite lookup_insert_eq, Ea. cbn. do 3 f_equal. lia.
      * by rewrite lookup_insert_ne.
    + case_bool_decide as Hd; [|done]. subst id. by rewrite Ea.
Qed.

(** A queue of ends counts each of them, at no bytes. *)
Lemma ends_tally id queue b :
  Forall (fun d => is_ended d = true) queue ->
  count_of id queue <= bl_deliveries b -> (count_of id queue = 0 -> bl_deliveries b = 0) ->
  bl_payload_bytes b = 0 -> tally b id queue.
Proof.
  intros Hends Hc Hz Hb.
  assert (H : N.of_nat (length (pending id queue)) <= count_of id queue /\
    total_bytes (pending id queue) = 0 /\ (no_end id queue -> count_of id queue = 0)).
  { clear Hc Hz. unfold count_of, no_end, total_bytes. induction Hends as [|d queue Hd _ IH]; cbn; [done|].
    destruct IH as (H1 & H2 & H3). case_bool_decide as Hid; cbn.
    - rewrite Hd. cbn. rewrite ended_bytes by done. split_and!; [lia|done|].
      intros [Hn _]%Forall_cons. by rewrite Hn in Hd.
    - split_and!; [done|done|]. intros [_ Hn]%Forall_cons. auto. }
  destruct H as (H1 & H2 & H3). split; [lia|lia|]. intros Hn. specialize (H3 Hn). rewrite Hz, H2 by done. lia.
Qed.

Lemma retain_ends queue : Forall (fun d => is_ended d = true) (retain is_ended queue).
Proof. apply Forall_forall. intros d Hd. by apply elem_of_retain in Hd as [_ ?]. Qed.

Lemma discard_chunks_inv o : outbox_inv o -> outbox_inv (discard_chunks o).
Proof.
  intros [Ht Hc]. unfold discard_chunks. split; cbn.
  - intros id a. rewrite count_deliveries, lookup_fmap. destruct (ob_accounts o !! id) as [a'|]; [|done].
    cbn. intros [= <-]. apply ends_tally; cbn; [apply retain_ends|lia|lia|done].
  - intros d [Hd _]%elem_of_retain. rewrite count_deliveries, lookup_fmap.
    destruct (Hc _ Hd) as [a ->]. done.
Qed.

(** Discarding one subscription's chunks is always followed by its end. *)
Lemma discard_end_inv o e :
  outbox_inv o -> outbox_inv (push (discard_chunks_of o (en_subscription e)) (Dl_Ended e)).1.
Proof.
  intros [Ht Hc]. set (id := en_subscription e). unfold discard_chunks_of, push. cbn.
  set (p := fun d => negb (bool_decide (delivery_subscription d = id)) || is_ended d).
  split; cbn.
  - intros id' a. fold id. rewrite lookup_insert_Some. intros [[<- <-]|[Hne Ha]]; cbn.
    + assert (Hp : length (pending id (retain p (ob_queue o) ++ [Dl_Ended e])) = 1%nat /\
        total_bytes (pending id (retain p (ob_queue o) ++ [Dl_Ended e])) = 0).
      { clear Ht Hc. unfold retain. induction (ob_queue o) as [|d queue IH]; cbn.
        - fold id. by rewrite bool_decide_eq_true_2.
        - destruct (p d) eqn:Ep; [|done]. cbn. case_bool_decide as Hd; [|done].
          unfold p in Ep. rewrite bool_decide_eq_true_2 in Ep by done. cbn in Ep. rewrite Ep.
          cbn. by rewrite ended_bytes. }
      destruct Hp as [Hp1 Hp2].
      assert (Hb : bl_deliveries (acc_backlog (default account_default
        (alter reset_backlog id (ob_accounts o) !! id))) = 0 /\ bl_payload_bytes (acc_backlog
        (default account_default (alter reset_backlog id (ob_accounts o) !! id))) = 0).
      { rewrite lookup_alter_eq. by destruct (ob_accounts o !! id). }
      destruct Hb as [-> ->]. split; cbn; rewrite ?Hp1, ?Hp2; [done|done|].
      intros [_ [Hn _]%Forall_cons]%Forall_app. by specialize (Hn eq_refl).
    + rewrite lookup_alter_ne in Ha by done. destruct (Ht _ _ Ha) as [H1 H2 H3].
      destruct (pending_app id' (retain p (ob_queue o)) [Dl_Ended e]) as (tail & Hp & Hcase & _).
      cbn in Hcase. fold id in Hcase. rewrite bool_decide_eq_false_2 in Hcase by done.
      assert (tail = []) as -> by tauto. rewrite app_nil_r in Hp.
      destruct (pending_retain id' p (ob_queue o)) as [Hr Hn'].
      { intros d _ Hd. unfold p. rewrite bool_decide_eq_false_2; [done|congruence]. }
      rewrite Hr in Hp. split; rewrite Hp; [done|done|]. intros [Hn _]%Forall_app. auto.
  - fold id. intros d [[Hd _]%elem_of_retain|Hd]%elem_of_app.
    + destruct (Hc _ Hd) as [a Ha]. destruct (decide (id = delivery_subscription d)) as [->|Hne].
      * rewrite lookup_insert_eq. done.
      * rewrite lookup_insert_ne, lookup_alter_ne by done. rewrite Ha. done.
    + apply list_elem_of_singleton in Hd as ->. cbn. fold id. rewrite lookup_insert_eq. done.
Qed.

Lemma outbox_drain_ok o out :
  outbox_inv o -> exists o', outbox_drain o out = Some (o', out ++ ob_queue o) /\
    ob_queue o' = [] /\ outbox_inv o' /\
    (forall id a, ob_accounts o' !! id = Some a -> acc_backlog a = backlog_default).
Proof.
  intros [Ht _]. unfold outbox_drain. destruct (drain_accounts_ok _ _ Ht) as (accounts & -> & Ht').
  cbn. eexists. split; [done|]. cbn. split_and!; [done| |].
  - split; cbn; [done|]. by intros d ?%elem_of_nil.
  - intros id a Ha. destruct (Ht' _ _ Ha) as [_ _ H]. destruct H as [H1 H2]; [constructor|].
    cbn in *. unfold total_bytes in H2. cbn in H2. destruct (acc_backlog a). cbn in *. by subst.
Qed.

(** The outbox's operations, as the uplink composes them. *)
Inductive OutboxOp :=
  | Oo_Push (d : Delivery)
  | Oo_DiscardChunks
  | Oo_DiscardAndEnd (e : Ended)
  | Oo_Drain.
Definition outbox_step (o : Outbox) (op : OutboxOp) : Outbox :=
  match op with
  | Oo_Push d => (push o d).1
  | Oo_DiscardChunks => discard_chunks o
  | Oo_DiscardAndEnd e => (push (discard_chunks_of o (en_subscription e)) (Dl_Ended e)).1
  | Oo_Drain => match outbox_drain o [] with Some (o', _) => o' | None => o end
  end.

Lemma outbox_step_inv o op : outbox_inv o -> outbox_inv (outbox_step o op).
Proof.
  intros Ho. destruct op as [d| |e|]; cbn.
  - by apply push_inv.
  - by apply discard_chunks_inv.
  - by apply discard_end_inv.
  - destruct (outbox_drain_ok _ [] Ho) as (o' & -> & _ & ? & _). done.
Qed.

Definition outbox_new (max_bytes max_deliveries : N) : Outbox := mkOutbox [] ∅ max_bytes max_deliveries.

Lemma outbox_new_inv max_bytes max_deliveries : outbox_inv (outbox_new max_bytes max_deliveries).
Proof. split; cbn; [done|]. by intros d ?%elem_of_nil. Qed.

(** Whatever the order of deliveries, discards and drains, and even when a
    device reuses a subscription ID while its end still waits, draining never
    underflows a counter; it hands over the whole queue in the order released
    and leaves nothing counted as waiting.  Until an end is queued, a
    subscription's backlog is exactly its queued deliveries and their bytes. *)
Theorem outbox_accounts max_bytes max_deliveries ops out o :
  o = foldl outbox_step (outbox_new max_bytes max_deliveries) ops ->
  (exists o', outbox_drain o out = Some (o', out ++ ob_queue o) /\ ob_queue o' = [] /\
    forall id a, ob_accounts o' !! id = Some a -> acc_backlog a = backlog_default) /\
  (forall id, Forall (fun d => delivery_subscription d = id -> is_ended d = false) (ob_queue o) ->
    let mine := List.filter (fun d => bool_decide (delivery_subscription d = id)) (ob_queue o) in
    acc_backlog <$> ob_accounts o !! id = None /\ mine = [] \/
    acc_backlog <$> ob_accounts o !! id
      = Some (mkBacklog (N.of_nat (length mine)) (total_bytes mine))).
Proof.
  intros ->. assert (Hinv : forall o, outbox_inv o -> outbox_inv (foldl outbox_step o ops)).
  { induction ops as [|op ops IH]; intros o Ho; [done|]. by apply IH, outbox_step_inv. }
  specialize (Hinv _ (outbox_new_inv max_bytes max_deliveries)). split.
  { destruct (outbox_drain_ok _ out Hinv) as (o' & ? & ? & _ & ?). eauto. }
  generalize dependent (foldl outbox_step (outbox_new max_bytes max_deliveries) ops).
  intros o [Ht Hc] id Hn. cbv zeta.
  assert (Hp : pending id (ob_queue o)
    = List.filter (fun d => bool_decide (delivery_subscription d = id)) (ob_queue o)).
  { clear Ht Hc. induction Hn as [|d queue Hd _ IH]; cbn; [done|]. rewrite IH.
    case_bool_decide as Hid; [|done]. by rewrite Hd. }
  rewrite <- Hp. destruct (ob_accounts o !! id) as [a|] eqn:Ea; cbn.
  - right. destruct (Ht _ _ Ea) as [_ _ H]. destruct (H Hn) as [<- <-]. by destruct (acc_backlog a).
  - left. split; [done|]. apply pending_none. intros d Hd Hid. apply Hc in Hd. rewrite Hid, Ea in Hd.
    by destruct Hd.
Qed.

(** ** Witness *)
Definition example_chunk (n : N) : Delivery :=
  Dl_Chunk (mkChunk "L1" 1 Mic 7 (mkSpan n (n + 2))
    (Cb_Data (mkMeta 0 0 None 0) false (Cd_Pcm (concat (i16_to_le <$> [1%Z; 2%Z]))))).
Definition example_end : Ended := mkEnded "L1" "L1" Sr_Candidate 1 Ec_Muted.
Definition example_ops : list OutboxOp :=
  [Oo_Push (example_chunk 0); Oo_DiscardAndEnd example_end; Oo_Push (example_chunk 2);
   Oo_DiscardAndEnd example_end].

Lemma outbox_accounts_witness :
  let o := foldl outbox_step (outbox_new 100 10) example_ops in
  length (ob_queue o) = 2%nat /\
  exists o', outbox_drain o [] = Some (o', [] ++ ob_queue o) /\ ob_queue o' = [] /\
    forall id a, ob_accounts o' !! id = Some a -> acc_backlog a = backlog_default.
Proof.
  split; [vm_compute; reflexivity|].
  refine (proj1 (outbox_accounts 100 10 example_ops [] _ eq_refl)).
Defined.
