(* ===== verification/Cursor.v ===== *)
(** * One subscription's position in a stream epoch ([uplink/src/uplink.rs], [Cursor] and [release])

    A cursor is where a subscription's delivery of one stream epoch stands.
    [release] turns what the epoch's buffer knows from there on into chunks, in
    order and without holes, and stops at a range that may still arrive. *)
From S2P Require Import Prelude Bytes WireEnum Ema Vocab Streams Clock Blocks Buffer Timeline Delivery.

Inductive StartSpec := Ss_At (sample : N) | Ss_Live | Ss_Mapped.
#[export] Instance StartSpec_eq_dec : EqDecision StartSpec.
Proof. solve_decision. Defined.

Inductive Mode := AwaitClaim | AwaitLive | Ordered.
#[export] Instance Mode_eq_dec : EqDecision Mode.
Proof. solve_decision. Defined.

Record Cursor := mkCursor {
  cu_epoch : N;
  cu_start : StartSpec;
  cu_mode : Mode;
  cu_pos : option N;
  cu_settled_to : N;
  cu_settle_cause : MissingCause;
  cu_stalled_since : option MonoInstant;
  cu_target : option N;
}.

Definition cursor_new (epoch : N) (start : StartSpec) : Cursor :=
  let '(mode, pos) :=
    match start with
    | Ss_At sample => (AwaitClaim, Some sample)
    | Ss_Mapped => (AwaitClaim, None)
    | Ss_Live => (AwaitLive, None)
    end in
  mkCursor epoch start mode pos 0 Mc_NotSent None None.

(** Assignments to one field. *)
Definition set_mode (m : Mode) (c : Cursor) : Cursor :=
  mkCursor (cu_epoch c) (cu_start c) m (cu_pos c) (cu_settled_to c) (cu_settle_cause c)
    (cu_stalled_since c) (cu_target c).
Definition set_pos (pos : option N) (c : Cursor) : Cursor :=
  mkCursor (cu_epoch c) (cu_start c) (cu_mode c) pos (cu_settled_to c) (cu_settle_cause c)
    (cu_stalled_since c) (cu_target c).
Definition set_stalled (since : option MonoInstant) (c : Cursor) : Cursor :=
  mkCursor (cu_epoch c) (cu_start c) (cu_mode c) (cu_pos c) (cu_settled_to c) (cu_settle_cause c)
    since (cu_target c).
Definition set_target (target : option N) (c : Cursor) : Cursor :=
  mkCursor (cu_epoch c) (cu_start c) (cu_mode c) (cu_pos c) (cu_settled_to c) (cu_settle_cause c)
    (cu_stalled_since c) target.

Definition settle (to_ : N) (cause : MissingCause) (c : Cursor) : Cursor :=
  if cu_settled_to c <? to_ then
    mkCursor (cu_epoch c) (cu_start c) (cu_mode c) (cu_pos c) to_ cause (cu_stalled_since c)
      (cu_target c)
  else c.

Definition attribute (attribution : Attribution) (stream : StreamId) (c : Cursor) : Cursor :=
  if negb (bool_decide (cu_mode c = AwaitClaim)) then c
  else
    match attribution, cu_start c with
    | At_Run start, Ss_At requested =>
        set_mode Ordered (if requested <? start then settle start Mc_Clipped c else c)
    | At_Run start, _ =>
        set_mode Ordered (set_pos (Some (next_multiple_of start (device_grid stream))) c)
    | At_NoRun, Ss_At _ => set_mode Ordered c
    | At_NoRun, _ => set_mode AwaitLive c
    end.

Definition on_packet (path : Path) (first : N) (own : SubKey) (stream : StreamId) (c : Cursor) :
    Cursor :=
  match cu_mode c with
  | AwaitLive =>
      if bool_decide (path = Advance) then
        set_mode Ordered (set_pos (Some (next_multiple_of first (device_grid stream))) c)
      else c
  | Ordered =>
      if bool_decide (path = Advance) || bool_decide (path = RunPath (Some own)) then
        match cu_pos c with
        | Some pos =>
            if N.max pos (cu_settled_to c) <? first then settle first Mc_NotSent c else c
        | None => c
        end
      else c
  | AwaitClaim => c
  end.

Definition stall_deadline (wait : Duration) (c : Cursor) : option MonoInstant :=
  (fun since => after since wait) <$> cu_stalled_since c.

Definition cursor_done (c : Cursor) : bool :=
  match cu_target c with
  | None => true
  | Some target => match cu_pos c with Some pos => target <=? pos | None => false end
  end.

(** ** What a release reads from *)
Record Source := mkSource {
  sr_buffer : EpochBuffer;
  sr_live_end : option N;
  sr_packet : option Packet;
  sr_stream : StreamId;
  sr_epoch : N;
}.

Definition overwritten_below (s : Source) : option N :=
  let unit := samples_per_frame (stream_kind (sr_stream s)) in
  live ← sr_live_end s;
  gone ← checked_sub64 live (device_history (sr_stream s));
  Some (gone - gone mod unit).

(** What the loop of [release] does at [pos]: stop, with the cursor's stall mark,
    or release a chunk up to [end]. *)
Inductive Step := Sp_Stop (stalled : option MonoInstant) | Sp_Chunk (end_ : N) (body : ChunkBody).

Definition release_step (c : Cursor) (s : Source) (wait : Duration) (now : MonoInstant) (pos : N) :
    Step :=
  match buffer_lookup (sr_buffer s) pos with
  | Lk_Data end_ meta discontinuity =>
      Sp_Chunk end_ (Cb_Data meta discontinuity
        (chunk_data (sr_buffer s) (mkSpan pos end_) meta (sr_packet s)))
  | Lk_Missing end_ => Sp_Chunk end_ (Cb_Missing Mc_Device)
  | Lk_Evicted until => Sp_Chunk until (Cb_Missing Mc_Evicted)
  | Lk_Unknown next_known =>
      let known := default u64_max next_known in
      if pos <? cu_settled_to c then
        Sp_Chunk (N.min (cu_settled_to c) known) (Cb_Missing (cu_settle_cause c))
      else
        match
          match overwritten_below s with
          | Some gone => if pos <? gone then Some gone else None
          | None => None
          end
        with
        | Some gone => Sp_Chunk (N.min gone known) (Cb_Missing Mc_Overwritten)
        | None =>
            let limit :=
              match next_known with
              | Some next => Some next
              | None =>
                  match cu_target c with
                  | Some t => if pos <? t then Some t else None
                  | None => None
                  end
              end in
            match limit, cu_stalled_since c with
            | None, _ => Sp_Stop None
            | Some _, None => Sp_Stop (Some now)
            | Some limit, Some since =>
                if after since wait <=? now then Sp_Chunk limit (Cb_Missing Mc_TimedOut)
                else Sp_Stop (Some since)
            end
        end
  end.

(** The loop; [None] is running out of [fuel]. *)
Fixpoint release_loop (fuel : nat) (s : Source) (id : SubscriptionId) (generation : Generation)
    (wait : Duration) (now : MonoInstant) (c : Cursor) (pos : N) (outbox : Outbox) :
    option (Cursor * Outbox * bool) :=
  match release_step c s wait now pos with
  | Sp_Stop stalled => Some (set_stalled stalled c, outbox, true)
  | Sp_Chunk end_ body =>
      match fuel with
      | O => None
      | S fuel =>
          let chunk := mkChunk id generation (sr_stream s) (sr_epoch s) (mkSpan pos end_) body in
          let c := set_stalled None (set_pos (Some end_) c) in
          let '(outbox, within) := push outbox (Dl_Chunk chunk) in
          if within then release_loop fuel s id generation wait now c end_ outbox
          else Some (c, outbox, false)
      end
  end.

(** Every chunk ends at a mark of the buffer, where the settled, overwritten or
    drained part ends, or at the end of [u64]. *)
Definition release_fuel (s : Source) : nat :=
  (2 * length (bx_blocks (eb_index (sr_buffer s))) + 5)%nat.

(** [release]: the cursor, the outbox and whether the subscription is still
    within its delivery bounds.  The loop always ends ([release_loop_spec]). *)
Definition release (c : Cursor) (s : Source) (id : SubscriptionId) (generation : Generation)
    (outbox : Outbox) (config : UplinkConfig) (now : MonoInstant) : Cursor * Outbox * bool :=
  match cu_pos c with
  | None => (c, outbox, true)
  | Some pos =>
      default (c, outbox, true)
        (release_loop (release_fuel s) s id generation (hole_wait config) now c pos outbox)
  end.

(** ** What a release does *)

(** What each body says of the buffer, of the cursor it was released by and of
    the time. *)
Definition body_ok (c : Cursor) (s : Source) (wait : Duration) (now : MonoInstant) (start end_ : N)
    (body : ChunkBody) : Prop :=
  let every kind := forall x, start <= x < end_ -> sample_ok (sr_buffer s) start x kind in
  match body with
  | Cb_Data meta d data => every (Sk_Data meta d) /\
      data = chunk_data (sr_buffer s) (mkSpan start end_) meta (sr_packet s)
  | Cb_Missing Mc_Device => every Sk_Missing
  | Cb_Missing Mc_Evicted => every Sk_Evicted
  | Cb_Missing cause => every Sk_Unknown /\
      (end_ <= cu_settled_to c /\ cause = cu_settle_cause c \/
       cause = Mc_Overwritten /\ (exists gone, overwritten_below s = Some gone /\ end_ <= gone) \/
       cause = Mc_TimedOut /\ exists since, cu_stalled_since c = Some since /\ after since wait <= now)
  end.

(** Positions are [u64]s, and only the device's moves settle a range. *)
Record cursor_wf (c : Cursor) : Prop := {
  cw_settled : cu_settled_to c <= u64_max;
  cw_cause : cu_settle_cause c = Mc_NotSent \/ cu_settle_cause c = Mc_Clipped;
}.

(** Consecutive chunks of one subscription, stream and epoch. *)
Fixpoint chunks_from (pos : N) (chunks : list Chunk) (end_ : N) : Prop :=
  match chunks with
  | ck :: rest =>
      sp_start (ck_span ck) = pos /\ pos < sp_end (ck_span ck) /\
      chunks_from (sp_end (ck_span ck)) rest end_
  | [] => pos = end_
  end.

Definition push_chunks (o : Outbox) (chunks : list Chunk) : Outbox :=
  foldl (fun o ck => (push o (Dl_Chunk ck)).1) o chunks.

(** The positions where a release can stop. *)
Definition release_marks (settled_to : N) (target : option N) (s : Source) : list N :=
  [u64_max; settled_to] ++ option_list (overwritten_below s) ++ option_list target
  ++ buffer_marks (sr_buffer s).

Definition source_wf (s : Source) : Prop :=
  buffer_wf (sr_stream s) (sr_buffer s) /\ forall live, sr_live_end s = Some live -> live <= u64_max.

Lemma length_option_list {A} (o : option A) : (length (option_list o) <= 1)%nat.
Proof. destruct o; cbn; lia. Qed.

Lemma elem_of_option {A} (o : option A) x : x ∈ option_list o <-> o = Some x.
Proof.
  destruct o; cbn; rewrite ?elem_of_nil, ?list_elem_of_singleton; naive_solver.
Qed.

Lemma release_marks_fuel settled_to target s pos :
  (rank (release_marks settled_to target s) pos <= release_fuel s)%nat.
Proof.
  pose proof (rank_le (release_marks settled_to target s) pos) as H.
  unfold release_marks, release_fuel in *. rewrite !length_app, length_buffer_marks in H. cbn [length] in H.
  pose proof (length_option_list (overwritten_below s)). pose proof (length_option_list target). lia.
Qed.

Lemma overwritten_bound s gone :
  source_wf s -> overwritten_below s = Some gone -> gone <= u64_max.
Proof.
  intros [_ Hl]. unfold overwritten_below, checked_sub64. cbv zeta.
  destruct (sr_live_end s) as [live|]; cbn; [|done]. specialize (Hl _ eq_refl).
  destruct (N.leb_spec (device_history (sr_stream s)) live); cbn; [|done]. intros [= <-].
  etransitivity; [apply N.le_sub_l|]. lia.
Qed.

Lemma elem_of_release_marks settled_to target s m :
  m = u64_max \/ m = settled_to \/ overwritten_below s = Some m \/ target = Some m \/
  m ∈ buffer_marks (sr_buffer s) -> m ∈ release_marks settled_to target s.
Proof.
  unfold release_marks. rewrite !elem_of_app, !elem_of_cons, !elem_of_option, elem_of_nil.
  intuition congruence.
Qed.

(** What the buffer says at a position, as the limits of a chunk there. *)
Section step_at.
Context (c : Cursor) (s : Source) (pos : N).
Hypothesis Hb : buffer_wf (sr_stream s) (sr_buffer s).
Let marks : list N := release_marks (cu_settled_to c) (cu_target c) s.

Lemma known_chunk e :
  lookup_end (buffer_lookup (sr_buffer s) pos) = Some e ->
  pos < e /\ e ∈ marks /\
  (forall x, pos <= x < e -> sample_ok (sr_buffer s) pos x (lookup_kind (buffer_lookup (sr_buffer s) pos))).
Proof using Hb.
  intros He. destruct (buffer_lookup_spec _ _ pos Hb) as (Hok & Hend & _).
  destruct (Hend _ He) as (H1 & H2 & _). split_and!; [done|apply elem_of_release_marks; tauto|].
  intros x Hx. apply Hok; [lia|]. intros e' He'. rewrite He in He'. injection He' as <-. lia.
Qed.

Context (next : option N).
Hypothesis Hnext : buffer_lookup (sr_buffer s) pos = Lk_Unknown next.

Lemma unknown_until e :
  (forall n, next = Some n -> e <= n) -> forall x, pos <= x < e -> sample_ok (sr_buffer s) pos x Sk_Unknown.
Proof using Hb Hnext.
  intros He x Hx. destruct (buffer_lookup_spec _ _ pos Hb) as (Hok & _). rewrite Hnext in Hok.
  apply Hok; [lia|]. intros n Hn. specialize (He n Hn). lia.
Qed.

(** A gap declared up to [x] stops at what is known next. *)
Lemma unknown_min x :
  pos < x -> x <= u64_max -> x ∈ marks ->
  pos < N.min x (default u64_max next) /\ N.min x (default u64_max next) ∈ marks /\
  (forall y, pos <= y < N.min x (default u64_max next) -> sample_ok (sr_buffer s) pos y Sk_Unknown).
Proof using Hb Hnext.
  intros Hx Hm Hin. pose proof known_chunk as Hk. rewrite Hnext in Hk. cbn in Hk.
  assert (Hle : forall n, next = Some n -> N.min x (default u64_max next) <= n) by (intros n ->; cbn; lia).
  split_and!; [| |by apply unknown_until].
  - destruct next as [n|]; cbn; [|lia]. destruct (Hk n eq_refl) as (? & _). lia.
  - destruct next as [n|]; cbn; [|by replace (N.min x u64_max) with x by lia].
    destruct (Hk n eq_refl) as (_ & ? & _). by destruct (N.min_spec x n) as [[_ ->]|[_ ->]].
Qed.

(** What a cursor waits for: the audio known next, or its target. *)
Lemma limit_ok l :
  match next with
  | Some next => Some next
  | None => match cu_target c with Some t => if pos <? t then Some t else None | None => None end
  end = Some l ->
  pos < l /\ l ∈ marks /\ (forall y, pos <= y < l -> sample_ok (sr_buffer s) pos y Sk_Unknown).
Proof using Hb Hnext.
  intros Hl. pose proof known_chunk as Hk. pose proof unknown_until as Hu. rewrite Hnext in Hk. cbn in Hk.
  destruct next as [n|].
  - injection Hl as ->. by apply Hk.
  - destruct (cu_target c) as [t|] eqn:Et; [|done]. destruct (N.ltb_spec pos t); [|done]. injection Hl as ->.
    split_and!; [done|apply elem_of_release_marks; tauto|]. by apply Hu.
Qed.
End step_at.

(** One step: progress to a mark, and a body that is true. *)
Lemma release_step_chunk c s wait now pos end_ body :
  source_wf s -> cursor_wf c ->
  release_step c s wait now pos = Sp_Chunk end_ body ->
  pos < end_ /\ end_ ∈ release_marks (cu_settled_to c) (cu_target c) s /\
  body_ok c s wait now pos end_ body.
Proof.
  intros Hwf [Hset Hsc]. unfold release_step. pose proof (fun g => overwritten_bound s g Hwf) as Hgone.
  destruct Hwf as [Hb Hlive]. pose proof (known_chunk c s pos Hb) as Hknown.
  pose proof (unknown_min c s pos Hb) as Hmin. pose proof (limit_ok c s pos Hb) as Hlim.
  destruct (buffer_lookup (sr_buffer s) pos) as [e m d|e|e|next]; cbn [lookup_end lookup_kind] in Hknown.
  1-3: intros [= <- <-]; by destruct (Hknown _ eq_refl) as (? & ? & ?).
  specialize (Hmin _ eq_refl). specialize (Hlim _ eq_refl). cbv zeta.
  destruct (N.ltb_spec pos (cu_settled_to c)) as [Hp|_].
  { intros [= <- <-]. destruct (Hmin _ Hp Hset) as (H1 & H2 & H3); [apply elem_of_release_marks; tauto|].
    split_and!; [done|done|]. destruct Hsc as [Hsc|Hsc]; rewrite Hsc; (split; [done|left; split; [lia|done]]). }
  destruct (match overwritten_below s with
    | Some gone => if pos <? gone then Some gone else None | None => None end) as [gone|] eqn:Eg.
  { destruct (overwritten_below s) as [g|] eqn:Eo; [|done]. destruct (N.ltb_spec pos g) as [Hp|]; [|done].
    injection Eg as ->. intros [= <- <-].
    destruct (Hmin _ Hp (Hgone _ eq_refl)) as (H1 & H2 & H3); [apply elem_of_release_marks; tauto|].
    split_and!; [done|done|]. split; [done|]. right. left. split; [done|]. exists gone. split; [done|lia]. }
  destruct (match next with Some n => Some n | None => _ end) as [l|]; [|done].
  destruct (cu_stalled_since c) as [since|] eqn:Es; [|done].
  destruct (N.leb_spec (after since wait) now); [|done]. intros [= <- <-].
  destruct (Hlim _ eq_refl) as (H1 & H2 & H3). split_and!; [done|done|].
  split; [done|]. right. right. split; [done|]. by exists since.
Qed.

(** What a stop means: nothing more is known at [pos], and it may still come. *)
Lemma release_step_stop c s wait now pos stalled :
  source_wf s -> release_step c s wait now pos = Sp_Stop stalled ->
  cu_settled_to c <= pos /\
  (forall gone, overwritten_below s = Some gone -> gone <= pos) /\
  sample_ok (sr_buffer s) pos pos Sk_Unknown /\
  exists limit, (limit <> None <-> stalled <> None) /\
    (limit = None -> (forall t, cu_target c = Some t -> t <= pos) /\
       forall x, pos <= x -> sample_ok (sr_buffer s) pos x Sk_Unknown) /\
    (forall l : N, limit = Some l ->
      match cu_stalled_since c with
      | None => stalled = Some now
      | Some since => stalled = Some since /\ now < after since wait
      end).
Proof.
  intros [Hb _]. unfold release_step.
  destruct (buffer_lookup_spec _ _ pos Hb) as (Hok & Hend & _).
  destruct (buffer_lookup (sr_buffer s) pos) as [e m d|e|e|next]; try done.
  cbn [lookup_end lookup_kind] in *.
  destruct (N.ltb_spec pos (cu_settled_to c)) as [|Hset]; [done|].
  set (limit := match next with Some n => Some n | None => _ end).
  assert (Hsame : (match (match overwritten_below s with
        | Some gone => if pos <? gone then Some gone else None | None => None end) with
      | Some gone => Sp_Chunk (N.min gone (default u64_max next)) (Cb_Missing Mc_Overwritten)
      | None => match limit, cu_stalled_since c with
        | None, _ => Sp_Stop None
        | Some _, None => Sp_Stop (Some now)
        | Some limit, Some since =>
            if after since wait <=? now then Sp_Chunk limit (Cb_Missing Mc_TimedOut)
            else Sp_Stop (Some since) end end) = Sp_Stop stalled ->
    (forall gone, overwritten_below s = Some gone -> gone <= pos) /\
    (match limit, cu_stalled_since c with
        | None, _ => Sp_Stop None
        | Some _, None => Sp_Stop (Some now)
        | Some limit, Some since =>
            if after since wait <=? now then Sp_Chunk limit (Cb_Missing Mc_TimedOut)
            else Sp_Stop (Some since) end) = Sp_Stop stalled).
  { destruct (overwritten_below s) as [gone|]; [|by split].
    destruct (N.ltb_spec pos gone); [done|]. split; [by intros ? [= <-]|done]. }
  intros [Hg Hst]%Hsame. clear Hsame. split_and!; [done|done| |].
  { apply Hok; [done|]. intros e He. by destruct (Hend _ He). }
  exists limit. split_and!.
  - destruct limit, (cu_stalled_since c); try (destruct (_ <=? _)); naive_solver.
  - subst limit. intros Hl. destruct next as [n|]; [done|]. split.
    + intros t Ht. rewrite Ht in Hl. destruct (N.ltb_spec pos t); [done|done].
    + intros x Hx. by apply Hok.
  - intros l Hl. rewrite Hl in Hst. destruct (cu_stalled_since c) as [since|]; [|naive_solver].
    destruct (N.leb_spec (after since wait) now); [done|]. split; [naive_solver|done].
Qed.

(** Everything but the position and the stall mark stays. *)
Definition same_cursor (c c' : Cursor) : Prop :=
  cu_epoch c' = cu_epoch c /\ cu_start c' = cu_start c /\ cu_mode c' = cu_mode c /\
  cu_settled_to c' = cu_settled_to c /\ cu_settle_cause c' = cu_settle_cause c /\
  cu_target c' = cu_target c.

(** Why a release stops at [pos] with nothing over the bounds: the position is
    unknown, neither settled nor overwritten; the cursor is stalled exactly when
    something later is known or owed, and then its wait is not over. *)
Record stopped (c' : Cursor) (s : Source) (wait : Duration) (now : MonoInstant) (pos : N) : Prop := {
  so_settled : cu_settled_to c' <= pos;
  so_overwritten gone : overwritten_below s = Some gone -> gone <= pos;
  so_unknown : sample_ok (sr_buffer s) pos pos Sk_Unknown;
  so_idle : cu_stalled_since c' = None ->
    (forall t, cu_target c' = Some t -> t <= pos) /\
    forall x, pos <= x -> sample_ok (sr_buffer s) pos x Sk_Unknown;
  so_waiting since : cu_stalled_since c' = Some since -> since = now \/ now < after since wait;
}.

Record released (s : Source) (id : SubscriptionId) (generation : Generation) (wait : Duration)
    (now : MonoInstant) (c : Cursor) (pos : N) (o : Outbox) (chunks : list Chunk)
    (c' : Cursor) (o' : Outbox) (within : bool) : Prop := {
  re_pos : exists pos', cu_pos c' = Some pos' /\ chunks_from pos chunks pos' /\
    (within = true -> stopped c' s wait now pos');
  re_chunks : Forall (fun ck =>
    ck_subscription ck = id /\ ck_generation ck = generation /\ ck_stream ck = sr_stream s /\
    ck_epoch ck = sr_epoch s /\
    body_ok c s wait now (sp_start (ck_span ck)) (sp_end (ck_span ck)) (ck_body ck)) chunks;
  re_outbox : o' = push_chunks o chunks;
  re_same : same_cursor c c';
}.

Lemma same_cursor_wf c c' : same_cursor c c' -> cursor_wf c -> cursor_wf c'.
Proof. intros (_ & _ & _ & H1 & H2 & _) [? ?]. split; [by rewrite H1|by rewrite H2]. Qed.

Lemma body_ok_unstalled c p s wait now start end_ body :
  body_ok (set_stalled None (set_pos p c)) s wait now start end_ body ->
  body_ok c s wait now start end_ body.
Proof.
  unfold body_ok. cbn. destruct body as [m d data|[]]; try done;
    intros (H & [?|[?|(? & since & [=] & _)]]); (split; [done|tauto]).
Qed.

Lemma release_loop_spec fuel s id generation wait now c pos o :
  source_wf s -> cursor_wf c -> cu_pos c = Some pos ->
  (rank (release_marks (cu_settled_to c) (cu_target c) s) pos <= fuel)%nat ->
  exists chunks c' o' within,
    release_loop fuel s id generation wait now c pos o = Some (c', o', within) /\
    released s id generation wait now c pos o chunks c' o' within.
Proof.
  intros Hs. revert c pos o. induction fuel as [|fuel IH]; intros c pos o Hc Hpos Hrank;
    cbn [release_loop]; destruct (release_step c s wait now pos) as [stalled|end_ body] eqn:Est.
  1, 3: exists [], (set_stalled stalled c), o, true; split; [done|];
    apply release_step_stop in Est as (H1 & H2 & H3 & limit & H4 & H5 & H6); [|done];
    split; [|by constructor|done|done]; exists pos; split_and!; [done|done|]; intros _;
    split; cbn; [done|done|done| |]; [intros ->; apply H5; destruct limit; naive_solver|];
    intros since ->; destruct limit as [l|]; [|naive_solver]; specialize (H6 _ eq_refl);
    destruct (cu_stalled_since c); [destruct H6 as [[= ->] ?]; by right|left; congruence].
  - destruct (release_step_chunk _ _ _ _ _ _ _ Hs Hc Est) as (Hlt & Hin & _).
    pose proof (rank_lt _ _ _ Hin Hlt). lia.
  - destruct (release_step_chunk _ _ _ _ _ _ _ Hs Hc Est) as (Hlt & Hin & Hbody).
    pose proof (rank_lt _ _ _ Hin Hlt).
    set (ck := mkChunk id generation (sr_stream s) (sr_epoch s) (mkSpan pos end_) body).
    set (c1 := set_stalled None (set_pos (Some end_) c)).
    destruct (push o (Dl_Chunk ck)) as [o1 within] eqn:Ep. destruct within.
    + assert (Hc1 : cursor_wf c1) by (apply (same_cursor_wf c); [done|done]).
      destruct (IH c1 end_ o1 Hc1 eq_refl) as (chunks & c' & o' & w & -> & [(pos' & H1 & H2 & H3) Hall Hout Hsame]);
        [change (rank (release_marks (cu_settled_to c) (cu_target c) s) end_ <= fuel)%nat; lia|].
      exists (ck :: chunks), c', o', w. split; [done|]. split.
      * exists pos'. split_and!; [done|done|done].
      * constructor; [done|]. eapply Forall_impl; [exact Hall|]. cbn.
        intros ck' (? & ? & ? & ? & Hb). split_and!; try done. by eapply body_ok_unstalled.
      * rewrite Hout. unfold push_chunks. cbn [foldl]. by rewrite Ep.
      * exact Hsame.
    + exists [ck], c1, o1, false. split; [done|]. split.
      * exists end_. split_and!; [done|done|done].
      * by constructor.
      * unfold push_chunks. cbn [foldl]. by rewrite Ep.
      * done.
Qed.

(** A cursor with no position yet owes nothing. *)
Lemma release_spec c s id generation o config now :
  source_wf s -> cursor_wf c ->
  exists chunks c' o' within,
    release c s id generation o config now = (c', o', within) /\
    match cu_pos c with
    | None => chunks = [] /\ c' = c /\ o' = o /\ within = true
    | Some pos => released s id generation (hole_wait config) now c pos o chunks c' o' within
    end.
Proof.
  intros Hs Hc. unfold release. destruct (cu_pos c) as [pos|] eqn:Hp.
  - destruct (release_loop_spec (release_fuel s) s id generation (hole_wait config) now c pos o Hs Hc Hp)
      as (chunks & c' & o' & w & -> & Hr); [apply release_marks_fuel|].
    by exists chunks, c', o', w.
  - by exists [], c, o, true.
Qed.

(** C31: A release delivers the truth in order and ends.  The loop never runs out:
    it moves over the marks of the buffer.  Its chunks follow each other from
    the cursor's position without a hole or an overlap; data chunks carry what
    the buffer holds, and a range is declared missing only when the device said
    so, when the buffer dropped it, when the device moved past it, when its ring
    can no longer hold it, or when later audio waited behind it longer than the
    configured wait.  It stops only where the audio may still come. *)
Theorem release_contiguous s id generation config now c pos o :
  source_wf s -> cursor_wf c -> cu_pos c = Some pos ->
  exists chunks c' o' within,
    release_loop (release_fuel s) s id generation (hole_wait config) now c pos o = Some (c', o', within) /\
    release c s id generation o config now = (c', o', within) /\
    released s id generation (hole_wait config) now c pos o chunks c' o' within.
Proof.
  intros Hs Hc Hp.
  destruct (release_loop_spec (release_fuel s) s id generation (hole_wait config) now c pos o Hs Hc Hp)
    as (chunks & c' & o' & w & Hl & Hr); [apply release_marks_fuel|].
  exists chunks, c', o', w. split_and!; [done| |done]. unfold release. by rewrite Hp, Hl.
Qed.

(** ** Witness *)
Definition example_source : Source := mkSource example_buffer (Some 14) None Mic 7.
Definition example_cursor : Cursor :=
  mkCursor 7 (Ss_At 8) Ordered (Some 8) 10 Mc_Clipped None None.

Lemma release_contiguous_witness :
  let r := release example_cursor example_source "L1" 1 (outbox_new 1000 100) config_default 0 in
  (fun d => match d with Dl_Chunk ck => (ck_span ck, chunk_bytes ck) | _ => (mkSpan 0 0, 0) end)
    <$> ob_queue r.1.2 = [(mkSpan 8 10, 0); (mkSpan 10 14, 8)] /\
  exists chunks c' o' within,
    release_loop (release_fuel example_source) example_source "L1" 1 (from_secs 2) 0 example_cursor 8
      (outbox_new 1000 100) = Some (c', o', within) /\
    r = (c', o', within) /\
    released example_source "L1" 1 (from_secs 2) 0 example_cursor 8 (outbox_new 1000 100) chunks c' o' within.
Proof.
  split; [vm_compute; reflexivity|].
  refine (release_contiguous example_source "L1" 1 config_default 0 example_cursor 8
    (outbox_new 1000 100) _ _ eq_refl).
  - split; [exact (proj1 example_buffer_valid)|]. intros live [= <-]. unfold u64_max. lia.
  - split; [cbn; unfold u64_max; lia|by right].
Defined.
