(* ===== verification/Uplink.v ===== *)
(** * One session's subscriptions ([uplink/src/uplink.rs], [Uplink])

    The state machine the device runtime drives in ingress order: device reports
    ([stream_opened], [stream_ended], [ingest], [device_ended], [mute], [unmute],
    [session_lost]), controller decisions ([accept_candidate],
    [convert_to_turn], the [open] family, [close], [command_rejected]) and time
    ([poll]).  A handler takes the state and returns the new one with its answer.
    [SubscriptionId::generate] draws a UUID outside the program: the handlers
    that open a subscription take the drawn id. *)
From S2P Require Import Prelude Bytes WireEnum Ema Vocab Streams Clock Blocks Buffer Timeline Delivery Cursor.

Record Grant := mkGrant { gr_stream : StreamId; gr_grant : BackfillGrant }.

Record CandidateOpen := mkCandidateOpen {
  co_subscription_id : SubscriptionId;
  co_capture_epoch : N;
  co_support_start : Sample;
}.
Record NearMissOpen := mkNearMissOpen {
  nm_near_miss_id : Owner;
  nm_capture_epoch : N;
  nm_support_start : Sample;
  nm_support_end : Sample;
}.
Record Opened := mkOpened { op_subscription_id : SubscriptionId; op_grants : list Grant }.

Inductive Ingested :=
  | In_Stored (new_samples : N)
  | In_Unwanted
  | In_ErasedEpoch
  | In_UnknownEpoch
  | In_NotUplink.

Inductive OpenError :=
  | Oe_Muted
  | Oe_NoCaptureEpoch
  | Oe_StaleEpoch (current : option N) (requested : N)
  | Oe_DuplicateId
  | Oe_NoStreams
  | Oe_AfeUnavailable
  | Oe_NearMissUnsupported.

Inductive CommandError := Ce_UnknownSubscription | Ce_NotACandidate | Ce_Ending.

(** ** Subscriptions *)
Record Want := mkWant { wt_stream : StreamId; wt_cursors : list Cursor }.

Inductive Phase :=
  | Ph_Active (next_renewal : MonoInstant)
  | Ph_Draining (report : UplinkEnded) (deadline : MonoInstant).

Definition is_active (p : Phase) : bool := match p with Ph_Active _ => true | _ => false end.

Record NearMissPlan := mkNearMissPlan { np_mic_through : N; np_afe : bool }.

Record Sub := mkSub {
  sb_key : SubKey;
  sb_id : SubscriptionId;
  sb_owner : Owner;
  sb_reason : SubscriptionReason;
  sb_generation : Generation;
  sb_capture_epoch : N;
  sb_wants : list Want;
  sb_phase : Phase;
  sb_near_miss : option NearMissPlan;
  sb_overflowed : bool;
}.

Definition set_wants (wants : list Want) (s : Sub) : Sub :=
  mkSub (sb_key s) (sb_id s) (sb_owner s) (sb_reason s) (sb_generation s) (sb_capture_epoch s) wants
    (sb_phase s) (sb_near_miss s) (sb_overflowed s).
Definition set_phase (phase : Phase) (s : Sub) : Sub :=
  mkSub (sb_key s) (sb_id s) (sb_owner s) (sb_reason s) (sb_generation s) (sb_capture_epoch s)
    (sb_wants s) phase (sb_near_miss s) (sb_overflowed s).
Definition overflow_unless (within : bool) (s : Sub) : Sub :=
  mkSub (sb_key s) (sb_id s) (sb_owner s) (sb_reason s) (sb_generation s) (sb_capture_epoch s)
    (sb_wants s) (sb_phase s) (sb_near_miss s) (if within then sb_overflowed s else true).

Definition wants_on (s : Sub) (stream : StreamId) (epoch : N) : bool :=
  any (fun w => bool_decide (wt_stream w = stream) && any (fun c => cu_epoch c =? epoch) (wt_cursors w))
    (sb_wants s).

(** [Sub::position]: of the newest epoch's cursor. *)
Definition sub_position (s : Sub) (stream : StreamId) : option N :=
  w ← find_first (fun w => bool_decide (wt_stream w = stream)) (sb_wants s);
  c ← last (wt_cursors w);
  cu_pos c.

Definition near_miss_done (s : Sub) : bool :=
  match sb_near_miss s with
  | None => false
  | Some plan =>
      match sub_position s Mic with
      | None => false
      | Some mic =>
          if mic <? np_mic_through plan then false
          else
            negb (np_afe plan)
            || match sub_position s Afe with Some afe => np_mic_through plan <=? afe | None => false end
            || (np_mic_through plan + NEAR_MISS_GRACE <=? mic)
      end
  end.

Record SubscriptionView := mkSubscriptionView {
  vw_id : SubscriptionId; vw_owner : Owner; vw_reason : SubscriptionReason;
  vw_generation : Generation; vw_capture_epoch : N; vw_streams : list StreamId; vw_draining : bool;
}.
Definition sub_view (s : Sub) : SubscriptionView :=
  mkSubscriptionView (sb_id s) (sb_owner s) (sb_reason s) (sb_generation s) (sb_capture_epoch s)
    (wt_stream <$> sb_wants s) (negb (is_active (sb_phase s))).

Definition find_cursor (wants : list Want) (stream : StreamId) (epoch : N) : option Cursor :=
  w ← find_first (fun w => bool_decide (wt_stream w = stream)) wants;
  find_first (fun c => cu_epoch c =? epoch) (wt_cursors w).

(** An assignment through the reference [find_cursor] returns. *)
Definition update_cursor (wants : list Want) (stream : StreamId) (epoch : N) (f : Cursor -> Cursor) :
    list Want :=
  update_first (fun w => bool_decide (wt_stream w = stream))
    (fun w => mkWant (wt_stream w) (update_first (fun c => cu_epoch c =? epoch) f (wt_cursors w))) wants.

Record Zombie := mkZombie {
  zb_key : SubKey;
  zb_id : SubscriptionId;
  zb_streams : list (StreamId * N);
  zb_expires : MonoInstant;
}.

(** ** The uplink *)
Record Uplink := mkUplink {
  up_config : UplinkConfig;
  up_terms : SessionTerms;
  up_timeline : Timeline;
  up_muted : bool;
  up_subs : list Sub;
  up_zombies : list Zombie;
  up_next_key : N;
  up_commands : list Outgoing;
  up_outbox : Outbox;
}.

Definition uplink_new (config : UplinkConfig) (terms : SessionTerms) (muted : bool) : Uplink :=
  mkUplink config terms (timeline_new config) muted [] [] 0 []
    (outbox_new (max_backlog_bytes config) (max_backlog_deliveries config)).

Definition with_timeline (tl : Timeline) (u : Uplink) : Uplink :=
  mkUplink (up_config u) (up_terms u) tl (up_muted u) (up_subs u) (up_zombies u) (up_next_key u)
    (up_commands u) (up_outbox u).
Definition with_subs (subs : list Sub) (u : Uplink) : Uplink :=
  mkUplink (up_config u) (up_terms u) (up_timeline u) (up_muted u) subs (up_zombies u)
    (up_next_key u) (up_commands u) (up_outbox u).
Definition with_zombies (zombies : list Zombie) (u : Uplink) : Uplink :=
  mkUplink (up_config u) (up_terms u) (up_timeline u) (up_muted u) (up_subs u) zombies
    (up_next_key u) (up_commands u) (up_outbox u).
Definition with_commands (commands : list Outgoing) (u : Uplink) : Uplink :=
  mkUplink (up_config u) (up_terms u) (up_timeline u) (up_muted u) (up_subs u) (up_zombies u)
    (up_next_key u) commands (up_outbox u).
Definition with_outbox (outbox : Outbox) (u : Uplink) : Uplink :=
  mkUplink (up_config u) (up_terms u) (up_timeline u) (up_muted u) (up_subs u) (up_zombies u)
    (up_next_key u) (up_commands u) outbox.
Definition with_muted (muted : bool) (u : Uplink) : Uplink :=
  mkUplink (up_config u) (up_terms u) (up_timeline u) muted (up_subs u) (up_zombies u)
    (up_next_key u) (up_commands u) (up_outbox u).

Definition find_sub (u : Uplink) (id : SubscriptionId) : option Sub :=
  find_first (fun s => bool_decide (sb_id s = id)) (up_subs u).
Definition sub_index (u : Uplink) (id : SubscriptionId) : option nat :=
  position (fun s => bool_decide (sb_id s = id)) (up_subs u).

Definition subscription (u : Uplink) (id : SubscriptionId) : option SubscriptionView :=
  sub_view <$> find_sub u id.
Definition diagnostic_live (u : Uplink) : bool :=
  any (fun s => bool_decide (sb_reason s = Sr_Diagnostic) && is_active (sb_phase s)) (up_subs u).

Definition take_commands (u : Uplink) : Uplink * list Outgoing := (with_commands [] u, up_commands u).
(** [None] is an underflow of a backlog counter; [outbox_accounts] excludes it. *)
Definition uplink_drain (u : Uplink) (out : list Delivery) : option (Uplink * list Delivery) :=
  '(outbox, out) ← outbox_drain (up_outbox u) out;
  Some (with_outbox outbox u, out).

(** ** Ending subscriptions *)
Inductive Leaves := LeavesZombie | LeavesGone.

Definition push_ended (s : Sub) (cause : EndCause) (u : Uplink) : Uplink :=
  with_outbox
    (push (up_outbox u)
       (Dl_Ended (mkEnded (sb_id s) (sb_owner s) (sb_reason s) (sb_generation s) cause))).1 u.

Definition drop_commands_of (id : SubscriptionId) (u : Uplink) : Uplink :=
  with_commands
    (retain (fun c => negb (bool_decide (command_subscription (og_command c) = id))) (up_commands u)) u.

Definition sub_streams (s : Sub) : list (StreamId * N) :=
  flat_map (fun w => (fun c => (wt_stream w, cu_epoch c)) <$> wt_cursors w) (sb_wants s).

(** [end_sub] at an index in range. *)
Definition end_sub (at_ : nat) (cause : EndCause) (leaves : Leaves) (now : MonoInstant) (u : Uplink) :
    Uplink :=
  match up_subs u !! at_ with
  | None => u
  | Some sub =>
      let u := with_subs (remove_at at_ (up_subs u)) u in
      let u :=
        match leaves with
        | LeavesZombie =>
            with_zombies
              (up_zombies u ++ [mkZombie (sb_key sub) (sb_id sub) (sub_streams sub)
                 (after now (SUBSCRIPTION_TTL + hole_wait (up_config u)))]) u
        | LeavesGone =>
            drop_commands_of (sb_id sub)
              (with_timeline (timeline_drop_claims (up_timeline u) (sb_key sub)) u)
        end in
      push_ended sub cause u
  end.

Definition send (generation : Generation) (command : UplinkCommand) (u : Uplink) : Uplink :=
  with_commands (up_commands u ++ [mkOutgoing generation command]) u.

Definition close_at (at_ : nat) (reason : CloseReason) (cause : EndCause) (now : MonoInstant)
    (u : Uplink) : Uplink :=
  match up_subs u !! at_ with
  | None => u
  | Some sub =>
      if is_active (sb_phase sub) then
        end_sub at_ cause LeavesZombie now
          (send (sb_generation sub) (Cmd_Close (mkClose (sb_id sub) reason)) u)
      else end_sub at_ cause LeavesGone now u
  end.

(** [end_all]: every subscription, then every zombie. *)
Definition end_one (cause : EndCause) (u : Uplink) (s : Sub) : Uplink :=
  push_ended s cause
    (drop_commands_of (sb_id s) (with_timeline (timeline_drop_claims (up_timeline u) (sb_key s)) u)).
Definition end_all (cause : EndCause) (u : Uplink) : Uplink :=
  let u := foldl (end_one cause) (with_subs [] u) (up_subs u) in
  let zombies := up_zombies u in
  foldl (fun u z => with_timeline (timeline_drop_claims (up_timeline u) (zb_key z)) u)
    (with_zombies [] u) zombies.

(** ** Releasing *)
(** Releases one cursor of [s] from its epoch's storage, if that is still held. *)
Definition source_of (tl : Timeline) (packet : option Packet) (stream : StreamId) (epoch : N) :
    option Source :=
  (fun held => mkSource (es_buffer held) (tk_live_end (es_track held)) packet stream (es_epoch held))
    <$> timeline_get tl stream epoch.

Fixpoint release_cursors (tl : Timeline) (config : UplinkConfig) (id : SubscriptionId)
    (generation : Generation) (stream : StreamId) (now : MonoInstant) (cursors : list Cursor)
    (outbox : Outbox) : list Cursor * Outbox * bool :=
  match cursors with
  | [] => ([], outbox, true)
  | c :: cursors =>
      let '(c, outbox, within) :=
        match source_of tl None stream (cu_epoch c) with
        | Some source => release c source id generation outbox config now
        | None => (c, outbox, true)
        end in
      let '(cursors, outbox, within') :=
        release_cursors tl config id generation stream now cursors outbox in
      (c :: cursors, outbox, within && within')
  end.

Fixpoint release_wants (tl : Timeline) (config : UplinkConfig) (id : SubscriptionId)
    (generation : Generation) (now : MonoInstant) (wants : list Want) (outbox : Outbox) :
    list Want * Outbox * bool :=
  match wants with
  | [] => ([], outbox, true)
  | w :: wants =>
      let '(cursors, outbox, within) :=
        release_cursors tl config id generation (wt_stream w) now (wt_cursors w) outbox in
      let '(wants, outbox, within') := release_wants tl config id generation now wants outbox in
      (mkWant (wt_stream w) cursors :: wants, outbox, within && within')
  end.

Fixpoint release_subs (tl : Timeline) (config : UplinkConfig) (now : MonoInstant) (subs : list Sub)
    (outbox : Outbox) : list Sub * Outbox :=
  match subs with
  | [] => ([], outbox)
  | s :: subs =>
      let '(wants, outbox, within) :=
        release_wants tl config (sb_id s) (sb_generation s) now (sb_wants s) outbox in
      let '(subs, outbox) := release_subs tl config now subs outbox in
      (overflow_unless within (set_wants wants s) :: subs, outbox)
  end.

Definition release_all (now : MonoInstant) (u : Uplink) : Uplink :=
  let '(subs, outbox) := release_subs (up_timeline u) (up_config u) now (up_subs u) (up_outbox u) in
  with_outbox outbox (with_subs subs u).

(** ** Settling *)
(** [give_up_drain]: what was owed and never arrived is declared missing. *)
Definition give_up_cursor (s : Sub) (stream : StreamId) (c : Cursor) (outbox : Outbox) :
    Cursor * Outbox :=
  match cu_pos c, cu_target c with
  | Some pos, Some target =>
      if target <=? pos then (c, outbox)
      else
        (set_pos (Some target) c,
         (push outbox (Dl_Chunk (mkChunk (sb_id s) (sb_generation s) stream (cu_epoch c)
           (mkSpan pos target) (Cb_Missing Mc_TimedOut)))).1)
  | _, _ => (c, outbox)
  end.

Fixpoint give_up_cursors (s : Sub) (stream : StreamId) (cursors : list Cursor) (outbox : Outbox) :
    list Cursor * Outbox :=
  match cursors with
  | [] => ([], outbox)
  | c :: cursors =>
      let '(c, outbox) := give_up_cursor s stream c outbox in
      let '(cursors, outbox) := give_up_cursors s stream cursors outbox in
      (c :: cursors, outbox)
  end.

Fixpoint give_up_wants (s : Sub) (wants : list Want) (outbox : Outbox) : list Want * Outbox :=
  match wants with
  | [] => ([], outbox)
  | w :: wants =>
      let '(cursors, outbox) := give_up_cursors s (wt_stream w) (wt_cursors w) outbox in
      let '(wants, outbox) := give_up_wants s wants outbox in
      (mkWant (wt_stream w) cursors :: wants, outbox)
  end.

Definition give_up_drain (at_ : nat) (u : Uplink) : Uplink :=
  match up_subs u !! at_ with
  | None => u
  | Some s =>
      let '(wants, outbox) := give_up_wants s (sb_wants s) (up_outbox u) in
      with_outbox outbox (with_subs (<[at_ := set_wants wants s]> (up_subs u)) u)
  end.

Definition drained (s : Sub) : bool :=
  forallb (fun w => forallb cursor_done (wt_cursors w)) (sb_wants s).

(** What [settle_subs] does with one subscription; [None] leaves it. *)
Definition settle_one (at_ : nat) (s : Sub) (now : MonoInstant) (u : Uplink) : option Uplink :=
  if sb_overflowed s then Some (close_at at_ Cr_Closed Ec_Overflow now u)
  else
    match sb_phase s with
    | Ph_Draining report deadline =>
        if drained s || (deadline <=? now) then
          let u := if drained s then u else give_up_drain at_ u in
          Some (end_sub at_ (Ec_Device report) LeavesGone now u)
        else None
    | Ph_Active _ =>
        if near_miss_done s then Some (close_at at_ Cr_Closed (Ec_Closed Cr_Closed) now u) else None
    end.

(** The loop of [settle_subs]: each round removes a subscription or moves on. *)
Fixpoint settle_from (rounds : nat) (at_ : nat) (now : MonoInstant) (u : Uplink) : Uplink :=
  match rounds with
  | O => u
  | S rounds =>
      match up_subs u !! at_ with
      | None => u
      | Some s =>
          match settle_one at_ s now u with
          | Some u => settle_from rounds at_ now u
          | None => settle_from rounds (S at_) now u
          end
      end
  end.

Definition settle_subs (now : MonoInstant) (u : Uplink) : Uplink :=
  settle_from (length (up_subs u)) 0 now u.

(** ** Device reports *)
Definition open_reference (epoch : N) (s : Sub) : Sub :=
  if is_active (sb_phase s) then
    match find_first (fun w => bool_decide (wt_stream w = Reference)) (sb_wants s) with
    | Some want =>
        if any (fun c => cu_epoch c =? epoch) (wt_cursors want) then s
        else
          set_wants
            (update_first (fun w => bool_decide (wt_stream w = Reference))
               (fun w => mkWant (wt_stream w) (wt_cursors w ++ [cursor_new epoch Ss_Live]))
               (sb_wants s)) s
    | None => s
    end
  else s.

Definition stream_opened (open : StreamOpen) (u : Uplink) : Uplink :=
  let stream := so_stream open in
  let epoch := so_epoch open in
  if is_erased (up_timeline u) stream epoch then u
  else
    match stream with
    | Reference =>
        let tl := ensure (set_reference (up_timeline u) (Some epoch)) stream epoch in
        with_subs (open_reference epoch <$> up_subs u) (with_timeline tl u)
    | _ =>
        let u :=
          if negb (bool_decide (tl_capture (up_timeline u) = Some epoch)) then
            let u := end_all Ec_CaptureEpoch u in
            with_timeline (set_capture (up_timeline u) (Some epoch)) u
          else u in
        with_timeline (ensure (up_timeline u) stream epoch) u
    end.

(** Removes the cursor of an ended reference epoch and releases what it can still
    deliver. *)
Definition end_reference (source : Source) (config : UplinkConfig) (final_sample : N)
    (now : MonoInstant) (s : Sub) (outbox : Outbox) : Sub * Outbox :=
  match find_first (fun w => bool_decide (wt_stream w = sr_stream source)) (sb_wants s) with
  | None => (s, outbox)
  | Some want =>
      match position (fun c => cu_epoch c =? sr_epoch source) (wt_cursors want) with
      | None => (s, outbox)
      | Some at_ =>
          match wt_cursors want !! at_ with
          | None => (s, outbox)
          | Some c =>
              let s' := set_wants
                (update_first (fun w => bool_decide (wt_stream w = sr_stream source))
                   (fun w => mkWant (wt_stream w) (remove_at at_ (wt_cursors w))) (sb_wants s)) s in
              let c := set_target None c in
              let c := match cu_pos c with Some _ => settle final_sample Mc_NotSent c | None => c end in
              let '(_, outbox, within) :=
                release c source (sb_id s) (sb_generation s) outbox config now in
              (overflow_unless within s', outbox)
          end
      end
  end.

Fixpoint end_references (source : Source) (config : UplinkConfig) (final_sample : N)
    (now : MonoInstant) (subs : list Sub) (outbox : Outbox) : list Sub * Outbox :=
  match subs with
  | [] => ([], outbox)
  | s :: subs =>
      let '(s, outbox) := end_reference source config final_sample now s outbox in
      let '(subs, outbox) := end_references source config final_sample now subs outbox in
      (s :: subs, outbox)
  end.

Definition stream_ended (e : StreamEnd) (now : MonoInstant) (u : Uplink) : Uplink :=
  let stream := se_stream e in
  let epoch := se_epoch e in
  if negb (bool_decide (stream = Reference)) then
    if bool_decide (tl_capture (up_timeline u) = Some epoch) then
      let u := end_all Ec_CaptureEpoch u in
      with_timeline (set_capture (up_timeline u) None) u
    else u
  else
    let u :=
      if bool_decide (tl_reference (up_timeline u) = Some epoch) then
        with_timeline (set_reference (up_timeline u) None) u
      else u in
    match source_of (up_timeline u) None stream epoch with
    | None => u
    | Some source =>
        let '(subs, outbox) :=
          end_references source (up_config u) (se_final_sample e) now (up_subs u) (up_outbox u) in
        settle_subs now (with_outbox outbox (with_subs subs u))
    end.

(** What a run start tells the subscription it names. *)
Definition tell_attribution (stream : StreamId) (epoch : N) (subs : list Sub)
    (told : SubKey * Attribution) : list Sub :=
  update_first (fun s => sb_key s =? told.1)
    (fun s => set_wants (update_cursor (sb_wants s) stream epoch (attribute told.2 stream)) s) subs.

Definition ingest_sub (source : Source) (path : Path) (first : N) (config : UplinkConfig)
    (now : MonoInstant) (s : Sub) (outbox : Outbox) : Sub * Outbox :=
  match find_cursor (sb_wants s) (sr_stream source) (sr_epoch source) with
  | None => (s, outbox)
  | Some c =>
      let c := on_packet path first (sb_key s) (sr_stream source) c in
      let '(c, outbox, within) := release c source (sb_id s) (sb_generation s) outbox config now in
      (overflow_unless within
         (set_wants (update_cursor (sb_wants s) (sr_stream source) (sr_epoch source) (fun _ => c)) s),
       outbox)
  end.

Fixpoint ingest_subs (source : Source) (path : Path) (first : N) (config : UplinkConfig)
    (now : MonoInstant) (subs : list Sub) (outbox : Outbox) : list Sub * Outbox :=
  match subs with
  | [] => ([], outbox)
  | s :: subs =>
      let '(s, outbox) := ingest_sub source path first config now s outbox in
      let '(subs, outbox) := ingest_subs source path first config now subs outbox in
      (s :: subs, outbox)
  end.

(** The stream epoch after a packet: its place in the arrival order, what the
    device skipped, and its records when they are wanted. *)
Definition ingest_epoch (packet : Packet) (wanted : bool) (held : EpochStream) :
    EpochStream * Classified * N :=
  let header := p_header packet in
  let '(track, classified) :=
    classify (es_track held) (h_first_sample header) (p_end_sample packet)
      (bits_contain (h_flags header) FLAG_DISCONTINUITY) in
  let buffer :=
    match cf_missing classified with
    | Some missing => mark_missing (es_buffer held) missing
    | None => es_buffer held
    end in
  let '(buffer, new_samples) := if wanted then store buffer packet else (buffer, 0) in
  (mkEpochStream (es_epoch held) buffer track, classified, new_samples).

Definition ingest (packet : Packet) (now : MonoInstant) (u : Uplink) : Uplink * Ingested :=
  let header := p_header packet in
  match stream_of_kind (h_kind header) with
  | None => (u, In_NotUplink)
  | Some stream =>
      let epoch := h_epoch header in
      if is_erased (up_timeline u) stream epoch then (u, In_ErasedEpoch)
      else
        match timeline_get (up_timeline u) stream epoch with
        | None => (u, In_UnknownEpoch)
        | Some held =>
            let wanted := any (fun s => wants_on s stream epoch) (up_subs u) in
            let '(held', classified, new_samples) := ingest_epoch packet wanted held in
            let tl := timeline_update (up_timeline u) stream epoch (fun _ => held') in
            let subs := foldl (tell_attribution stream epoch) (up_subs u) (cf_attributed classified) in
            let source := mkSource (es_buffer held') (tk_live_end (es_track held')) (Some packet)
              stream (es_epoch held') in
            let '(subs, outbox) :=
              ingest_subs source (cf_path classified) (h_first_sample header) (up_config u) now subs
                (up_outbox u) in
            let u := with_outbox outbox (with_subs subs (with_timeline tl u)) in
            (settle_subs now u, if wanted then In_Stored new_samples else In_Unwanted)
        end
  end.

(** The newest cursor of a want, told what the device says it sent. *)
Definition report_cursor (last clipped : option N) (c : Cursor) : Cursor :=
  let c := set_target ((fun l => sat_add64 l 1) <$> last) c in
  match clipped with
  | None => c
  | Some clipped =>
      set_mode Ordered
        match cu_pos c with
        | Some _ => settle clipped Mc_Clipped c
        | None => set_pos (Some clipped) c
        end
  end.

Fixpoint update_last {A} (f : A -> A) (l : list A) : list A :=
  match l with
  | [] => []
  | [x] => [f x]
  | x :: l => x :: update_last f l
  end.

Definition report_want (report : UplinkEnded) (w : Want) : Want :=
  let last := mjoin (ue_last_sample report !! wt_stream w) in
  let clipped := mjoin (ue_clipped_start report !! wt_stream w) in
  mkWant (wt_stream w) (update_last (report_cursor last clipped) (wt_cursors w)).

Definition begin_drain (report : UplinkEnded) (deadline : MonoInstant) (s : Sub) : Sub :=
  set_phase (Ph_Draining report deadline) (set_wants (report_want report <$> sb_wants s) s).

Definition device_ended (report : UplinkEnded) (now : MonoInstant) (u : Uplink) : Uplink :=
  let id := ue_subscription_id report in
  if any (fun z => bool_decide (zb_id z = id)) (up_zombies u) then
    with_zombies
      (update_first (fun z => bool_decide (zb_id z = id))
         (fun z => mkZombie (zb_key z) (zb_id z) (zb_streams z)
            (N.min (zb_expires z) (after now (hole_wait (up_config u))))) (up_zombies u)) u
  else
    match sub_index u id with
    | None => u
    | Some at_ =>
        match up_subs u !! at_ with
        | None => u
        | Some s =>
            if negb (is_active (sb_phase s)) then u
            else
              match ue_reason report with
              | Ue_Mute =>
                  end_sub at_ (Ec_Device report) LeavesGone now
                    (with_outbox (discard_chunks_of (up_outbox u) (sb_id s)) u)
              | Ue_Epoch | Ue_Session => end_sub at_ (Ec_Device report) LeavesGone now u
              | Ue_Closed | Ue_Ttl | Ue_Overrun =>
                  let deadline := after now (hole_wait (up_config u)) in
                  settle_subs now
                    (release_all now
                       (with_subs (<[at_ := begin_drain report deadline s]> (up_subs u)) u))
              end
        end
    end.

(** [mute] and [session_lost] end every subscription without its audio. *)
Definition end_silently (cause : EndCause) (u : Uplink) : Uplink :=
  let subs := up_subs u in
  foldl (fun u s => push_ended s cause u)
    (with_subs [] (with_zombies [] (with_commands []
       (with_outbox (discard_chunks (up_outbox u)) u)))) subs.

Definition mute (u : Uplink) : Uplink :=
  let u := end_silently Ec_Muted (with_muted true u) in
  with_timeline (erase (up_timeline u)) u.

Definition unmute (u : Uplink) : Uplink := with_muted false u.

Definition session_lost (u : Uplink) : Uplink :=
  let u := end_silently Ec_SessionLost u in
  with_timeline (timeline_clear (up_timeline u)) u.

(** ** Controller decisions *)
Definition check_open (requested : option N) (u : Uplink) : result OpenError N :=
  if up_muted u then Err Oe_Muted
  else
    match tl_capture (up_timeline u), requested with
    | None, None => Err Oe_NoCaptureEpoch
    | Some current, None => Ok current
    | current, Some requested =>
        if negb (bool_decide (current = Some requested)) then Err (Oe_StaleEpoch current requested)
        else Ok requested
    end.

Definition others_want (u : Uplink) (stream : StreamId) (epoch : N) : bool :=
  any (fun s => wants_on s stream epoch) (up_subs u)
  || any (fun z => bool_decide ((stream, epoch) ∈ zb_streams z)) (up_zombies u).

Definition start_spec (stream : StreamId) (start : StreamStart) : StartSpec :=
  match start with
  | StartLive => Ss_Live
  | StartAt at_ =>
      match device_grid_start stream at_ with Some at_ => Ss_At at_ | None => Ss_Mapped end
  end.

(** One wanted stream of [activate]: the timeline, the want and its grant. *)
Definition activate_stream (u : Uplink) (key : SubKey) (capture : N) (tl : Timeline)
    (request : StreamId * StreamStart) : Timeline * Want * list Grant :=
  let '(stream, start) := request in
  let spec := start_spec stream start in
  let backfill := negb (bool_decide (spec = Ss_Live)) in
  let epoch := match stream with Reference => tl_reference tl | _ => Some capture end in
  let grants :=
    if backfill then
      [mkGrant stream match stream with Reference => BgEveryOpenEpoch | _ => BgEpoch capture end]
    else [] in
  match epoch with
  | None => (tl, mkWant stream [], grants)
  | Some epoch =>
      let tl :=
        if backfill then
          let fresh := negb (others_want u stream epoch) in
          let floor := match spec with Ss_At at_ => Some at_ | _ => None end in
          timeline_update (ensure tl stream epoch) stream epoch
            (fun e => mkEpochStream (es_epoch e) (es_buffer e)
               (track_claim (es_track e) (mkClaim key fresh floor)))
        else tl in
      (tl, mkWant stream [cursor_new epoch spec], grants)
  end.

Fixpoint activate_streams (u : Uplink) (key : SubKey) (capture : N) (tl : Timeline)
    (requests : list (StreamId * StreamStart)) : Timeline * list Want * list Grant :=
  match requests with
  | [] => (tl, [], [])
  | request :: requests =>
      let '(tl, want, grants) := activate_stream u key capture tl request in
      let '(tl, wants, grants') := activate_streams u key capture tl requests in
      (tl, want :: wants, grants ++ grants')
  end.

Definition activate (id : SubscriptionId) (owner : Owner) (reason : SubscriptionReason) (capture : N)
    (streams : StreamMap) (near_miss : option NearMissPlan) (now : MonoInstant) (u : Uplink) :
    Uplink * list Grant :=
  let key := up_next_key u in
  let '(tl, wants, grants) := activate_streams u key capture (up_timeline u) (stream_list streams) in
  let sub := {|
    sb_key := key; sb_id := id; sb_owner := owner; sb_reason := reason;
    sb_generation := GENERATION_FIRST; sb_capture_epoch := capture; sb_wants := wants;
    sb_phase := Ph_Active (after now RENEW_INTERVAL); sb_near_miss := near_miss;
    sb_overflowed := false |} in
  (mkUplink (up_config u) (up_terms u) tl (up_muted u) (up_subs u ++ [sub]) (up_zombies u) (key + 1)
     (up_commands u) (up_outbox u), grants).

Definition candidate_streams (starts : CandidateStarts) : StreamMap :=
  let streams : StreamMap :=
    {[ Mic := StartAt (cs_mic starts); Cells := StartAt (cs_cells starts);
       Reference := StartAt (cs_reference starts) ]} in
  match cs_afe starts with Some afe => <[Afe := StartAt afe]> streams | None => streams end.

Definition accept_candidate (candidate : CandidateOpen) (now : MonoInstant) (u : Uplink) :
    Uplink * result OpenError (list Grant) :=
  match check_open (Some (co_capture_epoch candidate)) u with
  | Err e => (u, Err e)
  | Ok capture =>
      if any (fun s => bool_decide (sb_id s = co_subscription_id candidate)) (up_subs u) then
        (u, Err Oe_DuplicateId)
      else
        let starts := candidate_starts (co_support_start candidate) (t_afe_metadata (up_terms u)) in
        let '(u, grants) :=
          activate (co_subscription_id candidate)
            (owner_of_subscription (co_subscription_id candidate)) Sr_Candidate capture
            (candidate_streams starts) None now u in
        (u, Ok grants)
  end.

Definition convert_sub (turn : Owner) (now : MonoInstant) (s : Sub) : Sub :=
  mkSub (sb_key s) (sb_id s) turn Sr_Turn (generation_next (sb_generation s)) (sb_capture_epoch s)
    (sb_wants s) (Ph_Active (after now RENEW_INTERVAL)) (sb_near_miss s) (sb_overflowed s).

Definition convert_to_turn (id : SubscriptionId) (turn : Owner) (now : MonoInstant) (u : Uplink) :
    Uplink * result CommandError unit :=
  match find_sub u id with
  | None => (u, Err Ce_UnknownSubscription)
  | Some s =>
      if negb (is_active (sb_phase s)) then (u, Err Ce_Ending)
      else if negb (bool_decide (sb_reason s = Sr_Candidate)) then (u, Err Ce_NotACandidate)
      else
        let u :=
          with_subs
            (update_first (fun s => bool_decide (sb_id s = id)) (convert_sub turn now) (up_subs u)) u in
        (send (generation_next (sb_generation s))
           (Cmd_Renew (mkRenew id SUBSCRIPTION_TTL (Some (mkConversion turn)))) u, Ok tt)
  end.

Definition open_with (fresh : SubscriptionId) (reason : OpenReason) (owner : Owner)
    (streams : StreamMap) (near_miss : option NearMissPlan) (now : MonoInstant) (u : Uplink) :
    Uplink * result OpenError Opened :=
  match check_open None u with
  | Err e => (u, Err e)
  | Ok capture =>
      if bool_decide (streams = ∅) then (u, Err Oe_NoStreams)
      else if bool_decide (is_Some (streams !! Afe)) && negb (t_afe_metadata (up_terms u)) then
        (u, Err Oe_AfeUnavailable)
      else
        let '(u, grants) :=
          activate fresh owner (reason_of_open reason) capture streams near_miss now u in
        (send GENERATION_FIRST (Cmd_Open (mkOpen fresh owner reason streams SUBSCRIPTION_TTL)) u,
         Ok (mkOpened fresh grants))
  end.

Definition uplink_open (fresh : SubscriptionId) (reason : OpenReason) (owner : Owner)
    (streams : StreamMap) (now : MonoInstant) (u : Uplink) : Uplink * result OpenError Opened :=
  if bool_decide (reason = Or_NearMiss) && negb (t_near_miss (up_terms u)) then
    (u, Err Oe_NearMissUnsupported)
  else open_with fresh reason owner streams None now u.

Definition open_button_turn (fresh : SubscriptionId) (turn : Owner) (press : Sample)
    (now : MonoInstant) (u : Uplink) : Uplink * result OpenError Opened :=
  uplink_open fresh Or_Turn turn
    (candidate_streams (candidate_starts press (t_afe_metadata (up_terms u)))) now u.

(** [if self.terms.afe_metadata { streams.insert(Afe, start) }]. *)
Definition with_afe (u : Uplink) (start : StreamStart) (streams : StreamMap) : StreamMap :=
  if t_afe_metadata (up_terms u) then <[Afe := start]> streams else streams.

Definition open_reply (fresh : SubscriptionId) (expectation : Owner) (cells_from : Sample)
    (now : MonoInstant) (u : Uplink) : Uplink * result OpenError Opened :=
  uplink_open fresh Or_Reply expectation
    (with_afe u StartLive
       {[ Mic := StartLive; Reference := StartLive; Cells := StartAt cells_from ]}) now u.

Definition open_diagnostic (fresh : SubscriptionId) (mode : Owner) (now : MonoInstant) (u : Uplink) :
    Uplink * result OpenError Opened :=
  uplink_open fresh Or_Diagnostic mode (with_afe u StartLive {[ Mic := StartLive ]}) now u.

Definition open_response (fresh : SubscriptionId) (turn : Owner) (afe_from : Sample)
    (mic_from : option Sample) (now : MonoInstant) (u : Uplink) : Uplink * result OpenError Opened :=
  let streams : StreamMap := {[ Afe := StartAt afe_from ]} in
  uplink_open fresh Or_Turn turn
    match mic_from with Some mic => <[Mic := StartAt mic]> streams | None => streams end now u.

Definition near_miss_plan (u : Uplink) (n : NearMissOpen) : NearMissPlan :=
  mkNearMissPlan (sample_add (nm_support_end n) NEAR_MISS_TAIL + 1) (t_afe_metadata (up_terms u)).

Definition open_near_miss (fresh : SubscriptionId) (n : NearMissOpen) (now : MonoInstant)
    (u : Uplink) : Uplink * result OpenError Opened :=
  if negb (t_near_miss (up_terms u)) then (u, Err Oe_NearMissUnsupported)
  else
    match check_open (Some (nm_capture_epoch n)) u with
    | Err e => (u, Err e)
    | Ok _ =>
        let mic := cs_mic (candidate_starts (nm_support_start n) false) in
        let streams :=
          with_afe u (StartAt (sample_sub (nm_support_start n) NEAR_MISS_AFE_LEAD))
            {[ Mic := StartAt mic ]} in
        open_with fresh Or_NearMiss (nm_near_miss_id n) streams (Some (near_miss_plan u n)) now u
    end.

Definition close (id : SubscriptionId) (reason : CloseReason) (now : MonoInstant) (u : Uplink) :
    Uplink * result CommandError unit :=
  match sub_index u id with
  | None => (u, Err Ce_UnknownSubscription)
  | Some at_ => (close_at at_ reason (Ec_Closed reason) now u, Ok tt)
  end.

Definition command_rejected (id : SubscriptionId) (generation : Generation) (code : option string)
    (now : MonoInstant) (u : Uplink) : Uplink :=
  match sub_index u id with
  | None => u
  | Some at_ =>
      match up_subs u !! at_ with
      | None => u
      | Some s =>
          if (generation <? sb_generation s) || negb (is_active (sb_phase s)) then u
          else end_sub at_ (Ec_Rejected code) LeavesGone now u
      end
  end.

(** ** Time *)
Definition renew_due (now : MonoInstant) (s : Sub) : Sub :=
  match sb_phase s with
  | Ph_Active next => if next <=? now then set_phase (Ph_Active (after now RENEW_INTERVAL)) s else s
  | Ph_Draining _ _ => s
  end.
Definition renewal_command (now : MonoInstant) (s : Sub) : list Outgoing :=
  match sb_phase s with
  | Ph_Active next =>
      if next <=? now then
        [mkOutgoing (sb_generation s) (Cmd_Renew (mkRenew (sb_id s) SUBSCRIPTION_TTL None))]
      else []
  | Ph_Draining _ _ => []
  end.

Definition renew (now : MonoInstant) (u : Uplink) : Uplink :=
  with_commands (up_commands u ++ flat_map (renewal_command now) (up_subs u))
    (with_subs (renew_due now <$> up_subs u) u).

(** [zombies.retain]: an expired zombie's claims leave the line. *)
Definition expire_zombies (now : MonoInstant) (u : Uplink) : Uplink :=
  let expired := retain (fun z => negb (now <? zb_expires z)) (up_zombies u) in
  with_zombies (retain (fun z => now <? zb_expires z) (up_zombies u))
    (with_timeline (foldl (fun tl z => timeline_drop_claims tl (zb_key z)) (up_timeline u) expired) u).

Definition poll (now : MonoInstant) (u : Uplink) : Uplink :=
  settle_subs now (expire_zombies now (release_all now (renew now u))).

Definition phase_deadline (p : Phase) : MonoInstant :=
  match p with Ph_Active next => next | Ph_Draining _ deadline => deadline end.
Definition sub_deadlines (wait : Duration) (s : Sub) : list MonoInstant :=
  phase_deadline (sb_phase s)
  :: omap (stall_deadline wait) (flat_map wt_cursors (sb_wants s)).

(** [min] of an iterator. *)
Definition minimum (l : list N) : option N :=
  match l with [] => None | x :: l => Some (foldl N.min x l) end.
Definition next_deadline (u : Uplink) : option MonoInstant :=
  minimum (flat_map (sub_deadlines (hole_wait (up_config u))) (up_subs u)
           ++ (zb_expires <$> up_zombies u)).

(** ** A session's calls, in ingress order *)
Inductive UplinkEvent :=
  | Ev_StreamOpened (open : StreamOpen)
  | Ev_StreamEnded (e : StreamEnd) (now : MonoInstant)
  | Ev_Packet (packet : Packet) (now : MonoInstant)
  | Ev_DeviceEnded (report : UplinkEnded) (now : MonoInstant)
  | Ev_Mute
  | Ev_Unmute
  | Ev_SessionLost
  | Ev_AcceptCandidate (candidate : CandidateOpen) (now : MonoInstant)
  | Ev_Convert (id : SubscriptionId) (turn : Owner) (now : MonoInstant)
  | Ev_Open (fresh : SubscriptionId) (reason : OpenReason) (owner : Owner) (streams : StreamMap)
      (now : MonoInstant)
  | Ev_NearMiss (fresh : SubscriptionId) (near_miss : NearMissOpen) (now : MonoInstant)
  | Ev_Close (id : SubscriptionId) (reason : CloseReason) (now : MonoInstant)
  | Ev_Rejected (id : SubscriptionId) (generation : Generation) (code : option string)
      (now : MonoInstant)
  | Ev_Poll (now : MonoInstant)
  | Ev_TakeCommands
  | Ev_Drain.

Definition uplink_step (u : Uplink) (ev : UplinkEvent) : Uplink :=
  match ev with
  | Ev_StreamOpened open => stream_opened open u
  | Ev_StreamEnded e now => stream_ended e now u
  | Ev_Packet packet now => (ingest packet now u).1
  | Ev_DeviceEnded report now => device_ended report now u
  | Ev_Mute => mute u
  | Ev_Unmute => unmute u
  | Ev_SessionLost => session_lost u
  | Ev_AcceptCandidate candidate now => (accept_candidate candidate now u).1
  | Ev_Convert id turn now => (convert_to_turn id turn now u).1
  | Ev_Open fresh reason owner streams now => (uplink_open fresh reason owner streams now u).1
  | Ev_NearMiss fresh near_miss now => (open_near_miss fresh near_miss now u).1
  | Ev_Close id reason now => (close id reason now u).1
  | Ev_Rejected id generation code now => command_rejected id generation code now u
  | Ev_Poll now => poll now u
  | Ev_TakeCommands => (take_commands u).1
  | Ev_Drain => match uplink_drain u [] with Some (u, _) => u | None => u end
  end.
