(* ===== verification/UplinkInv.v ===== *)
(** * Invariants of the uplink

    How the subscriptions move while audio is released ([threads], [sub_moves]),
    and the invariant every reachable uplink keeps: the timeline and the outbox
    are well formed, every subscription belongs to the current capture epoch, no
    erased epoch is held or current, and while muted there is no subscription
    and no queued audio. *)
From S2P Require Import Prelude Bytes WireEnum Ema Vocab Streams Clock Blocks Buffer Timeline Delivery Cursor Uplink.

(** ** Moving through a list while chunks are released *)

(** Each element moves by [R], releasing some chunks; the chunks come in the order
    of the list. *)
Inductive threads {A B} (R : A -> list B -> A -> Prop) : list A -> list B -> list A -> Prop :=
  | threads_nil : threads R [] [] []
  | threads_cons x bs x' xs bs' xs' :
      R x bs x' -> threads R xs bs' xs' -> threads R (x :: xs) (bs ++ bs') (x' :: xs').

Lemma threads_Forall {A B} (R : A -> list B -> A -> Prop) (P : A -> Prop) xs bs xs' :
  (forall x bs x', R x bs x' -> P x -> P x') -> threads R xs bs xs' -> Forall P xs -> Forall P xs'.
Proof. intros HR. induction 1; intros HP; [constructor|]. inversion HP; subst. constructor; eauto. Qed.

Lemma threads_fmap {A B C} (R : A -> list B -> A -> Prop) (f : A -> C) xs bs xs' :
  (forall x bs x', R x bs x' -> f x' = f x) -> threads R xs bs xs' -> f <$> xs' = f <$> xs.
Proof. intros HR. induction 1 as [|x b x' xs bs xs' Hx _ IH]; cbn; [done|]. by rewrite IH, (HR _ _ _ Hx). Qed.

Lemma threads_impl {A B} (R R' : A -> list B -> A -> Prop) xs bs xs' :
  (forall x bs x', x ∈ xs -> R x bs x' -> R' x bs x') -> threads R xs bs xs' -> threads R' xs bs xs'.
Proof.
  intros HR. induction 1 as [|x b x' xs bs xs' Hx _ IH]; [constructor|]. constructor.
  - apply HR; [by left|done].
  - apply IH. intros y c y' Hy. apply HR. by right.
Qed.

(** A list that stays where it is. *)
Lemma threads_refl {A B} (R : A -> list B -> A -> Prop) xs :
  (forall x, x ∈ xs -> R x [] x) -> threads R xs [] xs.
Proof.
  induction xs as [|x xs IH]; intros H; [constructor|].
  apply (threads_cons R x [] x xs [] xs); [apply H; by left|]. apply IH. intros y Hy. apply H. by right.
Qed.

(** One element moves. *)
Lemma threads_update_first {A B} (R : A -> list B -> A -> Prop) p f xs bs :
  (forall x, R x [] x) -> (forall x, find_first p xs = Some x -> R x bs (f x)) ->
  any p xs = true -> threads R xs bs (update_first p f xs).
Proof.
  intros Hrefl Hx. unfold find_first, any in *. induction xs as [|x xs IH]; cbn in *; [done|].
  destruct (p x) eqn:Ep; cbn.
  - intros _. rewrite <- (app_nil_r bs). constructor; [by apply Hx|]. by apply threads_refl.
  - intros Ha. apply (threads_cons R x [] x xs bs); [done|]. by apply IH.
Qed.

Lemma push_chunks_app o l1 l2 : push_chunks o (l1 ++ l2) = push_chunks (push_chunks o l1) l2.
Proof. apply foldl_app. Qed.

(** ** How subscriptions move when audio is released *)

(** [R over s stream c chunks c']: cursor [c] of stream [stream] of subscription
    [s] releases [chunks] and becomes [c']; [over] when the subscription may
    have gone over its delivery bounds. *)
Definition Moves : Type := bool -> Sub -> StreamId -> Cursor -> list Chunk -> Cursor -> Prop.

Definition want_moves (R : StreamId -> Cursor -> list Chunk -> Cursor -> Prop) (w : Want)
    (chunks : list Chunk) (w' : Want) : Prop :=
  wt_stream w' = wt_stream w /\ threads (R (wt_stream w)) (wt_cursors w) chunks (wt_cursors w').

(** What a release cannot change of a subscription. *)
Definition sub_fixed (s s' : Sub) : Prop :=
  sb_key s' = sb_key s /\ sb_id s' = sb_id s /\ sb_owner s' = sb_owner s /\
  sb_reason s' = sb_reason s /\ sb_generation s' = sb_generation s /\
  sb_capture_epoch s' = sb_capture_epoch s /\ sb_phase s' = sb_phase s /\
  sb_near_miss s' = sb_near_miss s /\ (sb_overflowed s = true -> sb_overflowed s' = true).

Definition sub_moves (R : Moves) (s : Sub) (chunks : list Chunk) (s' : Sub) : Prop :=
  sub_fixed s s' /\
  threads (want_moves (R (sb_overflowed s') s)) (sb_wants s) chunks (sb_wants s').

Lemma sub_fixed_refl s : sub_fixed s s.
Proof. repeat split; auto. Qed.

Lemma sub_fixed_wants within wants s : sub_fixed s (overflow_unless within (set_wants wants s)).
Proof. repeat split. cbn. by destruct within. Qed.

Lemma want_moves_impl (R R' : StreamId -> Cursor -> list Chunk -> Cursor -> Prop) w chunks w' :
  (forall stream c cks c', R stream c cks c' -> R' stream c cks c') ->
  want_moves R w chunks w' -> want_moves R' w chunks w'.
Proof. intros H [Hs Hc]. split; [done|]. eapply threads_impl; [|exact Hc]. eauto. Qed.

(** Sources are well formed when the timeline is. *)
Definition tracks_bounded (tl : Timeline) : Prop :=
  forall stream e live, e ∈ epochs tl stream -> tk_live_end (es_track e) = Some live -> live <= u64_max.

Lemma source_of_wf tl packet stream epoch s :
  timeline_wf tl -> tracks_bounded tl -> source_of tl packet stream epoch = Some s ->
  source_wf s /\ sr_stream s = stream /\ sr_epoch s = epoch.
Proof.
  intros Hwf Ht. unfold source_of. destruct (timeline_get tl stream epoch) as [e|] eqn:Eg; [|done].
  intros [= <-]. destruct (timeline_get_wf _ _ _ _ Hwf Eg) as ([Hb _] & He & Hin). split_and!; [|done|done].
  split; [done|]. intros live Hl. by eapply Ht.
Qed.

(** What a cursor releases from [source]. *)
Definition cursor_released (source : Source) (config : UplinkConfig) (now : MonoInstant) (over : bool)
    (s : Sub) (c : Cursor) (chunks : list Chunk) (c' : Cursor) : Prop :=
  match cu_pos c with
  | Some pos => exists o o' within,
      released source (sb_id s) (sb_generation s) (hole_wait config) now c pos o chunks c' o' within /\
      (within = false -> over = true)
  | None => chunks = [] /\ c' = c
  end.

Lemma release_moves source config now s c o :
  source_wf source -> cursor_wf c ->
  let '(c', o', within) := release c source (sb_id s) (sb_generation s) o config now in
  exists chunks, o' = push_chunks o chunks /\
    cursor_released source config now (negb within) s c chunks c'.
Proof.
  intros Hs Hc. destruct (release_spec c source (sb_id s) (sb_generation s) o config now Hs Hc)
    as (chunks & c' & o' & within & -> & Hr). unfold cursor_released.
  destruct (cu_pos c) as [pos|].
  - exists chunks. split; [apply Hr|]. exists o, o', within. split; [done|]. by intros ->.
  - destruct Hr as (-> & -> & -> & ->). by exists [].
Qed.

Lemma cursor_released_over source config now over over' s c chunks c' :
  (over = true -> over' = true) -> cursor_released source config now over s c chunks c' ->
  cursor_released source config now over' s c chunks c'.
Proof.
  unfold cursor_released. intros Ho. destruct (cu_pos c); [|done].
  intros (o & o' & w & H & Hw). exists o, o', w. auto.
Qed.

(** What one cursor does in [release_all]. *)
Definition quiet (tl : Timeline) (config : UplinkConfig) (now : MonoInstant) : Moves :=
  fun over s stream c chunks c' =>
  match source_of tl None stream (cu_epoch c) with
  | Some source => cursor_released source config now over s c chunks c'
  | None => chunks = [] /\ c' = c
  end.

Lemma quiet_over tl config now over over' s stream c chunks c' :
  (over = true -> over' = true) -> quiet tl config now over s stream c chunks c' ->
  quiet tl config now over' s stream c chunks c'.
Proof.
  unfold quiet. destruct (source_of _ _ _ _); [|done]. intros. by eapply cursor_released_over.
Qed.

Definition wants_cursors_wf (wants : list Want) : Prop :=
  Forall (fun w => Forall cursor_wf (wt_cursors w)) wants.

Section release_all.
Context (tl : Timeline) (config : UplinkConfig) (now : MonoInstant).
Hypothesis (Hwf : timeline_wf tl) (Ht : tracks_bounded tl).

Lemma release_cursors_spec stream cs o s :
  Forall cursor_wf cs ->
  let '(cs', o', within) :=
    release_cursors tl config (sb_id s) (sb_generation s) stream now cs o in
  exists chunks, o' = push_chunks o chunks /\
    threads (quiet tl config now (negb within) s stream) cs chunks cs'.
Proof.
  intros Hcs. revert o. induction Hcs as [|c cs Hc _ IH]; intros o; cbn [release_cursors].
  { exists []. split; [done|constructor]. }
  assert (Hone : let '(c', o1, within) := match source_of tl None stream (cu_epoch c) with
        | Some source => release c source (sb_id s) (sb_generation s) o config now
        | None => (c, o, true) end in
      exists chunks, o1 = push_chunks o chunks /\ quiet tl config now (negb within) s stream c chunks c').
  { unfold quiet. destruct (source_of tl None stream (cu_epoch c)) as [source|] eqn:Es.
    - destruct (source_of_wf _ _ _ _ _ Hwf Ht Es) as (Hs & _). by apply release_moves.
    - by exists []. }
  destruct (match source_of _ _ _ _ with Some _ => _ | None => _ end) as [[c' o1] within].
  destruct Hone as (chunks & -> & Hc'). specialize (IH (push_chunks o chunks)).
  destruct (release_cursors _ _ _ _ _ _ cs _) as [[cs' o2] within'].
  destruct IH as (chunks' & -> & Hcs'). exists (chunks ++ chunks').
  split; [by rewrite push_chunks_app|]. constructor.
  - eapply quiet_over; [|exact Hc']. by destruct within.
  - eapply threads_impl; [|exact Hcs']. intros x bs x' _. apply quiet_over. by destruct within, within'.
Qed.

Lemma release_wants_spec wants o s :
  wants_cursors_wf wants ->
  let '(wants', o', within) :=
    release_wants tl config (sb_id s) (sb_generation s) now wants o in
  exists chunks, o' = push_chunks o chunks /\
    threads (want_moves (quiet tl config now (negb within) s)) wants chunks wants'.
Proof.
  intros Hws. revert o. induction Hws as [|w wants Hw _ IH]; intros o; cbn [release_wants].
  { exists []. split; [done|constructor]. }
  pose proof (release_cursors_spec (wt_stream w) (wt_cursors w) o s Hw) as Hone.
  destruct (release_cursors _ _ _ _ _ _ _ _) as [[cs' o1] within].
  destruct Hone as (chunks & -> & Hcs). specialize (IH (push_chunks o chunks)).
  destruct (release_wants _ _ _ _ _ wants _) as [[wants' o2] within'].
  destruct IH as (chunks' & -> & Hws'). exists (chunks ++ chunks').
  split; [by rewrite push_chunks_app|]. constructor.
  - split; [done|]. eapply threads_impl; [|exact Hcs]. intros x bs x' _. apply quiet_over.
    by destruct within.
  - eapply threads_impl; [|exact Hws']. intros x bs x' _. apply want_moves_impl.
    intros stream c cks c'. apply quiet_over. by destruct within, within'.
Qed.

Lemma release_subs_spec subs o :
  Forall (fun s => wants_cursors_wf (sb_wants s)) subs ->
  let '(subs', o') := release_subs tl config now subs o in
  exists chunks, o' = push_chunks o chunks /\
    threads (sub_moves (quiet tl config now)) subs chunks subs'.
Proof.
  intros Hss. revert o. induction Hss as [|s subs Hs _ IH]; intros o; cbn [release_subs].
  { exists []. split; [done|constructor]. }
  pose proof (release_wants_spec (sb_wants s) o s Hs) as Hone.
  destruct (release_wants _ _ _ _ _ _ _) as [[wants' o1] within].
  destruct Hone as (chunks & -> & Hws). specialize (IH (push_chunks o chunks)).
  destruct (release_subs _ _ _ subs _) as [subs' o2].
  destruct IH as (chunks' & -> & Hss'). exists (chunks ++ chunks').
  split; [by rewrite push_chunks_app|]. constructor; [|done].
  split; [apply sub_fixed_wants|]. cbn. eapply threads_impl; [|exact Hws].
  intros x bs x' _. apply want_moves_impl. intros stream c cks c'. apply quiet_over. by destruct within.
Qed.
End release_all.

(** ** Packets and the end of a reference epoch *)
Lemma settle_wf to_ cause c :
  cursor_wf c -> to_ <= u64_max -> cause = Mc_NotSent \/ cause = Mc_Clipped ->
  cursor_wf (settle to_ cause c).
Proof. intros [H1 H2] Ht Hc. unfold settle. destruct (_ <? _); split; done. Qed.

Lemma attribute_wf a stream c :
  cursor_wf c -> (forall start, a = At_Run start -> start <= u64_max) -> cursor_wf (attribute a stream c).
Proof.
  intros Hc Ha. unfold attribute. destruct (negb _); [done|].
  destruct a as [start|], (cu_start c) as [requested| |]; try (destruct Hc; split; done).
  destruct (requested <? start); [|destruct Hc; split; done].
  destruct (settle_wf start Mc_Clipped c Hc (Ha _ eq_refl) ltac:(by right)). split; done.
Qed.

Lemma on_packet_wf path first own stream c :
  cursor_wf c -> first <= u64_max -> cursor_wf (on_packet path first own stream c).
Proof.
  intros Hc Hf. unfold on_packet. destruct (cu_mode c); [done| |].
  - destruct (bool_decide _); [|done]. destruct Hc; split; done.
  - destruct (_ || _); [|done]. destruct (cu_pos c); [|done]. destruct (_ <? _); [|done].
    apply settle_wf; auto.
Qed.

(** A cursor keeps its epoch, and without a position it waits for nothing. *)
Definition keeps_epoch (c c' : Cursor) : Prop :=
  cu_epoch c' = cu_epoch c /\
  ((cu_pos c = None -> cu_stalled_since c = None) -> cu_pos c' = None -> cu_stalled_since c' = None).

Lemma settle_keeps to_ cause c : keeps_epoch c (settle to_ cause c).
Proof. unfold settle, keeps_epoch. by destruct (_ <? _). Qed.

Lemma attribute_keeps a stream c : keeps_epoch c (attribute a stream c).
Proof.
  unfold attribute. destruct (negb _); [done|].
  destruct a as [start|], (cu_start c) as [requested| |]; try done.
  destruct (requested <? start); [|done]. apply (settle_keeps start Mc_Clipped).
Qed.

Lemma on_packet_keeps path first own stream c : keeps_epoch c (on_packet path first own stream c).
Proof.
  unfold on_packet. destruct (cu_mode c); [done|by destruct (bool_decide _)|].
  destruct (_ || _); [|done]. destruct (cu_pos c) eqn:E; [|done]. destruct (_ <? _); [|done].
  apply settle_keeps.
Qed.

Lemma keeps_epoch_trans c1 c2 c3 : keeps_epoch c1 c2 -> keeps_epoch c2 c3 -> keeps_epoch c1 c3.
Proof. intros [E1 H1] [E2 H2]. split; [congruence|tauto]. Qed.

Lemma cursor_released_keeps source config now over s c chunks c' :
  cursor_released source config now over s c chunks c' ->
  keeps_epoch c c' /\ (cursor_wf c -> cursor_wf c').
Proof.
  unfold cursor_released. destruct (cu_pos c) as [pos|] eqn:Ep; [|by intros [-> ->]].
  intros (o & o' & w & [(pos' & Hp & _) _ _ Hsame] & _). split.
  - split; [apply Hsame|]. intros _ Hn. congruence.
  - by apply same_cursor_wf.
Qed.

(** What one cursor does when a packet arrives. *)
Definition on_arrival (source : Source) (path : Path) (first : N) (config : UplinkConfig)
    (now : MonoInstant) : Moves :=
  fun over s stream c chunks c' =>
  chunks = [] /\ c' = c \/
  (stream = sr_stream source /\ cu_epoch c = sr_epoch source /\
   cursor_released source config now over s (on_packet path first (sb_key s) stream c) chunks c').

Lemma update_cursor_threads (R : StreamId -> Cursor -> list Chunk -> Cursor -> Prop) wants stream
    epoch c chunks c' :
  (forall st x, R st x [] x) -> find_cursor wants stream epoch = Some c -> R stream c chunks c' ->
  threads (want_moves R) wants chunks (update_cursor wants stream epoch (fun _ => c')).
Proof.
  intros Hrefl Hf HR. unfold find_cursor in Hf.
  destruct (find_first _ wants) as [w|] eqn:Ew; cbn in Hf; [|done].
  apply threads_update_first.
  - intros x. split; [done|]. apply threads_refl. auto.
  - intros w' Hw'. rewrite Ew in Hw'. injection Hw' as <-. split; [done|]. cbn.
    apply find_first_Some in Ew as [_ Hst%bool_decide_eq_true]. rewrite Hst.
    apply threads_update_first; [auto| |].
    + intros x Hx. rewrite Hf in Hx. by injection Hx as <-.
    + destruct (any _ _) eqn:Ea; [done|]. by apply find_first_None in Ea; rewrite Hf in Ea.
  - destruct (any _ _) eqn:Ea; [done|]. by apply find_first_None in Ea; rewrite Ew in Ea.
Qed.

Lemma ingest_subs_spec source path first config now subs o :
  source_wf source -> first <= u64_max -> Forall (fun s => wants_cursors_wf (sb_wants s)) subs ->
  let '(subs', o') := ingest_subs source path first config now subs o in
  exists chunks, o' = push_chunks o chunks /\
    threads (sub_moves (on_arrival source path first config now)) subs chunks subs'.
Proof.
  intros Hs Hf Hss. revert o. induction Hss as [|s subs Hw _ IH]; intros o; cbn [ingest_subs].
  { exists []. split; [done|constructor]. }
  assert (Hone : let '(s', o1) := ingest_sub source path first config now s o in
    exists chunks, o1 = push_chunks o chunks /\
      sub_moves (on_arrival source path first config now) s chunks s').
  { unfold ingest_sub. destruct (find_cursor _ _ _) as [c|] eqn:Ec.
    - assert (Hc : cursor_wf c /\ cu_epoch c = sr_epoch source).
      { unfold find_cursor in Ec. destruct (find_first _ (sb_wants s)) as [w|] eqn:Ew; cbn in Ec; [|done].
        apply find_first_Some in Ew as [Hw' _]. apply find_first_Some in Ec as [Hc He%N.eqb_eq].
        split; [|done]. eapply Forall_forall in Hw; [|exact Hw']. by eapply Forall_forall in Hw. }
      destruct Hc as [Hc He]. pose proof (release_moves source config now s
        (on_packet path first (sb_key s) (sr_stream source) c) o Hs (on_packet_wf _ _ _ _ _ Hc Hf)) as Hr.
      destruct (release _ _ _ _ _ _ _) as [[c' o1] within]. destruct Hr as (chunks & -> & Hr).
      exists chunks. split; [done|]. split; [apply sub_fixed_wants|]. cbn.
      eapply update_cursor_threads; [by left|exact Ec|]. right. split_and!; [done|done|].
      eapply cursor_released_over; [|exact Hr]. by destruct within.
    - exists []. split; [done|]. split; [apply sub_fixed_refl|]. apply threads_refl.
      intros w _. split; [done|]. apply threads_refl. intros c _. by left. }
  destruct (ingest_sub _ _ _ _ _ _ _) as [s' o1]. destruct Hone as (chunks & -> & Hs').
  specialize (IH (push_chunks o chunks)).
  destruct (ingest_subs _ _ _ _ _ subs _) as [subs' o2]. destruct IH as (chunks' & -> & Hss').
  exists (chunks ++ chunks'). split; [by rewrite push_chunks_app|]. by constructor.
Qed.

(** What the end of an epoch of [stream] does to a want: the epoch's cursor is
    gone after a last release; other streams are left alone. *)
Definition want_ended (id : SubscriptionId) (stream : StreamId) (w : Want) (chunks : list Chunk)
    (w' : Want) : Prop :=
  wt_stream w' = wt_stream w /\ (forall c, c ∈ wt_cursors w' -> c ∈ wt_cursors w) /\
  Forall (fun ck => ck_subscription ck = id /\ ck_stream ck = stream) chunks /\
  (wt_stream w <> stream -> chunks = [] /\ w' = w).

Definition ref_ended (stream : StreamId) (s : Sub) (chunks : list Chunk) (s' : Sub) : Prop :=
  sub_fixed s s' /\ threads (want_ended (sb_id s) stream) (sb_wants s) chunks (sb_wants s').

Lemma want_ended_refl id stream w : want_ended id stream w [] w.
Proof. split_and!; [done|done|constructor|done]. Qed.

Lemma released_ids s id generation wait now c pos o chunks c' o' within :
  released s id generation wait now c pos o chunks c' o' within ->
  Forall (fun ck => ck_subscription ck = id /\ ck_stream ck = sr_stream s /\ ck_epoch ck = sr_epoch s) chunks.
Proof.
  intros [_ H _ _]. eapply Forall_impl; [exact H|]. by intros ck (? & _ & ? & ? & _).
Qed.

Lemma end_reference_spec source config final_sample now s o :
  source_wf source -> final_sample <= u64_max -> wants_cursors_wf (sb_wants s) ->
  let '(s', o') := end_reference source config final_sample now s o in
  exists chunks, o' = push_chunks o chunks /\ ref_ended (sr_stream source) s chunks s'.
Proof.
  intros Hs Hf Hw.
  assert (Hrefl : exists chunks, o = push_chunks o chunks /\ ref_ended (sr_stream source) s chunks s).
  { exists []. split; [done|]. split; [apply sub_fixed_refl|]. apply threads_refl.
    intros w _. apply want_ended_refl. }
  unfold end_reference. destruct (find_first _ _) as [w|] eqn:Ew; [|done].
  destruct (position _ _) as [at_|] eqn:Ep; [|done]. destruct (wt_cursors w !! at_) as [c|] eqn:Ec; [|done].
  assert (Hc : cursor_wf c).
  { apply find_first_Some in Ew as [Hw' _]. eapply Forall_forall in Hw; [|exact Hw'].
    eapply Forall_lookup_1; [exact Hw|exact Ec]. }
  set (c1 := match cu_pos (set_target None c) with Some _ => _ | None => _ end).
  assert (Hc1 : cursor_wf c1).
  { assert (cursor_wf (set_target None c)) by (destruct Hc; split; done). subst c1.
    destruct (cu_pos _); [|done]. apply settle_wf; auto. }
  clearbody c1.
  destruct (release_spec c1 source (sb_id s) (sb_generation s) o config now Hs Hc1)
    as (chunks & c' & o1 & within & -> & Hr).
  assert (Hids : o1 = push_chunks o chunks /\
    Forall (fun ck => ck_subscription ck = sb_id s /\ ck_stream ck = sr_stream source) chunks).
  { destruct (cu_pos c1).
    - split; [apply Hr|]. eapply Forall_impl; [by eapply released_ids|]. by intros ck (? & ? & _).
    - by destruct Hr as (-> & _ & -> & _). }
  destruct Hids as [-> Hids]. exists chunks. split; [done|]. split; [apply sub_fixed_wants|]. cbn.
  apply threads_update_first.
  - apply want_ended_refl.
  - intros w' Hw'. apply find_first_Some in Hw' as [_ Hst%bool_decide_eq_true].
    split_and!; [done| |done|done]. cbn. intros x. apply elem_of_remove_at.
  - destruct (any _ _) eqn:Ea; [done|]. apply find_first_None in Ea. by rewrite Ew in Ea.
Qed.

Lemma end_references_spec source config final_sample now subs o :
  source_wf source -> final_sample <= u64_max -> Forall (fun s => wants_cursors_wf (sb_wants s)) subs ->
  let '(subs', o') := end_references source config final_sample now subs o in
  exists chunks, o' = push_chunks o chunks /\ threads (ref_ended (sr_stream source)) subs chunks subs'.
Proof.
  intros Hs Hf Hss. revert o. induction Hss as [|s subs Hw _ IH]; intros o; cbn [end_references].
  { exists []. split; [done|constructor]. }
  pose proof (end_reference_spec source config final_sample now s o Hs Hf Hw) as Hone.
  destruct (end_reference _ _ _ _ _ _) as [s' o1]. destruct Hone as (chunks & -> & Hs').
  specialize (IH (push_chunks o chunks)).
  destruct (end_references _ _ _ _ subs _) as [subs' o2]. destruct IH as (chunks' & -> & Hss').
  exists (chunks ++ chunks'). split; [by rewrite push_chunks_app|]. by constructor.
Qed.

(** ** The invariant *)
Record timeline_inv (tl : Timeline) : Prop := {
  ti_wf : timeline_wf tl;
  ti_tracks : tracks_bounded tl;
  ti_erased e : e ∈ tl_erased tl -> tl_capture tl <> Some e /\
    forall stream, stream <> Reference -> e ∉ es_epoch <$> epochs tl stream;
}.

Definition cursor_inv (capture : N) (stream : StreamId) (c : Cursor) : Prop :=
  cursor_wf c /\ (cu_pos c = None -> cu_stalled_since c = None) /\
  (stream <> Reference -> cu_epoch c = capture).
Definition want_inv (capture : N) (w : Want) : Prop :=
  Forall (cursor_inv capture (wt_stream w)) (wt_cursors w).

Record sub_inv (capture : option N) (next_key : N) (s : Sub) : Prop := {
  si_capture : capture = Some (sb_capture_epoch s);
  si_key : sb_key s < next_key;
  si_wants : Forall (want_inv (sb_capture_epoch s)) (sb_wants s);
}.

Record uplink_inv (u : Uplink) : Prop := {
  ui_timeline : timeline_inv (up_timeline u);
  ui_outbox : outbox_inv (up_outbox u);
  ui_subs : Forall (sub_inv (tl_capture (up_timeline u)) (up_next_key u)) (up_subs u);
  ui_keys : NoDup (sb_key <$> up_subs u);
  ui_muted : up_muted u = true -> up_subs u = [] /\ Forall (fun d => is_ended d = true) (ob_queue (up_outbox u));
}.

(** *** Timelines *)
Lemma drop_claims_epochs tl key stream :
  epochs (timeline_drop_claims tl key) stream = drop_epoch_claims key <$> epochs tl stream.
Proof. unfold epochs, timeline_drop_claims. cbn. apply stores_get_map. Qed.

Lemma drop_claims_inv tl key : timeline_inv tl -> timeline_inv (timeline_drop_claims tl key).
Proof.
  intros [H1 H2 H3]. split.
  - by apply drop_claims_wf.
  - intros stream e live. rewrite drop_claims_epochs. intros (e' & -> & He)%list_elem_of_fmap. cbn.
    by eapply H2.
  - intros e He. destruct (H3 e He) as [Hc Hs]. split; [done|]. intros stream Hst.
    rewrite drop_claims_epochs, <- list_fmap_compose. by apply Hs.
Qed.

Lemma set_capture_inv tl capture :
  timeline_inv tl -> (forall e, capture = Some e -> e ∉ tl_erased tl) -> timeline_inv (set_capture tl capture).
Proof.
  intros [H1 H2 H3] Hc. split; [done|done|]. intros e He. split; [|by apply H3]. cbn.
  intros Heq. by apply (Hc e).
Qed.

Lemma set_reference_inv tl reference : timeline_inv tl -> timeline_inv (set_reference tl reference).
Proof. intros [H1 H2 H3]. by split. Qed.

Lemma ensure_bounded tl stream epoch : tracks_bounded tl -> tracks_bounded (ensure tl stream epoch).
Proof.
  intros Ht stream' e live He Hl. destruct (decide (stream' = stream)) as [->|Hne].
  - destruct (decide (epoch ∈ es_epoch <$> epochs tl stream)) as [Hin|Hout].
    { rewrite ensure_held in He by done. by eapply Ht. }
    rewrite ensure_new, epochs_with_eq in He by done.
    apply elem_of_app in He as [He| ->%list_elem_of_singleton]; [|done].
    destruct (make_room_spec _ (epochs tl stream) (epochs_kept_pos (tl_config tl) stream))
      as (dropped & Hd & _). eapply Ht; [|done]. rewrite Hd. apply elem_of_app. by right.
  - rewrite ensure_epochs_other in He by done. by eapply Ht.
Qed.

Lemma ensure_inv tl stream epoch :
  timeline_inv tl -> (stream <> Reference -> epoch ∉ tl_erased tl) -> timeline_inv (ensure tl stream epoch).
Proof.
  intros [H1 H2 H3] He. destruct (ensure_fields tl stream epoch) as (_ & Hc & _ & Her). split.
  - by apply ensure_wf.
  - by apply ensure_bounded.
  - intros e. rewrite Her, Hc. intros Hin. destruct (H3 e Hin) as [Hn Hs]. split; [done|].
    intros stream' Hst [Hx|[-> ->]]%ensure_subset; [by eapply Hs|]. by apply He.
Qed.

Lemma update_inv tl stream epoch f :
  timeline_inv tl -> (forall e, es_epoch (f e) = es_epoch e) ->
  (forall e, epoch_wf stream e -> epoch_wf stream (f e)) ->
  (forall e, e ∈ epochs tl stream -> es_epoch e = epoch ->
    forall live, tk_live_end (es_track (f e)) = Some live -> live <= u64_max) ->
  timeline_inv (timeline_update tl stream epoch f).
Proof.
  intros [H1 H2 H3] He Hf Hl. split.
  - by apply timeline_update_wf.
  - intros stream' e live Hin Hlive. unfold timeline_update in Hin. rewrite epochs_with in Hin.
    case_bool_decide as Hst; [|by eapply H2]. subst stream'.
    assert (Hcase : e ∈ epochs tl stream \/ exists e', e' ∈ epochs tl stream /\ es_epoch e' = epoch /\ e = f e').
    { clear -Hin. induction (epochs tl stream) as [|x es IH]; cbn in Hin; [by left|].
      destruct (N.eqb_spec (es_epoch x) epoch) as [Hx|].
      - apply elem_of_cons in Hin as [->|Hin]; [right; exists x; split_and!; [by left|done|done]|left; by right].
      - apply elem_of_cons in Hin as [->|Hin]; [left; by left|].
        destruct (IH Hin) as [?|(e' & ? & ? & ?)]; [left; by right|right; exists e'; split_and!; [by right|done|done]]. }
    destruct Hcase as [Hin'|(e' & Hin' & He' & ->)]; [by eapply H2|by eapply Hl].
  - intros e Hin. destruct (H3 e Hin) as [Hn Hs]. split; [done|]. intros stream' Hst.
    unfold timeline_update. rewrite epochs_with. case_bool_decide; [|by apply Hs].
    subst. rewrite update_first_epochs by done. by apply Hs.
Qed.

Lemma erase_inv tl : timeline_inv tl -> timeline_inv (erase tl).
Proof.
  intros [H1 H2 H3]. split.
  - by apply erase_wf.
  - intros stream e live. rewrite erase_epochs_get. destruct stream; cbn; try by intros ?%elem_of_nil.
    by intros (e' & -> & _)%list_elem_of_fmap.
  - intros e _. split; [done|]. intros stream Hst. rewrite erase_epochs_get.
    destruct stream; cbn; try done; by apply not_elem_of_nil.
Qed.

Lemma clear_inv tl : timeline_inv (timeline_clear tl).
Proof.
  split.
  - intros stream. destruct stream; apply epochs_wf_nil.
  - intros stream e live. destruct stream; by intros ?%elem_of_nil.
  - intros e _. split; [done|]. intros stream _. destruct stream; apply not_elem_of_nil.
Qed.

(** *** Ending subscriptions *)
Lemma remove_at_sublist {A} i (l : list A) : remove_at i l `sublist_of` l.
Proof.
  unfold remove_at. rewrite <- (take_drop i l) at 3. apply sublist_app; [done|].
  replace (S i) with (i + 1)%nat by lia. rewrite <- drop_drop.
  destruct (drop i l); [apply sublist_nil|by apply sublist_cons].
Qed.

Lemma push_ended_only o d : is_ended d = true ->
  Forall (fun d => is_ended d = true) (ob_queue o) ->
  Forall (fun d => is_ended d = true) (ob_queue (push o d).1).
Proof. intros Hd Ho. cbn. apply Forall_app. split; [done|by constructor]. Qed.

Lemma sublist_fmap {A B} (f : A -> B) (l1 l2 : list A) :
  l1 `sublist_of` l2 -> f <$> l1 `sublist_of` f <$> l2.
Proof. induction 1; cbn; by constructor. Qed.

(** A change of everything but the muted flag, towards fewer subscriptions. *)
Lemma inv_fewer u u' :
  uplink_inv u -> timeline_inv (up_timeline u') -> tl_capture (up_timeline u') = tl_capture (up_timeline u) ->
  outbox_inv (up_outbox u') -> up_next_key u' = up_next_key u -> up_muted u' = up_muted u ->
  up_subs u' `sublist_of` up_subs u ->
  (up_muted u = true -> Forall (fun d => is_ended d = true) (ob_queue (up_outbox u'))) ->
  uplink_inv u'.
Proof.
  intros [H1 H2 H3 H4 H5] Ht Hc Ho Hk Hm Hs Hq. split; [done|done| | |].
  - rewrite Hc, Hk. apply Forall_forall. intros s Hin. eapply Forall_forall in H3; [done|].
    by eapply elem_of_sublist.
  - eapply sublist_NoDup; [exact H4|]. by apply sublist_fmap.
  - rewrite Hm. intros Hmu. destruct (H5 Hmu) as [Hnil _]. split; [|by apply Hq].
    rewrite Hnil in Hs. by apply sublist_nil_r in Hs.
Qed.

(** A change that keeps the subscriptions' keys. *)
Lemma inv_moved u u' :
  uplink_inv u -> timeline_inv (up_timeline u') -> outbox_inv (up_outbox u') ->
  up_muted u' = up_muted u -> sb_key <$> up_subs u' = sb_key <$> up_subs u ->
  Forall (sub_inv (tl_capture (up_timeline u')) (up_next_key u')) (up_subs u') ->
  (up_muted u = true -> up_subs u = [] -> ob_queue (up_outbox u') = ob_queue (up_outbox u)) ->
  uplink_inv u'.
Proof.
  intros [H1 H2 H3 H4 H5] Ht Ho Hm Hk Hs Hq. split; [done|done|done|by rewrite Hk|].
  rewrite Hm. intros Hmu. destruct (H5 Hmu) as [Hnil He]. rewrite Hq by done. split; [|done].
  rewrite Hnil in Hk. by apply fmap_nil_inv in Hk.
Qed.

Lemma push_chunks_inv o chunks : outbox_inv o -> outbox_inv (push_chunks o chunks).
Proof.
  unfold push_chunks. revert o. induction chunks as [|ck chunks IH]; intros o Ho; cbn [foldl]; [done|].
  by apply IH, push_inv.
Qed.

Lemma push_queue o d : ob_queue (push o d).1 = ob_queue o ++ [d].
Proof. done. Qed.

(** *** Moves keep the invariant of subscriptions *)
Definition moves_keep (R : Moves) : Prop :=
  forall over s stream c chunks c', R over s stream c chunks c' ->
  keeps_epoch c c' /\ (cursor_wf c -> cursor_wf c').

Lemma quiet_keep tl config now : moves_keep (quiet tl config now).
Proof.
  intros over s stream c chunks c'. unfold quiet. destruct (source_of _ _ _ _).
  - apply cursor_released_keeps.
  - by intros [-> ->].
Qed.

Lemma on_arrival_keep source path first config now :
  first <= u64_max -> moves_keep (on_arrival source path first config now).
Proof.
  intros Hf over s stream c chunks c' [[-> ->]|(_ & _ & H)]; [done|].
  apply cursor_released_keeps in H as [H1 H2]. split.
  - eapply keeps_epoch_trans; [apply on_packet_keeps|exact H1].
  - intros Hc. by apply H2, on_packet_wf.
Qed.

Lemma cursor_inv_keep capture stream c c' :
  keeps_epoch c c' -> (cursor_wf c -> cursor_wf c') -> cursor_inv capture stream c ->
  cursor_inv capture stream c'.
Proof.
  intros [He Hp] Hw (H1 & H2 & H3). split_and!; [by apply Hw|by apply Hp|]. rewrite He. done.
Qed.

Lemma sub_moves_inv R capture next_key s chunks s' :
  moves_keep R -> sub_moves R s chunks s' -> sub_inv capture next_key s -> sub_inv capture next_key s'.
Proof.
  intros HR [(Hk & _ & _ & _ & _ & Hc & _) Hw] [H1 H2 H3]. split; [by rewrite Hc|by rewrite Hk|].
  rewrite Hc. eapply threads_Forall; [|exact Hw|exact H3]. intros w cks w' [Hst Hcs] Hinv.
  unfold want_inv in *. rewrite Hst. eapply threads_Forall; [|exact Hcs|exact Hinv].
  intros c ck c' Hm. destruct (HR _ _ _ _ _ _ Hm). by apply cursor_inv_keep.
Qed.

Lemma sub_inv_wf capture next_key s : sub_inv capture next_key s -> wants_cursors_wf (sb_wants s).
Proof.
  intros [_ _ H]. eapply Forall_impl; [exact H|]. intros w Hw. eapply Forall_impl; [exact Hw|].
  by intros c (? & _).
Qed.

Lemma subs_inv_wf capture next_key subs :
  Forall (sub_inv capture next_key) subs -> Forall (fun s => wants_cursors_wf (sb_wants s)) subs.
Proof. intros H. eapply Forall_impl; [exact H|]. intros s. apply sub_inv_wf. Qed.

Lemma threads_nil_inv {A B} (R : A -> list B -> A -> Prop) bs xs' :
  threads R [] bs xs' -> bs = [] /\ xs' = [].
Proof. by inversion 1. Qed.

(** A release over all subscriptions, whatever moves the cursors. *)
Lemma moved_inv R u chunks subs' :
  moves_keep R -> uplink_inv u -> threads (sub_moves R) (up_subs u) chunks subs' ->
  uplink_inv (with_outbox (push_chunks (up_outbox u) chunks) (with_subs subs' u)).
Proof.
  intros HR Hu Ht. apply (inv_moved u); try done; cbn.
  - apply (ui_timeline _ Hu).
  - apply push_chunks_inv, (ui_outbox _ Hu).
  - eapply threads_fmap; [|exact Ht]. by intros s cks s' [(Hk & _) _].
  - eapply threads_Forall; [|exact Ht|apply (ui_subs _ Hu)]. intros s cks s'.
    by apply sub_moves_inv.
  - intros _ Hnil. rewrite Hnil in Ht. by apply threads_nil_inv in Ht as [-> ->].
Qed.

Lemma release_all_inv now u : uplink_inv u -> uplink_inv (release_all now u).
Proof.
  intros Hu. unfold release_all. destruct (ui_timeline _ Hu) as [H1 H2 _].
  pose proof (release_subs_spec _ (up_config u) now H1 H2 (up_subs u) (up_outbox u)
    (subs_inv_wf _ _ _ (ui_subs _ Hu))) as H.
  destruct (release_subs _ _ _ _ _) as [subs' o']. destruct H as (chunks & -> & Ht).
  eapply moved_inv; [apply quiet_keep|done|exact Ht].
Qed.

(** *** Ending *)
Lemma end_sub_inv at_ cause leaves now u : uplink_inv u -> uplink_inv (end_sub at_ cause leaves now u).
Proof.
  intros Hu. unfold end_sub. destruct (up_subs u !! at_) as [s|] eqn:Es; [|done].
  apply (inv_fewer u); [done|..].
  - destruct leaves; cbn; [apply (ui_timeline _ Hu)|apply drop_claims_inv, (ui_timeline _ Hu)].
  - by destruct leaves.
  - destruct leaves; apply push_inv, (ui_outbox _ Hu).
  - by destruct leaves.
  - by destruct leaves.
  - destruct leaves; apply remove_at_sublist.
  - intros Hm. destruct (ui_muted _ Hu Hm) as [Hnil _]. by rewrite Hnil in Es.
Qed.

Lemma send_inv generation command u : uplink_inv u -> uplink_inv (send generation command u).
Proof. by intros [? ? ? ? ?]. Qed.

Lemma close_at_inv at_ reason cause now u : uplink_inv u -> uplink_inv (close_at at_ reason cause now u).
Proof.
  intros Hu. unfold close_at. destruct (up_subs u !! at_); [|done].
  destruct (is_active _); apply end_sub_inv; [by apply send_inv|done].
Qed.

(** Giving up a drain moves positions forward. *)
Definition given_up : Moves := fun _ s stream c chunks c' =>
  chunks = [] /\ c' = c \/
  exists pos target, cu_pos c = Some pos /\ cu_target c = Some target /\ pos < target /\
    c' = set_pos (Some target) c /\
    chunks = [mkChunk (sb_id s) (sb_generation s) stream (cu_epoch c) (mkSpan pos target)
                (Cb_Missing Mc_TimedOut)].

Lemma given_up_keep : moves_keep given_up.
Proof.
  intros over s stream c chunks c' [[_ ->]|(pos & target & Hp & _ & _ & -> & _)]; [done|].
  split; [by split|]. by intros [? ?].
Qed.

Lemma give_up_wants_spec over s wants o :
  let '(wants', o') := give_up_wants s wants o in
  exists chunks, o' = push_chunks o chunks /\ threads (want_moves (given_up over s)) wants chunks wants'.
Proof.
  revert o. induction wants as [|w wants IH]; intros o; cbn [give_up_wants].
  { exists []. split; [done|constructor]. }
  assert (Hcs : forall cs o, let '(cs', o') := give_up_cursors s (wt_stream w) cs o in
    exists chunks, o' = push_chunks o chunks /\ threads (given_up over s (wt_stream w)) cs chunks cs').
  { clear. induction cs as [|c cs IH]; intros o; cbn [give_up_cursors].
    { exists []. split; [done|constructor]. }
    assert (Hone : let '(c', o1) := give_up_cursor s (wt_stream w) c o in
      exists chunks, o1 = push_chunks o chunks /\ given_up over s (wt_stream w) c chunks c').
    { unfold give_up_cursor, given_up.
      destruct (cu_pos c) as [pos|] eqn:Ep, (cu_target c) as [t|] eqn:Et; try (exists []; auto; done).
      destruct (N.leb_spec t pos); [exists []; auto|]. eexists [_]. split; [done|]. right.
      by exists pos, t. }
    destruct (give_up_cursor _ _ _ _) as [c' o1]. destruct Hone as (chunks & -> & Hc).
    specialize (IH (push_chunks o chunks)). destruct (give_up_cursors _ _ cs _) as [cs' o2].
    destruct IH as (chunks' & -> & Hcs). exists (chunks ++ chunks').
    split; [by rewrite push_chunks_app|]. by constructor. }
  specialize (Hcs (wt_cursors w) o). destruct (give_up_cursors _ _ _ _) as [cs' o1].
  destruct Hcs as (chunks & -> & Hcs). specialize (IH (push_chunks o chunks)).
  destruct (give_up_wants _ wants _) as [wants' o2]. destruct IH as (chunks' & -> & Hws).
  exists (chunks ++ chunks'). split; [by rewrite push_chunks_app|]. by constructor.
Qed.

Lemma threads_insert {A B} (R : A -> list B -> A -> Prop) l i x bs x' :
  (forall y, R y [] y) -> l !! i = Some x -> R x bs x' -> threads R l bs (<[i := x']> l).
Proof.
  intros Hrefl. revert i. induction l as [|y l IH]; intros i Hi HR; [done|]. destruct i as [|i]; cbn in *.
  - injection Hi as ->. rewrite <- (app_nil_r bs). constructor; [done|]. by apply threads_refl.
  - apply (threads_cons R y [] y l bs); auto.
Qed.

Lemma sub_moves_refl (R : Moves) s :
  (forall over s stream c, R over s stream c [] c) -> sub_moves R s [] s.
Proof.
  intros HR. split; [apply sub_fixed_refl|]. apply threads_refl. intros w _. split; [done|].
  by apply threads_refl.
Qed.

Lemma give_up_drain_spec at_ u :
  exists chunks subs', give_up_drain at_ u
    = with_outbox (push_chunks (up_outbox u) chunks) (with_subs subs' u) /\
    threads (sub_moves given_up) (up_subs u) chunks subs'.
Proof.
  assert (Hrefl : forall s, sub_moves given_up s [] s).
  { intros s. apply sub_moves_refl. by left. }
  unfold give_up_drain. destruct (up_subs u !! at_) as [s|] eqn:Es.
  - pose proof (give_up_wants_spec (sb_overflowed s) s (sb_wants s) (up_outbox u)) as H.
    destruct (give_up_wants _ _ _) as [wants' o']. destruct H as (chunks & -> & Hw).
    exists chunks, (<[at_ := set_wants wants' s]> (up_subs u)). split; [done|].
    apply (threads_insert _ _ _ s); [done|done|]. split; [repeat split; auto|exact Hw].
  - exists [], (up_subs u). split; [by destruct u|]. by apply threads_refl.
Qed.

Lemma give_up_drain_inv at_ u : uplink_inv u -> uplink_inv (give_up_drain at_ u).
Proof.
  intros Hu. destruct (give_up_drain_spec at_ u) as (chunks & subs' & -> & Ht).
  eapply moved_inv; [apply given_up_keep|done|exact Ht].
Qed.

Lemma settle_from_inv rounds at_ now u : uplink_inv u -> uplink_inv (settle_from rounds at_ now u).
Proof.
  revert at_ u. induction rounds as [|rounds IH]; intros at_ u Hu; cbn [settle_from]; [done|].
  destruct (up_subs u !! at_) as [s|]; [|done]. unfold settle_one.
  destruct (sb_overflowed s); [by apply IH, close_at_inv|].
  destruct (sb_phase s) as [next|report deadline].
  - destruct (near_miss_done s); apply IH; [by apply close_at_inv|done].
  - destruct (_ || _); apply IH; [|done]. apply end_sub_inv.
    destruct (drained s); [done|by apply give_up_drain_inv].
Qed.

Lemma settle_subs_inv now u : uplink_inv u -> uplink_inv (settle_subs now u).
Proof. apply settle_from_inv. Qed.

(** *** Ending every subscription *)
Lemma end_all_facts cause u :
  uplink_inv u -> uplink_inv (end_all cause u) /\ up_subs (end_all cause u) = [] /\
  tl_capture (up_timeline (end_all cause u)) = tl_capture (up_timeline u) /\
  tl_erased (up_timeline (end_all cause u)) = tl_erased (up_timeline u) /\
  up_muted (end_all cause u) = up_muted u /\ up_terms (end_all cause u) = up_terms u.
Proof.
  intros Hu. unfold end_all.
  assert (H1 : forall subs v, uplink_inv v -> up_subs v = [] -> (up_muted v = true -> subs = []) ->
    let v' := foldl (end_one cause) v subs in
    uplink_inv v' /\ up_subs v' = [] /\ tl_capture (up_timeline v') = tl_capture (up_timeline v) /\
    tl_erased (up_timeline v') = tl_erased (up_timeline v) /\ up_muted v' = up_muted v /\
    up_terms v' = up_terms v).
  { induction subs as [|s subs IH]; intros v Hv Hnil Hm; cbn [foldl]; [done|].
    destruct (IH (end_one cause v s)) as (? & ? & ? & ? & ? & ?); [| |by intros ?%Hm|done].
    - apply (inv_moved v); try done; cbn.
      + apply drop_claims_inv, (ui_timeline _ Hv).
      + apply push_inv, (ui_outbox _ Hv).
      + rewrite Hnil. constructor.
      + intros Hmu. by apply Hm in Hmu.
    - done. }
  assert (H2 : forall zombies v, uplink_inv v -> up_subs v = [] ->
    let v' := foldl (fun u z => with_timeline (timeline_drop_claims (up_timeline u) (zb_key z)) u) v zombies in
    uplink_inv v' /\ up_subs v' = [] /\ tl_capture (up_timeline v') = tl_capture (up_timeline v) /\
    tl_erased (up_timeline v') = tl_erased (up_timeline v) /\ up_muted v' = up_muted v /\
    up_terms v' = up_terms v).
  { induction zombies as [|z zombies IH]; intros v Hv Hnil; cbn [foldl]; [done|].
    destruct (IH (with_timeline (timeline_drop_claims (up_timeline v) (zb_key z)) v))
      as (? & ? & ? & ? & ? & ?); [|done|done].
    apply (inv_moved v); try done; cbn.
    - apply drop_claims_inv, (ui_timeline _ Hv).
    - apply (ui_outbox _ Hv).
    - rewrite Hnil. constructor. }
  destruct (H1 (up_subs u) (with_subs [] u)) as (Hi & Hn & Hc & He & Hm & Htm); [|done| |].
  { apply (inv_fewer u); try done; [apply (ui_timeline _ Hu)|apply (ui_outbox _ Hu)|apply sublist_nil_l|].
    intros Hmu. by apply (ui_muted _ Hu). }
  { intros Hmu. by apply (ui_muted _ Hu). }
  revert Hi Hn Hc He Hm Htm. generalize (foldl (end_one cause) (with_subs [] u) (up_subs u)).
  intros v Hi Hn Hc He Hm Htm.
  destruct (H2 (up_zombies v) (with_zombies [] v)) as (? & ? & -> & -> & -> & ->); [|done|].
  { by destruct Hi. }
  cbn in *. done.
Qed.

Lemma end_silently_facts cause u :
  outbox_inv (up_outbox u) -> let v := end_silently cause u in
  up_subs v = [] /\ up_timeline v = up_timeline u /\ outbox_inv (up_outbox v) /\
  Forall (fun d => is_ended d = true) (ob_queue (up_outbox v)) /\ up_muted v = up_muted u /\
  up_commands v = [] /\ up_zombies v = [].
Proof.
  intros Hu. unfold end_silently. cbv zeta.
  set (v0 := with_subs [] (with_zombies [] (with_commands [] (with_outbox (discard_chunks (up_outbox u)) u)))).
  assert (H : forall subs v, up_subs v = [] -> outbox_inv (up_outbox v) ->
    Forall (fun d => is_ended d = true) (ob_queue (up_outbox v)) ->
    let v' := foldl (fun u s => push_ended s cause u) v subs in
    up_subs v' = [] /\ up_timeline v' = up_timeline v /\ outbox_inv (up_outbox v') /\
    Forall (fun d => is_ended d = true) (ob_queue (up_outbox v')) /\ up_muted v' = up_muted v /\
    up_commands v' = up_commands v /\ up_zombies v' = up_zombies v).
  { induction subs as [|s subs IH]; intros v Hn Ho Hq; cbn [foldl]; [done|].
    destruct (IH (push_ended s cause v)) as (? & ? & ? & ? & ? & ? & ?);
      [done|by apply push_inv|by apply push_ended_only|done]. }
  destruct (H (up_subs u) v0) as (? & ? & ? & ? & ? & ? & ?); [done| | |done].
  - by apply discard_chunks_inv.
  - apply retain_ends.
Qed.

Lemma mute_inv u : uplink_inv u -> uplink_inv (mute u).
Proof.
  intros Hu. destruct (end_silently_facts Ec_Muted (with_muted true u) (ui_outbox _ Hu))
    as (H1 & H2 & H3 & H4 & _).
  unfold mute. set (v := end_silently _ _) in *. clearbody v. split; cbn.
  - rewrite H2. apply erase_inv, (ui_timeline _ Hu).
  - done.
  - rewrite H1. constructor.
  - rewrite H1. constructor.
  - done.
Qed.

Lemma session_lost_inv u : uplink_inv u -> uplink_inv (session_lost u).
Proof.
  intros Hu. destruct (end_silently_facts Ec_SessionLost u (ui_outbox _ Hu)) as (H1 & H2 & H3 & H4 & _).
  unfold session_lost. set (v := end_silently _ _) in *. clearbody v. split; cbn.
  - apply clear_inv.
  - done.
  - rewrite H1. constructor.
  - rewrite H1. constructor.
  - done.
Qed.

Lemma unmute_inv u : uplink_inv u -> uplink_inv (unmute u).
Proof. by intros [? ? ? ? _]. Qed.

(** *** Device reports *)
Lemma not_erased tl stream epoch :
  is_erased tl stream epoch = false -> stream <> Reference -> epoch ∉ tl_erased tl.
Proof.
  unfold is_erased. intros H Hs. rewrite bool_decide_eq_false_2 in H by done. cbn in H.
  by apply bool_decide_eq_false in H.
Qed.

Lemma cursor_new_inv capture stream epoch spec :
  (stream <> Reference -> epoch = capture) -> cursor_inv capture stream (cursor_new epoch spec).
Proof. intros He. destruct spec; (split_and!; [split; cbn; [unfold u64_max; lia|by left]|done|done]). Qed.

Lemma open_reference_inv capture next_key epoch s :
  sub_inv capture next_key s -> sub_inv capture next_key (open_reference epoch s).
Proof.
  intros Hs. unfold open_reference. destruct (is_active _); [|done].
  destruct (find_first _ _) as [w0|]; [|done]. destruct (any _ _); [done|].
  destruct Hs as [H1 H2 H3]. split; [done|done|]. cbn. apply update_first_Forall; [|done].
  intros w Hw Hst%bool_decide_eq_true. unfold want_inv in *. cbn [wt_stream wt_cursors]. apply Forall_app. split; [done|].
  constructor; [|done]. apply (cursor_new_inv _ _ _ Ss_Live). by rewrite Hst.
Qed.

Lemma open_reference_key epoch s : sb_key (open_reference epoch s) = sb_key s.
Proof.
  unfold open_reference. destruct (is_active _); [|done]. destruct (find_first _ _); [|done].
  by destruct (any _ _).
Qed.

(** A change of the timeline alone. *)
Lemma with_timeline_inv tl u :
  uplink_inv u -> timeline_inv tl -> (tl_capture tl = tl_capture (up_timeline u) \/ up_subs u = []) ->
  uplink_inv (with_timeline tl u).
Proof.
  intros [H1 H2 H3 H4 H5] Ht Hc. split; [done|done| |done|done]. cbn.
  destruct Hc as [-> | ->]; [done|constructor].
Qed.

Lemma stream_opened_inv open u : uplink_inv u -> uplink_inv (stream_opened open u).
Proof.
  intros Hu. unfold stream_opened. destruct (is_erased _ _ _) eqn:Ee; [done|].
  pose proof (not_erased _ _ _ Ee) as Hne.
  assert (Hcap : so_stream open <> Reference -> uplink_inv
    (let u := if negb (bool_decide (tl_capture (up_timeline u) = Some (so_epoch open)))
       then with_timeline (set_capture (up_timeline (end_all Ec_CaptureEpoch u)) (Some (so_epoch open)))
              (end_all Ec_CaptureEpoch u) else u in
     with_timeline (ensure (up_timeline u) (so_stream open) (so_epoch open)) u)).
  { intros Hs. specialize (Hne Hs). cbv zeta. destruct (negb _).
    - destruct (end_all_facts Ec_CaptureEpoch u Hu) as (Hi & Hnil & _ & He & _).
      apply with_timeline_inv; [|apply ensure_inv|by right].
      + apply with_timeline_inv; [done| |by right]. apply set_capture_inv; [apply (ui_timeline _ Hi)|].
        rewrite He. by intros e [= <-].
      + apply set_capture_inv; [apply (ui_timeline _ Hi)|]. rewrite He. by intros e [= <-].
      + cbn. by rewrite He.
    - apply with_timeline_inv; [done|apply ensure_inv; [apply (ui_timeline _ Hu)|done]|].
      left. apply ensure_fields. }
  destruct (so_stream open) eqn:Es; try (by apply Hcap). clear Hcap.
  pose proof (ensure_fields (set_reference (up_timeline u) (Some (so_epoch open))) Reference (so_epoch open))
    as (_ & Hc & _). cbn in Hc.
  apply (inv_moved u); try done; cbn.
  - apply ensure_inv; [apply set_reference_inv, (ui_timeline _ Hu)|done].
  - apply (ui_outbox _ Hu).
  - rewrite <- list_fmap_compose. apply list_fmap_ext. intros i s _. apply open_reference_key.
  - rewrite Hc. apply Forall_fmap. eapply Forall_impl; [apply (ui_subs _ Hu)|]. intros s.
    apply open_reference_inv.
Qed.

Lemma ref_ended_inv stream capture next_key s chunks s' :
  ref_ended stream s chunks s' -> sub_inv capture next_key s -> sub_inv capture next_key s'.
Proof.
  intros [(Hk & _ & _ & _ & _ & Hc & _) Hw] [H1 H2 H3]. split; [by rewrite Hc|by rewrite Hk|].
  rewrite Hc. eapply threads_Forall; [|exact Hw|exact H3]. intros w cks w' (Hst & Hin & _) Hinv.
  unfold want_inv in *. rewrite Hst. apply Forall_forall. intros c Hcin.
  by eapply Forall_forall in Hinv; [|apply Hin].
Qed.

Lemma stream_ended_inv e now u :
  se_final_sample e <= u64_max -> uplink_inv u -> uplink_inv (stream_ended e now u).
Proof.
  intros Hf Hu. unfold stream_ended. destruct (negb _).
  - destruct (bool_decide _); [|done].
    destruct (end_all_facts Ec_CaptureEpoch u Hu) as (Hi & Hnil & _).
    apply with_timeline_inv; [done| |by right]. by apply set_capture_inv; [apply (ui_timeline _ Hi)|].
  - set (v := if bool_decide _ then _ else u).
    assert (Hv : uplink_inv v).
    { subst v. destruct (bool_decide _); [|done].
      apply with_timeline_inv; [done|apply set_reference_inv, (ui_timeline _ Hu)|by left]. }
    clearbody v. destruct (source_of _ _ _ _) as [source|] eqn:Es; [|done].
    destruct (ui_timeline _ Hv) as [H1 H2 _].
    destruct (source_of_wf _ _ _ _ _ H1 H2 Es) as (Hs & _).
    pose proof (end_references_spec source (up_config v) (se_final_sample e) now (up_subs v) (up_outbox v)
      Hs Hf (subs_inv_wf _ _ _ (ui_subs _ Hv))) as H.
    destruct (end_references _ _ _ _ _ _) as [subs' o']. destruct H as (chunks & -> & Ht).
    apply settle_subs_inv, (inv_moved v); try done; cbn.
    + apply (ui_timeline _ Hv).
    + apply push_chunks_inv, (ui_outbox _ Hv).
    + eapply threads_fmap; [|exact Ht]. by intros s cks s' [(Hk & _) _].
    + eapply threads_Forall; [|exact Ht|apply (ui_subs _ Hv)]. intros s cks s'. apply ref_ended_inv.
    + intros _ Hnil. rewrite Hnil in Ht. by apply threads_nil_inv in Ht as [-> ->].
Qed.
