(* ===== verification/UplinkReach.v ===== *)
(** * Every reachable uplink keeps the invariant

    Each operation of [Uplink.v] preserves [uplink_inv], so a session that starts
    fresh keeps it over any sequence of reports, decisions and polls. *)
From S2P Require Import Prelude Bytes WireEnum Ema Vocab Streams Clock Blocks Buffer Timeline Delivery Cursor Uplink UplinkInv.

(** *** Packets *)
Lemma hand_over_starts claims first fresh_only rest out owner k start :
  hand_over claims first fresh_only = (rest, out, owner) -> (k, At_Run start) ∈ out -> start = first.
Proof.
  revert rest out owner. induction claims as [|c claims IH]; intros rest out owner; cbn.
  { intros [= <- <- <-]. by intros ?%elem_of_nil. }
  destruct (fresh_only && _); [intros [= <- <- <-]; by intros ?%elem_of_nil|].
  destruct (match cl_floor c with Some _ => _ | None => _ end).
  - destruct fresh_only; [intros [= <- <- <-]; by intros ?%elem_of_nil|].
    destruct (hand_over claims first false) as [[rest' out'] owner']. intros [= <- <- <-] Hin.
    apply elem_of_cons in Hin as [?|Hin]; [done|]. by eapply IH.
  - intros [= <- <- <-]. intros Hin%list_elem_of_singleton. congruence.
Qed.

Lemma classify_facts t first end_ d :
  let '(t', c) := classify t first end_ d in
  (tk_live_end t' = tk_live_end t \/ tk_live_end t' = Some end_) /\
  forall k start, (k, At_Run start) ∈ cf_attributed c -> start = first.
Proof.
  unfold classify. destruct (match tk_live_end t with Some _ => _ | None => _ end).
  - destruct (match max_index _ _ _ with Some _ => _ | None => _ end) as [[i run]|]; cbn.
    + split; [by left|]. by intros k start ?%elem_of_nil.
    + destruct (hand_over _ _ _) as [[claims out] owner] eqn:Eh. cbn. split; [by left|].
      intros k start. by eapply hand_over_starts.
  - destruct (hand_over _ _ _) as [[claims out] owner] eqn:Eh. cbn. split; [by right|].
    intros k start. by eapply hand_over_starts.
Qed.

Lemma packet_bounds stream p :
  packet_fits stream p -> h_first_sample (p_header p) <= u64_max /\ p_end_sample p <= u64_max.
Proof.
  intros [Hk [_ _ He _] ->]. rewrite Hk in He. split; [|done].
  etransitivity; [|exact He]. lia.
Qed.

Lemma ingest_epoch_wf stream packet wanted held :
  packet_fits stream packet -> epoch_wf stream held ->
  let '(held', classified, _) := ingest_epoch packet wanted held in
  es_epoch held' = es_epoch held /\ epoch_wf stream held' /\
  (forall live, tk_live_end (es_track held') = Some live ->
    tk_live_end (es_track held) = Some live \/ live <= u64_max) /\
  forall k start, (k, At_Run start) ∈ cf_attributed classified -> start <= u64_max.
Proof.
  intros Hfit [Hb Hv]. unfold ingest_epoch. destruct (packet_bounds _ _ Hfit) as [Hfirst Hend].
  pose proof (classify_facts (es_track held) (h_first_sample (p_header packet)) (p_end_sample packet)
    (bits_contain (h_flags (p_header packet)) FLAG_DISCONTINUITY)) as Hc.
  destruct (classify _ _ _ _) as [track classified]. destruct Hc as [Hlive Hatt].
  set (buffer := match cf_missing classified with Some _ => _ | None => _ end).
  assert (Hbuf : buffer_wf stream buffer /\ records_valid buffer).
  { subst buffer. destruct (cf_missing classified) as [m|]; [|done].
    destruct (mark_missing_spec _ _ m Hb) as (? & _). split; [done|]. by eapply mark_missing_valid. }
  clearbody buffer. destruct Hbuf as [Hb' Hv'].
  assert (Hst : buffer_wf stream (store buffer packet).1 /\ records_valid (store buffer packet).1).
  { destruct (store_spec _ _ _ Hb' Hfit) as (? & _). split; [done|]. by eapply store_valid. }
  assert (Htrack : forall live, tk_live_end track = Some live ->
    tk_live_end (es_track held) = Some live \/ live <= u64_max).
  { intros live Hl. destruct Hlive as [Hlive|Hlive]; rewrite Hlive in Hl; [by left|].
    injection Hl as <-. by right. }
  assert (Hout : forall k start, (k, At_Run start) ∈ cf_attributed classified -> start <= u64_max).
  { intros k start Hin. by rewrite (Hatt _ _ Hin). }
  destruct wanted; [|done]. destruct (store buffer packet) as [b n]. done.
Qed.

Lemma tell_inv capture next_key stream epoch told subs :
  Forall (sub_inv capture next_key) subs -> (forall start, told.2 = At_Run start -> start <= u64_max) ->
  Forall (sub_inv capture next_key) (tell_attribution stream epoch subs told).
Proof.
  intros Hs Ht. apply update_first_Forall; [|done]. intros s [H1 H2 H3] _. split; [done|done|]. cbn.
  apply update_first_Forall; [|done]. intros w Hw _. unfold want_inv in *. cbn [wt_stream wt_cursors].
  apply update_first_Forall; [|done]. intros c Hc _. eapply cursor_inv_keep; [| |exact Hc].
  - apply attribute_keeps.
  - intros Hcw. by apply attribute_wf.
Qed.

Lemma tell_keys stream epoch subs told :
  sb_key <$> tell_attribution stream epoch subs told = sb_key <$> subs.
Proof.
  unfold tell_attribution. induction subs as [|s subs IH]; cbn; [done|].
  destruct (_ =? _); cbn; [done|by rewrite IH].
Qed.

Lemma tell_all_inv capture next_key stream epoch told subs :
  Forall (sub_inv capture next_key) subs ->
  (forall k start, (k, At_Run start) ∈ told -> start <= u64_max) ->
  Forall (sub_inv capture next_key) (foldl (tell_attribution stream epoch) subs told) /\
  sb_key <$> foldl (tell_attribution stream epoch) subs told = sb_key <$> subs.
Proof.
  revert subs. induction told as [|[k a] told IH]; intros subs Hs Ht; cbn [foldl]; [done|].
  destruct (IH (tell_attribution stream epoch subs (k, a))) as [H1 H2].
  - apply tell_inv; [done|]. cbn. intros start ->. apply (Ht k). by left.
  - intros k' start Hin. apply (Ht k'). by right.
  - split; [done|]. by rewrite H2, tell_keys.
Qed.

Lemma update_first_ext {A} p (f g : A -> A) l :
  (forall x, p x = true -> f x = g x) -> update_first p f l = update_first p g l.
Proof.
  intros H. induction l as [|x l IH]; cbn; [done|]. destruct (p x) eqn:E; [by rewrite H|by rewrite IH].
Qed.

(** The held epoch replaced by its next state. *)
Lemma update_epoch_inv tl stream epoch held held' :
  timeline_inv tl -> timeline_get tl stream epoch = Some held -> es_epoch held' = es_epoch held ->
  epoch_wf stream held' -> (forall live, tk_live_end (es_track held') = Some live -> live <= u64_max) ->
  timeline_inv (timeline_update tl stream epoch (fun _ => held')).
Proof.
  intros Hi Hg He Hw Hl. destruct (timeline_get_wf _ _ _ _ (ti_wf _ Hi) Hg) as (_ & Hhe & _).
  assert (Heq : timeline_update tl stream epoch (fun _ => held')
    = timeline_update tl stream epoch (fun e => if es_epoch e =? epoch then held' else e)).
  { unfold timeline_update. f_equal. apply update_first_ext. by intros e ->. }
  rewrite Heq. apply update_inv; [done|..]; intros e.
  - destruct (N.eqb_spec (es_epoch e) epoch); congruence.
  - by destruct (es_epoch e =? epoch).
  - intros _ ->. by rewrite N.eqb_refl.
Qed.

Definition packet_ok (p : Packet) : Prop :=
  forall stream, stream_of_kind (h_kind (p_header p)) = Some stream -> packet_fits stream p.

Lemma ingest_inv packet now u : packet_ok packet -> uplink_inv u -> uplink_inv (ingest packet now u).1.
Proof.
  intros Hp Hu. unfold ingest. destruct (stream_of_kind _) as [stream|] eqn:Ek; [|done].
  specialize (Hp _ Ek). destruct (is_erased _ _ _) eqn:Ee; [done|].
  destruct (timeline_get _ _ _) as [held|] eqn:Eg; [|done].
  pose proof (ui_timeline _ Hu) as Hti. pose proof Hti as [H1 H2 _].
  destruct (timeline_get_wf _ _ _ _ H1 Eg) as (Hw & Hhe & Hin).
  set (wanted := any _ _). pose proof (ingest_epoch_wf stream packet wanted held Hp Hw) as Hi.
  destruct (ingest_epoch _ _ _) as [[held' classified] n]. destruct Hi as (He & Hw' & Hlive & Hatt).
  assert (Hl : forall live, tk_live_end (es_track held') = Some live -> live <= u64_max).
  { intros live [Hx|]%Hlive; [by eapply H2|done]. }
  set (tl := timeline_update _ _ _ _).
  assert (Htl : timeline_inv tl /\ tl_capture tl = tl_capture (up_timeline u)).
  { split; [|done]. apply (update_epoch_inv _ _ _ held); try done. }
  clearbody tl. destruct Htl as [Htl Hcap].
  destruct (tell_all_inv (tl_capture tl) (up_next_key u) stream (h_epoch (p_header packet))
    (cf_attributed classified) (up_subs u)) as [Hsubs Hkeys].
  { rewrite Hcap. apply (ui_subs _ Hu). }
  { done. }
  set (subs := foldl _ _ _) in *. clearbody subs.
  set (source := mkSource _ _ _ _ _).
  assert (Hsrc : source_wf source) by (destruct Hw'; by split).
  destruct (packet_bounds _ _ Hp) as [Hfirst _].
  pose proof (ingest_subs_spec source (cf_path classified) (h_first_sample (p_header packet)) (up_config u)
    now subs (up_outbox u) Hsrc Hfirst (subs_inv_wf _ _ _ Hsubs)) as Hr.
  destruct (ingest_subs _ _ _ _ _ _ _) as [subs' o']. destruct Hr as (chunks & -> & Ht).
  cbn [fst]. apply settle_subs_inv, (inv_moved u); try done; cbn.
  - apply push_chunks_inv, (ui_outbox _ Hu).
  - rewrite <- Hkeys. eapply threads_fmap; [|exact Ht]. by intros s cks s' [(Hk & _) _].
  - eapply threads_Forall; [|exact Ht|exact Hsubs]. intros s cks s'.
    apply sub_moves_inv. by apply on_arrival_keep.
  - intros _ Hnil. rewrite Hnil in Hkeys. apply fmap_nil_inv in Hkeys. rewrite Hkeys in Ht.
    by apply threads_nil_inv in Ht as [-> ->].
Qed.

(** *** The device's report of an end *)
Definition report_ok (report : UplinkEnded) : Prop :=
  forall stream clipped, mjoin (ue_clipped_start report !! stream) = Some clipped -> clipped <= u64_max.

Lemma update_last_Forall {A} (P : A -> Prop) f l :
  (forall x, P x -> P (f x)) -> Forall P l -> Forall P (update_last f l).
Proof.
  intros Hf. induction 1 as [|x l Hx Hl IH]; cbn; [constructor|].
  destruct l; [by repeat constructor; auto|]. by constructor.
Qed.

Lemma set_target_inv capture stream target c :
  cursor_inv capture stream c -> cursor_inv capture stream (set_target target c).
Proof. by intros ([? ?] & ? & ?). Qed.

Lemma report_cursor_inv capture stream last clipped c :
  (forall x, clipped = Some x -> x <= u64_max) -> cursor_inv capture stream c ->
  cursor_inv capture stream (report_cursor last clipped c).
Proof.
  intros Hcl Hc. unfold report_cursor. apply (set_target_inv _ _ ((fun l => sat_add64 l 1) <$> last)) in Hc.
  set (c0 := set_target _ c) in *. clearbody c0. destruct clipped as [x|]; [|done].
  assert (Hx : cursor_inv capture stream
    match cu_pos c0 with Some _ => settle x Mc_Clipped c0 | None => set_pos (Some x) c0 end).
  { destruct (cu_pos c0) as [pos|] eqn:Ep.
    - eapply cursor_inv_keep; [apply settle_keeps| |exact Hc]. intros H. apply settle_wf; auto.
    - by destruct Hc as ([? ?] & ? & ?). }
  set (c1 := match cu_pos c0 with Some _ => _ | None => _ end) in *. clearbody c1.
  by destruct Hx as ([? ?] & ? & ?).
Qed.

Lemma begin_drain_inv capture next_key report deadline s :
  report_ok report -> sub_inv capture next_key s -> sub_inv capture next_key (begin_drain report deadline s).
Proof.
  intros Hr [H1 H2 H3]. split; [done|done|]. cbn. apply Forall_fmap. eapply Forall_impl; [exact H3|].
  intros w Hw. unfold compose, want_inv. cbn. apply update_last_Forall; [|exact Hw].
  intros c. apply report_cursor_inv. intros x. apply Hr.
Qed.

(** One subscription replaced, its key kept. *)
Lemma inv_replaced u i s s' :
  uplink_inv u -> up_subs u !! i = Some s -> sb_key s' = sb_key s ->
  sub_inv (tl_capture (up_timeline u)) (up_next_key u) s' ->
  uplink_inv (with_subs (<[i := s']> (up_subs u)) u).
Proof.
  intros Hu Hi Hk Hs. apply (inv_moved u); try done; cbn.
  - apply (ui_timeline _ Hu).
  - apply (ui_outbox _ Hu).
  - rewrite list_fmap_insert, Hk. apply list_insert_id. by rewrite list_lookup_fmap, Hi.
  - apply Forall_insert; [apply (ui_subs _ Hu)|done].
Qed.

Lemma sub_at_inv u i s :
  uplink_inv u -> up_subs u !! i = Some s -> sub_inv (tl_capture (up_timeline u)) (up_next_key u) s.
Proof. intros Hu Hi. eapply Forall_lookup_1; [apply (ui_subs _ Hu)|exact Hi]. Qed.

Lemma device_ended_inv report now u :
  report_ok report -> uplink_inv u -> uplink_inv (device_ended report now u).
Proof.
  intros Hr Hu. unfold device_ended. destruct (any _ _); [by destruct Hu|].
  destruct (sub_index _ _) as [i|]; [|done]. destruct (up_subs u !! i) as [s|] eqn:Es; [|done].
  destruct (negb _); [done|].
  assert (Hdrain : uplink_inv (settle_subs now (release_all now (with_subs
    (<[i := begin_drain report (after now (hole_wait (up_config u))) s]> (up_subs u)) u)))).
  { apply settle_subs_inv, release_all_inv. eapply inv_replaced; [done|exact Es|done|].
    apply begin_drain_inv; [done|]. by eapply sub_at_inv. }
  destruct (ue_reason report); try done; try by apply end_sub_inv.
  unfold end_sub. cbn [up_subs with_outbox]. rewrite Es. apply (inv_fewer u); try done.
  - apply drop_claims_inv, (ui_timeline _ Hu).
  - apply (discard_end_inv _ (mkEnded (sb_id s) (sb_owner s) (sb_reason s) (sb_generation s)
      (Ec_Device report))), (ui_outbox _ Hu).
  - apply remove_at_sublist.
  - intros Hm. destruct (ui_muted _ Hu Hm) as [Hnil _]. by rewrite Hnil in Es.
Qed.

(** *** Opening *)
Lemma track_claim_live t c : tk_live_end (track_claim t c) = tk_live_end t.
Proof. unfold track_claim. repeat case_match; done. Qed.

Definition capture_ok (u : Uplink) (capture : N) : Prop :=
  up_muted u = false /\ tl_capture (up_timeline u) = Some capture.

Lemma check_open_ok requested u capture : check_open requested u = Ok capture -> capture_ok u capture.
Proof.
  unfold check_open, capture_ok. destruct (up_muted u); [done|].
  destruct (tl_capture (up_timeline u)) as [current|], requested as [r|]; try done.
  - case_bool_decide; cbn; [|done]. intros [= ->]. done.
  - by intros [= ->].
Qed.

Lemma activate_stream_inv u key capture tl request :
  timeline_inv tl -> tl_capture tl = Some capture ->
  let '(tl', w, _) := activate_stream u key capture tl request in
  timeline_inv tl' /\ tl_capture tl' = Some capture /\ want_inv capture w /\ wt_stream w = request.1.
Proof.
  intros Hi Hc. destruct request as [stream start]. unfold activate_stream.
  assert (Hepoch : forall epoch, match stream with Reference => tl_reference tl | _ => Some capture end = Some epoch ->
    stream <> Reference -> epoch = capture).
  { intros epoch He Hs. destruct stream; naive_solver. }
  destruct (match stream with Reference => tl_reference tl | _ => Some capture end) as [epoch|];
    [|by split_and!; [| |constructor|]].
  specialize (Hepoch epoch eq_refl). split_and!; [| |apply Forall_singleton; by apply cursor_new_inv|done].
  - destruct (negb _); [|done]. set (floor := match start_spec _ _ with Ss_At _ => _ | _ => _ end).
    clearbody floor. apply update_inv.
    + apply ensure_inv; [done|]. intros Hs He. apply (ti_erased _ Hi) in He as [He _].
      apply He. by rewrite Hc, (Hepoch Hs).
    + done.
    + by intros e [? ?].
    + intros e Hin _ live. cbn [es_track]. rewrite track_claim_live.
      eapply ti_tracks; [|exact Hin]. apply ensure_inv; [done|].
      intros Hs He. apply (ti_erased _ Hi) in He as [He _]. apply He. by rewrite Hc, (Hepoch Hs).
  - destruct (negb _); [|done]. cbn. rewrite <- Hc. apply ensure_fields.
Qed.

Lemma activate_streams_inv u key capture requests tl :
  timeline_inv tl -> tl_capture tl = Some capture ->
  let '(tl', ws, _) := activate_streams u key capture tl requests in
  timeline_inv tl' /\ tl_capture tl' = Some capture /\ Forall (want_inv capture) ws /\
  wt_stream <$> ws = requests.*1.
Proof.
  revert tl. induction requests as [|r requests IH]; intros tl Hi Hc; cbn [activate_streams]; [done|].
  pose proof (activate_stream_inv u key capture tl r Hi Hc) as Hone.
  destruct (activate_stream _ _ _ _ _) as [[tl1 w] g]. destruct Hone as (Hi1 & Hc1 & Hw & Hs).
  specialize (IH tl1 Hi1 Hc1). destruct (activate_streams _ _ _ _ requests) as [[tl2 ws] g'].
  destruct IH as (? & ? & ? & Hss). split_and!; [done|done|by constructor|]. cbn. by rewrite Hs, Hss.
Qed.

Lemma activate_inv id owner reason capture streams near_miss now u :
  uplink_inv u -> capture_ok u capture ->
  uplink_inv (activate id owner reason capture streams near_miss now u).1.
Proof.
  intros Hu [Hm Hc]. unfold activate.
  pose proof (activate_streams_inv u (up_next_key u) capture (stream_list streams) (up_timeline u)
    (ui_timeline _ Hu) Hc) as Ha.
  destruct (activate_streams _ _ _ _ _) as [[tl ws] grants]. destruct Ha as (Hi & Hc' & Hw & _).
  destruct Hu as [_ H2 H3 H4 _]. cbn [fst]. split; cbn; [done|done| | |].
  - rewrite Hc'. apply Forall_app. split.
    + rewrite <- Hc. eapply Forall_impl; [exact H3|]. intros s [? ? ?]. split; [done|lia|done].
    + constructor; [|constructor]. split; cbn; [done|lia|done].
  - rewrite fmap_app. apply NoDup_app. split_and!; [done| |apply NoDup_singleton].
    intros k (s & -> & Hs)%list_elem_of_fmap Heq%list_elem_of_singleton. cbn in Heq.
    eapply Forall_forall in H3; [|exact Hs]. destruct H3 as [_ Hk _]. lia.
  - by rewrite Hm.
Qed.

Lemma accept_candidate_inv candidate now u : uplink_inv u -> uplink_inv (accept_candidate candidate now u).1.
Proof.
  intros Hu. unfold accept_candidate. destruct (check_open _ _) as [capture|e] eqn:Ec; [|done].
  destruct (any _ _); [done|]. apply check_open_ok in Ec.
  pose proof (activate_inv (co_subscription_id candidate) (owner_of_subscription (co_subscription_id candidate))
    Sr_Candidate capture (candidate_streams (candidate_starts (co_support_start candidate)
      (t_afe_metadata (up_terms u)))) None now u Hu Ec) as H.
  by destruct (activate _ _ _ _ _ _ _ _).
Qed.

Lemma open_with_inv fresh reason owner streams near_miss now u :
  uplink_inv u -> uplink_inv (open_with fresh reason owner streams near_miss now u).1.
Proof.
  intros Hu. unfold open_with. destruct (check_open _ _) as [capture|e] eqn:Ec; [|done].
  destruct (bool_decide _); [done|]. destruct (_ && _); [done|]. apply check_open_ok in Ec.
  pose proof (activate_inv fresh owner (reason_of_open reason) capture streams near_miss now u Hu Ec) as H.
  destruct (activate _ _ _ _ _ _ _ _) as [v grants]. cbn in *. by apply send_inv.
Qed.

Lemma uplink_open_inv fresh reason owner streams now u :
  uplink_inv u -> uplink_inv (uplink_open fresh reason owner streams now u).1.
Proof. intros Hu. unfold uplink_open. destruct (_ && _); [done|]. by apply open_with_inv. Qed.

Lemma open_near_miss_inv fresh n now u : uplink_inv u -> uplink_inv (open_near_miss fresh n now u).1.
Proof.
  intros Hu. unfold open_near_miss. destruct (negb _); [done|]. destruct (check_open _ _); [|done].
  by apply open_with_inv.
Qed.

(** *** Decisions and time *)
Lemma convert_inv id turn now u : uplink_inv u -> uplink_inv (convert_to_turn id turn now u).1.
Proof.
  intros Hu. unfold convert_to_turn. destruct (find_sub _ _) as [s|]; [|done].
  destruct (negb _); [done|]. destruct (negb _); [done|]. cbn [fst]. apply send_inv.
  apply (inv_moved u); try done; cbn.
  - apply (ui_timeline _ Hu).
  - apply (ui_outbox _ Hu).
  - induction (up_subs u) as [|x xs IH]; cbn; [done|]. destruct (bool_decide _); cbn; [done|by rewrite IH].
  - apply update_first_Forall; [|apply (ui_subs _ Hu)]. by intros x [? ? ?] _.
Qed.

Lemma close_inv id reason now u : uplink_inv u -> uplink_inv (close id reason now u).1.
Proof. intros Hu. unfold close. destruct (sub_index _ _); [by apply close_at_inv|done]. Qed.

Lemma command_rejected_inv id generation code now u :
  uplink_inv u -> uplink_inv (command_rejected id generation code now u).
Proof.
  intros Hu. unfold command_rejected. destruct (sub_index _ _); [|done].
  destruct (up_subs u !! _); [|done]. destruct (_ || _); [done|by apply end_sub_inv].
Qed.

Lemma renew_inv now u : uplink_inv u -> uplink_inv (renew now u).
Proof.
  intros Hu. apply (inv_moved u); try done; cbn.
  - apply (ui_timeline _ Hu).
  - apply (ui_outbox _ Hu).
  - rewrite <- list_fmap_compose. apply list_fmap_ext. intros i s _. unfold renew_due, compose.
    by repeat case_match.
  - apply Forall_fmap. eapply Forall_impl; [apply (ui_subs _ Hu)|]. intros s Hs.
    unfold compose, renew_due. repeat case_match; try done. by destruct Hs.
Qed.

Lemma drop_all_claims_inv keys tl :
  timeline_inv tl ->
  timeline_inv (foldl (fun tl (z : Zombie) => timeline_drop_claims tl (zb_key z)) tl keys) /\
  tl_capture (foldl (fun tl (z : Zombie) => timeline_drop_claims tl (zb_key z)) tl keys) = tl_capture tl.
Proof.
  revert tl. induction keys as [|z keys IH]; intros tl Hi; cbn [foldl]; [done|].
  destruct (IH (timeline_drop_claims tl (zb_key z))) as [? ?]; [by apply drop_claims_inv|done].
Qed.

Lemma expire_zombies_inv now u : uplink_inv u -> uplink_inv (expire_zombies now u).
Proof.
  intros Hu. destruct (drop_all_claims_inv (retain (fun z => negb (now <? zb_expires z)) (up_zombies u))
    (up_timeline u) (ui_timeline _ Hu)) as [Hi Hc].
  apply (inv_moved u); try done; cbn in *.
  - apply (ui_outbox _ Hu).
  - rewrite Hc. apply (ui_subs _ Hu).
Qed.

Lemma poll_inv now u : uplink_inv u -> uplink_inv (poll now u).
Proof. intros Hu. by apply settle_subs_inv, expire_zombies_inv, release_all_inv, renew_inv. Qed.

(** *** Every event *)
(** What the decoders guarantee: sample counters fit in 64 bits and a packet's
    records are in its form. *)
Definition event_ok (ev : UplinkEvent) : Prop :=
  match ev with
  | Ev_StreamEnded e _ => se_final_sample e <= u64_max
  | Ev_Packet packet _ => packet_ok packet
  | Ev_DeviceEnded report _ => report_ok report
  | _ => True
  end.

Lemma uplink_step_inv u ev : event_ok ev -> uplink_inv u -> uplink_inv (uplink_step u ev).
Proof.
  intros He Hu. destruct ev; cbn [uplink_step event_ok] in *.
  - by apply stream_opened_inv.
  - by apply stream_ended_inv.
  - by apply ingest_inv.
  - by apply device_ended_inv.
  - by apply mute_inv.
  - by apply unmute_inv.
  - by apply session_lost_inv.
  - by apply accept_candidate_inv.
  - by apply convert_inv.
  - by apply uplink_open_inv.
  - by apply open_near_miss_inv.
  - by apply close_inv.
  - by apply command_rejected_inv.
  - by apply poll_inv.
  - by destruct Hu.
  - unfold uplink_drain. destruct (outbox_drain_ok _ [] (ui_outbox _ Hu)) as (o' & -> & Hq & Ho & _).
    destruct Hu as [H1 H2 H3 H4 H5]. split; cbn; try done. intros Hm. rewrite Hq.
    split; [by apply H5|constructor].
Qed.

Lemma uplink_new_inv config terms muted : uplink_inv (uplink_new config terms muted).
Proof.
  split; cbn.
  - split; [apply timeline_new_wf| |].
    + intros stream e live. destruct stream; by intros ?%elem_of_nil.
    + intros e He. by apply elem_of_empty in He.
  - apply outbox_new_inv.
  - constructor.
  - constructor.
  - done.
Qed.

Lemma reachable_inv config terms muted events :
  Forall event_ok events -> uplink_inv (foldl uplink_step (uplink_new config terms muted) events).
Proof.
  intros He. assert (H : forall u, uplink_inv u -> uplink_inv (foldl uplink_step u events)).
  { induction He as [|ev events Hev _ IH]; intros u Hu; cbn [foldl]; [done|]. by apply IH, uplink_step_inv. }
  apply H, uplink_new_inv.
Qed.
