(* ===== verification/StreamBodies.v ===== *)
(** * Stream message bodies ([protocol/src/streams.rs])

    Decoding [stream.open], [stream.end] and [uplink.ended], whose decoded forms
    the registry ([Streams]) and the uplink ([Uplink]) act on. *)
From S2P Require Import Prelude Bytes WireEnum Float Ema Vocab Streams Clock Blocks Buffer Timeline Delivery Cursor Uplink UplinkInv UplinkReach Json.

Section bodies.
Context `{SerdeJson}.

Definition stream_id (f : Fields) : result ProtocolError StreamId :=
  ok_or (mkProtocolError Pe_BadStream ("unknown stream_id " +:+ sent f "stream_id"))
    ((raw f "stream_id" ≫= value_as_str) ≫= from_wire).

Definition reason (f : Fields) : result ProtocolError (option (Reported StreamReason)) :=
  let? text := optional_string f "reason" in
  Ok ((fun text => match from_wire text with Some known => Known known | None => Unrecognized text end)
      <$> text).

(** The layout a stream carries, as [stream.open] must state it. *)
Definition expected_layout (stream : StreamId) : list (string * N) :=
  let kind := stream_kind stream in
  [("kind", kind_u8 kind); ("sample_rate", kind_sample_rate kind);
   ("format", format_u8 (kind_format kind))].

Fixpoint check_layout (f : Fields) (stream : StreamId) (expected : list (string * N)) :
    result ProtocolError unit :=
  match expected with
  | [] => Ok tt
  | (key, want) :: expected =>
      if bool_decide ((raw f key ≫= value_as_u64) = Some want) then check_layout f stream expected
      else Err (mkProtocolError Pe_BadStream
                  (as_str stream +:+ " " +:+ key +:+ " must be " +:+ pretty want +:+ ", got "
                   +:+ sent f key))
  end.

Definition stream_open_parse (body : Object) : result ProtocolError StreamOpen :=
  let f := mkFields body "stream.open" in
  let? stream := stream_id f in
  let? epoch := field_u64_string f "epoch" in
  if epoch =? 0 then Err (mkProtocolError Pe_BadStream "epoch 0 is reserved")
  else
    let? _ := check_layout f stream (expected_layout stream) in
    let? reason := reason f in
    Ok (mkStreamOpen stream epoch reason).

Definition stream_end_parse (body : Object) : result ProtocolError StreamEnd :=
  let f := mkFields body "stream.end" in
  let? stream := stream_id f in
  let? epoch := field_u64_string f "epoch" in
  let? final_sample := field_u64_string f "final_sample" in
  let? reason := reason f in
  Ok (mkStreamEnd stream epoch final_sample reason).

(** One entry per key, in key order; two keys never name one stream. *)
Definition stream_samples (object : Object) (owner : string) :
    result ProtocolError (gmap StreamId (option N)) :=
  let f := mkFields object owner in
  let? entries := collect (fun key =>
    let? stream := ok_or (fields_error f key "is not a stream") (from_wire key) in
    let? sample := optional_u64_string f key in
    Ok (stream, sample)) object.*1 in
  Ok (foldl (fun m kv => <[kv.1 := kv.2]> m) ∅ entries).

Definition uplink_ended_parse (body : Object) : result ProtocolError UplinkEnded :=
  let f := mkFields body "uplink.ended" in
  let? subscription_id := nonempty_string f "lease_id" in
  let? reason :=
    ok_or (fields_error f "reason" "must be closed, ttl, mute, epoch, overrun or session")
      (match field_string f "reason" with Ok text => from_wire text | Err _ => None end) in
  let? last_sample :=
    (let? o := field_object f "last_sample" in stream_samples o "uplink.ended.last_sample") in
  let? clipped_start :=
    (let? o := field_object f "clipped_start" in stream_samples o "uplink.ended.clipped_start") in
  Ok (mkUplinkEnded subscription_id reason last_sample clipped_start).
End bodies.

(** ** What is accepted *)
Section facts.
Context `{SerdeJson}.

Definition is_stream (text : string) : bool := bool_decide (is_Some (from_wire (A:=StreamId) text)).
Definition is_end_reason (text : string) : bool :=
  bool_decide (is_Some (from_wire (A:=UplinkEndedReason) text)).

Definition stream_end_schema : Schema :=
  Sc_Record [("stream_id", Required, Sc_Text is_stream); ("epoch", Required, Sc_Text u64_text);
             ("final_sample", Required, Sc_Text u64_text); ("reason", Optional, Sc_Text any_text)].
Definition uplink_ended_schema : Schema :=
  Sc_Record [("lease_id", Required, Sc_Text nonempty_text); ("reason", Required, Sc_Text is_end_reason);
             ("last_sample", Required, Sc_Map is_stream (Sc_Text u64_text));
             ("clipped_start", Required, Sc_Map is_stream (Sc_Text u64_text))].

Lemma stream_id_accepts f : is_ok (stream_id f) = in_record f "stream_id" Required (Sc_Text is_stream).
Proof. unfold stream_id, in_record. rewrite is_ok_ok_or. by destruct (raw f "stream_id") as [[]|]. Qed.

Lemma reason_accepts f : is_ok (reason f) = in_record f "reason" Optional (Sc_Text any_text).
Proof.
  unfold reason. rewrite is_ok_bind with (b := true), andb_true_r by done. apply optional_string_accepts.
Qed.

Lemma stream_samples_accepts o owner :
  NoDup o.*1 -> is_ok (stream_samples o owner) = conforms (Sc_Map is_stream (Sc_Text u64_text)) (VObject o).
Proof.
  intros Hnd. unfold stream_samples. rewrite is_ok_bind with (b := true), andb_true_r by done.
  set (f := mkFields o owner).
  rewrite (collect_accepts _ (fun key => is_stream key && in_record f key Optional (Sc_Text u64_text))).
  - cbn [conforms]. apply eq_true_iff_eq. rewrite !forallb_forall. split; intros Hall x Hx.
    + destruct x as [key v]. apply list_elem_of_In in Hx.
      assert (Hin : In key o.*1) by (apply list_elem_of_In, list_elem_of_fmap; by exists (key, v)).
      specialize (Hall _ Hin). revert Hall. unfold in_record, raw. cbn [fd_object f].
      rewrite (object_get_elem key v o Hnd Hx).
      cbn. tauto.
    + rewrite <- list_elem_of_In in Hx. apply list_elem_of_fmap in Hx as ([key v] & -> & Hin).
      specialize (Hall (key, v) ltac:(by apply list_elem_of_In)). revert Hall.
      unfold in_record, raw. cbn [fd_object f fst snd]. rewrite (object_get_elem key v o Hnd Hin).
      cbn. tauto.
  - intros key. rewrite is_ok_bind with (b := in_record f key Optional (Sc_Text u64_text)).
    + by rewrite is_ok_ok_or.
    + intros s _. rewrite is_ok_bind with (b := true), andb_true_r by done. apply optional_u64_accepts.
Qed.

(** What the two sample maps of [uplink.ended] hold: for each stream named, the
    number its text denotes, nothing for null. *)
Definition sample_read (o : Object) (stream : StreamId) : option (option N) :=
  match object_get (as_str stream) o with
  | Some (VString text) => Some (parse_u64_decimal text)
  | Some _ => Some None
  | None => None
  end.
Lemma optional_u64_value f key n :
  optional_u64_string f key = Ok n ->
  n = match raw f key with Some (VString text) => parse_u64_decimal text | _ => None end /\
  forall k, n = Some k -> k <= u64_max.
Proof.
  unfold optional_u64_string, present, field_u64_string.
  destruct (raw f key) as [[| | |t| |]|]; cbn; intros E; simplify_eq; try (split; [done|congruence]).
  destruct (parse_u64_decimal t) as [k|] eqn:Et; cbn in E; [|done]. injection E as <-.
  split; [done|]. intros ? [= <-]. by apply parse_u64_decimal_spec in Et as (_ & _ & _ & ?).
Qed.

Lemma foldl_insert_lookup (g : StreamId -> option N) entries m stream :
  Forall (fun kv => kv.2 = g kv.1) entries ->
  foldl (fun m kv => <[kv.1 := kv.2]> m) m entries !! stream =
  if bool_decide (stream ∈ entries.*1) then Some (g stream) else (m : gmap StreamId (option N)) !! stream.
Proof.
  intros Hall. revert m. induction Hall as [|[k v] entries Hv _ IH]; intros m; cbn in *; [done|].
  rewrite IH. destruct (decide (stream ∈ entries.*1)) as [Hin|Hn].
  - rewrite !bool_decide_eq_true_2; [done|by apply elem_of_cons; right|done].
  - rewrite (bool_decide_eq_false_2 (stream ∈ entries.*1)) by done.
    destruct (decide (k = stream)) as [->|Hne].
    + rewrite lookup_insert_eq, bool_decide_eq_true_2 by (apply elem_of_cons; by left). by subst.
    + rewrite lookup_insert_ne, bool_decide_eq_false_2; [done| |done].
      intros [->|?]%elem_of_cons; done.
Qed.

Lemma stream_samples_lookup o owner m :
  stream_samples o owner = Ok m ->
  (forall stream, m !! stream = sample_read o stream) /\
  (forall stream n, m !! stream = Some (Some n) -> n <= u64_max).
Proof.
  unfold stream_samples. set (f := mkFields o owner).
  destruct (collect _ _) as [entries|] eqn:E; [|done]. intros [= <-]. apply collect_Ok in E.
  set (g := fun stream : StreamId => match raw f (as_str stream) with
                          | Some (VString text) => parse_u64_decimal text | _ => None end).
  assert (Hentry : Forall2 (fun key (kv : StreamId * option N) => key = as_str kv.1 /\ kv.2 = g kv.1 /\
                     forall n, kv.2 = Some n -> n <= u64_max) o.*1 entries).
  { eapply Forall2_impl; [exact E|]. intros key [stream v]. cbn [fst snd].
    destruct (from_wire (A:=StreamId) key) as [st|] eqn:Ek; [|done]. cbn [ok_or]. apply from_wire_Some in Ek as <-.
    destruct (optional_u64_string f (as_str st)) as [n|] eqn:En; [|done]. intros [= -> ->].
    by apply optional_u64_value in En as [-> Hb]. }
  assert (Hg : Forall (fun kv => kv.2 = g kv.1) entries).
  { clear E. induction Hentry as [|k kv ks kvs (_ & ? & _) _ IH]; by constructor. }
  assert (Hlook : forall stream, foldl (fun m kv => <[kv.1 := kv.2]> m) (∅ : gmap StreamId (option N)) entries !! stream = sample_read o stream).
  { intros stream. rewrite (foldl_insert_lookup g) by done. rewrite lookup_empty. unfold sample_read.
    assert (Hkeys : stream ∈ entries.*1 <-> as_str stream ∈ o.*1).
    { clear -Hentry. induction Hentry as [|k kv ks kvs (-> & _) _ IH]; cbn; [set_solver|].
      rewrite !elem_of_cons, IH. split; (intros [E|?]; [left|by right]); [by rewrite E|by apply (inj as_str)]. }
    rewrite (bool_decide_ext _ _ Hkeys). unfold g, raw. cbn [fd_object f].
    destruct (object_get (as_str stream) o) as [v|] eqn:Ev.
    - rewrite bool_decide_eq_true_2 by (by eapply object_get_key). by destruct v.
    - rewrite bool_decide_eq_false_2; [done|]. by apply object_get_None. }
  split; [exact Hlook|]. intros stream n Hn. rewrite Hlook in Hn. revert Hn. unfold sample_read.
  destruct (object_get _ o) as [[]|]; try done. intros [= Hp].
  by apply parse_u64_decimal_spec in Hp as (_ & _ & _ & ?).
Qed.

(** The rule of [stream.open] a body breaks first. *)
Definition named_stream (f : Fields) : option StreamId := (raw f "stream_id" ≫= value_as_str) ≫= from_wire.
Definition states_layout (f : Fields) (stream : StreamId) : bool :=
  forallb (fun '(key, want) => bool_decide ((raw f key ≫= value_as_u64) = Some want))
    (expected_layout stream).
Definition open_refusal (f : Fields) : option ProtocolErrorCode :=
  match named_stream f with
  | None => Some Pe_BadStream
  | Some stream =>
      match (raw f "epoch" ≫= value_as_str) ≫= parse_u64_decimal with
      | None => Some Pe_MalformedMessage
      | Some epoch =>
          if epoch =? 0 then Some Pe_BadStream
          else if negb (states_layout f stream) then Some Pe_BadStream
          else if in_record f "reason" Optional (Sc_Text any_text) then None
          else Some Pe_MalformedMessage
      end
  end.

Lemma check_layout_spec f stream expected :
  match check_layout f stream expected with
  | Ok _ => forallb (fun '(key, want) => bool_decide ((raw f key ≫= value_as_u64) = Some want)) expected = true
  | Err e =>
      forallb (fun '(key, want) => bool_decide ((raw f key ≫= value_as_u64) = Some want)) expected = false /\
      pe_code e = Pe_BadStream
  end.
Proof.
  induction expected as [|[key want] expected IH]; cbn [check_layout forallb]; [done|].
  by destruct (bool_decide _).
Qed.

(** [stream.open] is refused with the code of the first rule it breaks - an
    unknown stream, an epoch that is no uint64 string, the reserved epoch 0, a
    layout other than the stream's own, a reason of the wrong type - and
    otherwise names the stream and the nonzero epoch it sent. *)
Theorem stream_open_contract body :
  let f := mkFields body "stream.open" in
  match stream_open_parse body with
  | Ok o =>
      open_refusal f = None /\ raw f "stream_id" = Some (VString (as_str (so_stream o))) /\
      so_epoch o <> 0 /\
      exists text, raw f "epoch" = Some (VString text) /\ parse_u64_decimal text = Some (so_epoch o)
  | Err e => open_refusal f = Some (pe_code e)
  end.
Proof.
  cbv zeta. set (f := mkFields body "stream.open"). unfold stream_open_parse, open_refusal. fold f.
  unfold stream_id. fold (named_stream f). destruct (named_stream f) as [stream|] eqn:Es; cbn [ok_or]; [|done].
  unfold field_u64_string.
  destruct ((raw f "epoch" ≫= value_as_str) ≫= parse_u64_decimal) as [epoch|] eqn:Ee; cbn [ok_or]; [|done].
  destruct (N.eqb_spec epoch 0) as [->|Hne]; [done|].
  pose proof (check_layout_spec f stream (expected_layout stream)) as Hl. fold (states_layout f stream) in Hl.
  destruct (check_layout _ _ _) as [u|e]; [|by destruct Hl as [-> ->]]. rewrite Hl. cbn [negb].
  pose proof (reason_accepts f) as Hr. rewrite <- Hr.
  destruct (reason f) as [r|e] eqn:E.
  - split_and!; [done| |done|].
    + unfold named_stream in Es. destruct (raw f "stream_id") as [[| | |t| |]|]; try done.
      cbn [mbind option_bind value_as_str] in Es. by apply from_wire_Some in Es as <-.
    + destruct (raw f "epoch") as [[| | |t| |]|]; try done. by exists t.
  - cbn [is_ok]. f_equal. unfold reason in E.
    destruct (optional_string f "reason") as [|e'] eqn:Eo; [done|]. injection E as <-.
    destruct (refuses_accessors f "reason") as (_ & _ & Hopt & _). symmetry. by apply Hopt.
Qed.

(** [stream.end] and [uplink.ended] are decoded exactly when they are of
    their schemas, the keys of a JSON object being distinct; and the two sample
    maps of a decoded [uplink.ended] hold, for every stream, what the object
    said of it: a number, null, or nothing. *)
Theorem stream_ends_decoded body :
  (forall key o, object_get key body = Some (VObject o) -> NoDup o.*1) ->
  is_ok (stream_end_parse body) = conforms stream_end_schema (VObject body) /\
  is_ok (uplink_ended_parse body) = conforms uplink_ended_schema (VObject body) /\
  forall report, uplink_ended_parse body = Ok report ->
    exists last clipped,
      object_get "last_sample" body = Some (VObject last) /\
      object_get "clipped_start" body = Some (VObject clipped) /\
      forall stream, ue_last_sample report !! stream = sample_read last stream /\
                     ue_clipped_start report !! stream = sample_read clipped stream.
Proof.
  intros Hkeys.
  assert (Hmap : forall key owner,
    is_ok (let? o := field_object (mkFields body "uplink.ended") key in stream_samples o owner) =
    in_record (mkFields body "uplink.ended") key Required (Sc_Map is_stream (Sc_Text u64_text))).
  { intros key owner. unfold field_object, in_record, raw. cbn [fd_object].
    destruct (object_get key body) as [[| | | | |o]|] eqn:E; try done.
    cbn [mbind option_bind value_as_object ok_or]. rewrite stream_samples_accepts by (by eapply Hkeys). done. }
  split_and!.
  - solve_accepts "stream.end"; [apply stream_id_accepts|apply reason_accepts].
  - solve_accepts "uplink.ended".
    rewrite is_ok_ok_or. unfold field_string, in_record. by destruct (raw _ "reason") as [[]|].
  - intros report. unfold uplink_ended_parse, field_object, raw. cbn [fd_object].
    destruct (nonempty_string _ _); [|done]. destruct (ok_or (fields_error _ "reason" _) _); [|done].
    destruct (object_get "last_sample" body) as [[| | | | |last]|]; try done.
    cbn [mbind option_bind value_as_object ok_or].
    destruct (stream_samples last _) as [ml|] eqn:El; [|done].
    destruct (object_get "clipped_start" body) as [[| | | | |clipped]|]; try done.
    cbn [mbind option_bind value_as_object ok_or].
    destruct (stream_samples clipped _) as [mc|] eqn:Ec; [|done]. intros [= <-].
    exists last, clipped. split_and!; [done..|]. intros stream.
    apply stream_samples_lookup in El as [El _]. apply stream_samples_lookup in Ec as [Ec _].
    by rewrite <- El, <- Ec.
Qed.
End facts.

(** ** What reaches the uplink from the wire *)
#[local] Instance no_text : SerdeJson := {
  from_str _ := Err "no text"; to_string _ := Ok ""; value_to_string _ := "";
}.

Definition sample_ended : Object :=
  [("clipped_start", VObject [("mic", VNull)]); ("last_sample", VObject [("mic", VString "1279")]);
   ("lease_id", VString "L"); ("reason", VString "ttl")].

Lemma stream_ends_decoded_witness :
  exists report, uplink_ended_parse sample_ended = Ok report /\
    ue_last_sample report !! Mic = Some (Some 1279) /\ ue_clipped_start report !! Mic = Some None.
Proof.
  destruct (stream_ends_decoded sample_ended) as (_ & _ & Hread).
  { intros key o. unfold sample_ended. cbn [object_get].
    repeat (destruct (String.eqb _ key); [intros Hk; simplify_eq; distinct_keys|]). done. }
  destruct (uplink_ended_parse sample_ended) as [report|] eqn:E; [|by vm_compute in E].
  destruct (Hread report eq_refl) as (last & clipped & Hl & Hc & Hs).
  exists report. split; [done|]. destruct (Hs Mic) as [-> ->].
  injection Hl as <-. injection Hc as <-. by vm_compute.
Defined.

(** An event of the uplink and where it came from: a parsed frame, a decoded
    body, or the controller itself. *)
Inductive from_wire_event `{SerdeJson} : UplinkEvent -> Prop :=
  | Fw_opened body open :
      stream_open_parse body = Ok open -> from_wire_event (Ev_StreamOpened open)
  | Fw_ended body e now :
      stream_end_parse body = Ok e -> from_wire_event (Ev_StreamEnded e now)
  | Fw_packet frame packet now :
      parse frame = Ok packet -> from_wire_event (Ev_Packet packet now)
  | Fw_report body report now :
      uplink_ended_parse body = Ok report -> from_wire_event (Ev_DeviceEnded report now)
  | Fw_controller ev :
      match ev with
      | Ev_StreamOpened _ | Ev_StreamEnded _ _ | Ev_Packet _ _ | Ev_DeviceEnded _ _ => False
      | _ => True
      end -> from_wire_event ev.

(** The standing hypothesis of the uplink's theorems is what the decoders
    establish: whatever frames and bodies a session receives, what they decode
    to satisfies [event_ok], so the uplink's invariant holds after any session
    driven by the wire. *)
Theorem wire_sessions_keep_the_invariant `{SerdeJson} events config terms muted :
  Forall from_wire_event events ->
  Forall event_ok events /\ uplink_inv (foldl uplink_step (uplink_new config terms muted) events).
Proof.
  intros Hw. assert (Hall : Forall event_ok events).
  { eapply Forall_impl; [exact Hw|]. intros ev [body o Ho|body e now He|frame p now Hp|body r now Hr|ev' Hev].
    - exact I.
    - cbn. revert He. unfold stream_end_parse, field_u64_string.
      destruct (stream_id _); [|done]. destruct (_ ≫= _) as [epoch|]; [|done]. cbn [ok_or].
      destruct ((raw _ "final_sample" ≫= value_as_str) ≫= parse_u64_decimal) as [final|] eqn:E; [|done].
      cbn [ok_or]. destruct (reason _); [|done]. intros [= <-]. cbn.
      destruct (raw _ "final_sample") as [[| | |t| |]|]; try done.
      by apply parse_u64_decimal_spec in E as (_ & _ & _ & ?).
    - intros stream Hs. eapply packet_fits_parsed; [exact Hp|by apply stream_of_kind_Some].
    - intros stream clipped Hc. revert Hr. unfold uplink_ended_parse.
      destruct (nonempty_string _ _); [|done]. destruct (ok_or _ _); [|done].
      destruct (field_object _ "last_sample"); [|done]. destruct (stream_samples _ _); [|done].
      destruct (field_object _ "clipped_start") as [o|]; [|done].
      destruct (stream_samples o _) as [m|] eqn:Em; [|done]. intros [= <-]. cbn in Hc.
      apply stream_samples_lookup in Em as [_ Hb]. apply (Hb stream).
      destruct (m !! stream) as [[k|]|]; cbn in Hc; congruence.
    - by destruct ev'. }
  split; [done|by apply reachable_inv].
Qed.

Lemma wire_sessions_keep_the_invariant_witness :
  exists report, uplink_ended_parse sample_ended = Ok report /\ event_ok (Ev_DeviceEnded report 0).
Proof.
  destruct (uplink_ended_parse sample_ended) as [report|] eqn:E; [|by vm_compute in E].
  exists report. split; [done|].
  destruct (wire_sessions_keep_the_invariant [Ev_DeviceEnded report 0] config_default (mkSessionTerms false false) false) as [Hok _].
  { constructor; [by eapply Fw_report|constructor]. }
  by inversion Hok.
Defined.
