(* ===== verification/Envelope.v ===== *)
(** * Control envelopes ([protocol/src/envelope.rs])

    One JSON text frame per message.  [parse_envelope] validates a device frame
    and decodes its body, [parse_hello] applies the rules of a session's first
    frame and [check_live_session] those of every later one; [encode_envelope]
    wraps a controller body.  A fresh UUIDv4 is an argument of the encoder. *)
From S2P Require Import Prelude Bytes WireEnum Float Ema Vocab Streams Clock Blocks Buffer Timeline Delivery Cursor Uplink UplinkInv UplinkReach Json Policy Session StreamBodies.

Definition MAX_CONTROL_BYTES : N := 256 * 1024.
Definition text_len (text : string) : N := N.of_nat (String.length text).

Inductive ControlFrame :=
  | Cf_Text (text : string)
  | Cf_Binary (bytes : list byte).

Record EnvelopeHeader := mkEnvelopeHeader {
  eh_session_id : option string;
  eh_message_id : string;
  eh_device_id : string;
  eh_generation : N;
}.

Inductive DeviceMessage :=
  | Dm_SessionHello (hello : SessionHello)
  | Dm_Heartbeat (heartbeat : Heartbeat)
  | Dm_ClockRequest (request : ClockRequest)
  | Dm_CommandAck (ack : CommandAck)
  | Dm_ProtocolError (report : ProtocolErrorReport)
  | Dm_StreamOpen (open : StreamOpen)
  | Dm_StreamEnd (e : StreamEnd)
  | Dm_UplinkEnded (report : UplinkEnded)
  | Dm_Other (message_type : MessageType) (body : Object).

Record DeviceEnvelope := mkDeviceEnvelope { de_header : EnvelopeHeader; de_message : DeviceMessage }.
Record UnknownEnvelope := mkUnknownEnvelope { un_message_type : string; un_header : EnvelopeHeader }.

Inductive Inbound :=
  | In_Known (env : DeviceEnvelope)
  | In_Unknown (env : UnknownEnvelope).

Definition inbound_header (i : Inbound) : EnvelopeHeader :=
  match i with In_Known env => de_header env | In_Unknown env => un_header env end.

Definition message_type (m : DeviceMessage) : MessageType :=
  match m with
  | Dm_SessionHello _ => Mt_SessionHello
  | Dm_Heartbeat _ => Mt_Heartbeat
  | Dm_ClockRequest _ => Mt_ClockRequest
  | Dm_CommandAck _ => Mt_CommandAck
  | Dm_ProtocolError _ => Mt_ProtocolError
  | Dm_StreamOpen _ => Mt_StreamOpen
  | Dm_StreamEnd _ => Mt_StreamEnd
  | Dm_UplinkEnded _ => Mt_UplinkEnded
  | Dm_Other message_type _ => message_type
  end.

Record Unpacked := mkUnpacked { up_type : string; up_header : EnvelopeHeader; up_body : Object }.

(** The device a frame named, and what was wrong with it. *)
Abbreviation Refusal := (option string * ProtocolError)%type.

Section envelope.
Context `{SerdeJson}.

Definition message_parse (message_type : MessageType) (body : Object) : result ProtocolError DeviceMessage :=
  match message_type with
  | Mt_SessionHello => let? m := hello_parse body in Ok (Dm_SessionHello m)
  | Mt_Heartbeat => let? m := heartbeat_parse body in Ok (Dm_Heartbeat m)
  | Mt_ClockRequest => let? m := clock_request_parse body in Ok (Dm_ClockRequest m)
  | Mt_CommandAck => let? m := command_ack_parse body in Ok (Dm_CommandAck m)
  | Mt_ProtocolError => let? m := error_report_parse body in Ok (Dm_ProtocolError m)
  | Mt_StreamOpen => let? m := stream_open_parse body in Ok (Dm_StreamOpen m)
  | Mt_StreamEnd => let? m := stream_end_parse body in Ok (Dm_StreamEnd m)
  | Mt_UplinkEnded => let? m := uplink_ended_parse body in Ok (Dm_UplinkEnded m)
  | other => Ok (Dm_Other other body)
  end.

(** The object a frame holds. *)
Definition frame_object (frame : ControlFrame) : result ProtocolError Object :=
  match frame with
  | Cf_Binary _ => Err (malformed "control frames are text")
  | Cf_Text text =>
      if MAX_CONTROL_BYTES <? text_len text then
        Err (mkProtocolError Pe_Oversize
               ("control frame of " +:+ pretty (text_len text) +:+ " bytes exceeds "
                +:+ pretty MAX_CONTROL_BYTES))
      else
        match from_str text with
        | Ok (VObject object) => Ok object
        | Ok _ => Err (malformed "envelope is not an object")
        | Err err => Err (malformed ("invalid JSON: " +:+ err))
        end
  end.

Definition object_device (object : Object) : option string :=
  match object_get "device_id" object ≫= value_as_str with
  | Some t => if String.eqb t "" then None else Some t
  | None => None
  end.

Definition check_protocol (object : Object) : result ProtocolError unit :=
  match object_get "protocol" object with
  | Some protocol =>
      if bool_decide (value_as_u64 protocol = Some PROTOCOL_VERSION) then Ok tt
      else Err (mkProtocolError Pe_UnsupportedProtocol ("protocol " +:+ value_to_string protocol))
  | None => Err (mkProtocolError Pe_UnsupportedProtocol "protocol absent")
  end.

Definition header_session (f : Fields) : result ProtocolError (option string) :=
  match raw f "session_id" with
  | Some VNull => Ok None
  | Some (VString id) => Ok (Some id)
  | _ => Err (fields_error f "session_id" "must be a string or null")
  end.

Definition header_generation (f : Fields) : result ProtocolError N :=
  ok_or (fields_error f "generation" "must be a uint32")
    (match raw f "generation" ≫= value_as_u64 with
     | Some g => if g <=? u32_max then Some g else None
     | None => None
     end).

Definition header_body (object : Object) : result ProtocolError Object :=
  match object_get "body" object with
  | Some (VObject body) => Ok body
  | _ => Err (malformed "envelope.body must be an object")
  end.

(** The envelope's fields in the order they are checked. *)
Definition unpack_object (object : Object) : result ProtocolError Unpacked :=
  let? _ := check_protocol object in
  let fields := mkFields object "envelope" in
  let? message_type := nonempty_string fields "type" in
  let? message_id := nonempty_string fields "message_id" in
  let? device_id := ok_or (fields_error fields "device_id" "must be a non-empty string")
                      (object_device object) in
  let? session_id := header_session fields in
  let? generation := header_generation fields in
  let? body := header_body object in
  Ok (mkUnpacked message_type (mkEnvelopeHeader session_id message_id device_id generation) body).

Definition unpack (frame : ControlFrame) : result Refusal Unpacked :=
  match frame_object frame with
  | Err error => Err (None, error)
  | Ok object => map_err (fun error => (object_device object, error)) (unpack_object object)
  end.

Definition decode (unpacked : Unpacked) : result Refusal Inbound :=
  let header := up_header unpacked in
  match from_wire (A:=MessageType) (up_type unpacked) with
  | None => Ok (In_Unknown (mkUnknownEnvelope (up_type unpacked) header))
  | Some known =>
      if negb (sent_by_device known) then
        Err (Some (eh_device_id header),
             mkProtocolError Pe_UnexpectedMessage (as_str known +:+ " is not a device message"))
      else
        match message_parse known (up_body unpacked) with
        | Ok message => Ok (In_Known (mkDeviceEnvelope header message))
        | Err error => Err (Some (eh_device_id header), error)
        end
  end.

Definition parse_envelope (frame : ControlFrame) : result ProtocolError Inbound :=
  map_err snd (let? unpacked := unpack frame in decode unpacked).

(** ** A session's first frame *)
Record HelloRequest := mkHelloRequest { hr_header : EnvelopeHeader; hr_hello : SessionHello }.
Record HelloRefused := mkHelloRefused { hf_device_id : option string; hf_error : ProtocolError }.

Definition parse_hello (frame : ControlFrame) : result HelloRefused HelloRequest :=
  let? inbound := map_err (fun r : Refusal => mkHelloRefused r.1 r.2)
                    (let? unpacked := unpack frame in decode unpacked) in
  let device_id := Some (eh_device_id (inbound_header inbound)) in
  let refuse := fun code detail => Err (mkHelloRefused device_id (mkProtocolError code detail)) in
  match inbound with
  | In_Known env =>
      match de_message env with
      | Dm_SessionHello hello =>
          let header := de_header env in
          match eh_session_id header with
          | Some session =>
              refuse Pe_WrongSession ("session.hello carries session_id " +:+ session)
          | None =>
              if negb (eh_generation header =? 0) then
                refuse Pe_MalformedMessage
                  ("session.hello generation " +:+ pretty (eh_generation header) +:+ " must be 0")
              else Ok (mkHelloRequest header hello)
          end
      | message => refuse Pe_UnexpectedMessage ("first message is " +:+ as_str (message_type message))
      end
  | In_Unknown env => refuse Pe_UnexpectedMessage ("first message is " +:+ un_message_type env)
  end.

(** ** Every later frame *)
Definition check_live_session (inbound : Inbound) (session device : string) : result ProtocolError unit :=
  let header := inbound_header inbound in
  if negb (bool_decide (eh_session_id header = Some session)) then
    Err (mkProtocolError Pe_WrongSession
           ("session_id " +:+ default "null" (eh_session_id header)))
  else if negb (String.eqb (eh_device_id header) device) then
    Err (mkProtocolError Pe_WrongDevice ("device_id " +:+ eh_device_id header))
  else
    match inbound with
    | In_Known env =>
        match de_message env with
        | Dm_SessionHello _ => Err (mkProtocolError Pe_UnexpectedMessage "session.hello on a live session")
        | _ => Ok tt
        end
    | In_Unknown _ => Ok tt
    end.
End envelope.

(** ** Encoding *)
Class ControlBody (B : Type) := {
  MESSAGE_TYPE : MessageType;
  body_value : B -> Value;
}.
Arguments MESSAGE_TYPE B {_}.

#[export] Instance ready_body : ControlBody SessionReady :=
  {| MESSAGE_TYPE := Mt_SessionReady; body_value := session_ready_value |}.
#[export] Instance rejected_body : ControlBody SessionRejected :=
  {| MESSAGE_TYPE := Mt_SessionRejected; body_value := session_rejected_value |}.
#[export] Instance heartbeat_body : ControlBody Heartbeat :=
  {| MESSAGE_TYPE := Mt_Heartbeat; body_value := heartbeat_value |}.
#[export] Instance clock_reply_body : ControlBody ClockReply :=
  {| MESSAGE_TYPE := Mt_ClockReply; body_value := clock_reply_value |}.
#[export] Instance command_ack_body : ControlBody CommandAck :=
  {| MESSAGE_TYPE := Mt_CommandAck; body_value := command_ack_value |}.
#[export] Instance protocol_error_body : ControlBody ProtocolError :=
  {| MESSAGE_TYPE := Mt_ProtocolError; body_value := protocol_error_value |}.

Record EncodedEnvelope := mkEncodedEnvelope { ee_message_id : string; ee_text : string }.

Inductive EncodeError :=
  | Xe_NotControllerMessage (message_type : MessageType)
  | Xe_Oversize (message_type : MessageType) (bytes : N)
  | Xe_Json (error : string).

Definition encode_error_display (e : EncodeError) : string :=
  match e with
  | Xe_NotControllerMessage t => as_str t +:+ " is not a controller message"
  | Xe_Oversize t bytes =>
      as_str t +:+ " of " +:+ pretty bytes +:+ " bytes exceeds the " +:+ pretty MAX_CONTROL_BYTES
      +:+ "-byte control limit"
  | Xe_Json err => "body does not serialize: " +:+ err
  end.

(** [WireEnvelope]: the fields in declaration order. *)
Definition wire_envelope (message_type : MessageType) (session_id : option string)
    (message_id device_id : string) (generation : N) (body : Value) : Value :=
  VObject [("protocol", nat_value PROTOCOL_VERSION); ("type", wire_value message_type);
           ("session_id", match session_id with Some id => VString id | None => VNull end);
           ("message_id", VString message_id); ("device_id", VString device_id);
           ("generation", nat_value generation); ("body", body)].

Definition encode_envelope `{SerdeJson} {B} `{ControlBody B} (fresh : string) (body : B)
    (session_id : option string) (device_id : string) (generation : N) : result EncodeError EncodedEnvelope :=
  let mt := MESSAGE_TYPE B in
  if negb (sent_by_controller mt) then Err (Xe_NotControllerMessage mt)
  else
    let? text := map_err Xe_Json
      (to_string (wire_envelope mt session_id fresh device_id generation (body_value body))) in
    if MAX_CONTROL_BYTES <? text_len text then Err (Xe_Oversize mt (text_len text))
    else Ok (mkEncodedEnvelope fresh text).

(** ** What an envelope must be *)
Definition is_protocol_1 (v : Value) : bool :=
  match v with VNumber (NInt 1) => true | _ => false end.

Definition envelope_schema : Schema :=
  Sc_Record [
    ("protocol", Required, Sc_That is_protocol_1);
    ("type", Required, Sc_Text nonempty_text);
    ("message_id", Required, Sc_Text nonempty_text);
    ("device_id", Required, Sc_Text nonempty_text);
    ("session_id", Nullable, Sc_Text any_text);
    ("generation", Required, Sc_Count u32_max);
    ("body", Required, Sc_That (fun v => bool_decide (is_Some (value_as_object v))))].

Section facts.
Context `{SerdeJson}.

Lemma check_protocol_accepts object :
  is_ok (check_protocol object)
    = in_record (mkFields object "envelope") "protocol" Required (Sc_That is_protocol_1).
Proof.
  unfold check_protocol, in_record, raw. cbn [fd_object].
  destruct (object_get "protocol" object) as [v|]; [|done]. cbn [field_conforms conforms orb].
  unfold is_protocol_1. rewrite <- is_one_value. by destruct (bool_decide _).
Qed.

Lemma device_accepts object rule :
  is_ok (ok_or (fields_error (mkFields object "envelope") "device_id" rule) (object_device object))
    = in_record (mkFields object "envelope") "device_id" Required (Sc_Text nonempty_text).
Proof.
  unfold object_device, in_record, raw, nonempty_text. cbn [fd_object].
  destruct (object_get "device_id" object) as [[| | |t| |]|]; try done. cbn.
  by destruct (String.eqb t "").
Qed.

Lemma header_session_accepts f :
  is_ok (header_session f) = in_record f "session_id" Nullable (Sc_Text any_text).
Proof. unfold header_session, in_record. by destruct (raw f "session_id") as [[]|]. Qed.

Lemma header_generation_accepts f :
  is_ok (header_generation f) = in_record f "generation" Required (Sc_Count u32_max).
Proof.
  unfold header_generation, in_record. destruct (raw f "generation") as [v|]; [|done].
  cbn [mbind option_bind field_conforms conforms orb].
  destruct (value_as_u64 v) as [g|]; [|done]. by destruct (g <=? u32_max).
Qed.

Lemma header_body_accepts object :
  is_ok (header_body object) = in_record (mkFields object "envelope") "body" Required
    (Sc_That (fun v => bool_decide (is_Some (value_as_object v)))).
Proof.
  unfold header_body, in_record, raw. cbn [fd_object]. by destruct (object_get "body" object) as [[]|].
Qed.

Lemma unpack_accepts object : is_ok (unpack_object object) = conforms envelope_schema (VObject object).
Proof.
  unfold unpack_object. solve_accepts "envelope".
  - apply check_protocol_accepts.
  - apply device_accepts.
  - apply header_session_accepts.
  - apply header_generation_accepts.
  - apply header_body_accepts.
Qed.

(** The code of a refused envelope: [unsupported_protocol] when its protocol is
    not 1, [malformed_message] otherwise. *)
Lemma unpack_code object e :
  unpack_object object = Err e ->
  pe_code e = if in_record (mkFields object "envelope") "protocol" Required (Sc_That is_protocol_1)
              then Pe_MalformedMessage else Pe_UnsupportedProtocol.
Proof.
  rewrite <- check_protocol_accepts. unfold unpack_object.
  destruct (check_protocol object) as [u|e'] eqn:E; cbn [is_ok].
  - revert e. change (refuses_malformed (let fields := mkFields object "envelope" in
      let? message_type := nonempty_string fields "type" in
      let? message_id := nonempty_string fields "message_id" in
      let? device_id := ok_or (fields_error fields "device_id" "must be a non-empty string")
                          (object_device object) in
      let? session_id := header_session fields in
      let? generation := header_generation fields in
      let? body := header_body object in
      Ok (mkUnpacked message_type (mkEnvelopeHeader session_id message_id device_id generation) body))).
    cbv zeta. unfold header_session, header_body, header_generation. solve_refuses; by intros ? [= <-].
  - intros [= <-]. revert E. unfold check_protocol. destruct (object_get _ _); [|by intros [= <-]].
    case_bool_decide; [done|by intros [= <-]].
Qed.

(** What an accepted envelope's header is: the fields as sent. *)
Lemma unpack_header object u :
  unpack_object object = Ok u ->
  object_get "type" object = Some (VString (up_type u)) /\
  object_get "message_id" object = Some (VString (eh_message_id (up_header u))) /\
  object_get "device_id" object = Some (VString (eh_device_id (up_header u))) /\
  object_get "session_id" object
    = Some (match eh_session_id (up_header u) with Some id => VString id | None => VNull end) /\
  (exists v, object_get "generation" object = Some v /\ value_as_u64 v = Some (eh_generation (up_header u))) /\
  object_get "body" object = Some (VObject (up_body u)).
Proof.
  unfold unpack_object. destruct (check_protocol object); [|done].
  destruct (nonempty_string _ "type") as [t|] eqn:Et; [|done].
  destruct (nonempty_string _ "message_id") as [m|] eqn:Em; [|done].
  apply nonempty_string_Ok in Et as [Et _], Em as [Em _]. unfold raw in *. cbn [fd_object] in *.
  destruct (object_device object) as [d|] eqn:Ed; cbn [ok_or]; [|done].
  destruct (header_session _) as [s|] eqn:Es; [|done].
  destruct (header_generation _) as [g|] eqn:Eg; [|done].
  destruct (header_body object) as [b|] eqn:Eb; [|done].
  intros [= <-]. cbn [up_type up_header up_body eh_session_id eh_message_id eh_device_id eh_generation].
  split_and!; [done|done|..].
  - unfold object_device in Ed. destruct (object_get "device_id" object) as [[| | |x| |]|]; try done.
    cbn in Ed. destruct (String.eqb x ""); by simplify_eq.
  - unfold header_session, raw in Es. cbn [fd_object] in Es.
    destruct (object_get "session_id" object) as [[]|]; by simplify_eq.
  - unfold header_generation, raw in Eg. cbn [fd_object] in Eg.
    destruct (object_get "generation" object) as [v|]; [|done]. exists v. split; [done|].
    cbn [mbind option_bind] in Eg. destruct (value_as_u64 v) as [n|]; [|done].
    destruct (n <=? u32_max); by simplify_eq/=.
  - unfold header_body in Eb. destruct (object_get "body" object) as [[]|]; by simplify_eq.
Qed.

(** What refuses the body of a message of each type; the bodies of the other types
    are kept as they are. *)
Definition refused_with {A} (r : result ProtocolError A) : option ProtocolErrorCode :=
  match r with Ok _ => None | Err error => Some (pe_code error) end.
Definition body_refusal (known : MessageType) (body : Object) : option ProtocolErrorCode :=
  match known with
  | Mt_SessionHello => refused_with (hello_parse body)
  | Mt_Heartbeat => refused_with (heartbeat_parse body)
  | Mt_ClockRequest => refused_with (clock_request_parse body)
  | Mt_CommandAck => refused_with (command_ack_parse body)
  | Mt_ProtocolError => refused_with (error_report_parse body)
  | Mt_StreamOpen => refused_with (stream_open_parse body)
  | Mt_StreamEnd => refused_with (stream_end_parse body)
  | Mt_UplinkEnded => refused_with (uplink_ended_parse body)
  | _ => None
  end.
Definition decoded_types : list MessageType :=
  [Mt_SessionHello; Mt_Heartbeat; Mt_ClockRequest; Mt_CommandAck; Mt_ProtocolError; Mt_StreamOpen; Mt_StreamEnd; Mt_UplinkEnded].
(** What the body of a message says: its own decoder's reading, or the body. *)
Definition body_says (body : Object) (m : DeviceMessage) : Prop :=
  match m with
  | Dm_SessionHello hello => hello_parse body = Ok hello
  | Dm_Heartbeat heartbeat => heartbeat_parse body = Ok heartbeat
  | Dm_ClockRequest request => clock_request_parse body = Ok request
  | Dm_CommandAck ack => command_ack_parse body = Ok ack
  | Dm_ProtocolError report => error_report_parse body = Ok report
  | Dm_StreamOpen open => stream_open_parse body = Ok open
  | Dm_StreamEnd e => stream_end_parse body = Ok e
  | Dm_UplinkEnded report => uplink_ended_parse body = Ok report
  | Dm_Other message_type kept => kept = body /\ message_type ∉ decoded_types
  end.
Lemma message_parse_says known body :
  match message_parse known body with
  | Ok m => body_refusal known body = None /\ message_type m = known /\ body_says body m
  | Err error => body_refusal known body = Some (pe_code error)
  end.
Proof.
  destruct known; cbn [message_parse body_refusal message_type body_says];
    first [ match goal with |- context [refused_with ?r] => destruct r as [m|e] eqn:Er; [|done]; by split_and! end
          | split_and!; [done|done|done|]; rewrite list_elem_of_In; cbn; intuition discriminate ].
Qed.

(** The first rule a device frame breaks. *)
Definition frame_refusal (frame : ControlFrame) : option ProtocolErrorCode :=
  match frame with
  | Cf_Binary _ => Some Pe_MalformedMessage
  | Cf_Text text =>
      if MAX_CONTROL_BYTES <? text_len text then Some Pe_Oversize
      else
        match from_str text with
        | Ok (VObject object) =>
            if negb (in_record (mkFields object "envelope") "protocol" Required (Sc_That is_protocol_1))
            then Some Pe_UnsupportedProtocol
            else if negb (conforms envelope_schema (VObject object)) then Some Pe_MalformedMessage
            else
              match object_get "type" object, object_get "body" object with
              | Some (VString name), Some (VObject body) =>
                  match from_wire (A:=MessageType) name with
                  | None => None
                  | Some known =>
                      if negb (sent_by_device known) then Some Pe_UnexpectedMessage
                      else body_refusal known body
                  end
              | _, _ => None
              end
        | _ => Some Pe_MalformedMessage
        end
  end.

(** The device a frame names, whenever it is an object of bounded size. *)
Definition frame_device (frame : ControlFrame) : option string :=
  match frame_object frame with Ok object => object_device object | Err _ => None end.

Lemma object_device_header object u :
  unpack_object object = Ok u -> object_device object = Some (eh_device_id (up_header u)).
Proof.
  unfold unpack_object. destruct (check_protocol object); [|done].
  destruct (nonempty_string _ "type"); [|done]. destruct (nonempty_string _ "message_id"); [|done].
  destruct (object_device object) as [d|]; cbn [ok_or]; [|done].
  destruct (header_session _); [|done]. destruct (header_generation _); [|done].
  destruct (header_body object); [|done]. by intros [= <-].
Qed.

Lemma frame_decoded frame :
  match (let? unpacked := unpack frame in decode unpacked) with
  | Ok inbound =>
      frame_refusal frame = None /\
      frame_device frame = Some (eh_device_id (inbound_header inbound)) /\
      exists object u, frame_object frame = Ok object /\ unpack_object object = Ok u /\
        inbound_header inbound = up_header u /\ decode u = Ok inbound
  | Err (device, error) =>
      frame_refusal frame = Some (pe_code error) /\ device = frame_device frame
  end.
Proof.
  unfold unpack, frame_device.
  assert (Hobj : match frame_object frame with
    | Ok object => exists text, frame = Cf_Text text /\ (MAX_CONTROL_BYTES <? text_len text) = false /\
        from_str text = Ok (VObject object)
    | Err error => frame_refusal frame = Some (pe_code error) end).
  { unfold frame_object, frame_refusal. destruct frame as [text|]; [|done].
    destruct (MAX_CONTROL_BYTES <? text_len text) eqn:El; [done|].
    destruct (from_str text) as [[]|] eqn:Ej; try done. by exists text. }
  destruct (frame_object frame) as [object|error] eqn:Ef; cbn [map_err]; [|done].
  destruct Hobj as (text & -> & Hlen & Hjson). unfold frame_refusal. rewrite Hlen, Hjson.
  rewrite <- unpack_accepts. pose proof (check_protocol_accepts object) as Hp.
  destruct (unpack_object object) as [u|error] eqn:Eu; cbn [map_err is_ok negb].
  - assert (Hok : is_ok (check_protocol object) = true).
    { revert Eu. unfold unpack_object. by destruct (check_protocol object). }
    rewrite Hok in Hp. rewrite <- Hp. cbn [negb].
    pose proof (unpack_header object u Eu) as (-> & _ & _ & _ & _ & ->).
    pose proof (object_device_header object u Eu) as Hd. unfold decode.
    destruct (from_wire (up_type u)) as [known|] eqn:Ek.
    2:{ split_and!; [done|done|]. exists object, u. rewrite Ek. by split_and!. }
    destruct (sent_by_device known) eqn:Es; cbn [negb]; [|by rewrite Hd].
    pose proof (message_parse_says known (up_body u)) as Hm.
    destruct (message_parse known (up_body u)) as [m|e] eqn:Em; [|by rewrite Hd].
    destruct Hm as [-> _]. split_and!; [done|done|]. exists object, u. rewrite Ek, Es. cbn [negb]. by rewrite Em.
  - apply unpack_code in Eu. rewrite Eu. by destruct (in_record _ _ _ _).
Qed.

(** A decoded message is of the type the frame names and says what its body says. *)
Lemma decode_says u inbound :
  decode u = Ok inbound ->
  match inbound with
  | In_Known env =>
      up_type u = as_str (message_type (de_message env)) /\ sent_by_device (message_type (de_message env)) = true /\
      body_says (up_body u) (de_message env)
  | In_Unknown env => up_type u = un_message_type env /\ from_wire (A:=MessageType) (un_message_type env) = None
  end.
Proof.
  unfold decode. destruct (from_wire (up_type u)) as [known|] eqn:Ek; [|by intros [= <-]].
  destruct (sent_by_device known) eqn:Es; cbn [negb]; [|done]. pose proof (message_parse_says known (up_body u)) as Hm.
  destruct (message_parse known (up_body u)) as [m|]; [|done]. intros [= <-]. cbn [de_message].
  destruct Hm as (_ & Ht & Hb). rewrite Ht. split_and!; [|done|done]. by apply from_wire_Some in Ek.
Qed.

(** C34: A device frame is refused with the code of the first rule it breaks - a
    binary frame, one over 256 KiB, text that is no JSON object, another protocol, a
    field missing or of the wrong type, a type only the controller sends, a body the
    decoder of its type refuses.  Otherwise its message id, device, session,
    generation and type are those of the frame; a known type is one the device
    sends, and its message is what the decoder of that very type reads in the body,
    or the body itself where the type has no decoder. *)
Theorem envelope_contract frame :
  match parse_envelope frame with
  | Ok inbound =>
      let header := inbound_header inbound in
      frame_refusal frame = None /\
      exists object, frame_object frame = Ok object /\
        object_get "message_id" object = Some (VString (eh_message_id header)) /\
        object_get "device_id" object = Some (VString (eh_device_id header)) /\
        object_get "session_id" object
          = Some (match eh_session_id header with Some id => VString id | None => VNull end) /\
        (exists v, object_get "generation" object = Some v /\ value_as_u64 v = Some (eh_generation header)) /\
        match inbound with
        | In_Known env =>
            object_get "type" object = Some (VString (as_str (message_type (de_message env)))) /\
            sent_by_device (message_type (de_message env)) = true /\
            exists body, object_get "body" object = Some (VObject body) /\ body_says body (de_message env)
        | In_Unknown env =>
            object_get "type" object = Some (VString (un_message_type env)) /\
            from_wire (A:=MessageType) (un_message_type env) = None
        end
  | Err error => frame_refusal frame = Some (pe_code error)
  end.
Proof.
  pose proof (frame_decoded frame) as Hf. unfold parse_envelope.
  destruct (let? _ := _ in _) as [inbound|[device error]]; cbn [map_err snd]; [|by destruct Hf].
  destruct Hf as (Hr & _ & object & u & Ho & Hu & Hh & Hd). rewrite Hh. split; [done|]. exists object.
  pose proof (unpack_header object u Hu) as (Ht & ? & ? & ? & ? & Hb). split_and!; [done..|].
  apply decode_says in Hd. destruct inbound as [env|env].
  - destruct Hd as (Et & Hs & Hm). rewrite <- Et. split_and!; [done|done|]. by exists (up_body u).
  - destruct Hd as [<- Hn]. by split.
Qed.

(** The first frame of a session is accepted exactly when it is a
    well-formed [session.hello] with a null session and generation 0; and a
    refused one is always reported against the device its frame named, so the
    refusal can be recorded, with the code of what it broke. *)
Theorem hello_contract frame :
  match parse_hello frame with
  | Ok r =>
      parse_envelope frame = Ok (In_Known (mkDeviceEnvelope (hr_header r) (Dm_SessionHello (hr_hello r)))) /\
      eh_session_id (hr_header r) = None /\ eh_generation (hr_header r) = 0
  | Err r =>
      hf_device_id r = frame_device frame /\
      (forall h hello,
         parse_envelope frame = Ok (In_Known (mkDeviceEnvelope h (Dm_SessionHello hello))) ->
         (eh_session_id h <> None /\ pe_code (hf_error r) = Pe_WrongSession) \/
         (eh_session_id h = None /\ eh_generation h <> 0 /\ pe_code (hf_error r) = Pe_MalformedMessage)) /\
      (forall inbound, parse_envelope frame = Ok inbound ->
         (forall h hello, inbound <> In_Known (mkDeviceEnvelope h (Dm_SessionHello hello))) ->
         pe_code (hf_error r) = Pe_UnexpectedMessage) /\
      (forall error, parse_envelope frame = Err error -> hf_error r = error)
  end.
Proof.
  pose proof (frame_decoded frame) as Hf. unfold parse_hello, parse_envelope.
  destruct (let? _ := _ in _) as [inbound|[device error]]; cbn [map_err fst snd].
  2:{ split_and!; cbn; [by destruct Hf|done|done|by intros ? [= ->]]. }
  destruct Hf as (_ & Hd & _). rewrite Hd. destruct inbound as [[h m]|u]; cbn [de_message de_header inbound_header].
  2:{ split_and!; by intros. }
  destruct m; try by (split_and!; intros; simplify_eq).
  destruct (eh_session_id h) as [session|] eqn:Es.
  { split_and!; [done|intros ? ? [= <- <-]; left; by rewrite Es| |done].
    intros ? [= <-] Hn. by destruct (Hn h hello). }
  destruct (N.eqb_spec (eh_generation h) 0) as [Hg|Hg]; cbn [negb]; [done|].
  split_and!; [done|intros ? ? [= <- <-]; by right| |done].
  intros ? [= <-] Hn. by destruct (Hn h hello).
Qed.

(** A frame of a live session passes exactly when it names that session and
    that device and is no second hello; otherwise the first of the three that
    fails gives the code.  Frames of unknown types are held to it too. *)
Theorem live_session_contract inbound session device :
  (check_live_session inbound session device = Ok tt <->
     eh_session_id (inbound_header inbound) = Some session /\
     eh_device_id (inbound_header inbound) = device /\
     forall h hello, inbound <> In_Known (mkDeviceEnvelope h (Dm_SessionHello hello))) /\
  forall e, check_live_session inbound session device = Err e ->
    pe_code e = if bool_decide (eh_session_id (inbound_header inbound) = Some session) then
                  if String.eqb (eh_device_id (inbound_header inbound)) device then Pe_UnexpectedMessage
                  else Pe_WrongDevice
                else Pe_WrongSession.
Proof.
  unfold check_live_session. case_bool_decide as Hs; cbn [negb].
  2:{ split; [naive_solver|by intros e [= <-]]. }
  destruct (String.eqb_spec (eh_device_id (inbound_header inbound)) device) as [Hd|Hd]; cbn [negb].
  2:{ split; [naive_solver|by intros e [= <-]]. }
  destruct inbound as [[h []]|]; cbn [de_message]; (split; [split; [|naive_solver]; intros E|]); try done;
    try (by intros e [= <-]); split_and!; done.
Qed.

(** ** Encoding *)
Lemma encoded_ok {B} `{ControlBody B} fresh (body : B) session device generation e :
  encode_envelope fresh body session device generation = Ok e ->
  sent_by_controller (MESSAGE_TYPE B) = true /\
  to_string (wire_envelope (MESSAGE_TYPE B) session fresh device generation (body_value body)) = Ok (ee_text e) /\
  text_len (ee_text e) <= MAX_CONTROL_BYTES /\ ee_message_id e = fresh.
Proof.
  unfold encode_envelope. destruct (sent_by_controller _); cbn [negb]; [|done].
  destruct (to_string _) as [text|]; cbn [map_err]; [|done].
  destruct (N.ltb_spec MAX_CONTROL_BYTES (text_len text)); [done|]. by intros [= <-].
Qed.

(** The wire envelope of an object body, read back field by field. *)
Lemma wire_envelope_unpacks mt session fresh device generation entries :
  fresh <> "" -> device <> "" -> generation <= u32_max ->
  exists object, canonical (wire_envelope mt session fresh device generation (VObject entries)) = VObject object /\
    unpack_object object
      = Ok (mkUnpacked (as_str mt) (mkEnvelopeHeader session fresh device generation) (canonical_entries entries)).
Proof.
  intros Hf Hd Hg. unfold wire_envelope. rewrite canonical_object. eexists. split; [reflexivity|].
  unfold unpack_object, check_protocol, nonempty_string, object_device, header_session, header_generation,
    header_body, raw. cbn [fd_object].
  read_written. cbn [wire_value canonical nat_value mbind option_bind value_as_str].
  rewrite bool_decide_eq_true_2 by done.
  destruct (String.eqb_spec (as_str mt) "") as [E|_]; [by destruct mt|].
  destruct (String.eqb_spec fresh ""); [done|]. destruct (String.eqb_spec device ""); [done|]. cbn [ok_or].
  assert (Hu : value_as_u64 (VNumber (NInt (Z.of_N generation))) = Some generation).
  { unfold value_as_u64. rewrite N2Z.id. destruct (_ && _)%Z eqn:E; [done|].
    apply andb_false_iff in E. rewrite !Z.leb_gt in E. unfold u32_max, u64_max in *. lia. }
  rewrite Hu. destruct (N.leb_spec generation u32_max); [|lia]. by destruct session.
Qed.

Lemma echoed {B} `{ControlBody B} fresh (body : B) session device generation e entries :
  encode_envelope fresh body session device generation = Ok e ->
  fresh <> "" -> device <> "" -> generation <= u32_max -> body_value body = VObject entries ->
  from_str (ee_text e)
    = Ok (canonical (wire_envelope (MESSAGE_TYPE B) session fresh device generation (body_value body))) ->
  parse_envelope (Cf_Text (ee_text e)) =
  map_err snd (decode (mkUnpacked (as_str (MESSAGE_TYPE B)) (mkEnvelopeHeader session fresh device generation)
                        (canonical_entries entries))).
Proof.
  intros (_ & _ & Hl & _)%encoded_ok Hf Hd Hg -> Hj.
  destruct (wire_envelope_unpacks (MESSAGE_TYPE B) session fresh device generation entries Hf Hd Hg)
    as (object & Ho & Hu).
  unfold parse_envelope, unpack, frame_object. rewrite Hj, Ho.
  destruct (N.ltb_spec MAX_CONTROL_BYTES (text_len (ee_text e))); [lia|]. by rewrite Hu.
Qed.

(** C36: What [encode_envelope] returns is never over the limit, carries the
    fresh id and is of a type the controller sends.  Read back by the
    controller's own parser, JSON to JSON, a heartbeat and an acknowledgement -
    the bodies that travel both ways - return with their header, and every
    message only the controller sends is refused as [unexpected_message]. *)
Theorem encoded_frames {B} `{ControlBody B} fresh (body : B) session device generation e :
  encode_envelope fresh body session device generation = Ok e ->
  text_len (ee_text e) <= MAX_CONTROL_BYTES /\ ee_message_id e = fresh /\
  sent_by_controller (MESSAGE_TYPE B) = true /\
  (fresh <> "" -> device <> "" -> generation <= u32_max ->
   forall entries, body_value body = VObject entries ->
   from_str (ee_text e)
     = Ok (canonical (wire_envelope (MESSAGE_TYPE B) session fresh device generation (body_value body))) ->
   let header := mkEnvelopeHeader session fresh device generation in
   let parsed := parse_envelope (Cf_Text (ee_text e)) in
   (forall h, MESSAGE_TYPE B = Mt_Heartbeat -> body_value body = heartbeat_value h -> hb_mono_ns h <= u64_max ->
      parsed = Ok (In_Known (mkDeviceEnvelope header (Dm_Heartbeat h)))) /\
   (forall a, MESSAGE_TYPE B = Mt_CommandAck -> body_value body = command_ack_value a -> ca_message_id a <> "" ->
      parsed = Ok (In_Known (mkDeviceEnvelope header (Dm_CommandAck a)))) /\
   (sent_by_device (MESSAGE_TYPE B) = false ->
      exists detail, parsed = Err (mkProtocolError Pe_UnexpectedMessage detail))).
Proof.
  intros He. pose proof (encoded_ok _ _ _ _ _ _ He) as (Hs & _ & Hl & Hm).
  split_and!; [done..|]. intros Hf Hd Hg entries Hb Hj. cbv zeta.
  rewrite (echoed _ _ _ _ _ _ entries He Hf Hd Hg Hb Hj). unfold decode. cbn [up_type up_header up_body].
  rewrite from_wire_as_str. split_and!.
  - intros h -> Hh Hn. cbn [sent_by_device negb message_parse].
    rewrite (heartbeat_reads (canonical_entries entries) h Hn); [done|].
    rewrite <- canonical_object. congruence.
  - intros a -> Ha Hn. cbn [sent_by_device negb message_parse].
    rewrite (command_ack_reads (canonical_entries entries) a Hn); [done|].
    rewrite <- canonical_object. congruence.
  - intros ->. cbn [negb map_err snd]. by eexists.
Qed.
End facts.

Definition sample_beat : Heartbeat := mkHeartbeat 7.
#[local] Instance one_frame : SerdeJson := {
  from_str _ := Ok (canonical (wire_envelope Mt_Heartbeat (Some "s") "m" "G090XX" 3 (heartbeat_value sample_beat)));
  to_string _ := Ok "{}"; value_to_string _ := "";
}.

Lemma encoded_frames_witness :
  parse_envelope (Cf_Text "{}")
    = Ok (In_Known (mkDeviceEnvelope (mkEnvelopeHeader (Some "s") "m" "G090XX" 3) (Dm_Heartbeat sample_beat))).
Proof.
  assert (He : encode_envelope "m" sample_beat (Some "s") "G090XX" 3 = Ok (mkEncodedEnvelope "m" "{}"))
    by (vm_compute; reflexivity).
  destruct (encoded_frames "m" sample_beat (Some "s") "G090XX" 3 _ He) as (_ & _ & _ & Hread).
  destruct (Hread ltac:(done) ltac:(done) ltac:(cbn; unfold u32_max; lia) _ eq_refl eq_refl) as (Hbeat & _ & _).
  by apply Hbeat.
Defined.
