(* ===== verification/UplinkLog.v ===== *)
(** * What a session delivers

    A specification of the uplink by its delivery log, and the refinement: every
    operation of [Uplink.v] is a sequence of four effects on the subscriptions
    and the queue ([step_effects]).  From the effects alone follow the promises
    the consumers of the audio rely on: each subscription opened is either live
    or has exactly one end notice, the notice is its last delivery, and the
    audio of a stream comes without a hole or an overlap. *)
From S2P Require Import Prelude Bytes WireEnum Ema Vocab Streams Clock Blocks Buffer Timeline Delivery Cursor Uplink UplinkInv UplinkReach.

(** ** The specification: four effects on (subscriptions, queue) *)

(** A cursor without a position that may still be given one. *)
Definition unplaced (c : Cursor) : Prop :=
  cu_mode c = AwaitLive \/ (cu_mode c = AwaitClaim /\ forall n, cu_start c <> Ss_At n).
Definition cursor_fresh (c : Cursor) : Prop := unplaced c -> cu_pos c = None.

(** A cursor moves: from its position over [chunks], or to its first position. *)
Definition cursor_moves (c : Cursor) (chunks : list Chunk) (c' : Cursor) : Prop :=
  cu_epoch c' = cu_epoch c /\ Forall (fun ck => ck_epoch ck = cu_epoch c) chunks /\
  (cursor_fresh c -> cursor_fresh c' /\
    match cu_pos c with
    | Some pos => exists pos', cu_pos c' = Some pos' /\ chunks_from pos chunks pos'
    | None =>
        chunks = [] \/ exists pos pos', cu_pos c' = Some pos' /\ chunks_from pos chunks pos'
    end).

Definition want_advances (id : SubscriptionId) (w : Want) (chunks : list Chunk) (w' : Want) : Prop :=
  wt_stream w' = wt_stream w /\
  Forall (fun ck => ck_subscription ck = id /\ ck_stream ck = wt_stream w) chunks /\
  (wt_stream w <> Reference -> threads cursor_moves (wt_cursors w) chunks (wt_cursors w')).

Definition sub_advances (s : Sub) (chunks : list Chunk) (s' : Sub) : Prop :=
  sb_id s' = sb_id s /\ threads (want_advances (sb_id s)) (sb_wants s) chunks (sb_wants s').

(** What an opened subscription starts with: one want per stream and a cursor
    that owes nothing from before its start. *)
Definition sub_fresh (s : Sub) : Prop :=
  NoDup (wt_stream <$> sb_wants s) /\
  Forall (fun w => (length (wt_cursors w) <= 1)%nat /\ Forall cursor_fresh (wt_cursors w)) (sb_wants s).

Definition ended_as (cause : EndCause) (s : Sub) : Delivery :=
  Dl_Ended (mkEnded (sb_id s) (sb_owner s) (sb_reason s) (sb_generation s) cause).

Definition without_chunks (id : SubscriptionId) (q : list Delivery) : list Delivery :=
  retain (fun d => negb (bool_decide (delivery_subscription d = id)) || is_ended d) q.

Definition state : Type := list Sub * list Delivery.

(** Audio and positions advance; one subscription ends, its undelivered chunks
    discarded or not; every subscription ends in silence; one opens. *)
Inductive effect : state -> list SubscriptionId -> state -> Prop :=
  | Ef_Advance subs chunks subs' q :
      threads sub_advances subs chunks subs' ->
      effect (subs, q) [] (subs', q ++ (Dl_Chunk <$> chunks))
  | Ef_End subs i s q cause (discard : bool) :
      subs !! i = Some s ->
      effect (subs, q) []
        (remove_at i subs, (if discard then without_chunks (sb_id s) q else q) ++ [ended_as cause s])
  | Ef_Silence subs q cause :
      effect (subs, q) [] ([], retain is_ended q ++ (ended_as cause <$> subs))
  | Ef_Open subs s q :
      sub_fresh s -> effect (subs, q) [sb_id s] (subs ++ [s], q).

Inductive effects : state -> list SubscriptionId -> state -> Prop :=
  | effects_nil st : effects st [] st
  | effects_cons st1 o1 st2 o2 st3 :
      effect st1 o1 st2 -> effects st2 o2 st3 -> effects st1 (o1 ++ o2) st3.

Lemma effects_one st o st' : effect st o st' -> effects st o st'.
Proof. intros H. rewrite <- (app_nil_r o). econstructor; [exact H|constructor]. Qed.

Lemma effects_trans st1 o1 st2 o2 st3 :
  effects st1 o1 st2 -> effects st2 o2 st3 -> effects st1 (o1 ++ o2) st3.
Proof.
  intros H. revert o2. induction H as [|st o st' o' st'' H _ IH]; intros o2 H2; [done|].
  rewrite <- app_assoc. econstructor; [exact H|by apply IH].
Qed.

Lemma effects_trans_nil st1 st2 o st3 : effects st1 [] st2 -> effects st2 o st3 -> effects st1 o st3.
Proof. apply (effects_trans st1 [] st2 o st3). Qed.

(** What the specification sees of an uplink. *)
Definition seen (u : Uplink) : state := (up_subs u, ob_queue (up_outbox u)).

Lemma push_chunks_queue o chunks : ob_queue (push_chunks o chunks) = ob_queue o ++ (Dl_Chunk <$> chunks).
Proof.
  unfold push_chunks. revert o. induction chunks as [|ck chunks IH]; intros o; cbn [foldl fmap list_fmap].
  - by rewrite app_nil_r.
  - rewrite IH, push_queue, <- app_assoc. done.
Qed.

(** ** The uplink's operations are effects *)

(** *** Cursor moves *)
Lemma cursor_moves_refl c : cursor_moves c [] c.
Proof.
  split_and!; [done|constructor|]. intros Hf. split; [done|]. destruct (cu_pos c); [by eexists|by left].
Qed.

Lemma chunks_from_app pos l1 mid l2 end_ :
  chunks_from pos l1 mid -> chunks_from mid l2 end_ -> chunks_from pos (l1 ++ l2) end_.
Proof.
  revert pos. induction l1 as [|ck l1 IH]; intros pos; cbn; [by intros ->|].
  intros (? & ? & ?) ?. split_and!; auto.
Qed.

Lemma cursor_moves_trans c1 l1 c2 l2 c3 :
  cursor_moves c1 l1 c2 -> cursor_moves c2 l2 c3 -> cursor_moves c1 (l1 ++ l2) c3.
Proof.
  intros (He1 & Hc1 & H1) (He2 & Hc2 & H2). split_and!; [congruence| |].
  - apply Forall_app. split; [done|]. eapply Forall_impl; [exact Hc2|]. intros ck. by rewrite He1.
  - intros Hf. destruct (H1 Hf) as [Hf2 Hp1]. destruct (H2 Hf2) as [Hf3 Hp2]. split; [done|].
    destruct (cu_pos c1) as [p1|].
    + destruct Hp1 as (p2 & Hp & Hl1). rewrite Hp in Hp2. destruct Hp2 as (p3 & ? & ?).
      exists p3. split; [done|]. by eapply chunks_from_app.
    + destruct Hp1 as [->|(p1 & p2 & Hp & Hl1)].
      * destruct (cu_pos c2) as [p2|]; [|done]. destruct Hp2 as (p3 & ? & ?). right. by exists p2, p3.
      * rewrite Hp in Hp2. destruct Hp2 as (p3 & ? & ?). right. exists p1, p3. split; [done|].
        by eapply chunks_from_app.
Qed.

(** A move that keeps the position. *)
Lemma cursor_moves_same c c' :
  cu_epoch c' = cu_epoch c -> cu_pos c' = cu_pos c -> (cursor_fresh c -> unplaced c' -> unplaced c) ->
  cursor_moves c [] c'.
Proof.
  intros He Hp Hu. split_and!; [done|constructor|]. intros Hf. split.
  - intros Hup. rewrite Hp. by apply Hf, Hu.
  - destruct (cu_pos c); [by eexists|by left].
Qed.

(** A first position. *)
Lemma cursor_moves_first c c' :
  cu_epoch c' = cu_epoch c -> unplaced c -> cu_mode c' = Ordered -> cursor_moves c [] c'.
Proof.
  intros He Hu Hm. split_and!; [done|constructor|]. intros Hf. split.
  - unfold cursor_fresh, unplaced. rewrite Hm. intros [?|[? _]]; done.
  - rewrite (Hf Hu). by left.
Qed.

Lemma settle_moves to_ cause c : cursor_moves c [] (settle to_ cause c).
Proof. unfold settle. destruct (_ <? _); [by apply cursor_moves_same|apply cursor_moves_refl]. Qed.

Lemma ordered_moves c : cursor_moves c [] (set_mode Ordered c).
Proof. apply cursor_moves_same; [done|done|]. intros _ [?|[? _]]; done. Qed.

Lemma attribute_moves a stream c : cursor_moves c [] (attribute a stream c).
Proof.
  unfold attribute. case_bool_decide as Hm; cbn [negb]; [|apply cursor_moves_refl].
  destruct a as [start|], (cu_start c) as [requested| |] eqn:Es;
    try apply ordered_moves; try (apply cursor_moves_first; [done| |done]; right; by split; [|intros; rewrite Es]).
  - rewrite <- (app_nil_r []). eapply cursor_moves_trans; [|apply ordered_moves].
    destruct (_ <? _); [apply settle_moves|apply cursor_moves_refl].
  - apply cursor_moves_same; [done|done|]. intros _ _. right. split; [done|]. intros n. by rewrite Es.
  - apply cursor_moves_same; [done|done|]. intros _ _. right. split; [done|]. intros n. by rewrite Es.
Qed.

Lemma on_packet_moves path first own stream c : cursor_moves c [] (on_packet path first own stream c).
Proof.
  unfold on_packet. destruct (cu_mode c) eqn:Em; [apply cursor_moves_refl| |].
  - case_bool_decide; [|apply cursor_moves_refl]. apply cursor_moves_first; [done|by left|done].
  - destruct (_ || _); [|apply cursor_moves_refl]. destruct (cu_pos c); [|apply cursor_moves_refl].
    destruct (_ <? _); [apply settle_moves|apply cursor_moves_refl].
Qed.

Lemma report_cursor_moves last clipped c : cursor_moves c [] (report_cursor last clipped c).
Proof.
  unfold report_cursor. set (c0 := set_target _ c).
  assert (H0 : cursor_moves c [] c0) by by apply cursor_moves_same. clearbody c0.
  destruct clipped as [x|]; [|done]. apply (cursor_moves_trans c [] c0 [] _ H0).
  destruct (cu_pos c0) as [pos|] eqn:Ep.
  - apply (cursor_moves_trans _ [] (settle x Mc_Clipped c0) []); [apply settle_moves|apply ordered_moves].
  - split_and!; [done|constructor|]. intros _. split; [|rewrite Ep; by left]. intros [?|[? _]]; done.
Qed.

Lemma cursor_released_moves source config now over s c chunks c' :
  cu_epoch c = sr_epoch source -> cursor_released source config now over s c chunks c' ->
  cursor_moves c chunks c' /\
  Forall (fun ck => ck_subscription ck = sb_id s /\ ck_stream ck = sr_stream source) chunks.
Proof.
  intros He. unfold cursor_released. destruct (cu_pos c) as [pos|] eqn:Ep.
  - intros (o & o' & w & Hr & _). pose proof (released_ids _ _ _ _ _ _ _ _ _ _ _ _ Hr) as Hids.
    destruct Hr as [(pos' & Hp & Hch & _) _ _ (H1 & H2 & H3 & _)]. split.
    + split_and!; [done| |].
      * eapply Forall_impl; [exact Hids|]. intros ck (_ & _ & ->). done.
      * intros Hf. split; [|rewrite Ep; by eexists]. intros Hu. exfalso.
        assert (cu_pos c = None) as Hn; [|congruence]. apply Hf.
        unfold unplaced in *. by rewrite H2, H3 in Hu.
    + eapply Forall_impl; [exact Hids|]. by intros ck (? & ? & _).
  - intros [-> ->]. split; [apply cursor_moves_refl|constructor].
Qed.

(** *** Subscriptions advance *)
Lemma threads_Forall_out {A B} (R : A -> list B -> A -> Prop) (P : B -> Prop) xs bs xs' :
  (forall x b x', R x b x' -> Forall P b) -> threads R xs bs xs' -> Forall P bs.
Proof. intros HR. induction 1; [constructor|]. apply Forall_app. eauto. Qed.

Definition moves_advance (R : Moves) : Prop :=
  forall over s stream c chunks c', R over s stream c chunks c' ->
  cursor_moves c chunks c' /\ Forall (fun ck => ck_subscription ck = sb_id s /\ ck_stream ck = stream) chunks.

Lemma sub_moves_advance R s chunks s' : moves_advance R -> sub_moves R s chunks s' -> sub_advances s chunks s'.
Proof.
  intros HR [(_ & Hid & _) Hw]. split; [done|]. eapply threads_impl; [|exact Hw].
  intros w cks w' _ [Hst Hcs]. split_and!; [done| |].
  - eapply threads_Forall_out; [|exact Hcs]. intros c b c' Hm. exact (proj2 (HR _ _ _ _ _ _ Hm)).
  - intros _. eapply threads_impl; [|exact Hcs]. intros c b c' _ Hm. exact (proj1 (HR _ _ _ _ _ _ Hm)).
Qed.

Lemma quiet_advance tl config now :
  timeline_wf tl -> tracks_bounded tl -> moves_advance (quiet tl config now).
Proof.
  intros H1 H2 over s stream c chunks c'. unfold quiet.
  destruct (source_of _ _ _ _) as [source|] eqn:Es.
  - destruct (source_of_wf _ _ _ _ _ H1 H2 Es) as (_ & <- & He). by apply cursor_released_moves.
  - intros [-> ->]. split; [apply cursor_moves_refl|constructor].
Qed.

Lemma on_arrival_advance source path first config now : moves_advance (on_arrival source path first config now).
Proof.
  intros over s stream c chunks c' [[-> ->]|(-> & He & H)].
  - split; [apply cursor_moves_refl|constructor].
  - apply cursor_released_moves in H as [H1 H2].
    + split; [|done]. eapply (cursor_moves_trans c [] _ chunks); [apply on_packet_moves|exact H1].
    + rewrite <- He. apply on_packet_keeps.
Qed.

Lemma given_up_advance : moves_advance given_up.
Proof.
  intros over s stream c chunks c' [[-> ->]|(pos & target & Hp & Ht & Hlt & -> & ->)].
  - split; [apply cursor_moves_refl|constructor].
  - split; [|by repeat constructor]. split_and!; [done|by repeat constructor|]. intros Hf. split.
    + intros Hu. specialize (Hf Hu). congruence.
    + rewrite Hp. exists target. by split_and!.
Qed.

Lemma sub_advances_refl s : sub_advances s [] s.
Proof.
  split; [done|]. apply threads_refl. intros w _. split_and!; [done|constructor|]. intros _.
  apply threads_refl. intros c _. apply cursor_moves_refl.
Qed.

Lemma ref_ended_advances s chunks s' : ref_ended Reference s chunks s' -> sub_advances s chunks s'.
Proof.
  intros [(_ & Hid & _) Hw]. split; [done|]. eapply threads_impl; [|exact Hw].
  intros w cks w' _ (Hst & _ & Hids & Hne). destruct (decide (wt_stream w = Reference)) as [He|Hn].
  - split_and!; [done|by rewrite He|done].
  - destruct (Hne Hn) as [-> ->]. split_and!; [done|constructor|]. intros _. apply threads_refl.
    intros c _. apply cursor_moves_refl.
Qed.

(** Wants rewritten with no audio released. *)
Lemma quietly_advances s s' :
  sb_id s' = sb_id s -> Forall2 (fun w w' => want_advances (sb_id s) w [] w') (sb_wants s) (sb_wants s') ->
  sub_advances s [] s'.
Proof.
  intros Hid Hw. split; [done|]. induction Hw as [|w w' ws ws' Hw _ IH]; [constructor|].
  by apply (threads_cons _ w [] w' ws [] ws').
Qed.

Lemma quiet_threads {A B} (R : A -> list B -> A -> Prop) xs xs' :
  Forall2 (fun x x' => R x [] x') xs xs' -> threads R xs [] xs'.
Proof. induction 1 as [|x x' xs xs' H _ IH]; [constructor|]. by apply (threads_cons _ x [] x' xs [] xs'). Qed.

Lemma Forall2_update_first {A} (R : A -> A -> Prop) p f l :
  (forall x, R x x) -> (forall x, p x = true -> R x (f x)) -> Forall2 R l (update_first p f l).
Proof.
  intros Hr Hf. assert (Hl : forall l, Forall2 R l l) by (induction l0; constructor; auto).
  induction l as [|x l IH]; cbn; [constructor|]. destruct (p x) eqn:E; constructor; auto.
Qed.

Lemma Forall2_update_last {A} (R : A -> A -> Prop) f (l : list A) :
  (forall x, R x x) -> (forall x, R x (f x)) -> Forall2 R l (update_last f l).
Proof.
  intros Hr Hf. induction l as [|x [|y l] IH]; cbn; [constructor|by repeat constructor|by constructor].
Qed.

Lemma want_advances_refl id w : want_advances id w [] w.
Proof.
  split_and!; [done|constructor|]. intros _. apply threads_refl. intros c _. apply cursor_moves_refl.
Qed.

Lemma update_cursor_advances id wants stream epoch f :
  (forall c, cursor_moves c [] (f c)) ->
  Forall2 (fun w w' => want_advances id w [] w') wants (update_cursor wants stream epoch f).
Proof.
  intros Hf. apply Forall2_update_first; [apply want_advances_refl|]. intros w _.
  split_and!; [done|constructor|]. intros _. apply quiet_threads, Forall2_update_first; [|auto].
  intros c. apply cursor_moves_refl.
Qed.

Lemma tell_advances stream epoch told subs :
  Forall2 (fun s s' => sub_advances s [] s') subs (tell_attribution stream epoch subs told).
Proof.
  apply Forall2_update_first; [apply sub_advances_refl|]. intros s _. apply quietly_advances; [done|].
  apply update_cursor_advances. intros c. apply attribute_moves.
Qed.

Lemma begin_drain_advances report deadline s : sub_advances s [] (begin_drain report deadline s).
Proof.
  apply quietly_advances; [done|]. cbn. induction (sb_wants s) as [|w ws IH]; constructor; [|done].
  split_and!; [done|constructor|]. intros _. apply quiet_threads, Forall2_update_last.
  - intros c. apply cursor_moves_refl.
  - intros c. apply report_cursor_moves.
Qed.

Lemma open_reference_advances epoch s : sub_advances s [] (open_reference epoch s).
Proof.
  unfold open_reference. destruct (is_active _); [|apply sub_advances_refl].
  destruct (find_first _ _) as [w0|]; [|apply sub_advances_refl].
  destruct (any _ _); [apply sub_advances_refl|]. apply quietly_advances; [done|]. cbn.
  apply Forall2_update_first; [apply want_advances_refl|]. intros w Hw%bool_decide_eq_true.
  split_and!; [done|constructor|]. by rewrite Hw.
Qed.

(** A change that leaves every want alone. *)
Lemma same_wants_advances s s' : sb_id s' = sb_id s -> sb_wants s' = sb_wants s -> sub_advances s [] s'.
Proof.
  intros Hid Hw. apply quietly_advances; [done|]. rewrite Hw.
  apply Forall_Forall2_diag, Forall_forall. intros w _. apply want_advances_refl.
Qed.

(** *** Operations *)
Lemma advance_effect subs chunks subs' o :
  threads sub_advances subs chunks subs' ->
  effects (subs, ob_queue o) [] (subs', ob_queue (push_chunks o chunks)).
Proof. intros H. rewrite push_chunks_queue. by apply effects_one, Ef_Advance. Qed.

Lemma quiet_effect subs subs' q :
  Forall2 (fun s s' => sub_advances s [] s') subs subs' -> effects (subs, q) [] (subs', q).
Proof.
  intros H. rewrite <- (app_nil_r q) at 2. apply effects_one, (Ef_Advance _ [] subs' q).
  by apply quiet_threads.
Qed.

Lemma quiet_fmap_effect f subs q :
  (forall s, sub_advances s [] (f s)) -> effects (subs, q) [] (f <$> subs, q).
Proof. intros H. apply quiet_effect. apply Forall2_fmap_r, Forall_Forall2_diag, Forall_forall. auto. Qed.

Lemma release_all_effects now u : uplink_inv u -> effects (seen u) [] (seen (release_all now u)).
Proof.
  intros Hu. unfold release_all. destruct (ui_timeline _ Hu) as [H1 H2 _].
  pose proof (release_subs_spec _ (up_config u) now H1 H2 (up_subs u) (up_outbox u)
    (subs_inv_wf _ _ _ (ui_subs _ Hu))) as H.
  destruct (release_subs _ _ _ _ _) as [subs' o']. destruct H as (chunks & -> & Ht).
  apply advance_effect. eapply threads_impl; [|exact Ht]. intros s cks s' _.
  apply sub_moves_advance. by apply quiet_advance.
Qed.

Lemma end_sub_effects at_ cause leaves now u : effects (seen u) [] (seen (end_sub at_ cause leaves now u)).
Proof.
  unfold end_sub, seen. destruct (up_subs u !! at_) as [s|] eqn:Es; [|constructor].
  assert (H : effects (seen u) [] (remove_at at_ (up_subs u), ob_queue (up_outbox u) ++ [ended_as cause s])).
  { by apply effects_one, (Ef_End _ _ _ _ _ false). }
  by destruct leaves.
Qed.

Lemma send_seen generation command u : seen (send generation command u) = seen u.
Proof. done. Qed.

Lemma close_at_effects at_ reason cause now u : effects (seen u) [] (seen (close_at at_ reason cause now u)).
Proof.
  unfold close_at. destruct (up_subs u !! at_) as [s|]; [|constructor]. destruct (is_active _).
  - rewrite <- (send_seen (sb_generation s) (Cmd_Close (mkClose (sb_id s) reason)) u).
    apply end_sub_effects.
  - apply end_sub_effects.
Qed.

Lemma give_up_effects at_ u : effects (seen u) [] (seen (give_up_drain at_ u)).
Proof.
  destruct (give_up_drain_spec at_ u) as (chunks & subs' & -> & Ht). apply advance_effect.
  eapply threads_impl; [|exact Ht]. intros s cks s' _. by apply sub_moves_advance, given_up_advance.
Qed.

Lemma settle_from_effects rounds at_ now u : effects (seen u) [] (seen (settle_from rounds at_ now u)).
Proof.
  revert at_ u. induction rounds as [|rounds IH]; intros at_ u; cbn [settle_from]; [constructor|].
  destruct (up_subs u !! at_) as [s|]; [|constructor].
  destruct (settle_one at_ s now u) as [v|] eqn:Ev; [|done].
  apply (effects_trans_nil _ (seen v)); [|done]. unfold settle_one in Ev.
  destruct (sb_overflowed s); [injection Ev as <-; apply close_at_effects|].
  destruct (sb_phase s) as [next|report deadline].
  - destruct (near_miss_done s); [|done]. injection Ev as <-. apply close_at_effects.
  - destruct (_ || _); [|done]. injection Ev as <-.
    eapply effects_trans_nil; [|apply end_sub_effects].
    destruct (drained s); [constructor|apply give_up_effects].
Qed.

Lemma settle_subs_effects now u : effects (seen u) [] (seen (settle_subs now u)).
Proof. apply settle_from_effects. Qed.

Lemma end_all_effects cause u : effects (seen u) [] (seen (end_all cause u)).
Proof.
  assert (H : forall zombies v, seen (foldl (fun u z =>
    with_timeline (timeline_drop_claims (up_timeline u) (zb_key z)) u) v zombies) = seen v).
  { induction zombies as [|z zombies IH]; intros v; cbn [foldl]; [done|]. by rewrite IH. }
  unfold end_all. rewrite H. clear H.
  assert (H : forall subs v, effects (subs, ob_queue (up_outbox v)) []
    ([], ob_queue (up_outbox (foldl (end_one cause) v subs))) /\
    up_subs (foldl (end_one cause) v subs) = up_subs v).
  { induction subs as [|s subs IH]; intros v; cbn [foldl]; [split; [constructor|done]|].
    destruct (IH (end_one cause v s)) as [He ->]. split; [|done].
    eapply effects_trans_nil; [|exact He].
    by apply effects_one, (Ef_End (s :: subs) 0 s _ cause false). }
  destruct (H (up_subs u) (with_subs [] u)) as [He Hs]. unfold seen. cbn in *. by rewrite Hs.
Qed.

Lemma end_silently_effects cause u : effects (seen u) [] (seen (end_silently cause u)).
Proof.
  unfold end_silently.
  assert (H : forall subs v, let v' := foldl (fun u s => push_ended s cause u) v subs in
    up_subs v' = up_subs v /\ ob_queue (up_outbox v') = ob_queue (up_outbox v) ++ (ended_as cause <$> subs)).
  { induction subs as [|s subs IH]; intros v; cbn [foldl fmap list_fmap].
    - by rewrite app_nil_r.
    - destruct (IH (push_ended s cause v)) as [-> ->]. split; [done|].
      change (ob_queue (up_outbox (push_ended s cause v))) with (ob_queue (up_outbox v) ++ [ended_as cause s]).
      by rewrite <- app_assoc. }
  cbv zeta. set (v0 := with_subs [] _). destruct (H (up_subs u) v0) as [Hs Hq]. cbv zeta in *.
  unfold seen. rewrite Hs, Hq. apply effects_one, Ef_Silence.
Qed.

Lemma stream_opened_effects open u : effects (seen u) [] (seen (stream_opened open u)).
Proof.
  unfold stream_opened. destruct (is_erased _ _ _); [constructor|].
  assert (Hcap : effects (seen u) [] (seen
    (let u := if negb (bool_decide (tl_capture (up_timeline u) = Some (so_epoch open)))
       then with_timeline (set_capture (up_timeline (end_all Ec_CaptureEpoch u)) (Some (so_epoch open)))
              (end_all Ec_CaptureEpoch u) else u in
     with_timeline (ensure (up_timeline u) (so_stream open) (so_epoch open)) u))).
  { cbv zeta. destruct (negb _); [exact (end_all_effects Ec_CaptureEpoch u)|constructor]. }
  destruct (so_stream open); try exact Hcap.
  apply quiet_fmap_effect. intros s. apply open_reference_advances.
Qed.

Lemma stream_ended_effects e now u :
  se_final_sample e <= u64_max -> uplink_inv u -> effects (seen u) [] (seen (stream_ended e now u)).
Proof.
  intros Hf Hu. unfold stream_ended. case_bool_decide as Hst; cbn [negb].
  - set (v := if bool_decide _ then _ else u).
    assert (Hv : timeline_inv (up_timeline v) /\ seen v = seen u /\ up_subs v = up_subs u /\
        up_outbox v = up_outbox u).
    { subst v. case_bool_decide; [|by split; [apply (ui_timeline _ Hu)|]].
      by split; [apply set_reference_inv, (ui_timeline _ Hu)|]. }
    clearbody v. destruct Hv as ([H1 H2 _] & Hseen & Hsubs & Ho).
    destruct (source_of _ _ _ _) as [source|] eqn:Es; [|rewrite Hseen; constructor].
    destruct (source_of_wf _ _ _ _ _ H1 H2 Es) as (Hs & Hstream & _). rewrite Hsubs, Ho.
    pose proof (end_references_spec source (up_config v) (se_final_sample e) now (up_subs u) (up_outbox u)
      Hs Hf (subs_inv_wf _ _ _ (ui_subs _ Hu))) as H.
    destruct (end_references _ _ _ _ _ _) as [subs' o']. destruct H as (chunks & -> & Ht).
    eapply effects_trans_nil; [|apply settle_subs_effects]. apply advance_effect.
    eapply threads_impl; [|exact Ht]. intros s cks s' _. rewrite Hstream, Hst. apply ref_ended_advances.
  - case_bool_decide; [|constructor]. exact (end_all_effects Ec_CaptureEpoch u).
Qed.

Lemma told_effects stream epoch told subs q :
  effects (subs, q) [] (foldl (tell_attribution stream epoch) subs told, q).
Proof.
  revert subs. induction told as [|t told IH]; intros subs; cbn [foldl]; [constructor|].
  eapply effects_trans_nil; [|apply IH]. apply quiet_effect, tell_advances.
Qed.

Lemma ingest_effects packet now u :
  packet_ok packet -> uplink_inv u -> effects (seen u) [] (seen (ingest packet now u).1).
Proof.
  intros Hp Hu. unfold ingest. destruct (stream_of_kind _) as [stream|] eqn:Ek; [|constructor].
  specialize (Hp _ Ek). destruct (is_erased _ _ _); [constructor|].
  destruct (timeline_get _ _ _) as [held|] eqn:Eg; [|constructor].
  destruct (timeline_get_wf _ _ _ _ (ti_wf _ (ui_timeline _ Hu)) Eg) as (Hw & _ & Hin).
  set (wanted := any _ _). pose proof (ingest_epoch_wf stream packet wanted held Hp Hw) as Hi.
  destruct (ingest_epoch _ _ _) as [[held' classified] n]. destruct Hi as (_ & Hw' & Hlive & Hatt).
  destruct (tell_all_inv (tl_capture (up_timeline u)) (up_next_key u) stream (h_epoch (p_header packet))
    (cf_attributed classified) (up_subs u) (ui_subs _ Hu) Hatt) as [Hsubs _].
  set (source := mkSource _ _ _ _ _).
  assert (Hsrc : source_wf source).
  { destruct Hw' as [Hb _]. split; [done|]. intros live [Hx|]%Hlive; [|done].
    eapply (ti_tracks _ (ui_timeline _ Hu)); [exact Hin|done]. }
  destruct (packet_bounds _ _ Hp) as [Hfirst _].
  pose proof (ingest_subs_spec source (cf_path classified) (h_first_sample (p_header packet)) (up_config u)
    now _ (up_outbox u) Hsrc Hfirst (subs_inv_wf _ _ _ Hsubs)) as Hr.
  destruct (ingest_subs _ _ _ _ _ _ _) as [subs' o']. destruct Hr as (chunks & -> & Ht).
  cbn [fst]. eapply effects_trans_nil; [|apply settle_subs_effects].
  eapply effects_trans_nil; [apply told_effects|]. apply advance_effect.
  eapply threads_impl; [|exact Ht]. intros s cks s' _. apply sub_moves_advance, on_arrival_advance.
Qed.

(** *** Opening *)
Lemma stream_list_nodup m : NoDup (stream_list m).*1.
Proof.
  unfold stream_list. cbn.
  destruct (m !! Mic), (m !! Reference), (m !! Cells), (m !! Afe); cbn;
    apply (bool_decide_unpack _); vm_compute; exact I.
Qed.

Lemma cursor_new_fresh epoch spec : cursor_fresh (cursor_new epoch spec).
Proof. destruct spec; intros [?|[_ H]]; try done. by specialize (H sample). Qed.

Lemma activate_stream_fresh u key capture tl request :
  let '(_, w, _) := activate_stream u key capture tl request in
  wt_stream w = request.1 /\ (length (wt_cursors w) <= 1)%nat /\ Forall cursor_fresh (wt_cursors w).
Proof.
  destruct request as [stream start]. unfold activate_stream.
  destruct (match stream with Reference => tl_reference tl | _ => Some capture end) as [epoch|].
  - split_and!; [done|cbn; lia|]. apply Forall_singleton, cursor_new_fresh.
  - split_and!; [done|cbn; lia|constructor].
Qed.

Lemma activate_streams_fresh u key capture requests tl :
  let '(_, ws, _) := activate_streams u key capture tl requests in
  wt_stream <$> ws = requests.*1 /\
  Forall (fun w => (length (wt_cursors w) <= 1)%nat /\ Forall cursor_fresh (wt_cursors w)) ws.
Proof.
  revert tl. induction requests as [|r requests IH]; intros tl; cbn [activate_streams]; [done|].
  pose proof (activate_stream_fresh u key capture tl r) as Hone.
  destruct (activate_stream _ _ _ _ _) as [[tl1 w] g]. specialize (IH tl1).
  destruct (activate_streams _ _ _ _ requests) as [[tl2 ws] g'].
  destruct Hone as (Hs & Hw). destruct IH as (Hss & Hws). cbn. rewrite Hs, Hss. by split; [|constructor].
Qed.

Lemma activate_effects id owner reason capture streams near_miss now u :
  effects (seen u) [id] (seen (activate id owner reason capture streams near_miss now u).1).
Proof.
  unfold activate.
  pose proof (activate_streams_fresh u (up_next_key u) capture (stream_list streams) (up_timeline u)) as H.
  destruct (activate_streams _ _ _ _ _) as [[tl ws] grants]. destruct H as [Hs Hws]. cbn [fst].
  unfold seen. cbn [up_subs up_outbox]. set (s := mkSub _ _ _ _ _ _ _ _ _ _).
  apply effects_one, (Ef_Open (up_subs u) s). split; [|done]. cbn. rewrite Hs. apply stream_list_nodup.
Qed.

(** The subscription an event opens. *)
Definition opened_by (u : Uplink) (ev : UplinkEvent) : list SubscriptionId :=
  match ev with
  | Ev_AcceptCandidate c now =>
      if is_ok (accept_candidate c now u).2 then [co_subscription_id c] else []
  | Ev_Open fresh reason owner streams now =>
      if is_ok (uplink_open fresh reason owner streams now u).2 then [fresh] else []
  | Ev_NearMiss fresh n now => if is_ok (open_near_miss fresh n now u).2 then [fresh] else []
  | _ => []
  end.

Lemma open_with_effects fresh reason owner streams near_miss now u :
  let '(v, r) := open_with fresh reason owner streams near_miss now u in
  effects (seen u) (if is_ok r then [fresh] else []) (seen v).
Proof.
  unfold open_with. destruct (check_open _ _) as [capture|e]; [|constructor].
  destruct (bool_decide _); [constructor|]. destruct (_ && _); [constructor|].
  pose proof (activate_effects fresh owner (reason_of_open reason) capture streams near_miss now u) as H.
  destruct (activate _ _ _ _ _ _ _ _) as [v grants]. exact H.
Qed.

Lemma convert_effects id turn now u : effects (seen u) [] (seen (convert_to_turn id turn now u).1).
Proof.
  unfold convert_to_turn. destruct (find_sub _ _) as [s|]; [|constructor].
  destruct (negb _); [constructor|]. destruct (negb _); [constructor|]. cbn [fst]. rewrite send_seen.
  apply quiet_effect, Forall2_update_first; [apply sub_advances_refl|]. intros x _.
  by apply same_wants_advances.
Qed.

Lemma renew_effects now u : effects (seen u) [] (seen (renew now u)).
Proof.
  apply quiet_fmap_effect. intros s. unfold renew_due. destruct (sb_phase s) as [next|]; [|apply sub_advances_refl].
  destruct (next <=? now); [by apply same_wants_advances|apply sub_advances_refl].
Qed.

Lemma device_ended_effects report now u :
  report_ok report -> uplink_inv u -> effects (seen u) [] (seen (device_ended report now u)).
Proof.
  intros Hr Hu. unfold device_ended. destruct (any _ _); [constructor|].
  destruct (sub_index _ _) as [i|]; [|constructor]. destruct (up_subs u !! i) as [s|] eqn:Es; [|constructor].
  destruct (negb _); [constructor|].
  set (s' := begin_drain report (after now (hole_wait (up_config u))) s).
  assert (Hdrain : effects (seen u) [] (seen (settle_subs now (release_all now
    (with_subs (<[i := s']> (up_subs u)) u))))).
  { eapply effects_trans_nil; [|apply settle_subs_effects].
    eapply effects_trans_nil; [|apply release_all_effects].
    - unfold seen. cbn [up_subs up_outbox with_subs].
      apply quiet_effect, Forall2_same_length_lookup_2; [by rewrite length_insert|].
      intros j x y Hx Hy. destruct (decide (j = i)) as [->|Hne].
      + rewrite list_lookup_insert_eq in Hy by by eapply lookup_lt_Some.
        rewrite Es in Hx. injection Hx as <-. injection Hy as <-. apply begin_drain_advances.
      + rewrite list_lookup_insert_ne in Hy by done. rewrite Hx in Hy. injection Hy as <-.
        apply sub_advances_refl.
    - eapply inv_replaced; [done|exact Es|done|]. apply begin_drain_inv; [done|]. by eapply sub_at_inv. }
  destruct (ue_reason report); try exact Hdrain; try apply end_sub_effects.
  unfold end_sub, seen. cbn [up_subs with_outbox]. rewrite Es.
  apply effects_one. exact (Ef_End (up_subs u) i s (ob_queue (up_outbox u)) (Ec_Device report) true Es).
Qed.

(** Every event but a drain is a sequence of effects. *)
Lemma step_effects u ev :
  event_ok ev -> ev <> Ev_Drain -> uplink_inv u ->
  effects (seen u) (opened_by u ev) (seen (uplink_step u ev)).
Proof.
  intros He Hd Hu. destruct ev; cbn [uplink_step event_ok opened_by] in *; try constructor.
  - apply stream_opened_effects.
  - by apply stream_ended_effects.
  - by apply ingest_effects.
  - by apply device_ended_effects.
  - exact (end_silently_effects Ec_Muted (with_muted true u)).
  - exact (end_silently_effects Ec_SessionLost u).
  - unfold accept_candidate. destruct (check_open _ _); [|constructor]. destruct (any _ _); [constructor|].
    match goal with |- context [activate ?a ?b ?c ?d ?e ?f ?g ?h] =>
      pose proof (activate_effects a b c d e f g h) as H; by destruct (activate a b c d e f g h) end.
  - apply convert_effects.
  - unfold uplink_open. destruct (_ && _); [constructor|].
    pose proof (open_with_effects fresh reason owner streams None now u) as H.
    by destruct (open_with _ _ _ _ _ _ _).
  - unfold open_near_miss. destruct (negb _); [constructor|]. destruct (check_open _ _); [|constructor].
    cbv zeta. match goal with |- context [open_with ?a ?b ?c ?d ?e ?f ?g] =>
      pose proof (open_with_effects a b c d e f g) as H; by destruct (open_with a b c d e f g) end.
  - unfold close. destruct (sub_index _ _); [apply close_at_effects|constructor].
  - unfold command_rejected. destruct (sub_index _ _); [|constructor].
    destruct (up_subs u !! _); [|constructor]. destruct (_ || _); [constructor|apply end_sub_effects].
  - eapply effects_trans_nil; [apply renew_effects|].
    eapply effects_trans_nil; [apply release_all_effects, renew_inv, Hu|].
    eapply effects_trans_nil; [|apply settle_subs_effects]. constructor.
  - done.
Qed.

(** ** What the effects keep true of the log *)

Definition chunk_of (d : Delivery) : option Chunk := match d with Dl_Chunk ck => Some ck | _ => None end.
(** The audio of one subscription's stream, in the order delivered. *)
Definition audio (id : SubscriptionId) (stream : StreamId) (log : list Delivery) : list Chunk :=
  filter (fun ck => ck_stream ck = stream) (filter (fun ck => ck_subscription ck = id) (omap chunk_of log)).
(** The subscriptions whose end notice is in the log. *)
Definition ended_ids (log : list Delivery) : list SubscriptionId :=
  delivery_subscription <$> retain is_ended log.

(** An end notice is the last delivery of its subscription. *)
Fixpoint ends_last (log : list Delivery) : Prop :=
  match log with
  | [] => True
  | d :: log =>
      (is_ended d = true -> Forall (fun d' => delivery_subscription d' <> delivery_subscription d) log) /\
      ends_last log
  end.

(** One epoch's samples, each chunk starting where the one before it ends. *)
Definition contiguous (chunks : list Chunk) : Prop :=
  exists epoch pos end_, Forall (fun ck => ck_epoch ck = epoch) chunks /\ chunks_from pos chunks end_.

Lemma omap_chunks (chunks : list Chunk) : omap chunk_of (Dl_Chunk <$> chunks) = chunks.
Proof. induction chunks as [|ck cks IH]; cbn; [done|by f_equal]. Qed.

Lemma audio_app id stream l1 l2 : audio id stream (l1 ++ l2) = audio id stream l1 ++ audio id stream l2.
Proof. unfold audio. by rewrite omap_app, !filter_app. Qed.

Lemma audio_cons id stream d l : audio id stream (d :: l) = audio id stream [d] ++ audio id stream l.
Proof. apply (audio_app id stream [d] l). Qed.

Lemma audio_chunk id stream ck :
  ck_subscription ck <> id -> audio id stream [Dl_Chunk ck] = [].
Proof.
  intros H. unfold audio. change (omap chunk_of [Dl_Chunk ck]) with [ck].
  by rewrite (filter_cons_False (fun ck => ck_subscription ck = id)).
Qed.

Lemma audio_no_chunks id stream l : Forall (fun d => is_ended d = true) l -> audio id stream l = [].
Proof.
  unfold audio. intros H. replace (omap chunk_of l) with (@nil Chunk); [done|].
  induction H as [|d l Hd _ IH]; cbn; [done|]. destruct d; [done|exact IH].
Qed.

Lemma audio_nil id stream l : Forall (fun d => delivery_subscription d <> id) l -> audio id stream l = [].
Proof.
  intros H. induction H as [|d l Hd _ IH]; [done|]. rewrite audio_cons, IH, app_nil_r.
  destruct d as [ck|e]; [by apply audio_chunk|done].
Qed.

Lemma without_chunks_cons id d l :
  without_chunks id (d :: l) =
    (if negb (bool_decide (delivery_subscription d = id)) || is_ended d then [d] else []) ++ without_chunks id l.
Proof. unfold without_chunks, retain. cbn [List.filter]. by destruct (_ || _). Qed.

Lemma audio_without id id' stream l :
  audio id' stream (without_chunks id l) = if bool_decide (id' = id) then [] else audio id' stream l.
Proof.
  induction l as [|d l IH]; [by case_bool_decide|].
  rewrite without_chunks_cons, audio_app, IH, (audio_cons _ _ d l). destruct d as [ck|e]; cbn [is_ended].
  - rewrite orb_false_r. cbn [delivery_subscription].
    destruct (decide (ck_subscription ck = id)) as [Hid|Hid];
      [rewrite (bool_decide_eq_true_2 (_ = id)) by done|rewrite (bool_decide_eq_false_2 (ck_subscription ck = id)) by done];
      cbn [negb]; case_bool_decide as Hid'; try done; rewrite audio_chunk by congruence; done.
  - rewrite orb_true_r. by case_bool_decide.
Qed.

Lemma ended_ids_app l1 l2 : ended_ids (l1 ++ l2) = ended_ids l1 ++ ended_ids l2.
Proof. unfold ended_ids, retain. by rewrite List.filter_app, fmap_app. Qed.

Lemma ended_ids_chunks (chunks : list Chunk) : ended_ids (Dl_Chunk <$> chunks) = [].
Proof. by induction chunks. Qed.

Lemma ended_ids_ends cause subs : ended_ids (ended_as cause <$> subs) = sb_id <$> subs.
Proof. induction subs as [|s subs IH]; [done|]. cbn. f_equal. exact IH. Qed.

Lemma ended_ids_retain p l : (forall d, is_ended d = true -> p d = true) -> ended_ids (retain p l) = ended_ids l.
Proof.
  intros Hp. unfold ended_ids. f_equal. unfold retain. induction l as [|d l IH]; cbn; [done|].
  destruct (is_ended d) eqn:Ed.
  - rewrite Hp by done. cbn. by rewrite Ed, IH.
  - destruct (p d); cbn; rewrite ?Ed; exact IH.
Qed.

Lemma elem_of_ended_ids id l : id ∈ ended_ids l -> exists d, d ∈ l /\ is_ended d = true /\ delivery_subscription d = id.
Proof. intros (d & -> & [Hd He]%elem_of_retain)%list_elem_of_fmap. eauto. Qed.

Lemma ends_last_app l1 l2 :
  ends_last l1 -> ends_last l2 -> Forall (fun d => delivery_subscription d ∉ ended_ids l1) l2 ->
  ends_last (l1 ++ l2).
Proof.
  intros H1 H2. induction l1 as [|d l1 IH]; cbn; [done|]. destruct H1 as [Hd H1]. intros Hn. split.
  - intros He. apply Forall_app. split; [by apply Hd|]. eapply Forall_impl; [exact Hn|].
    intros d' Hd' Heq. apply Hd'. unfold ended_ids, retain. cbn. rewrite He. cbn. rewrite Heq. by left.
  - apply IH; [done|]. eapply Forall_impl; [exact Hn|]. intros d' Hd' Hin. apply Hd'.
    unfold ended_ids, retain. cbn. destruct (is_ended d); [by right|done].
Qed.

Lemma ends_last_sublist l l' : l' `sublist_of` l -> ends_last l -> ends_last l'.
Proof.
  induction 1 as [|d l' l Hs IH|d l' l _ IH]; cbn; [done| |intros [_ H]; auto].
  intros [Hd H]. split; [|auto]. intros He. apply Forall_forall. intros d' Hin.
  specialize (Hd He). eapply Forall_forall in Hd; [exact Hd|]. by eapply elem_of_sublist.
Qed.

Lemma ends_last_spec log pre e post :
  ends_last log -> log = pre ++ Dl_Ended e :: post ->
  Forall (fun d => delivery_subscription d <> en_subscription e) post.
Proof.
  intros H ->. induction pre as [|d pre IH]; cbn in H.
  - destruct H as [H _]. by apply H.
  - destruct H as [_ H]. auto.
Qed.

Lemma contiguous_nil : contiguous [].
Proof. by exists 0, 0, 0. Qed.

Lemma chunks_from_prefix pos l1 l2 end_ : chunks_from pos (l1 ++ l2) end_ -> exists mid, chunks_from pos l1 mid.
Proof.
  revert pos. induction l1 as [|ck l1 IH]; intros pos; cbn; [by exists pos|].
  intros (H1 & H2 & [mid H]%IH). by exists mid.
Qed.

Lemma contiguous_prefix l1 l2 : contiguous (l1 ++ l2) -> contiguous l1.
Proof.
  intros (epoch & pos & end_ & [He _]%Forall_app & [mid H]%chunks_from_prefix). by exists epoch, pos, mid.
Qed.

(** Pieces released under different keys. *)
Lemma threads_key {A B K} `{EqDecision K} (R : A -> list B -> A -> Prop) (key : A -> K) (bkey : B -> K)
    xs bs xs' i x' :
  (forall x b x', R x b x' -> key x' = key x /\ Forall (fun y => bkey y = key x) b) ->
  NoDup (key <$> xs) -> threads R xs bs xs' -> xs' !! i = Some x' ->
  exists x b, xs !! i = Some x /\ R x b x' /\ filter (fun y => bkey y = key x) bs = b.
Proof.
  intros HR Hnd Ht. revert i. induction Ht as [|x b x1 xs bs xs1 Hx Ht IH]; intros i Hi; [done|].
  cbn in Hnd. apply NoDup_cons in Hnd as [Hni Hnd]. destruct (HR _ _ _ Hx) as [Hk Hb].
  assert (Hout : forall bs, Forall (fun y => bkey y = key x) bs -> filter (fun y => bkey y = key x) bs = bs).
  { clear. induction 1 as [|y bs Hy _ IH]; [done|]. by rewrite filter_cons_True, IH. }
  assert (Hno : forall k bs, Forall (fun y => bkey y <> k) bs -> filter (fun y => bkey y = k) bs = []).
  { clear. induction 1 as [|y bs Hy _ IH]; [done|]. by rewrite filter_cons_False. }
  assert (Hbs : Forall (fun y => bkey y ∈ key <$> xs) bs).
  { clear -HR Ht. induction Ht as [|x b x1 xs bs xs1 Hx Ht IH]; [constructor|]. apply Forall_app. split.
    - eapply Forall_impl; [exact (proj2 (HR _ _ _ Hx))|]. intros y Hy. cbn in *. rewrite Hy. by left.
    - eapply Forall_impl; [exact IH|]. intros y Hy. by right. }
  destruct i as [|i]; cbn in Hi.
  - injection Hi as ->. exists x, b. split_and!; [done|done|]. rewrite filter_app, Hout by done.
    rewrite Hno; [by rewrite app_nil_r|]. eapply Forall_impl; [exact Hbs|]. cbn. intros y Hy Heq. by rewrite Heq in Hy.
  - destruct (IH Hnd i Hi) as (y & c & Hy & HRy & Hf). exists y, c. split_and!; [done|done|].
    rewrite filter_app, Hf, Hno; [done|]. eapply Forall_impl; [exact Hb|]. cbn. intros z Hz Heq.
    apply Hni. rewrite <- Hz, Heq. apply list_elem_of_fmap. eexists. split; [done|]. by eapply list_elem_of_lookup_2.
Qed.

Lemma threads_elem {A B} (R : A -> list B -> A -> Prop) xs bs xs' y :
  threads R xs bs xs' -> y ∈ bs -> exists i x b x', xs !! i = Some x /\ xs' !! i = Some x' /\ R x b x' /\ y ∈ b.
Proof.
  induction 1 as [|x b x1 xs bs xs1 Hx Ht IH]; [by intros ?%elem_of_nil|].
  intros [Hy|Hy]%elem_of_app; [by exists 0%nat, x, b, x1|].
  destruct (IH Hy) as (i & H). by exists (S i).
Qed.

(** *** The invariant *)
Definition follows (chunks : list Chunk) (c : Cursor) : Prop :=
  chunks = [] \/ exists a b, cu_pos c = Some b /\ chunks_from a chunks b /\
    Forall (fun ck => ck_epoch ck = cu_epoch c) chunks.

Definition want_in_log (id : SubscriptionId) (log : list Delivery) (w : Want) : Prop :=
  wt_stream w <> Reference ->
  match wt_cursors w with
  | [] => audio id (wt_stream w) log = []
  | [c] => cursor_fresh c /\ follows (audio id (wt_stream w) log) c
  | _ => False
  end.
Definition sub_in_log (log : list Delivery) (s : Sub) : Prop :=
  NoDup (wt_stream <$> sb_wants s) /\ Forall (want_in_log (sb_id s) log) (sb_wants s).

Record log_inv (opened : list SubscriptionId) (subs : list Sub) (log : list Delivery) : Prop := {
  li_ledger : opened ≡ₚ (sb_id <$> subs) ++ ended_ids log;
  li_known : Forall (fun d => delivery_subscription d ∈ opened) log;
  li_last : ends_last log;
  li_subs : Forall (sub_in_log log) subs;
  li_audio id stream : stream <> Reference -> contiguous (audio id stream log);
}.

Lemma want_advances_log id log w chunks w' :
  want_in_log id log w -> want_advances id w (filter (fun ck => ck_stream ck = wt_stream w) chunks) w' ->
  filter (fun ck => ck_subscription ck = id) chunks = chunks ->
  want_in_log id (log ++ (Dl_Chunk <$> chunks)) w'.
Proof.
  intros Hin (Hst & _ & Hcs) Hid Hne. rewrite Hst in Hne |- *. specialize (Hin Hne). specialize (Hcs Hne).
  rewrite audio_app.
  assert (Ha : audio id (wt_stream w) (Dl_Chunk <$> chunks) = filter (fun ck => ck_stream ck = wt_stream w) chunks).
  { unfold audio. by rewrite omap_chunks, Hid. }
  rewrite Ha. set (mine := filter _ chunks) in *. clearbody mine. clear Ha Hid.
  destruct (wt_cursors w) as [|c [|c2 cs]]; [| |done].
  - apply threads_nil_inv in Hcs as [-> ->]. by rewrite Hin.
  - inversion Hcs as [|x b x' xs bs xs' Hc Ht]; subst. apply threads_nil_inv in Ht as [-> ->].
    rewrite app_nil_r. destruct Hin as [Hf Hfo]. destruct Hc as (He & Hce & Hm).
    destruct (Hm Hf) as [Hf' Hp]. split; [done|].
    destruct Hfo as [->|(a & p & Hpos & Hch & Hep)].
    + cbn. destruct (cu_pos c) as [p|].
      * destruct Hp as (p' & Hp' & Hch). right. exists p, p'. split_and!; [done|done|]. by rewrite He.
      * destruct Hp as [->|(p & p' & Hp' & Hch)]; [by left|]. right. exists p, p'. by rewrite He.
    + rewrite Hpos in Hp. destruct Hp as (p' & Hp' & Hch'). right. exists a, p'. rewrite He.
      split_and!; [done|by eapply chunks_from_app|]. by apply Forall_app.
Qed.

Lemma filter_all {A} (P : A -> Prop) `{forall x, Decision (P x)} (l : list A) : Forall P l -> filter P l = l.
Proof. induction 1 as [|x l Hx _ IH]; [done|]. by rewrite filter_cons_True, IH. Qed.

Lemma sub_advances_ids s chunks s' :
  sub_advances s chunks s' -> sb_id s' = sb_id s /\ Forall (fun ck => ck_subscription ck = sb_id s) chunks.
Proof.
  intros [Hid Hw]. split; [done|]. eapply threads_Forall_out; [|exact Hw].
  intros w b w' (_ & Hb & _). eapply Forall_impl; [exact Hb|]. by intros ck [? _].
Qed.

Lemma want_advances_streams id w b w' :
  want_advances id w b w' -> wt_stream w' = wt_stream w /\ Forall (fun ck => ck_stream ck = wt_stream w) b.
Proof. intros (Hs & Hb & _). split; [done|]. eapply Forall_impl; [exact Hb|]. by intros ck [_ ?]. Qed.

(** The audio of one stream is what its subscription's want released. *)
Lemma advances_in_log log subs chunks subs' :
  NoDup (sb_id <$> subs) -> threads sub_advances subs chunks subs' -> Forall (sub_in_log log) subs ->
  Forall (sub_in_log (log ++ (Dl_Chunk <$> chunks))) subs'.
Proof.
  intros Hnd Ht Hs. apply Forall_lookup_2. intros i s' Hi.
  destruct (threads_key _ sb_id ck_subscription _ _ _ i s' sub_advances_ids Hnd Ht Hi) as (s & b & Hsi & Hadv & Hb).
  destruct (Forall_lookup_1 _ _ _ _ Hs Hsi) as [Hst Hw]. destruct Hadv as [Hid Hws]. split.
  - erewrite threads_fmap; [exact Hst| |exact Hws]. by intros w c w' [? _]%want_advances_streams.
  - apply Forall_lookup_2. intros j w' Hj. rewrite Hid.
    destruct (threads_key _ wt_stream ck_stream _ _ _ j w' (want_advances_streams _) Hst Hws Hj)
      as (w & c & Hwj & Hwadv & Hc).
    pose proof (Forall_lookup_1 _ _ _ _ Hw Hwj) as Hin.
    assert (Hlog : want_in_log (sb_id s) (log ++ (Dl_Chunk <$> b)) w').
    { apply (want_advances_log _ _ w); [done|by rewrite Hc|]. apply filter_all.
      eapply Forall_impl; [|intros ck H; exact H]. by apply (sub_advances_ids s b s'). }
    intros Hne. specialize (Hlog Hne). rewrite audio_app in *.
    assert (Ha : audio (sb_id s) (wt_stream w') (Dl_Chunk <$> chunks) = audio (sb_id s) (wt_stream w') (Dl_Chunk <$> b)).
    { unfold audio. rewrite !omap_chunks, Hb. f_equal. symmetry. apply filter_all.
      by apply (sub_advances_ids s b s'). }
    by rewrite Ha.
Qed.

(** Audio released belongs to a want that is still there. *)
Lemma advances_audio id stream subs chunks subs' :
  threads sub_advances subs chunks subs' -> audio id stream (Dl_Chunk <$> chunks) <> [] ->
  exists s' w', s' ∈ subs' /\ sb_id s' = id /\ w' ∈ sb_wants s' /\ wt_stream w' = stream.
Proof.
  intros Ht Hne. unfold audio in Hne. rewrite omap_chunks in Hne.
  destruct (filter _ (filter _ chunks)) as [|ck rest] eqn:Ef; [done|].
  assert (Hck : ck ∈ ck :: rest) by by left. rewrite <- Ef in Hck.
  apply list_elem_of_filter in Hck as [Hst [Hid Hck]%list_elem_of_filter].
  destruct (threads_elem _ _ _ _ _ Ht Hck) as (i & s & b & s' & _ & Hs' & Hadv & Hb).
  destruct (sub_advances_ids _ _ _ Hadv) as [Hids Hall]. destruct Hadv as [_ Hws].
  destruct (threads_elem _ _ _ _ _ Hws Hb) as (j & w & c & w' & _ & Hw' & Hwadv & Hc).
  destruct (want_advances_streams _ _ _ _ Hwadv) as [Hstr Hcs].
  eapply Forall_forall in Hall; [|exact Hb]. eapply Forall_forall in Hcs; [|exact Hc].
  exists s', w'. split_and!; [by eapply list_elem_of_lookup_2|congruence|by eapply list_elem_of_lookup_2|congruence].
Qed.

Lemma want_log_contiguous id log w :
  want_in_log id log w -> wt_stream w <> Reference -> contiguous (audio id (wt_stream w) log).
Proof.
  intros H Hne. specialize (H Hne). destruct (wt_cursors w) as [|c [|? ?]]; [|destruct H as [_ H]|done].
  - rewrite H. apply contiguous_nil.
  - destruct H as [->|(a & b & _ & Hch & He)]; [apply contiguous_nil|]. by exists (cu_epoch c), a, b.
Qed.

Lemma retain_sublist {A} p (l : list A) : retain p l `sublist_of` l.
Proof.
  unfold retain. induction l as [|x l IH]; cbn; [constructor|]. destruct (p x); by constructor.
Qed.

Lemma remove_at_perm {A} i (l : list A) x : l !! i = Some x -> l ≡ₚ x :: remove_at i l.
Proof.
  intros Hi. unfold remove_at. rewrite <- (take_drop_middle _ _ _ Hi) at 1. symmetry. apply Permutation_middle.
Qed.

Lemma ledger_nodup opened subs log :
  opened ≡ₚ (sb_id <$> subs) ++ ended_ids log -> NoDup opened ->
  NoDup (sb_id <$> subs) /\ NoDup (ended_ids log) /\ forall id, id ∈ sb_id <$> subs -> id ∉ ended_ids log.
Proof. intros Hp Hn. rewrite Hp in Hn. apply NoDup_app in Hn as (? & ? & ?). auto. Qed.

Lemma ended_one log cause s : ended_ids (log ++ [ended_as cause s]) = ended_ids log ++ [sb_id s].
Proof. by rewrite ended_ids_app. Qed.

Lemma known_sub opened subs log s :
  opened ≡ₚ (sb_id <$> subs) ++ ended_ids log -> s ∈ subs -> sb_id s ∈ opened.
Proof. intros -> Hs. apply elem_of_app. left. apply list_elem_of_fmap. eauto. Qed.

Section effects_keep.
Context (out : list Delivery) (opened : list SubscriptionId) (subs : list Sub) (q : list Delivery).
Hypothesis (Hinv : log_inv opened subs (out ++ q)) (Hnd : NoDup opened).

Lemma advance_keeps chunks subs' :
  threads sub_advances subs chunks subs' -> log_inv opened subs' (out ++ q ++ (Dl_Chunk <$> chunks)).
Proof.
  intros Ht. destruct Hinv as [H1 H2 H3 H4 H5]. rewrite app_assoc.
  destruct (ledger_nodup _ _ _ H1 Hnd) as (Hids & _ & Hdis).
  assert (Hsame : sb_id <$> subs' = sb_id <$> subs).
  { eapply threads_fmap; [|exact Ht]. by intros s b s' [? _]. }
  assert (Hck : Forall (fun d => delivery_subscription d ∈ sb_id <$> subs) (Dl_Chunk <$> chunks)).
  { apply Forall_fmap, Forall_forall. intros ck Hck. cbn.
    destruct (threads_elem _ _ _ _ _ Ht Hck) as (i & s & b & s' & Hs & _ & Hadv & Hb).
    destruct (sub_advances_ids _ _ _ Hadv) as [_ Hall]. eapply Forall_forall in Hall; [|exact Hb].
    rewrite Hall. apply list_elem_of_fmap. eexists. split; [done|]. by eapply list_elem_of_lookup_2. }
  pose proof (advances_in_log _ _ _ _ Hids Ht H4) as H4'. split.
  - by rewrite ended_ids_app, ended_ids_chunks, app_nil_r, Hsame.
  - apply Forall_app. split; [done|]. eapply Forall_impl; [exact Hck|]. intros d Hd.
    rewrite H1. apply elem_of_app. by left.
  - apply ends_last_app; [done| |].
    + clear. induction chunks; cbn; [done|]. by split.
    + eapply Forall_impl; [exact Hck|]. intros d. apply Hdis.
  - done.
  - intros id stream Hst.
    assert (Hdec : audio id stream (Dl_Chunk <$> chunks) = [] \/ audio id stream (Dl_Chunk <$> chunks) <> [])
      by (destruct (audio id stream (Dl_Chunk <$> chunks)); [by left|by right]).
    destruct Hdec as [Hnil|Hne].
    + rewrite audio_app, Hnil, app_nil_r. by apply H5.
    + destruct (advances_audio id stream subs chunks subs' Ht Hne) as (s' & w' & Hs' & <- & Hw' & <-).
      eapply Forall_forall in H4'; [|exact Hs']. destruct H4' as [_ Hws].
      eapply Forall_forall in Hws; [|exact Hw']. by apply want_log_contiguous.
Qed.

Lemma end_keeps i s cause (discard : bool) :
  subs !! i = Some s ->
  log_inv opened (remove_at i subs)
    (out ++ (if discard then without_chunks (sb_id s) q else q) ++ [ended_as cause s]).
Proof.
  intros Hi. destruct Hinv as [H1 H2 H3 H4 H5].
  destruct (ledger_nodup _ _ _ H1 Hnd) as (Hids & _ & Hdis).
  set (q' := if discard then _ else _).
  assert (Hsub : q' `sublist_of` q) by (subst q'; destruct discard; [apply retain_sublist|done]).
  assert (Hends : ended_ids (out ++ q') = ended_ids (out ++ q)).
  { rewrite !ended_ids_app. f_equal. subst q'. destruct discard; [|done]. apply ended_ids_retain.
    intros d ->. by rewrite orb_true_r. }
  assert (Haudio : forall id stream, audio id stream (out ++ q') = audio id stream (out ++ q) \/
    id = sb_id s /\ audio id stream (out ++ q') = audio id stream out).
  { intros id stream. subst q'. destruct discard; [|by left]. rewrite !audio_app, audio_without.
    case_bool_decide; [right|by left]. by rewrite app_nil_r. }
  clearbody q'. rewrite app_assoc.
  assert (Hlog : out ++ q' `sublist_of` out ++ q) by by apply sublist_app.
  pose proof (remove_at_perm _ _ _ Hi) as Hperm.
  assert (Hnin : sb_id s ∉ sb_id <$> remove_at i subs).
  { rewrite Hperm in Hids. cbn in Hids. by apply NoDup_cons in Hids as [? _]. }
  assert (Hafter : forall id stream, audio id stream ((out ++ q') ++ [ended_as cause s])
    = audio id stream (out ++ q')).
  { intros. by rewrite audio_app, app_nil_r. }
  split.
  - rewrite ended_one, Hends, H1. rewrite Hperm at 1. cbn.
    rewrite (app_assoc _ (ended_ids _)). apply Permutation_cons_append.
  - apply Forall_app. split.
    + eapply Forall_forall. intros d Hd. eapply Forall_forall in H2; [exact H2|].
      by eapply elem_of_sublist.
    + constructor; [|constructor]. eapply known_sub; [exact H1|]. by eapply list_elem_of_lookup_2.
  - apply ends_last_app; [by eapply ends_last_sublist|by split|]. constructor; [|constructor].
    rewrite Hends. apply Hdis. apply list_elem_of_fmap. eexists. split; [done|]. by eapply list_elem_of_lookup_2.
  - apply Forall_forall. intros s' Hs'. pose proof Hs' as Hin.
    eapply elem_of_sublist in Hin; [|apply remove_at_sublist].
    eapply Forall_forall in H4; [|exact Hin]. destruct H4 as [Hst Hw]. split; [done|].
    eapply Forall_impl; [exact Hw|]. intros w Hlogw Hne. specialize (Hlogw Hne). rewrite Hafter.
    destruct (Haudio (sb_id s') (wt_stream w)) as [->|[Heq _]]; [done|]. exfalso. apply Hnin.
    rewrite <- Heq. apply list_elem_of_fmap. eauto.
  - intros id stream Hst. rewrite Hafter. destruct (Haudio id stream) as [->|[_ ->]]; [by apply H5|].
    specialize (H5 id stream Hst). rewrite audio_app in H5. by eapply contiguous_prefix.
Qed.

Lemma silence_keeps cause :
  log_inv opened [] (out ++ retain is_ended q ++ (ended_as cause <$> subs)).
Proof.
  destruct Hinv as [H1 H2 H3 H4 H5]. destruct (ledger_nodup _ _ _ H1 Hnd) as (Hids & _ & Hdis).
  assert (Hends : ended_ids (out ++ retain is_ended q) = ended_ids (out ++ q)).
  { rewrite !ended_ids_app. f_equal. by apply ended_ids_retain. }
  assert (Hlog : out ++ retain is_ended q `sublist_of` out ++ q) by by apply sublist_app, retain_sublist.
  assert (Haudio : forall id stream, audio id stream (out ++ retain is_ended q ++ (ended_as cause <$> subs))
    = audio id stream out).
  { intros. rewrite !audio_app, (audio_no_chunks _ _ (retain _ _)), (audio_no_chunks _ _ (_ <$> _)).
    - by rewrite !app_nil_r.
    - apply Forall_fmap, Forall_forall. done.
    - apply retain_ends. }
  rewrite app_assoc in *. split.
  - rewrite H1, (ended_ids_app (out ++ retain _ _)), ended_ids_ends, Hends. apply (Permutation_app_comm (sb_id <$> subs)).
  - apply Forall_app. split.
    + apply Forall_forall. intros d Hd. eapply Forall_forall in H2; [exact H2|]. by eapply elem_of_sublist.
    + apply Forall_fmap, Forall_forall. intros s Hs. by eapply known_sub.
  - apply ends_last_app; [by eapply ends_last_sublist| |].
    + clear -Hids. induction subs as [|s ss IH]; [done|]. cbn in Hids.
      apply NoDup_cons in Hids as [Hn Hids]. split; [|by apply IH]. intros _. apply Forall_fmap, Forall_forall.
      cbn. intros s' Hs' Heq. apply Hn. rewrite <- Heq. apply list_elem_of_fmap. eauto.
    + apply Forall_fmap, Forall_forall. intros s Hs. cbn. rewrite Hends. apply Hdis, list_elem_of_fmap. eauto.
  - constructor.
  - intros id stream Hst. rewrite Haudio. specialize (H5 id stream Hst).
    rewrite audio_app in H5. by eapply contiguous_prefix.
Qed.

Lemma open_keeps s :
  sub_fresh s -> sb_id s ∉ opened -> log_inv (opened ++ [sb_id s]) (subs ++ [s]) (out ++ q).
Proof.
  intros [Hst Hw] Hnew. destruct Hinv as [H1 H2 H3 H4 H5]. split; [| |done| |done].
  - rewrite H1, fmap_app. cbn. rewrite <- !app_assoc. apply Permutation_app_head, Permutation_app_comm.
  - eapply Forall_impl; [exact H2|]. intros d Hd. apply elem_of_app. by left.
  - apply Forall_app. split; [done|]. constructor; [|constructor]. split; [done|].
    eapply Forall_impl; [exact Hw|]. intros w [Hl Hf] _.
    assert (Ha : audio (sb_id s) (wt_stream w) (out ++ q) = []).
    { apply audio_nil. eapply Forall_impl; [exact H2|]. intros d Hd Heq. apply Hnew. by rewrite <- Heq. }
    rewrite Ha. destruct (wt_cursors w) as [|c [|c2 cs]]; [done| |cbn in Hl; lia].
    apply Forall_cons in Hf as [Hf _]. split; [done|by left].
Qed.
End effects_keep.

Lemma effect_keeps out opened st o st' :
  log_inv opened st.1 (out ++ st.2) -> NoDup (opened ++ o) -> effect st o st' ->
  log_inv (opened ++ o) st'.1 (out ++ st'.2).
Proof.
  intros Hi Hn He. apply NoDup_app in Hn as (Hn & Hdis & _).
  destruct He as [subs chunks subs' q Ht|subs i s q cause discard Hs|subs q cause|subs s q Hf]; cbn in *;
    rewrite ?app_nil_r.
  - by eapply advance_keeps.
  - by apply (end_keeps _ _ subs).
  - by apply (silence_keeps _ _ subs).
  - apply open_keeps; [done|done|]. intros Hin. by eapply (Hdis _ Hin); left.
Qed.

Lemma effects_keep out opened st o st' :
  log_inv opened st.1 (out ++ st.2) -> NoDup (opened ++ o) -> effects st o st' ->
  log_inv (opened ++ o) st'.1 (out ++ st'.2).
Proof.
  intros Hi Hn He. revert opened Hi Hn. induction He as [st|st1 o1 st2 o2 st3 H _ IH]; intros opened Hi Hn.
  - by rewrite app_nil_r.
  - rewrite app_assoc in *. apply IH; [|done]. eapply effect_keeps; [done| |exact H].
    by apply NoDup_app in Hn as (? & _ & _).
Qed.

(** The ledger needs no assumption on the IDs. *)
Lemma effect_ledger out opened st o st' :
  opened ≡ₚ (sb_id <$> st.1) ++ ended_ids (out ++ st.2) -> effect st o st' ->
  opened ++ o ≡ₚ (sb_id <$> st'.1) ++ ended_ids (out ++ st'.2).
Proof.
  intros H He. destruct He as [subs chunks subs' q Ht|subs i s q cause discard Hs|subs q cause|subs s q Hf];
    cbn in *; rewrite ?app_nil_r, H, ?ended_ids_app; cbn.
  - assert (Hsame : sb_id <$> subs' = sb_id <$> subs).
    { eapply threads_fmap; [|exact Ht]. by intros s b s' [? _]. }
    by rewrite ended_ids_chunks, app_nil_r, Hsame.
  - assert (He : ended_ids (if discard then without_chunks (sb_id s) q else q) = ended_ids q).
    { destruct discard; [|done]. apply ended_ids_retain. intros d ->. by rewrite orb_true_r. }
    rewrite He. rewrite (remove_at_perm _ _ _ Hs) at 1. cbn. rewrite !app_assoc.
    apply Permutation_cons_append.
  - rewrite ended_ids_ends, (ended_ids_retain is_ended) by done. rewrite !app_assoc. rewrite <- app_assoc.
    apply Permutation_app_comm.
  - rewrite fmap_app. cbn. rewrite <- !app_assoc. apply Permutation_app_head. rewrite app_assoc.
    apply Permutation_app_comm.
Qed.

Lemma effects_ledger out opened st o st' :
  opened ≡ₚ (sb_id <$> st.1) ++ ended_ids (out ++ st.2) -> effects st o st' ->
  opened ++ o ≡ₚ (sb_id <$> st'.1) ++ ended_ids (out ++ st'.2).
Proof.
  intros H He. revert opened H. induction He as [st|st1 o1 st2 o2 st3 He _ IH]; intros opened H.
  - by rewrite app_nil_r.
  - rewrite app_assoc. apply IH. by eapply effect_ledger.
Qed.

(** ** Sessions *)
(** A session: its uplink and what it has handed to the runtime so far. *)
Definition Session : Type := Uplink * list Delivery.

Definition session_step (st : Session) (ev : UplinkEvent) : Session :=
  match ev with
  | Ev_Drain => default st (uplink_drain st.1 st.2)
  | _ => (uplink_step st.1 ev, st.2)
  end.
Definition session_run (st : Session) (events : list UplinkEvent) : Session := foldl session_step st events.

(** Everything delivered, handed over or still queued, in order. *)
Definition session_log (st : Session) : list Delivery := st.2 ++ ob_queue (up_outbox st.1).

(** The subscriptions a session opened, in order. *)
Fixpoint opened_in (st : Session) (events : list UplinkEvent) : list SubscriptionId :=
  match events with
  | [] => []
  | ev :: events => opened_by st.1 ev ++ opened_in (session_step st ev) events
  end.

Lemma session_step_cases st ev :
  event_ok ev -> uplink_inv st.1 ->
  let st' := session_step st ev in
  uplink_inv st'.1 /\
  (st'.2 = st.2 /\ effects (seen st.1) (opened_by st.1 ev) (seen st'.1) \/
   opened_by st.1 ev = [] /\ up_subs st'.1 = up_subs st.1 /\ session_log st' = session_log st).
Proof.
  intros He Hu. assert (Hd : ev = Ev_Drain \/ ev <> Ev_Drain) by (destruct ev; (by left) || by right).
  destruct Hd as [->|Hne].
  - cbn. unfold uplink_drain, session_log.
    destruct (outbox_drain_ok _ st.2 (ui_outbox _ Hu)) as (o' & -> & Hq & Ho & _). cbn. split.
    + destruct Hu as [H1 H2 H3 H4 H5]. split; cbn; try done. intros Hm. rewrite Hq.
      split; [by apply H5|constructor].
    + right. split_and!; [done|done|]. by rewrite Hq, app_nil_r.
  - assert (Heq : session_step st ev = (uplink_step st.1 ev, st.2)) by by destruct ev.
    cbv zeta. rewrite Heq. cbn. split; [by apply uplink_step_inv|]. left. split; [done|].
    by apply step_effects.
Qed.

Lemma session_ledger st events opened :
  Forall event_ok events -> uplink_inv st.1 ->
  opened ≡ₚ (sb_id <$> up_subs st.1) ++ ended_ids (session_log st) ->
  opened ++ opened_in st events
    ≡ₚ (sb_id <$> up_subs (session_run st events).1) ++ ended_ids (session_log (session_run st events)).
Proof.
  intros He. revert st opened. induction He as [|ev events Hev _ IH]; intros st opened Hu Hl.
  - by rewrite app_nil_r.
  - cbn [opened_in session_run foldl]. rewrite app_assoc.
    destruct (session_step_cases st ev Hev Hu) as [Hu' Hcase]. apply IH; [done|].
    destruct Hcase as [[Ho Hef]|(-> & -> & ->)]; [|by rewrite app_nil_r].
    unfold session_log. rewrite Ho. by apply (effects_ledger st.2 opened (seen st.1) _ (seen _)).
Qed.

Lemma session_log_inv st events opened :
  Forall event_ok events -> uplink_inv st.1 -> NoDup (opened ++ opened_in st events) ->
  log_inv opened (up_subs st.1) (session_log st) ->
  log_inv (opened ++ opened_in st events) (up_subs (session_run st events).1)
    (session_log (session_run st events)).
Proof.
  intros He. revert st opened. induction He as [|ev events Hev _ IH]; intros st opened Hu Hn Hl.
  - by rewrite app_nil_r.
  - cbn [opened_in session_run foldl] in *. rewrite app_assoc in *.
    destruct (session_step_cases st ev Hev Hu) as [Hu' Hcase]. apply IH; [done|done|].
    destruct Hcase as [[Ho Hef]|(-> & -> & ->)]; [|by rewrite app_nil_r].
    unfold session_log. rewrite Ho.
    apply (effects_keep st.2 opened (seen st.1) _ (seen _)); [done| |done].
    by apply NoDup_app in Hn as (? & _ & _).
Qed.

Definition session_new (config : UplinkConfig) (terms : SessionTerms) (muted : bool) : Session :=
  (uplink_new config terms muted, []).

Lemma session_new_log config terms muted :
  log_inv [] (up_subs (uplink_new config terms muted)) (session_log (session_new config terms muted)).
Proof. split; [done|constructor|done|constructor|]. intros id stream _. apply contiguous_nil. Qed.

(** C2: Whatever the session's reports, decisions, polls and drains, every
    subscription it opened is either still live or has exactly one end notice
    among its deliveries: none is lost and none is announced twice. *)
Theorem every_end_is_delivered_once config terms muted events :
  Forall event_ok events ->
  let st := session_run (session_new config terms muted) events in
  opened_in (session_new config terms muted) events
    ≡ₚ (sb_id <$> up_subs st.1) ++ ended_ids (session_log st).
Proof.
  intros He. apply (session_ledger (session_new config terms muted) events [] He); [|done].
  apply uplink_new_inv.
Qed.

(** When the session's subscription IDs are distinct, a subscription's end
    notice is its last delivery: the runtime may forget the subscription there. *)
Theorem end_is_last config terms muted events pre e post :
  Forall event_ok events -> NoDup (opened_in (session_new config terms muted) events) ->
  session_log (session_run (session_new config terms muted) events) = pre ++ Dl_Ended e :: post ->
  Forall (fun d => delivery_subscription d <> en_subscription e) post.
Proof.
  intros He Hn. destruct (session_log_inv (session_new config terms muted) events [] He
    (uplink_new_inv _ _ _) Hn (session_new_log _ _ _)) as [_ _ Hl _ _]. by apply ends_last_spec.
Qed.

(** C1: In a session of decoded events ([event_ok]) that opens no subscription id
    twice (the runtime draws them), the audio of each capture stream of a
    subscription - any but the reference, whose epochs come and go under it -
    reaches the runtime as one unbroken line of the epoch's samples: every chunk,
    audio or declared gap, starts where the one before it ends and covers at least
    one sample, across packets, polls, conversions and drains. *)
Theorem audio_is_contiguous config terms muted events id stream :
  Forall event_ok events -> NoDup (opened_in (session_new config terms muted) events) ->
  stream <> Reference ->
  let line := audio id stream (session_log (session_run (session_new config terms muted) events)) in
  (forall i a b, line !! i = Some a -> line !! S i = Some b ->
    sp_end (ck_span a) = sp_start (ck_span b) /\ ck_epoch a = ck_epoch b) /\
  (forall a, a ∈ line -> sp_start (ck_span a) < sp_end (ck_span a)).
Proof.
  intros He Hn Hst. destruct (session_log_inv (session_new config terms muted) events [] He
    (uplink_new_inv _ _ _) Hn (session_new_log _ _ _)) as [_ _ _ _ Ha].
  cbv zeta. specialize (Ha id stream Hst). revert Ha. generalize (audio id stream (session_log
    (session_run (session_new config terms muted) events))).
  intros line (epoch & pos & end_ & Hep & Hch). split.
  - intros i a b Hi Hj. pose proof (Forall_lookup_1 _ _ _ _ Hep Hi) as Hea.
    pose proof (Forall_lookup_1 _ _ _ _ Hep Hj) as Heb. split; [|congruence]. clear -Hch Hi Hj.
    revert i pos Hch Hi Hj. induction line as [|ck line IH]; intros i pos Hch Hi Hj; [done|].
    cbn in Hch. destruct Hch as (_ & _ & Hch). destruct i as [|i]; cbn in *.
    + destruct line; [done|]. injection Hi as ->. injection Hj as ->. cbn in Hch. symmetry. apply Hch.
    + by eapply IH.
  - clear -Hch. revert pos Hch. induction line as [|ck line IH]; intros pos Hch a Ha.
    { by apply elem_of_nil in Ha. }
    cbn in Hch. destruct Hch as (<- & Hlt & Hch). apply elem_of_cons in Ha as [->|Ha]; [done|by eapply IH].
Qed.

(** ** Witnesses *)
Definition open_mic : StreamOpen := mkStreamOpen Mic 7 None.
(** A candidate's audio, its conversion, a gap and its close; then a second
    subscription, which mute ends. *)
Definition packet_1 : Packet := mic_packet 10 1000 FLAG_DISCONTINUITY [1%Z; 2%Z; 3%Z; 4%Z].
Definition packet_2 : Packet := mic_packet 16 1000 0 [5%Z; 6%Z; 7%Z].
Definition example_events : list UplinkEvent :=
  [ Ev_StreamOpened open_mic; Ev_AcceptCandidate (mkCandidateOpen "L1" 7 4800) 0;
    Ev_Packet packet_1 0; Ev_Convert "L1" "T1" 0; Ev_Drain; Ev_Packet packet_2 0; Ev_Poll 3000000000;
    Ev_TakeCommands; Ev_AcceptCandidate (mkCandidateOpen "L2" 7 0) 0; Ev_Close "L1" Cr_Closed 0;
    Ev_Drain; Ev_Mute ].
Definition example_terms : SessionTerms := mkSessionTerms false false.
Definition example_start : Session := session_new config_default example_terms false.

Lemma packet_1_ok : packet_ok packet_1.
Proof.
  intros stream Hs. vm_compute in Hs. injection Hs as <-. by apply (packet_fits_parsed Mic (packet_frame packet_1)).
Qed.
Lemma packet_2_ok : packet_ok packet_2.
Proof.
  intros stream Hs. vm_compute in Hs. injection Hs as <-. by apply (packet_fits_parsed Mic (packet_frame packet_2)).
Qed.
Lemma example_events_ok : Forall event_ok example_events.
Proof.
  unfold example_events. repeat (constructor; [|]); cbn [event_ok]; try exact I;
    [apply packet_1_ok|apply packet_2_ok|constructor].
Qed.
Lemma example_opened : opened_in example_start example_events = ["L1"; "L2"].
Proof. vm_compute. reflexivity. Qed.
Lemma example_opened_nodup : NoDup (opened_in example_start example_events).
Proof. rewrite example_opened. apply (bool_decide_unpack _). vm_compute. exact I. Qed.

Lemma every_end_is_delivered_once_witness :
  ended_ids (session_log (session_run example_start example_events)) = ["L1"; "L2"] /\
  opened_in example_start example_events
    ≡ₚ (sb_id <$> up_subs (session_run example_start example_events).1)
       ++ ended_ids (session_log (session_run example_start example_events)).
Proof.
  split; [vm_compute; reflexivity|].
  exact (every_end_is_delivered_once config_default example_terms false example_events example_events_ok).
Defined.

Lemma end_is_last_witness :
  exists pre e post, session_log (session_run example_start example_events) = pre ++ Dl_Ended e :: post /\
    en_subscription e = "L1" /\ length post = 1%nat /\
    Forall (fun d => delivery_subscription d <> en_subscription e) post.
Proof.
  set (log := session_log (session_run example_start example_events)).
  exists (take 4 log), (mkEnded "L1" "T1" Sr_Turn 2 (Ec_Closed Cr_Closed)), (drop 5 log).
  assert (Hlog : log = take 4 log ++ Dl_Ended (mkEnded "L1" "T1" Sr_Turn 2 (Ec_Closed Cr_Closed)) :: drop 5 log).
  { vm_compute. reflexivity. }
  split; [exact Hlog|]. split; [reflexivity|]. split; [vm_compute; reflexivity|].
  exact (end_is_last config_default example_terms false example_events _ _ _ example_events_ok
    example_opened_nodup Hlog).
Defined.

Lemma audio_is_contiguous_witness :
  ck_span <$> audio "L1" Mic (session_log (session_run example_start example_events))
    = [mkSpan 0 10; mkSpan 10 14; mkSpan 14 16; mkSpan 16 19] /\
  forall a, a ∈ audio "L1" Mic (session_log (session_run example_start example_events)) ->
    sp_start (ck_span a) < sp_end (ck_span a).
Proof.
  split; [vm_compute; reflexivity|].
  refine (proj2 (audio_is_contiguous config_default example_terms false example_events "L1" Mic
    example_events_ok example_opened_nodup _)).
  discriminate.
Defined.
