(* ===== verification/UplinkProps.v ===== *)
(** * The uplink's contracts

    What each part of the uplink promises its callers: settling, opening and
    converting, muting, and the deadline after a poll. *)
From S2P Require Import Prelude Bytes WireEnum Ema Vocab Streams Clock Blocks Buffer Timeline Delivery Cursor Uplink UplinkInv UplinkReach UplinkLog.

(** ** Settling *)

Definition must_end (now : MonoInstant) (s : Sub) : bool :=
  sb_overflowed s ||
  match sb_phase s with
  | Ph_Active _ => near_miss_done s
  | Ph_Draining _ deadline => drained s || (deadline <=? now)
  end.
Definition settle_cause (s : Sub) : EndCause :=
  if sb_overflowed s then Ec_Overflow
  else match sb_phase s with
       | Ph_Active _ => Ec_Closed Cr_Closed
       | Ph_Draining report _ => Ec_Device report
       end.
Definition zombie_of (now : MonoInstant) (config : UplinkConfig) (s : Sub) : Zombie :=
  mkZombie (sb_key s) (sb_id s) (sub_streams s) (after now (SUBSCRIPTION_TTL + hole_wait config)).

(** What ending the subscription at [at_] does. *)
Record ends_one (at_ : nat) (s : Sub) (cause : EndCause) (zombies : list Zombie) (u u' : Uplink) : Prop := {
  eo_subs : up_subs u' = remove_at at_ (up_subs u);
  eo_ends : retain is_ended (ob_queue (up_outbox u')) =
    retain is_ended (ob_queue (up_outbox u)) ++ [ended_as cause s];
  eo_zombies : up_zombies u' = up_zombies u ++ zombies;
  eo_config : up_config u' = up_config u;
}.

Lemma end_sub_spec at_ s cause leaves now u :
  up_subs u !! at_ = Some s ->
  ends_one at_ s cause (match leaves with LeavesZombie => [zombie_of now (up_config u) s] | LeavesGone => [] end)
    u (end_sub at_ cause leaves now u).
Proof.
  intros Hs. unfold end_sub. rewrite Hs. destruct leaves; (split; [done| |by rewrite ?app_nil_r|done]);
    cbn -[retain]; by rewrite retain_app.
Qed.

Lemma close_at_spec at_ s reason cause now u :
  up_subs u !! at_ = Some s ->
  ends_one at_ s cause (if is_active (sb_phase s) then [zombie_of now (up_config u) s] else [])
    u (close_at at_ reason cause now u).
Proof.
  intros Hs. unfold close_at. rewrite Hs. destruct (is_active _).
  - destruct (end_sub_spec at_ s cause LeavesZombie now
      (send (sb_generation s) (Cmd_Close (mkClose (sb_id s) reason)) u) Hs). by split.
  - exact (end_sub_spec at_ s cause LeavesGone now u Hs).
Qed.

Lemma retain_chunks (chunks : list Chunk) : retain is_ended (Dl_Chunk <$> chunks) = [].
Proof. by induction chunks. Qed.

(** A drain given up differs in what its wants delivered. *)
Lemma give_up_drain_facts at_ s u :
  up_subs u !! at_ = Some s ->
  let v := give_up_drain at_ u in
  exists wants, up_subs v = <[at_ := set_wants wants s]> (up_subs u) /\
    retain is_ended (ob_queue (up_outbox v)) = retain is_ended (ob_queue (up_outbox u)) /\
    up_zombies v = up_zombies u /\ up_config v = up_config u.
Proof.
  intros Hs. unfold give_up_drain. rewrite Hs.
  pose proof (give_up_wants_spec (sb_overflowed s) s (sb_wants s) (up_outbox u)) as H.
  destruct (give_up_wants _ _ _) as [wants o]. destruct H as (chunks & -> & _). exists wants.
  split_and!; [done| |done|done]. change (retain is_ended (ob_queue (push_chunks (up_outbox u) chunks))
    = retain is_ended (ob_queue (up_outbox u))).
  by rewrite push_chunks_queue, retain_app, retain_chunks, app_nil_r.
Qed.

Lemma remove_at_insert {A} i (x : A) l : remove_at i (<[i := x]> l) = remove_at i l.
Proof. unfold remove_at. rewrite take_insert_ge, drop_insert_lt by lia. done. Qed.

Lemma settle_one_spec at_ s now u :
  up_subs u !! at_ = Some s ->
  match settle_one at_ s now u with
  | None => must_end now s = false
  | Some u' =>
      must_end now s = true /\
      ends_one at_ s (settle_cause s) (if is_active (sb_phase s) then [zombie_of now (up_config u) s] else []) u u'
  end.
Proof.
  intros Hs. unfold settle_one, must_end, settle_cause. destruct (sb_overflowed s); cbn [orb].
  { split; [done|]. by apply close_at_spec. }
  destruct (sb_phase s) as [next|report deadline] eqn:Ep.
  - destruct (near_miss_done s); [|done]. split; [done|].
    pose proof (close_at_spec at_ s Cr_Closed (Ec_Closed Cr_Closed) now u Hs) as H. by rewrite Ep in H.
  - destruct (drained s || (deadline <=? now)); [|done]. split; [done|].
    destruct (drained s); [by apply (end_sub_spec at_ s (Ec_Device report) LeavesGone)|].
    destruct (give_up_drain_facts at_ s u Hs) as (wants & H1 & H2 & H3 & H4).
    assert (Hs' : up_subs (give_up_drain at_ u) !! at_ = Some (set_wants wants s)).
    { rewrite H1. apply list_lookup_insert_eq. by eapply lookup_lt_Some. }
    destruct (end_sub_spec at_ _ (Ec_Device report) LeavesGone now _ Hs') as [E1 E2 E3 E4]. split.
    + by rewrite E1, H1, remove_at_insert.
    + by rewrite E2, H2.
    + by rewrite E3, H3.
    + by rewrite E4.
Qed.

Lemma settle_from_spec rounds at_ now u :
  (length (up_subs u) <= at_ + rounds)%nat ->
  let u' := settle_from rounds at_ now u in
  let gone := retain (must_end now) (drop at_ (up_subs u)) in
  up_subs u' = take at_ (up_subs u) ++ retain (fun s => negb (must_end now s)) (drop at_ (up_subs u)) /\
  retain is_ended (ob_queue (up_outbox u')) =
    retain is_ended (ob_queue (up_outbox u)) ++ ((fun s => ended_as (settle_cause s) s) <$> gone) /\
  up_zombies u' = up_zombies u ++ (zombie_of now (up_config u) <$> retain (fun s => is_active (sb_phase s)) gone).
Proof.
  revert at_ u. induction rounds as [|rounds IH]; intros at_ u Hl; cbv zeta; cbn [settle_from].
  { rewrite drop_ge, take_ge by lia. cbn. by rewrite !app_nil_r. }
  destruct (up_subs u !! at_) as [s|] eqn:Es.
  2: { apply lookup_ge_None in Es. rewrite drop_ge, take_ge by lia. cbn. by rewrite !app_nil_r. }
  pose proof (lookup_lt_Some _ _ _ Es) as Hlt. pose proof (settle_one_spec at_ s now u Es) as Hone.
  rewrite (drop_S _ _ _ Es), !retain_cons.
  destruct (settle_one at_ s now u) as [v|].
  - destruct Hone as (Hm & [Hs Hq Hz Hc]).
    destruct (IH at_ v) as (H1 & H2 & H3).
    { rewrite Hs. pose proof (length_remove_at at_ (up_subs u) Hlt). lia. }
    assert (Htake : take at_ (up_subs v) = take at_ (up_subs u) /\ drop at_ (up_subs v) = drop (S at_) (up_subs u)).
    { rewrite Hs. unfold remove_at. rewrite take_app_length', drop_app_length' by (rewrite length_take; lia). done. }
    destruct Htake as [Ht Hd]. rewrite Ht, Hd in *. rewrite H1, H2, H3, Hq, Hz, Hc, Hm. cbn [negb].
    rewrite retain_cons, <- !app_assoc. split_and!; [done|done|]. f_equal. by destruct (is_active _).
  - destruct (IH (S at_) u) as (H1 & H2 & H3); [lia|]. rewrite H1, H2, H3, Hone. cbn [negb].
    rewrite (take_S_r _ _ _ Es), <- app_assoc. done.
Qed.

(** Settling ends exactly the subscriptions that must end, in order: those
    over their delivery bounds, near misses whose range is delivered, and drains
    that are complete or out of time.  Every other subscription stays as it is.
    Each ending posts one notice with its cause, and one the device still serves
    leaves a zombie that waits for the device's own end. *)
Theorem settle_subs_ends_exactly now u :
  let u' := settle_subs now u in
  let gone := retain (must_end now) (up_subs u) in
  up_subs u' = retain (fun s => negb (must_end now s)) (up_subs u) /\
  retain is_ended (ob_queue (up_outbox u')) =
    retain is_ended (ob_queue (up_outbox u)) ++ ((fun s => ended_as (settle_cause s) s) <$> gone) /\
  up_zombies u' = up_zombies u ++ (zombie_of now (up_config u) <$> retain (fun s => is_active (sb_phase s)) gone).
Proof. exact (settle_from_spec (length (up_subs u)) 0 now u ltac:(lia)). Qed.

(** ** Muting *)

(** Erased epochs stay erased. *)
Definition erased_kept (u u' : Uplink) : Prop :=
  tl_erased (up_timeline u) ⊆ tl_erased (up_timeline u').

Lemma end_sub_erased at_ cause leaves now u :
  tl_erased (up_timeline (end_sub at_ cause leaves now u)) = tl_erased (up_timeline u).
Proof. unfold end_sub. destruct (up_subs u !! at_); [|done]. by destruct leaves. Qed.

Lemma close_at_erased at_ reason cause now u :
  tl_erased (up_timeline (close_at at_ reason cause now u)) = tl_erased (up_timeline u).
Proof.
  unfold close_at. destruct (up_subs u !! at_); [|done]. destruct (is_active _); by rewrite end_sub_erased.
Qed.

Lemma settle_erased now u : tl_erased (up_timeline (settle_subs now u)) = tl_erased (up_timeline u).
Proof.
  unfold settle_subs. generalize (length (up_subs u)), 0%nat. intros rounds.
  revert u. induction rounds as [|rounds IH]; intros u at_; cbn [settle_from]; [done|].
  destruct (up_subs u !! at_) as [s|]; [|done].
  destruct (settle_one at_ s now u) as [v|] eqn:Ev; [|done]. rewrite IH. unfold settle_one in Ev.
  destruct (sb_overflowed s); [injection Ev as <-; apply close_at_erased|].
  destruct (sb_phase s).
  - destruct (near_miss_done s); [|done]. injection Ev as <-. apply close_at_erased.
  - destruct (_ || _); [|done]. injection Ev as <-. rewrite end_sub_erased.
    destruct (drained s); [done|]. destruct (give_up_drain_spec at_ u) as (? & ? & -> & _). done.
Qed.

Lemma release_all_timeline now u : up_timeline (release_all now u) = up_timeline u.
Proof. unfold release_all. by destruct (release_subs _ _ _ _ _). Qed.

Lemma end_all_erased cause u : tl_erased (up_timeline (end_all cause u)) = tl_erased (up_timeline u).
Proof.
  unfold end_all.
  assert (H1 : forall zombies v, tl_erased (up_timeline (foldl (fun u z =>
    with_timeline (timeline_drop_claims (up_timeline u) (zb_key z)) u) v zombies)) = tl_erased (up_timeline v)).
  { induction zombies as [|z zombies IH]; intros v; cbn [foldl]; [done|]. by rewrite IH. }
  rewrite H1. cbn.
  assert (H2 : forall subs v, tl_erased (up_timeline (foldl (end_one cause) v subs)) = tl_erased (up_timeline v)).
  { induction subs as [|s subs IH]; intros v; cbn [foldl]; [done|]. by rewrite IH. }
  by rewrite H2.
Qed.

Lemma end_silently_timeline cause u : up_timeline (end_silently cause u) = up_timeline u.
Proof.
  unfold end_silently.
  assert (H : forall subs v, up_timeline (foldl (fun u s => push_ended s cause u) v subs) = up_timeline v).
  { induction subs as [|s subs IH]; intros v; cbn [foldl]; [done|]. by rewrite IH. }
  by rewrite H.
Qed.

Lemma activate_erased id owner reason capture streams near_miss now u :
  tl_erased (up_timeline (activate id owner reason capture streams near_miss now u).1)
    = tl_erased (up_timeline u).
Proof.
  unfold activate.
  assert (H : forall requests tl, tl_erased (activate_streams u (up_next_key u) capture tl requests).1.1 = tl_erased tl).
  { induction requests as [|r requests IH]; intros tl; cbn [activate_streams]; [done|].
    assert (Hone : tl_erased (activate_stream u (up_next_key u) capture tl r).1.1 = tl_erased tl).
    { destruct r as [stream start]. unfold activate_stream.
      destruct (match stream with Reference => tl_reference tl | _ => Some capture end) as [epoch|]; [|done].
      cbn [fst]. destruct (negb _); [|done]. apply (ensure_fields tl stream epoch). }
    destruct (activate_stream _ _ _ _ _) as [[tl1 w] g]. specialize (IH tl1).
    destruct (activate_streams _ _ _ _ requests) as [[tl2 ws] g']. cbn in *. by rewrite IH. }
  specialize (H (stream_list streams) (up_timeline u)). by destruct (activate_streams _ _ _ _ _) as [[tl ws] g].
Qed.

Lemma open_with_erased fresh reason owner streams near_miss now u :
  tl_erased (up_timeline (open_with fresh reason owner streams near_miss now u).1) = tl_erased (up_timeline u).
Proof.
  unfold open_with. destruct (check_open _ _) as [capture|]; [|done]. destruct (bool_decide _); [done|].
  destruct (_ && _); [done|].
  pose proof (activate_erased fresh owner (reason_of_open reason) capture streams near_miss now u) as H.
  by destruct (activate _ _ _ _ _ _ _ _).
Qed.

Lemma stream_opened_erased open u :
  tl_erased (up_timeline (stream_opened open u)) = tl_erased (up_timeline u).
Proof.
  unfold stream_opened. destruct (is_erased _ _ _); [done|].
  assert (Hcap : tl_erased (up_timeline
    (let u := if negb (bool_decide (tl_capture (up_timeline u) = Some (so_epoch open)))
       then with_timeline (set_capture (up_timeline (end_all Ec_CaptureEpoch u)) (Some (so_epoch open)))
              (end_all Ec_CaptureEpoch u) else u in
     with_timeline (ensure (up_timeline u) (so_stream open) (so_epoch open)) u)) = tl_erased (up_timeline u)).
  { cbv zeta. destruct (negb _); cbn [up_timeline with_timeline].
    - destruct (ensure_fields (set_capture (up_timeline (end_all Ec_CaptureEpoch u)) (Some (so_epoch open)))
        (so_stream open) (so_epoch open)) as (_ & _ & _ & ->). apply end_all_erased.
    - apply ensure_fields. }
  destruct (so_stream open); try exact Hcap. cbn. apply (ensure_fields (set_reference _ _)).
Qed.

Lemma ingest_erased packet now u :
  tl_erased (up_timeline (ingest packet now u).1) = tl_erased (up_timeline u).
Proof.
  unfold ingest. destruct (stream_of_kind _); [|done]. destruct (is_erased _ _ _); [done|].
  destruct (timeline_get _ _ _) as [held|]; [|done]. destruct (ingest_epoch _ _ _) as [[held' c] n].
  destruct (ingest_subs _ _ _ _ _ _ _). cbn [fst]. by rewrite settle_erased.
Qed.

Lemma step_erased u ev : erased_kept u (uplink_step u ev).
Proof.
  assert (Heq : forall v, tl_erased (up_timeline v) = tl_erased (up_timeline u) -> erased_kept u v)
    by by unfold erased_kept; intros v ->.
  destruct ev; cbn [uplink_step]; try (apply Heq; done).
  - apply Heq, stream_opened_erased.
  - apply Heq. unfold stream_ended. destruct (negb _).
    + destruct (bool_decide _); [apply end_all_erased|done].
    + set (v := if bool_decide _ then _ else u).
      assert (Hv : tl_erased (up_timeline v) = tl_erased (up_timeline u)) by (subst v; by case_bool_decide).
      clearbody v. destruct (source_of _ _ _ _); [|done].
      destruct (end_references _ _ _ _ _ _). by rewrite settle_erased.
  - apply Heq, ingest_erased.
  - apply Heq. unfold device_ended. destruct (any _ _); [done|]. destruct (sub_index _ _); [|done].
    destruct (up_subs u !! _); [|done]. destruct (negb _); [done|].
    destruct (ue_reason report); rewrite ?end_sub_erased; try done;
      by rewrite settle_erased, release_all_timeline.
  - unfold erased_kept, mute, erase. cbn [up_timeline with_timeline tl_erased].
    rewrite end_silently_timeline. cbn. set_solver.
  - apply Heq. unfold session_lost. cbn [up_timeline with_timeline]. by rewrite end_silently_timeline.
  - apply Heq. unfold accept_candidate. destruct (check_open _ _) as [capture|]; [|done].
    destruct (any _ _); [done|].
    match goal with |- context [activate ?a ?b ?c ?d ?e ?f ?g ?h] =>
      pose proof (activate_erased a b c d e f g h) as H; by destruct (activate a b c d e f g h) end.
  - apply Heq. unfold convert_to_turn. destruct (find_sub _ _); [|done]. by do 2 (destruct (negb _); [done|]).
  - apply Heq. unfold uplink_open. destruct (_ && _); [done|apply open_with_erased].
  - apply Heq. unfold open_near_miss. destruct (negb _); [done|]. destruct (check_open _ _); [|done].
    apply open_with_erased.
  - apply Heq. unfold close. destruct (sub_index _ _); [apply close_at_erased|done].
  - apply Heq. unfold command_rejected. destruct (sub_index _ _); [|done].
    destruct (up_subs u !! _); [|done]. destruct (_ || _); [done|apply end_sub_erased].
  - apply Heq. unfold poll. rewrite settle_erased. unfold expire_zombies.
    cbn [up_timeline with_zombies with_timeline].
    assert (H : forall zs tl, tl_erased (foldl (fun tl z => timeline_drop_claims tl (zb_key z)) tl zs) = tl_erased tl).
    { induction zs as [|z zs IH]; intros tl; cbn [foldl]; [done|]. by rewrite IH. }
    by rewrite H, release_all_timeline.
  - apply Heq. unfold uplink_drain. by destruct (outbox_drain _ _) as [[o out]|].
Qed.

Lemma steps_erased u events : erased_kept u (foldl uplink_step u events).
Proof.
  revert u. induction events as [|ev events IH]; intros u; cbn [foldl]; [by unfold erased_kept|].
  unfold erased_kept in *. etransitivity; [apply step_erased|apply IH].
Qed.

Lemma ensure_erased_notin u e stream :
  uplink_inv u -> e ∈ tl_erased (up_timeline u) -> stream <> Reference ->
  e ∉ es_epoch <$> epochs (up_timeline u) stream /\ tl_capture (up_timeline u) <> Some e.
Proof. intros Hu He Hs. destruct (ti_erased _ (ui_timeline _ Hu) e He) as [Hc Hst]. auto. Qed.

(** C6: Mute forgets, for the rest of the session.  Whatever happens after it, a
    packet of a capture epoch that was current or held when the user muted is
    refused and changes nothing, and no capture stream holds or reopens that
    epoch. *)
Theorem mute_forgets config terms muted before after packet now stream epoch :
  Forall event_ok before -> Forall event_ok after ->
  stream_of_kind (h_kind (p_header packet)) = Some stream -> h_epoch (p_header packet) = epoch ->
  stream <> Reference ->
  let u := foldl uplink_step (uplink_new config terms muted) before in
  epoch ∈ es_epoch <$> epochs (up_timeline u) stream \/ tl_capture (up_timeline u) = Some epoch ->
  let v := foldl uplink_step (mute u) after in
  ingest packet now v = (v, In_ErasedEpoch) /\
  tl_capture (up_timeline v) <> Some epoch /\
  (forall other, other <> Reference -> epoch ∉ es_epoch <$> epochs (up_timeline v) other).
Proof.
  intros Hb Ha Hk He Hs u Hheld v.
  assert (Hu : uplink_inv u) by by apply reachable_inv.
  assert (Hv : uplink_inv v).
  { subst v. apply mute_inv in Hu. revert Hu. generalize (mute u). clear -Ha.
    induction Ha as [|ev events Hev _ IH]; intros w Hw; cbn [foldl]; [done|]. by apply IH, uplink_step_inv. }
  assert (Hin : epoch ∈ tl_erased (up_timeline v)).
  { apply (steps_erased (mute u) after). unfold mute. cbn [up_timeline with_timeline].
    rewrite end_silently_timeline. cbn [with_muted up_timeline]. apply (erased_in _ stream); [done|].
    destruct Hheld; [by left|by right; left]. }
  split_and!.
  - unfold ingest, is_erased. by rewrite Hk, He, bool_decide_eq_false_2, bool_decide_eq_true_2.
  - by apply (ensure_erased_notin v epoch stream).
  - intros other Ho. by apply (ensure_erased_notin v epoch other).
Qed.

(** A muted uplink is silent and stays so: it has no subscription, the only
    deliveries still queued are end notices, and every way of opening a
    subscription is refused and changes nothing. *)
Theorem muted_is_silent config terms muted events :
  Forall event_ok events ->
  let u := foldl uplink_step (uplink_new config terms muted) events in
  up_muted u = true ->
  up_subs u = [] /\ Forall (fun d => is_ended d = true) (ob_queue (up_outbox u)) /\
  (forall candidate now, accept_candidate candidate now u = (u, Err Oe_Muted)) /\
  (forall fresh reason owner streams now, exists e, uplink_open fresh reason owner streams now u = (u, Err e)) /\
  (forall fresh n now, exists e, open_near_miss fresh n now u = (u, Err e)).
Proof.
  intros He u Hm. assert (Hu : uplink_inv u) by by apply reachable_inv.
  destruct (ui_muted _ Hu Hm) as [Hsubs Hq].
  assert (Hc : forall requested, check_open requested u = Err Oe_Muted) by (intros; unfold check_open; by rewrite Hm).
  split_and!; [done|done| | |].
  - intros candidate now. unfold accept_candidate. by rewrite Hc.
  - intros fresh reason owner streams now. unfold uplink_open. destruct (_ && _); [by eexists|].
    unfold open_with. rewrite Hc. by eexists.
  - intros fresh n now. unfold open_near_miss. destruct (negb _); [by eexists|]. rewrite Hc. by eexists.
Qed.

(** C39: The subscriptions of any reachable uplink belong together: each is on the
    capture epoch the device is in, so are all its capture cursors, their keys
    are distinct and below the next one to be given. *)
Theorem subscriptions_belong config terms muted events s :
  Forall event_ok events ->
  let u := foldl uplink_step (uplink_new config terms muted) events in
  s ∈ up_subs u ->
  tl_capture (up_timeline u) = Some (sb_capture_epoch s) /\ sb_key s < up_next_key u /\
  (forall w c, w ∈ sb_wants s -> c ∈ wt_cursors w -> wt_stream w <> Reference ->
    cu_epoch c = sb_capture_epoch s) /\
  NoDup (sb_key <$> up_subs u).
Proof.
  intros He u Hs. assert (Hu : uplink_inv u) by by apply reachable_inv.
  pose proof (ui_subs _ Hu) as Hall. eapply Forall_forall in Hall; [|exact Hs].
  destruct Hall as [Hc Hk Hw]. split_and!; [done|done| |apply (ui_keys _ Hu)].
  intros w c Hwin Hcin Hst. eapply Forall_forall in Hw; [|exact Hwin].
  eapply Forall_forall in Hw; [|exact Hcin]. by apply Hw.
Qed.

(** ** Opening and converting *)

Definition grant_of (capture : N) (stream : StreamId) : Grant :=
  mkGrant stream match stream with Reference => BgEveryOpenEpoch | _ => BgEpoch capture end.
Definition starts_at (start : StreamStart) : bool := match start with StartAt _ => true | StartLive => false end.

(** A stream asked for from a past sample is granted backfill; one asked for live
    is not. *)
Lemma activate_streams_grants u key capture requests tl :
  (activate_streams u key capture tl requests).2
    = grant_of capture <$> (retain (fun r => starts_at r.2) requests).*1.
Proof.
  revert tl. induction requests as [|[stream start] requests IH]; intros tl; cbn [activate_streams]; [done|].
  assert (Hone : (activate_stream u key capture tl (stream, start)).2
    = if starts_at start then [grant_of capture stream] else []).
  { unfold activate_stream.
    assert (Hspec : negb (bool_decide (start_spec stream start = Ss_Live)) = starts_at start).
    { destruct start as [at_|]; [|done]. cbn [start_spec starts_at]. by destruct (device_grid_start stream at_). }
    rewrite Hspec. by destruct (match stream with Reference => tl_reference tl | _ => Some capture end). }
  destruct (activate_stream _ _ _ _ _) as [[tl1 w] g]. specialize (IH tl1).
  destruct (activate_streams _ _ _ _ requests) as [[tl2 ws] g']. cbn in *. rewrite Hone, IH.
  unfold retain. cbn. by destruct (starts_at start).
Qed.

(** What [activate] adds. *)
Lemma activate_spec id owner reason capture streams near_miss now u :
  let '(u', grants) := activate id owner reason capture streams near_miss now u in
  (exists s, up_subs u' = up_subs u ++ [s] /\ sb_key s = up_next_key u /\ sb_id s = id /\ sb_owner s = owner /\
    sb_reason s = reason /\ sb_generation s = GENERATION_FIRST /\ sb_capture_epoch s = capture /\
    sb_phase s = Ph_Active (after now RENEW_INTERVAL) /\ sb_near_miss s = near_miss /\
    wt_stream <$> sb_wants s = (stream_list streams).*1) /\
  up_next_key u' = up_next_key u + 1 /\ up_commands u' = up_commands u /\ up_outbox u' = up_outbox u /\
  up_muted u' = up_muted u /\ up_zombies u' = up_zombies u /\
  grants = grant_of capture <$> (retain (fun r => starts_at r.2) (stream_list streams)).*1.
Proof.
  unfold activate.
  pose proof (activate_streams_grants u (up_next_key u) capture (stream_list streams) (up_timeline u)) as Hg.
  pose proof (activate_streams_fresh u (up_next_key u) capture (stream_list streams) (up_timeline u)) as Hf.
  destruct (activate_streams _ _ _ _ _) as [[tl ws] grants]. destruct Hf as [Hs _]. cbn in Hg. cbn.
  split_and!; try done. eexists. split; [done|]. by split_and!.
Qed.

Lemma candidate_streams_list starts :
  stream_list (candidate_streams starts) =
    [(Mic, StartAt (cs_mic starts)); (Reference, StartAt (cs_reference starts));
     (Cells, StartAt (cs_cells starts))]
    ++ match cs_afe starts with Some afe => [(Afe, StartAt afe)] | None => [] end.
Proof. unfold candidate_streams. by destruct (cs_afe starts). Qed.

(** What accepting a candidate promises.  It is refused, changing nothing,
    exactly when muted, when the candidate is of another capture epoch than the
    device's, or when its ID is still live.  Accepted, the subscription joins the
    others as their newest, active under a new key in the first generation; the
    device opened it, so no command is sent, and it is granted backfill of the
    microphone, the cells, the metadata if the session has it, and every open
    reference epoch. *)
Theorem accept_candidate_contract c now u :
  let '(u', r) := accept_candidate c now u in
  match r with
  | Err e =>
      u' = u /\
      (up_muted u = true /\ e = Oe_Muted \/
       up_muted u = false /\ tl_capture (up_timeline u) <> Some (co_capture_epoch c) /\
         e = Oe_StaleEpoch (tl_capture (up_timeline u)) (co_capture_epoch c) \/
       up_muted u = false /\ tl_capture (up_timeline u) = Some (co_capture_epoch c) /\
         co_subscription_id c ∈ sb_id <$> up_subs u /\ e = Oe_DuplicateId)
  | Ok grants =>
      up_muted u = false /\ tl_capture (up_timeline u) = Some (co_capture_epoch c) /\
      co_subscription_id c ∉ sb_id <$> up_subs u /\
      (exists s, up_subs u' = up_subs u ++ [s] /\ sb_key s = up_next_key u /\ sb_id s = co_subscription_id c /\
        sb_reason s = Sr_Candidate /\ sb_generation s = GENERATION_FIRST /\
        sb_phase s = Ph_Active (after now RENEW_INTERVAL) /\
        wt_stream <$> sb_wants s = gr_stream <$> grants) /\
      up_next_key u' = up_next_key u + 1 /\ up_commands u' = up_commands u /\ up_outbox u' = up_outbox u /\
      grants = [mkGrant Mic (BgEpoch (co_capture_epoch c)); mkGrant Reference BgEveryOpenEpoch;
                mkGrant Cells (BgEpoch (co_capture_epoch c))]
        ++ (if t_afe_metadata (up_terms u) then [mkGrant Afe (BgEpoch (co_capture_epoch c))] else [])
  end.
Proof.
  unfold accept_candidate, check_open. destruct (up_muted u) eqn:Em; [by split; [|left]|].
  destruct (decide (tl_capture (up_timeline u) = Some (co_capture_epoch c))) as [Hc|Hc].
  - rewrite Hc, bool_decide_eq_true_2 by done. cbn [negb].
    destruct (any _ _) eqn:Ea.
    { split; [done|]. right. right. split_and!; [done|done| |done].
      apply any_true in Ea as (s & Hs & Hid%bool_decide_eq_true). apply list_elem_of_fmap. eauto. }
    pose proof (activate_spec (co_subscription_id c) (owner_of_subscription (co_subscription_id c)) Sr_Candidate
      (co_capture_epoch c) (candidate_streams (candidate_starts (co_support_start c) (t_afe_metadata (up_terms u))))
      None now u) as Ha. rewrite candidate_streams_list in Ha.
    destruct (activate _ _ _ _ _ _ _ _) as [u' grants].
    destruct Ha as ((s & Hs & Hk & Hid & _ & Hr & Hg & _ & Hp & _ & Hw) & Hn & Hcmd & Ho & _ & _ & ->).
    assert (Hlist : forall afe : bool, grant_of (co_capture_epoch c) <$>
      (retain (fun r : StreamId * StreamStart => starts_at r.2)
        ([(Mic, StartAt (cs_mic (candidate_starts (co_support_start c) afe)));
         (Reference, StartAt (cs_reference (candidate_starts (co_support_start c) afe)));
         (Cells, StartAt (cs_cells (candidate_starts (co_support_start c) afe)))]
        ++ match cs_afe (candidate_starts (co_support_start c) afe) with
           | Some a => [(Afe, StartAt a)] | None => [] end)).*1
      = [mkGrant Mic (BgEpoch (co_capture_epoch c)); mkGrant Reference BgEveryOpenEpoch;
                mkGrant Cells (BgEpoch (co_capture_epoch c))]
        ++ (if afe then [mkGrant Afe (BgEpoch (co_capture_epoch c))] else [])) by by intros [].
    rewrite Hlist. split_and!; try done.
    + intros (s' & Hid' & Hs')%list_elem_of_fmap. eapply any_false in Ea; [|exact Hs'].
      apply bool_decide_eq_false in Ea. by rewrite Hid' in Ea.
    + exists s. split_and!; try done. rewrite Hw. by destruct (t_afe_metadata (up_terms u)).
  - destruct (tl_capture (up_timeline u)) as [current|] eqn:Ec; rewrite bool_decide_eq_false_2 by done;
      cbn [negb]; (split; [done|]); right; left; by split_and!.
Qed.

(** Converting a candidate to a turn keeps its audio.  It is refused, changing
    nothing, exactly when the ID names no live subscription, when the subscription
    is draining, or when it is not a candidate.  Otherwise that subscription alone
    changes: its owner, reason and next generation; its key, its streams and every
    cursor stay, so delivery goes on from where it was, and one renewal under the
    new generation tells the device. *)
Theorem convert_keeps_audio id turn now u :
  let '(u', r) := convert_to_turn id turn now u in
  match r with
  | Err e =>
      u' = u /\
      (id ∉ sb_id <$> up_subs u /\ e = Ce_UnknownSubscription \/
       exists s, find_sub u id = Some s /\
         (is_active (sb_phase s) = false /\ e = Ce_Ending \/
          is_active (sb_phase s) = true /\ sb_reason s <> Sr_Candidate /\ e = Ce_NotACandidate))
  | Ok _ =>
      exists i s s', up_subs u !! i = Some s /\ sb_id s = id /\ up_subs u' = <[i := s']> (up_subs u) /\
      sb_reason s = Sr_Candidate /\ is_active (sb_phase s) = true /\
      sb_key s' = sb_key s /\ sb_id s' = id /\ sb_wants s' = sb_wants s /\
      sb_capture_epoch s' = sb_capture_epoch s /\ sb_overflowed s' = sb_overflowed s /\
      sb_owner s' = turn /\ sb_reason s' = Sr_Turn /\ sb_generation s' = generation_next (sb_generation s) /\
      up_timeline u' = up_timeline u /\ up_outbox u' = up_outbox u /\
      up_commands u' = up_commands u ++
        [mkOutgoing (sb_generation s') (Cmd_Renew (mkRenew id SUBSCRIPTION_TTL (Some (mkConversion turn))))]
  end.
Proof.
  unfold convert_to_turn. destruct (find_sub u id) as [s|] eqn:Ef.
  - destruct (is_active (sb_phase s)) eqn:Ea; cbn [negb]; [|split; [done|]; right; exists s; by split; [|left]].
    case_bool_decide as Hr; cbn [negb]; [|split; [done|]; right; exists s; split; [done|by right]].
    unfold find_sub in Ef.
    assert (Hi : exists i, up_subs u !! i = Some s /\
      update_first (fun s => bool_decide (sb_id s = id)) (convert_sub turn now) (up_subs u)
      = <[i := convert_sub turn now s]> (up_subs u)).
    { clear -Ef. unfold find_first in Ef. induction (up_subs u) as [|x xs IH]; cbn in *; [done|].
      destruct (bool_decide (sb_id x = id)) eqn:E.
      - injection Ef as ->. by exists 0%nat.
      - destruct (IH Ef) as (i & Hi & Hup). exists (S i). cbn. by rewrite Hup. }
    apply find_first_Some in Ef as [_ Hid%bool_decide_eq_true]. destruct Hi as (i & Hi & Hup).
    exists i, s, (convert_sub turn now s). cbn. by split_and!.
  - split; [done|]. left. split; [|done]. intros (s & -> & Hs)%list_elem_of_fmap. unfold find_sub in Ef.
    apply find_first_None in Ef. eapply any_false in Ef; [|exact Hs]. by rewrite bool_decide_eq_true_2 in Ef.
Qed.

(** ** The deadline after a poll *)

(** Every cursor that waits for audio waits on an epoch the timeline holds. *)
Definition waits_on_held (u : Uplink) : Prop :=
  forall s w c, s ∈ up_subs u -> w ∈ sb_wants s -> c ∈ wt_cursors w -> cu_stalled_since c <> None ->
    timeline_get (up_timeline u) (wt_stream w) (cu_epoch c) <> None.

Lemma threads_in {A B} (R : A -> list B -> A -> Prop) xs bs xs' x' :
  threads R xs bs xs' -> x' ∈ xs' -> exists x b, x ∈ xs /\ R x b x'.
Proof.
  induction 1 as [|x b x1 xs bs xs1 Hx Ht IH]; [by intros ?%elem_of_nil|].
  intros [->|Hin]%elem_of_cons; [exists x, b; split; [by left|done]|].
  destruct (IH Hin) as (y & c & Hy & HR). exists y, c. split; [by right|done].
Qed.

Definition later (now : MonoInstant) (wait : Duration) (c : Cursor) : Prop :=
  forall since, cu_stalled_since c = Some since -> since = now \/ now < after since wait.

Lemma release_all_later now u s' w' c' :
  uplink_inv u -> waits_on_held u ->
  s' ∈ up_subs (release_all now u) -> sb_overflowed s' = false ->
  w' ∈ sb_wants s' -> c' ∈ wt_cursors w' -> later now (hole_wait (up_config u)) c'.
Proof.
  intros Hu Hheld Hs' Ho Hw' Hc'. unfold release_all in Hs'. destruct (ui_timeline _ Hu) as [H1 H2 _].
  pose proof (release_subs_spec _ (up_config u) now H1 H2 (up_subs u) (up_outbox u)
    (subs_inv_wf _ _ _ (ui_subs _ Hu))) as H.
  destruct (release_subs _ _ _ _ _) as [subs' o']. destruct H as (chunks & _ & Ht). cbn in Hs'.
  destruct (threads_in _ _ _ _ _ Ht Hs') as (s & b & Hs & [_ Hws]).
  destruct (threads_in _ _ _ _ _ Hws Hw') as (w & b' & Hw & [Hst Hcs]).
  destruct (threads_in _ _ _ _ _ Hcs Hc') as (c & b'' & Hc & Hq).
  pose proof (ui_subs _ Hu) as Hall. eapply Forall_forall in Hall; [|exact Hs].
  destruct Hall as [_ _ Hall]. eapply Forall_forall in Hall; [|exact Hw].
  eapply Forall_forall in Hall; [|exact Hc]. destruct Hall as (_ & Hidle & _).
  rewrite Ho in Hq. unfold quiet in Hq. intros since Hsince.
  destruct (source_of _ _ _ _) as [source|] eqn:Es.
  - unfold cursor_released in Hq. destruct (cu_pos c) as [pos|] eqn:Ep.
    + destruct Hq as (o & o1 & within & [(pos' & _ & _ & Hstop) _ _ _] & Hover).
      destruct within; [|by specialize (Hover eq_refl)]. by apply (so_waiting _ _ _ _ _ (Hstop eq_refl)).
    + destruct Hq as [_ ->]. rewrite Hidle in Hsince; done.
  - destruct Hq as [_ ->]. exfalso. apply (Hheld s w c Hs Hw Hc); [by rewrite Hsince|].
    unfold source_of in Es. by destruct (timeline_get _ _ _).
Qed.

Lemma release_all_fixed now u s' :
  uplink_inv u -> s' ∈ up_subs (release_all now u) ->
  exists s, s ∈ up_subs u /\ sb_phase s' = sb_phase s.
Proof.
  intros Hu Hs'. unfold release_all in Hs'. destruct (ui_timeline _ Hu) as [H1 H2 _].
  pose proof (release_subs_spec _ (up_config u) now H1 H2 (up_subs u) (up_outbox u)
    (subs_inv_wf _ _ _ (ui_subs _ Hu))) as H.
  destruct (release_subs _ _ _ _ _) as [subs' o']. destruct H as (chunks & _ & Ht). cbn in Hs'.
  destruct (threads_in _ _ _ _ _ Ht Hs') as (s & b & Hs & [(_ & _ & _ & _ & _ & _ & Hp & _) _]). eauto.
Qed.

Lemma after_later now d : now < u64_max -> 0 < d -> now < after now d.
Proof. unfold after, sat_add64, u64_max. lia. Qed.

Lemma minimum_in l d : minimum l = Some d -> d ∈ l.
Proof.
  destruct l as [|x l]; cbn; [done|]. intros [= <-].
  revert x. induction l as [|y l IH]; intros x; cbn; [by left|].
  specialize (IH (N.min x y)). apply elem_of_cons in IH as [IH|IH]; [|by right; right].
  rewrite IH. destruct (N.min_spec x y) as [[_ ->]|[_ ->]]; [by left|by right; left].
Qed.

Lemma renew_later now u s next :
  now < u64_max -> s ∈ up_subs (renew now u) -> sb_phase s = Ph_Active next -> now < next.
Proof.
  intros Hn Hs Hp. unfold renew in Hs. cbn in Hs. apply list_elem_of_fmap in Hs as (s0 & -> & _).
  unfold renew_due in Hp. destruct (sb_phase s0) as [next0|] eqn:E0; [|congruence].
  destruct (N.leb_spec next0 now).
  - injection Hp as <-. apply after_later; [done|]. unfold RENEW_INTERVAL, from_secs. lia.
  - rewrite E0 in Hp. injection Hp as <-. done.
Qed.

Lemma settle_from_config rounds at_ now u : up_config (settle_from rounds at_ now u) = up_config u.
Proof.
  revert at_ u. induction rounds as [|rounds IH]; intros at_ u; cbn [settle_from]; [done|].
  destruct (up_subs u !! at_) as [s|] eqn:Es; [|done]. pose proof (settle_one_spec at_ s now u Es) as H.
  destruct (settle_one at_ s now u) as [v|]; [|done]. destruct H as [_ [_ _ _ Hc]]. by rewrite IH, Hc.
Qed.

(** A poll leaves nothing due: the next deadline the runtime is told to wait
    for is later than the poll, so a runtime that polls at each deadline never
    spins.  This needs every waiting cursor's epoch to be held still, a positive
    wait for holes and a clock below its end. *)
Theorem poll_leaves_nothing_due config terms muted events now d :
  Forall event_ok events ->
  let u := foldl uplink_step (uplink_new config terms muted) events in
  waits_on_held u -> 0 < hole_wait (up_config u) -> now < u64_max ->
  next_deadline (poll now u) = Some d -> now < d.
Proof.
  intros He u Hheld Hwait Hnow Hd. assert (Hu : uplink_inv u) by by apply reachable_inv. clearbody u.
  set (u1 := release_all now (renew now u)). set (u2 := expire_zombies now u1).
  assert (Hcfg : up_config u2 = up_config u).
  { unfold u2, u1, release_all. by destruct (release_subs _ _ _ _ _). }
  destruct (settle_from_spec (length (up_subs u2)) 0 now u2 ltac:(lia)) as (Hsubs & _ & Hz).
  rewrite drop_0 in Hsubs, Hz. cbn [take app] in Hsubs.
  unfold next_deadline in Hd. apply minimum_in in Hd.
  change (poll now u) with (settle_subs now u2) in Hd. unfold settle_subs in Hd. rewrite Hsubs, Hz in Hd.
  rewrite settle_from_config, Hcfg in Hd.
  apply elem_of_app in Hd as [Hd|Hd].
  - apply list_elem_of_In, in_flat_map in Hd as (s & Hs & Hd). apply list_elem_of_In in Hs, Hd.
    apply elem_of_retain in Hs as [Hs Hstay]. apply negb_true_iff in Hstay.
    change (up_subs u2) with (up_subs u1) in Hs. unfold must_end in Hstay.
    apply orb_false_iff in Hstay as [Ho Hph]. unfold sub_deadlines in Hd.
    apply elem_of_cons in Hd as [->|Hd].
    + destruct (sb_phase s) as [next|report deadline] eqn:Ep; cbn.
      * destruct (release_all_fixed _ _ _ (renew_inv now u Hu) Hs) as (s0 & Hs0 & Hp).
        eapply renew_later; [done|exact Hs0|]. by rewrite <- Hp, Ep.
      * apply orb_false_iff in Hph as [_ ?%N.leb_gt]. done.
    + apply list_elem_of_omap in Hd as (c & Hc & Hd). unfold stall_deadline in Hd.
      apply list_elem_of_In, in_flat_map in Hc as (w & Hw & Hc). apply list_elem_of_In in Hw, Hc.
      destruct (cu_stalled_since c) as [since|] eqn:Es; [|done]. cbn in Hd. injection Hd as <-.
      assert (Hh : waits_on_held (renew now u)).
      { intros s1 w1 c1 Hs1. cbn in Hs1. apply list_elem_of_fmap in Hs1 as (s2 & -> & Hs2).
        intros Hw1. apply Hheld with s2; [done|]. unfold renew_due in Hw1. by repeat case_match. }
      destruct (release_all_later now (renew now u) s w c (renew_inv now u Hu) Hh Hs Ho Hw Hc since Es) as [->|?];
        [by apply after_later|done].
  - rewrite fmap_app in Hd. apply elem_of_app in Hd as [Hd|Hd].
    + apply list_elem_of_fmap in Hd as (z & -> & Hz'). unfold u2, expire_zombies in Hz'. cbn in Hz'.
      by apply elem_of_retain in Hz' as [_ ?%N.ltb_lt].
    + rewrite <- list_fmap_compose in Hd. apply list_elem_of_fmap in Hd as (s & -> & _). cbn.
      apply after_later; [done|]. unfold SUBSCRIPTION_TTL, from_secs. lia.
Qed.

Definition reference_packet (epoch first : N) (flags : N) (pcm : list Z) : Packet := {|
  p_header := {| h_kind := K_Reference; h_flags := flags; h_epoch := epoch; h_sequence := 1;
    h_first_sample := first; h_mono_ns := 1000; h_uncertainty_us := Some 5;
    h_frame_count := N.of_nat (length pcm); h_generation := 0; h_source_mask := 0 |};
  p_end_sample := first + N.of_nat (length pcm);
  p_payload := concat (i16_to_le <$> pcm) |}.
Definition third_reference_events : list UplinkEvent :=
  [ Ev_StreamOpened (mkStreamOpen Mic 7 None); Ev_StreamOpened (mkStreamOpen Reference 1 None);
    Ev_Packet (reference_packet 1 90000 FLAG_DISCONTINUITY [1%Z; 2%Z]) 0;
    Ev_AcceptCandidate (mkCandidateOpen "L1" 7 0) 0;
    Ev_Packet (reference_packet 1 2560 FLAG_DISCONTINUITY [3%Z; 4%Z]) 0;
    Ev_AcceptCandidate (mkCandidateOpen "L2" 7 0) 0;
    Ev_Packet (reference_packet 1 0 FLAG_DISCONTINUITY [5%Z; 6%Z]) 0;
    Ev_StreamOpened (mkStreamOpen Reference 2 None); Ev_StreamOpened (mkStreamOpen Reference 3 None) ].

(** The hypothesis of [poll_leaves_nothing_due] on held epochs is not met by
    every reachable uplink: when a third reference epoch opens while the first
    still has a waiting cursor, the timeline drops the first, no release reaches
    the cursor again, and its deadline stays in the past, poll after poll. *)
Lemma dropped_epoch_stays_due :
  let u := foldl uplink_step (uplink_new config_default example_terms false) third_reference_events in
  let u1 := poll (from_secs 10) u in
  next_deadline u1 = Some (from_secs 2) /\ next_deadline (poll (from_secs 20) u1) = Some (from_secs 2).
Proof. vm_compute. split; reflexivity. Qed.

(** ** Witnesses *)
Definition waits_on_held_check (u : Uplink) : bool :=
  forallb (fun s => forallb (fun w => forallb (fun c =>
    match cu_stalled_since c with
    | None => true
    | Some _ => match timeline_get (up_timeline u) (wt_stream w) (cu_epoch c) with Some _ => true | None => false end
    end) (wt_cursors w)) (sb_wants s)) (up_subs u).

Lemma waits_on_held_checked u : waits_on_held_check u = true -> waits_on_held u.
Proof.
  intros H s w c Hs Hw Hc Hst. unfold waits_on_held_check in H. rewrite forallb_forall in H.
  apply list_elem_of_In in Hs, Hw, Hc. specialize (H s Hs). rewrite forallb_forall in H. specialize (H w Hw).
  rewrite forallb_forall in H. specialize (H c Hc). cbn in H.
  destruct (cu_stalled_since c); [|done]. by destruct (timeline_get _ _ _).
Qed.

(** The session while the gap after its first packets is still open. *)
Definition waiting_events : list UplinkEvent :=
  [ Ev_StreamOpened open_mic; Ev_AcceptCandidate (mkCandidateOpen "L1" 7 4800) 0;
    Ev_Packet packet_1 0; Ev_AcceptCandidate (mkCandidateOpen "L2" 7 4800) 0; Ev_Poll (from_secs 1) ].

Lemma waiting_events_ok : Forall event_ok waiting_events.
Proof.
  unfold waiting_events. repeat (constructor; [|]); cbn [event_ok]; try exact I; [apply packet_1_ok|constructor].
Qed.

Lemma poll_leaves_nothing_due_witness :
  let u := foldl uplink_step (uplink_new config_default example_terms false) waiting_events in
  next_deadline u = Some (from_secs 2) /\ next_deadline (poll (from_secs 2) u) = Some (from_secs 3) /\
  from_secs 2 < from_secs 3.
Proof.
  cbv zeta. split; [vm_compute; reflexivity|]. split; [vm_compute; reflexivity|].
  refine (poll_leaves_nothing_due config_default example_terms false waiting_events (from_secs 2) (from_secs 3)
    waiting_events_ok _ _ _ _).
  - apply waits_on_held_checked. vm_compute. reflexivity.
  - vm_compute. reflexivity.
  - vm_compute. reflexivity.
  - vm_compute. reflexivity.
Defined.

Lemma mute_forgets_witness :
  let u := foldl uplink_step (uplink_new config_default example_terms false) waiting_events in
  let v := foldl uplink_step (mute u) [Ev_Unmute; Ev_StreamOpened open_mic] in
  up_muted v = false /\ ingest packet_2 0 v = (v, In_ErasedEpoch).
Proof.
  cbv zeta. split; [vm_compute; reflexivity|].
  refine (proj1 (mute_forgets config_default example_terms false waiting_events
    [Ev_Unmute; Ev_StreamOpened open_mic] packet_2 0 Mic 7 waiting_events_ok _ eq_refl eq_refl _ _)).
  - repeat constructor.
  - discriminate.
  - right. vm_compute. reflexivity.
Defined.

Lemma muted_is_silent_witness :
  let u := foldl uplink_step (uplink_new config_default example_terms false) (waiting_events ++ [Ev_Mute]) in
  length (ob_queue (up_outbox u)) = 2%nat /\ Forall (fun d => is_ended d = true) (ob_queue (up_outbox u)).
Proof.
  cbv zeta. split; [vm_compute; reflexivity|].
  refine (proj1 (proj2 (muted_is_silent config_default example_terms false (waiting_events ++ [Ev_Mute]) _ _))).
  - apply Forall_app. split; [apply waiting_events_ok|by repeat constructor].
  - vm_compute. reflexivity.
Defined.

Lemma subscriptions_belong_witness :
  let u := foldl uplink_step (uplink_new config_default example_terms false) waiting_events in
  exists s, s ∈ up_subs u /\ sb_id s = "L2" /\ tl_capture (up_timeline u) = Some (sb_capture_epoch s).
Proof.
  cbv zeta. set (u := foldl uplink_step _ waiting_events).
  destruct (up_subs u !! 1%nat) as [s|] eqn:E; [|vm_compute in E; discriminate E].
  exists s. split; [exact (list_elem_of_lookup_2 _ _ _ E)|]. split.
  - vm_compute in E. injection E as <-. reflexivity.
  - refine (proj1 (subscriptions_belong config_default example_terms false waiting_events s waiting_events_ok _)).
    exact (list_elem_of_lookup_2 _ _ _ E).
Defined.
