(* ===== verification/Evidence.v ===== *)
(** * Evidence assembly ([turn/src/evidence.rs])

    The speech workers and the transport deliver one utterance's evidence in
    whatever order they finish; the assembler releases each cell once, in sample
    order, when every input its plan requires is there.  A [f32] is its 32 bits,
    compared as IEEE 754 does; loudness in dB and the conversion of recognizer
    times from seconds are floating-point formulas and are not modelled. *)
From S2P Require Import Prelude Bytes WireEnum Ema Vocab Clock.

(** ** Finite [f32] values by their bits *)
Definition F32 : Type := N.
Definition f32_is_finite (b : F32) : bool := negb (N.land (N.shiftr b 23) 255 =? 255).
Definition f32_is_nan (b : F32) : bool :=
  (N.land (N.shiftr b 23) 255 =? 255) && negb (b mod 2 ^ 23 =? 0).
(** The order of values that are numbers is the order of these integers; both
    zeros are 0.  A comparison with a NaN is false. *)
Definition f32_key (b : F32) : Z := if N.testbit b 31 then - Z.of_N (b mod 2 ^ 31) else Z.of_N b.
Definition f32_cmp (op : Z -> Z -> bool) (a b : F32) : bool :=
  negb (f32_is_nan a) && negb (f32_is_nan b) && op (f32_key a) (f32_key b).
Definition f32_eqb : F32 -> F32 -> bool := f32_cmp Z.eqb.
Definition f32_leb : F32 -> F32 -> bool := f32_cmp Z.leb.
Definition f32_ltb : F32 -> F32 -> bool := f32_cmp Z.ltb.
Definition f32_one : F32 := 1065353216.

(** ** Inputs *)
Definition CELL_E_MIN : Z := -12000.
Definition CELL_E_MAX : Z := 0.
Definition FLAG_GAP : N := 1.
Definition FLAG_MUTED_CELL : N := 2.
Definition SOURCES_KNOWN : N := 15.
Definition MAX_CELLS_AHEAD : N := 2000.

Inductive EvidenceError :=
  | Ev_ForeignEpoch (expected got : N)
  | Ev_OutsidePlan (cell : CellIndex)
  | Ev_TooFarAhead (cell : CellIndex)
  | Ev_Conflict (cell : CellIndex)
  | Ev_AsrOutOfOrder (through : Sample)
  | Ev_InvalidCell (detail : string)
  | Ev_InvalidProbability
  | Ev_InvalidPlan.

Record DeviceCell := mkDeviceCell { dc_e_centi : Z; dc_gap : bool; dc_muted : bool; dc_source_mask : N }.

Definition device_cell_from_wire (e_centi : Z) (flags source_mask : N) : result EvidenceError DeviceCell :=
  if negb ((CELL_E_MIN <=? e_centi) && (e_centi <=? CELL_E_MAX))%Z then Err (Ev_InvalidCell "E out of range")
  else if negb (N.ldiff flags (N.lor FLAG_GAP FLAG_MUTED_CELL) =? 0) then Err (Ev_InvalidCell "reserved flag bits")
  else if negb (N.ldiff source_mask SOURCES_KNOWN =? 0) then Err (Ev_InvalidCell "unknown source bits")
  else
    let gap := negb (N.land flags FLAG_GAP =? 0) in
    if gap && negb (e_centi =? CELL_E_MIN)%Z then Err (Ev_InvalidCell "gap cell E must be -12000")
    else Ok (mkDeviceCell e_centi gap (negb (N.land flags FLAG_MUTED_CELL =? 0)) source_mask).

Definition device_cell_audio (e_centi : Z) (source_mask : N) : DeviceCell :=
  mkDeviceCell (Z.min (Z.max e_centi CELL_E_MIN) CELL_E_MAX) false false (N.land source_mask SOURCES_KNOWN).

Inductive DeviceInput := Di_Cell (c : DeviceCell) | Di_Unknown.

(** [Probability::new]. *)
Definition probability_new (p : F32) : option F32 :=
  if f32_is_finite p && f32_leb 0 p && f32_leb p f32_one then Some p else None.

Inductive VadInput := Vi_Probability (p : F32) | Vi_Unknown.
Definition vad_probability (p : F32) : result EvidenceError VadInput :=
  match probability_new p with Some p => Ok (Vi_Probability p) | None => Err Ev_InvalidProbability end.
Definition vad_known (v : VadInput) : option F32 :=
  match v with Vi_Probability p => Some p | Vi_Unknown => None end.

Inductive EchoLabel := El_NoReference | El_EchoOnly | El_NearEndPresent | El_Unknown.
Inductive ReferenceCoverage := Rc_Silent | Rc_Full | Rc_Partial | Rc_Missing.
Record EchoCell := mkEchoCell { ec_label : EchoLabel; ec_coverage : ReferenceCoverage }.
Definition ECHO_MISSING : EchoCell := mkEchoCell El_Unknown Rc_Missing.
Definition ECHO_SILENT_REFERENCE : EchoCell := mkEchoCell El_NoReference Rc_Silent.

Record Token := mkToken { tk_text : Text; tk_emitted : Sample }.
Inductive AsrKind := Ak_Live | Ak_Finalized.
Record AsrObservation := mkAsr {
  asr_through : Sample;
  asr_tokens : list Token;
  asr_trailing_blanks : N;
  asr_kind : AsrKind;
}.

Record EvidencePlan := mkPlan {
  pl_epoch : N;
  pl_cells_from : CellIndex;
  pl_vad_from : CellIndex;
  pl_analysis_from : CellIndex;
}.

Inductive CellAudio :=
  | Ca_Gap (muted : bool)
  | Ca_Present (energy_centi : option Z) (source_mask : option N) (vad : VadInput) (echo : EchoCell).

Definition cell_audio_from_inputs (device : option DeviceInput) (gap : bool) (vad : option VadInput)
    (echo : option EchoCell) : CellAudio :=
  match
    match device with
    | Some (Di_Cell d) => if dc_gap d || dc_muted d then inl (dc_muted d) else inr (Some d)
    | _ => inr None
    end
  with
  | inl muted => Ca_Gap muted
  | inr device =>
      if gap then Ca_Gap false
      else Ca_Present (dc_e_centi <$> device) (dc_source_mask <$> device)
             (default Vi_Unknown vad) (default ECHO_MISSING echo)
  end.

Definition cell_vad (a : CellAudio) : option F32 :=
  match a with Ca_Present _ _ vad _ => vad_known vad | Ca_Gap _ => None end.
Definition speech_positive (a : CellAudio) (threshold : F32) : bool :=
  match cell_vad a with Some p => f32_leb threshold p | None => false end.

Record CellEvidence := mkCellEvidence { ce_cell : CellIndex; ce_audio : CellAudio }.
Inductive Released := Rl_Cell (c : CellEvidence) | Rl_Block (b : AsrObservation).

(** ** The assembler *)
Record Slot := mkSlot {
  sl_device : option DeviceInput; sl_vad : option VadInput; sl_echo : option EchoCell; sl_gap : bool;
}.
Definition slot_default : Slot := mkSlot None None None false.

Record Assembler := mkAssembler {
  as_plan : EvidencePlan;
  as_next : CellIndex;
  as_slots : list Slot;
  as_blocks : list AsrObservation;
  as_last_through : option Sample;
  as_asr_closed : bool;
}.

Definition with_slots (slots : list Slot) (a : Assembler) : Assembler :=
  mkAssembler (as_plan a) (as_next a) slots (as_blocks a) (as_last_through a) (as_asr_closed a).

Definition assembler_new (plan : EvidencePlan) : result EvidenceError Assembler :=
  if (pl_vad_from plan <? pl_cells_from plan) || (pl_analysis_from plan <? pl_vad_from plan) then
    Err Ev_InvalidPlan
  else Ok (mkAssembler plan (pl_cells_from plan) [] [] None false).

Definition check_epoch (a : Assembler) (epoch : N) : result EvidenceError unit :=
  if epoch =? pl_epoch (as_plan a) then Ok tt else Err (Ev_ForeignEpoch (pl_epoch (as_plan a)) epoch).

Definition check_range (a : Assembler) (from first : CellIndex) (n : nat) : result EvidenceError unit :=
  if first <? from then Err (Ev_OutsidePlan first)
  else
    let last := first + (N.of_nat n - 1) in
    if (0 <? N.of_nat n) && (as_next a + MAX_CELLS_AHEAD <=? last) then Err (Ev_TooFarAhead last) else Ok tt.

(** [slot]: the queue grown to hold the cell, and the slot assigned through. *)
Definition grow (i : nat) (slots : list Slot) : list Slot := slots ++ replicate (S i - length slots) slot_default.
Definition assign (next : CellIndex) (cell : CellIndex) (f : Slot -> Slot) (slots : list Slot) : list Slot :=
  let i := N.to_nat (cell - next) in alter f i (grow i slots).

(** A field of a slot and the comparison of its values. *)
Record Field (T : Type) := mkField {
  fd_get : Slot -> option T;
  fd_set : T -> Slot -> Slot;
  fd_eqb : T -> T -> bool;
}.
Arguments mkField {T}.
Arguments fd_get {T}.
Arguments fd_set {T}.
Arguments fd_eqb {T}.

#[export] Instance DeviceCell_eq_dec : EqDecision DeviceCell.
Proof. solve_decision. Defined.
#[export] Instance DeviceInput_eq_dec : EqDecision DeviceInput.
Proof. solve_decision. Defined.
#[export] Instance EchoLabel_eq_dec : EqDecision EchoLabel.
Proof. solve_decision. Defined.
#[export] Instance ReferenceCoverage_eq_dec : EqDecision ReferenceCoverage.
Proof. solve_decision. Defined.
#[export] Instance EchoCell_eq_dec : EqDecision EchoCell.
Proof. solve_decision. Defined.

Definition vad_eqb (a b : VadInput) : bool :=
  match a, b with
  | Vi_Probability p, Vi_Probability q => f32_eqb p q
  | Vi_Unknown, Vi_Unknown => true
  | _, _ => false
  end.

Definition device_field : Field DeviceInput :=
  mkField sl_device (fun v s => mkSlot (Some v) (sl_vad s) (sl_echo s) (sl_gap s)) (fun a b => bool_decide (a = b)).
Definition vad_field : Field VadInput :=
  mkField sl_vad (fun v s => mkSlot (sl_device s) (Some v) (sl_echo s) (sl_gap s)) vad_eqb.
Definition echo_field : Field EchoCell :=
  mkField sl_echo (fun v s => mkSlot (sl_device s) (sl_vad s) (Some v) (sl_gap s)) (fun a b => bool_decide (a = b)).

(** The first conflict of [values] with what the slots hold. *)
Fixpoint conflict {T} (fd : Field T) (next : CellIndex) (slots : list Slot) (cell : CellIndex)
    (values : list T) : option CellIndex :=
  match values with
  | [] => None
  | v :: values =>
      match slots !! N.to_nat (cell - next) ≫= fd_get fd with
      | Some held => if fd_eqb fd held v then conflict fd next slots (cell + 1) values else Some cell
      | None => conflict fd next slots (cell + 1) values
      end
  end.

Fixpoint assign_all {T} (fd : Field T) (next : CellIndex) (cell : CellIndex) (values : list T)
    (slots : list Slot) : list Slot :=
  match values with
  | [] => slots
  | v :: values => assign_all fd next (cell + 1) values (assign next cell (fd_set fd v) slots)
  end.

Definition apply {T} (fd : Field T) (first : CellIndex) (values : list T) (a : Assembler) :
    result EvidenceError Assembler :=
  let skip := as_next a - first in
  let due := drop (N.to_nat skip) values in
  match conflict fd (as_next a) (as_slots a) (first + skip) due with
  | Some cell => Err (Ev_Conflict cell)
  | None => Ok (with_slots (assign_all fd (as_next a) (first + skip) due (as_slots a)) a)
  end.

Definition push_device_cells (epoch : N) (first : CellIndex) (cells : list DeviceInput) (a : Assembler) :
    result EvidenceError Assembler :=
  let? _ := check_epoch a epoch in
  let? _ := check_range a (pl_cells_from (as_plan a)) first (length cells) in
  apply device_field first cells a.

Definition push_vad (epoch : N) (first : CellIndex) (vad : list VadInput) (a : Assembler) :
    result EvidenceError Assembler :=
  let? _ := check_epoch a epoch in
  let? _ := check_range a (pl_vad_from (as_plan a)) first (length vad) in
  apply vad_field first vad a.

Definition push_echo (epoch : N) (first : CellIndex) (echo : list EchoCell) (a : Assembler) :
    result EvidenceError Assembler :=
  let? _ := check_epoch a epoch in
  let? _ := check_range a (pl_analysis_from (as_plan a)) first (length echo) in
  apply echo_field first echo a.

Definition set_gap (s : Slot) : Slot := mkSlot (sl_device s) (sl_vad s) (sl_echo s) true.
Fixpoint mark_cells (next : CellIndex) (n : nat) (cell : CellIndex) (slots : list Slot) : list Slot :=
  match n with
  | O => slots
  | S n => mark_cells next n (cell + 1) (assign next cell set_gap slots)
  end.

Definition mark_gap (epoch : N) (span : SampleSpan) (a : Assembler) : result EvidenceError Assembler :=
  let? _ := check_epoch a epoch in
  if sample_span_is_empty span then Ok a
  else
    let first := N.max (N.max (sample_cell (ss_start span)) (as_next a)) (pl_cells_from (as_plan a)) in
    let last := sample_cell (ss_end span - 1) in
    if last <? first then Ok a
    else
      let n := N.to_nat (last - first + 1) in
      let? _ := check_range a first first n in
      Ok (with_slots (mark_cells (as_next a) n first (as_slots a)) a).

Definition push_asr (epoch : N) (obs : AsrObservation) (a : Assembler) : result EvidenceError Assembler :=
  let? _ := check_epoch a epoch in
  let after_previous := match as_last_through a with Some t => t <? asr_through obs | None => true end in
  if (asr_through obs <=? cell_start (pl_analysis_from (as_plan a))) || negb after_previous then
    Err (Ev_AsrOutOfOrder (asr_through obs))
  else
    Ok (mkAssembler (as_plan a) (as_next a) (as_slots a) (as_blocks a ++ [obs]) (Some (asr_through obs))
          (as_asr_closed a)).

Definition device_is_gap (d : option DeviceInput) : bool :=
  match d with Some (Di_Cell d) => dc_gap d || dc_muted d | _ => false end.
Definition is_some {A} (o : option A) : bool := match o with Some _ => true | None => false end.

(** [front_ready], of the slot at the front. *)
Definition slot_ready (a : Assembler) (slot : Slot) : bool :=
  let c := as_next a in
  let asr_covers :=
    (c <? pl_analysis_from (as_plan a)) || as_asr_closed a
    || match as_last_through a with Some t => cell_end c <=? t | None => false end in
  sl_gap slot || device_is_gap (sl_device slot)
  || (is_some (sl_device slot) && ((c <? pl_vad_from (as_plan a)) || is_some (sl_vad slot))
      && ((c <? pl_analysis_from (as_plan a)) || is_some (sl_echo slot)) && asr_covers).
Definition is_gap (audio : CellAudio) : bool := match audio with Ca_Gap _ => true | _ => false end.

(** One round of the loop of [release]. *)
Definition release_one (a : Assembler) : option (Assembler * Released) :=
  let next_end := cell_end (as_next a) in
  match as_blocks a with
  | b :: blocks =>
      if asr_through b <? next_end then
        Some (mkAssembler (as_plan a) (as_next a) (as_slots a) blocks (as_last_through a) (as_asr_closed a),
              Rl_Block b)
      else None
  | [] => None
  end.
Definition release_cell (a : Assembler) : option (Assembler * Released) :=
  match as_slots a with
  | slot :: slots =>
      if slot_ready a slot then
        let cell := as_next a in
        let audio := cell_audio_from_inputs (sl_device slot) (sl_gap slot) (sl_vad slot) (sl_echo slot) in
        let closed := ((pl_analysis_from (as_plan a) <=? cell) && is_gap audio) || as_asr_closed a in
        Some (mkAssembler (as_plan a) (cell_next cell) slots (as_blocks a) (as_last_through a) closed,
              Rl_Cell (mkCellEvidence cell audio))
      else None
  | [] => None
  end.

Fixpoint release_rounds (rounds : nat) (a : Assembler) (out : list Released) : Assembler * list Released :=
  match rounds with
  | O => (a, out)
  | S rounds =>
      match (match release_one a with Some r => Some r | None => release_cell a end) with
      | Some (a, r) => release_rounds rounds a (out ++ [r])
      | None => (a, out)
      end
  end.

(** Every round takes a block or a slot. *)
Definition evidence_release (a : Assembler) (out : list Released) : Assembler * list Released :=
  release_rounds (length (as_blocks a) + length (as_slots a)) a out.

(** ** An utterance's evidence, in arrival order *)
Inductive EvidenceOp :=
  | Eo_Device (epoch : N) (first : CellIndex) (cells : list DeviceInput)
  | Eo_Vad (epoch : N) (first : CellIndex) (vad : list VadInput)
  | Eo_Echo (epoch : N) (first : CellIndex) (echo : list EchoCell)
  | Eo_Gap (epoch : N) (span : SampleSpan)
  | Eo_Asr (epoch : N) (obs : AsrObservation)
  | Eo_Release.

(** A push that is refused changes nothing. *)
Definition push_op (op : EvidenceOp) (a : Assembler) : result EvidenceError Assembler :=
  match op with
  | Eo_Device epoch first cells => push_device_cells epoch first cells a
  | Eo_Vad epoch first vad => push_vad epoch first vad a
  | Eo_Echo epoch first echo => push_echo epoch first echo a
  | Eo_Gap epoch span => mark_gap epoch span a
  | Eo_Asr epoch obs => push_asr epoch obs a
  | Eo_Release => Ok a
  end.
Definition evidence_step (st : Assembler * list Released) (op : EvidenceOp) : Assembler * list Released :=
  match op with
  | Eo_Release => evidence_release st.1 st.2
  | _ => match push_op op st.1 with Ok a => (a, st.2) | Err _ => st end
  end.
Definition evidence_run (a : Assembler) (ops : list EvidenceOp) : Assembler * list Released :=
  foldl evidence_step (a, []) ops.

(** ** Sample order *)
Definition cells_of (out : list Released) : list CellIndex :=
  omap (fun r => match r with Rl_Cell c => Some (ce_cell c) | Rl_Block _ => None end) out.
Definition blocks_of (out : list Released) : list AsrObservation :=
  omap (fun r => match r with Rl_Cell _ => None | Rl_Block b => Some b end) out.

(** [n] cells from [first]. *)
Fixpoint cell_run (first : CellIndex) (n : nat) : list CellIndex :=
  match n with O => [] | S n => first :: cell_run (first + 1) n end.

(** ASR results cover strictly more audio each time. *)
Fixpoint covering (after : option Sample) (blocks : list AsrObservation) : Prop :=
  match blocks with
  | [] => True
  | b :: blocks =>
      (forall t, after = Some t -> t < asr_through b) /\ covering (Some (asr_through b)) blocks
  end.

(** What holds of an assembler and all it has released. *)
Record ordered (from : CellIndex) (a : Assembler) (out : list Released) : Prop := {
  od_from : from <= as_next a;
  od_cells : cells_of out = cell_run from (N.to_nat (as_next a - from));
  od_blocks : covering None (blocks_of out ++ as_blocks a);
  od_last : as_last_through a = asr_through <$> last (blocks_of out ++ as_blocks a);
  od_between pre b post : out = pre ++ Rl_Block b :: post ->
    forall c, from <= c -> cell_end c <= asr_through b -> c ∈ cells_of pre;
}.

Lemma cell_run_app first n : cell_run first (S n) = cell_run first n ++ [first + N.of_nat n].
Proof.
  revert first. induction n as [|n IH]; intros first; [cbn; by rewrite N.add_0_r|].
  change (cell_run first (S (S n))) with (first :: cell_run (first + 1) (S n)). rewrite IH. cbn.
  by replace (first + 1 + N.of_nat n) with (first + N.pos (Pos.of_succ_nat n)) by lia.
Qed.

Lemma elem_of_cell_run first n c : c ∈ cell_run first n <-> first <= c < first + N.of_nat n.
Proof.
  revert first. induction n as [|n IH]; intros first; cbn [cell_run].
  - rewrite elem_of_nil. lia.
  - rewrite elem_of_cons, IH. lia.
Qed.

Lemma cells_of_app l1 l2 : cells_of (l1 ++ l2) = cells_of l1 ++ cells_of l2.
Proof. apply omap_app. Qed.
Lemma blocks_of_app l1 l2 : blocks_of (l1 ++ l2) = blocks_of l1 ++ blocks_of l2.
Proof. apply omap_app. Qed.

Lemma covering_snoc after blocks b :
  covering after blocks ->
  (forall t, match last blocks with Some b => Some (asr_through b) | None => after end = Some t -> t < asr_through b) ->
  covering after (blocks ++ [b]).
Proof.
  revert after. induction blocks as [|x blocks IH]; intros after; cbn [covering app]; [done|].
  intros [Hx Hc] Hl. split; [done|]. apply IH; [done|]. intros t Ht. apply Hl.
  rewrite last_cons. by destruct (last blocks).
Qed.

Lemma ordered_block from a out b blocks :
  ordered from a out -> as_blocks a = b :: blocks -> asr_through b < cell_end (as_next a) ->
  ordered from (mkAssembler (as_plan a) (as_next a) (as_slots a) blocks (as_last_through a) (as_asr_closed a))
    (out ++ [Rl_Block b]).
Proof.
  intros [H1 H2 H3 H4 H5] Hb Hlt. split; cbn.
  - done.
  - by rewrite cells_of_app, app_nil_r.
  - rewrite blocks_of_app, <- app_assoc. cbn. by rewrite <- Hb.
  - rewrite blocks_of_app, <- app_assoc. cbn. by rewrite <- Hb.
  - intros pre b' post Heq c Hc He.
    destruct (app_eq_inv _ _ _ _ Heq) as [(k & Hk & Hk')|(k & Hk & Hk')].
    + destruct k as [|r k].
      * rewrite app_nil_r in Hk. subst out. cbn in Hk'. injection Hk' as -> _. rewrite H2.
        apply elem_of_cell_run. unfold cell_end, CELL_SAMPLES in *. nia.
      * cbn in Hk'. injection Hk' as <- Hk'. by eapply H5.
    + destruct k as [|r k]; cbn in Hk'.
      * rewrite app_nil_r in Hk. subst pre. injection Hk' as -> _. rewrite H2.
        apply elem_of_cell_run. unfold cell_end, CELL_SAMPLES in *. nia.
      * injection Hk' as _ Hk'. by destruct k.
Qed.

Lemma ordered_cell from a out slots audio closed :
  ordered from a out ->
  ordered from (mkAssembler (as_plan a) (cell_next (as_next a)) slots (as_blocks a) (as_last_through a) closed)
    (out ++ [Rl_Cell (mkCellEvidence (as_next a) audio)]).
Proof.
  intros [H1 H2 H3 H4 H5]. split; cbn; unfold cell_next.
  - lia.
  - rewrite cells_of_app, H2. cbn.
    replace (N.to_nat (as_next a + 1 - from)) with (S (N.to_nat (as_next a - from))) by lia.
    rewrite cell_run_app. do 2 f_equal. lia.
  - by rewrite blocks_of_app, app_nil_r.
  - by rewrite blocks_of_app, app_nil_r.
  - intros pre b' post Heq c Hc He.
    destruct (app_eq_inv _ _ _ _ Heq) as [(k & Hk & Hk')|(k & Hk & Hk')].
    + destruct k as [|r k]; [cbn in Hk'; discriminate Hk'|]. cbn in Hk'. injection Hk' as <- Hk'. by eapply H5.
    + destruct k as [|r k]; cbn in Hk'; [discriminate Hk'|]. injection Hk' as _ Hk'. by destruct k.
Qed.

Lemma release_rounds_ordered rounds from a out :
  ordered from a out -> let '(a', out') := release_rounds rounds a out in ordered from a' out'.
Proof.
  revert a out. induction rounds as [|rounds IH]; intros a out Ho; cbn [release_rounds]; [done|].
  destruct (match release_one a with Some r => Some r | None => release_cell a end) as [[a' r]|] eqn:E; [|done].
  apply IH. unfold release_one in E.
  assert (Hcell : release_cell a = Some (a', r) -> ordered from a' (out ++ [r])).
  { unfold release_cell. destruct (as_slots a) as [|slot slots]; [done|].
    destruct (slot_ready a slot); [|done]. intros [= <- <-]. by apply ordered_cell. }
  destruct (as_blocks a) as [|b blocks] eqn:Eb; [by apply Hcell|].
  destruct (N.ltb_spec (asr_through b) (cell_end (as_next a))); [|by apply Hcell].
  injection E as <- <-. by apply ordered_block.
Qed.

(** *** Pushes *)
Lemma apply_fields {T} (fd : Field T) first values a a' :
  apply fd first values a = Ok a' ->
  a' = with_slots (assign_all fd (as_next a) (first + (as_next a - first))
         (drop (N.to_nat (as_next a - first)) values) (as_slots a)) a.
Proof. unfold apply. destruct (conflict _ _ _ _ _); [done|]. by intros [= <-]. Qed.

Lemma push_op_fields op a a' :
  push_op op a = Ok a' ->
  as_plan a' = as_plan a /\ as_next a' = as_next a /\ as_asr_closed a' = as_asr_closed a /\
  match op with
  | Eo_Asr _ obs =>
      as_slots a' = as_slots a /\ as_blocks a' = as_blocks a ++ [obs] /\
      as_last_through a' = Some (asr_through obs) /\
      cell_start (pl_analysis_from (as_plan a)) < asr_through obs /\
      (forall t, as_last_through a = Some t -> t < asr_through obs)
  | _ => as_blocks a' = as_blocks a /\ as_last_through a' = as_last_through a
  end.
Proof.
  destruct op as [epoch first cells|epoch first vad|epoch first echo|epoch span|epoch obs|]; cbn [push_op].
  - unfold push_device_cells. destruct (check_epoch _ _); [|done]. destruct (check_range _ _ _ _); [|done].
    by intros ->%apply_fields.
  - unfold push_vad. destruct (check_epoch _ _); [|done]. destruct (check_range _ _ _ _); [|done].
    by intros ->%apply_fields.
  - unfold push_echo. destruct (check_epoch _ _); [|done]. destruct (check_range _ _ _ _); [|done].
    by intros ->%apply_fields.
  - unfold mark_gap. destruct (check_epoch _ _); [|done]. destruct (sample_span_is_empty _); [by intros [= <-]|].
    cbv zeta. destruct (_ <? _); [by intros [= <-]|]. destruct (check_range _ _ _ _); [|done]. by intros [= <-].
  - unfold push_asr. destruct (check_epoch _ _); [|done].
    destruct (N.leb_spec (asr_through obs) (cell_start (pl_analysis_from (as_plan a)))); cbn [orb]; [done|].
    destruct (as_last_through a) as [t|] eqn:Et; cbn [negb].
    + destruct (N.ltb_spec t (asr_through obs)); cbn [negb]; [|done]. intros [= <-]. cbn.
      split_and!; try done. by intros ? [= <-].
    + by intros [= <-].
  - by intros [= <-].
Qed.

Lemma push_ordered from op a a' out : push_op op a = Ok a' -> ordered from a out -> ordered from a' out.
Proof.
  intros Hp [H1 H2 H3 H4 H5]. destruct (push_op_fields _ _ _ Hp) as (_ & Hn & _ & Hop).
  assert (Hsame : as_blocks a' = as_blocks a /\ as_last_through a' = as_last_through a -> ordered from a' out).
  { intros [Hb Hl]. split; rewrite ?Hn, ?Hb, ?Hl; done. }
  destruct op; try by apply Hsame. destruct Hop as (_ & Hb & Hl & _ & Hlt).
  split; rewrite ?Hn, ?Hb, ?Hl; try done.
  - rewrite app_assoc. apply covering_snoc; [done|]. intros t Ht. apply Hlt. rewrite H4.
    destruct (last _); [|done]. exact Ht.
  - by rewrite app_assoc, last_snoc.
Qed.

Lemma evidence_step_ordered from st op :
  ordered from st.1 st.2 -> ordered from (evidence_step st op).1 (evidence_step st op).2.
Proof.
  intros Ho. assert (Hpush : ordered from
    (match push_op op st.1 with Ok a => (a, st.2) | Err _ => st end).1
    (match push_op op st.1 with Ok a => (a, st.2) | Err _ => st end).2).
  { destruct (push_op op st.1) eqn:E; [|done]. by eapply push_ordered. }
  destruct op; try exact Hpush. cbn [evidence_step].
  pose proof (release_rounds_ordered (length (as_blocks st.1) + length (as_slots st.1)) from st.1 st.2 Ho) as H.
  unfold evidence_release. by destruct (release_rounds _ _ _).
Qed.

Lemma evidence_run_ordered from ops st :
  ordered from st.1 st.2 -> ordered from (foldl evidence_step st ops).1 (foldl evidence_step st ops).2.
Proof.
  revert st. induction ops as [|op ops IH]; intros st Ho; cbn [foldl]; [done|].
  by apply IH, evidence_step_ordered.
Qed.

Lemma assembler_new_ordered plan a : assembler_new plan = Ok a -> ordered (pl_cells_from plan) a [].
Proof.
  unfold assembler_new. destruct (_ || _); [done|]. intros [= <-]. split; cbn; try done.
  - by rewrite N.sub_diag.
  - intros pre b post Heq. by destruct pre.
Qed.

Lemma covering_app after l1 l2 : covering after (l1 ++ l2) -> covering after l1.
Proof.
  revert after. induction l1 as [|b l1 IH]; intros after; cbn; [done|]. intros [H1 H2]. split; [done|by eapply IH].
Qed.

(** C32: Evidence leaves in sample order whatever order it came in, refused pushes
    and gaps included: the cells released are exactly those from the plan's first
    up to the release point, each once and in order, the recognizer's results come
    in the order they cover the audio, and each comes after every cell that ends
    at or before the sample it covers through. *)
Theorem release_in_sample_order plan a ops :
  assembler_new plan = Ok a ->
  let '(a', out) := evidence_run a ops in
  cells_of out = cell_run (pl_cells_from plan) (N.to_nat (as_next a' - pl_cells_from plan)) /\
  covering None (blocks_of out) /\
  (forall pre b post, out = pre ++ Rl_Block b :: post ->
    forall c, pl_cells_from plan <= c -> cell_end c <= asr_through b -> c ∈ cells_of pre).
Proof.
  intros Ha. pose proof (evidence_run_ordered (pl_cells_from plan) ops (a, []) (assembler_new_ordered _ _ Ha)) as H.
  unfold evidence_run. destruct (foldl _ _ _) as [a' out]. destruct H as [_ H2 H3 _ H5].
  split_and!; [done|by eapply covering_app|done].
Qed.

(** ** Completion order *)
(** What the evidence says of each cell. *)
Record Truth := mkTruth {
  tr_device : CellIndex -> DeviceInput;
  tr_vad : CellIndex -> VadInput;
  tr_echo : CellIndex -> EchoCell;
}.

Definition says {T} (truth : CellIndex -> T) (first : CellIndex) (values : list T) : Prop :=
  forall i v, values !! i = Some v -> v = truth (first + N.of_nat i).

(** The operation brings true values, and no missing audio. *)
Definition op_true (truth : Truth) (op : EvidenceOp) : Prop :=
  match op with
  | Eo_Device _ first cells =>
      says (tr_device truth) first cells /\ Forall (fun d => device_is_gap (Some d) = false) cells
  | Eo_Vad _ first vad => says (tr_vad truth) first vad
  | Eo_Echo _ first echo => says (tr_echo truth) first echo
  | Eo_Gap _ _ => False
  | Eo_Asr _ _ | Eo_Release => True
  end.

(** The cells some operation brings each input of. *)
Definition brings (part : EvidenceOp -> option (CellIndex * nat)) (ops : list EvidenceOp) (c : CellIndex) : Prop :=
  exists op first n, op ∈ ops /\ part op = Some (first, n) /\ first <= c < first + N.of_nat n.
Definition device_part (op : EvidenceOp) : option (CellIndex * nat) :=
  match op with Eo_Device _ first cells => Some (first, length cells) | _ => None end.
Definition vad_part (op : EvidenceOp) : option (CellIndex * nat) :=
  match op with Eo_Vad _ first vad => Some (first, length vad) | _ => None end.
Definition echo_part (op : EvidenceOp) : option (CellIndex * nat) :=
  match op with Eo_Echo _ first echo => Some (first, length echo) | _ => None end.
Definition asr_results (ops : list EvidenceOp) : list AsrObservation :=
  omap (fun op => match op with Eo_Asr _ obs => Some obs | _ => None end) ops.

(** Every push of the run is accepted. *)
Fixpoint accepted_run (st : Assembler * list Released) (ops : list EvidenceOp) : Prop :=
  match ops with
  | [] => True
  | op :: ops => is_ok (push_op op st.1) = true /\ accepted_run (evidence_step st op) ops
  end.

(** *** The canonical order of what is known *)
Section canonical.
Context (plan : EvidencePlan) (truth : Truth).

Record Known := mkKnown {
  kn_device : CellIndex -> Prop;
  kn_vad : CellIndex -> Prop;
  kn_echo : CellIndex -> Prop;
  kn_blocks : list AsrObservation;
}.

Definition ready (k : Known) (c : CellIndex) : Prop :=
  kn_device k c /\ (pl_vad_from plan <= c -> kn_vad k c) /\
  (pl_analysis_from plan <= c -> kn_echo k c /\
    exists b, last (kn_blocks k) = Some b /\ cell_end c <= asr_through b).

Definition true_cell (c : CellIndex) : CellEvidence :=
  mkCellEvidence c (cell_audio_from_inputs (Some (tr_device truth c)) false
    (if c <? pl_vad_from plan then None else Some (tr_vad truth c))
    (if c <? pl_analysis_from plan then None else Some (tr_echo truth c))).

(** One release from cell [c] after [i] results. *)
Inductive emits (k : Known) : CellIndex * nat -> Released -> CellIndex * nat -> Prop :=
  | emits_block c i b :
      kn_blocks k !! i = Some b -> asr_through b < cell_end c -> emits k (c, i) (Rl_Block b) (c, S i)
  | emits_cell c i :
      (forall b, kn_blocks k !! i = Some b -> cell_end c <= asr_through b) -> ready k c ->
      emits k (c, i) (Rl_Cell (true_cell c)) (c + 1, i).

Inductive emitted (k : Known) : CellIndex * nat -> list Released -> CellIndex * nat -> Prop :=
  | emitted_nil p : emitted k p [] p
  | emitted_cons p r p' out p'' : emits k p r p' -> emitted k p' out p'' -> emitted k p (r :: out) p''.

Lemma emitted_snoc k p out p' r p'' : emitted k p out p' -> emits k p' r p'' -> emitted k p (out ++ [r]) p''.
Proof.
  induction 1 as [p|p r' p1 out p2 H _ IH]; intros He.
  - by econstructor; [|constructor].
  - cbn. by econstructor; [|apply IH].
Qed.

Lemma emits_det k p r p' r' p'' : emits k p r p' -> emits k p r' p'' -> r' = r /\ p'' = p'.
Proof.
  destruct 1 as [c i b Hb Hlt|c i Hb Hr]; inversion 1 as [c' i' b' Hb' Hlt'|c' i' Hb' Hr']; subst.
  - rewrite Hb in Hb'. by injection Hb' as ->.
  - specialize (Hb' _ Hb). lia.
  - specialize (Hb _ Hb'). lia.
  - done.
Qed.

Lemma emitted_unique k p out p' out' p'' :
  emitted k p out p' -> emitted k p out' p'' ->
  (forall r q, ~ emits k p' r q) -> (forall r q, ~ emits k p'' r q) -> out = out'.
Proof.
  intros H. revert out'. induction H as [p|p r p1 out p2 He _ IH]; intros out' H' Hs Hs'.
  - destruct H' as [|p r p1 out p2 He _]; [done|]. by destruct (Hs _ _ He).
  - destruct H' as [p|p r' p1' out' p2' He' H'].
    + by destruct (Hs' _ _ He).
    + destruct (emits_det _ _ _ _ _ _ He He') as [-> ->]. f_equal. by apply IH.
Qed.

(** More is known. *)
Record less_known (k k' : Known) : Prop := {
  lk_device c : kn_device k c -> kn_device k' c;
  lk_vad c : kn_vad k c -> kn_vad k' c;
  lk_echo c : kn_echo k c -> kn_echo k' c;
  lk_blocks : exists more, kn_blocks k' = kn_blocks k ++ more;
}.
Definition well_covered (blocks : list AsrObservation) : Prop :=
  covering None blocks /\ Forall (fun b => cell_start (pl_analysis_from plan) < asr_through b) blocks.

Lemma covering_split after l1 l2 b :
  covering after (l1 ++ l2) -> last l1 = Some b -> covering (Some (asr_through b)) l2.
Proof.
  revert after. induction l1 as [|x l1 IH]; intros after Hc Hl; [done|]. cbn in Hc. destruct Hc as [_ Hc].
  rewrite last_cons in Hl. destruct (last l1) eqn:E; [by eapply IH|]. injection Hl as ->.
  apply last_None in E. by subst.
Qed.

Lemma covering_lookup t l i x : covering (Some t) l -> l !! i = Some x -> t < asr_through x.
Proof.
  revert t i. induction l as [|b l IH]; intros t i Hc Hi; [done|]. cbn in Hc. destruct Hc as [Hb Hc].
  specialize (Hb _ eq_refl). destruct i as [|i]; cbn in Hi; [by injection Hi as <-|].
  specialize (IH _ _ Hc Hi). lia.
Qed.

Lemma covering_last after l1 l2 b i x :
  covering after (l1 ++ l2) -> last l1 = Some b -> l2 !! i = Some x -> asr_through b < asr_through x.
Proof. intros Hc Hl. by eapply covering_lookup, covering_split. Qed.

Lemma emits_mono k k' p r p' :
  less_known k k' -> well_covered (kn_blocks k') -> emits k p r p' -> emits k' p r p'.
Proof.
  intros [H1 H2 H3 (more & Hm)] [Hc Ha]. destruct 1 as [c i b Hb Hlt|c i Hb (Hd & Hv & He)].
  - constructor; [|done]. rewrite Hm. by apply lookup_app_l_Some.
  - constructor.
    + intros b. rewrite Hm. intros [Hl|[Hge Hl]]%lookup_app_Some; [by apply Hb|].
      destruct (N.le_gt_cases (pl_analysis_from plan) c) as [Hc'|Hc'].
      * destruct (He Hc') as (_ & t & Ht & Hle). rewrite Hm in Hc.
        pose proof (covering_last _ _ _ _ _ _ Hc Ht Hl). lia.
      * rewrite Hm in Ha. apply Forall_app in Ha as [_ Ha]. pose proof (Forall_lookup_1 _ _ _ _ Ha Hl) as Hx.
        cbn in Hx. unfold cell_start, cell_end, CELL_SAMPLES in *. nia.
    + split_and!; [by apply H1|by auto|]. intros Hc'. destruct (He Hc') as (Hec & t & Ht & Hle).
      split; [by apply H3|]. rewrite Hm. destruct more as [|m more].
      * rewrite app_nil_r. by exists t.
      * destruct (last (kn_blocks k ++ m :: more)) as [z|] eqn:Ez.
        -- exists z. split; [done|]. rewrite last_app in Ez.
           destruct (last (m :: more)) as [y|] eqn:Ey; [|by apply last_None in Ey].
           injection Ez as ->. rewrite last_lookup in Ey. rewrite Hm in Hc.
           pose proof (covering_last _ _ _ _ _ _ Hc Ht Ey). lia.
        -- apply last_None in Ez. by destruct (kn_blocks k).
Qed.

Lemma emitted_mono k k' p out p' :
  less_known k k' -> well_covered (kn_blocks k') -> emitted k p out p' -> emitted k' p out p'.
Proof. intros Hk Hw. induction 1; econstructor; eauto. by eapply emits_mono. Qed.
End canonical.

(** *** The assembler follows the canonical order *)
Definition slot_at (a : Assembler) (c : CellIndex) : Slot :=
  default slot_default (as_slots a !! N.to_nat (c - as_next a)).

Lemma grow_lookup i j slots : default slot_default (grow i slots !! j) = default slot_default (slots !! j).
Proof.
  unfold grow. destruct (slots !! j) as [s|] eqn:E; [by rewrite (lookup_app_l_Some _ _ _ _ E)|].
  apply lookup_ge_None in E. rewrite lookup_app_r by done.
  destruct (replicate _ _ !! _) eqn:Er; [|done]. by apply lookup_replicate in Er as [-> _].
Qed.

Lemma assign_lookup next cell f slots c :
  next <= cell -> next <= c ->
  default slot_default (assign next cell f slots !! N.to_nat (c - next))
    = (if c =? cell then f else id) (default slot_default (slots !! N.to_nat (c - next))).
Proof.
  intros Hcell Hc. unfold assign. destruct (N.eqb_spec c cell) as [->|Hne].
  - rewrite list_lookup_alter_eq. rewrite <- (grow_lookup (N.to_nat (cell - next)) _ slots).
    destruct (grow _ slots !! _) eqn:E; [done|]. apply lookup_ge_None in E. unfold grow in E.
    rewrite length_app, length_replicate in E. lia.
  - rewrite list_lookup_alter_ne by lia. apply grow_lookup.
Qed.

Lemma assign_all_lookup {T} (fd : Field T) next cell values slots c :
  next <= cell -> next <= c ->
  default slot_default (assign_all fd next cell values slots !! N.to_nat (c - next))
    = match (if c <? cell then None else values !! N.to_nat (c - cell)) with
      | Some v => fd_set fd v (default slot_default (slots !! N.to_nat (c - next)))
      | None => default slot_default (slots !! N.to_nat (c - next))
      end.
Proof.
  intros Hcell Hc. revert cell slots Hcell. induction values as [|v values IH]; intros cell slots Hcell;
    cbn [assign_all].
  - by destruct (c <? cell).
  - rewrite IH, assign_lookup by lia.
    destruct (N.eqb_spec c cell) as [->|Hne].
    + rewrite N.ltb_irrefl, N.sub_diag. cbn.
      by rewrite (proj2 (N.ltb_lt cell (cell + 1))) by lia.
    + destruct (N.ltb_spec c (cell + 1)), (N.ltb_spec c cell); try lia; [done|].
      replace (N.to_nat (c - cell)) with (S (N.to_nat (c - (cell + 1)))) by lia. done.
Qed.

Section follows.
Context (plan : EvidencePlan) (truth : Truth).

Definition known_of (ops : list EvidenceOp) : Known :=
  mkKnown (brings device_part ops) (brings vad_part ops) (brings echo_part ops) (asr_results ops).

(** An input is held when it was brought, with its true value. *)
Definition holds_input {T} (held : option T) (brought : Prop) (v : T) : Prop :=
  held = Some v /\ brought \/ held = None /\ ~ brought.

Record following (k : Known) (st : Assembler * list Released) : Prop := {
  fo_plan : as_plan st.1 = plan;
  fo_open : as_asr_closed st.1 = false;
  fo_gap c : as_next st.1 <= c -> sl_gap (slot_at st.1 c) = false;
  fo_device c : as_next st.1 <= c -> holds_input (sl_device (slot_at st.1 c)) (kn_device k c) (tr_device truth c);
  fo_vad c : as_next st.1 <= c -> holds_input (sl_vad (slot_at st.1 c)) (kn_vad k c) (tr_vad truth c);
  fo_echo c : as_next st.1 <= c -> holds_input (sl_echo (slot_at st.1 c)) (kn_echo k c) (tr_echo truth c);
  fo_real c : kn_device k c -> device_is_gap (Some (tr_device truth c)) = false;
  fo_vad_from c : kn_vad k c -> pl_vad_from plan <= c;
  fo_echo_from c : kn_echo k c -> pl_analysis_from plan <= c;
  fo_ordered : ordered (pl_cells_from plan) st.1 st.2;
  fo_blocks : kn_blocks k = blocks_of st.2 ++ as_blocks st.1;
  fo_covered : well_covered plan (kn_blocks k);
  fo_emitted : emitted plan truth k (pl_cells_from plan, 0%nat) st.2 (as_next st.1, length (blocks_of st.2));
}.

(** Popping the front slot shifts the others. *)
Lemma slot_at_pop a slot slots c :
  as_slots a = slot :: slots -> as_next a + 1 <= c ->
  slots !! N.to_nat (c - (as_next a + 1)) = as_slots a !! N.to_nat (c - as_next a).
Proof. intros -> Hc. replace (N.to_nat (c - as_next a)) with (S (N.to_nat (c - (as_next a + 1)))) by lia. done. Qed.

Lemma slot_front a slot slots : as_slots a = slot :: slots -> slot_at a (as_next a) = slot.
Proof. intros H. unfold slot_at. by rewrite N.sub_diag, H. Qed.

(** A slot that is ready is so in the canonical order, and holds the true cell. *)
Lemma slot_ready_iff k a out :
  following k (a, out) ->
  slot_ready a (slot_at a (as_next a)) = true <-> ready plan k (as_next a).
Proof.
  intros F. destruct F as [Hp Hop Hg Hd Hv He Hr _ _ Ho Hb _ _]. cbn in *.
  specialize (Hg (as_next a) ltac:(lia)). specialize (Hd (as_next a) ltac:(lia)).
  specialize (Hv (as_next a) ltac:(lia)). specialize (He (as_next a) ltac:(lia)).
  unfold slot_ready, ready. rewrite Hg, Hop, Hp, Hb, (od_last _ _ _ Ho).
  set (c := as_next a) in *. set (s := slot_at a c) in *. clearbody s.
  assert (Hdg : device_is_gap (sl_device s) = false).
  { destruct Hd as [[-> Hk]|[-> _]]; [by apply Hr|done]. }
  rewrite Hdg. cbn [orb]. rewrite orb_false_r, !andb_true_iff, !orb_true_iff, !N.ltb_lt.
  assert (Hds : is_some (sl_device s) = true <-> kn_device k c) by (destruct Hd as [[-> ?]|[-> ?]]; naive_solver).
  assert (Hvs : is_some (sl_vad s) = true <-> kn_vad k c) by (destruct Hv as [[-> ?]|[-> ?]]; naive_solver).
  assert (Hes : is_some (sl_echo s) = true <-> kn_echo k c) by (destruct He as [[-> ?]|[-> ?]]; naive_solver).
  rewrite Hds, Hvs, Hes.
  assert (Hcov : match asr_through <$> last (blocks_of out ++ as_blocks a) with
      Some t => cell_end c <=? t | None => false end = true <->
    exists b, last (blocks_of out ++ as_blocks a) = Some b /\ cell_end c <= asr_through b).
  { destruct (last _) as [b|]; cbn; [rewrite N.leb_le|]; naive_solver. }
  rewrite Hcov. destruct (N.lt_ge_cases c (pl_vad_from plan)), (N.lt_ge_cases c (pl_analysis_from plan));
    intuition lia.
Qed.

Lemma release_one_inv a a' r :
  release_one a = Some (a', r) ->
  exists b blocks, as_blocks a = b :: blocks /\ asr_through b < cell_end (as_next a) /\ r = Rl_Block b /\
    a' = mkAssembler (as_plan a) (as_next a) (as_slots a) blocks (as_last_through a) (as_asr_closed a).
Proof.
  unfold release_one. destruct (as_blocks a) as [|b blocks]; [done|].
  destruct (N.ltb_spec (asr_through b) (cell_end (as_next a))); [|done]. intros [= <- <-]. eauto 10.
Qed.

Lemma release_one_none a b : release_one a = None -> as_blocks a !! 0%nat = Some b -> cell_end (as_next a) <= asr_through b.
Proof.
  unfold release_one. destruct (as_blocks a) as [|x blocks]; [done|].
  destruct (N.ltb_spec (asr_through x) (cell_end (as_next a))); [done|]. by intros _ [= ->].
Qed.

Lemma block_follows k a out a' r : following k (a, out) -> release_one a = Some (a', r) -> following k (a', out ++ [r]).
Proof.
  intros F (b & blocks & Hbs & Hlt & -> & ->)%release_one_inv.
  destruct F as [Hp Hop Hg Hd Hv He Hr Hvf Hef Ho Hb Hw Hem]. cbn in *. split; cbn; try done.
  - by apply ordered_block.
  - rewrite blocks_of_app, <- app_assoc, Hb. cbn. by rewrite Hbs.
  - rewrite blocks_of_app, length_app. cbn. rewrite Nat.add_1_r. eapply emitted_snoc; [exact Hem|].
    constructor; [|done]. rewrite Hb, Hbs, lookup_app_r by done. by rewrite Nat.sub_diag.
Qed.

Lemma cell_follows k a out a' r :
  following k (a, out) -> release_one a = None -> release_cell a = Some (a', r) -> following k (a', out ++ [r]).
Proof.
  intros F Hone. pose proof (slot_ready_iff k a out F) as Hready.
  unfold release_cell. destruct (as_slots a) as [|slot slots] eqn:Es; [done|].
  destruct (slot_ready a slot) eqn:Er; [|done]. intros [= <- <-].
  pose proof (slot_front _ _ _ Es) as Hfront. rewrite Hfront in Hready. apply Hready in Er.
  destruct F as [Hp Hop Hg Hd Hv He Hr Hvf Hef Ho Hb Hw Hem]. cbn in *.
  pose proof (Hg (as_next a) ltac:(lia)) as Hg0. pose proof (Hd (as_next a) ltac:(lia)) as Hd0.
  pose proof (Hv (as_next a) ltac:(lia)) as Hv0. pose proof (He (as_next a) ltac:(lia)) as He0.
  rewrite Hfront in Hg0, Hd0, Hv0, He0. destruct Er as (Hkd & Hkv & Hke).
  destruct Hd0 as [[Hd0 _]|[_ Hn]]; [|done].
  assert (Haudio : cell_audio_from_inputs (sl_device slot) (sl_gap slot) (sl_vad slot) (sl_echo slot)
    = ce_audio (true_cell plan truth (as_next a))).
  { cbn. rewrite Hd0, Hg0. f_equal.
    - destruct (N.ltb_spec (as_next a) (pl_vad_from plan)) as [Hlt|Hge].
      + destruct Hv0 as [[_ Hk]|[-> _]]; [|done]. specialize (Hvf _ Hk). lia.
      + destruct Hv0 as [[-> _]|[_ Hn]]; [done|]. by destruct Hn; apply Hkv.
    - destruct (N.ltb_spec (as_next a) (pl_analysis_from plan)) as [Hlt|Hge].
      + destruct He0 as [[_ Hk]|[-> _]]; [|done]. specialize (Hef _ Hk). lia.
      + destruct He0 as [[-> _]|[_ Hn]]; [done|]. by destruct Hn; apply Hke. }
  assert (Hnogap : is_gap (ce_audio (true_cell plan truth (as_next a))) = false).
  { cbn. specialize (Hr _ Hkd). unfold device_is_gap in Hr. unfold cell_audio_from_inputs.
    destruct (tr_device truth (as_next a)) as [d|]; [|done]. by rewrite Hr. }
  rewrite Haudio. unfold cell_next.
  assert (Hpop : forall c, as_next a + 1 <= c ->
    default slot_default (slots !! N.to_nat (c - (as_next a + 1))) = slot_at a c).
  { intros c Hc. unfold slot_at. f_equal. by apply (slot_at_pop _ slot). }
  split; cbn -[ce_audio]; try done; unfold slot_at; cbn [as_slots as_next].
  - by rewrite Hop, orb_false_r, Hnogap, andb_false_r.
  - intros c Hc. rewrite Hpop by done. apply Hg. lia.
  - intros c Hc. rewrite Hpop by done. apply Hd. lia.
  - intros c Hc. rewrite Hpop by done. apply Hv. lia.
  - intros c Hc. rewrite Hpop by done. apply He. lia.
  - by apply ordered_cell.
  - by rewrite blocks_of_app, app_nil_r.
  - rewrite blocks_of_app, app_nil_r. eapply emitted_snoc; [exact Hem|].
    apply emits_cell; [|done]. intros b Hl. rewrite Hb in Hl.
    rewrite lookup_app_r, Nat.sub_diag in Hl by done. by apply release_one_none.
Qed.

(** A round emits the next item of the canonical order. *)
Lemma round_follows k a out a' r :
  following k (a, out) ->
  match release_one a with Some x => Some x | None => release_cell a end = Some (a', r) ->
  following k (a', out ++ [r]).
Proof.
  intros F Hround. destruct (release_one a) as [[a1 r1]|] eqn:E1.
  - injection Hround as -> ->. by eapply block_follows.
  - by eapply cell_follows.
Qed.

(** With nothing left to release, the canonical order has nothing next either. *)
Lemma stuck_follows k a out :
  following k (a, out) -> match release_one a with Some x => Some x | None => release_cell a end = None ->
  forall r q, ~ emits plan truth k (as_next a, length (blocks_of out)) r q.
Proof.
  intros F Hround. destruct (release_one a) as [x|] eqn:E1; [done|]. pose proof (slot_ready_iff k a out F) as Hready.
  pose proof (fo_blocks _ _ F) as Hb. cbn in Hb. intros r q He. inversion He as [c i b Hl Hlt|c i Hl Hr]; subst.
  - rewrite Hb, lookup_app_r, Nat.sub_diag in Hl by done. pose proof (release_one_none _ _ E1 Hl). lia.
  - apply Hready in Hr as Hs. unfold release_cell in Hround. destruct (as_slots a) as [|slot slots] eqn:Es.
    + pose proof (fo_device _ _ F (as_next a) ltac:(cbn; lia)) as Hd. cbn in Hd. unfold slot_at in Hd.
      rewrite Es in Hd. cbn in Hd. destruct Hd as [[? _]|[_ Hn]]; [done|]. by apply Hn, Hr.
    + rewrite (slot_front _ _ _ Es) in Hs. by rewrite Hs in Hround.
Qed.
(** Every round takes a block or a slot, so the rounds suffice. *)
Lemma round_measure a a' r :
  match release_one a with Some x => Some x | None => release_cell a end = Some (a', r) ->
  (length (as_blocks a) + length (as_slots a) = S (length (as_blocks a') + length (as_slots a')))%nat.
Proof.
  intros H. destruct (release_one a) as [[a1 r1]|] eqn:E1.
  - injection H as -> ->. apply release_one_inv in E1 as (b & blocks & -> & _ & _ & ->). done.
  - unfold release_cell in H. destruct (as_slots a) as [|slot slots]; [done|].
    destruct (slot_ready a slot); [|done]. injection H as <- <-. cbn. lia.
Qed.

Lemma rounds_follow rounds k a out :
  following k (a, out) -> (length (as_blocks a) + length (as_slots a) <= rounds)%nat ->
  let st := release_rounds rounds a out in
  following k st /\ forall r q, ~ emits plan truth k (as_next st.1, length (blocks_of st.2)) r q.
Proof.
  revert a out. induction rounds as [|rounds IH]; intros a out F Hn; cbn [release_rounds].
  - cbn. split; [done|]. apply (stuck_follows k a out); [done|].
    destruct (match release_one a with Some x => Some x | None => release_cell a end) as [[a' r]|] eqn:E; [|done].
    apply round_measure in E. lia.
  - destruct (match release_one a with Some x => Some x | None => release_cell a end) as [[a' r]|] eqn:E.
    + apply IH; [by eapply round_follows|]. apply round_measure in E. lia.
    + cbn. split; [done|]. by apply (stuck_follows k a out).
Qed.

Lemma release_follows k st :
  following k st ->
  let st' := evidence_release st.1 st.2 in
  following k st' /\ forall r q, ~ emits plan truth k (as_next st'.1, length (blocks_of st'.2)) r q.
Proof. intros F. apply rounds_follow; [by destruct st|done]. Qed.

(** *** A true push *)
Definition in_part (part : EvidenceOp -> option (CellIndex * nat)) (op : EvidenceOp) (c : CellIndex) : Prop :=
  match part op with Some (first, n) => first <= c < first + N.of_nat n | None => False end.

Lemma brings_snoc part ops op c : brings part (ops ++ [op]) c <-> brings part ops c \/ in_part part op c.
Proof.
  unfold brings, in_part. split.
  - intros (o & first & n & [Ho| ->%list_elem_of_singleton]%elem_of_app & Hp & Hc); [left; eauto 10|].
    right. by rewrite Hp.
  - intros [(o & first & n & Ho & Hp & Hc)|Hc].
    + exists o, first, n. split; [|done]. apply elem_of_app. by left.
    + destruct (part op) as [[first n]|] eqn:E; [|done]. exists op, first, n. split; [|done].
      apply elem_of_app. right. by apply list_elem_of_singleton.
Qed.

Lemma less_known_snoc ops op : less_known (known_of ops) (known_of (ops ++ [op])).
Proof.
  split; cbn.
  1-3: intros c Hc; apply brings_snoc; by left.
  unfold asr_results. rewrite omap_app. by eexists.
Qed.

(** What [apply] does to the slots it reaches. *)
Lemma apply_slot_at {T} (fd : Field T) first values a a' c :
  apply fd first values a = Ok a' -> as_next a <= c ->
  slot_at a' c = match (if c <? first then None else values !! N.to_nat (c - first)) with
                 | Some v => fd_set fd v (slot_at a c)
                 | None => slot_at a c
                 end.
Proof.
  intros ->%apply_fields Hc. unfold slot_at at 1. cbn. rewrite assign_all_lookup by lia.
  destruct (N.le_gt_cases (as_next a) first) as [Hge|Hlt].
  - replace (as_next a - first) with 0 by lia. rewrite N.add_0_r, drop_0. done.
  - replace (first + (as_next a - first)) with (as_next a) by lia.
    rewrite (proj2 (N.ltb_ge c (as_next a))), (proj2 (N.ltb_ge c first)), lookup_drop by lia.
    by replace (N.to_nat (as_next a - first) + N.to_nat (c - as_next a))%nat with (N.to_nat (c - first)) by lia.
Qed.

(** The cell of a span whose value the push sets. *)
Lemma span_lookup {T} (tv : CellIndex -> T) first (values : list T) c :
  says tv first values ->
  (if c <? first then None else values !! N.to_nat (c - first)) = Some (tv c) /\
    first <= c < first + N.of_nat (length values) \/
  (if c <? first then None else values !! N.to_nat (c - first)) = None /\
    ~ first <= c < first + N.of_nat (length values).
Proof.
  intros Hs. destruct (N.ltb_spec c first); [right; split; [done|lia]|].
  destruct (values !! N.to_nat (c - first)) as [v|] eqn:E.
  - left. rewrite (Hs _ _ E). apply lookup_lt_Some in E. split; [|lia]. do 2 f_equal. lia.
  - right. apply lookup_ge_None in E. split; [done|lia].
Qed.

(** A true push sets exactly the inputs it brings. *)
Definition input_set {T} (held held' : option T) (brought : Prop) (v : T) : Prop :=
  held' = Some v /\ brought \/ held' = held /\ ~ brought.

Lemma push_slot_at op a a' c :
  push_op op a = Ok a' -> op_true truth op -> as_next a <= c ->
  let s := slot_at a c in let s' := slot_at a' c in
  sl_gap s' = sl_gap s /\
  input_set (sl_device s) (sl_device s') (in_part device_part op c) (tr_device truth c) /\
  input_set (sl_vad s) (sl_vad s') (in_part vad_part op c) (tr_vad truth c) /\
  input_set (sl_echo s) (sl_echo s') (in_part echo_part op c) (tr_echo truth c).
Proof.
  intros Hp Ht Hc. cbv zeta. unfold input_set.
  destruct op as [epoch first cells|epoch first vad|epoch first echo|epoch span|epoch obs|]; cbn in Hp, Ht |- *.
  - unfold push_device_cells in Hp. destruct (check_epoch _ _); [|done]. destruct (check_range _ _ _ _); [|done].
    cbn in Hp. rewrite (apply_slot_at _ _ _ _ _ c Hp Hc). unfold in_part. cbn.
    destruct (span_lookup _ first cells c (proj1 Ht)) as [[ -> ?]|[ -> ?]]; cbn; split_and!; auto.
  - unfold push_vad in Hp. destruct (check_epoch _ _); [|done]. destruct (check_range _ _ _ _); [|done].
    cbn in Hp. rewrite (apply_slot_at _ _ _ _ _ c Hp Hc). unfold in_part. cbn.
    destruct (span_lookup _ first vad c Ht) as [[ -> ?]|[ -> ?]]; cbn; split_and!; auto.
  - unfold push_echo in Hp. destruct (check_epoch _ _); [|done]. destruct (check_range _ _ _ _); [|done].
    cbn in Hp. rewrite (apply_slot_at _ _ _ _ _ c Hp Hc). unfold in_part. cbn.
    destruct (span_lookup _ first echo c Ht) as [[ -> ?]|[ -> ?]]; cbn; split_and!; auto.
  - done.
  - pose proof (push_op_fields (Eo_Asr epoch obs) _ _ Hp) as (_ & Hn & _ & Hs & _).
    unfold slot_at. rewrite Hn, Hs. unfold in_part. cbn. split_and!; auto.
  - injection Hp as <-. unfold in_part. cbn. split_and!; auto.
Qed.

Lemma holds_push {T} (held held' : option T) part ops op c (v : T) :
  holds_input held (brings part ops c) v -> input_set held held' (in_part part op c) v ->
  holds_input held' (brings part (ops ++ [op]) c) v.
Proof.
  unfold holds_input, input_set. rewrite brings_snoc. intros [[ -> ?]|[ -> ?]] [[ -> ?]|[ -> ?]]; tauto.
Qed.

(** Where the plan lets an input start. *)
Lemma push_within_plan op a a' c :
  push_op op a = Ok a' -> (in_part vad_part op c -> pl_vad_from (as_plan a) <= c) /\
  (in_part echo_part op c -> pl_analysis_from (as_plan a) <= c).
Proof.
  unfold in_part. destruct op as [epoch first cells|epoch first vad|epoch first echo|epoch span|epoch obs|];
    cbn; intros Hp; split; intros Hc; try done.
  - unfold push_vad in Hp. destruct (check_epoch _ _); [|done]. cbn in Hp. unfold check_range in Hp.
    destruct (N.ltb_spec first (pl_vad_from (as_plan a))); [done|]. lia.
  - unfold push_echo in Hp. destruct (check_epoch _ _); [|done]. cbn in Hp. unfold check_range in Hp.
    destruct (N.ltb_spec first (pl_analysis_from (as_plan a))); [done|]. lia.
Qed.

Lemma push_real op c :
  op_true truth op -> in_part device_part op c -> device_is_gap (Some (tr_device truth c)) = false.
Proof.
  unfold in_part. destruct op as [epoch first cells|epoch first vad|epoch first echo|epoch span|epoch obs|];
    cbn [device_part]; try done.
  intros [Hs Hf] Hc. destruct (span_lookup _ first cells c Hs) as [[Hl _]|[_ Hn]]; [|done].
  destruct (N.ltb_spec c first); [done|]. exact (Forall_lookup_1 _ _ _ _ Hf Hl).
Qed.

Lemma push_blocks op a a' out :
  push_op op a = Ok a' -> ordered (pl_cells_from plan) a out -> as_plan a = plan ->
  forall ops, asr_results ops = blocks_of out ++ as_blocks a -> well_covered plan (asr_results ops) ->
  asr_results (ops ++ [op]) = blocks_of out ++ as_blocks a' /\ well_covered plan (asr_results (ops ++ [op])).
Proof.
  intros Hp Ho Hpl ops Hb Hw. pose proof (push_ordered _ _ _ _ _ Hp Ho) as Ho'.
  destruct (push_op_fields _ _ _ Hp) as (_ & _ & _ & Hop).
  assert (Heq : asr_results (ops ++ [op]) = blocks_of out ++ as_blocks a').
  { unfold asr_results in *. rewrite omap_app, Hb.
    destruct op; cbn; try (destruct Hop as [-> _]; by rewrite app_nil_r).
    destruct Hop as (_ & -> & _). by rewrite app_assoc. }
  split; [done|]. split; [rewrite Heq; apply Ho'|]. destruct Hw as [_ Hw].
  unfold asr_results in *. rewrite omap_app. apply Forall_app. split; [done|].
  destruct op; try by constructor. rewrite Hpl in Hop. destruct Hop as (_ & _ & _ & Hop & _). by repeat constructor.
Qed.

Lemma push_follows ops op a a' out :
  following (known_of ops) (a, out) -> push_op op a = Ok a' -> op_true truth op ->
  following (known_of (ops ++ [op])) (a', out).
Proof.
  intros F Hp Ht. pose proof F as [Hpl Hop Hg Hd Hv He Hr Hvf Hef Ho Hb Hw Hem]. cbn in *.
  destruct (push_op_fields _ _ _ Hp) as (Hpl' & Hn & Hcl & _).
  destruct (push_blocks _ _ _ _ Hp Ho Hpl ops Hb Hw) as [Hb' Hw'].
  split; cbn; rewrite ?Hn; try done.
  - by rewrite Hpl'.
  - by rewrite Hcl.
  - intros c Hc. destruct (push_slot_at op a a' c Hp Ht Hc) as (-> & _). by apply Hg.
  - intros c Hc. destruct (push_slot_at op a a' c Hp Ht Hc) as (_ & Hs & _). by eapply holds_push; [apply Hd|].
  - intros c Hc. destruct (push_slot_at op a a' c Hp Ht Hc) as (_ & _ & Hs & _). by eapply holds_push; [apply Hv|].
  - intros c Hc. destruct (push_slot_at op a a' c Hp Ht Hc) as (_ & _ & _ & Hs). by eapply holds_push; [apply He|].
  - intros c [Hc|Hc]%brings_snoc; [by apply Hr|]. by eapply push_real.
  - intros c [Hc|Hc]%brings_snoc; [by apply Hvf|]. rewrite <- Hpl. by apply (push_within_plan op a a').
  - intros c [Hc|Hc]%brings_snoc; [by apply Hef|]. rewrite <- Hpl. by apply (push_within_plan op a a').
  - by eapply push_ordered.
  - eapply emitted_mono; [|exact Hw'|exact Hem]. apply less_known_snoc.
Qed.

Lemma step_follows ops op st :
  following (known_of ops) st -> is_ok (push_op op st.1) = true -> op_true truth op ->
  following (known_of (ops ++ [op])) (evidence_step st op).
Proof.
  destruct st as [a out]. intros F Hok Ht. cbn [fst] in Hok. destruct (push_op op a) as [a'|] eqn:E; [|done].
  pose proof (push_follows _ _ _ _ _ F E Ht) as F'. destruct op; cbn [evidence_step fst snd]; rewrite ?E; try done.
  injection E as ->. by apply (release_follows _ (a', out)).
Qed.

Lemma run_follows ops ops' st :
  following (known_of ops) st -> accepted_run st ops' -> Forall (op_true truth) ops' ->
  following (known_of (ops ++ ops')) (foldl evidence_step st ops').
Proof.
  revert ops st. induction ops' as [|op ops' IH]; intros ops st F Ha Ht; cbn [foldl].
  - by rewrite app_nil_r.
  - cbn in Ha. destruct Ha as [Hok Ha]. apply Forall_cons in Ht as [Hop Ht].
    replace (ops ++ op :: ops') with ((ops ++ [op]) ++ ops') by (by rewrite <- app_assoc). apply IH; [|done..]. by apply step_follows.
Qed.

Lemma new_follows a : assembler_new plan = Ok a -> following (known_of []) (a, []).
Proof.
  intros Ha. pose proof (assembler_new_ordered _ _ Ha) as Ho. unfold assembler_new in Ha.
  destruct (_ || _) eqn:E; [done|]. injection Ha as <-.
  assert (Hno : forall part c, ~ brings part [] c).
  { intros part c (op & ? & ? & Hop & _). by apply elem_of_nil in Hop. }
  split; cbn; try done; try (by intros c ?; right); try (by intros c ?%Hno); try (by intros; exfalso; eapply Hno).
  constructor.
Qed.

(** What a true, accepted run shows after a release depends on what it was told only. *)
Lemma run_canonical ops a :
  assembler_new plan = Ok a -> accepted_run (a, []) ops -> Forall (op_true truth) ops ->
  well_covered plan (asr_results ops) /\
  exists q, emitted plan truth (known_of ops) (pl_cells_from plan, 0%nat) (evidence_run a (ops ++ [Eo_Release])).2 q /\
    forall r q', ~ emits plan truth (known_of ops) q r q'.
Proof.
  intros Ha Hacc Ht. pose proof (run_follows [] ops (a, []) (new_follows _ Ha) Hacc Ht) as F.
  rewrite app_nil_l in F. split; [apply F|].
  unfold evidence_run. rewrite foldl_app. cbn [foldl]. set (st := foldl evidence_step (a, []) ops) in *.
  clearbody st. destruct (release_follows _ _ F) as [F' Hstuck].
  eexists. split; [apply F'|exact Hstuck].
Qed.
End follows.

(** What is known decides what is released. *)
Lemma same_known_same_release plan truth a ops ops' :
  assembler_new plan = Ok a ->
  Forall (op_true truth) ops -> Forall (op_true truth) ops' ->
  accepted_run (a, []) ops -> accepted_run (a, []) ops' ->
  less_known (known_of ops) (known_of ops') -> less_known (known_of ops') (known_of ops) ->
  (evidence_run a (ops ++ [Eo_Release])).2 = (evidence_run a (ops' ++ [Eo_Release])).2.
Proof.
  intros Ha Ht Ht' Hacc Hacc' Hless Hless'.
  destruct (run_canonical plan truth ops a Ha Hacc Ht) as (Hw & q & Hq & Hs).
  destruct (run_canonical plan truth ops' a Ha Hacc' Ht') as (Hw' & q' & Hq' & Hs').
  eapply emitted_unique; [exact (emitted_mono _ _ _ _ _ _ _ Hless Hw' Hq)|exact Hq'| |exact Hs'].
  intros r q1 He1. eapply Hs, emits_mono; [exact Hless'|exact Hw|exact He1].
Qed.
(** The same evidence: the same cells of each input, and the same results. *)
Record same_evidence (ops ops' : list EvidenceOp) : Prop := {
  sv_device c : brings device_part ops c <-> brings device_part ops' c;
  sv_vad c : brings vad_part ops c <-> brings vad_part ops' c;
  sv_echo c : brings echo_part ops c <-> brings echo_part ops' c;
  sv_asr : asr_results ops = asr_results ops';
}.
Lemma same_evidence_known ops ops' :
  same_evidence ops ops' -> less_known (known_of ops) (known_of ops') /\ less_known (known_of ops') (known_of ops).
Proof.
  intros [Hd Hv He Hr]. split; split; cbn; try (by intros c; apply Hd || apply Hv || apply He);
    exists []; by rewrite app_nil_r.
Qed.

(** The order in which the workers finish never changes what is released.
    Take two arrival orders of the same evidence for an utterance with no missing
    audio: the same device cells, VAD results and echo labels, cut into pushes in
    any way, repeated in any way, with releases anywhere in between, and the same
    recognizer results in their order. When both are accepted, a release leaves
    exactly the same output. *)
Theorem completion_order_irrelevant plan truth a ops ops' :
  assembler_new plan = Ok a ->
  Forall (op_true truth) ops -> Forall (op_true truth) ops' ->
  accepted_run (a, []) ops -> accepted_run (a, []) ops' ->
  same_evidence ops ops' ->
  (evidence_run a (ops ++ [Eo_Release])).2 = (evidence_run a (ops' ++ [Eo_Release])).2.
Proof.
  intros Ha Ht Ht' Hacc Hacc' Hsame. destruct (same_evidence_known _ _ Hsame). by apply (same_known_same_release plan truth).
Qed.

(** *** A concrete utterance *)
Lemma brings_nil part c : brings part [] c <-> False.
Proof. split; [|done]. by intros (op & ? & ? & ?%elem_of_nil & _). Qed.
Lemma brings_cons part op ops c : brings part (op :: ops) c <-> in_part part op c \/ brings part ops c.
Proof.
  unfold brings, in_part. split.
  - intros (o & first & n & [->|Ho]%elem_of_cons & Hp & Hc); [left; by rewrite Hp|right; eauto 10].
  - intros [Hc|(o & first & n & Ho & Hp & Hc)].
    + destruct (part op) as [[first n]|] eqn:E; [|done]. exists op, first, n. split; [by left|done].
    + exists o, first, n. split; [by right|done].
Qed.

Definition sample_plan : EvidencePlan := mkPlan 9 10 11 12.
Definition sample_assembler : Assembler := mkAssembler sample_plan 10 [] [] None false.
Definition sample_device (c : CellIndex) : DeviceInput := Di_Cell (device_cell_audio (- Z.of_N (100 * c)) 1).
Definition sample_truth : Truth :=
  mkTruth sample_device (fun _ => Vi_Probability f32_one) (fun _ => mkEchoCell El_EchoOnly Rc_Full).
Definition sample_asr (through : Sample) : AsrObservation := mkAsr through [] 0 Ak_Live.
Definition sample_one_way : list EvidenceOp := [
  Eo_Device 9 10 (sample_device <$> [10; 11; 12; 13]);
  Eo_Vad 9 11 (replicate 3 (Vi_Probability f32_one)); Eo_Release;
  Eo_Echo 9 12 (replicate 2 (mkEchoCell El_EchoOnly Rc_Full)); Eo_Asr 9 (sample_asr 6656); Eo_Release;
  Eo_Asr 9 (sample_asr 7000)].
Definition sample_other_way : list EvidenceOp := [
  Eo_Asr 9 (sample_asr 6656); Eo_Asr 9 (sample_asr 7000); Eo_Echo 9 13 [mkEchoCell El_EchoOnly Rc_Full];
  Eo_Vad 9 12 (replicate 2 (Vi_Probability f32_one)); Eo_Release; Eo_Device 9 12 (sample_device <$> [12; 13]);
  Eo_Device 9 10 (sample_device <$> [10; 11; 12]); Eo_Release;
  Eo_Vad 9 11 [Vi_Probability f32_one]; Eo_Echo 9 12 [mkEchoCell El_EchoOnly Rc_Full]].

Ltac brings_concrete one other :=
  intros c; unfold one, other; rewrite ?brings_cons, ?brings_nil; unfold in_part; cbn; lia.
Ltac says_concrete := intros i v Hi; repeat (destruct i as [|i]; [by injection Hi as <-|]); done.

Lemma release_in_sample_order_witness :
  assembler_new sample_plan = Ok sample_assembler /\
  cells_of (evidence_run sample_assembler (sample_other_way ++ [Eo_Release])).2 = [10; 11; 12] /\
  let '(a', out) := evidence_run sample_assembler (sample_other_way ++ [Eo_Release]) in
  cells_of out = cell_run 10 (N.to_nat (as_next a' - 10)) /\ covering None (blocks_of out) /\
  (forall pre b post, out = pre ++ Rl_Block b :: post ->
    forall c, 10 <= c -> cell_end c <= asr_through b -> c ∈ cells_of pre).
Proof.
  split_and!; [reflexivity|vm_compute; reflexivity|].
  exact (release_in_sample_order sample_plan sample_assembler (sample_other_way ++ [Eo_Release]) eq_refl).
Defined.

Lemma completion_order_irrelevant_witness :
  (evidence_run sample_assembler (sample_one_way ++ [Eo_Release])).2
    = (evidence_run sample_assembler (sample_other_way ++ [Eo_Release])).2 /\
  length (evidence_run sample_assembler (sample_one_way ++ [Eo_Release])).2 = 5%nat.
Proof.
  split; [|vm_compute; reflexivity].
  apply (completion_order_irrelevant sample_plan sample_truth sample_assembler sample_one_way sample_other_way).
  - reflexivity.
  - repeat apply List.Forall_cons; try exact I; try apply List.Forall_nil; try says_concrete.
    split; [says_concrete|]. by repeat constructor.
  - repeat apply List.Forall_cons; try exact I; try apply List.Forall_nil; try says_concrete;
      (split; [says_concrete|]; by repeat constructor).
  - vm_compute. by repeat split.
  - vm_compute. by repeat split.
  - split; [brings_concrete sample_one_way sample_other_way..|reflexivity].
Defined.

(** ** Missing audio *)
Definition gap_first : list EvidenceOp := [
  Eo_Gap 9 (mkSampleSpan 5120 5632); Eo_Release;
  Eo_Device 9 10 [Di_Cell (mkDeviceCell (-12000) false true 0)]; Eo_Release].
Definition muted_first : list EvidenceOp := [
  Eo_Device 9 10 [Di_Cell (mkDeviceCell (-12000) false true 0)]; Eo_Release;
  Eo_Gap 9 (mkSampleSpan 5120 5632); Eo_Release].

(** With missing audio the arrival order does show: a cell the transport marks
    missing and the device records as muted is released as a plain gap when the
    mark comes first and as a muted gap when the record does, every push being
    accepted either way. *)
Theorem gap_order_matters :
  gap_first ≡ₚ muted_first /\
  accepted_run (sample_assembler, []) gap_first /\ accepted_run (sample_assembler, []) muted_first /\
  (evidence_run sample_assembler gap_first).2 = [Rl_Cell (mkCellEvidence 10 (Ca_Gap false))] /\
  (evidence_run sample_assembler muted_first).2 = [Rl_Cell (mkCellEvidence 10 (Ca_Gap true))].
Proof.
  split_and!.
  - exact (Permutation_app_comm (take 2 gap_first) (drop 2 gap_first)).
  - vm_compute. by repeat split.
  - vm_compute. by repeat split.
  - vm_compute. reflexivity.
  - vm_compute. reflexivity.
Qed.

(** ** Device records *)
Lemma small_flags flags :
  flags < 4 -> bits_contain flags CELL_GAP = negb (N.land flags FLAG_GAP =? 0) /\
               bits_contain flags CELL_MUTED = negb (N.land flags FLAG_MUTED_CELL =? 0).
Proof.
  intros H. assert (flags = 0 \/ flags = 1 \/ flags = 2 \/ flags = 3) as [->|[->|[->| ->]]] by lia; by vm_compute.
Qed.

(** The evidence reader and the check of a cells frame agree on cell records: a
    record is read as evidence exactly when a frame carrying it passes, and what is
    read is the record's loudness and sources with its two flags taken apart. *)
Theorem device_cell_from_wire_spec e flags mask d :
  device_cell_from_wire e flags mask = Ok d <->
  cell_ok (mkCell e flags mask) /\
  d = mkDeviceCell e (bits_contain flags CELL_GAP) (bits_contain flags CELL_MUTED) mask.
Proof.
  unfold device_cell_from_wire. change (N.lor FLAG_GAP FLAG_MUTED_CELL) with (N.ones 2).
  change SOURCES_KNOWN with (N.ones 4). cbv zeta. guard_simpl. rewrite !ldiff_ones_0. split.
  - intros (He & Hf & Hm & Hg & <-). destruct (small_flags flags Hf) as [Hgap Hmuted].
    rewrite Hgap, Hmuted. split; [|done]. split; cbn; [exact He|exact Hf|exact Hm|].
    rewrite Hgap. intros Hx. destruct Hg as [Hg|Hg]; [by rewrite Hg in Hx|exact Hg].
  - intros [[He Hf Hm Hg] ->]. cbn in *. destruct (small_flags flags Hf) as [Hgap Hmuted].
    do 3 (split; [assumption|]). split; [|by rewrite Hgap, Hmuted].
    rewrite Hgap in Hg. destruct (N.eqb_spec (N.land flags FLAG_GAP) 0); [by left|right; by apply Hg].
Qed.
