(* ===== verification/Focus.v ===== *)
(** * Dialog focus leases ([playback/src/focus.rs])

    The lease a turn holds on the device while it listens or speaks, as the
    controller keeps it: the messages it sends, the acknowledgements it takes
    back, and until when the device is known to hold it.  The link it sends
    through is the class [CommandLink], the trait of [playback/src/link.rs].
    An [Instant] is its number of nanoseconds; a sum with a [Duration] is exact.
    [ReleasedFocus] ([voice/src/session.rs]) keeps the released leases. *)
From S2P Require Import Prelude WireEnum Vocab Clock.

Abbreviation Instant := N.
Abbreviation MessageId := string.
Abbreviation LeaseId := string.
Abbreviation FocusOwner := string.

(** ** Messages *)
Inductive FocusKind := Fk_DialogInput | Fk_DialogOutput.
#[export] Instance FocusKind_wire : WireEnum FocusKind := {
  as_str k := match k with
    | Fk_DialogInput => "dialog_input"
    | Fk_DialogOutput => "dialog_output"
    end%string;
  ALL := [Fk_DialogInput; Fk_DialogOutput];
}.
#[export] Instance FocusKind_laws : WireLaws FocusKind.
Proof. solve_wire_laws. Qed.

Inductive FocusRejection := Fr_Invalid | Fr_StaleGeneration | Fr_UnknownLease.
#[export] Instance FocusRejection_wire : WireEnum FocusRejection := {
  as_str r := match r with
    | Fr_Invalid => "invalid"
    | Fr_StaleGeneration => "stale_generation"
    | Fr_UnknownLease => "unknown_lease"
    end%string;
  ALL := [Fr_Invalid; Fr_StaleGeneration; Fr_UnknownLease];
}.
#[export] Instance FocusRejection_laws : WireLaws FocusRejection.
Proof. solve_wire_laws. Qed.

Definition reported {T} `{WireEnum T} (text : string) : Reported T :=
  match from_wire text with Some value => Known value | None => Unrecognized text end.

Record FocusAcquire := mkFocusAcquire {
  fa_lease_id : LeaseId; fa_owner : FocusOwner; fa_focus : FocusKind; fa_ttl_ms : N;
}.
Record FocusRenew := mkFocusRenew { fn_lease_id : LeaseId; fn_ttl_ms : N }.
Record FocusRelease := mkFocusRelease { fr_lease_id : LeaseId }.

(** The commands of a lease; a playback's are not modelled. *)
Inductive FocusCommand :=
  | Fc_Acquire (body : FocusAcquire)
  | Fc_Renew (body : FocusRenew)
  | Fc_Release (body : FocusRelease).
Definition focus_message_type (c : FocusCommand) : MessageType :=
  match c with
  | Fc_Acquire _ => Mt_FocusAcquire
  | Fc_Renew _ => Mt_FocusRenew
  | Fc_Release _ => Mt_FocusRelease
  end.

Inductive AckFailure := Af_TimedOut | Af_SessionEnded.
Inductive AckOutcome :=
  | Ao_Accepted
  | Ao_Rejected (code : option string)
  | Ao_Failed (failure : AckFailure).

(** [CommandLink::request]: the link after the command is queued, and the
    message ID its acknowledgement will quote, or nothing when the session has
    ended. *)
Class CommandLink (L : Type) := request : L -> FocusCommand -> N -> L * option MessageId.

(** ** The lease *)
Definition FOCUS_TTL : Duration := from_secs 3.
Definition FOCUS_RENEW_INTERVAL : Duration := from_secs 1.

Inductive FocusEvent :=
  | Fe_Expired
  | Fe_Rejected (code : option (Reported FocusRejection))
  | Fe_LinkClosed
  | Fe_Released.

Inductive GenerationError :=
  | Ge_Lower (current requested : N)
  | Ge_NotHeld
  | Ge_LinkClosed.

Inductive LeaseState := Ls_Held | Ls_Releasing | Ls_Ended.
Inductive LeaseOp := Lo_Keep | Lo_Release.
#[export] Instance LeaseState_eq_dec : EqDecision LeaseState.
Proof. solve_decision. Defined.
#[export] Instance LeaseOp_eq_dec : EqDecision LeaseOp.
Proof. solve_decision. Defined.

Record FocusLease := mkLease {
  fl_id : LeaseId;
  fl_generation : N;
  fl_state : LeaseState;
  fl_next_renewal : Instant;
  fl_held_until : Instant;
  fl_pending : list (MessageId * LeaseOp * Instant);
}.
Definition set_state (st : LeaseState) (l : FocusLease) : FocusLease :=
  mkLease (fl_id l) (fl_generation l) st (fl_next_renewal l) (fl_held_until l) (fl_pending l).
Definition set_lease_generation (g : N) (l : FocusLease) : FocusLease :=
  mkLease (fl_id l) g (fl_state l) (fl_next_renewal l) (fl_held_until l) (fl_pending l).
Definition set_held_until (t : Instant) (l : FocusLease) : FocusLease :=
  mkLease (fl_id l) (fl_generation l) (fl_state l) (fl_next_renewal l) t (fl_pending l).
Definition set_pending (p : list (MessageId * LeaseOp * Instant)) (l : FocusLease) : FocusLease :=
  mkLease (fl_id l) (fl_generation l) (fl_state l) (fl_next_renewal l) (fl_held_until l) p.
Definition set_next_renewal (t : Instant) (l : FocusLease) : FocusLease :=
  mkLease (fl_id l) (fl_generation l) (fl_state l) t (fl_held_until l) (fl_pending l).

Definition is_held (l : FocusLease) : bool := bool_decide (fl_state l = Ls_Held).

Section lease.
Context {L : Type} `{CommandLink L}.

(** [FocusLease::acquire], with the lease ID drawn for it. *)
Definition lease_acquire (link : L) (now : Instant) (id : LeaseId) (kind : FocusKind) (owner : FocusOwner)
    (generation : N) : L * option FocusLease :=
  let body := mkFocusAcquire id owner kind (as_millis FOCUS_TTL) in
  let '(link, message) := request link (Fc_Acquire body) generation in
  (link,
   (fun message => mkLease id generation Ls_Held (now + FOCUS_RENEW_INTERVAL) (now + FOCUS_TTL)
                     [(message, Lo_Keep, now)]) <$> message).

(** [renew]: [None] when the session has ended, and then nothing changes. *)
Definition lease_renew (link : L) (now : Instant) (l : FocusLease) : L * option FocusLease :=
  let body := mkFocusRenew (fl_id l) (as_millis FOCUS_TTL) in
  let '(link, message) := request link (Fc_Renew body) (fl_generation l) in
  (link,
   (fun message =>
      set_next_renewal (N.max (fl_next_renewal l + FOCUS_RENEW_INTERVAL) (now + FOCUS_RENEW_INTERVAL / 2))
        (set_pending (fl_pending l ++ [(message, Lo_Keep, now)]) l)) <$> message).

Definition lease_set_generation (link : L) (now : Instant) (generation : N) (l : FocusLease) :
    L * FocusLease * result GenerationError unit :=
  if negb (is_held l) then (link, l, Err Ge_NotHeld)
  else if generation <? fl_generation l then (link, l, Err (Ge_Lower (fl_generation l) generation))
  else
    let l := set_lease_generation generation l in
    match lease_renew link now l with
    | (link, Some l) => (link, l, Ok tt)
    | (link, None) => (link, set_state Ls_Ended l, Err Ge_LinkClosed)
    end.

(** [FocusLease::release]; [false] when the session has ended. *)
Definition lease_release (link : L) (now : Instant) (l : FocusLease) : L * FocusLease * bool :=
  if negb (is_held l) then (link, l, true)
  else
    match request link (Fc_Release (mkFocusRelease (fl_id l))) (fl_generation l) with
    | (link, Some message) =>
        (link, set_state Ls_Releasing (set_pending (fl_pending l ++ [(message, Lo_Release, now)]) l), true)
    | (link, None) => (link, set_state Ls_Ended l, false)
    end.

Definition lease_poll (link : L) (now : Instant) (l : FocusLease) : L * FocusLease * option FocusEvent :=
  match fl_state l with
  | Ls_Ended => (link, l, None)
  | Ls_Releasing =>
      if fl_held_until l <=? now then (link, set_state Ls_Ended l, Some Fe_Released) else (link, l, None)
  | Ls_Held =>
      if fl_held_until l <=? now then (link, set_state Ls_Ended l, Some Fe_Expired)
      else if fl_next_renewal l <=? now then
        match lease_renew link now l with
        | (link, Some l) => (link, l, None)
        | (link, None) => (link, set_state Ls_Ended l, Some Fe_LinkClosed)
        end
      else (link, l, None)
  end.
End lease.

Definition lease_next_deadline (l : FocusLease) : option Instant :=
  match fl_state l with
  | Ls_Held => Some (N.min (fl_next_renewal l) (fl_held_until l))
  | Ls_Releasing => Some (fl_held_until l)
  | Ls_Ended => None
  end.

(** [FocusLease::on_ack]: [None] when the command was not this lease's. *)
Definition lease_on_ack (message_id : MessageId) (outcome : AckOutcome) (l : FocusLease) :
    option (FocusLease * option FocusEvent) :=
  index ← position (fun p => String.eqb p.1.1 message_id) (fl_pending l);
  '(_, op, sent) ← fl_pending l !! index;
  let l := set_pending (remove_at index (fl_pending l)) l in
  if bool_decide (fl_state l = Ls_Ended) then Some (l, None)
  else
    Some match op, outcome with
    | Lo_Keep, Ao_Accepted => (set_held_until (N.max (fl_held_until l) (sent + FOCUS_TTL)) l, None)
    | Lo_Release, Ao_Accepted => (set_state Ls_Ended l, Some Fe_Released)
    | _, Ao_Rejected code => (set_state Ls_Ended l, Some (Fe_Rejected (reported <$> code)))
    | _, Ao_Failed Af_SessionEnded => (set_state Ls_Ended l, Some Fe_LinkClosed)
    | _, Ao_Failed Af_TimedOut => (l, None)
    end.

(** ** Released leases ([ReleasedFocus]) *)
Section released.
Context {L : Type} `{CommandLink L}.

Definition released_release (link : L) (lease : option FocusLease) (now : Instant) (leases : list FocusLease) :
    L * list FocusLease :=
  match lease with
  | Some lease => let '(link, lease, _) := lease_release link now lease in (link, leases ++ [lease])
  | None => (link, leases)
  end.

Fixpoint poll_each (link : L) (now : Instant) (leases : list FocusLease) : L * list FocusLease :=
  match leases with
  | [] => (link, [])
  | l :: leases =>
      let '(link, l, _) := lease_poll link now l in
      let '(link, leases) := poll_each link now leases in
      (link, l :: leases)
  end.
Definition released_poll (link : L) (now : Instant) (leases : list FocusLease) : L * list FocusLease :=
  let '(link, leases) := poll_each link now leases in (link, retain is_held leases).
End released.

(** The first lease that knows the message takes the acknowledgement. *)
Fixpoint released_ack (id : MessageId) (outcome : AckOutcome) (leases : list FocusLease) : list FocusLease * bool :=
  match leases with
  | [] => ([], false)
  | l :: leases =>
      match lease_on_ack id outcome l with
      | Some (l, _) => (l :: leases, true)
      | None => let '(leases, found) := released_ack id outcome leases in (l :: leases, found)
      end
  end.

Definition min_option (a b : option Instant) : option Instant :=
  match a, b with Some a, Some b => Some (N.min a b) | Some a, None => Some a | None, b => b end.
Definition released_next_deadline (leases : list FocusLease) : option Instant :=
  foldr (fun l => min_option (lease_next_deadline l)) None leases.

(** ** Polling *)
Section contracts.
Context {L : Type} `{CommandLink L}.

Lemma lease_renew_next link now l link' l' :
  lease_renew link now l = (link', Some l') ->
  fl_state l' = fl_state l /\ fl_held_until l' = fl_held_until l /\ now < fl_next_renewal l' /\
  fl_next_renewal l' = N.max (fl_next_renewal l + FOCUS_RENEW_INTERVAL) (now + FOCUS_RENEW_INTERVAL / 2) /\
  exists m, fl_pending l' = fl_pending l ++ [(m, Lo_Keep, now)].
Proof.
  unfold lease_renew. destruct (request link _ _) as [link1 [m|]]; [|done]. intros [= <- <-].
  cbn -[FOCUS_RENEW_INTERVAL N.div]. split_and!; try done; [|eauto].
  change (FOCUS_RENEW_INTERVAL / 2) with 500000000. lia.
Qed.

Lemma lease_poll_state link now l :
  let '(_, l', ev) := lease_poll link now l in
  fl_state l' = match ev with Some _ => Ls_Ended | None => fl_state l end.
Proof.
  unfold lease_poll. destruct (fl_state l) eqn:Es; [|by destruct (_ <=? _)|done].
  destruct (_ <=? _); [done|]. destruct (_ <=? _); [|done].
  destruct (lease_renew link now l) as [link' [l'|]] eqn:E; [|done].
  destruct (lease_renew_next _ _ _ _ _ E) as (-> & _). by rewrite Es.
Qed.

(** What is left of each case of a poll. *)
Ltac poll_case := try done; try (intros ? [= <-]; lia); split; intros; destruct_and?; (lia || done || (split_and!; done)).

(** A poll leaves no deadline at or before it, and tells exactly what it found:
    an expiry when a held lease is past the instant it is known to be held until, a
    release when a released one is, a closed link when a due renewal cannot be sent;
    otherwise the lease stays as it was held or not, and a message is sent exactly
    when the renewal is due. *)
Theorem lease_poll_contract link now l :
  let '(link', l', ev) := lease_poll link now l in
  (forall t, lease_next_deadline l' = Some t -> now < t) /\
  (ev = Some Fe_Expired <-> fl_state l = Ls_Held /\ fl_held_until l <= now) /\
  (ev = Some Fe_Released <-> fl_state l = Ls_Releasing /\ fl_held_until l <= now) /\
  (ev = Some Fe_LinkClosed <-> fl_state l = Ls_Held /\ now < fl_held_until l /\ fl_next_renewal l <= now /\
     (lease_renew link now l).2 = None) /\
  (fl_state l' = match ev with Some _ => Ls_Ended | None => fl_state l end) /\
  (fl_pending l' <> fl_pending l <->
     ev = None /\ fl_state l = Ls_Held /\ fl_next_renewal l <= now).
Proof.
  unfold lease_poll, lease_next_deadline. destruct (fl_state l) eqn:Es.
  - destruct (N.leb_spec (fl_held_until l) now) as [Hu|Hu]; [cbn; split_and!; poll_case|].
    destruct (N.leb_spec (fl_next_renewal l) now) as [Hn|Hn]; [|cbn; rewrite Es; split_and!; poll_case].
    destruct (lease_renew link now l) as [link' [l'|]] eqn:E; cbn; [|split_and!; poll_case].
    destruct (lease_renew_next _ _ _ _ _ E) as (Hs & Hh & Hlt & _ & m & Hp). rewrite Hs, Es, Hh, Hp.
    assert (Hmore : fl_pending l ++ [(m, Lo_Keep, now)] <> fl_pending l).
    { intros Heq. apply (f_equal length) in Heq. rewrite length_app in Heq. cbn in Heq. lia. }
    split_and!; poll_case.
  - destruct (N.leb_spec (fl_held_until l) now) as [Hu|Hu]; cbn; rewrite ?Es; split_and!; poll_case.
  - cbn. rewrite Es. split_and!; poll_case.
Qed.

(** ** Renewals keep the lease *)
(** The device answers the message just sent, or the answer is lost. *)
Definition answered (acked : bool) (l : FocusLease) : FocusLease :=
  match last (fl_pending l) with
  | Some (m, _, _) =>
      match lease_on_ack m (if acked then Ao_Accepted else Ao_Failed Af_TimedOut) l with
      | Some (l, _) => l
      | None => l
      end
  | None => l
  end.

(** The lease polled at each of its deadlines in turn, and what each poll reported. *)
Fixpoint keep_alive (link : L) (l : FocusLease) (acks : list bool) : FocusLease * list FocusEvent :=
  match acks with
  | [] => (l, [])
  | acked :: acks =>
      match lease_next_deadline l with
      | None => (l, [])
      | Some t =>
          let '(link, l, ev) := lease_poll link t l in
          let '(l, evs) := keep_alive link (answered acked l) acks in
          (l, (match ev with Some e => [e] | None => [] end) ++ evs)
      end
  end.

(** At most one answer in a row is lost. *)
Fixpoint no_two_lost (acks : list bool) : Prop :=
  match acks with
  | false :: (false :: _) => False
  | _ :: acks => no_two_lost acks
  | [] => True
  end.

(** A lease renewed on time, [missed] answers behind. *)
Record on_time (t : Instant) (missed : N) (l : FocusLease) : Prop := {
  ot_held : fl_state l = Ls_Held;
  ot_next : fl_next_renewal l = t + FOCUS_RENEW_INTERVAL;
  ot_until : fl_held_until l + missed * FOCUS_RENEW_INTERVAL = t + FOCUS_TTL;
  ot_pending : fl_pending l = [];
}.

Lemma answered_on_time t missed l m (acked : bool) :
  fl_state l = Ls_Held -> fl_next_renewal l = t + FOCUS_RENEW_INTERVAL ->
  fl_held_until l + missed * FOCUS_RENEW_INTERVAL = t + FOCUS_TTL -> fl_pending l = [(m, Lo_Keep, t)] ->
  on_time t (if acked then 0 else missed) (answered acked l).
Proof.
  intros Hs Hn Hu Hp. unfold answered. rewrite Hp. cbn [last]. unfold lease_on_ack. rewrite Hp. cbn [position fst].
  rewrite String.eqb_refl. cbn. rewrite Hs. cbn. destruct acked; split; cbn -[FOCUS_TTL FOCUS_RENEW_INTERVAL]; rewrite ?Hp; try done.
  change FOCUS_RENEW_INTERVAL with 1000000000 in *. change FOCUS_TTL with 3000000000 in *.
  rewrite bool_decide_eq_false_2 by done. cbn. lia.
Qed.

Lemma keep_alive_on_time link l acks t missed :
  (forall link c g, (request link c g).2 <> None) ->
  on_time t missed l -> missed <= 1 -> (missed = 1 -> head acks <> Some false) -> no_two_lost acks ->
  let '(l', evs) := keep_alive link l acks in
  evs = [] /\ exists missed', missed' <= 1 /\ on_time (t + N.of_nat (length acks) * FOCUS_RENEW_INTERVAL) missed' l'.
Proof.
  intros Hlink. revert link l t missed. induction acks as [|acked acks IH]; intros link l t missed Hot Hm Hh Hlost.
  - cbn. split; [done|]. exists missed. by rewrite N.add_0_r.
  - cbn [keep_alive length]. destruct Hot as [Hs Hn Hu Hp]. unfold lease_next_deadline. rewrite Hs.
    change FOCUS_RENEW_INTERVAL with 1000000000 in *. change FOCUS_TTL with 3000000000 in *.
    replace (N.min (fl_next_renewal l) (fl_held_until l)) with (t + 1000000000) by lia.
    unfold lease_poll. rewrite Hs. destruct (N.leb_spec (fl_held_until l) (t + 1000000000)); [lia|].
    destruct (N.leb_spec (fl_next_renewal l) (t + 1000000000)); [|lia].
    destruct (lease_renew link (t + 1000000000) l) as [link' [l'|]] eqn:E.
    2: { unfold lease_renew in E. pose proof (Hlink link (Fc_Renew (mkFocusRenew (fl_id l) (as_millis FOCUS_TTL))) (fl_generation l)) as Hne.
         destruct (request link _ _) as [? [m|]]; done. }
    destruct (lease_renew_next _ _ _ _ _ E) as (Hs' & Hh' & _ & Hn' & m & Hp').
    change FOCUS_RENEW_INTERVAL with 1000000000 in *. change (1000000000 / 2) with 500000000 in Hn'.
    pose proof (answered_on_time (t + 1000000000) (missed + 1) l' m acked) as Ha.
    rewrite Hs', Hs, Hn', Hn, Hh', Hp', Hp in Ha. change FOCUS_RENEW_INTERVAL with 1000000000 in Ha.
    change FOCUS_TTL with 3000000000 in Ha. specialize (Ha eq_refl ltac:(lia) ltac:(lia) eq_refl).
    specialize (IH link' (answered acked l') (t + 1000000000) (if acked then 0 else missed + 1) Ha).
    destruct (keep_alive link' (answered acked l') acks) as [l2 evs].
    destruct IH as [-> (missed' & Hm' & Hot')].
    + destruct acked; [lia|]. assert (missed <> 1) by (intros ->; by apply Hh). lia.
    + destruct acked; [done|]. intros _. destruct acks as [|[] acks]; [done..|]. by cbn in Hlost.
    + destruct acked, acks as [|[]]; done.
    + split; [done|]. exists missed'. split; [done|]. 
      replace (t + N.of_nat (S (length acks)) * 1000000000) with (t + 1000000000 + N.of_nat (length acks) * 1000000000) by lia.
      done.
Qed.

(** A lease polled at its deadlines is never lost to lost acknowledgements as long
    as no two in a row are: every poll is silent, the lease stays held through any
    number of renewals, one each second. *)
Theorem renewals_keep_the_lease link now id kind owner g link' l acks :
  (forall link c g, (request link c g).2 <> None) ->
  lease_acquire link now id kind owner g = (link', Some l) -> no_two_lost acks ->
  let '(l', evs) := keep_alive link' (answered true l) acks in
  evs = [] /\ is_held l' = true /\
  fl_next_renewal l' = now + (N.of_nat (length acks) + 1) * FOCUS_RENEW_INTERVAL /\
  fl_next_renewal l' < fl_held_until l'.
Proof.
  intros Hlink Ha Hlost. unfold lease_acquire in Ha. destruct (request link _ _) as [link1 [m|]]; [|done].
  injection Ha as <- <-.
  set (l := mkLease _ _ _ _ _ _). assert (Hot : on_time now 0 (answered true l)).
  { apply (answered_on_time now 0 l m true); try done. cbn. lia. }
  pose proof (keep_alive_on_time link1 (answered true l) acks now 0 Hlink Hot ltac:(lia) ltac:(done) Hlost) as H1.
  destruct (keep_alive link1 (answered true l) acks) as [l' evs].
  destruct H1 as [-> (missed & Hm & [Hs Hn Hu Hp])]. change FOCUS_RENEW_INTERVAL with 1000000000 in *.
  change FOCUS_TTL with 3000000000 in *. split_and!; [done|by apply bool_decide_eq_true|lia|lia].
Qed.
End contracts.

(** A link that numbers what it sends. *)
#[local] Instance counting_link : CommandLink nat := fun n _ _ => (S n, Some (pretty n)).
Lemma renewals_keep_the_lease_witness :
  exists l, lease_acquire 0%nat 10 "lease" Fk_DialogOutput "turn" 1 = (1%nat, Some l) /\
  let '(l', evs) := keep_alive 1%nat (answered true l) [false; true; true; false; true; false] in
  evs = [] /\ is_held l' = true /\ fl_next_renewal l' = 10 + (N.of_nat 6 + 1) * FOCUS_RENEW_INTERVAL /\
  fl_next_renewal l' < fl_held_until l'.
Proof.
  eexists. split; [reflexivity|].
  refine (renewals_keep_the_lease 0%nat 10 "lease" Fk_DialogOutput "turn" 1 1%nat _
            [false; true; true; false; true; false] _ eq_refl _).
  - done.
  - by cbn.
Defined.

(** ** Released leases *)
(** A released lease is forgotten at the first poll: [ReleasedFocus] keeps only
    leases that are still held, and none that has been released is, so its
    acknowledgement is taken by nobody. *)
Theorem released_leases_are_forgotten {L : Type} `{CommandLink L} link now leases message outcome :
  Forall (fun l => is_held l = false) leases ->
  (released_poll link now leases).2 = [] /\
  released_ack message outcome (released_poll link now leases).2 = ([], false).
Proof.
  intros Hl. assert (H0 : retain is_held (poll_each link now leases).2 = []).
  { revert link. induction Hl as [|l leases Hh _ IH]; intros link; [done|]. cbn [poll_each].
    pose proof (lease_poll_state link now l) as Hs. destruct (lease_poll link now l) as [[link1 l1] ev]. specialize (IH link1). destruct (poll_each link1 now leases) as [link2 ls].
    cbn [snd] in *. rewrite retain_cons.
    assert (is_held l1 = false) as ->; [|exact IH]. unfold is_held in *. apply bool_decide_eq_false in Hh.
    apply bool_decide_eq_false. rewrite Hs. by destruct ev. }
  unfold released_poll. destruct (poll_each link now leases) as [link' ls]. cbn [snd] in *. by rewrite H0.
Qed.
Lemma released_leases_are_forgotten_witness :
  exists leases, (released_release 0%nat (Some (mkLease "l" 1 Ls_Held 20 30 [])) 10 []).2 = leases /\ length leases = 1%nat /\
    (released_poll 1%nat 11 leases).2 = [] /\
    released_ack "0" Ao_Accepted (released_poll 1%nat 11 leases).2 = ([], false).
Proof.
  eexists. split; [reflexivity|]. split; [reflexivity|].
  apply (released_leases_are_forgotten (L := nat)). repeat constructor.
Defined.
