(* ===== verification/FocusLink.v ===== *)
(** * A focus lease on both ends of the link

    The device's lease table ([src/device/internal/focus/focus.go] and the focus
    handlers of [src/device/internal/supervisor/render.go]), the queue the
    controller's machine sends through ([voice/src/link.rs]) and one lease of
    [Focus] between them, as a system of steps over one clock: what the
    controller believes of the lease is compared with what the device holds.
    Of the device's [Manager] this models the leases and the provisional ducks;
    its alert and dialog playback fields never change a lease. *)
From S2P Require Import Prelude WireEnum Vocab Clock Focus.

(** ** The device's leases *)
Definition DefaultTTL : Duration := from_secs 3.
Definition ProvisionalWindow : Duration := from_secs 5.
Definition ProvisionalPerWindow : nat := 2.

Inductive FocusErr := ErrKind | ErrStale | ErrUnknown.

Record DevLease := mkDevLease {
  dl_owner : string;
  dl_generation : N;
  dl_kind : string;
  dl_expires : Instant;
  dl_converted : bool;
}.
(** [duckTimes]: the zero time is [None]. *)
Record Manager := mkManager {
  mg_leases : gmap string DevLease;
  mg_prov : gmap string Instant;
  mg_duck_times : list (option Instant);
}.
Definition manager_new : Manager := mkManager ∅ ∅ (replicate ProvisionalPerWindow None).
Definition with_leases (leases : gmap string DevLease) (m : Manager) : Manager :=
  mkManager leases (mg_prov m) (mg_duck_times m).

Definition ttl_or (ttl : Duration) : Duration := if ttl =? 0 then DefaultTTL else ttl.

Definition expire_locked (now : Instant) (m : Manager) : Manager :=
  mkManager (filter (fun p => now < dl_expires p.2) (mg_leases m)) (filter (fun p => now < p.2) (mg_prov m))
    (mg_duck_times m).

(** [update]: expiries first, then the operation, whose error leaves them. *)
Definition update (now : Instant) (f : Manager -> result FocusErr Manager) (m : Manager) :
    Manager * option FocusErr :=
  let m := expire_locked now m in
  match f m with Ok m' => (m', None) | Err e => (m, Some e) end.

Definition Acquire (id owner : string) (generation : N) (kind : string) (ttl : Duration) (now : Instant)
    (m : Manager) : Manager * option FocusErr :=
  if negb (String.eqb kind "dialog_input" || String.eqb kind "dialog_output") then (m, Some ErrKind)
  else
    update now (fun m =>
      if (match mg_leases m !! id with Some l => generation <? dl_generation l | None => false end) then Err ErrStale
      else
        let leases := filter (fun p => ~ (dl_converted p.2 = true /\ dl_owner p.2 = owner)) (mg_leases m) in
        Ok (with_leases (<[id := mkDevLease owner generation kind (now + ttl_or ttl) false]> leases) m)) m.

Definition Renew (id : string) (generation : N) (ttl : Duration) (now : Instant) (m : Manager) :
    Manager * option FocusErr :=
  update now (fun m =>
    match mg_leases m !! id with
    | None => Err ErrUnknown
    | Some l =>
        if generation <? dl_generation l then Err ErrStale
        else Ok (with_leases (<[id := mkDevLease (dl_owner l) generation (dl_kind l) (now + ttl_or ttl)
                                        (dl_converted l)]> (mg_leases m)) m)
    end) m.

Definition Release (id : string) (generation : N) (now : Instant) (m : Manager) : Manager * option FocusErr :=
  update now (fun m =>
    match mg_leases m !! id with
    | None => Ok m
    | Some l =>
        if generation <? dl_generation l then Err ErrStale
        else Ok (with_leases (delete id (mg_leases m)) m)
    end) m.

Definition EndSession (now : Instant) (m : Manager) : Manager :=
  (update now (fun m => Ok (mkManager ∅ ∅ (mg_duck_times m))) m).1.
Definition Tick (now : Instant) (m : Manager) : Manager := (update now Ok m).1.

Definition time_before (a b : option Instant) : bool :=
  match a, b with Some a, Some b => a <? b | None, Some _ => true | _, None => false end.
(** The first of the oldest duck times. *)
Fixpoint oldest_from (i best : nat) (best_time : option Instant) (times : list (option Instant)) : nat :=
  match times with
  | [] => best
  | t :: times =>
      if time_before t best_time then oldest_from (S i) i t times else oldest_from (S i) best best_time times
  end.
Definition CandidateOpen (candidate : string) (producing_sound : bool) (ttl : Duration) (now : Instant)
    (m : Manager) : Manager :=
  (update now (fun m =>
    if negb producing_sound then Ok m
    else if bool_decide (is_Some (mg_prov m !! candidate)) then Ok m
    else
      let recent := length (retain (fun t => match t with Some t => now - t <? ProvisionalWindow | None => false end)
                              (mg_duck_times m)) in
      if (ProvisionalPerWindow <=? recent)%nat then Ok m
      else
        let oldest := oldest_from 0 0 (default None (head (mg_duck_times m))) (mg_duck_times m) in
        Ok (mkManager (mg_leases m) (<[candidate := now + ttl_or ttl]> (mg_prov m))
              (<[oldest := Some now]> (mg_duck_times m)))) m).1.
Definition CandidateRenew (candidate : string) (ttl : Duration) (now : Instant) (m : Manager) : Manager :=
  (update now (fun m =>
    Ok (mkManager (mg_leases m) (alter (fun _ => now + ttl_or ttl) candidate (mg_prov m)) (mg_duck_times m))) m).1.
Definition CandidateRelease (candidate : string) (now : Instant) (m : Manager) : Manager :=
  (update now (fun m => Ok (mkManager (mg_leases m) (delete candidate (mg_prov m)) (mg_duck_times m))) m).1.
Definition CandidateAccept (candidate owner : string) (generation : N) (now : Instant) (m : Manager) : Manager :=
  (update now (fun m =>
    match mg_prov m !! candidate with
    | None => Ok m
    | Some _ =>
        let m := mkManager (mg_leases m) (delete candidate (mg_prov m)) (mg_duck_times m) in
        if bool_decide (map_Exists (fun _ l => dl_owner l = owner /\ dl_converted l = false) (mg_leases m)) then Ok m
        else Ok (with_leases (<[candidate := mkDevLease owner generation "dialog_input" (now + DefaultTTL) true]>
                                (mg_leases m)) m)
    end) m).1.

(** *** The supervisor's handlers and their acknowledgement *)
Definition focus_code (e : FocusErr) : string :=
  match e with ErrStale => "stale_generation" | ErrUnknown => "unknown_lease" | ErrKind => "invalid" end.
Definition ack_err (r : Manager * option FocusErr) : Manager * AckOutcome :=
  (r.1, match r.2 with None => Ao_Accepted | Some e => Ao_Rejected (Some (focus_code e)) end).
Definition ttl_of_ms (ms : N) : Duration := ms * 1000000.

Definition focus_handle (command : FocusCommand) (generation : N) (now : Instant) (m : Manager) :
    Manager * AckOutcome :=
  match command with
  | Fc_Acquire b =>
      if String.eqb (fa_lease_id b) "" then (m, Ao_Rejected (Some "invalid"))
      else ack_err (Acquire (fa_lease_id b) (fa_owner b) generation (as_str (fa_focus b))
                      (ttl_of_ms (fa_ttl_ms b)) now m)
  | Fc_Renew b => ack_err (Renew (fn_lease_id b) generation (ttl_of_ms (fn_ttl_ms b)) now m)
  | Fc_Release b => ack_err (Release (fr_lease_id b) generation now m)
  end.

(** ** The controller's queue *)
(** [ids] are the message IDs drawn, in the order they are. *)
Record EffectLink := mkEffectLink {
  el_ids : nat -> MessageId;
  el_drawn : nat;
  el_effects : list (MessageId * FocusCommand * N);
  el_closed : bool;
}.
#[export] Instance EffectLink_request : CommandLink EffectLink := fun link command generation =>
  if el_closed link then (link, None)
  else
    let id := el_ids link (el_drawn link) in
    (mkEffectLink (el_ids link) (S (el_drawn link)) (el_effects link ++ [(id, command, generation)]) false, Some id).

(** ** The system *)
Record Sys := mkSys {
  sy_now : Instant;
  sy_lease : FocusLease;
  sy_link : EffectLink;
  sy_device : Manager;
  sy_session : bool;
  sy_acks : list (MessageId * AckOutcome);
  (** When the acquire and renewals known accepted were sent. *)
  sy_confirmed : list Instant;
}.

Inductive SysEvent :=
  | Se_Wait (d : Duration)
  | Se_Poll
  | Se_SetGeneration (generation : N)
  | Se_Release
  | Se_Deliver (i : nat)
  | Se_Ack (i : nat)
  | Se_AckFailed (id : MessageId) (failure : AckFailure)
  | Se_LinkClosed
  | Se_DeviceSessionEnded
  | Se_DeviceTick
  | Se_OtherCommand (command : FocusCommand) (generation : N)
  | Se_CandidateOpen (candidate : string) (producing_sound : bool) (ttl : Duration)
  | Se_CandidateRenew (candidate : string) (ttl : Duration)
  | Se_CandidateRelease (candidate : string)
  | Se_CandidateAccept (candidate owner : string) (generation : N).

Definition with_device (m : Manager) (s : Sys) : Sys :=
  mkSys (sy_now s) (sy_lease s) (sy_link s) m (sy_session s) (sy_acks s) (sy_confirmed s).
Definition with_lease (link : EffectLink) (l : FocusLease) (s : Sys) : Sys :=
  mkSys (sy_now s) l link (sy_device s) (sy_session s) (sy_acks s) (sy_confirmed s).

(** When the keep message [id] of a live lease was sent. *)
Definition keep_sent (id : MessageId) (outcome : AckOutcome) (l : FocusLease) : list Instant :=
  match outcome with
  | Ao_Accepted =>
      match find_first (fun p => String.eqb p.1.1 id) (fl_pending l) with
      | Some (_, Lo_Keep, sent) => if bool_decide (fl_state l = Ls_Ended) then [] else [sent]
      | _ => []
      end
  | _ => []
  end.
Definition take_ack (id : MessageId) (outcome : AckOutcome) (s : Sys) : Sys :=
  match lease_on_ack id outcome (sy_lease s) with
  | Some (l, _) =>
      mkSys (sy_now s) l (sy_link s) (sy_device s) (sy_session s) (sy_acks s)
        (sy_confirmed s ++ keep_sent id outcome (sy_lease s))
  | None => s
  end.

Definition sys_step (s : Sys) (e : SysEvent) : Sys :=
  let now := sy_now s in
  match e with
  | Se_Wait d =>
      mkSys (now + d) (sy_lease s) (sy_link s) (sy_device s) (sy_session s) (sy_acks s) (sy_confirmed s)
  | Se_Poll => let '(link, l, _) := lease_poll (sy_link s) now (sy_lease s) in with_lease link l s
  | Se_SetGeneration g =>
      let '(link, l, _) := lease_set_generation (sy_link s) now g (sy_lease s) in with_lease link l s
  | Se_Release => let '(link, l, _) := lease_release (sy_link s) now (sy_lease s) in with_lease link l s
  | Se_Deliver i =>
      match el_effects (sy_link s) !! i with
      | Some (id, command, generation) =>
          let link := mkEffectLink (el_ids (sy_link s)) (el_drawn (sy_link s))
                        (remove_at i (el_effects (sy_link s))) (el_closed (sy_link s)) in
          let '(m, outcome) := focus_handle command generation now (sy_device s) in
          mkSys now (sy_lease s) link m (sy_session s) (sy_acks s ++ [(id, outcome)]) (sy_confirmed s)
      | None => s
      end
  | Se_Ack i =>
      match sy_acks s !! i with
      | Some (id, outcome) =>
          take_ack id outcome
            (mkSys now (sy_lease s) (sy_link s) (sy_device s) (sy_session s) (remove_at i (sy_acks s)) (sy_confirmed s))
      | None => s
      end
  | Se_AckFailed id failure => take_ack id (Ao_Failed failure) s
  | Se_LinkClosed =>
      with_lease (mkEffectLink (el_ids (sy_link s)) (el_drawn (sy_link s)) (el_effects (sy_link s)) true) (sy_lease s) s
  | Se_DeviceSessionEnded =>
      mkSys now (sy_lease s) (sy_link s) (EndSession now (sy_device s)) false (sy_acks s) (sy_confirmed s)
  | Se_DeviceTick => with_device (Tick now (sy_device s)) s
  | Se_OtherCommand command generation => with_device (focus_handle command generation now (sy_device s)).1 s
  | Se_CandidateOpen candidate producing_sound ttl =>
      with_device (CandidateOpen candidate producing_sound ttl now (sy_device s)) s
  | Se_CandidateRenew candidate ttl => with_device (CandidateRenew candidate ttl now (sy_device s)) s
  | Se_CandidateRelease candidate => with_device (CandidateRelease candidate now (sy_device s)) s
  | Se_CandidateAccept candidate owner generation =>
      with_device (CandidateAccept candidate owner generation now (sy_device s)) s
  end.
Definition sys_run (s : Sys) (events : list SysEvent) : Sys := foldl sys_step s events.

(** The lease is acquired at [now] on a device with leases of its own. *)
Definition sys_start (ids : nat -> MessageId) (device : Manager) (now : Instant) (id : LeaseId) (kind : FocusKind)
    (owner : FocusOwner) (generation : N) : option Sys :=
  let '(link, l) := lease_acquire (mkEffectLink ids 0 [] false) now id kind owner generation in
  (fun l => mkSys now l link device true [] []) <$> l.

Definition command_lease (c : FocusCommand) : LeaseId :=
  match c with
  | Fc_Acquire b => fa_lease_id b | Fc_Renew b => fn_lease_id b | Fc_Release b => fr_lease_id b
  end.
(** Other leases and candidates have IDs of their own. *)
Definition foreign (id : LeaseId) (e : SysEvent) : Prop :=
  match e with
  | Se_OtherCommand command _ => command_lease command <> id
  | Se_CandidateAccept candidate _ _ => candidate <> id
  | _ => True
  end.

(** ** What the device keeps *)
(** The operation leaves lease [id] alone while it lives, and makes none. *)
Definition leaves (id : LeaseId) (now : Instant) (m m' : Manager) : Prop :=
  (forall dl, mg_leases m !! id = Some dl -> dl_converted dl = false -> now < dl_expires dl ->
     mg_leases m' !! id = Some dl) /\
  (forall dl, mg_leases m' !! id = Some dl -> mg_leases m !! id = Some dl).

Lemma leaves_refl id now m : leaves id now m m.
Proof. by split. Qed.

Lemma leaves_trans id now m1 m2 m3 : leaves id now m1 m2 -> leaves id now m2 m3 -> leaves id now m1 m3.
Proof. intros [H1 H2] [H3 H4]. split; eauto. Qed.

Lemma leaves_expire id now m : leaves id now m (expire_locked now m).
Proof.
  split; cbn; intros dl.
  - intros Hl _ Hlt. by apply map_lookup_filter_Some.
  - by intros [? _]%map_lookup_filter_Some.
Qed.

Lemma leaves_update id now f m :
  (forall m1 m2, f m1 = Ok m2 -> leaves id now m1 m2) -> leaves id now m (update now f m).1.
Proof.
  intros Hf. unfold update. destruct (f (expire_locked now m)) as [m'|e] eqn:E; cbn.
  - eapply leaves_trans; [apply leaves_expire|by apply Hf].
  - apply leaves_expire.
Qed.

(** Another lease's entry changes. *)
Lemma leaves_other id id' now m leases :
  id' <> id -> leases !! id = mg_leases m !! id -> forall dl, leaves id now m (with_leases (<[id' := dl]> leases) m).
Proof. intros Hne Hl dl. split; cbn; intros dl'; rewrite lookup_insert_ne, Hl by done; done. Qed.

Lemma ack_err_fst r : (ack_err r).1 = r.1.
Proof. done. Qed.

Lemma Acquire_leaves id id' owner generation kind ttl now m :
  id' <> id -> leaves id now m (Acquire id' owner generation kind ttl now m).1.
Proof.
  intros Hne. unfold Acquire. destruct (negb _); [apply leaves_refl|]. apply leaves_update.
  intros m1 m2. destruct (match _ with Some l => _ | None => false end); [done|]. intros [= <-]. split; cbn; intros dl.
  - intros Hl Hc _. rewrite lookup_insert_ne by done. apply map_lookup_filter_Some. split; [done|].
    cbn. rewrite Hc. by intros [? _].
  - rewrite lookup_insert_ne by done. by intros [? _]%map_lookup_filter_Some.
Qed.

Lemma Renew_leaves id id' generation ttl now m :
  id' <> id -> leaves id now m (Renew id' generation ttl now m).1.
Proof.
  intros Hne. unfold Renew. apply leaves_update. intros m1 m2. destruct (mg_leases m1 !! id'); [|done].
  destruct (_ <? _); [done|]. intros [= <-]. by apply leaves_other.
Qed.

Lemma Release_leaves id id' generation now m : id' <> id -> leaves id now m (Release id' generation now m).1.
Proof.
  intros Hne. unfold Release. apply leaves_update. intros m1 m2.
  destruct (mg_leases m1 !! id'); [|intros [= <-]; apply leaves_refl].
  destruct (_ <? _); [done|]. intros [= <-]. split; cbn; intros dl'; by rewrite lookup_delete_ne.
Qed.

Lemma focus_handle_leaves id command generation now m :
  command_lease command <> id -> leaves id now m (focus_handle command generation now m).1.
Proof.
  intros Hne. unfold focus_handle. destruct command as [b|b|b]; cbn in Hne.
  - destruct (String.eqb _ _); [apply leaves_refl|]. rewrite ack_err_fst. by apply Acquire_leaves.
  - rewrite ack_err_fst. by apply Renew_leaves.
  - rewrite ack_err_fst. by apply Release_leaves.
Qed.

Lemma same_leases_leaves id now m m' : mg_leases m' = mg_leases m -> leaves id now m m'.
Proof. intros Heq. split; intros dl; by rewrite Heq. Qed.

Lemma CandidateAccept_leaves id candidate owner generation now m :
  candidate <> id -> leaves id now m (CandidateAccept candidate owner generation now m).
Proof.
  intros Hne. unfold CandidateAccept. apply leaves_update. intros m1 m2.
  destruct (mg_prov m1 !! candidate); [|intros [= <-]; apply leaves_refl].
  destruct (bool_decide _); intros [= <-]; [by apply same_leases_leaves|].
  eapply leaves_trans; [by apply (same_leases_leaves _ _ _ (mkManager (mg_leases m1) (delete candidate (mg_prov m1)) (mg_duck_times m1)))|].
  by apply leaves_other.
Qed.

Lemma device_event_leaves id now m :
  leaves id now m (Tick now m) /\
  (forall candidate producing_sound ttl, leaves id now m (CandidateOpen candidate producing_sound ttl now m)) /\
  (forall candidate ttl, leaves id now m (CandidateRenew candidate ttl now m)) /\
  (forall candidate, leaves id now m (CandidateRelease candidate now m)).
Proof.
  split_and!; intros; apply leaves_update; intros m1 m2.
  - intros [= <-]. apply leaves_refl.
  - cbv zeta. destruct (negb _); [intros [= <-]; apply leaves_refl|].
    destruct (bool_decide _); [intros [= <-]; apply leaves_refl|].
    destruct (_ <=? _)%nat; intros [= <-]; [apply leaves_refl|by apply same_leases_leaves].
  - intros [= <-]. by apply same_leases_leaves.
  - intros [= <-]. by apply same_leases_leaves.
Qed.

(** ** The lease's own commands *)
Definition own_command (id : LeaseId) (c : FocusCommand) : Prop :=
  match c with
  | Fc_Acquire b => fa_lease_id b = id /\ fa_ttl_ms b = as_millis FOCUS_TTL
  | Fc_Renew b => fn_lease_id b = id /\ fn_ttl_ms b = as_millis FOCUS_TTL
  | Fc_Release b => fr_lease_id b = id
  end.
Definition is_release (c : FocusCommand) : bool := match c with Fc_Release _ => true | _ => false end.
Definition never_converted (id : LeaseId) (m : Manager) : Prop :=
  forall dl, mg_leases m !! id = Some dl -> dl_converted dl = false.

Lemma leaves_never_converted id now m m' : leaves id now m m' -> never_converted id m -> never_converted id m'.
Proof. intros [_ H] Hm dl Hl. by apply Hm, H. Qed.

Lemma Release_never id generation now m :
  never_converted id m -> never_converted id (Release id generation now m).1.
Proof.
  intros Hm. pose proof (leaves_never_converted _ _ _ _ (leaves_expire id now m) Hm) as Hm'.
  unfold Release, update. destruct (mg_leases (expire_locked now m) !! id) eqn:E; [|done].
  destruct (_ <? _); [done|]. intros dl. cbn. by rewrite lookup_delete_eq.
Qed.

(** An accepted acquire or renewal lives for the time to live from its receipt. *)
Definition held_from (id : LeaseId) (now : Instant) (m : Manager) : Prop :=
  exists dl, mg_leases m !! id = Some dl /\ dl_converted dl = false /\ dl_expires dl = now + FOCUS_TTL.

Lemma Acquire_own id owner generation kind now m :
  let '(m', e) := Acquire id owner generation kind (ttl_of_ms (as_millis FOCUS_TTL)) now m in
  e = None /\ held_from id now m' \/ e <> None /\ leaves id now m m'.
Proof.
  unfold Acquire. destruct (negb _); [right; split; [done|apply leaves_refl]|]. unfold update.
  destruct (match mg_leases _ !! _ with Some l => _ | None => false end).
  - right. split; [done|apply leaves_expire].
  - left. split; [done|]. eexists. cbn. by rewrite lookup_insert_eq.
Qed.

Lemma Renew_own id generation now m :
  never_converted id m ->
  let '(m', e) := Renew id generation (ttl_of_ms (as_millis FOCUS_TTL)) now m in
  e = None /\ held_from id now m' \/ e <> None /\ leaves id now m m'.
Proof.
  intros Hm. pose proof (leaves_expire id now m) as Hl. pose proof (leaves_never_converted _ _ _ _ Hl Hm) as Hm'.
  unfold Renew, update. destruct (mg_leases (expire_locked now m) !! id) as [dl|] eqn:E; [|by right].
  destruct (_ <? _); [by right|]. left. split; [done|]. eexists. cbn. rewrite lookup_insert_eq.
  split_and!; [done|exact (Hm' _ E)|done].
Qed.

Lemma own_handled id c generation now m :
  own_command id c -> never_converted id m ->
  let '(m', outcome) := focus_handle c generation now m in
  never_converted id m' /\
  (is_release c = false -> held_from id now m' \/ outcome <> Ao_Accepted /\ leaves id now m m').
Proof.
  intros Hc Hm. assert (Hnever : forall m', held_from id now m' \/ leaves id now m m' -> never_converted id m').
  { intros m' [(dl & Hdl & Hn & _)|Hl]; [|by eapply leaves_never_converted]. intros dl'. rewrite Hdl. by intros [= <-]. }
  destruct c as [b|b|b]; cbn in Hc |- *.
  - destruct Hc as [-> ->]. destruct (String.eqb id "").
    { split; [done|]. intros _. right. split; [done|apply leaves_refl]. }
    pose proof (Acquire_own id (fa_owner b) generation (as_str (fa_focus b)) now m) as H.
    destruct (Acquire _ _ _ _ _ _ _) as [m' e]. unfold ack_err. cbn.
    destruct H as [[-> H]|[He H]]; (split; [apply Hnever; tauto|]); [tauto|]. destruct e; [|done].
    intros _. by right.
  - destruct Hc as [-> ->]. pose proof (Renew_own id generation now m Hm) as H.
    destruct (Renew _ _ _ _ _) as [m' e]. unfold ack_err. cbn.
    destruct H as [[-> H]|[He H]]; (split; [apply Hnever; tauto|]); [tauto|]. destruct e; [|done].
    intros _. by right.
  - subst id. unfold ack_err. cbn. split; [by apply Release_never|done].
Qed.

(** ** What the controller may believe *)
Section system.
Context (ids : nat -> MessageId) `{!Inj (=) (=) ids} (id : LeaseId) (start : Instant).

Definition drawn (link : EffectLink) (m : MessageId) : Prop := exists k, (k < el_drawn link)%nat /\ m = ids k.

(** The device holds the lease until [t], its session up. *)
Definition covers (s : Sys) (t : Instant) : Prop :=
  sy_session s = true -> sy_now s < t ->
  exists dl, mg_leases (sy_device s) !! id = Some dl /\ t <= dl_expires dl.

(** A send of a keep message, made by now. *)
Definition sent_by_now (s : Sys) (sent : Instant) : Prop := start <= sent <= sy_now s.

Record believed (s : Sys) : Prop := {
  bl_wire m c g : (m, c, g) ∈ el_effects (sy_link s) -> is_release c = false;
  bl_pending m op sent : (m, op, sent) ∈ fl_pending (sy_lease s) -> op = Lo_Keep /\ sent_by_now s sent;
  bl_acks m sent : (m, Ao_Accepted) ∈ sy_acks s -> (m, Lo_Keep, sent) ∈ fl_pending (sy_lease s) ->
    covers s (sent + FOCUS_TTL);
  bl_confirmed sent : sent ∈ sy_confirmed s -> sent_by_now s sent /\ covers s (sent + FOCUS_TTL);
  bl_until : fl_held_until (sy_lease s) = foldr N.max start (sy_confirmed s) + FOCUS_TTL;
}.

Record focus_inv (s : Sys) : Prop := {
  fi_ids : el_ids (sy_link s) = ids;
  fi_id : fl_id (sy_lease s) = id;
  fi_never : never_converted id (sy_device s);
  fi_wire m c g : (m, c, g) ∈ el_effects (sy_link s) -> drawn (sy_link s) m /\ own_command id c;
  fi_acks m o : (m, o) ∈ sy_acks s -> drawn (sy_link s) m;
  fi_held : fl_state (sy_lease s) = Ls_Held -> believed s;
}.

Lemma fresh_not_drawn link : el_ids link = ids -> ~ drawn link (el_ids link (el_drawn link)).
Proof. intros -> (k & Hk & Heq). apply (inj ids) in Heq. lia. Qed.

Lemma drawn_mono link link' m : (el_drawn link <= el_drawn link')%nat -> drawn link m -> drawn link' m.
Proof. intros Hle (k & Hk & ->). exists k. split; [lia|done]. Qed.

(** *** The device acts *)
Lemma covers_leaves s m t :
  leaves id (sy_now s) (sy_device s) m -> never_converted id (sy_device s) ->
  covers s t -> covers (with_device m s) t.
Proof.
  intros [Hl _] Hn Hc Hs Hlt. destruct (Hc Hs Hlt) as (dl & Hdl & Hle). exists dl. split; [|done].
  cbn in *. apply Hl; [done|by apply Hn|lia].
Qed.

Lemma device_inv s m : focus_inv s -> leaves id (sy_now s) (sy_device s) m -> focus_inv (with_device m s).
Proof.
  intros [H1 H2 H3 H4 H5 H6] Hl. split; try done.
  - by eapply leaves_never_converted.
  - intros Hh. destruct (H6 Hh) as [B1 B2 B3 B4 B5]. split; try done.
    + intros m' sent Ha Hp. eapply covers_leaves; [done..|]. by eapply B3.
    + intros sent Hs. destruct (B4 _ Hs) as [? ?]. split; [done|]. by apply covers_leaves.
Qed.

Lemma session_ended_inv s :
  focus_inv s ->
  focus_inv (mkSys (sy_now s) (sy_lease s) (sy_link s) (EndSession (sy_now s) (sy_device s)) false (sy_acks s)
               (sy_confirmed s)).
Proof.
  intros [H1 H2 H3 H4 H5 H6]. split; try done.
  intros Hh. destruct (H6 Hh) as [B1 B2 B3 B4 B5]. split; try done.
  intros sent Hs. destruct (B4 _ Hs) as [? _]. by split.
Qed.

Lemma wait_inv s d :
  focus_inv s ->
  focus_inv (mkSys (sy_now s + d) (sy_lease s) (sy_link s) (sy_device s) (sy_session s) (sy_acks s) (sy_confirmed s)).
Proof.
  intros [H1 H2 H3 H4 H5 H6]. split; try done. intros Hh. destruct (H6 Hh) as [B1 B2 B3 B4 B5].
  assert (Hcov : forall t, covers s t -> covers (mkSys (sy_now s + d) (sy_lease s) (sy_link s) (sy_device s)
    (sy_session s) (sy_acks s) (sy_confirmed s)) t) by (intros t Hc Hs Hlt; apply Hc; [done|cbn in Hlt; lia]).
  assert (Hsent : forall t, sent_by_now s t -> sent_by_now (mkSys (sy_now s + d) (sy_lease s) (sy_link s) (sy_device s)
    (sy_session s) (sy_acks s) (sy_confirmed s)) t) by (unfold sent_by_now; cbn; lia).
  split; try done.
  - intros m op sent Hp. destruct (B2 _ _ _ Hp). auto.
  - intros m sent Ha Hp. apply Hcov. by eapply B3.
  - intros sent Hs. destruct (B4 _ Hs). auto.
Qed.

(** A command arrives: its acknowledgement goes back. *)
Lemma deliver_inv s i : focus_inv s -> focus_inv (sys_step s (Se_Deliver i)).
Proof.
  intros F. cbn [sys_step]. destruct (el_effects (sy_link s) !! i) as [[[m c] g]|] eqn:Ei; [|done].
  apply list_elem_of_lookup_2 in Ei as Hin. destruct F as [H1 H2 H3 H4 H5 H6].
  destruct (H4 _ _ _ Hin) as [Hm Hown]. pose proof (own_handled id c g (sy_now s) (sy_device s) Hown H3) as Hh.
  destruct (focus_handle c g (sy_now s) (sy_device s)) as [m' outcome]. destruct Hh as [Hnever Hh].
  assert (Hrest : forall x, x ∈ remove_at i (el_effects (sy_link s)) -> x ∈ el_effects (sy_link s))
    by (intros x; apply elem_of_remove_at).
  split; cbn; try done.
  - intros m1 c1 g1 Hx. by apply (H4 m1 c1 g1), Hrest.
  - intros m1 o [Ha|Ha]%elem_of_app; [by eapply H5|]. apply list_elem_of_singleton in Ha. by injection Ha as -> ->.
  - intros Hheld. destruct (H6 Hheld) as [B1 B2 B3 B4 B5]. specialize (Hh (B1 _ _ _ Hin)).
    set (s' := mkSys _ _ _ _ _ _ _).
    assert (Hcov : forall sent, sent_by_now s sent -> covers s (sent + FOCUS_TTL) -> covers s' (sent + FOCUS_TTL)).
    { intros sent Hsent Hc. destruct Hh as [(dl & Hdl & _ & He)|[_ Hl]].
      - intros _ _. exists dl. split; [done|]. rewrite He. unfold sent_by_now in Hsent. lia.
      - by apply (covers_leaves s m'). }
    split; cbn; try done.
    + intros m1 c1 g1 Hx. by apply (B1 m1 c1 g1), Hrest.
    + intros m1 sent [Ha|Ha]%elem_of_app Hp.
      * apply Hcov; [by eapply B2|by eapply B3].
      * apply list_elem_of_singleton in Ha. injection Ha as -> <-.
        destruct Hh as [(dl & Hdl & _ & He)|[Hno _]]; [|done].
        intros _ _. exists dl. split; [done|]. rewrite He. destruct (B2 _ _ _ Hp) as [_ Hsent]. unfold sent_by_now in Hsent. lia.
    + intros sent Hs. destruct (B4 _ Hs) as [? ?]. split; [done|]. by apply Hcov.
Qed.

(** *** The controller acts *)
(** A renewal joins the pending messages and the queue. *)
Lemma lease_renew_inv s l link :
  focus_inv s -> el_closed (sy_link s) = false ->
  fl_id l = id -> fl_held_until l = fl_held_until (sy_lease s) -> fl_state (sy_lease s) = Ls_Held ->
  (exists m g, m = el_ids (sy_link s) (el_drawn (sy_link s)) /\
     fl_pending l = fl_pending (sy_lease s) ++ [(m, Lo_Keep, sy_now s)] /\
     link = mkEffectLink (el_ids (sy_link s)) (S (el_drawn (sy_link s)))
              (el_effects (sy_link s) ++ [(m, Fc_Renew (mkFocusRenew id (as_millis FOCUS_TTL)), g)]) false) ->
  start <= sy_now s ->
  focus_inv (with_lease link l s).
Proof.
  intros [H1 H2 H3 H4 H5 H6] Hcl Hid Huntil Hheld (m & g & Hm & Hp & ->) Hstart.
  assert (Hmono : forall x, drawn (sy_link s) x -> drawn (mkEffectLink (el_ids (sy_link s)) (S (el_drawn (sy_link s)))
    (el_effects (sy_link s) ++ [(m, Fc_Renew (mkFocusRenew id (as_millis FOCUS_TTL)), g)]) false) x).
  { intros x. apply drawn_mono. cbn. lia. }
  split; cbn; try done.
  - intros m1 c1 g1 [Hx|Hx]%elem_of_app.
    + destruct (H4 _ _ _ Hx). auto.
    + apply list_elem_of_singleton in Hx. injection Hx as -> -> ->. split; [|done].
      exists (el_drawn (sy_link s)). cbn. split; [lia|]. by rewrite Hm, H1.
  - intros m1 o Ha. by eapply Hmono, H5.
  - intros _. destruct (H6 Hheld) as [B1 B2 B3 B4 B5]. split; cbn; rewrite ?Hp, ?Huntil; try done.
    + intros m1 c1 g1 [Hx|Hx]%elem_of_app; [by eapply B1|]. apply list_elem_of_singleton in Hx. by injection Hx as -> -> ->.
    + intros m1 op sent [Hx|Hx]%elem_of_app; [by eapply B2|]. apply list_elem_of_singleton in Hx.
      injection Hx as -> -> ->. split; [done|]. split; [done|]. cbn. lia.
    + intros m1 sent Ha [Hx|Hx]%elem_of_app; [by eapply B3|]. apply list_elem_of_singleton in Hx.
      injection Hx as -> ->. apply H5 in Ha. rewrite Hm in Ha. by apply fresh_not_drawn in Ha.
Qed.

Lemma fi_not_held s link l :
  focus_inv s -> el_ids link = ids -> fl_id l = id ->
  (forall m c g, (m, c, g) ∈ el_effects link -> drawn link m /\ own_command id c) ->
  (el_drawn (sy_link s) <= el_drawn link)%nat -> fl_state l <> Ls_Held -> focus_inv (with_lease link l s).
Proof.
  intros [H1 H2 H3 H4 H5 H6] Hi Hid Hw Hd Hn. split; cbn; try done.
  intros m o Ha. by eapply drawn_mono, H5.
Qed.

(** Whether it could send or not. *)
Lemma renewed_inv s g :
  focus_inv s -> fl_state (sy_lease s) = Ls_Held -> start <= sy_now s ->
  let l := set_lease_generation g (sy_lease s) in
  match lease_renew (sy_link s) (sy_now s) l with
  | (link, Some l) => focus_inv (with_lease link l s)
  | (link, None) => focus_inv (with_lease link (set_state Ls_Ended l) s)
  end.
Proof.
  intros F Hheld Hstart. cbv zeta. unfold lease_renew, request, EffectLink_request.
  destruct (el_closed (sy_link s)) eqn:Ecl; cbn [fmap option_fmap option_map].
  - apply fi_not_held; try done; apply F.
  - apply lease_renew_inv; try done; try apply F. pose proof (fi_id _ F) as Hid. cbn in Hid |- *. rewrite Hid.
    exists (el_ids (sy_link s) (el_drawn (sy_link s))), g. done.
Qed.

Lemma set_same_generation l : set_lease_generation (fl_generation l) l = l.
Proof. by destruct l. Qed.

Lemma lease_poll_inv s : focus_inv s -> start <= sy_now s -> focus_inv (sys_step s Se_Poll).
Proof.
  intros F Hstart. cbn [sys_step]. unfold lease_poll.
  assert (Hsame : focus_inv (with_lease (sy_link s) (sy_lease s) s)) by (by destruct s).
  assert (Hend : focus_inv (with_lease (sy_link s) (set_state Ls_Ended (sy_lease s)) s)).
  { apply fi_not_held; try done; apply F. }
  destruct (fl_state (sy_lease s)) eqn:Es; [|by destruct (_ <=? _)|done].
  destruct (_ <=? _); [done|]. destruct (_ <=? _); [|done].
  pose proof (renewed_inv s (fl_generation (sy_lease s)) F Es Hstart) as Hr. cbv zeta in Hr.
  rewrite set_same_generation in Hr. by destruct (lease_renew _ _ _) as [link [l|]].
Qed.

Lemma set_generation_inv s g : focus_inv s -> start <= sy_now s -> focus_inv (sys_step s (Se_SetGeneration g)).
Proof.
  intros F Hstart. cbn [sys_step]. unfold lease_set_generation, is_held.
  assert (Hsame : focus_inv (with_lease (sy_link s) (sy_lease s) s)) by (by destruct s).
  destruct (bool_decide (fl_state (sy_lease s) = Ls_Held)) eqn:Eh; cbn [negb]; [|done].
  apply bool_decide_eq_true in Eh. destruct (_ <? _); [done|].
  pose proof (renewed_inv s g F Eh Hstart) as Hr. cbv zeta in Hr. by destruct (lease_renew _ _ _) as [link [l|]].
Qed.

Lemma release_inv s : focus_inv s -> focus_inv (sys_step s Se_Release).
Proof.
  intros F. cbn [sys_step]. unfold lease_release, is_held.
  assert (Hsame : focus_inv (with_lease (sy_link s) (sy_lease s) s)) by (by destruct s).
  destruct (bool_decide (fl_state (sy_lease s) = Ls_Held)) eqn:Eh; cbn [negb]; [|done].
  unfold request, EffectLink_request. destruct (el_closed (sy_link s)) eqn:Ecl.
  - apply fi_not_held; try done; apply F.
  - apply fi_not_held; cbn; try done; [apply F|apply F| |lia].
    intros m c g [Hx|Hx]%elem_of_app.
    + destruct (fi_wire _ F _ _ _ Hx). split; [|done]. eapply drawn_mono; [|done]. cbn. lia.
    + apply list_elem_of_singleton in Hx. injection Hx as -> -> ->. split; [|by apply F].
      exists (el_drawn (sy_link s)). cbn. split; [lia|]. by rewrite (fi_ids _ F).
Qed.

(** *** Acknowledgements *)
(** An acknowledgement that leaves a lease held proves it held longer, if it is an
    accepted one, and nothing otherwise. *)
Lemma on_ack_inv m o l l' ev :
  lease_on_ack m o l = Some (l', ev) ->
  fl_id l' = fl_id l /\ (forall p, p ∈ fl_pending l' -> p ∈ fl_pending l) /\
  (fl_state l' = Ls_Held -> (fl_state l = Ls_Held -> forall m op sent, (m, op, sent) ∈ fl_pending l -> op = Lo_Keep) ->
   fl_state l = Ls_Held /\
   (keep_sent m o l = [] /\ fl_held_until l' = fl_held_until l \/
    exists sent, o = Ao_Accepted /\ (m, Lo_Keep, sent) ∈ fl_pending l /\ keep_sent m o l = [sent] /\
      fl_held_until l' = N.max (fl_held_until l) (sent + FOCUS_TTL))).
Proof.
  unfold lease_on_ack. destruct (position _ (fl_pending l)) as [i|] eqn:Ep; [|done]. cbn [mbind option_bind].
  pose proof (position_find _ _ _ Ep) as Hf. destruct (position_Some _ _ _ Ep) as ([[m' op] sent] & Ei & Hm).
  cbn in Hm. apply String.eqb_eq in Hm as ->. rewrite Ei in *. symmetry in Hf. cbn [mbind option_bind].
  apply list_elem_of_lookup_2 in Ei. unfold keep_sent. rewrite Hf.
  assert (Hsub : forall p, p ∈ remove_at i (fl_pending l) -> p ∈ fl_pending l) by (intros p; apply elem_of_remove_at).
  cbv zeta. cbn [fl_state set_pending]. destruct (bool_decide (fl_state l = Ls_Ended)) eqn:Ee.
  { intros [= <- <-]. cbn. split_and!; try done. apply bool_decide_eq_true in Ee. by rewrite Ee. }
  intros H.
  destruct op, o as [|code|[]]; injection H as <- <-; cbn; (split_and!; [done|done|]); try done; intros Hh Hkeep;
    (split; [done|]); try (by left); try (by specialize (Hkeep Hh _ _ _ Ei)).
  right. by exists sent.
Qed.

Lemma foldr_max_le l t : t ∈ l -> t <= foldr N.max start l.
Proof.
  induction l as [|x l IH]; [by intros ?%elem_of_nil|]. intros [->|Ht]%elem_of_cons; cbn; [lia|]. specialize (IH Ht). lia.
Qed.
Lemma foldr_max_snoc l t : foldr N.max start (l ++ [t]) = N.max (foldr N.max start l) t.
Proof. induction l as [|x l IH]; cbn; [lia|]. rewrite IH. lia. Qed.
Lemma foldr_max_in l : (forall t, t ∈ l -> start <= t) -> l <> [] -> foldr N.max start l ∈ l.
Proof.
  induction l as [|x [|y l] IH]; intros Hge Hne; [done|cbn|].
  - specialize (Hge x ltac:(by left)). rewrite N.max_l by done. by left.
  - assert (Hin : foldr N.max start (y :: l) ∈ y :: l) by (apply IH; [intros t Ht; apply Hge; by right|done]).
    set (z := foldr N.max start (y :: l)) in *. change (N.max x z ∈ x :: y :: l).
    destruct (N.max_spec x z) as [[_ ->]|[_ ->]]; [by right|by left].
Qed.

Lemma take_ack_inv s m o :
  focus_inv s ->
  (fl_state (sy_lease s) = Ls_Held -> forall sent, o = Ao_Accepted -> (m, Lo_Keep, sent) ∈ fl_pending (sy_lease s) ->
     covers s (sent + FOCUS_TTL)) ->
  focus_inv (take_ack m o s).
Proof.
  intros [H1 H2 H3 H4 H5 H6] Hack. unfold take_ack.
  destruct (lease_on_ack m o (sy_lease s)) as [[l ev]|] eqn:E; [|by split].
  destruct (on_ack_inv _ _ _ _ _ E) as (Hid & Hsub & Hheld). split; cbn; try done; [by rewrite Hid|].
  intros Hh.
  assert (Hkeep : fl_state (sy_lease s) = Ls_Held -> forall m op sent, (m, op, sent) ∈ fl_pending (sy_lease s) -> op = Lo_Keep)
    by (intros Hs m1 op sent Hp; by eapply bl_pending; [apply H6|]).
  destruct (Hheld Hh Hkeep) as [Hs Hcase]. destruct (H6 Hs) as [B1 B2 B3 B4 B5].
  split; cbn; try done.
  - intros m1 op sent Hp. by eapply B2, Hsub.
  - intros m1 sent Ha Hp. apply (B3 m1); [done|]. by apply Hsub.
  - intros sent Hin. destruct Hcase as [[Hk _]|(t & -> & Hp & Hk & _)]; rewrite Hk in Hin; [rewrite app_nil_r in Hin; by apply B4|].
    apply elem_of_app in Hin as [Hin|Hin%list_elem_of_singleton]; [by apply B4|]. subst sent. split; [by eapply B2|by apply Hack].
  - destruct Hcase as [[-> ->]|(t & -> & Hp & -> & ->)]; [by rewrite app_nil_r|]. rewrite foldr_max_snoc, B5. lia.
Qed.

Lemma ack_inv s i : focus_inv s -> focus_inv (sys_step s (Se_Ack i)).
Proof.
  intros F. cbn [sys_step]. destruct (sy_acks s !! i) as [[m o]|] eqn:Ei; [|done].
  apply list_elem_of_lookup_2 in Ei. destruct F as [H1 H2 H3 H4 H5 H6].
  assert (Hrest : forall x, x ∈ remove_at i (sy_acks s) -> x ∈ sy_acks s) by (intros x; apply elem_of_remove_at).
  apply take_ack_inv.
  - split; cbn; try done.
    + intros m1 o1 Ha. by eapply H5, Hrest.
    + intros Hh. destruct (H6 Hh) as [B1 B2 B3 B4 B5]. split; cbn; try done.
      intros m1 sent Ha Hp. apply (B3 m1); [by apply Hrest|done].
  - cbn. intros Hh sent -> Hp. by apply (bl_acks _ (H6 Hh) m).
Qed.

Lemma step_inv s e :
  focus_inv s -> start <= sy_now s -> foreign id e -> focus_inv (sys_step s e) /\ start <= sy_now (sys_step s e).
Proof.
  intros F Hstart Hf. assert (Hnow : sy_now s <= sy_now (sys_step s e)).
  { destruct e; cbn; repeat case_match; cbn; try lia; unfold take_ack; repeat case_match; cbn; lia. }
  split; [|lia]. destruct (device_event_leaves id (sy_now s) (sy_device s)) as (Ht & Ho & Hr & Hl).
  destruct e; cbn [sys_step]; try (apply device_inv; [done|]); try done.
  - by apply wait_inv.
  - by apply lease_poll_inv.
  - by apply set_generation_inv.
  - by apply release_inv.
  - by apply deliver_inv.
  - by apply ack_inv.
  - apply take_ack_inv; [done|]. by intros _ sent.
  - destruct F. split; cbn; try done. intros Hh. by destruct (fi_held0 Hh).
  - by apply session_ended_inv.
  - by apply focus_handle_leaves.
  - by apply CandidateAccept_leaves.
Qed.

Lemma run_inv s events :
  focus_inv s -> start <= sy_now s -> Forall (foreign id) events -> focus_inv (sys_run s events).
Proof.
  revert s. induction events as [|e events IH]; intros s F Hs Hf; [done|]. apply Forall_cons in Hf as [He Hf].
  cbn. destruct (step_inv s e F Hs He) as [F' Hs']. by apply IH.
Qed.
End system.

Lemma start_inv ids `{!Inj (=) (=) ids} device now id kind owner g s :
  mg_leases device !! id = None -> sys_start ids device now id kind owner g = Some s ->
  focus_inv ids id now s /\ sy_now s = now.
Proof.
  intros Hd. unfold sys_start, lease_acquire, request, EffectLink_request. cbn. intros [= <-]. split; [|done].
  split; cbn; try done.
  - intros dl. by rewrite Hd.
  - intros m c g' Hx%list_elem_of_singleton. injection Hx as -> -> ->. split; [|done]. exists 0%nat. cbn. split; [lia|done].
  - intros m o Hx. by apply elem_of_nil in Hx.
  - intros _. split; cbn.
    + intros m c g' Hx%list_elem_of_singleton. by injection Hx as -> -> ->.
    + intros m op sent Hx%list_elem_of_singleton. injection Hx as -> -> ->. split; [done|]. unfold sent_by_now. cbn. lia.
    + intros m sent Hx. by apply elem_of_nil in Hx.
    + intros sent Hx. by apply elem_of_nil in Hx.
    + done.
Qed.

(** C33: What the controller believes of a focus lease is true of the device.  After
    any exchange on a device with leases of its own - commands and acknowledgements
    delayed, reordered, lost or given up, time passing anywhere, other leases and
    wake candidates coming and going - as long as the device's session is up, a
    lease the controller holds and has had confirmed is on the device, which keeps
    it at least until the instant the controller counts on; and that instant is
    three seconds after the latest send known accepted. *)
Theorem held_lease_is_on_the_device ids device now id kind owner g s events :
  Inj (=) (=) ids -> mg_leases device !! id = None ->
  sys_start ids device now id kind owner g = Some s -> Forall (foreign id) events ->
  let s' := sys_run s events in
  sy_session s' = true -> is_held (sy_lease s') = true -> sy_confirmed s' <> [] ->
  sy_now s' < fl_held_until (sy_lease s') ->
  (exists dl, mg_leases (sy_device s') !! id = Some dl /\ fl_held_until (sy_lease s') <= dl_expires dl) /\
  (exists sent, sent ∈ sy_confirmed s' /\ fl_held_until (sy_lease s') = sent + FOCUS_TTL /\
    forall sent', sent' ∈ sy_confirmed s' -> sent' <= sent).
Proof.
  intros Hinj Hd Hs Hf. cbv zeta. destruct (start_inv ids device now id kind owner g s Hd Hs) as [F0 Hnow].
  pose proof (run_inv ids id now s events F0 ltac:(lia) Hf) as F. intros Hup Hh%bool_decide_eq_true Hne Hlt.
  destruct (fi_held _ _ _ _ F Hh) as [B1 B2 B3 B4 B5].
  assert (Hin : foldr N.max now (sy_confirmed (sys_run s events)) ∈ sy_confirmed (sys_run s events)).
  { apply foldr_max_in; [|done]. intros t Ht. by destruct (B4 _ Ht) as [[? _] _]. }
  rewrite B5 in *. destruct (B4 _ Hin) as [_ Hc]. split; [by apply Hc|]. eexists. split_and!; [exact Hin|done|].
  intros sent'. apply foldr_max_le.
Qed.

(** *** A concrete exchange *)
Definition sample_sys (events : list SysEvent) : option Sys :=
  (fun s => sys_run s events) <$>
    sys_start (fun n => pretty n) manager_new 5000000000 "lease" Fk_DialogInput "turn" 4.
Definition sample_exchange : list SysEvent := [
  Se_Deliver 0; Se_Wait (from_secs 1); Se_Ack 0; Se_Poll;
  Se_OtherCommand (Fc_Acquire (mkFocusAcquire "other" "turn" Fk_DialogOutput 3000)) 4;
  Se_Wait (from_secs 1); Se_Deliver 0; Se_Ack 0; Se_Wait (from_secs 1); Se_DeviceTick].

Lemma held_lease_is_on_the_device_witness :
  exists s', sample_sys sample_exchange = Some s' /\ sy_now s' = 8000000000 /\
    fl_held_until (sy_lease s') = 9000000000 /\
    (exists dl, mg_leases (sy_device s') !! "lease" = Some dl /\ fl_held_until (sy_lease s') <= dl_expires dl) /\
    (exists sent, sent ∈ sy_confirmed s' /\ fl_held_until (sy_lease s') = sent + FOCUS_TTL /\
      forall sent', sent' ∈ sy_confirmed s' -> sent' <= sent).
Proof.
  unfold sample_sys.
  destruct (sys_start (fun n => pretty n) manager_new 5000000000 "lease" Fk_DialogInput "turn" 4) as [s|] eqn:Es;
    [|discriminate Es].
  eexists. split; [reflexivity|]. assert (Hs := Es). vm_compute in Hs. injection Hs as <-.
  split; [vm_compute; reflexivity|]. split; [vm_compute; reflexivity|].
  apply (held_lease_is_on_the_device (fun n => pretty n) manager_new 5000000000 "lease" Fk_DialogInput "turn" 4 _
           sample_exchange _ eq_refl Es).
  - repeat constructor; done.
  - vm_compute. reflexivity.
  - vm_compute. reflexivity.
  - vm_compute. discriminate.
  - vm_compute. reflexivity.
Defined.

(** ** A lease that is never renewed *)
Definition changed_generations : list SysEvent :=
  [Se_Deliver 0; Se_Ack 0] ++ mjoin ((fun g => [Se_SetGeneration g; Se_Deliver 0; Se_Ack 0]) <$> [5; 6; 7]).

(** Changing the owner's generation three times within a second ends a lease the
    device would have kept: each change pushes the next renewal out by another
    second, so although every message was accepted at once, the lease's own next
    deadline is the end of its time to live, and polled right then it expires
    unrenewed. *)
Theorem generation_changes_starve_renewal :
  exists s, sample_sys changed_generations = Some s /\
    is_held (sy_lease s) = true /\ fl_pending (sy_lease s) = [] /\ length (sy_confirmed s) = 4%nat /\
    fl_next_renewal (sy_lease s) = sy_now s + from_secs 4 /\
    lease_next_deadline (sy_lease s) = Some (sy_now s + FOCUS_TTL) /\
    (lease_poll (sy_link s) (sy_now s + FOCUS_TTL) (sy_lease s)).2 = Some Fe_Expired.
Proof. eexists. split; [vm_compute; reflexivity|]. by vm_compute. Qed.
