(* ===== verification/Level.v ===== *)
(** * Levels ([turn/src/level.rs], [turn/src/reply.rs])

    The room's background level, the command speaker's foreground level and the
    early-answer watch. *)
From Stdlib Require Import Floats.SpecFloat Sorting.Sorted.
From S2P Require Import Prelude Float Clock Evidence.

(** [CellAudio::energy_db]. *)
Definition energy_db (a : CellAudio) : option F64 :=
  match a with
  | Ca_Present (Some e) _ _ _ => Some (f64_div (f64_of_Z e) (f64_of_Z 100))
  | _ => None
  end.

(** ** Percentiles *)
(** [sort_unstable] of integers. *)
Fixpoint sorted_insert (e : Z) (sorted : list Z) : list Z :=
  match sorted with
  | [] => [e]
  | v :: rest => if (v <=? e)%Z then v :: sorted_insert e rest else e :: sorted
  end.
Definition sort_unstable (l : list Z) : list Z := foldr sorted_insert [] l.

(** An index out of range reads 0 here and panics there. *)
Definition percentile_rank (n : nat) (p : F64) : F64 := f64_mul p (f64_of_Z (Z.of_nat n - 1)).
Definition percentile_db (sorted : list Z) (p : F64) : option F64 :=
  match sorted with
  | [] => None
  | [first] => Some (f64_div (f64_of_Z first) (f64_of_Z 100))
  | _ =>
      let n := length sorted in
      let rank := percentile_rank n p in
      let lo := N.to_nat (f64_floor_index rank) in
      let hi := Nat.min (lo + 1) (n - 1) in
      let frac := f64_sub rank (f64_of_Z (Z.of_nat lo)) in
      let at_lo := f64_of_Z (nth lo sorted 0%Z) in
      let v := f64_add at_lo (f64_mul (f64_sub (f64_of_Z (nth hi sorted 0%Z)) at_lo) frac) in
      Some (f64_div v (f64_of_Z 100))
  end.

(** ** The background level *)
Definition BACKGROUND_WINDOW_CELLS : nat := 312.
Definition BACKGROUND_MIN_CELLS : nat := 32.
Definition FOREGROUND_MIN_CELLS : nat := 10.

Record BackgroundLevel := mkBackground { bl_window : list (option Z); bl_speech_vad : F32 }.
Definition background_new (speech_vad : F32) : BackgroundLevel := mkBackground [] speech_vad.

Definition background_current (b : BackgroundLevel) : option F64 :=
  let scratch := omap id (bl_window b) in
  if (length scratch <? BACKGROUND_MIN_CELLS)%nat then None
  else percentile_db (sort_unstable scratch) (f64_ratio 20 100).

(** What a cell counts for. *)
Definition background_counted (speech_vad : F32) (audio : CellAudio) : option Z :=
  match audio with
  | Ca_Present (Some e) _ _ _ =>
      if (match cell_vad audio with Some p => f32_ltb p speech_vad | None => true end) then Some e else None
  | _ => None
  end.
Definition background_push (audio : CellAudio) (b : BackgroundLevel) : BackgroundLevel :=
  let window :=
    if (length (bl_window b) =? BACKGROUND_WINDOW_CELLS)%nat then tail (bl_window b) else bl_window b in
  mkBackground (window ++ [background_counted (bl_speech_vad b) audio]) (bl_speech_vad b).

(** ** The foreground level *)
Record ForegroundLevel := mkForeground { fg_sorted : list Z; fg_seeded : bool }.
Definition foreground_new : ForegroundLevel := mkForeground [] false.
Definition foreground_seed (energies : list Z) (f : ForegroundLevel) : ForegroundLevel :=
  if (FOREGROUND_MIN_CELLS <=? length energies)%nat then
    mkForeground (sort_unstable (fg_sorted f ++ energies)) true
  else f.
Definition foreground_add (e_centi : Z) (f : ForegroundLevel) : ForegroundLevel :=
  let at_ := partition_point (fun v => v <=? e_centi)%Z (fg_sorted f) in
  mkForeground (insert_at at_ e_centi (fg_sorted f)) (fg_seeded f).
Definition foreground_current (f : ForegroundLevel) : option F64 :=
  if (length (fg_sorted f) <? FOREGROUND_MIN_CELLS)%nat then None
  else percentile_db (fg_sorted f) (f64_ratio 80 100).

(** ** The early answer *)
Record EarlyAnswerPolicy := mkEarlyPolicy {
  ea_cells : N; ea_vad_min : F32; ea_above_background_db : F64; ea_background_speech_vad : F32;
}.
(** 0.85 and 0.35 as [f32] bits. *)
Definition early_policy_default : EarlyAnswerPolicy := mkEarlyPolicy 15 1062836634 (f64_of_Z 12) 1051931443.

Record EarlyAnswerWatch := mkEarly {
  ew_policy : EarlyAnswerPolicy;
  ew_background : BackgroundLevel;
  ew_streak : N;
  ew_streak_start : option Sample;
}.
Definition early_new (policy : EarlyAnswerPolicy) : EarlyAnswerWatch :=
  mkEarly policy (background_new (ea_background_speech_vad policy)) 0 None.

(** What [observe] asks of a cell. *)
Definition early_qualifies (policy : EarlyAnswerPolicy) (background : option F64) (audio : CellAudio) : bool :=
  match audio with
  | Ca_Present _ _ _ echo =>
      let vad_ok := match cell_vad audio with Some p => f32_leb (ea_vad_min policy) p | None => false end in
      let level_ok :=
        match energy_db audio, background with
        | Some e, Some b => f64_leb (f64_add b (ea_above_background_db policy)) e
        | _, _ => false
        end in
      let echo_ok := match ec_label echo with El_NearEndPresent | El_NoReference => true | _ => false end in
      vad_ok && level_ok && echo_ok
  | Ca_Gap _ => false
  end.
Definition early_observe (cell : CellEvidence) (w : EarlyAnswerWatch) : EarlyAnswerWatch * option Sample :=
  let background := background_current (ew_background w) in
  let w := mkEarly (ew_policy w) (background_push (ce_audio cell) (ew_background w)) (ew_streak w) (ew_streak_start w) in
  if negb (early_qualifies (ew_policy w) background (ce_audio cell)) then
    (mkEarly (ew_policy w) (ew_background w) 0 None, None)
  else
    let onset := default (cell_start (ce_cell cell)) (ew_streak_start w) in
    let streak := ew_streak w + 1 in
    (mkEarly (ew_policy w) (ew_background w) streak (Some onset),
     if streak =? ea_cells (ew_policy w) then Some onset else None).

Example percentile_low : percentile_db [-6000; -5000; -4000; -3000; -2000]%Z (f64_ratio 20 100) = Some (f64_of_Z (-52)).
Proof. vm_compute. reflexivity. Qed.
Example percentile_high : percentile_db [-6000; -5000; -4000; -3000; -2000]%Z (f64_ratio 80 100) = Some (f64_of_Z (-28)).
Proof. vm_compute. reflexivity. Qed.

(** ** Sorting *)
Lemma partition_insert e l : insert_at (partition_point (fun v => v <=? e)%Z l) e l = sorted_insert e l.
Proof.
  induction l as [|v l IH]; [done|]. cbn. destruct (v <=? e)%Z; [|done]. unfold insert_at in *. cbn. by f_equal.
Qed.

Lemma sorted_insert_comm a b l : sorted_insert a (sorted_insert b l) = sorted_insert b (sorted_insert a l).
Proof.
  destruct (decide (a = b)) as [->|Hab]; [done|]. induction l as [|v l IH]; cbn.
  - destruct (Z.leb_spec b a), (Z.leb_spec a b); first [done|exfalso; lia].
  - destruct (Z.leb_spec v b), (Z.leb_spec v a); cbn;
      repeat (match goal with |- context [(?x <=? ?y)%Z] => destruct (Z.leb_spec x y) end;
              try (exfalso; lia); cbn); by rewrite ?IH.
Qed.

Lemma sort_cons e l : sort_unstable (e :: l) = sorted_insert e (sort_unstable l).
Proof. done. Qed.
Lemma sort_insert_app l e l' : sort_unstable (l ++ e :: l') = sorted_insert e (sort_unstable (l ++ l')).
Proof. induction l as [|x l IH]; [done|]. cbn [app]. rewrite !sort_cons, IH. apply sorted_insert_comm. Qed.

#[export] Instance sort_Permutation : Proper (Permutation ==> eq) sort_unstable.
Proof.
  intros l l' H. induction H as [|x l l' _ IH|x y l|l1 l2 l3 _ IH1 _ IH2]; rewrite ?sort_cons; [done|by rewrite IH| |].
  - apply sorted_insert_comm.
  - by rewrite IH1.
Qed.

Lemma sorted_insert_perm e l : sorted_insert e l ≡ₚ e :: l.
Proof. induction l as [|v l IH]; [done|]. cbn. destruct (v <=? e)%Z; [|done]. rewrite IH. constructor. Qed.
Lemma sort_perm l : sort_unstable l ≡ₚ l.
Proof. induction l as [|e l IH]; [done|]. rewrite sort_cons. by rewrite sorted_insert_perm, IH. Qed.

Lemma sorted_insert_sorted e l : StronglySorted Z.le l -> StronglySorted Z.le (sorted_insert e l).
Proof.
  induction 1 as [|v l Hs IH Hv]; cbn; [repeat constructor|]. destruct (Z.leb_spec v e).
  - constructor; [done|]. rewrite sorted_insert_perm. by constructor.
  - constructor; [by constructor|]. constructor; [lia|]. eapply Forall_impl; [exact Hv|]. cbn. lia.
Qed.
Lemma sort_sorted l : StronglySorted Z.le (sort_unstable l).
Proof. induction l as [|e l IH]; [constructor|]. by apply sorted_insert_sorted. Qed.

Lemma omap_fmap_id {A B} (f : A -> option B) (l : list A) : omap id (f <$> l) = omap f l.
Proof. induction l as [|x l IH]; [done|]. cbn. destruct (f x); cbn; by rewrite IH. Qed.
Lemma tail_drop {A} n (l : list A) : tail (drop n l) = drop (S n) l.
Proof. revert l. induction n as [|n IH]; intros [|x l]; cbn; [done..|]. by rewrite IH. Qed.

(** ** The levels are percentiles of what was counted *)
(** However its cells came, the foreground level is the 80th percentile of the
    sorted loudness of everything counted: the wake word's cells if there were at
    least ten of them, and every command cell added since; with fewer than ten in
    all there is none. *)
Theorem foreground_is_percentile_of_counted seed adds :
  let f := foldl (fun f e => foreground_add e f) (foreground_seed seed foreground_new) adds in
  let counted := (if (FOREGROUND_MIN_CELLS <=? length seed)%nat then seed else []) ++ adds in
  fg_sorted f = sort_unstable counted /\ StronglySorted Z.le (fg_sorted f) /\ fg_sorted f ≡ₚ counted /\
  foreground_current f =
    if (length counted <? FOREGROUND_MIN_CELLS)%nat then None
    else percentile_db (sort_unstable counted) (f64_ratio 80 100).
Proof.
  cbv zeta. set (seeded := if (_ <=? _)%nat then _ else _).
  assert (H0 : forall f l, fg_sorted f = sort_unstable l ->
    fg_sorted (foldl (fun f e => foreground_add e f) f adds) = sort_unstable (l ++ adds)).
  { induction adds as [|e adds IH]; intros f l Hf; cbn [foldl]; [by rewrite app_nil_r|].
    rewrite (IH (foreground_add e f) (e :: l)).
    - by rewrite (sort_insert_app l e adds).
    - unfold foreground_add. cbn. rewrite partition_insert. by rewrite Hf. }
  assert (Hs : fg_sorted (foreground_seed seed foreground_new) = sort_unstable seeded).
  { subst seeded. unfold foreground_seed. by destruct (_ <=? _)%nat. }
  specialize (H0 _ _ Hs). unfold foreground_current. rewrite H0.
  split_and!; [done|apply sort_sorted|apply sort_perm|]. by rewrite (Permutation_length (sort_perm _)).
Qed.

(** The background level looks at exactly the last 312 cells: after any cells it is
    the 20th percentile of what those of them that count measured, or nothing while
    fewer than 32 count. *)
Theorem background_is_of_the_last_cells speech_vad audios :
  let b := foldl (fun b a => background_push a b) (background_new speech_vad) audios in
  let recent := drop (length audios - BACKGROUND_WINDOW_CELLS) audios in
  let counted := omap (background_counted speech_vad) recent in
  (length (bl_window b) <= BACKGROUND_WINDOW_CELLS)%nat /\
  background_current b =
    if (length counted <? BACKGROUND_MIN_CELLS)%nat then None
    else percentile_db (sort_unstable counted) (f64_ratio 20 100).
Proof.
  cbv zeta.
  assert (H0 : foldl (fun b a => background_push a b) (background_new speech_vad) audios =
    mkBackground (background_counted speech_vad <$> drop (length audios - BACKGROUND_WINDOW_CELLS) audios) speech_vad).
  { induction audios as [|a audios IH] using rev_ind; [done|]. rewrite foldl_app, IH. cbn [foldl].
    unfold background_push. cbn [bl_window bl_speech_vad]. f_equal.
    rewrite length_app, length_fmap, length_drop. cbn [length]. unfold BACKGROUND_WINDOW_CELLS.
    destruct (Nat.eqb_spec (length audios - (length audios - 312)) 312) as [Hf|Hf].
    - rewrite <- fmap_tail, tail_drop. rewrite drop_app_le by lia. rewrite fmap_app.
      by replace (length audios + 1 - 312)%nat with (S (length audios - 312)) by lia.
    - replace (length audios - 312)%nat with 0%nat by lia. replace (length audios + 1 - 312)%nat with 0%nat by lia.
      by rewrite !drop_0, fmap_app. }
  rewrite H0. unfold background_current. cbn [bl_window]. split.
  - rewrite length_fmap, length_drop. unfold BACKGROUND_WINDOW_CELLS. lia.
  - by rewrite omap_fmap_id.
Qed.

(** ** No index of a percentile is out of range *)
(** Of up to 4096 values, more cells than two minutes have; the background level
    reads at most 312, the foreground level at most an utterance's. *)
Definition rank_in_range (p : F64) (n : nat) : bool :=
  (N.to_nat (f64_floor_index (percentile_rank n p)) <? n)%nat.
Lemma percentile_indices_in_range p n :
  p = f64_ratio 20 100 \/ p = f64_ratio 80 100 -> (2 <= n <= 4096)%nat ->
  (N.to_nat (f64_floor_index (percentile_rank n p)) < n)%nat /\
  (Nat.min (N.to_nat (f64_floor_index (percentile_rank n p)) + 1) (n - 1) < n)%nat.
Proof.
  intros Hp Hn. split; [|lia].
  assert (H0 : forallb (fun n => rank_in_range (f64_ratio 20 100) n && rank_in_range (f64_ratio 80 100) n)
                 (seq 2 4095) = true) by (vm_compute; reflexivity).
  rewrite forallb_forall in H0. assert (Hin : In n (seq 2 4095)) by (apply in_seq; lia).
  specialize (H0 n Hin). apply andb_true_iff in H0 as [H1 H2]. unfold rank_in_range in *.
  destruct Hp as [->| ->]; by apply Nat.ltb_lt.
Qed.

(** ** The early answer *)
(** Whether the cell after [history] qualifies. *)
Definition qualifies_after (policy : EarlyAnswerPolicy) (history : list CellEvidence) (cell : CellEvidence) : bool :=
  early_qualifies policy
    (background_current
       (foldl (fun b c => background_push (ce_audio c) b) (background_new (ea_background_speech_vad policy)) history))
    (ce_audio cell).
(** [run] are the cells that qualified one after the other up to now, and no more:
    the cell before them did not. *)
Definition longest_run (policy : EarlyAnswerPolicy) (cells run : list CellEvidence) : Prop :=
  exists before, cells = before ++ run /\
  (forall pre c post, run = pre ++ c :: post -> qualifies_after policy (before ++ pre) c = true) /\
  (forall pre c, before = pre ++ [c] -> qualifies_after policy pre c = false).

Lemma longest_run_le policy cells run run' :
  longest_run policy cells run -> longest_run policy cells run' -> (length run <= length run')%nat.
Proof.
  intros (before & -> & Hrun & _) (before' & Heq & _ & Hb'). destruct (decide (length run <= length run')%nat); [done|].
  exfalso. destruct (app_eq_inv _ _ _ _ Heq) as [(k & -> & ->)|(k & -> & ->)].
  - rewrite length_app in *. lia.
  - destruct k as [|c k _] using rev_ind; [by cbn in *|]. rewrite <- app_assoc in Hrun. cbn in Hrun.
    specialize (Hrun k c run' eq_refl). rewrite (Hb' (before ++ k) c) in Hrun by apply app_assoc. done.
Qed.
Lemma longest_run_unique policy cells run run' :
  longest_run policy cells run -> longest_run policy cells run' -> run = run'.
Proof.
  intros H H'. assert (Hl : length run = length run').
  { pose proof (longest_run_le _ _ _ _ H H'). pose proof (longest_run_le _ _ _ _ H' H). lia. }
  destruct H as (before & -> & _), H' as (before' & Heq & _). by apply app_inj_2 in Heq as [_ ?].
Qed.

Definition watch (policy : EarlyAnswerPolicy) (cells : list CellEvidence) : EarlyAnswerWatch :=
  foldl (fun w c => (early_observe c w).1) (early_new policy) cells.

Lemma watch_state policy cells :
  let w := watch policy cells in
  ew_policy w = policy /\
  ew_background w =
    foldl (fun b c => background_push (ce_audio c) b) (background_new (ea_background_speech_vad policy)) cells /\
  exists run, longest_run policy cells run /\ ew_streak w = N.of_nat (length run) /\
    ew_streak_start w = (fun c => cell_start (ce_cell c)) <$> head run.
Proof.
  cbv zeta. induction cells as [|c cells IH] using rev_ind.
  - split_and!; [done..|]. exists []. split; [|done]. exists []. split_and!; [done| |]; intros pre c; [intros post|]; intros Heq; by destruct pre.
  - destruct IH as (Hp & Hb & run & (before & -> & Hrun & Hbefore) & Hs & Hst). remember (before ++ run) as h eqn:Hh.
    unfold watch in *. rewrite !foldl_app. cbn [foldl]. set (w := foldl _ (early_new policy) h) in *.
    unfold early_observe. cbv zeta. cbn [ew_policy ew_background ew_streak ew_streak_start]. rewrite Hp, Hb.
    fold (qualifies_after policy h c).
    destruct (qualifies_after policy h c) eqn:Eq; subst h; cbn [negb fst ew_policy ew_background ew_streak ew_streak_start].
    + split_and!; [done..|].
      exists (run ++ [c]). split_and!.
      * exists before. split_and!; [by rewrite app_assoc| |exact Hbefore]. intros pre c' post Heq.
        destruct post as [|d post] using rev_ind.
        -- apply app_inj_tail in Heq as [-> ->]. done.
        -- rewrite app_comm_cons, app_assoc in Heq. apply app_inj_tail in Heq as [Heq _]. by eapply Hrun.
      * rewrite Hs, length_app. cbn. lia.
      * rewrite Hst. by destruct run.
    + split_and!; [done..|].
      exists []. split_and!; [|done..]. exists ((before ++ run) ++ [c]). split_and!; [by rewrite app_nil_r| |].
      * intros pre c' post Heq. by destruct pre.
      * intros pre c' [<- <-]%app_inj_tail. done.
Qed.

(** The early-answer watch reports an answer at exactly the cell that makes the
    latest unbroken run of qualifying cells as long as the policy asks, each judged
    against the background of the cells before it, and the onset it reports is where
    that run began; a run that goes on is not reported twice. *)
Theorem early_answer_onset policy cells cell onset :
  0 < ea_cells policy ->
  (early_observe cell (watch policy cells)).2 = Some onset <->
  exists first rest, longest_run policy (cells ++ [cell]) (first :: rest) /\
    N.of_nat (length (first :: rest)) = ea_cells policy /\ onset = cell_start (ce_cell first).
Proof.
  intros Hpos. pose proof (watch_state policy (cells ++ [cell])) as (Hp & _ & run & Hrun & Hs & Hst).
  assert (Huniq : forall run', longest_run policy (cells ++ [cell]) run' -> run' = run).
  { intros run' Hrun'. by eapply longest_run_unique. }
  assert (H0 : (early_observe cell (watch policy cells)).2 =
    if (negb (ew_streak (watch policy (cells ++ [cell])) =? 0))
       && (ew_streak (watch policy (cells ++ [cell])) =? ea_cells policy)
    then ew_streak_start (watch policy (cells ++ [cell])) else None).
  { unfold watch. rewrite foldl_app. cbn [foldl]. fold (watch policy cells).
    pose proof (watch_state policy cells) as (Hp' & _). unfold early_observe. cbv zeta. cbn [ew_policy ew_background ew_streak ew_streak_start]. rewrite Hp'.
    destruct (negb (early_qualifies _ _ _)); [done|].
    cbn [fst snd ew_streak ew_streak_start].
    replace (ew_streak (watch policy cells) + 1 =? 0) with false by (symmetry; apply N.eqb_neq; lia).
    done. }
  rewrite H0, Hs, Hst. clear H0. split.
  - destruct run as [|first rest]; [done|]. cbn [head fmap option_fmap option_map].
    destruct (_ && _) eqn:E; [|done]. apply andb_true_iff in E as [_ E%N.eqb_eq]. intros [= <-]. eauto.
  - intros (first & rest & Hr & Hn & ->). rewrite <- (Huniq _ Hr). rewrite Hn, N.eqb_refl. cbn.
    destruct (N.eqb_spec (ea_cells policy) 0); [lia|]. done.
Qed.

(** A second of a quiet room, then speech. *)
Definition sample_cell_at (e : Z) (vad : F32) (i : nat) : CellEvidence :=
  mkCellEvidence (N.of_nat i) (Ca_Present (Some e) (Some 4) (Vi_Probability vad) (mkEchoCell El_NearEndPresent Rc_Full)).
Definition sample_answer : list CellEvidence :=
  (sample_cell_at (-7000) 0 <$> seq 0 40) ++ (sample_cell_at (-3000) 1063675494 <$> seq 40 14).
Lemma early_answer_onset_witness :
  (early_observe (sample_cell_at (-3000) 1063675494 54) (watch early_policy_default sample_answer)).2 = Some (cell_start 40) /\
  exists first rest,
    longest_run early_policy_default (sample_answer ++ [sample_cell_at (-3000) 1063675494 54]) (first :: rest) /\
    N.of_nat (length (first :: rest)) = 15 /\ cell_start 40 = cell_start (ce_cell first).
Proof.
  split; [vm_compute; reflexivity|].
  apply (early_answer_onset early_policy_default sample_answer (sample_cell_at (-3000) 1063675494 54) (cell_start 40)).
  - by vm_compute.
  - vm_compute. reflexivity.
Defined.
