(* ===== verification/Classify.v ===== *)
(** * Cell attribution ([turn/src/classify.rs])

    What produced the sound in each 32 ms cell of an utterance: one class per
    cell, first match wins, from the cell's evidence and the run state carried
    from the cells before it. *)
From S2P Require Import Prelude Float Ema Clock Evidence Level.

Inductive CellClass := Cc_Gap | Cc_SelfOutput | Cc_NonSpeech | Cc_BackgroundSpeech | Cc_CommandSpeech | Cc_Unknown.
Inductive ClassRule :=
  | Cr_Gap | Cr_Muted | Cr_Echo | Cr_Vad | Cr_VadUnknown | Cr_Level | Cr_Hysteresis | Cr_UnderWay | Cr_Guard.
#[export] Instance CellClass_eq_dec : EqDecision CellClass.
Proof. solve_decision. Defined.
#[export] Instance ClassRule_eq_dec : EqDecision ClassRule.
Proof. solve_decision. Defined.

Record AttributionPolicy := mkAttribution {
  at_non_speech_max : F32;
  at_speech_positive_min : F32;
  at_run_open_min : F32;
  at_background_below_db : F64;
  at_run_open_level_min : F64;
  at_level_span_floor_db : F64;
  at_under_way_lead : Samples;
}.
(** 0.35, 0.50 and 0.70 as [f32] bits. *)
Definition attribution_default : AttributionPolicy := {|
  at_non_speech_max := 1051931443;
  at_speech_positive_min := 1056964608;
  at_run_open_min := 1060320051;
  at_background_below_db := f64_of_Z 10;
  at_run_open_level_min := f64_ratio 55 100;
  at_level_span_floor_db := f64_of_Z 12;
  at_under_way_lead := from_ms 480;
|}.

(** [ReplyAttribution]: the opening guard's end, if it has one. *)
Record ReplyAttribution := mkReplyAttribution { ra_guard_until : option Sample }.

Record RunOpen := mkRunOpen { ro_start : Sample; ro_dated_back_cells : N }.
Record Classified := mkClassified { cd_class : CellClass; cd_rule : ClassRule; cd_opened : option RunOpen }.
Definition plain (class : CellClass) (rule : ClassRule) : Classified := mkClassified class rule None.

(** [cf_run] is the start of the open run's first cell. *)
Record CellClassifier := mkClassifier {
  cf_policy : AttributionPolicy;
  cf_trigger : Sample;
  cf_reply : option ReplyAttribution;
  cf_run : option Sample;
  cf_voiced_since : option Sample;
  cf_past_trigger : bool;
  cf_under_way : bool;
}.
Definition classifier_new (policy : AttributionPolicy) (trigger : Sample) (reply : option ReplyAttribution) :
    CellClassifier := mkClassifier policy trigger reply None None false false.

Definition end_run (c : CellClassifier) : CellClassifier :=
  mkClassifier (cf_policy c) (cf_trigger c) (cf_reply c) None (cf_voiced_since c) (cf_past_trigger c) false.
Definition set_run (first_cell : Sample) (c : CellClassifier) : CellClassifier :=
  mkClassifier (cf_policy c) (cf_trigger c) (cf_reply c) (Some first_cell) (cf_voiced_since c) (cf_past_trigger c)
    (cf_under_way c).
Definition set_voiced (since : option Sample) (c : CellClassifier) : CellClassifier :=
  mkClassifier (cf_policy c) (cf_trigger c) (cf_reply c) (cf_run c) since (cf_past_trigger c) (cf_under_way c).

(** The under-way test, at the first cell after the trigger. *)
Definition test_under_way (after_trigger : bool) (c : CellClassifier) : CellClassifier :=
  if after_trigger && negb (cf_past_trigger c) then
    let under_way :=
      match cf_reply c, cf_run c with
      | Some _, Some first_cell =>
          (at_under_way_lead (cf_policy c) <? sample_since (cf_trigger c) first_cell) || cf_under_way c
      | _, _ => cf_under_way c
      end in
    mkClassifier (cf_policy c) (cf_trigger c) (cf_reply c) (cf_run c) (cf_voiced_since c) true under_way
  else c.

(** [r], where the cell stands between the background and the foreground. *)
Definition relative_level (p : AttributionPolicy) (energy background_db foreground_db : option F64) : option F64 :=
  match energy, background_db, foreground_db with
  | Some e, Some b, Some f =>
      Some (f64_div (f64_sub e b) (f64_max (f64_sub f b) (at_level_span_floor_db p)))
  | _, _, _ => None
  end.
(** Speech clearly quieter than the command. *)
Definition clearly_quieter (p : AttributionPolicy) (v : F32) (energy foreground_db : option F64) : bool :=
  f32_leb (at_speech_positive_min p) v &&
  match energy, foreground_db with
  | Some e, Some f => f64_leb e (f64_sub f (at_background_below_db p))
  | _, _ => false
  end.

Definition classify (cell : CellEvidence) (background_db foreground_db : option F64) (c : CellClassifier) :
    CellClassifier * Classified :=
  let p := cf_policy c in
  let start := cell_start (ce_cell cell) in
  let after_trigger := cf_trigger c <? cell_end (ce_cell cell) in
  match ce_audio cell with
  | Ca_Gap muted =>
      (set_voiced None (end_run c), plain Cc_Gap (if muted then Cr_Muted else Cr_Gap))
  | Ca_Present _ _ _ echo =>
      let energy := energy_db (ce_audio cell) in
      let vad := cell_vad (ce_audio cell) in
      let voiced :=
        match vad with
        | Some v => if f32_ltb (at_non_speech_max p) v then Some (default start (cf_voiced_since c)) else None
        | None => None
        end in
      let c := test_under_way after_trigger (set_voiced voiced c) in
      if bool_decide (ec_label echo = El_EchoOnly) then (end_run c, plain Cc_SelfOutput Cr_Echo)
      else
        match vad with
        | None => (end_run c, plain Cc_Unknown Cr_VadUnknown)
        | Some v =>
            if f32_leb v (at_non_speech_max p) then (end_run c, plain Cc_NonSpeech Cr_Vad)
            else if cf_under_way c && is_some (cf_run c) then (c, plain Cc_BackgroundSpeech Cr_UnderWay)
            else if clearly_quieter p v energy foreground_db then (end_run c, plain Cc_BackgroundSpeech Cr_Level)
            else if is_some (cf_run c) then (c, plain Cc_CommandSpeech Cr_Hysteresis)
            else if f32_ltb v (at_run_open_min p) then (c, plain Cc_Unknown Cr_Vad)
            else if
              match relative_level p energy background_db foreground_db with
              | Some r => f64_ltb r (at_run_open_level_min p)
              | None => false
              end
            then (c, plain Cc_Unknown Cr_Level)
            else
              let guard_until := cf_reply c ≫= ra_guard_until in
              if (match guard_until with Some g => after_trigger && (start <? g) | None => false end) then
                (c, plain Cc_Unknown Cr_Guard)
              else
                let run_start :=
                  match guard_until, cf_voiced_since c with
                  | Some g, Some since =>
                      if since <? g then N.min (N.max since (round_down (cf_trigger c) CELL_SAMPLES)) start else start
                  | _, _ => start
                  end in
                (set_run start c,
                 mkClassified Cc_CommandSpeech Cr_Vad
                   (Some (mkRunOpen run_start (sample_since start run_start / CELL_SAMPLES))))
        end
  end.

(** *** A whole utterance *)
(** Cells with the [B] and [F] in force before each. *)
Abbreviation Judgement := (CellEvidence * option F64 * option F64)%type.
Fixpoint classify_all (c : CellClassifier) (cells : list Judgement) : CellClassifier * list Classified :=
  match cells with
  | [] => (c, [])
  | (cell, b, f) :: cells =>
      let '(c, judged) := classify cell b f c in
      let '(c, rest) := classify_all c cells in
      (c, judged :: rest)
  end.

(** ** Equations *)
Lemma classify_all_app c l1 l2 :
  classify_all c (l1 ++ l2) =
    let '(c1, j1) := classify_all c l1 in let '(c2, j2) := classify_all c1 l2 in (c2, j1 ++ j2).
Proof.
  revert c. induction l1 as [|[[cell b] f] l1 IH]; intros c; cbn [classify_all app].
  - by destruct (classify_all c l2).
  - destruct (classify cell b f c) as [c' d]. rewrite IH. destruct (classify_all c' l1) as [c1 j1].
    by destruct (classify_all c1 l2).
Qed.
Lemma classify_all_length c l : length (classify_all c l).2 = length l.
Proof.
  revert c. induction l as [|[[cell b] f] l IH]; intros c; [done|]. cbn [classify_all].
  destruct (classify cell b f c) as [c' d]. specialize (IH c'). destruct (classify_all c' l). cbn in *. by f_equal.
Qed.
Lemma classify_fixed cell b f c :
  let c' := (classify cell b f c).1 in
  cf_policy c' = cf_policy c /\ cf_trigger c' = cf_trigger c /\ cf_reply c' = cf_reply c.
Proof.
  unfold classify, test_under_way. cbv zeta. destruct (ce_audio cell) as [m|e sm vad echo]; [done|].
  repeat (case_match; cbn; try done).
Qed.

(** ** A reference for wake and button turns *)
Definition voiced_cell (p : AttributionPolicy) (j : Judgement) : bool :=
  match ce_audio j.1.1 with
  | Ca_Gap _ => false
  | Ca_Present _ _ _ echo =>
      negb (bool_decide (ec_label echo = El_EchoOnly)) &&
      match cell_vad (ce_audio j.1.1) with Some v => negb (f32_leb v (at_non_speech_max p)) | None => false end
  end.
Definition quieter_cell (p : AttributionPolicy) (j : Judgement) : bool :=
  match cell_vad (ce_audio j.1.1) with
  | Some v => clearly_quieter p v (energy_db (ce_audio j.1.1)) j.2
  | None => false
  end.
(** Loud and speech-like enough to open a run. *)
Definition opening_cell (p : AttributionPolicy) (j : Judgement) : bool :=
  match cell_vad (ce_audio j.1.1) with Some v => negb (f32_ltb v (at_run_open_min p)) | None => false end &&
  match relative_level p (energy_db (ce_audio j.1.1)) j.1.2 j.2 with
  | Some r => negb (f64_ltb r (at_run_open_level_min p))
  | None => true
  end.
(** The cells up to now, the latest first: this one goes on or opens a run. *)
Fixpoint in_run (p : AttributionPolicy) (latest : list Judgement) : bool :=
  match latest with
  | [] => false
  | j :: before => voiced_cell p j && negb (quieter_cell p j) && (in_run p before || opening_cell p j)
  end.
Definition reference_class (p : AttributionPolicy) (latest : list Judgement) : CellClass :=
  match latest with
  | [] => Cc_Unknown
  | j :: _ =>
      match ce_audio j.1.1 with
      | Ca_Gap _ => Cc_Gap
      | Ca_Present _ _ _ echo =>
          if bool_decide (ec_label echo = El_EchoOnly) then Cc_SelfOutput
          else
            match cell_vad (ce_audio j.1.1) with
            | None => Cc_Unknown
            | Some v =>
                if f32_leb v (at_non_speech_max p) then Cc_NonSpeech
                else if quieter_cell p j then Cc_BackgroundSpeech
                else if in_run p latest then Cc_CommandSpeech
                else Cc_Unknown
            end
      end
  end.

Lemma classify_reference p trigger cell b f c latest :
  cf_policy c = p -> cf_trigger c = trigger -> cf_reply c = None -> cf_under_way c = false ->
  is_some (cf_run c) = in_run p latest ->
  let '(c', d) := classify cell b f c in
  cf_policy c' = p /\ cf_trigger c' = trigger /\ cf_reply c' = None /\ cf_under_way c' = false /\
  is_some (cf_run c') = in_run p ((cell, b, f) :: latest) /\
  cd_class d = reference_class p ((cell, b, f) :: latest).
Proof.
  intros Hp Ht Hr Hu Hrun. unfold classify, reference_class, test_under_way.
  cbn [in_run fst snd]. unfold voiced_cell, quieter_cell, opening_cell. cbn [fst snd].
  rewrite <- Hrun. cbv zeta. destruct (ce_audio cell) as [m|e sm vad echo]; [by cbn|].
  cbn [cf_reply cf_run cf_under_way cf_policy cf_trigger cf_past_trigger set_voiced cell_vad]. rewrite Hp, Hr, Hu, Ht.
  destruct ((trigger <? cell_end (ce_cell cell)) && negb (cf_past_trigger c)); cbn.
  all: destruct (bool_decide _); [cbn; by rewrite ?Hp, ?Hr, ?Ht|].
  all: destruct (vad_known vad) as [v|]; [|cbn; by rewrite ?Hp, ?Hr, ?Ht].
  all: destruct (f32_leb v _); [cbn; by rewrite ?Hp, ?Hr, ?Ht|].
  all: rewrite ?Hu; cbn [andb].
  all: destruct (clearly_quieter _ _ _ _); [cbn; by rewrite ?Hp, ?Hr, ?Ht|].
  all: destruct (cf_run c) as [r|] eqn:Er; [cbn; by rewrite ?Hp, ?Hr, ?Ht, ?Er, ?Hu|].
  all: destruct (f32_ltb v _); [cbn; by rewrite ?Hp, ?Hr, ?Ht, ?Er, ?Hu|].
  all: destruct (relative_level p _ _ _) as [lv|]; [destruct (f64_ltb lv _)|].
  all: cbn; by rewrite ?Hp, ?Hr, ?Ht, ?Er, ?Hu.
Qed.

(** In a wake or button turn the classifier is the documented first-match rule: a
    cell's class is decided by its own evidence alone, except that speech that is
    neither quiet nor quieter than the command is command speech exactly when it
    opens a run or follows an unbroken stretch of such cells back to one that did. *)
Theorem classes_by_first_match p trigger cells :
  cd_class <$> (classify_all (classifier_new p trigger None) cells).2 =
    (fun n => reference_class p (rev (take (S n) cells))) <$> seq 0 (length cells).
Proof.
  assert (H0 : let '(c, judged) := classify_all (classifier_new p trigger None) cells in
    cf_policy c = p /\ cf_trigger c = trigger /\ cf_reply c = None /\ cf_under_way c = false /\
    is_some (cf_run c) = in_run p (rev cells) /\
    cd_class <$> judged = (fun n => reference_class p (rev (take (S n) cells))) <$> seq 0 (length cells)).
  { induction cells as [|[[cell b] f] cells IH] using rev_ind; [done|].
    rewrite classify_all_app. destruct (classify_all _ cells) as [c judged].
    destruct IH as (Hp & Ht & Hr & Hu & Hrun & Hj). cbn [classify_all].
    pose proof (classify_reference p trigger cell b f c (rev cells) Hp Ht Hr Hu Hrun) as H1.
    destruct (classify cell b f c) as [c' d]. destruct H1 as (? & ? & ? & ? & Hrun' & Hd).
    rewrite rev_unit. split_and!; try done.
    rewrite length_app, fmap_app, Hj. cbn [length]. rewrite Nat.add_1_r, seq_S, fmap_app. cbn.
    f_equal.
    - apply list_fmap_ext. intros i n Hi. apply lookup_seq in Hi as [-> Hi]. cbn.
      by rewrite take_app_le by lia.
    - rewrite take_ge by (rewrite length_app; cbn; lia). by rewrite rev_unit, Hd. }
  revert H0. destruct (classify_all _ cells) as [c judged]. by intros (_ & _ & _ & _ & _ & ?).
Qed.

(** ** Replies *)
(** The cells of [cells] follow one another from cell [first] on. *)
Fixpoint consecutive (first : CellIndex) (cells : list Judgement) : Prop :=
  match cells with
  | [] => True
  | j :: cells => ce_cell j.1.1 = first /\ consecutive (first + 1) cells
  end.
(** VAD above the non-speech bar. *)
Definition vad_voiced (p : AttributionPolicy) (j : Judgement) : bool :=
  match cell_vad (ce_audio j.1.1) with Some v => f32_ltb (at_non_speech_max p) v | None => false end.

Lemma consecutive_snoc first cells j :
  consecutive first (cells ++ [j]) <-> consecutive first cells /\ ce_cell j.1.1 = first + N.of_nat (length cells).
Proof.
  revert first. induction cells as [|j' cells IH]; intros first; cbn [consecutive app length]; [split; intros; intuition lia|].
  rewrite IH. split; intros [? [? ?]] || intros [[? ?] ?]; intuition lia.
Qed.
Lemma consecutive_lookup first cells i j :
  consecutive first cells -> cells !! i = Some j -> ce_cell j.1.1 = first + N.of_nat i.
Proof.
  revert first i. induction cells as [|j' cells IH]; intros first i; [done|]. cbn [consecutive].
  intros [Hf Hc]. destruct i as [|i]; cbn [lookup list_lookup]; [intros [= <-]; lia|].
  intros Hi. rewrite (IH _ _ Hc Hi). lia.
Qed.

(** The stretch of voiced cells the latest cell ends, when it is voiced. *)
Record voiced_stretch (p : AttributionPolicy) (first : CellIndex) (cells : list Judgement) (since : option Sample) :
    Prop := {
  vs_some s : since = Some s ->
    exists k, first <= k < first + N.of_nat (length cells) /\ s = cell_start k /\
    forall i j, cells !! i = Some j -> k <= ce_cell j.1.1 -> vad_voiced p j = true;
}.

Lemma classify_voiced p first cells cell b f c :
  cf_policy c = p -> consecutive first (cells ++ [(cell, b, f)]) ->
  voiced_stretch p first cells (cf_voiced_since c) ->
  voiced_stretch p first (cells ++ [(cell, b, f)]) (cf_voiced_since (classify cell b f c).1).
Proof.
  intros Hp Hc [Hs]. apply consecutive_snoc in Hc as [Hc Hcell]. cbn in Hcell.
  assert (H0 : cf_voiced_since (classify cell b f c).1 =
    if vad_voiced p (cell, b, f) then Some (default (cell_start (ce_cell cell)) (cf_voiced_since c)) else None).
  { unfold classify, vad_voiced, test_under_way. cbv zeta. cbn [fst snd]. rewrite Hp.
    destruct (ce_audio cell) as [m|e sm vad echo]; [done|]. cbn [cell_vad].
    destruct (vad_known vad) as [v|]; [destruct (f32_ltb _ v)|]; repeat (case_match; cbn; try done). }
  split. intros s. rewrite H0. destruct (vad_voiced p (cell, b, f)) eqn:Ev; [|done]. intros [= <-].
  rewrite length_app. cbn [length].
  destruct (cf_voiced_since c) as [s|] eqn:Es; cbn [default].
  - destruct (Hs s eq_refl) as (k & Hk & -> & Hall). exists k. split_and!; [lia|lia|done|].
    intros i j Hi Hkj. apply lookup_snoc_Some in Hi as [[_ Hi]|[_ <-]]; [by eapply Hall|done].
  - exists (ce_cell cell). split_and!; [lia|lia|done|]. intros i j Hi Hkj.
    apply lookup_snoc_Some in Hi as [[Hlt Hi]|[_ <-]]; [|done].
    pose proof (consecutive_lookup _ _ _ _ Hc Hi). lia.
Qed.

Lemma classify_all_fixed c cells :
  let c' := (classify_all c cells).1 in
  cf_policy c' = cf_policy c /\ cf_trigger c' = cf_trigger c /\ cf_reply c' = cf_reply c.
Proof.
  revert c. induction cells as [|[[cell b] f] cells IH]; intros c; [done|]. cbn [classify_all].
  pose proof (classify_fixed cell b f c) as H0. destruct (classify cell b f c) as [c1 d]. specialize (IH c1).
  destruct (classify_all c1 cells). cbn in *. by destruct H0 as (<- & <- & <-).
Qed.

Lemma classify_all_voiced p trigger reply first cells :
  consecutive first cells ->
  voiced_stretch p first cells (cf_voiced_since (classify_all (classifier_new p trigger reply) cells).1).
Proof.
  induction cells as [|[[cell b] f] cells IH] using rev_ind; intros Hc; [by split|].
  pose proof Hc as [Hc' _]%consecutive_snoc. specialize (IH Hc').
  pose proof (classify_all_fixed (classifier_new p trigger reply) cells) as (Hp & _).
  rewrite classify_all_app. destruct (classify_all _ cells) as [c judged]. cbn [fst classify_all] in *.
  pose proof (classify_voiced p first cells cell b f c Hp Hc IH) as H0. by destruct (classify cell b f c).
Qed.

(** What opening a run takes and what it records. *)
Lemma classify_opened cell b f c c' d ro :
  classify cell b f c = (c', d) -> cd_opened d = Some ro ->
  let start := cell_start (ce_cell cell) in
  let guard := cf_reply c ≫= ra_guard_until in
  cd_class d = Cc_CommandSpeech /\ cf_run c' = Some start /\
  (forall g, guard = Some g -> cf_trigger c < cell_end (ce_cell cell) -> g <= start) /\
  ro_start ro =
    match guard, cf_voiced_since c' with
    | Some g, Some since => if since <? g then N.min (N.max since (round_down (cf_trigger c) CELL_SAMPLES)) start else start
    | _, _ => start
    end /\
  ro_dated_back_cells ro = sample_since start (ro_start ro) / CELL_SAMPLES.
Proof.
  cbv zeta. unfold classify. destruct (ce_audio cell) as [m|e sm vad echo] eqn:Ea; [by intros [= <- <-]|].
  cbv zeta. set (c0 := set_voiced _ c). set (c1 := test_under_way _ c0).
  assert (H1 : cf_policy c1 = cf_policy c /\ cf_trigger c1 = cf_trigger c /\ cf_reply c1 = cf_reply c /\ True).
  { subst c1. unfold test_under_way. by destruct (_ && _). }
  destruct H1 as (Hp & Ht & Hr & Hv). clearbody c1. clear c0 Hv.
  destruct (bool_decide _); [by intros [= <- <-]|].
  destruct (cell_vad (Ca_Present e sm vad echo)) as [v|] eqn:Evad; [|by intros [= <- <-]].
  destruct (f32_leb v (at_non_speech_max (cf_policy c))) eqn:Elow; [by intros [= <- <-]|].
  destruct (cf_under_way c1 && _); [by intros [= <- <-]|].
  destruct (clearly_quieter _ _ _ _); [by intros [= <- <-]|].
  destruct (is_some (cf_run c1)); [by intros [= <- <-]|].
  destruct (f32_ltb v (at_run_open_min _)); [by intros [= <- <-]|].
  destruct (match relative_level _ _ _ _ with Some _ => _ | None => _ end); [by intros [= <- <-]|].
  rewrite Hr, Ht.
  destruct (match cf_reply c ≫= ra_guard_until with Some _ => _ | None => _ end) eqn:Eg; [by intros [= <- <-]|].
  intros [= <- <-]. cbn [cd_opened cd_class]. intros [= <-].
  split_and!; try done.
  - intros g Hg Hafter. rewrite Hg in Eg. apply N.ltb_lt in Hafter. rewrite Hafter in Eg. cbn in Eg.
    by apply N.ltb_ge in Eg.
Qed.

(** A reply's command speech never begins inside its opening guard, and a run that
    opens after it is dated back over exactly the cells said: from the cell it is
    dated back to, every cell up to the one that opened it was voiced without a
    break, and it is dated back only into the guard and never before the cell that
    holds the trigger. *)
Theorem reply_runs_dated_back p trigger reply first cells cell b f ro :
  consecutive first (cells ++ [(cell, b, f)]) ->
  (classify cell b f (classify_all (classifier_new p trigger reply) cells).1).2 =
    mkClassified Cc_CommandSpeech Cr_Vad (Some ro) ->
  exists k, ro_start ro = cell_start k /\ k + ro_dated_back_cells ro = ce_cell cell /\
  (forall g, reply ≫= ra_guard_until = Some g -> trigger < cell_end (ce_cell cell) -> g <= cell_start (ce_cell cell)) /\
  (0 < ro_dated_back_cells ro ->
     (exists g, reply ≫= ra_guard_until = Some g /\ ro_start ro < N.max g (round_down trigger CELL_SAMPLES + 1)) /\
     sample_cell trigger <= k /\
     forall j, j ∈ cells -> k <= ce_cell j.1.1 -> vad_voiced p j = true).
Proof.
  intros Hc. pose proof (classify_all_fixed (classifier_new p trigger reply) cells) as (Hp & Ht & Hr).
  pose proof (classify_all_voiced p trigger reply first _ Hc) as Hv. rewrite classify_all_app in Hv.
  destruct (classify_all _ cells) as [c judged]. cbn [fst classify_all classifier_new cf_policy cf_trigger cf_reply] in *.
  destruct (classify cell b f c) as [c' d] eqn:E. cbn [fst snd] in *. intros ->.
  destruct (classify_opened _ _ _ _ _ _ ro E eq_refl) as (_ & _ & Hg & Hs & Hd). rewrite Hr, Ht in *. clear E Hp Ht Hr.
  assert (Hnone : ro_start ro = cell_start (ce_cell cell) -> ro_dated_back_cells ro = 0).
  { intros Heq. rewrite Hd, Heq. unfold sample_since. by rewrite N.sub_diag. }
  destruct (reply ≫= ra_guard_until) as [g|];
    [|exists (ce_cell cell); rewrite (Hnone Hs); split_and!; [done|lia|done|lia]].
  destruct (cf_voiced_since c') as [since|];
    [|exists (ce_cell cell); rewrite (Hnone Hs); split_and!; [done|lia|done|lia]].
  destruct (N.ltb_spec since g) as [Hlt|];
    [|exists (ce_cell cell); rewrite (Hnone Hs); split_and!; [done|lia|done|lia]].
  destruct Hv as [Hv]. destruct (Hv since eq_refl) as (k & Hk & -> & Hall).
  rewrite round_down_mul in Hs by done. exists (N.min (N.max k (sample_cell trigger)) (ce_cell cell)).
  assert (Hstart : ro_start ro = cell_start (N.min (N.max k (sample_cell trigger)) (ce_cell cell))).
  { rewrite Hs. unfold cell_start, sample_cell, CELL_SAMPLES. lia. }
  assert (Hdated : ro_dated_back_cells ro = ce_cell cell - N.min (N.max k (sample_cell trigger)) (ce_cell cell)).
  { rewrite Hd, Hstart. unfold sample_since, cell_start, CELL_SAMPLES.
    rewrite <- N.mul_sub_distr_r, N.div_mul by done. done. }
  split_and!; [done|lia|done|]. intros Hpos. split_and!.
  - exists g. split; [done|]. rewrite Hs. rewrite round_down_mul by done. lia.
  - lia.
  - intros j [i Hi]%list_elem_of_lookup Hj. apply (Hall i); [by apply lookup_app_l_Some|]. lia.
Qed.

(** The window opens at sample 10240, guarded to 15360; the answer begins inside the
    guard and is still going on after it. *)
Definition sample_judgement (vad : F32) (i : nat) : Judgement :=
  (mkCellEvidence (N.of_nat i) (Ca_Present (Some (-3000)%Z) (Some 4) (Vi_Probability vad) (mkEchoCell El_NoReference Rc_Silent)),
   None, None).
Definition sample_reply : list Judgement := (sample_judgement 0 <$> seq 10 13) ++ (sample_judgement 1063675494 <$> seq 23 7).
Lemma reply_runs_dated_back_witness :
  let ra := mkReplyAttribution (Some 15360) in
  let last := sample_judgement 1063675494 30 in
  (classify last.1.1 None None (classify_all (classifier_new attribution_default 10240 (Some ra)) sample_reply).1).2 =
    mkClassified Cc_CommandSpeech Cr_Vad (Some (mkRunOpen 11776 7)) /\
  exists k, 11776 = cell_start k /\ k + 7 = 30 /\
  (forall g, Some 15360 = Some g -> 10240 < cell_end 30 -> g <= cell_start 30) /\
  (0 < 7 -> (exists g, Some 15360 = Some g /\ 11776 < N.max g (round_down 10240 CELL_SAMPLES + 1)) /\
     sample_cell 10240 <= k /\ forall j, j ∈ sample_reply -> k <= ce_cell j.1.1 -> vad_voiced attribution_default j = true).
Proof.
  cbv zeta. split; [vm_compute; reflexivity|].
  apply (reply_runs_dated_back attribution_default 10240 (Some (mkReplyAttribution (Some 15360))) 10 sample_reply
           (mkCellEvidence 30 (Ca_Present (Some (-3000)%Z) (Some 4) (Vi_Probability 1063675494) (mkEchoCell El_NoReference Rc_Silent)))
           None None (mkRunOpen 11776 7)).
  - vm_compute. tauto.
  - vm_compute. reflexivity.
Defined.

Lemma classify_under_way p cell b f c :
  cf_policy c = p -> cf_past_trigger c = true -> cf_under_way c = true -> is_some (cf_run c) = true ->
  voiced_cell p (cell, b, f) = true ->
  let '(c', d) := classify cell b f c in
  d = plain Cc_BackgroundSpeech Cr_UnderWay /\ cf_policy c' = p /\ cf_past_trigger c' = true /\
  cf_under_way c' = true /\ is_some (cf_run c') = true.
Proof.
  intros Hp Hpast Hu Hrun Hv. unfold voiced_cell in Hv. cbn [fst snd] in Hv. unfold classify.
  destruct (ce_audio cell) as [m|e sm vad echo]; [done|]. cbv zeta.
  apply andb_true_iff in Hv as [He%negb_true_iff Hv]. rewrite He.
  destruct (cell_vad _) as [v|]; [|done]. apply negb_true_iff in Hv. unfold test_under_way.
  cbn [cf_past_trigger set_voiced cf_policy cf_under_way cf_run]. rewrite Hpast, andb_false_r, Hp, Hv. cbn.
  rewrite Hu, Hrun. cbn. by split_and!.
Qed.

Lemma classify_tested cell b f c :
  cf_trigger c < cell_end (ce_cell cell) -> is_gap (ce_audio cell) = false ->
  classify cell b f (test_under_way true c) = classify cell b f c.
Proof.
  intros Ha Hgap. unfold classify. destruct (ce_audio cell) as [m|e sm vad echo]; [done|]. cbv zeta.
  assert (Hf : cf_policy (test_under_way true c) = cf_policy c /\ cf_trigger (test_under_way true c) = cf_trigger c /\
    cf_voiced_since (test_under_way true c) = cf_voiced_since c).
  { unfold test_under_way. by destruct (_ && _). }
  destruct Hf as (-> & -> & ->). apply N.ltb_lt in Ha. rewrite Ha.
  assert (H0 : forall v, test_under_way true (set_voiced v (test_under_way true c)) = test_under_way true (set_voiced v c)).
  { intros v. unfold test_under_way. cbn. destruct (cf_past_trigger c) eqn:Ep; cbn; by rewrite ?Ep. }
  by rewrite H0.
Qed.

(** Speech that was already going on when a reply's window opened is not the
    answer: if a run is open at the trigger and began more than 480 ms (the policy's
    lead) before it, then every cell after the trigger is background speech for as
    long as that speech goes on, however loud. *)
Theorem speech_under_way_is_background p trigger ra before first_cell after_ :
  Forall (fun j => cell_end (ce_cell j.1.1) <= trigger) before ->
  cf_run (classify_all (classifier_new p trigger (Some ra)) before).1 = Some first_cell ->
  first_cell + at_under_way_lead p < trigger ->
  Forall (fun j => trigger < cell_end (ce_cell j.1.1) /\ voiced_cell p j = true) after_ ->
  Forall (fun d => d = plain Cc_BackgroundSpeech Cr_UnderWay)
    (classify_all (classify_all (classifier_new p trigger (Some ra)) before).1 after_).2.
Proof.
  intros Hbefore Hrun Hlead Hafter.
  pose proof (classify_all_fixed (classifier_new p trigger (Some ra)) before) as (Hp & Ht & Hr).
  assert (Hpast : cf_past_trigger (classify_all (classifier_new p trigger (Some ra)) before).1 = false).
  { clear Hrun Hp Ht Hr. assert (Hc : cf_trigger (classifier_new p trigger (Some ra)) = trigger /\
      cf_past_trigger (classifier_new p trigger (Some ra)) = false) by done. revert Hc.
    generalize (classifier_new p trigger (Some ra)). induction Hbefore as [|[[cell b] f] l Hle _ IH]; intros c [Ht Hc]; [done|].
    cbn [classify_all]. destruct (classify cell b f c) as [c1 d] eqn:E.
    enough (Hc1 : cf_trigger c1 = trigger /\ cf_past_trigger c1 = false).
    { specialize (IH c1 Hc1). by destruct (classify_all c1 l). }
    pose proof (classify_fixed cell b f c) as (_ & Ht1 & _). rewrite E in Ht1. split; [cbn in *; congruence|].
    revert E. cbn in Hle. unfold classify, test_under_way. rewrite Ht. destruct (N.ltb_spec trigger (cell_end (ce_cell cell))); [lia|].
    cbn [andb]. cbv zeta. destruct (ce_audio cell); [intros [= <- _]; exact Hc|].
    repeat (case_match; cbn); intros [= <- _]; exact Hc. }
  destruct (classify_all _ before) as [c judged]. cbn [fst cf_policy cf_trigger cf_reply classifier_new] in *. clear Hbefore judged.
  assert (H0 : forall c, cf_policy c = p -> cf_past_trigger c = true -> cf_under_way c = true -> is_some (cf_run c) = true ->
    Forall (fun d => d = plain Cc_BackgroundSpeech Cr_UnderWay) (classify_all c after_).2).
  { induction Hafter as [|[[cell b] f] l [_ Hv] _ IH]; intros c0 Hp0 Hpast0 Hu0 Hrun0; [done|]. cbn [classify_all].
    pose proof (classify_under_way p cell b f c0 Hp0 Hpast0 Hu0 Hrun0 Hv) as H0. destruct (classify cell b f c0) as [c1 d].
    destruct H0 as (-> & H1 & H2 & H3 & H4). specialize (IH c1 H1 H2 H3 H4). destruct (classify_all c1 l). by constructor. }
  destruct after_ as [|[[cell b] f] l]; [done|]. apply Forall_cons in Hafter as [[Hend Hv] _].
  assert (Heq : classify_all c ((cell, b, f) :: l) = classify_all (test_under_way true c) ((cell, b, f) :: l)).
  { cbn [classify_all]. rewrite classify_tested; [done|by rewrite Ht|].
    unfold voiced_cell in Hv. cbn in Hv. by destruct (ce_audio cell). }
  assert (Hlt : (at_under_way_lead p <? sample_since trigger first_cell) = true).
  { apply N.ltb_lt. unfold sample_since. lia. }
  rewrite Heq. apply H0; unfold test_under_way; rewrite Hpast, Hr, Hrun, Hp, ?Ht, ?Hlt; done.
Qed.
Lemma speech_under_way_is_background_witness :
  let talk := sample_judgement 1063675494 in
  let c := (classify_all (classifier_new attribution_default 10240 (Some (mkReplyAttribution (Some 15360)))) (talk <$> seq 0 20)).1 in
  cf_run c = Some 0 /\
  Forall (fun d => d = plain Cc_BackgroundSpeech Cr_UnderWay) (classify_all c (talk <$> seq 20 15)).2.
Proof.
  cbv zeta. split; [vm_compute; reflexivity|].
  apply (speech_under_way_is_background attribution_default 10240 (mkReplyAttribution (Some 15360)) _ 0).
  - cbn. repeat (constructor; [by vm_compute|]). constructor.
  - vm_compute. reflexivity.
  - vm_compute. reflexivity.
  - cbn. repeat (constructor; [split; [by vm_compute|vm_compute; reflexivity]|]). constructor.
Defined.
