(* ===== verification/Transcript.v ===== *)
(** * Text rules ([turn/src/text.rs])

    Transcript words, normalization, the wake-word check and the removal of the
    wake phrase.  A text is its list of [char]s; where the source counts UTF-8
    bytes (always at the boundary of a [char]) a position here counts [char]s.
    The Unicode tables of the standard library are the class [Unicode]. *)
From Stdlib Require Import Floats.SpecFloat.
From S2P Require Import Prelude Float Clock Evidence Level.

Class Unicode := {
  is_alphanumeric : Char -> bool;
  is_alphabetic : Char -> bool;
  is_whitespace : Char -> bool;
  (** [char::to_lowercase] and [str::to_lowercase]. *)
  char_lower : Char -> Text;
  str_lower : Text -> Text;
}.
Definition APOSTROPHE : Char := 39.
Definition SPACE : Char := 32.

Definition PHRASE_MATCH_MAX : F64 := f64_ratio 45 100.
Definition VERIFY_PASS_MAX : F64 := f64_ratio 40 100.
Definition MAX_WINDOW_WORDS : nat := 3.
Definition WORD_COUNT_SLACK : nat := 2.

(** ** Levenshtein distance *)
(** The inner loop: [diagonal] and [left] are the cell before in the old row and
    in the new one, [olds] the rest of the old row. *)
Fixpoint lev_inner (ca : Char) (b : Text) (diagonal left : nat) (olds : list nat) : list nat :=
  match b, olds with
  | cb :: b, up :: olds =>
      let substitution := (diagonal + (if (ca =? cb)%N then 0 else 1))%nat in
      let v := Nat.min (Nat.min substitution (left + 1)) (up + 1) in
      v :: lev_inner ca b up v olds
  | _, _ => []
  end.
Definition lev_row (ca : Char) (b : Text) (i : nat) (row : list nat) : list nat :=
  match row with
  | diagonal :: olds => (i + 1)%nat :: lev_inner ca b diagonal (i + 1) olds
  | [] => []
  end.
Fixpoint lev_rows (a b : Text) (i : nat) (row : list nat) : list nat :=
  match a with
  | [] => row
  | ca :: a => lev_rows a b (S i) (lev_row ca b i row)
  end.
Definition levenshtein (a b : Text) : nat := nth (length b) (lev_rows a b 0 (seq 0 (S (length b)))) 0%nat.

Definition abs_diff (a b : nat) : nat := (Nat.max a b - Nat.min a b)%nat.
(** [Iterator::min_by]: the first of the least. *)
Fixpoint min_by {A} (cmp : A -> A -> comparison) (l : list A) : option A :=
  match l with
  | [] => None
  | x :: l => match min_by cmp l with
              | Some y => match cmp x y with Gt => Some y | _ => Some x end
              | None => Some x
              end
  end.
(** [Ordering::then]. *)
Definition cmp_then (a b : comparison) : comparison := match a with Eq => b | _ => a end.

Section unicode.
Context `{Unicode}.

(** ** Words *)
Record Word := mkWord { wd_start : nat; wd_end : nat }.
Definition is_word_char (c : Char) : bool := is_alphanumeric c || (c =? APOSTROPHE).

Fixpoint words_from (i : nat) (start : option nat) (text : Text) : list Word :=
  match text with
  | [] => match start with Some s => [mkWord s i] | None => [] end
  | c :: text =>
      match is_word_char c, start with
      | true, None => words_from (S i) (Some i) text
      | false, Some s => mkWord s i :: words_from (S i) None text
      | _, _ => words_from (S i) start text
      end
  end.
Definition words (text : Text) : list Word := words_from 0 None text.
(** [text[w.start..w.end]]. *)
Definition slice (text : Text) (w : Word) : Text := take (wd_end w - wd_start w) (drop (wd_start w) text).

Fixpoint trim_start_matches (p : Char -> bool) (text : Text) : Text :=
  match text with
  | c :: rest => if p c then trim_start_matches p rest else text
  | [] => []
  end.
Definition trim_matches (p : Char -> bool) (text : Text) : Text :=
  rev (trim_start_matches p (rev (trim_start_matches p text))).
Definition trim (text : Text) : Text := trim_matches is_whitespace text.

Definition normalize_word (out : Text) (word : Text) : Text :=
  let word := trim_matches (fun c => c =? APOSTROPHE) word in
  match word with
  | [] => out
  | _ => (match out with [] => out | _ => out ++ [SPACE] end) ++ mjoin (char_lower <$> word)
  end.
Definition normalize (text : Text) : Text := foldl normalize_word [] (slice text <$> words text).

(** ** The re-check *)
Fixpoint starts_with (text prefix : Text) {struct prefix} : bool :=
  match prefix, text with
  | [], _ => true
  | c :: prefix, d :: text => (c =? d) && starts_with text prefix
  | _ :: _, [] => false
  end.
Definition lower_words (text : Text) : list Text := (fun w => str_lower (slice text w)) <$> words text.
Definition split_last {A} (l : list A) : option (A * list A) :=
  match rev l with x :: head => Some (x, rev head) | [] => None end.
Definition recheck_differs (committed rechecked : Text) : bool :=
  let before := lower_words committed in
  let after := lower_words rechecked in
  if bool_decide (before = after) then false
  else
    match split_last before, split_last after with
    | Some (last_before, head_before), Some (last_after, head_after) =>
        negb (bool_decide (head_before = head_after)
              && (length last_before <? length last_after)%nat && starts_with last_after last_before)
    | _, _ => true
    end.

(** ** The wake-word check *)
Definition letters (s : Text) : Text := mjoin (char_lower <$> retain is_alphabetic s).

(** [letters.windows(len)], for [len > 0]. *)
Fixpoint windows (len : nat) (l : Text) : list Text :=
  match l with
  | [] => []
  | _ :: rest => if (length l <? len)%nat then [] else take len l :: windows len rest
  end.
Definition best_distance (core : Text) (best : option nat) (window : Text) : option nat :=
  let d := levenshtein window core in
  Some (match best with Some b => Nat.min b d | None => d end).
Fixpoint verify_lengths (heard core : Text) (best : option nat) (lens : list nat) : option nat :=
  match lens with
  | [] => best
  | len :: lens =>
      if (length heard <? len)%nat then best
      else verify_lengths heard core (foldl (best_distance core) best (windows len heard)) lens
  end.
(** The distance in edits; [verification_distance] divides it by the core's length. *)
Definition verification_edits (transcript core : Text) : option nat :=
  let core := letters core in
  match core with
  | [] => None
  | _ =>
      let n := length core in
      let first := Nat.max (n - 1) 1 in
      verify_lengths (letters transcript) core None (seq first (n + 2 - first))
  end.
Definition f64_of_nat (n : nat) : F64 := f64_of_Z (Z.of_nat n).
Definition verification_distance (transcript core : Text) : option F64 :=
  (fun d => f64_div (f64_of_nat d) (f64_of_nat (length (letters core)))) <$> verification_edits transcript core.
Definition verification_passes (transcript core : Text) : bool :=
  match verification_distance transcript core with Some d => f64_leb d VERIFY_PASS_MAX | None => false end.

(** ** Windows of the wake phrase *)
Record PhraseWindow := mkWindow { pw_start : nat; pw_end : nat; pw_distance : F64 }.

(** [PhraseMatcher::distance] of words [start, end). *)
Definition phrase_distance (phrase text : Text) (ws : list Word) (start end_ : nat) : F64 :=
  let phrase := letters phrase in
  let heard := mjoin ((fun w => letters (slice text w)) <$> take (end_ - start) (drop start ws)) in
  let longest := Nat.max (length heard) (length phrase) in
  if (longest =? 0)%nat then f64_of_nat 1
  else f64_div (f64_of_nat (levenshtein heard phrase)) (f64_of_nat longest).
Definition phrase_matches (phrase text : Text) (ws : list Word) (start end_ : nat) : bool :=
  (start <? end_)%nat && f64_leb (phrase_distance phrase text ws start end_) PHRASE_MATCH_MAX.
Definition minimal_window (phrase text : Text) (ws : list Word) (start len : nat) : option PhraseWindow :=
  let end_ := (start + len)%nat in
  let distance := phrase_distance phrase text ws start end_ in
  if f64_ltb PHRASE_MATCH_MAX distance then None
  else if phrase_matches phrase text ws (start + 1) end_ || phrase_matches phrase text ws start (end_ - 1) then None
  else Some (mkWindow start end_ distance).
Definition minimal_windows (phrase text : Text) (ws : list Word) : list PhraseWindow :=
  mjoin ((fun start => omap (minimal_window phrase text ws start)
                         (seq 1 (Nat.min MAX_WINDOW_WORDS (length ws - start)))) <$> seq 0 (length ws)).

(** ** The streaming transcript *)
Record TimedTranscript := mkTimed { tt_text : Text; tt_words : list Word; tt_last_emitted : list Sample }.

(** Where each token starts, and its emission. *)
Fixpoint token_starts (offset : nat) (tokens : list Token) : list (nat * Sample) :=
  match tokens with
  | [] => []
  | t :: tokens => (offset, tk_emitted t) :: token_starts (offset + length (tk_text t)) tokens
  end.
Definition from_tokens (tokens : list Token) : TimedTranscript :=
  let text := mjoin (tk_text <$> tokens) in
  let starts := token_starts 0 tokens in
  let ws := words text in
  let emitted w :=
    let i := partition_point (fun s => s.1 <=? (wd_end w - 1))%nat starts in
    snd (nth (i - 1) starts (0%nat, 0)) in
  mkTimed text ws (emitted <$> ws).

Record StreamingWake := mkStreamingWake { sw_window : option PhraseWindow; sw_position : nat; sw_words_after : nat }.
Definition locate_in_streaming (t : TimedTranscript) (lookahead_end : Sample) (phrase : Text) : StreamingWake :=
  let in_time w := nth (pw_end w - 1) (tt_last_emitted t) 0 <=? lookahead_end in
  let window :=
    min_by (fun a b => cmp_then (f64_total_cmp (pw_distance a) (pw_distance b)) (Nat.compare (pw_start a) (pw_start b)))
      (retain in_time (minimal_windows phrase (tt_text t) (tt_words t))) in
  mkStreamingWake window
    (match window with Some w => pw_start w | None => 0%nat end)
    (match window with Some w => (length (tt_words t) - pw_end w)%nat | None => length (tt_words t) end).

(** ** Removing the phrase *)
Inductive StripRule := Sr_Near | Sr_WordCount | Sr_Unchanged.
Record Stripped := mkStripped { sp_text : Text; sp_window : option PhraseWindow; sp_rule : StripRule }.

Definition keep_from (text : Text) (last : Word) : nat :=
  match position is_alphanumeric (drop (wd_end last) text) with
  | Some i => (wd_end last + i)%nat
  | None => length text
  end.
Definition cut_after (text : Text) (ws : list Word) (w : PhraseWindow) : Text :=
  drop (keep_from text (nth (pw_end w - 1) ws (mkWord 0 0))) text.

Definition strip_final (final_text : Text) (streaming : StreamingWake) (phrase : Text) : Stripped :=
  let ws := words final_text in
  let found := minimal_windows phrase final_text ws in
  let s := sw_position streaming in
  let near :=
    min_by (fun a b =>
        cmp_then (cmp_then (f64_total_cmp (pw_distance a) (pw_distance b))
                    (Nat.compare (abs_diff (pw_start a) s) (abs_diff (pw_start b) s)))
          (Nat.compare (pw_start a) (pw_start b)))
      (retain (fun w => pw_start w <=? s + 1)%nat found) in
  let '(window, rule) :=
    match near with
    | Some w => (Some w, Sr_Near)
    | None =>
        let nk := sw_words_after streaming in
        let by_count :=
          min_by (fun a b =>
              cmp_then (cmp_then (Nat.compare (snd a) (snd b)) (Nat.compare (pw_start (fst a)) (pw_start (fst b))))
                (f64_total_cmp (pw_distance (fst a)) (pw_distance (fst b))))
            ((fun w => (w, abs_diff (length ws - pw_end w) nk)) <$> found) in
        match by_count with
        | Some (w, d) => if (d <=? WORD_COUNT_SLACK)%nat then (Some w, Sr_WordCount) else (None, Sr_Unchanged)
        | None => (None, Sr_Unchanged)
        end
    end in
  mkStripped (match window with Some w => cut_after final_text ws w | None => final_text end) window rule.

Definition cut_streaming (t : TimedTranscript) (wake : StreamingWake) : Text :=
  match sw_window wake with
  | Some w => normalize (cut_after (tt_text t) (tt_words t) w)
  | None => normalize (tt_text t)
  end.
End unicode.

(** *** The ASCII part of the tables *)
Definition ascii_digit (c : Char) : bool := (48 <=? c) && (c <=? 57).
Definition ascii_letter (c : Char) : bool := ((65 <=? c) && (c <=? 90)) || ((97 <=? c) && (c <=? 122)).
Definition ascii_lower (c : Char) : Char := if (65 <=? c) && (c <=? 90) then c + 32 else c.
Definition ascii : Unicode := {|
  is_alphanumeric c := ascii_letter c || ascii_digit c;
  is_alphabetic := ascii_letter;
  is_whitespace c := (c =? 32) || ((9 <=? c) && (c <=? 13));
  char_lower c := [ascii_lower c];
  str_lower s := ascii_lower <$> s;
|}.
Definition text_of (s : string) : Text := Ascii.N_of_ascii <$> String.list_ascii_of_string s.

Example kitten : levenshtein (text_of "kitten") (text_of "sitting") = 3%nat.
Proof. vm_compute. reflexivity. Qed.
Example normalized : @normalize ascii (text_of "Set a 'three-minute' Timer, don't.") = text_of "set a three minute timer don't".
Proof. vm_compute. reflexivity. Qed.
Example verified : @verification_passes ascii (text_of "Ofelia.") (text_of "ophel") = true.
Proof. vm_compute. reflexivity. Qed.
Example stripped_near :
  sp_text (@strip_final ascii (text_of "Ophelia, turn on the lights.")
             (@locate_in_streaming ascii (@from_tokens ascii [mkToken (text_of " ofelia") 10; mkToken (text_of " turn") 20]) 15
                (text_of "ophelia")) (text_of "ophelia")) = text_of "turn on the lights.".
Proof. vm_compute. reflexivity. Qed.

(** ** The distance is the edit distance *)
(** [edits n a b]: [n] insertions, deletions and substitutions of one character
    turn [a] into [b]. *)
Inductive edits : nat -> Text -> Text -> Prop :=
  | edits_nil : edits 0 [] []
  | edits_keep n x a b : edits n a b -> edits n (x :: a) (x :: b)
  | edits_substitute n x y a b : edits n a b -> edits (S n) (x :: a) (y :: b)
  | edits_delete n x a b : edits n a b -> edits (S n) (x :: a) b
  | edits_insert n y a b : edits n a b -> edits (S n) a (y :: b).

(** The recurrence of the distance, from the front. *)
Fixpoint distance (a : Text) : Text -> nat :=
  match a with
  | [] => length
  | x :: a =>
      fix go (b : Text) : nat :=
        match b with
        | [] => S (length a)
        | y :: b' =>
            Nat.min (Nat.min (distance a b' + (if (x =? y)%N then 0 else 1)) (distance a b + 1)) (go b' + 1)
        end
  end.
Lemma distance_cons x a y b :
  distance (x :: a) (y :: b) =
    Nat.min (Nat.min (distance a b + (if (x =? y)%N then 0 else 1)) (distance a (y :: b) + 1)) (distance (x :: a) b + 1).
Proof. done. Qed.
Lemma distance_nil_r a : distance a [] = length a.
Proof. by destruct a. Qed.

Lemma edits_insert_all b : edits (length b) [] b.
Proof. induction b; by constructor. Qed.
Lemma edits_delete_all a : edits (length a) a [].
Proof. induction a; by constructor. Qed.

Lemma distance_edits a b : edits (distance a b) a b.
Proof.
  revert b. induction a as [|x a IHa]; intros b; [apply edits_insert_all|].
  induction b as [|y b IHb]; [apply (edits_delete_all (x :: a))|]. rewrite distance_cons.
  destruct (Nat.min_spec (Nat.min (distance a b + (if x =? y then 0 else 1)) (distance a (y :: b) + 1)) (distance (x :: a) b + 1))
    as [[_ ->]|[_ ->]].
  - destruct (Nat.min_spec (distance a b + (if x =? y then 0 else 1)) (distance a (y :: b) + 1)) as [[_ ->]|[_ ->]].
    + destruct (N.eqb_spec x y) as [->|].
      * rewrite Nat.add_0_r. by constructor.
      * rewrite Nat.add_1_r. by constructor.
    + rewrite Nat.add_1_r. by apply edits_delete.
  - rewrite Nat.add_1_r. by apply edits_insert.
Qed.

Lemma distance_delete x a b : (distance (x :: a) b <= distance a b + 1)%nat.
Proof. destruct b as [|y b]; [rewrite !distance_nil_r; cbn; lia|]. rewrite distance_cons. lia. Qed.
Lemma distance_insert y a b : (distance a (y :: b) <= distance a b + 1)%nat.
Proof. destruct a as [|x a]; [cbn; lia|]. rewrite distance_cons. lia. Qed.
Lemma distance_least n a b : edits n a b -> (distance a b <= n)%nat.
Proof.
  induction 1 as [|n x a b _ IH|n x y a b _ IH|n x a b _ IH|n y a b _ IH]; [done|..].
  - rewrite distance_cons, N.eqb_refl. lia.
  - rewrite distance_cons. destruct (x =? y); lia.
  - pose proof (distance_delete x a b). lia.
  - pose proof (distance_insert y a b). lia.
Qed.

Lemma edits_snoc_keep n a b x : edits n a b -> edits n (a ++ [x]) (b ++ [x]).
Proof. induction 1; cbn; try by constructor. constructor. constructor. Qed.
Lemma edits_snoc_substitute n a b x y : edits n a b -> edits (S n) (a ++ [x]) (b ++ [y]).
Proof. induction 1; cbn; try by constructor. do 2 constructor. Qed.
Lemma edits_snoc_delete n a b x : edits n a b -> edits (S n) (a ++ [x]) b.
Proof. induction 1; cbn; try by constructor. apply edits_delete. constructor. Qed.
Lemma edits_snoc_insert n a b y : edits n a b -> edits (S n) a (b ++ [y]).
Proof. induction 1; cbn; try by constructor. apply edits_insert. constructor. Qed.
Lemma edits_rev n a b : edits n a b -> edits n (rev a) (rev b).
Proof.
  induction 1; cbn; [constructor|by apply edits_snoc_keep|by apply edits_snoc_substitute|by apply edits_snoc_delete|
    by apply edits_snoc_insert].
Qed.
Lemma distance_rev a b : distance (rev a) (rev b) = distance a b.
Proof.
  apply Nat.le_antisymm; apply distance_least.
  - apply edits_rev, distance_edits.
  - rewrite <- (rev_involutive a), <- (rev_involutive b) at 2. apply edits_rev, distance_edits.
Qed.

(** The row after the reversed prefix [ra], beyond the reversed prefix [rb]. *)
Fixpoint row_after (ra rb b : Text) : list nat :=
  match b with [] => [] | c :: b => distance ra (c :: rb) :: row_after ra (c :: rb) b end.

Lemma lev_inner_row ca ra rb b :
  lev_inner ca b (distance ra rb) (distance (ca :: ra) rb) (row_after ra rb b) = row_after (ca :: ra) rb b.
Proof.
  revert rb. induction b as [|cb b IH]; intros rb; [done|]. cbn [lev_inner row_after].
  assert (Hv : Nat.min (Nat.min (distance ra rb + (if ca =? cb then 0 else 1)) (distance (ca :: ra) rb + 1))
      (distance ra (cb :: rb) + 1) = distance (ca :: ra) (cb :: rb)) by (rewrite distance_cons; lia).
  rewrite Hv. f_equal. apply IH.
Qed.
Lemma lev_rows_spec a b ra :
  lev_rows a b (length ra) (distance ra [] :: row_after ra [] b) =
    distance (rev a ++ ra) [] :: row_after (rev a ++ ra) [] b.
Proof.
  revert ra. induction a as [|ca a IH]; intros ra; [done|]. cbn [lev_rows lev_row rev].
  replace (length ra + 1)%nat with (distance (ca :: ra) []) by (cbn; lia). rewrite lev_inner_row.
  change (S (length ra)) with (length (ca :: ra)). rewrite <- app_assoc. by rewrite IH.
Qed.
Lemma row_after_nil rb b : row_after [] rb b = seq (S (length rb)) (length b).
Proof. revert rb. induction b as [|c b IH]; intros rb; [done|]. cbn. by rewrite IH. Qed.
Lemma row_after_last ra rb b :
  nth (length b) (distance ra rb :: row_after ra rb b) 0%nat = distance ra (rev b ++ rb).
Proof. revert rb. induction b as [|c b IH]; intros rb; [done|]. cbn [length row_after nth rev]. rewrite <- app_assoc. apply (IH (c :: rb)). Qed.
Lemma levenshtein_distance a b : levenshtein a b = distance a b.
Proof.
  unfold levenshtein. rewrite <- (distance_rev a b).
  assert (H0 : seq 0 (S (length b)) = distance [] [] :: row_after [] [] b) by (by rewrite row_after_nil).
  rewrite H0. pose proof (lev_rows_spec a b []) as H1. cbn [length] in H1. rewrite H1.
  by rewrite row_after_last, !app_nil_r.
Qed.

(** The distance the text rules measure is the edit distance: the transcript can be
    turned into the phrase with that many insertions, deletions and substitutions of
    one character, and with no fewer. *)
Theorem levenshtein_is_edit_distance a b :
  edits (levenshtein a b) a b /\ forall n, edits n a b -> (levenshtein a b <= n)%nat.
Proof. rewrite levenshtein_distance. split; [apply distance_edits|intros n; apply distance_least]. Qed.

(** ** The wake-word check *)
Section verification.
Context `{Unicode}.

(** [s] stands in [l] as it is. *)
Definition substring (s l : Text) : Prop := exists before after_, l = before ++ s ++ after_.

Lemma windows_spec len l s : (0 < len)%nat -> s ∈ windows len l <-> length s = len /\ substring s l.
Proof.
  intros Hlen. induction l as [|c l IH]; cbn [windows].
  - split; [by intros ?%not_elem_of_nil|]. intros [<- (before & after_ & Heq)]. apply (f_equal length) in Heq.
    rewrite !length_app in Heq. cbn in Heq. lia.
  - destruct (Nat.ltb_spec (length (c :: l)) len) as [Hlt|Hge].
    + split; [by intros ?%not_elem_of_nil|]. intros [<- (before & after_ & Heq)]. apply (f_equal length) in Heq.
      rewrite !length_app in Heq. lia.
    + rewrite elem_of_cons, IH. split.
      * intros [->|[<- (before & after_ & ->)]].
        -- split; [rewrite length_take; lia|]. exists [], (drop len (c :: l)). by rewrite take_drop.
        -- split; [done|]. by exists (c :: before), after_.
      * intros [<- (before & after_ & Heq)]. destruct before as [|d before]; cbn in Heq.
        -- left. rewrite Heq, take_app_length. done.
        -- right. split; [done|]. injection Heq as -> ->. by exists before, after_.
Qed.

Definition least_of (best : option nat) (ds : list nat) (r : option nat) : Prop :=
  match r with
  | None => best = None /\ ds = []
  | Some d => (best = Some d \/ d ∈ ds) /\ (forall b, best = Some b -> d <= b)%nat /\ (forall d', d' ∈ ds -> d <= d')%nat
  end.
Lemma least_of_fold core best ws :
  least_of best ((fun w => levenshtein w core) <$> ws) (foldl (best_distance core) best ws).
Proof.
  revert best. induction ws as [|w ws IH]; intros best; cbn [foldl fmap list_fmap].
  - destruct best; cbn; [|done]. split_and!; [by left|intros ? [= <-]; lia|by intros ? ?%not_elem_of_nil].
  - specialize (IH (best_distance core best w)). destruct (foldl _ _ ws) as [d|]; cbn in *.
    + destruct IH as (Hin & Hb & Hds). specialize (Hb _ eq_refl). rewrite elem_of_cons. split_and!.
      * destruct Hin as [[= <-]|?]; [|by right; right]. destruct best as [b|]; [|by right; left].
        destruct (Nat.min_spec b (levenshtein w core)) as [[_ ->]|[_ ->]]; [by left|by right; left].
      * intros b ->. lia.
      * intros d' [->|?]%elem_of_cons; [destruct best; lia|auto].
    + by destruct IH.
Qed.
Lemma least_of_app best ds1 ds2 r1 r :
  least_of best ds1 r1 -> least_of r1 ds2 r -> least_of best (ds1 ++ ds2) r.
Proof.
  unfold least_of. destruct r as [d|].
  - intros H1 (Hin & Hle & Hds). setoid_rewrite elem_of_app. destruct r1 as [d1|].
    + destruct H1 as (Hin1 & Hle1 & Hds1). specialize (Hle _ eq_refl). split_and!.
      * destruct Hin as [[= ->]|]; [destruct Hin1|]; auto.
      * intros b Hb. specialize (Hle1 b Hb). lia.
      * intros d' [Hd|Hd]; [specialize (Hds1 _ Hd); lia|auto].
    + destruct H1 as [-> ->]. destruct Hin as [|Hin]; [done|]. split_and!; [auto|done|].
      intros d' [?%not_elem_of_nil|?]; [done|auto].
  - intros H1 [-> ->]. by rewrite app_nil_r.
Qed.

(** The substrings the check looks at. *)
Definition candidate (heard core s : Text) : Prop :=
  substring s heard /\ s <> [] /\ (length core - 1 <= length s <= length core + 1)%nat.

Lemma substring_length s l : substring s l -> (length s <= length l)%nat.
Proof. intros (before & after_ & ->). rewrite !length_app. lia. Qed.

Lemma verify_lengths_spec heard core best first n :
  (0 < first)%nat ->
  exists ds, least_of best ds (verify_lengths heard core best (seq first n)) /\
    forall d, d ∈ ds <-> exists s, substring s heard /\ (first <= length s < first + n)%nat /\ d = levenshtein s core.
Proof.
  revert first best. induction n as [|n IH]; intros first best Hpos; cbn [seq verify_lengths].
  - exists []. split; [|intros d; split; [by intros ?%not_elem_of_nil|intros (s & _ & ? & _); lia]].
    destruct best; cbn; [|done]. split_and!; [by left|intros ? [= <-]; lia|by intros ? ?%not_elem_of_nil].
  - destruct (Nat.ltb_spec (length heard) first) as [Hlt|Hge].
    + exists []. split; [|intros d; split; [by intros ?%not_elem_of_nil|]].
      * destruct best; cbn; [|done]. split_and!; [by left|intros ? [= <-]; lia|by intros ? ?%not_elem_of_nil].
      * intros (s & Hs%substring_length & ? & _). lia.
    + pose proof (least_of_fold core best (windows first heard)) as H0.
      destruct (IH (S first) (foldl (best_distance core) best (windows first heard)) ltac:(lia)) as (ds & Hds & Hin).
      eexists. split; [by eapply least_of_app|]. intros d. rewrite elem_of_app, Hin. split.
      * intros [Hd|(s & Hs & Hl & ->)]; [|exists s; split_and!; try done; lia].
        apply list_elem_of_fmap in Hd as (s & -> & Hs). apply windows_spec in Hs as [Hl Hs]; [|done].
        exists s. split_and!; try done; lia.
      * intros (s & Hs & Hl & ->). destruct (decide (length s = first)).
        -- left. apply list_elem_of_fmap. exists s. split; [done|]. by apply windows_spec.
        -- right. exists s. split_and!; try done; lia.
Qed.

Lemma verification_edits_least transcript core :
  letters core <> [] ->
  match verification_edits transcript core with
  | Some d =>
      (exists s, candidate (letters transcript) (letters core) s /\ d = levenshtein s (letters core)) /\
      (forall s, candidate (letters transcript) (letters core) s -> d <= levenshtein s (letters core))%nat
  | None => forall s, ~ candidate (letters transcript) (letters core) s
  end.
Proof.
  intros Hne. unfold verification_edits. destruct (letters core) as [|c l] eqn:E; [done|]. rewrite <- E in *.
  set (n := length (letters core)). assert (Hn : (0 < n)%nat) by (unfold n; rewrite E; cbn; lia).
  destruct (verify_lengths_spec (letters transcript) (letters core) None (Nat.max (n - 1) 1) (n + 2 - Nat.max (n - 1) 1) ltac:(lia))
    as (ds & Hleast & Hds).
  assert (Hcand : forall s, candidate (letters transcript) (letters core) s <->
    substring s (letters transcript) /\ (Nat.max (n - 1) 1 <= length s < Nat.max (n - 1) 1 + (n + 2 - Nat.max (n - 1) 1))%nat).
  { intros s. unfold candidate. fold n. destruct s; cbn [length]; (split; [intros (? & ? & ?)|intros [? ?]]; split_and!); try done; lia. }
  destruct (verify_lengths _ _ _ _) as [d|]; cbn in Hleast.
  - destruct Hleast as (Hin & _ & Hle). split.
    + destruct Hin as [|Hin]; [done|]. apply Hds in Hin as (s & Hs & Hl & ->). exists s. split; [|done]. by apply Hcand.
    + intros s Hs. apply Hle, Hds. apply Hcand in Hs as [? ?]. eauto.
  - destruct Hleast as [_ ->]. intros s Hs. apply Hcand in Hs as [? ?].
    eapply not_elem_of_nil, Hds. eauto.
Qed.

Lemma distance_le_longer a b : (distance a b <= Nat.max (length a) (length b))%nat.
Proof.
  revert b. induction a as [|x a IH]; intros b; [cbn; lia|]. destruct b as [|y b]; [cbn; lia|].
  rewrite distance_cons. specialize (IH b). cbn [length]. destruct (x =? y); lia.
Qed.

(** The threshold in whole numbers, for cores of any length a wake word has. *)
Definition passes_exactly (n d : nat) : bool :=
  Bool.eqb (f64_leb (f64_div (f64_of_nat d) (f64_of_nat n)) VERIFY_PASS_MAX) (5 * d <=? 2 * n)%nat.
Lemma passes_exactly_upto n d :
  (0 < n <= 48)%nat -> (d <= n + 1)%nat ->
  f64_leb (f64_div (f64_of_nat d) (f64_of_nat n)) VERIFY_PASS_MAX = true <-> (5 * d <= 2 * n)%nat.
Proof.
  intros Hn Hd. assert (H0 : forallb (fun n => forallb (passes_exactly n) (seq 0 (n + 2))) (seq 1 48) = true)
    by (vm_compute; reflexivity).
  rewrite forallb_forall in H0. specialize (H0 n ltac:(apply in_seq; lia)). rewrite forallb_forall in H0.
  specialize (H0 d ltac:(apply in_seq; lia)). apply Bool.eqb_prop in H0. rewrite H0. apply Nat.leb_le.
Qed.

(** The verifier hears the wake word exactly when some stretch of the transcript's
    letters, within one letter of the core's length, is at most two edits in five
    letters away from it; an empty transcript never passes. *)
Theorem verification_passes_iff transcript core :
  (0 < length (letters core) <= 48)%nat ->
  verification_passes transcript core = true <->
  exists s n, candidate (letters transcript) (letters core) s /\ edits n s (letters core) /\
    (5 * n <= 2 * length (letters core))%nat.
Proof.
  intros Hn. pose proof (verification_edits_least transcript core) as H0.
  unfold verification_passes, verification_distance. destruct (verification_edits transcript core) as [d|]; cbn [fmap option_fmap option_map].
  - destruct H0 as [(s & Hs & ->) Hle]; [by intros Heq; rewrite Heq in Hn; cbn in Hn; lia|].
    assert (Hd : (levenshtein s (letters core) <= length (letters core) + 1)%nat).
    { rewrite levenshtein_distance. pose proof (distance_le_longer s (letters core)). destruct Hs as (_ & _ & ?). lia. }
    rewrite passes_exactly_upto by lia. split.
    + intros H5. exists s, (levenshtein s (letters core)). split_and!; [done| |done].
      rewrite levenshtein_distance. apply distance_edits.
    + intros (s' & n & Hs' & He & H5). specialize (Hle s' Hs'). apply distance_least in He.
      rewrite !levenshtein_distance in *. lia.
  - split; [done|]. intros (s & n & Hs & _). exfalso. eapply H0; [|done].
    intros Heq. rewrite Heq in Hn. cbn in Hn. lia.
Qed.
End verification.

Lemma verification_passes_iff_witness :
  (0 < length (@letters ascii (text_of "ophel")) <= 48)%nat /\
  exists s n, candidate (@letters ascii (text_of "Pophili")) (@letters ascii (text_of "ophel")) s /\
    edits n s (@letters ascii (text_of "ophel")) /\ (5 * n <= 2 * length (@letters ascii (text_of "ophel")))%nat.
Proof.
  split; [vm_compute; lia|].
  apply (@verification_passes_iff ascii (text_of "Pophili") (text_of "ophel")).
  - vm_compute. lia.
  - vm_compute. reflexivity.
Defined.

(** ** Words are the maximal runs *)
Section word_runs.
Context `{Unicode}.

Definition word_char_at (text : Text) (i : nat) : Prop := exists c, text !! i = Some c /\ is_word_char c = true.
Definition maximal_run (text : Text) (w : Word) : Prop :=
  (wd_start w < wd_end w)%nat /\
  (forall i, wd_start w <= i < wd_end w -> word_char_at text i)%nat /\
  (forall i, wd_start w = S i -> ~ word_char_at text i) /\
  ~ word_char_at text (wd_end w).

(** What [words_from] has seen: [before], and the run it ends in. *)
Definition seen_start (before : Text) (start : option nat) : Prop :=
  match start with
  | None => forall i, length before = S i -> ~ word_char_at before i
  | Some s =>
      (s < length before)%nat /\ (forall i, s <= i < length before -> word_char_at before i)%nat /\
      (forall i, s = S i -> ~ word_char_at before i)
  end.

Lemma word_char_at_lt text i : word_char_at text i -> (i < length text)%nat.
Proof. intros (c & Hc & _). by eapply lookup_lt_Some. Qed.
Lemma word_char_at_app_l before text i :
  (i < length before)%nat -> word_char_at (before ++ text) i <-> word_char_at before i.
Proof. intros Hi. unfold word_char_at. by rewrite lookup_app_l. Qed.
Lemma word_char_at_snoc before c text :
  word_char_at (before ++ c :: text) (length before) <-> is_word_char c = true.
Proof.
  unfold word_char_at. rewrite list_lookup_middle by done. split; [by intros (d & [= <-] & ?)|eauto].
Qed.

Lemma word_char_at_snoc_iff before c i :
  word_char_at (before ++ [c]) i <-> word_char_at before i \/ i = length before /\ is_word_char c = true.
Proof.
  unfold word_char_at. setoid_rewrite lookup_snoc_Some. split.
  - intros (d & [[_ Hd]|[-> <-]] & Hw); [left|right]; eauto.
  - intros [(d & Hd & Hw)|[-> Hw]]; [|eauto]. pose proof (lookup_lt_Some _ _ _ Hd). eauto 6.
Qed.

(** The runs that end at [length before] or later. *)
Lemma run_ends_here before c text s w :
  seen_start before (Some s) -> is_word_char c = false ->
  maximal_run (before ++ c :: text) w /\ (length before <= wd_end w)%nat <->
  w = mkWord s (length before) \/ maximal_run (before ++ c :: text) w /\ (S (length before) <= wd_end w)%nat.
Proof.
  intros (Hs & Hrun & Hfirst) Hc.
  assert (Hhere : ~ word_char_at (before ++ c :: text) (length before)) by (rewrite word_char_at_snoc; congruence).
  split.
  - intros [[H1 [H2 [H3 H4]]] He]. destruct (decide (wd_end w = length before)) as [Heq|]; [left|right; split; [done|lia]].
    destruct w as [ws we]. cbn in *. subst we. f_equal. destruct (Nat.lt_trichotomy ws s) as [Hlt|[?|Hlt]]; [exfalso|done|exfalso].
    + destruct s as [|s]; [lia|]. apply (Hfirst s eq_refl). rewrite <- (word_char_at_app_l _ (c :: text)) by lia. apply H2. lia.
    + destruct ws as [|ws]; [lia|]. apply (H3 ws eq_refl). rewrite word_char_at_app_l by lia. apply Hrun. lia.
  - intros [->|[? ?]]; [|split; [done|lia]]. split; [|cbn; lia]. split_and!; cbn; [done| | |done].
    + intros i Hi. rewrite word_char_at_app_l by lia. by apply Hrun.
    + intros i ->. rewrite word_char_at_app_l by lia. by apply Hfirst.
Qed.

Lemma words_at_end before start w :
  seen_start before start ->
  w ∈ words_from (length before) start [] <-> maximal_run before w /\ (length before <= wd_end w)%nat.
Proof.
  intros Hs. cbn [words_from]. split.
  - destruct start as [s|]; [|by intros ?%not_elem_of_nil]. intros ->%list_elem_of_singleton.
    destruct Hs as (H1 & H2 & H3). unfold maximal_run. split_and!; cbn; try done; try lia. intros ?%word_char_at_lt; lia.
  - intros [(H1 & H2 & H3 & H4) He]. assert (Heq : wd_end w = length before).
    { assert (Hlt : word_char_at before (wd_end w - 1)) by (apply H2; lia). apply word_char_at_lt in Hlt. lia. }
    destruct start as [s|].
    + apply list_elem_of_singleton. destruct w as [ws we]. cbn in *. subst we. f_equal. destruct Hs as (Hs1 & Hs2 & Hs3).
      destruct (Nat.lt_trichotomy ws s) as [Hlt|[?|Hlt]]; [exfalso|done|exfalso].
      * destruct s as [|s]; [lia|]. apply (Hs3 s eq_refl), H2. lia.
      * destruct ws as [|ws]; [lia|]. apply (H3 ws eq_refl), Hs2. lia.
    + exfalso. destruct (length before) as [|n] eqn:En; [lia|]. apply (Hs n En), H2. lia.
Qed.

Lemma words_from_spec text before start w :
  seen_start before start ->
  w ∈ words_from (length before) start text <->
  maximal_run (before ++ text) w /\ (length before <= wd_end w)%nat.
Proof.
  revert before start. induction text as [|c text IH]; intros before start Hs; cbn [words_from].
  - rewrite app_nil_r. by apply words_at_end.
  - assert (Hnext : forall start', seen_start (before ++ [c]) start' ->
      w ∈ words_from (S (length before)) start' text <->
      maximal_run (before ++ c :: text) w /\ (S (length before) <= wd_end w)%nat).
    { intros start' Hs'. replace (S (length before)) with (length (before ++ [c])) by (rewrite length_app; cbn; lia).
      rewrite IH by done. by rewrite <- app_assoc. }
    assert (Hword : is_word_char c = true -> maximal_run (before ++ c :: text) w /\ (length before <= wd_end w)%nat <->
        maximal_run (before ++ c :: text) w /\ (S (length before) <= wd_end w)%nat).
    { intros Hc. split; intros [Hm ?]; (split; [done|]); [|lia].
      destruct (decide (wd_end w = length before)) as [Heq|]; [|lia]. exfalso. destruct Hm as (_ & _ & _ & H4).
      apply H4. rewrite Heq. by apply word_char_at_snoc. }
    destruct (is_word_char c) eqn:Ec; [rewrite Hword by done|]; destruct start as [s|]; cbn beta iota.
    + apply Hnext. destruct Hs as (H1 & H2 & H3). cbn [seen_start]. rewrite length_app. cbn [length]. split_and!; [lia| |].
      * intros i Hi. apply word_char_at_snoc_iff. destruct (decide (i = length before)); [by right|]. left. apply H2. lia.
      * intros i Heq [Hi|[-> _]]%word_char_at_snoc_iff; [by eapply H3|lia].
    + apply Hnext. cbn [seen_start]. rewrite length_app. cbn [length]. split_and!; [lia| |].
      * intros i Hi. apply word_char_at_snoc_iff. right. split; [lia|done].
      * intros i Heq [Hi|[-> _]]%word_char_at_snoc_iff; [by eapply Hs|lia].
    + rewrite elem_of_cons, (run_ends_here before c text s w Hs Ec). rewrite Hnext; [done|].
      cbn [seen_start]. rewrite length_app. cbn [length]. intros i Heq [Hi%word_char_at_lt|[_ ?]]%word_char_at_snoc_iff; [lia|congruence].
    + rewrite Hnext.
      * split; intros [Hm ?]; (split; [done|]); [lia|]. destruct (decide (wd_end w = length before)) as [Heq|]; [|lia].
        exfalso. destruct Hm as (H1 & H2 & _). destruct (length before) as [|n] eqn:En; [lia|].
        apply (Hs n En). rewrite <- (word_char_at_app_l _ (c :: text)) by lia. apply H2. lia.
      * cbn [seen_start]. rewrite length_app. cbn [length]. intros i Heq [Hi%word_char_at_lt|[_ ?]]%word_char_at_snoc_iff; [lia|congruence].
Qed.

(** The words of a text are exactly its maximal runs of letters, digits and
    apostrophes. *)
Theorem words_are_maximal_runs text w : w ∈ words text <-> maximal_run text w.
Proof.
  unfold words. change 0%nat with (length (@nil Char)). rewrite (words_from_spec text [] None w) by done.
  cbn. split; [by intros [? _]|]. intros ?. split; [done|lia].
Qed.

(** ** Removing the phrase *)
Lemma min_by_in {A} (cmp : A -> A -> comparison) l x : min_by cmp l = Some x -> x ∈ l.
Proof.
  revert x. induction l as [|y l IH]; intros x; [done|]. cbn. destruct (min_by cmp l) as [z|].
  - destruct (cmp y z); intros [= <-]; constructor; by apply IH.
  - intros [= <-]. constructor.
Qed.
Lemma min_by_None {A} (cmp : A -> A -> comparison) l : min_by cmp l = None <-> l = [].
Proof. destruct l as [|y l]; [done|]. cbn. split; [|done]. destruct (min_by cmp l); [by destruct (cmp y a)|done]. Qed.

(** A window of words that matches the phrase, and neither end of which can go. *)
Definition minimally_matches (phrase text : Text) (ws : list Word) (w : PhraseWindow) : Prop :=
  (pw_start w < pw_end w <= length ws)%nat /\ (pw_end w <= pw_start w + MAX_WINDOW_WORDS)%nat /\
  pw_distance w = phrase_distance phrase text ws (pw_start w) (pw_end w) /\
  f64_ltb PHRASE_MATCH_MAX (pw_distance w) = false /\
  phrase_matches phrase text ws (pw_start w + 1) (pw_end w) = false /\
  phrase_matches phrase text ws (pw_start w) (pw_end w - 1) = false.

Lemma minimal_windows_spec phrase text ws w :
  w ∈ minimal_windows phrase text ws <-> minimally_matches phrase text ws w.
Proof.
  unfold minimal_windows, minimally_matches. rewrite list_elem_of_join. setoid_rewrite list_elem_of_fmap. split.
  - intros (l & Hw & start & -> & Hs%elem_of_seq). apply list_elem_of_omap in Hw as (len & Hlen%elem_of_seq & Hw).
    unfold minimal_window in Hw. destruct (f64_ltb _ _) eqn:Ed; [done|]. destruct (_ || _) eqn:Em; [done|].
    injection Hw as <-. cbn. apply orb_false_iff in Em as [? ?]. unfold MAX_WINDOW_WORDS in *. split_and!; try done; lia.
  - intros (H1 & H2 & H3 & H4 & H5 & H6).
    eexists. split; [|exists (pw_start w); split; [reflexivity|apply elem_of_seq; lia]].
    apply list_elem_of_omap. exists (pw_end w - pw_start w)%nat. split; [apply elem_of_seq; unfold MAX_WINDOW_WORDS in *; lia|].
    unfold minimal_window. replace (pw_start w + (pw_end w - pw_start w))%nat with (pw_end w) by lia.
    rewrite <- H3, H4, H5, H6. by destruct w.
Qed.

Lemma position_before {A} (p : A -> bool) l i j x : position p l = Some i -> (j < i)%nat -> l !! j = Some x -> p x = false.
Proof.
  revert i j. induction l as [|y l IH]; intros i j; [done|]. cbn. destruct (p y) eqn:E; [intros [= <-]; lia|].
  destruct (position p l) as [k|]; [|done]. intros [= <-] Hj. destruct j as [|j]; cbn; [by intros [= <-]|]. apply (IH k); [done|lia].
Qed.

Lemma keep_from_spec text w :
  let k := keep_from text w in
  (forall i c, wd_end w <= i < k -> text !! i = Some c -> is_alphanumeric c = false)%nat /\
  (k < length text -> wd_end w <= k /\ exists c, text !! k = Some c /\ is_alphanumeric c = true)%nat.
Proof.
  cbv zeta. unfold keep_from. destruct (position _ _) as [n|] eqn:E.
  - pose proof (position_Some _ _ _ E) as (c & Hc & Hp). rewrite lookup_drop in Hc. split; [|intros _; split; [lia|eauto]].
    intros i d Hi Hd. eapply (position_before _ _ _ (i - wd_end w)%nat); [exact E|lia|]. rewrite lookup_drop. by replace (wd_end w + (i - wd_end w))%nat with i by lia.
  - split; [|lia]. apply position_None in E. rewrite any_false in E. intros i d Hi Hd. apply E.
    apply list_elem_of_lookup. exists (i - wd_end w)%nat. rewrite lookup_drop. by replace (wd_end w + (i - wd_end w))%nat with i by lia.
Qed.

(** Removing the wake phrase only ever cuts the front of the final transcript: what
    is sent on is a suffix of it, verbatim.  Something is removed only for a window
    of one to three words that matches the phrase and no smaller part of which does;
    it starts at most one word past where the streaming transcript had the phrase,
    or, when no match does, leaves as many words as followed it there to within two.
    The cut goes past that window's last word and the punctuation after it, and no
    further. *)
Theorem strip_final_contract final_text wake phrase :
  let r := strip_final final_text wake phrase in
  let ws := words final_text in
  let near w := (pw_start w <= sw_position wake + 1)%nat in
  (exists removed, final_text = removed ++ sp_text r) /\
  match sp_window r with
  | None =>
      sp_rule r = Sr_Unchanged /\ sp_text r = final_text /\ forall w, minimally_matches phrase final_text ws w -> ~ near w
  | Some w =>
      minimally_matches phrase final_text ws w /\
      (sp_rule r = Sr_Near /\ near w \/
       sp_rule r = Sr_WordCount /\ (forall w, minimally_matches phrase final_text ws w -> ~ near w) /\
       (abs_diff (length ws - pw_end w) (sw_words_after wake) <= WORD_COUNT_SLACK)%nat) /\
      sp_text r = cut_after final_text ws w
  end.
Proof.
  cbv zeta. unfold strip_final.
  destruct (min_by _ (retain _ _)) as [w|] eqn:Enear.
  - apply min_by_in, elem_of_retain in Enear as [Hw Hnear%Nat.leb_le]. apply minimal_windows_spec in Hw.
    cbn [sp_text sp_window sp_rule]. split; [|by split_and!; [|left|]].
    unfold cut_after. eexists. symmetry. apply take_drop.
  - apply min_by_None in Enear.
    assert (Hfar : forall w, minimally_matches phrase final_text (words final_text) w -> ~ (pw_start w <= sw_position wake + 1)%nat).
    { intros w Hw%minimal_windows_spec Hn. eapply not_elem_of_nil. rewrite <- Enear. apply elem_of_retain.
      split; [exact Hw|by apply Nat.leb_le]. }
    destruct (min_by _ (_ <$> _)) as [[w d]|] eqn:Ec; [|cbn; split; [by exists []|done]].
    apply min_by_in, list_elem_of_fmap in Ec as (w' & [= -> ->] & Hw%minimal_windows_spec).
    destruct (Nat.leb_spec (abs_diff (length (words final_text) - pw_end w') (sw_words_after wake)) WORD_COUNT_SLACK) as [Hd|Hd];
      cbn [sp_text sp_window sp_rule]; [|split; [by exists []|done]].
    split; [|by split_and!; [|right|]]. unfold cut_after. eexists. symmetry. apply take_drop.
Qed.

(** The cut after a window of a text keeps everything from the first letter or digit
    after the window's last word: what it drops after that word is separators only. *)
Theorem cut_keeps_the_rest text phrase w :
  minimally_matches phrase text (words text) w ->
  exists last, words text !! (pw_end w - 1)%nat = Some last /\
  exists separators rest, drop (wd_end last) text = separators ++ rest /\ cut_after text (words text) w = rest /\
    Forall (fun c => is_alphanumeric c = false) separators /\
    match rest with [] => True | c :: _ => is_alphanumeric c = true end.
Proof.
  intros ((H1 & H2) & _). destruct (lookup_lt_is_Some_2 (words text) (pw_end w - 1)) as [last Hl]; [lia|].
  exists last. split; [done|]. pose proof (keep_from_spec text last) as [Hsep Hrest].
  set (k := keep_from text last) in *.
  assert (Hk : (wd_end last <= k)%nat).
  { destruct (decide (k < length text)%nat) as [Hlt|Hge]; [by apply Hrest in Hlt as [? _]|].
    apply list_elem_of_lookup_2, words_are_maximal_runs in Hl as (Ha & Hb & _).
    destruct (word_char_at_lt text (wd_end last - 1)); [|lia..]. apply Hb. lia. }
  exists (take (k - wd_end last) (drop (wd_end last) text)), (drop k text). split_and!.
  - rewrite <- (take_drop (k - wd_end last) (drop (wd_end last) text)) at 1. rewrite drop_drop.
    by replace (wd_end last + (k - wd_end last))%nat with k by lia.
  - unfold cut_after. by rewrite (nth_lookup_Some _ _ _ _ Hl).
  - apply Forall_lookup_2. intros i c Hi. apply lookup_take_Some in Hi as [Hi Hlt]. rewrite lookup_drop in Hi.
    eapply Hsep; [|exact Hi]. lia.
  - destruct (decide (k < length text)%nat) as [Hlt|Hge].
    + apply Hrest in Hlt as (_ & c & Hc & Hal). by rewrite (drop_S _ _ _ Hc).
    + by rewrite drop_ge by lia.
Qed.
End word_runs.

(** ** The re-check *)
Lemma starts_with_iff text prefix : starts_with text prefix = true <-> exists rest, text = prefix ++ rest.
Proof.
  revert text. induction prefix as [|c prefix IH]; intros text; cbn.
  { split; [intros _; by exists text|done]. }
  destruct text as [|d text]; [split; [done|by intros [? ?]]|]. rewrite andb_true_iff, N.eqb_eq, IH. split.
  - intros [-> [rest ->]]. eauto.
  - intros [rest [= -> ->]]. eauto.
Qed.
Lemma split_last_spec {A} (l : list A) :
  match split_last l with Some (x, head) => l = head ++ [x] | None => l = [] end.
Proof.
  unfold split_last. destruct l as [|x l _] using rev_ind; [done|]. by rewrite rev_unit, rev_involutive.
Qed.

(** A re-check agrees with the committed text exactly when it heard the same words
    or the same words but for the last, which it completes. *)
Theorem recheck_agrees_iff `{Unicode} committed rechecked :
  recheck_differs committed rechecked = false <->
  lower_words committed = lower_words rechecked \/
  exists head word completion, completion <> [] /\
    lower_words committed = head ++ [word] /\ lower_words rechecked = head ++ [word ++ completion].
Proof.
  unfold recheck_differs. destruct (bool_decide_reflect (lower_words committed = lower_words rechecked)) as [Heq|Heq]; [by split; [left|]|].
  pose proof (split_last_spec (lower_words committed)) as H1. pose proof (split_last_spec (lower_words rechecked)) as H2.
  destruct (split_last (lower_words committed)) as [[a ha]|];
    [destruct (split_last (lower_words rechecked)) as [[b hb]|]|].
  - rewrite negb_false_iff, !andb_true_iff, bool_decide_eq_true, Nat.ltb_lt, starts_with_iff. split.
    + intros [[-> Hl] [rest ->]]. right. exists hb, a, rest. split_and!; [|done|done]. intros ->.
      rewrite app_nil_r in Hl. lia.
    + intros [?|(head & word & completion & Hne & Hc & Hr)]; [done|]. rewrite H1 in Hc. rewrite H2 in Hr.
      apply app_inj_tail in Hc as [-> ->]. apply app_inj_tail in Hr as [-> ->]. split_and!; [done| |eauto].
      rewrite length_app. destruct completion; [done|]. cbn. lia.
  - split; [done|]. intros [?|(head & word & completion & _ & _ & Hr)]; [done|]. rewrite H2 in Hr. by destruct head.
  - split; [done|]. intros [?|(head & word & completion & _ & Hc & _)]; [done|]. rewrite H1 in Hc. by destruct head.
Qed.
