(* ===== verification/Asr.v ===== *)
(** * Streaming text as endpoint evidence ([turn/src/asr.rs], [completeness.rs], [pause.rs])

    The stable prefix of an utterance, the pause decode that stands in for the
    live result, the pause server's words that stand in for the decode's, the
    worker's pause finalizer, and the values the completeness judges and the
    pause server exchange with the endpoint reducer. *)
From Stdlib Require Import Floats.SpecFloat.
From S2P Require Import Prelude Float Ema Clock Evidence Level Transcript.

(** ** Completeness *)
Inductive TextClass := Tc_Complete | Tc_Extendable | Tc_NeedsMore | Tc_Unknown.
#[export] Instance TextClass_eq_dec : EqDecision TextClass.
Proof. solve_decision. Defined.
(** The local grammar: pure and deterministic. *)
Class Completeness := grammar_classify : Text -> TextClass.
Definition NoGrammar : Completeness := fun _ => Tc_Unknown.

Inductive RecognizerError := Re_Unavailable | Re_Failed | Re_Timeout | Re_NotAsked.
Record RecognizerAnswer := mkRecognizerAnswer { rg_text : Text; rg_outcome : result RecognizerError TextClass }.

(** ** Pauses *)
Inductive TextSource := Ts_Streaming | Ts_Kroko | Ts_Server.
Inductive ServerFailure := Sf_Timeout | Sf_Failed (what : Text).
Record PauseServerAnswer := mkServerAnswer { ps_pause : Sample; ps_outcome : result ServerFailure Text }.
Inductive PauseError := Pe_Superseded | Pe_Timeout | Pe_Failed (what : Text).
Definition pause_error_from (f : ServerFailure) : PauseError :=
  match f with Sf_Timeout => Pe_Timeout | Sf_Failed what => Pe_Failed what end.
Record PauseWords := mkPauseWords {
  pw_text : option Text;
  pw_ms : option N;
  pw_judged : option Text;
  pw_at : option Sample;
  pw_error : option PauseError;
}.
Definition pause_words_default : PauseWords := mkPauseWords None None None None None.
Definition pause_is_open (w : PauseWords) : bool := negb (is_some (pw_text w)) && negb (is_some (pw_error w)).
Record PauseRecord := mkPauseRecord { pr_through : Sample; pr_kroko : PauseWords; pr_server : option PauseWords }.

(** ** The text tracker *)
Definition BLANK_FRAME_SAMPLES : N := 640.
Definition FINALIZE_AFTER_CELLS : N := 10.

Record WakeCut := mkWakeCut { wc_lookahead_end : Sample; wc_phrase : Text }.

Inductive TrailingQuiet := Tq_Blanks (n : N) | Tq_Audio (s : Samples).
Definition trailing_samples (q : TrailingQuiet) : Samples :=
  match q with Tq_Blanks n => n * BLANK_FRAME_SAMPLES | Tq_Audio s => s end.

#[export] Instance Token_eq_dec : EqDecision Token.
Proof. solve_decision. Defined.

Record Standing := mkStanding { sd_through : Sample; sd_tokens : list Token; sd_server : option Text }.

Record TextTracker := mkTracker {
  tr_wake : option WakeCut;
  tr_current : list Token;
  tr_standing : option Standing;
  tr_unsettled : bool;
  tr_live_blanks : N;
  tr_streaming_text : Text;
  tr_prefix : Text;
  tr_prefix_sample : option Sample;
  tr_progress_sample : Sample;
  tr_trigger : Sample;
  tr_command_words : list Sample;
}.
Definition tracker_new (trigger : Sample) (wake : option WakeCut) : TextTracker :=
  mkTracker wake [] None false 0 [] [] None trigger trigger [].

Fixpoint token_texts_prefix (short long : list Token) : bool :=
  match short, long with
  | [], _ => true
  | a :: short, b :: long => bool_decide (tk_text a = tk_text b) && token_texts_prefix short long
  | _ :: _, [] => false
  end.

Definition set_standing (standing : option Standing) (unsettled : bool) (t : TextTracker) : TextTracker :=
  mkTracker (tr_wake t) (tr_current t) standing unsettled (tr_live_blanks t) (tr_streaming_text t) (tr_prefix t)
    (tr_prefix_sample t) (tr_progress_sample t) (tr_trigger t) (tr_command_words t).
Definition set_blanks (blanks : N) (t : TextTracker) : TextTracker :=
  mkTracker (tr_wake t) (tr_current t) (tr_standing t) (tr_unsettled t) blanks (tr_streaming_text t) (tr_prefix t)
    (tr_prefix_sample t) (tr_progress_sample t) (tr_trigger t) (tr_command_words t).
Definition set_tokens (tokens : list Token) (t : TextTracker) : TextTracker :=
  if bool_decide (tokens = tr_current t) then t
  else
    mkTracker (tr_wake t) tokens (tr_standing t) true (tr_live_blanks t) (tr_streaming_text t) (tr_prefix t)
      (tr_prefix_sample t) (tr_progress_sample t) (tr_trigger t) (tr_command_words t).

(** [TextTracker::take]: whether the result ended a standing pause decode. *)
Definition tracker_take (obs : AsrObservation) (t : TextTracker) : TextTracker * bool :=
  match asr_kind obs with
  | Ak_Finalized =>
      let standing := mkStanding (asr_through obs) (asr_tokens obs) None in
      (set_tokens (asr_tokens obs) (set_standing (Some standing) true t), false)
  | Ak_Live =>
      let t := set_blanks (asr_trailing_blanks obs) t in
      match tr_standing t with
      | Some st =>
          if token_texts_prefix (asr_tokens obs) (sd_tokens st) then (t, false)
          else (set_tokens (asr_tokens obs) (set_standing None true t), true)
      | None => (set_tokens (asr_tokens obs) t, false)
      end
  end.

Definition stand_server (pause : Sample) (words : Text) (t : TextTracker) : TextTracker * bool :=
  match tr_standing t with
  | Some st =>
      if sd_through st =? pause then
        (set_standing (Some (mkStanding (sd_through st) (sd_tokens st) (Some words))) true t, true)
      else (t, false)
  | None => (t, false)
  end.

Definition tracker_server (t : TextTracker) : option Text := tr_standing t ≫= sd_server.

Section tracker.
Context `{Unicode}.

(** What [settle] works out of the tokens and the server's words: the prefix, and
    the index of the first command word. *)
Definition tracker_text (t : TextTracker) : TimedTranscript * Text * nat :=
  let transcript := from_tokens (tr_current t) in
  let server := tracker_server t in
  match tr_wake t with
  | Some cut =>
      let found := locate_in_streaming transcript (wc_lookahead_end cut) (wc_phrase cut) in
      let prefix :=
        match server with
        | Some words => normalize (sp_text (strip_final words found (wc_phrase cut)))
        | None => cut_streaming transcript found
        end in
      (transcript, prefix, match sw_window found with Some w => pw_end w | None => 0%nat end)
  | None => (transcript, normalize (default (tt_text transcript) server), 0%nat)
  end.

Definition tracker_settle (through : Sample) (t : TextTracker) : TextTracker * bool :=
  if negb (tr_unsettled t) then (t, false)
  else
    let '(transcript, prefix, first_command_word) := tracker_text t in
    let command_words := retain (fun e => tr_trigger t <? e) (drop first_command_word (tt_last_emitted transcript)) in
    let streaming_text := trim (tt_text transcript) in
    if bool_decide (prefix = tr_prefix t) then
      (mkTracker (tr_wake t) (tr_current t) (tr_standing t) false (tr_live_blanks t) streaming_text (tr_prefix t)
         (tr_prefix_sample t) (tr_progress_sample t) (tr_trigger t) command_words, false)
    else
      (mkTracker (tr_wake t) (tr_current t) (tr_standing t) false (tr_live_blanks t) streaming_text prefix
         (match prefix with [] => None | _ => Some through end) through (tr_trigger t) command_words, true).
End tracker.

(** The judged words as transcribed. *)
Definition tracker_heard (t : TextTracker) : Text := default (tr_streaming_text t) (tracker_server t).
Definition tracker_source (t : TextTracker) : TextSource :=
  match tr_standing t with
  | Some st => match sd_server st with Some _ => Ts_Server | None => Ts_Kroko end
  | None => Ts_Streaming
  end.
Definition last_command_word_by (by_ : Sample) (t : TextTracker) : option Sample :=
  find_first (fun e => e <=? by_) (rev (tr_command_words t)).
Definition finalized_standing (t : TextTracker) : bool := is_some (tr_standing t).
Definition trailing_quiet (through last_speech_positive_end : Sample) (t : TextTracker) : TrailingQuiet :=
  if is_some (tr_standing t) then Tq_Audio (sample_since through last_speech_positive_end)
  else Tq_Blanks (tr_live_blanks t).

(** ** The pause finalizer *)
Record PauseFinalizer := mkFinalizer {
  pf_speech_positive_min : F32;
  pf_last_speech_end : option Sample;
  pf_analysed_through : option Sample;
  pf_armed : bool;
}.
Definition finalizer_new (speech_positive_min : F32) : PauseFinalizer := mkFinalizer speech_positive_min None None false.
Definition observe_cell (cell : CellIndex) (vad : option F32) (f : PauseFinalizer) : PauseFinalizer :=
  if match vad with Some p => f32_leb (pf_speech_positive_min f) p | None => false end then
    mkFinalizer (pf_speech_positive_min f) (Some (cell_end cell)) (Some (cell_end cell)) true
  else mkFinalizer (pf_speech_positive_min f) (pf_last_speech_end f) (Some (cell_end cell)) (pf_armed f).
Definition finalizer_due (f : PauseFinalizer) : PauseFinalizer * bool :=
  match pf_last_speech_end f, pf_analysed_through f with
  | Some end_, Some through =>
      if pf_armed f && (FINALIZE_AFTER_CELLS <=? whole_cells (sample_since through end_)) then
        (mkFinalizer (pf_speech_positive_min f) (pf_last_speech_end f) (pf_analysed_through f) false, true)
      else (f, false)
  | _, _ => (f, false)
  end.

(** ** The prefix is always the text of the latest evidence *)
Section tracking.
Context `{Unicode}.

Inductive TrackerOp :=
  | To_Take (obs : AsrObservation)
  | To_Server (pause : Sample) (words : Text)
  | To_Settle (through : Sample).
Definition tracker_step (t : TextTracker) (op : TrackerOp) : TextTracker :=
  match op with
  | To_Take obs => (tracker_take obs t).1
  | To_Server pause words => (stand_server pause words t).1
  | To_Settle through => (tracker_settle through t).1
  end.
Definition text_now (t : TextTracker) : Text := (tracker_text t).1.2.
(** The emissions of the words after the wake phrase and after the trigger. *)
Definition command_words_now (t : TextTracker) : list Sample :=
  let '(transcript, _, first) := tracker_text t in
  retain (fun e => tr_trigger t <? e) (drop first (tt_last_emitted transcript)).

(** A settled tracker needs no work. *)
Record tracked (t : TextTracker) : Prop := {
  tk_settled : tr_unsettled t = false -> tr_prefix t = text_now t /\ tr_command_words t = command_words_now t;
  tk_sample : tr_prefix_sample t = match tr_prefix t with [] => None | _ => Some (tr_progress_sample t) end;
}.

Lemma words_nil : words [] = [].
Proof. done. Qed.
Lemma tracked_new trigger wake : tracked (tracker_new trigger wake).
Proof.
  split; [|done]. intros _. unfold text_now, command_words_now, tracker_text. cbn [tr_wake tracker_new tr_current].
  by destruct wake.
Qed.

Lemma tracker_text_fields t t' :
  tr_wake t' = tr_wake t -> tr_current t' = tr_current t -> tr_standing t' = tr_standing t ->
  tracker_text t' = tracker_text t.
Proof. intros Hw Hc Hs. unfold tracker_text, tracker_server. by rewrite Hw, Hc, Hs. Qed.

Lemma set_tokens_facts tokens t :
  tr_current (set_tokens tokens t) = tokens /\ tr_standing (set_tokens tokens t) = tr_standing t /\
  tr_wake (set_tokens tokens t) = tr_wake t /\ tr_trigger (set_tokens tokens t) = tr_trigger t /\
  tr_prefix (set_tokens tokens t) = tr_prefix t /\ tr_prefix_sample (set_tokens tokens t) = tr_prefix_sample t /\
  tr_progress_sample (set_tokens tokens t) = tr_progress_sample t /\
  tr_command_words (set_tokens tokens t) = tr_command_words t /\
  (tr_unsettled (set_tokens tokens t) = false -> tr_unsettled t = false /\ tokens = tr_current t).
Proof. unfold set_tokens. case_bool_decide; by split_and!. Qed.

Lemma tracked_set_tokens tokens t : tracked t -> tracked (set_tokens tokens t).
Proof.
  intros [Hs Hp]. destruct (set_tokens_facts tokens t) as (Ec & Est & Ew & Et & Epr & Eps & Epg & Ecw & Eu).
  split; [|by rewrite Eps, Epr, Epg]. intros Hu. destruct (Eu Hu) as [Hu' Hc]. destruct (Hs Hu') as [H1 H2].
  unfold text_now, command_words_now in *.
  rewrite (tracker_text_fields t (set_tokens tokens t)) by congruence. rewrite Epr, Ecw, Et. by split.
Qed.
Lemma tracked_unsettled t : tr_unsettled t = true ->
  tr_prefix_sample t = match tr_prefix t with [] => None | _ => Some (tr_progress_sample t) end -> tracked t.
Proof. intros Hu Hp. split; [congruence|done]. Qed.

Lemma tracked_take obs t : tracked t -> tracked (tracker_take obs t).1.
Proof.
  intros T. unfold tracker_take. destruct (asr_kind obs).
  - assert (Tb : tracked (set_blanks (asr_trailing_blanks obs) t)).
    { destruct T as [Hs Hp]. split; [|done]. intros Hu. destruct (Hs Hu) as [H1 H2]. by split. }
    cbn [set_blanks tr_standing]. destruct (tr_standing t); [|by apply tracked_set_tokens].
    destruct (token_texts_prefix _ _); [done|]. cbn [fst]. apply tracked_set_tokens, tracked_unsettled; [done|apply T].
  - cbn [fst]. apply tracked_set_tokens, tracked_unsettled; [done|apply T].
Qed.

Lemma tracked_settle through t : tracked t ->
  let '(t', changed) := tracker_settle through t in
  tracked t' /\ tr_unsettled t' = false /\ text_now t' = text_now t /\ tr_prefix t' = text_now t /\
  (changed = true <-> tr_prefix t' <> tr_prefix t) /\
  tr_progress_sample t' = if changed then through else tr_progress_sample t.
Proof.
  intros T. unfold tracker_settle. destruct (tr_unsettled t) eqn:Eu; cbn [negb].
  - unfold text_now, command_words_now. destruct (tracker_text t) as [[transcript prefix] first] eqn:E. cbn [fst snd].
    case_bool_decide as Heq.
    + split_and!; try done; [|by rewrite (tracker_text_fields t), E]. split; cbn; [|apply T]. intros _.
      unfold text_now, command_words_now. rewrite (tracker_text_fields t), E by done. by split.
    + split_and!; try done; [|by rewrite (tracker_text_fields t), E]. split; cbn; [|by destruct prefix]. intros _.
      unfold text_now, command_words_now. rewrite (tracker_text_fields t), E by done. by split.
  - destruct (tk_settled _ T Eu) as [H1 H2]. by split_and!.
Qed.

(** The cached prefix never misses evidence: whatever recognizer results and pause
    server words came, settling leaves the prefix and the command words that working
    them out afresh from the tokens and words in force gives; settling reports a
    change exactly when the prefix changed, and the progress sample is the block of
    the last reported change. *)
Theorem prefix_is_current trigger wake ops through :
  let t := foldl tracker_step (tracker_new trigger wake) ops in
  let '(t', changed) := tracker_settle through t in
  tr_prefix t' = text_now t' /\ tr_command_words t' = command_words_now t' /\
  tr_current t' = tr_current t /\ tr_standing t' = tr_standing t /\
  (changed = true <-> tr_prefix t' <> tr_prefix t) /\
  tr_progress_sample t' = (if changed then through else tr_progress_sample t) /\
  tr_prefix_sample t' = match tr_prefix t' with [] => None | _ => Some (tr_progress_sample t') end.
Proof.
  cbv zeta. assert (T : tracked (foldl tracker_step (tracker_new trigger wake) ops)).
  { induction ops as [|op ops IH] using rev_ind; [apply tracked_new|]. rewrite foldl_app. cbn [foldl].
    destruct op as [obs|pause words|through']; cbn [tracker_step].
    - by apply tracked_take.
    - unfold stand_server. destruct (tr_standing _); [|done]. destruct (_ =? _); [|done].
      apply tracked_unsettled; [done|apply IH].
    - pose proof (tracked_settle through' _ IH) as Hs. destruct (tracker_settle through' _). apply Hs. }
  set (t := foldl _ _ _) in *. pose proof (tracked_settle through t T) as Hs.
  assert (Hf : tr_current (tracker_settle through t).1 = tr_current t /\ tr_standing (tracker_settle through t).1 = tr_standing t).
  { unfold tracker_settle. destruct (negb _); [done|]. destruct (tracker_text t) as [[? ?] ?]. by case_bool_decide. }
  destruct (tracker_settle through t) as [t' changed]. destruct Hs as (T' & Hu & Hn & Hp & Hc & Hg).
  destruct (tk_settled _ T' Hu) as [H1 H2]. destruct Hf. split_and!; try done. apply T'.
Qed.

(** While a pause decode stands, a live result whose tokens it begins with changes
    nothing that is judged: only the count of the live decoder's blank frames. *)
Theorem standing_decode_holds obs st t :
  asr_kind obs = Ak_Live -> tr_standing t = Some st -> token_texts_prefix (asr_tokens obs) (sd_tokens st) = true ->
  tracker_take obs t = (set_blanks (asr_trailing_blanks obs) t, false).
Proof. intros Hk Hs Hp. unfold tracker_take. rewrite Hk. cbn [set_blanks tr_standing]. by rewrite Hs, Hp. Qed.
End tracking.

(** ** The finalizer fires once per pause *)
Inductive FinalizerOp := Fo_Cell (cell : CellIndex) (vad : option F32) | Fo_Due.
(** A run's operations, each with whether it fired. *)
Fixpoint finalizer_run (f : PauseFinalizer) (ops : list FinalizerOp) : PauseFinalizer * list (FinalizerOp * bool) :=
  match ops with
  | [] => (f, [])
  | op :: ops =>
      let '(f, fired) := match op with Fo_Cell cell vad => (observe_cell cell vad f, false) | Fo_Due => finalizer_due f end in
      let '(f, trace) := finalizer_run f ops in
      (f, (op, fired) :: trace)
  end.

Section finalizer.
Context (positive_min : F32).

Definition positive_at (op : FinalizerOp) : bool :=
  match op with Fo_Cell _ (Some p) => f32_leb positive_min p | _ => false end.
(** [cell] is the latest speech-positive one, and [since] what came after it. *)
Definition speech_then (trace : list (FinalizerOp * bool)) (cell : CellIndex) (since : list (FinalizerOp * bool)) : Prop :=
  exists before vad, trace = before ++ (Fo_Cell cell vad, false) :: since /\
  positive_at (Fo_Cell cell vad) = true /\ Forall (fun e => positive_at e.1 = false) since.
Definition observed (trace : list (FinalizerOp * bool)) : option CellIndex :=
  last (omap (fun e => match e.1 with Fo_Cell cell _ => Some cell | Fo_Due => None end) trace).

Lemma speech_then_unique trace c c' since since' :
  speech_then trace c since -> speech_then trace c' since' -> c = c' /\ since = since'.
Proof.
  intros (b & v & -> & Hv & Hs) (b' & v' & Heq & Hv' & Hs').
  destruct (app_eq_inv _ _ _ _ Heq) as [(k & -> & Hk)|(k & -> & Hk)]; destruct k as [|e k]; cbn in Hk.
  - by injection Hk as -> _ ->.
  - injection Hk as <- Hk. exfalso. rewrite Hk in Hs'. apply Forall_app in Hs' as [_ Hs']. apply Forall_cons in Hs' as [Hx _]. cbn [fst] in Hx. congruence.
  - by injection Hk as -> _ ->.
  - injection Hk as <- Hk. exfalso. rewrite Hk in Hs. apply Forall_app in Hs as [_ Hs]. apply Forall_cons in Hs as [Hx _]. cbn [fst] in Hx. congruence.
Qed.
Lemma speech_then_snoc trace c since e :
  positive_at e.1 = false -> speech_then trace c since -> speech_then (trace ++ [e]) c (since ++ [e]).
Proof.
  intros He (b & v & -> & Hv & Hs). exists b, v. split_and!; [by rewrite <- app_assoc|done|]. apply Forall_app. by repeat constructor.
Qed.
Lemma observed_snoc trace e :
  observed (trace ++ [e]) = match e.1 with Fo_Cell cell _ => Some cell | Fo_Due => observed trace end.
Proof. unfold observed. rewrite omap_app, last_app. cbn. by destruct (e.1). Qed.

Lemma finalizer_run_app f l1 l2 :
  finalizer_run f (l1 ++ l2) =
    let '(f1, t1) := finalizer_run f l1 in let '(f2, t2) := finalizer_run f1 l2 in (f2, t1 ++ t2).
Proof.
  revert f. induction l1 as [|op l1 IH]; intros f; cbn [finalizer_run app]; [by destruct (finalizer_run f l2)|].
  destruct (match op with Fo_Cell _ _ => _ | Fo_Due => _ end) as [f' fired]. rewrite IH.
  destruct (finalizer_run f' l1) as [f1 t1]. by destruct (finalizer_run f1 l2).
Qed.

(** The finalizer's state after a run. *)
Record finalizer_state (f : PauseFinalizer) (trace : list (FinalizerOp * bool)) : Prop := {
  fs_min : pf_speech_positive_min f = positive_min;
  fs_through : pf_analysed_through f = cell_end <$> observed trace;
  fs_speech : match pf_last_speech_end f with
    | None => Forall (fun e => positive_at e.1 = false) trace /\ pf_armed f = false
    | Some end_ => exists c since, speech_then trace c since /\ end_ = cell_end c /\
        (pf_armed f = true <-> Forall (fun e => e.2 = false) since)
    end;
}.

Lemma finalizer_due_iff f trace :
  finalizer_state f trace ->
  (finalizer_due f).2 = true <->
  exists c since c', speech_then trace c since /\ Forall (fun e => e.2 = false) since /\ observed trace = Some c' /\
    c + FINALIZE_AFTER_CELLS <= c'.
Proof.
  intros [_ Ht Hs]. unfold finalizer_due. rewrite Ht. destruct (pf_last_speech_end f) as [end_|].
  - destruct Hs as (c & since & Hst & -> & Ha). destruct (observed trace) as [c'|] eqn:Eo; cbn [fmap option_fmap option_map].
    + assert (Hc : whole_cells (sample_since (cell_end c') (cell_end c)) = c' - c).
      { unfold whole_cells, sample_since, cell_end, CELL_SAMPLES. rewrite <- N.mul_sub_distr_r, N.div_mul by done. lia. }
      rewrite Hc. destruct (pf_armed f) eqn:Ea; cbn [andb].
      * destruct (N.leb_spec FINALIZE_AFTER_CELLS (c' - c)) as [Hle|Hlt]; cbn [snd].
        -- split; [|done]. intros _. exists c, since, c'. split_and!; [done|by apply Ha|done|unfold FINALIZE_AFTER_CELLS in *; lia].
        -- split; [done|]. intros (c2 & since2 & c2' & Hst2 & _ & [= <-] & Hle).
           destruct (speech_then_unique _ _ _ _ _ Hst Hst2) as [<- _]. unfold FINALIZE_AFTER_CELLS in *. lia.
      * split; [done|]. intros (c2 & since2 & c2' & Hst2 & Hf & _).
        destruct (speech_then_unique _ _ _ _ _ Hst Hst2) as [_ <-]. apply Ha in Hf. done.
    + split; [done|]. by intros (? & ? & ? & _ & _ & ? & _).
  - split; [done|]. intros (c & since & c' & (b & v & -> & Hv & _) & _). destruct Hs as [Hs _].
    apply Forall_app in Hs as [_ Hs]. apply Forall_cons in Hs as [Hx _]. cbn [fst] in Hx. congruence.
Qed.

Lemma finalizer_run_state ops :
  let '(f, trace) := finalizer_run (finalizer_new positive_min) ops in finalizer_state f trace.
Proof.
  induction ops as [|op ops IH] using rev_ind; [by split|]. rewrite finalizer_run_app.
  destruct (finalizer_run (finalizer_new positive_min) ops) as [f trace]. cbn [finalizer_run]. destruct op as [cell vad|].
  - unfold observe_cell. destruct IH as [Hm Ht Hs]. rewrite Hm.
    destruct (match vad with Some p => _ | None => false end) eqn:Ep; split; cbn; try done; try by rewrite observed_snoc.
    + exists cell, []. split_and!; [|done|done]. exists trace, vad. split_and!; [done| |done]. by destruct vad.
    + assert (Hpos : positive_at (Fo_Cell cell vad) = false) by (by destruct vad).
      destruct (pf_last_speech_end f).
      * destruct Hs as (c & since & Hst & -> & Ha). exists c, (since ++ [(Fo_Cell cell vad, false)]).
        split_and!; [by apply speech_then_snoc|done|]. rewrite Ha, Forall_app, Forall_singleton. naive_solver.
      * destruct Hs as [Hs Ha]. split; [|done]. apply Forall_app. by repeat constructor.
  - pose proof (finalizer_due_iff f trace IH) as Hiff. unfold finalizer_due in *. destruct IH as [Hm Ht Hs].
    assert (Hobs : forall fired, observed (trace ++ [(Fo_Due, fired)]) = observed trace) by (intros; by rewrite observed_snoc).
    assert (Hkeep : forall fired, fired = false -> finalizer_state f (trace ++ [(Fo_Due, fired)])).
    { intros fired ->. split; [done|by rewrite Hobs|]. destruct (pf_last_speech_end f).
      - destruct Hs as (c & since & Hst & -> & Ha). exists c, (since ++ [(Fo_Due, false)]).
        split_and!; [by apply speech_then_snoc|done|]. rewrite Ha, Forall_app, Forall_singleton. naive_solver.
      - destruct Hs as [Hs Ha]. split; [|done]. apply Forall_app. by repeat constructor. }
    destruct (pf_last_speech_end f) as [end_|] eqn:El; [|by apply Hkeep].
    destruct (pf_analysed_through f) as [thr|] eqn:Eth; [|by apply Hkeep].
    destruct (_ && _); [|by apply Hkeep]. split; cbn; [done|by rewrite Hobs|].
    destruct Hs as (c & since & Hst & -> & Ha). exists c, (since ++ [(Fo_Due, true)]).
    split_and!; [by apply speech_then_snoc|done|]. split; [done|]. intros [_ Hx]%Forall_app. by apply Forall_cons in Hx as [? _].
Qed.
End finalizer.

(** A pause decode is asked for exactly when the latest speech-positive cell lies ten
    cells back and none has been asked for since it: once in every pause, and again
    only after more speech. *)
Theorem finalizer_fires_once_per_pause positive_min ops :
  let '(f, trace) := finalizer_run (finalizer_new positive_min) ops in
  (finalizer_due f).2 = true <->
  exists c since c', speech_then positive_min trace c since /\ Forall (fun e => e.2 = false) since /\
    observed trace = Some c' /\ c + FINALIZE_AFTER_CELLS <= c'.
Proof.
  pose proof (finalizer_run_state positive_min ops) as Hs.
  destruct (finalizer_run (finalizer_new positive_min) ops) as [f trace]. by apply finalizer_due_iff.
Qed.
