(* ===== verification/Endpoint.v ===== *)
(** * The endpoint reducer ([turn/src/endpoint.rs], [turn/src/trace.rs])

    One utterance's speech policy: every cell the evidence assembler releases is
    classified, every block boundary evaluated against the routes and limits,
    and every decision appended, in order, until the utterance ends.  The state
    is in three parts: what the cells left ([CellSide]), what the recognizers'
    texts left ([TextSide]), each with the fields of the trace it writes, and
    the pending end with the endpoint events ([TurnPolicy]).  Two fields the
    trace copies (its [frontier] and [command_cells], and [command_start]) are
    the ones they copy.  The scratch vector of [advance] is not state. *)
From Stdlib Require Import Floats.SpecFloat.
From S2P Require Import Prelude Float Ema Clock Evidence Level Classify Transcript Asr.

(** ** Configuration *)
Record EndpointPolicy := mkEndpointPolicy {
  ep_pause_complete : Samples;
  ep_pause_extendable : Samples;
  ep_pause_needs_more : Samples;
  ep_lookahead : Samples;
  ep_revoke_command_cells : N;
  ep_min_command : Samples;
  ep_vote_cells : N;
  ep_vote_quiet_min : N;
  ep_trailing_blanks_min : N;
  ep_no_input : Samples;
  ep_reply_no_input : Samples;
  ep_max_utterance : Samples;
  ep_max_extended_utterance : Samples;
  ep_no_progress : Samples;
  ep_ha_reply_pause : Samples;
  ep_background_share_percent : N;
  ep_reply_span_lead : Samples;
  ep_reply_guard : Samples;
  ep_asr_word_margin : Samples;
  ep_evidence_stall_ms : N;
  ep_reply_wall_ms : N;
  ep_recognizer_limit_ms : N;
}.
Definition ASR_WORD_MARGIN_MS : N := 64.
Definition endpoint_default : EndpointPolicy := {|
  ep_pause_complete := from_ms 608;
  ep_pause_extendable := from_ms 1216;
  ep_pause_needs_more := from_ms 1792;
  ep_lookahead := from_ms 192;
  ep_revoke_command_cells := 4;
  ep_min_command := from_ms 192;
  ep_vote_cells := 19;
  ep_vote_quiet_min := 15;
  ep_trailing_blanks_min := 10;
  ep_no_input := from_ms 5000;
  ep_reply_no_input := from_ms 7000;
  ep_max_utterance := from_ms 15000;
  ep_max_extended_utterance := from_ms 30000;
  ep_no_progress := from_ms 3000;
  ep_ha_reply_pause := from_ms 1024;
  ep_background_share_percent := 80;
  ep_reply_span_lead := from_ms 300;
  ep_reply_guard := from_ms 320;
  ep_asr_word_margin := from_ms ASR_WORD_MARGIN_MS;
  ep_evidence_stall_ms := 3000;
  ep_reply_wall_ms := 10000;
  ep_recognizer_limit_ms := 2000;
|}.
Definition pause_for (p : EndpointPolicy) (class : TextClass) : Samples :=
  match class with
  | Tc_Complete => ep_pause_complete p
  | Tc_Extendable => ep_pause_extendable p
  | Tc_NeedsMore | Tc_Unknown => ep_pause_needs_more p
  end.

Record TurnConfig := mkTurnConfig {
  tc_endpoint : EndpointPolicy;
  tc_attribution : AttributionPolicy;
  tc_extended_utterances : bool;
  tc_recognizer_available : bool;
  tc_pause_server : bool;
}.

Record WakeAnchor := mkWakeAnchor { wa_support_start : Sample; wa_candidate_open : Sample; wa_phrase : Text }.
Inductive ReplyOrigin := Ro_Expectation | Ro_HaConversation.
Record ReplySpec := mkReplySpec {
  rs_origin : ReplyOrigin;
  rs_guard_until : option Sample;
  rs_no_input_at : Sample;
  rs_wall_deadline : MonoInstant;
}.
Definition at_drain (origin : ReplyOrigin) (trigger : Sample) (opened_at : MonoInstant) (p : EndpointPolicy) : ReplySpec :=
  mkReplySpec origin (Some (sample_add trigger (ep_reply_guard p))) (sample_add trigger (ep_reply_no_input p))
    (after opened_at (from_millis (ep_reply_wall_ms p))).
Definition at_early_answer (origin : ReplyOrigin) (onset : Sample) (opened_at : MonoInstant) (p : EndpointPolicy) : ReplySpec :=
  mkReplySpec origin None (sample_add onset (ep_reply_no_input p)) (after opened_at (from_millis (ep_reply_wall_ms p))).

Inductive TurnKind := Tk_Wake (anchor : WakeAnchor) | Tk_Button | Tk_Reply (reply : ReplySpec).
Record TurnSpec := mkTurnSpec {
  tn_epoch : N;
  tn_start : Sample;
  tn_trigger : Sample;
  tn_cells_from : CellIndex;
  tn_vad_from : CellIndex;
  tn_kind : TurnKind;
}.
Definition evidence_plan (spec : TurnSpec) : EvidencePlan :=
  let analysis_from := sample_cell (tn_start spec) in
  mkPlan (tn_epoch spec) (N.min (tn_cells_from spec) analysis_from) (N.min (tn_vad_from spec) analysis_from) analysis_from.

(** ** Decisions and the trace *)
Inductive Route := Rt_A | Rt_B | Rt_R | Rt_Fallback.
Inductive CloseReason :=
  | Cz_NoInput | Cz_TooLong | Cz_Retry | Cz_Interrupted | Cz_AudioOverrun | Cz_Muted | Cz_SessionLost.
Inductive CloseCause :=
  | Cu_Limit | Cu_NoProgress | Cu_Gap | Cu_MutedCell | Cu_Mute | Cu_SessionLost | Cu_Overrun | Cu_WorkerError
  | Cu_Discontinuity | Cu_EvidenceStalled | Cu_ReplyWallClock.
Inductive EndBound := Eb_Cell | Eb_AsrWord.
Record Commit := mkCommit {
  cm_route : Route;
  cm_boundary : Sample;
  cm_span : SampleSpan;
  cm_end_bound : EndBound;
  cm_last_word : option Sample;
  cm_at : Sample;
  cm_text : Text;
  cm_class : option TextClass;
  cm_recheck : bool;
  cm_source : TextSource;
}.
Record SpanEnd := mkSpanEnd { se_end : Sample; se_bound : EndBound; se_last_word : option Sample }.
Record ReplyReopen := mkReopen { ro_reopen_start : Sample; ro_reopen_trigger : Sample; ro_no_input_at : Sample }.
Inductive Decision :=
  | De_CommandStarted (at_ : Sample)
  | De_AskRecognizer (text : Text)
  | De_EndPending (route : Route) (boundary since : Sample)
  | De_EndRevoked (boundary at_ : Sample)
  | De_Commit (commit : Commit)
  | De_Close (reason : CloseReason) (at_ : option Sample)
  | De_ReopenReply (reopen : ReplyReopen).

Record CellRecord := mkCellRecord { cr_class : CellClass; cr_speech_positive : bool; cr_end : Sample }.
Record Judged := mkJudged { jd_text : Text; jd_class : option TextClass }.
Record Pending := mkPending { pn_route : Route; pn_boundary : Sample; pn_since : Sample; pn_judged : Judged }.
Record Asked := mkAsked { ak_text : Text; ak_at : MonoInstant; ak_record : nat }.
Record ServerArrival := mkArrival { sa_answer : PauseServerAnswer; sa_from : Sample; sa_at : MonoInstant }.

Record Segment := mkSegment { sg_class : CellClass; sg_rule : ClassRule; sg_start : Sample; sg_end : Sample }.
Record EvidenceCounts := mkCounts {
  ec_cells : N;
  ec_gap : N;
  ec_vad_unknown : N;
  ec_loudness_unknown : N;
  ec_echo_no_reference : N;
  ec_echo_only : N;
  ec_echo_near_end : N;
  ec_echo_unknown : N;
  ec_reference_incomplete : N;
  ec_background_available : N;
}.
Record TextChange := mkTextChange {
  tx_text : Text; tx_grammar : option TextClass; tx_at : Sample; tx_source : TextSource;
}.
Record RecognizerRecord := mkRecognizerRecord {
  rr_text : Text;
  rr_asked_at : Sample;
  rr_class : option TextClass;
  rr_applied_at : option Sample;
  rr_round_trip_ms : option N;
  rr_error : option RecognizerError;
}.
Record RouteEvidence := mkRouteEvidence {
  re_class : option TextClass;
  re_command_ms : N;
  re_quiet_votes : option N;
  re_trailing_quiet_ms : option N;
  re_finalized : bool;
  re_pause_ms : N;
  re_required_ms : N;
  re_prefix_sample : option Sample;
  re_speech_positive_after : option (N * N);
}.
Inductive EndpointEvent :=
  | Ee_Pending (route : Route) (boundary since : Sample) (evidence : RouteEvidence)
  | Ee_Revoked (boundary at_ : Sample) (command_cells : N)
  | Ee_Commit (route : Route) (boundary : Sample) (span : SampleSpan) (end_bound : EndBound)
      (last_word : option Sample) (at_ : Sample) (text : Text) (class : option TextClass) (source : TextSource)
  | Ee_Close (reason : CloseReason) (cause : CloseCause) (at_ : option Sample)
  | Ee_Reopen (start : Sample).

(** ** State *)
Record CellSide := mkCellSide {
  cs_classifier : CellClassifier;
  cs_background : BackgroundLevel;
  cs_foreground : ForegroundLevel;
  cs_seed : option (list Z);
  cs_cells : list CellRecord;
  cs_frontier : option Sample;
  cs_command_cells : N;
  cs_dated_back_cells : N;
  cs_command_ends : list Sample;
  cs_command_start : option Sample;
  cs_run_start : option Sample;
  cs_last_speech_positive_end : option Sample;
  cs_reply_gap_end : option Sample;
  cs_answer_start : option Sample;
  cs_foreground_db : option F64;
  cs_foreground_seeded : bool;
  cs_evidence : EvidenceCounts;
  cs_segments : list Segment;
}.
Definition set_cs_classifier (v : CellClassifier) (c : CellSide) : CellSide :=
  mkCellSide v (cs_background c) (cs_foreground c) (cs_seed c) (cs_cells c) (cs_frontier c) (cs_command_cells c)
    (cs_dated_back_cells c) (cs_command_ends c) (cs_command_start c) (cs_run_start c)
    (cs_last_speech_positive_end c) (cs_reply_gap_end c) (cs_answer_start c) (cs_foreground_db c)
    (cs_foreground_seeded c) (cs_evidence c) (cs_segments c).
Definition set_cs_background (v : BackgroundLevel) (c : CellSide) : CellSide :=
  mkCellSide (cs_classifier c) v (cs_foreground c) (cs_seed c) (cs_cells c) (cs_frontier c) (cs_command_cells c)
    (cs_dated_back_cells c) (cs_command_ends c) (cs_command_start c) (cs_run_start c)
    (cs_last_speech_positive_end c) (cs_reply_gap_end c) (cs_answer_start c) (cs_foreground_db c)
    (cs_foreground_seeded c) (cs_evidence c) (cs_segments c).
Definition set_cs_foreground (v : ForegroundLevel) (c : CellSide) : CellSide :=
  mkCellSide (cs_classifier c) (cs_background c) v (cs_seed c) (cs_cells c) (cs_frontier c) (cs_command_cells c)
    (cs_dated_back_cells c) (cs_command_ends c) (cs_command_start c) (cs_run_start c)
    (cs_last_speech_positive_end c) (cs_reply_gap_end c) (cs_answer_start c) (cs_foreground_db c)
    (cs_foreground_seeded c) (cs_evidence c) (cs_segments c).
Definition set_cs_seed (v : option (list Z)) (c : CellSide) : CellSide :=
  mkCellSide (cs_classifier c) (cs_background c) (cs_foreground c) v (cs_cells c) (cs_frontier c)
    (cs_command_cells c) (cs_dated_back_cells c) (cs_command_ends c) (cs_command_start c) (cs_run_start c)
    (cs_last_speech_positive_end c) (cs_reply_gap_end c) (cs_answer_start c) (cs_foreground_db c)
    (cs_foreground_seeded c) (cs_evidence c) (cs_segments c).
Definition set_cs_cells (v : list CellRecord) (c : CellSide) : CellSide :=
  mkCellSide (cs_classifier c) (cs_background c) (cs_foreground c) (cs_seed c) v (cs_frontier c)
    (cs_command_cells c) (cs_dated_back_cells c) (cs_command_ends c) (cs_command_start c) (cs_run_start c)
    (cs_last_speech_positive_end c) (cs_reply_gap_end c) (cs_answer_start c) (cs_foreground_db c)
    (cs_foreground_seeded c) (cs_evidence c) (cs_segments c).
Definition set_cs_frontier (v : option Sample) (c : CellSide) : CellSide :=
  mkCellSide (cs_classifier c) (cs_background c) (cs_foreground c) (cs_seed c) (cs_cells c) v (cs_command_cells c)
    (cs_dated_back_cells c) (cs_command_ends c) (cs_command_start c) (cs_run_start c)
    (cs_last_speech_positive_end c) (cs_reply_gap_end c) (cs_answer_start c) (cs_foreground_db c)
    (cs_foreground_seeded c) (cs_evidence c) (cs_segments c).
Definition set_cs_command_cells (v : N) (c : CellSide) : CellSide :=
  mkCellSide (cs_classifier c) (cs_background c) (cs_foreground c) (cs_seed c) (cs_cells c) (cs_frontier c) v
    (cs_dated_back_cells c) (cs_command_ends c) (cs_command_start c) (cs_run_start c)
    (cs_last_speech_positive_end c) (cs_reply_gap_end c) (cs_answer_start c) (cs_foreground_db c)
    (cs_foreground_seeded c) (cs_evidence c) (cs_segments c).
Definition set_cs_dated_back_cells (v : N) (c : CellSide) : CellSide :=
  mkCellSide (cs_classifier c) (cs_background c) (cs_foreground c) (cs_seed c) (cs_cells c) (cs_frontier c)
    (cs_command_cells c) v (cs_command_ends c) (cs_command_start c) (cs_run_start c) (cs_last_speech_positive_end c)
    (cs_reply_gap_end c) (cs_answer_start c) (cs_foreground_db c) (cs_foreground_seeded c) (cs_evidence c)
    (cs_segments c).
Definition set_cs_command_ends (v : list Sample) (c : CellSide) : CellSide :=
  mkCellSide (cs_classifier c) (cs_background c) (cs_foreground c) (cs_seed c) (cs_cells c) (cs_frontier c)
    (cs_command_cells c) (cs_dated_back_cells c) v (cs_command_start c) (cs_run_start c)
    (cs_last_speech_positive_end c) (cs_reply_gap_end c) (cs_answer_start c) (cs_foreground_db c)
    (cs_foreground_seeded c) (cs_evidence c) (cs_segments c).
Definition set_cs_command_start (v : option Sample) (c : CellSide) : CellSide :=
  mkCellSide (cs_classifier c) (cs_background c) (cs_foreground c) (cs_seed c) (cs_cells c) (cs_frontier c)
    (cs_command_cells c) (cs_dated_back_cells c) (cs_command_ends c) v (cs_run_start c)
    (cs_last_speech_positive_end c) (cs_reply_gap_end c) (cs_answer_start c) (cs_foreground_db c)
    (cs_foreground_seeded c) (cs_evidence c) (cs_segments c).
Definition set_cs_run_start (v : option Sample) (c : CellSide) : CellSide :=
  mkCellSide (cs_classifier c) (cs_background c) (cs_foreground c) (cs_seed c) (cs_cells c) (cs_frontier c)
    (cs_command_cells c) (cs_dated_back_cells c) (cs_command_ends c) (cs_command_start c) v
    (cs_last_speech_positive_end c) (cs_reply_gap_end c) (cs_answer_start c) (cs_foreground_db c)
    (cs_foreground_seeded c) (cs_evidence c) (cs_segments c).
Definition set_cs_last_speech_positive_end (v : option Sample) (c : CellSide) : CellSide :=
  mkCellSide (cs_classifier c) (cs_background c) (cs_foreground c) (cs_seed c) (cs_cells c) (cs_frontier c)
    (cs_command_cells c) (cs_dated_back_cells c) (cs_command_ends c) (cs_command_start c) (cs_run_start c) v
    (cs_reply_gap_end c) (cs_answer_start c) (cs_foreground_db c) (cs_foreground_seeded c) (cs_evidence c)
    (cs_segments c).
Definition set_cs_reply_gap_end (v : option Sample) (c : CellSide) : CellSide :=
  mkCellSide (cs_classifier c) (cs_background c) (cs_foreground c) (cs_seed c) (cs_cells c) (cs_frontier c)
    (cs_command_cells c) (cs_dated_back_cells c) (cs_command_ends c) (cs_command_start c) (cs_run_start c)
    (cs_last_speech_positive_end c) v (cs_answer_start c) (cs_foreground_db c) (cs_foreground_seeded c)
    (cs_evidence c) (cs_segments c).
Definition set_cs_answer_start (v : option Sample) (c : CellSide) : CellSide :=
  mkCellSide (cs_classifier c) (cs_background c) (cs_foreground c) (cs_seed c) (cs_cells c) (cs_frontier c)
    (cs_command_cells c) (cs_dated_back_cells c) (cs_command_ends c) (cs_command_start c) (cs_run_start c)
    (cs_last_speech_positive_end c) (cs_reply_gap_end c) v (cs_foreground_db c) (cs_foreground_seeded c)
    (cs_evidence c) (cs_segments c).
Definition set_cs_foreground_db (v : option F64) (c : CellSide) : CellSide :=
  mkCellSide (cs_classifier c) (cs_background c) (cs_foreground c) (cs_seed c) (cs_cells c) (cs_frontier c)
    (cs_command_cells c) (cs_dated_back_cells c) (cs_command_ends c) (cs_command_start c) (cs_run_start c)
    (cs_last_speech_positive_end c) (cs_reply_gap_end c) (cs_answer_start c) v (cs_foreground_seeded c)
    (cs_evidence c) (cs_segments c).
Definition set_cs_foreground_seeded (v : bool) (c : CellSide) : CellSide :=
  mkCellSide (cs_classifier c) (cs_background c) (cs_foreground c) (cs_seed c) (cs_cells c) (cs_frontier c)
    (cs_command_cells c) (cs_dated_back_cells c) (cs_command_ends c) (cs_command_start c) (cs_run_start c)
    (cs_last_speech_positive_end c) (cs_reply_gap_end c) (cs_answer_start c) (cs_foreground_db c) v (cs_evidence c)
    (cs_segments c).
Definition set_cs_evidence (v : EvidenceCounts) (c : CellSide) : CellSide :=
  mkCellSide (cs_classifier c) (cs_background c) (cs_foreground c) (cs_seed c) (cs_cells c) (cs_frontier c)
    (cs_command_cells c) (cs_dated_back_cells c) (cs_command_ends c) (cs_command_start c) (cs_run_start c)
    (cs_last_speech_positive_end c) (cs_reply_gap_end c) (cs_answer_start c) (cs_foreground_db c)
    (cs_foreground_seeded c) v (cs_segments c).
Definition set_cs_segments (v : list Segment) (c : CellSide) : CellSide :=
  mkCellSide (cs_classifier c) (cs_background c) (cs_foreground c) (cs_seed c) (cs_cells c) (cs_frontier c)
    (cs_command_cells c) (cs_dated_back_cells c) (cs_command_ends c) (cs_command_start c) (cs_run_start c)
    (cs_last_speech_positive_end c) (cs_reply_gap_end c) (cs_answer_start c) (cs_foreground_db c)
    (cs_foreground_seeded c) (cs_evidence c) v.

Record TextSide := mkTextSide {
  ts_text : TextTracker;
  ts_class : option TextClass;
  ts_grammar_class : option TextClass;
  ts_answers : list (Text * TextClass);
  ts_asked : list Asked;
  ts_arrived : list (RecognizerAnswer * MonoInstant);
  ts_server_asked : list (Sample * MonoInstant);
  ts_server_arrived : list ServerArrival;
  ts_kroko_texts : list Text;
  ts_server_texts : list Text;
  ts_streaming_text : Text;
  ts_heard : Text;
  ts_changes : list TextChange;
  ts_finalized_at : list Sample;
  ts_pauses : list PauseRecord;
  ts_recognizer : list RecognizerRecord;
}.
Definition set_ts_text (v : TextTracker) (t : TextSide) : TextSide :=
  mkTextSide v (ts_class t) (ts_grammar_class t) (ts_answers t) (ts_asked t) (ts_arrived t) (ts_server_asked t)
    (ts_server_arrived t) (ts_kroko_texts t) (ts_server_texts t) (ts_streaming_text t) (ts_heard t) (ts_changes t)
    (ts_finalized_at t) (ts_pauses t) (ts_recognizer t).
Definition set_ts_class (v : option TextClass) (t : TextSide) : TextSide :=
  mkTextSide (ts_text t) v (ts_grammar_class t) (ts_answers t) (ts_asked t) (ts_arrived t) (ts_server_asked t)
    (ts_server_arrived t) (ts_kroko_texts t) (ts_server_texts t) (ts_streaming_text t) (ts_heard t) (ts_changes t)
    (ts_finalized_at t) (ts_pauses t) (ts_recognizer t).
Definition set_ts_grammar_class (v : option TextClass) (t : TextSide) : TextSide :=
  mkTextSide (ts_text t) (ts_class t) v (ts_answers t) (ts_asked t) (ts_arrived t) (ts_server_asked t)
    (ts_server_arrived t) (ts_kroko_texts t) (ts_server_texts t) (ts_streaming_text t) (ts_heard t) (ts_changes t)
    (ts_finalized_at t) (ts_pauses t) (ts_recognizer t).
Definition set_ts_answers (v : list (Text * TextClass)) (t : TextSide) : TextSide :=
  mkTextSide (ts_text t) (ts_class t) (ts_grammar_class t) v (ts_asked t) (ts_arrived t) (ts_server_asked t)
    (ts_server_arrived t) (ts_kroko_texts t) (ts_server_texts t) (ts_streaming_text t) (ts_heard t) (ts_changes t)
    (ts_finalized_at t) (ts_pauses t) (ts_recognizer t).
Definition set_ts_asked (v : list Asked) (t : TextSide) : TextSide :=
  mkTextSide (ts_text t) (ts_class t) (ts_grammar_class t) (ts_answers t) v (ts_arrived t) (ts_server_asked t)
    (ts_server_arrived t) (ts_kroko_texts t) (ts_server_texts t) (ts_streaming_text t) (ts_heard t) (ts_changes t)
    (ts_finalized_at t) (ts_pauses t) (ts_recognizer t).
Definition set_ts_arrived (v : list (RecognizerAnswer * MonoInstant)) (t : TextSide) : TextSide :=
  mkTextSide (ts_text t) (ts_class t) (ts_grammar_class t) (ts_answers t) (ts_asked t) v (ts_server_asked t)
    (ts_server_arrived t) (ts_kroko_texts t) (ts_server_texts t) (ts_streaming_text t) (ts_heard t) (ts_changes t)
    (ts_finalized_at t) (ts_pauses t) (ts_recognizer t).
Definition set_ts_server_asked (v : list (Sample * MonoInstant)) (t : TextSide) : TextSide :=
  mkTextSide (ts_text t) (ts_class t) (ts_grammar_class t) (ts_answers t) (ts_asked t) (ts_arrived t) v
    (ts_server_arrived t) (ts_kroko_texts t) (ts_server_texts t) (ts_streaming_text t) (ts_heard t) (ts_changes t)
    (ts_finalized_at t) (ts_pauses t) (ts_recognizer t).
Definition set_ts_server_arrived (v : list ServerArrival) (t : TextSide) : TextSide :=
  mkTextSide (ts_text t) (ts_class t) (ts_grammar_class t) (ts_answers t) (ts_asked t) (ts_arrived t)
    (ts_server_asked t) v (ts_kroko_texts t) (ts_server_texts t) (ts_streaming_text t) (ts_heard t) (ts_changes t)
    (ts_finalized_at t) (ts_pauses t) (ts_recognizer t).
Definition set_ts_kroko_texts (v : list Text) (t : TextSide) : TextSide :=
  mkTextSide (ts_text t) (ts_class t) (ts_grammar_class t) (ts_answers t) (ts_asked t) (ts_arrived t)
    (ts_server_asked t) (ts_server_arrived t) v (ts_server_texts t) (ts_streaming_text t) (ts_heard t)
    (ts_changes t) (ts_finalized_at t) (ts_pauses t) (ts_recognizer t).
Definition set_ts_server_texts (v : list Text) (t : TextSide) : TextSide :=
  mkTextSide (ts_text t) (ts_class t) (ts_grammar_class t) (ts_answers t) (ts_asked t) (ts_arrived t)
    (ts_server_asked t) (ts_server_arrived t) (ts_kroko_texts t) v (ts_streaming_text t) (ts_heard t) (ts_changes t)
    (ts_finalized_at t) (ts_pauses t) (ts_recognizer t).
Definition set_ts_streaming_text (v : Text) (t : TextSide) : TextSide :=
  mkTextSide (ts_text t) (ts_class t) (ts_grammar_class t) (ts_answers t) (ts_asked t) (ts_arrived t)
    (ts_server_asked t) (ts_server_arrived t) (ts_kroko_texts t) (ts_server_texts t) v (ts_heard t) (ts_changes t)
    (ts_finalized_at t) (ts_pauses t) (ts_recognizer t).
Definition set_ts_heard (v : Text) (t : TextSide) : TextSide :=
  mkTextSide (ts_text t) (ts_class t) (ts_grammar_class t) (ts_answers t) (ts_asked t) (ts_arrived t)
    (ts_server_asked t) (ts_server_arrived t) (ts_kroko_texts t) (ts_server_texts t) (ts_streaming_text t) v
    (ts_changes t) (ts_finalized_at t) (ts_pauses t) (ts_recognizer t).
Definition set_ts_changes (v : list TextChange) (t : TextSide) : TextSide :=
  mkTextSide (ts_text t) (ts_class t) (ts_grammar_class t) (ts_answers t) (ts_asked t) (ts_arrived t)
    (ts_server_asked t) (ts_server_arrived t) (ts_kroko_texts t) (ts_server_texts t) (ts_streaming_text t)
    (ts_heard t) v (ts_finalized_at t) (ts_pauses t) (ts_recognizer t).
Definition set_ts_finalized_at (v : list Sample) (t : TextSide) : TextSide :=
  mkTextSide (ts_text t) (ts_class t) (ts_grammar_class t) (ts_answers t) (ts_asked t) (ts_arrived t)
    (ts_server_asked t) (ts_server_arrived t) (ts_kroko_texts t) (ts_server_texts t) (ts_streaming_text t)
    (ts_heard t) (ts_changes t) v (ts_pauses t) (ts_recognizer t).
Definition set_ts_pauses (v : list PauseRecord) (t : TextSide) : TextSide :=
  mkTextSide (ts_text t) (ts_class t) (ts_grammar_class t) (ts_answers t) (ts_asked t) (ts_arrived t)
    (ts_server_asked t) (ts_server_arrived t) (ts_kroko_texts t) (ts_server_texts t) (ts_streaming_text t)
    (ts_heard t) (ts_changes t) (ts_finalized_at t) v (ts_recognizer t).
Definition set_ts_recognizer (v : list RecognizerRecord) (t : TextSide) : TextSide :=
  mkTextSide (ts_text t) (ts_class t) (ts_grammar_class t) (ts_answers t) (ts_asked t) (ts_arrived t)
    (ts_server_asked t) (ts_server_arrived t) (ts_kroko_texts t) (ts_server_texts t) (ts_streaming_text t)
    (ts_heard t) (ts_changes t) (ts_finalized_at t) (ts_pauses t) v.

Record TurnPolicy := mkTurnPolicy {
  tp_evidence : Assembler;
  tp_cells : CellSide;
  tp_words : TextSide;
  tp_pending : option Pending;
  tp_last_progress : MonoInstant;
  tp_finished : bool;
  tp_endpoint : list EndpointEvent;
}.
Definition set_tp_evidence (v : Assembler) (p : TurnPolicy) : TurnPolicy :=
  mkTurnPolicy v (tp_cells p) (tp_words p) (tp_pending p) (tp_last_progress p) (tp_finished p) (tp_endpoint p).
Definition set_tp_cells (v : CellSide) (p : TurnPolicy) : TurnPolicy :=
  mkTurnPolicy (tp_evidence p) v (tp_words p) (tp_pending p) (tp_last_progress p) (tp_finished p) (tp_endpoint p).
Definition set_tp_words (v : TextSide) (p : TurnPolicy) : TurnPolicy :=
  mkTurnPolicy (tp_evidence p) (tp_cells p) v (tp_pending p) (tp_last_progress p) (tp_finished p) (tp_endpoint p).
Definition set_tp_pending (v : option Pending) (p : TurnPolicy) : TurnPolicy :=
  mkTurnPolicy (tp_evidence p) (tp_cells p) (tp_words p) v (tp_last_progress p) (tp_finished p) (tp_endpoint p).
Definition set_tp_last_progress (v : MonoInstant) (p : TurnPolicy) : TurnPolicy :=
  mkTurnPolicy (tp_evidence p) (tp_cells p) (tp_words p) (tp_pending p) v (tp_finished p) (tp_endpoint p).
Definition set_tp_finished (v : bool) (p : TurnPolicy) : TurnPolicy :=
  mkTurnPolicy (tp_evidence p) (tp_cells p) (tp_words p) (tp_pending p) (tp_last_progress p) v (tp_endpoint p).
Definition set_tp_endpoint (v : list EndpointEvent) (p : TurnPolicy) : TurnPolicy :=
  mkTurnPolicy (tp_evidence p) (tp_cells p) (tp_words p) (tp_pending p) (tp_last_progress p) (tp_finished p) v.

(** ** List methods *)
(** The last element [p] holds of, changed by [f]. *)
Definition update_last_where {A} (p : A -> bool) (f : A -> A) (l : list A) : list A := rev (update_first p f (rev l)).
Definition count {A} (p : A -> bool) (l : list A) : N := N.of_nat (length (retain p l)).
Definition text_eqb (a b : Text) : bool := bool_decide (a = b).
(** [contains], then [push]. *)
Definition add_text (t : Text) (l : list Text) : list Text := if any (text_eqb t) l then l else l ++ [t].

Definition bool_N (b : bool) : N := if b then 1 else 0.
(** [count_evidence]. *)
Definition count_evidence (audio : CellAudio) (background : option F64) (e : EvidenceCounts) : EvidenceCounts :=
  match audio with
  | Ca_Gap _ =>
      mkCounts (ec_cells e + 1) (ec_gap e + 1) (ec_vad_unknown e) (ec_loudness_unknown e) (ec_echo_no_reference e)
        (ec_echo_only e) (ec_echo_near_end e) (ec_echo_unknown e) (ec_reference_incomplete e)
        (ec_background_available e + bool_N (is_some background))
  | Ca_Present energy_centi _ vad echo =>
      mkCounts (ec_cells e + 1) (ec_gap e) (ec_vad_unknown e + bool_N (negb (is_some (vad_known vad))))
        (ec_loudness_unknown e + bool_N (negb (is_some energy_centi)))
        (ec_echo_no_reference e + bool_N (bool_decide (ec_label echo = El_NoReference)))
        (ec_echo_only e + bool_N (bool_decide (ec_label echo = El_EchoOnly)))
        (ec_echo_near_end e + bool_N (bool_decide (ec_label echo = El_NearEndPresent)))
        (ec_echo_unknown e + bool_N (bool_decide (ec_label echo = El_Unknown)))
        (ec_reference_incomplete e
         + bool_N (bool_decide (ec_coverage echo = Rc_Partial) || bool_decide (ec_coverage echo = Rc_Missing)))
        (ec_background_available e + bool_N (is_some background))
  end.
(** [UtteranceTrace::push_cell]. *)
Definition push_cell (class : CellClass) (rule : ClassRule) (start end_ : Sample) (segments : list Segment) : list Segment :=
  match last segments with
  | Some l =>
      if bool_decide (sg_class l = class) && bool_decide (sg_rule l = rule) && (sg_end l =? start) then
        removelast segments ++ [mkSegment (sg_class l) (sg_rule l) (sg_start l) end_]
      else segments ++ [mkSegment class rule start end_]
  | None => segments ++ [mkSegment class rule start end_]
  end.

Section policy.
Context `{Unicode} `{Completeness} (config : TurnConfig) (spec : TurnSpec).
Let P : EndpointPolicy := tc_endpoint config.
Let A : AttributionPolicy := tc_attribution config.

Definition reply_spec : option ReplySpec := match tn_kind spec with Tk_Reply r => Some r | _ => None end.
Definition wake_anchor : option WakeAnchor := match tn_kind spec with Tk_Wake w => Some w | _ => None end.
Definition is_reply : bool := is_some reply_spec.
Definition is_ha_reply : bool :=
  match reply_spec with Some r => match rs_origin r with Ro_HaConversation => true | Ro_Expectation => false end | None => false end.

(** [TurnPolicy::new]. *)
Definition cell_side_new : CellSide :=
  mkCellSide
    (classifier_new A (tn_trigger spec) ((fun r => mkReplyAttribution (rs_guard_until r)) <$> reply_spec))
    (background_new (at_non_speech_max A)) foreground_new (Some []) [] None 0 0 [] None None None None
    None None false (mkCounts 0 0 0 0 0 0 0 0 0 0) [].
Definition text_side_new : TextSide :=
  mkTextSide
    (tracker_new (tn_trigger spec)
       ((fun w => mkWakeCut (sample_add (wa_candidate_open w) (from_ms 480)) (wa_phrase w)) <$> wake_anchor))
    None None [] [] [] [] [] [] [] [] [] [] [] [] [].
Definition policy_new (now : MonoInstant) : result EvidenceError TurnPolicy :=
  let? evidence := assembler_new (evidence_plan spec) in
  Ok (mkTurnPolicy evidence cell_side_new text_side_new None now false []).

(** ** Ending *)
Definition push_event (e : EndpointEvent) (p : TurnPolicy) : TurnPolicy := set_tp_endpoint (tp_endpoint p ++ [e]) p.
Definition close (reason : CloseReason) (cause : CloseCause) (p : TurnPolicy) : TurnPolicy * list Decision :=
  if tp_finished p then (p, [])
  else
    let at_ := cs_frontier (tp_cells p) in
    (push_event (Ee_Close reason cause at_) (set_tp_finished true p), [De_Close reason at_]).

(** Whether any command speech after the trigger exists. *)
Definition command_start_any (c : CellSide) : option Sample :=
  if 0 <? cs_command_cells c then Some (default (tn_trigger spec) (cs_command_start c)) else None.

Definition next_deadline (p : TurnPolicy) : option MonoInstant :=
  if tp_finished p then None
  else
    let stall := after (tp_last_progress p) (from_millis (ep_evidence_stall_ms P)) in
    match reply_spec, command_start_any (tp_cells p) with
    | Some r, None => Some (N.min stall (rs_wall_deadline r))
    | _, _ => Some stall
    end.

Definition on_timer (now : MonoInstant) (p : TurnPolicy) : TurnPolicy * list Decision :=
  if tp_finished p then (p, [])
  else if
    match reply_spec, command_start_any (tp_cells p) with Some r, None => rs_wall_deadline r <=? now | _, _ => false end
  then close Cz_NoInput Cu_ReplyWallClock p
  else if from_millis (ep_evidence_stall_ms P) <=? mono_since now (tp_last_progress p) then
    close Cz_Interrupted Cu_EvidenceStalled p
  else (p, []).

(** ** A cell *)
Definition reopen (gap_end : Sample) (p : TurnPolicy) : TurnPolicy * list Decision :=
  match reply_spec with
  | None => (p, [])
  | Some r =>
      (push_event (Ee_Reopen gap_end) (set_tp_finished true p),
       [De_ReopenReply (mkReopen gap_end (N.max gap_end (tn_trigger spec)) (rs_no_input_at r))])
  end.

(** The wake word's cells give [F] its seed once the cells reach the trigger. *)
Definition seed_foreground (after_trigger : bool) (c : CellSide) : CellSide :=
  if after_trigger then
    match cs_seed c with
    | Some seed =>
        let f := foreground_seed seed (cs_foreground c) in
        set_cs_foreground_seeded (fg_seeded f) (set_cs_foreground f (set_cs_seed None c))
    | None => c
    end
  else c.

(** The cell classified and recorded. *)
Definition record_cell (cell : CellEvidence) (background : option F64) (c : CellSide) : CellSide * Classified :=
  let start := cell_start (ce_cell cell) in
  let end_ := cell_end (ce_cell cell) in
  let after_trigger := tn_trigger spec <? end_ in
  let foreground := foreground_current (cs_foreground c) in
  let c := set_cs_evidence (count_evidence (ce_audio cell) background (cs_evidence c)) c in
  let '(classifier, judged) := classify cell background foreground (cs_classifier c) in
  let c := set_cs_classifier classifier c in
  let c := set_cs_segments (push_cell (cd_class judged) (cd_rule judged) start end_ (cs_segments c)) c in
  let c := set_cs_frontier (Some end_) c in
  let positive := speech_positive (ce_audio cell) (at_speech_positive_min A) in
  let c := if positive then set_cs_last_speech_positive_end (Some end_) c else c in
  let c := set_cs_cells (cs_cells c ++ [mkCellRecord (cd_class judged) positive end_]) c in
  let c :=
    match cd_opened judged with
    | Some open =>
        let c := set_cs_run_start (Some (ro_start open)) c in
        if after_trigger then set_cs_dated_back_cells (cs_dated_back_cells c + ro_dated_back_cells open) c else c
    | None => c
    end in
  (c, judged).

(** A wake word's own cell, before the trigger. *)
Definition seed_cell (cell : CellEvidence) (c : CellSide) : CellSide :=
  match wake_anchor, ce_audio cell, cs_seed c with
  | Some w, Ca_Present (Some centi) _ _ _, Some seed =>
      if (wa_support_start w <=? cell_start (ce_cell cell))
         && match cell_vad (ce_audio cell) with Some v => f32_leb (at_non_speech_max A) v | None => false end
      then set_cs_seed (Some (seed ++ [centi])) c
      else c
  | _, _, _ => c
  end.

(** A command-speech cell after the trigger. *)
Definition command_cell (cell : CellEvidence) (c : CellSide) : CellSide * list Decision :=
  let start := cell_start (ce_cell cell) in
  let end_ := cell_end (ce_cell cell) in
  let c :=
    match ce_audio cell with
    | Ca_Present (Some e) _ _ _ => set_cs_foreground (foreground_add e (cs_foreground c)) c
    | _ => c
    end in
  let c := set_cs_foreground_db (foreground_current (cs_foreground c)) c in
  let c := set_cs_command_cells (cs_command_cells c + 1) c in
  let c := set_cs_command_ends (cs_command_ends c ++ [end_]) c in
  let '(c, out) :=
    if cs_command_cells c =? 1 then
      (set_cs_answer_start (match cs_run_start c with Some s => Some s | None => Some start end) c,
       [De_CommandStarted start])
    else (c, []) in
  let c :=
    if negb (is_some (cs_command_start c)) && (tn_trigger spec <=? start) then set_cs_command_start (Some start) c else c in
  (c, out).

Definition on_cell (cell : CellEvidence) (p : TurnPolicy) : TurnPolicy * list Decision :=
  let start := cell_start (ce_cell cell) in
  let end_ := cell_end (ce_cell cell) in
  let c := tp_cells p in
  let background := background_current (cs_background c) in
  let c := set_cs_background (background_push (ce_audio cell) (cs_background c)) c in
  let with_cells c := set_tp_cells c p in
  if start <? round_down (tn_start spec) CELL_SAMPLES then (with_cells c, [])
  else
    match cs_reply_gap_end c with
    | Some gap_end =>
        match ce_audio cell with
        | Ca_Gap _ => (with_cells (set_cs_reply_gap_end (Some end_) c), [])
        | Ca_Present _ _ _ _ => reopen gap_end (with_cells c)
        end
    | None =>
        let after_trigger := tn_trigger spec <? end_ in
        let c := seed_foreground after_trigger c in
        let '(c, judged) := record_cell cell background c in
        match ce_audio cell with
        | Ca_Gap muted =>
            if is_reply && (cs_command_cells c =? 0) then (with_cells (set_cs_reply_gap_end (Some end_) c), [])
            else if muted then close Cz_Muted Cu_MutedCell (with_cells c)
            else close Cz_Interrupted Cu_Gap (with_cells c)
        | Ca_Present _ _ _ _ =>
            if negb after_trigger then (with_cells (seed_cell cell c), [])
            else if bool_decide (cd_class judged = Cc_CommandSpeech) then
              let '(c, out) := command_cell cell c in (with_cells c, out)
            else (with_cells c, [])
        end
    end.

(** ** The pause server and HA's sentence matcher *)
Definition recognizer_answer (answer : RecognizerAnswer) (now : MonoInstant) (p : TurnPolicy) : TurnPolicy :=
  if tp_finished p then p
  else set_tp_words (set_ts_arrived (ts_arrived (tp_words p) ++ [(answer, now)]) (tp_words p)) p.
Definition pause_server_asked (pause : Sample) (now : MonoInstant) (p : TurnPolicy) : TurnPolicy :=
  if tp_finished p then p
  else set_tp_words (set_ts_server_asked (ts_server_asked (tp_words p) ++ [(pause, now)]) (tp_words p)) p.
Definition pause_server_answer (answer : PauseServerAnswer) (now : MonoInstant) (p : TurnPolicy) : TurnPolicy :=
  if tp_finished p then p
  else
    let from :=
      match as_last_through (tp_evidence p) with
      | Some pushed => if ps_pause answer <=? pushed then pushed + 1 else ps_pause answer
      | None => ps_pause answer
      end in
    set_tp_words
      (set_ts_server_arrived (ts_server_arrived (tp_words p) ++ [mkArrival answer from now]) (tp_words p)) p.

Definition server_ms (pause : Sample) (now : MonoInstant) (t : TextSide) : option N :=
  (fun a => as_millis (mono_since now a.2)) <$> find_first (fun a => a.1 =? pause) (rev (ts_server_asked t)).
Definition server_open (r : PauseRecord) : bool :=
  match pr_server r with Some s => pause_is_open s | None => false end.
Definition set_server (s : PauseWords) (r : PauseRecord) : PauseRecord := mkPauseRecord (pr_through r) (pr_kroko r) (Some s).

Definition supersede_one (now : MonoInstant) (t : TextSide) (r : PauseRecord) : PauseRecord :=
  match pr_server r, server_ms (pr_through r) now t with
  | Some s, Some ms =>
      if pause_is_open s then
        set_server (mkPauseWords (pw_text s) (Some ms) (pw_judged s) (pw_at s) (Some Pe_Superseded)) r
      else r
  | _, _ => r
  end.
Definition supersede_server (now : MonoInstant) (t : TextSide) : TextSide :=
  set_ts_pauses (supersede_one now t <$> ts_pauses t) t.

(** One due answer: the words stand in when their pause decode still stands. *)
Definition take_server_answer (arrival : ServerArrival) (t : TextSide) : TextSide * bool :=
  let pause := ps_pause (sa_answer arrival) in
  let ms := server_ms pause (sa_at arrival) t in
  let is_pause r := pr_through r =? pause in
  match find_first is_pause (rev (ts_pauses t)) with
  | Some r =>
      match pr_server r with
      | Some s =>
          if pause_is_open s then
            let with_server s t := set_ts_pauses (update_last_where is_pause (set_server s) (ts_pauses t)) t in
            match ps_outcome (sa_answer arrival) with
            | Ok text =>
                let words := trim text in
                let t := with_server (mkPauseWords (Some words) ms (pw_judged s) (pw_at s) (pw_error s)) t in
                match words with
                | [] => (t, false)
                | _ => let '(tracker, stood) := stand_server pause words (ts_text t) in (set_ts_text tracker t, stood)
                end
            | Err failure =>
                (with_server (mkPauseWords (pw_text s) ms (pw_judged s) (pw_at s) (Some (pause_error_from failure))) t, false)
            end
          else (t, false)
      | None => (t, false)
      end
  | None => (t, false)
  end.
Fixpoint take_due_answers (due : list ServerArrival) (t : TextSide) (stood : bool) : TextSide * bool :=
  match due with
  | [] => (t, stood)
  | a :: due => let '(t, s) := take_server_answer a t in take_due_answers due t (stood || s)
  end.
Definition take_server_answers (through : Sample) (t : TextSide) : TextSide * bool :=
  let is_due a := sa_from a <=? through in
  let due := retain is_due (ts_server_arrived t) in
  take_due_answers due (set_ts_server_arrived (retain (fun a => negb (is_due a)) (ts_server_arrived t)) t) false.

(** [refresh_class]. *)
Definition refresh_class (t : TextSide) : TextSide :=
  set_ts_class
    match ts_grammar_class t with
    | None => None
    | Some Tc_Unknown =>
        Some (match find_first (fun a => text_eqb a.1 (tr_prefix (ts_text t))) (ts_answers t) with
              | Some a => a.2
              | None => Tc_Unknown
              end)
    | Some c => Some c
    end t.

Definition apply_answer (block : Sample) (arrived : RecognizerAnswer * MonoInstant) (t : TextSide) : TextSide :=
  let '(answer, at_) := arrived in
  match find_first (fun a => text_eqb (ak_text a) (rg_text answer)) (ts_asked t) with
  | None =>
      set_ts_recognizer (ts_recognizer t ++ [mkRecognizerRecord (rg_text answer) block None None None (Some Re_NotAsked)]) t
  | Some asked =>
      let round_trip := mono_since at_ (ak_at asked) in
      match ts_recognizer t !! ak_record asked with
      | None => t
      | Some record =>
          if is_some (rr_applied_at record) || is_some (rr_error record) then t
          else
            let ms := Some (as_millis round_trip) in
            let update r := set_ts_recognizer (<[ak_record asked := r]> (ts_recognizer t)) t in
            let failed e := update (mkRecognizerRecord (rr_text record) (rr_asked_at record) (rr_class record)
                                      (rr_applied_at record) ms (Some e)) in
            if from_millis (ep_recognizer_limit_ms P) <? round_trip then failed Re_Timeout
            else
              match rg_outcome answer with
              | Ok class =>
                  let t := update (mkRecognizerRecord (rr_text record) (rr_asked_at record) (Some class) (Some block) ms
                                     (rr_error record)) in
                  set_ts_answers (ts_answers t ++ [(rg_text answer, class)]) t
              | Err e => failed e
              end
      end
  end.
Definition apply_answers (block : Sample) (t : TextSide) : TextSide :=
  refresh_class (foldl (fun t a => apply_answer block a t) (set_ts_arrived [] t) (ts_arrived t)).

(** ** What the cells say at a block *)
Definition command_ms (c : CellSide) : Samples := (cs_command_cells c + cs_dated_back_cells c) * CELL_SAMPLES.
Definition is_command (r : CellRecord) : bool := bool_decide (cr_class r = Cc_CommandSpeech).
Definition is_background (r : CellRecord) : bool := bool_decide (cr_class r = Cc_BackgroundSpeech).
Definition command_cells_since (since : Sample) (c : CellSide) : N :=
  count is_command (take_while (fun r => since <? cr_end r) (rev (cs_cells c))).
Definition last_command_end_by (at_ : Sample) (c : CellSide) : option Sample :=
  match partition_point (fun e => e <=? at_) (cs_command_ends c) with
  | O => None
  | S i => cs_command_ends c !! i
  end.

Definition span_end (boundary decided : Sample) (t : TextSide) : SpanEnd :=
  let cell := sample_add boundary (ep_lookahead P) in
  let last_word := last_command_word_by decided (ts_text t) in
  match (fun w => sample_add w (ep_asr_word_margin P)) <$> last_word with
  | Some word => if cell <? word then mkSpanEnd word Eb_AsrWord last_word else mkSpanEnd cell Eb_Cell last_word
  | None => mkSpanEnd cell Eb_Cell last_word
  end.
Definition judged (t : TextSide) : Judged := mkJudged (tr_prefix (ts_text t)) (ts_class t).

Definition commit (route : Route) (boundary : Sample) (end_ : SpanEnd) (frontier : Sample) (j : Judged)
    (p : TurnPolicy) : TurnPolicy * list Decision :=
  let start :=
    match reply_spec with
    | Some _ =>
        match cs_answer_start (tp_cells p) with
        | Some a => N.max (sample_sub a (ep_reply_span_lead P)) (tn_start spec)
        | None => tn_start spec
        end
    | None => tn_start spec
    end in
  let span := sample_span_new start (N.min (se_end end_) frontier) in
  let source :=
    if any (text_eqb (jd_text j)) (ts_server_texts (tp_words p)) then Ts_Server
    else if any (text_eqb (jd_text j)) (ts_kroko_texts (tp_words p)) then Ts_Kroko
    else Ts_Streaming in
  let recheck := match route with Rt_B | Rt_Fallback => true | _ => false end in
  (push_event (Ee_Commit route boundary span (se_bound end_) (se_last_word end_) frontier (jd_text j) (jd_class j) source)
     (set_tp_finished true p),
   [De_Commit (mkCommit route boundary span (se_bound end_) (se_last_word end_) frontier (jd_text j) (jd_class j)
                 recheck source)]).

(** ** Routes *)
Definition route_evidence (pause required : Samples) (p : TurnPolicy) : RouteEvidence :=
  mkRouteEvidence (ts_class (tp_words p)) (as_ms (command_ms (tp_cells p))) None None false (as_ms pause) (as_ms required)
    None None.

Definition quiet_vote (background_quiet : bool) (r : CellRecord) : bool :=
  match cr_class r with
  | Cc_NonSpeech | Cc_SelfOutput => true
  | Cc_BackgroundSpeech => background_quiet
  | _ => false
  end.
Definition route_a (frontier through last_cmd_end : Sample) (p : TurnPolicy) : option (Route * Sample * RouteEvidence) :=
  let c := tp_cells p in
  let text := ts_text (tp_words p) in
  class ← ts_class (tp_words p);
  if (command_ms c <? ep_min_command P) || (match tr_prefix text with [] => true | _ => false end) then None
  else
    let background_quiet := match class with Tc_NeedsMore | Tc_Unknown => true | _ => false end in
    let quiet := count (quiet_vote background_quiet) (take (N.to_nat (ep_vote_cells P)) (rev (cs_cells c))) in
    if quiet <? ep_vote_quiet_min P then None
    else
      let trailing := trailing_quiet through (default (tn_start spec) (cs_last_speech_positive_end c)) text in
      let blanks_min := trailing_samples (Tq_Blanks (ep_trailing_blanks_min P)) in
      if trailing_samples trailing <? blanks_min then None
      else
        let pause := sample_since frontier last_cmd_end in
        let required := pause_for P class in
        if pause <? required then None
        else
          let e := route_evidence pause required p in
          Some (Rt_A, last_cmd_end,
                mkRouteEvidence (re_class e) (re_command_ms e) (Some quiet) (Some (as_ms (trailing_samples trailing)))
                  (finalized_standing text) (re_pause_ms e) (re_required_ms e) (re_prefix_sample e)
                  (re_speech_positive_after e)).

Definition route_b (frontier : Sample) (p : TurnPolicy) : option (Route * Sample * RouteEvidence) :=
  let c := tp_cells p in
  if negb (bool_decide (ts_class (tp_words p) = Some Tc_Complete)) then None
  else
    ps ← tr_prefix_sample (ts_text (tp_words p));
    let pause := sample_since frontier ps in
    if pause <? ep_pause_complete P then None
    else
      let since := retain cr_speech_positive (take_while (fun r => ps <? cr_end r) (rev (cs_cells c))) in
      let positive := N.of_nat (length since) in
      let background := count is_background since in
      if (positive =? 0) || (background * 100 <? positive * ep_background_share_percent P) then None
      else
        boundary ← last_command_end_by ps c;
        let e := route_evidence pause (ep_pause_complete P) p in
        Some (Rt_B, boundary,
              mkRouteEvidence (re_class e) (re_command_ms e) (re_quiet_votes e) (re_trailing_quiet_ms e) (re_finalized e)
                (re_pause_ms e) (re_required_ms e) (Some ps) (Some (positive, background))).

Definition route_r (frontier last_cmd_end : Sample) (p : TurnPolicy) : option (Route * Sample * RouteEvidence) :=
  let pause := sample_since frontier last_cmd_end in
  if ep_ha_reply_pause P <=? pause then Some (Rt_R, last_cmd_end, route_evidence pause (ep_ha_reply_pause P) p) else None.

(** ** A block *)
Definition pending_step (pending : Pending) (frontier : Sample) (p : TurnPolicy) : TurnPolicy * list Decision :=
  let after_ := command_cells_since (pn_since pending) (tp_cells p) in
  if ep_revoke_command_cells P <=? after_ then
    (push_event (Ee_Revoked (pn_boundary pending) frontier after_) p, [De_EndRevoked (pn_boundary pending) frontier])
  else
    let end_ := span_end (pn_boundary pending) (pn_since pending) (tp_words p) in
    if ep_lookahead P <=? sample_since frontier (N.max (pn_since pending) (se_end end_)) then
      commit (pn_route pending) (pn_boundary pending) end_ frontier (pn_judged pending) p
    else (set_tp_pending (Some pending) p, []).

Definition fallback (frontier command_start : Sample) (p : TurnPolicy) : TurnPolicy * list Decision :=
  let text := ts_text (tp_words p) in
  let progress := N.max (tr_progress_sample text) command_start in
  if ep_no_progress P <=? sample_since frontier progress then
    let boundary :=
      match ts_class (tp_words p), tr_prefix_sample text with
      | Some Tc_Complete, Some ps => last_command_end_by ps (tp_cells p)
      | _, _ => None
      end in
    match boundary with
    | Some b => commit Rt_Fallback b (span_end b frontier (tp_words p)) frontier (judged (tp_words p)) p
    | None => close Cz_Retry Cu_NoProgress p
    end
  else (p, []).

Definition max_utterance : Samples :=
  if tc_extended_utterances config then ep_max_extended_utterance P else ep_max_utterance P.
Definition no_input_at : Sample :=
  match reply_spec with Some r => rs_no_input_at r | None => sample_add (tn_trigger spec) (ep_no_input P) end.
Definition find_route (frontier through last_cmd_end : Sample) (p : TurnPolicy) : option (Route * Sample * RouteEvidence) :=
  if is_ha_reply then route_r frontier last_cmd_end p
  else match route_a frontier through last_cmd_end p with Some r => Some r | None => route_b frontier p end.

(** [last_cmd_end] is there: a command-speech cell left its end. *)
Definition evaluate (frontier through : Sample) (p : TurnPolicy) : TurnPolicy * list Decision :=
  let command := command_start_any (tp_cells p) in
  if negb (is_some command) && (no_input_at <=? frontier) then close Cz_NoInput Cu_Limit p
  else
    let long_from := if is_reply then command else Some (tn_trigger spec) in
    if match long_from with Some from => max_utterance <=? sample_since frontier from | None => false end then
      close Cz_TooLong Cu_Limit p
    else
      match tp_pending p with
      | Some pending => pending_step pending frontier (set_tp_pending None p)
      | None =>
          match command with
          | None => (p, [])
          | Some command_start =>
              let last_cmd_end := default 0 (last (cs_command_ends (tp_cells p))) in
              match find_route frontier through last_cmd_end p with
              | Some (route, boundary, evidence) =>
                  (push_event (Ee_Pending route boundary frontier evidence)
                     (set_tp_pending (Some (mkPending route boundary frontier (judged (tp_words p)))) p),
                   [De_EndPending route boundary frontier])
              | None => fallback frontier command_start p
              end
          end
      end.

(** The pause's words as judged, where [settle] left them. *)
Definition update_last {T} (f : T -> T) (l : list T) : list T :=
  match rev l with x :: rest => rev (f x :: rest) | [] => l end.
Definition judge_kroko (through : Sample) (t : TextSide) : TextSide :=
  match ts_pauses t with
  | [] => t
  | _ =>
      let prefix := tr_prefix (ts_text t) in
      let judge r :=
        let k := pr_kroko r in
        mkPauseRecord (pr_through r) (mkPauseWords (pw_text k) (pw_ms k) (Some prefix) (Some through) (pw_error k))
          (pr_server r) in
      set_ts_kroko_texts (add_text prefix (ts_kroko_texts t)) (set_ts_pauses (update_last judge (ts_pauses t)) t)
  end.
Definition judge_server (through : Sample) (t : TextSide) : TextSide :=
  match last (ts_pauses t) ≫= pr_server with
  | Some s =>
      if is_some (pw_at s) then t
      else
        let prefix := tr_prefix (ts_text t) in
        let s := mkPauseWords (pw_text s) (pw_ms s) (Some prefix) (Some through) (pw_error s) in
        set_ts_server_texts (add_text prefix (ts_server_texts t)) (set_ts_pauses (update_last (set_server s) (ts_pauses t)) t)
  | None => t
  end.

(** The prefix changed: the grammar judges it, and says whether HA should. *)
Definition text_changed (through : Sample) (t : TextSide) : TextSide * bool :=
  let prefix := tr_prefix (ts_text t) in
  let grammar_class := match prefix with [] => None | _ => Some (grammar_classify prefix) end in
  let ask := bool_decide (grammar_class = Some Tc_Unknown) && tc_recognizer_available config && negb is_ha_reply
             && negb (any (fun a => text_eqb (ak_text a) prefix) (ts_asked t)) in
  let t := set_ts_grammar_class grammar_class t in
  let t := set_ts_changes (ts_changes t ++ [mkTextChange prefix grammar_class through (tracker_source (ts_text t))]) t in
  (refresh_class t, ask).

(** What a block's result does to the texts, up to the evaluation; and whether HA's
    matcher should be asked. *)
Definition take_block (obs : AsrObservation) (now : MonoInstant) (t : TextSide) : TextSide * bool :=
  let through := asr_through obs in
  let finalized := match asr_kind obs with Ak_Finalized => true | Ak_Live => false end in
  let kroko_words := trim (mjoin (tk_text <$> asr_tokens obs)) in
  let t := if finalized then supersede_server now (set_ts_finalized_at (ts_finalized_at t ++ [through]) t) else t in
  let t := apply_answers through t in
  let '(tracker, ended) := tracker_take obs (ts_text t) in
  let t := set_ts_text tracker t in
  let t := if ended then supersede_server now t else t in
  let t :=
    if finalized then
      let kroko := mkPauseWords (Some kroko_words) None None None None in
      let server := if tc_pause_server config then Some pause_words_default else None in
      set_ts_pauses (ts_pauses t ++ [mkPauseRecord through kroko server]) t
    else t in
  let '(t, server_stood) := take_server_answers through t in
  let '(tracker, changed) := tracker_settle through (ts_text t) in
  let t := set_ts_text tracker t in
  let t := if finalized && negb server_stood then judge_kroko through t else t in
  let t := if server_stood then judge_server through t else t in
  let '(t, ask) := if changed then text_changed through t else (t, false) in
  (set_ts_heard (tracker_heard (ts_text t)) (set_ts_streaming_text (tr_streaming_text (ts_text t)) t), ask).

Definition ask_recognizer (through : Sample) (now : MonoInstant) (p : TurnPolicy) : TurnPolicy * list Decision :=
  let t := tp_words p in
  let prefix := tr_prefix (ts_text t) in
  let t := set_ts_asked (ts_asked t ++ [mkAsked prefix now (length (ts_recognizer t))]) t in
  let t := set_ts_recognizer (ts_recognizer t ++ [mkRecognizerRecord prefix through None None None None]) t in
  (set_tp_words t p, [De_AskRecognizer prefix]).

Definition on_block (obs : AsrObservation) (now : MonoInstant) (p : TurnPolicy) : TurnPolicy * list Decision :=
  let through := asr_through obs in
  let '(t, ask) := take_block obs now (tp_words p) in
  let p := set_tp_words t p in
  let '(p, out) :=
    match cs_reply_gap_end (tp_cells p), cs_frontier (tp_cells p) with
    | None, Some frontier => evaluate frontier through p
    | _, _ => (p, [])
    end in
  if ask && negb (tp_finished p) then let '(p, asked) := ask_recognizer through now p in (p, out ++ asked) else (p, out).

(** ** Driving it *)
Definition on_released (now : MonoInstant) (p : TurnPolicy) (item : Released) : TurnPolicy * list Decision :=
  match item with
  | Rl_Cell cell => on_cell cell p
  | Rl_Block obs => on_block obs now (set_tp_last_progress now p)
  end.
Fixpoint on_items (now : MonoInstant) (items : list Released) (p : TurnPolicy) : TurnPolicy * list Decision :=
  match items with
  | [] => (p, [])
  | item :: items =>
      if tp_finished p then (p, [])
      else
        let '(p, out) := on_released now p item in
        let '(p, rest) := on_items now items p in
        (p, out ++ rest)
  end.
Definition advance (now : MonoInstant) (p : TurnPolicy) : TurnPolicy * list Decision :=
  if tp_finished p then (p, [])
  else
    let '(evidence, released) := evidence_release (tp_evidence p) [] in
    on_items now released (set_tp_evidence evidence p).

(** What the runtime does to a policy. *)
Inductive PolicyEvent :=
  | Pv_Evidence (op : EvidenceOp)
  | Pv_Advance (now : MonoInstant)
  | Pv_Timer (now : MonoInstant)
  | Pv_Mute
  | Pv_SessionLost
  | Pv_AudioOverrun
  | Pv_WorkerError
  | Pv_Discontinuity
  | Pv_RecognizerAnswer (answer : RecognizerAnswer) (now : MonoInstant)
  | Pv_ServerAsked (pause : Sample) (now : MonoInstant)
  | Pv_ServerAnswer (answer : PauseServerAnswer) (now : MonoInstant).

(** A refused push changes nothing; releasing is [advance]'s. *)
Definition push_evidence (op : EvidenceOp) (p : TurnPolicy) : TurnPolicy :=
  match push_op op (tp_evidence p) with Ok a => set_tp_evidence a p | Err _ => p end.
Definition policy_step (p : TurnPolicy) (e : PolicyEvent) : TurnPolicy * list Decision :=
  match e with
  | Pv_Evidence op => (push_evidence op p, [])
  | Pv_Advance now => advance now p
  | Pv_Timer now => on_timer now p
  | Pv_Mute => close Cz_Muted Cu_Mute p
  | Pv_SessionLost => close Cz_SessionLost Cu_SessionLost p
  | Pv_AudioOverrun => close Cz_AudioOverrun Cu_Overrun p
  | Pv_WorkerError => close Cz_Interrupted Cu_WorkerError p
  | Pv_Discontinuity => close Cz_Interrupted Cu_Discontinuity p
  | Pv_RecognizerAnswer answer now => (recognizer_answer answer now p, [])
  | Pv_ServerAsked pause now => (pause_server_asked pause now p, [])
  | Pv_ServerAnswer answer now => (pause_server_answer answer now p, [])
  end.
Fixpoint policy_run (p : TurnPolicy) (events : list PolicyEvent) : TurnPolicy * list Decision :=
  match events with
  | [] => (p, [])
  | e :: events =>
      let '(p, out) := policy_step p e in
      let '(p, rest) := policy_run p events in
      (p, out ++ rest)
  end.
End policy.

(** *** A spoken command *)
(** "Turn off the lights" in cells 10 to 20 of a button turn, in a quiet room; the
    utterance starts at cell 100. *)
Module Sample.
Definition c (n : N) : Sample := 51200 + n * 512.
Definition config : TurnConfig := mkTurnConfig endpoint_default attribution_default false true false.
Definition spec : TurnSpec := mkTurnSpec 3 51200 (c 10) 0 100 Tk_Button.
Definition grammar : Completeness := fun t => if text_eqb t (text_of "turn off the lights") then Tc_Complete else Tc_Unknown.
Definition speech_at (speech : list N) (n : N) : bool := any (N.eqb n) speech.
(** 0.95 or 0.05, at -50 or -75 dB. *)
Definition cell_events (speech : list N) (n : N) : list PolicyEvent :=
  let s := speech_at speech n in
  [Pv_Evidence (Eo_Device 3 (100 + n) [Di_Cell (device_cell_audio (if s then -5000 else -7500)%Z 0)]);
   Pv_Evidence (Eo_Vad 3 (100 + n) [Vi_Probability (if s then 1064514355 else 1028443341)]);
   Pv_Evidence (Eo_Echo 3 (100 + n) [ECHO_SILENT_REFERENCE])].
Definition words_said : list Token :=
  [mkToken (text_of " turn") (c 12); mkToken (text_of " off") (c 15); mkToken (text_of " the") (c 17);
   mkToken (text_of " lights") (c 21)].
Definition asr_event (k : N) : PolicyEvent :=
  let through := 51200 + k * 1280 in
  let tokens := retain (fun t => tk_emitted t <=? through) words_said in
  let last := match last tokens with Some t => tk_emitted t | None => 51200 end in
  Pv_Evidence (Eo_Asr 3 (mkAsr through tokens ((through - last) / 640) Ak_Live)).
Definition block_events (speech : list N) (i : nat) : list PolicyEvent :=
  let k := N.of_nat i + 1 in
  let first := (N.of_nat i * 1280 + 511) / 512 in
  let last := (k * 1280 + 511) / 512 in
  mjoin ((fun j => cell_events speech (first + N.of_nat j)) <$> seq 0 (N.to_nat (last - first))) ++
  [asr_event k; Pv_Advance (k * 80000000)].
Definition events (speech : list N) (blocks : nat) : list PolicyEvent :=
  Pv_Evidence (Eo_Device 3 0 (replicate 100 (Di_Cell (device_cell_audio (-7500) 0)))) ::
  mjoin (block_events speech <$> seq 0 blocks).
Definition said : list N := N.of_nat <$> seq 10 11.
Definition start : option TurnPolicy :=
  match policy_new config spec 0 with Ok p => Some p | Err _ => None end.
Definition run (speech : list N) (blocks : nat) : option (TurnPolicy * list Decision) :=
  (fun p => policy_run (H := ascii) (H0 := grammar) config spec p (events speech blocks)) <$> start.
End Sample.

Example lights_committed :
  snd <$> Sample.run Sample.said 19 = Some [
    De_CommandStarted (Sample.c 10);
    De_AskRecognizer (text_of "turn");
    De_AskRecognizer (text_of "turn off");
    De_AskRecognizer (text_of "turn off the");
    De_EndPending Rt_A (Sample.c 21) (51200 + 20480);
    De_Commit (mkCommit Rt_A (Sample.c 21) (mkSampleSpan 51200 (Sample.c 21 + 3072)) Eb_Cell (Some (Sample.c 21)) (Sample.c 47)
      (text_of "turn off the lights") (Some Tc_Complete) false Ts_Streaming)].
Proof. vm_compute. reflexivity. Qed.
(** Four more command cells in the lookahead revoke the end; three do not. *)
Example lights_revoked :
  last (default [] (snd <$> Sample.run (Sample.said ++ [43; 44; 45; 46]) 19)) = Some (De_EndRevoked (Sample.c 21) (Sample.c 47)).
Proof. vm_compute. reflexivity. Qed.
