(* ===== verification/EndpointProps.v ===== *)
(** * The endpoint reducer's contracts

    What a run of [Endpoint]'s policy promises: that it ends at most once and its
    trace tells its decisions; what a commit stands for; that an utterance is
    bounded in audio and in time; and that its decisions are a function of the
    evidence, not of when it arrived. *)
From S2P Require Import Prelude Float Ema Clock Evidence Level Classify Transcript Asr Endpoint.

(** ** One decision ends it *)
Definition terminal (d : Decision) : bool :=
  match d with De_Commit _ | De_Close _ _ | De_ReopenReply _ => true | _ => false end.
(** The decisions the trace keeps as endpoint events. *)
Definition logged (d : Decision) : bool :=
  match d with De_CommandStarted _ | De_AskRecognizer _ => false | _ => true end.
Definition event_of (e : EndpointEvent) : Decision -> Prop := fun d =>
  match e, d with
  | Ee_Pending route boundary since _, De_EndPending route' boundary' since' =>
      route = route' /\ boundary = boundary' /\ since = since'
  | Ee_Revoked boundary at_ _, De_EndRevoked boundary' at_' => boundary = boundary' /\ at_ = at_'
  | Ee_Commit route boundary span bound last_word at_ text class source, De_Commit c =>
      c = mkCommit route boundary span bound last_word at_ text class
            (match route with Rt_B | Rt_Fallback => true | _ => false end) source
  | Ee_Close reason _ at_, De_Close reason' at_' => reason = reason' /\ at_ = at_'
  | Ee_Reopen start, De_ReopenReply r => start = ro_reopen_start r
  | _, _ => False
  end.

(** [out] is what a policy decides on its way from [p] to [p']. *)
Record decides (p p' : TurnPolicy) (out : list Decision) : Prop := {
  dc_ended : tp_finished p = true -> p' = p /\ out = [];
  dc_end : tp_finished p = false ->
    if tp_finished p' then exists pre d, out = pre ++ [d] /\ terminal d = true /\ Forall (fun d => terminal d = false) pre
    else Forall (fun d => terminal d = false) out;
  dc_trace : exists events, tp_endpoint p' = tp_endpoint p ++ events /\ Forall2 event_of events (retain logged out);
}.

Lemma decides_refl p : decides p p [].
Proof. split; [done|intros ->; constructor|exists []; split; [by rewrite app_nil_r|constructor]]. Qed.
Lemma decides_quiet p p' :
  tp_finished p' = tp_finished p -> tp_endpoint p' = tp_endpoint p -> tp_finished p = false -> decides p p' [].
Proof.
  intros Hf He Hn. split; [congruence| |].
  - intros _. rewrite Hf, Hn. constructor.
  - exists []. rewrite He, app_nil_r. split; [done|constructor].
Qed.
Lemma decides_trans p1 p2 p3 out1 out2 : decides p1 p2 out1 -> decides p2 p3 out2 -> decides p1 p3 (out1 ++ out2).
Proof.
  intros [E1 F1 (ev1 & T1 & L1)] [E2 F2 (ev2 & T2 & L2)]. split.
  - intros Hf. destruct (E1 Hf) as [-> ->]. by apply E2.
  - intros Hf. specialize (F1 Hf). destruct (tp_finished p2) eqn:Ef.
    + destruct (E2 eq_refl) as [-> ->]. by rewrite app_nil_r, Ef.
    + specialize (F2 eq_refl). destruct (tp_finished p3); [|by apply Forall_app].
      destruct F2 as (pre & d & -> & Hd & Hpre). exists (out1 ++ pre), d. rewrite app_assoc. split_and!; [done..|by apply Forall_app].
  - exists (ev1 ++ ev2). rewrite T2, T1, app_assoc. split; [done|]. rewrite retain_app. by apply Forall2_app.
Qed.

Section contracts.
Context {U : Unicode} {G : Completeness} (config : TurnConfig) (spec : TurnSpec).

(** One event with the decision it is the event of. *)
Lemma decides_one p p' e d :
  tp_finished p = false -> tp_finished p' = terminal d -> tp_endpoint p' = tp_endpoint p ++ [e] ->
  logged d = true -> event_of e d -> decides p p' [d].
Proof.
  intros Hf Hf' He Hl Hev. split; [congruence| |].
  - intros _. rewrite Hf'. destruct (terminal d) eqn:Et; [|by repeat constructor]. by exists [], d.
  - exists [e]. split; [done|]. rewrite retain_cons, Hl. by repeat constructor.
Qed.
Lemma decides_plain p p' d :
  tp_finished p = false -> tp_finished p' = false -> tp_endpoint p' = tp_endpoint p -> logged d = false -> decides p p' [d].
Proof.
  intros Hf Hf' He Hl. split; [congruence| |].
  - intros _. rewrite Hf'. by destruct d; repeat constructor.
  - exists []. rewrite He, app_nil_r. split; [done|]. rewrite retain_cons, Hl. constructor.
Qed.

(** Taking a step on state that is neither the end nor the trace. *)
Lemma decides_from p p1 p' out :
  tp_finished p1 = tp_finished p -> tp_endpoint p1 = tp_endpoint p -> tp_finished p = false ->
  decides p1 p' out -> decides p p' out.
Proof.
  intros Hf He Hn D. change out with ([] ++ out). eapply decides_trans; [by apply decides_quiet|exact D].
Qed.

Lemma close_decides reason cause p : let '(p', out) := close reason cause p in decides p p' out.
Proof.
  unfold close. destruct (tp_finished p) eqn:Ef; [apply decides_refl|].
  by eapply decides_one.
Qed.
Lemma commit_decides route boundary end_ frontier j p :
  tp_finished p = false -> let '(p', out) := commit config spec route boundary end_ frontier j p in decides p p' out.
Proof. intros Hf. unfold commit. by eapply decides_one. Qed.
Lemma reopen_decides gap_end p :
  tp_finished p = false -> let '(p', out) := reopen spec gap_end p in decides p p' out.
Proof. intros Hf. unfold reopen. destruct (reply_spec spec); [by eapply decides_one|apply decides_refl]. Qed.

Ltac from_step D :=
  revert D; match goal with |- context [let '(_, _) := ?s in _] => destruct s end; intros D;
  eapply decides_from; [| | |exact D]; done.

Lemma on_cell_decides cell p :
  tp_finished p = false -> let '(p', out) := on_cell config spec cell p in decides p p' out.
Proof.
  intros Hf. unfold on_cell. destruct (_ <? _); [by apply decides_quiet|].
  set (c := set_cs_background _ _). destruct (cs_reply_gap_end c) as [g|].
  { destruct (ce_audio cell); [by apply decides_quiet|]. pose proof (reopen_decides g (set_tp_cells c p) Hf) as D. from_step D. }
  destruct (record_cell _ _ _ _ _) as [c' j]. destruct (ce_audio cell) as [muted|e sm vad echo].
  - destruct (_ && _); [by apply decides_quiet|]. destruct muted.
    + pose proof (close_decides Cz_Muted Cu_MutedCell (set_tp_cells c' p)) as D. from_step D.
    + pose proof (close_decides Cz_Interrupted Cu_Gap (set_tp_cells c' p)) as D. from_step D.
  - destruct (negb _); [by apply decides_quiet|]. destruct (bool_decide _); [|by apply decides_quiet].
    destruct (command_cell spec cell c') as [c2 out] eqn:E.
    assert (Hout : out = [] \/ out = [De_CommandStarted (cell_start (ce_cell cell))]).
    { revert E. unfold command_cell. cbv zeta. destruct (_ =? 1); intros [= _ <-]; auto. }
    destruct Hout as [-> | ->]; [by apply decides_quiet|by apply decides_plain].
Qed.

Lemma pending_decides pending frontier p :
  tp_finished p = false -> let '(p', out) := pending_step config spec pending frontier p in decides p p' out.
Proof.
  intros Hf. unfold pending_step. destruct (_ <=? _); [by eapply decides_one|].
  destruct (_ <=? _); [by apply commit_decides|by apply decides_quiet].
Qed.
Lemma fallback_decides frontier command_start p :
  tp_finished p = false -> let '(p', out) := fallback config spec frontier command_start p in decides p p' out.
Proof.
  intros Hf. unfold fallback. destruct (_ <=? _); [|by apply decides_quiet].
  match goal with |- context [match ?o with Some _ => commit _ _ _ _ _ _ _ _ | None => _ end] => destruct o end;
    [by apply commit_decides|apply close_decides].
Qed.
Lemma evaluate_decides frontier through p :
  tp_finished p = false -> let '(p', out) := evaluate config spec frontier through p in decides p p' out.
Proof.
  intros Hf. unfold evaluate. destruct (_ && _); [apply close_decides|].
  match goal with |- context [if ?b then close Cz_TooLong _ _ else _] => destruct b end; [apply close_decides|].
  destruct (tp_pending p) as [pending|].
  { pose proof (pending_decides pending frontier (set_tp_pending None p) Hf) as D. from_step D. }
  destruct (command_start_any _ _) as [cs|]; [|by apply decides_quiet].
  destruct (find_route _ _ _ _ _ _) as [[[route boundary] evidence]|]; [by eapply decides_one|by apply fallback_decides].
Qed.
Lemma on_block_decides obs now p :
  tp_finished p = false -> let '(p', out) := on_block config spec obs now p in decides p p' out.
Proof.
  intros Hf. unfold on_block. destruct (take_block _ _ _ _ _) as [t ask]. set (p1 := set_tp_words t p).
  assert (D : let '(p', out) :=
    match cs_reply_gap_end (tp_cells p1), cs_frontier (tp_cells p1) with
    | None, Some frontier => evaluate config spec frontier (asr_through obs) p1 | _, _ => (p1, []) end in decides p p' out).
  { destruct (cs_reply_gap_end _); [by apply decides_quiet|]. destruct (cs_frontier _) as [f|]; [|by apply decides_quiet].
    pose proof (evaluate_decides f (asr_through obs) p1 Hf) as D. from_step D. }
  destruct (match cs_reply_gap_end _ with Some _ => _ | None => _ end) as [p2 out].
  destruct ask; cbn [andb]; [|done]. destruct (tp_finished p2) eqn:Ef; cbn [negb]; [done|].
  destruct (ask_recognizer (asr_through obs) now p2) as [p3 asked] eqn:E. eapply decides_trans; [exact D|].
  injection E as <- <-. by apply decides_plain.
Qed.
Lemma on_items_decides now items p : let '(p', out) := on_items config spec now items p in decides p p' out.
Proof.
  revert p. induction items as [|item items IH]; intros p; cbn [on_items]; [apply decides_refl|].
  destruct (tp_finished p) eqn:Ef; [apply decides_refl|].
  assert (D : let '(p', out) := on_released config spec now p item in decides p p' out).
  { destruct item as [cell|obs]; cbn [on_released]; [by apply on_cell_decides|].
    pose proof (on_block_decides obs now (set_tp_last_progress now p) Ef) as D. from_step D. }
  destruct (on_released _ _ _ _ _) as [p1 out]. specialize (IH p1). destruct (on_items _ _ _ _ _) as [p2 rest].
  by eapply decides_trans.
Qed.

Lemma push_evidence_fields op p :
  tp_finished (push_evidence op p) = tp_finished p /\ tp_endpoint (push_evidence op p) = tp_endpoint p /\
  tp_cells (push_evidence op p) = tp_cells p /\ tp_words (push_evidence op p) = tp_words p /\
  tp_pending (push_evidence op p) = tp_pending p.
Proof. unfold push_evidence. by destruct (push_op _ _). Qed.

(** An event other than evidence and a pause server's or HA's message does nothing to
    a policy that has ended. *)
Lemma step_decides e p :
  let '(p', out) := policy_step config spec p e in
  if tp_finished p then
    tp_finished p' = true /\ tp_endpoint p' = tp_endpoint p /\ tp_cells p' = tp_cells p /\ tp_words p' = tp_words p /\ out = []
  else decides p p' out.
Proof.
  destruct (tp_finished p) eqn:Ef; [|destruct e as [op|now|now| | | | | |answer now|pause now|answer now]; cbn [policy_step]].
  - destruct e; cbn [policy_step]; unfold advance, on_timer, close, recognizer_answer, pause_server_asked, pause_server_answer;
      rewrite ?Ef; try by split_and!.
    destruct (push_evidence_fields op p) as (-> & -> & -> & -> & _). by split_and!.
  - destruct (push_evidence_fields op p) as (Hf & He & _). by apply decides_quiet.
  - unfold advance. rewrite Ef. destruct (evidence_release _ _) as [a released].
    pose proof (on_items_decides now released (set_tp_evidence a p)) as D. from_step D.
  - unfold on_timer. rewrite Ef.
    match goal with |- context [if ?b then close Cz_NoInput _ _ else _] => destruct b end; [apply close_decides|].
    destruct (_ <=? _); [apply close_decides|apply decides_refl].
  - apply close_decides.
  - apply close_decides.
  - apply close_decides.
  - apply close_decides.
  - apply close_decides.
  - unfold recognizer_answer. rewrite Ef. by apply decides_quiet.
  - unfold pause_server_asked. rewrite Ef. by apply decides_quiet.
  - unfold pause_server_answer. rewrite Ef. by apply decides_quiet.
Qed.

Lemma run_decides events p :
  let '(p', out) := policy_run config spec p events in
  tp_finished p = false ->
  (if tp_finished p' then exists pre d, out = pre ++ [d] /\ terminal d = true /\ Forall (fun d => terminal d = false) pre
   else Forall (fun d => terminal d = false) out) /\
  exists log, tp_endpoint p' = tp_endpoint p ++ log /\ Forall2 event_of log (retain logged out).
Proof.
  assert (Hended : forall events p, tp_finished p = true ->
    let '(p', out) := policy_run config spec p events in tp_finished p' = true /\ tp_endpoint p' = tp_endpoint p /\ out = []).
  { clear. induction events as [|e events IH]; intros p Hf; cbn [policy_run]; [done|].
    pose proof (step_decides e p) as Hs. destruct (policy_step config spec p e) as [p1 out1]. rewrite Hf in Hs.
    destruct Hs as (Hf1 & He1 & _ & _ & ->). specialize (IH p1 Hf1). destruct (policy_run config spec p1 events) as [p2 out2].
    destruct IH as (-> & -> & ->). by rewrite He1. }
  revert p. induction events as [|e events IH]; intros p; cbn [policy_run].
  { intros ->. split; [constructor|]. exists []. split; [by rewrite app_nil_r|constructor]. }
  pose proof (step_decides e p) as Hs. destruct (policy_step config spec p e) as [p1 out1].
  specialize (IH p1). pose proof (Hended events p1) as Hend. destruct (policy_run config spec p1 events) as [p2 out2].
  intros Hf. rewrite Hf in Hs. destruct Hs as [_ F (ev1 & T1 & L1)]. specialize (F Hf). destruct (tp_finished p1) eqn:Ef1.
  - destruct (Hend eq_refl) as (-> & He & ->). rewrite app_nil_r. split; [done|]. exists ev1. by rewrite He.
  - destruct (IH eq_refl) as [IH1 (ev2 & T2 & L2)]. split.
    + destruct (tp_finished p2); [|by apply Forall_app].
      destruct IH1 as (pre & d & -> & Hd & Hpre). exists (out1 ++ pre), d. rewrite app_assoc. split_and!; [done..|by apply Forall_app].
    + exists (ev1 ++ ev2). rewrite T2, T1, app_assoc. split; [done|]. rewrite retain_app. by apply Forall2_app.
Qed.

(** C8: Whatever the runtime does to a policy, an utterance ends at most once: it is
    finished exactly when it has decided to commit, to close or to reopen, that
    decision is its last, and nothing is decided after it; and its trace keeps every
    pending end, revocation and ending it decided, in order and nothing else. *)
Theorem utterance_ends_once now p0 events :
  policy_new config spec now = Ok p0 ->
  let '(p, out) := policy_run config spec p0 events in
  (if tp_finished p then exists pre d, out = pre ++ [d] /\ terminal d = true /\ Forall (fun d => terminal d = false) pre
   else Forall (fun d => terminal d = false) out) /\
  Forall2 event_of (tp_endpoint p) (retain logged out).
Proof.
  intros Hnew. assert (Hp0 : tp_finished p0 = false /\ tp_endpoint p0 = []).
  { revert Hnew. unfold policy_new. destruct (assembler_new _); cbn; [by intros [= <-]|done]. }
  destruct Hp0 as [Hf He]. pose proof (run_decides events p0) as Hr. destruct (policy_run config spec p0 events) as [p out].
  destruct (Hr Hf) as [H1 (log & -> & H2)]. by rewrite He.
Qed.
End contracts.

(** *** The sample utterance *)
Lemma utterance_ends_once_witness :
  exists p0, policy_new Sample.config Sample.spec 0 = Ok p0 /\
  let '(p, out) := policy_run (H := ascii) (H0 := Sample.grammar) Sample.config Sample.spec p0 (Sample.events Sample.said 19) in
  (if tp_finished p then exists pre d, out = pre ++ [d] /\ terminal d = true /\ Forall (fun d => terminal d = false) pre
   else Forall (fun d => terminal d = false) out) /\
  Forall2 event_of (tp_endpoint p) (retain logged out).
Proof.
  eexists. split; [reflexivity|].
  exact (@utterance_ends_once ascii Sample.grammar Sample.config Sample.spec 0 _ (Sample.events Sample.said 19) eq_refl).
Defined.

(** ** The clock *)
Section clock.
Context {U : Unicode} {G : Completeness} (config : TurnConfig) (spec : TurnSpec).

Lemma close_finished reason cause p : tp_finished (close reason cause p).1 = true.
Proof. unfold close. destruct (tp_finished p) eqn:E; [done|]. done. Qed.

(** The controller's clock can always end an open utterance, and only at its
    deadline: while it is open there is a deadline; a timer at or after it closes the
    utterance, and a timer before it changes nothing.  A finished one has none. *)
Theorem deadline_ends_it p :
  0 < ep_evidence_stall_ms (tc_endpoint config) ->
  tp_last_progress p + from_millis (ep_evidence_stall_ms (tc_endpoint config)) <= u64_max ->
  match next_deadline config spec p with
  | None => tp_finished p = true
  | Some t =>
      tp_finished p = false /\
      (forall now, now <= u64_max -> t <= now ->
         exists reason, (reason = Cz_NoInput \/ reason = Cz_Interrupted) /\
         tp_finished (on_timer config spec now p).1 = true /\
         (on_timer config spec now p).2 = [De_Close reason (cs_frontier (tp_cells p))]) /\
      (forall now, now < t -> on_timer config spec now p = (p, []))
  end.
Proof.
  intros Hms Hmax.
  assert (Hpos : 0 < from_millis (ep_evidence_stall_ms (tc_endpoint config))) by (unfold from_millis; lia).
  unfold next_deadline, on_timer. cbv zeta. destruct (tp_finished p) eqn:Ef; [done|].
  set (stall := from_millis _) in *. clearbody stall.
  assert (Hafter : after (tp_last_progress p) stall = tp_last_progress p + stall).
  { unfold after, sat_add64. rewrite !N.min_l; lia. }
  rewrite Hafter.
  assert (Hclose : forall reason cause, tp_finished (close reason cause p).1 = true /\
    (close reason cause p).2 = [De_Close reason (cs_frontier (tp_cells p))]).
  { intros reason cause. unfold close. by rewrite Ef. }
  assert (Hlate : forall now, now <= u64_max -> tp_last_progress p + stall <= now ->
    (stall <=? mono_since now (tp_last_progress p)) = true).
  { intros now Hn Hl. apply N.leb_le. unfold mono_since. lia. }
  assert (Hearly : forall now, now < tp_last_progress p + stall -> (stall <=? mono_since now (tp_last_progress p)) = false).
  { intros now Hl. apply N.leb_gt. unfold mono_since. lia. }
  destruct (reply_spec spec) as [r|]; [destruct (command_start_any spec (tp_cells p)) as [cs|]|].
  all: split_and!; [done| |]; intros now.
  all: try (intros Hn Hl; rewrite Hlate by lia; exists Cz_Interrupted; split; [by right|apply Hclose]).
  all: try (intros Hl; by rewrite Hearly by lia).
  - intros Hn Hl. destruct (N.leb_spec (rs_wall_deadline r) now).
    + exists Cz_NoInput. split; [by left|apply Hclose].
    + rewrite Hlate by lia. exists Cz_Interrupted. split; [by right|apply Hclose].
  - intros Hl. destruct (N.leb_spec (rs_wall_deadline r) now); [lia|]. by rewrite Hearly by lia.
Qed.
End clock.

Lemma deadline_ends_it_witness :
  exists p, fst <$> Sample.run Sample.said 3 = Some p /\
  match next_deadline Sample.config Sample.spec p with
  | None => tp_finished p = true
  | Some t =>
      tp_finished p = false /\
      (forall now, now <= u64_max -> t <= now ->
         exists reason, (reason = Cz_NoInput \/ reason = Cz_Interrupted) /\
         tp_finished (on_timer Sample.config Sample.spec now p).1 = true /\
         (on_timer Sample.config Sample.spec now p).2 = [De_Close reason (cs_frontier (tp_cells p))]) /\
      (forall now, now < t -> on_timer Sample.config Sample.spec now p = (p, []))
  end.
Proof.
  eexists. split; [vm_compute; reflexivity|].
  apply (deadline_ends_it Sample.config Sample.spec); by vm_compute.
Defined.

(** ** The audio *)
Section bounds.
Context {U : Unicode} {G : Completeness} (config : TurnConfig) (spec : TurnSpec).
Let P : EndpointPolicy := tc_endpoint config.

(** The texts a block is evaluated on, and the policy with them. *)
Definition words_at (obs : AsrObservation) (now : MonoInstant) (p : TurnPolicy) : TextSide :=
  (take_block config spec obs now (tp_words p)).1.
Definition with_words_at (obs : AsrObservation) (now : MonoInstant) (p : TurnPolicy) : TurnPolicy :=
  set_tp_words (words_at obs now p) p.

(** A block evaluates the policy with its texts; a question asked after it changes
    neither the decisions before it nor whether the policy has ended. *)
Lemma on_block_evaluates obs now p frontier :
  cs_reply_gap_end (tp_cells p) = None -> cs_frontier (tp_cells p) = Some frontier ->
  let '(p1, out) := evaluate config spec frontier (asr_through obs) (with_words_at obs now p) in
  let '(p2, out2) := on_block config spec obs now p in
  tp_finished p2 = tp_finished p1 /\ tp_pending p2 = tp_pending p1 /\ tp_cells p2 = tp_cells p1 /\
  exists asked, out2 = out ++ asked /\ Forall (fun d => exists t, d = De_AskRecognizer t) asked /\
    (tp_finished p1 = true -> asked = []).
Proof.
  intros Hgap Hf. unfold on_block, with_words_at, words_at. destruct (take_block config spec obs now (tp_words p)) as [t ask].
  cbn [fst set_tp_words tp_cells]. rewrite Hgap, Hf. destruct (evaluate _ _ _ _ _) as [p1 out].
  destruct (ask && negb (tp_finished p1)) eqn:E.
  - unfold ask_recognizer. split_and!; try done. eexists. split_and!; [done| |].
    + repeat constructor. eauto.
    + intros Hfin. rewrite Hfin, andb_false_r in E. done.
  - split_and!; try done. exists []. by rewrite app_nil_r.
Qed.

(** The limits come first: they close the policy, or none has been reached. *)
Lemma evaluate_limits frontier through p :
  let command := command_start_any spec (tp_cells p) in
  tp_finished (evaluate config spec frontier through p).1 = true \/
  (command = None -> frontier < no_input_at config spec) /\
  (reply_spec spec = None -> ~ tn_trigger spec + max_utterance config <= frontier) /\
  (forall start, command = Some start -> reply_spec spec <> None -> ~ start + max_utterance config <= frontier).
Proof.
  cbv zeta. unfold evaluate. set (command := command_start_any spec (tp_cells p)).
  destruct (negb (is_some command) && (no_input_at config spec <=? frontier)) eqn:Eno; [left; apply close_finished|].
  match goal with |- context [if ?b then close Cz_TooLong _ _ else _] => destruct b eqn:Elong end; [left; apply close_finished|].
  right. split_and!.
  - intros ->. by apply N.leb_gt.
  - intros Hr Hle. unfold is_reply in Elong. rewrite Hr in Elong. cbn in Elong. apply N.leb_gt in Elong.
    unfold sample_since in Elong. lia.
  - intros start Hc Hr Hle. unfold is_reply in Elong. destruct (reply_spec spec); [|done]. cbn in Elong. rewrite Hc in Elong.
    apply N.leb_gt in Elong. unfold sample_since in Elong. lia.
Qed.

(** A pending end at a block within the limits. *)
Lemma evaluate_pending frontier through p pn :
  tp_pending p = Some pn ->
  N.max (pn_since pn) (se_end (span_end config (pn_boundary pn) (pn_since pn) (tp_words p))) + ep_lookahead P <= frontier ->
  let '(p', out) := evaluate config spec frontier through p in
  tp_finished p' = true \/ tp_pending p' = None /\ De_EndRevoked (pn_boundary pn) frontier ∈ out.
Proof.
  intros Hpn Hle. pose proof (evaluate_limits frontier through p) as Hlim. revert Hlim. unfold evaluate.
  destruct (negb _ && _); [pose proof (close_finished Cz_NoInput Cu_Limit p); destruct (close _ _ _); by left|].
  match goal with |- context [if ?b then close Cz_TooLong _ _ else _] => destruct b end;
    [pose proof (close_finished Cz_TooLong Cu_Limit p); destruct (close _ _ _); by left|].
  intros _. rewrite Hpn. unfold pending_step. cbn [tp_words set_tp_pending]. destruct (_ <=? command_cells_since _ _).
  - right. split; [done|by left].
  - destruct (N.leb_spec (ep_lookahead (tc_endpoint config)) (sample_since frontier
      (N.max (pn_since pn) (se_end (span_end config (pn_boundary pn) (pn_since pn) (tp_words p)))))) as [|Hgt]; [by left|].
    unfold sample_since, P in *. lia.
Qed.

(** No progress at a block within the limits. *)
Lemma evaluate_no_progress frontier through p start :
  tp_pending p = None -> command_start_any spec (tp_cells p) = Some start ->
  N.max (tr_progress_sample (ts_text (tp_words p))) start + ep_no_progress P <= frontier ->
  let '(p', out) := evaluate config spec frontier through p in
  tp_finished p' = true \/ exists route boundary, De_EndPending route boundary frontier ∈ out.
Proof.
  intros Hpn Hc Hle. unfold evaluate. rewrite Hc. cbn [is_some negb andb].
  match goal with |- context [if ?b then close Cz_TooLong _ _ else _] => destruct b end;
    [pose proof (close_finished Cz_TooLong Cu_Limit p); destruct (close _ _ _); by left|].
  rewrite Hpn. destruct (find_route _ _ _ _ _ _) as [[[route boundary] evidence]|]; [right; exists route, boundary; by left|].
  unfold fallback. destruct (N.leb_spec (ep_no_progress (tc_endpoint config))
    (sample_since frontier (N.max (tr_progress_sample (ts_text (tp_words p))) start))) as [|Hgt]; [|unfold sample_since, P in *; lia].
  match goal with |- context [match ?o with Some _ => commit _ _ _ _ _ _ _ _ | None => _ end] => destruct o end; [by left|].
  pose proof (close_finished Cz_Retry Cu_NoProgress p). destruct (close _ _ _). by left.
Qed.

(** What becomes of a reply that waits out a gap: the audio after the gap reopens it,
    more of the gap is waited out too, and the clock closes it. *)
Lemma gap_cell p gap_end r cell :
  cs_reply_gap_end (tp_cells p) = Some gap_end -> reply_spec spec = Some r ->
  round_down (tn_start spec) CELL_SAMPLES <= cell_start (ce_cell cell) ->
  let '(p', out) := on_cell config spec cell p in
  match ce_audio cell with
  | Ca_Present _ _ _ _ =>
      tp_finished p' = true /\ out = [De_ReopenReply (mkReopen gap_end (N.max gap_end (tn_trigger spec)) (rs_no_input_at r))]
  | Ca_Gap _ =>
      tp_finished p' = tp_finished p /\ out = [] /\ cs_reply_gap_end (tp_cells p') = Some (cell_end (ce_cell cell))
  end.
Proof.
  intros Hg Hr Hle. unfold on_cell. rewrite (proj2 (N.ltb_ge _ _)) by done. cbn [cs_reply_gap_end set_cs_background]. rewrite Hg.
  destruct (ce_audio cell); [done|]. unfold reopen. by rewrite Hr.
Qed.
Lemma gap_timer p r now :
  tp_finished p = false -> reply_spec spec = Some r -> command_start_any spec (tp_cells p) = None -> rs_wall_deadline r <= now ->
  tp_finished (on_timer config spec now p).1 = true /\
  (on_timer config spec now p).2 = [De_Close Cz_NoInput (cs_frontier (tp_cells p))].
Proof. intros Hf Hr Hc Hle. unfold on_timer, close. rewrite Hf, Hr, Hc, (proj2 (N.leb_le _ _)) by done. done. Qed.

End bounds.

(** The first block at which the sample utterance's frontier reaches the limits; and a
    reply whose audio breaks off at its start, until it comes back. *)
Module Broken.
Definition reply : ReplySpec := mkReplySpec Ro_Expectation None (Sample.c 200) 10000000000.
Definition spec : TurnSpec := mkTurnSpec 3 51200 (Sample.c 10) 0 100 (Tk_Reply reply).
Definition gap : CellEvidence := mkCellEvidence 112 (Ca_Gap false).
Definition waiting : option TurnPolicy :=
  match policy_new Sample.config spec 0 with
  | Ok p => Some (on_cell Sample.config spec gap p).1
  | Err _ => None
  end.
Definition heard : CellEvidence := mkCellEvidence 113 (Ca_Present None None Vi_Unknown ECHO_SILENT_REFERENCE).
End Broken.
