(* ===== verification/EndpointSteps.v ===== *)
(** * The endpoint reducer's runs as steps

    Every run of the policy is made of small steps - a cell, a block, a close -
    whose cells come in sample order.  What the cells leave behind and where a
    pending end came from are invariants of the steps; a commit's contract
    follows from them. *)
From Stdlib Require Import Sorting.Sorted.
From S2P Require Import Prelude Float Ema Clock Evidence Level Classify Transcript Asr Endpoint EndpointProps.

(** ** Steps *)
Section steps.
Context {U : Unicode} {G : Completeness} (config : TurnConfig) (spec : TurnSpec).
Let P : EndpointPolicy := tc_endpoint config.

(** The cells come in order: the next one starts where the frontier is or later. *)
Definition in_order (p : TurnPolicy) (item : Released) : Prop :=
  match item with
  | Rl_Cell cell => forall f, cs_frontier (tp_cells p) = Some f -> f <= cell_start (ce_cell cell)
  | Rl_Block _ => True
  end.
(** The released items a run handles: the policy at each, what had been decided by
    then, and the item. *)
Record Visit := mkVisit { vs_policy : TurnPolicy; vs_decided : list Decision; vs_item : Released; vs_now : MonoInstant }.
Fixpoint item_visits (now : MonoInstant) (items : list Released) (p : TurnPolicy) (out : list Decision) : list Visit :=
  match items with
  | [] => []
  | item :: items =>
      if tp_finished p then []
      else
        let '(p', o) := on_released config spec now p item in
        mkVisit p out item now :: item_visits now items p' (out ++ o)
  end.
Definition event_visits (e : PolicyEvent) (p : TurnPolicy) (out : list Decision) : list Visit :=
  match e with
  | Pv_Advance now =>
      if tp_finished p then []
      else
        let '(evidence, released) := evidence_release (tp_evidence p) [] in
        item_visits now released (set_tp_evidence evidence p) out
  | _ => []
  end.
Fixpoint run_visits (p : TurnPolicy) (out : list Decision) (events : list PolicyEvent) : list Visit :=
  match events with
  | [] => []
  | e :: events =>
      let '(p', o) := policy_step config spec p e in event_visits e p out ++ run_visits p' (out ++ o) events
  end.

(** The policy [p] has come to, what it has decided and the items it has handled on
    the way. *)
Inductive reaches : TurnPolicy -> list Decision -> list Visit -> Prop :=
  | reaches_new p now : policy_new config spec now = Ok p -> reaches p [] []
  | reaches_evidence p out seen a : reaches p out seen -> reaches (set_tp_evidence a p) out seen
  | reaches_item p out seen now item p' o :
      reaches p out seen -> tp_finished p = false -> in_order p item ->
      on_released config spec now p item = (p', o) -> reaches p' (out ++ o) (seen ++ [mkVisit p out item now])
  | reaches_timer p out seen now : reaches p out seen ->
      reaches (on_timer config spec now p).1 (out ++ (on_timer config spec now p).2) seen
  | reaches_close p out seen reason cause : reaches p out seen ->
      reaches (close reason cause p).1 (out ++ (close reason cause p).2) seen
  | reaches_words p out seen t :
      reaches p out seen -> ts_text t = ts_text (tp_words p) -> ts_class t = ts_class (tp_words p) ->
      ts_asked t = ts_asked (tp_words p) ->
      reaches (set_tp_words t p) out seen.

(** *** A release is of consecutive cells *)
Lemma release_rounds_cells rounds a out from :
  from <= as_next a -> cells_of out = cell_run from (N.to_nat (as_next a - from)) ->
  let '(a', out') := release_rounds rounds a out in
  from <= as_next a' /\ cells_of out' = cell_run from (N.to_nat (as_next a' - from)).
Proof.
  revert a out. induction rounds as [|rounds IH]; intros a out Hf Hc; cbn [release_rounds]; [done|].
  destruct (match release_one a with Some r => Some r | None => release_cell a end) as [[a' r]|] eqn:E; [|done].
  assert (Hr : (as_next a' = as_next a /\ exists b, r = Rl_Block b) \/
    (as_next a' = as_next a + 1 /\ exists audio, r = Rl_Cell (mkCellEvidence (as_next a) audio))).
  { destruct (release_one a) as [x|] eqn:E1.
    - injection E as ->. left. revert E1. unfold release_one. destruct (as_blocks a); [done|]. destruct (_ <? _); [|done].
      intros [= <- <-]. eauto.
    - right. revert E. unfold release_cell. destruct (as_slots a); [done|]. destruct (slot_ready _ _); [|done].
      intros [= <- <-]. split; [done|]. eauto. }
  destruct Hr as [[Hn [b ->]]|[Hn [audio ->]]]; apply IH; rewrite ?Hn; try lia; rewrite cells_of_app, Hc; cbn.
  - by rewrite app_nil_r.
  - replace (N.to_nat (as_next a + 1 - from)) with (S (N.to_nat (as_next a - from))) by lia.
    rewrite cell_run_app. do 2 f_equal. lia.
Qed.

(** Where the cells have got to. *)
Definition frontier_by (k : CellIndex) (p : TurnPolicy) : Prop :=
  forall f, cs_frontier (tp_cells p) = Some f -> f <= cell_start k.

Lemma record_cell_frontier cell background c : cs_frontier (record_cell config spec cell background c).1 = Some (cell_end (ce_cell cell)).
Proof.
  unfold record_cell. cbv zeta. destruct (classify _ _ _ _) as [cl j]. destruct (speech_positive _ _); cbn;
    (destruct (cd_opened j); [destruct (_ <? _)|]); done.
Qed.
Lemma command_cell_frontier cell c : cs_frontier (command_cell spec cell c).1 = cs_frontier c.
Proof.
  unfold command_cell. cbv zeta.
  assert (Hf : forall x, cs_frontier (match ce_audio cell with Ca_Present (Some e) _ _ _ => set_cs_foreground (foreground_add e x) c | _ => c end) = cs_frontier c).
  { intros x. destruct (ce_audio cell) as [|[]]; done. }
  destruct (ce_audio cell) as [|[] ? ?]; cbn; destruct (_ =? 1); cbn; destruct (_ && _); done.
Qed.
Lemma close_cells reason cause p : tp_cells (close reason cause p).1 = tp_cells p.
Proof. unfold close. by destruct (tp_finished p). Qed.
Lemma on_cell_frontier cell p :
  cs_frontier (tp_cells (on_cell config spec cell p).1) = cs_frontier (tp_cells p) \/
  cs_frontier (tp_cells (on_cell config spec cell p).1) = Some (cell_end (ce_cell cell)).
Proof.
  unfold on_cell. cbv zeta. destruct (_ <? _); [by left|]. cbn [cs_reply_gap_end set_cs_background].
  destruct (cs_reply_gap_end (tp_cells p)) as [g|].
  { left. destruct (ce_audio cell); [done|]. unfold reopen. by destruct (reply_spec spec). }
  right. set (c := seed_foreground _ _). pose proof (record_cell_frontier cell (background_current (cs_background (tp_cells p))) c) as Hf.
  destruct (record_cell _ _ _ _ _) as [c' j]. cbn [fst] in Hf. destruct (ce_audio cell) as [muted|e sm vad echo] eqn:Ea.
  - destruct (_ && _); [done|]. destruct muted; by rewrite close_cells.
  - destruct (negb _).
    + cbn. unfold seed_cell. rewrite Ea. destruct (wake_anchor spec), e, (cs_seed c'); try done. by destruct (_ && _).
    + destruct (bool_decide _); [|done]. pose proof (command_cell_frontier cell c') as Hc. by destruct (command_cell _ _ _), Hf.
Qed.

Lemma close_evidence reason cause p : tp_evidence (close reason cause p).1 = tp_evidence p.
Proof. unfold close. by destruct (tp_finished p). Qed.
Lemma evaluate_evidence frontier through p : tp_evidence (evaluate config spec frontier through p).1 = tp_evidence p.
Proof.
  unfold evaluate. destruct (_ && _); [apply close_evidence|].
  match goal with |- context [if ?b then close Cz_TooLong _ _ else _] => destruct b end; [apply close_evidence|].
  destruct (tp_pending p) as [pn|].
  { unfold pending_step. destruct (_ <=? _); [done|]. by destruct (_ <=? _). }
  destruct (command_start_any _ _) as [cs|]; [|done]. destruct (find_route _ _ _ _ _ _) as [[[? ?] ?]|]; [done|].
  unfold fallback. destruct (_ <=? _); [|done].
  match goal with |- context [match ?o with Some _ => commit _ _ _ _ _ _ _ _ | None => _ end] => destruct o end;
    [done|apply close_evidence].
Qed.
Lemma on_released_evidence now item p : tp_evidence (on_released config spec now p item).1 = tp_evidence p.
Proof.
  destruct item as [cell|obs]; cbn [on_released].
  - unfold on_cell. cbv zeta. destruct (_ <? _); [done|]. cbn [cs_reply_gap_end set_cs_background].
    destruct (cs_reply_gap_end (tp_cells p)) as [g|].
    { destruct (ce_audio cell); [done|]. unfold reopen. by destruct (reply_spec spec). }
    destruct (record_cell _ _ _ _ _) as [c' j]. destruct (ce_audio cell) as [muted|e sm vad echo].
    + destruct (_ && _); [done|]. destruct muted; by rewrite close_evidence.
    + destruct (negb _); [done|]. destruct (bool_decide _); [|done]. by destruct (command_cell _ _ _).
  - unfold on_block. destruct (take_block _ _ _ _ _) as [t ask]. cbn [tp_cells set_tp_words set_tp_last_progress].
    destruct (cs_reply_gap_end (tp_cells p)); [by destruct (ask && _)|]. destruct (cs_frontier (tp_cells p)) as [f|]; [|by destruct (ask && _)].
    pose proof (evaluate_evidence f (asr_through obs) (set_tp_words t (set_tp_last_progress now p))) as Hc.
    destruct (evaluate _ _ _ _ _) as [p1 out]. by destruct (ask && _).
Qed.
Lemma on_items_evidence now items p : tp_evidence (on_items config spec now items p).1 = tp_evidence p.
Proof.
  revert p. induction items as [|item items IH]; intros p; cbn [on_items]; [done|]. destruct (tp_finished p); [done|].
  pose proof (on_released_evidence now item p) as He. destruct (on_released _ _ _ _ _) as [p1 o1]. specialize (IH p1).
  destruct (on_items _ _ _ _ _). cbn in *. congruence.
Qed.

(** *** Blocks leave the cells alone *)
Lemma evaluate_cells frontier through p : tp_cells (evaluate config spec frontier through p).1 = tp_cells p.
Proof.
  unfold evaluate. destruct (_ && _); [apply close_cells|].
  match goal with |- context [if ?b then close Cz_TooLong _ _ else _] => destruct b end; [apply close_cells|].
  destruct (tp_pending p) as [pn|].
  { unfold pending_step. destruct (_ <=? _); [done|]. by destruct (_ <=? _). }
  destruct (command_start_any _ _) as [cs|]; [|done]. destruct (find_route _ _ _ _ _ _) as [[[? ?] ?]|]; [done|].
  unfold fallback. destruct (_ <=? _); [|done].
  match goal with |- context [match ?o with Some _ => commit _ _ _ _ _ _ _ _ | None => _ end] => destruct o end;
    [done|apply close_cells].
Qed.
Lemma on_block_cells obs now p : tp_cells (on_block config spec obs now p).1 = tp_cells p.
Proof.
  unfold on_block. destruct (take_block _ _ _ _ _) as [t ask]. cbn [tp_cells set_tp_words].
  destruct (cs_reply_gap_end (tp_cells p)); [by destruct (ask && _)|]. destruct (cs_frontier (tp_cells p)) as [f|]; [|by destruct (ask && _)].
  pose proof (evaluate_cells f (asr_through obs) (set_tp_words t p)) as Hc. destruct (evaluate _ _ _ _ _) as [p1 out].
  by destruct (ask && _).
Qed.
Lemma on_items_reaches now items p out seen k n :
  reaches p out seen -> frontier_by k p -> cells_of items = cell_run k n ->
  let '(p', o) := on_items config spec now items p in
  reaches p' (out ++ o) (seen ++ item_visits now items p out) /\ (tp_finished p' = false -> frontier_by (k + N.of_nat n) p').
Proof.
  revert p out seen k n. induction items as [|item items IH]; intros p out seen k n R F Hk; cbn [on_items item_visits].
  { rewrite !app_nil_r. split; [done|]. intros _. destruct n; [by rewrite N.add_0_r|done]. }
  destruct (tp_finished p) eqn:Ef; [rewrite !app_nil_r; by rewrite Ef|].
  assert (Hitem : in_order p item /\ exists k' n', cells_of items = cell_run k' n' /\ k' + N.of_nat n' = k + N.of_nat n /\
    frontier_by k' (on_released config spec now p item).1).
  { destruct item as [cell|obs]; cbn [in_order on_released].
    - destruct n as [|n]; [done|]. cbn in Hk. injection Hk as Hcell Hk. rewrite Hcell. split; [exact F|].
      exists (k + 1), n. split_and!; [done|lia|]. intros f Hf.
      destruct (on_cell_frontier cell p) as [Hsame|Hend].
      + rewrite Hsame in Hf. specialize (F f Hf). unfold cell_start, CELL_SAMPLES in *. lia.
      + rewrite Hend in Hf. injection Hf as <-. rewrite Hcell. done.
    - split; [done|]. exists k, n. split_and!; [done|done|]. intros f. rewrite on_block_cells. apply F. }
  destruct Hitem as (Hord & k' & n' & Hk' & Hsum & F'). destruct (on_released _ _ _ _ _) as [p1 o1] eqn:E.
  specialize (IH p1 (out ++ o1) _ k' n' (reaches_item _ _ _ _ _ _ _ R Ef Hord E) F' Hk').
  destruct (on_items _ _ _ _ _) as [p2 o2]. rewrite (app_assoc out), <- Hsum. rewrite <- (app_assoc seen) in IH. exact IH.
Qed.

(** Between two events of the runtime. *)
Definition placed (p : TurnPolicy) (out : list Decision) (seen : list Visit) : Prop :=
  reaches p out seen /\ (tp_finished p = false -> frontier_by (as_next (tp_evidence p)) p).
Lemma advance_placed now p out seen :
  placed p out seen ->
  let '(p', o) := advance config spec now p in placed p' (out ++ o) (seen ++ event_visits (Pv_Advance now) p out).
Proof.
  intros [R F]. unfold advance, event_visits. destruct (tp_finished p) eqn:Ef; [rewrite !app_nil_r; split; [exact R|congruence]|].
  pose proof (release_rounds_cells (length (as_blocks (tp_evidence p)) + length (as_slots (tp_evidence p))) (tp_evidence p) []
    (as_next (tp_evidence p)) ltac:(lia) ltac:(by rewrite N.sub_diag)) as Hr. unfold evidence_release.
  destruct (release_rounds _ _ _) as [a released]. destruct Hr as [Hle Hc].
  pose proof (on_items_reaches now released (set_tp_evidence a p) out seen _ _ (reaches_evidence _ _ _ a R) (F eq_refl) Hc) as Hi.
  pose proof (on_items_evidence now released (set_tp_evidence a p)) as He.
  destruct (on_items _ _ _ _ _) as [p' o]. destruct Hi as [R' F']. split; [done|]. intros Hf.
  cbn [fst] in He. rewrite He. specialize (F' Hf). cbn.
  by replace (as_next (tp_evidence p) + N.of_nat (N.to_nat (as_next a - as_next (tp_evidence p)))) with (as_next a) in F' by lia.
Qed.

(** Every run is made of these steps. *)
Lemma step_placed e p out seen :
  placed p out seen -> let '(p', o) := policy_step config spec p e in placed p' (out ++ o) (seen ++ event_visits e p out).
Proof.
  intros [R F].
  assert (Hclose : forall reason cause, placed (close reason cause p).1 (out ++ (close reason cause p).2) (seen ++ [])).
  { intros reason cause. rewrite app_nil_r. split; [by apply reaches_close|]. by rewrite close_finished. }
  assert (Hwords : forall t, ts_text t = ts_text (tp_words p) -> ts_class t = ts_class (tp_words p) ->
    ts_asked t = ts_asked (tp_words p) -> placed (set_tp_words t p) (out ++ []) (seen ++ [])).
  { intros t Ht Hc Ha. rewrite !app_nil_r. split; [by apply reaches_words|exact F]. }
  assert (Hsame : placed p (out ++ []) (seen ++ [])) by (rewrite !app_nil_r; by split).
  destruct e as [op|now|now| | | | | |answer now|pause now|answer now]; cbn [policy_step].
  - unfold push_evidence. destruct (push_op op (tp_evidence p)) as [a|err] eqn:E; [|exact Hsame]. cbn [event_visits]. rewrite !app_nil_r.
    split; [by apply reaches_evidence|]. intros Hf. apply push_op_fields in E as (_ & Hn & _). cbn. rewrite Hn. by apply F.
  - apply advance_placed. by split.
  - unfold on_timer. destruct (tp_finished p) eqn:Ef; [done|].
    match goal with |- context [if ?b then close Cz_NoInput _ _ else _] => destruct b end;
      [destruct (Hclose Cz_NoInput Cu_ReplyWallClock); by destruct (close _ _ _)|].
    destruct (_ <=? _); [destruct (Hclose Cz_Interrupted Cu_EvidenceStalled); by destruct (close _ _ _)|]. done.
  - destruct (Hclose Cz_Muted Cu_Mute). by destruct (close _ _ _).
  - destruct (Hclose Cz_SessionLost Cu_SessionLost). by destruct (close _ _ _).
  - destruct (Hclose Cz_AudioOverrun Cu_Overrun). by destruct (close _ _ _).
  - destruct (Hclose Cz_Interrupted Cu_WorkerError). by destruct (close _ _ _).
  - destruct (Hclose Cz_Interrupted Cu_Discontinuity). by destruct (close _ _ _).
  - unfold recognizer_answer. destruct (tp_finished p) eqn:Ef; [done|]. by apply Hwords.
  - unfold pause_server_asked. destruct (tp_finished p) eqn:Ef; [done|]. by apply Hwords.
  - unfold pause_server_answer. destruct (tp_finished p) eqn:Ef; [done|]. by apply Hwords.
Qed.
Lemma run_reaches now p0 events :
  policy_new config spec now = Ok p0 ->
  let '(p, out) := policy_run config spec p0 events in reaches p out (run_visits p0 [] events).
Proof.
  intros Hnew. assert (H0 : placed p0 [] []).
  { split; [by eapply reaches_new|]. revert Hnew. unfold policy_new. destruct (assembler_new _); [|done]. cbn. intros [= <-] _ f. done. }
  assert (Hrun : forall p out seen, placed p out seen ->
    let '(p', o) := policy_run config spec p events in reaches p' (out ++ o) (seen ++ run_visits p out events)).
  { clear. induction events as [|e events IH]; intros p out seen F; cbn [policy_run run_visits]; [rewrite !app_nil_r; apply F|].
    pose proof (step_placed e p out seen F) as Hs. destruct (policy_step _ _ _ _) as [p1 o1]. specialize (IH p1 (out ++ o1) _ Hs).
    destruct (policy_run _ _ _ _) as [p2 o2]. rewrite <- (app_assoc seen) in IH. by rewrite (app_assoc out). }
  apply (Hrun p0 [] [] H0).
Qed.

(** ** What the cells left *)
Definition counted (r : CellRecord) : bool := is_command r && (tn_trigger spec <? cr_end r).

(** A cell leaves what matters of the cells as it is, or is recorded. *)
Inductive cell_effect (cell : CellEvidence) (c c' : CellSide) : Prop :=
  | ce_same :
      cs_cells c' = cs_cells c -> cs_frontier c' = cs_frontier c -> cs_command_ends c' = cs_command_ends c ->
      cs_command_cells c' = cs_command_cells c -> cs_run_start c' = cs_run_start c -> cs_answer_start c' = cs_answer_start c ->
      cell_effect cell c c'
  | ce_recorded r :
      cs_cells c' = cs_cells c ++ [r] -> cr_end r = cell_end (ce_cell cell) -> cs_frontier c' = Some (cr_end r) ->
      tn_start spec < cr_end r ->
      (cs_run_start c' = cs_run_start c \/ exists s, cs_run_start c' = Some s /\ s < cr_end r) ->
      (cs_answer_start c' = cs_answer_start c \/ exists s, cs_answer_start c' = Some s /\ (s < cr_end r \/ cs_run_start c' = Some s)) ->
      cs_command_ends c' = cs_command_ends c ++ (if counted r then [cr_end r] else []) ->
      cs_command_cells c' = cs_command_cells c + (if counted r then 1 else 0) ->
      cell_effect cell c c'.

Lemma record_cell_effect cell background c :
  tn_start spec < cell_end (ce_cell cell) ->
  let '(c', j) := record_cell config spec cell background c in
  exists r, cs_cells c' = cs_cells c ++ [r] /\ cr_class r = cd_class j /\ cr_end r = cell_end (ce_cell cell) /\
  cs_frontier c' = Some (cr_end r) /\ tn_start spec < cr_end r /\
  (cs_run_start c' = cs_run_start c \/ exists s, cs_run_start c' = Some s /\ s < cr_end r) /\
  cs_answer_start c' = cs_answer_start c /\ cs_command_ends c' = cs_command_ends c /\
  cs_command_cells c' = cs_command_cells c /\ cs_command_start c' = cs_command_start c /\
  (ce_audio cell = Ca_Gap true \/ ce_audio cell = Ca_Gap false -> cd_class j = Cc_Gap).
Proof.
  intros Hstart. unfold record_cell. cbv zeta. destruct (classify _ _ _ _) as [cl j] eqn:E.
  assert (Hgap : ce_audio cell = Ca_Gap true \/ ce_audio cell = Ca_Gap false -> cd_class j = Cc_Gap).
  { intros [Ha|Ha]; revert E; unfold classify; rewrite Ha; by intros [= _ <-]. }
  assert (Hopen : forall ro, cd_opened j = Some ro -> ro_start ro < cell_end (ce_cell cell)).
  { intros ro Ho. destruct (classify_opened _ _ _ _ _ _ _ E Ho) as (_ & _ & _ & Hs & _).
    assert (Hlt : cell_start (ce_cell cell) < cell_end (ce_cell cell)) by (unfold cell_start, cell_end, CELL_SAMPLES; lia).
    rewrite Hs. destruct (_ ≫= _) as [g|]; [|done]. destruct (cf_voiced_since cl) as [s|]; [|done]. destruct (_ <? _); lia. }
  exists (mkCellRecord (cd_class j) (speech_positive (ce_audio cell) (at_speech_positive_min (tc_attribution config)))
    (cell_end (ce_cell cell))).
  destruct (speech_positive _ _); (destruct (cd_opened j) as [ro|]; [specialize (Hopen ro eq_refl); destruct (_ <? _)|]);
    cbn; split_and!; try done; eauto.
Qed.

Lemma command_cell_effect cell c :
  let '(c', out) := command_cell spec cell c in
  cs_cells c' = cs_cells c /\ cs_frontier c' = cs_frontier c /\ cs_run_start c' = cs_run_start c /\
  cs_command_ends c' = cs_command_ends c ++ [cell_end (ce_cell cell)] /\ cs_command_cells c' = cs_command_cells c + 1 /\
  (cs_answer_start c' = cs_answer_start c \/
   exists s, cs_answer_start c' = Some s /\ (s < cell_end (ce_cell cell) \/ cs_run_start c' = Some s)) /\
  (out = if cs_command_cells c =? 0 then [De_CommandStarted (cell_start (ce_cell cell))] else []).
Proof.
  unfold command_cell. cbv zeta.
  assert (Hlt : cell_start (ce_cell cell) < cell_end (ce_cell cell)) by (unfold cell_start, cell_end, CELL_SAMPLES; lia).
  assert (Hone : (cs_command_cells c + 1 =? 1) = (cs_command_cells c =? 0)).
  { destruct (N.eqb_spec (cs_command_cells c + 1) 1), (N.eqb_spec (cs_command_cells c) 0); lia. }
  destruct (ce_audio cell) as [|[] ? ?]; cbn -[N.add N.eqb]; rewrite Hone; destruct (cs_command_cells c =? 0); cbn -[N.add N.eqb];
    destruct (_ && _); cbn -[N.add N.eqb]; split_and!; try done; auto;
    destruct (cs_run_start c) as [s|] eqn:Er; right; eexists; split; try done; auto.
Qed.

Lemma on_cell_effect cell p : cell_effect cell (tp_cells p) (tp_cells (on_cell config spec cell p).1).
Proof.
  unfold on_cell. cbv zeta. destruct (N.ltb_spec (cell_start (ce_cell cell)) (round_down (tn_start spec) CELL_SAMPLES)) as [|Hle]; [by apply ce_same|].
  cbn [cs_reply_gap_end set_cs_background].
  destruct (cs_reply_gap_end (tp_cells p)) as [g|].
  { destruct (ce_audio cell); [by apply ce_same|]. unfold reopen. destruct (reply_spec spec); by apply ce_same. }
  assert (Hstart : tn_start spec < cell_end (ce_cell cell)).
  { pose proof (round_down_gt (tn_start spec) CELL_SAMPLES ltac:(done)). unfold cell_start, cell_end, CELL_SAMPLES in *. lia. }
  set (c := seed_foreground _ _).
  assert (Hc : cs_cells c = cs_cells (tp_cells p) /\ cs_frontier c = cs_frontier (tp_cells p) /\
    cs_command_ends c = cs_command_ends (tp_cells p) /\ cs_command_cells c = cs_command_cells (tp_cells p) /\
    cs_run_start c = cs_run_start (tp_cells p) /\ cs_answer_start c = cs_answer_start (tp_cells p)).
  { subst c. unfold seed_foreground. cbn [cs_seed set_cs_background]. destruct (_ <? _); [|done]. by destruct (cs_seed (tp_cells p)). }
  destruct Hc as (Hc1 & Hc2 & Hc3 & Hc4 & Hc5 & Hc6).
  pose proof (record_cell_effect cell (background_current (cs_background (tp_cells p))) c Hstart) as Hr. clearbody c.
  destruct (record_cell _ _ _ _ _) as [c' j].
  destruct Hr as (r & H1 & Hcls & Hend & H2 & H3 & H4 & H5 & H6 & H7 & _ & Hgap). rewrite Hc1, Hc3, Hc4, Hc5, Hc6 in *.
  assert (Hplain : counted r = false -> forall c2, cs_cells c2 = cs_cells c' -> cs_frontier c2 = cs_frontier c' ->
    cs_command_ends c2 = cs_command_ends c' -> cs_command_cells c2 = cs_command_cells c' -> cs_run_start c2 = cs_run_start c' ->
    cs_answer_start c2 = cs_answer_start c' -> cell_effect cell (tp_cells p) c2).
  { intros Hn c2 E1 E2 E3 E4 E5 E6. apply (ce_recorded _ _ _ r); rewrite ?E1, ?E2, ?E3, ?E4, ?E5, ?E6, ?Hn; try done.
    - by left.
    - by rewrite app_nil_r.
    - lia. }
  destruct (ce_audio cell) as [muted|e sm vad echo] eqn:Ea.
  - assert (Hn : counted r = false).
    { unfold counted, is_command. rewrite Hcls, Hgap; [done|]. destruct muted; auto. }
    destruct (_ && _); [by apply Hplain|]. destruct muted; rewrite close_cells; by apply Hplain.
  - destruct (tn_trigger spec <? cell_end (ce_cell cell)) eqn:Et; cbn [negb].
    + destruct (bool_decide (cd_class j = Cc_CommandSpeech)) eqn:Ec.
      * assert (Hy : counted r = true) by (unfold counted, is_command; rewrite Hcls, Ec, Hend; done).
        pose proof (command_cell_effect cell c') as Hcmd. destruct (command_cell spec cell c') as [c2 out].
        destruct Hcmd as (E1 & E2 & E3 & E4 & E5 & E6 & _). cbn. apply (ce_recorded _ _ _ r); rewrite ?E1, ?E2, ?E3, ?E4, ?E5, ?Hy; try done.
        -- rewrite H5 in E6. rewrite E3 in E6. by rewrite Hend.
        -- by rewrite H6, Hend.
        -- by rewrite H7.
      * apply Hplain; try done. unfold counted, is_command. by rewrite Hcls, Ec.
    + assert (Hn : counted r = false) by (unfold counted; by rewrite Hend, Et, andb_false_r).
      cbn. assert (Hs : forall c2, c2 = seed_cell config spec cell c' -> cell_effect cell (tp_cells p) c2); [|by apply Hs].
      intros c2 ->. apply Hplain; [done|..]; unfold seed_cell; rewrite Ea; destruct (wake_anchor spec), e, (cs_seed c');
        try done; by destruct (_ && _).
Qed.

(** The invariant of what the cells left. *)
Record heard (c : CellSide) : Prop := {
  hd_frontier : match cs_frontier c with
    | None => cs_cells c = [] /\ cs_run_start c = None /\ cs_answer_start c = None
    | Some f =>
        tn_start spec < f /\ (forall r, r ∈ cs_cells c -> tn_start spec < cr_end r <= f) /\
        (forall s, cs_run_start c = Some s -> s < f) /\ (forall s, cs_answer_start c = Some s -> s < f)
    end;
  hd_ends : cs_command_ends c = cr_end <$> retain counted (cs_cells c);
  hd_count : cs_command_cells c = N.of_nat (length (cs_command_ends c));
  hd_sorted : StronglySorted N.lt (cs_command_ends c);
}.
Lemma heard_new : heard (cell_side_new config spec).
Proof. split; try done. constructor. Qed.
Lemma sorted_snoc (l : list N) y : StronglySorted N.lt l -> (forall x, x ∈ l -> x < y) -> StronglySorted N.lt (l ++ [y]).
Proof.
  intros Hl Hy. induction Hl as [|x l _ IH Hx]; [repeat constructor|]. cbn [app]. constructor.
  - apply IH. intros z Hz. apply Hy. by right.
  - apply Forall_app. split; [done|]. apply Forall_singleton, Hy. by left.
Qed.
Lemma heard_effect cell c c' :
  (forall f, cs_frontier c = Some f -> f <= cell_start (ce_cell cell)) -> heard c -> cell_effect cell c c' -> heard c'.
Proof.
  intros Hord [Hf He Hn Hsort] [E1 E2 E3 E4 E5 E6|r E1 Hend E2 Hstart E3 E4 E5 E6].
  { split; rewrite ?E1, ?E2, ?E3, ?E4, ?E5, ?E6; done. }
  assert (Hle : forall f, cs_frontier c = Some f -> f < cr_end r).
  { intros f Hc. specialize (Hord f Hc). rewrite Hend. unfold cell_start, cell_end, CELL_SAMPLES in *. lia. }
  assert (Hold : (forall x, x ∈ cs_cells c -> tn_start spec < cr_end x < cr_end r) /\
    (forall s, cs_run_start c = Some s -> s < cr_end r) /\ (forall s, cs_answer_start c = Some s -> s < cr_end r)).
  { destruct (cs_frontier c) as [f|].
    - destruct Hf as (_ & H1 & H2 & H3). specialize (Hle f eq_refl). split_and!.
      + intros x Hx. specialize (H1 x Hx). lia.
      + intros s Hs. specialize (H2 s Hs). lia.
      + intros s Hs. specialize (H3 s Hs). lia.
    - destruct Hf as (-> & -> & ->). split_and!; [by intros x ?%not_elem_of_nil|done|done]. }
  destruct Hold as (O1 & O2 & O3).
  assert (Hrun : forall s, cs_run_start c' = Some s -> s < cr_end r).
  { intros s Hs. destruct E3 as [E3|(s' & E3 & Hlt)]; rewrite E3 in Hs; [by apply O2|by injection Hs as <-]. }
  split.
  - rewrite E2. split_and!; [done| |done|].
    + intros x Hx. rewrite E1 in Hx. apply elem_of_app in Hx as [Hx|Hx%list_elem_of_singleton]; [specialize (O1 x Hx); lia|subst x; lia].
    + intros s Hs. destruct E4 as [E4|(s' & E4 & Hlt)]; rewrite E4 in Hs; [by apply O3|]. injection Hs as <-.
      destruct Hlt; [done|by apply Hrun].
  - rewrite E1, E5, He, retain_app, fmap_app. f_equal. rewrite retain_cons. by destruct (counted r).
  - rewrite E5, E6, Hn, length_app. destruct (counted r); cbn; lia.
  - rewrite E5. destruct (counted r); [|by rewrite app_nil_r]. apply sorted_snoc; [done|]. intros x Hx. rewrite He in Hx. apply list_elem_of_fmap in Hx as (z & -> & [Hz _]%elem_of_retain).
    by apply O1.
Qed.

Lemma close_pending reason cause p : tp_pending (close reason cause p).1 = tp_pending p.
Proof. unfold close. by destruct (tp_finished p). Qed.
Lemma reaches_heard p out seen : reaches p out seen -> heard (tp_cells p).
Proof.
  induction 1 as [p now Hn|p out seen a _ IH|p out seen now item p' o _ IH Hf Hord E|p out seen now _ IH|p out seen reason cause _ IH|p out seen t _ IH _ _ _].
  - revert Hn. unfold policy_new. destruct (assembler_new _); [|done]. intros [= <-]. apply heard_new.
  - done.
  - destruct item as [cell|obs]; cbn [on_released] in E.
    + pose proof (on_cell_effect cell p) as He. rewrite E in He. by eapply heard_effect.
    + pose proof (on_block_cells obs now (set_tp_last_progress now p)) as Hc. rewrite E in Hc. cbn in Hc. by rewrite Hc.
  - unfold on_timer. destruct (tp_finished p); [done|].
    match goal with |- context [if ?b then close Cz_NoInput _ _ else _] => destruct b end; [by rewrite close_cells|].
    destruct (_ <=? _); [by rewrite close_cells|done].
  - by rewrite close_cells.
  - done.
Qed.

(** Only a reply that has heard no command waits out a gap. *)
Definition waits_rightly (c : CellSide) : Prop :=
  forall g, cs_reply_gap_end c = Some g -> is_reply spec = true /\ cs_command_cells c = 0.
Lemma on_cell_waits cell p : waits_rightly (tp_cells p) -> waits_rightly (tp_cells (on_cell config spec cell p).1).
Proof.
  intros Hw. unfold on_cell. cbv zeta. destruct (_ <? _); [exact Hw|]. cbn [cs_reply_gap_end set_cs_background].
  destruct (cs_reply_gap_end (tp_cells p)) as [g|] eqn:Eg.
  { destruct (Hw g Eg) as [Hr Hc]. destruct (ce_audio cell); [by intros ? _|]. unfold reopen. destruct (reply_spec spec); by intros ? _. }
  set (c0 := seed_foreground _ _). assert (H0 : cs_reply_gap_end c0 = None).
  { subst c0. unfold seed_foreground. cbn [cs_seed set_cs_background]. destruct (_ <? _); [|done]. by destruct (cs_seed (tp_cells p)). }
  assert (H1 : cs_reply_gap_end (record_cell config spec cell (background_current (cs_background (tp_cells p))) c0).1 = None).
  { unfold record_cell. cbv zeta. destruct (classify _ _ _ _) as [cl j]. destruct (speech_positive _ _); cbn;
      (destruct (cd_opened j); [destruct (_ <? _)|]); done. }
  destruct (record_cell _ _ _ _ _) as [c' j]. cbn [fst] in H1. clearbody c0.
  assert (Hno : forall c2, cs_reply_gap_end c2 = None -> waits_rightly c2) by (intros c2 E2 g; congruence).
  destruct (ce_audio cell) as [muted|e sm vad echo] eqn:Ea.
  - destruct (is_reply spec && (cs_command_cells c' =? 0)) eqn:Ew; [|destruct muted; rewrite close_cells; by apply Hno].
    apply andb_true_iff in Ew as [Hr Hc%N.eqb_eq]. by intros g _.
  - destruct (negb _).
    { apply Hno. cbn. unfold seed_cell. rewrite Ea. destruct (wake_anchor spec), e, (cs_seed c'); try done. by destruct (_ && _). }
    destruct (bool_decide _); [|by apply Hno]. destruct (command_cell spec cell c') as [c2 o2] eqn:E2. apply Hno. cbn.
    revert E2. unfold command_cell. cbv zeta. rewrite Ea. destruct e; cbn; destruct (_ =? 1); cbn; destruct (_ && _); by intros [= <- _].
Qed.
Lemma reaches_waits p out seen : reaches p out seen -> waits_rightly (tp_cells p).
Proof.
  induction 1 as [p now Hn|p out seen a _ IH|p out seen now item p' o _ IH Hf Hord E|p out seen now _ IH|p out seen reason cause _ IH|p out seen t _ IH _ _ _].
  - revert Hn. unfold policy_new. destruct (assembler_new _); [|done]. by intros [= <-].
  - done.
  - destruct item as [cell|obs]; cbn [on_released] in E.
    + pose proof (on_cell_waits cell p IH) as He. by rewrite E in He.
    + pose proof (on_block_cells obs now (set_tp_last_progress now p)) as Hc. rewrite E in Hc. cbn in Hc. by rewrite Hc.
  - unfold on_timer. destruct (tp_finished p); [done|].
    match goal with |- context [if ?b then close Cz_NoInput _ _ else _] => destruct b end; [by rewrite close_cells|].
    destruct (_ <=? _); [by rewrite close_cells|done].
  - by rewrite close_cells.
  - done.
Qed.

(** A boundary is the end of command speech. *)
Definition command_ended (c : CellSide) (b : Sample) : Prop :=
  exists r, r ∈ cs_cells c /\ cr_class r = Cc_CommandSpeech /\ cr_end r = b /\ tn_trigger spec < b.
Lemma in_command_ends c b : heard c -> b ∈ cs_command_ends c -> command_ended c b.
Proof.
  intros Hh Hb. rewrite (hd_ends _ Hh) in Hb. apply list_elem_of_fmap in Hb as (r & -> & Hr). apply elem_of_retain in Hr as [Hr Hc].
  unfold counted, is_command in Hc. apply andb_true_iff in Hc as [Hc%bool_decide_eq_true Ht%N.ltb_lt]. by exists r.
Qed.
Lemma partition_point_spec {T} (f : T -> bool) l i : partition_point f l = S i -> exists x, l !! i = Some x /\ f x = true.
Proof.
  revert i. induction l as [|x l IH]; intros i; cbn; [done|]. destruct (f x) eqn:E; [|done]. intros [= Hi].
  destruct i as [|i]; [by exists x|]. by apply IH.
Qed.
Lemma command_ended_in c b : heard c -> command_ended c b -> b ∈ cs_command_ends c.
Proof.
  intros Hh (r & Hr & Hc & <- & Ht). rewrite (hd_ends _ Hh). apply list_elem_of_fmap. exists r. split; [done|].
  apply elem_of_retain. split; [done|]. unfold counted, is_command. rewrite Hc. by apply N.ltb_lt.
Qed.
Lemma partition_point_greatest at_ l i b x :
  StronglySorted N.lt l -> partition_point (fun e => e <=? at_) l = S i -> l !! i = Some b -> x ∈ l -> x <= at_ -> x <= b.
Proof.
  intros Hs. revert i. induction Hs as [|y l Hs IH Hy]; intros i; cbn [partition_point]; [done|].
  destruct (N.leb_spec y at_) as [Hle|]; [|done]. intros [= Hi] Hb Hx Hat. destruct i as [|i].
  - injection Hb as ->. apply elem_of_cons in Hx as [->|Hx]; [done|]. destruct l as [|z l]; [by apply not_elem_of_nil in Hx|].
    cbn [partition_point] in Hi. destruct (N.leb_spec z at_); [done|]. apply StronglySorted_inv in Hs as [_ Hz].
    apply elem_of_cons in Hx as [->|Hx]; [lia|]. rewrite Forall_forall in Hz. specialize (Hz x Hx). lia.
  - apply elem_of_cons in Hx as [->|Hx]; [|by apply (IH i)]. rewrite Forall_forall in Hy.
    cbn in Hb. apply list_elem_of_lookup_2 in Hb. specialize (Hy b Hb). lia.
Qed.
Lemma last_command_end_by_spec at_ c b :
  heard c -> last_command_end_by at_ c = Some b ->
  command_ended c b /\ b <= at_ /\ (forall b', command_ended c b' -> b' <= at_ -> b' <= b).
Proof.
  intros Hh. unfold last_command_end_by. destruct (partition_point _ _) as [|i] eqn:E; [done|]. intros Hb.
  pose proof E as E'. apply partition_point_spec in E as (x & Hx & Hle%N.leb_le). rewrite Hb in Hx. injection Hx as <-. split_and!; [|done|].
  - apply in_command_ends; [done|]. by eapply list_elem_of_lookup_2.
  - intros b' Hb' Hat. eapply (partition_point_greatest at_); [apply (hd_sorted _ Hh)|exact E'|exact Hb|by apply command_ended_in|done].
Qed.
Lemma last_command_end c cs : heard c -> command_start_any spec c = Some cs -> command_ended c (default 0 (last (cs_command_ends c))).
Proof.
  intros Hh Hc. apply in_command_ends; [done|]. unfold command_start_any in Hc. rewrite (hd_count _ Hh) in Hc.
  destruct (cs_command_ends c) as [|x l _] using rev_ind; [done|]. rewrite last_snoc. cbn. apply elem_of_app. right. by left.
Qed.

(** What a route finds: the end of command speech, and a class for its text. *)
Lemma find_route_spec frontier through p cs r b e :
  heard (tp_cells p) -> command_start_any spec (tp_cells p) = Some cs ->
  find_route config spec frontier through (default 0 (last (cs_command_ends (tp_cells p)))) p = Some (r, b, e) ->
  command_ended (tp_cells p) b /\ r <> Rt_Fallback /\
  (r = Rt_B -> ts_class (tp_words p) = Some Tc_Complete /\
     exists ps, tr_prefix_sample (ts_text (tp_words p)) = Some ps /\ b <= ps).
Proof.
  intros Hh Hc. pose proof (last_command_end _ _ Hh Hc) as Hl. unfold find_route. destruct (is_ha_reply spec).
  { unfold route_r. destruct (_ <=? _); [|done]. by intros [= <- <- <-]. }
  destruct (route_a _ _ _ _ _ _) as [x|] eqn:Ea.
  - intros [= ->]. revert Ea. unfold route_a. destruct (ts_class (tp_words p)) as [class|]; cbn; [|done].
    repeat (match goal with |- context [if ?b then None else _] => destruct b; [done|] end). by intros [= <- <- <-].
  - unfold route_b. destruct (bool_decide_reflect (ts_class (tp_words p) = Some Tc_Complete)) as [Hcl|]; cbn [negb]; [|done].
    destruct (tr_prefix_sample _) as [ps|] eqn:Eps; cbn; [|done].
    repeat (match goal with |- context [if ?b then None else _] => destruct b; [done|] end).
    destruct (last_command_end_by ps (tp_cells p)) as [b'|] eqn:Eb; cbn; [|done]. intros [= <- <- <-].
    destruct (last_command_end_by_spec _ _ _ Hh Eb) as (H1 & H2 & _). split_and!; [done|done|]. intros _. eauto.
Qed.

(** ** What a commit stands for *)
(** Decisions that leave a pending end as it is. *)
Definition quiet (d : Decision) : bool := match d with De_CommandStarted _ | De_AskRecognizer _ => true | _ => false end.

(** A route found [boundary] at the block [obs], when [pre] had been decided and the
    items [seen] handled: what it judged, and the policy it looked at. *)
Record found_at (route : Route) (boundary since : Sample) (j : Judged) (pre : list Decision) (seen : list Visit)
    (q : TurnPolicy) (obs : AsrObservation) (now : MonoInstant) : Prop := {
  fo_reached : reaches q pre seen;
  fo_open : tp_finished q = false;
  fo_frontier : cs_frontier (tp_cells q) = Some since;
  fo_judged : j = judged (words_at config spec obs now q);
  fo_route : exists e, find_route config spec since (asr_through obs) (default 0 (last (cs_command_ends (tp_cells q))))
    (with_words_at config spec obs now q) = Some (route, boundary, e);
  fo_ended : command_ended (tp_cells q) boundary;
  fo_not_fallback : route <> Rt_Fallback;
}.

(** The block that committed: the span it gave and where it stood. *)
Record committed_at (c : Commit) (since : Sample) (q : TurnPolicy) (obs : AsrObservation) (now : MonoInstant) : Prop := {
  ct_frontier : cs_frontier (tp_cells q) = Some (cm_at c);
  ct_start : tn_start spec <= ss_start (cm_span c) < cm_at c;
  ct_end : ss_end (cm_span c) =
    N.max (N.min (se_end (span_end config (cm_boundary c) since (words_at config spec obs now q))) (cm_at c))
      (ss_start (cm_span c));
  ct_within : ss_end (cm_span c) <= cm_at c;
}.

(** Everything decided and every item handled, when the last decision is the commit
    [c]: the policies are those of the run at the items named. *)
Inductive commits (c : Commit) : list Decision -> list Visit -> Prop :=
  | commits_pending pre mid seen between q0 obs0 now0 q obs now since :
      found_at (cm_route c) (cm_boundary c) since (mkJudged (cm_text c) (cm_class c)) pre seen q0 obs0 now0 ->
      Forall quiet mid ->
      let decided := pre ++ De_EndPending (cm_route c) (cm_boundary c) since :: mid in
      let handled := seen ++ mkVisit q0 pre (Rl_Block obs0) now0 :: between in
      reaches q decided handled ->
      committed_at c since q obs now ->
      command_cells_since since (tp_cells q) < ep_revoke_command_cells P ->
      ep_lookahead P <= sample_since (cm_at c)
        (N.max since (se_end (span_end config (cm_boundary c) since (words_at config spec obs now q)))) ->
      cm_recheck c = match cm_route c with Rt_B => true | _ => false end ->
      commits c (decided ++ [De_Commit c]) (handled ++ [mkVisit q decided (Rl_Block obs) now])
  | commits_fallback pre seen q obs now ps start :
      reaches q pre seen -> committed_at c (cm_at c) q obs now ->
      mkJudged (cm_text c) (cm_class c) = judged (words_at config spec obs now q) ->
      cm_route c = Rt_Fallback -> cm_class c = Some Tc_Complete -> cm_recheck c = true ->
      command_ended (tp_cells q) (cm_boundary c) ->
      tr_prefix_sample (ts_text (words_at config spec obs now q)) = Some ps -> cm_boundary c <= ps ->
      (forall b, command_ended (tp_cells q) b -> b <= ps -> b <= cm_boundary c) ->
      command_start_any spec (tp_cells q) = Some start ->
      ep_no_progress P <= sample_since (cm_at c)
        (N.max (tr_progress_sample (ts_text (words_at config spec obs now q))) start) ->
      commits c (pre ++ [De_Commit c]) (seen ++ [mkVisit q pre (Rl_Block obs) now]).

(** What an evaluation decides. *)
Inductive evaluated (frontier through : Sample) (p p' : TurnPolicy) : list Decision -> Prop :=
  | ev_nothing : tp_finished p' = tp_finished p -> tp_pending p' = tp_pending p -> evaluated frontier through p p' []
  | ev_closed reason at_ : tp_finished p' = true -> evaluated frontier through p p' [De_Close reason at_]
  | ev_found route boundary e cs :
      tp_pending p = None -> command_start_any spec (tp_cells p) = Some cs ->
      find_route config spec frontier through (default 0 (last (cs_command_ends (tp_cells p)))) p = Some (route, boundary, e) ->
      tp_pending p' = Some (mkPending route boundary frontier (judged (tp_words p))) ->
      evaluated frontier through p p' [De_EndPending route boundary frontier]
  | ev_revoked boundary : tp_pending p' = None -> evaluated frontier through p p' [De_EndRevoked boundary frontier]
  | ev_committed pn c :
      tp_pending p = Some pn -> command_cells_since (pn_since pn) (tp_cells p) < ep_revoke_command_cells P ->
      let end_ := span_end config (pn_boundary pn) (pn_since pn) (tp_words p) in
      ep_lookahead P <= sample_since frontier (N.max (pn_since pn) (se_end end_)) ->
      tp_finished p' = true ->
      (commit config spec (pn_route pn) (pn_boundary pn) end_ frontier (pn_judged pn) (set_tp_pending None p)).2 = [De_Commit c] ->
      evaluated frontier through p p' [De_Commit c]
  | ev_fallback c b ps start :
      ts_class (tp_words p) = Some Tc_Complete -> tr_prefix_sample (ts_text (tp_words p)) = Some ps ->
      last_command_end_by ps (tp_cells p) = Some b -> command_start_any spec (tp_cells p) = Some start ->
      ep_no_progress P <= sample_since frontier (N.max (tr_progress_sample (ts_text (tp_words p))) start) ->
      tp_finished p' = true ->
      (commit config spec Rt_Fallback b (span_end config b frontier (tp_words p)) frontier (judged (tp_words p)) p).2 = [De_Commit c] ->
      evaluated frontier through p p' [De_Commit c].

Lemma close_evaluated frontier through reason cause p :
  tp_finished p = false ->
  evaluated frontier through p (close reason cause p).1 (close reason cause p).2.
Proof. intros Hf. unfold close. rewrite Hf. by apply ev_closed. Qed.
Lemma evaluate_evaluated frontier through p :
  tp_finished p = false ->
  evaluated frontier through p (evaluate config spec frontier through p).1 (evaluate config spec frontier through p).2.
Proof.
  intros Hf. unfold evaluate. destruct (_ && _); [by apply close_evaluated|].
  match goal with |- context [if ?b then close Cz_TooLong _ _ else _] => destruct b end; [by apply close_evaluated|].
  destruct (tp_pending p) as [pn|] eqn:Epn.
  { unfold pending_step. destruct (N.leb_spec (ep_revoke_command_cells (tc_endpoint config))
      (command_cells_since (pn_since pn) (tp_cells (set_tp_pending None p)))) as [|Hcells]; [by apply ev_revoked|].
    match goal with |- context [if ?b then commit _ _ _ _ _ _ _ _ else _] => destruct b eqn:El end.
    - apply N.leb_le in El. eapply ev_committed; [exact Epn|exact Hcells|exact El|done|done].
    - apply ev_nothing; [done|]. by rewrite Epn. }
  destruct (command_start_any spec (tp_cells p)) as [cs|] eqn:Ecs; [|by apply ev_nothing; [|rewrite Epn]].
  destruct (find_route _ _ _ _ _ _) as [[[route boundary] e]|] eqn:Er; [by eapply ev_found|].
  unfold fallback. match goal with |- context [if ?b then _ else (p, [])] => destruct b eqn:El end; [|by apply ev_nothing; [|rewrite Epn]].
  apply N.leb_le in El. destruct (ts_class (tp_words p)) as [[]|] eqn:Ec; try by apply close_evaluated.
  destruct (tr_prefix_sample _) as [ps|] eqn:Eps; [|by apply close_evaluated].
  destruct (last_command_end_by ps (tp_cells p)) as [b|] eqn:Eb; [|by apply close_evaluated].
  by eapply ev_fallback.
Qed.

(** What the steps keep. *)
Record settled (p : TurnPolicy) (out : list Decision) (seen : list Visit) : Prop := {
  se_open : tp_finished p = false -> Forall (fun d => terminal d = false) out;
  se_pending : tp_finished p = false -> forall pn, tp_pending p = Some pn -> exists pre mid s1 s2 q obs now,
    out = pre ++ De_EndPending (pn_route pn) (pn_boundary pn) (pn_since pn) :: mid /\ Forall quiet mid /\
    seen = s1 ++ mkVisit q pre (Rl_Block obs) now :: s2 /\
    found_at (pn_route pn) (pn_boundary pn) (pn_since pn) (pn_judged pn) pre s1 q obs now;
  se_commit : forall c, De_Commit c ∈ out -> commits c out seen;
}.

(** A step that commits nothing and leaves the pending end. *)
Lemma settled_quiet p p' out o seen more :
  settled p out seen -> tp_finished p = false -> Forall quiet o -> tp_pending p' = tp_pending p -> settled p' (out ++ o) (seen ++ more).
Proof.
  intros [H1 H2 H3] Hf Ho Hp. split.
  - intros _. apply Forall_app. split; [by apply H1|]. eapply Forall_impl; [exact Ho|]. by intros [].
  - intros _ pn Hpn. rewrite Hp in Hpn. destruct (H2 Hf pn Hpn) as (pre & mid & s1 & s2 & q & obs & now & -> & Hm & -> & Hfo).
    exists pre, (mid ++ o), s1, (s2 ++ more), q, obs, now. split_and!; [by rewrite <- app_assoc|by apply Forall_app|by rewrite <- app_assoc|done].
  - intros c [Hc|Hc]%elem_of_app.
    + specialize (H1 Hf). rewrite Forall_forall in H1. by specialize (H1 _ Hc).
    + rewrite Forall_forall in Ho. by specialize (Ho _ Hc).
Qed.
(** A step that ends it without a commit. *)
Lemma settled_closed p p' out o seen more :
  settled p out seen -> tp_finished p = false -> tp_finished p' = true -> Forall (fun d => match d with De_Commit _ => False | _ => True end) o ->
  settled p' (out ++ o) (seen ++ more).
Proof.
  intros [H1 _ _] Hf Hf' Ho. split; [congruence|congruence|]. intros c [Hc|Hc]%elem_of_app.
  - specialize (H1 Hf). rewrite Forall_forall in H1. by specialize (H1 _ Hc).
  - rewrite Forall_forall in Ho. by specialize (Ho _ Hc).
Qed.
Lemma settled_close reason cause p out seen :
  settled p out seen -> settled (close reason cause p).1 (out ++ (close reason cause p).2) seen.
Proof.
  intros S. unfold close. destruct (tp_finished p) eqn:Ef; [by rewrite app_nil_r|]. rewrite <- (app_nil_r seen).
  eapply settled_closed; [exact S|done|done|by repeat constructor].
Qed.

(** The commits of an evaluated block. *)
Lemma span_start_spec c :
  heard c -> forall f, cs_frontier c = Some f ->
  let start := match reply_spec spec with
    | Some _ => match cs_answer_start c with
                | Some a => N.max (sample_sub a (ep_reply_span_lead P)) (tn_start spec) | None => tn_start spec end
    | None => tn_start spec end in
  tn_start spec <= start < f.
Proof.
  intros [Hh _ _] f Hf. rewrite Hf in Hh. destruct Hh as (H1 & _ & _ & H4). cbv zeta. destruct (reply_spec spec); [|lia].
  destruct (cs_answer_start c) as [a|]; [|lia]. specialize (H4 a eq_refl). unfold sample_sub. lia.
Qed.
Lemma commit_committed route boundary since j p c obs now f q :
  heard (tp_cells q) -> cs_frontier (tp_cells q) = Some f ->
  (commit config spec route boundary (span_end config boundary since (words_at config spec obs now q)) f j p).2 = [De_Commit c] ->
  tp_cells p = tp_cells q ->
  cm_route c = route /\ cm_boundary c = boundary /\ mkJudged (cm_text c) (cm_class c) = j /\ cm_at c = f /\
  cm_recheck c = match route with Rt_B | Rt_Fallback => true | _ => false end /\ committed_at c since q obs now.
Proof.
  intros Hh Hf Hcm Hc. revert Hcm. pose proof (span_start_spec _ Hh f Hf) as Hs. cbv zeta in Hs. unfold commit. rewrite Hc. cbn [snd].
  intros [= <-]. cbn. split_and!; try done; [by destruct j|]. split; cbn; [done|exact Hs|done|].
  unfold P in *. lia.
Qed.


Lemma settled_cell cell p p' out o seen more :
  settled p out seen -> tp_finished p = false -> on_cell config spec cell p = (p', o) -> settled p' (out ++ o) (seen ++ more).
Proof.
  intros S Hf. assert (Hsame : forall p1, tp_pending p1 = tp_pending p -> settled p1 (out ++ []) (seen ++ more)) by
    (intros p1 H1; by eapply settled_quiet).
  assert (Hclose : forall reason cause c, close reason cause (set_tp_cells c p) = (p', o) -> settled p' (out ++ o) (seen ++ more)).
  { intros reason cause c E. unfold close in E. cbn [tp_finished set_tp_cells] in E. rewrite Hf in E. injection E as <- <-.
    by eapply settled_closed; [exact S| | |repeat constructor]. }
  unfold on_cell. destruct (_ <? _); [intros [= <- <-]; by apply Hsame|].
  set (c := set_cs_background _ _). destruct (cs_reply_gap_end c) as [g|].
  { destruct (ce_audio cell); [intros [= <- <-]; by apply Hsame|]. unfold reopen.
    destruct (reply_spec spec); intros [= <- <-]; [|by apply Hsame].
    by eapply settled_closed; [exact S| | |repeat constructor]. }
  destruct (record_cell _ _ _ _ _) as [c' j]. destruct (ce_audio cell) as [muted|e sm vad echo].
  - destruct (_ && _); [intros [= <- <-]; by apply Hsame|]. destruct muted; apply Hclose.
  - destruct (negb _); [intros [= <- <-]; by apply Hsame|]. destruct (bool_decide _); [|intros [= <- <-]; by apply Hsame].
    destruct (command_cell spec cell c') as [c2 out2] eqn:E. intros [= <- <-]. eapply settled_quiet; [exact S|done| |done].
    revert E. unfold command_cell. cbv zeta. destruct (_ =? 1); intros [= _ <-]; repeat constructor.
Qed.

(** Decided by an evaluation: what it found, and what it committed. *)
Lemma settled_evaluated obs now f p p1 out o seen :
  reaches p out seen -> settled p out seen -> tp_finished p = false -> cs_frontier (tp_cells p) = Some f ->
  evaluated f (asr_through obs) (with_words_at config spec obs now (set_tp_last_progress now p)) p1 o ->
  settled p1 (out ++ o) (seen ++ [mkVisit p out (Rl_Block obs) now]).
Proof.
  intros R S Hf Hfr Hev. pose proof (reaches_heard _ _ _ R) as Hh. pose proof S as [Hopen Hpend Hcommit].
  assert (Hold : forall c, De_Commit c ∈ out -> False).
  { intros c Hc. specialize (Hopen Hf). rewrite Forall_forall in Hopen. by specialize (Hopen _ Hc). }
  destruct Hev as [Hf1 Hp1|reason at_ Hf1|route boundary e cs Hn Hcs Hr Hp1|boundary Hp1|pn c Hpn Hcells end_ Hla Hf1 Hcm|
    c b ps start Hcl Hps Hb Hcs Hnp Hf1 Hcm].
  - by eapply settled_quiet.
  - by eapply settled_closed; [exact S| | |repeat constructor].
  - split.
    + intros _. apply Forall_app. split; [by apply Hopen|by repeat constructor].
    + intros _ pn. rewrite Hp1. intros [= <-]. exists out, [], seen, [], p, obs, now. cbn. split_and!; [done..|].
      destruct (find_route_spec _ _ (with_words_at config spec obs now (set_tp_last_progress now p)) _ _ _ _ Hh Hcs Hr) as (He & Hrt & _).
      split; try done. by exists e.
    + intros c [Hc|Hc%list_elem_of_singleton]%elem_of_app; [by destruct (Hold c)|done].
  - split; [|by rewrite Hp1|].
    + intros _. apply Forall_app. split; [by apply Hopen|by repeat constructor].
    + intros c [Hc|Hc%list_elem_of_singleton]%elem_of_app; [by destruct (Hold c)|done].
  - split; [congruence..|]. intros c' [Hc|[= ->]%list_elem_of_singleton]%elem_of_app; [by destruct (Hold c')|].
    destruct (Hpend Hf pn Hpn) as (pre & mid & s1 & s2 & q & obs' & now' & Eout & Hm & Eseen & Hfo).
    destruct (commit_committed _ _ _ _ _ _ _ _ _ p Hh Hfr Hcm eq_refl) as (E1 & E2 & E3 & E4 & E5 & E6).
    rewrite Eout, Eseen in R |- *. rewrite <- E1, <- E2 in R |- *. apply commits_pending; [|exact Hm|exact R|exact E6|exact Hcells| |].
    + rewrite E1, E2, E3. exact Hfo.
    + rewrite E2, E4. exact Hla.
    + rewrite E5, E1. pose proof (fo_not_fallback _ _ _ _ _ _ _ _ _ Hfo). by destruct (pn_route pn).
  - split; [congruence..|]. intros c' [Hc|[= ->]%list_elem_of_singleton]%elem_of_app; [by destruct (Hold c')|].
    destruct (commit_committed _ _ _ _ _ _ _ _ _ p Hh Hfr Hcm eq_refl) as (E1 & E2 & E3 & E4 & E5 & E6).
    destruct (last_command_end_by_spec _ _ _ Hh Hb) as (Hce & Hle & Hlast).
    eapply commits_fallback with (obs := obs) (now := now) (ps := ps); try done.
    + by rewrite E4.
    + injection E3 as _ ->. exact Hcl.
    + by rewrite E2.
    + by rewrite E2.
    + by rewrite E2.
    + rewrite E4. exact Hnp.
Qed.
Lemma settled_finished p p' out seen : settled p out seen -> tp_finished p = true -> tp_finished p' = true -> settled p' out seen.
Proof. intros [_ _ H3] _ Hf. split; [congruence..|exact H3]. Qed.

Lemma settled_block obs now p p' out o seen :
  reaches p out seen -> settled p out seen -> tp_finished p = false ->
  on_block config spec obs now (set_tp_last_progress now p) = (p', o) ->
  settled p' (out ++ o) (seen ++ [mkVisit p out (Rl_Block obs) now]).
Proof.
  intros R S Hf. set (p0 := set_tp_last_progress now p). destruct (cs_reply_gap_end (tp_cells p0)) as [g|] eqn:Eg.
  { unfold on_block. destruct (take_block _ _ _ _ _) as [t ask]. cbn [tp_cells set_tp_words]. rewrite Eg.
    destruct (ask && _); intros [= <- <-]; eapply settled_quiet; try done; by repeat constructor. }
  destruct (cs_frontier (tp_cells p0)) as [f|] eqn:Ef.
  2: { unfold on_block. destruct (take_block _ _ _ _ _) as [t ask]. cbn [tp_cells set_tp_words]. rewrite Eg, Ef.
    destruct (ask && _); intros [= <- <-]; eapply settled_quiet; try done; by repeat constructor. }
  intros E. pose proof (on_block_evaluates config spec obs now p0 f Eg Ef) as Hb. rewrite E in Hb.
  pose proof (evaluate_evaluated f (asr_through obs) (with_words_at config spec obs now p0) Hf) as Hev.
  destruct (evaluate _ _ _ _ _) as [p1 o1]. destruct Hb as (Hfin & Hpend & _ & asked & -> & Hask & Hnone). cbn [fst snd] in Hev.
  rewrite app_assoc. assert (Hq : Forall quiet asked) by (eapply Forall_impl; [exact Hask|]; by intros ? [? ->]).
  pose proof (settled_evaluated obs now f p p1 out o1 seen R S Hf Ef Hev) as S1.
  destruct (tp_finished p1) eqn:Ef1; [rewrite (Hnone eq_refl), app_nil_r; by eapply settled_finished|].
  rewrite <- (app_nil_r (seen ++ _)). by eapply settled_quiet.
Qed.

Lemma reaches_settled p out seen : reaches p out seen -> settled p out seen.
Proof.
  induction 1 as [p now Hn|p out seen a R IH|p out seen now item p' o R IH Hf Hord E|p out seen now R IH|p out seen reason cause R IH|p out seen t R IH Ht Hcl Ha].
  - revert Hn. unfold policy_new. destruct (assembler_new _); [|done]. intros [= <-].
    split; [done|done|]. by intros c ?%not_elem_of_nil.
  - by destruct IH.
  - destruct item as [cell|obs]; cbn [on_released] in E.
    + by eapply settled_cell.
    + by eapply settled_block.
  - unfold on_timer. destruct (tp_finished p); [by rewrite app_nil_r|].
    match goal with |- context [if ?b then close Cz_NoInput _ _ else _] => destruct b end; [by apply settled_close|].
    destruct (_ <=? _); [by apply settled_close|by rewrite app_nil_r].
  - by apply settled_close.
  - by destruct IH.
Qed.

(** ** What is asked, and started *)
Lemma take_server_answer_asked a t : ts_asked (take_server_answer a t).1 = ts_asked t.
Proof.
  unfold take_server_answer. cbv zeta. destruct (find_first _ _) as [r|]; [|done]. destruct (pr_server r) as [s|]; [|done].
  destruct (pause_is_open s); [|done]. destruct (ps_outcome _) as [text|]; [|done]. destruct (trim text); [done|].
  by destruct (stand_server _ _ _).
Qed.
Lemma take_due_answers_asked due t stood : ts_asked (take_due_answers due t stood).1 = ts_asked t.
Proof.
  revert t stood. induction due as [|a due IH]; intros t stood; cbn [take_due_answers]; [done|].
  pose proof (take_server_answer_asked a t) as Ha. destruct (take_server_answer a t) as [t2 s]. rewrite IH. exact Ha.
Qed.
Lemma take_server_answers_asked through t : ts_asked (take_server_answers through t).1 = ts_asked t.
Proof. unfold take_server_answers. cbv zeta. by rewrite take_due_answers_asked. Qed.
Lemma apply_answer_asked block a t : ts_asked (apply_answer config block a t) = ts_asked t.
Proof.
  unfold apply_answer. destruct a as [a at_]. destruct (find_first _ _) as [asked|]; [|done]. destruct (_ !! _) as [r|]; [|done].
  cbv zeta. destruct (_ || _); [done|]. destruct (_ <? _); [done|]. by destruct (rg_outcome a).
Qed.
Lemma apply_answers_asked block t : ts_asked (apply_answers config block t) = ts_asked t.
Proof.
  unfold apply_answers. cbn [refresh_class set_ts_class ts_asked]. change (ts_asked t) with (ts_asked (set_ts_arrived [] t)).
  generalize (set_ts_arrived [] t). induction (ts_arrived t) as [|a l IH]; intros t1; [done|]. cbn [foldl].
  by rewrite IH, apply_answer_asked.
Qed.

(** A block leaves the questions as they are, and asks for a text the grammar does not
    know, which has not been asked. *)
Definition may_ask (t : TextSide) : Prop :=
  let prefix := tr_prefix (ts_text t) in
  tc_recognizer_available config = true /\ is_ha_reply spec = false /\ prefix <> [] /\
  grammar_classify prefix = Tc_Unknown /\ prefix ∉ (ak_text <$> ts_asked t).
Lemma text_changed_asked through t :
  let '(t', ask) := text_changed config spec through t in
  ts_asked t' = ts_asked t /\ ts_text t' = ts_text t /\ (ask = true -> may_ask t').
Proof.
  unfold text_changed. cbv zeta. split; [done|]. split; [done|].
  rewrite !andb_true_iff, !negb_true_iff, bool_decide_eq_true. intros [[[Hg Hr] Hh] Ha].
  change (may_ask t). unfold may_ask. cbv zeta.
  split; [done|]. split; [done|]. split_and!.
  - intros Hp. by rewrite Hp in Hg.
  - revert Hg. destruct (tr_prefix _) as [|x l]; [done|]. by intros [= ->].
  - intros (a & Ea & Hin)%list_elem_of_fmap. rewrite any_false in Ha. specialize (Ha a Hin).
    apply bool_decide_eq_false in Ha. by apply Ha.
Qed.
Lemma judge_kroko_asked through t : ts_asked (judge_kroko through t) = ts_asked t.
Proof. unfold judge_kroko. by destruct (ts_pauses t). Qed.
Lemma judge_server_asked through t : ts_asked (judge_server through t) = ts_asked t.
Proof. unfold judge_server. destruct (_ ≫= _) as [s|]; [|done]. by destruct (is_some _). Qed.
Lemma take_block_asked obs now t :
  let '(t', ask) := take_block config spec obs now t in
  ts_asked t' = ts_asked t /\ (ask = true -> may_ask t').
Proof.
  unfold take_block. cbv zeta. set (t1 := if match asr_kind obs with Ak_Finalized => true | Ak_Live => false end then supersede_server _ _ else t).
  assert (H1 : ts_asked t1 = ts_asked t) by (subst t1; by destruct (asr_kind obs)).
  pose proof (apply_answers_asked (asr_through obs) t1) as H2. set (t2 := apply_answers config _ t1) in *.
  destruct (tracker_take obs (ts_text t2)) as [tracker ended].
  match goal with |- context [take_server_answers _ ?x] => assert (H3 : ts_asked x = ts_asked t2) by
    (unfold supersede_server; destruct ended; destruct (asr_kind obs); done); pose proof (take_server_answers_asked (asr_through obs) x) as H4;
    destruct (take_server_answers (asr_through obs) x) as [t4 stood] end.
  destruct (tracker_settle _ _) as [tracker' changed]. cbn [fst] in H4.
  match goal with |- context [if changed then text_changed _ _ _ ?x else _] => assert (H5 : ts_asked x = ts_asked t4) end.
  { destruct stood; rewrite ?judge_server_asked; destruct (_ && _); rewrite ?judge_kroko_asked; done. }
  match goal with |- context [if changed then text_changed _ _ _ ?x else _] =>
    pose proof (text_changed_asked (asr_through obs) x) as H6; destruct changed;
    [destruct (text_changed config spec (asr_through obs) x) as [t6 ask]|] end.
  - destruct H6 as (H6 & _ & Hask). split; [cbn; congruence|exact Hask].
  - split; [cbn; congruence|done].
Qed.

(** The questions among the decisions, and the starts. *)
Definition asked_texts (out : list Decision) : list Text :=
  omap (fun d => match d with De_AskRecognizer t => Some t | _ => None end) out.
Definition starts (out : list Decision) : list Sample :=
  omap (fun d => match d with De_CommandStarted s => Some s | _ => None end) out.

Lemma close_asked reason cause p : asked_texts (close reason cause p).2 = [] /\ starts (close reason cause p).2 = [].
Proof. unfold close. by destruct (tp_finished p). Qed.
Lemma close_words reason cause p : tp_words (close reason cause p).1 = tp_words p.
Proof. unfold close. by destruct (tp_finished p). Qed.
Lemma evaluate_words frontier through p : tp_words (evaluate config spec frontier through p).1 = tp_words p.
Proof.
  unfold evaluate. destruct (_ && _); [apply close_words|].
  match goal with |- context [if ?b then close Cz_TooLong _ _ else _] => destruct b end; [apply close_words|].
  destruct (tp_pending p) as [pn|].
  { unfold pending_step. destruct (_ <=? _); [done|]. by destruct (_ <=? _). }
  destruct (command_start_any _ _) as [cs|]; [|done]. destruct (find_route _ _ _ _ _ _) as [[[? ?] ?]|]; [done|].
  unfold fallback. destruct (_ <=? _); [|done].
  match goal with |- context [match ?o with Some _ => commit _ _ _ _ _ _ _ _ | None => _ end] => destruct o end;
    [done|apply close_words].
Qed.
Lemma evaluated_asked frontier through p p' o : evaluated frontier through p p' o -> asked_texts o = [] /\ starts o = [].
Proof. by destruct 1. Qed.

Lemma command_cell_starts cell c :
  let '(c', o) := command_cell spec cell c in
  cs_command_cells c' = cs_command_cells c + 1 /\ asked_texts o = [] /\
  (cs_command_cells c + 1 = 1 /\ (exists s, starts o = [s]) \/ cs_command_cells c + 1 <> 1 /\ starts o = []).
Proof.
  unfold command_cell. cbv zeta. destruct (ce_audio cell) as [|[] ? ?]; cbn;
    (destruct (N.eqb_spec (cs_command_cells c + 1) 1); cbn; destruct (_ && _); cbn; (split_and!; [done|done|]);
     [left; split; [done|by eexists]|left; split; [done|by eexists]|by right|by right]).
Qed.

(** A cell asks nothing, and starts the command when it is its first command speech. *)
Lemma on_cell_asked cell p p' o :
  on_cell config spec cell p = (p', o) ->
  tp_words p' = tp_words p /\ asked_texts o = [] /\
  (starts o = [] /\ (cs_command_cells (tp_cells p') = cs_command_cells (tp_cells p) \/
     0 < cs_command_cells (tp_cells p) < cs_command_cells (tp_cells p')) \/
   (exists s, starts o = [s]) /\ cs_command_cells (tp_cells p) = 0 /\ cs_command_cells (tp_cells p') = 1).
Proof.
  assert (Hclose : forall reason cause c, cs_command_cells c = cs_command_cells (tp_cells p) ->
    close reason cause (set_tp_cells c p) = (p', o) ->
    tp_words p' = tp_words p /\ asked_texts o = [] /\ starts o = [] /\ cs_command_cells (tp_cells p') = cs_command_cells (tp_cells p)).
  { intros reason cause c Hc E. pose proof (close_asked reason cause (set_tp_cells c p)) as H1.
    pose proof (close_words reason cause (set_tp_cells c p)) as H2. pose proof (close_cells reason cause (set_tp_cells c p)) as H3.
    rewrite E in *. cbn in *. rewrite H3. by destruct H1. }
  unfold on_cell. cbv zeta. destruct (_ <? _); [intros [= <- <-]; split_and!; [done|done|]; left; split; [done|by left]|].
  cbn [cs_reply_gap_end set_cs_background]. destruct (cs_reply_gap_end (tp_cells p)) as [g|].
  { destruct (ce_audio cell); [intros [= <- <-]; split_and!; [done|done|]; left; split; [done|by left]|].
    unfold reopen. destruct (reply_spec spec); intros [= <- <-]; (split_and!; [done|done|]); left; (split; [done|by left]). }
  set (c0 := seed_foreground _ _). assert (H0 : cs_command_cells c0 = cs_command_cells (tp_cells p)).
  { subst c0. unfold seed_foreground. destruct (_ <? _); [|done]. by destruct (cs_seed _). }
  assert (H1 : cs_command_cells (record_cell config spec cell (background_current (cs_background (tp_cells p))) c0).1 = cs_command_cells c0).
  { unfold record_cell. cbv zeta. destruct (classify _ _ _ _) as [cl j]. destruct (speech_positive _ _); cbn;
      (destruct (cd_opened j); [destruct (_ <? _)|]); done. }
  destruct (record_cell _ _ _ _ _) as [c' j]. cbn [fst] in H1. rewrite H0 in H1. clearbody c0.
  destruct (ce_audio cell) as [muted|e sm vad echo] eqn:Ea.
  - destruct (_ && _); [intros [= <- <-]; split_and!; [done|done|]; left; split; [done|by left]|].
    destruct muted; intros E; destruct (Hclose _ _ _ H1 E) as (? & ? & ? & ?); (split_and!; [done|done|]); left; (split; [done|by left]).
  - destruct (negb _).
    { intros [= <- <-]. split_and!; [done|done|]. left. split; [done|]. left. cbn. rewrite <- H1. unfold seed_cell. rewrite Ea.
      destruct (wake_anchor spec), e, (cs_seed c'); try done. by destruct (_ && _). }
    destruct (bool_decide _); [|intros [= <- <-]; split_and!; [done|done|]; left; split; [done|by left]].
    pose proof (command_cell_starts cell c') as H2.
    destruct (command_cell spec cell c') as [c2 o2]. intros [= <- <-]. destruct H2 as (H2 & H3 & H4).
    cbn. split_and!; [done|done|]. rewrite H2, H1 in *. destruct H4 as [[H4 H5]|[H4 H5]]; [right|left].
    + split_and!; [done|lia|lia].
    + split; [done|]. right. lia.
Qed.

Record asked_once (p : TurnPolicy) (out : list Decision) : Prop := {
  ao_texts : tp_finished p = false -> asked_texts out = ak_text <$> ts_asked (tp_words p);
  ao_once : NoDup (asked_texts out);
  ao_unknown : Forall (fun t => t <> [] /\ grammar_classify t = Tc_Unknown) (asked_texts out);
  ao_available : asked_texts out <> [] -> tc_recognizer_available config = true /\ is_ha_reply spec = false;
  ao_start : N.of_nat (length (starts out)) = N.min 1 (cs_command_cells (tp_cells p));
}.
(** A step without a question or a start. *)
Lemma asked_once_same p p' out o :
  asked_once p out -> (tp_finished p' = false -> tp_finished p = false) ->
  ts_asked (tp_words p') = ts_asked (tp_words p) -> asked_texts o = [] ->
  N.of_nat (length (starts (out ++ o))) = N.min 1 (cs_command_cells (tp_cells p')) -> asked_once p' (out ++ o).
Proof.
  intros [H1 H2 H3 H4 H5] Hf Ha Ho Hs.
  assert (E : asked_texts (out ++ o) = asked_texts out) by (unfold asked_texts in *; by rewrite omap_app, Ho, app_nil_r).
  split; rewrite ?E; try done. intros Hf'. rewrite Ha. auto.
Qed.
Lemma asked_once_silent p p' out o :
  asked_once p out -> (tp_finished p' = false -> tp_finished p = false) ->
  ts_asked (tp_words p') = ts_asked (tp_words p) -> asked_texts o = [] -> starts o = [] ->
  cs_command_cells (tp_cells p') = cs_command_cells (tp_cells p) -> asked_once p' (out ++ o).
Proof.
  intros A Hf Ha Ho Hs Hc. eapply asked_once_same; [done..|]. unfold starts in *.
  rewrite omap_app, Hs, app_nil_r, Hc. apply (ao_start _ _ A).
Qed.
Lemma asked_once_close reason cause p out :
  asked_once p out -> asked_once (close reason cause p).1 (out ++ (close reason cause p).2).
Proof.
  intros A. destruct (close_asked reason cause p) as [H1 H2]. eapply asked_once_silent; [done| |by rewrite close_words|done|done|by rewrite close_cells].
  by rewrite close_finished.
Qed.
Lemma asked_once_block obs now p p' out o :
  asked_once p out -> tp_finished p = false -> on_block config spec obs now (set_tp_last_progress now p) = (p', o) ->
  asked_once p' (out ++ o).
Proof.
  intros A Hf. unfold on_block. pose proof (take_block_asked obs now (tp_words p)) as Ht. cbn [tp_words set_tp_last_progress].
  destruct (take_block config spec obs now (tp_words p)) as [t ask]. destruct Ht as [Ht Hask]. cbn [tp_cells set_tp_words set_tp_last_progress].
  assert (H1 : exists p1 o1, (match cs_reply_gap_end (tp_cells p), cs_frontier (tp_cells p) with
      | None, Some f => evaluate config spec f (asr_through obs) (set_tp_words t (set_tp_last_progress now p))
      | _, _ => (set_tp_words t (set_tp_last_progress now p), []) end) = (p1, o1) /\
      tp_words p1 = t /\ tp_cells p1 = tp_cells p /\ asked_texts o1 = [] /\ starts o1 = []).
  { destruct (cs_reply_gap_end (tp_cells p)); [by do 2 eexists|]. destruct (cs_frontier (tp_cells p)) as [f|]; [|by do 2 eexists].
    set (p0 := set_tp_words t _). pose proof (evaluate_words f (asr_through obs) p0) as Hw. pose proof (evaluate_cells f (asr_through obs) p0) as Hc.
    destruct (evaluated_asked _ _ _ _ _ (evaluate_evaluated f (asr_through obs) p0 Hf)) as [He1 He2].
    destruct (evaluate _ _ _ _ _) as [p1 o1]. by exists p1, o1. }
  destruct H1 as (p1 & o1 & -> & Hw & Hc & Ho & Hs).
  assert (A1 : asked_once p1 (out ++ o1)) by (eapply asked_once_silent; [exact A|done|congruence|done|done|by rewrite Hc]).
  destruct ask; cbn [andb]; [|by intros [= <- <-]]. destruct (tp_finished p1) eqn:Ef1; cbn [negb]; [by intros [= <- <-]|].
  intros [= <- <-]. rewrite app_assoc. destruct (Hask eq_refl) as (Ha1 & Ha2 & Ha3 & Ha4 & Ha5).
  rewrite Hw in *. set (prefix := tr_prefix (ts_text t)) in *.
  destruct A1 as [B1 B2 B3 B4 B5]. specialize (B1 Ef1). rewrite Hw in B1.
  assert (E : asked_texts ((out ++ o1) ++ [De_AskRecognizer prefix]) = asked_texts (out ++ o1) ++ [prefix]) by (unfold asked_texts; by rewrite !omap_app).
  split; rewrite ?E.
  - intros _. cbn. by rewrite fmap_app, B1.
  - apply NoDup_app. split_and!; [done| |apply NoDup_singleton]. intros x Hx ->%list_elem_of_singleton. by rewrite B1 in Hx.
  - by apply Forall_app; split; [|repeat constructor].
  - done.
  - cbn. rewrite <- B5. unfold starts. rewrite !omap_app. cbn. by rewrite app_nil_r.
Qed.

Lemma reaches_asked p out seen : reaches p out seen -> asked_once p out.
Proof.
  induction 1 as [p now Hn|p out seen a R IH|p out seen now item p' o R IH Hf Hord E|p out seen now R IH|p out seen reason cause R IH|p out seen t R IH Ht Hcl Ha].
  - revert Hn. unfold policy_new. destruct (assembler_new _); [|done]. intros [= <-]. by split; try constructor.
  - by destruct IH.
  - destruct item as [cell|obs]; cbn [on_released] in E; [|by eapply asked_once_block].
    destruct (on_cell_asked cell p p' o E) as (Hw & Ho & Hs). eapply asked_once_same; [done..|by rewrite Hw|done|].
    pose proof (ao_start _ _ IH) as H5. unfold starts in *. rewrite omap_app, length_app.
    destruct Hs as [[-> [Hc|Hc]]|[[s ->] Hc]]; cbn [length]; lia.
  - unfold on_timer. destruct (tp_finished p); [by rewrite app_nil_r|].
    match goal with |- context [if ?b then close Cz_NoInput _ _ else _] => destruct b end; [by apply asked_once_close|].
    destruct (_ <=? _); [by apply asked_once_close|by rewrite app_nil_r].
  - by apply asked_once_close.
  - destruct IH as [H1 H2 H3 H4 H5]. split; try done. cbn. by rewrite Ha.
Qed.

Lemma command_ended_counts c b : heard c -> command_ended c b -> 0 < cs_command_cells c.
Proof.
  intros Hh (r & Hr & Hc & <- & Ht). rewrite (hd_count _ Hh), (hd_ends _ Hh), length_fmap.
  assert (Hin : r ∈ retain counted (cs_cells c)).
  { apply elem_of_retain. split; [done|]. unfold counted, is_command. rewrite Hc. by apply N.ltb_lt. }
  destruct (retain counted (cs_cells c)); [by apply not_elem_of_nil in Hin|cbn; lia].
Qed.

(** C3: A commit is the last thing a policy decides, and it stands for audio and words
    of this run.  [run_visits] are the items the run handles with the policy at each.
    By a route, the end it commits was found at one of its blocks as the end of
    command speech after the trigger ([found_at]), with the text and class judged at
    that block; until the block that commits, the last item handled, only command
    starts and questions were decided; at that block less than the revoking number of
    command-speech cells had come since the end was found, and the lookahead had
    passed since then and since the end of the audio committed.  By the fallback the
    last item handled is a block at which the text was complete, the boundary was the
    last end of command speech up to the result in which the text last changed, and
    nothing had progressed for the no-progress time.  The audio committed starts in
    the utterance and does not reach past the evidence. *)
Theorem commit_contract now p0 events :
  policy_new config spec now = Ok p0 ->
  let '(p, out) := policy_run config spec p0 events in
  forall c, De_Commit c ∈ out -> commits c out (run_visits p0 [] events).
Proof.
  intros Hnew. pose proof (run_reaches now p0 events Hnew) as R. destruct (policy_run config spec p0 events) as [p out].
  apply (reaches_settled p out _ R).
Qed.

(** A text is put to HA's matcher at most once, and only when it is not empty, the
    grammar does not know it, the matcher is there and the turn is not HA's own reply.
    The start of the command is announced at most once, and exactly once before a
    commit. *)
Theorem questions_once now p0 events :
  policy_new config spec now = Ok p0 ->
  let '(p, out) := policy_run config spec p0 events in
  NoDup (asked_texts out) /\
  (forall t, t ∈ asked_texts out -> t <> [] /\ grammar_classify t = Tc_Unknown /\
     tc_recognizer_available config = true /\ is_ha_reply spec = false) /\
  (length (starts out) <= 1)%nat /\
  (forall c, De_Commit c ∈ out -> exists s, starts out = [s]).
Proof.
  intros Hnew. pose proof (run_reaches now p0 events Hnew) as R. destruct (policy_run config spec p0 events) as [p out].
  pose proof (reaches_asked p out _ R) as [_ Hn Hu Ha Hs]. split_and!; [done| |lia|].
  - intros t Ht. rewrite Forall_forall in Hu. destruct (Hu t Ht). assert (Hne : asked_texts out <> []) by (intros E; rewrite E in Ht; by apply not_elem_of_nil in Ht).
    by destruct (Ha Hne).
  - intros c Hc. apply (se_commit _ _ _ (reaches_settled p out _ R)) in Hc.
    assert (Hq : exists q pre seen rest, reaches q pre seen /\ out = pre ++ rest /\ command_ended (tp_cells q) (cm_boundary c)).
    { destruct Hc as [pre mid seen between q0 ? ? q ? ? ? Hfo Hm decided handled|pre seen q ? ? ? ? Rq ? ? ? ? ? He].
      - exists q0, pre, seen. eexists. split_and!; [exact (fo_reached _ _ _ _ _ _ _ _ _ Hfo)| |exact (fo_ended _ _ _ _ _ _ _ _ _ Hfo)].
        unfold decided. by rewrite <- app_assoc.
      - by exists q, pre, seen, [De_Commit c]. }
    destruct Hq as (q & pre & seen & rest & Rq & -> & He). pose proof (ao_start _ _ (reaches_asked q pre seen Rq)) as Hsq.
    pose proof (command_ended_counts _ _ (reaches_heard q pre seen Rq) He). unfold starts in *. rewrite omap_app, length_app in *.
    destruct (omap _ pre) as [|s [|? ?]]; cbn [length app] in *; [lia| |lia].
    destruct (omap _ rest); cbn [length] in *; [by eexists|lia].
Qed.
End steps.

(** The sample utterance's commit. *)
Lemma commit_contract_witness :
  exists p out c, Sample.run Sample.said 19 = Some (p, out) /\ De_Commit c ∈ out /\
    exists p0, Sample.start = Some p0 /\
    @commits ascii Sample.grammar Sample.config Sample.spec c out
      (@run_visits ascii Sample.grammar Sample.config Sample.spec p0 [] (Sample.events Sample.said 19)).
Proof.
  pose proof lights_committed as Hl. unfold Sample.run in *. destruct Sample.start as [p0|] eqn:Es; [|done].
  assert (Hnew : policy_new Sample.config Sample.spec 0 = Ok p0).
  { revert Es. unfold Sample.start. destruct (policy_new _ _ _); [by intros [= ->]|done]. }
  pose proof (@commit_contract ascii Sample.grammar Sample.config Sample.spec 0 p0 (Sample.events Sample.said 19) Hnew) as Hc.
  cbn [fmap option_fmap option_map] in *. destruct (policy_run _ _ _ _) as [p out]. cbn [snd] in Hl. injection Hl as Hout.
  eexists p, out, _. split; [done|]. split; [rewrite Hout; do 5 right; by left|]. exists p0. split; [done|]. apply Hc. rewrite Hout. do 5 right. by left.
Defined.

Lemma questions_once_witness :
  exists p0, policy_new Sample.config Sample.spec 0 = Ok p0 /\
  let '(p, out) := policy_run (H := ascii) (H0 := Sample.grammar) Sample.config Sample.spec p0 (Sample.events Sample.said 19) in
  NoDup (asked_texts out) /\ (length (starts out) <= 1)%nat.
Proof.
  eexists. split; [reflexivity|].
  pose proof (@questions_once ascii Sample.grammar Sample.config Sample.spec 0 _ (Sample.events Sample.said 19) eq_refl) as Hc.
  destruct (policy_run _ _ _ _) as [p out]. by destruct Hc as (H1 & _ & H3 & _).
Defined.
