(* ===== verification/EndpointOrder.v ===== *)
(** * The endpoint reducer as a function of its evidence

    The reducer is driven as evidence trickles in: pushes, releases of whatever is
    ready, one item at a time, with the clock.  Here that run is shown to decide
    what the reducer decides on the released evidence read once in sample order -
    so neither the workers' order nor the batching nor the clock shows in it. *)
From S2P Require Import Prelude Float Ema Clock Evidence Level Classify Transcript Asr Endpoint EndpointProps EndpointSteps.

(** ** The clock and the assembler do not show *)
Section order.
Context {U : Unicode} {G : Completeness} (config : TurnConfig) (spec : TurnSpec).

(** Nobody has answered: no recognizer, no pause server. *)
Record unanswered (t : TextSide) : Prop := {
  un_arrived : ts_arrived t = [];
  un_server_asked : ts_server_asked t = [];
  un_server_arrived : ts_server_arrived t = [];
}.
(** The policy with another assembler, another clock, and its questions asked at other
    times. *)
Definition blur (a : Assembler) (at_ : MonoInstant) (asked : list Asked) (p : TurnPolicy) : TurnPolicy :=
  set_tp_evidence a (set_tp_last_progress at_ (set_tp_words (set_ts_asked asked (tp_words p)) p)).
Definition alike (p p' : TurnPolicy) : Prop :=
  exists a at_ asked, p' = blur a at_ asked p /\ ak_text <$> asked = ak_text <$> ts_asked (tp_words p).

Lemma alike_intro a at_ p : alike p (set_tp_evidence a (set_tp_last_progress at_ p)).
Proof. exists a, at_, (ts_asked (tp_words p)). split; [|done]. by destruct p as [? ? []]. Qed.
Lemma alike_finished p p' : alike p p' -> tp_finished p' = tp_finished p.
Proof. by intros (a & at_ & asked & -> & _). Qed.
Lemma alike_trans p1 p2 p3 : alike p1 p2 -> alike p2 p3 -> alike p1 p3.
Proof.
  intros (a & at_ & asked & -> & Ha) (a' & at' & asked' & -> & Ha'). exists a', at', asked'. split; [done|].
  cbn in Ha'. by rewrite Ha', Ha.
Qed.

(** *** A cell *)
Definition blurred (a : Assembler) (at_ : MonoInstant) (asked : list Asked) (r : TurnPolicy * list Decision) :
    TurnPolicy * list Decision := (blur a at_ asked r.1, r.2).
Lemma close_blurred reason cause a at_ asked p :
  close reason cause (blur a at_ asked p) = blurred a at_ asked (close reason cause p).
Proof. unfold close, blurred. cbn [tp_finished blur set_tp_evidence set_tp_last_progress set_tp_words]. by destruct (tp_finished p). Qed.
Lemma on_cell_blurred cell a at_ asked p :
  on_cell config spec cell (blur a at_ asked p) = blurred a at_ asked (on_cell config spec cell p).
Proof.
  unfold on_cell. cbv zeta. change (tp_cells (blur a at_ asked p)) with (tp_cells p).
  destruct (_ <? _); [done|]. destruct (cs_reply_gap_end _) as [g|].
  { destruct (ce_audio cell); [done|]. unfold reopen. by destruct (reply_spec spec). }
  destruct (record_cell _ _ _ _ _) as [c' j]. destruct (ce_audio cell) as [muted|e sm vad echo].
  - destruct (_ && _); [done|]. destruct muted; exact (close_blurred _ _ a at_ asked (set_tp_cells c' p)).
  - destruct (negb _); [done|]. destruct (bool_decide _); [|done]. by destruct (command_cell _ _ _).
Qed.

(** *** A block *)
Lemma evaluate_blurred frontier through a at_ asked p :
  evaluate config spec frontier through (blur a at_ asked p) = blurred a at_ asked (evaluate config spec frontier through p).
Proof.
  unfold evaluate. cbv zeta. change (tp_cells (blur a at_ asked p)) with (tp_cells p).
  change (tp_pending (blur a at_ asked p)) with (tp_pending p). destruct (_ && _); [apply close_blurred|].
  match goal with |- context [if ?b then close Cz_TooLong _ (blur _ _ _ _) else _] => destruct b end; [apply close_blurred|].
  destruct (tp_pending p) as [pn|].
  { unfold pending_step. cbv zeta. change (tp_cells (set_tp_pending None (blur a at_ asked p))) with (tp_cells p).
    change (tp_cells (set_tp_pending None p)) with (tp_cells p). destruct (_ <=? _); [done|].
    change (span_end config (pn_boundary pn) (pn_since pn) (tp_words (set_tp_pending None (blur a at_ asked p))))
      with (span_end config (pn_boundary pn) (pn_since pn) (tp_words (set_tp_pending None p))).
    by destruct (_ <=? _). }
  destruct (command_start_any _ _) as [cs|]; [|done].
  change (find_route config spec frontier through (default 0 (last (cs_command_ends (tp_cells p)))) (blur a at_ asked p))
    with (find_route config spec frontier through (default 0 (last (cs_command_ends (tp_cells p)))) p).
  destruct (find_route _ _ _ _ _ _) as [[[? ?] ?]|]; [done|]. unfold fallback. cbv zeta.
  change (tr_progress_sample (ts_text (tp_words (blur a at_ asked p)))) with (tr_progress_sample (ts_text (tp_words p))).
  destruct (_ <=? _); [|done]. change (tp_cells (blur a at_ asked p)) with (tp_cells p).
  change (ts_class (tp_words (blur a at_ asked p))) with (ts_class (tp_words p)).
  change (tr_prefix_sample (ts_text (tp_words (blur a at_ asked p)))) with (tr_prefix_sample (ts_text (tp_words p))).
  match goal with |- match ?o with Some _ => _ | None => _ end = _ => destruct o end; [done|apply close_blurred].
Qed.

Lemma any_asked prefix asked asked' :
  ak_text <$> asked' = ak_text <$> asked ->
  any (fun a => text_eqb (ak_text a) prefix) asked' = any (fun a => text_eqb (ak_text a) prefix) asked.
Proof.
  assert (E : forall l, any (fun a => text_eqb (ak_text a) prefix) l = any (fun x => text_eqb x prefix) (ak_text <$> l)).
  { clear. induction l as [|x l IH]; [done|]. unfold any in *. cbn. by rewrite IH. }
  intros H. by rewrite !E, H.
Qed.

(** With no answers a block only takes the recognizer's words. *)
Definition plain_block (obs : AsrObservation) (t : TextSide) : TextSide * bool :=
  let through := asr_through obs in
  let finalized := match asr_kind obs with Ak_Finalized => true | Ak_Live => false end in
  let t := if finalized then set_ts_finalized_at (ts_finalized_at t ++ [through]) t else t in
  let t := refresh_class t in
  let '(tracker, _) := tracker_take obs (ts_text t) in
  let t := set_ts_text tracker t in
  let t :=
    if finalized then
      let kroko := mkPauseWords (Some (trim (mjoin (tk_text <$> asr_tokens obs)))) None None None None in
      let server := if tc_pause_server config then Some pause_words_default else None in
      set_ts_pauses (ts_pauses t ++ [mkPauseRecord through kroko server]) t
    else t in
  let '(tracker, changed) := tracker_settle through (ts_text t) in
  let t := set_ts_text tracker t in
  let t := if finalized then judge_kroko through t else t in
  let '(t, ask) := if changed then text_changed config spec through t else (t, false) in
  (set_ts_heard (tracker_heard (ts_text t)) (set_ts_streaming_text (tr_streaming_text (ts_text t)) t), ask).

Lemma supersede_nothing now t : ts_server_asked t = [] -> supersede_server now t = t.
Proof.
  intros H. unfold supersede_server.
  assert (E : supersede_one now t <$> ts_pauses t = ts_pauses t).
  { rewrite <- (list_fmap_id (ts_pauses t)) at 2. apply list_fmap_ext. intros i r _. unfold supersede_one, server_ms. rewrite H.
    by destruct (pr_server r). }
  rewrite E. by destruct t.
Qed.
Lemma apply_nothing block t : ts_arrived t = [] -> apply_answers config block t = refresh_class t.
Proof. intros H. unfold apply_answers. rewrite H. cbn [foldl]. destruct t. cbn in H. by subst. Qed.
Lemma take_no_server_answers through t : ts_server_arrived t = [] -> take_server_answers through t = (t, false).
Proof. intros H. unfold take_server_answers. rewrite H. cbn. destruct t. cbn in H. by subst. Qed.

Lemma unanswered_keep t t' :
  ts_arrived t' = ts_arrived t -> ts_server_asked t' = ts_server_asked t -> ts_server_arrived t' = ts_server_arrived t ->
  unanswered t -> unanswered t'.
Proof. intros E1 E2 E3 [H1 H2 H3]. split; congruence. Qed.

Lemma take_block_plain obs now t : unanswered t -> take_block config spec obs now t = plain_block obs t.
Proof.
  intros [H1 H2 H3]. unfold take_block, plain_block. cbv zeta.
  destruct (asr_kind obs); rewrite ?supersede_nothing by done; rewrite apply_nothing by done;
    destruct (tracker_take _ _) as [tracker ended].
  - assert (E : (if ended then supersede_server now (set_ts_text tracker (refresh_class t)) else set_ts_text tracker (refresh_class t))
      = set_ts_text tracker (refresh_class t)) by (destruct ended; [by rewrite supersede_nothing|done]).
    rewrite E, take_no_server_answers by done. destruct (tracker_settle _ _) as [tracker' changed]. cbn [andb].
    by destruct (if changed then _ else _).
  - match goal with |- context [if ended then supersede_server now ?x else ?x] =>
      assert (E : (if ended then supersede_server now x else x) = x) by (destruct ended; [by rewrite supersede_nothing|done]) end.
    rewrite E, take_no_server_answers by done. destruct (tracker_settle _ _) as [tracker' changed]. cbn [andb negb].
    by destruct (if changed then _ else _).
Qed.

Lemma text_changed_asking through asked t :
  ak_text <$> asked = ak_text <$> ts_asked t ->
  text_changed config spec through (set_ts_asked asked t) =
  (set_ts_asked asked (text_changed config spec through t).1, (text_changed config spec through t).2).
Proof.
  intros H. unfold text_changed. cbv zeta. change (ts_text (set_ts_asked asked t)) with (ts_text t).
  change (ts_asked (set_ts_asked asked t)) with asked. by rewrite (any_asked _ _ _ H).
Qed.
Lemma plain_block_asking obs asked t :
  ak_text <$> asked = ak_text <$> ts_asked t ->
  plain_block obs (set_ts_asked asked t) = (set_ts_asked asked (plain_block obs t).1, (plain_block obs t).2).
Proof.
  intros H. unfold plain_block. cbv zeta.
  set (t1 := if match asr_kind obs with Ak_Finalized => true | Ak_Live => false end then set_ts_finalized_at _ t else t).
  assert (E1 : (if match asr_kind obs with Ak_Finalized => true | Ak_Live => false end
      then set_ts_finalized_at (ts_finalized_at (set_ts_asked asked t) ++ [asr_through obs]) (set_ts_asked asked t)
      else set_ts_asked asked t) = set_ts_asked asked t1 /\ ts_asked t1 = ts_asked t) by (subst t1; by destruct (asr_kind obs)).
  destruct E1 as [-> E1]. change (refresh_class (set_ts_asked asked t1)) with (set_ts_asked asked (refresh_class t1)).
  change (ts_text (set_ts_asked asked (refresh_class t1))) with (ts_text (refresh_class t1)).
  destruct (tracker_take _ _) as [tracker ended]. set (t2 := set_ts_text tracker (refresh_class t1)).
  change (set_ts_text tracker (set_ts_asked asked (refresh_class t1))) with (set_ts_asked asked t2).
  assert (E2 : ts_asked t2 = ts_asked t) by exact E1. clearbody t2. clear t1 E1.
  destruct (asr_kind obs).
  - change (ts_text (set_ts_asked asked t2)) with (ts_text t2). destruct (tracker_settle _ _) as [tracker' [|]]; [|done].
    rewrite <- E2 in H. pose proof (text_changed_asking (asr_through obs) asked (set_ts_text tracker' t2) H) as Hc.
    change (set_ts_text tracker' (set_ts_asked asked t2)) with (set_ts_asked asked (set_ts_text tracker' t2)).
    rewrite Hc. by destruct (text_changed _ _ _ _).
  - set (t3 := set_ts_pauses _ t2). match goal with |- context [set_ts_pauses ?l (set_ts_asked asked t2)] =>
      change (set_ts_pauses l (set_ts_asked asked t2)) with (set_ts_asked asked t3) end.
    assert (E3 : ts_asked t3 = ts_asked t) by exact E2. clearbody t3.
    change (ts_text (set_ts_asked asked t3)) with (ts_text t3). destruct (tracker_settle _ _) as [tracker' changed].
    set (t4 := set_ts_text tracker' t3). change (set_ts_text tracker' (set_ts_asked asked t3)) with (set_ts_asked asked t4).
    assert (E4 : judge_kroko (asr_through obs) (set_ts_asked asked t4) = set_ts_asked asked (judge_kroko (asr_through obs) t4)).
    { unfold judge_kroko. change (ts_pauses (set_ts_asked asked t4)) with (ts_pauses t4). by destruct (ts_pauses t4). }
    rewrite E4. destruct changed; [|done].
    rewrite (text_changed_asking (asr_through obs) asked); [by destruct (text_changed _ _ _ _)|].
    by rewrite judge_kroko_asked, H, <- E3.
Qed.

Lemma judge_kroko_unanswered through t : unanswered t -> unanswered (judge_kroko through t).
Proof. unfold judge_kroko. destruct (ts_pauses t); [done|]. by apply (unanswered_keep t). Qed.
Lemma plain_block_unanswered obs t : unanswered t -> unanswered (plain_block obs t).1.
Proof.
  intros H. unfold plain_block. cbv zeta.
  set (t1 := if match asr_kind obs with Ak_Finalized => true | Ak_Live => false end then set_ts_finalized_at _ t else t).
  assert (H1 : unanswered (refresh_class t1)) by (subst t1; destruct (asr_kind obs); by apply (unanswered_keep t)).
  destruct (tracker_take _ _) as [tracker ended]. set (t2 := set_ts_text tracker (refresh_class t1)).
  assert (H2 : unanswered t2) by by apply (unanswered_keep (refresh_class t1)). clearbody t2.
  set (t3 := if match asr_kind obs with Ak_Finalized => true | Ak_Live => false end then set_ts_pauses _ t2 else t2).
  assert (H3 : unanswered t3) by (subst t3; destruct (asr_kind obs); [done|by apply (unanswered_keep t2)]). clearbody t3.
  destruct (tracker_settle _ _) as [tracker' changed]. set (t4 := set_ts_text tracker' t3).
  assert (H4 : unanswered t4) by by apply (unanswered_keep t3). clearbody t4.
  set (t5 := if match asr_kind obs with Ak_Finalized => true | Ak_Live => false end then judge_kroko _ t4 else t4).
  assert (H5 : unanswered t5) by (subst t5; destruct (asr_kind obs); [done|by apply judge_kroko_unanswered]). clearbody t5.
  destruct changed; by apply (unanswered_keep t5).
Qed.

(** A released item does to alike policies alike things, whatever the time. *)
Definition agree (r r' : TurnPolicy * list Decision) : Prop := alike r.1 r'.1 /\ r'.2 = r.2 /\ unanswered (tp_words r.1).
Lemma on_block_alike obs now now' p p' :
  alike p p' -> unanswered (tp_words p) -> agree (on_block config spec obs now p) (on_block config spec obs now' p').
Proof.
  intros (a & at_ & asked & -> & Ha) Hu. unfold on_block.
  change (tp_words (blur a at_ asked p)) with (set_ts_asked asked (tp_words p)).
  assert (Hu' : unanswered (set_ts_asked asked (tp_words p))) by by apply (unanswered_keep (tp_words p)).
  rewrite !take_block_plain by done. rewrite (plain_block_asking obs asked (tp_words p) Ha).
  pose proof (plain_block_unanswered obs (tp_words p) Hu) as Hut.
  assert (Hat : ts_asked (plain_block obs (tp_words p)).1 = ts_asked (tp_words p)).
  { rewrite <- (take_block_plain obs now (tp_words p) Hu). pose proof (take_block_asked config spec obs now (tp_words p)) as H1.
    destruct (take_block _ _ _ _ _). by destruct H1. }
  destruct (plain_block obs (tp_words p)) as [t ask]. cbn [fst snd] in *. rewrite <- Hat in Ha. clear Hat Hu Hu'.
  set (q := set_tp_words t p). change (set_tp_words (set_ts_asked asked t) (blur a at_ asked p)) with (blur a at_ asked q).
  change (cs_reply_gap_end (tp_cells (blur a at_ asked q))) with (cs_reply_gap_end (tp_cells q)).
  change (cs_frontier (tp_cells (blur a at_ asked q))) with (cs_frontier (tp_cells q)).
  assert (H1 : (match cs_reply_gap_end (tp_cells q), cs_frontier (tp_cells q) with
      | None, Some f => evaluate config spec f (asr_through obs) (blur a at_ asked q) | _, _ => (blur a at_ asked q, []) end) =
    blurred a at_ asked (match cs_reply_gap_end (tp_cells q), cs_frontier (tp_cells q) with
      | None, Some f => evaluate config spec f (asr_through obs) q | _, _ => (q, []) end)).
  { destruct (cs_reply_gap_end _); [done|]. destruct (cs_frontier _); [apply evaluate_blurred|done]. }
  rewrite H1. clear H1.
  assert (Hw : tp_words (match cs_reply_gap_end (tp_cells q), cs_frontier (tp_cells q) with
      | None, Some f => evaluate config spec f (asr_through obs) q | _, _ => (q, []) end).1 = t).
  { destruct (cs_reply_gap_end _); [done|]. destruct (cs_frontier _); [|done]. by rewrite evaluate_words. }
  destruct (match cs_reply_gap_end (tp_cells q), cs_frontier (tp_cells q) with
      | None, Some f => evaluate config spec f (asr_through obs) q | _, _ => (q, []) end) as [q1 out].
  cbn [fst] in Hw. unfold blurred. cbn [fst snd]. change (tp_finished (blur a at_ asked q1)) with (tp_finished q1).
  destruct (ask && negb (tp_finished q1)).
  - unfold ask_recognizer. change (tp_words (blur a at_ asked q1)) with (set_ts_asked asked (tp_words q1)). rewrite Hw.
    split_and!; [|done|by apply (unanswered_keep t)].
    exists a, at_, (asked ++ [mkAsked (tr_prefix (ts_text t)) now' (length (ts_recognizer t))]). split; [done|].
    cbn. by rewrite !fmap_app, Ha.
  - split_and!; [|done|by cbn; rewrite Hw]. exists a, at_, asked. split; [done|]. cbn. by rewrite Hw.
Qed.
Lemma on_released_alike now now' item p p' :
  alike p p' -> unanswered (tp_words p) -> agree (on_released config spec now p item) (on_released config spec now' p' item).
Proof.
  intros Hp Hu. destruct item as [cell|obs]; cbn [on_released].
  - destruct Hp as (a & at_ & asked & -> & Ha). rewrite on_cell_blurred.
    destruct (on_cell config spec cell p) as [q o] eqn:E. destruct (on_cell_asked config spec cell p q o E) as (Hw & _).
    unfold agree, blurred. cbn [fst snd]. rewrite Hw. split_and!; [|done|done]. exists a, at_, asked. split; [done|]. by rewrite Hw.
  - apply on_block_alike; [|done]. destruct Hp as (a & at_ & asked & -> & Ha). by exists a, now', asked.
Qed.
Lemma on_items_alike now now' items p p' :
  alike p p' -> unanswered (tp_words p) -> agree (on_items config spec now items p) (on_items config spec now' items p').
Proof.
  revert p p'. induction items as [|item items IH]; intros p p' Hp Hu; cbn [on_items]; [by split_and!|].
  rewrite (alike_finished _ _ Hp). destruct (tp_finished p); [by split_and!|].
  destruct (on_released_alike now now' item p p' Hp Hu) as (H1 & H2 & H3).
  destruct (on_released config spec now p item) as [q o], (on_released config spec now' p' item) as [q' o']. cbn [fst snd] in *.
  destruct (IH q q' H1 H3) as (H4 & H5 & H6).
  destruct (on_items config spec now items q), (on_items config spec now' items q'). cbn [fst snd] in *. subst. by split_and!.
Qed.

(** ** Reading the evidence once *)
Lemma on_items_app now l1 l2 p :
  on_items config spec now (l1 ++ l2) p =
  let '(p1, o1) := on_items config spec now l1 p in
  let '(p2, o2) := on_items config spec now l2 p1 in (p2, o1 ++ o2).
Proof.
  revert p. induction l1 as [|item l1 IH]; intros p; cbn [app on_items].
  { by destruct (on_items config spec now l2 p). }
  destruct (tp_finished p) eqn:Ef.
  { destruct l2; cbn [on_items]; by rewrite ?Ef. }
  destruct (on_released _ _ _ _ _) as [p1 o1]. rewrite IH. destruct (on_items config spec now l1 p1) as [p2 o2].
  destruct (on_items config spec now l2 p2) as [p3 o3]. by rewrite app_assoc.
Qed.
Lemma on_items_finished now items p : tp_finished p = true -> on_items config spec now items p = (p, []).
Proof. intros Hf. destruct items; cbn [on_items]; by rewrite ?Hf. Qed.

Lemma release_rounds_out rounds a out :
  release_rounds rounds a out = ((release_rounds rounds a []).1, out ++ (release_rounds rounds a []).2).
Proof.
  revert a out. induction rounds as [|rounds IH]; intros a out; cbn [release_rounds]; [by rewrite app_nil_r|].
  destruct (match release_one a with Some r => Some r | None => release_cell a end) as [[a' r]|]; [|by rewrite app_nil_r].
  rewrite (IH a' (out ++ [r])), (IH a' ([] ++ [r])). cbn. by rewrite <- app_assoc.
Qed.
Lemma evidence_steps_out a out ops :
  (foldl evidence_step (a, out) ops).2 = out ++ (foldl evidence_step (a, []) ops).2.
Proof.
  revert a out. induction ops as [|op ops IH]; intros a out; cbn [foldl]; [by rewrite app_nil_r|].
  assert (E : exists a' r, forall o, evidence_step (a, o) op = (a', o ++ r)).
  { destruct op; cbn [evidence_step fst snd].
    6: { exists (evidence_release a []).1, (evidence_release a []).2. intros o. unfold evidence_release. apply release_rounds_out. }
    all: destruct (push_op _ a) as [a'|e]; eexists _, []; intros o; by rewrite app_nil_r. }
  destruct E as (a' & r & E). rewrite !E. rewrite (IH a' (out ++ r)), (IH a' ([] ++ r)). cbn. by rewrite app_assoc.
Qed.

(** The runtime's events when nobody answers: evidence, and time to read it. *)
Definition evidence_only (e : PolicyEvent) : bool :=
  match e with
  | Pv_Evidence Eo_Release => false
  | Pv_Evidence _ | Pv_Advance _ => true
  | _ => false
  end.
Definition evidence_of (e : PolicyEvent) : list EvidenceOp :=
  match e with Pv_Evidence op => [op] | Pv_Advance _ => [Eo_Release] | _ => [] end.
Definition evidence_ops (events : list PolicyEvent) : list EvidenceOp := mjoin (evidence_of <$> events).

Lemma run_finished events p :
  tp_finished p = true -> Forall evidence_only events -> (policy_run config spec p events).2 = [].
Proof.
  revert p. induction events as [|e events IH]; intros p Hf He; cbn [policy_run]; [done|].
  apply Forall_cons in He as [He Hes]. assert (E : exists q, policy_step config spec p e = (q, []) /\ tp_finished q = true).
  { destruct e; try done; cbn [policy_step].
    - eexists. split; [done|]. by destruct (push_evidence_fields op p) as (-> & _).
    - unfold advance. rewrite Hf. by exists p. }
  destruct E as (q & -> & Hq). specialize (IH q Hq Hes). by destruct (policy_run _ _ _ _).
Qed.
Lemma run_reads events p :
  unanswered (tp_words p) -> Forall evidence_only events ->
  (policy_run config spec p events).2 =
  (on_items config spec 0 (foldl evidence_step (tp_evidence p, []) (evidence_ops events)).2 p).2.
Proof.
  revert p. induction events as [|e events IH]; intros p Hu He; cbn [policy_run]; [done|].
  destruct (tp_finished p) eqn:Ef.
  { rewrite on_items_finished by done. by apply (run_finished (e :: events)). }
  pose proof He as [H1 Hes]%Forall_cons. unfold evidence_ops. cbn [fmap list_fmap mjoin list_join]. fold (evidence_ops events).
  destruct e as [op|now| | | | | | | | |]; try done; cbn [policy_step evidence_of app foldl].
  - specialize (IH (push_evidence op p)). assert (Hst : evidence_step (tp_evidence p, []) op = (tp_evidence (push_evidence op p), [])).
    { unfold push_evidence. destruct op; try done; cbn [evidence_step fst snd]; by destruct (push_op _ (tp_evidence p)). }
    rewrite Hst. destruct (push_evidence_fields op p) as (_ & _ & _ & Hw & _). rewrite Hw in IH. specialize (IH Hu Hes).
    destruct (policy_run _ _ _ _) as [p2 rest]. cbn [snd app] in *. rewrite IH.
    assert (Hal : alike p (push_evidence op p)).
    { exists (tp_evidence (push_evidence op p)), (tp_last_progress p), (ts_asked (tp_words p)). split; [|done].
      unfold push_evidence. destruct (push_op op (tp_evidence p)); by destruct p as [? ? []]. }
    apply (on_items_alike 0 0 _ _ _ Hal Hu).
  - unfold advance. rewrite Ef. cbn [evidence_step fst snd]. destruct (evidence_release (tp_evidence p) []) as [a r].
    assert (Hal : alike p (set_tp_evidence a p)).
    { exists a, (tp_last_progress p), (ts_asked (tp_words p)). split; [|done]. by destruct p as [? ? []]. }
    destruct (on_items_alike 0 now r p _ Hal Hu) as (Hal1 & Ho1 & Hu0).
    destruct (on_items_alike now now r _ _ Hal Hu) as (_ & _ & _).
    pose proof (on_items_evidence config spec now r (set_tp_evidence a p)) as Hev.
    rewrite (evidence_steps_out a r), on_items_app.
    destruct (on_items config spec 0 r p) as [q0 o0], (on_items config spec now r (set_tp_evidence a p)) as [q o].
    cbn [fst snd] in *. specialize (IH q). assert (Huq : unanswered (tp_words q)).
    { destruct Hal1 as (a1 & m1 & asked1 & -> & _). by apply (unanswered_keep (tp_words q0)). }
    specialize (IH Huq Hes). rewrite Hev in IH. destruct (policy_run config spec q events) as [p2 rest]. cbn [snd] in *. cbn in IH.
    destruct (on_items_alike 0 0 (foldl evidence_step (a, []) (evidence_ops events)).2 q0 q Hal1 Hu0) as (_ & Ho2 & _).
    destruct (on_items config spec 0 _ q0). cbn [snd] in *. by rewrite Ho1, IH, Ho2.
Qed.

(** C5: The reducer is a function of the released evidence.  Driven by any events that
    bring evidence and let it read - in any order, in any batches, at any times, and
    as long as no recognizer or pause server answers - it decides exactly what it
    decides when the evidence is released by the assembler alone and read once, item
    by item, in sample order, with the clock standing still. *)
Theorem decisions_read_the_evidence now p0 events :
  policy_new config spec now = Ok p0 -> Forall evidence_only events ->
  (policy_run config spec p0 events).2 =
  (on_items config spec 0 (evidence_run (tp_evidence p0) (evidence_ops events)).2 p0).2.
Proof.
  intros Hnew He. apply run_reads; [|done]. revert Hnew. unfold policy_new. destruct (assembler_new _); [|done]. by intros [= <-].
Qed.

(** C4: So the order in which the workers finish does not show in what the user gets.
    Take two runs of one utterance in which the same true evidence, without missing
    audio, is pushed in different orders and pieces, with the policy advanced at
    different points and times: once both have read everything, their decisions are
    the same, every end found, revoked or committed among them. *)
Theorem arrival_order_does_not_show truth now now' p0 p0' events events' t t' :
  policy_new config spec now = Ok p0 -> policy_new config spec now' = Ok p0' ->
  Forall evidence_only events -> Forall evidence_only events' ->
  Forall (op_true truth) (evidence_ops events) -> Forall (op_true truth) (evidence_ops events') ->
  accepted_run (tp_evidence p0, []) (evidence_ops events) -> accepted_run (tp_evidence p0', []) (evidence_ops events') ->
  same_evidence (evidence_ops events) (evidence_ops events') ->
  (policy_run config spec p0 (events ++ [Pv_Advance t])).2 = (policy_run config spec p0' (events' ++ [Pv_Advance t'])).2.
Proof.
  intros Hn Hn' He He' Ht Ht' Ha Ha' Hs. unfold policy_new in Hn, Hn'.
  destruct (assembler_new _) as [a|] eqn:Ea; [|done]. cbn in Hn, Hn'. injection Hn as <-. injection Hn' as <-. cbn in Ha, Ha'.
  destruct (same_evidence_known _ _ Hs) as [Hk Hk'].
  rewrite !run_reads by (done || (apply Forall_app; split; [done|by repeat constructor])).
  cbn [tp_evidence]. unfold evidence_ops in *. rewrite !fmap_app, !join_app. cbn [fmap list_fmap mjoin list_join evidence_of app].
  pose proof (same_known_same_release _ truth a _ _ Ea Ht Ht' Ha Ha' Hk Hk') as Hr. unfold evidence_run in Hr. rewrite Hr.
  match goal with |- (on_items _ _ _ ?items ?p).2 = _ =>
    destruct (on_items_alike 0 0 items p _ (alike_intro a now' p) ltac:(done)) as (_ & H1 & _) end.
  symmetry. exact H1.
Qed.
End order.

(** *** A spoken command, two ways *)
Module TwoWays.
Definition spec : TurnSpec := mkTurnSpec 3 0 0 0 0 Tk_Button.
Definition cell (_ : CellIndex) : DeviceInput := Di_Cell (device_cell_audio (-5000) 0).
Definition truth : Truth := mkTruth cell (fun _ => Vi_Probability 1064514355) (fun _ => ECHO_SILENT_REFERENCE).
Definition device (first : CellIndex) (n : nat) := Pv_Evidence (Eo_Device 3 first (replicate n (cell 0))).
Definition vad (first : CellIndex) (n : nat) := Pv_Evidence (Eo_Vad 3 first (replicate n (Vi_Probability 1064514355))).
Definition echo (first : CellIndex) (n : nat) := Pv_Evidence (Eo_Echo 3 first (replicate n ECHO_SILENT_REFERENCE)).
Definition asr (k : N) := Pv_Evidence (Eo_Asr 3 (mkAsr (k * 1280) [mkToken (text_of " stop") 1000] k Ak_Live)).
Definition one : list PolicyEvent := [device 0 5; Pv_Advance 10; vad 0 5; echo 0 5; asr 1; Pv_Advance 20; asr 2].
Definition other : list PolicyEvent :=
  [asr 1; echo 3 2; vad 2 3; device 0 3; Pv_Advance 7; asr 2; vad 0 2; echo 0 3; Pv_Advance 90; device 2 3].
Definition one_ops : list EvidenceOp := Eval cbv in evidence_ops one.
Definition other_ops : list EvidenceOp := Eval cbv in evidence_ops other.
End TwoWays.

Lemma decisions_read_the_evidence_witness :
  exists p0, policy_new Sample.config TwoWays.spec 0 = Ok p0 /\
  (policy_run (H := ascii) (H0 := Sample.grammar) Sample.config TwoWays.spec p0 TwoWays.one).2 =
  (on_items (H := ascii) (H0 := Sample.grammar) Sample.config TwoWays.spec 0
     (evidence_run (tp_evidence p0) (evidence_ops TwoWays.one)).2 p0).2.
Proof.
  eexists. split; [reflexivity|].
  apply (@decisions_read_the_evidence ascii Sample.grammar Sample.config TwoWays.spec 0); [reflexivity|]. by repeat constructor.
Defined.
Lemma arrival_order_does_not_show_witness :
  exists p0, policy_new Sample.config TwoWays.spec 0 = Ok p0 /\
  (policy_run (H := ascii) (H0 := Sample.grammar) Sample.config TwoWays.spec p0 (TwoWays.one ++ [Pv_Advance 30])).2 =
  (policy_run (H := ascii) (H0 := Sample.grammar) Sample.config TwoWays.spec p0 (TwoWays.other ++ [Pv_Advance 95])).2 /\
  (policy_run (H := ascii) (H0 := Sample.grammar) Sample.config TwoWays.spec p0 (TwoWays.one ++ [Pv_Advance 30])).2 =
    [De_CommandStarted 0; De_AskRecognizer (text_of "stop")].
Proof.
  eexists. split; [reflexivity|]. split; [|vm_compute; reflexivity].
  apply (@arrival_order_does_not_show ascii Sample.grammar Sample.config TwoWays.spec TwoWays.truth 0 0); [reflexivity|reflexivity|..].
  - by repeat constructor.
  - by repeat constructor.
  - repeat apply List.Forall_cons; try exact I; try apply List.Forall_nil; try says_concrete; (split; [says_concrete|]; by repeat constructor).
  - repeat apply List.Forall_cons; try exact I; try apply List.Forall_nil; try says_concrete; (split; [says_concrete|]; by repeat constructor).
  - vm_compute. by repeat split.
  - vm_compute. by repeat split.
  - change (same_evidence TwoWays.one_ops TwoWays.other_ops).
    split; [brings_concrete TwoWays.one_ops TwoWays.other_ops..|reflexivity].
Defined.
