(* ===== verification/Wake.v ===== *)
(** * The wake decision ([turn/src/wake.rs])

    A device proposes a wake; the decider refuses it at arrival, accepts it at once
    from a quiet device, or waits for three pieces of evidence until the decision's
    deadline.  The trace is part of the state, as in the code: it is where the
    evidence is kept. *)
From Stdlib Require Import Floats.SpecFloat Sorting.Sorted.
From S2P Require Import Prelude Float Clock Evidence Level Transcript.

(** ** The candidate *)
Inductive WakeProfile := Wp_Idle | Wp_Playback.
Record WakeHop := mkWakeHop { wh_end : Sample; wh_raw : option F64; wh_smoothed : option F64 }.
Record WakeCandidate := mkWakeCandidate {
  wc_candidate_id : Text;
  wc_profile : WakeProfile;
  wc_threshold : F64;
  wc_producing_sound : bool;
  wc_first_crossing_end : Sample;
  wc_support_start : Sample;
  wc_hops : list WakeHop;
}.

Record WakePolicy := mkWakePolicy {
  wp_decision_budget_ms : N;
  wp_verify_core : Text;
  wp_verify_pass_max : F64;
  wp_verification_lead : Samples;
  wp_verification_lookahead : Samples;
}.
Definition wake_default : WakePolicy :=
  mkWakePolicy 700 (text_of "ophel") VERIFY_PASS_MAX (from_ms 300) (from_ms 480).

Definition candidate_open (c : WakeCandidate) : option Sample := wh_end <$> last (wc_hops c).
Definition reaches_threshold (c : WakeCandidate) (h : WakeHop) : bool :=
  match wh_raw h with Some r => f64_leb (wc_threshold c) r | None => false end.
Definition candidate_trigger (c : WakeCandidate) : option Sample :=
  wh_end <$> find_first (reaches_threshold c) (rev (wc_hops c)).
Definition verification_window (policy : WakePolicy) (c : WakeCandidate) : option SampleSpan :=
  (fun o => sample_span_new (sample_sub (wc_support_start c) (wp_verification_lead policy))
              (sample_add o (wp_verification_lookahead policy))) <$> candidate_open c.

(** [windows(2).all(|w| w[0].end < w[1].end)]. *)
Fixpoint hops_ordered (hops : list WakeHop) : bool :=
  match hops with
  | a :: (b :: _) as rest => (wh_end a <? wh_end b) && hops_ordered rest
  | _ => true
  end.
Inductive Malformed :=
  | Ml_NoHops | Ml_EmptyId | Ml_Threshold | Ml_HopsOutOfOrder | Ml_SupportOutOfOrder | Ml_NoHopReaches.
Definition malformed (c : WakeCandidate) : option Malformed :=
  match candidate_open c with
  | None => Some Ml_NoHops
  | Some open =>
      let ordered := hops_ordered (wc_hops c) in
      if match wc_candidate_id c with [] => true | _ => false end then Some Ml_EmptyId
      else if negb (f64_ltb (f64_of_Z 0) (wc_threshold c) && f64_leb (wc_threshold c) (f64_of_Z 1)) then Some Ml_Threshold
      else if negb ordered then Some Ml_HopsOutOfOrder
      else if (wc_first_crossing_end c <? wc_support_start c) || (open <? wc_first_crossing_end c) then
        Some Ml_SupportOutOfOrder
      else if negb (is_some (candidate_trigger c)) then Some Ml_NoHopReaches
      else None
  end.

Record ArrivalConditions := mkArrivalConditions {
  ac_diagnostic_recording : bool;
  ac_speech_unavailable : bool;
  ac_muted : bool;
  ac_candidate_pending : bool;
}.

(** ** Outcomes *)
Inductive WakeRefusal :=
  | Wr_Malformed | Wr_DiagnosticRecording | Wr_SpeechUnavailable | Wr_Muted | Wr_CandidatePending
  | Wr_SelfOutput | Wr_EchoOnly | Wr_UnverifiedWake | Wr_VerifierTimeout.
Inductive WakeOutcome := Wo_Accepted | Wo_Refused (r : WakeRefusal).
Inductive WakeRule :=
  | Wu_Arrival | Wu_Idle | Wu_ReferenceWake | Wu_Echo | Wu_Verified | Wu_VerifierFailed | Wu_VerifierError | Wu_Deadline.
Inductive ReferenceScore := Rf_NoOverlap | Rf_Overlap | Rf_Unavailable.
Inductive CandidateEcho := Ce_EchoOnly | Ce_NearEndPresent | Ce_Unknown.
#[export] Instance ReferenceScore_eq_dec : EqDecision ReferenceScore.
Proof. solve_decision. Defined.
#[export] Instance CandidateEcho_eq_dec : EqDecision CandidateEcho.
Proof. solve_decision. Defined.
Inductive VerifierResult := Vr_Text (text : Text) | Vr_Error.
Record VerificationRecord := mkVerification {
  vf_text : option Text;
  vf_distance : option F64;
  vf_passes : bool;
  vf_at_ms : N;
  vf_late : bool;
}.
Record WakeDecision := mkWakeDecision { wd_outcome : WakeOutcome; wd_rule : WakeRule }.

(** The trace: [outcome] and [rule] are the decision's. *)
Record WakeTrace := mkWakeTrace {
  wt_candidate : WakeCandidate;
  wt_verification_window : option SampleSpan;
  wt_deadline_ms : N;
  wt_malformed : option Malformed;
  wt_reference : option (ReferenceScore * N);
  wt_echo : option (CandidateEcho * N);
  wt_verification : option VerificationRecord;
  wt_decided : option (WakeDecision * N);
}.
Record WakeDecider := mkDecider {
  wk_policy : WakePolicy;
  wk_received_at : MonoInstant;
  wk_deadline : MonoInstant;
  wk_verdict : option (result unit bool);
  wk_decision : option WakeDecision;
  wk_trace : WakeTrace;
}.

(** ** The decider *)
Section decider.
Context `{Unicode}.

Definition set_wk_trace (t : WakeTrace) (d : WakeDecider) : WakeDecider :=
  mkDecider (wk_policy d) (wk_received_at d) (wk_deadline d) (wk_verdict d) (wk_decision d) t.
Definition set_wk_verdict (v : option (result unit bool)) (d : WakeDecider) : WakeDecider :=
  mkDecider (wk_policy d) (wk_received_at d) (wk_deadline d) v (wk_decision d) (wk_trace d).
Definition with_reference (r : option (ReferenceScore * N)) (t : WakeTrace) : WakeTrace :=
  mkWakeTrace (wt_candidate t) (wt_verification_window t) (wt_deadline_ms t) (wt_malformed t) r (wt_echo t)
    (wt_verification t) (wt_decided t).
Definition with_echo (e : option (CandidateEcho * N)) (t : WakeTrace) : WakeTrace :=
  mkWakeTrace (wt_candidate t) (wt_verification_window t) (wt_deadline_ms t) (wt_malformed t) (wt_reference t) e
    (wt_verification t) (wt_decided t).
Definition with_verification (v : option VerificationRecord) (t : WakeTrace) : WakeTrace :=
  mkWakeTrace (wt_candidate t) (wt_verification_window t) (wt_deadline_ms t) (wt_malformed t) (wt_reference t)
    (wt_echo t) v (wt_decided t).
Definition with_decided (x : option (WakeDecision * N)) (t : WakeTrace) : WakeTrace :=
  mkWakeTrace (wt_candidate t) (wt_verification_window t) (wt_deadline_ms t) (wt_malformed t) (wt_reference t)
    (wt_echo t) (wt_verification t) x.

(** [next_deadline]. *)
Definition wake_next_deadline (d : WakeDecider) : option MonoInstant :=
  if is_some (wk_decision d) then None else Some (wk_deadline d).
(** [ms]. *)
Definition wake_ms (now : MonoInstant) (d : WakeDecider) : N := as_millis (mono_since now (wk_received_at d)).

Definition decide_wake (outcome : WakeOutcome) (rule : WakeRule) (now : MonoInstant) (d : WakeDecider) :
    WakeDecider * option WakeDecision :=
  let x := mkWakeDecision outcome rule in
  (mkDecider (wk_policy d) (wk_received_at d) (wk_deadline d) (wk_verdict d) (Some x)
     (with_decided (Some (x, wake_ms now d)) (wk_trace d)), Some x).

(** The three steps, in order. *)
Definition wake_evaluate (now : MonoInstant) (deadline : bool) (d : WakeDecider) : WakeDecider * option WakeDecision :=
  if is_some (wk_decision d) then (d, None)
  else
    let reference := fst <$> wt_reference (wk_trace d) in
    let echo := fst <$> wt_echo (wk_trace d) in
    let step3 :=
      match wk_verdict d with
      | Some (Ok true) => decide_wake Wo_Accepted Wu_Verified now d
      | Some (Ok false) => decide_wake (Wo_Refused Wr_UnverifiedWake) Wu_VerifierFailed now d
      | Some (Err _) => decide_wake (Wo_Refused Wr_UnverifiedWake) Wu_VerifierError now d
      | None => if deadline then decide_wake (Wo_Refused Wr_VerifierTimeout) Wu_Deadline now d else (d, None)
      end in
    let step2 :=
      match echo with
      | Some Ce_EchoOnly => decide_wake (Wo_Refused Wr_EchoOnly) Wu_Echo now d
      | None => if deadline then step3 else (d, None)
      | Some _ => step3
      end in
    match reference with
    | None => if deadline then step2 else (d, None)
    | Some Rf_Overlap =>
        match echo with
        | Some Ce_NearEndPresent => step2
        | None => if deadline then decide_wake (Wo_Refused Wr_SelfOutput) Wu_ReferenceWake now d else (d, None)
        | Some _ => decide_wake (Wo_Refused Wr_SelfOutput) Wu_ReferenceWake now d
        end
    | Some _ => step2
    end.

Definition wake_expire (now : MonoInstant) (d : WakeDecider) : WakeDecider * option WakeDecision :=
  if wk_deadline d <=? now then wake_evaluate now true d else (d, None).

Definition or_evaluate (now : MonoInstant) (expired : option WakeDecision) (d : WakeDecider) :
    WakeDecider * option WakeDecision :=
  match expired with Some x => (d, Some x) | None => wake_evaluate now false d end.

Definition reference_scored (score : ReferenceScore) (now : MonoInstant) (d : WakeDecider) :
    WakeDecider * option WakeDecision :=
  let '(d, expired) := wake_expire now d in
  let d :=
    match wt_reference (wk_trace d) with
    | None => set_wk_trace (with_reference (Some (score, wake_ms now d)) (wk_trace d)) d
    | Some _ => d
    end in
  or_evaluate now expired d.

Definition echo_compared (echo : CandidateEcho) (now : MonoInstant) (d : WakeDecider) :
    WakeDecider * option WakeDecision :=
  let '(d, expired) := wake_expire now d in
  let d :=
    match wt_echo (wk_trace d) with
    | None => set_wk_trace (with_echo (Some (echo, wake_ms now d)) (wk_trace d)) d
    | Some _ => d
    end in
  or_evaluate now expired d.

(** What the verifier's result says. *)
Definition verdict_of (policy : WakePolicy) (r : VerifierResult) : option Text * option F64 * result unit bool :=
  match r with
  | Vr_Text t =>
      let distance := verification_distance t (wp_verify_core policy) in
      (Some t, distance, Ok (match distance with Some x => f64_leb x (wp_verify_pass_max policy) | None => false end))
  | Vr_Error => (None, None, Err tt)
  end.
Definition wake_verified (r : VerifierResult) (now : MonoInstant) (d : WakeDecider) : WakeDecider * option WakeDecision :=
  let '(d, expired) := wake_expire now d in
  if is_some (wt_verification (wk_trace d)) then (d, expired)
  else
    let '(text, distance, verdict) := verdict_of (wk_policy d) r in
    let record :=
      mkVerification text distance (match verdict with Ok true => true | _ => false end) (wake_ms now d)
        (is_some (wk_decision d)) in
    let d := set_wk_trace (with_verification (Some record) (wk_trace d)) d in
    if is_some (wk_decision d) then (d, expired)
    else wake_evaluate now false (set_wk_verdict (Some verdict) d).

(** [on_timer]. *)
Definition wake_on_timer (now : MonoInstant) (d : WakeDecider) : WakeDecider * option WakeDecision := wake_expire now d.

Definition arrival_refusal (bad : option Malformed) (conditions : ArrivalConditions) : option WakeRefusal :=
  if is_some bad then Some Wr_Malformed
  else if ac_diagnostic_recording conditions then Some Wr_DiagnosticRecording
  else if ac_speech_unavailable conditions then Some Wr_SpeechUnavailable
  else if ac_muted conditions then Some Wr_Muted
  else if ac_candidate_pending conditions then Some Wr_CandidatePending
  else None.

Definition wake_arrive (candidate : WakeCandidate) (conditions : ArrivalConditions) (policy : WakePolicy)
    (now : MonoInstant) : WakeDecider :=
  let deadline := after now (from_millis (wp_decision_budget_ms policy)) in
  let bad := malformed candidate in
  let window := if wc_producing_sound candidate && negb (is_some bad) then verification_window policy candidate else None in
  let d :=
    mkDecider policy now deadline None None
      (mkWakeTrace candidate window (wp_decision_budget_ms policy) bad None None None None) in
  match arrival_refusal bad conditions with
  | Some r => (decide_wake (Wo_Refused r) Wu_Arrival now d).1
  | None => if negb (wc_producing_sound candidate) then (decide_wake Wo_Accepted Wu_Idle now d).1 else d
  end.

(** ** What happens to a decider *)
Inductive WakeEvent :=
  | We_Reference (score : ReferenceScore)
  | We_Echo (echo : CandidateEcho)
  | We_Verified (r : VerifierResult)
  | We_Timer.
Definition wake_step (d : WakeDecider) (e : WakeEvent) (now : MonoInstant) : WakeDecider * option WakeDecision :=
  match e with
  | We_Reference score => reference_scored score now d
  | We_Echo echo => echo_compared echo now d
  | We_Verified r => wake_verified r now d
  | We_Timer => wake_on_timer now d
  end.
(** The decisions returned on the way. *)
Fixpoint wake_run (d : WakeDecider) (events : list (WakeEvent * MonoInstant)) : WakeDecider * list WakeDecision :=
  match events with
  | [] => (d, [])
  | (e, now) :: events =>
      let '(d, x) := wake_step d e now in
      let '(d, xs) := wake_run d events in
      (d, option_list x ++ xs)
  end.

(** ** What decides a candidate *)
(** The evidence among some events: the first of each kind. *)
Definition first_reference (events : list (WakeEvent * MonoInstant)) : option ReferenceScore :=
  head (omap (fun e => match e.1 with We_Reference s => Some s | _ => None end) events).
Definition first_echo (events : list (WakeEvent * MonoInstant)) : option CandidateEcho :=
  head (omap (fun e => match e.1 with We_Echo x => Some x | _ => None end) events).
Definition first_verdict (policy : WakePolicy) (events : list (WakeEvent * MonoInstant)) : option (result unit bool) :=
  head (omap (fun e => match e.1 with We_Verified r => Some (verdict_of policy r).2 | _ => None end) events).

(** What the device's own output explains is refused; then the verifier decides, and
    silence is a refusal. *)
Definition judgement (reference : option ReferenceScore) (echo : option CandidateEcho)
    (verdict : option (result unit bool)) : WakeDecision :=
  if bool_decide (reference = Some Rf_Overlap) && negb (bool_decide (echo = Some Ce_NearEndPresent)) then
    mkWakeDecision (Wo_Refused Wr_SelfOutput) Wu_ReferenceWake
  else if bool_decide (echo = Some Ce_EchoOnly) then mkWakeDecision (Wo_Refused Wr_EchoOnly) Wu_Echo
  else
    match verdict with
    | Some (Ok true) => mkWakeDecision Wo_Accepted Wu_Verified
    | Some (Ok false) => mkWakeDecision (Wo_Refused Wr_UnverifiedWake) Wu_VerifierFailed
    | Some (Err _) => mkWakeDecision (Wo_Refused Wr_UnverifiedWake) Wu_VerifierError
    | None => mkWakeDecision (Wo_Refused Wr_VerifierTimeout) Wu_Deadline
    end.
(** The evidence that is in decides, whatever else comes. *)
Definition conclusive (reference : option ReferenceScore) (echo : option CandidateEcho)
    (verdict : option (result unit bool)) : bool :=
  is_some reference && is_some echo &&
  (is_some verdict || bool_decide (echo = Some Ce_EchoOnly) ||
   (bool_decide (reference = Some Rf_Overlap) && negb (bool_decide (echo = Some Ce_NearEndPresent)))).
Definition judged_on (policy : WakePolicy) (events : list (WakeEvent * MonoInstant)) : WakeDecision :=
  judgement (first_reference events) (first_echo events) (first_verdict policy events).
Definition conclusive_on (policy : WakePolicy) (events : list (WakeEvent * MonoInstant)) : bool :=
  conclusive (first_reference events) (first_echo events) (first_verdict policy events).
(** The events before the first at or after the deadline. *)
Definition in_time (deadline : MonoInstant) (events : list (WakeEvent * MonoInstant)) : list (WakeEvent * MonoInstant) :=
  take_while (fun e => e.2 <? deadline) events.

(** An undecided decider and the events it has seen, all in time. *)
Record open_wake (policy : WakePolicy) (deadline : MonoInstant) (seen : list (WakeEvent * MonoInstant)) (d : WakeDecider) : Prop := {
  ow_policy : wk_policy d = policy;
  ow_deadline : wk_deadline d = deadline;
  ow_decision : wk_decision d = None;
  ow_reference : fst <$> wt_reference (wk_trace d) = first_reference seen;
  ow_echo : fst <$> wt_echo (wk_trace d) = first_echo seen;
  ow_verdict : wk_verdict d = first_verdict policy seen;
  ow_verification : is_some (wt_verification (wk_trace d)) = is_some (first_verdict policy seen);
}.

Lemma head_snoc {T} (l : list T) x : head (l ++ [x]) = match head l with Some y => Some y | None => Some x end.
Proof. by destruct l. Qed.
Lemma first_reference_snoc events e now :
  first_reference (events ++ [(e, now)]) =
  match first_reference events, e with Some s, _ => Some s | None, We_Reference s => Some s | None, _ => None end.
Proof.
  unfold first_reference. rewrite omap_app. destruct e; cbn; rewrite ?app_nil_r, ?head_snoc; by destruct (head _).
Qed.
Lemma first_echo_snoc events e now :
  first_echo (events ++ [(e, now)]) =
  match first_echo events, e with Some s, _ => Some s | None, We_Echo s => Some s | None, _ => None end.
Proof.
  unfold first_echo. rewrite omap_app. destruct e; cbn; rewrite ?app_nil_r, ?head_snoc; by destruct (head _).
Qed.
Lemma first_verdict_snoc policy events e now :
  first_verdict policy (events ++ [(e, now)]) =
  match first_verdict policy events, e with
  | Some s, _ => Some s | None, We_Verified r => Some (verdict_of policy r).2 | None, _ => None end.
Proof.
  unfold first_verdict. rewrite omap_app. destruct e; cbn; rewrite ?app_nil_r, ?head_snoc; by destruct (head _).
Qed.

(** Evidence that is conclusive is not overruled. *)
Lemma conclusive_stays r e v r' e' v' :
  conclusive r e v = true -> (forall x, r = Some x -> r' = Some x) -> (forall x, e = Some x -> e' = Some x) ->
  (forall x, v = Some x -> v' = Some x) -> conclusive r' e' v' = true /\ judgement r' e' v' = judgement r e v.
Proof.
  intros Hc Hr He Hv. destruct r as [r|]; [|done]. destruct e as [e|]; [|by destruct v]. rewrite (Hr r eq_refl), (He e eq_refl).
  destruct v as [v|]; [by rewrite (Hv v eq_refl)|]. by destruct r, e, v' as [[[]|]|].
Qed.

Lemma evaluate_open policy deadline seen d now late :
  open_wake policy deadline seen d ->
  wake_evaluate now late d =
  if late || conclusive_on policy seen then
    decide_wake (wd_outcome (judged_on policy seen)) (wd_rule (judged_on policy seen)) now d
  else (d, None).
Proof.
  intros [_ _ Hd Hr He Hv _]. unfold wake_evaluate, conclusive_on, judged_on. rewrite Hd, Hr, He, Hv. cbn [is_some].
  by destruct (first_reference seen) as [[]|], (first_echo seen) as [[]|], (first_verdict policy seen) as [[[]|]|], late.
Qed.

(** A decided decider returns nothing more and keeps its decision. *)
Lemma evaluate_decided now late d x : wk_decision d = Some x -> wake_evaluate now late d = (d, None).
Proof. intros Hx. unfold wake_evaluate. by rewrite Hx. Qed.
Lemma expire_decided now d x : wk_decision d = Some x -> wake_expire now d = (d, None).
Proof. intros Hx. unfold wake_expire. destruct (_ <=? _); [by eapply evaluate_decided|done]. Qed.
Lemma step_decided e now d x :
  wk_decision d = Some x -> wk_decision (wake_step d e now).1 = Some x /\ (wake_step d e now).2 = None.
Proof.
  intros Hx. destruct e; cbn [wake_step]; unfold reference_scored, echo_compared, wake_verified, wake_on_timer;
    rewrite (expire_decided _ _ x) by done; cbn [or_evaluate].
  - destruct (wt_reference _); cbn [or_evaluate]; rewrite (evaluate_decided _ _ _ x); done.
  - destruct (wt_echo _); cbn [or_evaluate]; rewrite (evaluate_decided _ _ _ x); done.
  - destruct (is_some _); [done|]. destruct (verdict_of _ _) as [[text distance] verdict].
    cbn [wk_decision set_wk_trace]. rewrite Hx. done.
  - done.
Qed.
Lemma run_decided events d x : wk_decision d = Some x -> wk_decision (wake_run d events).1 = Some x /\ (wake_run d events).2 = [].
Proof.
  revert d. induction events as [|[e now] events IH]; intros d Hx; cbn [wake_run]; [done|].
  destruct (step_decided e now d x Hx) as [H1 H2]. destruct (wake_step d e now) as [d' y]. cbn [fst snd] in *. subst y.
  specialize (IH d' H1). destruct (wake_run d' events). by destruct IH.
Qed.

(** *** Undecided *)
Definition decides_to (x : WakeDecision) (r : WakeDecider * option WakeDecision) : Prop := wk_decision r.1 = Some x /\ r.2 = Some x.
Lemma evaluate_now policy deadline seen d now :
  open_wake policy deadline seen d ->
  (if conclusive_on policy seen then decides_to (judged_on policy seen) (wake_evaluate now false d)
   else wake_evaluate now false d = (d, None)).
Proof.
  intros O. rewrite (evaluate_open _ _ _ _ now false O). cbn [orb]. destruct (conclusive_on _ _); [|done].
  split; cbn; by destruct (judged_on policy seen).
Qed.
Lemma evaluate_late policy deadline seen d now :
  open_wake policy deadline seen d -> decides_to (judged_on policy seen) (wake_evaluate now true d).
Proof. intros O. rewrite (evaluate_open _ _ _ _ now true O). split; cbn; by destruct (judged_on policy seen). Qed.

(** An event in time is taken, and decides if it is conclusive. *)
Lemma step_in_time policy deadline seen d e now :
  open_wake policy deadline seen d -> conclusive_on policy seen = false -> now < deadline ->
  let seen' := seen ++ [(e, now)] in
  if conclusive_on policy seen' then decides_to (judged_on policy seen') (wake_step d e now)
  else open_wake policy deadline seen' (wake_step d e now).1 /\ (wake_step d e now).2 = None.
Proof.
  intros O Hopen Hnow seen'. pose proof O as [Hp Hd Hx Hr He Hv Hf].
  assert (Hexp : wake_expire now d = (d, None)).
  { unfold wake_expire. rewrite Hd. by destruct (N.leb_spec deadline now); [lia|]. }
  assert (Htake : forall d', open_wake policy deadline seen' d' ->
    if conclusive_on policy seen' then decides_to (judged_on policy seen') (wake_evaluate now false d')
    else open_wake policy deadline seen' (wake_evaluate now false d').1 /\ (wake_evaluate now false d').2 = None).
  { intros d' O'. pose proof (evaluate_now _ _ _ _ now O') as Hn. destruct (conclusive_on policy seen'); [done|].
    by rewrite Hn. }
  pose proof (first_reference_snoc seen e now) as Sr. pose proof (first_echo_snoc seen e now) as Se.
  pose proof (first_verdict_snoc policy seen e now) as Sv. fold seen' in Sr, Se, Sv.
  destruct e as [score|echo|r|]; cbn [wake_step]; unfold reference_scored, echo_compared, wake_verified, wake_on_timer;
    rewrite Hexp; cbn [or_evaluate].
  - apply Htake. destruct (wt_reference (wk_trace d)) as [[s t]|] eqn:Er; cbn in Hr; rewrite <- Hr in Sr;
      split; cbn; rewrite ?Er; try done; rewrite ?He, ?Hv, ?Hf, ?Se, ?Sv; by repeat case_match.
  - apply Htake. destruct (wt_echo (wk_trace d)) as [[s t]|] eqn:Er; cbn in He; rewrite <- He in Se;
      split; cbn; rewrite ?Er; try done; rewrite ?Hr, ?Hv, ?Hf, ?Sr, ?Sv; by repeat case_match.
  - rewrite Hf. destruct (first_verdict policy seen) as [v|] eqn:Ev; cbn [is_some].
    { assert (Hsame : conclusive_on policy seen' = false).
      { unfold conclusive_on in *. rewrite Sr, Se, Sv. rewrite Ev in Hopen. by destruct (first_reference seen), (first_echo seen). }
      rewrite Hsame. split; [|done]. cbn [fst]. split; try done; rewrite ?Sr, ?Se, ?Sv; rewrite ?Hr, ?He, ?Hv, ?Hf; by repeat case_match. }
    rewrite Hp. destruct (verdict_of policy r) as [[text distance] verdict]. cbn [wk_decision set_wk_trace]. rewrite Hx. cbn [is_some].
    apply Htake. split; cbn; try done; rewrite ?Hr, ?He, ?Sr, ?Se, ?Sv; by repeat case_match.
  - assert (Hsame : conclusive_on policy seen' = false).
    { unfold conclusive_on in *. rewrite Sr, Se, Sv. by destruct (first_reference seen), (first_echo seen), (first_verdict policy seen). }
    rewrite Hsame. split; [|done]. cbn [fst]. split; try done; rewrite ?Sr, ?Se, ?Sv; rewrite ?Hr, ?He, ?Hv, ?Hf; by repeat case_match.
Qed.
Lemma step_too_late policy deadline seen d e now :
  open_wake policy deadline seen d -> deadline <= now -> decides_to (judged_on policy seen) (wake_step d e now).
Proof.
  intros O Hnow. assert (Hexp : wake_expire now d = wake_evaluate now true d).
  { unfold wake_expire. rewrite (ow_deadline _ _ _ _ O). by destruct (N.leb_spec deadline now); [|lia]. }
  pose proof (evaluate_late _ _ _ _ now O) as Hl.
  destruct e; cbn [wake_step]; unfold reference_scored, echo_compared, wake_verified, wake_on_timer; rewrite Hexp;
    destruct (wake_evaluate now true d) as [d' x]; destruct Hl as [H1 H2]; cbn [fst snd] in *; subst x; cbn [or_evaluate].
  - by destruct (wt_reference _).
  - by destruct (wt_echo _).
  - destruct (is_some (wt_verification _)); [done|]. destruct (verdict_of _ _) as [[text distance] verdict].
    cbn [wk_decision set_wk_trace]. rewrite H1. done.
  - done.
Qed.

Lemma first_verdict_in policy events v :
  first_verdict policy events = Some v -> exists r now, (We_Verified r, now) ∈ events /\ v = (verdict_of policy r).2.
Proof.
  unfold first_verdict. intros Hv. apply head_Some_elem_of in Hv. apply list_elem_of_omap in Hv as ([e now] & Hin & He).
  destruct e; try done. injection He as <-. by exists r, now.
Qed.
Lemma in_time_cons deadline e now events :
  in_time deadline ((e, now) :: events) = if now <? deadline then (e, now) :: in_time deadline events else [].
Proof. done. Qed.
Lemma in_time_in deadline events x : x ∈ in_time deadline events -> x ∈ events /\ x.2 < deadline.
Proof.
  induction events as [|[e now] events IH]; [by intros ?%not_elem_of_nil|]. rewrite in_time_cons.
  destruct (N.ltb_spec now deadline); [|by intros ?%not_elem_of_nil].
  intros [->|Hx]%elem_of_cons; [split; [by left|done]|]. destruct (IH Hx). split; [by right|done].
Qed.
Lemma conclusive_more policy seen more :
  conclusive_on policy seen = true ->
  conclusive_on policy (seen ++ more) = true /\ judged_on policy (seen ++ more) = judged_on policy seen.
Proof.
  intros Hc. assert (Hstay : forall T (f : WakeEvent * MonoInstant -> option T) x, head (omap f seen) = Some x -> head (omap f (seen ++ more)) = Some x).
  { intros T f x. rewrite omap_app. by destruct (omap f seen). }
  apply conclusive_stays; [done|apply Hstay..].
Qed.

(** What an undecided decider comes to. *)
Lemma run_judged policy deadline seen d events :
  open_wake policy deadline seen d -> conclusive_on policy seen = false ->
  let before := seen ++ in_time deadline events in
  let '(d', out) := wake_run d events in
  wk_decision d' =
    (if conclusive_on policy before || (length before <? length seen + length events)%nat then Some (judged_on policy before) else None) /\
  out = option_list (wk_decision d').
Proof.
  cbv zeta. revert seen d. induction events as [|[e now] events IH]; intros seen d O Hopen; cbn [wake_run].
  { rewrite app_nil_r, Hopen, Nat.add_0_r, Nat.ltb_irrefl. by rewrite (ow_decision _ _ _ _ O). }
  rewrite in_time_cons. destruct (N.ltb_spec now deadline) as [Hnow|Hnow].
  - pose proof (step_in_time _ _ _ _ e now O Hopen Hnow) as Hs. cbv zeta in Hs.
    replace (seen ++ (e, now) :: in_time deadline events) with ((seen ++ [(e, now)]) ++ in_time deadline events) by (by rewrite <- app_assoc).
    destruct (conclusive_on policy (seen ++ [(e, now)])) eqn:Ec.
    + destruct (conclusive_more _ _ (in_time deadline events) Ec) as [-> ->]. destruct (wake_step d e now) as [d1 x].
      destruct Hs as [H1 H2]. cbn [fst snd] in *. subst x. destruct (run_decided events d1 _ H1) as [H3 H4].
      destruct (wake_run d1 events) as [d2 out]. cbn [fst snd] in *. subst out. rewrite H3. done.
    + destruct (wake_step d e now) as [d1 x]. destruct Hs as [O1 Hx]. cbn [fst snd] in *. subst x.
      specialize (IH _ _ O1 Ec). rewrite (length_app seen) in IH. cbn [length] in IH.
      replace (length seen + length ((e, now) :: events))%nat with (length seen + 1 + length events)%nat by (cbn; lia).
      destruct (wake_run d1 events). exact IH.
  - pose proof (step_too_late _ _ _ _ e now O Hnow) as Hs. destruct (wake_step d e now) as [d1 x].
    destruct Hs as [H1 H2]. cbn [fst snd] in *. subst x. destruct (run_decided events d1 _ H1) as [H3 H4].
    destruct (wake_run d1 events) as [d2 out]. cbn [fst snd] in *. subst out. rewrite H3, app_nil_r, Hopen. cbn [orb length].
    destruct (Nat.ltb_spec (length seen) (length seen + S (length events))); [done|lia].
Qed.
Lemma arrive_open candidate conditions policy received :
  arrival_refusal (malformed candidate) conditions = None -> wc_producing_sound candidate = true ->
  let d := wake_arrive candidate conditions policy received in open_wake policy (wk_deadline d) [] d.
Proof. intros Hr Hp. unfold wake_arrive. rewrite Hr, Hp. by split. Qed.

(** The trace tells the decision. *)
Lemma evaluate_told now late d :
  fst <$> wt_decided (wk_trace d) = wk_decision d ->
  fst <$> wt_decided (wk_trace (wake_evaluate now late d).1) = wk_decision (wake_evaluate now late d).1.
Proof. intros Ht. unfold wake_evaluate. by repeat case_match. Qed.
Lemma step_told e now d :
  fst <$> wt_decided (wk_trace d) = wk_decision d ->
  fst <$> wt_decided (wk_trace (wake_step d e now).1) = wk_decision (wake_step d e now).1.
Proof.
  intros Ht. assert (H1 : fst <$> wt_decided (wk_trace (wake_expire now d).1) = wk_decision (wake_expire now d).1).
  { unfold wake_expire. destruct (_ <=? _); [by apply evaluate_told|done]. }
  destruct e; cbn [wake_step]; unfold reference_scored, echo_compared, wake_verified, wake_on_timer;
    destruct (wake_expire now d) as [d1 x]; cbn [fst] in H1.
  - destruct (wt_reference _), x; cbn [or_evaluate]; try done; by apply evaluate_told.
  - destruct (wt_echo _), x; cbn [or_evaluate]; try done; by apply evaluate_told.
  - destruct (is_some _); [done|]. destruct (verdict_of _ _) as [[text distance] verdict]. destruct (is_some _); [done|].
    by apply evaluate_told.
  - done.
Qed.
Lemma run_told events d :
  fst <$> wt_decided (wk_trace d) = wk_decision d ->
  fst <$> wt_decided (wk_trace (wake_run d events).1) = wk_decision (wake_run d events).1.
Proof.
  revert d. induction events as [|[e now] events IH]; intros d Ht; cbn [wake_run]; [done|].
  pose proof (step_told e now d Ht) as H1. destruct (wake_step d e now) as [d1 x]. specialize (IH d1 H1).
  by destruct (wake_run d1 events).
Qed.

(** C9: A wake decision is a function of the evidence that came in time, in whatever order
    it came.  A candidate is refused at arrival for the first reason that holds; one
    from a quiet device is accepted at once; and one from a device making sound is
    decided, once and for good, as soon as the evidence before the first event at or
    after the deadline is conclusive, or else by that event: what the device's own
    output explains is refused, then the first verdict decides, and none is a refusal.
    Nothing that comes later changes it, and the trace tells the decision. *)
Theorem wake_decided_by_evidence candidate conditions policy received events :
  let d0 := wake_arrive candidate conditions policy received in
  let '(d, out) := wake_run d0 events in
  match arrival_refusal (malformed candidate) conditions with
  | Some r => wk_decision d = Some (mkWakeDecision (Wo_Refused r) Wu_Arrival) /\ out = []
  | None =>
      if wc_producing_sound candidate then
        let before := in_time (wk_deadline d0) events in
        wk_decision d =
          (if conclusive_on policy before || (length before <? length events)%nat then Some (judged_on policy before) else None) /\
        out = option_list (wk_decision d)
      else wk_decision d = Some (mkWakeDecision Wo_Accepted Wu_Idle) /\ out = []
  end /\ fst <$> wt_decided (wk_trace d) = wk_decision d.
Proof.
  cbv zeta. set (d0 := wake_arrive candidate conditions policy received).
  assert (Htold : fst <$> wt_decided (wk_trace d0) = wk_decision d0).
  { subst d0. unfold wake_arrive. destruct (arrival_refusal _ _); [done|]. by destruct (wc_producing_sound candidate). }
  pose proof (run_told events d0 Htold) as Ht. pose proof (arrive_open candidate conditions policy received) as Ho. fold d0 in Ho.
  assert (Hd : forall x, wk_decision d0 = Some x -> wk_decision (wake_run d0 events).1 = Some x /\ (wake_run d0 events).2 = []) by
    (intros x; apply run_decided).
  destruct (arrival_refusal (malformed candidate) conditions) as [r|] eqn:Er; [|destruct (wc_producing_sound candidate) eqn:Ep].
  - destruct (Hd (mkWakeDecision (Wo_Refused r) Wu_Arrival)); [subst d0; unfold wake_arrive; by rewrite Er|].
    by destruct (wake_run d0 events).
  - pose proof (run_judged policy _ [] d0 events (Ho eq_refl eq_refl) eq_refl) as Hr. cbv zeta in Hr. cbn [app length] in Hr.
    by destruct (wake_run d0 events).
  - destruct (Hd (mkWakeDecision Wo_Accepted Wu_Idle)); [subst d0; unfold wake_arrive; by rewrite Er, Ep|].
    by destruct (wake_run d0 events).
Qed.

Lemma in_time_short deadline events :
  (length (in_time deadline events) < length events)%nat -> exists e, e ∈ events /\ deadline <= e.2.
Proof.
  induction events as [|e events IH]; cbn [length]; [lia|]. destruct e as [e now]. rewrite in_time_cons.
  destruct (N.ltb_spec now deadline) as [Hlt|Hge]; [|intros _; exists (e, now); split; [by left|done]].
  cbn [length]. intros Hl. destruct IH as (x & Hx & Hd); [lia|]. exists x. split; [by right|done].
Qed.

(** C10: A candidate is never accepted unverified.  Once accepted, either the device was
    quiet, or before the deadline the verifier heard a text whose distance to the wake
    word is within the policy's, and none of the evidence then in spoke against it: the
    echo comparison, if it was in, did not say that the microphone held echo only, and
    if the reference score was in and said that the device was rendering something
    wake-like, the echo comparison was in and heard near-end speech over it.  Only when
    the deadline had come may the score or the comparison be missing. *)
Theorem accepted_wakes_are_verified candidate conditions policy received events :
  let d0 := wake_arrive candidate conditions policy received in
  let d := (wake_run d0 events).1 in
  wd_outcome <$> wk_decision d = Some Wo_Accepted ->
  malformed candidate = None /\
  (wc_producing_sound candidate = false \/
   exists text x now reference echo,
     (We_Verified (Vr_Text text), now) ∈ events /\ now < wk_deadline d0 /\
     verification_distance text (wp_verify_core policy) = Some x /\ f64_leb x (wp_verify_pass_max policy) = true /\
     let before := in_time (wk_deadline d0) events in
     first_reference before = reference /\ first_echo before = echo /\ echo <> Some Ce_EchoOnly /\
     (reference = Some Rf_Overlap -> echo = Some Ce_NearEndPresent) /\
     (reference = None \/ echo = None -> exists late, late ∈ events /\ wk_deadline d0 <= late.2)).
Proof.
  cbv zeta. set (d0 := wake_arrive candidate conditions policy received). intros Hacc.
  pose proof (arrive_open candidate conditions policy received) as Ho. fold d0 in Ho.
  destruct (arrival_refusal (malformed candidate) conditions) as [r|] eqn:Er.
  { destruct (run_decided events d0 (mkWakeDecision (Wo_Refused r) Wu_Arrival)) as [Hd _]; [subst d0; unfold wake_arrive; by rewrite Er|].
    by rewrite Hd in Hacc. }
  split; [by destruct (malformed candidate)|]. destruct (wc_producing_sound candidate) eqn:Ep; [right|by left].
  pose proof (run_judged policy _ [] d0 events (Ho eq_refl eq_refl) eq_refl) as Hr. cbv zeta in Hr. cbn [app length] in Hr.
  set (before := in_time (wk_deadline d0) events) in *. destruct (wake_run d0 events) as [d out]. cbn [fst] in Hacc.
  destruct Hr as [Hd _]. rewrite Hd in Hacc. destruct (_ || _) eqn:Ewhen; [|done]. cbn in Hacc. injection Hacc as Hj.
  unfold judged_on, judgement in Hj. destruct (bool_decide _ && _) eqn:Eself; [done|].
  destruct (bool_decide_reflect (first_echo before = Some Ce_EchoOnly)) as [|Hecho]; [done|].
  destruct (first_verdict policy before) as [[[]|[]]|] eqn:Ev; try done.
  apply first_verdict_in in Ev as (r & now & Hin & Hv). apply in_time_in in Hin as [Hin Hnow].
  destruct r as [text|]; [|done]. cbn in Hv. injection Hv as Hv. destruct (verification_distance text _) as [x|] eqn:Ex; [|done].
  exists text, x, now. do 2 eexists. split_and!; try done.
  - intros Href. rewrite Href in Eself.
    rewrite bool_decide_eq_true_2 in Eself by done. by apply negb_false_iff, bool_decide_eq_true in Eself.
  - intros Hmissing. apply in_time_short, Nat.ltb_lt. revert Ewhen. unfold conclusive_on, conclusive.
    destruct Hmissing as [-> | ->]; cbn [is_some andb orb]; rewrite ?andb_false_r; done.
Qed.
(** ** A well-formed candidate *)
Definition later_hop (a b : WakeHop) : Prop := wh_end a < wh_end b.
Record candidate_wf (c : WakeCandidate) : Prop := {
  cw_id : wc_candidate_id c <> [];
  cw_threshold : f64_ltb (f64_of_Z 0) (wc_threshold c) = true /\ f64_leb (wc_threshold c) (f64_of_Z 1) = true;
  cw_ordered : StronglySorted later_hop (wc_hops c);
  cw_reaches : exists h, h ∈ wc_hops c /\ reaches_threshold c h = true;
  cw_positions : exists h, last (wc_hops c) = Some h /\ wc_support_start c <= wc_first_crossing_end c <= wh_end h;
}.
Lemma hops_ordered_sorted hops : hops_ordered hops = true <-> StronglySorted later_hop hops.
Proof.
  assert (E : hops_ordered hops = true <-> Sorted later_hop hops).
  { induction hops as [|a hops IH]; [split; [constructor|done]|]. destruct hops as [|b hops].
    { split; [by repeat constructor|done]. }
    cbn [hops_ordered] in *. rewrite andb_true_iff, IH, N.ltb_lt. split.
    - intros [Hab Hs]. constructor; [exact Hs|by constructor].
    - intros Hs. apply Sorted_inv in Hs as [Hs Hab]. by apply HdRel_inv in Hab. }
  rewrite E. split; [|apply StronglySorted_Sorted]. apply Sorted_StronglySorted. intros x y z. unfold later_hop. lia.
Qed.
Lemma find_first_last {T} (f : T -> bool) l :
  match find_first f (rev l) with
  | Some x => exists l1 l2, l = l1 ++ x :: l2 /\ f x = true /\ Forall (fun y => f y = false) l2
  | None => Forall (fun y => f y = false) l
  end.
Proof.
  induction l as [|x l IH] using rev_ind; [constructor|]. rewrite rev_app_distr. cbn. destruct (f x) eqn:E.
  - exists l, []. split_and!; [done|done|constructor].
  - unfold find_first in IH. destruct (List.find f (rev l)).
    + destruct IH as (l1 & l2 & -> & Hf & Hl). exists l1, (l2 ++ [x]). rewrite <- app_assoc. split_and!; [done|done|].
      apply Forall_app. split; [done|by constructor].
    + apply Forall_app. split; [done|by constructor].
Qed.
Lemma later_than_last l h x : StronglySorted later_hop l -> last l = Some h -> x ∈ l -> wh_end x <= wh_end h.
Proof.
  induction 1 as [|a l Hs IH Ha]; [done|]. destruct l as [|b l].
  - cbn. intros [= <-] ->%list_elem_of_singleton. lia.
  - intros Hl [->|Hx]%elem_of_cons; [|by apply IH]. rewrite Forall_forall in Ha. change (last (b :: l) = Some h) in Hl.
    apply last_Some in Hl as [l' E]. assert (Hin : h ∈ b :: l) by (rewrite E; apply elem_of_app; right; by left).
    specialize (Ha h Hin). unfold later_hop in Ha. lia.
Qed.
Lemma malformed_iff c : malformed c = None <-> candidate_wf c.
Proof.
  unfold malformed, candidate_open. pose proof (find_first_last (reaches_threshold c) (wc_hops c)) as Hf.
  unfold candidate_trigger. destruct (last (wc_hops c)) as [h|] eqn:El.
  2: { split; [done|]. intros [_ _ _ _ (h & Hh & _)]. congruence. }
  cbn [fmap option_fmap option_map]. destruct (wc_candidate_id c) as [|ch id] eqn:Eid.
  { split; [done|]. intros []. congruence. }
  destruct (f64_ltb _ _) eqn:E1; [|split; [done|intros [_ [? ?] _ _ _]; congruence]].
  destruct (f64_leb _ _) eqn:E2; [|split; [done|intros [_ [? ?] _ _ _]; congruence]]. cbn [andb negb].
  destruct (hops_ordered (wc_hops c)) eqn:E3; cbn [negb].
  2: { split; [done|]. intros [_ _ Hs _ _]. apply hops_ordered_sorted in Hs. congruence. }
  apply hops_ordered_sorted in E3.
  destruct (N.ltb_spec (wc_first_crossing_end c) (wc_support_start c)) as [|E4]; cbn [orb].
  { split; [done|]. intros [_ _ _ _ (h' & Hh & Hle)]. lia. }
  destruct (N.ltb_spec (wh_end h) (wc_first_crossing_end c)) as [|E5]; cbn [orb].
  { split; [done|]. intros [_ _ _ _ (h' & Hh & Hle)]. rewrite El in Hh. injection Hh as <-. lia. }
  destruct (find_first _ _) as [x|] eqn:Ex; cbn.
  - split; [|done]. intros _. destruct Hf as (l1 & l2 & Hl & Hr & _). split; [by rewrite Eid|done|done| |].
    + exists x. split; [rewrite Hl; apply elem_of_app; right; by left|done].
    + exists h. split; [done|lia].
  - split; [done|]. intros [_ _ _ (x & Hx & Hr) _]. rewrite Forall_forall in Hf. specialize (Hf x Hx). congruence.
Qed.

(** A candidate is refused as malformed exactly when it breaks a rule of the message.
    Otherwise it has an open and a trigger, the trigger is the end of the last hop that
    reaches the threshold and is not after the open, and the audio to verify reaches
    from the lead before the support to the lookahead after the open. *)
Theorem candidate_admission policy c :
  (malformed c = None <-> candidate_wf c) /\
  (candidate_wf c -> exists open trigger window,
     candidate_open c = Some open /\ candidate_trigger c = Some trigger /\ verification_window policy c = Some window /\
     trigger <= open /\
     (exists l1 h l2, wc_hops c = l1 ++ h :: l2 /\ wh_end h = trigger /\ reaches_threshold c h = true /\
        Forall (fun h => reaches_threshold c h = false) l2) /\
     ss_start window = wc_support_start c - wp_verification_lead policy /\
     (wc_support_start c <= u64_max -> open <= u64_max -> open <= ss_end window /\ ss_start window <= ss_end window)).
Proof.
  split; [apply malformed_iff|]. intros [_ _ Hs (x & Hx & Hr) (h & Hh & Hle)].
  unfold verification_window, candidate_open, candidate_trigger. rewrite Hh. pose proof (find_first_last (reaches_threshold c) (wc_hops c)) as Hf.
  destruct (find_first _ _) as [y|]; [|rewrite Forall_forall in Hf; specialize (Hf x Hx); congruence].
  destruct Hf as (l1 & l2 & Hl & Hy & Hrest). exists (wh_end h), (wh_end y). eexists. split_and!; try done.
  - eapply later_than_last; [exact Hs|exact Hh|rewrite Hl; apply elem_of_app; right; by left].
  - by exists l1, y, l2.
  - intros Hm Ho. cbn. unfold sample_add, sample_sub, sat_add64. lia.
Qed.
End decider.

(** *** A wake over music *)
#[local] Existing Instance ascii.
Module Music.
Definition hop (n : N) (raw : F64) : WakeHop := mkWakeHop (16000 + n * 1280) (Some raw) None.
Definition candidate : WakeCandidate :=
  mkWakeCandidate (text_of "c1") Wp_Playback (f64_ratio 3 5) true 17280 14720
    [hop 0 (f64_ratio 1 5); hop 1 (f64_ratio 7 10); hop 2 (f64_ratio 1 2)].
Definition conditions : ArrivalConditions := mkArrivalConditions false false false false.
Definition events : list (WakeEvent * MonoInstant) := [
  (We_Verified (Vr_Text (text_of "hey Ofelia")), 300000000); (We_Echo Ce_NearEndPresent, 350000000);
  (We_Reference Rf_Overlap, 400000000); (We_Echo Ce_EchoOnly, 500000000)].
End Music.
Example music_accepted :
  (wake_run (wake_arrive Music.candidate Music.conditions wake_default 0) Music.events).2 = [mkWakeDecision Wo_Accepted Wu_Verified].
Proof. vm_compute. reflexivity. Qed.

Lemma accepted_wakes_are_verified_witness :
  let d0 := wake_arrive Music.candidate Music.conditions wake_default 0 in
  malformed Music.candidate = None /\
  (wc_producing_sound Music.candidate = false \/
   exists text x now reference echo,
     (We_Verified (Vr_Text text), now) ∈ Music.events /\ now < wk_deadline d0 /\
     verification_distance text (wp_verify_core wake_default) = Some x /\ f64_leb x (wp_verify_pass_max wake_default) = true /\
     let before := in_time (wk_deadline d0) Music.events in
     first_reference before = reference /\ first_echo before = echo /\ echo <> Some Ce_EchoOnly /\
     (reference = Some Rf_Overlap -> echo = Some Ce_NearEndPresent) /\
     (reference = None \/ echo = None -> exists late, late ∈ Music.events /\ wk_deadline d0 <= late.2)).
Proof. apply (accepted_wakes_are_verified Music.candidate Music.conditions wake_default 0 Music.events). vm_compute. reflexivity. Defined.
