(* ===== verification/Arbiter.v ===== *)
(** * Arbitration between devices ([voice/src/arbiter.rs])

    Several devices hear one wake word; the first accepted claim answers.  The
    arbiter's calls hold its lock for their whole length, so a run is a sequence of
    calls.  A scope's cancellation token is shared with the device runtime: the set
    of cancelled tokens is the environment's state, which only grows. *)
From stdpp Require Import strings gmap.
From S2P Require Import Prelude Clock.

(** ** Scopes ([core/src/types.rs]) *)
Record WorkIdentity := mkWorkIdentity { wi_device : string; wi_runtime : N; wi_session : N; wi_turn : option N }.
(** The token is the identity of the [CancellationToken] the scope's clones share. *)
Record WorkScope := mkWorkScope { ws_identity : WorkIdentity; ws_token : nat }.
Definition scope_device (s : WorkScope) : string := wi_device (ws_identity s).
Definition is_cancelled (cancelled : gset nat) (s : WorkScope) : bool := bool_decide (ws_token s ∈ cancelled).

Inductive RuntimeError :=
  | Rn_InvalidLimits | Rn_Closed | Rn_Cancelled | Rn_Overloaded | Rn_Expired | Rn_Overdue | Rn_DuplicateDevice
  | Rn_UnknownDevice | Rn_WorkerPanicked | Rn_ShutdownTimeout | Rn_ThreadStart (detail : string).
Record WakeGrant := mkWakeGrant { gr_id : N; gr_claimed_at : MonoInstant }.
Inductive ClaimDecision := Cl_Won (grant : WakeGrant) | Cl_Lost (winner : string).
Inductive ReleaseOutcome := Rl_Released | Rl_Superseded.

(** ** The arbiter *)
Record Held := mkHeld { he_id : N; he_scope : WorkScope; he_claimed_at : MonoInstant }.
Record ArbiterState := mkArbiter { ab_next_grant : N; ab_held : option Held }.
Definition arbiter_new : ArbiterState := mkArbiter 0 None.

(** The holder a claim loses to. *)
Definition stands_down (cancelled : gset nat) (scope : WorkScope) (window : Duration) (now : MonoInstant) (h : Held) : bool :=
  negb (bool_decide (scope_device (he_scope h) = scope_device scope))
  && negb (is_cancelled cancelled (he_scope h))
  && (mono_since now (he_claimed_at h) <? window).
Definition arbiter_claim (cancelled : gset nat) (scope : WorkScope) (window : Duration) (now : MonoInstant) (s : ArbiterState) :
    ArbiterState * result RuntimeError ClaimDecision :=
  if is_cancelled cancelled scope then (s, Err Rn_Cancelled)
  else
    match ab_held s with
    | Some h =>
        if stands_down cancelled scope window now h then (s, Ok (Cl_Lost (scope_device (he_scope h))))
        else
          match checked_add64 (ab_next_grant s) 1 with
          | None => (s, Err Rn_Closed)
          | Some id => (mkArbiter id (Some (mkHeld id scope now)), Ok (Cl_Won (mkWakeGrant id now)))
          end
    | None =>
        match checked_add64 (ab_next_grant s) 1 with
        | None => (s, Err Rn_Closed)
        | Some id => (mkArbiter id (Some (mkHeld id scope now)), Ok (Cl_Won (mkWakeGrant id now)))
        end
    end.
Definition arbiter_release (grant : WakeGrant) (s : ArbiterState) : ArbiterState * ReleaseOutcome :=
  match ab_held s with
  | Some h => if he_id h =? gr_id grant then (mkArbiter (ab_next_grant s) None, Rl_Released) else (s, Rl_Superseded)
  | None => (s, Rl_Superseded)
  end.
Definition arbiter_holder (s : ArbiterState) : option WorkIdentity := (fun h => ws_identity (he_scope h)) <$> ab_held s.

(** ** The calls of the devices' runtimes, in lock order *)
Inductive ArbiterEvent :=
  | Ab_Claim (scope : WorkScope) (window : Duration) (now : MonoInstant)
  | Ab_Release (grant : WakeGrant)
  | Ab_Cancel (token : nat).
Inductive ArbiterAnswer := An_Claim (r : result RuntimeError ClaimDecision) | An_Release (r : ReleaseOutcome) | An_None.
Record Room := mkRoom { rm_arbiter : ArbiterState; rm_cancelled : gset nat }.
Definition room_new : Room := mkRoom arbiter_new ∅.
Definition room_step (r : Room) (e : ArbiterEvent) : Room * ArbiterAnswer :=
  match e with
  | Ab_Claim scope window now =>
      let '(s, x) := arbiter_claim (rm_cancelled r) scope window now (rm_arbiter r) in
      (mkRoom s (rm_cancelled r), An_Claim x)
  | Ab_Release grant =>
      let '(s, x) := arbiter_release grant (rm_arbiter r) in (mkRoom s (rm_cancelled r), An_Release x)
  | Ab_Cancel token => (mkRoom (rm_arbiter r) ({[ token ]} ∪ rm_cancelled r), An_None)
  end.
Fixpoint room_run (r : Room) (events : list ArbiterEvent) : Room * list ArbiterAnswer :=
  match events with
  | [] => (r, [])
  | e :: events =>
      let '(r, x) := room_step r e in
      let '(r, xs) := room_run r events in
      (r, x :: xs)
  end.

(** ** What a claim comes to *)
Lemma stands_down_iff cancelled scope window now h :
  stands_down cancelled scope window now h = true <->
  scope_device (he_scope h) <> scope_device scope /\ ws_token (he_scope h) ∉ cancelled /\ mono_since now (he_claimed_at h) < window.
Proof.
  unfold stands_down, is_cancelled. rewrite !andb_true_iff, !negb_true_iff, N.ltb_lt, !bool_decide_eq_false. tauto.
Qed.

(** The grants of a room: their ids are the numbers up to the last. *)
Record room_wf (r : Room) : Prop := {
  rw_next : ab_next_grant (rm_arbiter r) <= u64_max;
  rw_held h : ab_held (rm_arbiter r) = Some h -> 1 <= he_id h <= ab_next_grant (rm_arbiter r);
}.
Lemma claim_cases cancelled scope window now s :
  let '(s', x) := arbiter_claim cancelled scope window now s in
  match x with
  | Ok (Cl_Won g) =>
      gr_id g = ab_next_grant s + 1 /\ gr_claimed_at g = now /\ gr_id g <= u64_max /\
      s' = mkArbiter (gr_id g) (Some (mkHeld (gr_id g) scope now))
  | _ => s' = s
  end.
Proof.
  unfold arbiter_claim. destruct (is_cancelled _ _); [done|].
  assert (H : match checked_add64 (ab_next_grant s) 1 with Some id => id = ab_next_grant s + 1 /\ id <= u64_max | None => True end).
  { destruct (checked_add64 _ _) as [id|] eqn:E; [|done]. apply checked_add64_Some in E as [-> ?]. by split. }
  destruct (ab_held s) as [h|]; [destruct (stands_down _ _ _ _ _); [done|]|];
    (destruct (checked_add64 _ _) as [id|]; [|done]); by destruct H.
Qed.
Lemma room_step_wf r e : room_wf r -> room_wf (room_step r e).1.
Proof.
  intros [H1 H2]. destruct e as [scope window now|grant|token]; cbn [room_step].
  - pose proof (claim_cases (rm_cancelled r) scope window now (rm_arbiter r)) as Hc. destruct (arbiter_claim _ _ _ _ _) as [s x].
    destruct x as [[g|]|]; [|subst s; split; [exact H1|exact H2]..]. destruct Hc as (Hid & _ & Hm & ->). split; cbn; [done|].
    intros h [= <-]. cbn. lia.
  - unfold arbiter_release. destruct (ab_held _) as [h|] eqn:Eh; [|split; [exact H1|cbn; by rewrite Eh]]. destruct (_ =? _); (split; cbn; [done|]); [by intros|].
    intros h'. rewrite Eh. intros [= <-]. by apply H2.
  - split; [exact H1|exact H2].
Qed.
Lemma room_run_wf r events : room_wf r -> room_wf (room_run r events).1.
Proof.
  revert r. induction events as [|e events IH]; intros r Hr; cbn [room_run]; [done|].
  pose proof (room_step_wf r e Hr) as H1. destruct (room_step r e) as [r1 x]. specialize (IH r1 H1). by destruct (room_run r1 events).
Qed.

(** Grants are given in order. *)
Lemma run_grants events r :
  let '(r', out) := room_run r events in
  forall g at_, An_Claim (Ok (Cl_Won (mkWakeGrant g at_))) ∈ out -> g <= ab_next_grant (rm_arbiter r').
Proof.
  assert (Hmono : forall e r, ab_next_grant (rm_arbiter r) <= ab_next_grant (rm_arbiter (room_step r e).1)).
  { clear. intros [scope window now|grant|token] r; cbn [room_step]; [| |done].
    - pose proof (claim_cases (rm_cancelled r) scope window now (rm_arbiter r)) as Hc. destruct (arbiter_claim _ _ _ _ _) as [s x].
      destruct x as [[g|]|]; cbn; [destruct Hc as (-> & _ & _ & ->); cbn; lia|by subst..].
    - unfold arbiter_release. destruct (ab_held _); [|done]. by destruct (_ =? _). }
  assert (Hrun : forall events r, ab_next_grant (rm_arbiter r) <= ab_next_grant (rm_arbiter (room_run r events).1)).
  { clear events r. induction events as [|e events IH]; intros r; cbn [room_run]; [done|].
    specialize (Hmono e r). destruct (room_step r e) as [r1 x]. specialize (IH r1). destruct (room_run r1 events). cbn in *. lia. }
  revert r. induction events as [|e events IH]; intros r; cbn [room_run]; [by intros ? ? ?%not_elem_of_nil|].
  destruct (room_step r e) as [r1 x] eqn:E. specialize (Hrun events r1). specialize (IH r1).
  destruct (room_run r1 events) as [r2 out]. cbn [fst] in Hrun. intros g at_ [Hx|Hin]%elem_of_cons; [|by eapply IH]. subst x.
  destruct e as [scope window now|grant|token]; cbn [room_step] in E; [|by destruct (arbiter_release _ _)|done].
  pose proof (claim_cases (rm_cancelled r) scope window now (rm_arbiter r)) as Hc. destruct (arbiter_claim _ _ _ _ _) as [s x].
  injection E as <- ->. destruct Hc as (Hid & _ & _ & ->). cbn in *. lia.
Qed.

(** A claim is decided by who holds the room.  It is refused when its own scope is
    cancelled; it loses exactly to another device's claim that is not cancelled and was
    made less than the claimer's window before it (never with a zero window); otherwise
    it wins with a grant no claim has had before and holds the room from then on -
    until 2^64-1 grants have been given.  Only a win changes the arbiter. *)
Theorem claim_contract events scope window now :
  let r := (room_run room_new events).1 in
  let '(s', x) := arbiter_claim (rm_cancelled r) scope window now (rm_arbiter r) in
  let suppressed h := ab_held (rm_arbiter r) = Some h /\ scope_device (he_scope h) <> scope_device scope /\
    ws_token (he_scope h) ∉ rm_cancelled r /\ mono_since now (he_claimed_at h) < window in
  (x = Err Rn_Cancelled <-> ws_token scope ∈ rm_cancelled r) /\
  (forall d, x = Ok (Cl_Lost d) <->
     ws_token scope ∉ rm_cancelled r /\ exists h, suppressed h /\ d = scope_device (he_scope h)) /\
  (x = Err Rn_Closed <->
     ws_token scope ∉ rm_cancelled r /\ (forall h, ~ suppressed h) /\ ab_next_grant (rm_arbiter r) = u64_max) /\
  match x with
  | Ok (Cl_Won g) =>
      gr_claimed_at g = now /\ ab_held s' = Some (mkHeld (gr_id g) scope now) /\
      (forall g', (exists at_, An_Claim (Ok (Cl_Won (mkWakeGrant g' at_))) ∈ (room_run room_new events).2) -> g' < gr_id g)
  | _ => s' = rm_arbiter r
  end.
Proof.
  assert (Hwf : room_wf (room_run room_new events).1) by (apply room_run_wf; split; cbn; [lia|done]).
  pose proof (run_grants events room_new) as Hg. destruct (room_run room_new events) as [r out]. cbn [fst snd] in *.
  pose proof (claim_cases (rm_cancelled r) scope window now (rm_arbiter r)) as Hc. revert Hc. unfold arbiter_claim, is_cancelled.
  destruct (bool_decide_reflect (ws_token scope ∈ rm_cancelled r)) as [Hin|Hin].
  { intros _. split_and!; [done|intros d; split; [done|by intros []]|split; [done|by intros []]|done]. }
  assert (Hcnt : checked_add64 (ab_next_grant (rm_arbiter r)) 1 =
    if ab_next_grant (rm_arbiter r) =? u64_max then None else Some (ab_next_grant (rm_arbiter r) + 1)).
  { pose proof (rw_next _ Hwf). unfold checked_add64. destruct (N.eqb_spec (ab_next_grant (rm_arbiter r)) u64_max);
      destruct (N.leb_spec (ab_next_grant (rm_arbiter r) + 1) u64_max); [lia|done|done|lia]. }
  rewrite Hcnt. destruct (ab_held (rm_arbiter r)) as [h|] eqn:Eh.
  - destruct (stands_down _ _ _ _ _) eqn:Es.
    + intros _. apply stands_down_iff in Es. split_and!; [done| | |done].
      * intros d. split; [intros [= <-]; split; [done|]; by exists h|]. by intros (_ & h' & [[= <-] _] & ->).
      * split; [done|]. intros (_ & Hn & _). by destruct (Hn h).
    + assert (Hn : forall h', ~ (Some h = Some h' /\ scope_device (he_scope h') <> scope_device scope /\
        ws_token (he_scope h') ∉ rm_cancelled r /\ mono_since now (he_claimed_at h') < window)).
      { intros h' [[= <-] Hs]. apply stands_down_iff in Hs. congruence. }
      destruct (N.eqb_spec (ab_next_grant (rm_arbiter r)) u64_max) as [Em|Em]; intros Hc; split_and!; try done.
      * intros d. split; [done|]. intros (_ & h' & Hh & _). by destruct (Hn h').
      * intros d. split; [done|]. intros (_ & h' & Hh & _). by destruct (Hn h').
      * split; [done|]. by intros (_ & _ & ?).
      * intros g' [at_ Hg']. specialize (Hg g' at_ Hg'). cbn in *. lia.
  - destruct (N.eqb_spec (ab_next_grant (rm_arbiter r)) u64_max) as [Em|Em]; intros Hc; split_and!; try done.
    + intros d. split; [done|]. by intros (_ & h' & [? _] & _).
    + split; [|done]. intros _. split_and!; [done|by intros h' [? _]|done].
    + intros d. split; [done|]. by intros (_ & h' & [? _] & _).
    + split; [done|]. by intros (_ & _ & ?).
    + intros g' [at_ Hg']. specialize (Hg g' at_ Hg'). cbn in *. lia.
Qed.

(** An event that leaves the holder in place: another device's claim within its window,
    a release of another grant, a cancellation of another scope. *)
Definition undisturbed (h : Held) (e : ArbiterEvent) : Prop :=
  match e with
  | Ab_Claim scope window now => scope_device scope <> scope_device (he_scope h) /\ mono_since now (he_claimed_at h) < window
  | Ab_Release grant => gr_id grant <> he_id h
  | Ab_Cancel token => token <> ws_token (he_scope h)
  end.
Definition stood_down (winner : string) (x : ArbiterAnswer) : Prop :=
  match x with
  | An_Claim r => r = Ok (Cl_Lost winner) \/ r = Err Rn_Cancelled
  | An_Release r => r = Rl_Superseded
  | An_None => True
  end.
Lemma undisturbed_step h r e :
  ab_held (rm_arbiter r) = Some h -> ws_token (he_scope h) ∉ rm_cancelled r -> undisturbed h e ->
  let '(r', x) := room_step r e in
  rm_arbiter r' = rm_arbiter r /\ ws_token (he_scope h) ∉ rm_cancelled r' /\ stood_down (scope_device (he_scope h)) x.
Proof.
  intros Hh Hc He. destruct e as [scope window now|grant|token]; cbn [room_step undisturbed] in *.
  - unfold arbiter_claim. destruct (is_cancelled _ _); [split_and!; [done|done|by right]|]. rewrite Hh.
    destruct He as [Hd Hw]. assert (Hs : stands_down (rm_cancelled r) scope window now h = true).
    { apply stands_down_iff. by split_and!; [intros E; symmetry in E|..]. }
    rewrite Hs. split_and!; [done|done|by left].
  - unfold arbiter_release. rewrite Hh. destruct (N.eqb_spec (he_id h) (gr_id grant)); [congruence|]. by split_and!.
  - split_and!; [done| |done]. set_solver.
Qed.

(** The claim wins, with a grant of its own, and holds the room. *)
Definition takes_over (r : Room) (scope : WorkScope) (window : Duration) (now : MonoInstant) : Prop :=
  exists g, (room_step r (Ab_Claim scope window now)).2 = An_Claim (Ok (Cl_Won g)) /\
    gr_id g = ab_next_grant (rm_arbiter r) + 1 /\
    ab_held (rm_arbiter (room_step r (Ab_Claim scope window now)).1) = Some (mkHeld (gr_id g) scope now).
(** Its own scope is not cancelled and there are grants left to give. *)
Definition able (r : Room) (scope : WorkScope) : Prop :=
  ws_token scope ∉ rm_cancelled r /\ ab_next_grant (rm_arbiter r) < u64_max.
Lemma claim_takes_over r scope window now :
  able r scope -> (forall h, ab_held (rm_arbiter r) = Some h -> stands_down (rm_cancelled r) scope window now h = false) ->
  takes_over r scope window now.
Proof.
  intros [Hc Hn] Hs. unfold takes_over. cbn [room_step]. unfold arbiter_claim, is_cancelled. rewrite bool_decide_eq_false_2 by done.
  assert (Hadd : checked_add64 (ab_next_grant (rm_arbiter r)) 1 = Some (ab_next_grant (rm_arbiter r) + 1)).
  { unfold checked_add64. by rewrite (proj2 (N.leb_le _ _)) by lia. }
  destruct (ab_held (rm_arbiter r)) as [h|]; [rewrite (Hs h eq_refl)|]; rewrite Hadd; (eexists; split; [reflexivity|by split]).
Qed.


(** *** A kitchen and a hall *)
Module House.
Definition scope (device : string) (token : nat) : WorkScope := mkWorkScope (mkWorkIdentity device 1 1 None) token.
Definition window : Duration := from_millis 700.
Definition before : list ArbiterEvent :=
  [Ab_Claim (scope "hall" 1) window 1000; Ab_Release (mkWakeGrant 1 1000)].
Definition events : list ArbiterEvent :=
  [Ab_Claim (scope "hall" 2) window 400000000; Ab_Release (mkWakeGrant 1 1000); Ab_Cancel 2; Ab_Claim (scope "attic" 2) window 500000000].
End House.
