(* ===== verification/Document.v ===== *)
(** * Settings documents ([settings/src/json.rs])

    JSON whose objects keep the order of their keys, and the writer that
    reproduces the text the stored documents already have.  A [String] is its
    UTF-8 bytes; [chars] are its characters. *)
From Stdlib Require Import Floats.SpecFloat.
From S2P Require Import Prelude Bytes WireEnum Float Ema Vocab Json.

(** ** UTF-8 *)
Definition byte_at (c : Ascii.ascii) : N := Ascii.N_of_ascii c.
Definition continuation (n : N) : bool := (128 <=? n) && (n <? 192).
Definition scalar (c : Char) : bool := (c <? 55296) || ((57344 <=? c) && (c <? 1114112)).
Definition REPLACEMENT : Char := 65533.

(** [str::chars].  Bytes that are not UTF-8, which no [String] holds, are each
    U+FFFD. *)
Fixpoint chars (s : string) : Text :=
  match s with
  | EmptyString => []
  | String a s1 =>
      let x := byte_at a in
      if x <? 128 then x :: chars s1
      else
        match s1 with
        | String b s2 =>
            let y := byte_at b in
            let c2 := (x - 192) * 64 + (y - 128) in
            if (192 <=? x) && (x <? 224) && continuation y && (128 <=? c2) then c2 :: chars s2
            else
              match s2 with
              | String c s3 =>
                  let z := byte_at c in
                  let c3 := (x - 224) * 4096 + (y - 128) * 64 + (z - 128) in
                  if (224 <=? x) && (x <? 240) && continuation y && continuation z &&
                     (2048 <=? c3) && scalar c3
                  then c3 :: chars s3
                  else
                    match s3 with
                    | String d s4 =>
                        let w := byte_at d in
                        let c4 := (x - 240) * 262144 + (y - 128) * 4096 + (z - 128) * 64 + (w - 128) in
                        if (240 <=? x) && continuation y && continuation z && continuation w &&
                           (65536 <=? c4) && scalar c4
                        then c4 :: chars s4
                        else REPLACEMENT :: chars s1
                    | EmptyString => REPLACEMENT :: chars s1
                    end
              | EmptyString => REPLACEMENT :: chars s1
              end
        | EmptyString => REPLACEMENT :: chars s1
        end
  end.

Definition ascii_of (n : N) : Ascii.ascii := Ascii.ascii_of_N n.

(** [String::push]. *)
Definition utf8_char (c : Char) (s : string) : string :=
  if c <? 128 then String (ascii_of c) s
  else if c <? 2048 then String (ascii_of (192 + c / 64)) (String (ascii_of (128 + c mod 64)) s)
  else if c <? 65536 then
    String (ascii_of (224 + c / 4096))
      (String (ascii_of (128 + c / 64 mod 64)) (String (ascii_of (128 + c mod 64)) s))
  else
    String (ascii_of (240 + c / 262144))
      (String (ascii_of (128 + c / 4096 mod 64))
         (String (ascii_of (128 + c / 64 mod 64)) (String (ascii_of (128 + c mod 64)) s))).
Fixpoint utf8 (t : Text) : string :=
  match t with [] => EmptyString | c :: t => utf8_char c (utf8 t) end.

(** Settle the comparisons of the goal that arithmetic decides. *)
Ltac settle_cmp :=
  repeat match goal with
    | |- context [?a <? ?b] =>
        first [rewrite (proj2 (N.ltb_lt a b)) by div_lia | rewrite (proj2 (N.ltb_ge a b)) by div_lia]
    | |- context [?a <=? ?b] =>
        first [rewrite (proj2 (N.leb_le a b)) by div_lia | rewrite (proj2 (N.leb_gt a b)) by div_lia]
    end;
  cbn [andb orb negb].

Lemma byte_ascii n : n < 256 -> byte_at (ascii_of n) = n.
Proof. intros H. unfold byte_at, ascii_of. by rewrite Ascii.N_ascii_embedding. Qed.

Lemma chars_utf8_char c s : scalar c = true -> chars (utf8_char c s) = c :: chars s.
Proof.
  unfold scalar. intros Hs. assert (Hc : c < 1114112) by (apply orb_true_iff in Hs as [?%N.ltb_lt|[_ ?%N.ltb_lt]%andb_true_iff]; lia).
  unfold utf8_char.
  destruct (N.ltb_spec c 128); [|destruct (N.ltb_spec c 2048); [|destruct (N.ltb_spec c 65536)]].
  all: cbn [chars]; rewrite !byte_ascii by div_lia; unfold continuation.
  - by settle_cmp.
  - replace ((192 + c / 64 - 192) * 64 + (128 + c mod 64 - 128)) with c by div_lia. by settle_cmp.
  - replace ((224 + c / 4096 - 224) * 4096 + (128 + c / 64 mod 64 - 128) * 64 + (128 + c mod 64 - 128)) with c
      by div_lia.
    unfold scalar. rewrite Hs. by settle_cmp.
  - replace ((240 + c / 262144 - 240) * 262144 + (128 + c / 4096 mod 64 - 128) * 4096 +
             (128 + c / 64 mod 64 - 128) * 64 + (128 + c mod 64 - 128)) with c by div_lia.
    unfold scalar. rewrite Hs. by settle_cmp.
Qed.

Lemma chars_utf8 t : forallb scalar t = true -> chars (utf8 t) = t.
Proof.
  induction t as [|c t IH]; cbn; [done|]. intros [Hc Ht]%andb_true_iff. rewrite chars_utf8_char by done. by rewrite IH.
Qed.

Lemma chars_scalar_n n s : (String.length s <= n)%nat -> forallb scalar (chars s) = true.
Proof.
  revert s. induction n as [|n IH]; intros s Hn; (destruct s as [|a s1]; [done|]); cbn in Hn; [lia|].
  assert (H1 : forallb scalar (chars s1) = true) by (apply IH; lia).
  cbn [chars]. destruct (N.ltb_spec (byte_at a) 128).
  { cbn. rewrite H1. unfold scalar. by rewrite (proj2 (N.ltb_lt _ _)) by lia. }
  destruct s1 as [|b s2]; [done|]. cbn in Hn.
  assert (H2 : forallb scalar (chars s2) = true) by (apply IH; lia).
  destruct (_ && _ && _ && _) eqn:E2.
  { apply andb_true_iff in E2 as [[[_ Hx]%andb_true_iff Hy]%andb_true_iff _].
    apply N.ltb_lt in Hx. unfold continuation in Hy. apply andb_true_iff in Hy as [_ Hy%N.ltb_lt].
    cbn [forallb]. rewrite H2. unfold scalar. by rewrite (proj2 (N.ltb_lt _ _)) by lia. }
  destruct s2 as [|c s3]; [exact H1|]. cbn in Hn.
  match goal with |- forallb scalar (if ?g then _ else _) = true => destruct g eqn:E3 end.
  { apply andb_true_iff in E3 as [_ Hs]. cbn [forallb]. rewrite Hs. apply IH. lia. }
  destruct s3 as [|d s4]; [exact H1|]. cbn in Hn.
  match goal with |- forallb scalar (if ?g then _ else _) = true => destruct g eqn:E4 end; [|exact H1].
  apply andb_true_iff in E4 as [_ Hs]. cbn [forallb]. rewrite Hs. apply IH. lia.
Qed.

Lemma chars_scalar s : forallb scalar (chars s) = true.
Proof. by apply (chars_scalar_n (String.length s)). Qed.
Lemma chars_fix s : chars (utf8 (chars s)) = chars s.
Proof. apply chars_utf8, chars_scalar. Qed.

(** ** Documents *)
Inductive Json :=
  | JNull
  | JBool (b : bool)
  | JNumber (n : Number)
  | JString (text : string)
  | JArray (items : list Json)
  | JObject (entries : list (string * Json)).

(** The entries of a [JsonObject]. *)
Abbreviation JsonObject := (list (string * Json)).

Fixpoint obj_get {V} (key : string) (o : list (string * V)) : option V :=
  match o with
  | [] => None
  | (k, v) :: o => if String.eqb k key then Some v else obj_get key o
  end.
(** In place when the key exists, otherwise at the end. *)
Fixpoint obj_insert {V} (key : string) (v : V) (o : list (string * V)) : list (string * V) :=
  match o with
  | [] => [(key, v)]
  | (k, w) :: o => if String.eqb k key then (k, v) :: o else (k, w) :: obj_insert key v o
  end.
Fixpoint obj_remove {V} (key : string) (o : list (string * V)) : list (string * V) * option V :=
  match o with
  | [] => ([], None)
  | (k, w) :: o =>
      if String.eqb k key then (o, Some w)
      else let '(o, found) := obj_remove key o in ((k, w) :: o, found)
  end.
(** [FromIterator]. *)
Definition obj_collect {V} (entries : list (string * V)) : list (string * V) :=
  fold_left (fun o '(k, v) => obj_insert k v o) entries [].

(** [Json::from_value]. *)
Fixpoint json_from_value (v : Value) : Json :=
  match v with
  | VNull => JNull
  | VBool b => JBool b
  | VNumber n => JNumber n
  | VString s => JString s
  | VArray items => JArray (List.map json_from_value items)
  | VObject entries => JObject (obj_collect (List.map (fun '(k, v) => (k, json_from_value v)) entries))
  end.

(** *** Numbers *)
Definition number_as_f64 (n : Number) : F64 :=
  match n with NInt z => f64_of_Z z | NFloat x => x end.
Definition number_as_i64 (n : Number) : option Z :=
  match n with
  | NInt z => if ((- 2 ^ 63 <=? z) && (z <? 2 ^ 63))%Z then Some z else None
  | NFloat _ => None
  end.

Definition json_float (x : F64) : option Json := if f64_is_finite x then Some (JNumber (NFloat x)) else None.
Definition json_int (z : Z) : Json := JNumber (NInt z).
(** 2^53 *)
Definition EXACT : F64 := f64_of_Z 9007199254740992.
Definition is_zero (x : F64) : bool := f64_eqb x (S754_zero false).
Definition json_number (x : F64) : option Json :=
  if is_zero (f64_fract x) && f64_ltb (f64_abs x) EXACT then Some (json_int (f64_as_i64 x)) else json_float x.
Definition json_as_f64 (j : Json) : option F64 :=
  match j with JNumber n => Some (number_as_f64 n) | _ => None end.
Definition json_as_whole (j : Json) : option Z :=
  match j with
  | JNumber n =>
      match number_as_i64 n with
      | Some z => Some z
      | None =>
          let f := number_as_f64 n in
          if is_zero (f64_fract f) && f64_ltb (f64_abs f) EXACT then Some (f64_as_i64 f) else None
      end
  | _ => None
  end.

(** ** The shortest digits that read back as the same float *)
Open Scope Z_scope.
(** [d] in units of [10^k], compared with [x] in units of [2^e]. *)
Definition dec_unit (k e : Z) : Z := 10 ^ Z.max k 0 * 2 ^ Z.max (- e) 0.
Definition bin_unit (k e : Z) : Z := 2 ^ Z.max e 0 * 10 ^ Z.max (- k) 0.

(** The float is [4m], and what rounds to it lies between [low] and [high], all in
    units of [2^(e - 2)]; a bound itself rounds to it when [m] is even. *)
Definition interval_low (m : positive) (e : Z) : Z :=
  if (Zpos m =? 2 ^ 52) && (emin f64_prec f64_emax <? e) then 4 * Zpos m - 1 else 4 * Zpos m - 2.
Definition interval_high (m : positive) : Z := 4 * Zpos m + 2.
Definition rounds_to (m : positive) (e k d : Z) : bool :=
  let a := d * dec_unit k (e - 2) in
  let low := interval_low m e * bin_unit k (e - 2) in
  let high := interval_high m * bin_unit k (e - 2) in
  if Z.even (Zpos m) then (low <=? a) && (a <=? high) else (low <? a) && (a <? high).

(** The multiple of [10^k] nearest the float that rounds to it, a tie going up. *)
Definition candidate (m : positive) (e k : Z) : option Z :=
  let v := 4 * Zpos m * bin_unit k (e - 2) in
  let unit := dec_unit k (e - 2) in
  let down := v / unit in
  let up := down + 1 in
  match rounds_to m e k down, rounds_to m e k up with
  | true, true => Some (if unit <=? 2 * (v - down * unit) then up else down)
  | true, false => Some down
  | false, true => Some up
  | false, false => None
  end.

Fixpoint shortest_from (fuel : nat) (m : positive) (e k : Z) : option (Z * Z) :=
  match fuel with
  | O => None
  | S fuel =>
      match candidate m e k with
      | Some d => Some (d, k)
      | None => shortest_from fuel m e (k - 1)
      end
  end.
(** The digits and the exponent of [{:e}]: from 10^309 down to 10^-324. *)
Definition lower_exp (m : positive) (e : Z) : option (string * Z) :=
  '(d, k) ← shortest_from 634 m e 309;
  let digits := pretty (Z.to_N d) in
  Some (digits, (k + Z.of_nat (String.length digits) - 1)%Z).

Close Scope Z_scope.

Fixpoint zeros (n : nat) : string := match n with O => "" | S n => "0" +:+ zeros n end.
Definition first_chars (n : nat) (s : string) : string := String.substring 0 n s.
Definition rest_chars (n : nat) (s : string) : string := String.substring n (String.length s - n) s.

Definition python_digits (digits : string) (exponent : Z) : string :=
  let point := (exponent + 1)%Z in
  if negb ((-4 <? point)%Z && (point <=? 16)%Z) then
    first_chars 1 digits +:+
    (if (1 <? String.length digits)%nat then "." +:+ rest_chars 1 digits else "") +:+
    "e" +:+ (if (exponent <? 0)%Z then "-" else "+") +:+
    (let n := pretty (Z.abs_N exponent) in if (String.length n <? 2)%nat then "0" +:+ n else n)
  else if (point <=? 0)%Z then "0." +:+ zeros (Z.to_nat (- point)) +:+ digits
  else
    let point := Z.to_nat point in
    if (String.length digits <=? point)%nat then digits +:+ zeros (point - String.length digits) +:+ ".0"
    else first_chars point digits +:+ "." +:+ rest_chars point digits.

Definition python_float_repr (x : F64) : option string :=
  match x with
  | S754_zero s => Some (if s then "-0.0" else "0.0")
  | S754_finite s m e =>
      '(digits, exponent) ← lower_exp m e;
      Some ((if s then "-" else "") +:+ python_digits digits exponent)
  | _ => None
  end.
Example repr_1 : python_float_repr (f64_ratio 95 100) = Some "0.95". Proof. vm_compute. reflexivity. Qed.
Example repr_2 : python_float_repr (f64_ratio 1 100000) = Some "1e-05". Proof. vm_compute. reflexivity. Qed.
Example repr_3 : python_float_repr (f64_of_Z 150000000000000000) = Some "1.5e+17". Proof. vm_compute. reflexivity. Qed.

(** ** Python's [json.dumps] *)
Inductive Style := Spaced | Compact.
Definition style_item (s : Style) : string := match s with Spaced => ", " | Compact => "," end.
Definition style_key (s : Style) : string := match s with Spaced => ": " | Compact => ":" end.

Definition encode_utf16 (c : Char) : list N :=
  if c <? 65536 then [c]
  else [55296 + (c - 65536) / 1024; 56320 + (c - 65536) mod 1024].
(** [{unit:04x}] *)
Definition hex4 (u : N) : string :=
  String (hex_digit (u / 4096)) (String (hex_digit (u / 256 mod 16))
    (String (hex_digit (u / 16 mod 16)) (String (hex_digit (u mod 16)) ""))).
Definition BACKSLASH : Ascii.ascii := ascii_of 92.
Definition QUOTE : Ascii.ascii := ascii_of 34.
Definition escape_unit (u : N) : string := String BACKSLASH ("u" +:+ hex4 u).
Definition write_char (c : Char) : string :=
  if c =? 34 then String BACKSLASH (String QUOTE "")
  else if c =? 92 then String BACKSLASH (String BACKSLASH "")
  else if c =? 10 then String BACKSLASH "n"
  else if c =? 13 then String BACKSLASH "r"
  else if c =? 9 then String BACKSLASH "t"
  else if c =? 8 then String BACKSLASH "b"
  else if c =? 12 then String BACKSLASH "f"
  else if (32 <=? c) && (c <=? 126) then String (ascii_of c) ""
  else String.concat "" (escape_unit <$> encode_utf16 c).
Definition write_string (text : string) : string :=
  String QUOTE (String.concat "" (write_char <$> chars text) +:+ String QUOTE "").

Definition write_number (n : Number) : string :=
  match n with
  | NInt z => pretty z
  | NFloat x => default "" (python_float_repr x)
  end.

Definition entry_leb {V} (a b : string * V) : bool :=
  match String.compare (fst a) (fst b) with Gt => false | _ => true end.
(** [sort_by], which is stable. *)
Fixpoint insert_entry {V} (a : string * V) (l : list (string * V)) : list (string * V) :=
  match l with
  | [] => [a]
  | b :: l => if entry_leb a b then a :: b :: l else b :: insert_entry a l
  end.
Definition sort_entries {V} (l : list (string * V)) : list (string * V) := foldr insert_entry [] l.

(** The texts of the members, in the order they are written. *)
Fixpoint write_value (style : Style) (sort_keys : bool) (j : Json) : string :=
  match j with
  | JNull => "null"
  | JBool b => if b then "true" else "false"
  | JNumber n => write_number n
  | JString s => write_string s
  | JArray items =>
      "[" +:+ String.concat (style_item style) (List.map (write_value style sort_keys) items) +:+ "]"
  | JObject entries =>
      let texts := List.map (fun '(k, v) => (k, write_value style sort_keys v)) entries in
      let texts := if sort_keys then sort_entries texts else texts in
      "{" +:+ String.concat (style_item style)
                ((fun '(k, text) => write_string k +:+ style_key style +:+ text) <$> texts) +:+ "}"
  end.
Definition to_python_text (j : Json) : string := write_value Spaced false j.
Definition to_compact_sorted_text (j : Json) : string := write_value Compact true j.

Example python_text_sample :
  to_python_text (JObject [("b", JArray [JNumber (NInt 1); JNumber (NFloat (f64_ratio 1 2))]); ("a", JString (utf8 [233; 34; 128512]))])
  = String.concat (String QUOTE "")
      ["{"; "b"; ": [1, 0.5], "; "a"; ": "; "\u00e9\"; "\ud83d\ude00"; "}"].
Proof. vm_compute. reflexivity. Qed.

(** ** Reading a string back: the JSON grammar of a string *)
Definition hex_value (c : Ascii.ascii) : option N :=
  let n := byte_at c in
  if (48 <=? n) && (n <=? 57) then Some (n - 48)
  else if (97 <=? n) && (n <=? 102) then Some (n - 87) else None.
Definition short_escape (c : Ascii.ascii) : option N :=
  let n := byte_at c in
  if n =? 34 then Some 34 else if n =? 92 then Some 92 else if n =? 110 then Some 10
  else if n =? 114 then Some 13 else if n =? 116 then Some 9 else if n =? 98 then Some 8
  else if n =? 102 then Some 12 else None.

(** The UTF-16 units up to the closing quote, and what follows it. *)
Fixpoint read_units (s : string) : option (list N * string) :=
  match s with
  | EmptyString => None
  | String c s =>
      if byte_at c =? 34 then Some ([], s)
      else if byte_at c =? 92 then
        match s with
        | EmptyString => None
        | String x s1 =>
            if byte_at x =? 117 then
              match s1 with
              | String h1 (String h2 (String h3 (String h4 s))) =>
                  a ← hex_value h1; b ← hex_value h2; c ← hex_value h3; d ← hex_value h4;
                  '(units, rest) ← read_units s;
                  Some (a * 4096 + b * 256 + c * 16 + d :: units, rest)
              | _ => None
              end
            else u ← short_escape x; '(units, rest) ← read_units s1; Some (u :: units, rest)
        end
      else '(units, rest) ← read_units s; Some (byte_at c :: units, rest)
  end.

Fixpoint decode_utf16 (units : list N) : Text :=
  match units with
  | [] => []
  | u :: units' =>
      if (55296 <=? u) && (u <? 56320) then
        match units' with
        | v :: units => 65536 + (u - 55296) * 1024 + (v - 56320) :: decode_utf16 units
        | [] => [u]
        end
      else u :: decode_utf16 units'
  end.

Definition read_string (s : string) : option (Text * string) :=
  match s with
  | String c s => if byte_at c =? 34 then '(units, rest) ← read_units s; Some (decode_utf16 units, rest) else None
  | EmptyString => None
  end.

Lemma append_cons x (a b : string) : String x a +:+ b = String x (a +:+ b).
Proof. done. Qed.
Lemma append_nil_l (a : string) : "" +:+ a = a.
Proof. done. Qed.
Lemma append_nil_r (a : string) : a +:+ "" = a.
Proof. induction a as [|x a IH]; [done|]. by rewrite append_cons, IH. Qed.
Lemma append_assoc (a b c : string) : (a +:+ b) +:+ c = a +:+ (b +:+ c).
Proof. induction a as [|x a IH]; [done|]. by rewrite !append_cons, IH. Qed.

Lemma hex_digit_value n :
  n < 16 -> hex_value (hex_digit n) = Some n /\ (32 <=? byte_at (hex_digit n)) && (byte_at (hex_digit n) <=? 126) = true.
Proof.
  intros H.
  assert (Hall : forallb (fun n => bool_decide (hex_value (hex_digit n) = Some n) &&
             ((32 <=? byte_at (hex_digit n)) && (byte_at (hex_digit n) <=? 126))) (N.of_nat <$> seq 0 16) = true)
    by (vm_compute; reflexivity).
  rewrite forallb_forall in Hall. specialize (Hall n).
  assert (Hin : In n (N.of_nat <$> seq 0 16)).
  { apply in_map_iff. exists (N.to_nat n). rewrite N2Nat.id. split; [done|]. apply in_seq. lia. }
  specialize (Hall Hin). apply andb_true_iff in Hall as [H1 H2]. split; [|done]. by apply bool_decide_eq_true in H1.
Qed.

Lemma hex4_value u :
  u < 65536 -> u / 4096 < 16 /\ u / 256 mod 16 < 16 /\ u / 16 mod 16 < 16 /\ u mod 16 < 16 /\
  u / 4096 * 4096 + u / 256 mod 16 * 256 + u / 16 mod 16 * 16 + u mod 16 = u.
Proof. intros Hu. split_and!; div_lia. Qed.

Definition push_unit (u : N) (read : option (list N * string)) : option (list N * string) :=
  '(units, rest) ← read; Some (u :: units, rest).

Lemma read_units_hex u s : u < 65536 -> read_units (escape_unit u +:+ s) = push_unit u (read_units s).
Proof.
  intros Hu. destruct (hex4_value u Hu) as (H1 & H2 & H3 & H4 & E).
  unfold escape_unit, hex4. rewrite !append_cons, !append_nil_l, !append_cons, append_nil_l. cbn [read_units].
  change (byte_at BACKSLASH) with 92. change (byte_at (Ascii.Ascii true false true false true true true false)) with 117. cbn [N.eqb Pos.eqb].
  rewrite (proj1 (hex_digit_value _ H1)), (proj1 (hex_digit_value _ H2)), (proj1 (hex_digit_value _ H3)),
    (proj1 (hex_digit_value _ H4)). cbn [mbind option_bind]. rewrite E. done.
Qed.

Lemma read_units_utf16 c s :
  c < 1114112 ->
  read_units (String.concat "" (escape_unit <$> encode_utf16 c) +:+ s)
  = foldr push_unit (read_units s) (encode_utf16 c).
Proof.
  intros Hc. unfold encode_utf16. destruct (N.ltb_spec c 65536); cbn [fmap list_fmap String.concat foldr].
  - by apply read_units_hex.
  - rewrite append_assoc. rewrite append_nil_l. rewrite !read_units_hex by div_lia. done.
Qed.

Lemma read_units_char c s :
  scalar c = true -> read_units (write_char c +:+ s) = foldr push_unit (read_units s) (encode_utf16 c).
Proof.
  unfold scalar. intros Hs. assert (Hc : c < 1114112) by (apply orb_true_iff in Hs as [?%N.ltb_lt|[_ ?%N.ltb_lt]%andb_true_iff]; lia).
  assert (Hone : c < 65536 -> foldr push_unit (read_units s) (encode_utf16 c) = push_unit c (read_units s)).
  { intros H. unfold encode_utf16. by rewrite (proj2 (N.ltb_lt _ _) H). }
  unfold write_char.
  repeat match goal with
    | |- context [c =? ?k] => destruct (N.eqb_spec c k) as [->|?]; [rewrite Hone by lia; reflexivity|]
    end.
  destruct (N.leb_spec 32 c); cbn [andb]; [|by apply read_units_utf16].
  destruct (N.leb_spec c 126); [|by apply read_units_utf16].
  rewrite append_cons. rewrite append_nil_l. cbn [read_units]. rewrite byte_ascii by lia.
  rewrite Hone by lia. by rewrite !(proj2 (N.eqb_neq _ _)) by done.
Qed.

Lemma decode_encode t : forallb scalar t = true -> decode_utf16 (t ≫= encode_utf16) = t.
Proof.
  induction t as [|c t IH]; [done|]. cbn [forallb]. intros [Hs Ht]%andb_true_iff. specialize (IH Ht).
  change ((c :: t) ≫= encode_utf16) with (encode_utf16 c ++ (t ≫= encode_utf16)).
  unfold scalar in Hs. assert (Hc : c < 1114112 /\ (c < 55296 \/ 57344 <= c))
    by (apply orb_true_iff in Hs as [?%N.ltb_lt|[?%N.leb_le ?%N.ltb_lt]%andb_true_iff]; lia).
  unfold encode_utf16. destruct (N.ltb_spec c 65536); cbn [app decode_utf16].
  - replace ((55296 <=? c) && (c <? 56320)) with false by (symmetry; apply andb_false_iff; rewrite N.leb_gt, N.ltb_ge; lia).
    f_equal. exact IH.
  - settle_cmp. f_equal; [div_lia|exact IH].
Qed.

Lemma read_units_text t rest :
  forallb scalar t = true ->
  read_units (String.concat "" (write_char <$> t) +:+ String QUOTE rest) = Some (t ≫= encode_utf16, rest).
Proof.
  assert (Hcat : forall a (l : list string), String.concat "" (a :: l) = a +:+ String.concat "" l)
    by (intros a [|b l]; [cbn; by rewrite append_nil_r|done]).
  induction t as [|c t IH]; [intros _; done|].
  cbn [forallb]. intros [Hc Ht]%andb_true_iff. rewrite fmap_cons, Hcat, append_assoc, read_units_char, (IH Ht) by done.
  change ((c :: t) ≫= encode_utf16) with (encode_utf16 c ++ (t ≫= encode_utf16)).
  generalize (encode_utf16 c). intros l. induction l as [|u l IHl]; [done|]. cbn [foldr]. by rewrite IHl.
Qed.

(** A written string reads back as its characters. *)
Lemma string_reads_back text rest :
  read_string (write_string text +:+ rest) = Some (chars text, rest).
Proof.
  unfold write_string. rewrite append_cons. cbn [read_string]. change (byte_at QUOTE) with 34. cbn [N.eqb Pos.eqb].
  rewrite append_assoc, append_cons. rewrite append_nil_l.
  rewrite read_units_text by apply chars_scalar. cbn. by rewrite decode_encode by apply chars_scalar.
Qed.

(** ** The shortest digits *)
Section shortest.
Open Scope Z_scope.

Lemma dec_unit_pos k e : 0 < dec_unit k e.
Proof. unfold dec_unit. pose proof (Z.pow_pos_nonneg 10 (Z.max k 0)). pose proof (Z.pow_pos_nonneg 2 (Z.max (- e) 0)). nia. Qed.
Lemma bin_unit_pos k e : 0 < bin_unit k e.
Proof. unfold bin_unit. pose proof (Z.pow_pos_nonneg 10 (Z.max (- k) 0)). pose proof (Z.pow_pos_nonneg 2 (Z.max e 0)). nia. Qed.

Lemma interval_low_lt m e : 2 <= interval_low m e < 4 * Zpos m.
Proof. unfold interval_low. destruct (_ && _); lia. Qed.

(** What rounds to the float is an interval around it. *)
Lemma rounds_to_between m e k a b d :
  rounds_to m e k a = true -> a <= d <= b \/ b <= d <= a -> rounds_to m e k b = true -> rounds_to m e k d = true.
Proof.
  unfold rounds_to. pose proof (dec_unit_pos k (e - 2)). destruct (Z.even (Zpos m));
    rewrite !andb_true_iff, ?Z.leb_le, ?Z.ltb_lt; nia.
Qed.

(** If any multiple of the unit rounds to the float, so does one next to it. *)
Lemma candidate_None m e k : candidate m e k = None -> forall d, rounds_to m e k d = false.
Proof.
  unfold candidate. set (v := 4 * Zpos m * bin_unit k (e - 2)). set (down := v / dec_unit k (e - 2)).
  pose proof (dec_unit_pos k (e - 2)) as Hu. pose proof (bin_unit_pos k (e - 2)) as Hb.
  pose proof (interval_low_lt m e) as Hl. pose proof (Z.div_mod v (dec_unit k (e - 2)) ltac:(lia)) as Hv.
  pose proof (Z.mod_pos_bound v _ Hu) as Hm. fold down in Hv.
  destruct (rounds_to m e k down) eqn:E1; [by destruct (rounds_to m e k (down + 1))|].
  destruct (rounds_to m e k (down + 1)) eqn:E2; [done|]. intros _ d.
  destruct (rounds_to m e k d) eqn:Ed; [|done]. exfalso. revert E1 E2 Ed.
  unfold rounds_to, interval_high. fold v. set (u := dec_unit k (e - 2)) in *. set (w := bin_unit k (e - 2)) in *.
  destruct (Z.even (Zpos m)); rewrite !andb_false_iff, !andb_true_iff, ?Z.leb_le, ?Z.ltb_lt, ?Z.leb_gt, ?Z.ltb_ge;
    intros E1 E2 [Hd1 Hd2]; destruct (Z.le_gt_cases d down) as [Hle|Hgt]; subst v; nia.
Qed.

Lemma candidate_Some m e k d : candidate m e k = Some d -> rounds_to m e k d = true /\ 0 < d.
Proof.
  intros H. assert (Hr : rounds_to m e k d = true).
  { revert H. unfold candidate. destruct (rounds_to m e k _) eqn:E1; destruct (rounds_to m e k (_ + 1)) eqn:E2;
      intros H; try destruct (_ <=? _); by simplify_eq. }
  split; [done|]. unfold rounds_to in Hr. pose proof (dec_unit_pos k (e - 2)). pose proof (bin_unit_pos k (e - 2)).
  pose proof (interval_low_lt m e). destruct (Z.even _); rewrite !andb_true_iff, ?Z.leb_le, ?Z.ltb_lt in Hr; nia.
Qed.

Lemma candidate_fine m e k : dec_unit k (e - 2) <= bin_unit k (e - 2) -> is_Some (candidate m e k).
Proof.
  intros Hf. destruct (candidate m e k) as [d|] eqn:E; [by eexists|]. exfalso.
  pose proof (candidate_None m e k E (4 * Zpos m * bin_unit k (e - 2) / dec_unit k (e - 2))) as Hn.
  revert Hn. unfold rounds_to, interval_high. set (v := 4 * Zpos m * bin_unit k (e - 2)).
  pose proof (dec_unit_pos k (e - 2)) as Hu. pose proof (bin_unit_pos k (e - 2)) as Hb.
  pose proof (interval_low_lt m e). pose proof (Z.div_mod v (dec_unit k (e - 2)) ltac:(lia)).
  pose proof (Z.mod_pos_bound v _ Hu).
  destruct (Z.even _); rewrite andb_false_iff, ?Z.leb_gt, ?Z.ltb_ge; subst v; nia.
Qed.

Lemma shortest_from_spec fuel m e k :
  (exists k0, k - Z.of_nat fuel < k0 <= k /\ is_Some (candidate m e k0)) ->
  exists d k', shortest_from fuel m e k = Some (d, k') /\ rounds_to m e k' d = true /\ 0 < d /\
    forall k2, k' < k2 <= k -> forall d2, rounds_to m e k2 d2 = false.
Proof.
  revert k. induction fuel as [|fuel IH]; intros k (k0 & Hk & Hc); [lia|]. cbn [shortest_from].
  destruct (candidate m e k) as [d|] eqn:E.
  - exists d, k. apply candidate_Some in E as [? ?]. split_and!; [done..|]. lia.
  - assert (Hk0 : k0 <> k) by (intros ->; destruct Hc; congruence).
    destruct (IH (k - 1)) as (d & k' & Es & Hr & Hd & Hmax); [exists k0; split; [lia|done]|].
    exists d, k'. split_and!; [done..|]. intros k2 Hk2 d2.
    destruct (Z.eq_dec k2 k) as [->|]; [by apply candidate_None|apply Hmax; lia].
Qed.

(** Every finite float has shortest digits, and they are found. *)
Lemma shortest_found m e :
  -1074 <= e ->
  exists d k, shortest_from 634 m e 309 = Some (d, k) /\ rounds_to m e k d = true /\ 0 < d /\
    forall k2, k < k2 <= 309 -> forall d2, rounds_to m e k2 d2 = false.
Proof.
  intros He. apply shortest_from_spec. exists (-324). split; [lia|]. apply candidate_fine.
  unfold dec_unit, bin_unit. change (Z.max (-324) 0) with 0. change (Z.max (- (-324)) 0) with 324.
  rewrite Z.pow_0_r, Z.mul_1_l.
  pose proof (Z.pow_pos_nonneg 2 (Z.max (e - 2) 0) ltac:(lia) ltac:(lia)).
  assert (Hbase : 2 ^ 1076 <= 10 ^ 324) by (vm_compute; discriminate).
  pose proof (Z.pow_le_mono_r 2 (Z.max (- (e - 2)) 0) 1076 ltac:(lia) ltac:(lia)). nia.
Qed.
End shortest.

(** ** Objects *)
Section objects.
Context {V : Type}.
Implicit Types (o l : list (string * V)) (k : string).

Lemma obj_get_insert k k' v o : obj_get k' (obj_insert k v o) = if String.eqb k k' then Some v else obj_get k' o.
Proof.
  induction o as [|[a w] o IH]; cbn; [done|]. destruct (String.eqb_spec a k) as [->|Hak]; cbn; [by destruct (String.eqb k k')|].
  rewrite IH. destruct (String.eqb_spec a k') as [->|]; [|done]. by rewrite (proj2 (String.eqb_neq _ _)) by done.
Qed.

Lemma obj_insert_keys k v o :
  (obj_insert k v o).*1 = if bool_decide (k ∈ o.*1) then o.*1 else o.*1 ++ [k].
Proof.
  induction o as [|[a w] o IH]; cbn; [done|]. destruct (String.eqb_spec a k) as [->|Hak]; cbn.
  - by rewrite bool_decide_true by set_solver.
  - rewrite IH. case_bool_decide as H; case_bool_decide as H'; [done|set_solver|set_solver|done].
Qed.

Lemma obj_insert_NoDup k v o : NoDup o.*1 -> NoDup (obj_insert k v o).*1.
Proof.
  intros Hn. rewrite obj_insert_keys. case_bool_decide; [done|]. apply NoDup_app.
  split_and!; [done| |apply NoDup_singleton]. intros x Hx ->%list_elem_of_singleton. done.
Qed.

Lemma obj_collect_go l o :
  NoDup (o.*1 ++ l.*1) -> fold_left (fun o '(k, v) => obj_insert k v o) l o = o ++ l.
Proof.
  revert o. induction l as [|[k v] l IH]; intros o Hn; [by rewrite app_nil_r|]. cbn in *.
  assert (Hi : obj_insert k v o = o ++ [(k, v)]).
  { assert (Hk : k ∉ o.*1).
    { apply NoDup_app in Hn as (_ & Hd & _). intros Hk. apply (Hd _ Hk). set_solver. }
    clear -Hk. induction o as [|[a w] o IH]; [done|]. cbn in *. destruct (String.eqb_spec a k) as [->|Ha].
    - destruct Hk. set_solver.
    - rewrite IH; [done|]. set_solver. }
  rewrite Hi, IH; [by rewrite <- app_assoc|]. rewrite fmap_app, <- app_assoc. exact Hn.
Qed.

(** Collecting entries whose keys are distinct keeps them as they are. *)
Lemma obj_collect_id l : NoDup l.*1 -> obj_collect l = l.
Proof. intros H. by apply (obj_collect_go l []). Qed.

Lemma obj_collect_NoDup l : NoDup (obj_collect l).*1.
Proof.
  unfold obj_collect. assert (H : NoDup (@nil (string * V)).*1) by apply NoDup_nil_2. revert H.
  generalize (@nil (string * V)). induction l as [|[k v] l IH]; intros o Ho; [done|]. cbn. by apply IH, obj_insert_NoDup.
Qed.

Lemma obj_get_Some k v o : NoDup o.*1 -> obj_get k o = Some v <-> (k, v) ∈ o.
Proof.
  induction o as [|[a w] o IH]; cbn; [by intros _; split; [|intros ?%elem_of_nil]|].
  intros [Ha Hn]%NoDup_cons. rewrite elem_of_cons. destruct (String.eqb_spec a k) as [->|Hne].
  - split; [intros [= ->]; by left|]. intros [[= ->]|Hin]; [done|]. exfalso. apply Ha. by apply (list_elem_of_fmap_2 fst) in Hin.
  - rewrite IH by done. split; [by right|]. intros [[= -> ->]|]; done.
Qed.
End objects.

(** ** Numbers *)
(** The numbers a float holds exactly: what the dashboard sends and the documents hold. *)
Definition exact_number (n : Number) : Prop :=
  match n with
  | NInt z => (- 2 ^ 53 < z < 2 ^ 53)%Z
  | NFloat x => f64_is_finite x = true /\ valid_binary f64_prec f64_emax x = true
  end.

Definition f64_same (x y : F64) : Prop := x = y \/ is_zero x = true /\ is_zero y = true.
Lemma f64_same_refl x : f64_same x x.
Proof. by left. Qed.

(** A finite float written by [json_number] reads back as an equal float. *)
Lemma json_number_reads_back x :
  f64_is_finite x = true -> valid_binary f64_prec f64_emax x = true ->
  exists n y, json_number x = Some (JNumber n) /\ number_as_f64 n = y /\ f64_same x y /\
    f64_is_finite y = true /\ valid_binary f64_prec f64_emax y = true /\ exact_number n.
Proof.
  intros Hf Hv. unfold json_number. destruct (_ && _) eqn:E.
  - apply andb_true_iff in E as [E1 E2]. destruct (f64_whole_round_trip x Hv E1 E2) as [Hb [Hr|[-> Hz]]].
    + exists (NInt (f64_as_i64 x)), x. split_and!; [done..|by left|done|done|done].
    + exists (NInt 0), (S754_zero false). rewrite Hz. split_and!; [done..|by right|done|done|done].
  - exists (NFloat x), x. unfold json_float. rewrite Hf. split_and!; [done..|by left|done|done|done].
Qed.

Lemma exact_number_as_f64 n :
  exact_number n -> valid_binary f64_prec f64_emax (number_as_f64 n) = true.
Proof. destruct n as [z|x]; cbn; [apply f64_of_Z_valid|by intros [_ ?]]. Qed.

Lemma json_int_whole z : (- 2 ^ 63 <= z < 2 ^ 63)%Z -> json_as_whole (json_int z) = Some z.
Proof.
  intros [H1 H2]. cbn. apply Z.leb_le in H1. apply Z.ltb_lt in H2. cbn in H1, H2. by rewrite H1, H2.
Qed.
