(* ===== verification/Values.v ===== *)
(** * Setting values ([settings/src/values.rs])

    Each setting's value type: what it reads from JSON, what it writes and its
    default.  [SettingType] is the trait as a record of operations; the macros
    that make the types of one kind are functions that make the record.  The
    laws of a type, [SettingLaws], are what the settings service relies on. *)
From Stdlib Require Import Floats.SpecFloat.
From S2P Require Import Prelude Bytes WireEnum Float Ema Vocab Json Policy Clock Evidence Level Transcript Document.

Inductive ValueError :=
  | Ve_WrongType (expected : string)
  | Ve_OutOfRange (value min max : F64)
  | Ve_TooPrecise (value : F64)
  | Ve_WrongLength (expected found : N)
  | Ve_TooMany (max found : N)
  | Ve_Duplicate (entry : string)
  | Ve_NotAChoice (value : string) (choices : list string)
  | Ve_Rule (rule : string)
  | Ve_MissingField (field : string)
  | Ve_UnknownField (field : string)
  | Ve_At (at_ : string) (error : ValueError).

Record SettingType (T : Type) := mkSettingType {
  from_json : Json -> result ValueError T;
  to_json : T -> Json;
  default_value : T;
  (** [PartialEq]. *)
  eqb : T -> T -> bool;
}.
Arguments from_json {T} _ _.
Arguments to_json {T} _ _.
Arguments default_value {T} _.
Arguments eqb {T} _ _ _.

(** ** Scalars *)
Definition boolean : SettingType bool := {|
  from_json j := match j with JBool b => Ok b | _ => Err (Ve_WrongType "true or false") end;
  to_json := JBool;
  default_value := false;
  eqb := Bool.eqb;
|}.

Definition number (value : Json) : result ValueError F64 :=
  ok_or (Ve_WrongType "a number") (json_as_f64 value).
Definition in_range (value min max : F64) : result ValueError F64 :=
  if f64_is_finite value && f64_leb min value && f64_leb value max then Ok value
  else Err (Ve_OutOfRange value min max).
Definition two_decimals (value : F64) : result ValueError F64 :=
  let hundredths := f64_mul value (f64_of_Z 100) in
  if f64_ltb (f64_abs (f64_sub hundredths (f64_round hundredths))) (f64_ratio 1 1000000) then Ok value
  else Err (Ve_TooPrecise value).
Definition whole (value : Json) (min max : Z) : result ValueError Z :=
  let? n := ok_or (Ve_WrongType "a whole number") (json_as_whole value) in
  if ((min <=? n) && (n <=? max))%Z then Ok n
  else Err (Ve_OutOfRange (f64_of_Z n) (f64_of_Z min) (f64_of_Z max)).
Definition string_of (value : Json) : result ValueError string :=
  match value with JString s => Ok s | _ => Err (Ve_WrongType "a string") end.
(** [expect]: only finite numbers are written. *)
Definition number_json (value : F64) : Json := default JNull (json_number value).

(** *** [bounded_number!] *)
Definition bounded_number_new (min max : F64) (two : bool) (value : F64) : result ValueError F64 :=
  let? value := in_range value min max in
  if two then two_decimals value else Ok value.
Definition bounded_number (min max default_ : F64) (two : bool) : SettingType F64 := {|
  from_json j := let? x := number j in bounded_number_new min max two x;
  to_json := number_json;
  default_value := default_;
  eqb := f64_eqb;
|}.

(** *** [bounded_whole!] *)
Definition bounded_whole_new (min max value : N) : result ValueError N :=
  if (min <=? value) && (value <=? max) then Ok value
  else Err (Ve_OutOfRange (f64_of_Z (Z.of_N value)) (f64_of_Z (Z.of_N min)) (f64_of_Z (Z.of_N max))).
Definition bounded_whole (min max default_ : N) : SettingType N := {|
  from_json j := let? n := whole j (Z.of_N min) (Z.of_N max) in Ok (Z.to_N n);
  to_json n := json_int (Z.of_N n);
  default_value := default_;
  eqb := N.eqb;
|}.

(** *** [word_choice!] *)
Definition choices (A : Type) `{WireEnum A} : list string := as_str <$> (ALL : list A).
Definition word_choice {A} `{WireEnum A, EqDecision A} (default_ : A) : SettingType A := {|
  from_json j :=
    let? word := string_of j in ok_or (Ve_NotAChoice word (choices A)) (from_wire word);
  to_json v := JString (as_str v);
  default_value := default_;
  eqb a b := bool_decide (a = b);
|}.

(** A list read element by element, the first error with its position. *)
Fixpoint read_items_from {A} (i : N) (read : Json -> result ValueError A) (items : list Json) : result ValueError (list A) :=
  match items with
  | [] => Ok []
  | item :: items =>
      let? a := map_err (Ve_At (pretty i)) (read item) in
      let? rest := read_items_from (i + 1) read items in
      Ok (a :: rest)
  end.
Definition read_items {A} : (Json -> result ValueError A) -> list Json -> result ValueError (list A) := read_items_from 0.

Fixpoint list_eqb {A} (f : A -> A -> bool) (a b : list A) : bool :=
  match a, b with
  | [], [] => true
  | x :: a, y :: b => f x y && list_eqb f a b
  | _, _ => false
  end.

(** ** Playback *)
Definition MIN_DB : F64 := f64_of_Z (-12).
Definition MAX_DB : F64 := f64_of_Z 12.
Fixpoint bands_new_from (i : N) (bands : list F64) : result ValueError unit :=
  match bands with
  | [] => Ok tt
  | band :: bands =>
      let? _ := map_err (Ve_At (pretty i)) (in_range band MIN_DB MAX_DB) in bands_new_from (i + 1) bands
  end.
(** [[f64; 8]] *)
Definition bands_new (bands : list F64) : result ValueError (list F64) :=
  let? _ := bands_new_from 0 bands in Ok bands.
Definition EqBands : SettingType (list F64) := {|
  from_json j :=
    match j with
    | JArray items =>
        if negb (length items =? 8)%nat then Err (Ve_WrongLength 8 (N.of_nat (length items)))
        else let? bands := read_items number items in bands_new bands
    | _ => Err (Ve_WrongType "a list of eight numbers")
    end;
  to_json bands := JArray (number_json <$> bands);
  default_value := replicate 8 (S754_zero false);
  eqb := list_eqb f64_eqb;
|}.
Definition DuckDb : SettingType F64 := bounded_number (f64_of_Z (-40)) (f64_of_Z 0) (f64_of_Z (-18)) false.

(** ** Wake word *)
Definition DEPLOYED_WAKE_GRAPH_SHA256 : string :=
  "4eb745120ea56f5681eddbf788a0c69e1fd406d4694a04a4dba0c1e41d862d3f".
Definition WakeModelChoice : SettingType string := {|
  from_json j :=
    let? text := string_of j in
    ok_or (Ve_Rule "must be a graph SHA-256: 64 lowercase hex digits") (sha256_parse text);
  to_json sha := JString sha;
  default_value := DEPLOYED_WAKE_GRAPH_SHA256;
  eqb := String.eqb;
|}.
Definition NearMissFloor : SettingType F64 := bounded_number (f64_ratio 5 100) (f64_ratio 60 100) (f64_ratio 17 100) true.
Definition ArbitrationWindowMs : SettingType N := bounded_whole 0 2000 700.
Definition RuleThreshold : SettingType F64 := bounded_number (f64_ratio 30 100) (f64_ratio 99 100) (f64_ratio 95 100) true.
Definition RuleWindows : SettingType N := bounded_whole 1 3 2.

Record WakeRule := mkWakeRule {
  wr_profile : RuleProfile;
  wr_windows : N;
  wr_combine : RuleCombine;
  wr_threshold : F64;
}.
Definition rule_eqb (a b : WakeRule) : bool :=
  bool_decide (wr_profile a = wr_profile b) && (wr_windows a =? wr_windows b) &&
  bool_decide (wr_combine a = wr_combine b) && f64_eqb (wr_threshold a) (wr_threshold b).

Definition reject_unknown_fields (object : JsonObject) (fields : list string) : result ValueError unit :=
  match find_first (fun '(k, _) => negb (bool_decide (k ∈ fields))) object with
  | Some (field, _) => Err (Ve_UnknownField field)
  | None => Ok tt
  end.
Definition field (object : JsonObject) (name : string) : result ValueError Json :=
  ok_or (Ve_MissingField name) (obj_get name object).

Definition WAKE_RULE_FIELDS : list string := ["profile"; "windows"; "combine"; "threshold"].
Definition wake_rule_from_json (value : Json) : result ValueError WakeRule :=
  match value with
  | JObject object =>
      let? _ := reject_unknown_fields object WAKE_RULE_FIELDS in
      let? profile := field object "profile" in
      let? profile_word := map_err (Ve_At "profile") (string_of profile) in
      let? profile :=
        ok_or (Ve_At "profile" (Ve_NotAChoice profile_word ["idle"; "playback"])) (from_wire profile_word) in
      let? windows := field object "windows" in
      let? windows := map_err (Ve_At "windows") (from_json RuleWindows windows) in
      let? combine := field object "combine" in
      let? combine_word := map_err (Ve_At "combine") (string_of combine) in
      let? combine :=
        ok_or (Ve_At "combine" (Ve_NotAChoice combine_word ["mean"; "all"])) (from_wire combine_word) in
      let? threshold := field object "threshold" in
      let? threshold := map_err (Ve_At "threshold") (from_json RuleThreshold threshold) in
      Ok (mkWakeRule profile windows combine threshold)
  | _ => Err (Ve_WrongType "an object {profile, windows, combine, threshold}")
  end.
Definition wake_rule_to_json (r : WakeRule) : Json :=
  JObject (obj_insert "threshold" (to_json RuleThreshold (wr_threshold r))
    (obj_insert "combine" (JString (as_str (wr_combine r)))
      (obj_insert "windows" (to_json RuleWindows (wr_windows r))
        (obj_insert "profile" (JString (as_str (wr_profile r))) [])))).

(** [{:.2}] of a number below one: its hundredths, to the nearest. *)
Definition hundredths (x : F64) : N := f64_floor_index (f64_round (f64_mul x (f64_of_Z 100))).
Definition two_places (x : F64) : string :=
  let n := hundredths x in
  pretty (n / 100) +:+ "." +:+ pretty (n / 10 mod 10) +:+ pretty (n mod 10).
Definition describe (r : WakeRule) : string :=
  as_str (wr_profile r) +:+ " " +:+ pretty (wr_windows r) +:+ "-window " +:+ as_str (wr_combine r) +:+ " >= " +:+
  two_places (wr_threshold r).

(** One of the model's two baseline rules. *)
Definition is_baseline (idle playback : F64) (r : WakeRule) : bool :=
  let threshold := match wr_profile r with Rp_Idle => idle | Rp_Playback => playback end in
  (wr_windows r =? 3) && bool_decide (wr_combine r = Rc_Mean) &&
  f64_ltb (f64_abs (f64_sub (wr_threshold r) threshold)) (f64_ratio 1 1000000000).

(** The first rule that repeats an earlier one. *)
Fixpoint repeated_rule (earlier rules : list WakeRule) : option WakeRule :=
  match rules with
  | [] => None
  | r :: rules => if any (rule_eqb r) earlier then Some r else repeated_rule (earlier ++ [r]) rules
  end.
Definition check_rules (rules : list WakeRule) (max : N) : result ValueError unit :=
  if max <? N.of_nat (length rules) then Err (Ve_TooMany max (N.of_nat (length rules)))
  else match repeated_rule [] rules with
       | Some r => Err (Ve_Duplicate (describe r))
       | None => Ok tt
       end.
Definition rules_from_json (value : Json) (max : N) : result ValueError (list WakeRule) :=
  match value with
  | JArray items =>
      let? rules := read_items wake_rule_from_json items in
      let? _ := check_rules rules max in
      Ok rules
  | _ => Err (Ve_WrongType "a list of rules")
  end.
Definition rule_list (max : N) (default_ : list WakeRule) : SettingType (list WakeRule) := {|
  from_json j := rules_from_json j max;
  to_json rules := JArray (wake_rule_to_json <$> rules);
  default_value := default_;
  eqb := list_eqb rule_eqb;
|}.
Definition ExtraOpenRules : SettingType (list WakeRule) := rule_list 4 [].
Definition default_shadow_rules : list WakeRule :=
  [mkWakeRule Rp_Idle 2 Rc_Mean (f64_ratio 90 100); mkWakeRule Rp_Idle 2 Rc_Mean (f64_ratio 95 100);
   mkWakeRule Rp_Idle 2 Rc_All (f64_ratio 90 100); mkWakeRule Rp_Idle 2 Rc_All (f64_ratio 95 100);
   mkWakeRule Rp_Idle 1 Rc_Mean (f64_ratio 97 100)].
Definition ShadowRules : SettingType (list WakeRule) := rule_list 8 default_shadow_rules.

(** ** Characters *)
Definition is_control (c : Char) : bool := (c <? 32) || ((127 <=? c) && (c <? 160)).
Definition ascii_alphanumeric (c : Char) : bool := ascii_letter c || Transcript.ascii_digit c.
Definition any_control (text : string) : bool := any is_control (chars text).

Section unicode.
Context `{Unicode}.

(** [split_whitespace]: [word] is the word being read. *)
Fixpoint split_whitespace_from (word t : Text) : list Text :=
  match t with
  | [] => match word with [] => [] | _ => [word] end
  | c :: t =>
      if is_whitespace c then
        match word with [] => split_whitespace_from [] t | _ => word :: split_whitespace_from [] t end
      else split_whitespace_from (word ++ [c]) t
  end.
Definition split_whitespace : Text -> list Text := split_whitespace_from [].
(** [join] with one space. *)
Fixpoint join_words (words : list Text) : Text :=
  match words with
  | [] => []
  | [w] => w
  | w :: words => w ++ SPACE :: join_words words
  end.
Definition lowercase (t : Text) : Text := t ≫= char_lower.
End unicode.

(** ** Speech *)
Inductive PauseAsrEngine := Pe_Kroko | Pe_Wyoming.
#[export] Instance PauseAsrEngine_eq_dec : EqDecision PauseAsrEngine.
Proof. solve_decision. Defined.
#[export] Instance PauseAsrEngine_wire : WireEnum PauseAsrEngine := {
  as_str v := match v with Pe_Kroko => "kroko" | Pe_Wyoming => "wyoming" end%string;
  ALL := [Pe_Kroko; Pe_Wyoming];
}.
#[export] Instance PauseAsrEngine_laws : WireLaws PauseAsrEngine.
Proof. solve_wire_laws. Qed.
Definition PauseAsrEngineType : SettingType PauseAsrEngine := word_choice Pe_Kroko.

Record PauseAsrChoice := mkPauseAsr {
  pa_engine : PauseAsrEngine;
  pa_host : string;
  pa_port : N;
  pa_model : string;
  pa_language : string;
}.
#[export] Instance PauseAsrChoice_eq_dec : EqDecision PauseAsrChoice.
Proof. solve_decision. Defined.

Definition host_char (c : Char) : bool :=
  ascii_alphanumeric c || (c =? 46) || (c =? 45) || (c =? 95) || (c =? 58).
Definition is_host (host : string) : bool :=
  (String.length host <=? 253)%nat && forallb host_char (chars host).

Definition pause_asr_new (engine : PauseAsrEngine) (host : string) (port : N) (model language : string) :
    result ValueError PauseAsrChoice :=
  if port =? 0 then Err (Ve_At "port" (Ve_OutOfRange (f64_of_Z 0) (f64_of_Z 1) (f64_of_Z 65535)))
  else if negb (String.eqb host "") && negb (is_host host) then
    Err (Ve_At "host" (Ve_Rule "must be a host name or IP address"))
  else if bool_decide (engine = Pe_Wyoming) && String.eqb host "" then
    Err (Ve_At "host" (Ve_Rule "a Wyoming server needs a host name or IP address"))
  else if any_control model then Err (Ve_At "model" (Ve_Rule "must not contain control characters"))
  else if any_control language then Err (Ve_At "language" (Ve_Rule "must not contain control characters"))
  else Ok (mkPauseAsr engine host port model language).

Definition PAUSE_ASR_FIELDS : list string := ["engine"; "host"; "port"; "model"; "language"].
Definition text_field (object : JsonObject) (name : string) : result ValueError string :=
  let? v := field object name in map_err (Ve_At name) (string_of v).
Definition pause_asr_from_json (value : Json) : result ValueError PauseAsrChoice :=
  match value with
  | JObject object =>
      let? _ := reject_unknown_fields object PAUSE_ASR_FIELDS in
      let? engine := field object "engine" in
      let? engine := map_err (Ve_At "engine") (from_json PauseAsrEngineType engine) in
      let? port := field object "port" in
      let? port := map_err (Ve_At "port") (whole port 1 65535) in
      let? host := text_field object "host" in
      let? model := text_field object "model" in
      let? language := text_field object "language" in
      pause_asr_new engine host (Z.to_N port) model language
  | _ => Err (Ve_WrongType "an object {engine, host, port, model, language}")
  end.
Definition pause_asr_to_json (p : PauseAsrChoice) : Json :=
  JObject (obj_insert "language" (JString (pa_language p))
    (obj_insert "model" (JString (pa_model p))
      (obj_insert "port" (json_int (Z.of_N (pa_port p)))
        (obj_insert "host" (JString (pa_host p))
          (obj_insert "engine" (to_json PauseAsrEngineType (pa_engine p)) []))))).
Definition PauseAsr : SettingType PauseAsrChoice := {|
  from_json := pause_asr_from_json;
  to_json := pause_asr_to_json;
  default_value := mkPauseAsr Pe_Kroko "" 10300 "" "en";
  eqb a b := bool_decide (a = b);
|}.

(** ** Ring *)
Inductive LedScene := Ls_Standard | Ls_Airy | Ls_Malevolent | Ls_Pride | Ls_Custom.
#[export] Instance LedScene_eq_dec : EqDecision LedScene.
Proof. solve_decision. Defined.
#[export] Instance LedScene_wire : WireEnum LedScene := {
  as_str v := match v with
    | Ls_Standard => "standard"
    | Ls_Airy => "airy"
    | Ls_Malevolent => "malevolent"
    | Ls_Pride => "pride"
    | Ls_Custom => "custom"
    end%string;
  ALL := [Ls_Standard; Ls_Airy; Ls_Malevolent; Ls_Pride; Ls_Custom];
}.
#[export] Instance LedScene_laws : WireLaws LedScene.
Proof. solve_wire_laws. Qed.
Definition LedSceneType : SettingType LedScene := word_choice Ls_Standard.

(** [is_ascii_hexdigit] and the value [from_str_radix] reads. *)
Definition hex_digit_value_any (c : Ascii.ascii) : option N :=
  let n := byte_at c in
  if (48 <=? n) && (n <=? 57) then Some (n - 48)
  else if (97 <=? n) && (n <=? 102) then Some (n - 87)
  else if (65 <=? n) && (n <=? 70) then Some (n - 55) else None.
Definition is_ascii_hexdigit (c : Ascii.ascii) : bool := bool_decide (is_Some (hex_digit_value_any c)).

Definition led_color_new (text : string) : result ValueError string :=
  if (String.length text =? 7)%nat &&
     match text with
     | String c digits => (byte_at c =? 35) && string_all is_ascii_hexdigit digits
     | EmptyString => false
     end
  then Ok text else Err (Ve_Rule "must be a colour #rrggbb").
(** [self.0[i..i + 2]] read in base 16. *)
Definition color_byte (text : string) (i : nat) : option N :=
  a ← String.get i text ≫= hex_digit_value_any; b ← String.get (S i) text ≫= hex_digit_value_any;
  Some (a * 16 + b).
Definition color_rgb (text : string) : option (N * N * N) :=
  r ← color_byte text 1; g ← color_byte text 3; b ← color_byte text 5; Some (r, g, b).
Definition led_color (default_ : string) : SettingType string := {|
  from_json j := let? text := string_of j in led_color_new text;
  to_json := JString;
  default_value := default_;
  eqb := String.eqb;
|}.
Definition ListenColor : SettingType string := led_color "#00b400".
Definition ThinkColor : SettingType string := led_color "#00c800".
Definition MeterAttack : SettingType F64 := bounded_number (f64_ratio 5 100) (f64_of_Z 1) (f64_ratio 6 10) false.
Definition MeterDecay : SettingType F64 := bounded_number (f64_ratio 2 100) (f64_of_Z 1) (f64_ratio 30 100) false.
Definition MeterFloor : SettingType F64 := bounded_number (f64_of_Z 0) (f64_ratio 6 10) (f64_ratio 6 100) false.
Definition MeterGamma : SettingType F64 := bounded_number (f64_of_Z 1) (f64_ratio 35 10) (f64_ratio 22 10) false.
Definition MeterRef : SettingType F64 := bounded_number (f64_ratio 2 100) (f64_of_Z 1) (f64_ratio 22 100) false.
Definition MeterCurve : SettingType F64 := bounded_number (f64_ratio 3 10) (f64_of_Z 2) (f64_ratio 7 10) false.

(** ** Button *)
Definition MultiTapMs : SettingType N := bounded_whole 0 600 0.

(** ** Timers and alarms *)
Inductive SoundChoice := Sc_Default | Sc_Named (id : string).
#[export] Instance SoundChoice_eq_dec : EqDecision SoundChoice.
Proof. solve_decision. Defined.
Definition sound_byte (c : Ascii.ascii) : bool :=
  let n := byte_at c in ascii_alphanumeric n || (n =? 95) || (n =? 46) || (n =? 45).
Definition sound_new (text : string) : result ValueError SoundChoice :=
  if String.eqb text "" then Ok Sc_Default
  else if (String.length text <=? 64)%nat && string_all sound_byte text then Ok (Sc_Named text)
  else Err (Ve_Rule "must be empty or a sound id of letters, digits, '_', '.' and '-', at most 64").
Definition sound_str (s : SoundChoice) : string := match s with Sc_Default => "" | Sc_Named id => id end.
Definition SoundType : SettingType SoundChoice := {|
  from_json j := let? text := string_of j in sound_new text;
  to_json s := JString (sound_str s);
  default_value := Sc_Default;
  eqb a b := bool_decide (a = b);
|}.
Definition TimerRingSeconds : SettingType N := bounded_whole 30 1800 900.
Definition TimerRingGapSeconds : SettingType F64 := bounded_number (f64_of_Z 0) (f64_of_Z 10) (f64_of_Z 2) false.

(** ** Transcript correction *)
Inductive TranscriptFixMode := Tf_Off | Tf_Shadow | Tf_On.
#[export] Instance TranscriptFixMode_eq_dec : EqDecision TranscriptFixMode.
Proof. solve_decision. Defined.
#[export] Instance TranscriptFixMode_wire : WireEnum TranscriptFixMode := {
  as_str v := match v with Tf_Off => "off" | Tf_Shadow => "shadow" | Tf_On => "on" end%string;
  ALL := [Tf_Off; Tf_Shadow; Tf_On];
}.
#[export] Instance TranscriptFixMode_laws : WireLaws TranscriptFixMode.
Proof. solve_wire_laws. Qed.
Definition TranscriptFix : SettingType TranscriptFixMode := word_choice Tf_Shadow.

Definition MAX_ENTRY_CHARS : nat := 120.
Definition FIX_LIST_MAX : N := 200.
(** ARPAbet's phonemes, and AX. *)
Definition PHONEMES : list string :=
  ["AA"; "AE"; "AH"; "AO"; "AW"; "AY"; "B"; "CH"; "D"; "DH"; "EH"; "ER"; "EY"; "F"; "G"; "HH";
   "IH"; "IY"; "JH"; "K"; "L"; "M"; "N"; "NG"; "OW"; "OY"; "P"; "R"; "S"; "SH"; "T"; "TH"; "UH";
   "UW"; "V"; "W"; "Y"; "Z"; "ZH"; "AX"].
Record Pronunciation := mkPronunciation { pn_word : string; pn_phonemes : string }.
#[export] Instance Pronunciation_eq_dec : EqDecision Pronunciation.
Proof. solve_decision. Defined.
Definition MAX_WORD_CHARS : nat := 40.
Definition MAX_PHONEMES : nat := 30.

(** The first entry whose key an earlier one has: a [BTreeSet] of the keys seen. *)
Fixpoint first_repeat {A} (key : A -> string) (seen : list string) (l : list A) : option A :=
  match l with
  | [] => None
  | a :: l => if bool_decide (key a ∈ seen) then Some a else first_repeat key (key a :: seen) l
  end.

Definition ascii_upper (c : Char) : Char := if (97 <=? c) && (c <=? 122) then c - 32 else c.
(** [trim_end_matches(['0', '1', '2'])] *)
Definition is_stress (c : Char) : bool := (48 <=? c) && (c <=? 50).
Fixpoint trim_stress (t : Text) : Text :=
  match t with
  | [] => []
  | c :: t => match trim_stress t with [] => if is_stress c then [] else [c] | t => c :: t end
  end.
Definition phoneme_ok (symbol : Text) : bool :=
  let base := trim_stress symbol in
  (length symbol - length base <=? 1)%nat && bool_decide (utf8 base ∈ PHONEMES).

Section transcript.
Context `{Unicode}.

Definition fix_entry_new (text : string) : result ValueError string :=
  let collapsed := join_words (split_whitespace (chars text)) in
  if (MAX_ENTRY_CHARS <? length collapsed)%nat then Err (Ve_Rule "an entry has at most 120 characters")
  else if negb (any is_alphanumeric collapsed) then Err (Ve_Rule "an entry needs a letter or digit")
  else Ok (utf8 collapsed).
Definition entry_identity (entry : string) : string :=
  utf8 (lowercase (retain is_alphanumeric (chars entry))).
Definition fix_list_new (entries : list string) : result ValueError (list string) :=
  if FIX_LIST_MAX <? N.of_nat (length entries) then
    Err (Ve_TooMany FIX_LIST_MAX (N.of_nat (length entries)))
  else match first_repeat entry_identity [] entries with
       | Some entry => Err (Ve_Duplicate entry)
       | None => Ok entries
       end.
Definition FixList : SettingType (list string) := {|
  from_json j :=
    match j with
    | JArray items =>
        let? entries := read_items (fun item => let? text := string_of item in fix_entry_new text) items in
        fix_list_new entries
    | _ => Err (Ve_WrongType "a list of strings")
    end;
  to_json entries := JArray (JString <$> entries);
  default_value := [];
  eqb := list_eqb String.eqb;
|}.

(** The characters of a word: an apostrophe only inside. *)
Fixpoint word_chars_ok (first : bool) (t : Text) : bool :=
  match t with
  | [] => true
  | c :: t =>
      (is_alphanumeric c || ((c =? APOSTROPHE) && negb first && negb (match t with [] => true | _ => false end))) &&
      word_chars_ok false t
  end.
Definition pronunciation_new (word phonemes : string) : result ValueError Pronunciation :=
  let word := lowercase (chars word) in
  if negb (negb (match word with [] => true | _ => false end) && (length word <=? MAX_WORD_CHARS)%nat && word_chars_ok true word)
  then Err (Ve_Rule "a word is one token of letters and digits (an apostrophe inside is fine), at most 40 characters")
  else
    let symbols := List.map (List.map ascii_upper) (split_whitespace (chars phonemes)) in
    if (length symbols =? 0)%nat || (MAX_PHONEMES <? length symbols)%nat then
      Err (Ve_Rule "a pronunciation has 1 to 30 phonemes")
    else if negb (forallb phoneme_ok symbols) then
      Err (Ve_Rule "phonemes are ARPAbet symbols (AX allowed), each with at most one stress digit")
    else Ok (mkPronunciation (utf8 word) (utf8 (join_words symbols))).
Definition pronunciations_new (entries : list Pronunciation) : result ValueError (list Pronunciation) :=
  if FIX_LIST_MAX <? N.of_nat (length entries) then
    Err (Ve_TooMany FIX_LIST_MAX (N.of_nat (length entries)))
  else match first_repeat pn_word [] entries with
       | Some entry => Err (Ve_Duplicate (pn_word entry))
       | None => Ok entries
       end.
(** The members in order, an error with the word it is under. *)
Fixpoint read_members (entries : JsonObject) : result ValueError (list Pronunciation) :=
  match entries with
  | [] => Ok []
  | (word, phonemes) :: entries =>
      let? p := map_err (Ve_At word) (let? text := string_of phonemes in pronunciation_new word text) in
      let? rest := read_members entries in
      Ok (p :: rest)
  end.
Definition Pronunciations : SettingType (list Pronunciation) := {|
  from_json j :=
    match j with
    | JObject object => let? entries := read_members object in pronunciations_new entries
    | _ => Err (Ve_WrongType "an object {word: phonemes}")
    end;
  to_json entries := JObject (obj_collect ((fun p => (pn_word p, JString (pn_phonemes p))) <$> entries));
  default_value := [];
  eqb a b := bool_decide (a = b);
|}.

(** ** Screen *)
Definition DEFAULT_KIOSK_URL : string := "http://127.0.0.1:2323".
Definition kiosk_url_new (text : string) : result ValueError string :=
  if String.eqb text "" ||
     ((String.prefix "http://" text || String.prefix "https://" text) &&
      (String.length text <=? 2048)%nat && negb (any (fun c => is_whitespace c || is_control c) (chars text)))
  then Ok text else Err (Ve_Rule "must be empty or an http:// or https:// URL").
Definition KioskUrl : SettingType string := {|
  from_json j := let? text := string_of j in kiosk_url_new text;
  to_json := JString;
  default_value := DEFAULT_KIOSK_URL;
  eqb := String.eqb;
|}.
End transcript.

Definition kiosk_password_new (text : string) : result ValueError string :=
  if any_control text then Err (Ve_Rule "must not contain control characters") else Ok text.
Definition KioskPassword : SettingType string := {|
  from_json j := let? text := string_of j in kiosk_password_new text;
  to_json := JString;
  default_value := "";
  eqb := String.eqb;
|}.
Definition KioskPort : SettingType N := bounded_whole 1 65535 2324.
Definition TurnViewLinger : SettingType F64 := bounded_number (f64_of_Z 0) (f64_of_Z 60) (f64_of_Z 6) false.

(** ** Device state *)
Definition StartupVolume : SettingType N := bounded_whole 0 127 85.

(** ** The laws of a setting type *)
(** Every number is one a float holds exactly; what a [JSON.stringify] of settings sends. *)
Fixpoint exact_json (j : Json) : Prop :=
  match j with
  | JNumber n => exact_number n
  | JArray items => foldr (fun item P => exact_json item /\ P) True items
  | JObject entries => foldr (fun '(_, item) P => exact_json item /\ P) True entries
  | _ => True
  end.
Lemma exact_items items : exact_json (JArray items) <-> Forall exact_json items.
Proof. cbn. induction items as [|j items IH]; cbn; [by split|]. rewrite Forall_cons, IH. done. Qed.
Lemma exact_entries entries : exact_json (JObject entries) <-> Forall exact_json entries.*2.
Proof. cbn. induction entries as [|[k j] entries IH]; cbn; [by split|]. rewrite Forall_cons, IH. done. Qed.

(** [valid] is what the constructor admits: the default is valid, what is read is
    valid, and a valid value written reads back as an equal one. *)
Record SettingLaws {T} (t : SettingType T) (valid : T -> Prop) : Prop := {
  law_default : valid (default_value t);
  law_read : forall j v, exact_json j -> from_json t j = Ok v -> valid v;
  law_back : forall v, valid v -> exact_json (to_json t v) /\
               exists w, from_json t (to_json t v) = Ok w /\ eqb t v w = true /\ valid w;
}.
Arguments law_default {T t valid} _.
Arguments law_read {T t valid} _ _ _ _ _.
Arguments law_back {T t valid} _ _ _.

Lemma let_Ok {E A B} (r : result E A) (f : A -> result E B) b :
  (let? a := r in f a) = Ok b <-> exists a, r = Ok a /\ f a = Ok b.
Proof. destruct r; split; [eauto|by intros (? & [= ->] & ?)|done|by intros (? & ? & ?)]. Qed.
Lemma ok_or_Ok {E A} (e : E) (o : option A) a : ok_or e o = Ok a <-> o = Some a.
Proof. destruct o; cbn; split; congruence. Qed.
Lemma map_err_Ok {E F A} (f : E -> F) (r : result E A) a : map_err f r = Ok a <-> r = Ok a.
Proof. destruct r; cbn; split; congruence. Qed.
Lemma string_of_Ok j s : string_of j = Ok s <-> j = JString s.
Proof. destruct j; cbn; split; congruence. Qed.

Lemma boolean_laws : SettingLaws boolean (fun _ => True).
Proof. split; [done|done|]. intros v _. split; [done|]. exists v. split_and!; [done| |done]. by destruct v. Qed.

(** *** Texts *)
(** A setting stored as its text, read by [new]. *)
Definition text_type (new : string -> result ValueError string) (t : SettingType string) : Prop :=
  (forall j, from_json t j = let? text := string_of j in new text) /\ (forall v, to_json t v = JString v) /\
  eqb t = String.eqb.
Lemma text_laws new t :
  text_type new t -> (forall text v, new text = Ok v -> new v = Ok v) -> new (default_value t) = Ok (default_value t) ->
  SettingLaws t (fun v => new v = Ok v).
Proof.
  intros (Hf & Ht & He) Hi Hd. split; [done| |].
  - intros j v _. rewrite Hf, let_Ok. intros (text & _ & Hn). eauto.
  - intros v Hv. rewrite Ht. split; [done|]. exists v. rewrite Hf, He. cbn. rewrite String.eqb_refl. done.
Qed.

Ltac same_text :=
  match goal with
  | |- (if ?b then _ else _) = _ -> _ => destruct b eqn:E; (done || (intros [= <-]; by rewrite E))
  end.

Lemma sha_laws : SettingLaws WakeModelChoice (fun v => sha256_parse v = Some v).
Proof.
  split; [vm_compute; reflexivity| |].
  - intros j v _. cbn. rewrite let_Ok. intros (text & _ & Hv%ok_or_Ok). revert Hv. unfold sha256_parse.
    destruct (_ && _) eqn:E; [|done]. intros [= ->]. by rewrite E.
  - intros v Hv. split; [done|]. exists v. cbn. rewrite Hv, String.eqb_refl. done.
Qed.

Lemma color_laws d : led_color_new d = Ok d -> SettingLaws (led_color d) (fun v => led_color_new v = Ok v).
Proof. intros Hd. eapply text_laws; [done|intros text v; unfold led_color_new; same_text|done]. Qed.
Lemma password_laws : SettingLaws KioskPassword (fun v => kiosk_password_new v = Ok v).
Proof.
  eapply text_laws; [done|intros text v; unfold kiosk_password_new; same_text|done].
Qed.
Lemma kiosk_url_laws `{Unicode} :
  kiosk_url_new DEFAULT_KIOSK_URL = Ok DEFAULT_KIOSK_URL -> SettingLaws KioskUrl (fun v => kiosk_url_new v = Ok v).
Proof. intros Hd. eapply text_laws; [done|intros text v; unfold kiosk_url_new; same_text|done]. Qed.

Lemma sound_laws : SettingLaws SoundType (fun v => sound_new (sound_str v) = Ok v).
Proof.
  split; [done| |].
  - intros j v _. cbn. rewrite let_Ok. intros (text & _ & Hv). unfold sound_new in Hv.
    destruct (String.eqb text "") eqn:E0; [by injection Hv as <-|].
    destruct (_ && _) eqn:E; [|done]. injection Hv as <-. cbn. unfold sound_new. by rewrite E0, E.
  - intros v Hv. split; [done|]. exists v. cbn. rewrite Hv. by rewrite bool_decide_true.
Qed.

Lemma word_laws {A} `{WireLaws A, EqDecision A} (d : A) : SettingLaws (word_choice d) (fun _ => True).
Proof.
  split; [done|done|]. intros v _. split; [done|]. exists v. cbn. rewrite from_wire_as_str. cbn.
  by rewrite bool_decide_true.
Qed.

(** *** Numbers *)
Lemma SFcompare_refl x : f64_is_finite x = true -> f64_eqb x x = true.
Proof.
  destruct x as [s|s| |s m e]; try done; intros _. unfold f64_eqb, SFeqb, SFcompare.
  rewrite Z.compare_refl. change (Pos.compare_cont Eq m m) with (m ?= m)%positive. rewrite Pos.compare_refl. by destruct s.
Qed.

Definition number_valid (min max : F64) (two : bool) (x : F64) : Prop :=
  valid_binary f64_prec f64_emax x = true /\ bounded_number_new min max two x = Ok x.

Lemma in_range_Ok x min max y : in_range x min max = Ok y <-> y = x /\ f64_is_finite x = true /\ f64_leb min x = true /\ f64_leb x max = true.
Proof.
  unfold in_range. destruct (f64_is_finite x); cbn; [|by split; [|intros (_ & ? & _)]].
  destruct (f64_leb min x); cbn; [|by split; [|intros (_ & _ & ? & _)]].
  destruct (f64_leb x max); split; [by intros [= ->]|by intros [-> _]|done|by intros (_ & _ & _ & ?)].
Qed.
Lemma bounded_number_new_Ok min max two x y :
  bounded_number_new min max two x = Ok y ->
  y = x /\ f64_is_finite x = true /\ f64_leb min x = true /\ f64_leb x max = true.
Proof.
  unfold bounded_number_new. rewrite let_Ok. intros (z & (-> & H)%in_range_Ok & Hz).
  destruct two; [|by injection Hz as ->]. revert Hz. unfold two_decimals. destruct (f64_ltb _ _); [|done].
  by intros [= ->].
Qed.

Lemma is_zero_cases x : is_zero x = true -> exists s, x = S754_zero s.
Proof. destruct x as [s| | |s m e]; cbn; [by eexists|by destruct s|done|by destruct s]. Qed.

(** A range admits the two zeros alike. *)
Lemma bounded_number_same min max two x y :
  f64_same x y -> bounded_number_new min max two x = Ok x -> bounded_number_new min max two y = Ok y.
Proof.
  intros [->|[[s ->]%is_zero_cases [s' ->]%is_zero_cases]]; [done|].
  assert (Hl : forall a, f64_leb a (S754_zero s) = f64_leb a (S754_zero s') /\
                         f64_leb (S754_zero s) a = f64_leb (S754_zero s') a) by (by intros [?|[]| |[]]).
  unfold bounded_number_new, in_range. cbn [f64_is_finite andb].
  destruct (Hl min) as [-> _], (Hl max) as [_ ->]. destruct (_ && _); [|done].
  destruct two; [|done]. unfold two_decimals. by destruct s, s'; vm_compute.
Qed.

Lemma number_laws min max d two :
  number_valid min max two d -> SettingLaws (bounded_number min max d two) (number_valid min max two).
Proof.
  intros Hd. split; [done| |].
  - intros j v Hj. cbn. rewrite let_Ok. intros (x & Hx & Hv). apply ok_or_Ok in Hx.
    destruct j as [| |n| | |]; try done. injection Hx as <-. cbn in Hj.
    destruct (bounded_number_new_Ok _ _ _ _ _ Hv) as (-> & _). split; [|done]. by apply exact_number_as_f64.
  - intros v [Hv Hn]. destruct (bounded_number_new_Ok _ _ _ _ _ Hn) as (_ & Hf & _).
    destruct (json_number_reads_back v Hf Hv) as (n & y & Hj & Hy & Hs & Hfy & Hvy & Hex).
    cbn. unfold number_json. rewrite Hj. cbn. split; [done|]. rewrite Hy. exists y.
    pose proof (bounded_number_same _ _ _ _ _ Hs Hn) as Hny. split_and!; [done| |done].
    destruct Hs as [->|[[s ->]%is_zero_cases [s' ->]%is_zero_cases]]; [by apply SFcompare_refl|done].
Qed.

(** Off zero the value itself reads back. *)
Lemma number_back_exactly min max d two v :
  number_valid min max two v -> is_zero v = false ->
  from_json (bounded_number min max d two) (to_json (bounded_number min max d two) v) = Ok v.
Proof.
  intros [Hv Hn] Hz. destruct (bounded_number_new_Ok _ _ _ _ _ Hn) as (_ & Hf & _).
  destruct (json_number_reads_back v Hf Hv) as (n & y & Hj & Hy & Hs & _).
  cbn. unfold number_json. rewrite Hj. cbn. rewrite Hy. destruct Hs as [->|[? _]]; [done|congruence].
Qed.

Lemma whole_laws min max d :
  min <= d <= max -> max < 2 ^ 53 -> SettingLaws (bounded_whole min max d) (fun n => min <= n <= max).
Proof.
  intros Hd Hm. split; [done| |].
  - intros j v _. cbn. rewrite let_Ok. unfold whole. intros (n & Hn & [= <-]). apply let_Ok in Hn as (z & _ & Hz).
    destruct (_ && _)%Z eqn:E; [|done]. injection Hz as ->. apply andb_true_iff in E as [?%Z.leb_le ?%Z.leb_le]. lia.
  - intros v Hv. split; [cbn; lia|]. exists v.
    cbn [from_json to_json bounded_whole]. unfold whole. rewrite json_int_whole by lia. cbn [ok_or].
    rewrite !(proj2 (Z.leb_le _ _)) by lia. cbn. rewrite N2Z.id, N.eqb_refl. done.
Qed.

(** *** Lists read element by element *)
Lemma read_items_from_Ok {A} i (read : Json -> result ValueError A) items l :
  read_items_from i read items = Ok l <-> Forall2 (fun item a => read item = Ok a) items l.
Proof.
  revert i l. induction items as [|item items IH]; intros i l; cbn.
  - split; [by intros [= <-]|by intros ->%Forall2_nil_inv_l].
  - rewrite let_Ok. setoid_rewrite map_err_Ok. setoid_rewrite let_Ok. split.
    + intros (a & Ha & rest & Hr & [= <-]). constructor; [done|by eapply IH].
    + intros (a & rest & Ha & Hr & ->)%Forall2_cons_inv_l. exists a. split; [done|]. exists rest.
      split; [by eapply IH|done].
Qed.
Lemma read_items_Ok {A} (read : Json -> result ValueError A) items l :
  read_items read items = Ok l <-> Forall2 (fun item a => read item = Ok a) items l.
Proof. apply read_items_from_Ok. Qed.
Lemma read_items_map {A} (read : Json -> result ValueError A) (write : A -> Json) l :
  Forall (fun a => read (write a) = Ok a) l -> read_items read (write <$> l) = Ok l.
Proof. intros Hl. apply read_items_Ok. induction Hl; constructor; done. Qed.

(** The error is the first item's that does not read, with its position. *)
Lemma read_items_from_Err {A} i (read : Json -> result ValueError A) items e :
  read_items_from i read items = Err e ->
  exists good bad rest e', items = good ++ bad :: rest /\ Forall (fun j => is_ok (read j) = true) good /\
    read bad = Err e' /\ e = Ve_At (pretty (i + N.of_nat (length good))) e'.
Proof.
  revert i. induction items as [|item items IH]; intros i; [done|]. cbn.
  destruct (read item) as [a|e'] eqn:E; cbn.
  - destruct (read_items_from (i + 1) read items) as [l|e''] eqn:E2; [done|]. intros [= <-].
    destruct (IH _ E2) as (good & bad & rest & e3 & -> & Hg & Hb & ->).
    exists (item :: good), bad, rest, e3. split_and!; [done| |done|].
    + constructor; [by rewrite E|done].
    + do 2 f_equal. cbn. lia.
  - intros [= <-]. exists [], item, items, e'. cbn. rewrite N.add_0_r. done.
Qed.

(** *** Playback *)
Definition band_valid (x : F64) : Prop := valid_binary f64_prec f64_emax x = true /\ in_range x MIN_DB MAX_DB = Ok x.
Lemma bands_new_from_Ok i bands :
  bands_new_from i bands = Ok tt <-> Forall (fun x => in_range x MIN_DB MAX_DB = Ok x) bands.
Proof.
  revert i. induction bands as [|b bands IH]; intros i; cbn; [by split|]. rewrite let_Ok, Forall_cons. split.
  - intros (a & Ha%map_err_Ok & Hr%IH). by pose proof Ha as (-> & _)%in_range_Ok.
  - intros [Ha Hr]. exists b. split; [by apply map_err_Ok|by apply IH].
Qed.

Lemma bands_laws : SettingLaws EqBands (fun bands => length bands = 8%nat /\ Forall band_valid bands).
Proof.
  assert (Hnew : forall bands, bands_new bands = Ok bands <-> Forall (fun x => in_range x MIN_DB MAX_DB = Ok x) bands).
  { intros bands. unfold bands_new. rewrite let_Ok. setoid_rewrite <- (bands_new_from_Ok 0). split.
    - intros ([] & H & _). done.
    - intros H. by exists tt. }
  split.
  - split; [done|]. cbn. repeat constructor; vm_compute; reflexivity.
  - intros j v Hj. cbn. destruct j as [| | | |items|]; try done.
    destruct (Nat.eqb_spec (length items) 8) as [Hl|]; [|done]. cbn [negb]. rewrite let_Ok.
    intros (bands & Hr & Hb). apply read_items_Ok in Hr.
    assert (Hv : v = bands) by (revert Hb; unfold bands_new; rewrite let_Ok; intros (? & _ & [= ->]); done).
    subst v. apply Hnew in Hb. split; [by apply Forall2_length in Hr; lia|].
    apply exact_items in Hj. clear Hl. revert Hj Hb. induction Hr as [|item b items bands Hi Hr IH]; intros Hj Hb; [done|].
    inversion_clear Hj as [|? ? Hj1 Hj2]. inversion_clear Hb as [|? ? Hb1 Hb2].
    constructor; [|by apply IH]. split; [|done]. apply ok_or_Ok in Hi. destruct item; try done. injection Hi as <-.
    by apply exact_number_as_f64.
  - intros v [Hl Hv].
    assert (Hback : forall l, Forall band_valid l -> exists w, Forall2 (fun item a => number item = Ok a) (number_json <$> l) w /\
              Forall band_valid w /\ list_eqb f64_eqb l w = true /\ Forall exact_json (number_json <$> l)).
    { clear. induction 1 as [|x l [Hx Hr] Hl (w & Hw & Hwv & He & Hex)]; [by exists []|].
      pose proof Hr as (_ & Hf & _)%in_range_Ok.
      destruct (json_number_reads_back x Hf Hx) as (n & y & Hj & Hy & Hs & Hfy & Hvy & Hn).
      exists (y :: w). cbn. unfold number_json. rewrite Hj. cbn. split_and!.
      - constructor; [by rewrite <- Hy|done].
      - constructor; [|done]. split; [done|].
        pose proof (bounded_number_same MIN_DB MAX_DB false x y Hs) as Hsame. unfold bounded_number_new in Hsame.
        rewrite Hr in Hsame. specialize (Hsame eq_refl). by apply let_Ok in Hsame as (? & ? & [= ->]).
      - rewrite He, andb_true_r. destruct Hs as [->|[[s ->]%is_zero_cases [s' ->]%is_zero_cases]]; [by apply SFcompare_refl|done].
      - by constructor. }
    destruct (Hback v Hv) as (w & Hw & Hwv & He & Hex).
    assert (Hwl : length w = 8%nat) by (apply Forall2_length in Hw; rewrite length_fmap in Hw; lia).
    cbn [to_json from_json EqBands eqb]. split; [by apply exact_items|]. exists w.
    rewrite length_fmap, Hl. cbn [Nat.eqb negb]. rewrite (proj2 (read_items_Ok _ _ _) Hw). cbn.
    rewrite (proj2 (Hnew w)) by (eapply Forall_impl; [done|by intros ? [_ ?]]). split_and!; done.
Qed.

(** *** Wake rules *)
Definition threshold_valid : F64 -> Prop := number_valid (f64_ratio 30 100) (f64_ratio 99 100) true.
Definition rule_valid (r : WakeRule) : Prop := 1 <= wr_windows r <= 3 /\ threshold_valid (wr_threshold r).
Definition rules_valid (max : N) (rules : list WakeRule) : Prop :=
  N.of_nat (length rules) <= max /\ Forall rule_valid rules /\
  forall i j a b, (i < j)%nat -> rules !! i = Some a -> rules !! j = Some b -> rule_eqb b a = false.

Lemma threshold_laws : SettingLaws RuleThreshold threshold_valid.
Proof. apply number_laws. split; vm_compute; reflexivity. Qed.
Lemma windows_laws : SettingLaws RuleWindows (fun n => 1 <= n <= 3).
Proof. apply whole_laws; lia. Qed.
Lemma threshold_not_zero x : threshold_valid x -> is_zero x = false.
Proof.
  intros [_ Hn]. destruct (is_zero x) eqn:E; [|done]. apply is_zero_cases in E as [s ->].
  destruct s; vm_compute in Hn; discriminate.
Qed.

Lemma repeated_rule_None earlier rules :
  repeated_rule earlier rules = None <->
  forall i j a b, (i < j)%nat -> (length earlier <= j)%nat -> (earlier ++ rules) !! i = Some a ->
    (earlier ++ rules) !! j = Some b -> rule_eqb b a = false.
Proof.
  revert earlier. induction rules as [|r rules IH]; intros earlier; cbn.
  - split; [|done]. intros _ i j a b _ Hj _ Hb. rewrite app_nil_r in Hb. apply lookup_lt_Some in Hb. lia.
  - destruct (any (rule_eqb r) earlier) eqn:E.
    + split; [done|]. intros H. exfalso. apply any_true in E as (a & [i Hi]%list_elem_of_lookup & Ha).
      pose proof (lookup_lt_Some _ _ _ Hi). rewrite (H i (length earlier) a r) in Ha; [done|lia|lia| |].
      * by rewrite lookup_app_l by lia.
      * by apply list_lookup_middle.
    + rewrite IH, <- app_assoc. cbn. rewrite length_app. cbn. split; intros H i j a b Hij Hj Ha Hb.
      * destruct (decide (j = length earlier)) as [->|]; [|by apply (H i j); [lia|lia| |]].
        rewrite list_lookup_middle in Hb by done. injection Hb as <-. rewrite lookup_app_l in Ha by lia.
        destruct (rule_eqb r a) eqn:Er; [|done]. exfalso.
        assert (any (rule_eqb r) earlier = true) by (apply any_true; exists a; split; [by eapply list_elem_of_lookup_2|done]).
        congruence.
      * by apply (H i j); [lia|lia| |].
Qed.

Lemma check_rules_Ok max rules :
  check_rules rules max = Ok tt <->
  N.of_nat (length rules) <= max /\
  forall i j a b, (i < j)%nat -> rules !! i = Some a -> rules !! j = Some b -> rule_eqb b a = false.
Proof.
  unfold check_rules. destruct (N.ltb_spec max (N.of_nat (length rules))); [split; [done|lia]|].
  pose proof (repeated_rule_None [] rules) as Hr. cbn in Hr.
  destruct (repeated_rule [] rules) as [r|] eqn:E.
  - split; [done|]. intros [_ H2]. exfalso. assert (Some r = None); [|done]. apply Hr. intros. by eapply H2.
  - split; [|done]. intros _. split; [done|]. intros i j a b Hij Ha Hb. apply (proj1 Hr eq_refl i j); [done|lia|done|done].
Qed.

Lemma wake_rule_json r : wake_rule_to_json r = JObject
  [("profile", JString (as_str (wr_profile r))); ("windows", to_json RuleWindows (wr_windows r));
   ("combine", JString (as_str (wr_combine r))); ("threshold", to_json RuleThreshold (wr_threshold r))]%string.
Proof. reflexivity. Qed.

Lemma wake_rule_back r : rule_valid r -> wake_rule_from_json (wake_rule_to_json r) = Ok r.
Proof.
  intros [Hw Ht]. rewrite wake_rule_json. unfold wake_rule_from_json.
  set (w := to_json RuleWindows (wr_windows r)). set (t := to_json RuleThreshold (wr_threshold r)).
  assert (Hwin : from_json RuleWindows w = Ok (wr_windows r)).
  { destruct (law_back windows_laws _ Hw) as (_ & n & Hn & He & _). unfold w. rewrite Hn. f_equal. by apply N.eqb_eq in He. }
  assert (Hthr : from_json RuleThreshold t = Ok (wr_threshold r))
    by (apply number_back_exactly; [exact Ht|by apply threshold_not_zero]).
  clearbody w t.
  change (reject_unknown_fields _ _) with (@Ok ValueError unit tt).
  change (field _ "profile") with (@Ok ValueError Json (JString (as_str (wr_profile r)))).
  change (field _ "windows") with (@Ok ValueError Json w).
  change (field _ "combine") with (@Ok ValueError Json (JString (as_str (wr_combine r)))).
  change (field _ "threshold") with (@Ok ValueError Json t).
  cbn [string_of map_err]. rewrite !from_wire_as_str. cbn [ok_or]. rewrite Hwin. cbn [map_err]. rewrite Hthr. by destruct r.
Qed.

Lemma wake_rule_read j r : exact_json j -> wake_rule_from_json j = Ok r -> rule_valid r.
Proof.
  intros Hj. destruct j as [| | | | |object]; try done. cbn -[reject_unknown_fields field RuleWindows RuleThreshold].
  apply exact_entries in Hj.
  assert (Hf : forall name v, field object name = Ok v -> exact_json v).
  { intros name v Hv%ok_or_Ok. clear -Hj Hv. induction object as [|[k w] object IH]; cbn in Hv; [done|].
    inversion_clear Hj. destruct (String.eqb k name); [by simplify_eq|by apply IH]. }
  rewrite let_Ok. intros (_ & _ & H). apply let_Ok in H as (p & _ & H). apply let_Ok in H as (pw & _ & H).
  apply let_Ok in H as (p' & _ & H). apply let_Ok in H as (w & Hw & H). apply let_Ok in H as (w' & Hw' & H).
  apply let_Ok in H as (c & _ & H). apply let_Ok in H as (cw & _ & H). apply let_Ok in H as (c' & _ & H).
  apply let_Ok in H as (t & Ht & H). apply let_Ok in H as (t' & Ht' & H). injection H as <-.
  apply map_err_Ok in Hw', Ht'. split; cbn.
  - exact (law_read windows_laws _ _ (Hf _ _ Hw) Hw').
  - exact (law_read threshold_laws _ _ (Hf _ _ Ht) Ht').
Qed.

Lemma rule_eqb_refl r : rule_valid r -> rule_eqb r r = true.
Proof.
  intros [_ [_ Ht]]. unfold rule_eqb. rewrite !bool_decide_true, N.eqb_refl by done. cbn.
  apply SFcompare_refl. by apply bounded_number_new_Ok in Ht as (_ & ? & _).
Qed.

Lemma rules_laws max d : rules_valid max d -> SettingLaws (rule_list max d) (rules_valid max).
Proof.
  intros Hd. split; [done| |].
  - intros j v Hj. cbn. destruct j as [| | | |items|]; try done. cbn. rewrite let_Ok. intros (rules & Hr & H).
    apply let_Ok in H as ([] & Hc & [= <-]). apply check_rules_Ok in Hc as [Hl Hu]. split_and!; [done| |done].
    apply read_items_Ok in Hr. apply exact_items in Hj. clear Hl Hu Hd.
    induction Hr as [|item r items rules Hi Hr IH]; [constructor|]. inversion_clear Hj.
    constructor; [by eapply wake_rule_read|by apply IH].
  - intros v (Hl & Hv & Hu). cbn [from_json to_json rule_list eqb]. split.
    + apply exact_items, Forall_fmap. eapply Forall_impl; [exact Hv|]. intros r [Hw Ht]. cbn [compose].
      unfold compose. rewrite wake_rule_json. apply exact_entries. cbn [fmap list_fmap snd].
      pose proof (proj1 (law_back windows_laws _ Hw)). pose proof (proj1 (law_back threshold_laws _ Ht)).
      repeat (apply Forall_cons; split; [done|]). by constructor.
    + exists v. unfold rules_from_json. rewrite read_items_map by (eapply Forall_impl; [exact Hv|apply wake_rule_back]).
      cbn. rewrite (proj2 (check_rules_Ok max v)) by done. split_and!; [done| |done].
      clear Hl Hu. induction Hv as [|r v Hr Hv IH]; cbn; [done|]. by rewrite rule_eqb_refl.
Qed.

Lemma default_shadow_rules_valid : rules_valid 8 default_shadow_rules.
Proof.
  assert (Hc : check_rules default_shadow_rules 8 = Ok tt) by (vm_compute; reflexivity).
  apply check_rules_Ok in Hc as [Hl Hu]. split_and!; [done| |done].
  repeat constructor; cbn; (lia || (vm_compute; reflexivity)).
Qed.

(** *** Pause transcription *)
Definition pause_valid (p : PauseAsrChoice) : Prop :=
  pa_port p <= 65535 /\ pause_asr_new (pa_engine p) (pa_host p) (pa_port p) (pa_model p) (pa_language p) = Ok p.

Lemma pause_asr_new_Ok engine host port model language p :
  pause_asr_new engine host port model language = Ok p ->
  p = mkPauseAsr engine host port model language /\ 1 <= port.
Proof.
  unfold pause_asr_new. destruct (N.eqb_spec port 0); [done|].
  repeat match goal with |- (if ?b then _ else _) = _ -> _ => destruct b; [done|] end.
  intros [= <-]. split; [done|lia].
Qed.

Lemma pause_laws : SettingLaws PauseAsr pause_valid.
Proof.
  split.
  - split; [cbn; lia|vm_compute; reflexivity].
  - intros j v _. cbn [from_json PauseAsr]. destruct j as [| | | | |object]; try done.
    unfold pause_asr_from_json. rewrite let_Ok. intros (_ & _ & H).
    apply let_Ok in H as (e & _ & H). apply let_Ok in H as (e' & _ & H).
    apply let_Ok in H as (p & _ & H). apply let_Ok in H as (p' & Hp%map_err_Ok & H).
    apply let_Ok in H as (h & _ & H). apply let_Ok in H as (m & _ & H). apply let_Ok in H as (l & _ & H).
    pose proof H as [-> _]%pause_asr_new_Ok. split; [|exact H]. cbn.
    unfold whole in Hp. apply let_Ok in Hp as (n & _ & Hn). destruct (_ && _)%Z eqn:E; [|done]. injection Hn as ->.
    apply andb_true_iff in E as [_ ?%Z.leb_le]. lia.
  - intros v [Hp Hv]. pose proof (pause_asr_new_Ok _ _ _ _ _ _ Hv) as [_ Hp1].
    destruct v as [engine host port model language]. cbn [pa_engine pa_host pa_port pa_model pa_language] in *.
    cbn [from_json to_json PauseAsr eqb]. unfold pause_asr_to_json. cbn [pa_engine pa_host pa_port pa_model pa_language].
    set (e := to_json PauseAsrEngineType engine).
    assert (He : from_json PauseAsrEngineType e = Ok engine /\ exact_json e).
    { destruct (law_back (word_laws Pe_Kroko) engine I) as (Hx & w & Hw & Heq & _). split; [|done].
      unfold e, PauseAsrEngineType. rewrite Hw. cbn in Heq. by apply bool_decide_eq_true in Heq as ->. }
    clearbody e. destruct He as [He Hex]. split.
    + apply exact_entries. cbn. repeat (apply Forall_cons; split; [first [done|cbn; lia]|]). constructor.
    + exists (mkPauseAsr engine host port model language). split_and!; [|by apply bool_decide_eq_true|done].
      set (o := obj_insert _ _ _). unfold pause_asr_from_json. subst o.
      change (reject_unknown_fields _ _) with (@Ok ValueError unit tt).
      change (field _ "engine") with (@Ok ValueError Json e).
      change (field _ "port") with (@Ok ValueError Json (json_int (Z.of_N port))).
      change (text_field _ "host") with (@Ok ValueError string host).
      change (text_field _ "model") with (@Ok ValueError string model).
      change (text_field _ "language") with (@Ok ValueError string language).
      cbn [map_err]. rewrite He. cbn [map_err]. unfold whole. rewrite json_int_whole by lia. cbn [ok_or].
      rewrite !(proj2 (Z.leb_le _ _)) by lia. cbn [andb map_err]. by rewrite N2Z.id.
Qed.

(** *** Words *)
(** What the settings take of the Unicode tables. *)
Class UnicodeLaws (U : Unicode) : Prop := {
  space_is_whitespace : is_whitespace SPACE = true;
  graphic_not_space : forall c, 33 <= c <= 126 -> is_whitespace c = false;
  lower_scalar : forall c, scalar c = true -> forallb scalar (char_lower c) = true;
  lower_stable : forall c d, d ∈ char_lower c -> char_lower d = [d];
}.

#[export] Instance ascii_unicode_laws : UnicodeLaws ascii.
Proof.
  split.
  - done.
  - intros c Hc. cbn. rewrite orb_false_iff, andb_false_iff, N.eqb_neq, !N.leb_gt. lia.
  - intros c Hc. change (char_lower c) with [ascii_lower c]. cbn [forallb]. rewrite andb_true_r. unfold ascii_lower.
    destruct (_ && _) eqn:E; [|exact Hc].
    apply andb_true_iff in E as [_ ?%N.leb_le]. unfold scalar. by rewrite (proj2 (N.ltb_lt _ _)) by lia.
  - intros c d. cbn. rewrite list_elem_of_singleton. intros ->. unfold ascii_lower.
    destruct ((65 <=? c) && (c <=? 90)) eqn:E; [|by rewrite E].
    apply andb_true_iff in E as [?%N.leb_le ?%N.leb_le].
    rewrite (proj2 (N.leb_gt (c + 32) 90)) by lia. by rewrite andb_false_r.
Qed.

Section words.
Context {U : Unicode} {UL : UnicodeLaws U}.

Definition solid (w : Text) : Prop := w <> [] /\ Forall (fun c => is_whitespace c = false) w.

Lemma split_whitespace_solid word t :
  Forall (fun c => is_whitespace c = false) word -> Forall solid (split_whitespace_from word t).
Proof.
  revert word. induction t as [|c t IH]; intros word Hw; cbn.
  - destruct word; [constructor|]. by constructor.
  - destruct (is_whitespace c) eqn:E; [|apply IH, Forall_app; split; [done|by constructor]].
    destruct word; [by apply IH|]. constructor; [by split|by apply IH].
Qed.

Lemma split_from_word word w t :
  Forall (fun c => is_whitespace c = false) w -> split_whitespace_from word (w ++ t) = split_whitespace_from (word ++ w) t.
Proof.
  revert word. induction w as [|c w IH]; intros word Hw; [by rewrite app_nil_r|].
  inversion_clear Hw as [|? ? Hc Hw']. cbn. rewrite Hc, IH by done. by rewrite <- app_assoc.
Qed.

Lemma split_join words : Forall solid words -> split_whitespace (join_words words) = words.
Proof.
  unfold split_whitespace. induction words as [|w words IH]; [done|]. intros [[Hne Hw] Hws]%Forall_cons.
  destruct words as [|w' words].
  - cbn. rewrite <- (app_nil_r w) at 1. rewrite split_from_word by done. cbn. by destruct w.
  - change (join_words (w :: w' :: words)) with (w ++ SPACE :: join_words (w' :: words)).
    rewrite split_from_word by done. cbn [app split_whitespace_from].
    rewrite space_is_whitespace. destruct w; [done|]. by rewrite (IH Hws).
Qed.

Lemma forallb_app_scalar (a b : Text) : forallb scalar (a ++ b) = forallb scalar a && forallb scalar b.
Proof. apply forallb_app. Qed.

Lemma split_scalar word t :
  forallb scalar word = true -> forallb scalar t = true ->
  Forall (fun w => forallb scalar w = true) (split_whitespace_from word t).
Proof.
  revert word. induction t as [|c t IH]; intros word Hw; cbn.
  - intros _. destruct word; by constructor.
  - intros [Hc Ht]%andb_true_iff. destruct (is_whitespace c).
    + destruct word; [by apply IH|]. constructor; [done|by apply IH].
    + apply IH; [|done]. rewrite forallb_app_scalar, Hw. cbn. by rewrite Hc.
Qed.

Lemma join_scalar words :
  Forall (fun w => forallb scalar w = true) words -> forallb scalar (join_words words) = true.
Proof.
  induction 1 as [|w words Hw Hws IH]; [done|]. destruct words as [|w' words]; [done|].
  change (join_words (w :: w' :: words)) with (w ++ SPACE :: join_words (w' :: words)).
  rewrite forallb_app_scalar, Hw. cbn [forallb]. by rewrite IH.
Qed.

(** Collapsing the white space of a collapsed text changes nothing. *)
Lemma fix_entry_stable text e : fix_entry_new text = Ok e -> fix_entry_new e = Ok e.
Proof.
  unfold fix_entry_new. set (c := join_words (split_whitespace (chars text))).
  assert (Hc : chars (utf8 c) = c).
  { apply chars_utf8, join_scalar, split_scalar; [done|apply chars_scalar]. }
  assert (Hj : join_words (split_whitespace c) = c).
  { unfold c. rewrite split_join; [done|]. by apply split_whitespace_solid. }
  destruct (MAX_ENTRY_CHARS <? length c)%nat eqn:E1; [done|]. destruct (negb (any is_alphanumeric c)) eqn:E2; [done|].
  intros [= <-]. by rewrite Hc, Hj, E1, E2.
Qed.

Lemma first_repeat_None {A} (key : A -> string) seen l :
  first_repeat key seen l = None <-> NoDup (key <$> l) /\ forall a, a ∈ l -> key a ∉ seen.
Proof.
  revert seen. induction l as [|a l IH]; intros seen; cbn.
  - split; [|done]. intros _. split; [constructor|]. by intros a ?%elem_of_nil.
  - rewrite NoDup_cons. case_bool_decide as Hin.
    + split; [done|]. intros [_ H]. exfalso. apply (H a); [by left|done].
    + rewrite IH. split.
      * intros [Hn Hs]. split_and!; [|done|].
        -- intros (b & E & Hb)%list_elem_of_fmap. apply (Hs b Hb). rewrite <- E. by left.
        -- intros b [->|Hb]%elem_of_cons; [done|]. intros Hx. apply (Hs b Hb). by right.
      * intros [[Hk Hn] Hs]. split; [done|]. intros b Hb [E|Hx]%elem_of_cons.
        -- apply Hk, list_elem_of_fmap. by exists b.
        -- apply (Hs b); [by right|done].
Qed.

Definition fix_valid (entries : list string) : Prop :=
  N.of_nat (length entries) <= FIX_LIST_MAX /\ Forall (fun e => fix_entry_new e = Ok e) entries /\
  NoDup (entry_identity <$> entries).

Lemma fix_list_new_Ok entries l :
  fix_list_new entries = Ok l <->
  l = entries /\ N.of_nat (length entries) <= FIX_LIST_MAX /\ NoDup (entry_identity <$> entries).
Proof.
  unfold fix_list_new. destruct (N.ltb_spec FIX_LIST_MAX (N.of_nat (length entries))); [split; [done|lia]|].
  pose proof (first_repeat_None entry_identity [] entries) as Hr.
  destruct (first_repeat _ _ _) eqn:E.
  - split; [done|]. intros (_ & _ & Hn). exfalso. assert (Some s = None); [|done]. apply Hr. split; [done|].
    by intros ? ? ?%elem_of_nil.
  - destruct (proj1 Hr eq_refl) as [Hn _]. split; [by intros [= <-]|]. by intros (-> & _ & _).
Qed.

Lemma fix_list_laws : SettingLaws FixList fix_valid.
Proof.
  split.
  - split_and!; [cbn; lia|constructor|constructor].
  - intros j v _. cbn. destruct j as [| | | |items|]; try done. rewrite let_Ok.
    intros (entries & Hr & (-> & Hl & Hn)%fix_list_new_Ok). split_and!; [done| |done].
    apply read_items_Ok in Hr. clear Hl Hn. induction Hr as [|item e items entries Hi Hr IH]; constructor; [|done].
    apply let_Ok in Hi as (text & _ & Hi). by eapply fix_entry_stable.
  - intros v (Hl & Hv & Hn). cbn. split.
    + apply exact_items, Forall_fmap. by apply Forall_true.
    + exists v. rewrite read_items_map by (eapply Forall_impl; [exact Hv|intros e He; exact He]).
      rewrite (proj2 (fix_list_new_Ok v v)) by done. split_and!; [done| |done].
      clear. induction v as [|e v IH]; cbn; [done|]. by rewrite String.eqb_refl.
Qed.
End words.

(** *** Pronunciations *)
Section pronunciations.
Context {U : Unicode} {UL : UnicodeLaws U}.

Lemma lowercase_stable t : lowercase (lowercase t) = lowercase t.
Proof.
  unfold lowercase. assert (H : forall s, (forall d, d ∈ s -> char_lower d = [d]) -> s ≫= char_lower = s).
  { induction s as [|d s IH]; intros Hs; [done|]. cbn. rewrite (Hs d) by by left. cbn. f_equal.
    apply IH. intros x Hx. apply Hs. by right. }
  apply H. intros d (c & Hd & _)%list_elem_of_bind. by eapply lower_stable.
Qed.

Lemma lowercase_scalar t : forallb scalar t = true -> forallb scalar (lowercase t) = true.
Proof.
  unfold lowercase. induction t as [|c t IH]; [done|]. cbn [forallb]. intros [Hc Ht]%andb_true_iff.
  change ((c :: t) ≫= char_lower) with (char_lower c ++ (t ≫= char_lower)).
  rewrite forallb_app, lower_scalar by done. by rewrite IH.
Qed.

Lemma trim_stress_app t : exists rest, t = trim_stress t ++ rest /\ Forall (fun c => is_stress c = true) rest.
Proof.
  induction t as [|c t (rest & Ht & Hr)]; cbn; [by exists []|].
  destruct (trim_stress t) as [|d base] eqn:E.
  - destruct (is_stress c) eqn:Ec.
    + exists (c :: t). split; [done|]. constructor; [done|]. by rewrite Ht.
    + exists t. split; [done|]. by rewrite Ht.
  - exists rest. split; [|done]. cbn in *. by rewrite Ht at 1.
Qed.

(** The characters of an accepted phoneme: upper-case letters and digits. *)
Definition phoneme_char (c : Char) : bool := ((65 <=? c) && (c <=? 90)) || Transcript.ascii_digit c.
Lemma phoneme_chars symbol :
  forallb scalar symbol = true -> phoneme_ok symbol = true -> forallb phoneme_char symbol = true /\ symbol <> [].
Proof.
  intros Hs [_ Hin%bool_decide_eq_true]%andb_true_iff. destruct (trim_stress_app symbol) as (rest & Hsym & Hr).
  set (base := trim_stress symbol) in *.
  assert (Hb : forallb scalar base = true) by (rewrite Hsym, forallb_app in Hs; by apply andb_true_iff in Hs as [? _]).
  assert (Hall : forallb (fun p => forallb phoneme_char (chars p) && negb (length (chars p) =? 0)%nat) PHONEMES = true)
    by (vm_compute; reflexivity).
  rewrite forallb_forall in Hall. apply list_elem_of_In in Hin. apply Hall in Hin.
  rewrite (chars_utf8 base Hb) in Hin. apply andb_true_iff in Hin as [Hc Hl]. rewrite Hsym. split.
  - rewrite forallb_app, Hc. cbn. apply forallb_forall. intros c Hin%list_elem_of_In.
    rewrite Forall_forall in Hr. specialize (Hr c Hin). unfold is_stress in Hr. unfold phoneme_char, Transcript.ascii_digit.
    apply andb_true_iff in Hr as [?%N.leb_le ?%N.leb_le]. apply orb_true_iff. right.
    by rewrite !(proj2 (N.leb_le _ _)) by lia.
  - by destruct base.
Qed.

Lemma phoneme_char_upper c : phoneme_char c = true -> ascii_upper c = c /\ is_whitespace c = false.
Proof.
  intros Hc. split.
  - unfold phoneme_char, Transcript.ascii_digit in Hc. unfold ascii_upper.
    rewrite orb_true_iff, !andb_true_iff, !N.leb_le in Hc.
    destruct (N.leb_spec 97 c); cbn; [|done]. destruct (N.leb_spec c 122); [lia|done].
  - apply graphic_not_space. unfold phoneme_char, Transcript.ascii_digit in Hc.
    rewrite orb_true_iff, !andb_true_iff, !N.leb_le in Hc. lia.
Qed.

Lemma upper_scalar c : scalar c = true -> scalar (ascii_upper c) = true.
Proof.
  unfold ascii_upper. destruct (_ && _) eqn:E; [|done]. intros _. apply andb_true_iff in E as [_ ?%N.leb_le].
  unfold scalar. by rewrite (proj2 (N.ltb_lt _ _)) by lia.
Qed.

Lemma pronunciation_stable word phonemes p :
  pronunciation_new word phonemes = Ok p -> pronunciation_new (pn_word p) (pn_phonemes p) = Ok p.
Proof.
  unfold pronunciation_new. set (w := lowercase (chars word)).
  set (symbols := List.map (List.map ascii_upper) (split_whitespace (chars phonemes))).
  destruct (negb (_ && _ && _)) eqn:E1; [done|]. destruct (_ || _) eqn:E2; [done|].
  destruct (negb (forallb phoneme_ok symbols)) eqn:E3; [done|]. intros [= <-]. cbn [pn_word pn_phonemes].
  assert (Hw : chars (utf8 w) = w) by apply chars_utf8, lowercase_scalar, chars_scalar.
  assert (Hw2 : lowercase w = w) by apply lowercase_stable.
  assert (Hscal : Forall (fun s => forallb scalar s = true) symbols).
  { pose proof (split_scalar [] (chars phonemes) eq_refl (chars_scalar phonemes)) as Hs.
    unfold symbols. apply Forall_fmap. eapply Forall_impl; [exact Hs|]. intros s Hs'. unfold compose.
    apply forallb_forall. intros c (d & <- & Hd)%in_map_iff. rewrite forallb_forall in Hs'. by apply upper_scalar, Hs'. }
  apply negb_false_iff in E3. rewrite forallb_forall in E3.
  assert (Hok : forall s, s ∈ symbols -> forallb phoneme_char s = true /\ s <> []).
  { intros s Hs. apply phoneme_chars; [by rewrite Forall_forall in Hscal; apply Hscal|by apply E3, list_elem_of_In]. }
  assert (Hsplit : List.map (List.map ascii_upper) (split_whitespace (chars (utf8 (join_words symbols)))) = symbols).
  { rewrite chars_utf8 by by apply join_scalar. rewrite split_join.
    - clear -Hok UL. induction symbols as [|s symbols IH]; [done|]. cbn. f_equal; [|apply IH; intros; apply Hok; by right].
      destruct (Hok s) as [Hs _]; [by left|]. clear -Hs UL. induction s as [|c s IH]; [done|]. cbn in *.
      apply andb_true_iff in Hs as [Hc Hs]. destruct (phoneme_char_upper c Hc) as [-> _]. by rewrite IH.
    - apply Forall_forall. intros s Hs. destruct (Hok s Hs) as [Hc Hne]. split; [done|]. apply Forall_forall. intros c Hin.
      rewrite forallb_forall in Hc. apply phoneme_char_upper, Hc. by apply list_elem_of_In. }
  rewrite Hw, Hw2, E1, Hsplit, E2. assert (E3' : forallb phoneme_ok symbols = true) by by apply forallb_forall. by rewrite E3'.
Qed.

Definition pronunciations_valid (entries : list Pronunciation) : Prop :=
  N.of_nat (length entries) <= FIX_LIST_MAX /\
  Forall (fun p => pronunciation_new (pn_word p) (pn_phonemes p) = Ok p) entries /\ NoDup (pn_word <$> entries).

Lemma pronunciations_new_Ok entries l :
  pronunciations_new entries = Ok l <->
  l = entries /\ N.of_nat (length entries) <= FIX_LIST_MAX /\ NoDup (pn_word <$> entries).
Proof.
  unfold pronunciations_new. destruct (N.ltb_spec FIX_LIST_MAX (N.of_nat (length entries))); [split; [done|lia]|].
  pose proof (first_repeat_None pn_word [] entries) as Hr.
  destruct (first_repeat _ _ _) eqn:E.
  - split; [done|]. intros (_ & _ & Hn). exfalso. assert (Some p = None); [|done]. apply Hr. split; [done|].
    by intros ? ? ?%elem_of_nil.
  - destruct (proj1 Hr eq_refl) as [Hn _]. split; [by intros [= <-]|]. by intros (-> & _ & _).
Qed.

Lemma read_members_Ok entries l :
  read_members entries = Ok l <->
  Forall2 (fun '(word, j) p => exists text, j = JString text /\ pronunciation_new word text = Ok p) entries l.
Proof.
  revert l. induction entries as [|[word j] entries IH]; intros l; cbn.
  - split; [by intros [= <-]|by intros ->%Forall2_nil_inv_l].
  - rewrite let_Ok. split.
    + intros (p & Hp%map_err_Ok & H). apply let_Ok in H as (rest & Hr%IH & [= <-]).
      apply let_Ok in Hp as (text & ->%string_of_Ok & Hp). constructor; [by exists text|done].
    + intros (p & rest & (text & -> & Hp) & Hr & ->)%Forall2_cons_inv_l. exists p. split.
      * apply map_err_Ok. cbn. done.
      * apply IH in Hr. by rewrite Hr.
Qed.

Lemma pronunciations_laws : SettingLaws Pronunciations pronunciations_valid.
Proof.
  split.
  - split_and!; [cbn; lia|constructor|constructor].
  - intros j v _. cbn. destruct j as [| | | | |object]; try done. rewrite let_Ok.
    intros (entries & Hr & (-> & Hl & Hn)%pronunciations_new_Ok). split_and!; [done| |done].
    apply read_members_Ok in Hr. clear Hl Hn.
    induction Hr as [|[word item] p items entries (text & _ & Hi) Hr IH]; constructor; [|done].
    by eapply pronunciation_stable.
  - intros v (Hl & Hv & Hn). cbn [from_json to_json Pronunciations eqb].
    rewrite obj_collect_id by (rewrite <- list_fmap_compose; exact Hn). split.
    + apply exact_entries. rewrite <- list_fmap_compose. apply Forall_fmap. by apply Forall_true.
    + exists v. assert (Hr : read_members ((fun p => (pn_word p, JString (pn_phonemes p))) <$> v) = Ok v).
      { apply read_members_Ok. clear Hl Hn. induction Hv; constructor; [by eexists|done]. }
      rewrite Hr. cbn. rewrite (proj2 (pronunciations_new_Ok v v)) by done. split_and!; [done|by apply bool_decide_eq_true|done].
Qed.
End pronunciations.

Lemma default_url_ok {U : Unicode} {UL : UnicodeLaws U} : kiosk_url_new DEFAULT_KIOSK_URL = Ok DEFAULT_KIOSK_URL.
Proof.
  unfold kiosk_url_new.
  assert (Hg : any (fun c => is_whitespace c || is_control c) (chars DEFAULT_KIOSK_URL) = false).
  { apply any_false. intros c Hc.
    assert (Hall : forallb (fun c => (33 <=? c) && (c <=? 126)) (chars DEFAULT_KIOSK_URL) = true) by (vm_compute; reflexivity).
    rewrite forallb_forall in Hall. specialize (Hall c). rewrite <- list_elem_of_In in Hall. specialize (Hall Hc).
    apply andb_true_iff in Hall as [H1%N.leb_le H2%N.leb_le]. rewrite graphic_not_space by lia.
    unfold is_control. by rewrite (proj2 (N.ltb_ge _ _)), (proj2 (N.leb_gt _ _)) by lia. }
  rewrite Hg. reflexivity.
Qed.
