(* ===== verification/Settings.v ===== *)
(** * The settings ([settings/src/settings.rs])

    The sections, the keys with their sections and types, the typed settings of
    a device, and reading and writing one by its key.  The macro
    [settings_table!] makes one definition from the table of keys; here each is
    written out. *)
From Stdlib Require Import Floats.SpecFloat.
From S2P Require Import Prelude Bytes WireEnum Float Ema Vocab Json Policy Clock Evidence Level Transcript Document Values.

Inductive Section_ :=
  | Se_Playback
  | Se_Wakeword
  | Se_Microphones
  | Se_Ring
  | Se_Advanced
  | Se_Bluetooth
  | Se_Timers
  | Se_Transcript
  | Se_Screen.
#[export] Instance Section_eq_dec : EqDecision Section_.
Proof. solve_decision. Defined.
#[export] Instance Section_wire : WireEnum Section_ := {
  as_str v := match v with
    | Se_Playback => "playback"
    | Se_Wakeword => "wakeword"
    | Se_Microphones => "microphones"
    | Se_Ring => "ring"
    | Se_Advanced => "advanced"
    | Se_Bluetooth => "bluetooth"
    | Se_Timers => "timers"
    | Se_Transcript => "transcript"
    | Se_Screen => "screen"
    end%string;
  ALL := [Se_Playback; Se_Wakeword; Se_Microphones; Se_Ring; Se_Advanced; Se_Bluetooth; Se_Timers; Se_Transcript; Se_Screen];
}.
#[export] Instance Section_laws : WireLaws Section_.
Proof. solve_wire_laws. Qed.
Abbreviation SectionSet := (gset Section_).

Inductive Scope :=
  | Sc_Section (s : Section_)
  | Sc_State.

Definition REMOVED_KEYS : list string :=
  ["owwModel"; "owwThreshold"; "bargeInThreshold"; "owwOnDevice"; "owwSpeexNs"; "bargeInEnabled";
   "endpointRelative"; "endpointLowPerMil"; "endpointSilenceMs"; "endpointBackporchMs"; "maxSpeechMs";
   "vadThreshold"; "vadSpeechMs"; "vadSilenceMs"; "timerRingBurstSeconds"; "replyOnset"].

Inductive SettingKey :=
  | Sk_EqBands
  | Sk_EqLoudness
  | Sk_DuckDb
  | Sk_WakeModel
  | Sk_NearMissThreshold
  | Sk_SaveWakeClips
  | Sk_WakeArbitrationMs
  | Sk_WakeSound
  | Sk_WakeOpenRules
  | Sk_WakeShadowRules
  | Sk_NsAsr
  | Sk_SaveUtterances
  | Sk_ExtendedUtterances
  | Sk_PauseAsr
  | Sk_LedScene
  | Sk_LedListenColor
  | Sk_LedThinkColor
  | Sk_MeterAttack
  | Sk_MeterDecay
  | Sk_MeterFloor
  | Sk_MeterGamma
  | Sk_MeterRef
  | Sk_MeterCurve
  | Sk_ButtonSingleTapEvent
  | Sk_ButtonMultiTapMs
  | Sk_BleProxyEnabled
  | Sk_TimerSound
  | Sk_TimerRingSeconds
  | Sk_TimerRingGapSeconds
  | Sk_AlarmSound
  | Sk_TranscriptFix
  | Sk_TranscriptFixTerms
  | Sk_TranscriptFixPhrases
  | Sk_TranscriptFixPronunciations
  | Sk_ScreenWake
  | Sk_ScreenWakeUrl
  | Sk_ScreenWakePassword
  | Sk_KioskPort
  | Sk_TurnViewLinger
  | Sk_StartupVolume.
#[export] Instance SettingKey_eq_dec : EqDecision SettingKey.
Proof. solve_decision. Defined.
#[export] Instance SettingKey_wire : WireEnum SettingKey := {
  as_str v := match v with
    | Sk_EqBands => "eqBands"
    | Sk_EqLoudness => "eqLoudness"
    | Sk_DuckDb => "duckDb"
    | Sk_WakeModel => "wakeModel"
    | Sk_NearMissThreshold => "nearMissThreshold"
    | Sk_SaveWakeClips => "saveWakeClips"
    | Sk_WakeArbitrationMs => "wakeArbitrationMs"
    | Sk_WakeSound => "wakeSound"
    | Sk_WakeOpenRules => "wakeOpenRules"
    | Sk_WakeShadowRules => "wakeShadowRules"
    | Sk_NsAsr => "nsAsr"
    | Sk_SaveUtterances => "saveUtterances"
    | Sk_ExtendedUtterances => "extendedUtterances"
    | Sk_PauseAsr => "pauseAsr"
    | Sk_LedScene => "ledScene"
    | Sk_LedListenColor => "ledListenColor"
    | Sk_LedThinkColor => "ledThinkColor"
    | Sk_MeterAttack => "meterAttack"
    | Sk_MeterDecay => "meterDecay"
    | Sk_MeterFloor => "meterFloor"
    | Sk_MeterGamma => "meterGamma"
    | Sk_MeterRef => "meterRef"
    | Sk_MeterCurve => "meterCurve"
    | Sk_ButtonSingleTapEvent => "buttonSingleTapEvent"
    | Sk_ButtonMultiTapMs => "buttonMultiTapMs"
    | Sk_BleProxyEnabled => "bleProxyEnabled"
    | Sk_TimerSound => "timerSound"
    | Sk_TimerRingSeconds => "timerRingSeconds"
    | Sk_TimerRingGapSeconds => "timerRingGapSeconds"
    | Sk_AlarmSound => "alarmSound"
    | Sk_TranscriptFix => "transcriptFix"
    | Sk_TranscriptFixTerms => "transcriptFixTerms"
    | Sk_TranscriptFixPhrases => "transcriptFixPhrases"
    | Sk_TranscriptFixPronunciations => "transcriptFixPronunciations"
    | Sk_ScreenWake => "screenWake"
    | Sk_ScreenWakeUrl => "screenWakeUrl"
    | Sk_ScreenWakePassword => "screenWakePassword"
    | Sk_KioskPort => "kioskPort"
    | Sk_TurnViewLinger => "turnViewLinger"
    | Sk_StartupVolume => "startupVolume"
    end%string;
  ALL := [Sk_EqBands; Sk_EqLoudness; Sk_DuckDb; Sk_WakeModel;
          Sk_NearMissThreshold; Sk_SaveWakeClips; Sk_WakeArbitrationMs; Sk_WakeSound;
          Sk_WakeOpenRules; Sk_WakeShadowRules; Sk_NsAsr; Sk_SaveUtterances;
          Sk_ExtendedUtterances; Sk_PauseAsr; Sk_LedScene; Sk_LedListenColor;
          Sk_LedThinkColor; Sk_MeterAttack; Sk_MeterDecay; Sk_MeterFloor;
          Sk_MeterGamma; Sk_MeterRef; Sk_MeterCurve; Sk_ButtonSingleTapEvent;
          Sk_ButtonMultiTapMs; Sk_BleProxyEnabled; Sk_TimerSound; Sk_TimerRingSeconds;
          Sk_TimerRingGapSeconds; Sk_AlarmSound; Sk_TranscriptFix; Sk_TranscriptFixTerms;
          Sk_TranscriptFixPhrases; Sk_TranscriptFixPronunciations; Sk_ScreenWake; Sk_ScreenWakeUrl;
          Sk_ScreenWakePassword; Sk_KioskPort; Sk_TurnViewLinger; Sk_StartupVolume];
}.
#[export] Instance SettingKey_laws : WireLaws SettingKey.
Proof. solve_wire_laws. Qed.

Definition key_scope (k : SettingKey) : Scope :=
  match k with
  | Sk_EqBands | Sk_EqLoudness | Sk_DuckDb =>
      Sc_Section Se_Playback
  | Sk_WakeModel | Sk_NearMissThreshold | Sk_SaveWakeClips | Sk_WakeArbitrationMs | Sk_WakeSound | Sk_WakeOpenRules | Sk_WakeShadowRules =>
      Sc_Section Se_Wakeword
  | Sk_NsAsr | Sk_SaveUtterances | Sk_ExtendedUtterances | Sk_PauseAsr =>
      Sc_Section Se_Microphones
  | Sk_LedScene | Sk_LedListenColor | Sk_LedThinkColor | Sk_MeterAttack | Sk_MeterDecay | Sk_MeterFloor | Sk_MeterGamma | Sk_MeterRef | Sk_MeterCurve =>
      Sc_Section Se_Ring
  | Sk_ButtonSingleTapEvent | Sk_ButtonMultiTapMs =>
      Sc_Section Se_Advanced
  | Sk_BleProxyEnabled =>
      Sc_Section Se_Bluetooth
  | Sk_TimerSound | Sk_TimerRingSeconds | Sk_TimerRingGapSeconds | Sk_AlarmSound =>
      Sc_Section Se_Timers
  | Sk_TranscriptFix | Sk_TranscriptFixTerms | Sk_TranscriptFixPhrases | Sk_TranscriptFixPronunciations =>
      Sc_Section Se_Transcript
  | Sk_ScreenWake | Sk_ScreenWakeUrl | Sk_ScreenWakePassword | Sk_KioskPort | Sk_TurnViewLinger =>
      Sc_Section Se_Screen
  | Sk_StartupVolume => Sc_State
  end.
Definition key_section (k : SettingKey) : option Section_ :=
  match key_scope k with Sc_Section s => Some s | Sc_State => None end.
#[export] Instance Scope_eq_dec : EqDecision Scope.
Proof. solve_decision. Defined.
(** [Section::keys]. *)
Definition section_keys (s : Section_) : list SettingKey :=
  retain (fun k => bool_decide (key_scope k = Sc_Section s)) ALL.

Inductive SettingValue :=
  | Sv_EqBands (v : list F64)
  | Sv_EqLoudness (v : bool)
  | Sv_DuckDb (v : F64)
  | Sv_WakeModel (v : string)
  | Sv_NearMissThreshold (v : F64)
  | Sv_SaveWakeClips (v : bool)
  | Sv_WakeArbitrationMs (v : N)
  | Sv_WakeSound (v : bool)
  | Sv_WakeOpenRules (v : list WakeRule)
  | Sv_WakeShadowRules (v : list WakeRule)
  | Sv_NsAsr (v : bool)
  | Sv_SaveUtterances (v : bool)
  | Sv_ExtendedUtterances (v : bool)
  | Sv_PauseAsr (v : PauseAsrChoice)
  | Sv_LedScene (v : LedScene)
  | Sv_LedListenColor (v : string)
  | Sv_LedThinkColor (v : string)
  | Sv_MeterAttack (v : F64)
  | Sv_MeterDecay (v : F64)
  | Sv_MeterFloor (v : F64)
  | Sv_MeterGamma (v : F64)
  | Sv_MeterRef (v : F64)
  | Sv_MeterCurve (v : F64)
  | Sv_ButtonSingleTapEvent (v : bool)
  | Sv_ButtonMultiTapMs (v : N)
  | Sv_BleProxyEnabled (v : bool)
  | Sv_TimerSound (v : SoundChoice)
  | Sv_TimerRingSeconds (v : N)
  | Sv_TimerRingGapSeconds (v : F64)
  | Sv_AlarmSound (v : SoundChoice)
  | Sv_TranscriptFix (v : TranscriptFixMode)
  | Sv_TranscriptFixTerms (v : list string)
  | Sv_TranscriptFixPhrases (v : list string)
  | Sv_TranscriptFixPronunciations (v : list Pronunciation)
  | Sv_ScreenWake (v : bool)
  | Sv_ScreenWakeUrl (v : string)
  | Sv_ScreenWakePassword (v : string)
  | Sv_KioskPort (v : N)
  | Sv_TurnViewLinger (v : F64)
  | Sv_StartupVolume (v : N).
Definition value_key (v : SettingValue) : SettingKey :=
  match v with
  | Sv_EqBands _ => Sk_EqBands
  | Sv_EqLoudness _ => Sk_EqLoudness
  | Sv_DuckDb _ => Sk_DuckDb
  | Sv_WakeModel _ => Sk_WakeModel
  | Sv_NearMissThreshold _ => Sk_NearMissThreshold
  | Sv_SaveWakeClips _ => Sk_SaveWakeClips
  | Sv_WakeArbitrationMs _ => Sk_WakeArbitrationMs
  | Sv_WakeSound _ => Sk_WakeSound
  | Sv_WakeOpenRules _ => Sk_WakeOpenRules
  | Sv_WakeShadowRules _ => Sk_WakeShadowRules
  | Sv_NsAsr _ => Sk_NsAsr
  | Sv_SaveUtterances _ => Sk_SaveUtterances
  | Sv_ExtendedUtterances _ => Sk_ExtendedUtterances
  | Sv_PauseAsr _ => Sk_PauseAsr
  | Sv_LedScene _ => Sk_LedScene
  | Sv_LedListenColor _ => Sk_LedListenColor
  | Sv_LedThinkColor _ => Sk_LedThinkColor
  | Sv_MeterAttack _ => Sk_MeterAttack
  | Sv_MeterDecay _ => Sk_MeterDecay
  | Sv_MeterFloor _ => Sk_MeterFloor
  | Sv_MeterGamma _ => Sk_MeterGamma
  | Sv_MeterRef _ => Sk_MeterRef
  | Sv_MeterCurve _ => Sk_MeterCurve
  | Sv_ButtonSingleTapEvent _ => Sk_ButtonSingleTapEvent
  | Sv_ButtonMultiTapMs _ => Sk_ButtonMultiTapMs
  | Sv_BleProxyEnabled _ => Sk_BleProxyEnabled
  | Sv_TimerSound _ => Sk_TimerSound
  | Sv_TimerRingSeconds _ => Sk_TimerRingSeconds
  | Sv_TimerRingGapSeconds _ => Sk_TimerRingGapSeconds
  | Sv_AlarmSound _ => Sk_AlarmSound
  | Sv_TranscriptFix _ => Sk_TranscriptFix
  | Sv_TranscriptFixTerms _ => Sk_TranscriptFixTerms
  | Sv_TranscriptFixPhrases _ => Sk_TranscriptFixPhrases
  | Sv_TranscriptFixPronunciations _ => Sk_TranscriptFixPronunciations
  | Sv_ScreenWake _ => Sk_ScreenWake
  | Sv_ScreenWakeUrl _ => Sk_ScreenWakeUrl
  | Sv_ScreenWakePassword _ => Sk_ScreenWakePassword
  | Sv_KioskPort _ => Sk_KioskPort
  | Sv_TurnViewLinger _ => Sk_TurnViewLinger
  | Sv_StartupVolume _ => Sk_StartupVolume
  end.

Record PlaybackSettings := mkPlaybackSettings {
  eq_bands : list F64;
  eq_loudness : bool;
  duck_db : F64;
}.
Record WakewordSettings := mkWakewordSettings {
  wake_model : string;
  near_miss_threshold : F64;
  save_wake_clips : bool;
  wake_arbitration_ms : N;
  wake_sound : bool;
  wake_open_rules : list WakeRule;
  wake_shadow_rules : list WakeRule;
}.
Record SpeechSettings := mkSpeechSettings {
  ns_asr : bool;
  save_utterances : bool;
  extended_utterances : bool;
  pause_asr : PauseAsrChoice;
}.
Record RingSettings := mkRingSettings {
  led_scene : LedScene;
  led_listen_color : string;
  led_think_color : string;
  meter_attack : F64;
  meter_decay : F64;
  meter_floor : F64;
  meter_gamma : F64;
  meter_ref : F64;
  meter_curve : F64;
}.
Record ButtonSettings := mkButtonSettings {
  button_single_tap_event : bool;
  button_multi_tap_ms : N;
}.
Record BluetoothSettings := mkBluetoothSettings {
  ble_proxy_enabled : bool;
}.
Record TimerSettings := mkTimerSettings {
  timer_sound : SoundChoice;
  timer_ring_seconds : N;
  timer_ring_gap_seconds : F64;
  alarm_sound : SoundChoice;
}.
Record TranscriptSettings := mkTranscriptSettings {
  transcript_fix : TranscriptFixMode;
  transcript_fix_terms : list string;
  transcript_fix_phrases : list string;
  transcript_fix_pronunciations : list Pronunciation;
}.
Record ScreenSettings := mkScreenSettings {
  screen_wake : bool;
  screen_wake_url : string;
  screen_wake_password : string;
  kiosk_port : N;
  turn_view_linger : F64;
}.
Record DeviceState := mkDeviceState {
  startup_volume : N;
}.
Record DeviceSettings := mkDeviceSettings {
  ds_playback : PlaybackSettings;
  ds_wakeword : WakewordSettings;
  ds_microphones : SpeechSettings;
  ds_ring : RingSettings;
  ds_advanced : ButtonSettings;
  ds_bluetooth : BluetoothSettings;
  ds_timers : TimerSettings;
  ds_transcript : TranscriptSettings;
  ds_screen : ScreenSettings;
  ds_state : DeviceState;
}.

(** [Default]. *)
Definition default_settings `{Unicode} : DeviceSettings := {|
  ds_playback := mkPlaybackSettings (default_value EqBands) (default_value boolean) (default_value DuckDb);
  ds_wakeword := mkWakewordSettings (default_value WakeModelChoice) (default_value NearMissFloor) (default_value boolean) (default_value ArbitrationWindowMs) (default_value boolean) (default_value ExtraOpenRules) (default_value ShadowRules);
  ds_microphones := mkSpeechSettings (default_value boolean) (default_value boolean) (default_value boolean) (default_value PauseAsr);
  ds_ring := mkRingSettings (default_value LedSceneType) (default_value ListenColor) (default_value ThinkColor) (default_value MeterAttack) (default_value MeterDecay) (default_value MeterFloor) (default_value MeterGamma) (default_value MeterRef) (default_value MeterCurve);
  ds_advanced := mkButtonSettings (default_value boolean) (default_value MultiTapMs);
  ds_bluetooth := mkBluetoothSettings (default_value boolean);
  ds_timers := mkTimerSettings (default_value SoundType) (default_value TimerRingSeconds) (default_value TimerRingGapSeconds) (default_value SoundType);
  ds_transcript := mkTranscriptSettings (default_value TranscriptFix) (default_value FixList) (default_value FixList) (default_value Pronunciations);
  ds_screen := mkScreenSettings (default_value boolean) (default_value KioskUrl) (default_value KioskPassword) (default_value KioskPort) (default_value TurnViewLinger);
  ds_state := mkDeviceState (default_value StartupVolume)
|}.

(** ** One setting by its key *)
Definition key_get (s : DeviceSettings) (k : SettingKey) : SettingValue :=
  match k with
  | Sk_EqBands => Sv_EqBands (eq_bands (ds_playback s))
  | Sk_EqLoudness => Sv_EqLoudness (eq_loudness (ds_playback s))
  | Sk_DuckDb => Sv_DuckDb (duck_db (ds_playback s))
  | Sk_WakeModel => Sv_WakeModel (wake_model (ds_wakeword s))
  | Sk_NearMissThreshold => Sv_NearMissThreshold (near_miss_threshold (ds_wakeword s))
  | Sk_SaveWakeClips => Sv_SaveWakeClips (save_wake_clips (ds_wakeword s))
  | Sk_WakeArbitrationMs => Sv_WakeArbitrationMs (wake_arbitration_ms (ds_wakeword s))
  | Sk_WakeSound => Sv_WakeSound (wake_sound (ds_wakeword s))
  | Sk_WakeOpenRules => Sv_WakeOpenRules (wake_open_rules (ds_wakeword s))
  | Sk_WakeShadowRules => Sv_WakeShadowRules (wake_shadow_rules (ds_wakeword s))
  | Sk_NsAsr => Sv_NsAsr (ns_asr (ds_microphones s))
  | Sk_SaveUtterances => Sv_SaveUtterances (save_utterances (ds_microphones s))
  | Sk_ExtendedUtterances => Sv_ExtendedUtterances (extended_utterances (ds_microphones s))
  | Sk_PauseAsr => Sv_PauseAsr (pause_asr (ds_microphones s))
  | Sk_LedScene => Sv_LedScene (led_scene (ds_ring s))
  | Sk_LedListenColor => Sv_LedListenColor (led_listen_color (ds_ring s))
  | Sk_LedThinkColor => Sv_LedThinkColor (led_think_color (ds_ring s))
  | Sk_MeterAttack => Sv_MeterAttack (meter_attack (ds_ring s))
  | Sk_MeterDecay => Sv_MeterDecay (meter_decay (ds_ring s))
  | Sk_MeterFloor => Sv_MeterFloor (meter_floor (ds_ring s))
  | Sk_MeterGamma => Sv_MeterGamma (meter_gamma (ds_ring s))
  | Sk_MeterRef => Sv_MeterRef (meter_ref (ds_ring s))
  | Sk_MeterCurve => Sv_MeterCurve (meter_curve (ds_ring s))
  | Sk_ButtonSingleTapEvent => Sv_ButtonSingleTapEvent (button_single_tap_event (ds_advanced s))
  | Sk_ButtonMultiTapMs => Sv_ButtonMultiTapMs (button_multi_tap_ms (ds_advanced s))
  | Sk_BleProxyEnabled => Sv_BleProxyEnabled (ble_proxy_enabled (ds_bluetooth s))
  | Sk_TimerSound => Sv_TimerSound (timer_sound (ds_timers s))
  | Sk_TimerRingSeconds => Sv_TimerRingSeconds (timer_ring_seconds (ds_timers s))
  | Sk_TimerRingGapSeconds => Sv_TimerRingGapSeconds (timer_ring_gap_seconds (ds_timers s))
  | Sk_AlarmSound => Sv_AlarmSound (alarm_sound (ds_timers s))
  | Sk_TranscriptFix => Sv_TranscriptFix (transcript_fix (ds_transcript s))
  | Sk_TranscriptFixTerms => Sv_TranscriptFixTerms (transcript_fix_terms (ds_transcript s))
  | Sk_TranscriptFixPhrases => Sv_TranscriptFixPhrases (transcript_fix_phrases (ds_transcript s))
  | Sk_TranscriptFixPronunciations => Sv_TranscriptFixPronunciations (transcript_fix_pronunciations (ds_transcript s))
  | Sk_ScreenWake => Sv_ScreenWake (screen_wake (ds_screen s))
  | Sk_ScreenWakeUrl => Sv_ScreenWakeUrl (screen_wake_url (ds_screen s))
  | Sk_ScreenWakePassword => Sv_ScreenWakePassword (screen_wake_password (ds_screen s))
  | Sk_KioskPort => Sv_KioskPort (kiosk_port (ds_screen s))
  | Sk_TurnViewLinger => Sv_TurnViewLinger (turn_view_linger (ds_screen s))
  | Sk_StartupVolume => Sv_StartupVolume (startup_volume (ds_state s))
  end.

Definition with_playback (f : PlaybackSettings -> PlaybackSettings) (s : DeviceSettings) : DeviceSettings :=
  mkDeviceSettings (f (ds_playback s)) (ds_wakeword s) (ds_microphones s) (ds_ring s) (ds_advanced s) (ds_bluetooth s) (ds_timers s) (ds_transcript s) (ds_screen s) (ds_state s).
Definition with_wakeword (f : WakewordSettings -> WakewordSettings) (s : DeviceSettings) : DeviceSettings :=
  mkDeviceSettings (ds_playback s) (f (ds_wakeword s)) (ds_microphones s) (ds_ring s) (ds_advanced s) (ds_bluetooth s) (ds_timers s) (ds_transcript s) (ds_screen s) (ds_state s).
Definition with_microphones (f : SpeechSettings -> SpeechSettings) (s : DeviceSettings) : DeviceSettings :=
  mkDeviceSettings (ds_playback s) (ds_wakeword s) (f (ds_microphones s)) (ds_ring s) (ds_advanced s) (ds_bluetooth s) (ds_timers s) (ds_transcript s) (ds_screen s) (ds_state s).
Definition with_ring (f : RingSettings -> RingSettings) (s : DeviceSettings) : DeviceSettings :=
  mkDeviceSettings (ds_playback s) (ds_wakeword s) (ds_microphones s) (f (ds_ring s)) (ds_advanced s) (ds_bluetooth s) (ds_timers s) (ds_transcript s) (ds_screen s) (ds_state s).
Definition with_advanced (f : ButtonSettings -> ButtonSettings) (s : DeviceSettings) : DeviceSettings :=
  mkDeviceSettings (ds_playback s) (ds_wakeword s) (ds_microphones s) (ds_ring s) (f (ds_advanced s)) (ds_bluetooth s) (ds_timers s) (ds_transcript s) (ds_screen s) (ds_state s).
Definition with_bluetooth (f : BluetoothSettings -> BluetoothSettings) (s : DeviceSettings) : DeviceSettings :=
  mkDeviceSettings (ds_playback s) (ds_wakeword s) (ds_microphones s) (ds_ring s) (ds_advanced s) (f (ds_bluetooth s)) (ds_timers s) (ds_transcript s) (ds_screen s) (ds_state s).
Definition with_timers (f : TimerSettings -> TimerSettings) (s : DeviceSettings) : DeviceSettings :=
  mkDeviceSettings (ds_playback s) (ds_wakeword s) (ds_microphones s) (ds_ring s) (ds_advanced s) (ds_bluetooth s) (f (ds_timers s)) (ds_transcript s) (ds_screen s) (ds_state s).
Definition with_transcript (f : TranscriptSettings -> TranscriptSettings) (s : DeviceSettings) : DeviceSettings :=
  mkDeviceSettings (ds_playback s) (ds_wakeword s) (ds_microphones s) (ds_ring s) (ds_advanced s) (ds_bluetooth s) (ds_timers s) (f (ds_transcript s)) (ds_screen s) (ds_state s).
Definition with_screen (f : ScreenSettings -> ScreenSettings) (s : DeviceSettings) : DeviceSettings :=
  mkDeviceSettings (ds_playback s) (ds_wakeword s) (ds_microphones s) (ds_ring s) (ds_advanced s) (ds_bluetooth s) (ds_timers s) (ds_transcript s) (f (ds_screen s)) (ds_state s).
Definition with_state (f : DeviceState -> DeviceState) (s : DeviceSettings) : DeviceSettings :=
  mkDeviceSettings (ds_playback s) (ds_wakeword s) (ds_microphones s) (ds_ring s) (ds_advanced s) (ds_bluetooth s) (ds_timers s) (ds_transcript s) (ds_screen s) (f (ds_state s)).

Definition key_set (value : SettingValue) (s : DeviceSettings) : DeviceSettings :=
  match value with
  | Sv_EqBands v => with_playback (fun g => mkPlaybackSettings v (eq_loudness g) (duck_db g)) s
  | Sv_EqLoudness v => with_playback (fun g => mkPlaybackSettings (eq_bands g) v (duck_db g)) s
  | Sv_DuckDb v => with_playback (fun g => mkPlaybackSettings (eq_bands g) (eq_loudness g) v) s
  | Sv_WakeModel v => with_wakeword (fun g => mkWakewordSettings v (near_miss_threshold g) (save_wake_clips g) (wake_arbitration_ms g) (wake_sound g) (wake_open_rules g) (wake_shadow_rules g)) s
  | Sv_NearMissThreshold v => with_wakeword (fun g => mkWakewordSettings (wake_model g) v (save_wake_clips g) (wake_arbitration_ms g) (wake_sound g) (wake_open_rules g) (wake_shadow_rules g)) s
  | Sv_SaveWakeClips v => with_wakeword (fun g => mkWakewordSettings (wake_model g) (near_miss_threshold g) v (wake_arbitration_ms g) (wake_sound g) (wake_open_rules g) (wake_shadow_rules g)) s
  | Sv_WakeArbitrationMs v => with_wakeword (fun g => mkWakewordSettings (wake_model g) (near_miss_threshold g) (save_wake_clips g) v (wake_sound g) (wake_open_rules g) (wake_shadow_rules g)) s
  | Sv_WakeSound v => with_wakeword (fun g => mkWakewordSettings (wake_model g) (near_miss_threshold g) (save_wake_clips g) (wake_arbitration_ms g) v (wake_open_rules g) (wake_shadow_rules g)) s
  | Sv_WakeOpenRules v => with_wakeword (fun g => mkWakewordSettings (wake_model g) (near_miss_threshold g) (save_wake_clips g) (wake_arbitration_ms g) (wake_sound g) v (wake_shadow_rules g)) s
  | Sv_WakeShadowRules v => with_wakeword (fun g => mkWakewordSettings (wake_model g) (near_miss_threshold g) (save_wake_clips g) (wake_arbitration_ms g) (wake_sound g) (wake_open_rules g) v) s
  | Sv_NsAsr v => with_microphones (fun g => mkSpeechSettings v (save_utterances g) (extended_utterances g) (pause_asr g)) s
  | Sv_SaveUtterances v => with_microphones (fun g => mkSpeechSettings (ns_asr g) v (extended_utterances g) (pause_asr g)) s
  | Sv_ExtendedUtterances v => with_microphones (fun g => mkSpeechSettings (ns_asr g) (save_utterances g) v (pause_asr g)) s
  | Sv_PauseAsr v => with_microphones (fun g => mkSpeechSettings (ns_asr g) (save_utterances g) (extended_utterances g) v) s
  | Sv_LedScene v => with_ring (fun g => mkRingSettings v (led_listen_color g) (led_think_color g) (meter_attack g) (meter_decay g) (meter_floor g) (meter_gamma g) (meter_ref g) (meter_curve g)) s
  | Sv_LedListenColor v => with_ring (fun g => mkRingSettings (led_scene g) v (led_think_color g) (meter_attack g) (meter_decay g) (meter_floor g) (meter_gamma g) (meter_ref g) (meter_curve g)) s
  | Sv_LedThinkColor v => with_ring (fun g => mkRingSettings (led_scene g) (led_listen_color g) v (meter_attack g) (meter_decay g) (meter_floor g) (meter_gamma g) (meter_ref g) (meter_curve g)) s
  | Sv_MeterAttack v => with_ring (fun g => mkRingSettings (led_scene g) (led_listen_color g) (led_think_color g) v (meter_decay g) (meter_floor g) (meter_gamma g) (meter_ref g) (meter_curve g)) s
  | Sv_MeterDecay v => with_ring (fun g => mkRingSettings (led_scene g) (led_listen_color g) (led_think_color g) (meter_attack g) v (meter_floor g) (meter_gamma g) (meter_ref g) (meter_curve g)) s
  | Sv_MeterFloor v => with_ring (fun g => mkRingSettings (led_scene g) (led_listen_color g) (led_think_color g) (meter_attack g) (meter_decay g) v (meter_gamma g) (meter_ref g) (meter_curve g)) s
  | Sv_MeterGamma v => with_ring (fun g => mkRingSettings (led_scene g) (led_listen_color g) (led_think_color g) (meter_attack g) (meter_decay g) (meter_floor g) v (meter_ref g) (meter_curve g)) s
  | Sv_MeterRef v => with_ring (fun g => mkRingSettings (led_scene g) (led_listen_color g) (led_think_color g) (meter_attack g) (meter_decay g) (meter_floor g) (meter_gamma g) v (meter_curve g)) s
  | Sv_MeterCurve v => with_ring (fun g => mkRingSettings (led_scene g) (led_listen_color g) (led_think_color g) (meter_attack g) (meter_decay g) (meter_floor g) (meter_gamma g) (meter_ref g) v) s
  | Sv_ButtonSingleTapEvent v => with_advanced (fun g => mkButtonSettings v (button_multi_tap_ms g)) s
  | Sv_ButtonMultiTapMs v => with_advanced (fun g => mkButtonSettings (button_single_tap_event g) v) s
  | Sv_BleProxyEnabled v => with_bluetooth (fun _ => mkBluetoothSettings v) s
  | Sv_TimerSound v => with_timers (fun g => mkTimerSettings v (timer_ring_seconds g) (timer_ring_gap_seconds g) (alarm_sound g)) s
  | Sv_TimerRingSeconds v => with_timers (fun g => mkTimerSettings (timer_sound g) v (timer_ring_gap_seconds g) (alarm_sound g)) s
  | Sv_TimerRingGapSeconds v => with_timers (fun g => mkTimerSettings (timer_sound g) (timer_ring_seconds g) v (alarm_sound g)) s
  | Sv_AlarmSound v => with_timers (fun g => mkTimerSettings (timer_sound g) (timer_ring_seconds g) (timer_ring_gap_seconds g) v) s
  | Sv_TranscriptFix v => with_transcript (fun g => mkTranscriptSettings v (transcript_fix_terms g) (transcript_fix_phrases g) (transcript_fix_pronunciations g)) s
  | Sv_TranscriptFixTerms v => with_transcript (fun g => mkTranscriptSettings (transcript_fix g) v (transcript_fix_phrases g) (transcript_fix_pronunciations g)) s
  | Sv_TranscriptFixPhrases v => with_transcript (fun g => mkTranscriptSettings (transcript_fix g) (transcript_fix_terms g) v (transcript_fix_pronunciations g)) s
  | Sv_TranscriptFixPronunciations v => with_transcript (fun g => mkTranscriptSettings (transcript_fix g) (transcript_fix_terms g) (transcript_fix_phrases g) v) s
  | Sv_ScreenWake v => with_screen (fun g => mkScreenSettings v (screen_wake_url g) (screen_wake_password g) (kiosk_port g) (turn_view_linger g)) s
  | Sv_ScreenWakeUrl v => with_screen (fun g => mkScreenSettings (screen_wake g) v (screen_wake_password g) (kiosk_port g) (turn_view_linger g)) s
  | Sv_ScreenWakePassword v => with_screen (fun g => mkScreenSettings (screen_wake g) (screen_wake_url g) v (kiosk_port g) (turn_view_linger g)) s
  | Sv_KioskPort v => with_screen (fun g => mkScreenSettings (screen_wake g) (screen_wake_url g) (screen_wake_password g) v (turn_view_linger g)) s
  | Sv_TurnViewLinger v => with_screen (fun g => mkScreenSettings (screen_wake g) (screen_wake_url g) (screen_wake_password g) (kiosk_port g) v) s
  | Sv_StartupVolume v => with_state (fun _ => mkDeviceState v) s
  end.

Definition value_to_json `{Unicode} (v : SettingValue) : Json :=
  match v with
  | Sv_EqBands v => to_json EqBands v
  | Sv_EqLoudness v => to_json boolean v
  | Sv_DuckDb v => to_json DuckDb v
  | Sv_WakeModel v => to_json WakeModelChoice v
  | Sv_NearMissThreshold v => to_json NearMissFloor v
  | Sv_SaveWakeClips v => to_json boolean v
  | Sv_WakeArbitrationMs v => to_json ArbitrationWindowMs v
  | Sv_WakeSound v => to_json boolean v
  | Sv_WakeOpenRules v => to_json ExtraOpenRules v
  | Sv_WakeShadowRules v => to_json ShadowRules v
  | Sv_NsAsr v => to_json boolean v
  | Sv_SaveUtterances v => to_json boolean v
  | Sv_ExtendedUtterances v => to_json boolean v
  | Sv_PauseAsr v => to_json PauseAsr v
  | Sv_LedScene v => to_json LedSceneType v
  | Sv_LedListenColor v => to_json ListenColor v
  | Sv_LedThinkColor v => to_json ThinkColor v
  | Sv_MeterAttack v => to_json MeterAttack v
  | Sv_MeterDecay v => to_json MeterDecay v
  | Sv_MeterFloor v => to_json MeterFloor v
  | Sv_MeterGamma v => to_json MeterGamma v
  | Sv_MeterRef v => to_json MeterRef v
  | Sv_MeterCurve v => to_json MeterCurve v
  | Sv_ButtonSingleTapEvent v => to_json boolean v
  | Sv_ButtonMultiTapMs v => to_json MultiTapMs v
  | Sv_BleProxyEnabled v => to_json boolean v
  | Sv_TimerSound v => to_json SoundType v
  | Sv_TimerRingSeconds v => to_json TimerRingSeconds v
  | Sv_TimerRingGapSeconds v => to_json TimerRingGapSeconds v
  | Sv_AlarmSound v => to_json SoundType v
  | Sv_TranscriptFix v => to_json TranscriptFix v
  | Sv_TranscriptFixTerms v => to_json FixList v
  | Sv_TranscriptFixPhrases v => to_json FixList v
  | Sv_TranscriptFixPronunciations v => to_json Pronunciations v
  | Sv_ScreenWake v => to_json boolean v
  | Sv_ScreenWakeUrl v => to_json KioskUrl v
  | Sv_ScreenWakePassword v => to_json KioskPassword v
  | Sv_KioskPort v => to_json KioskPort v
  | Sv_TurnViewLinger v => to_json TurnViewLinger v
  | Sv_StartupVolume v => to_json StartupVolume v
  end.
(** [Result::map]. *)
Definition map_ok {E A B} (f : A -> B) (r : result E A) : result E B := let? a := r in Ok (f a).
Definition value_parse `{Unicode} (k : SettingKey) (value : Json) : result ValueError SettingValue :=
  match k with
  | Sk_EqBands => map_ok Sv_EqBands (from_json EqBands value)
  | Sk_EqLoudness => map_ok Sv_EqLoudness (from_json boolean value)
  | Sk_DuckDb => map_ok Sv_DuckDb (from_json DuckDb value)
  | Sk_WakeModel => map_ok Sv_WakeModel (from_json WakeModelChoice value)
  | Sk_NearMissThreshold => map_ok Sv_NearMissThreshold (from_json NearMissFloor value)
  | Sk_SaveWakeClips => map_ok Sv_SaveWakeClips (from_json boolean value)
  | Sk_WakeArbitrationMs => map_ok Sv_WakeArbitrationMs (from_json ArbitrationWindowMs value)
  | Sk_WakeSound => map_ok Sv_WakeSound (from_json boolean value)
  | Sk_WakeOpenRules => map_ok Sv_WakeOpenRules (from_json ExtraOpenRules value)
  | Sk_WakeShadowRules => map_ok Sv_WakeShadowRules (from_json ShadowRules value)
  | Sk_NsAsr => map_ok Sv_NsAsr (from_json boolean value)
  | Sk_SaveUtterances => map_ok Sv_SaveUtterances (from_json boolean value)
  | Sk_ExtendedUtterances => map_ok Sv_ExtendedUtterances (from_json boolean value)
  | Sk_PauseAsr => map_ok Sv_PauseAsr (from_json PauseAsr value)
  | Sk_LedScene => map_ok Sv_LedScene (from_json LedSceneType value)
  | Sk_LedListenColor => map_ok Sv_LedListenColor (from_json ListenColor value)
  | Sk_LedThinkColor => map_ok Sv_LedThinkColor (from_json ThinkColor value)
  | Sk_MeterAttack => map_ok Sv_MeterAttack (from_json MeterAttack value)
  | Sk_MeterDecay => map_ok Sv_MeterDecay (from_json MeterDecay value)
  | Sk_MeterFloor => map_ok Sv_MeterFloor (from_json MeterFloor value)
  | Sk_MeterGamma => map_ok Sv_MeterGamma (from_json MeterGamma value)
  | Sk_MeterRef => map_ok Sv_MeterRef (from_json MeterRef value)
  | Sk_MeterCurve => map_ok Sv_MeterCurve (from_json MeterCurve value)
  | Sk_ButtonSingleTapEvent => map_ok Sv_ButtonSingleTapEvent (from_json boolean value)
  | Sk_ButtonMultiTapMs => map_ok Sv_ButtonMultiTapMs (from_json MultiTapMs value)
  | Sk_BleProxyEnabled => map_ok Sv_BleProxyEnabled (from_json boolean value)
  | Sk_TimerSound => map_ok Sv_TimerSound (from_json SoundType value)
  | Sk_TimerRingSeconds => map_ok Sv_TimerRingSeconds (from_json TimerRingSeconds value)
  | Sk_TimerRingGapSeconds => map_ok Sv_TimerRingGapSeconds (from_json TimerRingGapSeconds value)
  | Sk_AlarmSound => map_ok Sv_AlarmSound (from_json SoundType value)
  | Sk_TranscriptFix => map_ok Sv_TranscriptFix (from_json TranscriptFix value)
  | Sk_TranscriptFixTerms => map_ok Sv_TranscriptFixTerms (from_json FixList value)
  | Sk_TranscriptFixPhrases => map_ok Sv_TranscriptFixPhrases (from_json FixList value)
  | Sk_TranscriptFixPronunciations => map_ok Sv_TranscriptFixPronunciations (from_json Pronunciations value)
  | Sk_ScreenWake => map_ok Sv_ScreenWake (from_json boolean value)
  | Sk_ScreenWakeUrl => map_ok Sv_ScreenWakeUrl (from_json KioskUrl value)
  | Sk_ScreenWakePassword => map_ok Sv_ScreenWakePassword (from_json KioskPassword value)
  | Sk_KioskPort => map_ok Sv_KioskPort (from_json KioskPort value)
  | Sk_TurnViewLinger => map_ok Sv_TurnViewLinger (from_json TurnViewLinger value)
  | Sk_StartupVolume => map_ok Sv_StartupVolume (from_json StartupVolume value)
  end.
(** [PartialEq]. *)
Definition value_eqb `{Unicode} (a b : SettingValue) : bool :=
  match a, b with
  | Sv_EqBands a, Sv_EqBands b => eqb EqBands a b
  | Sv_EqLoudness a, Sv_EqLoudness b => eqb boolean a b
  | Sv_DuckDb a, Sv_DuckDb b => eqb DuckDb a b
  | Sv_WakeModel a, Sv_WakeModel b => eqb WakeModelChoice a b
  | Sv_NearMissThreshold a, Sv_NearMissThreshold b => eqb NearMissFloor a b
  | Sv_SaveWakeClips a, Sv_SaveWakeClips b => eqb boolean a b
  | Sv_WakeArbitrationMs a, Sv_WakeArbitrationMs b => eqb ArbitrationWindowMs a b
  | Sv_WakeSound a, Sv_WakeSound b => eqb boolean a b
  | Sv_WakeOpenRules a, Sv_WakeOpenRules b => eqb ExtraOpenRules a b
  | Sv_WakeShadowRules a, Sv_WakeShadowRules b => eqb ShadowRules a b
  | Sv_NsAsr a, Sv_NsAsr b => eqb boolean a b
  | Sv_SaveUtterances a, Sv_SaveUtterances b => eqb boolean a b
  | Sv_ExtendedUtterances a, Sv_ExtendedUtterances b => eqb boolean a b
  | Sv_PauseAsr a, Sv_PauseAsr b => eqb PauseAsr a b
  | Sv_LedScene a, Sv_LedScene b => eqb LedSceneType a b
  | Sv_LedListenColor a, Sv_LedListenColor b => eqb ListenColor a b
  | Sv_LedThinkColor a, Sv_LedThinkColor b => eqb ThinkColor a b
  | Sv_MeterAttack a, Sv_MeterAttack b => eqb MeterAttack a b
  | Sv_MeterDecay a, Sv_MeterDecay b => eqb MeterDecay a b
  | Sv_MeterFloor a, Sv_MeterFloor b => eqb MeterFloor a b
  | Sv_MeterGamma a, Sv_MeterGamma b => eqb MeterGamma a b
  | Sv_MeterRef a, Sv_MeterRef b => eqb MeterRef a b
  | Sv_MeterCurve a, Sv_MeterCurve b => eqb MeterCurve a b
  | Sv_ButtonSingleTapEvent a, Sv_ButtonSingleTapEvent b => eqb boolean a b
  | Sv_ButtonMultiTapMs a, Sv_ButtonMultiTapMs b => eqb MultiTapMs a b
  | Sv_BleProxyEnabled a, Sv_BleProxyEnabled b => eqb boolean a b
  | Sv_TimerSound a, Sv_TimerSound b => eqb SoundType a b
  | Sv_TimerRingSeconds a, Sv_TimerRingSeconds b => eqb TimerRingSeconds a b
  | Sv_TimerRingGapSeconds a, Sv_TimerRingGapSeconds b => eqb TimerRingGapSeconds a b
  | Sv_AlarmSound a, Sv_AlarmSound b => eqb SoundType a b
  | Sv_TranscriptFix a, Sv_TranscriptFix b => eqb TranscriptFix a b
  | Sv_TranscriptFixTerms a, Sv_TranscriptFixTerms b => eqb FixList a b
  | Sv_TranscriptFixPhrases a, Sv_TranscriptFixPhrases b => eqb FixList a b
  | Sv_TranscriptFixPronunciations a, Sv_TranscriptFixPronunciations b => eqb Pronunciations a b
  | Sv_ScreenWake a, Sv_ScreenWake b => eqb boolean a b
  | Sv_ScreenWakeUrl a, Sv_ScreenWakeUrl b => eqb KioskUrl a b
  | Sv_ScreenWakePassword a, Sv_ScreenWakePassword b => eqb KioskPassword a b
  | Sv_KioskPort a, Sv_KioskPort b => eqb KioskPort a b
  | Sv_TurnViewLinger a, Sv_TurnViewLinger b => eqb TurnViewLinger a b
  | Sv_StartupVolume a, Sv_StartupVolume b => eqb StartupVolume a b
  | _, _ => false
  end.
Definition settings_to_json `{Unicode} (s : DeviceSettings) : Json :=
  JObject (obj_collect ((fun k => (as_str k, value_to_json (key_get s k))) <$> (ALL : list SettingKey))).
Definition differences `{Unicode} (a b : DeviceSettings) : list SettingKey :=
  retain (fun k => negb (value_eqb (key_get a k) (key_get b k))) ALL.

(** ** What a setting needs of a device *)
Inductive Requirement :=
  | Rq_Has (c : Capability)
  | Rq_Lacks (c : Capability).
Definition requirements (k : SettingKey) : list Requirement :=
  match k with
  | Sk_DuckDb => [Rq_Has Cap_FocusLeases]
  | Sk_WakeModel => [Rq_Has Cap_DeviceWake]
  | Sk_WakeSound => [Rq_Has Cap_RenderProgress]
  | Sk_WakeOpenRules | Sk_WakeShadowRules => [Rq_Has Cap_OpenRules]
  | Sk_LedScene | Sk_LedListenColor => [Rq_Has Cap_Leds]
  | Sk_LedThinkColor | Sk_MeterAttack | Sk_MeterDecay | Sk_MeterFloor | Sk_MeterGamma | Sk_MeterRef
  | Sk_MeterCurve => [Rq_Has Cap_Leds; Rq_Has Cap_LedAnim]
  | Sk_ButtonSingleTapEvent | Sk_ButtonMultiTapMs => [Rq_Has Cap_ButtonHold]
  | Sk_BleProxyEnabled => [Rq_Has Cap_BleProxy]
  | Sk_ScreenWake => [Rq_Has Cap_ScreenWake]
  | Sk_ScreenWakeUrl | Sk_ScreenWakePassword => [Rq_Has Cap_ScreenWake; Rq_Lacks Cap_ScreenOverlay]
  | Sk_KioskPort => [Rq_Has Cap_KioskPlugin]
  | Sk_TurnViewLinger => [Rq_Has Cap_TurnView]
  | _ => []
  end.
Definition needs_new_session (k : SettingKey) : bool :=
  match k with
  | Sk_WakeModel | Sk_WakeOpenRules | Sk_WakeShadowRules | Sk_NearMissThreshold => true
  | _ => false
  end.

(** ** Facts *)
Lemma get_set_same v s : key_get (key_set v s) (value_key v) = v.
Proof. by destruct v. Qed.
Lemma get_set_other v s k : k <> value_key v -> key_get (key_set v s) k = key_get s k.
Proof. destruct v, k; (done || (intros Hk; exfalso; by apply Hk)). Qed.
Lemma get_set v s k : key_get (key_set v s) k = if bool_decide (k = value_key v) then v else key_get s k.
Proof. case_bool_decide as H; [subst; apply get_set_same|by apply get_set_other]. Qed.
Lemma get_key s k : value_key (key_get s k) = k.
Proof. by destruct k. Qed.

Ltac split_settings s :=
  destruct s as [[] [] [] [] [] [] [] [] [] []].
(** Settings that agree at every key are equal. *)
Lemma settings_ext s s' : (forall k, key_get s k = key_get s' k) -> s = s'.
Proof.
  intros H.

  pose proof (H Sk_EqBands) as [= ?].
  pose proof (H Sk_EqLoudness) as [= ?].
  pose proof (H Sk_DuckDb) as [= ?].
  pose proof (H Sk_WakeModel) as [= ?].
  pose proof (H Sk_NearMissThreshold) as [= ?].
  pose proof (H Sk_SaveWakeClips) as [= ?].
  pose proof (H Sk_WakeArbitrationMs) as [= ?].
  pose proof (H Sk_WakeSound) as [= ?].
  pose proof (H Sk_WakeOpenRules) as [= ?].
  pose proof (H Sk_WakeShadowRules) as [= ?].
  pose proof (H Sk_NsAsr) as [= ?].
  pose proof (H Sk_SaveUtterances) as [= ?].
  pose proof (H Sk_ExtendedUtterances) as [= ?].
  pose proof (H Sk_PauseAsr) as [= ?].
  pose proof (H Sk_LedScene) as [= ?].
  pose proof (H Sk_LedListenColor) as [= ?].
  pose proof (H Sk_LedThinkColor) as [= ?].
  pose proof (H Sk_MeterAttack) as [= ?].
  pose proof (H Sk_MeterDecay) as [= ?].
  pose proof (H Sk_MeterFloor) as [= ?].
  pose proof (H Sk_MeterGamma) as [= ?].
  pose proof (H Sk_MeterRef) as [= ?].
  pose proof (H Sk_MeterCurve) as [= ?].
  pose proof (H Sk_ButtonSingleTapEvent) as [= ?].
  pose proof (H Sk_ButtonMultiTapMs) as [= ?].
  pose proof (H Sk_BleProxyEnabled) as [= ?].
  pose proof (H Sk_TimerSound) as [= ?].
  pose proof (H Sk_TimerRingSeconds) as [= ?].
  pose proof (H Sk_TimerRingGapSeconds) as [= ?].
  pose proof (H Sk_AlarmSound) as [= ?].
  pose proof (H Sk_TranscriptFix) as [= ?].
  pose proof (H Sk_TranscriptFixTerms) as [= ?].
  pose proof (H Sk_TranscriptFixPhrases) as [= ?].
  pose proof (H Sk_TranscriptFixPronunciations) as [= ?].
  pose proof (H Sk_ScreenWake) as [= ?].
  pose proof (H Sk_ScreenWakeUrl) as [= ?].
  pose proof (H Sk_ScreenWakePassword) as [= ?].
  pose proof (H Sk_KioskPort) as [= ?].
  pose proof (H Sk_TurnViewLinger) as [= ?].
  pose proof (H Sk_StartupVolume) as [= ?].
  split_settings s. split_settings s'. cbn in *. by subst.
Qed.

Lemma parse_key `{Unicode} k j v : value_parse k j = Ok v -> value_key v = k.
Proof. unfold value_parse, map_ok. destruct k; rewrite let_Ok; by intros (? & _ & [= <-]). Qed.

(** What each key admits. *)
Definition value_valid `{Unicode} (v : SettingValue) : Prop :=
  match v with
  | Sv_EqBands bands => length bands = 8%nat /\ Forall band_valid bands
  | Sv_EqLoudness _ => True
  | Sv_DuckDb v => number_valid (f64_of_Z (-40)) (f64_of_Z 0) false v
  | Sv_WakeModel v => sha256_parse v = Some v
  | Sv_NearMissThreshold v => number_valid (f64_ratio 5 100) (f64_ratio 60 100) true v
  | Sv_SaveWakeClips _ => True
  | Sv_WakeArbitrationMs n => 0 <= n <= 2000
  | Sv_WakeSound _ => True
  | Sv_WakeOpenRules v => rules_valid 4 v
  | Sv_WakeShadowRules v => rules_valid 8 v
  | Sv_NsAsr _ => True
  | Sv_SaveUtterances _ => True
  | Sv_ExtendedUtterances _ => True
  | Sv_PauseAsr v => pause_valid v
  | Sv_LedScene _ => True
  | Sv_LedListenColor v => led_color_new v = Ok v
  | Sv_LedThinkColor v => led_color_new v = Ok v
  | Sv_MeterAttack v => number_valid (f64_ratio 5 100) (f64_of_Z 1) false v
  | Sv_MeterDecay v => number_valid (f64_ratio 2 100) (f64_of_Z 1) false v
  | Sv_MeterFloor v => number_valid (f64_of_Z 0) (f64_ratio 6 10) false v
  | Sv_MeterGamma v => number_valid (f64_of_Z 1) (f64_ratio 35 10) false v
  | Sv_MeterRef v => number_valid (f64_ratio 2 100) (f64_of_Z 1) false v
  | Sv_MeterCurve v => number_valid (f64_ratio 3 10) (f64_of_Z 2) false v
  | Sv_ButtonSingleTapEvent _ => True
  | Sv_ButtonMultiTapMs n => 0 <= n <= 600
  | Sv_BleProxyEnabled _ => True
  | Sv_TimerSound v => sound_new (sound_str v) = Ok v
  | Sv_TimerRingSeconds n => 30 <= n <= 1800
  | Sv_TimerRingGapSeconds v => number_valid (f64_of_Z 0) (f64_of_Z 10) false v
  | Sv_AlarmSound v => sound_new (sound_str v) = Ok v
  | Sv_TranscriptFix _ => True
  | Sv_TranscriptFixTerms v => fix_valid v
  | Sv_TranscriptFixPhrases v => fix_valid v
  | Sv_TranscriptFixPronunciations v => pronunciations_valid v
  | Sv_ScreenWake _ => True
  | Sv_ScreenWakeUrl v => kiosk_url_new v = Ok v
  | Sv_ScreenWakePassword v => kiosk_password_new v = Ok v
  | Sv_KioskPort n => 1 <= n <= 65535
  | Sv_TurnViewLinger v => number_valid (f64_of_Z 0) (f64_of_Z 60) false v
  | Sv_StartupVolume n => 0 <= n <= 127
  end.

(** *** The types at their ranges *)
Ltac number_laws_tac := apply number_laws; split; vm_compute; reflexivity.
Ltac whole_laws_tac := apply whole_laws; lia.
Lemma duck_db_laws : SettingLaws DuckDb (number_valid (f64_of_Z (-40)) (f64_of_Z 0) false).
Proof. number_laws_tac. Qed.
Lemma near_miss_floor_laws : SettingLaws NearMissFloor (number_valid (f64_ratio 5 100) (f64_ratio 60 100) true).
Proof. number_laws_tac. Qed.
Lemma timer_ring_gap_seconds_laws : SettingLaws TimerRingGapSeconds (number_valid (f64_of_Z 0) (f64_of_Z 10) false).
Proof. number_laws_tac. Qed.
Lemma turn_view_linger_laws : SettingLaws TurnViewLinger (number_valid (f64_of_Z 0) (f64_of_Z 60) false).
Proof. number_laws_tac. Qed.
Lemma meter_attack_laws : SettingLaws MeterAttack (number_valid (f64_ratio 5 100) (f64_of_Z 1) false).
Proof. number_laws_tac. Qed.
Lemma meter_decay_laws : SettingLaws MeterDecay (number_valid (f64_ratio 2 100) (f64_of_Z 1) false).
Proof. number_laws_tac. Qed.
Lemma meter_floor_laws : SettingLaws MeterFloor (number_valid (f64_of_Z 0) (f64_ratio 6 10) false).
Proof. number_laws_tac. Qed.
Lemma meter_gamma_laws : SettingLaws MeterGamma (number_valid (f64_of_Z 1) (f64_ratio 35 10) false).
Proof. number_laws_tac. Qed.
Lemma meter_ref_laws : SettingLaws MeterRef (number_valid (f64_ratio 2 100) (f64_of_Z 1) false).
Proof. number_laws_tac. Qed.
Lemma meter_curve_laws : SettingLaws MeterCurve (number_valid (f64_ratio 3 10) (f64_of_Z 2) false).
Proof. number_laws_tac. Qed.
Lemma arbitration_window_ms_laws : SettingLaws ArbitrationWindowMs (fun n => 0 <= n <= 2000).
Proof. whole_laws_tac. Qed.
Lemma multi_tap_ms_laws : SettingLaws MultiTapMs (fun n => 0 <= n <= 600).
Proof. whole_laws_tac. Qed.
Lemma timer_ring_seconds_laws : SettingLaws TimerRingSeconds (fun n => 30 <= n <= 1800).
Proof. whole_laws_tac. Qed.
Lemma kiosk_port_laws : SettingLaws KioskPort (fun n => 1 <= n <= 65535).
Proof. whole_laws_tac. Qed.
Lemma startup_volume_laws : SettingLaws StartupVolume (fun n => 0 <= n <= 127).
Proof. whole_laws_tac. Qed.
Lemma scene_laws : SettingLaws LedSceneType (fun _ => True).
Proof. exact (word_laws Ls_Standard). Qed.
Lemma fix_mode_laws : SettingLaws TranscriptFix (fun _ => True).
Proof. exact (word_laws Tf_Shadow). Qed.
Lemma open_rules_laws : SettingLaws ExtraOpenRules (rules_valid 4).
Proof. apply rules_laws. split_and!; [cbn; lia|constructor|]. by intros i j a b _ Ha. Qed.
Lemma shadow_rules_laws : SettingLaws ShadowRules (rules_valid 8).
Proof. apply rules_laws, default_shadow_rules_valid. Qed.
Lemma listen_laws : SettingLaws ListenColor (fun v => led_color_new v = Ok v).
Proof. apply color_laws. vm_compute. reflexivity. Qed.
Lemma think_laws : SettingLaws ThinkColor (fun v => led_color_new v = Ok v).
Proof. apply color_laws. vm_compute. reflexivity. Qed.
Section laws.
Context {U : Unicode} {UL : UnicodeLaws U}.

Lemma url_laws : SettingLaws KioskUrl (fun v => kiosk_url_new v = Ok v).
Proof. apply kiosk_url_laws. apply default_url_ok. Qed.

(** *** Every key at once *)
Lemma value_default_valid k : value_valid (key_get default_settings k).
Proof.
  destruct k.
  - exact (law_default bands_laws).
  - exact (law_default boolean_laws).
  - exact (law_default duck_db_laws).
  - exact (law_default sha_laws).
  - exact (law_default near_miss_floor_laws).
  - exact (law_default boolean_laws).
  - exact (law_default arbitration_window_ms_laws).
  - exact (law_default boolean_laws).
  - exact (law_default open_rules_laws).
  - exact (law_default shadow_rules_laws).
  - exact (law_default boolean_laws).
  - exact (law_default boolean_laws).
  - exact (law_default boolean_laws).
  - exact (law_default pause_laws).
  - exact (law_default scene_laws).
  - exact (law_default listen_laws).
  - exact (law_default think_laws).
  - exact (law_default meter_attack_laws).
  - exact (law_default meter_decay_laws).
  - exact (law_default meter_floor_laws).
  - exact (law_default meter_gamma_laws).
  - exact (law_default meter_ref_laws).
  - exact (law_default meter_curve_laws).
  - exact (law_default boolean_laws).
  - exact (law_default multi_tap_ms_laws).
  - exact (law_default boolean_laws).
  - exact (law_default sound_laws).
  - exact (law_default timer_ring_seconds_laws).
  - exact (law_default timer_ring_gap_seconds_laws).
  - exact (law_default sound_laws).
  - exact (law_default fix_mode_laws).
  - exact (law_default fix_list_laws).
  - exact (law_default fix_list_laws).
  - exact (law_default pronunciations_laws).
  - exact (law_default boolean_laws).
  - exact (law_default url_laws).
  - exact (law_default password_laws).
  - exact (law_default kiosk_port_laws).
  - exact (law_default turn_view_linger_laws).
  - exact (law_default startup_volume_laws).
Qed.
Lemma value_read_valid k j v : exact_json j -> value_parse k j = Ok v -> value_valid v.
Proof.
  intros Hj H. unfold value_parse, map_ok in H. destruct k; apply let_Ok in H as (x & Hx & [= <-]).
  - exact (law_read bands_laws _ _ Hj Hx).
  - exact (law_read boolean_laws _ _ Hj Hx).
  - exact (law_read duck_db_laws _ _ Hj Hx).
  - exact (law_read sha_laws _ _ Hj Hx).
  - exact (law_read near_miss_floor_laws _ _ Hj Hx).
  - exact (law_read boolean_laws _ _ Hj Hx).
  - exact (law_read arbitration_window_ms_laws _ _ Hj Hx).
  - exact (law_read boolean_laws _ _ Hj Hx).
  - exact (law_read open_rules_laws _ _ Hj Hx).
  - exact (law_read shadow_rules_laws _ _ Hj Hx).
  - exact (law_read boolean_laws _ _ Hj Hx).
  - exact (law_read boolean_laws _ _ Hj Hx).
  - exact (law_read boolean_laws _ _ Hj Hx).
  - exact (law_read pause_laws _ _ Hj Hx).
  - exact (law_read scene_laws _ _ Hj Hx).
  - exact (law_read listen_laws _ _ Hj Hx).
  - exact (law_read think_laws _ _ Hj Hx).
  - exact (law_read meter_attack_laws _ _ Hj Hx).
  - exact (law_read meter_decay_laws _ _ Hj Hx).
  - exact (law_read meter_floor_laws _ _ Hj Hx).
  - exact (law_read meter_gamma_laws _ _ Hj Hx).
  - exact (law_read meter_ref_laws _ _ Hj Hx).
  - exact (law_read meter_curve_laws _ _ Hj Hx).
  - exact (law_read boolean_laws _ _ Hj Hx).
  - exact (law_read multi_tap_ms_laws _ _ Hj Hx).
  - exact (law_read boolean_laws _ _ Hj Hx).
  - exact (law_read sound_laws _ _ Hj Hx).
  - exact (law_read timer_ring_seconds_laws _ _ Hj Hx).
  - exact (law_read timer_ring_gap_seconds_laws _ _ Hj Hx).
  - exact (law_read sound_laws _ _ Hj Hx).
  - exact (law_read fix_mode_laws _ _ Hj Hx).
  - exact (law_read fix_list_laws _ _ Hj Hx).
  - exact (law_read fix_list_laws _ _ Hj Hx).
  - exact (law_read pronunciations_laws _ _ Hj Hx).
  - exact (law_read boolean_laws _ _ Hj Hx).
  - exact (law_read url_laws _ _ Hj Hx).
  - exact (law_read password_laws _ _ Hj Hx).
  - exact (law_read kiosk_port_laws _ _ Hj Hx).
  - exact (law_read turn_view_linger_laws _ _ Hj Hx).
  - exact (law_read startup_volume_laws _ _ Hj Hx).
Qed.
(** A value of a type with laws reads back under its key. *)
Ltac read_back laws v Hv constructor :=
  destruct (law_back laws v Hv) as (He & w & Hw & Hq & Hv2); split; [exact He|];
  exists (constructor w); cbn [value_key value_to_json]; rewrite Hw; done.
Lemma value_back v :
  value_valid v -> exact_json (value_to_json v) /\
    exists w, value_parse (value_key v) (value_to_json v) = Ok w /\ value_eqb v w = true /\ value_valid w.
Proof.
  intros Hv. unfold value_parse, map_ok. destruct v as [v|v|v|v|v|v|v|v|v|v|v|v|v|v|v|v|v|v|v|v|v|v|v|v|v|v|v|v|v|v|v|v|v|v|v|v|v|v|v|v].
  - read_back bands_laws v Hv Sv_EqBands.
  - read_back boolean_laws v Hv Sv_EqLoudness.
  - read_back duck_db_laws v Hv Sv_DuckDb.
  - read_back sha_laws v Hv Sv_WakeModel.
  - read_back near_miss_floor_laws v Hv Sv_NearMissThreshold.
  - read_back boolean_laws v Hv Sv_SaveWakeClips.
  - read_back arbitration_window_ms_laws v Hv Sv_WakeArbitrationMs.
  - read_back boolean_laws v Hv Sv_WakeSound.
  - read_back open_rules_laws v Hv Sv_WakeOpenRules.
  - read_back shadow_rules_laws v Hv Sv_WakeShadowRules.
  - read_back boolean_laws v Hv Sv_NsAsr.
  - read_back boolean_laws v Hv Sv_SaveUtterances.
  - read_back boolean_laws v Hv Sv_ExtendedUtterances.
  - read_back pause_laws v Hv Sv_PauseAsr.
  - read_back scene_laws v Hv Sv_LedScene.
  - read_back listen_laws v Hv Sv_LedListenColor.
  - read_back think_laws v Hv Sv_LedThinkColor.
  - read_back meter_attack_laws v Hv Sv_MeterAttack.
  - read_back meter_decay_laws v Hv Sv_MeterDecay.
  - read_back meter_floor_laws v Hv Sv_MeterFloor.
  - read_back meter_gamma_laws v Hv Sv_MeterGamma.
  - read_back meter_ref_laws v Hv Sv_MeterRef.
  - read_back meter_curve_laws v Hv Sv_MeterCurve.
  - read_back boolean_laws v Hv Sv_ButtonSingleTapEvent.
  - read_back multi_tap_ms_laws v Hv Sv_ButtonMultiTapMs.
  - read_back boolean_laws v Hv Sv_BleProxyEnabled.
  - read_back sound_laws v Hv Sv_TimerSound.
  - read_back timer_ring_seconds_laws v Hv Sv_TimerRingSeconds.
  - read_back timer_ring_gap_seconds_laws v Hv Sv_TimerRingGapSeconds.
  - read_back sound_laws v Hv Sv_AlarmSound.
  - read_back fix_mode_laws v Hv Sv_TranscriptFix.
  - read_back fix_list_laws v Hv Sv_TranscriptFixTerms.
  - read_back fix_list_laws v Hv Sv_TranscriptFixPhrases.
  - read_back pronunciations_laws v Hv Sv_TranscriptFixPronunciations.
  - read_back boolean_laws v Hv Sv_ScreenWake.
  - read_back url_laws v Hv Sv_ScreenWakeUrl.
  - read_back password_laws v Hv Sv_ScreenWakePassword.
  - read_back kiosk_port_laws v Hv Sv_KioskPort.
  - read_back turn_view_linger_laws v Hv Sv_TurnViewLinger.
  - read_back startup_volume_laws v Hv Sv_StartupVolume.
Qed.

(** C35: Settings survive storage. Every default is valid; a value read from JSON is
    under the key it was read for and valid; a valid value is written as exact JSON
    that reads back, under the same key, as a valid value equal to it; and setting it
    changes what that key holds and nothing else. *)
Theorem settings_round_trip :
  (forall k, value_key (key_get default_settings k) = k /\ value_valid (key_get default_settings k)) /\
  (forall k j v, exact_json j -> value_parse k j = Ok v -> value_key v = k /\ value_valid v) /\
  (forall v, value_valid v -> exact_json (value_to_json v) /\
     exists w, value_parse (value_key v) (value_to_json v) = Ok w /\ value_eqb v w = true /\ value_valid w) /\
  (forall v s k, key_get (key_set v s) k = if bool_decide (k = value_key v) then v else key_get s k) /\
  (forall s s', (forall k, key_get s k = key_get s' k) -> s = s').
Proof.
  split_and!.
  - intros k. split; [apply get_key|apply value_default_valid].
  - intros k j v Hj Hp. split; [by eapply parse_key|by eapply value_read_valid].
  - exact value_back.
  - exact get_set.
  - exact settings_ext.
Qed.
End laws.

Lemma settings_round_trip_witness :
  exists w, value_parse (H:=ascii) Sk_WakeArbitrationMs (value_to_json (H:=ascii) (Sv_WakeArbitrationMs 250)) = Ok w /\
    value_eqb (H:=ascii) (Sv_WakeArbitrationMs 250) w = true.
Proof.
  destruct (settings_round_trip (U:=ascii)) as (_ & _ & Hb & _).
  destruct (Hb (Sv_WakeArbitrationMs 250)) as (_ & w & Hw & He & _); [vm_compute; split; discriminate|]. by exists w.
Defined.
