(* ===== verification/Stored.v ===== *)
(** * Stored settings and edits ([settings/src/stored.rs], [edit.rs])

    The settings documents as the database stores them, read tolerantly and
    written back in the same shape; how the fleet's values and a device's
    combine; and the edits the dashboard sends. *)
From Stdlib Require Import Floats.SpecFloat.
From S2P Require Import Prelude Bytes WireEnum Float Ema Vocab Json Policy Clock Evidence Level Transcript Document Values Settings.

(** [serde_json] reading a text: the tree it holds, members in their order; its
    error as text. *)
Class SerdeText := { document_events : string -> result string Value }.
Definition json_parse `{SerdeText} (text : string) : result string Json :=
  let? tree := document_events text in Ok (json_from_value tree).

Inductive StoredIssue :=
  | Si_Unreadable (reason : string)
  | Si_Unrecognised (key : string)
  | Si_Removed (key : string)
  | Si_Invalid (key : SettingKey) (error : ValueError)
  | Si_UnknownSection (section : string)
  | Si_UseGlobalMismatch (use_global_config : bool).

Abbreviation SettingMap := (gmap SettingKey SettingValue).
(** A [BTreeMap]'s entries and values, in the order of the keys. *)
Definition map_entries (m : SettingMap) : list (SettingKey * SettingValue) :=
  omap (fun k => (fun v => (k, v)) <$> m !! k) ALL.
Definition map_values (m : SettingMap) : list SettingValue := (map_entries m).*2.

(** ** One document *)
Record StoredConfig := mkStoredConfig {
  sc_text : option string;
  sc_document : option JsonObject;
  sc_values : SettingMap;
  sc_issues : list StoredIssue;
}.

Section stored.
Context `{Unicode} `{SerdeText}.

Definition push_value (v : SettingValue) (k : SettingKey) (c : StoredConfig) : StoredConfig :=
  mkStoredConfig (sc_text c) (sc_document c) (<[k := v]> (sc_values c)) (sc_issues c).
Definition push_issue (i : StoredIssue) (c : StoredConfig) : StoredConfig :=
  mkStoredConfig (sc_text c) (sc_document c) (sc_values c) (sc_issues c ++ [i]).

Definition stored_entry (c : StoredConfig) (entry : string * Json) : StoredConfig :=
  let '(key, value) := entry in
  match from_wire key with
  | Some setting =>
      match value_parse setting value with
      | Ok v => push_value v setting c
      | Err error => push_issue (Si_Invalid setting error) c
      end
  | None => push_issue (if bool_decide (key ∈ REMOVED_KEYS) then Si_Removed key else Si_Unrecognised key) c
  end.

Definition stored_config_parse (text : option string) : StoredConfig :=
  match text with
  | None => mkStoredConfig None (Some []) ∅ []
  | Some text =>
      let config := mkStoredConfig (Some text) None ∅ [] in
      match json_parse text with
      | Ok (JObject object) =>
          let config := fold_left stored_entry object config in
          mkStoredConfig (sc_text config) (Some object) (sc_values config) (sc_issues config)
      | Ok _ => push_issue (Si_Unreadable "not a JSON object") config
      | Err e => push_issue (Si_Unreadable e) config
      end
  end.

Definition change_one (values : SettingMap) (acc : JsonObject * bool) (value : SettingValue) : JsonObject * bool :=
  let '(document, changed) := acc in
  let key := value_key value in
  if match values !! key with Some v => value_eqb v value | None => false end then acc
  else (obj_insert (as_str key) (value_to_json value) document, true).
(** [Err] is [Unwritable]. *)
Definition with_changes (c : StoredConfig) (changes : list SettingValue) : result unit (option string) :=
  match sc_document c with
  | None => Err tt
  | Some document =>
      let '(document, changed) := fold_left (change_one (sc_values c)) changes (document, false) in
      Ok (if changed then Some (to_python_text (JObject document)) else None)
  end.

(** ** The overridden sections *)
Record StoredSections := mkStoredSections {
  ss_known : SectionSet;
  ss_unknown : list string;
  ss_issues : list StoredIssue;
}.

Definition section_issue (i : StoredIssue) (s : StoredSections) : StoredSections :=
  mkStoredSections (ss_known s) (ss_unknown s) (ss_issues s ++ [i]).
Definition section_item (s : StoredSections) (item : Json) : StoredSections :=
  match item with
  | JString id =>
      match from_wire id with
      | Some section => mkStoredSections ({[section]} ∪ ss_known s) (ss_unknown s) (ss_issues s)
      | None => mkStoredSections (ss_known s) (ss_unknown s ++ [id]) (ss_issues s ++ [Si_UnknownSection id])
      end
  | other => section_issue (Si_UnknownSection (to_python_text other)) s
  end.
Definition stored_sections_parse (text : string) (use_global_config : bool) : StoredSections :=
  let sections := mkStoredSections ∅ [] [] in
  let sections :=
    match json_parse text with
    | Ok (JArray items) => fold_left section_item items sections
    | Ok _ => section_issue (Si_Unreadable "config_sections is not a JSON list") sections
    | Err e => section_issue (Si_Unreadable ("config_sections: " +:+ e)) sections
    end in
  if negb (Bool.eqb use_global_config (bool_decide (ss_known sections = ∅)))
  then section_issue (Si_UseGlobalMismatch use_global_config) sections else sections.

Definition render_sections (s : StoredSections) (sections : SectionSet) : string :=
  to_python_text (JArray
    (((fun s : Section_ => JString (as_str s)) <$> retain (fun s => bool_decide (s ∈ sections)) ALL) ++
     (JString <$> ss_unknown s))).

(** ** The values in force *)
Definition fleet_settings (fleet : StoredConfig) : DeviceSettings :=
  fold_left (fun s v => key_set v s) (map_values (sc_values fleet)) default_settings.

Definition value_applies (overridden : SectionSet) (k : SettingKey) : bool :=
  match key_scope k with
  | Sc_Section section => bool_decide (section ∈ overridden)
  | Sc_State => true
  end.
Definition effective_settings (fleet : DeviceSettings) (device : StoredConfig) (overridden : SectionSet) : DeviceSettings :=
  fold_left (fun s '(k, v) => if value_applies overridden k then key_set v s else s)
    (map_entries (sc_values device)) fleet.

(** ** Edits *)
Definition SECTIONS_FIELD : string := "config_sections".

Inductive EditError :=
  | Ee_NotAnObject (reason : string)
  | Ee_UnknownKey (key : string)
  | Ee_RemovedKey (key : string)
  | Ee_InvalidValue (key : SettingKey) (error : ValueError)
  | Ee_UnknownSection (id : string)
  | Ee_InvalidSections (reason : string)
  | Ee_UnknownWakeModel (sha : string)
  | Ee_OpenRuleIsBaseline (rule : WakeRule)
  | Ee_UnknownDevice (device : string)
  | Ee_StoredUnreadable
  | Ee_Database (reason : string)
  | Ee_Closed.

Definition parse_entry (key : string) (value : Json) : result EditError SettingValue :=
  match from_wire key with
  | Some setting => map_err (Ee_InvalidValue setting) (value_parse setting value)
  | None => if bool_decide (key ∈ REMOVED_KEYS) then Err (Ee_RemovedKey key) else Err (Ee_UnknownKey key)
  end.

(** [SettingsPatch::set]. *)
Definition patch_set (v : SettingValue) (p : SettingMap) : SettingMap := <[value_key v := v]> p.

Fixpoint patch_entries (patch : SettingMap) (entries : JsonObject) : result EditError SettingMap :=
  match entries with
  | [] => Ok patch
  | (key, value) :: entries => let? v := parse_entry key value in patch_entries (patch_set v patch) entries
  end.
Definition patch_from_json (value : Json) : result EditError SettingMap :=
  match value with
  | JObject object => patch_entries ∅ object
  | _ => Err (Ee_NotAnObject "not a JSON object")
  end.

Fixpoint parse_section_items (items : list Json) : result EditError SectionSet :=
  match items with
  | [] => Ok ∅
  | item :: items =>
      let? section :=
        match item with
        | JString id => ok_or (Ee_UnknownSection id) (from_wire id)
        | other => Err (Ee_InvalidSections (to_python_text other +:+ " is not a section id"))
        end in
      let? rest := parse_section_items items in
      Ok ({[section]} ∪ rest)
  end.
Definition parse_sections (value : Json) : result EditError SectionSet :=
  match value with
  | JArray items => parse_section_items items
  | _ => Err (Ee_InvalidSections "must be a list of section ids")
  end.

Record DeviceEdit := mkDeviceEdit { de_sections : option SectionSet; de_values : SettingMap }.
Fixpoint edit_entries (edit : DeviceEdit) (entries : JsonObject) : result EditError DeviceEdit :=
  match entries with
  | [] => Ok edit
  | (key, value) :: entries =>
      if String.eqb key SECTIONS_FIELD then
        let? sections := parse_sections value in
        edit_entries (mkDeviceEdit (Some sections) (de_values edit)) entries
      else
        let? v := parse_entry key value in
        edit_entries (mkDeviceEdit (de_sections edit) (patch_set v (de_values edit))) entries
  end.
Definition edit_from_json (value : Json) : result EditError DeviceEdit :=
  match value with
  | JObject object => edit_entries (mkDeviceEdit None ∅) object
  | _ => Err (Ee_NotAnObject "not a JSON object")
  end.
End stored.

(** ** Facts *)
(** Every value is under its own key. *)
Definition keyed (m : SettingMap) : Prop := forall k v, m !! k = Some v -> value_key v = k.

Lemma elem_of_map_entries m k v : (k, v) ∈ map_entries m <-> m !! k = Some v.
Proof.
  unfold map_entries. rewrite list_elem_of_omap. split.
  - intros (k' & _ & Hk). destruct (m !! k') as [w|] eqn:E; [|done]. by injection Hk as <- <-.
  - intros Hk. exists k. split; [apply all_complete|]. by rewrite Hk.
Qed.

Lemma map_entries_NoDup m : NoDup (map_entries m).*1.
Proof.
  unfold map_entries. assert (Hn : NoDup (ALL : list SettingKey)).
  { apply (NoDup_fmap_1 as_str). apply spellings_distinct. }
  revert Hn. generalize (ALL : list SettingKey). induction l as [|k l IH]; [constructor|].
  intros [Hk Hl]%NoDup_cons. cbn. destruct (m !! k) as [v|]; cbn; [|by apply IH]. apply NoDup_cons. split; [|by apply IH].
  intros ([k' v'] & -> & Hin)%list_elem_of_fmap. apply list_elem_of_omap in Hin as (k2 & Hk2 & Hv2).
  cbn in Hk. destruct (m !! k2); [|done]. by injection Hv2 as -> _.
Qed.

(** Setting the values of entries with distinct keys: each key has its value, the
    others what they had. *)
Lemma fold_set_get (l : list (SettingKey * SettingValue)) (applies : SettingKey -> bool) s k :
  NoDup l.*1 -> (forall k v, (k, v) ∈ l -> value_key v = k) ->
  key_get (fold_left (fun s '(k, v) => if applies k then key_set v s else s) l s) k =
  match list_find (fun e => fst e = k) l with
  | Some (_, (_, v)) => if applies k then v else key_get s k
  | None => key_get s k
  end.
Proof.
  revert s. induction l as [|[a v] l IH]; intros s Hn Hk; [done|]. cbn in Hn. apply NoDup_cons in Hn as [Ha Hn].
  assert (Hk' : forall k v, (k, v) ∈ l -> value_key v = k) by (intros; apply Hk; by right).
  assert (Hav : value_key v = a) by (apply Hk; by left).
  cbn [fold_left list_find]. rewrite IH by done. cbn [fst]. destruct (decide (a = k)) as [->|Hne].
  - assert (Hf : list_find (fun e : SettingKey * SettingValue => fst e = k) l = None).
    { apply list_find_None. apply Forall_forall. intros [b w] Hin Hb. cbn in Hb. subst b. apply Ha.
      by apply (list_elem_of_fmap_2 fst) in Hin. }
    rewrite Hf. destruct (applies k); [|done]. rewrite <- Hav. apply get_set_same.
  - destruct (list_find _ l) as [[i [b w]]|] eqn:Ef; cbn.
    + destruct (applies k) eqn:Eb; [done|]. destruct (applies a); [|done]. apply get_set_other. congruence.
    + destruct (applies a); [|done]. apply get_set_other. congruence.
Qed.

Lemma find_entry m k :
  match list_find (fun e : SettingKey * SettingValue => fst e = k) (map_entries m) with
  | Some (_, (_, v)) => m !! k = Some v
  | None => m !! k = None
  end.
Proof.
  destruct (list_find _ _) as [[i [b v]]|] eqn:E.
  - apply list_find_Some in E as (Hl & Hb & _). cbn in Hb. subst b.
    apply list_elem_of_lookup_2 in Hl. by apply elem_of_map_entries.
  - destruct (m !! k) as [v|] eqn:Ek; [|done]. exfalso. apply list_find_None in E.
    rewrite Forall_forall in E. apply (E (k, v)); [|done]. by apply elem_of_map_entries.
Qed.

Section facts.
Context `{Unicode} `{SerdeText}.

Lemma effective_get fleet device overridden k :
  keyed (sc_values device) ->
  key_get (effective_settings fleet device overridden) k =
  match sc_values device !! k with
  | Some v => if value_applies overridden k then v else key_get fleet k
  | None => key_get fleet k
  end.
Proof.
  intros Hk. unfold effective_settings. rewrite fold_set_get.
  - pose proof (find_entry (sc_values device) k) as Hf. destruct (list_find _ _) as [[i [b v]]|]; by rewrite Hf.
  - apply map_entries_NoDup.
  - intros k' v Hin%elem_of_map_entries. by apply Hk.
Qed.

Lemma fleet_get fleet k :
  keyed (sc_values fleet) ->
  key_get (fleet_settings fleet) k = default (key_get default_settings k) (sc_values fleet !! k).
Proof.
  intros Hk. unfold fleet_settings, map_values.
  assert (Hf : fold_left (fun s v => key_set v s) (map_entries (sc_values fleet)).*2 default_settings =
               fold_left (fun s '(k, v) => if (fun _ => true) k then key_set v s else s) (map_entries (sc_values fleet)) default_settings).
  { generalize default_settings. generalize (map_entries (sc_values fleet)).
    induction l as [|[a v] l IH]; intros s; [done|]. apply IH. }
  rewrite Hf, (fold_set_get (map_entries (sc_values fleet)) (fun _ => true)).
  - pose proof (find_entry (sc_values fleet) k) as Hl. destruct (list_find _ _) as [[i [b v]]|]; by rewrite Hl.
  - apply map_entries_NoDup.
  - intros k' v Hin%elem_of_map_entries. by apply Hk.
Qed.

(** *** Reading a document *)
Definition entry_issue (entry : string * Json) : option StoredIssue :=
  let '(key, value) := entry in
  match from_wire key with
  | Some setting => match value_parse setting value with Ok _ => None | Err e => Some (Si_Invalid setting e) end
  | None => Some (if bool_decide (key ∈ REMOVED_KEYS) then Si_Removed key else Si_Unrecognised key)
  end.
Definition entry_value (o : JsonObject) (k : SettingKey) : option SettingValue :=
  match obj_get (as_str k) o with
  | Some j => match value_parse k j with Ok v => Some v | Err _ => None end
  | None => None
  end.

Definition member_value (entry : string * Json) (k : SettingKey) : option SettingValue :=
  if decide (as_str k = entry.1) then match value_parse k entry.2 with Ok v => Some v | Err _ => None end else None.

Lemma stored_entry_spec c entry :
  let c' := stored_entry c entry in
  sc_text c' = sc_text c /\ sc_issues c' = sc_issues c ++ option_list (entry_issue entry) /\
  forall k, sc_values c' !! k = match member_value entry k with Some v => Some v | None => sc_values c !! k end.
Proof.
  destruct entry as [key j]. unfold stored_entry, entry_issue, member_value. cbn [fst snd].
  destruct (from_wire key) as [setting|] eqn:Ew.
  - pose proof (from_wire_Some _ _ Ew) as <-. destruct (value_parse setting j) as [v|e] eqn:Ep.
    + split_and!; [done|by rewrite app_nil_r|]. intros k. cbn [push_value sc_values]. case_decide as Ek.
      * apply (inj as_str) in Ek as ->. rewrite Ep. by rewrite lookup_insert_eq.
      * rewrite lookup_insert_ne; [done|]. by intros ->.
    + split_and!; [done|done|]. intros k. case_decide as Ek; [|done]. apply (inj as_str) in Ek as ->. by rewrite Ep.
  - split_and!; [done|done|]. intros k. rewrite from_wire_None in Ew. by rewrite decide_False by apply Ew.
Qed.

Lemma stored_entries_spec o c :
  NoDup o.*1 ->
  let c' := fold_left stored_entry o c in
  sc_text c' = sc_text c /\ sc_issues c' = sc_issues c ++ omap entry_issue o /\
  forall k, sc_values c' !! k = match entry_value o k with Some v => Some v | None => sc_values c !! k end.
Proof.
  revert c. induction o as [|e o IH]; intros c Hn.
  { cbn. split_and!; [done|by rewrite app_nil_r|done]. }
  rewrite fmap_cons in Hn. apply NoDup_cons in Hn as [Hkey Hn].
  destruct (stored_entry_spec c e) as (Ht1 & Hi1 & Hv1). destruct (IH (stored_entry c e) Hn) as (Ht & Hi & Hv).
  cbn [fold_left]. split_and!; [congruence| |].
  - rewrite Hi, Hi1, <- app_assoc. f_equal. cbn. by destruct (entry_issue e).
  - intros k. rewrite Hv, Hv1. unfold entry_value, member_value. destruct e as [key j]. cbn [obj_get fst snd] in *.
    destruct (String.eqb_spec key (as_str k)) as [->|Hne].
    + rewrite decide_True by done. destruct (obj_get (as_str k) o) as [w|] eqn:E; [|done]. exfalso. apply Hkey.
      apply obj_get_Some in E; [|done]. by apply (list_elem_of_fmap_2 fst) in E.
    + rewrite decide_False by congruence. done.
Qed.

Lemma json_object_NoDup v o : json_from_value v = JObject o -> NoDup o.*1.
Proof. destruct v; cbn; try done. intros [= <-]. apply obj_collect_NoDup. Qed.
Lemma json_parse_NoDup text o : json_parse text = Ok (JObject o) -> NoDup o.*1.
Proof. intros (v & _ & [= E])%let_Ok. by eapply json_object_NoDup. Qed.

(** What a stored text gives: its values are those its members parse to, its
    issues name every other member in their order, and a text that is no object
    gives neither. *)
Lemma stored_parse_spec text :
  let c := stored_config_parse (Some text) in
  sc_text c = Some text /\ keyed (sc_values c) /\
  match json_parse text with
  | Ok (JObject o) =>
      sc_document c = Some o /\ NoDup o.*1 /\ sc_issues c = omap entry_issue o /\
      forall k, sc_values c !! k = entry_value o k
  | Ok _ => sc_document c = None /\ sc_values c = ∅ /\ sc_issues c = [Si_Unreadable "not a JSON object"]
  | Err e => sc_document c = None /\ sc_values c = ∅ /\ sc_issues c = [Si_Unreadable e]
  end.
Proof.
  cbn. destruct (json_parse text) as [[| | | | |o]|e] eqn:Ep; cbn;
    try (split_and!; [done|by intros k v; rewrite lookup_empty|done|done|done]).
  pose proof (json_parse_NoDup _ _ Ep) as Hn.
  destruct (stored_entries_spec o (mkStoredConfig (Some text) None ∅ []) Hn) as (Ht & Hi & Hv). cbn in Ht, Hi, Hv.
  assert (Hval : forall k, sc_values (fold_left stored_entry o (mkStoredConfig (Some text) None ∅ [])) !! k = entry_value o k)
    by (intros k; rewrite Hv, lookup_empty; by destruct (entry_value o k)).
  split_and!; [done| |done|done|done|done]. intros k v Hk. rewrite Hval in Hk. unfold entry_value in Hk.
  destruct (obj_get (as_str k) o) as [j|]; [|done]. destruct (value_parse k j) as [w|] eqn:E; [|done].
  injection Hk as ->. by eapply parse_key.
Qed.
End facts.

(** *** Writing a document *)
Section writing.
Context {U : Unicode} {UL : UnicodeLaws U} `{SerdeText}.

(** The values of a configuration are those of its document. *)
Definition stored_ok (c : StoredConfig) : Prop :=
  keyed (sc_values c) /\
  match sc_document c with
  | Some d => NoDup d.*1 /\ forall k, sc_values c !! k = entry_value d k
  | None => sc_values c = ∅
  end.

Lemma stored_parse_ok text : stored_ok (stored_config_parse text).
Proof.
  destruct text as [text|].
  2: { split; [by intros k v; cbn; rewrite lookup_empty|]. cbn. split; [constructor|]. intros k. by rewrite lookup_empty. }
  destruct (stored_parse_spec text) as (_ & Hk & Hm). split; [done|].
  destruct (json_parse text) as [[]|]; destruct Hm as (-> & Hm); try apply Hm.
  destruct Hm as (Hn & _ & Hv). done.
Qed.

Definition stored_already (values : SettingMap) (v : SettingValue) : bool :=
  match values !! value_key v with Some w => value_eqb w v | None => false end.

Lemma change_one_spec values d changed v :
  change_one values (d, changed) v =
  if stored_already values v then (d, changed) else (obj_insert (as_str (value_key v)) (value_to_json v) d, true).
Proof. done. Qed.

Definition written_member (values : SettingMap) (changes : list SettingValue) (key : string) : option Json :=
  match list_find (fun v => as_str (value_key v) = key) changes with
  | Some (_, v) => if stored_already values v then None else Some (value_to_json v)
  | None => None
  end.

Lemma changes_fold values changes d changed :
  NoDup (value_key <$> changes) -> NoDup d.*1 ->
  let '(d', changed') := fold_left (change_one values) changes (d, changed) in
  NoDup d'.*1 /\ d.*1 `prefix_of` d'.*1 /\
  changed' = changed || any (fun v => negb (stored_already values v)) changes /\
  forall key, obj_get key d' = match written_member values changes key with Some j => Some j | None => obj_get key d end.
Proof.
  revert d changed. induction changes as [|v changes IH]; intros d changed Hn Hd; cbn [fold_left].
  { split_and!; [done|done|by rewrite orb_false_r|done]. }
  rewrite fmap_cons in Hn. apply NoDup_cons in Hn as [Hv Hn]. rewrite change_one_spec.
  assert (Hrest : written_member values changes (as_str (value_key v)) = None).
  { unfold written_member. destruct (list_find _ changes) as [[i w]|] eqn:E; [|done]. exfalso.
    apply list_find_Some in E as (Hl & Ew & _). apply (inj as_str) in Ew. apply Hv. rewrite <- Ew.
    apply list_elem_of_fmap_2. by eapply list_elem_of_lookup_2. }
  assert (Hone : forall key, written_member values (v :: changes) key =
            if decide (as_str (value_key v) = key) then (if stored_already values v then None else Some (value_to_json v))
            else written_member values changes key).
  { intros key. unfold written_member. cbn [list_find]. destruct (decide (as_str (value_key v) = key)); [done|].
    by destruct (list_find _ changes) as [[i w]|]. }
  destruct (stored_already values v) eqn:Es.
  - specialize (IH d changed Hn Hd). destruct (fold_left _ changes (d, changed)) as [d' changed'].
    destruct IH as (H1 & H2 & H3 & H4). split_and!; [done|done|by cbn; rewrite Es|]. intros key. rewrite H4, Hone.
    case_decide as Ek; [|done]. subst key. by rewrite Hrest.
  - specialize (IH (obj_insert (as_str (value_key v)) (value_to_json v) d) true Hn (obj_insert_NoDup _ _ _ Hd)).
    destruct (fold_left _ changes _) as [d' changed']. destruct IH as (H1 & H2 & H3 & H4). split_and!; [done| | |].
    + etrans; [|exact H2]. rewrite obj_insert_keys. case_bool_decide; [done|]. by eexists.
    + rewrite H3. cbn. by rewrite Es, orb_true_r.
    + intros key. rewrite H4, Hone, obj_get_insert. case_decide as Ek.
      * subst key. by rewrite Hrest, String.eqb_refl.
      * destruct (written_member values changes key); [done|]. by rewrite (proj2 (String.eqb_neq _ _) Ek).
Qed.

(** Two values equal as the code compares them, the one read the other written. *)
Definition same_value (v w : SettingValue) : Prop := value_eqb v w = true \/ value_eqb w v = true.
Definition reads_back (d : JsonObject) : Prop := json_parse (to_python_text (JObject d)) = Ok (JObject d).
Definition change_of (changes : list SettingValue) (k : SettingKey) : option SettingValue :=
  snd <$> list_find (fun v => value_key v = k) changes.

Lemma written_member_change values changes k :
  written_member values changes (as_str k) =
  match change_of changes k with Some v => if stored_already values v then None else Some (value_to_json v) | None => None end.
Proof.
  unfold written_member, change_of.
  assert (Hf : list_find (fun v => as_str (value_key v) = as_str k) changes = list_find (fun v => value_key v = k) changes).
  { apply list_find_ext. intros v. split; [apply (inj as_str)|by intros ->]. }
  rewrite Hf. destruct (list_find (fun v => value_key v = k) changes) as [[i v]|]; reflexivity.
Qed.

(** The document an edit writes, when it writes one. *)
Definition new_document (c : StoredConfig) (changes : list SettingValue) : option JsonObject :=
  match sc_document c with
  | Some d => let '(d', changed) := fold_left (change_one (sc_values c)) changes (d, false) in if changed : bool then Some d' else None
  | None => None
  end.

(** The contract of an edit of a stored document. *)
Lemma with_changes_spec c changes :
  stored_ok c -> NoDup (value_key <$> changes) -> Forall value_valid changes ->
  match with_changes c changes with
  | Err _ => sc_document c = None
  | Ok None =>
      (exists d, sc_document c = Some d) /\
      forall v, v ∈ changes -> exists w, sc_values c !! value_key v = Some w /\ value_eqb w v = true
  | Ok (Some text) =>
      exists d d', sc_document c = Some d /\ new_document c changes = Some d' /\ text = to_python_text (JObject d') /\
        d.*1 `prefix_of` d'.*1 /\ NoDup d'.*1 /\
        (forall key, (forall v, v ∈ changes -> as_str (value_key v) <> key) -> obj_get key d' = obj_get key d) /\
        (reads_back d' ->
         let c' := stored_config_parse (Some text) in
         sc_document c' = Some d' /\
         forall k, match change_of changes k with
                   | Some v => exists w, sc_values c' !! k = Some w /\ same_value v w
                   | None => sc_values c' !! k = sc_values c !! k
                   end)
  end.
Proof.
  intros [Hk Hdoc] Hn Hval. unfold with_changes, new_document. destruct (sc_document c) as [d|] eqn:Ed; [|done].
  destruct Hdoc as [Hd Hv]. pose proof (changes_fold (sc_values c) changes d false Hn Hd) as Hf.
  destruct (fold_left _ changes (d, false)) as [d' changed]. destruct Hf as (Hd' & Hp & Hch & Hget).
  destruct changed.
  - exists d, d'. split_and!; [done|done|done|done|done| |].
    + intros key Hkey. rewrite Hget. unfold written_member. destruct (list_find _ changes) as [[i v]|] eqn:E; [|done].
      apply list_find_Some in E as (Hl & Ev & _). exfalso. apply (Hkey v); [by eapply list_elem_of_lookup_2|done].
    + intros Hr. destruct (stored_parse_spec (to_python_text (JObject d'))) as (_ & _ & Hm).
      unfold reads_back in Hr. rewrite Hr in Hm. destruct Hm as (Hdoc' & _ & _ & Hv'). cbn zeta. split; [done|].
      intros k. pose proof (written_member_change (sc_values c) changes k) as Hw.
      destruct (change_of changes k) as [v|] eqn:Ec.
      * assert (Hvk : value_key v = k /\ v ∈ changes).
        { unfold change_of in Ec. destruct (list_find _ changes) as [[i w]|] eqn:E; [|done]. injection Ec as ->.
          apply list_find_Some in E as (Hl & Ev & _). split; [done|by eapply list_elem_of_lookup_2]. }
        destruct Hvk as [<- Hin]. destruct (stored_already (sc_values c) v) eqn:Es.
        -- unfold stored_already in Es. destruct (sc_values c !! value_key v) as [w|] eqn:Ew; [|done].
           exists w. split; [|by right]. rewrite Hv'. unfold entry_value. rewrite Hget, Hw.
           rewrite Hv in Ew. exact Ew.
        -- rewrite Forall_forall in Hval. destruct (value_back v (Hval v Hin)) as (_ & w & Hw2 & He & _).
           exists w. split; [|by left]. rewrite Hv'. unfold entry_value. rewrite Hget, Hw. by rewrite Hw2.
      * rewrite Hv', Hv. unfold entry_value. by rewrite Hget, Hw.
  - split; [by exists d|]. intros v Hin. cbn in Hch. symmetry in Hch.
    rewrite any_false in Hch. specialize (Hch v Hin). apply negb_false_iff in Hch. unfold stored_already in Hch.
    destruct (sc_values c !! value_key v) as [w|]; [|done]. by exists w.
Qed.

(** *** Sections *)
Lemma render_parse_spec s sections use_global :
  (forall id, id ∈ ss_unknown s -> @from_wire Section_ _ id = None) ->
  json_parse (render_sections s sections) =
    Ok (JArray (((fun s : Section_ => JString (as_str s)) <$> retain (fun s => bool_decide (s ∈ sections)) ALL) ++
                (JString <$> ss_unknown s))) ->
  let s' := stored_sections_parse (render_sections s sections) use_global in
  ss_known s' = sections /\ ss_unknown s' = ss_unknown s /\
  (Si_UseGlobalMismatch use_global ∈ ss_issues s' <-> use_global <> bool_decide (sections = ∅)).
Proof.
  intros Hu Hr. unfold stored_sections_parse. rewrite Hr. clear Hr.
  assert (Hknown : forall l acc, fold_left section_item ((fun s : Section_ => JString (as_str s)) <$> l) acc =
            mkStoredSections (list_to_set l ∪ ss_known acc) (ss_unknown acc) (ss_issues acc)).
  { induction l as [|a l IH]; intros acc; cbn [fmap list_fmap fold_left].
    - destruct acc as [k u i]. cbn. f_equal. set_solver.
    - rewrite IH. unfold section_item. rewrite from_wire_as_str. cbn. f_equal. set_solver. }
  assert (Hunknown : forall l acc, (forall id, id ∈ l -> @from_wire Section_ _ id = None) ->
            fold_left section_item (JString <$> l) acc =
            mkStoredSections (ss_known acc) (ss_unknown acc ++ l) (ss_issues acc ++ (Si_UnknownSection <$> l))).
  { induction l as [|a l IH]; intros acc Hl; cbn [fmap list_fmap fold_left].
    - destruct acc. cbn. by rewrite !app_nil_r.
    - rewrite IH by (intros; apply Hl; by right). unfold section_item. rewrite Hl by by left. cbn.
      by rewrite <- !app_assoc. }
  rewrite fold_left_app, Hknown, Hunknown by done. cbn [ss_known ss_unknown ss_issues].
  assert (Hs : list_to_set (retain (fun s => bool_decide (s ∈ sections)) ALL) ∪ ∅ = sections).
  { apply set_eq. intros x. rewrite elem_of_union, elem_of_list_to_set, elem_of_retain, bool_decide_eq_true.
    pose proof (all_complete x). set_solver. }
  rewrite Hs. cbn [app].
  assert (Hni : Si_UseGlobalMismatch use_global ∉ Si_UnknownSection <$> ss_unknown s).
  { intros (? & ? & _)%list_elem_of_fmap. done. }
  destruct (Bool.eqb use_global (bool_decide (sections = ∅))) eqn:Eb; cbn.
  - apply Bool.eqb_prop in Eb. split_and!; [done|done|]. split; [done|]. by rewrite <- Eb.
  - apply Bool.eqb_false_iff in Eb. split_and!; [done|done|]. split; [done|]. intros _. apply elem_of_app. right. by left.
Qed.
End writing.

(** *** Edits *)
Section edits.
Context {U : Unicode} {UL : UnicodeLaws U}.

Definition entry_ok (entry : string * Json) : bool := is_ok (parse_entry entry.1 entry.2).

Lemma parse_entry_Ok key j v :
  parse_entry key j = Ok v <-> key = as_str (value_key v) /\ value_parse (value_key v) j = Ok v.
Proof.
  unfold parse_entry. destruct (from_wire key) as [k|] eqn:Ek.
  - apply from_wire_Some in Ek as <-. rewrite map_err_Ok. split.
    + intros Hp. pose proof (parse_key _ _ _ Hp) as ->. done.
    + intros [E Hp]. apply (inj as_str) in E as ->. done.
  - rewrite from_wire_None in Ek. split; [by destruct (bool_decide _)|]. intros [-> _]. by destruct (Ek (value_key v)).
Qed.

(** An edit reads every member, or refuses with the first that is not a setting,
    is a removed one or has an invalid value. *)
Lemma edit_entries_spec entries edit :
  NoDup entries.*1 ->
  match edit_entries edit entries with
  | Ok e =>
      (forall key j, (key, j) ∈ entries -> key <> SECTIONS_FIELD -> entry_ok (key, j) = true) /\
      (forall k, de_values e !! k = match entry_value entries k with Some v => Some v | None => de_values edit !! k end) /\
      match obj_get SECTIONS_FIELD entries with
      | Some j => exists s, parse_sections j = Ok s /\ de_sections e = Some s
      | None => de_sections e = de_sections edit
      end
  | Err err =>
      exists good key j rest, entries = good ++ (key, j) :: rest /\
        (forall g, g ∈ good -> g.1 = SECTIONS_FIELD /\ is_ok (parse_sections g.2) = true \/ g.1 <> SECTIONS_FIELD /\ entry_ok g = true) /\
        (key = SECTIONS_FIELD /\ parse_sections j = Err err \/ key <> SECTIONS_FIELD /\ parse_entry key j = Err err)
  end.
Proof.
  revert edit. induction entries as [|[key j] entries IH]; intros edit Hn; cbn [edit_entries].
  { split_and!; [by intros ? ? ?%elem_of_nil|done|done]. }
  rewrite fmap_cons in Hn. apply NoDup_cons in Hn as [Hkey Hn]. cbn [fst] in Hkey.
  assert (Hbad : forall err, (exists good key' j' rest, entries = good ++ (key', j') :: rest /\
        (forall g, g ∈ good -> g.1 = SECTIONS_FIELD /\ is_ok (parse_sections g.2) = true \/ g.1 <> SECTIONS_FIELD /\ entry_ok g = true) /\
        (key' = SECTIONS_FIELD /\ parse_sections j' = Err err \/ key' <> SECTIONS_FIELD /\ parse_entry key' j' = Err err)) ->
      (key = SECTIONS_FIELD /\ is_ok (parse_sections j) = true \/ key <> SECTIONS_FIELD /\ entry_ok (key, j) = true) ->
      exists good key' j' rest, (key, j) :: entries = good ++ (key', j') :: rest /\
        (forall g, g ∈ good -> g.1 = SECTIONS_FIELD /\ is_ok (parse_sections g.2) = true \/ g.1 <> SECTIONS_FIELD /\ entry_ok g = true) /\
        (key' = SECTIONS_FIELD /\ parse_sections j' = Err err \/ key' <> SECTIONS_FIELD /\ parse_entry key' j' = Err err)).
  { intros err (good & key' & j' & rest & -> & Hg & He) Hok. exists ((key, j) :: good), key', j', rest.
    split_and!; [done| |done]. intros g [->|Hin]%elem_of_cons; [done|by apply Hg]. }
  destruct (String.eqb_spec key SECTIONS_FIELD) as [->|Hne].
  - destruct (parse_sections j) as [s|err] eqn:Es.
    + specialize (IH (mkDeviceEdit (Some s) (de_values edit)) Hn).
      destruct (edit_entries _ entries) as [e|err]; [|apply Hbad; [exact IH|left; split; [done|]; rewrite ?Es; done]].
      destruct IH as (H1 & H2 & H3). split_and!.
      * intros k i [[= -> ->]|Hin]%elem_of_cons Hk; [done|by eapply H1].
      * intros k. rewrite H2. cbn [de_values]. unfold entry_value. cbn [obj_get].
        destruct (String.eqb_spec SECTIONS_FIELD (as_str k)) as [E|_]; [|done].
        exfalso. assert (Hf : @from_wire SettingKey _ SECTIONS_FIELD = None) by (vm_compute; reflexivity).
        rewrite from_wire_None in Hf. by apply (Hf k).
      * cbn [obj_get]. rewrite String.eqb_refl. exists s. split; [done|].
        destruct (obj_get SECTIONS_FIELD entries) as [j'|] eqn:E'; [|by rewrite H3].
        exfalso. apply Hkey. apply obj_get_Some in E'; [|done]. by apply (list_elem_of_fmap_2 fst) in E'.
    + exists [], SECTIONS_FIELD, j, entries. split_and!; [done|by intros ? ?%elem_of_nil|by left].
  - destruct (parse_entry key j) as [v|err] eqn:Ep.
    + specialize (IH (mkDeviceEdit (de_sections edit) (patch_set v (de_values edit))) Hn).
      destruct (edit_entries _ entries) as [e|err]; [|apply Hbad; [exact IH|right; split; [done|]; unfold entry_ok; cbn [fst snd]; rewrite ?Ep; done]].
      destruct IH as (H1 & H2 & H3). apply parse_entry_Ok in Ep as [Ek Ep]. split_and!.
      * intros k i [[= -> ->]|Hin]%elem_of_cons Hk; [|by eapply H1]. unfold entry_ok. cbn [fst snd].
        rewrite (proj2 (parse_entry_Ok key j v)) by done. done.
      * intros k. rewrite H2. cbn [de_values]. unfold patch_set, entry_value. cbn [obj_get].
        destruct (String.eqb_spec key (as_str k)) as [E|Hk].
        -- subst key. apply (inj as_str) in E. subst k. rewrite Ep.
           destruct (obj_get (as_str (value_key v)) entries) as [w|] eqn:E2; [|by rewrite lookup_insert_eq].
           exfalso. apply Hkey. apply obj_get_Some in E2; [|done]. by apply (list_elem_of_fmap_2 fst) in E2.
        -- rewrite lookup_insert_ne; [done|]. intros <-. congruence.
      * cbn [obj_get]. by rewrite (proj2 (String.eqb_neq _ _) Hne).
    + exists [], key, j, entries. split_and!; [done|by intros ? ?%elem_of_nil|by right].
Qed.

Lemma entry_value_valid o k v : exact_json (JObject o) -> entry_value o k = Some v -> value_key v = k /\ value_valid v.
Proof.
  intros Ho%exact_entries Hv. unfold entry_value in Hv. destruct (obj_get (as_str k) o) as [j|] eqn:Ej; [|done].
  destruct (value_parse k j) as [w|] eqn:Ep; [|done]. injection Hv as ->. split; [by eapply parse_key|].
  eapply value_read_valid; [|done]. clear Ep. induction o as [|[a i] o IH]; [done|].
  rewrite fmap_cons in Ho. apply Forall_cons in Ho as [Hi Ho]. cbn [obj_get] in Ej.
  destruct (String.eqb a (as_str k)); [by injection Ej as <-|by apply IH].
Qed.

Lemma patch_entries_edit entries p s :
  (forall j, (SECTIONS_FIELD, j) ∉ entries) ->
  patch_entries p entries = (let? e := edit_entries (mkDeviceEdit s p) entries in Ok (de_values e)).
Proof.
  revert p. induction entries as [|[key j] entries IH]; intros p Hs; [done|]. cbn [patch_entries edit_entries].
  destruct (String.eqb_spec key SECTIONS_FIELD) as [->|_]; [by destruct (Hs j); left|].
  destruct (parse_entry key j) as [v|]; [|done]. cbn [de_sections de_values]. apply IH.
  intros i Hi. apply (Hs i). by right.
Qed.
End edits.

(** ** The contract *)
Section stored_contract.
Context {U : Unicode} {UL : UnicodeLaws U} `{SerdeText}.

(** An edit of a stored document takes and disturbs nothing else. It is refused
    exactly when the stored text could not be read; it writes nothing exactly when
    every value is stored already; otherwise the text it writes is that of a document
    with the old members in their places, unknown and removed ones untouched, and read
    back - where the reader reads what was written - every edited setting has its new
    value and every other the value it had. *)
Theorem stored_edit_contract stored_text changes :
  NoDup (value_key <$> changes) -> Forall value_valid changes ->
  let c := stored_config_parse stored_text in
  match with_changes c changes with
  | Err _ => sc_document c = None
  | Ok None => forall v, v ∈ changes -> exists w, sc_values c !! value_key v = Some w /\ value_eqb w v = true
  | Ok (Some text) =>
      exists d d', sc_document c = Some d /\ text = to_python_text (JObject d') /\ d.*1 `prefix_of` d'.*1 /\ NoDup d'.*1 /\
        (forall key, (forall v, v ∈ changes -> as_str (value_key v) <> key) -> obj_get key d' = obj_get key d) /\
        (reads_back d' -> forall k,
           match change_of changes k with
           | Some v => exists w, sc_values (stored_config_parse (Some text)) !! k = Some w /\ same_value v w
           | None => sc_values (stored_config_parse (Some text)) !! k = sc_values c !! k
           end)
  end.
Proof.
  intros Hn Hv. pose proof (with_changes_spec (stored_config_parse stored_text) changes (stored_parse_ok stored_text) Hn Hv) as Hs.
  cbv zeta. destruct (with_changes _ changes) as [[text|]|]; [|exact (proj2 Hs)|exact Hs].
  destruct Hs as (d & d' & Hd & _ & Ht & Hp & Hnd & Hrest & Hr). exists d, d'. split_and!; try done. intros Hb. exact (proj2 (Hr Hb)).
Qed.

(** The dashboard's edits are read whole or refused by the first thing wrong. An
    edit that is read had only settings with valid values, gives each exactly the value
    its member has, and overrides exactly the sections listed; one that is refused is
    refused with the error of its first member that is no setting, has a value out of
    its type's rules or lists a section that is none, everything before it being right. *)
Theorem edits_refused_by_first_fault entries :
  NoDup entries.*1 ->
  match edit_from_json (JObject entries) with
  | Ok e =>
      (forall key j, (key, j) ∈ entries -> key <> SECTIONS_FIELD -> exists v, parse_entry key j = Ok v) /\
      (forall k, de_values e !! k = entry_value entries k) /\
      match obj_get SECTIONS_FIELD entries with
      | Some j => exists s, parse_sections j = Ok s /\ de_sections e = Some s
      | None => de_sections e = None
      end
  | Err err =>
      exists good key j rest, entries = good ++ (key, j) :: rest /\
        (forall g, g ∈ good -> g.1 = SECTIONS_FIELD /\ is_ok (parse_sections g.2) = true \/ g.1 <> SECTIONS_FIELD /\ entry_ok g = true) /\
        (key = SECTIONS_FIELD /\ parse_sections j = Err err \/ key <> SECTIONS_FIELD /\ parse_entry key j = Err err)
  end.
Proof.
  intros Hn. pose proof (edit_entries_spec entries (mkDeviceEdit None ∅) Hn) as Hs. unfold edit_from_json.
  destruct (edit_entries _ entries) as [e|err]; [|exact Hs]. destruct Hs as (Hok & Hval & Hsec). split_and!; [| |exact Hsec].
  - intros key j Hin Hk. specialize (Hok key j Hin Hk). unfold entry_ok in Hok. cbn [fst snd] in Hok.
    destruct (parse_entry key j) as [v|]; [by exists v|discriminate Hok].
  - intros k. rewrite Hval. cbn [de_values]. rewrite lookup_empty. by destruct (entry_value entries k).
Qed.
End stored_contract.

(** *** Instances *)
#[local] Definition sample_edit_entries : JsonObject := [("nsAsr", JBool true); ("wakeSound", JNumber (NInt 3))].
#[local] Instance empty_reader : SerdeText := {| document_events text := Ok (VObject []) |}.
Lemma stored_edit_contract_witness :
  exists text, with_changes (H:=ascii) (stored_config_parse (H:=ascii) (Some "{}")) [Sv_NsAsr false] = Ok (Some text) /\
    exists d', text = to_python_text (JObject d') /\ NoDup d'.*1.
Proof.
  assert (Hn : NoDup (value_key <$> [Sv_NsAsr false])) by apply NoDup_singleton.
  assert (Hv : Forall (value_valid (H:=ascii)) [Sv_NsAsr false]) by (apply Forall_cons; split; [exact I|apply Forall_nil_2]).
  pose proof (stored_edit_contract (U:=ascii) (Some "{}") [Sv_NsAsr false] Hn Hv) as Hs. cbv zeta in Hs.
  assert (Hok : exists t, with_changes (H:=ascii) (stored_config_parse (H:=ascii) (Some "{}")) [Sv_NsAsr false] = Ok (Some t))
    by (eexists; vm_compute; reflexivity).
  destruct Hok as [t Ht]. rewrite Ht in Hs. destruct Hs as (d & d' & _ & Ht' & _ & Hnd & _). exists t. split; [exact Ht|]. by exists d'.
Defined.

Lemma edits_refused_by_first_fault_witness :
  exists err good key j rest, edit_from_json (H:=ascii) (JObject sample_edit_entries) = Err err /\
    sample_edit_entries = good ++ (key, j) :: rest.
Proof.
  pose proof (edits_refused_by_first_fault (U:=ascii) sample_edit_entries) as Hs.
  assert (Hok : is_ok (edit_from_json (H:=ascii) (JObject sample_edit_entries)) = false) by (vm_compute; reflexivity).
  destruct (edit_from_json (JObject sample_edit_entries)) as [e|err]; [discriminate Hok|].
  destruct Hs as (good & key & j & rest & E & _); [apply (bool_decide_unpack _); vm_compute; exact I|].
  by exists err, good, key, j, rest.
Defined.
