(* ===== verification/Registry.v ===== *)
(** * The wake-model registry ([settings/src/registry.rs])

    [registry.json] and the content-addressed graph and sidecar files it names.
    A file is its bytes, a directory a map from names; what an operation does to
    the directory is the list of its writes in order, so that an operation that
    fails or a process that dies part way has done a prefix of them. *)
From Stdlib Require Import Floats.SpecFloat.
From S2P Require Import Prelude Bytes WireEnum Float Ema Vocab Json Policy Clock Evidence Level Transcript Document Values Settings Stored.

(** [sha2] and the text of a UTF-8 error. *)
Class Digest := {
  digest : string -> list byte;
  utf8_error : string -> string;
}.
Class DigestLaws (D : Digest) : Prop := { digest_length : forall s, length (digest s) = 32%nat }.
(** [Sha256::of]. *)
Definition sha256_of `{Digest} (bytes : string) : string := sha256_from_digest (digest bytes).

Definition REGISTRY_FILE : string := "registry.json".
Definition REGISTRY_VERSION : Z := 2.
Definition MAX_GRAPH_BYTES : N := 20971520.
Definition MAX_SIDECAR_BYTES : N := 65536.

(** ** The sidecar *)
Inductive SidecarError :=
  | Sd_Unreadable (reason : string)
  | Sd_Type (kind : string)
  | Sd_SampleRate (rate : Z)
  | Sd_Window (window : Z)
  | Sd_NoLabels
  | Sd_WakeIndex (index : Z)
  | Sd_NormPeak (peak : F64)
  | Sd_NotPositive (field : string).

Record Sidecar := mkSidecar {
  sd_labels : list string;
  sd_wake_index : nat;
  sd_norm_peak : F64;
  sd_n_mels : option N;
  sd_clip_seconds : option F64;
}.
Definition SAMPLE_RATE : Z := 16000.
Definition WINDOW : Z := 22400.

Definition wrong {A} (name : string) : result SidecarError A :=
  Err (Sd_Unreadable (name +:+ " is missing or of the wrong type")).
Definition sidecar_whole (o : JsonObject) (name : string) : result SidecarError Z :=
  match obj_get name o ≫= json_as_whole with Some z => Ok z | None => wrong name end.
Fixpoint labels_of (items : list Json) : result SidecarError (list string) :=
  match items with
  | [] => Ok []
  | JString s :: items => let? rest := labels_of items in Ok (s :: rest)
  | _ :: _ => wrong "labels"
  end.
Definition f64_zero : F64 := S754_zero false.

Definition valid_utf8 (bytes : string) : bool := String.eqb (utf8 (chars bytes)) bytes.
Definition sidecar_object `{SerdeText, Digest} (bytes : string) : result SidecarError JsonObject :=
  if negb (valid_utf8 bytes) then Err (Sd_Unreadable (utf8_error bytes))
  else
    let? j := map_err Sd_Unreadable (json_parse bytes) in
    match j with JObject o => Ok o | _ => Err (Sd_Unreadable "not a JSON object") end.

Definition sidecar_fields (o : JsonObject) : result SidecarError Sidecar :=
  let? kind := match obj_get "type" o with Some (JString t) => Ok t | _ => wrong "type" end in
  if negb (String.eqb kind "bcresnet") then Err (Sd_Type kind) else
  let? rate := sidecar_whole o "sampleRate" in
  if negb (rate =? SAMPLE_RATE)%Z then Err (Sd_SampleRate rate) else
  let? window := sidecar_whole o "window" in
  if negb (window =? WINDOW)%Z then Err (Sd_Window window) else
  let? labels := match obj_get "labels" o with Some (JArray items) => labels_of items | _ => wrong "labels" end in
  if (length labels =? 0)%nat then Err Sd_NoLabels else
  let? wake_index := sidecar_whole o "wakeIndex" in
  if negb ((0 <=? wake_index) && (wake_index <? Z.of_nat (length labels)))%Z then Err (Sd_WakeIndex wake_index) else
  let? norm_peak := match obj_get "normPeak" o ≫= json_as_f64 with Some x => Ok x | None => wrong "normPeak" end in
  if negb (f64_ltb f64_zero norm_peak && f64_leb norm_peak (f64_of_Z 1)) then Err (Sd_NormPeak norm_peak) else
  let? n_mels :=
    match obj_get "nMels" o with
    | None => Ok None
    | Some v =>
        match json_as_whole v with
        | Some n => if ((0 <? n) && (n <=? 4294967295))%Z then Ok (Some (Z.to_N n)) else Err (Sd_NotPositive "nMels")
        | None => Err (Sd_NotPositive "nMels")
        end
    end in
  let? clip_seconds :=
    match obj_get "clipSeconds" o with
    | None => Ok None
    | Some v =>
        match json_as_f64 v with
        | Some s => if f64_ltb f64_zero s && f64_is_finite s then Ok (Some s) else Err (Sd_NotPositive "clipSeconds")
        | None => Err (Sd_NotPositive "clipSeconds")
        end
    end in
  Ok (mkSidecar labels (Z.to_nat wake_index) norm_peak n_mels clip_seconds).
Definition sidecar_parse `{SerdeText, Digest} (bytes : string) : result SidecarError Sidecar :=
  let? o := sidecar_object bytes in sidecar_fields o.

(** ** Thresholds, probe, spoken forms *)
Inductive ModelValueError :=
  | Mv_OutOfRange (name : string) (value : F64)
  | Mv_Order.

Record ModelThresholds := mkModelThresholds { mt_idle : F64; mt_playback : F64; mt_reference : F64 }.
Definition DEPLOYED_THRESHOLDS : ModelThresholds :=
  mkModelThresholds (f64_ratio 90 100) (f64_ratio 65 100) (f64_ratio 30 100).

Fixpoint check_named (ok : F64 -> bool) (named : list (string * F64)) : result ModelValueError unit :=
  match named with
  | [] => Ok tt
  | (name, value) :: named => if negb (ok value) then Err (Mv_OutOfRange name value) else check_named ok named
  end.
Definition model_thresholds_new (idle playback reference : F64) : result ModelValueError ModelThresholds :=
  let? _ := check_named unit_interval [("idle", idle); ("playback", playback); ("reference", reference)] in
  if negb (f64_leb reference playback && f64_leb playback idle) then Err Mv_Order
  else Ok (mkModelThresholds idle playback reference).

Record ProbeResult := mkProbeResult { pr_silence : F64; pr_noise : F64; pr_tone : F64 }.
Definition probe_score (x : F64) : bool := f64_leb f64_zero x && f64_leb x (f64_of_Z 1).
Definition probe_result_new (silence noise tone : F64) : result ModelValueError ProbeResult :=
  let? _ := check_named probe_score [("silence", silence); ("noise", noise); ("tone", tone)] in
  Ok (mkProbeResult silence noise tone).
Definition scores (p : ProbeResult) : list (string * F64) :=
  [("silence", pr_silence p); ("noise", pr_noise p); ("tone", pr_tone p)].

Definition is_ascii_lowercase (c : Ascii.ascii) : bool := (97 <=? byte_at c) && (byte_at c <=? 122).
Definition spoken_form_new (text : string) : result ModelValueError string :=
  if negb (String.eqb text "") && (String.length text <=? 64)%nat && string_all is_ascii_lowercase text then Ok text
  else Err (Mv_OutOfRange "spoken form (lowercase letters only)" (f64_of_Z (Z.of_nat (String.length text)))).

(** ** Models *)
Inductive FileStatus :=
  | Fs_Verified
  | Fs_UnsafeName
  | Fs_Missing (error : string)
  | Fs_HashMismatch (found : string).
#[export] Instance FileStatus_eq_dec : EqDecision FileStatus.
Proof. solve_decision. Defined.

Record WakeModel := mkWakeModel {
  wm_graph_file : string;
  wm_graph_sha256 : string;
  wm_sidecar_file : string;
  wm_sidecar_sha256 : string;
  wm_thresholds : ModelThresholds;
  wm_wake_phrase : string;
  wm_verify_core : string;
  wm_probe : option ProbeResult;
  wm_extra : JsonObject;
  wm_graph_status : FileStatus;
  wm_sidecar_status : FileStatus;
  wm_sidecar : option Sidecar;
}.

Definition is_usable (m : WakeModel) : bool :=
  bool_decide (wm_graph_status m = Fs_Verified) && bool_decide (wm_sidecar_status m = Fs_Verified) &&
  match wm_sidecar m with Some _ => true | None => false end.

(** [expect]: validated finite. *)
Definition stored_float (x : F64) : Json := default JNull (json_float x).
Definition model_to_json (m : WakeModel) : Json :=
  JObject
    (obj_insert "wake_phrase" (JString (wm_wake_phrase m))
    (obj_insert "verify_core" (JString (wm_verify_core m))
    (obj_insert "thresholds"
       (JObject [("idle", stored_float (mt_idle (wm_thresholds m)));
                 ("playback", stored_float (mt_playback (wm_thresholds m)));
                 ("reference", stored_float (mt_reference (wm_thresholds m)))])
    (obj_insert "sidecar_sha256" (JString (wm_sidecar_sha256 m))
    (obj_insert "sidecar_file" (JString (wm_sidecar_file m))
    (obj_insert "probe"
       (match wm_probe m with
        | Some p => JObject [("noise", stored_float (pr_noise p)); ("silence", stored_float (pr_silence p));
                             ("tone", stored_float (pr_tone p))]
        | None => JNull
        end)
    (obj_insert "graph_sha256" (JString (wm_graph_sha256 m))
    (obj_insert "graph_file" (JString (wm_graph_file m)) (wm_extra m))))))))).

(** ** Reading an entry *)
(** Why an entry is unreadable; the code keeps its text. *)
Inductive EntryReason :=
  | Er_NotAnObject
  | Er_NotAString (field : string)
  | Er_NotASha256 (field : string)
  | Er_NotANestedObject (field : string)
  | Er_UnknownField (field key : string)
  | Er_NotANumber (field name : string)
  | Er_Value (field : string) (error : ModelValueError).

Definition entry_text (o : JsonObject) (name : string) : result EntryReason string :=
  match obj_get name o with Some (JString s) => Ok s | _ => Err (Er_NotAString name) end.
Definition entry_sha (o : JsonObject) (name : string) : result EntryReason string :=
  let? text := entry_text o name in ok_or (Er_NotASha256 name) (sha256_parse text).
Definition entry_number (field : string) (inner : JsonObject) (name : string) : result EntryReason F64 :=
  ok_or (Er_NotANumber field name) (obj_get name inner ≫= json_as_f64).
Definition entry_numbers (o : JsonObject) (field a b c : string) : result EntryReason (F64 * F64 * F64) :=
  match obj_get field o with
  | Some (JObject inner) =>
      match find_first (fun '(k, _) => negb (bool_decide (k ∈ [a; b; c]))) inner with
      | Some (k, _) => Err (Er_UnknownField field k)
      | None =>
          let? x := entry_number field inner a in
          let? y := entry_number field inner b in
          let? z := entry_number field inner c in
          Ok (x, y, z)
      end
  | _ => Err (Er_NotANestedObject field)
  end.
Definition entry_spoken (o : JsonObject) (name : string) : result EntryReason string :=
  let? text := entry_text o name in map_err (Er_Value name) (spoken_form_new text).
Definition KNOWN_FIELDS : list string :=
  ["graph_file"; "graph_sha256"; "probe"; "sidecar_file"; "sidecar_sha256"; "thresholds"; "verify_core"; "wake_phrase"].

Definition registry_entry (raw : Json) : result EntryReason WakeModel :=
  match raw with
  | JObject o =>
      let? (idle, playback, reference) := entry_numbers o "thresholds" "idle" "playback" "reference" in
      let? thresholds := map_err (Er_Value "thresholds") (model_thresholds_new idle playback reference) in
      let? probe :=
        match obj_get "probe" o with
        | None | Some JNull => Ok None
        | Some _ =>
            let? (silence, noise, tone) := entry_numbers o "probe" "silence" "noise" "tone" in
            let? p := map_err (Er_Value "probe") (probe_result_new silence noise tone) in
            Ok (Some p)
        end in
      let extra := obj_collect (retain (fun '(k, _) => negb (bool_decide (k ∈ KNOWN_FIELDS))) o) in
      let? graph_file := entry_text o "graph_file" in
      let? graph_sha256 := entry_sha o "graph_sha256" in
      let? sidecar_file := entry_text o "sidecar_file" in
      let? sidecar_sha256 := entry_sha o "sidecar_sha256" in
      let? wake_phrase := entry_spoken o "wake_phrase" in
      let? verify_core := entry_spoken o "verify_core" in
      Ok (mkWakeModel graph_file graph_sha256 sidecar_file sidecar_sha256 thresholds wake_phrase verify_core
            probe extra (Fs_Missing "not checked") (Fs_Missing "not checked") None)
  | _ => Err Er_NotAnObject
  end.

(** ** The directory *)
Abbreviation Directory := (gmap string string).
Inductive FsOp :=
  | Fo_Write (name content : string)
  | Fo_Remove (name : string).
Definition apply_op (op : FsOp) (dir : Directory) : Directory :=
  match op with
  | Fo_Write name content => <[name := content]> dir
  | Fo_Remove name => delete name dir
  end.
Definition apply_ops (ops : list FsOp) (dir : Directory) : Directory := fold_left (fun d op => apply_op op d) ops dir.

Inductive RegistryError :=
  | Re_UnreadableIndex (reason : string)
  | Re_UnsupportedVersion (version : option Z)
  | Re_Size (what : string) (bytes max : N)
  | Re_Sidecar (error : SidecarError)
  | Re_ProbeTooHigh (probe : string) (score reference : F64)
  | Re_ExistingFileDiffers (name : string)
  | Re_UnknownModel (sha : string).

(** Writes made, in order, and the result when none of them fails. *)
Definition Step (A : Type) : Type := list FsOp * result RegistryError A.
Definition step_bind {A B} (s : Step A) (f : A -> Step B) : Step B :=
  let '(ops, r) := s in
  match r with
  | Ok a => let '(ops', r') := f a in (ops ++ ops', r')
  | Err e => (ops, Err e)
  end.
Definition step_err {A} (e : RegistryError) : Step A := ([], Err e).
Definition step_ok {A} (a : A) : Step A := ([], Ok a).

(** No separators, not hidden. *)
Definition forbidden_byte (c : Ascii.ascii) : bool :=
  let n := byte_at c in (n =? 47) || (n =? 92) || (n =? 0).
Definition safe_name (name : string) : bool :=
  match name with
  | EmptyString => false
  | String c _ => negb (byte_at c =? 46) && string_all (fun c => negb (forbidden_byte c)) name
  end.

Section files.
Context `{SerdeText} `{Digest}.

(** The text of an I/O error: a file that is not there. *)
Variable not_found : string.

Definition file_status (dir : Directory) (name sha256 : string) : FileStatus * option string :=
  if negb (safe_name name) then (Fs_UnsafeName, None)
  else match dir !! name with
       | Some bytes =>
           let found := sha256_of bytes in
           if String.eqb found sha256 then (Fs_Verified, Some bytes) else (Fs_HashMismatch found, None)
       | None => (Fs_Missing not_found, None)
       end.

Definition with_status (m : WakeModel) (graph sidecar_ : FileStatus) (parsed : option Sidecar) : WakeModel :=
  mkWakeModel (wm_graph_file m) (wm_graph_sha256 m) (wm_sidecar_file m) (wm_sidecar_sha256 m) (wm_thresholds m)
    (wm_wake_phrase m) (wm_verify_core m) (wm_probe m) (wm_extra m) graph sidecar_ parsed.
Definition verify_files (dir : Directory) (m : WakeModel) : WakeModel * option SidecarError :=
  let graph := fst (file_status dir (wm_graph_file m) (wm_graph_sha256 m)) in
  let '(status, bytes) := file_status dir (wm_sidecar_file m) (wm_sidecar_sha256 m) in
  match bytes with
  | None => (with_status m graph status (wm_sidecar m), None)
  | Some bytes =>
      match sidecar_parse bytes with
      | Ok s => (with_status m graph status (Some s), None)
      | Err e => (with_status m graph status (wm_sidecar m), Some e)
      end
  end.

(** ** The registry *)
Inductive Entry :=
  | En_Model (m : WakeModel)
  | En_Unreadable (raw : Json).
Inductive RegistryIssue :=
  | Ri_UnreadableEntry (index : nat) (reason : EntryReason)
  | Ri_UnusableFiles (graph_sha256 : string) (graph sidecar_ : FileStatus) (sidecar_error : option SidecarError)
  | Ri_DuplicateGraph (sha : string).

Record WakeRegistry := mkWakeRegistry {
  rg_entries : list Entry;
  rg_extra : JsonObject;
  rg_issues : list RegistryIssue;
}.

Definition entry_model (e : Entry) : option WakeModel :=
  match e with En_Model m => Some m | En_Unreadable _ => None end.
Definition models (r : WakeRegistry) : list WakeModel := omap entry_model (rg_entries r).
Definition model_of (sha : string) (r : WakeRegistry) : option WakeModel :=
  find_first (fun m => String.eqb (wm_graph_sha256 m) sha) (models r).

Definition asset_of (sha : string) (m : WakeModel) : option string :=
  if String.eqb (wm_graph_sha256 m) sha then Some (wm_graph_file m)
  else if String.eqb (wm_sidecar_sha256 m) sha then Some (wm_sidecar_file m) else None.
(** [find_map]. *)
Fixpoint find_map {A B} (f : A -> option B) (l : list A) : option B :=
  match l with [] => None | a :: l => match f a with Some b => Some b | None => find_map f l end end.
Definition asset_path (sha : string) (r : WakeRegistry) : option string :=
  find_map (asset_of sha) (retain is_usable (models r)).

Definition entry_json (e : Entry) : Json :=
  match e with En_Model m => model_to_json m | En_Unreadable raw => raw end.
Definition index_text (r : WakeRegistry) : string :=
  to_compact_sorted_text
    (JObject (obj_insert "version" (json_int REGISTRY_VERSION)
                (obj_insert "models" (JArray (entry_json <$> rg_entries r)) (rg_extra r)))) +:+
  String (ascii_of 10) "".

(** One entry of the index as it is opened. *)
Definition open_entry (dir : Directory) (acc : list Entry * list RegistryIssue) (raw : Json) :
    list Entry * list RegistryIssue :=
  let '(entries, issues) := acc in
  match registry_entry raw with
  | Err reason => (entries ++ [En_Unreadable raw], issues ++ [Ri_UnreadableEntry (length entries) reason])
  | Ok m =>
      if any (fun e => match e with En_Model n => String.eqb (wm_graph_sha256 n) (wm_graph_sha256 m) | _ => false end) entries
      then (entries ++ [En_Unreadable raw], issues ++ [Ri_DuplicateGraph (wm_graph_sha256 m)])
      else
        let '(m, sidecar_error) := verify_files dir m in
        let issues :=
          if is_usable m then issues
          else issues ++ [Ri_UnusableFiles (wm_graph_sha256 m) (wm_graph_status m) (wm_sidecar_status m) sidecar_error] in
        (entries ++ [En_Model m], issues)
  end.

Definition from_index (dir : Directory) (bytes : string) : result RegistryError WakeRegistry :=
  if negb (valid_utf8 bytes) then Err (Re_UnreadableIndex (utf8_error bytes))
  else
    let? j := map_err Re_UnreadableIndex (json_parse bytes) in
    match j with
    | JObject top =>
        let '(top, version) := obj_remove "version" top in
        let version := version ≫= json_as_whole in
        if negb (bool_decide (version = Some REGISTRY_VERSION)) then Err (Re_UnsupportedVersion version)
        else
          let '(top, raw) := obj_remove "models" top in
          match raw with
          | Some (JArray raw_entries) =>
              let '(entries, issues) := fold_left (open_entry dir) raw_entries ([], []) in
              Ok (mkWakeRegistry entries top issues)
          | _ => Err (Re_UnreadableIndex "models is not a list")
          end
    | _ => Err (Re_UnreadableIndex "not a JSON object")
    end.

Definition write_content_addressed (dir : Directory) (name bytes sha256 : string) : Step unit :=
  match dir !! name with
  | Some existing =>
      if String.eqb (sha256_of existing) sha256 then step_ok tt else step_err (Re_ExistingFileDiffers name)
  | None => ([Fo_Write name bytes], Ok tt)
  end.

Definition store_files (dir : Directory) (graph sidecar_bytes : string) (thresholds : ModelThresholds)
    (wake_phrase verify_core : string) (probe : option ProbeResult) : Step WakeModel :=
  match sidecar_parse sidecar_bytes with
  | Err e => step_err (Re_Sidecar e)
  | Ok parsed =>
      let graph_sha256 := sha256_of graph in
      let sidecar_sha256 := sha256_of sidecar_bytes in
      let graph_file := graph_sha256 +:+ ".onnx" in
      let sidecar_file := sidecar_sha256 +:+ ".json" in
      step_bind (write_content_addressed dir graph_file graph graph_sha256) (fun _ =>
      step_bind (write_content_addressed dir sidecar_file sidecar_bytes sidecar_sha256) (fun _ =>
      step_ok (mkWakeModel graph_file graph_sha256 sidecar_file sidecar_sha256 thresholds wake_phrase verify_core
                 probe [] Fs_Verified Fs_Verified (Some parsed))))
  end.

Definition with_entries (r : WakeRegistry) (entries : list Entry) : Step WakeRegistry :=
  let r := mkWakeRegistry entries (rg_extra r) (rg_issues r) in
  ([Fo_Write REGISTRY_FILE (index_text r)], Ok r).

Record NewModel := mkNewModel {
  nm_graph : string;
  nm_sidecar : string;
  nm_thresholds : ModelThresholds;
  nm_wake_phrase : string;
  nm_verify_core : string;
  nm_probe : ProbeResult;
}.
Inductive AddOutcome :=
  | Ao_Added (m : WakeModel)
  | Ao_AlreadyRegistered (m : WakeModel).

Definition size_error (what bytes : string) (max : N) : option RegistryError :=
  let n := N.of_nat (String.length bytes) in
  if (n =? 0) || (max <? n) then Some (Re_Size what n max) else None.

Definition added (dir : Directory) (r : WakeRegistry) (new : NewModel) : Step (WakeRegistry * AddOutcome) :=
  match size_error "graph" (nm_graph new) MAX_GRAPH_BYTES with
  | Some e => step_err e
  | None =>
  match size_error "sidecar" (nm_sidecar new) MAX_SIDECAR_BYTES with
  | Some e => step_err e
  | None =>
  match sidecar_parse (nm_sidecar new) with
  | Err e => step_err (Re_Sidecar e)
  | Ok _ =>
  match model_of (sha256_of (nm_graph new)) r with
  | Some existing => step_ok (r, Ao_AlreadyRegistered existing)
  | None =>
      let reference := mt_reference (nm_thresholds new) in
      match find_first (fun '(_, s) => f64_leb reference s) (scores (nm_probe new)) with
      | Some (probe, score) => step_err (Re_ProbeTooHigh probe score reference)
      | None =>
          step_bind (store_files dir (nm_graph new) (nm_sidecar new) (nm_thresholds new) (nm_wake_phrase new)
                       (nm_verify_core new) (Some (nm_probe new))) (fun m =>
          step_bind (with_entries r (rg_entries r ++ [En_Model m])) (fun r =>
          step_ok (r, Ao_Added m)))
      end
  end end end end.

Definition names_file (file : string) (m : WakeModel) : bool :=
  String.eqb (wm_graph_file m) file || String.eqb (wm_sidecar_file m) file.
(** One of the two removals: a file that is not there is no error. *)
Definition remove_unnamed (dir : Directory) (r : WakeRegistry) (file : string) : list FsOp :=
  if negb (any (names_file file) (models r)) && safe_name file then
    match dir !! file with Some _ => [Fo_Remove file] | None => [] end
  else [].

Definition without (dir : Directory) (r : WakeRegistry) (sha : string) : Step WakeRegistry :=
  match model_of sha r with
  | None => step_err (Re_UnknownModel sha)
  | Some m =>
      let entries :=
        retain (fun e => negb (match e with En_Model n => String.eqb (wm_graph_sha256 n) sha | _ => false end)) (rg_entries r) in
      step_bind (with_entries r entries) (fun r =>
        let first := remove_unnamed dir r (wm_graph_file m) in
        (first ++ remove_unnamed (apply_ops first dir) r (wm_sidecar_file m), Ok r))
  end.

(** [seed], once the seed's files are read and hash to what they are pinned to. *)
Definition seed (dir : Directory) (graph sidecar_ : string) (thresholds : ModelThresholds)
    (wake_phrase verify_core : string) (probe : option ProbeResult) : Step WakeRegistry :=
  step_bind (store_files dir graph sidecar_ thresholds wake_phrase verify_core probe) (fun m =>
  with_entries (mkWakeRegistry [] [] []) [En_Model m]).
End files.

(** ** Facts *)
Section facts.
Context `{SerdeText} {D : Digest} {DL : DigestLaws D} (not_found : string).

Lemma length_append a b : String.length (a +:+ b) = (String.length a + String.length b)%nat.
Proof. induction a as [|c a IH]; [done|]. rewrite append_cons. cbn. by rewrite IH. Qed.
Lemma length_from_digest d : String.length (sha256_from_digest d) = (2 * length d)%nat.
Proof. induction d as [|b d IH]; [done|]. cbn [sha256_from_digest String.length length]. rewrite IH. lia. Qed.
Lemma length_sha s : String.length (sha256_of s) = 64%nat.
Proof. unfold sha256_of. by rewrite length_from_digest, digest_length. Qed.

Lemma append_inj_length a b c d : String.length a = String.length b -> a +:+ c = b +:+ d -> c = d.
Proof.
  revert b. induction a as [|x a IH]; intros [|y b] Hl E; try done. rewrite !append_cons in E.
  injection E as _ E. cbn in Hl. apply (IH b); [lia|done].
Qed.
Lemma graph_not_sidecar a b : sha256_of a +:+ ".onnx" <> sha256_of b +:+ ".json".
Proof. intros E. apply append_inj_length in E; [done|by rewrite !length_sha]. Qed.
Lemma stored_not_index a suffix : (1 <= String.length suffix)%nat -> sha256_of a +:+ suffix <> REGISTRY_FILE.
Proof. intros Hl E. apply (f_equal String.length) in E. rewrite length_append, length_sha in E. cbn in E. lia. Qed.

(** The file is there and hashes to its name. *)
Definition file_ok (dir : Directory) (name sha : string) : Prop :=
  exists bytes, dir !! name = Some bytes /\ sha256_of bytes = sha.
Definition files_ok (dir : Directory) (m : WakeModel) : Prop :=
  file_ok dir (wm_graph_file m) (wm_graph_sha256 m) /\ file_ok dir (wm_sidecar_file m) (wm_sidecar_sha256 m).
(** What the registry offers is on disk, every graph once. *)
Definition disk_ok (dir : Directory) (r : WakeRegistry) : Prop :=
  forall m, m ∈ models r -> is_usable m = true -> files_ok dir m.
Definition one_each (r : WakeRegistry) : Prop := NoDup (wm_graph_sha256 <$> models r).
(** No model's file is the index itself. *)
Definition off_index (m : WakeModel) : Prop := wm_graph_file m <> REGISTRY_FILE /\ wm_sidecar_file m <> REGISTRY_FILE.
Definition index_free (r : WakeRegistry) : Prop := forall m, m ∈ models r -> is_usable m = true -> off_index m.

(** *** Opening *)
Lemma file_status_verified dir name sha bytes :
  file_status not_found dir name sha = (Fs_Verified, bytes) -> file_ok dir name sha.
Proof.
  unfold file_status. destruct (negb (safe_name name)); [done|]. destruct (dir !! name) as [b|] eqn:E; [|done].
  destruct (String.eqb_spec (sha256_of b) sha); [|done]. intros _. by exists b.
Qed.

Lemma registry_entry_unverified raw m : registry_entry raw = Ok m -> wm_sidecar m = None.
Proof.
  destruct raw as [| | | | |o]; cbn; try done. repeat first [rewrite let_Ok; intros ([[??]?] & _ & H0); revert H0
    | rewrite let_Ok; intros (? & _ & H0); revert H0]. by intros [= <-].
Qed.

Lemma verify_files_spec dir m m' e :
  wm_sidecar m = None -> verify_files not_found dir m = (m', e) ->
  wm_graph_sha256 m' = wm_graph_sha256 m /\ (is_usable m' = true -> files_ok dir m').
Proof.
  intros Hn. unfold verify_files. destruct (file_status _ _ (wm_graph_file m) _) as [gs gb] eqn:Eg.
  destruct (file_status _ _ (wm_sidecar_file m) _) as [ss sb] eqn:Es. cbn [fst].
  assert (Hu : forall p, is_usable (with_status m gs ss p) = true -> files_ok dir (with_status m gs ss p)).
  { intros p. unfold is_usable. cbn. intros [[Hg Hs]%andb_true_iff _]%andb_true_iff.
    apply bool_decide_eq_true in Hg as ->. apply bool_decide_eq_true in Hs as ->.
    split; [exact (file_status_verified _ _ _ _ Eg)|exact (file_status_verified _ _ _ _ Es)]. }
  destruct sb as [b|]; [destruct (sidecar_parse b)|]; intros [= <- _]; (split; [done|apply Hu]).
Qed.

Lemma open_entry_ok dir acc raw extra issues0 :
  let r := mkWakeRegistry acc.1 extra issues0 in
  disk_ok dir r /\ one_each r ->
  let r' := mkWakeRegistry (open_entry not_found dir acc raw).1 extra issues0 in disk_ok dir r' /\ one_each r'.
Proof.
  destruct acc as [entries issues]. cbn [fst]. intros [Hd Ho]. unfold open_entry.
  assert (Hmodels : forall e, models (mkWakeRegistry (entries ++ [e]) extra issues0) =
            models (mkWakeRegistry entries extra issues0) ++ option_list (entry_model e)).
  { intros e. unfold models. cbn. rewrite omap_app. cbn. by destruct (entry_model e). }
  assert (Hraw : forall raw, disk_ok dir (mkWakeRegistry (entries ++ [En_Unreadable raw]) extra issues0) /\
                             one_each (mkWakeRegistry (entries ++ [En_Unreadable raw]) extra issues0)).
  { intros x. unfold disk_ok, one_each. rewrite Hmodels. cbn. by rewrite app_nil_r. }
  destruct (registry_entry raw) as [m|reason] eqn:Er; [|apply Hraw].
  destruct (any _ entries) eqn:Ea; [apply Hraw|].
  destruct (verify_files not_found dir m) as [m' e] eqn:Ev. cbn [fst].
  destruct (verify_files_spec dir m m' e (registry_entry_unverified _ _ Er) Ev) as [Hs Hu].
  unfold disk_ok, one_each. rewrite Hmodels. cbn [entry_model option_list]. split.
  - intros x [Hx|Hx%list_elem_of_singleton]%elem_of_app; [by apply Hd|]. by subst x.
  - rewrite fmap_app. apply NoDup_app. split_and!; [done| |apply NoDup_singleton].
    intros sha (x & -> & Hx)%list_elem_of_fmap Hin%list_elem_of_singleton.
    unfold models in Hx. apply list_elem_of_omap in Hx as (en & Hen & Hm). cbn in Hen. rewrite any_false in Ea.
    specialize (Ea en Hen). destruct en as [y|]; [|done]. injection Hm as ->. rewrite <- Hs, <- Hin in Ea.
    by rewrite String.eqb_refl in Ea.
Qed.

Lemma from_index_ok dir bytes r : from_index not_found dir bytes = Ok r -> disk_ok dir r /\ one_each r.
Proof.
  unfold from_index. destruct (negb _); [done|]. intros (j & _ & H0)%let_Ok. revert H0. destruct j as [| | | | |top]; try done.
  destruct (obj_remove "version" top) as [top1 version]. destruct (negb _); [done|].
  destruct (obj_remove "models" top1) as [top2 [[| | | |raws|]|]]; try done.
  destruct (fold_left _ raws _) as [entries issues] eqn:Ef. intros [= <-].
  assert (Hf : forall l acc, disk_ok dir (mkWakeRegistry acc.1 top2 issues) /\ one_each (mkWakeRegistry acc.1 top2 issues) ->
            disk_ok dir (mkWakeRegistry (fold_left (open_entry not_found dir) l acc).1 top2 issues) /\
            one_each (mkWakeRegistry (fold_left (open_entry not_found dir) l acc).1 top2 issues)).
  { induction l as [|raw l IH]; intros acc Hacc; [done|]. cbn [fold_left]. by apply IH, open_entry_ok. }
  specialize (Hf raws ([], [])). rewrite Ef in Hf. apply Hf. cbn. split; [|constructor]. by intros m ?%elem_of_nil.
Qed.

(** *** Serving *)
Lemma find_map_Some {A B} (f : A -> option B) l b : find_map f l = Some b -> exists a, a ∈ l /\ f a = Some b.
Proof.
  induction l as [|a l IH]; [done|]. cbn. destruct (f a) as [c|] eqn:E.
  - intros [= ->]. exists a. split; [by left|done].
  - intros (x & Hx & Hf)%IH. exists x. split; [by right|done].
Qed.

Lemma asset_served dir r sha file : disk_ok dir r -> asset_path sha r = Some file -> file_ok dir file sha.
Proof.
  intros Hd (m & [Hm Hu]%elem_of_retain & Ha)%find_map_Some. destruct (Hd m Hm Hu) as [Hg Hs].
  unfold asset_of in Ha. destruct (String.eqb_spec (wm_graph_sha256 m) sha) as [<-|_]; [by injection Ha as <-|].
  destruct (String.eqb_spec (wm_sidecar_sha256 m) sha) as [<-|_]; [by injection Ha as <-|done].
Qed.

(** *** Changing *)
Lemma file_ok_write dir name content f sha :
  name <> f -> file_ok dir f sha -> file_ok (<[name := content]> dir) f sha.
Proof. intros Hne (b & Hb & Hs). exists b. by rewrite lookup_insert_ne. Qed.

(** A write of a file that is not there, or of the index, leaves the models' files. *)
Definition adds (dir : Directory) (op : FsOp) : Prop :=
  match op with Fo_Write name _ => name = REGISTRY_FILE \/ dir !! name = None | Fo_Remove _ => False end.

Lemma files_ok_adds dir op m : adds dir op -> off_index m -> files_ok dir m -> files_ok (apply_op op dir) m.
Proof.
  destruct op as [name content|]; [|done]. intros Ha [Hg Hs] [(g & Hgd & Hgs) (s & Hsd & Hss)]. cbn.
  assert (Hne : forall f b, f <> REGISTRY_FILE -> dir !! f = Some b -> name <> f) by (intros f b Hf Hb ->; destruct Ha; congruence).
  split; (apply file_ok_write; [by eapply Hne|]); [by exists g|by exists s].
Qed.

Lemma content_addressed_spec dir name bytes sha ops :
  sha256_of bytes = sha -> write_content_addressed dir name bytes sha = (ops, Ok tt) ->
  (ops = [] \/ ops = [Fo_Write name bytes] /\ dir !! name = None) /\ file_ok (apply_ops ops dir) name sha.
Proof.
  intros Hs. unfold write_content_addressed. destruct (dir !! name) as [b|] eqn:E.
  - destruct (String.eqb_spec (sha256_of b) sha); [|done]. intros [= <-]. split; [by left|]. by exists b.
  - intros [= <-]. split; [by right|]. exists bytes. cbn. by rewrite lookup_insert_eq.
Qed.
End facts.

Section changes.
Context `{SerdeText} {D : Digest} {DL : DigestLaws D}.

Lemma apply_ops_app a b dir : apply_ops (a ++ b) dir = apply_ops b (apply_ops a dir).
Proof. unfold apply_ops. apply fold_left_app. Qed.

(** Every write adds a file or replaces the index. *)
Fixpoint grows (dir : Directory) (ops : list FsOp) : Prop :=
  match ops with [] => True | op :: ops => adds dir op /\ grows (apply_op op dir) ops end.

Lemma grows_app dir a b : grows dir a -> grows (apply_ops a dir) b -> grows dir (a ++ b).
Proof. revert dir. induction a as [|op a IH]; intros dir; [done|]. cbn. intros [? Ha] Hb. split; [done|]. by apply IH. Qed.

Lemma files_ok_grows dir ops n m :
  grows dir ops -> off_index m -> files_ok dir m -> files_ok (apply_ops (take n ops) dir) m.
Proof.
  revert dir n. induction ops as [|op ops IH]; intros dir n; [by rewrite take_nil|]. cbn. intros [Ha Hg] Ho Hf.
  destruct n as [|n]; [done|]. cbn. apply IH; [done|done|]. by apply files_ok_adds.
Qed.

Lemma content_addressed_grows (dir : Directory) (name bytes sha : string) : grows dir (write_content_addressed dir name bytes sha).1.
Proof.
  unfold write_content_addressed. destruct (dir !! name) as [b|] eqn:E; [by destruct (String.eqb _ _)|].
  cbn. split; [by right|done].
Qed.

(** What storing a model's files gives. *)
Lemma store_files_spec dir graph sidecar_ t wp vc p :
  let '(ops, res) := store_files dir graph sidecar_ t wp vc p in
  grows dir ops /\
  match res with
  | Ok m => is_usable m = true /\ off_index m /\ wm_graph_sha256 m = sha256_of graph /\ files_ok (apply_ops ops dir) m
  | Err _ => True
  end.
Proof.
  unfold store_files. destruct (sidecar_parse sidecar_) as [parsed|e]; [|done].
  set (gs := sha256_of graph). set (ss := sha256_of sidecar_).
  set (gf := gs +:+ ".onnx"). set (sf := ss +:+ ".json").
  assert (Hne : gf <> sf) by apply graph_not_sidecar.
  assert (Hgi : gf <> REGISTRY_FILE) by (apply stored_not_index; cbn; lia).
  assert (Hsi : sf <> REGISTRY_FILE) by (apply stored_not_index; cbn; lia).
  pose proof (content_addressed_grows dir gf graph gs) as Hg1.
  destruct (write_content_addressed dir gf graph gs) as [ops1 [[]|e1]] eqn:E1; [|by split].
  cbn [fst] in Hg1. destruct (content_addressed_spec dir gf graph gs ops1 eq_refl E1) as [Ho1 Hf1].
  unfold step_bind at 1.
  assert (Hsame : write_content_addressed (apply_ops ops1 dir) sf sidecar_ ss = write_content_addressed dir sf sidecar_ ss).
  { destruct Ho1 as [->|[-> Hn]]; [done|]. cbn [apply_ops fold_left apply_op]. unfold write_content_addressed.
    by rewrite lookup_insert_ne. }
  pose proof (content_addressed_grows (apply_ops ops1 dir) sf sidecar_ ss) as Hg2. rewrite Hsame in Hg2.
  destruct (write_content_addressed dir sf sidecar_ ss) as [ops2 [[]|e2]] eqn:E2; unfold step_bind; cbn [fst] in Hg2.
  2: { split; [|done]. by apply grows_app. }
  destruct (content_addressed_spec _ _ _ _ _ eq_refl Hsame) as [Ho2 Hf2].
  unfold step_ok. rewrite app_nil_r. split; [by apply grows_app|]. split_and!; [done|done|done|].
  rewrite apply_ops_app. split; cbn; [|exact Hf2].
  destruct Ho2 as [->|[-> _]]; [done|]. by apply file_ok_write.
Qed.

Lemma with_entries_models r entries :
  (with_entries r entries).2 = Ok (mkWakeRegistry entries (rg_extra r) (rg_issues r)).
Proof. done. Qed.

(** Adding a model: whatever prefix of the writes is done, every model offered
    before keeps its files; done whole, the new model is offered with its files,
    and the index, written last, is the registry's text. *)
Lemma added_spec dir r new :
  disk_ok dir r -> one_each r -> index_free r ->
  let '(ops, res) := added dir r new in
  (forall n, disk_ok (apply_ops (take n ops) dir) r) /\
  match res with
  | Err _ => True
  | Ok (r', Ao_AlreadyRegistered m) => ops = [] /\ r' = r /\ model_of (sha256_of (nm_graph new)) r = Some m
  | Ok (r', Ao_Added m) =>
      models r' = models r ++ [m] /\ is_usable m = true /\ wm_graph_sha256 m = sha256_of (nm_graph new) /\
      disk_ok (apply_ops ops dir) r' /\ one_each r' /\ index_free r' /\
      last ops = Some (Fo_Write REGISTRY_FILE (index_text r'))
  end.
Proof.
  intros Hd Ho Hi.
  assert (Hkeep : forall ops n, grows dir ops -> disk_ok (apply_ops (take n ops) dir) r).
  { intros ops n Hg m Hm Hu. apply files_ok_grows; [done|by apply Hi|by apply Hd]. }
  assert (Hnil : forall n, disk_ok (apply_ops (take n []) dir) r) by (intros n; by rewrite take_nil).
  unfold added. destruct (size_error _ (nm_graph new) _); [by split|]. destruct (size_error _ (nm_sidecar new) _); [by split|].
  destruct (sidecar_parse (nm_sidecar new)); [|by split].
  destruct (model_of (sha256_of (nm_graph new)) r) as [existing|] eqn:Em; [done|].
  destruct (find_first _ (scores (nm_probe new))) as [[probe score]|]; [by split|].
  pose proof (store_files_spec dir (nm_graph new) (nm_sidecar new) (nm_thresholds new) (nm_wake_phrase new)
                (nm_verify_core new) (Some (nm_probe new))) as Hs.
  destruct (store_files _ _ _ _ _ _ _) as [ops [m|e]]; destruct Hs as [Hg Hm]; [|split; [by intros; apply Hkeep|done]].
  destruct Hm as (Hu & Hoff & Hsha & Hf). unfold step_bind, with_entries, step_ok. rewrite app_nil_r.
  set (r' := mkWakeRegistry _ _ _). set (op := Fo_Write REGISTRY_FILE (index_text r')).
  assert (Hgall : grows dir (ops ++ [op])) by (apply grows_app; [done|]; split; [by left|done]).
  assert (Hmodels : models r' = models r ++ [m]) by (unfold models, r'; cbn; by rewrite omap_app).
  split; [by intros; apply Hkeep|]. split_and!; [done|done|done| | | |].
  - intros x Hx Hux. rewrite Hmodels in Hx. rewrite apply_ops_app. apply elem_of_app in Hx as [Hx|Hx%list_elem_of_singleton].
    + pose proof (Hkeep (ops ++ [op]) (length (ops ++ [op])) Hgall x Hx Hux) as Hk. rewrite firstn_all in Hk.
      by rewrite apply_ops_app in Hk.
    + subst x. apply files_ok_adds; [by left|done|done].
  - unfold one_each. rewrite Hmodels, fmap_app. apply NoDup_app. split_and!; [done| |apply NoDup_singleton].
    intros sha (x & -> & Hx)%list_elem_of_fmap Hin%list_elem_of_singleton.
    unfold model_of in Em. apply find_first_None in Em. rewrite any_false in Em. specialize (Em x Hx).
    rewrite Hin, Hsha, String.eqb_refl in Em. done.
  - intros x Hx Hux. rewrite Hmodels in Hx. apply elem_of_app in Hx as [Hx|Hx%list_elem_of_singleton]; [by apply Hi|].
    by subst x.
  - apply last_snoc.
Qed.

Lemma remove_unnamed_keeps dir dir' r file n m :
  m ∈ models r -> files_ok dir' m -> files_ok (apply_ops (take n (remove_unnamed dir r file)) dir') m.
Proof.
  intros Hm Hf. unfold remove_unnamed. destruct (negb (any (names_file file) (models r)) && safe_name file) eqn:E;
    [|by rewrite take_nil].
  apply andb_true_iff in E as [E _]. apply negb_true_iff in E. rewrite any_false in E. specialize (E m Hm).
  unfold names_file in E. apply orb_false_iff in E as [Eg%String.eqb_neq Es%String.eqb_neq].
  destruct (dir !! file); [|by rewrite take_nil]. destruct n as [|n]; [done|]. cbn. rewrite take_nil. cbn.
  destruct Hf as [(g & Hg & Hgs) (c & Hs & Hss)].
  split; [exists g|exists c]; (split; [|done]); rewrite lookup_delete_ne by congruence; done.
Qed.

(** Deleting a model: the index without it is written first, and at every point
    the models that stay keep their files. *)
Lemma without_spec dir r sha :
  disk_ok dir r -> index_free r ->
  let '(ops, res) := without dir r sha in
  match res with
  | Err e => e = Re_UnknownModel sha /\ ops = [] /\ model_of sha r = None
  | Ok r' =>
      models r' = retain (fun m => negb (String.eqb (wm_graph_sha256 m) sha)) (models r) /\
      head ops = Some (Fo_Write REGISTRY_FILE (index_text r')) /\ disk_ok dir r' /\
      forall n, disk_ok (apply_ops (take n ops) dir) r'
  end.
Proof.
  intros Hd Hi. unfold without. destruct (model_of sha r) as [m|] eqn:Em; [|done].
  unfold step_bind, with_entries. set (r' := mkWakeRegistry _ _ _).
  assert (Hmodels : models r' = retain (fun m => negb (String.eqb (wm_graph_sha256 m) sha)) (models r)).
  { unfold models, r', retain. cbn. clear. induction (rg_entries r) as [|[n|raw] l IH]; cbn; [done| |done].
    destruct (String.eqb (wm_graph_sha256 n) sha); cbn; [done|by f_equal]. }
  assert (Hd' : disk_ok dir r') by (intros x Hx Hu; rewrite Hmodels in Hx; apply elem_of_retain in Hx as [Hx _]; by apply Hd).
  split_and!; [done|done|done|]. intros n x Hx Hu.
  assert (Hoff : off_index x) by (rewrite Hmodels in Hx; apply elem_of_retain in Hx as [Hx _]; by apply Hi).
  set (op := Fo_Write REGISTRY_FILE (index_text r')). set (first := remove_unnamed dir r' (wm_graph_file m)).
  destruct n as [|n]; [by apply Hd'|]. cbn [take app apply_ops fold_left]. 
  change (fold_left (fun d o => apply_op o d) ?l (apply_op op dir)) with (apply_ops l (apply_op op dir)).
  rewrite take_app, apply_ops_app. apply remove_unnamed_keeps; [done|]. apply remove_unnamed_keeps; [done|].
  apply files_ok_adds; [by left|done|by apply Hd'].
Qed.
End changes.

(** An index that lists a graph twice keeps the second entry as it is, and deleting
    the first removes the files the second one names: after the restart that entry
    is a model without its files. *)
Section duplicate.
Open Scope string_scope.
Definition zero_digest : Digest := {| digest _ := replicate 32 Byte.x00; utf8_error s := s |}.
Definition zero_sha : string := sha256_from_digest (replicate 32 Byte.x00).
Definition half : Value := VNumber (NFloat (f64_ratio 1 2)).
Definition sample_entry : Value :=
  VObject [("graph_file", VString "a.onnx"); ("graph_sha256", VString zero_sha); ("sidecar_file", VString "a.json");
           ("sidecar_sha256", VString zero_sha); ("verify_core", VString "ophel"); ("wake_phrase", VString "ophelia");
           ("thresholds", VObject [("idle", half); ("playback", half); ("reference", half)])].
Definition sample_tree : Value := VObject [("models", VArray [sample_entry; sample_entry]); ("version", VNumber (NInt 2))].
Definition sample_text : SerdeText := {| document_events _ := Ok sample_tree |}.
Definition sample_dir : Directory := <["a.onnx" := "g"]> (<["a.json" := "s"]> ∅).
Definition stranded : bool :=
  match @from_index sample_text zero_digest "" sample_dir "" with
  | Err _ => false
  | Ok r =>
      match without sample_dir r zero_sha with
      | (ops, Ok r') =>
          match rg_entries r' with
          | [En_Unreadable raw] =>
              match registry_entry raw with
              | Ok copy =>
                  bool_decide (sample_dir !! wm_graph_file copy = Some "g") &&
                  bool_decide (apply_ops ops sample_dir !! wm_graph_file copy = None)
              | Err _ => false
              end
          | _ => false
          end
      | _ => false
      end
  end.
Lemma duplicate_entry_stranded : stranded = true.
Proof. vm_compute. reflexivity. Qed.
End duplicate.

(** ** The contract *)
Section registry_contract.
Context `{SerdeText} {D : Digest} {DL : DigestLaws D}.

(** What the registry offers is on disk and is what it is named, at every moment.
    An index is opened so; adding a model writes the files first and the index last,
    deleting one writes the index first, so that after any prefix of the writes - a
    crash anywhere - every model the registry in force offers, the old one while adding,
    the new one from the deletion on, still has its files with their digests; added, the
    new model is offered too, every graph once. *)
Theorem registry_survives_crashes dir r :
  disk_ok dir r -> one_each r -> index_free r ->
  (forall new, let '(ops, res) := added dir r new in
     (forall n, disk_ok (apply_ops (take n ops) dir) r) /\
     match res with
     | Ok (r', Ao_Added m) =>
         models r' = models r ++ [m] /\ is_usable m = true /\ wm_graph_sha256 m = sha256_of (nm_graph new) /\
         disk_ok (apply_ops ops dir) r' /\ one_each r' /\ last ops = Some (Fo_Write REGISTRY_FILE (index_text r'))
     | Ok (r', Ao_AlreadyRegistered m) => ops = [] /\ r' = r
     | Err _ => True
     end) /\
  (forall sha, let '(ops, res) := without dir r sha in
     match res with
     | Ok r' =>
         models r' = retain (fun m => negb (String.eqb (wm_graph_sha256 m) sha)) (models r) /\
         head ops = Some (Fo_Write REGISTRY_FILE (index_text r')) /\ forall n, disk_ok (apply_ops (take n ops) dir) r'
     | Err _ => ops = [] /\ model_of sha r = None
     end) /\
  (forall sha file, asset_path sha r = Some file -> exists bytes, dir !! file = Some bytes /\ sha256_of bytes = sha) /\
  (forall not_found bytes r', from_index not_found dir bytes = Ok r' -> disk_ok dir r' /\ one_each r').
Proof.
  intros Hd Ho Hi. split_and!.
  - intros new. pose proof (added_spec dir r new Hd Ho Hi) as Ha. destruct (added dir r new) as [ops [[r' o]|e]]; [|exact Ha].
    destruct Ha as [Hp Ha]. split; [exact Hp|]. destruct o; by destruct_and?.
  - intros sha. pose proof (without_spec dir r sha Hd Hi) as Hw. destruct (without dir r sha) as [ops [r'|e]]; by destruct_and?.
  - intros sha file. exact (asset_served dir r sha file Hd).
  - intros not_found bytes r'. apply from_index_ok.
Qed.
End registry_contract.

(** *** An instance *)
Definition one_model : WakeModel :=
  mkWakeModel "a.onnx" zero_sha "a.json" zero_sha DEPLOYED_THRESHOLDS "echo" "echo" None [] Fs_Verified Fs_Verified
    (Some (mkSidecar ["echo"] 0 (f64_ratio 1 2) None None)).
Definition one_registry : WakeRegistry := mkWakeRegistry [En_Model one_model] [] [].
#[local] Instance zero_digest_laws : DigestLaws zero_digest.
Proof. split. intros s. apply length_replicate. Qed.
Lemma registry_survives_crashes_witness :
  disk_ok (D:=zero_digest) sample_dir one_registry /\
  exists bytes, sample_dir !! "a.onnx" = Some bytes /\ sha256_of (H:=zero_digest) bytes = zero_sha.
Proof.
  assert (Hd : disk_ok (D:=zero_digest) sample_dir one_registry).
  { intros m Hm _. change (models one_registry) with [one_model] in Hm. apply list_elem_of_singleton in Hm as ->.
    split; [exists "g"|exists "s"]; (split; [vm_compute; reflexivity|reflexivity]). }
  assert (Ho : one_each one_registry) by apply NoDup_singleton.
  assert (Hi : index_free one_registry).
  { intros m Hm _. change (models one_registry) with [one_model] in Hm. apply list_elem_of_singleton in Hm as ->. done. }
  split; [exact Hd|].
  destruct (registry_survives_crashes (H:=sample_text) (D:=zero_digest) sample_dir one_registry Hd Ho Hi) as (_ & _ & Ha & _).
  apply Ha. vm_compute. reflexivity.
Defined.
