(* ===== verification/SettingsService.v ===== *)
(** * The settings service ([settings/src/service.rs], [ready.rs], [db.rs])

    One task owns the stored documents and the wake-model registry, applies the
    edits one at a time and publishes whole snapshots; and the [session.ready]
    grant composed from a snapshot.  The rows of the database are part of the
    state; a call that may fail takes the fault it meets. *)
From Stdlib Require Import Floats.SpecFloat Sorting.Sorted.
From S2P Require Import Prelude Bytes WireEnum Float Ema Vocab Json Policy Session Clock Evidence Level Transcript Document Values Settings Stored Registry.

(** ** [session.ready] *)
Inductive ComposeError :=
  | Ce_ModelNotInRegistry (sha : string)
  | Ce_ModelFilesUnusable (sha : string)
  | Ce_WrongModel (selected given : string)
  | Ce_Policy (error : PolicyError).

Definition open_rule (r : WakeRule) : result PolicyError OpenRule :=
  open_rule_new (wr_profile r) (wr_windows r) (wr_combine r) (wr_threshold r).
Fixpoint open_rules (rules : list WakeRule) : result PolicyError (list OpenRule) :=
  match rules with
  | [] => Ok []
  | r :: rules => let? o := open_rule r in let? rest := open_rules rules in Ok (o :: rest)
  end.

Definition compose_open (thresholds : ModelThresholds) (extra : list WakeRule) :
    result PolicyError (option (list OpenRule)) :=
  match extra with
  | [] => Ok None
  | _ =>
      let? idle := open_rule_new Rp_Idle 3 Rc_Mean (mt_idle thresholds) in
      let? playback := open_rule_new Rp_Playback 3 Rc_Mean (mt_playback thresholds) in
      let? rules := open_rules extra in
      Ok (Some ([idle; playback] ++ rules))
  end.
Definition compose_shadow (shadow : list WakeRule) : result PolicyError (option (list OpenRule)) :=
  match shadow with
  | [] => Ok None
  | _ => let? rules := open_rules shadow in Ok (Some rules)
  end.

Definition selected_graph (s : DeviceSettings) : string := wake_model (ds_wakeword s).

Definition compose_ready (s : DeviceSettings) (model : WakeModel) (runtime_sha256 : string)
    (capture_permitted afe_metadata : bool) : result ComposeError ReadyGrant :=
  let selected := selected_graph s in
  if negb (String.eqb (wm_graph_sha256 model) selected) then Err (Ce_WrongModel selected (wm_graph_sha256 model))
  else if negb (is_usable model) then Err (Ce_ModelFilesUnusable selected)
  else
    let t := wm_thresholds model in
    let? thresholds := map_err Ce_Policy (thresholds_new (mt_idle t) (mt_playback t) (near_miss_threshold (ds_wakeword s))) in
    let? open_rules := map_err Ce_Policy (compose_open t (wake_open_rules (ds_wakeword s))) in
    let? shadow_rules := map_err Ce_Policy (compose_shadow (wake_shadow_rules (ds_wakeword s))) in
    let? detector := map_err Ce_Policy (detector_policy_new thresholds (duck_db (ds_playback s)) open_rules shadow_rules) in
    Ok (mkReadyGrant capture_permitted
          (mkSpeechAssets runtime_sha256 (wm_graph_sha256 model) (wm_sidecar_sha256 model)) detector afe_metadata).

(** ** The database *)
Record DeviceConfigRow := mkDeviceConfigRow {
  dr_config : string;
  dr_config_sections : string;
  dr_use_global_config : bool;
}.
Record StoredRows := mkStoredRows { rw_fleet : option string; rw_devices : gmap string DeviceConfigRow }.

Inductive StoreError :=
  | St_UnknownDevice (device : string)
  | St_Database (reason : string).
Definition write_fleet (text : string) (rows : StoredRows) : StoredRows := mkStoredRows (Some text) (rw_devices rows).
Definition write_device (device : string) (config : option string) (sections : string) (use_global : bool)
    (rows : StoredRows) : result StoreError StoredRows :=
  match rw_devices rows !! device with
  | None => Err (St_UnknownDevice device)
  | Some row =>
      Ok (mkStoredRows (rw_fleet rows)
            (<[device := mkDeviceConfigRow (default (dr_config row) config) sections use_global]> (rw_devices rows)))
  end.

(** ** The service's state *)
Inductive Selector :=
  | Sel_Fleet
  | Sel_Device (device : string).

(** An [Arc]: the allocation is named by the publication and the device it was
    made for, the fleet's by none. *)
Record Shared := mkShared { sh_id : N * option string; sh_settings : DeviceSettings }.

Record DeviceEntry := mkDeviceEntry {
  en_settings : Shared;
  en_overridden : SectionSet;
  en_issues : list StoredIssue;
}.
Record SettingsSnapshot := mkSnapshot {
  sn_generation : N;
  sn_fleet : Shared;
  sn_fleet_issues : list StoredIssue;
  sn_devices : gmap string DeviceEntry;
  sn_registry : WakeRegistry;
}.
Definition snapshot_effective (s : SettingsSnapshot) (device : string) : Shared :=
  match sn_devices s !! device with Some e => en_settings e | None => sn_fleet s end.

(** Device ids in byte order, as [sort_by] leaves them. *)
Definition sorted_ids (l : list string) : list string := fst <$> sort_entries ((fun d => (d, tt)) <$> l).

Definition selections (sha : string) (s : SettingsSnapshot) : list Selector :=
  (if String.eqb (selected_graph (sh_settings (sn_fleet s))) sha then [Sel_Fleet] else []) ++
  (Sel_Device <$> sorted_ids
     (fst <$> filter (fun e : string * DeviceEntry => String.eqb (selected_graph (sh_settings (en_settings e.2))) sha = true)
        (map_to_list (sn_devices s)))).

Definition selected_model (s : SettingsSnapshot) (device : string) : result ComposeError WakeModel :=
  let sha := selected_graph (sh_settings (snapshot_effective s device)) in
  ok_or (Ce_ModelNotInRegistry sha) (model_of sha (sn_registry s)).
Definition ready_grant (s : SettingsSnapshot) (device runtime_sha256 : string) (capture_permitted afe_metadata : bool) :
    result ComposeError ReadyGrant :=
  let? model := selected_model s device in
  compose_ready (sh_settings (snapshot_effective s device)) model runtime_sha256 capture_permitted afe_metadata.

Record StoredDevice := mkStoredDevice {
  sd_config : StoredConfig;
  sd_sections : StoredSections;
  sd_sections_text : string;
  sd_use_global_config : bool;
}.
Record State := mkState {
  st_fleet : StoredConfig;
  st_devices : gmap string StoredDevice;
  st_registry : WakeRegistry;
  st_generation : N;
  st_previous : option SettingsSnapshot;
}.

Section service.
Context `{Unicode} `{SerdeText}.

Definition from_row (row : DeviceConfigRow) : StoredDevice :=
  mkStoredDevice (stored_config_parse (Some (dr_config row)))
    (stored_sections_parse (dr_config_sections row) (dr_use_global_config row))
    (dr_config_sections row) (dr_use_global_config row).

(** [PartialEq] of [DeviceSettings]. *)
Definition settings_eqb (a b : DeviceSettings) : bool :=
  forallb (fun k => value_eqb (key_get a k) (key_get b k)) ALL.
Definition reuse (previous : option Shared) (id : N * option string) (next : DeviceSettings) : Shared :=
  match previous with
  | Some p => if settings_eqb (sh_settings p) next then p else mkShared id next
  | None => mkShared id next
  end.

Definition build_entry (generation : N) (previous : option SettingsSnapshot) (fleet : DeviceSettings)
    (device : string) (stored : StoredDevice) : DeviceEntry :=
  let settings := effective_settings fleet (sd_config stored) (ss_known (sd_sections stored)) in
  let earlier := en_settings <$> (previous ≫= fun p => sn_devices p !! device) in
  mkDeviceEntry (reuse earlier (generation, Some device) settings) (ss_known (sd_sections stored))
    (sc_issues (sd_config stored) ++ ss_issues (sd_sections stored)).

Definition build (s : State) : SettingsSnapshot :=
  let generation := st_generation s + 1 in
  let fleet := reuse (sn_fleet <$> st_previous s) (generation, None) (fleet_settings (st_fleet s)) in
  mkSnapshot generation fleet (sc_issues (st_fleet s))
    (map_imap (fun device stored => Some (build_entry generation (st_previous s) (sh_settings fleet) device stored)) (st_devices s))
    (st_registry s).

Definition publish (s : State) : State * SettingsSnapshot :=
  let snapshot := build s in
  (mkState (st_fleet s) (st_devices s) (st_registry s) (sn_generation snapshot) (Some snapshot), snapshot).

(** [SettingsService::start]. *)
Definition start (rows : StoredRows) (registry : WakeRegistry) : State * SettingsSnapshot :=
  publish (mkState (stored_config_parse (rw_fleet rows)) (from_row <$> rw_devices rows) registry 0 None).

Definition set_fleet (fleet : StoredConfig) (s : State) : State :=
  mkState fleet (st_devices s) (st_registry s) (st_generation s) (st_previous s).
Definition set_devices (devices : gmap string StoredDevice) (s : State) : State :=
  mkState (st_fleet s) devices (st_registry s) (st_generation s) (st_previous s).
Definition set_registry (registry : WakeRegistry) (s : State) : State :=
  mkState (st_fleet s) (st_devices s) registry (st_generation s) (st_previous s).

(** ** Checks and outcomes *)
Definition has_key (k : SettingKey) (values : list SettingValue) : bool := any (fun v => bool_decide (value_key v = k)) values.
Definition check_wake (registry : WakeRegistry) (values : list SettingValue) (settings : DeviceSettings) : result EditError unit :=
  let selected := selected_graph settings in
  let model := match model_of selected registry with Some m => if is_usable m then Some m else None | None => None end in
  if has_key Sk_WakeModel values && match model with None => true | Some _ => false end then Err (Ee_UnknownWakeModel selected)
  else if has_key Sk_WakeModel values || has_key Sk_WakeOpenRules values then
    match model with
    | Some m =>
        match find_first (is_baseline (mt_idle (wm_thresholds m)) (mt_playback (wm_thresholds m)))
                (wake_open_rules (ds_wakeword settings)) with
        | Some rule => Err (Ee_OpenRuleIsBaseline rule)
        | None => Ok tt
        end
    | None => Ok tt
    end
  else Ok tt.

Record EditOutcome := mkEditOutcome {
  eo_snapshot : SettingsSnapshot;
  eo_changed_devices : list string;
  eo_new_session_needed : list string;
}.
Definition device_changes (before : SettingsSnapshot) (device : string) (e : DeviceEntry) : list SettingKey :=
  differences (sh_settings (snapshot_effective before device)) (sh_settings (en_settings e)).
Definition changed_entry (before : SettingsSnapshot) (entry : string * DeviceEntry) : option (string * bool) :=
  let '(device, e) := entry in
  match device_changes before device e with
  | [] => None
  | ks => Some (device, any needs_new_session ks)
  end.
Definition outcome (before after : SettingsSnapshot) : EditOutcome :=
  let changed := sort_entries (omap (changed_entry before) (map_to_list (sn_devices after))) in
  mkEditOutcome after changed.*1 (retain (fun c => snd c) changed).*1.

Definition edit_db_error (e : StoreError) : EditError :=
  match e with St_UnknownDevice d => Ee_UnknownDevice d | St_Database r => Ee_Database r end.

(** ** The commands *)
Definition fleet_edit (fault : option string) (patch : SettingMap) (rows : StoredRows) (s : State) :
    StoredRows * State * result EditError EditOutcome :=
  match with_changes (st_fleet s) (map_values patch) with
  | Err _ => (rows, s, Err Ee_StoredUnreadable)
  | Ok text =>
      match st_previous s with
      | None => (rows, s, Err Ee_Closed) (* [expect]: published at start *)
      | Some before =>
          match text with
          | None => (rows, s, Ok (outcome before before))
          | Some text =>
              let fleet := stored_config_parse (Some text) in
              match check_wake (st_registry s) (map_values patch) (fleet_settings fleet) with
              | Err e => (rows, s, Err e)
              | Ok _ =>
                  match fault with
                  | Some reason => (rows, s, Err (Ee_Database reason))
                  | None =>
                      let '(s', after) := publish (set_fleet fleet s) in
                      (write_fleet text rows, s', Ok (outcome before after))
                  end
              end
          end
      end
  end.

Definition same_stored (a b : StoredDevice) : bool :=
  bool_decide (sc_text (sd_config a) = sc_text (sd_config b)) &&
  String.eqb (sd_sections_text a) (sd_sections_text b) && Bool.eqb (sd_use_global_config a) (sd_use_global_config b).

Definition refresh (fault : option string) (device : string) (rows : StoredRows) (s : State) : State * result string SettingsSnapshot :=
  match fault with
  | Some reason => (s, Err reason)
  | None =>
      let '(s, changed) :=
        match rw_devices rows !! device with
        | Some row =>
            let next := from_row row in
            let same := match st_devices s !! device with Some d => same_stored d next | None => false end in
            (if same then s else set_devices (<[device := next]> (st_devices s)) s, negb same)
        | None => (set_devices (delete device (st_devices s)) s, bool_decide (is_Some (st_devices s !! device)))
        end in
      if changed then let '(s, snapshot) := publish s in (s, Ok snapshot)
      else match st_previous s with Some p => (s, Ok p) | None => (s, Err "") end
  end.

(** The values a device edit stores: its own within the overridden sections, and
    the fleet's for the keys of a section just switched on. *)
Definition own_values (edit : SettingMap) (sections : SectionSet) : list SettingValue :=
  retain (fun v => value_applies sections (value_key v)) (map_values edit).
Definition copied_values (edit : SettingMap) (fleet : DeviceSettings) (switched_on : SectionSet) : list SettingValue :=
  (retain (fun x => bool_decide (x ∈ switched_on)) ALL ≫= section_keys) ≫= fun k =>
    match edit !! k with Some _ => [] | None => [key_get fleet k] end.
End service.

(** ** The other commands *)
Section commands.
Context `{Unicode} `{SerdeText} `{Digest}.

(** [device_edit], the device's row in memory. *)
Definition edit_sections (stored : StoredDevice) (edit : DeviceEdit) : SectionSet :=
  default (ss_known (sd_sections stored)) (de_sections edit).
Definition edit_store (stored : StoredDevice) (edit : DeviceEdit) (fleet : DeviceSettings) : list SettingValue :=
  let sections := edit_sections stored edit in
  own_values (de_values edit) sections ++
  copied_values (de_values edit) fleet (sections ∖ ss_known (sd_sections stored)).
Definition edit_own_wake (edit : DeviceEdit) (store : list SettingValue) : list SettingValue :=
  retain (fun v => match de_values edit !! value_key v with Some e => value_eqb e v | None => false end &&
                   bool_decide (key_section (value_key v) = Some Se_Wakeword)) store.

Definition edit_stored (fault : option string) (device : string) (stored : StoredDevice) (edit : DeviceEdit)
    (before : SettingsSnapshot) (rows : StoredRows) (s : State) : StoredRows * State * result EditError EditOutcome :=
  let sections := edit_sections stored edit in
  let fleet := fleet_settings (st_fleet s) in
  let store := edit_store stored edit fleet in
  match with_changes (sd_config stored) store with
  | Err _ => (rows, s, Err Ee_StoredUnreadable)
  | Ok text =>
      let config := match text with Some t => stored_config_parse (Some t) | None => sd_config stored end in
      match (if bool_decide (Se_Wakeword ∈ sections)
             then check_wake (st_registry s) (edit_own_wake edit store) (effective_settings fleet config sections)
             else Ok tt) with
      | Err e => (rows, s, Err e)
      | Ok _ =>
          let use_global := bool_decide (sections = ∅) in
          let sections_changed :=
            negb (bool_decide (sections = ss_known (sd_sections stored))) ||
            negb (Bool.eqb use_global (sd_use_global_config stored)) in
          if negb (bool_decide (is_Some text)) && negb sections_changed then (rows, s, Ok (outcome before before))
          else
            let sections_text := if sections_changed then render_sections (sd_sections stored) sections
                                 else sd_sections_text stored in
            match match fault with
                  | Some reason => Err (St_Database reason)
                  | None => write_device device text sections_text use_global rows
                  end with
            | Err e => (rows, s, Err (edit_db_error e))
            | Ok rows =>
                let next := mkStoredDevice config (stored_sections_parse sections_text use_global) sections_text use_global in
                let '(s, after) := publish (set_devices (<[device := next]> (st_devices s)) s) in
                (rows, s, Ok (outcome before after))
            end
      end
  end.

(** [device_edit]; the faults are those of the read and of the write. *)
Definition device_edit (faults : option string * option string) (device : string) (edit : DeviceEdit)
    (rows : StoredRows) (s : State) : StoredRows * State * result EditError EditOutcome :=
  let '(s, refreshed) :=
    match st_devices s !! device with
    | Some _ => (s, None)
    | None => let '(s, r) := refresh faults.1 device rows s in (s, Some r)
    end in
  match refreshed with
  | Some (Err reason) => (rows, s, Err (Ee_Database reason))
  | _ =>
      match st_devices s !! device, st_previous s with
      | Some stored, Some before => edit_stored faults.2 device stored edit before rows s
      | None, _ => (rows, s, Err (Ee_UnknownDevice device))
      | Some _, None => (rows, s, Err Ee_Closed) (* [expect]: published at start *)
      end
  end.

Inductive ModelError :=
  | Me_Registry (error : RegistryError)
  | Me_InUse (users : list Selector).

Definition add_model (dir : Directory) (new : NewModel) (s : State) : list FsOp * State * result ModelError AddOutcome :=
  match added dir (st_registry s) new with
  | (ops, Err e) => (ops, s, Err (Me_Registry e))
  | (ops, Ok (registry, Ao_Added m)) => (ops, (publish (set_registry registry s)).1, Ok (Ao_Added m))
  | (ops, Ok (_, outcome)) => (ops, s, Ok outcome)
  end.

Definition delete_model (dir : Directory) (sha : string) (s : State) : list FsOp * State * result ModelError SettingsSnapshot :=
  match default [] (selections sha <$> st_previous s) with
  | [] =>
      match without dir (st_registry s) sha with
      | (ops, Err e) => (ops, s, Err (Me_Registry e))
      | (ops, Ok registry) => let '(s, snapshot) := publish (set_registry registry s) in (ops, s, Ok snapshot)
      end
  | users => ([], s, Err (Me_InUse users))
  end.

(** [DeviceSettingsWatch::changed], one published snapshot. *)
Definition watch_step (device : string) (current : Shared) (published : SettingsSnapshot) : option Shared :=
  let next := snapshot_effective published device in
  if bool_decide (sh_id next = sh_id current) then None else Some next.
End commands.

(** ** The service task *)
Inductive Command :=
  | Cd_FleetEdit (patch : SettingMap) (fault : option string)
  | Cd_DeviceEdit (device : string) (edit : DeviceEdit) (faults : option string * option string)
  | Cd_Refresh (device : string) (fault : option string)
  | Cd_AddModel (new : NewModel)
  | Cd_DeleteModel (sha : string).
(** The database's rows, the model directory and the task's state. *)
Record World := mkWorld { wd_rows : StoredRows; wd_dir : Directory; wd_state : State }.

Section run.
Context `{Unicode} `{SerdeText} `{Digest}.

(** One command of [State::run]. *)
Definition serve (w : World) (command : Command) : World :=
  match command with
  | Cd_FleetEdit patch fault =>
      let '(rows, s, _) := fleet_edit fault patch (wd_rows w) (wd_state w) in mkWorld rows (wd_dir w) s
  | Cd_DeviceEdit device edit faults =>
      let '(rows, s, _) := device_edit faults device edit (wd_rows w) (wd_state w) in mkWorld rows (wd_dir w) s
  | Cd_Refresh device fault =>
      mkWorld (wd_rows w) (wd_dir w) (refresh fault device (wd_rows w) (wd_state w)).1
  | Cd_AddModel new =>
      let '(ops, s, _) := add_model (wd_dir w) new (wd_state w) in mkWorld (wd_rows w) (apply_ops ops (wd_dir w)) s
  | Cd_DeleteModel sha =>
      let '(ops, s, _) := delete_model (wd_dir w) sha (wd_state w) in mkWorld (wd_rows w) (apply_ops ops (wd_dir w)) s
  end.
Definition serve_all (w : World) (commands : list Command) : World := fold_left serve commands w.
End run.
