(* ===== verification/SettingsContract.v ===== *)
(** * The settings service's contract

    What the definitions of [SettingsService] guarantee: memory, rows and published
    snapshots in step over every history of commands, the effect of each edit, the
    models that stay usable, the watchers, the composed [session.ready]. *)
From Stdlib Require Import Floats.SpecFloat Sorting.Sorted.
From S2P Require Import Prelude Bytes WireEnum Float Ema Vocab Json Policy Session Clock Evidence Level Transcript Document Values Settings Stored Registry SettingsService.

(** ** Facts *)
Section facts.
Context `{Unicode} `{SerdeText}.

(** Equal as the code compares them, possibly in several steps ([0.0 == -0.0]). *)
Definition alike (a b : SettingValue) : Prop := rtsc (fun x y => value_eqb x y = true) a b.
Definition alike_settings (a b : DeviceSettings) : Prop := forall k, alike (key_get a k) (key_get b k).

#[export] Instance alike_equivalence : Equivalence alike.
Proof. exact rtsc_equivalence. Qed.
#[export] Instance alike_settings_equivalence : Equivalence alike_settings.
Proof.
  split; [intros a k; reflexivity|intros a b Hab k; symmetry; apply Hab|].
  intros a b c Hab Hbc k. by transitivity (key_get b k).
Qed.
Lemma value_eqb_alike a b : value_eqb a b = true -> alike a b.
Proof. intros Hab. apply rtc_once. by left. Qed.
Lemma settings_eqb_alike a b : settings_eqb a b = true -> alike_settings a b.
Proof.
  unfold settings_eqb. rewrite forallb_forall. intros Hf k. apply value_eqb_alike, Hf. apply list_elem_of_In, all_complete.
Qed.
Lemma settings_eqb_differences a b : settings_eqb a b = true <-> differences a b = [].
Proof.
  unfold settings_eqb, differences. generalize (ALL : list SettingKey). induction l as [|k l IH]; [done|]. cbn.
  destruct (value_eqb (key_get a k) (key_get b k)); cbn; [exact IH|done].
Qed.

Lemma alike_model_value v w : alike v w -> forall m, v = Sv_WakeModel m -> w = Sv_WakeModel m.
Proof.
  induction 1 as [x|x y z Hxy _ IH]; intros m Ex; [exact Ex|]. apply IH. subst x. destruct Hxy as [Hxy|Hxy].
  - destruct y; try discriminate Hxy. cbn in Hxy. by apply String.eqb_eq in Hxy as ->.
  - destruct y; try discriminate Hxy. cbn in Hxy. by apply String.eqb_eq in Hxy as ->.
Qed.
Lemma alike_model a b : alike (key_get a Sk_WakeModel) (key_get b Sk_WakeModel) -> selected_graph a = selected_graph b.
Proof. intros Hk. pose proof (alike_model_value _ _ Hk _ eq_refl) as E. cbn in E. by injection E. Qed.

Lemma reuse_alike previous id next : alike_settings (sh_settings (reuse previous id next)) next.
Proof.
  unfold reuse. destruct previous as [p|]; [|reflexivity]. destruct (settings_eqb (sh_settings p) next) eqn:E; [|reflexivity]. by apply settings_eqb_alike.
Qed.

Lemma stored_keyed text : keyed (sc_values (stored_config_parse text)).
Proof. apply stored_parse_ok. Qed.

Lemma effective_alike a b device sections :
  keyed (sc_values device) -> alike_settings a b -> alike_settings (effective_settings a device sections) (effective_settings b device sections).
Proof.
  intros Hk Hab k. rewrite !effective_get by exact Hk. destruct (sc_values device !! k) as [v|]; [|apply Hab].
  destruct (value_applies sections k); [reflexivity|apply Hab].
Qed.

(** *** What the memory holds is what the rows say, and what is published follows it *)
(** A publication's allocations are the fleet's or a device's, and not later than it. *)
Definition labels (generation : N) (p : SettingsSnapshot) : Prop :=
  ((sh_id (sn_fleet p)).2 = None /\ ((sh_id (sn_fleet p)).1 <= generation)%N) /\
  forall device e, sn_devices p !! device = Some e ->
    (sh_id (en_settings e)).2 = Some device /\ ((sh_id (en_settings e)).1 <= generation)%N.
Definition labelled (s : State) : Prop := forall p, st_previous s = Some p -> labels (st_generation s) p.
Definition in_step (rows : StoredRows) (s : State) : Prop :=
  st_fleet s = stored_config_parse (rw_fleet rows) /\
  (forall device stored, st_devices s !! device = Some stored -> exists row, stored = from_row row) /\
  (forall device stored, st_devices s !! device = Some stored -> stored_ok (sd_config stored)) /\
  labelled s.
(** Of every device but the [stale] ones, memory is what its row says. *)
Definition synced (stale : gset string) (rows : StoredRows) (s : State) : Prop :=
  forall device, device ∉ stale -> st_devices s !! device = from_row <$> rw_devices rows !! device.

Definition entry_current (fleet : DeviceSettings) (stored : StoredDevice) (e : DeviceEntry) : Prop :=
  alike_settings (sh_settings (en_settings e)) (effective_settings fleet (sd_config stored) (ss_known (sd_sections stored))) /\
  en_overridden e = ss_known (sd_sections stored) /\
  en_issues e = sc_issues (sd_config stored) ++ ss_issues (sd_sections stored).
Definition current (s : State) (p : SettingsSnapshot) : Prop :=
  sn_generation p = st_generation s /\
  alike_settings (sh_settings (sn_fleet p)) (fleet_settings (st_fleet s)) /\
  sn_fleet_issues p = sc_issues (st_fleet s) /\
  sn_registry p = st_registry s /\
  forall device, option_Forall2 (entry_current (fleet_settings (st_fleet s))) (st_devices s !! device) (sn_devices p !! device).
Definition published (s : State) : Prop := exists p, st_previous s = Some p /\ current s p.

Lemma publish_current s s' p :
  (forall device stored, st_devices s !! device = Some stored -> stored_ok (sd_config stored)) ->
  publish s = (s', p) ->
  st_previous s' = Some p /\ current s' p /\
  st_fleet s' = st_fleet s /\ st_devices s' = st_devices s /\ st_registry s' = st_registry s /\
  st_generation s' = (st_generation s + 1)%N.
Proof.
  intros Hk [= <- <-]. split_and!; try reflexivity. split_and!; try reflexivity; [apply reuse_alike|].
  intros device. cbn [sn_devices build publish]. unfold build. cbn [sn_devices st_devices st_fleet]. rewrite map_lookup_imap. destruct (st_devices s !! device) as [stored|] eqn:E; [|constructor].
  constructor. split_and!; [|reflexivity|reflexivity]. unfold build_entry. cbn [en_settings]. etrans; [apply reuse_alike|]. apply effective_alike; [exact (proj1 (Hk _ _ E))|]. apply reuse_alike.
Qed.

Lemma reuse_label previous id next generation :
  (id.1 <= generation)%N ->
  (forall q, previous = Some q -> (sh_id q).2 = id.2 /\ ((sh_id q).1 <= generation)%N) ->
  (sh_id (reuse previous id next)).2 = id.2 /\ ((sh_id (reuse previous id next)).1 <= generation)%N.
Proof.
  intros Hid Hq. unfold reuse. destruct previous as [q|]; [|done]. destruct (settings_eqb _ _); [by apply Hq|done].
Qed.
Lemma build_labels s : labelled s -> labels (st_generation s + 1) (build s).
Proof.
  intros Hl. split.
  - apply (reuse_label _ (_, None)); [cbn [fst]; lia|]. intros q. destruct (st_previous s) as [p|] eqn:Ep; [|done].
    intros [= <-]. destruct (Hl p Ep) as [[H1 H2] _]. split; [exact H1|lia].
  - intros device e. unfold build. cbn [sn_devices]. rewrite map_lookup_imap. intros (stored & _ & [= <-])%bind_Some.
    unfold build_entry. cbn [en_settings]. apply (reuse_label _ (_, Some device)); [cbn [fst]; lia|]. intros q.
    destruct (st_previous s) as [p|] eqn:Ep; [|done]. cbn [mbind option_bind]. intros (e & He & ->)%fmap_Some.
    destruct (Hl p Ep) as [_ Hd]. destruct (Hd device e He) as [H1 H2]. split; [exact H1|lia].
Qed.

Lemma publish_in_step rows s s' p : in_step rows s -> publish s = (s', p) -> in_step rows s' /\ published s'.
Proof.
  intros (Hf & Hd & Hk & Hl) Hp. destruct (publish_current s s' p Hk Hp) as (Hprev & Hc & Ef & Ed & _ & Eg).
  split; [|by exists p]. unfold in_step. rewrite Ef, Ed. split_and!; [done|done|done|]. intros q Hq.
  assert (q = p) as -> by congruence. rewrite Eg. injection Hp as _ <-. by apply build_labels.
Qed.

Lemma from_row_ok row : stored_ok (sd_config (from_row row)).
Proof. exact (stored_parse_ok (Some (dr_config row))). Qed.

Lemma start_published rows registry : in_step rows (start rows registry).1 /\ published (start rows registry).1.
Proof.
  unfold start. destruct (publish _) as [s p] eqn:E. cbn [fst]. eapply publish_in_step; [|exact E].
  unfold in_step. cbn [st_fleet st_devices]. split_and!; [reflexivity| | |by intros ?].
  - intros device stored. rewrite lookup_fmap. intros (r & _ & ->)%fmap_Some. by exists r.
  - intros device stored. rewrite lookup_fmap. intros (r & _ & ->)%fmap_Some. apply from_row_ok.
Qed.
End facts.

Section serving.
Context `{Unicode} `{SerdeText} `{Digest}.

Definition kept (rows : StoredRows) (s : State) : Prop := in_step rows s /\ published s.

Lemma published_set_registry registry s rows s' p :
  in_step rows s -> publish (set_registry registry s) = (s', p) -> kept rows s'.
Proof. intros Hs. apply publish_in_step. exact Hs. Qed.

Lemma fleet_edit_kept fault patch rows s rows' s' r :
  kept rows s -> fleet_edit fault patch rows s = (rows', s', r) -> kept rows' s'.
Proof.
  intros [Hs Hp]. unfold fleet_edit. destruct (with_changes _ _) as [[text|]|]; destruct (st_previous s) as [before|]; try (by intros [= <- <- _]).
  destruct (check_wake _ _ _); [|by intros [= <- <- _]]. destruct fault; [by intros [= <- <- _]|].
  destruct (publish _) as [s1 after] eqn:E. intros [= <- <- _]. eapply publish_in_step; [|exact E].
  destruct Hs as (_ & Hd & Hk & Hl). split_and!; [reflexivity|exact Hd|exact Hk|exact Hl].
Qed.

Lemma refresh_kept fault device rows s : kept rows s -> kept rows (refresh fault device rows s).1.
Proof.
  intros [Hs Hp]. unfold refresh. destruct fault; [done|].
  assert (Hset : forall devices, in_step rows (set_devices devices s) ->
            kept rows (let '(s, snapshot) := publish (set_devices devices s) in (s, Ok (E:=string) snapshot)).1).
  { intros devices Hi. destruct (publish _) as [s1 p] eqn:E. by eapply publish_in_step. }
  assert (Hsame : kept rows (match st_previous s with Some p => (s, Ok p) | None => (s, Err "") end).1) by (by destruct (st_previous s)).
  destruct Hs as (Hf & Hd & Hk & Hl). destruct (rw_devices rows !! device) as [row|] eqn:Er.
  - destruct (match st_devices s !! device with Some _ => _ | None => _ end) eqn:Esame; cbn [negb]; [exact Hsame|].
    apply Hset. unfold in_step. cbn [set_devices st_fleet st_devices]. split_and!; [done| | |exact Hl].
    + intros d stored. destruct (decide (d = device)) as [->|Hne].
      * rewrite lookup_insert_eq. intros [= <-]. by exists row.
      * rewrite lookup_insert_ne by done. apply Hd.
    + intros d stored. destruct (decide (d = device)) as [->|Hne].
      * rewrite lookup_insert_eq. intros [= <-]. apply from_row_ok.
      * rewrite lookup_insert_ne by done. apply Hk.
  - assert (Hdel : in_step rows (set_devices (delete device (st_devices s)) s)).
    { unfold in_step. cbn [set_devices st_fleet st_devices]. split_and!; [done| | |exact Hl].
      - intros d stored [_ Hst]%lookup_delete_Some. by eapply Hd.
      - intros d stored [_ Hst]%lookup_delete_Some. by eapply Hk. }
    case_bool_decide as Eb; [by apply Hset|].
    assert (Hnone : st_devices s !! device = None) by (by destruct (st_devices s !! device); [destruct Eb|]).
    rewrite (delete_id _ _ Hnone). by destruct s.
Qed.
End serving.

Section serving_more.
Context `{Unicode} `{SerdeText} `{Digest}.

Lemma edit_stored_kept fault device stored edit before rows s rows' s' r :
  kept rows s -> st_devices s !! device = Some stored ->
  edit_stored fault device stored edit before rows s = (rows', s', r) -> kept rows' s'.
Proof.
  intros Hkept Hst. pose proof Hkept as [(Hf & Hd & Hk & Hl) Hp]. unfold edit_stored.
  destruct (with_changes _ _) as [text|]; [|by intros [= <- <- _]]. cbv zeta.
  match goal with |- match ?c with Ok _ => _ | Err _ => _ end = _ -> _ => destruct c; [|by intros [= <- <- _]] end.
  match goal with |- (if ?c then _ else _) = _ -> _ => destruct c; [by intros [= <- <- _]|] end.
  destruct fault; [by intros [= <- <- _]|]. unfold write_device.
  destruct (rw_devices rows !! device) as [row|] eqn:Er; [|by intros [= <- <- _]].
  destruct (publish _) as [s1 after] eqn:E. intros [= <- <- _]. eapply publish_in_step; [|exact E].
  destruct (Hd device stored Hst) as [was Hrow].
  unfold in_step. cbn [set_devices st_fleet st_devices rw_fleet rw_devices]. split_and!; [done| | |exact Hl].
  - intros d st. destruct (decide (d = device)) as [->|Hne].
    + rewrite lookup_insert_eq. intros [= <-]. eexists (mkDeviceConfigRow (default (dr_config was) text) _ _). unfold from_row. cbn [dr_config dr_config_sections dr_use_global_config].
      f_equal. destruct text as [t|]; [reflexivity|]. by rewrite Hrow.
    + rewrite lookup_insert_ne by done. apply Hd.
  - intros d st. destruct (decide (d = device)) as [->|Hne].
    + rewrite lookup_insert_eq. intros [= <-]. cbn [sd_config]. destruct text as [t|]; [exact (stored_parse_ok (Some t))|exact (Hk _ _ Hst)].
    + rewrite lookup_insert_ne by done. apply Hk.
Qed.

Lemma device_edit_kept faults device edit rows s rows' s' r :
  kept rows s -> device_edit faults device edit rows s = (rows', s', r) -> kept rows' s'.
Proof.
  intros Hkept. unfold device_edit. destruct (st_devices s !! device) as [stored|] eqn:Est.
  - rewrite Est. destruct (st_previous s); [by apply edit_stored_kept|by intros [= <- <- _]].
  - pose proof (refresh_kept faults.1 device rows s Hkept) as Hr. destruct (refresh _ _ _ _) as [s1 [snap|reason]]; cbn [fst] in Hr;
      [|by intros [= <- <- _]].
    destruct (st_devices s1 !! device) as [stored|] eqn:Est1; [|by intros [= <- <- _]].
    destruct (st_previous s1); [by apply edit_stored_kept|by intros [= <- <- _]].
Qed.

Lemma serve_kept w c : kept (wd_rows w) (wd_state w) -> kept (wd_rows (serve w c)) (wd_state (serve w c)).
Proof.
  intros Hk. destruct c as [patch fault|device edit faults|device fault|new|sha]; cbn [serve].
  - destruct (fleet_edit _ _ _ _) as [[rows s] r] eqn:E. by eapply fleet_edit_kept.
  - destruct (device_edit _ _ _ _ _) as [[rows s] r] eqn:E. by eapply device_edit_kept.
  - by apply refresh_kept.
  - unfold add_model. destruct (added _ _ _) as [ops [[registry o]|e]]; [|done]. destruct o; [|done].
    destruct (publish _) as [s p] eqn:E. eapply published_set_registry; [exact (proj1 Hk)|exact E].
  - unfold delete_model. destruct (default _ _); [|done]. destruct (without _ _ _) as [ops [registry|e]]; [|done].
    destruct (publish _) as [s p] eqn:E. eapply published_set_registry; [exact (proj1 Hk)|exact E].
Qed.
End serving_more.

(** [serde_json] reads a number as an integer of 64 bits or a finite [f64]. *)
Class SerdeLaws (S : SerdeText) : Prop := { serde_exact : forall text j, json_parse text = Ok j -> exact_json j }.

Section values.
Context {U : Unicode} {UL : UnicodeLaws U} {S : SerdeText} {SL : SerdeLaws S}.

(** A patch as read from exact JSON: every value under its key, each a valid one. *)
Definition patch_ok (patch : SettingMap) : Prop := forall k v, patch !! k = Some v -> value_key v = k /\ value_valid v.

Lemma stored_value_valid text k v : sc_values (stored_config_parse text) !! k = Some v -> value_key v = k /\ value_valid v.
Proof.
  intros Hv. destruct text as [text|]; [|exfalso; cbn in Hv; by rewrite lookup_empty in Hv].
  destruct (stored_parse_spec text) as (_ & _ & Hm). destruct (json_parse text) as [[| | | | |o]|] eqn:Ej; destruct Hm as (_ & Hm);
    try (destruct Hm as [Hm _]; rewrite Hm in Hv; by rewrite lookup_empty in Hv).
  destruct Hm as (_ & _ & Hm). rewrite Hm in Hv. eapply entry_value_valid; [|exact Hv]. exact (serde_exact _ _ Ej).
Qed.

Lemma fleet_value_valid text k : value_valid (key_get (fleet_settings (stored_config_parse text)) k).
Proof.
  rewrite fleet_get by apply stored_keyed. destruct (sc_values _ !! k) as [v|] eqn:E; [|apply value_default_valid].
  exact (proj2 (stored_value_valid _ _ _ E)).
Qed.

Lemma change_of_Some changes k v : change_of changes k = Some v -> v ∈ changes /\ value_key v = k.
Proof.
  unfold change_of. destruct (list_find _ changes) as [[i w]|] eqn:E; [|done]. intros [= ->].
  apply list_find_Some in E as (Hl & Ek & _). split; [by eapply list_elem_of_lookup_2|done].
Qed.
Lemma change_of_None changes k : change_of changes k = None -> forall v, v ∈ changes -> value_key v <> k.
Proof.
  unfold change_of. destruct (list_find _ changes) as [[i w]|] eqn:E; [done|]. intros _ v Hv.
  apply list_find_None in E. rewrite Forall_forall in E. by apply E.
Qed.
Lemma change_of_elem changes v : NoDup (value_key <$> changes) -> v ∈ changes -> change_of changes (value_key v) = Some v.
Proof.
  intros Hn Hv. destruct (change_of changes (value_key v)) as [w|] eqn:E; [|by destruct (change_of_None _ _ E v Hv)].
  apply change_of_Some in E as [Hw Ek]. f_equal. apply list_elem_of_lookup in Hv as [i Hi]. apply list_elem_of_lookup in Hw as [j Hj].
  assert (i = j) as ->; [|congruence]. eapply NoDup_lookup; [exact Hn| |]; rewrite list_lookup_fmap; [by rewrite Hi|]. by rewrite Hj, <- Ek.
Qed.

(** What the stored values are after an edit of one document. *)
Definition after_changes (c : StoredConfig) (text : option string) : StoredConfig :=
  match text with Some t => stored_config_parse (Some t) | None => c end.
Lemma with_changes_values c changes text :
  stored_ok c -> NoDup (value_key <$> changes) -> Forall value_valid changes ->
  with_changes c changes = Ok text -> (forall d, new_document c changes = Some d -> reads_back d) ->
  forall k, match change_of changes k with
            | Some v => exists w, sc_values (after_changes c text) !! k = Some w /\ same_value v w
            | None => sc_values (after_changes c text) !! k = sc_values c !! k
            end.
Proof.
  intros Hok Hn Hv Hw Hr k. pose proof (with_changes_spec c changes Hok Hn Hv) as Hs. rewrite Hw in Hs. destruct text as [text|].
  - destruct Hs as (d & d' & _ & Hnew & _ & _ & _ & _ & Hs). destruct (Hs (Hr d' Hnew)) as (_ & Hk). apply Hk.
  - destruct Hs as (_ & Hs). destruct (change_of changes k) as [v|] eqn:E; [|done].
    apply change_of_Some in E as [Hin <-]. destruct (Hs v Hin) as (w & Hw' & He). exists w. split; [exact Hw'|by right].
Qed.

(** *** The values of a patch and of a device edit *)
Lemma map_values_keys m : keyed m -> value_key <$> map_values m = (map_entries m).*1.
Proof.
  intros Hk. unfold map_values. assert (Hin : forall e, e ∈ map_entries m -> value_key e.2 = e.1).
  { intros [k v] Hi%elem_of_map_entries. by apply Hk. }
  induction (map_entries m) as [|e l IH]; [done|]. cbn. rewrite Hin by by left. f_equal. apply IH. intros. apply Hin. by right.
Qed.
Lemma map_values_NoDup m : keyed m -> NoDup (value_key <$> map_values m).
Proof. intros Hk. rewrite map_values_keys by done. apply map_entries_NoDup. Qed.
Lemma elem_of_map_values m v : keyed m -> v ∈ map_values m <-> m !! value_key v = Some v.
Proof.
  intros Hk. unfold map_values. split.
  - intros ([k w] & -> & Hi%elem_of_map_entries)%list_elem_of_fmap. cbn. by rewrite (Hk _ _ Hi).
  - intros Hi%elem_of_map_entries. by apply (list_elem_of_fmap_2 snd) in Hi.
Qed.
Lemma patch_keyed patch : patch_ok patch -> keyed patch.
Proof. intros Hp k v Hv. by apply Hp. Qed.
Lemma patch_valid patch : patch_ok patch -> Forall value_valid (map_values patch).
Proof. intros Hp. apply Forall_forall. intros v Hv%elem_of_map_values; [|by apply patch_keyed]. by eapply Hp. Qed.
Lemma change_of_patch patch k : patch_ok patch -> change_of (map_values patch) k = patch !! k.
Proof.
  intros Hp%patch_keyed. destruct (patch !! k) as [v|] eqn:E.
  - pose proof (Hp _ _ E) as <-. apply change_of_elem; [by apply map_values_NoDup|]. by apply elem_of_map_values.
  - destruct (change_of _ k) as [v|] eqn:Ec; [|done]. apply change_of_Some in Ec as [Hv <-].
    apply elem_of_map_values in Hv; [|done]. congruence.
Qed.
End values.

Definition keys_of_sections : list SettingKey := (ALL : list Section_) ≫= section_keys.
Lemma all_sections_keys : NoDup keys_of_sections.
Proof.
  apply (NoDup_fmap_1 as_str).
  assert (E : keys_of_sections = ltac:(let x := eval vm_compute in keys_of_sections in exact x)) by (vm_compute; reflexivity).
  rewrite E. apply (bool_decide_unpack _). vm_compute. exact I.
Qed.

Section device_values.
Context {U : Unicode} {UL : UnicodeLaws U} {S : SerdeText} {SL : SerdeLaws S}.

Lemma sublist_bind {A B} (f : A -> list B) l l' : l `sublist_of` l' -> (l ≫= f) `sublist_of` (l' ≫= f).
Proof. induction 1; cbn; [done|by apply sublist_app|by apply sublist_inserts_l]. Qed.
Lemma sublist_retain {A} (p : A -> bool) l : retain p l `sublist_of` l.
Proof. induction l as [|a l IH]; [done|]. rewrite retain_cons. destruct (p a); by constructor. Qed.

(** The keys of the sections just switched on that the edit does not give. *)
Lemma copied_keys edit fleet on :
  value_key <$> copied_values edit fleet on =
  retain (fun k => bool_decide (edit !! k = None)) (retain (fun s => bool_decide (s ∈ on)) ALL ≫= section_keys).
Proof.
  unfold copied_values. induction (_ ≫= section_keys) as [|k l IH]; [done|]. cbn [mbind list_bind]. rewrite fmap_app, IH, retain_cons.
  destruct (edit !! k); cbn; [done|]. by rewrite get_key.
Qed.
Lemma elem_of_section_keys k s : k ∈ section_keys s <-> key_scope k = Sc_Section s.
Proof.
  unfold section_keys. rewrite elem_of_retain, bool_decide_eq_true. split; [by intros [_ ?]|].
  intros. split; [apply all_complete|done].
Qed.
Lemma elem_of_retained (on : SectionSet) s : s ∈ retain (fun x => bool_decide (x ∈ on)) ALL <-> s ∈ on.
Proof.
  rewrite elem_of_retain, bool_decide_eq_true. split; [by intros [_ ?]|]. intros. split; [apply all_complete|done].
Qed.
Lemma elem_of_copies (edit : SettingMap) (get : SettingKey -> SettingValue) (keys : list SettingKey) (v : SettingValue) :
  (forall k, value_key (get k) = k) ->
  v ∈ (keys ≫= fun k => match edit !! k with Some _ => [] | None => [get k] end) <->
  v = get (value_key v) /\ edit !! value_key v = None /\ value_key v ∈ keys.
Proof.
  intros Hget. rewrite list_elem_of_bind. split.
  - intros (k & Hv & Hk). destruct (edit !! k) as [w|] eqn:E; [by apply elem_of_nil in Hv|]. apply list_elem_of_singleton in Hv.
    assert (Hk' : value_key v = k) by (rewrite Hv; apply Hget). by rewrite Hk'.
  - intros (Hv & He & Hk). exists (value_key v). rewrite He. split; [|exact Hk]. rewrite <- Hv. by left.
Qed.
Lemma elem_of_copied edit fleet on v :
  v ∈ copied_values edit fleet on <->
  v = key_get fleet (value_key v) /\ edit !! value_key v = None /\ exists s, s ∈ on /\ key_scope (value_key v) = Sc_Section s.
Proof.
  unfold copied_values. rewrite (elem_of_copies edit (key_get fleet)) by apply get_key. rewrite list_elem_of_bind.
  split; intros (Hv & He & s & H1 & H2); (split; [exact Hv|split; [exact He|exists s]]).
  - split; [by apply elem_of_retained|by apply elem_of_section_keys].
  - split; [by apply elem_of_section_keys|by apply elem_of_retained].
Qed.

Section one_edit.
Context (stored : StoredDevice) (edit : DeviceEdit) (fleet : DeviceSettings).
Hypothesis Hedit : patch_ok (de_values edit).
Hypothesis Hfleet : forall k, value_valid (key_get fleet k).

Let sections := edit_sections stored edit.
Let old := ss_known (sd_sections stored).

Lemma elem_of_own v : v ∈ own_values (de_values edit) sections <-> de_values edit !! value_key v = Some v /\ value_applies sections (value_key v) = true.
Proof. unfold own_values. by rewrite elem_of_retain, elem_of_map_values by by apply patch_keyed. Qed.

Lemma elem_of_store v :
  v ∈ edit_store stored edit fleet <->
  v ∈ own_values (de_values edit) sections \/ v ∈ copied_values (de_values edit) fleet (sections ∖ old).
Proof. unfold edit_store, sections, old. apply elem_of_app. Qed.
Lemma store_NoDup : NoDup (value_key <$> edit_store stored edit fleet).
Proof.
  unfold edit_store. rewrite fmap_app. apply NoDup_app. split_and!.
  - eapply sublist_NoDup; [apply (map_values_NoDup (de_values edit)); by apply patch_keyed|].
    apply fmap_sublist. apply sublist_retain.
  - intros k (v & -> & [Hv _]%elem_of_own)%list_elem_of_fmap (w & Hk & (_ & He & _)%elem_of_copied)%list_elem_of_fmap.
    rewrite Hk in Hv. congruence.
  - rewrite copied_keys. eapply sublist_NoDup; [apply all_sections_keys|].
    etrans; [apply sublist_retain|]. apply sublist_bind, sublist_retain.
Qed.
Lemma store_values_valid : Forall value_valid (edit_store stored edit fleet).
Proof.
  apply Forall_forall. intros v [Hv|Hv]%elem_of_store.
  - apply elem_of_own in Hv as [Hv _]. exact (proj2 (Hedit _ _ Hv)).
  - apply elem_of_copied in Hv as [Hv _]. rewrite Hv. exact (Hfleet (value_key v)).
Qed.

Definition stored_change (k : SettingKey) : option SettingValue :=
  match de_values edit !! k with
  | Some v => if value_applies sections k then Some v else None
  | None => match key_scope k with
            | Sc_Section s => if bool_decide (s ∈ sections ∖ old) then Some (key_get fleet k) else None
            | Sc_State => None
            end
  end.
Lemma change_of_store k : change_of (edit_store stored edit fleet) k = stored_change k.
Proof.
  assert (Hyes : forall v, v ∈ edit_store stored edit fleet -> change_of (edit_store stored edit fleet) (value_key v) = Some v)
    by (intros v; apply change_of_elem, store_NoDup).
  unfold stored_change. destruct (change_of _ k) as [v|] eqn:E.
  - apply change_of_Some in E as [Hin <-]. apply elem_of_store in Hin as [[Hv Ha]%elem_of_own|(Hv & He & s & Hs & Hk)%elem_of_copied].
    + by rewrite Hv, Ha.
    + rewrite He, Hk. rewrite bool_decide_eq_true_2 by done. by rewrite <- Hv.
  - pose proof (change_of_None _ _ E) as Hno. destruct (de_values edit !! k) as [v|] eqn:Ev.
    + destruct (value_applies sections k) eqn:Ea; [|done]. pose proof (proj1 (Hedit _ _ Ev)) as Hk.
      destruct (Hno v); [|done]. apply elem_of_store. left. apply elem_of_own. by rewrite Hk.
    + destruct (key_scope k) as [s|] eqn:Ek; [|done]. case_bool_decide as Hs; [|done].
      destruct (Hno (key_get fleet k)); [|apply get_key]. apply elem_of_store. right. apply elem_of_copied. rewrite get_key.
      split_and!; [done|done|]. by exists s.
Qed.
End one_edit.
End device_values.

(** *** What an edit does *)
Section edits.
Context {U : Unicode} {UL : UnicodeLaws U} {S : SerdeText} {SL : SerdeLaws S}.

Lemma same_value_alike v w : same_value v w -> alike v w.
Proof. intros [Hv|Hv]; [by apply value_eqb_alike|symmetry; by apply value_eqb_alike]. Qed.

(** The values in force after a document's edit, key by key. *)
Lemma effective_after c changes text fleet sections k :
  stored_ok c -> NoDup (value_key <$> changes) -> Forall value_valid changes ->
  with_changes c changes = Ok text -> (forall d, new_document c changes = Some d -> reads_back d) ->
  let v := key_get (effective_settings fleet (after_changes c text) sections) k in
  if value_applies sections k
  then match change_of changes k with
       | Some w => alike w v
       | None => v = default (key_get fleet k) (sc_values c !! k)
       end
  else v = key_get fleet k.
Proof.
  intros Hok Hn Hv Hw Hr. cbv zeta. pose proof (with_changes_values c changes text Hok Hn Hv Hw Hr k) as Hk.
  assert (Hkeyed : keyed (sc_values (after_changes c text))).
  { destruct text as [t|]; [exact (stored_keyed (Some t))|exact (proj1 Hok)]. }
  rewrite effective_get by exact Hkeyed. destruct (value_applies sections k).
  - destruct (change_of changes k) as [w|].
    + destruct Hk as (x & -> & Hs). by apply same_value_alike.
    + rewrite Hk. by destruct (sc_values c !! k).
  - by destruct (sc_values (after_changes c text) !! k).
Qed.

Lemma fleet_after c changes text k :
  stored_ok c -> NoDup (value_key <$> changes) -> Forall value_valid changes ->
  with_changes c changes = Ok text -> (forall d, new_document c changes = Some d -> reads_back d) ->
  match change_of changes k with
  | Some w => alike w (key_get (fleet_settings (after_changes c text)) k)
  | None => key_get (fleet_settings (after_changes c text)) k = key_get (fleet_settings c) k
  end.
Proof.
  intros Hok Hn Hv Hw Hr. pose proof (with_changes_values c changes text Hok Hn Hv Hw Hr k) as Hk.
  assert (Hkeyed : keyed (sc_values (after_changes c text))).
  { destruct text as [t|]; [exact (stored_keyed (Some t))|exact (proj1 Hok)]. }
  rewrite !fleet_get by first [exact Hkeyed|exact (proj1 Hok)]. destruct (change_of changes k) as [w|].
  - destruct Hk as (x & -> & Hs). by apply same_value_alike.
  - by rewrite Hk.
Qed.

Lemma section_items_unknown items s :
  (forall id, id ∈ ss_unknown s -> @from_wire Section_ _ id = None) ->
  forall id, id ∈ ss_unknown (fold_left section_item items s) -> @from_wire Section_ _ id = None.
Proof.
  revert s. induction items as [|item items IH]; intros s Hs; [exact Hs|]. cbn [fold_left]. apply IH.
  destruct item as [| | | |a|]; try exact Hs. unfold section_item. destruct (from_wire _) as [sec|] eqn:E; [exact Hs|].
  cbn [ss_unknown]. intros id [Hi|Hi%list_elem_of_singleton]%elem_of_app; [by apply Hs|by subst id].
Qed.
Lemma stored_unknown text use_global id :
  id ∈ ss_unknown (stored_sections_parse text use_global) -> @from_wire Section_ _ id = None.
Proof.
  unfold stored_sections_parse. assert (Hissue : forall i s, ss_unknown (section_issue i s) = ss_unknown s) by done.
  destruct (negb _); [rewrite Hissue|]; (destruct (json_parse text) as [[| | | |items|]|];
    try (rewrite Hissue; by intros ?%elem_of_nil); apply section_items_unknown; by intros ? ?%elem_of_nil).
Qed.
End edits.

Section contracts.
Context {U : Unicode} {UL : UnicodeLaws U} {S : SerdeText} {SL : SerdeLaws S}.

Definition own_value (stored : StoredDevice) (k : SettingKey) : option SettingValue :=
  if value_applies (ss_known (sd_sections stored)) k then sc_values (sd_config stored) !! k else None.
Definition published_fleet (p : SettingsSnapshot) (k : SettingKey) : SettingValue := key_get (sh_settings (sn_fleet p)) k.
Definition published_value (p : SettingsSnapshot) (device : string) (k : SettingKey) : SettingValue :=
  key_get (sh_settings (snapshot_effective p device)) k.

(** What a current snapshot publishes, key by key. *)
Lemma current_fleet s p k : current s p -> alike (published_fleet p k) (key_get (fleet_settings (st_fleet s)) k).
Proof. intros (_ & Hf & _). apply Hf. Qed.
Lemma current_value rows s p device k :
  in_step rows s -> current s p ->
  alike (published_value p device k)
    (default (published_fleet p k) (st_devices s !! device ≫= fun stored => own_value stored k)).
Proof.
  intros (_ & _ & Hk & _) Hc. unfold published_value, snapshot_effective.
  pose proof Hc as (_ & Hf & _ & _ & Hd). specialize (Hd device).
  destruct (st_devices s !! device) as [stored|] eqn:E; inversion Hd as [? e (He & _)|]; subst; [|reflexivity].
  cbn [mbind option_bind]. etrans; [apply He|]. rewrite effective_get by exact (proj1 (Hk _ _ E)). unfold own_value.
  destruct (value_applies _ k), (sc_values (sd_config stored) !! k); cbn [default]; try reflexivity; symmetry; apply Hf.
Qed.

Lemma fleet_stored_ok rows s : in_step rows s -> stored_ok (st_fleet s).
Proof. intros (-> & _). apply stored_parse_ok. Qed.
Lemma fleet_valid rows s : in_step rows s -> forall k, value_valid (key_get (fleet_settings (st_fleet s)) k).
Proof. intros (-> & _) k. apply fleet_value_valid. Qed.

(** A fleet edit that takes: what it checked and what it leaves. *)
Lemma fleet_edit_cases fault patch rows s rows' s' r :
  kept rows s -> fleet_edit fault patch rows s = (rows', s', r) ->
  match r with
  | Err _ => rows' = rows /\ s' = s
  | Ok o => exists before text, st_previous s = Some before /\ with_changes (st_fleet s) (map_values patch) = Ok text /\
      st_previous s' = Some (eo_snapshot o) /\ o = outcome before (eo_snapshot o) /\ kept rows' s' /\ current s' (eo_snapshot o) /\
      st_fleet s' = after_changes (st_fleet s) text /\ st_devices s' = st_devices s /\ st_registry s' = st_registry s /\
      (text = None \/ check_wake (st_registry s) (map_values patch) (fleet_settings (st_fleet s')) = Ok tt)
  end.
Proof.
  intros Hk Hf. pose proof (fleet_edit_kept fault patch rows s rows' s' r Hk Hf) as Hk'. destruct Hk as [Hs (p & Hp & Hc)].
  unfold fleet_edit in Hf. rewrite Hp in Hf. destruct (with_changes _ _) as [text|]; [|by injection Hf as <- <- <-].
  destruct text as [text|].
  2: { injection Hf as <- <- <-. exists p, None. split_and!; try done. by left. }
  destruct (check_wake _ _ _) as [[]|e] eqn:Ew; [|by injection Hf as <- <- <-]. destruct fault; [by injection Hf as <- <- <-|].
  destruct (publish _) as [s1 after] eqn:E. injection Hf as <- <- <-.
  destruct (publish_current (set_fleet (stored_config_parse (Some text)) s) s1 after (proj1 (proj2 (proj2 Hs))) E) as (H1 & H2 & H3 & H4 & H5 & _).
  exists p, (Some text). cbn [outcome eo_snapshot]. split_and!; try done. right. rewrite H3. exact Ew.
Qed.
End contracts.

Section device_contracts.
Context {U : Unicode} {UL : UnicodeLaws U} {S : SerdeText} {SL : SerdeLaws S}.

(** The rendered sections read back as the list they are. *)
Definition sections_read_back (s : StoredSections) (sections : SectionSet) : Prop :=
  json_parse (render_sections s sections) =
    Ok (JArray (((fun s : Section_ => JString (as_str s)) <$> retain (fun s => bool_decide (s ∈ sections)) ALL) ++
                (JString <$> ss_unknown s))).
Definition edit_reads_back (stored : StoredDevice) (edit : DeviceEdit) (fleet : DeviceSettings) : Prop :=
  (forall d, new_document (sd_config stored) (edit_store stored edit fleet) = Some d -> reads_back d) /\
  sections_read_back (sd_sections stored) (edit_sections stored edit).

Record device_edited (device : string) (stored : StoredDevice) (edit : DeviceEdit) (before : SettingsSnapshot)
    (rows' : StoredRows) (s s' : State) (o : EditOutcome)
    (ed_text : option string) (ed_next : StoredDevice) : Prop := {
  ed_written : with_changes (sd_config stored) (edit_store stored edit (fleet_settings (st_fleet s))) = Ok ed_text;
  ed_outcome : o = outcome before (eo_snapshot o);
  ed_published : st_previous s' = Some (eo_snapshot o) /\ current s' (eo_snapshot o) /\ kept rows' s';
  ed_rest : st_fleet s' = st_fleet s /\ st_registry s' = st_registry s /\ st_devices s' = <[device := ed_next]> (st_devices s);
  ed_config : sd_config ed_next = after_changes (sd_config stored) ed_text;
  ed_sections : ss_known (sd_sections ed_next) = edit_sections stored edit;
  ed_checked : Se_Wakeword ∈ edit_sections stored edit ->
    check_wake (st_registry s) (edit_own_wake edit (edit_store stored edit (fleet_settings (st_fleet s))))
      (effective_settings (fleet_settings (st_fleet s)) (sd_config ed_next) (edit_sections stored edit)) = Ok tt;
}.

Lemma edit_stored_cases fault device stored edit before rows s rows' s' r :
  kept rows s -> st_devices s !! device = Some stored -> st_previous s = Some before ->
  sections_read_back (sd_sections stored) (edit_sections stored edit) ->
  edit_stored fault device stored edit before rows s = (rows', s', r) ->
  match r with
  | Err _ => rows' = rows /\ s' = s
  | Ok o => exists text next, device_edited device stored edit before rows' s s' o text next
  end.
Proof.
  intros Hk Hst Hb Hr Hf. pose proof (edit_stored_kept fault device stored edit before rows s rows' s' r Hk Hst Hf) as Hk'.
  pose proof Hk as [Hs (p & Hp & Hc)]. rewrite Hb in Hp. injection Hp as <-.
  unfold edit_stored in Hf. destruct (with_changes _ _) as [text|] eqn:Ew; [|by injection Hf as <- <- <-]. cbv zeta in Hf.
  match type of Hf with match ?c with Ok _ => _ | Err _ => _ end = _ => destruct c as [[]|] eqn:Ec; [|by injection Hf as <- <- <-] end.
  assert (Hcheck : Se_Wakeword ∈ edit_sections stored edit ->
    check_wake (st_registry s) (edit_own_wake edit (edit_store stored edit (fleet_settings (st_fleet s))))
      (effective_settings (fleet_settings (st_fleet s)) (after_changes (sd_config stored) text) (edit_sections stored edit)) = Ok tt).
  { intros Hw. rewrite bool_decide_eq_true_2 in Ec by exact Hw. exact Ec. }
  match type of Hf with (if ?c then _ else _) = _ => destruct c eqn:Enop end.
  - injection Hf as <- <- <-. apply andb_true_iff in Enop as [Ht Hsec]. rewrite negb_true_iff in Ht, Hsec.
    apply bool_decide_eq_false, eq_None_not_Some in Ht. subst text. apply orb_false_iff in Hsec as [Hsec _].
    apply negb_false_iff, bool_decide_eq_true in Hsec.
    exists None, stored. split; try done. split_and!; [done|done|]. by rewrite insert_id.
  - destruct fault; [by injection Hf as <- <- <-|]. unfold write_device in Hf.
    destruct (rw_devices rows !! device) as [row|] eqn:Er; [|by injection Hf as <- <- <-].
    destruct (publish _) as [s1 after] eqn:E. injection Hf as <- <- <-.
    destruct (proj1 (proj2 Hs) device stored Hst) as [was Hrow].
    match type of E with publish (set_devices (<[device := ?n]> _) _) = _ => set (next := n) in * end.
    assert (Hkey : stored_ok (sd_config next)).
    { destruct text as [t|]; [exact (stored_parse_ok (Some t))|exact (proj1 (proj2 (proj2 Hs)) _ _ Hst)]. }
    destruct (publish_current (set_devices (<[device := next]> (st_devices s)) s) s1 after) as (H1 & H2 & H3 & H4 & H5 & _); [|exact E|].
    { cbn [set_devices st_devices]. intros d st. destruct (decide (d = device)) as [->|Hne].
      - rewrite lookup_insert_eq. intros [= <-]. exact Hkey.
      - rewrite lookup_insert_ne by done. apply Hs. }
    exists text, next. split; try done.
    subst next. cbn [sd_sections]. destruct (negb (bool_decide _) || _) eqn:Echanged.
    + apply render_parse_spec; [|exact Hr]. rewrite Hrow. intros id. apply stored_unknown.
    + apply orb_false_iff in Echanged as [Hsec Hg]. apply negb_false_iff, bool_decide_eq_true in Hsec.
      apply negb_false_iff, Bool.eqb_prop in Hg. rewrite Hsec. rewrite Hsec in Hg. rewrite Hg. by rewrite Hrow.
Qed.
End device_contracts.

(** ** Memory and rows *)
Section rows.
Context `{Unicode} `{SerdeText} `{Digest}.

Lemma start_fields rows registry : st_previous (start rows registry).1 = Some (start rows registry).2.
Proof. reflexivity. Qed.
Lemma start_state rows registry :
  st_fleet (start rows registry).1 = stored_config_parse (rw_fleet rows) /\
  st_devices (start rows registry).1 = from_row <$> rw_devices rows.
Proof. by split. Qed.
Lemma start_synced rows registry : synced ∅ rows (start rows registry).1.
Proof. intros device _. unfold start, publish. cbn [fst st_devices]. by rewrite lookup_fmap. Qed.

Lemma fleet_edit_devices fault patch rows s rows' s' r :
  fleet_edit fault patch rows s = (rows', s', r) -> st_devices s' = st_devices s /\ rw_devices rows' = rw_devices rows.
Proof.
  unfold fleet_edit. destruct (with_changes _ _) as [[text|]|]; destruct (st_previous s); try (by intros [= <- <- _]).
  destruct (check_wake _ _ _); [|by intros [= <- <- _]]. destruct fault; by intros [= <- <- _].
Qed.

Lemma stored_parse_text text : sc_text (stored_config_parse (Some text)) = Some text.
Proof. exact (proj1 (stored_parse_spec text)). Qed.
Lemma same_stored_row row was : same_stored (from_row was) (from_row row) = true -> from_row was = from_row row.
Proof.
  unfold same_stored. rewrite !andb_true_iff. intros [[Hc%bool_decide_eq_true Hs%String.eqb_eq] Hg%Bool.eqb_prop].
  destruct row as [config sections use_global], was as [config' sections' use_global'].
  unfold from_row in *. cbn [sd_config sd_sections_text sd_use_global_config dr_config dr_config_sections dr_use_global_config] in *.
  rewrite !stored_parse_text in Hc. injection Hc as <-. by subst.
Qed.
(** A read that does not fail leaves memory with what the row says. *)
Lemma refresh_reads device rows s :
  in_step rows s ->
  st_devices (refresh None device rows s).1 =
    match rw_devices rows !! device with Some row => <[device := from_row row]> (st_devices s) | None => delete device (st_devices s) end.
Proof.
  intros (_ & Hd & _). unfold refresh. destruct (rw_devices rows !! device) as [row|].
  - destruct (st_devices s !! device) as [stored|] eqn:Est; [|done]. destruct (Hd device stored Est) as [was ->].
    destruct (same_stored _ _) eqn:E; cbn [negb]; [|done]. apply same_stored_row in E. rewrite E in Est.
    rewrite insert_id by done. by destruct (st_previous s).
  - case_bool_decide as Eb; [done|]. by destruct (st_previous _).
Qed.
Lemma refresh_fault reason device rows s : (refresh (Some reason) device rows s).1 = s.
Proof. done. Qed.

(** What an edit writes, in the row and in memory. *)
Lemma edit_stored_rows fault device stored edit before rows s rows' s' r :
  edit_stored fault device stored edit before rows s = (rows', s', r) ->
  rw_devices rows' = rw_devices rows /\ st_devices s' = st_devices s \/
  exists row row' next,
    rw_devices rows !! device = Some row /\ rw_devices rows' = <[device := row']> (rw_devices rows) /\
    st_devices s' = <[device := next]> (st_devices s) /\
    (stored = from_row row -> next = from_row row') /\ (next = from_row row' \/ dr_config row' = dr_config row).
Proof.
  unfold edit_stored. destruct (with_changes _ _) as [text|]; [|by intros [= <- <- _]; left]. cbv zeta.
  match goal with |- match ?c with Ok _ => _ | Err _ => _ end = _ -> _ => destruct c; [|by intros [= <- <- _]; left] end.
  match goal with |- (if ?c then _ else _) = _ -> _ => destruct c; [by intros [= <- <- _]; left|] end.
  destruct fault; [by intros [= <- <- _]; left|]. unfold write_device.
  destruct (rw_devices rows !! device) as [row|] eqn:Er; [|by intros [= <- <- _]; left].
  intros [= <- <- _]. right. eexists row, _, _. split_and!; [done|reflexivity|reflexivity| |].
  - intros Hrow. unfold from_row. cbn [dr_config dr_config_sections dr_use_global_config]. f_equal.
    destruct text as [t|]; [reflexivity|]. by rewrite Hrow.
  - destruct text as [t|]; [by left|by right].
Qed.

Lemma synced_edit stale fault device stored edit before rows s rows' s' r :
  synced stale rows s -> st_devices s !! device = Some stored ->
  edit_stored fault device stored edit before rows s = (rows', s', r) -> synced stale rows' s'.
Proof.
  intros Hs Hst He d Hd. specialize (Hs d Hd).
  destruct (edit_stored_rows _ _ _ _ _ _ _ _ _ _ He) as [[-> ->]|(row & row' & next & Er & -> & -> & Hn & _)]; [exact Hs|].
  destruct (decide (d = device)) as [->|Hne].
  - rewrite !lookup_insert_eq. cbn [fmap option_fmap option_map]. rewrite Er, Hst in Hs. injection Hs as Hs. by rewrite (Hn Hs).
  - rewrite !lookup_insert_ne by done. exact Hs.
Qed.
Lemma synced_refresh stale fault device rows s :
  in_step rows s -> synced stale rows s ->
  synced (match fault with None => stale ∖ {[device]} | Some _ => stale end) rows (refresh fault device rows s).1.
Proof.
  intros Hi Hs. destruct fault as [reason|]; [by rewrite refresh_fault|]. intros d Hd. rewrite refresh_reads by done.
  destruct (decide (d = device)) as [->|Hne].
  - destruct (rw_devices rows !! device); [by rewrite lookup_insert_eq|by rewrite lookup_delete_eq].
  - specialize (Hs d ltac:(set_solver)).
    destruct (rw_devices rows !! device); [by rewrite lookup_insert_ne|by rewrite lookup_delete_ne].
Qed.

(** The devices whose rows the service has still to read, after a command. *)
Definition unread (stale : gset string) (w : World) (c : Command) : gset string :=
  match c with
  | Cd_Refresh device None => stale ∖ {[device]}
  | Cd_DeviceEdit device _ (None, _) =>
      match st_devices (wd_state w) !! device with Some _ => stale | None => stale ∖ {[device]} end
  | _ => stale
  end.

Lemma device_edit_synced stale faults device edit w :
  kept (wd_rows w) (wd_state w) -> synced stale (wd_rows w) (wd_state w) ->
  let w' := serve w (Cd_DeviceEdit device edit faults) in
  synced (unread stale w (Cd_DeviceEdit device edit faults)) (wd_rows w') (wd_state w').
Proof.
  intros [Hi _] Hs. cbn [serve]. destruct (device_edit _ _ _ _ _) as [[rows s] r] eqn:E. cbv zeta. cbn [wd_rows wd_state].
  unfold device_edit in E. destruct faults as [read write]. cbn [unread fst snd] in *.
  destruct (st_devices (wd_state w) !! device) as [stored|] eqn:Est.
  - rewrite Est in E. assert (synced stale rows s); [|by destruct read].
    destruct (st_previous (wd_state w)); [by eapply synced_edit|by injection E as <- <- <-].
  - pose proof (synced_refresh stale read device _ _ Hi Hs) as Hr.
    assert (Hst : (match read with None => stale ∖ {[device]} | Some _ => stale end) =
      match read with None => match st_devices (wd_state w) !! device with Some _ => stale | None => stale ∖ {[device]} end | Some _ => stale end)
      by (by destruct read; rewrite ?Est).
    assert (Hgoal : synced (match read with None => stale ∖ {[device]} | Some _ => stale end) rows s).
    { destruct (refresh _ _ _ _) as [s1 [snap|reason]]; cbn [fst] in Hr; [|by injection E as <- <- <-].
      destruct (st_devices s1 !! device) as [stored|] eqn:Est1; [|by injection E as <- <- <-].
      destruct (st_previous s1); [by eapply synced_edit|by injection E as <- <- <-]. }
    by destruct read.
Qed.

Lemma serve_synced stale w c :
  kept (wd_rows w) (wd_state w) -> synced stale (wd_rows w) (wd_state w) ->
  synced (unread stale w c) (wd_rows (serve w c)) (wd_state (serve w c)).
Proof.
  intros Hk Hs. destruct c as [patch fault|device edit faults|device fault|new|sha]; cbn [serve unread].
  - destruct (fleet_edit _ _ _ _) as [[rows s] r] eqn:E. intros d Hd. cbn [wd_rows wd_state].
    destruct (fleet_edit_devices _ _ _ _ _ _ _ E) as [-> ->]. by apply Hs.
  - by apply device_edit_synced.
  - exact (synced_refresh stale fault device _ _ (proj1 Hk) Hs).
  - unfold add_model. destruct (added _ _ _) as [ops [[registry o]|e]]; [|done]. by destruct o.
  - unfold delete_model. destruct (default _ _); [|done]. by destruct (without _ _ _) as [ops [registry|e]].
Qed.
End rows.

(** ** The contract *)
Definition with_row (device : string) (row : option DeviceConfigRow) (w : World) : World :=
  mkWorld (mkStoredRows (rw_fleet (wd_rows w)) (partial_alter (fun _ => row) device (rw_devices (wd_rows w)))) (wd_dir w) (wd_state w).
Definition with_dir (dir : Directory) (w : World) : World := mkWorld (wd_rows w) dir (wd_state w).

(** What the service and its database go through: commands; a device's row written
    or deleted by another service, at any moment, after which memory may be behind
    until the row is read; a change of the model directory (a registry command that
    failed part way).  The set holds the devices whose rows changed since the service
    last read them. *)
Inductive reaches `{Unicode} `{SerdeText} `{Digest} : gset string -> World -> Prop :=
  | reach_start rows registry dir : reaches ∅ (mkWorld rows dir (start rows registry).1)
  | reach_serve stale w command : reaches stale w -> reaches (unread stale w command) (serve w command)
  | reach_row stale w device row : reaches stale w -> reaches ({[device]} ∪ stale) (with_row device row w)
  | reach_dir stale w dir : reaches stale w -> reaches stale (with_dir dir w).

Section contract.
Context {U : Unicode} {UL : UnicodeLaws U} {S : SerdeText} {SL : SerdeLaws S} {D : Digest}.

Lemma reaches_kept stale w : reaches stale w -> kept (wd_rows w) (wd_state w).
Proof.
  induction 1 as [rows registry dir|stale w c _ IH|stale w device row _ IH|stale w dir _ IH]; 
    cbn [with_row with_dir wd_rows wd_state].
  - apply start_published.
  - by apply serve_kept.
  - exact IH.
  - exact IH.
Qed.
Lemma reaches_synced stale w : reaches stale w -> synced stale (wd_rows w) (wd_state w).
Proof.
  induction 1 as [rows registry dir|stale w c Hw IH|stale w device row _ IH|stale w dir _ IH]; [| | |exact IH].
  - cbn [wd_rows wd_state]. apply start_synced.
  - apply serve_synced; [by eapply reaches_kept|exact IH].
  - intros d Hd. cbn [with_row wd_rows wd_state rw_devices]. rewrite lookup_partial_alter_ne by set_solver. apply IH. set_solver.
Qed.

(** C12: Whatever commands the settings service has served, with whatever database
    failures, and whatever rows other services have written or deleted meanwhile, what
    it publishes of the settings is what a restart would publish from the rows now
    stored, whatever registry the restart opens: the same fleet issues and fleet
    settings key by key; and of every device, but those whose row another service
    changed since the service last read it, either both know it, with the same values
    in force, overridden sections and issues, or neither. *)
Theorem restart_publishes_the_same stale w registry :
  reaches stale w ->
  exists p, st_previous (wd_state w) = Some p /\
    let q := (start (wd_rows w) registry).2 in
    sn_fleet_issues p = sn_fleet_issues q /\
    alike_settings (sh_settings (sn_fleet p)) (sh_settings (sn_fleet q)) /\
    forall device, device ∉ stale ->
      option_Forall2 (fun e e' => alike_settings (sh_settings (en_settings e)) (sh_settings (en_settings e')) /\
                                  en_overridden e = en_overridden e' /\ en_issues e = en_issues e')
        (sn_devices p !! device) (sn_devices q !! device).
Proof.
  intros Hw. pose proof (reaches_synced stale w Hw) as Hsync. apply reaches_kept in Hw as [(Hf & _) (p & Hp & _ & Hfl & Hfi & _ & Hde)].
  exists p. split; [exact Hp|]. cbv zeta.
  pose proof (start_published (wd_rows w) registry) as [_ (q & Hq & _ & Hfl' & Hfi' & _ & Hde')].
  assert (Eq : (start (wd_rows w) registry).2 = q) by (rewrite start_fields in Hq; congruence). rewrite Eq. destruct (start_state (wd_rows w) registry) as [Ef Ed]. rewrite Ef in Hfl', Hfi', Hde'. rewrite Ed in Hde'.
  rewrite <- Hf in Hfl', Hfi', Hde'. split_and!; [by rewrite Hfi, Hfi'|by rewrite Hfl, Hfl'|].
  intros device Hd. specialize (Hde device). specialize (Hde' device). rewrite lookup_fmap, <- (Hsync device Hd) in Hde'.
  destruct Hde as [stored e (H1 & H2 & H3)|]; inversion Hde' as [? e' (H1' & H2' & H3')|]; subst; constructor.
  split_and!; [by rewrite H1, H1'|by rewrite H2, H2'|by rewrite H3, H3'].
Qed.
End contract.

Section usable.
Context {U : Unicode} {UL : UnicodeLaws U} {S : SerdeText} {SL : SerdeLaws S} {D : Digest}.

(** [session.ready] can be composed with the model [sha] names. *)
Definition usable_sha (r : WakeRegistry) (sha : string) : bool :=
  match model_of sha r with Some m => is_usable m | None => false end.
Definition models_usable (p : SettingsSnapshot) : Prop :=
  usable_sha (sn_registry p) (selected_graph (sh_settings (sn_fleet p))) = true /\
  forall device, usable_sha (sn_registry p) (selected_graph (sh_settings (snapshot_effective p device))) = true.

Definition choice (v : SettingValue) : string := match v with Sv_WakeModel m => m | _ => "" end.
Lemma alike_choice v w : value_key v = Sk_WakeModel -> alike v w -> choice v = choice w.
Proof.
  intros Hv Ha. destruct v as [| | |m| | | | | | | | | | | | | | | | | | | | | | | | | | | | | | | | | | | |]; try discriminate Hv.
  by rewrite (alike_model_value _ _ Ha m eq_refl).
Qed.
Definition fleet_usable (s : State) : Prop :=
  usable_sha (st_registry s) (choice (key_get (fleet_settings (st_fleet s)) Sk_WakeModel)) = true.
Definition own_usable (r : WakeRegistry) (stored : StoredDevice) : Prop :=
  forall v, own_value stored Sk_WakeModel = Some v -> usable_sha r (choice v) = true.
Definition well_selected (s : State) : Prop :=
  fleet_usable s /\ forall device stored, st_devices s !! device = Some stored -> own_usable (st_registry s) stored.

Lemma current_usable rows s p : in_step rows s -> current s p -> models_usable p <-> well_selected s.
Proof.
  intros Hs Hc. pose proof (current_fleet s p Sk_WakeModel Hc) as Hf.
  assert (Hr : sn_registry p = st_registry s) by apply Hc. apply alike_choice in Hf; [|apply get_key].
  change (selected_graph (sh_settings (sn_fleet p))) with (choice (published_fleet p Sk_WakeModel)) in *.
  assert (Hd : forall device, selected_graph (sh_settings (snapshot_effective p device)) =
            choice (default (published_fleet p Sk_WakeModel) (st_devices s !! device ≫= fun stored => own_value stored Sk_WakeModel))).
  { intros device. pose proof (current_value rows s p device Sk_WakeModel Hs Hc) as Hv.
    apply alike_choice in Hv; [exact Hv|apply get_key]. }
  unfold models_usable, well_selected, fleet_usable. rewrite Hr.
  change (selected_graph (sh_settings (sn_fleet p))) with (choice (published_fleet p Sk_WakeModel)). rewrite Hf.
  split; intros [Hfl Hdev]; (split; [exact Hfl|]).
  - intros device stored Hst v Hv. specialize (Hdev device). rewrite Hd, Hst in Hdev. cbn [mbind option_bind] in Hdev.
    by rewrite Hv in Hdev.
  - intros device. rewrite Hd. destruct (st_devices s !! device) as [stored|] eqn:Est; cbn [mbind option_bind]; [|cbn [default]; by rewrite Hf].
    destruct (own_value stored Sk_WakeModel) as [v|] eqn:Ev; cbn [default]; [by apply (Hdev device stored)|by rewrite Hf].
Qed.

Lemma check_wake_usable registry values settings :
  check_wake registry values settings = Ok tt -> has_key Sk_WakeModel values = true -> usable_sha registry (selected_graph settings) = true.
Proof.
  unfold check_wake, usable_sha. intros Hc Hk. rewrite Hk in Hc. cbn [andb] in Hc.
  destruct (model_of _ registry) as [m|]; [|discriminate Hc]. destruct (is_usable m); [done|discriminate Hc].
Qed.
Lemma has_key_elem k v values : v ∈ values -> value_key v = k -> has_key k values = true.
Proof. intros Hv Hk. apply any_true. exists v. split; [exact Hv|]. by apply bool_decide_eq_true. Qed.

(** *** The registry's changes *)
Lemma added_models dir r new ops r' o :
  added dir r new = (ops, Ok (r', o)) -> match o with Ao_Added m => models r' = models r ++ [m] | Ao_AlreadyRegistered _ => r' = r end.
Proof.
  unfold added, step_err, step_ok, step_bind, with_entries. destruct (size_error _ (nm_graph new) _); [by intros|].
  destruct (size_error _ (nm_sidecar new) _); [by intros|]. destruct (sidecar_parse _); [|by intros].
  destruct (model_of _ r); [by intros [= _ <- <-]|]. destruct (find_first _ _) as [[? ?]|]; [by intros|].
  destruct (store_files _ _ _ _ _ _ _) as [ops1 [m|]]; [|by intros]. intros [= _ <- <-]. unfold models. cbn [rg_entries].
  by rewrite omap_app.
Qed.
Lemma added_keeps dir r new ops r' o sha :
  added dir r new = (ops, Ok (r', o)) -> usable_sha r sha = true -> usable_sha r' sha = true.
Proof.
  intros Ha%added_models. destruct o as [m|m]; [|by subst r']. unfold usable_sha, model_of. rewrite Ha. clear Ha.
  induction (models r) as [|x l IH]; [done|]. cbn. destruct (String.eqb _ sha); [exact id|exact IH].
Qed.
Lemma without_keeps dir r sha ops r' other :
  without dir r sha = (ops, Ok r') -> other <> sha -> usable_sha r other = true -> usable_sha r' other = true.
Proof.
  intros Hw Hne. unfold without in Hw. destruct (model_of sha r) as [m|]; [|done]. injection Hw as _ <-.
  unfold usable_sha, model_of, models. cbn [rg_entries]. induction (rg_entries r) as [|[n|raw] l IH]; [done| |exact IH].
  cbn. destruct (String.eqb_spec (wm_graph_sha256 n) sha) as [En|En]; cbn.
  - destruct (String.eqb_spec (wm_graph_sha256 n) other); [congruence|exact IH].
  - destruct (String.eqb _ other); [done|exact IH].
Qed.
End usable.

Section sorting.
Lemma insert_entry_perm {V} (e : string * V) l : insert_entry e l ≡ₚ e :: l.
Proof.
  induction l as [|x l IH]; [done|]. cbn [insert_entry]. destruct (entry_leb e x); [done|]. rewrite IH. apply perm_swap.
Qed.
Lemma sort_entries_perm {V} (l : list (string * V)) : sort_entries l ≡ₚ l.
Proof. induction l as [|e l IH]; [done|]. cbn. by rewrite insert_entry_perm, IH. Qed.
Lemma sorted_ids_perm l : sorted_ids l ≡ₚ l.
Proof. unfold sorted_ids. rewrite sort_entries_perm. rewrite <- list_fmap_compose. by rewrite list_fmap_id. Qed.

Lemma elem_of_selections sha p sel :
  sel ∈ selections sha p <->
  match sel with
  | Sel_Fleet => selected_graph (sh_settings (sn_fleet p)) = sha
  | Sel_Device device => exists e, sn_devices p !! device = Some e /\ selected_graph (sh_settings (en_settings e)) = sha
  end.
Proof.
  unfold selections. rewrite elem_of_app. destruct sel as [|device].
  - split.
    + intros [Hs|Hs]; [|by apply list_elem_of_fmap in Hs as (? & ? & _)]. destruct (String.eqb_spec (selected_graph (sh_settings (sn_fleet p))) sha); [done|].
      by apply elem_of_nil in Hs.
    + intros ->. left. rewrite String.eqb_refl. by left.
  - split.
    + intros [Hs|Hs].
      * destruct (String.eqb _ sha); [by apply list_elem_of_singleton in Hs|by apply elem_of_nil in Hs].
      * apply list_elem_of_fmap in Hs as (d & [= <-] & Hd). rewrite sorted_ids_perm in Hd.
        apply list_elem_of_fmap in Hd as ([d e] & -> & [Hq Hin]%list_elem_of_filter). cbn in Hq. apply elem_of_map_to_list in Hin.
        exists e. split; [exact Hin|]. by apply String.eqb_eq.
    + intros (e & He & Hs). right. apply list_elem_of_fmap. exists device. split; [done|]. rewrite sorted_ids_perm.
      apply list_elem_of_fmap. exists (device, e). split; [done|]. apply list_elem_of_filter. cbn. split; [by apply String.eqb_eq|].
      by apply elem_of_map_to_list.
Qed.
End sorting.

Section sorted.
Definition at_most (a b : string) : Prop := String.compare a b <> Gt.
Lemma insert_entry_sorted {V} (e : string * V) l :
  Sorted at_most l.*1 -> Sorted at_most (insert_entry e l).*1.
Proof.
  induction l as [|x l IH]; intros Hs; [by repeat constructor|]. cbn [insert_entry]. unfold entry_leb.
  rewrite fmap_cons in Hs. apply Sorted_inv in Hs as [Hs Hx].
  destruct (String.compare (fst e) (fst x)) eqn:E; rewrite !fmap_cons;
    try (constructor; [by constructor|constructor; unfold at_most; by rewrite E]).
  constructor; [by apply IH|]. assert (Hex : at_most x.1 e.1) by (unfold at_most; rewrite String.compare_antisym, E; done).
  destruct l as [|y l]; cbn [insert_entry]; [by constructor|]. destruct (entry_leb e y); rewrite fmap_cons; constructor; [exact Hex|].
  rewrite fmap_cons in Hx. by inversion Hx.
Qed.
Lemma sort_entries_sorted {V} (l : list (string * V)) : Sorted at_most (sort_entries l).*1.
Proof. induction l as [|e l IH]; [constructor|]. by apply insert_entry_sorted. Qed.
End sorted.

Section selections.
Context {U : Unicode} {UL : UnicodeLaws U} {S : SerdeText} {SL : SerdeLaws S} {D : Digest}.

Lemma choice_model s : choice (key_get s Sk_WakeModel) = selected_graph s.
Proof. reflexivity. Qed.

Lemma fleet_edit_usable fault patch rows s rows' s' o :
  kept rows s -> patch_ok patch -> (forall d, new_document (st_fleet s) (map_values patch) = Some d -> reads_back d) ->
  fleet_edit fault patch rows s = (rows', s', Ok o) -> well_selected s -> well_selected s'.
Proof.
  intros Hk Hp Hr Hf [Hfl Hd]. pose proof (fleet_edit_cases fault patch rows s rows' s' _ Hk Hf) as
    (before & text & _ & Hw & _ & _ & _ & _ & Hfleet & Hdev & Hreg & Hc).
  split; [|rewrite Hdev, Hreg; exact Hd]. unfold fleet_usable. rewrite Hreg.
  pose proof (fleet_after (st_fleet s) (map_values patch) text Sk_WakeModel (fleet_stored_ok rows s (proj1 Hk))
    (map_values_NoDup _ (patch_keyed _ Hp)) (patch_valid _ Hp) Hw Hr) as Ha.
  rewrite <- Hfleet, change_of_patch in Ha by exact Hp. destruct (patch !! Sk_WakeModel) as [v|] eqn:Ev.
  - destruct Hc as [->|Hc]; [rewrite Hfleet; exact Hfl|].
    rewrite choice_model. apply (check_wake_usable _ _ _ Hc). pose proof (proj1 (Hp _ _ Ev)) as Hkey.
    apply (has_key_elem _ v); [|exact Hkey]. apply elem_of_map_values; [by apply patch_keyed|]. by rewrite Hkey.
  - rewrite Ha. exact Hfl.
Qed.

Lemma device_store_values device stored edit rows s text :
  kept rows s -> st_devices s !! device = Some stored -> patch_ok (de_values edit) ->
  edit_reads_back stored edit (fleet_settings (st_fleet s)) ->
  with_changes (sd_config stored) (edit_store stored edit (fleet_settings (st_fleet s))) = Ok text ->
  forall k, let v := key_get (effective_settings (fleet_settings (st_fleet s)) (after_changes (sd_config stored) text) (edit_sections stored edit)) k in
  if value_applies (edit_sections stored edit) k
  then match stored_change stored edit (fleet_settings (st_fleet s)) k with
       | Some w => alike w v
       | None => v = default (key_get (fleet_settings (st_fleet s)) k) (sc_values (sd_config stored) !! k)
       end
  else v = key_get (fleet_settings (st_fleet s)) k.
Proof.
  intros Hk Hst Hp Hr Hw k. pose proof (proj1 (proj2 (proj2 (proj1 Hk))) _ _ Hst) as Hok. rewrite <- (change_of_store stored edit _ Hp k).
  apply effective_after; [exact Hok| | |exact Hw|exact (proj1 Hr)].
  - apply store_NoDup. exact Hp.
  - apply store_values_valid; [exact Hp|exact (fleet_valid rows s (proj1 Hk))].
Qed.

(** The new row of an edited device, for the model it selects. *)
Lemma edited_usable device stored edit before rows rows' s s' o text next :
  kept rows s -> st_devices s !! device = Some stored -> patch_ok (de_values edit) ->
  edit_reads_back stored edit (fleet_settings (st_fleet s)) ->
  device_edited device stored edit before rows' s s' o text next -> well_selected s -> own_usable (st_registry s) next.
Proof.
  intros Hk Hst Hp Hr [Hw _ _ _ Hcfg Hsec Hcheck] [Hfl Hd] v Hv.
  pose proof (proj1 (proj2 (proj2 (proj1 Hk))) _ _ Hst) as Hok. pose proof (fleet_valid rows s (proj1 Hk)) as Hfleet.
  unfold own_value in Hv. rewrite Hsec in Hv. destruct (value_applies (edit_sections stored edit) Sk_WakeModel) eqn:Ea; [|discriminate Hv].
  pose proof (with_changes_values (sd_config stored) _ text Hok (store_NoDup stored edit _ Hp) (store_values_valid stored edit _ Hp Hfleet) Hw (proj1 Hr) Sk_WakeModel) as Hch.
  rewrite <- Hcfg, change_of_store in Hch by exact Hp. unfold stored_change in Hch. rewrite Ea in Hch.
  change (key_scope Sk_WakeModel) with (Sc_Section Se_Wakeword) in Hch. cbv iota in Hch.
  assert (Hin : Se_Wakeword ∈ edit_sections stored edit) by exact (bool_decide_eq_true_1 _ Ea).
  destruct (de_values edit !! Sk_WakeModel) as [w|] eqn:Ew.
  - destruct Hch as (x & Hx & Hs). rewrite Hx in Hv. injection Hv as <-. specialize (Hcheck Hin).
    destruct (Hp _ _ Ew) as [Hkey _].
    assert (Hsel : selected_graph (effective_settings (fleet_settings (st_fleet s)) (sd_config next) (edit_sections stored edit)) = choice x).
    { rewrite <- choice_model, effective_get, Hx by (rewrite Hcfg; destruct text as [t|]; [exact (stored_keyed (Some t))|exact (proj1 Hok)]).
      by rewrite Ea. }
    rewrite <- Hsel. apply (check_wake_usable _ _ _ Hcheck). apply (has_key_elem _ w); [|exact Hkey].
    unfold edit_own_wake. apply elem_of_retain. split.
    + apply elem_of_store. left. apply elem_of_own; [exact Hp|]. rewrite Hkey. split; [exact Ew|exact Ea].
    + rewrite Hkey, Ew. destruct w; try discriminate Hkey. cbn. by rewrite String.eqb_refl.
  - case_bool_decide as Hnew.
    + destruct Hch as (x & Hx & Hs). rewrite Hx in Hv. injection Hv as <-.
      rewrite <- (alike_choice _ _ (get_key _ _) (same_value_alike _ _ Hs)). exact Hfl.
    + rewrite Hch in Hv. apply (Hd device stored Hst v). unfold own_value. 
      assert (Hold : Se_Wakeword ∈ ss_known (sd_sections stored)) by (destruct (decide (Se_Wakeword ∈ ss_known (sd_sections stored))); set_solver).
      change (value_applies (ss_known (sd_sections stored)) Sk_WakeModel) with (bool_decide (Se_Wakeword ∈ ss_known (sd_sections stored))).
      rewrite bool_decide_eq_true_2 by exact Hold. exact Hv.
Qed.
End selections.

Section stay_usable.
Context {U : Unicode} {UL : UnicodeLaws U} {S : SerdeText} {SL : SerdeLaws S} {D : Digest}.

Lemma refresh_fields fault device rows s :
  let s' := (refresh fault device rows s).1 in
  st_fleet s' = st_fleet s /\ st_registry s' = st_registry s /\
  (st_devices s' = st_devices s \/
   st_devices s' = match rw_devices rows !! device with Some row => <[device := from_row row]> (st_devices s) | None => delete device (st_devices s) end).
Proof.
  cbv zeta. unfold refresh. destruct fault; [cbn [fst]; split_and!; first [done|by left]|].
  destruct (rw_devices rows !! device) as [row|].
  - destruct (match st_devices s !! device with Some _ => _ | None => _ end); cbn [negb].
    + destruct (st_previous s); split_and!; first [done|by left].
    + split_and!; [done|done|by right].
  - case_bool_decide.
    + split_and!; [done|done|by right].
    + unfold set_devices. cbn [st_previous]. destruct (st_previous s); (split_and!; [done|done|by right]).
Qed.
Lemma refresh_usable fault device rows s :
  (forall row, rw_devices rows !! device = Some row -> own_usable (st_registry s) (from_row row)) ->
  well_selected s -> well_selected (refresh fault device rows s).1.
Proof.
  intros Hrow [Hf Hd]. destruct (refresh_fields fault device rows s) as (Ef & Er & Ed). unfold well_selected, fleet_usable.
  rewrite Ef, Er. split; [exact Hf|]. intros d stored Hst. destruct Ed as [E|E]; rewrite E in Hst; [by eapply Hd|].
  destruct (rw_devices rows !! device) as [row|] eqn:Erow.
  - destruct (decide (d = device)) as [->|Hne].
    + rewrite lookup_insert_eq in Hst. injection Hst as <-. by apply Hrow.
    + rewrite lookup_insert_ne in Hst by done. by eapply Hd.
  - apply lookup_delete_Some in Hst as [_ Hst]. by eapply Hd.
Qed.

(** *** The commands a settings database goes through *)
(** The row of a device as it is registered: the columns' defaults. *)
Definition registered_row : DeviceConfigRow := mkDeviceConfigRow "{}" "[]" true.
Definition register (device : string) (w : World) : World :=
  match rw_devices (wd_rows w) !! device with Some _ => w | None => with_row device (Some registered_row) w end.

(** What the edits are taken to be: patches of valid values, and documents that
    are read back as they are written. *)
Definition edited_state (w : World) (device : string) (faults : option string * option string) : State :=
  match st_devices (wd_state w) !! device with
  | Some _ => wd_state w
  | None => (refresh faults.1 device (wd_rows w) (wd_state w)).1
  end.
Definition command_ok (w : World) (c : Command) : Prop :=
  match c with
  | Cd_FleetEdit patch _ =>
      patch_ok patch /\ forall d, new_document (st_fleet (wd_state w)) (map_values patch) = Some d -> reads_back d
  | Cd_DeviceEdit device edit faults =>
      patch_ok (de_values edit) /\
      forall stored, st_devices (edited_state w device faults) !! device = Some stored ->
        edit_reads_back stored edit (fleet_settings (st_fleet (wd_state w)))
  | Cd_Refresh _ _ | Cd_AddModel _ | Cd_DeleteModel _ => True
  end.

(** The controller's own services: the settings service's commands, devices
    registered and deleted at any moment, whatever happens in the model directory. *)
Inductive serves : World -> Prop :=
  | serves_start rows registry dir : models_usable (start rows registry).2 -> serves (mkWorld rows dir (start rows registry).1)
  | serves_command w c : serves w -> command_ok w c -> serves (serve w c)
  | serves_register w device : serves w -> serves (register device w)
  | serves_deleted w device : serves w -> serves (with_row device None w)
  | serves_dir w dir : serves w -> serves (with_dir dir w).

Lemma serves_reaches w : serves w -> exists stale, reaches stale w.
Proof.
  induction 1 as [rows registry dir _|w c _ [stale IH] _|w device _ [stale IH]|w device _ [stale IH]|w dir _ [stale IH]].
  - exists ∅. apply reach_start.
  - eexists. by apply reach_serve.
  - unfold register. destruct (_ !! device); [by exists stale|]. eexists. by apply reach_row.
  - eexists. by apply reach_row.
  - eexists. by apply reach_dir.
Qed.

(** A row is what memory holds, or its configuration is still the default. *)
Definition from_memory (rows : StoredRows) (s : State) : Prop :=
  forall device row, rw_devices rows !! device = Some row ->
    st_devices s !! device = Some (from_row row) \/ dr_config row = dr_config registered_row.

Lemma edit_from_memory fault device stored edit before rows s rows' s' r :
  from_memory rows s -> st_devices s !! device = Some stored ->
  edit_stored fault device stored edit before rows s = (rows', s', r) -> from_memory rows' s'.
Proof.
  intros Hm Hst He d row Hrow.
  destruct (edit_stored_rows _ _ _ _ _ _ _ _ _ _ He) as [[Er Es]|(old & new & next & Eo & Er & Es & Hn & Hc)]; rewrite Er in Hrow; rewrite Es.
  - by apply Hm.
  - destruct (decide (d = device)) as [->|Hne].
    + rewrite lookup_insert_eq in Hrow. injection Hrow as <-. rewrite lookup_insert_eq.
      destruct Hc as [->|Hc]; [by left|]. destruct (Hm device old Eo) as [Ho|Ho]; [|right; congruence].
      left. rewrite Hst in Ho. injection Ho as Ho. by rewrite (Hn Ho).
    + rewrite lookup_insert_ne in Hrow by done. rewrite lookup_insert_ne by done. by apply Hm.
Qed.
Lemma refresh_from_memory fault device rows s :
  in_step rows s -> from_memory rows s -> from_memory rows (refresh fault device rows s).1.
Proof.
  intros Hi Hm. destruct fault as [reason|]; [by rewrite refresh_fault|]. intros d row Hrow. rewrite refresh_reads by done.
  destruct (decide (d = device)) as [->|Hne]; [rewrite Hrow; left; by rewrite lookup_insert_eq|].
  destruct (rw_devices rows !! device); [rewrite lookup_insert_ne by done|rewrite lookup_delete_ne by done]; by apply Hm.
Qed.
Lemma serve_from_memory w c :
  kept (wd_rows w) (wd_state w) -> from_memory (wd_rows w) (wd_state w) ->
  from_memory (wd_rows (serve w c)) (wd_state (serve w c)).
Proof.
  intros Hk Hm. destruct c as [patch fault|device edit faults|device fault|new|sha]; cbn [serve].
  - destruct (fleet_edit _ _ _ _) as [[rows s] r] eqn:E. cbn [wd_rows wd_state]. intros d row.
    destruct (fleet_edit_devices _ _ _ _ _ _ _ E) as [-> ->]. apply Hm.
  - destruct (device_edit _ _ _ _ _) as [[rows s] r] eqn:E. cbn [wd_rows wd_state]. unfold device_edit in E.
    destruct (st_devices (wd_state w) !! device) as [stored|] eqn:Est.
    + rewrite Est in E. destruct (st_previous (wd_state w)); [by eapply edit_from_memory|by injection E as <- <- <-].
    + pose proof (refresh_from_memory faults.1 device _ _ (proj1 Hk) Hm) as Hm1.
      destruct (refresh _ _ _ _) as [s1 [snap|reason]]; cbn [fst] in Hm1; [|by injection E as <- <- <-].
      destruct (st_devices s1 !! device) as [stored|] eqn:Est1; [|by injection E as <- <- <-].
      destruct (st_previous s1); [by eapply edit_from_memory|by injection E as <- <- <-].
  - by apply refresh_from_memory; [apply Hk|].
  - unfold add_model. destruct (added _ _ _) as [ops [[registry o]|e]]; [|done]. by destruct o.
  - unfold delete_model. destruct (default _ _); [|done]. by destruct (without _ _ _) as [ops [registry|e]].
Qed.
Lemma serves_from_memory w : serves w -> from_memory (wd_rows w) (wd_state w).
Proof.
  induction 1 as [rows registry dir _|w c Hw IH _|w device _ IH|w device _ IH|w dir _ IH].
  - intros d row Hrow. cbn [wd_rows wd_state] in *. left. by rewrite (proj2 (start_state rows registry)), lookup_fmap, Hrow.
  - apply serve_from_memory; [|exact IH]. destruct (serves_reaches w Hw) as [stale Hr]. by eapply reaches_kept.
  - unfold register. destruct (rw_devices (wd_rows w) !! device) as [old|] eqn:E; [exact IH|]. intros d row.
    cbn [with_row wd_rows wd_state rw_devices]. destruct (decide (d = device)) as [->|Hne].
    + rewrite lookup_partial_alter_eq. intros [= <-]. by right.
    + rewrite lookup_partial_alter_ne by done. apply IH.
  - intros d row. cbn [with_row wd_rows wd_state rw_devices]. destruct (decide (d = device)) as [->|Hne].
    + by rewrite lookup_partial_alter_eq.
    + rewrite lookup_partial_alter_ne by done. apply IH.
  - exact IH.
Qed.
Lemma rows_usable rows s device row :
  json_parse (dr_config registered_row) = Ok (JObject []) -> from_memory rows s -> well_selected s ->
  rw_devices rows !! device = Some row -> own_usable (st_registry s) (from_row row).
Proof.
  intros Hempty Hm [_ Hd] Hrow. destruct (Hm device row Hrow) as [Hmem|Hdef]; [by eapply Hd|]. intros v Hv. exfalso.
  unfold own_value, from_row in Hv. cbn [sd_config] in Hv. rewrite Hdef in Hv.
  destruct (stored_parse_spec (dr_config registered_row)) as (_ & _ & Hs). rewrite Hempty in Hs. destruct Hs as (_ & _ & _ & Hs).
  rewrite Hs in Hv. by destruct (value_applies _ _).
Qed.

Lemma edit_stored_usable fault device stored edit before rows s rows' s' r :
  kept rows s -> st_devices s !! device = Some stored -> st_previous s = Some before -> patch_ok (de_values edit) ->
  edit_reads_back stored edit (fleet_settings (st_fleet s)) ->
  edit_stored fault device stored edit before rows s = (rows', s', r) -> well_selected s -> well_selected s'.
Proof.
  intros Hk Hst Hb Hp Hr He Hw. pose proof (edit_stored_cases fault device stored edit before rows s rows' s' r Hk Hst Hb (proj2 Hr) He) as Hc.
  destruct r as [o|e]; [|by destruct Hc as [_ ->]]. destruct Hc as (text & next & Hed).
  pose proof (edited_usable device stored edit before rows rows' s s' o text next Hk Hst Hp Hr Hed Hw) as Hn.
  destruct Hed as [_ _ _ (Ef & Er & Ed) _ _ _]. destruct Hw as [Hf Hd]. unfold well_selected, fleet_usable. rewrite Ef, Er, Ed.
  split; [exact Hf|]. intros d st. destruct (decide (d = device)) as [->|Hne].
  - rewrite lookup_insert_eq. by intros [= <-].
  - rewrite lookup_insert_ne by done. apply Hd.
Qed.

Lemma delete_keeps_selected dir sha s ops s' p :
  well_selected s -> forall before, st_previous s = Some before -> current s before -> forall rows, in_step rows s ->
  delete_model dir sha s = (ops, s', Ok p) -> well_selected s'.
Proof.
  intros Hw before Hb Hc rows Hs. unfold delete_model. rewrite Hb. cbn [fmap option_fmap option_map default].
  destruct (selections sha before) as [|u us] eqn:Esel; [|by intros].
  destruct (without dir (st_registry s) sha) as [ops1 [registry|e]] eqn:Ewo; [|by intros].
  destruct (publish _) as [s1 p1] eqn:E. intros [= _ <- _].
  pose proof (publish_current (set_registry registry s) _ _ (proj1 (proj2 (proj2 Hs))) E) as (_ & _ & Ef & Ed & Er & _).
  assert (Hother : forall sel, sel ∉ selections sha before) by (intros sel; rewrite Esel; apply not_elem_of_nil).
  clear Esel. destruct Hw as [Hf Hd]. unfold well_selected, fleet_usable. rewrite Ef, Ed, Er. cbn [set_registry st_fleet st_devices st_registry]. split.
  - apply (without_keeps _ _ _ _ _ _ Ewo); [|exact Hf]. intros E'. apply (Hother Sel_Fleet). apply elem_of_selections. rewrite <- E'.
    apply (alike_choice _ _ (get_key _ _)). exact (current_fleet s before Sk_WakeModel Hc).
  - intros device stored Hst v Hv. apply (without_keeps _ _ _ _ _ _ Ewo); [|exact (Hd device stored Hst v Hv)].
    intros E'. apply (Hother (Sel_Device device)). apply elem_of_selections.
    pose proof (current_value rows s before device Sk_WakeModel Hs Hc) as Hval. rewrite Hst in Hval. cbn [mbind option_bind] in Hval.
    rewrite Hv in Hval. cbn [default] in Hval. apply (alike_choice _ _ (get_key _ _)) in Hval.
    unfold published_value, snapshot_effective in Hval. pose proof (proj2 (proj2 (proj2 (proj2 Hc))) device) as He.
    rewrite Hst in He. inversion He as [? e Hen Hst2 Hsn|]; subst. rewrite <- Hsn in Hval. exists e. split; [done|].
    cbv iota in Hval. rewrite choice_model in Hval. exact Hval.
Qed.

End stay_usable.

Section properties.
Context {U : Unicode} {UL : UnicodeLaws U} {S : SerdeText} {SL : SerdeLaws S} {D : Digest}.

Lemma serve_well_selected w c :
  json_parse (dr_config registered_row) = Ok (JObject []) -> kept (wd_rows w) (wd_state w) -> from_memory (wd_rows w) (wd_state w) ->
  command_ok w c -> well_selected (wd_state w) -> well_selected (wd_state (serve w c)).
Proof.
  intros Hempty Hk Hm Hc Hw.
  assert (Hrow : forall device row, rw_devices (wd_rows w) !! device = Some row -> own_usable (st_registry (wd_state w)) (from_row row))
    by (intros device row; by eapply rows_usable). destruct c as [patch fault|device edit faults|device fault|new|sha]; cbn [serve]; cbn [command_ok] in Hc.
  - destruct Hc as [Hp Hr]. destruct (fleet_edit _ _ _ _) as [[rows s] [o|e]] eqn:E; cbn [wd_state].
    + by eapply fleet_edit_usable.
    + by destruct (fleet_edit_cases _ _ _ _ _ _ _ Hk E) as [_ ->].
  - destruct Hc as (Hp & Hr). destruct (device_edit _ _ _ _ _) as [[rows s] r] eqn:E. cbn [wd_state].
    unfold device_edit, edited_state in *. destruct (st_devices (wd_state w) !! device) as [stored|] eqn:Est.
    + rewrite Est in E. destruct (st_previous (wd_state w)) as [before|] eqn:Eb; [|by injection E as <- <- <-].
      exact (edit_stored_usable _ _ _ _ _ _ _ _ _ _ Hk Est Eb Hp (Hr _ Est) E Hw).
    + pose proof (refresh_kept faults.1 device _ _ Hk) as Hk1. pose proof (refresh_usable faults.1 device _ _ (Hrow device) Hw) as Hw1.
      destruct (refresh_fields faults.1 device (wd_rows w) (wd_state w)) as (Ef & _).
      destruct (refresh _ _ _ _) as [s1 [snap|reason]]; cbn [fst] in *; [|by injection E as <- <- <-].
      destruct (st_devices s1 !! device) as [stored|] eqn:Est1; [|by injection E as <- <- <-].
      destruct (st_previous s1) as [before|] eqn:Eb; [|by injection E as <- <- <-].
      refine (edit_stored_usable _ _ _ _ _ _ _ _ _ _ Hk1 Est1 Eb Hp _ E Hw1). rewrite Ef. exact (Hr _ eq_refl).
  - by apply refresh_usable; [apply Hrow|].
  - unfold add_model. destruct (added _ _ _) as [ops [[registry o]|e]] eqn:Ea; [|done]. destruct o as [m|m]; [|done]. cbn [wd_state].
    destruct (publish _) as [s p] eqn:E. cbn [fst].
    pose proof (publish_current (set_registry registry (wd_state w)) _ _ (proj1 (proj2 (proj2 (proj1 Hk)))) E) as (_ & _ & Ef & Ed & Er & _).
    destruct Hw as [Hf Hd]. unfold well_selected, fleet_usable. rewrite Ef, Ed, Er. cbn [set_registry st_fleet st_devices st_registry].
    split; [by eapply added_keeps|]. intros device stored Hst v Hv. eapply added_keeps; [exact Ea|]. by eapply Hd.
  - destruct (delete_model _ _ _) as [[ops s] r] eqn:E. cbn [wd_state]. destruct r as [p|e].
    + destruct Hk as [Hs (before & Hb & Hcur)]. exact (delete_keeps_selected _ _ _ _ _ _ Hw before Hb Hcur _ Hs E).
    + unfold delete_model in E. destruct (default _ _); [|by injection E as _ <- _].
      destruct (without _ _ _) as [ops1 [registry|]]; [by destruct (publish _)|by injection E as _ <- _].
Qed.

Lemma serves_well_selected w :
  json_parse (dr_config registered_row) = Ok (JObject []) -> serves w -> well_selected (wd_state w).
Proof.
  intros Hempty Hw. induction Hw as [rows registry dir Hu|w c Hw IH Hc|w device _ IH|w device _ IH|w dir _ IH].
  - cbn [wd_state]. destruct (start_published rows registry) as [Hs (p & Hp & Hcur)].
    assert (p = (start rows registry).2) as -> by (rewrite start_fields in Hp; congruence).
    by apply (current_usable _ _ _ Hs Hcur).
  - destruct (serves_reaches w Hw) as [stale Hr]. apply serve_well_selected; [exact Hempty|by eapply reaches_kept|by apply serves_from_memory|exact Hc|exact IH].
  - unfold register. by destruct (_ !! device).
  - exact IH.
  - exact IH.
Qed.

(** C11: The settings service keeps every selected wake model usable: one its registry
    holds with files it found verified when it read or stored them.  From a start at
    which the fleet and every device select such a model, and whatever the service is
    asked then - edits, models added and deleted, rows re-read, with whatever database
    failures - while devices are registered (with the columns' default row) and deleted
    at any moment, the published snapshot selects such models only, for the fleet, for
    each device and for a device it does not know.  Taken: the edits hold valid values,
    and the documents the service writes, and the default document, are read back as
    written.  A file changed on disk afterwards is not seen before a restart. *)
Theorem selected_models_stay_usable w :
  json_parse (dr_config registered_row) = Ok (JObject []) -> serves w ->
  exists p, st_previous (wd_state w) = Some p /\ models_usable p.
Proof.
  intros Hempty Hw. destruct (serves_reaches w Hw) as [stale Hr]. apply reaches_kept in Hr as [Hs (p & Hp & Hcur)].
  exists p. split; [exact Hp|]. apply (current_usable _ _ _ Hs Hcur). by apply serves_well_selected.
Qed.
End properties.

Section edit_contracts.
Context {U : Unicode} {UL : UnicodeLaws U} {S : SerdeText} {SL : SerdeLaws S} {D : Digest}.

(** A fleet edit is all or nothing.  Refused (an unreadable document, a model that
    is not usable, a rule that is the model's own, a database failure) it leaves the
    rows, the memory and the published snapshot as they were.  Taken, the snapshot it
    returns is the published one; there the fleet has the edit's values and keeps the
    others, and every device has its own values where it overrides, the fleet's new
    ones elsewhere. *)
Theorem fleet_edit_contract fault patch stale w p :
  reaches stale w -> st_previous (wd_state w) = Some p -> patch_ok patch ->
  (forall d, new_document (st_fleet (wd_state w)) (map_values patch) = Some d -> reads_back d) ->
  let '(rows', s', r) := fleet_edit fault patch (wd_rows w) (wd_state w) in
  match r with
  | Err _ => rows' = wd_rows w /\ s' = wd_state w
  | Ok o =>
      st_previous s' = Some (eo_snapshot o) /\
      (forall k, match patch !! k with
                 | Some v => alike v (published_fleet (eo_snapshot o) k)
                 | None => alike (published_fleet p k) (published_fleet (eo_snapshot o) k)
                 end) /\
      forall device k,
        alike (published_value (eo_snapshot o) device k)
          (default (published_fleet (eo_snapshot o) k) (st_devices (wd_state w) !! device ≫= fun stored => own_value stored k))
  end.
Proof.
  intros Hk%reaches_kept Hp Hpatch Hr. destruct (fleet_edit _ _ _ _) as [[rows' s'] r] eqn:E.
  pose proof (fleet_edit_cases _ _ _ _ _ _ _ Hk E) as Hc. destruct r as [o|e]; [|exact Hc].
  destruct Hc as (before & text & Hb & Hw & Hp' & _ & Hk' & Hcur & Hfl & Hdev & _). split; [exact Hp'|].
  destruct Hk as [Hs (q & Hq & Hcq)]. assert (q = p) as -> by congruence. split.
  - intros k. pose proof (fleet_after (st_fleet (wd_state w)) (map_values patch) text k (fleet_stored_ok _ _ Hs)
      (map_values_NoDup _ (patch_keyed _ Hpatch)) (patch_valid _ Hpatch) Hw Hr) as Ha.
    rewrite <- Hfl, change_of_patch in Ha by exact Hpatch. pose proof (current_fleet _ _ k Hcur) as Hn.
    destruct (patch !! k) as [v|]; [by rewrite Hn|]. by rewrite (current_fleet _ _ k Hcq), Hn, Ha.
  - intros device k. rewrite <- Hdev. exact (current_value _ _ _ device k (proj1 Hk') Hcur).
Qed.

(** C13: A device edit is all or nothing, and taken it gives the device, key by key: for
    a setting of a section it overrides now, or of the device itself, the edit's value;
    the fleet's current value when the section is just switched on and the edit does not
    give it; else the value it had; for every other setting the fleet's.  The other
    devices and the fleet keep their values. *)
Theorem device_edit_contract fault device stored edit stale w p :
  reaches stale w -> st_previous (wd_state w) = Some p -> st_devices (wd_state w) !! device = Some stored ->
  patch_ok (de_values edit) -> edit_reads_back stored edit (fleet_settings (st_fleet (wd_state w))) ->
  let '(rows', s', r) := device_edit (None, fault) device edit (wd_rows w) (wd_state w) in
  let sections := edit_sections stored edit in
  match r with
  | Err _ => rows' = wd_rows w /\ s' = wd_state w
  | Ok o =>
      st_previous s' = Some (eo_snapshot o) /\
      (en_overridden <$> sn_devices (eo_snapshot o) !! device) = Some sections /\
      (forall k, alike (published_fleet p k) (published_fleet (eo_snapshot o) k)) /\
      (forall other k, other <> device -> alike (published_value p other k) (published_value (eo_snapshot o) other k)) /\
      forall k, alike (published_value (eo_snapshot o) device k)
        (if value_applies sections k
         then match de_values edit !! k with
              | Some v => v
              | None => if value_applies (ss_known (sd_sections stored)) k then published_value p device k else published_fleet p k
              end
         else published_fleet p k)
  end.
Proof.
  intros Hk%reaches_kept Hp Hst Hpatch Hr. destruct (device_edit _ _ _ _ _) as [[rows' s'] r] eqn:E. cbv zeta.
  unfold device_edit in E. rewrite Hst, Hst, Hp in E. cbn [snd] in E.
  pose proof (edit_stored_cases _ _ _ _ _ _ _ _ _ _ Hk Hst Hp (proj2 Hr) E) as Hc. destruct r as [o|e]; [|exact Hc].
  destruct Hc as (text & next & [Hw _ (Hp' & Hcur & Hk') (Ef & _ & Ed) Hcfg Hsec _]). split; [exact Hp'|].
  pose proof Hk as [Hs (q & Hq & Hcq)]. assert (q = p) as -> by congruence.
  pose proof (proj2 (proj2 (proj2 (proj2 Hcur))) device) as Hen. rewrite Ed, lookup_insert_eq in Hen.
  assert (Hfleet : forall k, alike (published_fleet p k) (published_fleet (eo_snapshot o) k)).
  { intros k. by rewrite (current_fleet _ _ k Hcq), (current_fleet _ _ k Hcur), Ef. }
  split_and!; [|exact Hfleet| |].
  - inversion Hen as [? e (_ & Ho & _) Hx Hsn|]; subst. cbn. by rewrite Ho, Hsec.
  - intros other k Hne. rewrite (current_value _ _ _ other k Hs Hcq), (current_value _ _ _ other k (proj1 Hk') Hcur).
    rewrite Ed, lookup_insert_ne by done. destruct (st_devices (wd_state w) !! other ≫= _); cbn [default]; [reflexivity|apply Hfleet].
  - intros k. pose proof (device_store_values device stored edit (wd_rows w) (wd_state w) text Hk Hst Hpatch Hr Hw k) as Hv. cbv zeta in Hv.
    assert (Hval : alike (published_value (eo_snapshot o) device k)
      (key_get (effective_settings (fleet_settings (st_fleet (wd_state w))) (after_changes (sd_config stored) text) (edit_sections stored edit)) k)).
    { unfold published_value, snapshot_effective. inversion Hen as [? e (He & _) Hx Hsn|]; subst. etrans; [apply He|].
      by rewrite Ef, Hcfg, Hsec. }
    rewrite Hval. pose proof (current_value _ _ _ device k Hs Hcq) as Hbef. rewrite Hst in Hbef. cbn [mbind option_bind] in Hbef.
    pose proof (current_fleet _ _ k Hcq) as Hfl. unfold own_value in Hbef.
    destruct (value_applies (edit_sections stored edit) k) eqn:Ea; [|by rewrite Hv, Hfl].
    unfold stored_change in Hv. rewrite Ea in Hv. destruct (de_values edit !! k) as [v|]; [by symmetry|].
    assert (Hold : value_applies (ss_known (sd_sections stored)) k = true ->
              alike (published_value p device k) (default (key_get (fleet_settings (st_fleet (wd_state w))) k) (sc_values (sd_config stored) !! k))).
    { intros Hon. rewrite Hon in Hbef. rewrite Hbef. destruct (sc_values (sd_config stored) !! k); cbn [default]; [reflexivity|exact Hfl]. }
    unfold value_applies in *. destruct (key_scope k) as [sec|]; [|by rewrite Hv, <- Hold].
    destruct (bool_decide (sec ∈ ss_known (sd_sections stored))) eqn:Eo.
    + rewrite bool_decide_eq_false_2 in Hv by (apply bool_decide_eq_true_1 in Eo; set_solver). by rewrite Hv, <- Hold.
    + apply bool_decide_eq_true_1 in Ea. apply bool_decide_eq_false_1 in Eo. rewrite bool_decide_eq_true_2 in Hv by set_solver.
      by rewrite <- Hv, Hfl.
Qed.
End edit_contracts.

Section watching.
Context {U : Unicode} {UL : UnicodeLaws U} {S : SerdeText} {SL : SerdeLaws S} {D : Digest}.

Lemma reuse_cases previous generation label next :
  (forall q, previous = Some q -> ((sh_id q).1 <= generation)%N) ->
  match previous with
  | Some q => reuse previous (generation + 1, label)%N next = q \/
              settings_eqb (sh_settings q) (sh_settings (reuse previous (generation + 1, label)%N next)) = false /\
              sh_id (reuse previous (generation + 1, label)%N next) <> sh_id q
  | None => True
  end.
Proof.
  intros Hq. destruct previous as [q|]; [|done]. unfold reuse. destruct (settings_eqb (sh_settings q) next) eqn:E; [by left|right].
  split; [exact E|]. specialize (Hq q eq_refl). cbn [sh_id]. intros E'. rewrite <- E' in Hq. cbn [fst] in Hq. lia.
Qed.

(** Whatever is published next, a device's watcher is woken exactly by a change:
    not woken, the settings are the very ones it holds; woken, it gets the published
    ones and they differ, or the device's row came or went. *)
Theorem watch_wakes_on_change stale w p fleet devices registry device :
  reaches stale w -> st_previous (wd_state w) = Some p ->
  let p' := (publish (mkState fleet devices registry (st_generation (wd_state w)) (Some p))).2 in
  let before := snapshot_effective p device in
  let after := snapshot_effective p' device in
  match watch_step device before p' with
  | None => after = before
  | Some next => next = after /\
      (settings_eqb (sh_settings before) (sh_settings after) = false \/
       bool_decide (is_Some (sn_devices p !! device)) <> bool_decide (is_Some (sn_devices p' !! device)))
  end.
Proof.
  intros [(_ & _ & _ & Hl) _]%reaches_kept Hp. destruct (Hl p Hp) as [[Hf1 Hf2] Hd].
  unfold publish. cbn [snd]. cbv zeta. unfold watch_step, snapshot_effective, build.
  cbn [sn_devices sn_fleet st_previous st_generation st_devices st_fleet st_registry]. rewrite map_lookup_imap.
  destruct (devices !! device) as [stored|]; cbn [mbind option_bind].
  - unfold build_entry. cbn [en_settings st_previous]. cbn [mbind option_bind].
    destruct (sn_devices p !! device) as [e|] eqn:Ee; cbn [fmap option_fmap option_map].
    + destruct (Hd device e Ee) as [H1 H2]. set (eff := effective_settings _ _ _).
      destruct (reuse_cases (Some (en_settings e)) (st_generation (wd_state w)) (Some device) eff) as [->|[Hs Hi]].
      * by intros q [= <-].
      * by rewrite bool_decide_eq_true_2.
      * rewrite bool_decide_eq_false_2 by done. split; [done|by left].
    + unfold reuse at 1. cbn [sh_id]. rewrite bool_decide_eq_false_2 by (intros E; rewrite <- E in Hf1; discriminate Hf1).
      split; [done|right]. by rewrite bool_decide_eq_false_2, bool_decide_eq_true_2 by first [by intros [? ?]|done].
  - destruct (sn_devices p !! device) as [e|] eqn:Ee.
    + destruct (Hd device e Ee) as [H1 H2]. rewrite bool_decide_eq_false_2.
      * split; [done|right]. by rewrite bool_decide_eq_true_2, bool_decide_eq_false_2 by first [by intros [? ?]|done].
      * intros E. rewrite <- E in H1. unfold reuse in H1. cbn [fmap option_fmap option_map] in H1. destruct (settings_eqb _ _); [congruence|discriminate H1].
    + destruct (reuse_cases (Some (sn_fleet p)) (st_generation (wd_state w)) None (fleet_settings fleet)) as [E|[Hs Hi]].
      * by intros q [= <-].
      * cbn [fmap option_fmap option_map]. rewrite E. by rewrite bool_decide_eq_true_2.
      * cbn [fmap option_fmap option_map]. rewrite bool_decide_eq_false_2 by done. split; [done|by left].
Qed.

Lemma changed_entry_Some before device e d b :
  changed_entry before (device, e) = Some (d, b) <->
  d = device /\ b = any needs_new_session (device_changes before device e) /\ exists k, k ∈ device_changes before device e.
Proof.
  unfold changed_entry. destruct (device_changes before device e) as [|k ks].
  - split; [done|]. by intros (_ & _ & k & Hk%elem_of_nil).
  - split; [intros [= <- <-]; split_and!; [done|done|exists k; by left]|by intros (-> & -> & _)].
Qed.
Lemma elem_of_changed before after device b :
  (device, b) ∈ omap (changed_entry before) (map_to_list (sn_devices after)) <->
  exists e, sn_devices after !! device = Some e /\
    b = any needs_new_session (device_changes before device e) /\ exists k, k ∈ device_changes before device e.
Proof.
  rewrite list_elem_of_omap. split.
  - intros ([d e] & Hin%elem_of_map_to_list & (-> & Hb & Hk)%changed_entry_Some). by exists e.
  - intros (e & He & Hc). exists (device, e). split; [by apply elem_of_map_to_list|]. by apply changed_entry_Some.
Qed.
Lemma changed_NoDup before l : NoDup l.*1 -> NoDup (omap (changed_entry before) l).*1.
Proof.
  induction l as [|[d e] l IH]; [constructor|]. rewrite fmap_cons. intros [Hd Hn]%NoDup_cons. cbn [omap list_omap].
  destruct (changed_entry before (d, e)) as [[d' b]|] eqn:Ec; [|by apply IH]. apply changed_entry_Some in Ec as (-> & _).
  rewrite fmap_cons. apply NoDup_cons. split; [|by apply IH].
  intros ([d2 b2] & E2 & ([d3 e3] & Hin & (-> & _)%changed_entry_Some)%list_elem_of_omap)%list_elem_of_fmap. cbn in E2. subst d3.
  apply Hd. by apply (list_elem_of_fmap_2 fst) in Hin.
Qed.
Lemma elem_of_device_changes before device e k :
  k ∈ device_changes before device e <->
  value_eqb (published_value before device k) (key_get (sh_settings (en_settings e)) k) = false.
Proof.
  unfold device_changes, differences, published_value. rewrite elem_of_retain, negb_true_iff.
  split; [by intros [_ ?]|]. intros. split; [apply all_complete|done].
Qed.

(** An edit's outcome names, in byte order and once each, exactly the devices
    whose values in force changed, and among them those a new session is needed for:
    the ones where a changed setting is read only at the start of a session. *)
Theorem outcome_names_changes before after :
  let o := outcome before after in
  (forall device, device ∈ eo_changed_devices o <->
     exists e, sn_devices after !! device = Some e /\
       exists k, value_eqb (published_value before device k) (key_get (sh_settings (en_settings e)) k) = false) /\
  (forall device, device ∈ eo_new_session_needed o <->
     exists e, sn_devices after !! device = Some e /\
       exists k, needs_new_session k = true /\
         value_eqb (published_value before device k) (key_get (sh_settings (en_settings e)) k) = false) /\
  NoDup (eo_changed_devices o) /\ Sorted at_most (eo_changed_devices o).
Proof.
  cbv zeta. unfold outcome. cbn [eo_changed_devices eo_new_session_needed]. setoid_rewrite <- elem_of_device_changes. split_and!.
  - intros device. rewrite sort_entries_perm. split.
    + intros ([d b] & -> & (e & He & _ & Hk)%elem_of_changed)%list_elem_of_fmap. by exists e.
    + intros (e & He & Hk). apply list_elem_of_fmap. eexists (device, _). split; [done|]. apply elem_of_changed. by exists e.
  - intros device. split.
    + intros ([d b] & -> & [Hin Hb]%elem_of_retain)%list_elem_of_fmap. rewrite sort_entries_perm in Hin.
      cbn in Hb. subst b. apply elem_of_changed in Hin as (e & He & Hany & _). exists e. split; [exact He|]. symmetry in Hany.
      apply any_true in Hany as (k & Hk & Hn). by exists k.
    + intros (e & He & k & Hn & Hk). apply list_elem_of_fmap. exists (device, true). split; [done|]. apply elem_of_retain.
      split; [|done]. rewrite sort_entries_perm. apply elem_of_changed. exists e. split_and!; [exact He| |by exists k].
      symmetry. apply any_true. by exists k.
  - rewrite sort_entries_perm. apply changed_NoDup, NoDup_fst_map_to_list.
  - apply sort_entries_sorted.
Qed.
End watching.

(** ** [session.ready] *)
Section floats.
Definition fin_leb (ma : positive) (ea : Z) (mb : positive) (eb : Z) : Prop :=
  (ea < eb \/ ea = eb /\ (ma <= mb)%positive)%Z.
Lemma leb_fin ma ea mb eb : f64_leb (S754_finite false ma ea) (S754_finite false mb eb) = true <-> fin_leb ma ea mb eb.
Proof.
  unfold f64_leb, SFleb, fin_leb. cbn [SFcompare]. change (Pos.compare_cont Eq ma mb) with (Pos.compare ma mb). destruct (Z.compare_spec ea eb) as [E|E|E].
  - subst. destruct (Pos.compare_spec ma mb); split; try done; intros; try (right; split; [done|lia]); lia.
  - split; [intros; by left|done].
  - split; [done|lia].
Qed.
(** A number between a positive one and another that is at most one is in the unit
    interval. *)
Lemma in_unit_interval low high x :
  f64_ltb f64_zero low = true -> f64_is_finite low = true -> f64_leb high (f64_of_Z 1) = true ->
  f64_leb low x = true -> f64_leb x high = true -> unit_interval x = true.
Proof.
  intros Hl Hf Hh Hx Hy. destruct low as [| | |[] ml el]; try discriminate.
  destruct x as [[]|[]| |[] mx ex]; try discriminate Hx; destruct high as [[]|[]| |[] mh eh]; try discriminate Hy; try discriminate Hh.
  unfold unit_interval. cbn [f64_ltb SFltb SFcompare f64_of_Z]. apply andb_true_iff. split; [done|].
  change (f64_of_Z 1) with (S754_finite false 4503599627370496 (-52)) in *.
  revert Hh. generalize 4503599627370496%positive. intros one Hh. rewrite leb_fin in *. unfold fin_leb in *. lia.
Qed.
End floats.

Section ready.
Context {U : Unicode} {UL : UnicodeLaws U}.

Definition live_rule (r : WakeRule) : OpenRule := mkOpenRule (wr_profile r) (wr_windows r) (wr_combine r) (wr_threshold r).

Lemma rule_of_built p w c t : 1 <= w <= 3 -> unit_interval t = true ->
  open_rule_new p w c t = Ok (mkOpenRule p w c t) /\ rule_built (mkOpenRule p w c t).
Proof.
  intros Hw Ht. assert (E : open_rule_new p w c t = Ok (mkOpenRule p w c t)).
  { unfold open_rule_new. rewrite Ht. destruct (N.leb_spec 1 w), (N.leb_spec w 3); try lia. done. }
  split; [exact E|exact E].
Qed.
Lemma wake_rule_built r : rule_valid r -> open_rule r = Ok (live_rule r) /\ rule_built (live_rule r).
Proof.
  intros [Hw [_ Ht]]. apply rule_of_built; [exact Hw|]. apply bounded_number_new_Ok in Ht as (_ & _ & Hl & Hh).
  apply (in_unit_interval (f64_ratio 30 100) (f64_ratio 99 100)); try assumption; vm_compute; reflexivity.
Qed.
Lemma wake_rules_built rules : Forall rule_valid rules -> open_rules rules = Ok (live_rule <$> rules) /\ Forall rule_built (live_rule <$> rules).
Proof.
  induction 1 as [|r rules Hr _ [IH1 IH2]]; [done|]. destruct (wake_rule_built r Hr) as [E Hb]. cbn [open_rules]. rewrite E, IH1.
  split; [done|]. by constructor.
Qed.

(** The rules the device gets: the model's own first, when there are others. *)
Definition all_rules (t : ModelThresholds) (extra : list WakeRule) : option (list OpenRule) :=
  match extra with
  | [] => None
  | _ => Some ([mkOpenRule Rp_Idle 3 Rc_Mean (mt_idle t); mkOpenRule Rp_Playback 3 Rc_Mean (mt_playback t)] ++ (live_rule <$> extra))
  end.
Definition shadow_rules (shadow : list WakeRule) : option (list OpenRule) :=
  match shadow with [] => None | _ => Some (live_rule <$> shadow) end.

Lemma compose_open_ok t extra :
  unit_interval (mt_idle t) = true -> unit_interval (mt_playback t) = true -> Forall rule_valid extra ->
  compose_open t extra = Ok (all_rules t extra) /\ Forall rule_built (default [] (all_rules t extra)).
Proof.
  intros Hi Hp Hv. destruct (wake_rules_built extra Hv) as [E Hb]. unfold compose_open, all_rules. destruct extra as [|r rs]; [done|].
  destruct (rule_of_built Rp_Idle 3 Rc_Mean (mt_idle t)) as [E1 H1]; [lia|done|].
  destruct (rule_of_built Rp_Playback 3 Rc_Mean (mt_playback t)) as [E2 H2]; [lia|done|]. rewrite E1, E2, E.
  split; [done|]. apply Forall_cons; split; [exact H1|]. apply Forall_cons; split; [exact H2|exact Hb].
Qed.
Lemma compose_shadow_ok shadow :
  Forall rule_valid shadow -> compose_shadow shadow = Ok (shadow_rules shadow) /\ Forall rule_built (default [] (shadow_rules shadow)).
Proof.
  intros Hv. destruct (wake_rules_built shadow Hv) as [E Hb]. unfold compose_shadow, shadow_rules. destruct shadow; [done|]. by rewrite E.
Qed.
Lemma composed_checks t duck extra shadow thresholds :
  f64_is_finite duck = true -> (length extra <= 4)%nat -> (length shadow <= 8)%nat ->
  detector_policy_new thresholds duck (all_rules t extra) (shadow_rules shadow) =
    Ok (mkDetectorPolicy thresholds duck (all_rules t extra) (shadow_rules shadow)).
Proof.
  intros Hd He Hs. unfold detector_policy_new. rewrite Hd. cbn [negb].
  assert (E1 : check_open_rules (all_rules t extra) = Ok tt).
  { unfold all_rules, check_open_rules. destruct extra as [|r rs]; [done|].
    destruct (Nat.ltb_spec MAX_OPEN_RULES (length ([mkOpenRule Rp_Idle 3 Rc_Mean (mt_idle t); mkOpenRule Rp_Playback 3 Rc_Mean (mt_playback t)] ++ (live_rule <$> r :: rs)))) as [Hlt|Hge].
    - rewrite length_app, length_fmap in Hlt. unfold MAX_OPEN_RULES in Hlt. cbn [length] in Hlt, He. lia.
    - cbn. done. }
  assert (E2 : check_shadow_rules (shadow_rules shadow) = Ok tt).
  { unfold shadow_rules, check_shadow_rules. destruct shadow as [|r rs]; [done|].
    destruct (Nat.ltb_spec MAX_SHADOW_RULES (length (live_rule <$> r :: rs))) as [Hlt|Hge]; [|done].
    rewrite length_fmap in Hlt. unfold MAX_SHADOW_RULES in Hlt. cbn [length] in Hlt, Hs. lia. }
  by rewrite E1, E2.
Qed.

(** C14: [session.ready] can always be composed from valid settings and the usable
    registry model they select, and the device activates what it is granted: the model
    it names, the model's thresholds with the settings' near-miss floor, the duck, the
    model's own two rules before the extra ones (never more than the device's limit),
    the shadow rules. *)
Theorem composed_grant_activates s m idle playback reference runtime capture afe :
  (forall k, value_valid (key_get s k)) -> model_thresholds_new idle playback reference = Ok (wm_thresholds m) ->
  is_usable m = true -> wm_graph_sha256 m = selected_graph s ->
  exists d, compose_ready s m runtime capture afe =
    Ok (mkReadyGrant capture (mkSpeechAssets runtime (wm_graph_sha256 m) (wm_sidecar_sha256 m)) d afe) /\
  d = mkDetectorPolicy (mkThresholds idle playback (near_miss_threshold (ds_wakeword s))) (duck_db (ds_playback s))
        (all_rules (wm_thresholds m) (wake_open_rules (ds_wakeword s))) (shadow_rules (wake_shadow_rules (ds_wakeword s))) /\
  policy_built d /\ device_activates (wm_graph_sha256 m) (go_policy_of d) = true.
Proof.
  intros Hv Ht Hu Hsel. unfold model_thresholds_new in Ht. apply let_Ok in Ht as ([] & Hn & Ht).
  destruct (negb (f64_leb reference playback && f64_leb playback idle)); [discriminate Ht|].
  assert (Hwt : wm_thresholds m = mkModelThresholds idle playback reference) by congruence. clear Ht.
  cbn [check_named] in Hn. destruct (unit_interval idle) eqn:Hi; [|discriminate Hn].
  destruct (unit_interval playback) eqn:Hp; [|discriminate Hn]. clear Hn.
  pose proof (Hv Sk_NearMissThreshold) as [_ Hnear]. pose proof (Hv Sk_DuckDb) as [_ Hduck].
  pose proof (Hv Sk_WakeOpenRules) as (Hol & Hov & _). pose proof (Hv Sk_WakeShadowRules) as (Hsl & Hsv & _).
  pose proof (Hv Sk_WakeModel) as Hsha. cbn [value_valid key_get] in *.
  change (sha256_parse (selected_graph s) = Some (selected_graph s)) in Hsha. rewrite <- Hsel in Hsha.
  apply bounded_number_new_Ok in Hnear as (_ & _ & Hn1 & Hn2). apply bounded_number_new_Ok in Hduck as (_ & Hdf & _).
  assert (Hn : unit_interval (near_miss_threshold (ds_wakeword s)) = true).
  { apply (in_unit_interval (f64_ratio 5 100) (f64_ratio 60 100)); try assumption; vm_compute; reflexivity. }
  assert (Hth : thresholds_new idle playback (near_miss_threshold (ds_wakeword s)) = Ok (mkThresholds idle playback (near_miss_threshold (ds_wakeword s)))).
  { unfold thresholds_new. cbn [check_thresholds]. by rewrite Hi, Hp, Hn. }
  destruct (compose_open_ok (wm_thresholds m) (wake_open_rules (ds_wakeword s))) as [Eo Ho]; [by rewrite Hwt|by rewrite Hwt|exact Hov|].
  destruct (compose_shadow_ok (wake_shadow_rules (ds_wakeword s)) Hsv) as [Es Hs].
  assert (Ed := composed_checks (wm_thresholds m) (duck_db (ds_playback s)) (wake_open_rules (ds_wakeword s)) (wake_shadow_rules (ds_wakeword s))
    (mkThresholds idle playback (near_miss_threshold (ds_wakeword s))) Hdf ltac:(lia) ltac:(lia)).
  assert (Hb : policy_built (mkDetectorPolicy (mkThresholds idle playback (near_miss_threshold (ds_wakeword s))) (duck_db (ds_playback s))
        (all_rules (wm_thresholds m) (wake_open_rules (ds_wakeword s))) (shadow_rules (wake_shadow_rules (ds_wakeword s))))).
  { split_and!; [by exists idle, playback, (near_miss_threshold (ds_wakeword s))|exact Ho|exact Hs|exact Ed]. }
  eexists. split; [|split; [reflexivity|split; [exact Hb|by apply built_policy_activates]]].
  unfold compose_ready. rewrite Hsel, String.eqb_refl, Hu. cbn [negb]. rewrite Hwt in Eo, Ed |- *. cbn [mt_idle mt_playback].
  rewrite Hth. cbn [map_err]. rewrite Eo. cbn [map_err]. rewrite Es. cbn [map_err]. rewrite Ed. cbn [map_err]. by rewrite <- Hsel.
Qed.
End ready.

(** ** Instances *)
Section samples.
Definition wake_entry : JsonObject := [("wakeModel", JString zero_sha)].
Definition ns_entry (on : bool) : JsonObject := [("nsAsr", JBool on)].
Definition microphones : JsonObject :=
  [("nsAsr", JBool false); ("saveUtterances", JBool false); ("extendedUtterances", JBool false);
   ("pauseAsr", JObject [("engine", JString "kroko"); ("host", JString ""); ("port", JNumber (NInt 10300));
                         ("model", JString ""); ("language", JString "en")])].
Definition microphones_tree : Value :=
  VObject [("nsAsr", VBool false); ("saveUtterances", VBool false); ("extendedUtterances", VBool false);
   ("pauseAsr", VObject [("engine", VString "kroko"); ("host", VString ""); ("port", VNumber (NInt 10300));
                         ("model", VString ""); ("language", VString "en")])].
(** A reader of the texts the samples store. *)
#[local] Instance sample_reader : SerdeText := {|
  document_events text :=
    if String.eqb text (to_python_text (JObject [])) then Ok (VObject [])
    else if String.eqb text (to_python_text (JArray [])) then Ok (VArray [])
    else if String.eqb text (to_python_text (JObject (ns_entry false))) then Ok (VObject [("nsAsr", VBool false)])
    else if String.eqb text (to_python_text (JObject wake_entry)) then Ok (VObject [("wakeModel", VString zero_sha)])
    else if String.eqb text (to_python_text (JObject microphones)) then Ok microphones_tree
    else if String.eqb text (to_python_text (JArray [JString "microphones"])) then Ok (VArray [VString "microphones"])
    else Err "unexpected"
|}.
#[local] Instance sample_reader_laws : SerdeLaws sample_reader.
Proof.
  split. intros text j. unfold json_parse, document_events, sample_reader.
  repeat (destruct (String.eqb text _); [intros [= <-]; cbn; repeat split; try (vm_compute; by repeat split)|]). by intros.
Qed.
#[local] Existing Instance ascii.
#[local] Existing Instance zero_digest.

Definition sample_wake_model : WakeModel :=
  mkWakeModel "m.onnx" (default_value WakeModelChoice) "m.json" zero_sha DEPLOYED_THRESHOLDS "echo" "echo" None [] Fs_Verified Fs_Verified
    (Some (mkSidecar ["echo"] 0 (f64_ratio 1 2) None None)).
Definition sample_registry : WakeRegistry := mkWakeRegistry [En_Model sample_wake_model] [] [].
Definition sample_rows : StoredRows :=
  mkStoredRows None {["d" := mkDeviceConfigRow (to_python_text (JObject [])) (to_python_text (JArray [])) true]}.
Definition sample_world : World := mkWorld sample_rows ∅ (start sample_rows sample_registry).1.
Definition sample_snapshot : SettingsSnapshot := (start sample_rows sample_registry).2.
Definition ns_patch : SettingMap := {[Sk_NsAsr := Sv_NsAsr false]}.
Definition sample_edit : DeviceEdit := mkDeviceEdit (Some {[Se_Microphones]}) ns_patch.

Lemma ns_patch_ok : patch_ok ns_patch.
Proof. unfold ns_patch. intros k v [<- <-]%lookup_singleton_Some. done. Qed.
Definition sample_device : StoredDevice := from_row (mkDeviceConfigRow (to_python_text (JObject [])) (to_python_text (JArray [])) true).
Lemma sample_stored : st_devices (wd_state sample_world) !! "d" = Some sample_device.
Proof. vm_compute. reflexivity. Qed.
Lemma new_document_is c changes d0 :
  new_document c changes = Some d0 -> reads_back d0 -> forall d, new_document c changes = Some d -> reads_back d.
Proof. intros H0 Hr d Hd. rewrite H0 in Hd. by injection Hd as <-. Qed.
Lemma sample_edit_reads_back : edit_reads_back sample_device sample_edit (fleet_settings (st_fleet (wd_state sample_world))).
Proof.
  split; [|vm_compute; reflexivity]. eapply new_document_is; [vm_compute; reflexivity|]. vm_compute. reflexivity.
Qed.
End samples.

Section witnesses.
#[local] Existing Instance sample_reader.
#[local] Existing Instance sample_reader_laws.
#[local] Existing Instance ascii.
#[local] Existing Instance zero_digest.

Lemma sample_reaches : reaches ∅ sample_world.
Proof. apply reach_start. Qed.

Lemma sample_previous : st_previous (wd_state sample_world) = Some sample_snapshot.
Proof. unfold sample_world, sample_snapshot, start, publish. cbn [wd_state fst snd st_previous]. reflexivity. Qed.

(** An edit of the fleet; then a device registered and read, another one deleted and
    not yet read. *)
Definition busy_world : World :=
  with_row "gone" None
    (serve (with_row "e" (Some registered_row) (serve sample_world (Cd_FleetEdit ns_patch None))) (Cd_Refresh "e" None)).
Lemma busy_reaches : reaches ({["gone"]} ∪ ({["e"]} ∪ ∅) ∖ {["e"]}) busy_world.
Proof.
  unfold busy_world. apply reach_row. apply (reach_serve _ _ (Cd_Refresh "e" None)). apply reach_row.
  exact (reach_serve ∅ sample_world (Cd_FleetEdit ns_patch None) sample_reaches).
Qed.
(** What is published of the device "e", and what a restart would publish. *)
Definition read_alike (published : option SettingsSnapshot) (restarted : SettingsSnapshot) : Prop :=
  exists p e e', published = Some p /\ published_fleet p Sk_NsAsr = Sv_NsAsr false /\
    sn_devices p !! "e" = Some e /\ sn_devices restarted !! "e" = Some e' /\
    alike_settings (sh_settings (en_settings e)) (sh_settings (en_settings e')).
Lemma read_alike_intro published restarted p :
  (fun p => published_fleet p Sk_NsAsr) <$> published = Some (Sv_NsAsr false) ->
  bool_decide (is_Some (published ≫= fun p => sn_devices p !! "e")) = true ->
  published = Some p ->
  option_Forall2 (fun e e' => alike_settings (sh_settings (en_settings e)) (sh_settings (en_settings e')) /\
                              en_overridden e = en_overridden e' /\ en_issues e = en_issues e')
    (sn_devices p !! "e") (sn_devices restarted !! "e") ->
  read_alike published restarted.
Proof.
  intros Hv [e He]%bool_decide_eq_true -> Hd. change (Some (published_fleet p Sk_NsAsr) = Some (Sv_NsAsr false)) in Hv.
  apply (inj Some) in Hv. cbn [mbind option_bind] in He. rewrite He in Hd. inversion Hd as [? e' (Ha & _) Hx He'|].
  exists p, e, e'. split; [reflexivity|]. split; [exact Hv|]. split; [exact He|]. split; [by symmetry|exact Ha].
Qed.
Lemma busy_value : (fun p => published_fleet p Sk_NsAsr) <$> st_previous (wd_state busy_world) = Some (Sv_NsAsr false).
Proof. vm_compute. reflexivity. Qed.
Lemma busy_known : bool_decide (is_Some (st_previous (wd_state busy_world) ≫= fun p => sn_devices p !! "e")) = true.
Proof. vm_compute. reflexivity. Qed.
Lemma busy_read : "e" ∉ (({["gone"]} ∪ ({["e"]} ∪ ∅) ∖ {["e"]}) : gset string).
Proof. set_solver. Qed.
Lemma restart_publishes_the_same_witness :
  read_alike (st_previous (wd_state busy_world)) (start (wd_rows busy_world) (mkWakeRegistry [] [] [])).2.
Proof.
  destruct (restart_publishes_the_same _ busy_world (mkWakeRegistry [] [] []) busy_reaches) as (p & Hp & _ & _ & Hd).
  exact (read_alike_intro _ _ p busy_value busy_known Hp (Hd "e" busy_read)).
Defined.

Lemma fleet_edit_contract_witness :
  exists o, (fleet_edit None ns_patch (wd_rows sample_world) (wd_state sample_world)).2 = Ok o /\
    alike (Sv_NsAsr false) (published_fleet (eo_snapshot o) Sk_NsAsr).
Proof.
  assert (Hok : is_ok (fleet_edit None ns_patch (wd_rows sample_world) (wd_state sample_world)).2 = true) by (vm_compute; reflexivity).
  assert (Hr : forall d, new_document (st_fleet (wd_state sample_world)) (map_values ns_patch) = Some d -> reads_back d)
    by (eapply new_document_is; [vm_compute; reflexivity|vm_compute; reflexivity]).
  pose proof (fleet_edit_contract None ns_patch ∅ sample_world sample_snapshot sample_reaches sample_previous ns_patch_ok Hr) as H.
  destruct (fleet_edit _ _ _ _) as [[rows s] [o|e]]; [|discriminate Hok]. exists o. split; [reflexivity|].
  exact (proj1 (proj2 H) Sk_NsAsr).
Defined.

Lemma device_edit_contract_witness :
  exists o, (device_edit (None, None) "d" sample_edit (wd_rows sample_world) (wd_state sample_world)).2 = Ok o /\
    alike (published_value (eo_snapshot o) "d" Sk_NsAsr) (Sv_NsAsr false).
Proof.
  assert (Hok : is_ok (device_edit (None, None) "d" sample_edit (wd_rows sample_world) (wd_state sample_world)).2 = true)
    by (vm_compute; reflexivity).
  pose proof (device_edit_contract None "d" sample_device sample_edit ∅ sample_world sample_snapshot sample_reaches sample_previous
    sample_stored ns_patch_ok sample_edit_reads_back) as H.
  destruct (device_edit _ _ _ _ _) as [[rows s] [o|e]]; [|discriminate Hok]. exists o. split; [reflexivity|].
  exact (proj2 (proj2 (proj2 (proj2 H))) Sk_NsAsr).
Defined.

(** The fleet moves to another model, a device is registered, the first model is
    deleted. *)
Definition other_model : WakeModel :=
  mkWakeModel "o.onnx" zero_sha "o.json" zero_sha DEPLOYED_THRESHOLDS "echo" "echo" None [] Fs_Verified Fs_Verified
    (Some (mkSidecar ["echo"] 0 (f64_ratio 1 2) None None)).
Definition two_models : WakeRegistry := mkWakeRegistry [En_Model sample_wake_model; En_Model other_model] [] [].
Definition first_world : World := mkWorld sample_rows ∅ (start sample_rows two_models).1.
Definition wake_patch : SettingMap := {[Sk_WakeModel := Sv_WakeModel zero_sha]}.
Definition moved_world : World :=
  serve (register "e" (serve first_world (Cd_FleetEdit wake_patch None))) (Cd_DeleteModel (default_value WakeModelChoice)).
Lemma first_usable : models_usable (start sample_rows two_models).2.
Proof.
  split; [vm_compute; reflexivity|]. intros device. unfold snapshot_effective.
  assert (Hall : map_fold (fun _ e b => usable_sha two_models (selected_graph (sh_settings (en_settings e))) && b) true
                   (sn_devices (start sample_rows two_models).2) = true) by (vm_compute; reflexivity).
  destruct (sn_devices (start sample_rows two_models).2 !! device) as [e|] eqn:E; [|vm_compute; reflexivity].
  assert (Hd : device = "d").
  { apply mk_is_Some in E. unfold start, publish, build in E. cbn [snd sn_devices st_devices] in E.
    rewrite map_lookup_imap, lookup_fmap in E. destruct (decide (device = "d")) as [|Hne]; [done|].
    unfold sample_rows in E. cbn [rw_devices] in E. rewrite lookup_singleton_ne in E by done. by destruct E. }
  subst device. vm_compute in E. injection E as <-. vm_compute. reflexivity.
Qed.
Lemma moved_serves : serves moved_world.
Proof.
  unfold moved_world. apply serves_command; [|exact I]. apply serves_register. apply serves_command; [by apply serves_start, first_usable|].
  split.
  - unfold wake_patch. intros k v [<- <-]%lookup_singleton_Some. split; [reflexivity|]. vm_compute. reflexivity.
  - eapply new_document_is; [vm_compute; reflexivity|]. vm_compute. reflexivity.
Qed.
Lemma moved_fleet : (fun p => selected_graph (sh_settings (sn_fleet p))) <$> st_previous (wd_state moved_world) = Some zero_sha.
Proof. vm_compute. reflexivity. Qed.
Lemma moved_models : models (st_registry (wd_state moved_world)) = [other_model].
Proof. vm_compute. reflexivity. Qed.
Lemma default_row_reads : json_parse (dr_config registered_row) = Ok (JObject []).
Proof. vm_compute. reflexivity. Qed.
Lemma selected_models_stay_usable_witness :
  ((fun p => selected_graph (sh_settings (sn_fleet p))) <$> st_previous (wd_state moved_world) = Some zero_sha /\
   models (st_registry (wd_state moved_world)) = [other_model]) /\
  exists p, st_previous (wd_state moved_world) = Some p /\ models_usable p.
Proof.
  split; [exact (conj moved_fleet moved_models)|]. exact (selected_models_stay_usable moved_world default_row_reads moved_serves).
Defined.

(** Publishing again what is stored wakes nobody. *)
Definition sample_again : SettingsSnapshot :=
  (publish (mkState (st_fleet (wd_state sample_world)) (st_devices (wd_state sample_world)) sample_registry 1 (Some sample_snapshot))).2.
Lemma watch_wakes_on_change_witness : snapshot_effective sample_again "d" = snapshot_effective sample_snapshot "d".
Proof.
  pose proof (watch_wakes_on_change ∅ sample_world sample_snapshot (st_fleet (wd_state sample_world)) (st_devices (wd_state sample_world))
    sample_registry "d" sample_reaches sample_previous) as H.
  assert (Hw : watch_step "d" (snapshot_effective sample_snapshot "d") sample_again = None) by (vm_compute; reflexivity).
  unfold sample_again in *. cbv zeta in H. change (st_generation (wd_state sample_world)) with 1%N in H. rewrite Hw in H. exact H.
Defined.

Lemma composed_grant_activates_witness :
  exists d, compose_ready default_settings sample_wake_model zero_sha true false =
    Ok (mkReadyGrant true (mkSpeechAssets zero_sha (default_value WakeModelChoice) zero_sha) d false) /\ policy_built d.
Proof.
  destruct (composed_grant_activates default_settings sample_wake_model (f64_ratio 90 100) (f64_ratio 65 100) (f64_ratio 30 100) zero_sha true false)
    as (d & Hd & _ & Hb & _); [exact value_default_valid|vm_compute; reflexivity|reflexivity|reflexivity|].
  exists d. split; [exact Hd|exact Hb].
Defined.
End witnesses.
