(* ===== verification/Button.v ===== *)
(** * The action button ([presentation/src/button.rs])

    Decoding [button.action], and the gesture policy of one device session: what
    each release does - an event, a cancelled turn, a turn, a refusal - and how
    taps are grouped.  An [Instant] and a [Duration] are nanoseconds on the
    controller's clock. *)
From Stdlib Require Import Sorting.Sorted.
From S2P Require Import Prelude Bytes WireEnum Float Vocab Json Clock Values Settings.

Definition HOLD_MS : N := 750.
Definition PREROLL_MS : N := 300.
Definition SAMPLES_PER_MS : N := 16.

Inductive ClickType :=
  | Ck_Dot | Ck_VolumeUp | Ck_VolumeDown | Ck_Mute
  | Ck_Other (code : N).
#[export] Instance ClickType_eq_dec : EqDecision ClickType.
Proof. solve_decision. Defined.

Definition from_code (code : N) : ClickType :=
  if code =? 138 then Ck_Dot
  else if code =? 115 then Ck_VolumeUp
  else if code =? 114 then Ck_VolumeDown
  else if code =? 113 then Ck_Mute
  else Ck_Other code.

Inductive Handled := Hd_AlertStopped.

Record CapturePosition := mkCapturePosition { cp_epoch : N; cp_sample : N }.

Record ButtonAction := mkButtonAction {
  ba_click : ClickType;
  ba_button : string;
  ba_down : bool;
  ba_held_ms : N;
  ba_muted : bool;
  ba_mono_ns : Z;
  ba_capture : option CapturePosition;
  ba_physical_seq : N;
  ba_occurrence_id : option string;
  ba_handled : option (Reported Handled);
}.

(** ** Decoding *)
Definition bad (key rule : string) : ProtocolError :=
  mkProtocolError Pe_MalformedMessage ("button.action." +:+ key +:+ " " +:+ rule).

Definition get (body : Object) (key : string) : Value := default VNull (object_get key body).

Definition get_uint (body : Object) (key : string) : result ProtocolError N :=
  ok_or (bad key "must be a non-negative integer") (value_as_u64 (get body key)).

Definition get_bool (body : Object) (key : string) : result ProtocolError bool :=
  match get body key with
  | VBool b => Ok b
  | _ => Err (bad key "must be a boolean")
  end.

Definition nullable_u64 (body : Object) (key : string) : result ProtocolError (option N) :=
  match get body key with
  | VNull => Ok None
  | VString text =>
      if negb (String.eqb text "") && all_digits text then
        let? n := ok_or (bad key "is out of range") (parse_digits 0 text) in Ok (Some n)
      else Err (bad key "must be a decimal string or null")
  | _ => Err (bad key "must be a decimal string or null")
  end.

(** [str::parse::<i64>]: an optional sign, digits, in range. *)
Definition parse_i64 (text : string) : option Z :=
  let '(negative, digits) :=
    match text with
    | String c rest =>
        if Ascii.N_of_ascii c =? 45 then (true, rest) else if Ascii.N_of_ascii c =? 43 then (false, rest) else (false, text)
    | EmptyString => (false, text)
    end in
  match parse_u64_decimal digits with
  | Some n =>
      if negative then if n <=? 2 ^ 63 then Some (- Z.of_N n)%Z else None
      else if n <? 2 ^ 63 then Some (Z.of_N n) else None
  | None => None
  end.

Definition parse_click (body : Object) : result ProtocolError N :=
  let? n := get_uint body "click_type" in
  if n <=? 65535 then Ok n else Err (bad "click_type" "is out of range").

Definition parse_mono (body : Object) : result ProtocolError Z :=
  ok_or (bad "mono_ns" "must be a decimal string") (value_as_str (get body "mono_ns") ≫= parse_i64).

Definition parse_occurrence (body : Object) : result ProtocolError (option string) :=
  match get body "occurrence_id" with
  | VNull => Ok None
  | VString id => Ok (Some id)
  | _ => Err (bad "occurrence_id" "must be a string or null")
  end.

Definition parse_handled (body : Object) : result ProtocolError (option (Reported Handled)) :=
  match get body "handled" with
  | VNull => Ok None
  | VString text =>
      if String.eqb text "alert_stopped" then Ok (Some (Known Hd_AlertStopped))
      else Ok (Some (Unrecognized text))
  | _ => Err (bad "handled" "must be a string or null")
  end.

Definition action_parse (body : Object) : result ProtocolError ButtonAction :=
  let? code := parse_click body in
  let? button := ok_or (bad "button" "must be a string") (value_as_str (get body "button")) in
  let? mono_ns := parse_mono body in
  let? epoch := nullable_u64 body "capture_epoch" in
  let? sample := nullable_u64 body "capture_sample" in
  let capture := match epoch, sample with
                 | Some epoch, Some sample => Some (mkCapturePosition epoch sample)
                 | _, _ => None
                 end in
  let? occurrence_id := parse_occurrence body in
  let? handled := parse_handled body in
  let? down := get_bool body "down" in
  let? held_ms := get_uint body "held_ms" in
  let? muted := get_bool body "muted" in
  let? physical_seq := get_uint body "physical_seq" in
  Ok (mkButtonAction (from_code code) button down held_ms muted mono_ns capture physical_seq
        occurrence_id handled).

(** ** The policy *)
Inductive TurnActivity := Ta_Idle | Ta_Turn | Ta_ReplyWindow.
#[export] Instance TurnActivity_eq_dec : EqDecision TurnActivity.
Proof. solve_decision. Defined.

Record ButtonContext := mkButtonContext {
  bc_activity : TurnActivity; bc_recording : bool; bc_speech_available : bool;
}.

Inductive ButtonRefusal := Br_Muted | Br_Recording | Br_SpeechUnavailable | Br_NoCapture.

Record ButtonTurn := mkButtonTurn {
  bt_epoch : N; bt_press_sample : N; bt_audio_from : N; bt_keeps_reply : bool;
}.

Inductive ButtonEvent := Be_Long | Be_Single | Be_Double | Be_Triple.

Inductive ButtonOutput :=
  | Bo_Event (event : ButtonEvent)
  | Bo_CancelTurn
  | Bo_StartTurn (turn : ButtonTurn)
  | Bo_Refused (refusal : ButtonRefusal).

Inductive Ignored := Ig_Duplicate | Ig_LocalButton | Ig_Press | Ig_HandledByDevice.

Inductive ButtonDecision :=
  | Bd_Ignored (why : Ignored)
  | Bd_Act (outputs : list ButtonOutput).

(** [MultiTapMs] is a number of ms up to 600. *)
Definition MULTI_TAP_MAX : N := 600.

Record TapGroup := mkTapGroup { tg_taps : N; tg_last_release_ns : Z; tg_closes_at : N }.

Record ButtonPolicy := mkButtonPolicy {
  bp_hold_capable : bool;
  bp_settings : ButtonSettings;
  bp_last_seq : option N;
  bp_group : option TapGroup;
}.

Definition button_new (hold_capable : bool) (settings : ButtonSettings) : ButtonPolicy :=
  mkButtonPolicy hold_capable settings None None.
Definition set_settings (settings : ButtonSettings) (p : ButtonPolicy) : ButtonPolicy :=
  mkButtonPolicy (bp_hold_capable p) settings (bp_last_seq p) (bp_group p).
Definition with_last_seq (seq : N) (p : ButtonPolicy) : ButtonPolicy :=
  mkButtonPolicy (bp_hold_capable p) (bp_settings p) (Some seq) (bp_group p).
Definition with_group (group : option TapGroup) (p : ButtonPolicy) : ButtonPolicy :=
  mkButtonPolicy (bp_hold_capable p) (bp_settings p) (bp_last_seq p) group.

Definition accept_physical_seq (seq : N) (p : ButtonPolicy) : ButtonPolicy * bool :=
  match bp_last_seq p with
  | Some last => if seq <=? last then (p, false) else (with_last_seq seq p, true)
  | None => (with_last_seq seq p, true)
  end.

Definition tap_events (p : ButtonPolicy) : bool :=
  bp_hold_capable p && button_single_tap_event (bp_settings p).

Definition tap_event (taps : N) : ButtonEvent :=
  if taps <=? 1 then Be_Single else if taps =? 2 then Be_Double else Be_Triple.

(** [flush] pushes the pending group's event. *)
Definition flush (p : ButtonPolicy) : ButtonPolicy * list ButtonOutput :=
  match bp_group p with
  | Some group => (with_group None p, [Bo_Event (tap_event (tg_taps group))])
  | None => (p, [])
  end.

(** [i64::saturating_sub]. *)
Definition i64_sat_sub (a b : Z) : Z := Z.max (- 2 ^ 63) (Z.min (2 ^ 63 - 1) (a - b)).

Definition joins (window_ns release_ns : Z) (g : TapGroup) : bool :=
  let since := i64_sat_sub release_ns (tg_last_release_ns g) in
  ((0 <=? since) && (since <=? window_ns))%Z.

Definition tap (release_ns : Z) (now : N) (p : ButtonPolicy) : ButtonPolicy * list ButtonOutput :=
  let window_ms := button_multi_tap_ms (bp_settings p) in
  if window_ms =? 0 then (p, [Bo_Event Be_Single])
  else
    let window_ns := (Z.of_N window_ms * 1000000)%Z in
    let '(p, out, taps) :=
      match bp_group p with
      | Some g =>
          if joins window_ns release_ns g then (p, [], tg_taps g + 1)
          else let '(p, out) := flush p in (p, out, 1)
      | None => (p, [], 1)
      end in
    if 3 <=? taps then (with_group None p, out ++ [Bo_Event Be_Triple])
    else (with_group (Some (mkTapGroup taps release_ns (now + window_ms * 1000000))) p, out).

(** What a tap that is no event starts. *)
Definition start_output (action : ButtonAction) (context : ButtonContext) : ButtonOutput :=
  if bc_recording context then Bo_Refused Br_Recording
  else if negb (bc_speech_available context) then Bo_Refused Br_SpeechUnavailable
  else
    match ba_capture action with
    | Some at_ =>
        Bo_StartTurn (mkButtonTurn (cp_epoch at_) (cp_sample at_)
          (cp_sample at_ - PREROLL_MS * SAMPLES_PER_MS) (bool_decide (bc_activity context = Ta_ReplyWindow)))
    | None => Bo_Refused Br_NoCapture
    end.

(** A release of the action button that the device left to the controller. *)
Definition on_release (action : ButtonAction) (context : ButtonContext) (now : N) (p : ButtonPolicy) :
    ButtonPolicy * list ButtonOutput :=
  if bp_hold_capable p && (HOLD_MS <=? ba_held_ms action) then
    let '(p, out) := flush p in (p, out ++ [Bo_Event Be_Long])
  else if ba_muted action then
    let '(p, out) := flush p in (p, out ++ [Bo_Refused Br_Muted])
  else
    let events := tap_events p in
    let cancels := match bc_activity context with
                   | Ta_Turn => true | Ta_ReplyWindow => events | Ta_Idle => false end in
    if cancels then
      let '(p, out) := flush p in (p, out ++ [Bo_CancelTurn])
    else if events then tap (ba_mono_ns action) now p
    else (p, [start_output action context]).

Definition on_action (action : ButtonAction) (context : ButtonContext) (now : N) (p : ButtonPolicy) :
    ButtonPolicy * ButtonDecision :=
  let '(p, fresh) := accept_physical_seq (ba_physical_seq action) p in
  if negb fresh then (p, Bd_Ignored Ig_Duplicate)
  else if negb (bool_decide (ba_click action = Ck_Dot)) then (p, Bd_Ignored Ig_LocalButton)
  else if ba_down action then (p, Bd_Ignored Ig_Press)
  else if match ba_handled action with Some _ => true | None => false end then
    (p, Bd_Ignored Ig_HandledByDevice)
  else let '(p, out) := on_release action context now p in (p, Bd_Act out).

Definition button_next_deadline (p : ButtonPolicy) : option N := tg_closes_at <$> bp_group p.

Definition button_on_timer (now : N) (p : ButtonPolicy) : ButtonPolicy * option ButtonOutput :=
  match bp_group p with
  | Some group =>
      if tg_closes_at group <=? now then
        (with_group None p, Some (Bo_Event (tap_event (tg_taps group))))
      else (p, None)
  | None => (p, None)
  end.

(** ** A session's calls *)
Inductive ButtonCall :=
  | Bc_Action (action : ButtonAction) (context : ButtonContext) (now : N)
  | Bc_Timer (now : N)
  | Bc_Settings (settings : ButtonSettings)
  | Bc_Physical (seq : N).

Definition decision_outputs (d : ButtonDecision) : list ButtonOutput :=
  match d with Bd_Act out => out | Bd_Ignored _ => [] end.

Definition button_step (p : ButtonPolicy) (call : ButtonCall) : ButtonPolicy * list ButtonOutput :=
  match call with
  | Bc_Action action context now =>
      let '(p, d) := on_action action context now p in (p, decision_outputs d)
  | Bc_Timer now => let '(p, out) := button_on_timer now p in (p, option_list out)
  | Bc_Settings settings => (set_settings settings p, [])
  | Bc_Physical seq => ((accept_physical_seq seq p).1, [])
  end.

Fixpoint button_run (p : ButtonPolicy) (calls : list ButtonCall) : ButtonPolicy * list ButtonOutput :=
  match calls with
  | [] => (p, [])
  | call :: calls =>
      let '(p, out) := button_step p call in
      let '(p, rest) := button_run p calls in (p, out ++ rest)
  end.

(** How many taps an event reports, and how many wait in the pending group. *)
Definition event_taps (e : ButtonEvent) : N :=
  match e with Be_Long => 0 | Be_Single => 1 | Be_Double => 2 | Be_Triple => 3 end.
Definition output_taps (o : ButtonOutput) : N :=
  match o with Bo_Event e => event_taps e | _ => 0 end.
Definition reported_taps (out : list ButtonOutput) : N := foldr N.add 0 (output_taps <$> out).
Definition pending_taps (p : ButtonPolicy) : N :=
  match bp_group p with Some g => tg_taps g | None => 0 end.

(** A release that reaches the grouping: new, of the action button, not used by
    the device, no hold, not muted, not cancelling, with tap events on. *)
Definition fresh (p : ButtonPolicy) (seq : N) : bool :=
  match bp_last_seq p with Some last => last <? seq | None => true end.
Definition deciding_release (p : ButtonPolicy) (a : ButtonAction) : bool :=
  fresh p (ba_physical_seq a) && bool_decide (ba_click a = Ck_Dot) && negb (ba_down a) &&
  match ba_handled a with Some _ => false | None => true end.
(** Neither a hold nor muted. *)
Definition plain_tap (p : ButtonPolicy) (a : ButtonAction) : bool :=
  negb (bp_hold_capable p && (HOLD_MS <=? ba_held_ms a)) && negb (ba_muted a).
Definition grouped (p : ButtonPolicy) (a : ButtonAction) (context : ButtonContext) : bool :=
  plain_tap p a && tap_events p && bool_decide (bc_activity context = Ta_Idle).
Definition counts (p : ButtonPolicy) (call : ButtonCall) : N :=
  match call with
  | Bc_Action a context _ => if deciding_release p a && grouped p a context then 1 else 0
  | _ => 0
  end.
Fixpoint counted (p : ButtonPolicy) (calls : list ButtonCall) : N :=
  match calls with
  | [] => 0
  | call :: calls => counts p call + counted (button_step p call).1 calls
  end.

(** A pending group holds one tap or two. *)
Definition button_wf (p : ButtonPolicy) : Prop := forall g, bp_group p = Some g -> 1 <= tg_taps g <= 2.

Lemma reported_app a b : reported_taps (a ++ b) = reported_taps a + reported_taps b.
Proof. unfold reported_taps. rewrite fmap_app. induction (output_taps <$> a) as [|x l IH]; cbn; lia. Qed.

Lemma tap_event_taps taps : 1 <= taps <= 3 -> event_taps (tap_event taps) = taps.
Proof.
  intros H. unfold tap_event. destruct (N.leb_spec taps 1), (N.eqb_spec taps 2); cbn; lia.
Qed.

Lemma flush_spec p :
  button_wf p ->
  let '(p', out) := flush p in
  p' = with_group None p /\ reported_taps out = pending_taps p /\ Forall (fun o => exists e, o = Bo_Event e) out.
Proof.
  intros Hwf. unfold flush, pending_taps. destruct p as [h s l [g|]]; cbn; [|by split_and!].
  split_and!; [done| |by repeat constructor; eexists]. unfold reported_taps. cbn.
  specialize (Hwf g eq_refl). rewrite tap_event_taps by lia. lia.
Qed.

Lemma tap_spec release now p :
  button_wf p ->
  let '(p', out) := tap release now p in
  button_wf p' /\ reported_taps out + pending_taps p' = pending_taps p + 1 /\
  bp_last_seq p' = bp_last_seq p /\ bp_settings p' = bp_settings p /\ bp_hold_capable p' = bp_hold_capable p /\
  Forall (fun o => exists e, o = Bo_Event e) out.
Proof.
  intros Hwf. unfold tap.
  destruct (_ =? 0); [split_and!; [done|cbn; lia|done..|by repeat constructor; eexists]|].
  assert (Hnew : forall (q : ButtonPolicy) g, 1 <= tg_taps g <= 2 -> button_wf (with_group (Some g) q))
    by (by intros q g Hg g' [= <-]).
  assert (Hnone : forall q, button_wf (with_group None q)) by (intros q g' Hg'; discriminate Hg').
  destruct p as [h s l [g|]]; [pose proof (Hwf g eq_refl) as Hg; cbn [bp_group]; destruct (joins _ _ _)|].
  - destruct (N.leb_spec 3 (tg_taps g + 1)); split_and!; first
      [done | apply Hnew; cbn; lia | by repeat constructor; eexists | unfold reported_taps; cbn; lia].
  - unfold flush. cbn [bp_group]. split_and!; first
      [done | by apply Hnew | by repeat constructor; eexists
      | unfold reported_taps; cbn; rewrite tap_event_taps by lia; lia].
  - split_and!; first [done | by apply Hnew | by constructor].
Qed.

Lemma accept_spec seq p :
  let '(p', ok) := accept_physical_seq seq p in
  ok = fresh p seq /\ bp_group p' = bp_group p /\ bp_settings p' = bp_settings p /\
  bp_hold_capable p' = bp_hold_capable p /\
  bp_last_seq p' = (if ok then Some seq else bp_last_seq p).
Proof.
  unfold accept_physical_seq, fresh. destruct (bp_last_seq p) as [last|] eqn:E; cbn; [|done].
  destruct (N.leb_spec seq last), (N.ltb_spec last seq); try lia; cbn; rewrite ?E; done.
Qed.

(** A release's outputs report the pending taps and the new one but for those
    still pending, and hold a turn exactly when its tap starts one. *)
Lemma on_release_spec a context now p :
  button_wf p ->
  let '(p', out) := on_release a context now p in
  button_wf p' /\ bp_last_seq p' = bp_last_seq p /\
  reported_taps out + pending_taps p' = pending_taps p + (if grouped p a context then 1 else 0) /\
  forall turn, Bo_StartTurn turn ∈ out <->
    plain_tap p a = true /\ tap_events p = false /\ bc_activity context <> Ta_Turn /\
    start_output a context = Bo_StartTurn turn.
Proof.
  intros Hwf. unfold on_release, grouped, plain_tap.
  pose proof (flush_spec p Hwf) as Hf. destruct (flush p) as [q out]. destruct Hf as (-> & Hr & Hev).
  assert (Hw0 : button_wf (with_group None p)) by (intros g Hg'; discriminate Hg').
  assert (Hno : forall turn o, o <> Bo_StartTurn turn -> Bo_StartTurn turn ∉ out ++ [o]).
  { intros turn o Ho [Hin|Hin]%elem_of_app; [|apply list_elem_of_singleton in Hin; congruence].
    rewrite Forall_forall in Hev. by destruct (Hev _ Hin). }
  destruct (bp_hold_capable p && (HOLD_MS <=? ba_held_ms a)); cbn [negb andb].
  { split_and!; [done|done|rewrite reported_app, Hr; cbn; lia|].
    intros turn. split; [intros Hin; by destruct (Hno turn (Bo_Event Be_Long))|naive_solver]. }
  destruct (ba_muted a); cbn [negb andb].
  { split_and!; [done|done|rewrite reported_app, Hr; cbn; lia|].
    intros turn. split; [intros Hin; by destruct (Hno turn (Bo_Refused Br_Muted))|naive_solver]. }
  destruct (match bc_activity context with Ta_Turn => true | Ta_ReplyWindow => tap_events p | Ta_Idle => false end) eqn:Ec.
  { split_and!; [done|done| |].
    - rewrite reported_app, Hr, bool_decide_eq_false_2, andb_false_r by (intros E; by rewrite E in Ec).
      cbn. lia.
    - intros turn. split; [intros Hin; by destruct (Hno turn Bo_CancelTurn)|].
      intros (_ & Ht & Hn & _). exfalso. destruct (bc_activity context); congruence. }
  destruct (tap_events p) eqn:Et.
  - destruct (bc_activity context); try done. pose proof (tap_spec (ba_mono_ns a) now p Hwf) as Ht.
    destruct (tap _ _ p) as [q' out']. destruct Ht as (Hw & Hc & Hl & _ & _ & Hev').
    cbn [andb]. rewrite bool_decide_eq_true_2 by done. split_and!; [done|done|lia|].
    intros turn. split; [|naive_solver]. intros Hin. rewrite Forall_forall in Hev'. by destruct (Hev' _ Hin).
  - cbn [andb]. split_and!; [done|done| |].
    + unfold start_output. destruct (bc_recording context), (bc_speech_available context), (ba_capture a); cbn; lia.
    + intros turn. rewrite list_elem_of_singleton.
      split; [intros ->; split_and!; try done; intros Hn; by rewrite Hn in Ec|by intros (_ & _ & _ & ->)].
Qed.

(** What an action message does, in the terms of the calls' bookkeeping. *)
Lemma on_action_spec a context now p :
  button_wf p ->
  let '(p', d) := on_action a context now p in
  button_wf p' /\
  reported_taps (decision_outputs d) + pending_taps p' = pending_taps p + counts p (Bc_Action a context now) /\
  bp_last_seq p' = (if fresh p (ba_physical_seq a) then Some (ba_physical_seq a) else bp_last_seq p) /\
  (decision_outputs d <> [] -> deciding_release p a = true) /\
  (forall turn, Bo_StartTurn turn ∈ decision_outputs d <->
     deciding_release p a = true /\ plain_tap p a = true /\ tap_events p = false /\
     bc_activity context <> Ta_Turn /\ start_output a context = Bo_StartTurn turn).
Proof.
  intros Hwf. unfold on_action, counts, deciding_release.
  pose proof (accept_spec (ba_physical_seq a) p) as Ha.
  destruct (accept_physical_seq _ p) as [q ok]. destruct Ha as (-> & Hg & Hs & Hh & Hl).
  assert (Hwq : button_wf q) by (intros g; rewrite Hg; apply Hwf).
  assert (Hpend : pending_taps q = pending_taps p) by (unfold pending_taps; by rewrite Hg).
  assert (Hplain : plain_tap q a = plain_tap p a) by (unfold plain_tap; by rewrite Hh).
  assert (Hte : tap_events q = tap_events p) by (unfold tap_events; by rewrite Hs, Hh).
  assert (Hgr : grouped q a context = grouped p a context) by (unfold grouped; by rewrite Hplain, Hte).
  rewrite <- Hpend, <- Hl, <- Hgr, <- Hplain, <- Hte.
  assert (Hout : forall d, decision_outputs d = [] -> forall P : ButtonTurn -> Prop, (forall t, ~ P t) ->
    forall turn, Bo_StartTurn turn ∈ decision_outputs d <-> P turn).
  { intros d -> P HP turn. split; [by intros ?%elem_of_nil|by intros ?%HP]. }
  destruct (fresh p (ba_physical_seq a)), (bool_decide (ba_click a = Ck_Dot)), (ba_down a), (ba_handled a);
    cbn [negb andb]; try (split_and!; [done|cbn; lia|done|done|apply Hout; naive_solver]).
  pose proof (on_release_spec a context now q Hwq) as Hrel. destruct (on_release _ _ _ q) as [q' out].
  destruct Hrel as (Hw & Hls & Hc & Hturn). cbn [decision_outputs].
  split_and!; [done|lia|by rewrite Hls|done|]. intros turn. rewrite Hturn. naive_solver.
Qed.

Lemma timer_spec now p :
  button_wf p ->
  let '(p', out) := button_on_timer now p in
  button_wf p' /\ reported_taps (option_list out) + pending_taps p' = pending_taps p /\
  bp_last_seq p' = bp_last_seq p.
Proof.
  intros Hwf. unfold button_on_timer, pending_taps. destruct (bp_group p) as [g|] eqn:Eg; [|by rewrite Eg].
  destruct (tg_closes_at g <=? now); cbn; [|rewrite Eg; by split_and!].
  split_and!; [by intros g' [=]| |done]. specialize (Hwf g Eg). unfold reported_taps; cbn.
  rewrite tap_event_taps by lia. lia.
Qed.

Lemma button_step_spec p call :
  button_wf p ->
  let '(p', out) := button_step p call in
  button_wf p' /\ reported_taps out + pending_taps p' = pending_taps p + counts p call.
Proof.
  intros Hwf. destruct call as [a context now|now|settings|seq]; cbn [button_step].
  - pose proof (on_action_spec a context now p Hwf) as H. destruct (on_action _ _ _ _) as [q d]. by destruct H as (? & ? & _).
  - pose proof (timer_spec now p Hwf) as H. destruct (button_on_timer _ _) as [q out].
    destruct H as (? & ? & _). split; [done|]. cbn. lia.
  - split; [exact Hwf|]. cbn. unfold pending_taps; cbn. lia.
  - pose proof (accept_spec seq p) as H. destruct (accept_physical_seq _ _) as [q ok]. cbn [fst].
    destruct H as (_ & Hg & _). split; [intros g; rewrite Hg; apply Hwf|]. unfold pending_taps. rewrite Hg. cbn. lia.
Qed.

Lemma button_run_spec calls p :
  button_wf p ->
  button_wf (button_run p calls).1 /\
  reported_taps (button_run p calls).2 + pending_taps (button_run p calls).1 = pending_taps p + counted p calls.
Proof.
  revert p. induction calls as [|call calls IH]; intros p Hwf; cbn [button_run counted]; [split; [done|cbn; lia]|].
  pose proof (button_step_spec p call Hwf) as Hs. destruct (button_step p call) as [q out]. cbn [fst].
  destruct Hs as [Hq Hc]. specialize (IH q Hq). destruct (button_run q calls) as [r rest]. cbn [fst snd] in *.
  destruct IH as [Hr Hn]. split; [done|]. rewrite reported_app. lia.
Qed.

Lemma button_new_wf hold settings : button_wf (button_new hold settings).
Proof. by intros g [=]. Qed.

(** No tap is lost or counted twice: over any session's messages, timers and
    settings changes, the taps reported by the events fired - one, two or three
    each - and those of the pending group are exactly the releases that were
    taps; at most two wait, and while any does the policy asks for its timer. *)
Theorem taps_conserved hold settings calls :
  let '(p, out) := button_run (button_new hold settings) calls in
  reported_taps out + pending_taps p = counted (button_new hold settings) calls /\
  pending_taps p <= 2 /\
  (button_next_deadline p = None <-> pending_taps p = 0) /\
  (forall at_, button_next_deadline p = Some at_ ->
     exists event, button_on_timer at_ p = (with_group None p, Some (Bo_Event event)) /\
       event_taps event = pending_taps p).
Proof.
  pose proof (button_run_spec calls _ (button_new_wf hold settings)) as [Hwf Hc].
  destruct (button_run _ calls) as [p out]. cbn [fst snd] in *. unfold button_next_deadline, pending_taps in *.
  destruct (bp_group p) as [g|] eqn:Eg; cbn in *.
  - specialize (Hwf g Eg). split_and!; [lia|lia|split; [done|lia]|]. intros at_ [= <-].
    unfold button_on_timer. rewrite Eg, N.leb_refl. eexists. split; [done|]. apply tap_event_taps. lia.
  - split_and!; [lia|lia|done|done].
Qed.

(** The numbers of the physical events a run took as new. *)
Definition call_seq (call : ButtonCall) : option N :=
  match call with
  | Bc_Action a _ _ => Some (ba_physical_seq a)
  | Bc_Physical seq => Some seq
  | _ => None
  end.
Fixpoint new_seqs (p : ButtonPolicy) (calls : list ButtonCall) : list N :=
  match calls with
  | [] => []
  | call :: calls =>
      match call_seq call with
      | Some seq => if fresh p seq then [seq] else []
      | None => []
      end ++ new_seqs (button_step p call).1 calls
  end.

Lemma button_step_seq p call :
  button_wf p ->
  bp_last_seq (button_step p call).1 =
  match call_seq call with
  | Some seq => if fresh p seq then Some seq else bp_last_seq p
  | None => bp_last_seq p
  end.
Proof.
  intros Hwf. destruct call as [a context now|now|settings|seq]; cbn [button_step call_seq].
  - pose proof (on_action_spec a context now p Hwf) as H. destruct (on_action _ _ _ _). by destruct H as (_ & _ & ? & _).
  - pose proof (timer_spec now p Hwf) as H. destruct (button_on_timer _ _). by destruct H as (_ & _ & ?).
  - done.
  - pose proof (accept_spec seq p) as H. destruct (accept_physical_seq _ _). by destruct H as (-> & _ & _ & _ & ?).
Qed.

Lemma new_seqs_sorted calls p :
  button_wf p -> StronglySorted N.lt (new_seqs p calls) /\
  forall last seq, bp_last_seq p = Some last -> seq ∈ new_seqs p calls -> last < seq.
Proof.
  revert p. induction calls as [|call calls IH]; intros p Hwf; cbn [new_seqs].
  { split; [constructor|set_solver]. }
  pose proof (button_step_spec p call Hwf) as Hs. pose proof (button_step_seq p call Hwf) as Hl.
  destruct (button_step p call) as [q out]. cbn [fst] in *. destruct Hs as [Hq _].
  destruct (IH q Hq) as [Hsort Habove]. destruct (call_seq call) as [seq|]; [|by rewrite Hl in Habove].
  unfold fresh in *. destruct (bp_last_seq p) as [last|].
  - destruct (N.ltb_spec last seq); cbn [app]; [|by rewrite Hl in Habove].
    split; [constructor; [done|]; apply Forall_forall; intros s Hs; by eapply Habove|].
    intros ? s [= <-] [->|Hin]%elem_of_cons; [done|]. specialize (Habove _ _ Hl Hin). lia.
  - cbn [app]. split; [constructor; [done|]; apply Forall_forall; intros s Hs; by eapply Habove|done].
Qed.

(** Each physical event acts at most once: over any session the numbers of
    the messages taken as new strictly increase, and a message that is not new
    - repeated, reordered, or older than a mute event - changes nothing. *)
Theorem physical_events_act_once hold settings calls a context now :
  let p := (button_run (button_new hold settings) calls).1 in
  StronglySorted N.lt (new_seqs (button_new hold settings) calls) /\
  (fresh p (ba_physical_seq a) = false -> on_action a context now p = (p, Bd_Ignored Ig_Duplicate)) /\
  (fresh p (ba_physical_seq a) = true ->
     fresh (on_action a context now p).1 (ba_physical_seq a) = false).
Proof.
  cbv zeta. pose proof (button_run_spec calls _ (button_new_wf hold settings)) as [Hwf _].
  split_and!; [apply new_seqs_sorted, button_new_wf|..]; set (p := (button_run _ calls).1) in *; intros Hf.
  - unfold on_action, accept_physical_seq. revert Hf. unfold fresh. destruct (bp_last_seq p) as [last|]; [|done].
    intros H%N.ltb_ge. by destruct (N.leb_spec (ba_physical_seq a) last); [|lia].
  - pose proof (on_action_spec a context now p Hwf) as H. destruct (on_action _ _ _ _) as [q d].
    destruct H as (_ & _ & Hl & _). rewrite Hf in Hl. unfold fresh. cbn [fst]. rewrite Hl. apply N.ltb_irrefl.
Qed.

(** A button turn is opened exactly by a new release of the action button,
    short enough to be a tap, that the device did not use, on a device neither
    muted, nor recording, nor without speech, outside a turn, with tap events
    off and a capture position; its audio starts the pre-roll before the press,
    or at the epoch's start, and it keeps the question of a reply window. *)
Theorem button_turns_open_exactly hold settings calls a context now turn :
  let p := (button_run (button_new hold settings) calls).1 in
  Bo_StartTurn turn ∈ decision_outputs (on_action a context now p).2 <->
  fresh p (ba_physical_seq a) = true /\ ba_click a = Ck_Dot /\ ba_down a = false /\ ba_handled a = None /\
  (bp_hold_capable p = true -> ba_held_ms a < 750) /\ ba_muted a = false /\ tap_events p = false /\
  bc_activity context <> Ta_Turn /\ bc_recording context = false /\ bc_speech_available context = true /\
  exists at_, ba_capture a = Some at_ /\
    turn = mkButtonTurn (cp_epoch at_) (cp_sample at_) (cp_sample at_ - 4800)
             (bool_decide (bc_activity context = Ta_ReplyWindow)).
Proof.
  cbv zeta. pose proof (button_run_spec calls _ (button_new_wf hold settings)) as [Hwf _].
  set (p := (button_run _ calls).1) in *. pose proof (on_action_spec a context now p Hwf) as H.
  destruct (on_action _ _ _ _) as [q d]. destruct H as (_ & _ & _ & _ & Ht). cbn [snd]. rewrite Ht.
  unfold deciding_release, plain_tap. rewrite !andb_true_iff, bool_decide_eq_true, !negb_true_iff.
  assert (Hhold : bp_hold_capable p && (HOLD_MS <=? ba_held_ms a) = false <->
                  (bp_hold_capable p = true -> ba_held_ms a < 750)).
  { unfold HOLD_MS. destruct (bp_hold_capable p); cbn; [|by split]. rewrite N.leb_gt. naive_solver. }
  rewrite Hhold. unfold start_output. change (PREROLL_MS * SAMPLES_PER_MS) with 4800.
  destruct (ba_handled a), (bc_recording context), (bc_speech_available context), (ba_capture a); cbn [negb]; naive_solver.
Qed.

(** ** Grouping

    Taps in a row, as a split of their release times: every group's taps are
    each within the window of the one before, none has more than three, and a
    group ends only at its third tap, at a tap out of the window, or last. *)
Definition within (window_ns a b : Z) : Prop := (0 <= i64_sat_sub b a <= window_ns)%Z.

Definition ended_before (window_ns : Z) (g h : list Z) : Prop :=
  length g = 3%nat \/ exists a b, last g = Some a /\ head h = Some b /\ ~ within window_ns a b.

Record grouping (window_ns : Z) (releases : list Z) (groups : list (list Z)) : Prop := {
  gr_all : concat groups = releases;
  gr_sizes : Forall (fun g => g <> [] /\ (length g <= 3)%nat /\ Sorted (within window_ns) g) groups;
  gr_maximal : Sorted (ended_before window_ns) groups;
}.

Fixpoint taps (p : ButtonPolicy) (l : list (Z * N)) : ButtonPolicy * list ButtonOutput :=
  match l with
  | [] => (p, [])
  | (release, now) :: l =>
      let '(p, out) := tap release now p in let '(p, rest) := taps p l in (p, out ++ rest)
  end.

Definition group_event (g : list Z) : ButtonOutput := Bo_Event (tap_event (N.of_nat (length g))).

Lemma Sorted_snoc {A} (R : A -> A -> Prop) l x :
  Sorted R l -> (forall a, last l = Some a -> R a x) -> Sorted R (l ++ [x]).
Proof.
  induction l as [|y [|z l] IH]; intros Hs Hl; cbn.
  - by repeat constructor.
  - constructor; [by repeat constructor|]. constructor. by apply Hl.
  - inversion_clear Hs as [|? ? Ht Hh]. inversion_clear Hh. constructor; [|by constructor].
    apply IH; [done|]. intros a Ha. apply Hl. done.
Qed.

(** Where the policy stands after some taps: the groups closed, whose events
    were fired, and the one still open. *)
Inductive tapped (window_ns : Z) (releases : list Z) (p : ButtonPolicy) (out : list ButtonOutput) : Prop :=
  | tapped_closed closed :
      grouping window_ns releases closed -> bp_group p = None ->
      (forall g, last closed = Some g -> length g = 3%nat) ->
      out = group_event <$> closed -> tapped window_ns releases p out
  | tapped_open closed g group :
      grouping window_ns releases (closed ++ [g]) -> bp_group p = Some group ->
      tg_taps group = N.of_nat (length g) -> (length g < 3)%nat -> last g = Some (tg_last_release_ns group) ->
      out = group_event <$> closed -> tapped window_ns releases p out.

Lemma grouping_new_group window releases groups r :
  grouping window releases groups -> (forall g, last groups = Some g -> ended_before window g [r]) ->
  grouping window (releases ++ [r]) (groups ++ [[r]]).
Proof.
  intros [<- Hs Hm] He. split.
  - by rewrite concat_app.
  - apply Forall_app. split; [done|]. repeat constructor; done.
  - by apply Sorted_snoc.
Qed.

Lemma Sorted_last_change {A} (R : A -> A -> Prop) l x y :
  Sorted R (l ++ [x]) -> (forall a, R a x -> R a y) -> Sorted R (l ++ [y]).
Proof.
  intros Hs HR. apply Sorted_snoc.
  - clear -Hs. induction l as [|z [|w l] IH]; [constructor|by repeat constructor|].
    inversion_clear Hs as [|? ? Ht Hh]. inversion_clear Hh. constructor; [by apply IH|by constructor].
  - intros a Ha. apply HR. clear HR. induction l as [|z [|w l] IH]; [done| |].
    + injection Ha as ->. inversion_clear Hs as [|? ? _ Hh]. by inversion_clear Hh.
    + apply IH; [by inversion_clear Hs|done].
Qed.

Lemma grouping_join window releases closed g r :
  grouping window releases (closed ++ [g]) -> (length g < 3)%nat ->
  (forall a, last g = Some a -> within window a r) ->
  grouping window (releases ++ [r]) (closed ++ [g ++ [r]]).
Proof.
  intros [<- Hs Hm] Hl Hr. apply Forall_app in Hs as [Hs1 Hs2]. apply Forall_singleton in Hs2 as (Hne & _ & Hsort).
  split.
  - rewrite !concat_app. cbn. by rewrite !app_nil_r, app_assoc.
  - apply Forall_app. split; [done|]. apply Forall_singleton. split_and!.
    + by destruct g.
    + rewrite length_app. cbn. lia.
    + by apply Sorted_snoc.
  - eapply Sorted_last_change; [exact Hm|]. intros h [H3|(a & b & Ha & Hb & Hn)]; [by left|right].
    exists a, b. destruct g; [done|]. by split_and!.
Qed.

Lemma tap_tapped window_ms releases p out r now :
  button_multi_tap_ms (bp_settings p) = window_ms -> 0 < window_ms ->
  let window := (Z.of_N window_ms * 1000000)%Z in
  tapped window releases p out ->
  tapped window (releases ++ [r]) (tap r now p).1 (out ++ (tap r now p).2).
Proof.
  intros Hw Hpos. cbv zeta. set (window := (Z.of_N window_ms * 1000000)%Z). unfold tap. rewrite Hw.
  destruct (N.eqb_spec window_ms 0); [lia|]. fold window.
  intros [closed Hg Hp H3 ->|closed g group Hg Hp Ht Hl Hlast ->]; rewrite Hp.
  - cbn. eapply (tapped_open _ _ _ _ closed [r]); [|done|done|cbn; lia|done|by rewrite app_nil_r].
    apply grouping_new_group; [done|]. intros g Hgl. left. by apply H3.
  - assert (Hj : joins window r group = true <-> within window (tg_last_release_ns group) r).
    { unfold joins, within. rewrite andb_true_iff, !Z.leb_le. done. }
    destruct (joins window r group) eqn:Ej.
    + assert (Hg' : grouping window (releases ++ [r]) (closed ++ [g ++ [r]])).
      { apply grouping_join; [done|done|]. rewrite Hlast. intros a [= <-]. by apply Hj. }
      assert (Hlen : length (g ++ [r]) = S (length g)) by (rewrite length_app; cbn; lia).
      destruct (N.leb_spec 3 (tg_taps group + 1)); cbn [fst snd app].
      * eapply tapped_closed; [exact Hg'|done| |].
        -- intros h. rewrite last_snoc. intros [= <-]. lia.
        -- rewrite fmap_app. cbn. unfold group_event. rewrite Hlen. repeat f_equal.
           replace (length g) with 2%nat by lia. done.
      * eapply tapped_open; [exact Hg'|done|cbn; lia|lia|by rewrite last_snoc|by rewrite app_nil_r].
    + unfold flush. rewrite Hp. cbn [fst snd].
      eapply (tapped_open _ _ _ _ (closed ++ [g]) [r]); [|done|done|cbn; lia|done|].
      * apply grouping_new_group; [done|]. intros h. rewrite last_snoc. intros [= <-]. right.
        exists (tg_last_release_ns group), r. split_and!; [done|done|]. by rewrite <- Hj.
      * rewrite fmap_app. cbn. unfold group_event. by rewrite Ht.
Qed.

Lemma taps_tapped window_ms l releases p out :
  button_multi_tap_ms (bp_settings p) = window_ms -> 0 < window_ms -> button_wf p ->
  let window := (Z.of_N window_ms * 1000000)%Z in
  tapped window releases p out ->
  tapped window (releases ++ l.*1) (taps p l).1 (out ++ (taps p l).2).
Proof.
  cbv zeta. revert releases p out. induction l as [|[r now] l IH]; intros releases p out Hw Hpos Hwf Ht; cbn [taps].
  { cbn. by rewrite !app_nil_r. }
  pose proof (tap_spec r now p Hwf) as Hs. pose proof (tap_tapped window_ms releases p out r now Hw Hpos Ht) as Ht'.
  destruct (tap r now p) as [q out']. destruct Hs as (Hq & _ & _ & Hset & _). cbn [fst snd] in Ht'.
  specialize (IH (releases ++ [r]) q (out ++ out') ltac:(by rewrite Hset) Hpos Hq Ht').
  destruct (taps q l) as [q' rest]. cbn [fst snd fmap list_fmap] in *. by rewrite <- !app_assoc in IH.
Qed.

(** With a window set, the events of any taps in a row, the pending group's
    included, are one per group of the one split of the taps into groups: taps
    no further apart than the window on the device's clock belong together, up
    to three, and a group ends only at its third tap, at a tap out of the window
    or with the last tap.  The window compares the device's times alone: when
    the messages arrived does not matter. *)
Theorem taps_are_grouped p l :
  0 < button_multi_tap_ms (bp_settings p) -> bp_group p = None ->
  let window := (Z.of_N (button_multi_tap_ms (bp_settings p)) * 1000000)%Z in
  let '(q, out) := taps p l in
  exists groups, grouping window l.*1 groups /\ out ++ (flush q).2 = group_event <$> groups.
Proof.
  intros Hpos Hp. cbv zeta. set (window := (Z.of_N (button_multi_tap_ms (bp_settings p)) * 1000000)%Z).
  assert (Hwf : button_wf p) by (intros g; by rewrite Hp).
  assert (H0 : tapped window [] p []).
  { eapply (tapped_closed _ _ _ _ []); [split; [done|constructor|constructor]|done|done|done]. }
  pose proof (taps_tapped _ l [] p [] eq_refl Hpos Hwf H0) as Ht. fold window in Ht.
  destruct (taps p l) as [q out]. cbn [fst snd app] in Ht. unfold flush.
  destruct Ht as [closed Hg Hq H3 ->|closed g group Hg Hq Ht Hl Hlast ->]; rewrite Hq; cbn [snd].
  - exists closed. split; [done|]. by rewrite app_nil_r.
  - exists (closed ++ [g]). split; [done|]. rewrite fmap_app. cbn. unfold group_event. by rewrite Ht.
Qed.

Definition sample_button : ButtonPolicy := button_new true (mkButtonSettings true 300).
Lemma taps_are_grouped_witness :
  exists groups, grouping 300000000 [0; 200000000; 900000000; 1000000000; 1100000000; 1200000000]%Z groups /\
    (taps sample_button [(0%Z, 0); (200000000%Z, 0); (900000000%Z, 5); (1000000000%Z, 5);
       (1100000000%Z, 9); (1200000000%Z, 9)]).2 ++ [Bo_Event Be_Single] = group_event <$> groups.
Proof.
  exact (taps_are_grouped sample_button [(0%Z, 0); (200000000%Z, 0); (900000000%Z, 5); (1000000000%Z, 5);
    (1100000000%Z, 9); (1200000000%Z, 9)] eq_refl eq_refl).
Defined.

(** ** Decoding accepts the schema of [button.action] *)
Definition i64_text (text : string) : bool := bool_decide (is_Some (parse_i64 text)).
Definition button_schema : Schema :=
  Sc_Record [
    ("click_type", Required, Sc_Count 65535); ("button", Required, Sc_Text any_text);
    ("mono_ns", Required, Sc_Text i64_text); ("capture_epoch", Optional, Sc_Text u64_text);
    ("capture_sample", Optional, Sc_Text u64_text); ("occurrence_id", Optional, Sc_Text any_text);
    ("handled", Optional, Sc_Text any_text); ("down", Required, Sc_Bool);
    ("held_ms", Required, Sc_Count u64_max); ("muted", Required, Sc_Bool);
    ("physical_seq", Required, Sc_Count u64_max)].

Section decoding.
Context (body : Object) (key : string).
Notation read presence s := (in_record (mkFields body "button.action") key presence s).

Lemma get_uint_accepts : is_ok (get_uint body key) = read Required (Sc_Count u64_max).
Proof.
  unfold get_uint, get, in_record, raw. rewrite is_ok_ok_or. cbn [fd_object].
  destruct (object_get key body) as [v|]; [|done]. cbn [default field_conforms conforms orb from_option id].
  destruct (value_as_u64 v) as [n|] eqn:E; [|done]. symmetry. apply N.leb_le. by eapply value_as_u64_max.
Qed.

Lemma get_bool_accepts : is_ok (get_bool body key) = read Required Sc_Bool.
Proof. unfold get_bool, get, in_record, raw. cbn [fd_object]. by destruct (object_get key body) as [[]|]. Qed.

Lemma nullable_u64_accepts : is_ok (nullable_u64 body key) = read Optional (Sc_Text u64_text).
Proof.
  unfold nullable_u64, get, in_record, raw. cbn [fd_object].
  destruct (object_get key body) as [[| | |t| |]|]; try done.
  cbn [default from_option field_conforms is_null orb conforms id]. unfold u64_text, parse_u64_decimal.
  destruct (String.eqb t ""), (all_digits t); cbn [negb andb orb]; try done.
  by destruct (parse_digits 0 t).
Qed.
End decoding.

(** [button.action] is decoded exactly when it is of its schema; a refusal is
    [malformed_message]; and a decoded message's capture position is there
    exactly when both halves were sent. *)
Theorem button_action_decoded body :
  is_ok (action_parse body) = conforms button_schema (VObject body) /\
  refuses_malformed (action_parse body) /\
  forall a, action_parse body = Ok a ->
    ba_capture a = match nullable_u64 body "capture_epoch", nullable_u64 body "capture_sample" with
                   | Ok (Some epoch), Ok (Some sample) => Some (mkCapturePosition epoch sample)
                   | _, _ => None
                   end /\
    (match ba_capture a with Some at_ => cp_epoch at_ <= u64_max /\ cp_sample at_ <= u64_max | None => True end).
Proof.
  split_and!.
  - unfold action_parse. solve_accepts "button.action"; auto using get_uint_accepts, get_bool_accepts, nullable_u64_accepts.
    + unfold parse_click, get_uint, get, in_record, raw. cbn [fd_object].
      destruct (object_get "click_type" body) as [v|]; [|done]. cbn [default from_option field_conforms conforms orb id].
      destruct (value_as_u64 v) as [n|]; [|done]. cbn [ok_or]. by destruct (n <=? 65535).
    + rewrite is_ok_ok_or. unfold get, in_record, raw. cbn [fd_object]. by destruct (object_get "button" body) as [[]|].
    + unfold parse_mono. rewrite is_ok_ok_or. unfold get, in_record, raw. cbn [fd_object].
      by destruct (object_get "mono_ns" body) as [[]|].
    + unfold parse_occurrence, get, in_record, raw. cbn [fd_object]. by destruct (object_get "occurrence_id" body) as [[]|].
    + unfold parse_handled, get, in_record, raw. cbn [fd_object]. destruct (object_get "handled" body) as [[]|]; try done.
      cbn [default from_option id]. by destruct (String.eqb text "alert_stopped").
  - unfold action_parse, parse_click, parse_mono, parse_occurrence, parse_handled, get_uint, get_bool, nullable_u64.
    assert (Hbad : forall A key rule, refuses_malformed (Err (A:=A) (bad key rule))) by (by intros ? ? ? ? [= <-]).
    assert (Hor : forall A key rule (o : option A), refuses_malformed (ok_or (bad key rule) o))
      by (by intros ? ? ? []; intros ? [= <-]).
    solve_refuses.
  - intros a. unfold action_parse.
    assert (Hmax : forall key n, nullable_u64 body key = Ok (Some n) -> n <= u64_max).
    { intros key n. unfold nullable_u64. destruct (get body key); try done.
      destruct (_ && _); [|done]. destruct (parse_digits 0 text) as [m|] eqn:E; [|done]. intros [= <-].
      by apply parse_digits_spec in E as [_ ?]. }
    repeat match goal with |- (match ?r with _ => _ end) = _ -> _ => destruct r eqn:?; [|done] end.
    intros [= <-]. cbn [ba_capture]. repeat (match goal with |- context [match ?o with _ => _ end] => destruct o end; try done).
    split; [done|]. cbn. eauto.
Qed.
