(* ===== verification/TurnView.v ===== *)
(** * The Echo Show's turn view ([presentation/src/turn_view.rs]) and the voice
    state ([presentation/src/phase.rs])

    The whole view goes out at every change, streamed answers at most ten a
    second; an answer too long for the wire is cut at a word.  A text is its
    list of characters, as elsewhere; where the code counts UTF-8 bytes, so does
    [utf8_bytes].  Times are nanoseconds. *)
From S2P Require Import Prelude Bytes WireEnum Float Ema Vocab Clock Evidence Level Transcript.

(** ** UTF-8 lengths *)
Definition char_bytes (c : Char) : N :=
  if c <? 128 then 1 else if c <? 2048 then 2 else if c <? 65536 then 3 else 4.
Definition utf8_bytes (t : Text) : N := foldr (fun c n => char_bytes c + n) 0 t.

(** [(&text[..at], &text[at..])], when [at] is a character boundary. *)
Fixpoint split_at_byte (at_ : N) (t : Text) : option (Text * Text) :=
  if at_ =? 0 then Some ([], t)
  else
    match t with
    | [] => None
    | c :: t =>
        if char_bytes c <=? at_ then
          '(head, tail) ← split_at_byte (at_ - char_bytes c) t; Some (c :: head, tail)
        else None
    end.

(** [cut] lowered to the boundary at or below it. *)
Fixpoint split_below (cut : nat) (t : Text) : Text * Text :=
  match split_at_byte (N.of_nat cut) t with
  | Some parts => parts
  | None => match cut with O => ([], t) | S cut => split_below cut t end
  end.

Definition MAX_ANSWER_BYTES : N := 16384.
Definition ANSWER_INTERVAL : N := 100000000.
Definition ELLIPSIS : Text := [8230].

Section answer.
Context `{Unicode}.

(** [rfind(char::is_whitespace)]: the text before the last whitespace. *)
Fixpoint before_last_space (t : Text) : option Text :=
  match t with
  | [] => None
  | c :: t =>
      match before_last_space t with
      | Some before => Some (c :: before)
      | None => if is_whitespace c then Some [] else None
      end
  end.

Fixpoint trim_end (t : Text) : Text :=
  match t with
  | [] => []
  | c :: t =>
      match trim_end t with
      | [] => if is_whitespace c then [] else [c]
      | trimmed => c :: trimmed
      end
  end.

Definition bounded_answer (answer : Text) : Text :=
  if utf8_bytes answer <=? MAX_ANSWER_BYTES then answer
  else
    let room := MAX_ANSWER_BYTES - utf8_bytes ELLIPSIS in
    let '(head, tail) := split_below (N.to_nat room) answer in
    let inside_word := match tail with c :: _ => negb (is_whitespace c) | [] => false end in
    let head := match before_last_space head with
                | Some before => if inside_word then before else head
                | None => head
                end in
    trim_end head ++ ELLIPSIS.
End answer.

(** ** The view *)
Inductive ViewPhase := Vp_Listening | Vp_Thinking | Vp_Answering | Vp_Done.
#[export] Instance ViewPhase_eq_dec : EqDecision ViewPhase.
Proof. solve_decision. Defined.

(** [turn_id] is a [Uuid]. *)
Record TurnViewBody := mkTurnViewBody {
  tv_turn_id : N;
  tv_phase : ViewPhase;
  tv_heard : option Text;
  tv_answer : option Text;
  tv_is_final : bool;
  tv_follow_up : bool;
}.

Inductive ViewEnd :=
  | Ve_Completed (follow_up : bool)
  | Ve_Abandoned.

Record TurnView := mkTurnView {
  vw_capable : bool;
  vw_view : option TurnViewBody;
  vw_last_answer_sent : option N;
  vw_held : bool;
}.

Definition turn_view_new (capabilities : Capabilities) : TurnView :=
  mkTurnView (capabilities_contains capabilities Cap_TurnView) None None false.

Definition send (v : TurnView) : option TurnViewBody := if vw_capable v then vw_view v else None.

Definition set_view (view : TurnViewBody) (v : TurnView) : TurnView :=
  mkTurnView (vw_capable v) (Some view) (vw_last_answer_sent v) (vw_held v).
Definition set_held (held : bool) (v : TurnView) : TurnView :=
  mkTurnView (vw_capable v) (vw_view v) (vw_last_answer_sent v) held.
Definition sent_answer (now : N) (v : TurnView) : TurnView :=
  mkTurnView (vw_capable v) (vw_view v) (Some now) false.

Definition listening (turn_id : N) (v : TurnView) : TurnView * option TurnViewBody :=
  let v := mkTurnView (vw_capable v) (Some (mkTurnViewBody turn_id Vp_Listening None None false false)) None false in
  (v, send v).

Definition thinking (heard : Text) (v : TurnView) : TurnView * option TurnViewBody :=
  match vw_view v with
  | None => (v, None)
  | Some view =>
      let v := set_view (mkTurnViewBody (tv_turn_id view) Vp_Thinking (Some heard) (tv_answer view)
                           (tv_is_final view) (tv_follow_up view)) v in
      (v, send v)
  end.

Definition answer_so_far `{Unicode} (answer : Text) (now : N) (v : TurnView) : TurnView * option TurnViewBody :=
  match vw_view v with
  | None => (v, None)
  | Some view =>
      if tv_is_final view || bool_decide (tv_phase view = Vp_Done) then (v, None)
      else
        let v := set_view (mkTurnViewBody (tv_turn_id view) Vp_Answering (tv_heard view)
                             (Some (bounded_answer answer)) (tv_is_final view) (tv_follow_up view)) v in
        if match vw_last_answer_sent v with Some at_ => now <? at_ + ANSWER_INTERVAL | None => false end
        then (set_held true v, None)
        else let v := sent_answer now v in (v, send v)
  end.

Definition final_answer `{Unicode} (answer : Text) (v : TurnView) : TurnView * option TurnViewBody :=
  match vw_view v with
  | None => (v, None)
  | Some view =>
      if bool_decide (tv_phase view = Vp_Done) then (v, None)
      else
        let v := set_held false (set_view (mkTurnViewBody (tv_turn_id view) Vp_Answering (tv_heard view)
                   (Some (bounded_answer answer)) true (tv_follow_up view)) v) in
        (v, send v)
  end.

Definition done_view (e : ViewEnd) (view : TurnViewBody) : TurnViewBody :=
  match e with
  | Ve_Completed follow_up =>
      mkTurnViewBody (tv_turn_id view) Vp_Done (tv_heard view) (tv_answer view) (tv_is_final view) follow_up
  | Ve_Abandoned => mkTurnViewBody (tv_turn_id view) Vp_Done (tv_heard view) None false false
  end.

Definition view_done (e : ViewEnd) (v : TurnView) : TurnView * option TurnViewBody :=
  match vw_view v with
  | None => (v, None)
  | Some view =>
      if bool_decide (tv_phase view = Vp_Done) then (v, None)
      else let v := set_held false (set_view (done_view e view) v) in (v, send v)
  end.

Definition view_next_deadline (v : TurnView) : option N :=
  if vw_held v then (fun at_ => at_ + ANSWER_INTERVAL) <$> vw_last_answer_sent v else None.

Definition view_on_timer (now : N) (v : TurnView) : TurnView * option TurnViewBody :=
  let due := match view_next_deadline v with Some at_ => at_ <=? now | None => false end in
  if negb due then (v, None)
  else let v := sent_answer now v in (v, send v).

Definition view_session_lost (v : TurnView) : TurnView := mkTurnView (vw_capable v) None None false.

(** ** The voice state *)
Inductive ActorState :=
  | As_Idle | As_Armed | As_Listening | As_EndPending | As_Committed | As_Thinking | As_Speaking | As_Closing.
Inductive Phase := Ph_Idle | Ph_Listening | Ph_Thinking | Ph_Speaking.
#[export] Instance Phase_eq_dec : EqDecision Phase.
Proof. solve_decision. Defined.
Inductive VoiceState := Vs_Idle | Vs_Listening | Vs_Thinking | Vs_Speaking.
#[export] Instance VoiceState_eq_dec : EqDecision VoiceState.
Proof. solve_decision. Defined.

Definition actor_phase (s : ActorState) : Phase :=
  match s with
  | As_Idle | As_Closing => Ph_Idle
  | As_Armed | As_Listening | As_EndPending => Ph_Listening
  | As_Committed | As_Thinking => Ph_Thinking
  | As_Speaking => Ph_Speaking
  end.

Definition voice_state (p : Phase) : VoiceState :=
  match p with
  | Ph_Idle => Vs_Idle
  | Ph_Listening => Vs_Listening
  | Ph_Thinking => Vs_Thinking
  | Ph_Speaking => Vs_Speaking
  end.

Definition VoiceStateProjection : Type := option (option VoiceState).

Definition projection_update (state : option ActorState) (shown : VoiceStateProjection) :
    VoiceStateProjection * option (option VoiceState) :=
  let value := (fun s => voice_state (actor_phase s)) <$> state in
  if bool_decide (shown = Some value) then (shown, None) else (Some value, Some value).

(** ** The cut *)
Lemma char_bytes_pos c : 1 <= char_bytes c <= 4.
Proof. unfold char_bytes. repeat case_match; lia. Qed.

Lemma utf8_bytes_app a b : utf8_bytes (a ++ b) = utf8_bytes a + utf8_bytes b.
Proof. unfold utf8_bytes. induction a as [|c a IH]; cbn; lia. Qed.

Lemma split_at_byte_Some at_ t head tail :
  split_at_byte at_ t = Some (head, tail) <-> t = head ++ tail /\ utf8_bytes head = at_.
Proof.
  revert at_ head tail. induction t as [|c t IH]; intros at_ head tail; cbn.
  - destruct (N.eqb_spec at_ 0) as [->|Hne].
    + split; [by intros [= <- <-]|]. intros [E _]. symmetry in E. by apply app_nil in E as [-> ->].
    + split; [done|]. intros [E <-]. symmetry in E. apply app_nil in E as [-> _]. done.
  - pose proof (char_bytes_pos c). destruct (N.eqb_spec at_ 0) as [->|Hne].
    + split; [by intros [= <- <-]|]. intros [E Hb]. destruct head as [|d head]; cbn in *; [by simplify_eq|].
      pose proof (char_bytes_pos d). lia.
    + destruct (N.leb_spec (char_bytes c) at_); cbn.
      * destruct (split_at_byte (at_ - char_bytes c) t) as [[h tl]|] eqn:E; cbn.
        -- apply IH in E as [-> Hh]. split.
           ++ intros [= <- <-]. cbn. split; [done|]. fold (utf8_bytes h). lia.
           ++ intros [Ea Hb]. destruct head as [|d head]; cbn in *; [lia|]. injection Ea as -> Ea.
              fold (utf8_bytes head) in Hb.
              assert (Hs : split_at_byte (at_ - char_bytes d) (h ++ tl) = Some (head, tail)) by (apply IH; split; [done|lia]).
              assert (Hs' : split_at_byte (at_ - char_bytes d) (h ++ tl) = Some (h, tl)) by (apply IH; split; [done|lia]).
              rewrite Hs in Hs'. by injection Hs' as -> ->.
        -- split; [done|]. intros [Ea Hb]. destruct head as [|d head]; cbn in *; [lia|]. injection Ea as -> Ea.
           fold (utf8_bytes head) in Hb.
           assert (Hs : split_at_byte (at_ - char_bytes d) t = Some (head, tail)) by (apply IH; split; [done|lia]).
           congruence.
      * split; [done|]. intros [Ea Hb]. destruct head as [|d head]; cbn in *; [lia|]. injection Ea as -> Ea. lia.
Qed.

(** The cut is the longest prefix of at most [cut] bytes. *)
Lemma split_below_spec cut t :
  let '(head, tail) := split_below cut t in
  t = head ++ tail /\ utf8_bytes head <= N.of_nat cut /\
  forall p q, t = p ++ q -> utf8_bytes p <= N.of_nat cut -> (length p <= length head)%nat.
Proof.
  induction cut as [|cut IH]; cbn [split_below].
  - assert (E0 : split_at_byte (N.of_nat 0) t = Some ([], t)) by (apply split_at_byte_Some; done).
    rewrite E0. split_and!; [done|cbn; lia|].
    intros [|c p] q _ Hp; cbn in *; [lia|]. pose proof (char_bytes_pos c). lia.
  - destruct (split_at_byte (N.of_nat (S cut)) t) as [[head tail]|] eqn:E.
    + apply split_at_byte_Some in E as [-> Hh]. split_and!; [done|lia|]. intros p q Epq Hp.
      destruct (decide (length p <= length head)%nat) as [|Hn]; [done|]. exfalso.
      assert (Hpre : p = head ++ drop (length head) p).
      { rewrite <- (take_drop (length head) p) at 1. f_equal.
        apply (f_equal (take (length head))) in Epq. rewrite take_app_length, take_app_le in Epq by lia. done. }
      assert (Hne : drop (length head) p <> []) by (intros E; apply (f_equal length) in E; rewrite length_drop in E; cbn in E; lia).
      rewrite Hpre, utf8_bytes_app in Hp. destruct (drop (length head) p) as [|c r]; [done|].
      cbn in Hp. pose proof (char_bytes_pos c). lia.
    + destruct (split_below cut t) as [head tail]. destruct IH as (Ht & Hh & Hmax).
      split_and!; [done|lia|]. intros p q Epq Hp. apply (Hmax p q Epq).
      destruct (decide (utf8_bytes p = N.of_nat (S cut))) as [Ep|]; [|lia].
      assert (Hs : split_at_byte (N.of_nat (S cut)) t = Some (p, q)) by by apply split_at_byte_Some. congruence.
Qed.

Section answer.
Context `{Unicode}.

Definition ends_in_space (t : Text) : bool :=
  match last t with Some c => is_whitespace c | None => false end.
Definition starts_with_space (t : Text) : bool :=
  match t with c :: _ => is_whitespace c | [] => false end.

Lemma before_last_space_spec t :
  match before_last_space t with
  | Some before => exists c rest, t = before ++ c :: rest /\ is_whitespace c = true /\
                     Forall (fun d => is_whitespace d = false) rest
  | None => Forall (fun d => is_whitespace d = false) t
  end.
Proof.
  induction t as [|c t IH]; cbn; [done|]. destruct (before_last_space t) as [before|].
  - destruct IH as (d & rest & -> & Hd & Hr). by exists d, rest.
  - destruct (is_whitespace c) eqn:E; [by exists c, t|by constructor].
Qed.

Lemma trim_end_spec t :
  exists w, t = trim_end t ++ w /\ Forall (fun c => is_whitespace c = true) w /\ ends_in_space (trim_end t) = false.
Proof.
  induction t as [|c t (w & Ht & Hw & He)]; cbn; [by exists []|].
  destruct (trim_end t) as [|d r] eqn:E.
  - destruct (is_whitespace c) eqn:Ec.
    + exists (c :: t). split_and!; [done| |done]. constructor; [done|]. by rewrite Ht.
    + exists t. split_and!; [done|by rewrite Ht|by unfold ends_in_space].
  - exists w. split_and!; [by rewrite Ht at 1|done|]. exact He.
Qed.

(** A prefix that ends in a word survives the trim. *)
Lemma trim_end_keeps t p q :
  t = p ++ q -> p <> [] -> ends_in_space p = false -> (length p <= length (trim_end t))%nat.
Proof.
  intros Ep Hne He. destruct (trim_end_spec t) as (w & Ht & Hw & _).
  destruct (decide (length p <= length (trim_end t))%nat) as [|Hn]; [done|]. exfalso.
  assert (Hlast : exists c, last p = Some c /\ c ∈ w).
  { destruct (last p) as [c|] eqn:El; [|by apply last_None in El]. exists c. split; [done|].
    apply last_Some in El as [p' ->]. rewrite length_app in Hn. cbn in Hn.
    assert (Hat : t !! length p' = Some c) by (rewrite Ep, <- app_assoc; by apply list_lookup_middle).
    rewrite Ht, lookup_app_r in Hat by lia. by eapply list_elem_of_lookup_2. }
  destruct Hlast as (c & Hc & Hin). unfold ends_in_space in He. rewrite Hc in He.
  rewrite Forall_forall in Hw. by rewrite Hw in He.
Qed.
End answer.

Section bounded.
Context `{Unicode}.

(** What the cut promises of [answer], [a] being the result: it is whole when it
    fits; otherwise a prefix with the ellipsis, within the bound, which ends at
    the end of a word, and no shorter than any other prefix that does. *)
Definition word_end (answer p : Text) : Prop :=
  ends_in_space p = false /\ exists q, answer = p ++ q /\ (q = [] \/ starts_with_space q = true).

Lemma before_last_space_maximal head before p rest :
  before_last_space head = Some before -> head = p ++ rest -> starts_with_space rest = true ->
  (length p <= length before)%nat.
Proof.
  intros Hb -> Hs. pose proof (before_last_space_spec (p ++ rest)) as Hspec. rewrite Hb in Hspec.
  destruct Hspec as (c & r & E & Hc & Hr). destruct (decide (length p <= length before)%nat) as [|Hn]; [done|]. exfalso.
  destruct rest as [|d rest]; [done|]. cbn in Hs.
  assert (Hd : (before ++ c :: r) !! length p = Some d) by (rewrite <- E; by apply list_lookup_middle).
  rewrite lookup_app_r, lookup_cons_ne_0 in Hd by lia.
  apply list_elem_of_lookup_2 in Hd. rewrite Forall_forall in Hr. apply Hr in Hd. congruence.
Qed.

Lemma starts_with_space_prefix p q x y :
  p ++ q = x ++ y -> (length p < length x)%nat -> q = [] \/ starts_with_space q = true ->
  exists r, x = p ++ r /\ starts_with_space r = true.
Proof.
  intros E Hl Hq. exists (drop (length p) x).
  assert (Hx : x = p ++ drop (length p) x).
  { rewrite <- (take_drop (length p) x) at 1. f_equal.
    apply (f_equal (take (length p))) in E. by rewrite take_app_length, take_app_le in E by lia. }
  split; [done|]. rewrite Hx, <- app_assoc in E. apply app_inv_head in E.
  destruct (drop (length p) x) as [|c r] eqn:Ed.
  { apply (f_equal length) in Ed. rewrite length_drop in Ed. cbn in Ed. lia. }
  cbn in E. subst q. destruct Hq as [|Hq]; [done|]. exact Hq.
Qed.

Lemma bounded_answer_spec answer :
  let a := bounded_answer answer in
  utf8_bytes a <= MAX_ANSWER_BYTES /\
  (utf8_bytes answer <= MAX_ANSWER_BYTES -> a = answer) /\
  (MAX_ANSWER_BYTES < utf8_bytes answer ->
   exists head, a = head ++ ELLIPSIS /\ ends_in_space head = false /\ head `prefix_of` answer /\
     forall p, word_end answer p -> utf8_bytes p + 3 <= MAX_ANSWER_BYTES -> (length p <= length head)%nat).
Proof.
  unfold bounded_answer. destruct (N.leb_spec (utf8_bytes answer) MAX_ANSWER_BYTES) as [Hle|Hgt].
  { split_and!; [done|done|]. intros. lia. }
  cbn zeta. pose proof (split_below_spec (N.to_nat (MAX_ANSWER_BYTES - utf8_bytes ELLIPSIS)) answer) as Hsplit.
  destruct (split_below _ answer) as [head tail]. destruct Hsplit as (Ha & Hb & Hmax).
  change (utf8_bytes ELLIPSIS) with 3 in Hb, Hmax. rewrite N2Nat.id in Hb, Hmax.
  set (kept := match before_last_space head with Some before =>
    if match tail with c :: _ => negb (is_whitespace c) | [] => false end then before else head | None => head end).
  assert (Hkept : kept `prefix_of` head /\ forall p, word_end answer p -> utf8_bytes p + 3 <= MAX_ANSWER_BYTES ->
                    p `prefix_of` kept).
  { assert (Hw : forall p, word_end answer p -> utf8_bytes p + 3 <= MAX_ANSWER_BYTES -> p `prefix_of` head).
    { intros p (_ & q & Eq & _) Hp. specialize (Hmax p q Eq ltac:(lia)).
      exists (drop (length p) head). rewrite <- (take_drop (length p) head) at 1. f_equal.
      rewrite Ha in Eq. apply (f_equal (take (length p))) in Eq.
      by rewrite take_app_length, take_app_le in Eq by lia. }
    subst kept. destruct (before_last_space head) as [before|] eqn:Eb; [|done].
    destruct tail as [|c tail]; [done|]. destruct (is_whitespace c) eqn:Ec; cbn; [done|].
    pose proof (before_last_space_spec head) as Hs. rewrite Eb in Hs. destruct Hs as (d & r & Eh & Hd & Hr).
    split; [by exists (d :: r)|]. intros p Hp Hpb. destruct (Hw p Hp Hpb) as [x Ex].
    destruct Hp as (Hpe & q & Eq & Hq).
    assert (Hlt : (length p < length head)%nat).
    { rewrite Ex, length_app. destruct x as [|e x]; [|cbn; lia]. rewrite app_nil_r in Ex. subst p.
      rewrite Ha in Eq. apply app_inv_head in Eq. subst q. destruct Hq as [|Hq]; [done|]. cbn in Hq. congruence. }
    destruct (starts_with_space_prefix p q head (c :: tail)) as (y & Ey & Hy); [congruence|done|done|].
    pose proof (before_last_space_maximal head before p y Eb Ey Hy) as Hpl.
    exists (drop (length p) before). rewrite <- (take_drop (length p) before) at 1. f_equal.
    rewrite Eh in Ey. apply (f_equal (take (length p))) in Ey. by rewrite take_app_length, take_app_le in Ey by lia. }
  clearbody kept. destruct Hkept as [[r Hr] Hk]. destruct (trim_end_spec kept) as (w & Hw & _ & He).
  split_and!.
  - rewrite utf8_bytes_app. change (utf8_bytes ELLIPSIS) with 3.
    rewrite Hr, Hw, !utf8_bytes_app in Hb. unfold MAX_ANSWER_BYTES in *. lia.
  - lia.
  - intros _. exists (trim_end kept). split_and!; [done|done| |].
    + exists (w ++ r ++ tail). rewrite Ha, Hr. rewrite Hw at 1. by rewrite <- !app_assoc.
    + intros p Hp Hpb. destruct (Hk p Hp Hpb) as [x Ex]. destruct (decide (p = [])) as [->|Hne]; [cbn; lia|].
      apply (trim_end_keeps kept p x Ex Hne). by destruct Hp.
Qed.
End bounded.

(** ** Runs of the view *)
Inductive ViewInput :=
  | Vi_Listening (turn_id : N)
  | Vi_Thinking (heard : Text)
  | Vi_AnswerSoFar (answer : Text) (now : N)
  | Vi_FinalAnswer (answer : Text)
  | Vi_Done (e : ViewEnd)
  | Vi_Timer (now : N)
  | Vi_SessionLost.

Section runs.
Context `{Unicode}.

Definition view_step (i : ViewInput) (v : TurnView) : TurnView * option TurnViewBody :=
  match i with
  | Vi_Listening id => listening id v
  | Vi_Thinking heard => thinking heard v
  | Vi_AnswerSoFar answer now => answer_so_far answer now v
  | Vi_FinalAnswer answer => final_answer answer v
  | Vi_Done e => view_done e v
  | Vi_Timer now => view_on_timer now v
  | Vi_SessionLost => (view_session_lost v, None)
  end.

(** The bodies sent, each with the input that sent it. *)
Fixpoint view_run (inputs : list ViewInput) (v : TurnView) : TurnView * list (ViewInput * TurnViewBody) :=
  match inputs with
  | [] => (v, [])
  | i :: inputs =>
      let '(v, body) := view_step i v in
      let '(v, sent) := view_run inputs v in
      (v, match body with Some b => (i, b) :: sent | None => sent end)
  end.

(** The times of the streamed updates among [sent]. *)
Definition streamed_at (s : ViewInput * TurnViewBody) : option N :=
  match s.1 with Vi_AnswerSoFar _ now | Vi_Timer now => Some now | _ => None end.
Definition streamed (sent : list (ViewInput * TurnViewBody)) : list N := omap streamed_at sent.

Fixpoint apart (times : list N) : Prop :=
  match times with
  | a :: ((b :: _) as rest) => a + ANSWER_INTERVAL <= b /\ apart rest
  | _ => True
  end.

(** Not the start of another view. *)
Definition keeps_view (i : ViewInput) : bool :=
  match i with Vi_Listening _ | Vi_SessionLost => false | _ => true end.

(** What the device shows against the view: the same turn, at most an answer update behind. *)
Definition behind (shown view : TurnViewBody) : Prop :=
  tv_turn_id shown = tv_turn_id view /\ tv_heard shown = tv_heard view /\
  tv_is_final shown = tv_is_final view /\ tv_follow_up shown = tv_follow_up view.

Definition view_ok (v : TurnView) (shown : option TurnViewBody) : Prop :=
  (vw_held v = true ->
     (exists at_, vw_last_answer_sent v = Some at_) /\
     exists w, vw_view v = Some w /\ tv_phase w <> Vp_Done /\ tv_is_final w = false) /\
  (vw_capable v = true ->
     forall w, vw_view v = Some w ->
       exists s, shown = Some s /\ behind s w /\ (vw_held v = false -> s = w)).

Lemma behind_refl w : behind w w.
Proof. done. Qed.

Lemma view_step_capable i v : vw_capable (view_step i v).1 = vw_capable v.
Proof.
  destruct i; cbn; try done; unfold thinking, answer_so_far, final_answer, view_done, view_on_timer;
    repeat case_match; done.
Qed.

Definition newest (body shown : option TurnViewBody) : option TurnViewBody :=
  match body with Some b => Some b | None => shown end.

Lemma view_step_ok i v shown :
  view_ok v shown -> view_ok (view_step i v).1 (newest (view_step i v).2 shown).
Proof.
  intros [Hheld Hshown]. destruct v as [capable view sent held]. cbn in Hheld, Hshown.
  destruct i as [id|heard|answer now|answer|e|now|]; cbn.
  - split; cbn; [done|]. intros -> w [= <-]. eexists. split_and!; [done|done|done].
  - unfold thinking; cbn. destruct view as [w|]; cbn; [|done]. split; cbn.
    + intros Hh. destruct (Hheld Hh) as (Ha & w' & [= <-] & Hp & Hf). split; [done|]. eexists. split; [done|]. done.
    + intros -> w' [= <-]. eexists. split_and!; [done|done|done].
  - unfold answer_so_far; cbn. destruct view as [w|]; cbn; [|done].
    destruct (tv_is_final w) eqn:Ef; cbn; [done|]. destruct (bool_decide _) eqn:Ed; [done|].
    destruct (match sent with Some a => _ | None => false end) eqn:Eg; cbn; split; cbn.
    + intros _. destruct sent as [a|]; [|done]. split; [by eexists|]. eexists. done.
    + intros Hc w' [= <-]. destruct (Hshown Hc w eq_refl) as (s & -> & Hb & _).
      exists s. split_and!; [done|by destruct Hb as (? & ? & ? & ?); repeat split; cbn; congruence|done].
    + done.
    + intros -> w' [= <-]. eexists. split_and!; [done|done|done].
  - unfold final_answer; cbn. destruct view as [w|]; cbn; [|done]. destruct (bool_decide _); [done|].
    split; cbn; [done|]. intros -> w' [= <-]. eexists. split_and!; [done|done|done].
  - unfold view_done; cbn. destruct view as [w|]; cbn; [|done]. destruct (bool_decide _); [done|].
    split; cbn; [done|]. intros -> w' [= <-]. eexists. split_and!; [done|done|done].
  - unfold view_on_timer; cbn. destruct (match view_next_deadline _ with Some a => _ | None => false end); cbn; [|done].
    split; cbn; [done|]. intros -> w' ->. eexists. split_and!; [done|done|done].
  - split; cbn; [done|]. intros _ w. done.
Qed.

Lemma view_run_snoc inputs i v :
  view_run (inputs ++ [i]) v =
  ((view_step i (view_run inputs v).1).1,
   (view_run inputs v).2 ++ match (view_step i (view_run inputs v).1).2 with Some b => [(i, b)] | None => [] end).
Proof.
  revert v. induction inputs as [|j inputs IH]; intros v; cbn.
  - by destruct (view_step i v) as [v' [b|]].
  - destruct (view_step j v) as [v' b]. rewrite IH. destruct (view_run inputs v') as [v'' sent]. cbn.
    by destruct b.
Qed.

Lemma view_run_ok inputs v :
  view_ok v None -> let '(v', sent) := view_run inputs v in view_ok v' (snd <$> last sent) /\ vw_capable v' = vw_capable v.
Proof.
  intros Hv. induction inputs as [|i inputs IH] using rev_ind; [done|].
  rewrite view_run_snoc. destruct (view_run inputs v) as [v' sent]. cbn in *. destruct IH as [IH Hc].
  split; [|by rewrite view_step_capable].
  pose proof (view_step_ok i v' _ IH) as Hs. destruct ((view_step i v').2) as [b|]; cbn in *.
  - by rewrite last_snoc.
  - by rewrite app_nil_r.
Qed.

Definition input_time (i : ViewInput) : option N :=
  match i with Vi_AnswerSoFar _ now | Vi_Timer now => Some now | _ => None end.
Definition gap (since : option N) (now : N) : Prop :=
  match since with Some a => a + ANSWER_INTERVAL <= now | None => True end.

(** A step either leaves the streaming clock alone and streams nothing, or moves it
    to a time [ANSWER_INTERVAL] after the last. *)
Lemma view_step_clock i v :
  keeps_view i = true ->
  let '(v', body) := view_step i v in
  (vw_last_answer_sent v' = vw_last_answer_sent v /\ (body = None \/ input_time i = None)) \/
  exists now, input_time i = Some now /\ vw_last_answer_sent v' = Some now /\ gap (vw_last_answer_sent v) now.
Proof.
  destruct i as [id|heard|answer now|answer|e|now|]; try done; intros _; cbn.
  - unfold thinking. destruct (vw_view v); cbn; left; auto.
  - unfold answer_so_far. destruct (vw_view v); [|by left; auto]. destruct (_ || _); [by left; auto|].
    cbn. destruct (match vw_last_answer_sent v with Some a => _ | None => false end) eqn:Eg; [by left; auto|].
    right. exists now. split_and!; [done|done|]. destruct (vw_last_answer_sent v); [by apply N.ltb_ge|done].
  - unfold final_answer. destruct (vw_view v); [|by left; auto]. destruct (bool_decide _); left; auto.
  - unfold view_done. destruct (vw_view v); [|by left; auto]. destruct (bool_decide _); left; auto.
  - unfold view_on_timer, view_next_deadline.
    destruct (vw_held v); cbn; [|by left; auto]. destruct (vw_last_answer_sent v) as [a|] eqn:Ea; cbn; [|by left; auto].
    destruct (N.leb_spec (a + ANSWER_INTERVAL) now); cbn; [|by left; rewrite Ea; auto].
    right. exists now. auto.
Qed.

Lemma apart_drop since now l :
  gap since now -> apart (now :: l) -> apart (option_list since ++ l) /\ apart (option_list since ++ now :: l).
Proof.
  destruct since as [a|]; cbn.
  2: { intros _ Ha. split; [|done]. destruct l as [|b l]; [done|by destruct Ha]. }
  intros Hg Ha. split; [|by split]. destruct l as [|b l]; [done|]. destruct Ha as [Hb Ha]. split; [lia|done].
Qed.

(** Streamed updates within one view are [ANSWER_INTERVAL] apart, the last one
    sent before them included. *)
Lemma view_run_apart inputs v :
  forallb keeps_view inputs = true ->
  apart (option_list (vw_last_answer_sent v) ++ streamed (view_run inputs v).2).
Proof.
  revert v. induction inputs as [|i inputs IH]; intros v; cbn.
  { intros _. by destruct (vw_last_answer_sent v). }
  intros [Hi Hs]%andb_true_iff. pose proof (view_step_clock i v Hi) as Hc.
  destruct (view_step i v) as [v' body]. specialize (IH v' Hs). destruct (view_run inputs v') as [v2 sent]. cbn in IH.
  assert (Hst : forall b, streamed ((i, b) :: sent) = match input_time i with Some t => t :: streamed sent | None => streamed sent end)
    by (intros b; by destruct i).
  destruct Hc as [[Ek Hq]|(now & Ei & Ek & Hg)].
  - rewrite Ek in IH. destruct body as [b|]; cbn [snd]; [|done]. rewrite Hst. destruct Hq as [Hq| ->]; done.
  - rewrite Ek in IH. cbn in IH. destruct (apart_drop _ now _ Hg IH).
    destruct body as [b|]; cbn [snd]; [|done]. by rewrite Hst, Ei.
Qed.

(** A finished view says nothing more until a turn starts or is dispatched. *)
Lemma view_finished_quiet i v w :
  view_ok v None \/ vw_held v = false -> vw_view v = Some w -> tv_phase w = Vp_Done ->
  match i with Vi_Listening _ | Vi_Thinking _ | Vi_SessionLost => True | _ => view_step i v = (v, None) end.
Proof.
  intros Hok Hv Hp.
  assert (Hh : vw_held v = false).
  { destruct Hok as [[Hok _]|]; [|done]. destruct (vw_held v); [|done].
    destruct (Hok eq_refl) as (_ & w' & Hw & Hne & _). congruence. }
  destruct i as [id|heard|answer now|answer|e|now|]; cbn; try done.
  - unfold answer_so_far. rewrite Hv, Hp. by destruct (tv_is_final w).
  - unfold final_answer. by rewrite Hv, Hp.
  - unfold view_done. by rewrite Hv, Hp.
  - unfold view_on_timer, view_next_deadline. by rewrite Hh.
Qed.

(** A device without the capability is sent nothing. One with it shows the
    turn's view exactly after every input, or is one answer update behind; then a
    deadline is pending, at which the timer sends the view, and before which it
    sends nothing. Within a view the streamed updates, those of the timer
    included, are at least [ANSWER_INTERVAL] apart. *)
Theorem turn_view_contract capabilities before after :
  forallb keeps_view after = true ->
  let '(v0, sent0) := view_run before (turn_view_new capabilities) in
  let '(v, sent1) := view_run after v0 in
  let sent := sent0 ++ sent1 in
  (capabilities_contains capabilities Cap_TurnView = false -> sent = []) /\
  apart (streamed sent1) /\
  (capabilities_contains capabilities Cap_TurnView = true ->
   forall w, vw_view v = Some w ->
     exists s, last sent.*2 = Some s /\ behind s w /\
       (vw_held v = false -> s = w /\ view_next_deadline v = None) /\
       (vw_held v = true ->
          tv_phase w <> Vp_Done /\ tv_is_final w = false /\
          exists at_, view_next_deadline v = Some at_ /\
            forall now, (view_on_timer now v).2 = if at_ <=? now then Some w else None)).
Proof.
  intros Hk.
  assert (Hquiet : forall inputs v, vw_capable v = false -> (view_run inputs v).2 = []).
  { induction inputs as [|i inputs IH]; intros v Hv; cbn; [done|].
    pose proof (view_step_capable i v) as Hc.
    assert (Hn : (view_step i v).2 = None).
    { destruct i; cbn; unfold thinking, answer_so_far, final_answer, view_done, view_on_timer, send;
        repeat case_match; cbn in *; congruence. }
    destruct (view_step i v) as [v' b]. cbn in Hc, Hn. subst b. specialize (IH v' ltac:(congruence)).
    by destruct (view_run inputs v'). }
  assert (Happ : forall a b v, view_run (a ++ b) v =
            ((view_run b (view_run a v).1).1, (view_run a v).2 ++ (view_run b (view_run a v).1).2)).
  { induction a as [|i a IH]; intros b v; cbn; [by destruct (view_run b v)|].
    destruct (view_step i v) as [v' body]. rewrite IH. destruct (view_run a v') as [v'' s]. cbn. by destruct body. }
  pose proof (view_run_ok (before ++ after) (turn_view_new capabilities)) as Hok.
  pose proof (Hquiet (before ++ after) (turn_view_new capabilities)) as Hnone.
  pose proof (Happ before after (turn_view_new capabilities)) as Ha. rewrite Ha in Hok, Hnone. clear Ha Happ Hquiet.
  pose proof (view_run_apart after (view_run before (turn_view_new capabilities)).1 Hk) as Hap.
  destruct (view_run before (turn_view_new capabilities)) as [v0 sent0]. cbn [fst snd] in Hok, Hnone, Hap.
  destruct (view_run after v0) as [v sent1]. cbn [fst snd] in Hok, Hnone, Hap.
  destruct Hok as [[Hheld Hshown] Hcap]. { split; cbn; done. } cbn in Hcap, Hnone.
  split_and!; [done| |].
  - destruct (vw_last_answer_sent v0) as [a|]; [|done]. cbn [option_list app] in Hap.
    destruct (streamed sent1); [done|]. by destruct Hap.
  - intros Hc w Hw. destruct (Hshown ltac:(congruence) w Hw) as (s & Hs & Hb & Heq).
    exists s. rewrite <- fmap_last in Hs. split_and!; [exact Hs|done| |].
    + intros Hh. split; [auto|]. unfold view_next_deadline. by rewrite Hh.
    + intros Hh. destruct (Hheld Hh) as ((a & Ea) & w' & Hw' & Hp & Hf). rewrite Hw in Hw'. injection Hw' as <-.
      split_and!; [done|done|]. exists (a + ANSWER_INTERVAL).
      unfold view_on_timer, view_next_deadline. rewrite Hh, Ea. cbn. split; [done|]. intros now.
      destruct (_ <=? now); cbn; [|done]. unfold send; cbn. by rewrite Hcap, Hc.
Qed.
End runs.

(** ** The voice state *)
Definition sensor (state : option ActorState) : option VoiceState := (fun s => voice_state (actor_phase s)) <$> state.

Fixpoint reports (states : list (option ActorState)) (shown : VoiceStateProjection) : list (option VoiceState) :=
  match states with
  | [] => []
  | s :: states =>
      let '(shown, report) := projection_update s shown in
      option_list report ++ reports states shown
  end.

(** [l] without the elements equal to the one before, [prev] standing before the first. *)
Fixpoint changes {A} `{EqDecision A} (prev : option A) (l : list A) : list A :=
  match l with
  | [] => []
  | a :: l => if bool_decide (prev = Some a) then changes prev l else a :: changes (Some a) l
  end.

(** The sensor reports each change once: what it shows is always the value of the
    last state, and the reports are the values with repetitions removed. *)
Lemma reports_are_changes states shown : reports states shown = changes shown (sensor <$> states).
Proof.
  revert shown. induction states as [|s states IH]; intros shown; [done|].
  cbn -[sensor bool_decide]. unfold projection_update. fold (sensor s).
  repeat case_bool_decide; cbn -[sensor bool_decide]; try congruence; rewrite IH; done.
Qed.

(** What a device shows for an answer is the answer when it fits in
    [MAX_ANSWER_BYTES]; otherwise a prefix of it that does not end in white space,
    followed by "…", of at most [MAX_ANSWER_BYTES] bytes in all, and no prefix that
    ends at a word's end and fits beside the "…" is longer. *)
Theorem bounded_answer_contract `{Unicode} answer :
  let a := bounded_answer answer in
  utf8_bytes a <= MAX_ANSWER_BYTES /\
  (utf8_bytes answer <= MAX_ANSWER_BYTES -> a = answer) /\
  (MAX_ANSWER_BYTES < utf8_bytes answer ->
   exists head, a = head ++ ELLIPSIS /\ ends_in_space head = false /\ head `prefix_of` answer /\
     forall p, word_end answer p -> utf8_bytes p + utf8_bytes ELLIPSIS <= MAX_ANSWER_BYTES ->
       (length p <= length head)%nat).
Proof. exact (bounded_answer_spec answer). Qed.

Lemma turn_view_contract_witness :
  let opened := (@view_run ascii [Vi_Listening 1] (turn_view_new (from_names ["turn_view_v1"]))).1 in
  let inputs := [Vi_Thinking [104]; Vi_AnswerSoFar [89] 5; Vi_AnswerSoFar [89; 101] 7; Vi_Timer 100000005] in
  let sent := (@view_run ascii inputs opened).2 in
  forallb keeps_view inputs = true /\ streamed sent = [5; 100000005] /\ apart (streamed sent).
Proof.
  pose proof (@turn_view_contract ascii (from_names ["turn_view_v1"]) [Vi_Listening 1]
    [Vi_Thinking [104]; Vi_AnswerSoFar [89] 5; Vi_AnswerSoFar [89; 101] 7; Vi_Timer 100000005] eq_refl) as Hw.
  split; [reflexivity|]. split; [vm_compute; reflexivity|]. exact (proj1 (proj2 Hw)).
Defined.
