(* ===== verification/Canonical.v ===== *)
(** * Canonical JSON ([protocol/src/canonical.rs])

    The text whose SHA-256 the device checks on every alert snapshot and the
    journal keeps of every request: keys in byte order, no whitespace, strings
    escaped as CPython's encoder does with [ensure_ascii=False], floats in
    Python's [repr].  The text parser of the module is used by tests only and is
    not modelled. *)
From Stdlib Require Import Floats.SpecFloat.
From S2P Require Import Prelude Bytes WireEnum Float Ema Vocab Json Policy Clock Evidence Level Transcript Document Values Settings Stored Registry.

Inductive CanonicalError :=
  | NonFinite
  | Syntax (offset : N) (expected : string)
  | LoneSurrogate (offset : N)
  | TooDeep.

(** What [write_string] puts for one byte: its escape, or the byte itself. *)
Definition canonical_byte (c : Ascii.ascii) : string :=
  let b := byte_at c in
  if b =? 34 then String BACKSLASH (String QUOTE "")
  else if b =? 92 then String BACKSLASH (String BACKSLASH "")
  else if b =? 10 then String BACKSLASH "n"
  else if b =? 13 then String BACKSLASH "r"
  else if b =? 9 then String BACKSLASH "t"
  else if b =? 8 then String BACKSLASH "b"
  else if b =? 12 then String BACKSLASH "f"
  else if b <? 32 then escape_unit b
  else String c "".
Fixpoint canonical_bytes (s : string) : string :=
  match s with EmptyString => "" | String c s => canonical_byte c +:+ canonical_bytes s end.
Definition canonical_string (s : string) : string := String QUOTE (canonical_bytes s +:+ String QUOTE "").

(** [{:02}] of the exponent's magnitude. *)
Definition two_digits (n : N) : string :=
  let text := pretty n in if (String.length text <? 2)%nat then "0" +:+ text else text.

(** [write_float]: [{:e}] writes the shortest digits that read back. *)
Definition canonical_digits (digits : string) (exponent : Z) : string :=
  if ((-4 <=? exponent) && (exponent <? 16))%Z then
    if (exponent <? 0)%Z then "0." +:+ zeros (Z.to_nat (- exponent - 1)) +:+ digits
    else
      let point := S (Z.to_nat exponent) in
      if (String.length digits <=? point)%nat then digits +:+ zeros (point - String.length digits) +:+ ".0"
      else first_chars point digits +:+ "." +:+ rest_chars point digits
  else
    first_chars 1 digits +:+
    (if (1 <? String.length digits)%nat then "." +:+ rest_chars 1 digits else "") +:+
    "e" +:+ (if (exponent <? 0)%Z then "-" else "+") +:+ two_digits (Z.abs_N exponent).
Definition write_float (x : F64) : result CanonicalError string :=
  match x with
  | S754_zero s => Ok (if s then "-0.0" else "0.0")
  | S754_finite s m e =>
      let? (digits, exponent) := ok_or NonFinite (lower_exp m e) in
      Ok ((if s then "-" else "") +:+ canonical_digits digits exponent)
  | _ => Err NonFinite
  end.

(** The texts of the members of a container; the first failure is the answer. *)
Fixpoint canonical_list (texts : list (result CanonicalError string)) : result CanonicalError (list string) :=
  match texts with
  | [] => Ok []
  | text :: texts => let? text := text in let? texts := canonical_list texts in Ok (text :: texts)
  end.
Definition canonical_member (entry : string * result CanonicalError string) : result CanonicalError string :=
  let? text := snd entry in Ok (canonical_string (fst entry) +:+ ":" +:+ text).

Fixpoint canonical_json (v : Value) : result CanonicalError string :=
  match v with
  | VNull => Ok "null"
  | VBool b => Ok (if b then "true" else "false")
  | VNumber (NInt z) => Ok (pretty z)
  | VNumber (NFloat x) => write_float x
  | VString s => Ok (canonical_string s)
  | VArray items =>
      let? texts := canonical_list (List.map canonical_json items) in
      Ok ("[" +:+ String.concat "," texts +:+ "]")
  | VObject entries =>
      let sorted := sort_entries (List.map (fun '(k, w) => (k, canonical_json w)) entries) in
      let? texts := canonical_list (List.map canonical_member sorted) in
      Ok ("{" +:+ String.concat "," texts +:+ "}")
  end.

(** [Sha256::of] of the text. *)
Definition canonical_sha256 `{Digest} (v : Value) : result CanonicalError string :=
  let? text := canonical_json v in Ok (sha256_of text).

Example canonical_sample :
  canonical_json (VObject [("m", VArray [VNumber (NFloat (f64_ratio 3 2)); VNumber (NInt 100000000000000000000000); VBool true; VNull]);
                           ("a", VString "b")])
  = Ok (String.concat (String QUOTE "") ["{"; "a"; ":"; "b"; ","; "m"; ":[1.5,100000000000000000000000,true,null]}"]).
Proof. vm_compute. reflexivity. Qed.
Example canonical_float_boundaries :
  (write_float <$> [f64_of_Z 1000000000000000; f64_of_Z 10000000000000000; f64_ratio 1 10000; f64_ratio 1 100000;
                    f64_of_Z (-3); f64_ratio 1 10; S754_zero true])
  = [Ok "1000000000000000.0"; Ok "1e+16"; Ok "0.0001"; Ok "1e-05"; Ok "-3.0"; Ok "0.1"; Ok "-0.0"].
Proof. vm_compute. reflexivity. Qed.

(** ** Values that have a canonical form *)
(** A double that is a number; the low bound is that of the type. *)
Definition finite_double (x : F64) : bool :=
  match x with S754_zero _ => true | S754_finite _ _ e => (-1074 <=? e)%Z | _ => false end.
Fixpoint finite_numbers (v : Value) : bool :=
  match v with
  | VNumber (NFloat x) => finite_double x
  | VArray items => forallb finite_numbers items
  | VObject entries => forallb (fun '(_, w) => finite_numbers w) entries
  | _ => true
  end.

Lemma valid_finite x : f64_is_finite x = true -> valid_binary f64_prec f64_emax x = true -> finite_double x = true.
Proof.
  destruct x as [| | |s m e]; try done. cbn [valid_binary finite_double]. unfold bounded, canonical_mantissa, fexp, emin, f64_prec, f64_emax.
  intros _ [He _]%andb_true_iff. apply Z.eqb_eq in He. apply Z.leb_le. lia.
Qed.

Lemma canonical_digits_python digits exponent : canonical_digits digits exponent = python_digits digits exponent.
Proof.
  unfold canonical_digits, python_digits, two_digits.
  replace ((-4 <? exponent + 1) && (exponent + 1 <=? 16))%Z with ((-4 <=? exponent) && (exponent <? 16))%Z
    by (destruct (Z.leb_spec (-4) exponent), (Z.ltb_spec exponent 16), (Z.ltb_spec (-4) (exponent + 1)),
          (Z.leb_spec (exponent + 1) 16); try reflexivity; lia).
  destruct ((-4 <=? exponent) && (exponent <? 16))%Z; cbn [negb]; [|reflexivity].
  replace (exponent + 1 <=? 0)%Z with (exponent <? 0)%Z
    by (destruct (Z.ltb_spec exponent 0), (Z.leb_spec (exponent + 1) 0); try reflexivity; lia).
  destruct (Z.ltb_spec exponent 0).
  - by replace (- (exponent + 1))%Z with (- exponent - 1)%Z by lia.
  - by replace (Z.to_nat (exponent + 1)) with (S (Z.to_nat exponent)) by lia.
Qed.

(** The two float writers of the program, this one and the settings
    documents', are one function. *)
Lemma write_float_python x : write_float x = ok_or NonFinite (python_float_repr x).
Proof.
  destruct x as [s|s| |s m e]; try reflexivity. cbn [write_float python_float_repr].
  destruct (lower_exp m e) as [[digits exponent]|]; [|reflexivity].
  cbn -[canonical_digits python_digits]. by rewrite canonical_digits_python.
Qed.

Lemma write_float_finite x : finite_double x = true -> exists text, write_float x = Ok text.
Proof.
  destruct x as [s|s| |s m e]; try done; [by eexists|]. cbn [finite_double write_float]. intros He%Z.leb_le.
  destruct (shortest_found m e He) as (d & k & E & _). unfold lower_exp. rewrite E. cbn. by eexists.
Qed.

Lemma canonical_list_ok texts :
  Forall (fun t => exists text, t = Ok text) texts -> exists out, canonical_list texts = Ok out.
Proof.
  induction 1 as [|t texts [text ->] _ [out E]]; [by eexists|]. cbn [canonical_list]. rewrite E. by eexists.
Qed.

Lemma elem_of_insert_entry {V} (a : string * V) l x : x ∈ insert_entry a l <-> x = a \/ x ∈ l.
Proof.
  induction l as [|b l IH]; cbn [insert_entry]; [set_solver|].
  destruct (entry_leb a b); [set_solver|]. rewrite !elem_of_cons, IH. tauto.
Qed.
Lemma elem_of_sort_entries {V} (l : list (string * V)) x : x ∈ sort_entries l <-> x ∈ l.
Proof.
  unfold sort_entries. induction l as [|a l IH]; [done|]. cbn [foldr]. rewrite elem_of_insert_entry, IH. set_solver.
Qed.

(** Induction over a value with its members. *)
Lemma value_ind_strong (P : Value -> Prop) :
  P VNull -> (forall b, P (VBool b)) -> (forall n, P (VNumber n)) -> (forall s, P (VString s)) ->
  (forall items, Forall P items -> P (VArray items)) ->
  (forall entries, Forall (fun kv => P (snd kv)) entries -> P (VObject entries)) ->
  forall v, P v.
Proof.
  intros Hn Hb Hnum Hs Ha Ho. fix IH 1. intros [|b|n|s|items|entries]; [apply Hn|apply Hb|apply Hnum|apply Hs|apply Ha|apply Ho].
  - induction items; constructor; auto.
  - induction entries as [|[k v] entries]; constructor; [apply IH|done].
Qed.

Lemma canonical_defined v : finite_numbers v = true -> exists text, canonical_json v = Ok text.
Proof.
  induction v as [|b|n|s|items IH|entries IH] using value_ind_strong; try (by eexists).
  - destruct n as [z|x]; [by eexists|]. apply write_float_finite.
  - cbn [finite_numbers canonical_json]. rewrite forallb_forall. intros Hf.
    destruct (canonical_list_ok (List.map canonical_json items)) as [out E]; [|rewrite E; by eexists].
    apply Forall_forall. intros t (item & <- & Hi)%list_elem_of_In%in_map_iff.
    rewrite Forall_forall in IH. apply IH; [by apply list_elem_of_In|by apply Hf].
  - cbn [finite_numbers canonical_json]. rewrite forallb_forall. intros Hf.
    set (sorted := sort_entries _).
    destruct (canonical_list_ok (List.map canonical_member sorted)) as [out E]; [|rewrite E; by eexists].
    apply Forall_forall. intros t ([k r] & <- & Hi)%list_elem_of_In%in_map_iff.
    apply list_elem_of_In, elem_of_sort_entries, list_elem_of_In, in_map_iff in Hi as ([k' w] & [= <- <-] & Hw).
    rewrite Forall_forall in IH. destruct (IH (k', w)) as [text E]; [by apply list_elem_of_In|by apply (Hf (k', w))|].
    cbn [snd] in E. unfold canonical_member. cbn [fst snd]. rewrite E. by eexists.
Qed.
