(* ===== verification/AlertBodies.v ===== *)
(** * Alert objects on the wire ([protocol/src/alerts.rs])

    Occurrence and tombstone objects, their canonical digest, and the pages of an
    [alert.snapshot].  A [Uuid] is its 128-bit number; the text of one and UUIDv5
    are the [uuid] crate's, the class [UuidCrate]. *)
From Stdlib Require Import Floats.SpecFloat Sorting.Sorted.
From S2P Require Import Prelude Bytes WireEnum Float Ema Vocab Json Policy Clock Evidence Level Transcript Document Values Settings Stored Registry Canonical.

Abbreviation Uuid := N.
Class UuidCrate := {
  uuid_to_string : Uuid -> string;
  uuid_parse_str : string -> option Uuid;
  uuid_new_v5 : Uuid -> string -> Uuid;
}.
(** The text of a UUID reads back as it. *)
Class UuidLaws (U : UuidCrate) : Prop := {
  uuid_reads_back : forall u, u < 2 ^ 128 -> uuid_parse_str (uuid_to_string u) = Some u;
}.

(** ** Sorting: [sort_by_key], which is stable *)
Section sorting.
Context {A : Type} (leb : A -> A -> bool).

Fixpoint insert_sorted (a : A) (l : list A) : list A :=
  match l with
  | [] => [a]
  | b :: l => if leb a b then a :: b :: l else b :: insert_sorted a l
  end.
Definition sort_by (l : list A) : list A := foldr insert_sorted [] l.

Lemma insert_sorted_perm a l : insert_sorted a l ≡ₚ a :: l.
Proof.
  induction l as [|b l IH]; cbn [insert_sorted]; [done|].
  destruct (leb a b); [done|]. rewrite IH. by constructor.
Qed.
Lemma sort_by_perm l : sort_by l ≡ₚ l.
Proof. induction l as [|a l IH]; [done|]. cbn [sort_by foldr]. fold (sort_by l). by rewrite insert_sorted_perm, IH. Qed.

Context (leb_total : forall a b, leb a b = true \/ leb b a = true)
  (leb_trans : forall a b c, leb a b = true -> leb b c = true -> leb a c = true).
Lemma insert_sorted_sorted a l :
  StronglySorted (fun x y => leb x y = true) l -> StronglySorted (fun x y => leb x y = true) (insert_sorted a l).
Proof.
  induction 1 as [|b l Hl IH Hb]; cbn [insert_sorted]; [repeat constructor|].
  destruct (leb a b) eqn:E.
  - constructor; [by constructor|]. constructor; [done|]. eapply List.Forall_impl; [|exact Hb]. cbn. eauto.
  - constructor; [done|]. rewrite insert_sorted_perm. constructor; [|done]. destruct (leb_total a b); congruence.
Qed.
Lemma sort_by_sorted l : StronglySorted (fun x y => leb x y = true) (sort_by l).
Proof. induction l as [|a l IH]; [constructor|]. cbn [sort_by foldr]. by apply insert_sorted_sorted. Qed.
End sorting.

(** The lexicographic order of pairs of numbers. *)
Definition pair_leb (a b : N * N) : bool := (fst a <? fst b) || ((fst a =? fst b) && (snd a <=? snd b)).
Lemma pair_leb_total a b : pair_leb a b = true \/ pair_leb b a = true.
Proof.
  destruct a as [a1 a2], b as [b1 b2]. unfold pair_leb. cbn [fst snd].
  rewrite !orb_true_iff, !andb_true_iff, !N.ltb_lt, !N.eqb_eq, !N.leb_le. lia.
Qed.
Lemma pair_leb_trans a b c : pair_leb a b = true -> pair_leb b c = true -> pair_leb a c = true.
Proof.
  destruct a as [a1 a2], b as [b1 b2], c as [c1 c2]. unfold pair_leb. cbn [fst snd].
  rewrite !orb_true_iff, !andb_true_iff, !N.ltb_lt, !N.eqb_eq, !N.leb_le. lia.
Qed.

(** ** Objects *)
Definition SNAPSHOT_PAGE_OBJECTS : nat := 128.
Definition MAX_LABEL_CHARS : nat := 120.

Inductive OccurrenceKind := Ok_Alarm | Ok_Snooze.
#[export] Instance OccurrenceKind_eq_dec : EqDecision OccurrenceKind. Proof. solve_decision. Defined.
#[export] Instance OccurrenceKind_wire : WireEnum OccurrenceKind := {
  as_str v := match v with Ok_Alarm => "alarm" | Ok_Snooze => "snooze" end;
  ALL := [Ok_Alarm; Ok_Snooze];
}.
#[export] Instance OccurrenceKind_laws : WireLaws OccurrenceKind. Proof. solve_wire_laws. Qed.

Inductive TombstoneReason := Tr_Dismissed | Tr_Snoozed | Tr_Expired | Tr_Deleted.
#[export] Instance TombstoneReason_eq_dec : EqDecision TombstoneReason. Proof. solve_decision. Defined.
#[export] Instance TombstoneReason_wire : WireEnum TombstoneReason := {
  as_str v := match v with Tr_Dismissed => "dismissed" | Tr_Snoozed => "snoozed" | Tr_Expired => "expired" | Tr_Deleted => "deleted" end;
  ALL := [Tr_Dismissed; Tr_Snoozed; Tr_Expired; Tr_Deleted];
}.
#[export] Instance TombstoneReason_laws : WireLaws TombstoneReason. Proof. solve_wire_laws. Qed.

Inductive AlertSound :=
  | As_Fallback
  | As_Asset (sha : string).
#[export] Instance AlertSound_eq_dec : EqDecision AlertSound. Proof. solve_decision. Defined.
Definition sound_text (s : AlertSound) : string :=
  match s with As_Fallback => "builtin:fallback" | As_Asset sha => sha end.

(** An [AlertVolume] is its gain. *)
Definition f64_one : F64 := f64_of_Z 1.
Definition alert_volume_new (gain : F64) : option F64 :=
  if f64_ltb (S754_zero false) gain && f64_leb gain f64_one then Some gain else None.

Record OccurrenceObject := mkOccurrenceObject {
  oo_due_local : string;
  oo_due_utc_ms : N;
  oo_kind : OccurrenceKind;
  oo_label : string;
  oo_loop_gap_ms : N;
  oo_max_ring_ms : N;
  oo_occurrence_id : Uuid;
  oo_ramp_ms : N;
  oo_revision : N;
  oo_schedule_id : Uuid;
  oo_snooze_ms : N;
  oo_sound : AlertSound;
  oo_volume : option F64;
}.
Definition with_revision (revision : N) (o : OccurrenceObject) : OccurrenceObject :=
  mkOccurrenceObject (oo_due_local o) (oo_due_utc_ms o) (oo_kind o) (oo_label o) (oo_loop_gap_ms o) (oo_max_ring_ms o)
    (oo_occurrence_id o) (oo_ramp_ms o) revision (oo_schedule_id o) (oo_snooze_ms o) (oo_sound o) (oo_volume o).

Record TombstoneObject := mkTombstoneObject {
  to_occurrence_id : Uuid;
  to_revision : N;
  to_tombstone : TombstoneReason;
}.
Inductive CacheObject :=
  | Co_Occurrence (o : OccurrenceObject)
  | Co_Tombstone (t : TombstoneObject).

Record AlertSnapshotPage := mkAlertSnapshotPage {
  sp_delivery_epoch : string;
  sp_high_water_mark : N;
  sp_page_index : nat;
  sp_page_count : nat;
  sp_sha256 : string;
  sp_objects : list OccurrenceObject;
}.
Record AlertDelta := mkAlertDelta {
  ad_delivery_epoch : string;
  ad_sequence : N;
  ad_objects : list CacheObject;
}.

Inductive SnapshotError :=
  | Se_LabelTooLong (occurrence_id : Uuid) (chars : nat)
  | Se_Canonical (err : CanonicalError).

(** What the derived [Serialize] of each writes. *)
Definition number (n : N) : Value := VNumber (NInt (Z.of_N n)).
Definition occurrence_value `{UuidCrate} (o : OccurrenceObject) : Value :=
  VObject [("due_local", VString (oo_due_local o)); ("due_utc_ms", u64_string (oo_due_utc_ms o));
           ("kind", VString (as_str (oo_kind o))); ("label", VString (oo_label o));
           ("loop_gap_ms", number (oo_loop_gap_ms o)); ("max_ring_ms", number (oo_max_ring_ms o));
           ("occurrence_id", VString (uuid_to_string (oo_occurrence_id o))); ("ramp_ms", number (oo_ramp_ms o));
           ("revision", number (oo_revision o)); ("schedule_id", VString (uuid_to_string (oo_schedule_id o)));
           ("snooze_ms", number (oo_snooze_ms o)); ("sound", VString (sound_text (oo_sound o)));
           ("volume", match oo_volume o with Some gain => VNumber (NFloat gain) | None => VNull end)].
Definition tombstone_value `{UuidCrate} (t : TombstoneObject) : Value :=
  VObject [("occurrence_id", VString (uuid_to_string (to_occurrence_id t))); ("revision", number (to_revision t));
           ("tombstone", VString (as_str (to_tombstone t)))].
Definition cache_value `{UuidCrate} (o : CacheObject) : Value :=
  match o with Co_Occurrence o => occurrence_value o | Co_Tombstone t => tombstone_value t end.

(** ** Snapshots *)
Section snapshots.
Context `{UuidCrate, Digest}.

Definition snapshot_digest (ordered : list OccurrenceObject) : result SnapshotError string :=
  let? text := map_err Se_Canonical (canonical_json (VArray (List.map occurrence_value ordered))) in
  Ok (sha256_of text).

Definition label_chars (o : OccurrenceObject) : nat := length (chars (oo_label o)).
Fixpoint check_labels (objects : list OccurrenceObject) : result SnapshotError unit :=
  match objects with
  | [] => Ok tt
  | o :: objects =>
      if (MAX_LABEL_CHARS <? label_chars o)%nat then Err (Se_LabelTooLong (oo_occurrence_id o) (label_chars o))
      else check_labels objects
  end.

Definition snapshot_key (o : OccurrenceObject) : N * N := (oo_due_utc_ms o, oo_occurrence_id o).
Definition snapshot_leb (a b : OccurrenceObject) : bool := pair_leb (snapshot_key a) (snapshot_key b).

(** [len.div_ceil(128).max(1)]. *)
Definition snapshot_page_count (n : nat) : nat :=
  Nat.max (n / SNAPSHOT_PAGE_OBJECTS + (if (n mod SNAPSHOT_PAGE_OBJECTS =? 0)%nat then 0 else 1)) 1.
(** The loop over [page_index..page_count], [n] of them left. *)
Fixpoint build_pages (epoch : string) (high : N) (count : nat) (sha : string)
    (n page_index : nat) (rest : list OccurrenceObject) : list AlertSnapshotPage :=
  match n with
  | O => []
  | S n =>
      mkAlertSnapshotPage epoch high page_index count sha (take SNAPSHOT_PAGE_OBJECTS rest)
        :: build_pages epoch high count sha n (S page_index) (drop SNAPSHOT_PAGE_OBJECTS rest)
  end.

Definition snapshot_pages (epoch : string) (high : N) (objects : list OccurrenceObject) :
    result SnapshotError (list AlertSnapshotPage) :=
  let? _ := check_labels objects in
  let objects := sort_by snapshot_leb objects in
  let? sha256 := snapshot_digest objects in
  let page_count := snapshot_page_count (length objects) in
  Ok (build_pages epoch high page_count sha256 page_count 0 objects).

(** An object a snapshot can carry: a label the device accepts, a gain that
    [AlertVolume::new] made of a [f64]. *)
Definition volume_ok (v : option F64) : bool :=
  match v with
  | Some gain => f64_ltb (S754_zero false) gain && f64_leb gain f64_one && valid_binary f64_prec f64_emax gain
  | None => true
  end.
Definition object_ok (o : OccurrenceObject) : bool := (label_chars o <=? MAX_LABEL_CHARS)%nat && volume_ok (oo_volume o).

Lemma check_labels_ok objects : Forall (fun o => object_ok o = true) objects -> check_labels objects = Ok tt.
Proof.
  induction 1 as [|o objects Ho _ IH]; [done|]. cbn [check_labels].
  unfold object_ok in Ho. apply andb_true_iff in Ho as [Hl%Nat.leb_le _].
  by rewrite (proj2 (Nat.ltb_ge _ _) Hl).
Qed.

(** The first object, in the order given, whose label is too long is the error. *)
Lemma check_labels_err objects id n :
  check_labels objects = Err (Se_LabelTooLong id n) <->
  exists pre o post, objects = pre ++ o :: post /\ Forall (fun o => (label_chars o <= MAX_LABEL_CHARS)%nat) pre /\
    (MAX_LABEL_CHARS < label_chars o)%nat /\ id = oo_occurrence_id o /\ n = label_chars o.
Proof.
  split.
  - induction objects as [|o objects IH]; [done|]. cbn [check_labels].
    destruct (Nat.ltb_spec MAX_LABEL_CHARS (label_chars o)) as [Hl|Hl].
    + intros [= <- <-]. exists [], o, objects. split_and!; [done|constructor|done..].
    + intros (pre & o' & post & -> & Hp & Hr)%IH. exists (o :: pre), o', post. split_and!; [done|by constructor|naive_solver..].
  - intros (pre & o & post & -> & Hp & Hl & -> & ->). induction Hp as [|p pre Hp _ IH]; cbn [app check_labels].
    + by rewrite (proj2 (Nat.ltb_lt _ _) Hl).
    + by rewrite (proj2 (Nat.ltb_ge _ _) Hp).
Qed.

Lemma volume_finite gain : volume_ok (Some gain) = true -> finite_double gain = true.
Proof.
  cbn [volume_ok]. intros [[Hl Hh]%andb_true_iff Hv]%andb_true_iff. apply valid_finite; [|exact Hv].
  destruct gain as [s|s| |s m e]; try done. by destruct s.
Qed.
Lemma occurrence_value_finite o : volume_ok (oo_volume o) = true -> finite_numbers (occurrence_value o) = true.
Proof.
  unfold occurrence_value. cbn [finite_numbers forallb number]. destruct (oo_volume o) as [gain|]; [|done].
  intros Hg%volume_finite. cbn [finite_numbers]. by rewrite Hg.
Qed.

Lemma snapshot_digest_ok objects :
  Forall (fun o => object_ok o = true) objects ->
  exists text, canonical_json (VArray (List.map occurrence_value objects)) = Ok text /\
    snapshot_digest objects = Ok (sha256_of text).
Proof.
  intros Ho. destruct (canonical_defined (VArray (List.map occurrence_value objects))) as [text E].
  { cbn [finite_numbers]. apply forallb_forall. intros v (o & <- & Hi)%in_map_iff. apply occurrence_value_finite.
    rewrite Forall_forall in Ho. apply list_elem_of_In, Ho in Hi. unfold object_ok in Hi. by apply andb_true_iff in Hi as [_ ?]. }
  exists text. split; [done|]. unfold snapshot_digest. by rewrite E.
Qed.

Lemma snapshot_pages_ok epoch high objects :
  Forall (fun o => object_ok o = true) objects -> exists pages, snapshot_pages epoch high objects = Ok pages.
Proof.
  intros Ho. unfold snapshot_pages. rewrite check_labels_ok by done.
  destruct (snapshot_digest_ok (sort_by snapshot_leb objects)) as (text & _ & E).
  { by rewrite sort_by_perm. }
  rewrite E. by eexists.
Qed.

(** *** What the pages carry *)
Lemma page_count_covers n : (n <= snapshot_page_count n * SNAPSHOT_PAGE_OBJECTS)%nat.
Proof.
  unfold snapshot_page_count. pose proof (Nat.div_mod n SNAPSHOT_PAGE_OBJECTS ltac:(unfold SNAPSHOT_PAGE_OBJECTS; lia)) as Hd.
  pose proof (Nat.mod_upper_bound n SNAPSHOT_PAGE_OBJECTS ltac:(unfold SNAPSHOT_PAGE_OBJECTS; lia)) as Hm.
  destruct (Nat.eqb_spec (n mod SNAPSHOT_PAGE_OBJECTS) 0); unfold SNAPSHOT_PAGE_OBJECTS in *; nia.
Qed.
Lemma page_count_least n : (snapshot_page_count n = 1 \/ (snapshot_page_count n - 1) * SNAPSHOT_PAGE_OBJECTS < n)%nat.
Proof.
  unfold snapshot_page_count. pose proof (Nat.div_mod n SNAPSHOT_PAGE_OBJECTS ltac:(unfold SNAPSHOT_PAGE_OBJECTS; lia)) as Hd.
  destruct (Nat.eqb_spec (n mod SNAPSHOT_PAGE_OBJECTS) 0); unfold SNAPSHOT_PAGE_OBJECTS in *;
    destruct (Nat.eq_dec (n / 128)%nat 0%nat); nia.
Qed.

Lemma build_pages_length epoch high count sha n i rest : length (build_pages epoch high count sha n i rest) = n.
Proof. revert i rest. induction n as [|n IH]; intros; cbn [build_pages length]; by rewrite ?IH. Qed.
Lemma build_pages_lookup epoch high count sha n i rest k :
  (k < n)%nat ->
  build_pages epoch high count sha n i rest !! k =
  Some (mkAlertSnapshotPage epoch high (i + k) count sha
          (take SNAPSHOT_PAGE_OBJECTS (drop (k * SNAPSHOT_PAGE_OBJECTS) rest))).
Proof.
  revert i rest k. induction n as [|n IH]; intros i rest k Hk; [lia|]. cbn [build_pages].
  destruct k as [|k]; [cbn; by rewrite Nat.add_0_r|]. cbn [lookup list_lookup]. rewrite IH by lia.
  rewrite drop_drop. by rewrite Nat.add_succ_r.
Qed.
Lemma build_pages_objects epoch high count sha n i rest :
  (length rest <= n * SNAPSHOT_PAGE_OBJECTS)%nat ->
  List.concat (List.map sp_objects (build_pages epoch high count sha n i rest)) = rest.
Proof.
  revert i rest. induction n as [|n IH]; intros i rest Hn; cbn [build_pages List.map List.concat].
  - by destruct rest; [|cbn in Hn; lia].
  - cbn [sp_objects]. rewrite IH; [apply take_drop|]. rewrite length_drop. lia.
Qed.

Lemma snapshot_sorted objects : StronglySorted (fun a b => snapshot_leb a b = true) (sort_by snapshot_leb objects).
Proof.
  apply sort_by_sorted; unfold snapshot_leb; intros; [apply pair_leb_total|].
  by eapply pair_leb_trans.
Qed.

Lemma build_of_snapshot epoch high objects pages :
  snapshot_pages epoch high objects = Ok pages ->
  exists sha, snapshot_digest (sort_by snapshot_leb objects) = Ok sha /\
    pages = build_pages epoch high (snapshot_page_count (length (sort_by snapshot_leb objects))) sha
              (snapshot_page_count (length (sort_by snapshot_leb objects))) 0 (sort_by snapshot_leb objects).
Proof.
  unfold snapshot_pages. destruct (check_labels objects); [|done].
  destruct (snapshot_digest _) as [sha|] eqn:E; [|done]. intros [= <-]. by exists sha.
Qed.
End snapshots.

Lemma snapshot_pages_nonempty `{UuidCrate, Digest} epoch high objects pages :
  snapshot_pages epoch high objects = Ok pages -> pages <> [].
Proof.
  intros Hp ->. destruct (build_of_snapshot _ _ _ _ Hp) as (sha & _ & E). apply (f_equal length) in E.
  rewrite build_pages_length in E. cbn [length] in E. unfold snapshot_page_count in E. lia.
Qed.

(** The same facts of the pages, unordered. *)
Lemma snapshot_pages_facts `{UuidCrate, Digest} epoch high objects pages :
  snapshot_pages epoch high objects = Ok pages ->
  objects ≡ₚ List.concat (List.map sp_objects pages) /\
  (exists sha, snapshot_digest (List.concat (List.map sp_objects pages)) = Ok sha /\
    forall i p, pages !! i = Some p ->
      sp_delivery_epoch p = epoch /\ sp_high_water_mark p = high /\ sp_page_index p = i /\
      sp_page_count p = length pages /\ sp_sha256 p = sha /\ (length (sp_objects p) <= SNAPSHOT_PAGE_OBJECTS)%nat) /\
  pages <> [].
Proof.
  intros Hp. split_and!; [| |by eapply snapshot_pages_nonempty].
  - destruct (build_of_snapshot _ _ _ _ Hp) as (sha & Hd & ->). rewrite build_pages_objects by apply page_count_covers.
    by rewrite sort_by_perm.
  - destruct (build_of_snapshot _ _ _ _ Hp) as (sha & Hd & ->). rewrite build_pages_objects by apply page_count_covers.
    exists sha. split; [done|]. intros i p Hi. pose proof (lookup_lt_Some _ _ _ Hi) as Hl. rewrite build_pages_length in Hl |- *.
    rewrite build_pages_lookup in Hi by done. injection Hi as <-.
    cbn [sp_delivery_epoch sp_high_water_mark sp_page_index sp_page_count sp_sha256 sp_objects].
    split_and!; try done. rewrite length_take. lia.
Qed.

(** C29: The pages of a snapshot, put together in order, are exactly the objects
    given, ordered by due time and then id; every page holds at most 128 of them
    and carries its position, the number of pages and the digest of the whole
    ordered array; and there are no more pages than the objects need, one empty
    page for none. *)
Theorem snapshot_pages_contract `{UuidCrate, Digest} epoch high objects pages :
  snapshot_pages epoch high objects = Ok pages ->
  let ordered := List.concat (List.map sp_objects pages) in
  ordered ≡ₚ objects /\ StronglySorted (fun a b => snapshot_leb a b = true) ordered /\
  (exists sha, snapshot_digest ordered = Ok sha /\
    forall i p, pages !! i = Some p ->
      sp_delivery_epoch p = epoch /\ sp_high_water_mark p = high /\ sp_page_index p = i /\
      sp_page_count p = length pages /\ sp_sha256 p = sha /\ (length (sp_objects p) <= SNAPSHOT_PAGE_OBJECTS)%nat) /\
  (length pages = 1 \/ (length pages - 1) * SNAPSHOT_PAGE_OBJECTS < length objects)%nat /\ pages <> [].
Proof.
  intros Hp. destruct (snapshot_pages_facts _ _ _ _ Hp) as (Hperm & Hpages & Hne).
  destruct (build_of_snapshot _ _ _ _ Hp) as (sha & Hd & Eb). split_and!; [done| |done| |done].
  - rewrite Eb, build_pages_objects by apply page_count_covers. apply snapshot_sorted.
  - rewrite Eb, build_pages_length, <- (Permutation_length (sort_by_perm snapshot_leb objects)). apply page_count_least.
Qed.

(** ** A sample *)
Definition sample_crate : UuidCrate := {|
  uuid_to_string := pretty;
  uuid_parse_str text := if all_digits text then Some (decimal_value 0 text) else None;
  uuid_new_v5 ns text := (ns * 1000 + N.of_nat (String.length text)) mod 2 ^ 128;
|}.
Definition sample_digest : Digest := {| digest := fun _ => replicate 32 Byte.x5a; utf8_error := fun _ => "" |}.
Definition sample_object (id due : N) (label : string) : OccurrenceObject :=
  mkOccurrenceObject "2026-09-23T06:30:00-05:00" due Ok_Alarm label 2000 600000 id 20000 0 (1000 + id) 540000 As_Fallback None.

Lemma snapshot_pages_contract_witness :
  exists pages, @snapshot_pages sample_crate sample_digest "e1" 4 [sample_object 2 900 "B"; sample_object 1 700 "A"] = Ok pages /\
    List.concat (List.map sp_objects pages) ≡ₚ [sample_object 2 900 "B"; sample_object 1 700 "A"].
Proof.
  eexists. split; [vm_compute; reflexivity|].
  refine (proj1 (@snapshot_pages_contract sample_crate sample_digest "e1" 4 [sample_object 2 900 "B"; sample_object 1 700 "A"] _ _)).
  vm_compute. reflexivity.
Defined.
