(* ===== verification/AlertWire.v ===== *)
(** * Alert message bodies of the device link ([alerts/src/wire.rs])

    The bodies the controller sends and the decoders of those the device sends.
    A message in a [BodyError] is its text. *)
From Stdlib Require Import Floats.SpecFloat.
From S2P Require Import Prelude Bytes WireEnum Float Ema Vocab Json Policy Clock Evidence Level Transcript Document Values Settings Stored Registry Canonical AlertBodies.

(** ** Vocabularies *)

Inductive ActAction := Aa_Dismiss | Aa_Snooze.
#[export] Instance ActAction_eq_dec : EqDecision ActAction. Proof. solve_decision. Defined.
#[export] Instance ActAction_wire : WireEnum ActAction := {
  as_str v := match v with Aa_Dismiss => "dismiss" | Aa_Snooze => "snooze" end;
  ALL := [Aa_Dismiss; Aa_Snooze];
}.
#[export] Instance ActAction_laws : WireLaws ActAction. Proof. solve_wire_laws. Qed.

Inductive ActSource := Src_Voice | Src_Entity | Src_Llm | Src_Dashboard.
#[export] Instance ActSource_eq_dec : EqDecision ActSource. Proof. solve_decision. Defined.
#[export] Instance ActSource_wire : WireEnum ActSource := {
  as_str v := match v with Src_Voice => "voice" | Src_Entity => "entity" | Src_Llm => "llm" | Src_Dashboard => "dashboard" end;
  ALL := [Src_Voice; Src_Entity; Src_Llm; Src_Dashboard];
}.
#[export] Instance ActSource_laws : WireLaws ActSource. Proof. solve_wire_laws. Qed.

Inductive LocalAction := La_Dismiss | La_Snooze | La_Expire.
#[export] Instance LocalAction_eq_dec : EqDecision LocalAction. Proof. solve_decision. Defined.
#[export] Instance LocalAction_wire : WireEnum LocalAction := {
  as_str v := match v with La_Dismiss => "dismiss" | La_Snooze => "snooze" | La_Expire => "expire" end;
  ALL := [La_Dismiss; La_Snooze; La_Expire];
}.
#[export] Instance LocalAction_laws : WireLaws LocalAction. Proof. solve_wire_laws. Qed.

Inductive ExpireReason := Xr_TimedOut | Xr_Missed.
#[export] Instance ExpireReason_eq_dec : EqDecision ExpireReason. Proof. solve_decision. Defined.
#[export] Instance ExpireReason_wire : WireEnum ExpireReason := {
  as_str v := match v with Xr_TimedOut => "timed_out" | Xr_Missed => "missed" end;
  ALL := [Xr_TimedOut; Xr_Missed];
}.
#[export] Instance ExpireReason_laws : WireLaws ExpireReason. Proof. solve_wire_laws. Qed.

Inductive LocalSource := Ls_Button | Ls_Voice | Ls_Entity | Ls_Llm | Ls_Dashboard | Ls_Executor.
#[export] Instance LocalSource_eq_dec : EqDecision LocalSource. Proof. solve_decision. Defined.
#[export] Instance LocalSource_wire : WireEnum LocalSource := {
  as_str v := match v with Ls_Button => "button" | Ls_Voice => "voice" | Ls_Entity => "entity" | Ls_Llm => "llm" | Ls_Dashboard => "dashboard" | Ls_Executor => "executor" end;
  ALL := [Ls_Button; Ls_Voice; Ls_Entity; Ls_Llm; Ls_Dashboard; Ls_Executor];
}.
#[export] Instance LocalSource_laws : WireLaws LocalSource. Proof. solve_wire_laws. Qed.

Inductive OpResultState := Os_Applied | Os_Rejected.
#[export] Instance OpResultState_eq_dec : EqDecision OpResultState. Proof. solve_decision. Defined.
#[export] Instance OpResultState_wire : WireEnum OpResultState := {
  as_str v := match v with Os_Applied => "applied" | Os_Rejected => "rejected" end;
  ALL := [Os_Applied; Os_Rejected];
}.
#[export] Instance OpResultState_laws : WireLaws OpResultState. Proof. solve_wire_laws. Qed.

Inductive RingKind := Rk_Alarm | Rk_Snooze | Rk_Timer.
#[export] Instance RingKind_eq_dec : EqDecision RingKind. Proof. solve_decision. Defined.
#[export] Instance RingKind_wire : WireEnum RingKind := {
  as_str v := match v with Rk_Alarm => "alarm" | Rk_Snooze => "snooze" | Rk_Timer => "timer" end;
  ALL := [Rk_Alarm; Rk_Snooze; Rk_Timer];
}.
#[export] Instance RingKind_laws : WireLaws RingKind. Proof. solve_wire_laws. Qed.

Inductive RingEndReason := Rr_Stopped | Rr_Button | Rr_Entity | Rr_Limit | Rr_Preempted | Rr_Restart.
#[export] Instance RingEndReason_eq_dec : EqDecision RingEndReason. Proof. solve_decision. Defined.
#[export] Instance RingEndReason_wire : WireEnum RingEndReason := {
  as_str v := match v with Rr_Stopped => "stopped" | Rr_Button => "button" | Rr_Entity => "entity" | Rr_Limit => "limit" | Rr_Preempted => "preempted" | Rr_Restart => "restart" end;
  ALL := [Rr_Stopped; Rr_Button; Rr_Entity; Rr_Limit; Rr_Preempted; Rr_Restart];
}.
#[export] Instance RingEndReason_laws : WireLaws RingEndReason. Proof. solve_wire_laws. Qed.

Inductive WakeLockStatus := Wl_Held | Wl_Released | Wl_Unavailable.
#[export] Instance WakeLockStatus_eq_dec : EqDecision WakeLockStatus. Proof. solve_decision. Defined.
#[export] Instance WakeLockStatus_wire : WireEnum WakeLockStatus := {
  as_str v := match v with Wl_Held => "held" | Wl_Released => "released" | Wl_Unavailable => "unavailable" end;
  ALL := [Wl_Held; Wl_Released; Wl_Unavailable];
}.
#[export] Instance WakeLockStatus_laws : WireLaws WakeLockStatus. Proof. solve_wire_laws. Qed.

Inductive StoreStatus := Ss_Ok | Ss_Corrupt.
#[export] Instance StoreStatus_eq_dec : EqDecision StoreStatus. Proof. solve_decision. Defined.
#[export] Instance StoreStatus_wire : WireEnum StoreStatus := {
  as_str v := match v with Ss_Ok => "ok" | Ss_Corrupt => "corrupt" end;
  ALL := [Ss_Ok; Ss_Corrupt];
}.
#[export] Instance StoreStatus_laws : WireLaws StoreStatus. Proof. solve_wire_laws. Qed.

(** ** Controller to device *)
Record AlertOpResult := mkAlertOpResult {
  or_op_id : Uuid;
  or_state : OpResultState;
  or_error : option string;
}.
Record AlertAct := mkAlertAct {
  at_op_id : Uuid;
  at_target_id : string;
  at_action : ActAction;
  at_source : ActSource;
}.
Record AlertRing := mkAlertRing {
  ag_ring_id : string;
  ag_name : string;
  ag_sound : AlertSound;
  ag_loop_gap_ms : N;
  ag_max_ring_ms : N;
}.
Record AlertPrefetch := mkAlertPrefetch { ap_sounds : list string }.
Record TimerViewEntry := mkTimerViewEntry {
  te_id : string;
  te_name : option string;
  te_total_ms : N;
  te_remaining_ms : N;
  te_active : bool;
}.
Record TimerView := mkTimerView { tw_timers : list TimerViewEntry }.

Inductive PostBody :=
  | Pb_Snapshot (page : AlertSnapshotPage)
  | Pb_Delta (delta : AlertDelta)
  | Pb_OpResult (answer : AlertOpResult)
  | Pb_TimerView (view : TimerView).
Inductive CommandBody :=
  | Cb_Act (act : AlertAct)
  | Cb_Ring (ring : AlertRing)
  | Cb_Prefetch (prefetch : AlertPrefetch).

(** ** Device to controller *)
Record AlertAck := mkAlertAck {
  aa_delivery_epoch : option string;
  aa_applied_through : N;
  aa_durable : bool;
  aa_need_snapshot : bool;
}.
Record ChildRef := mkChildRef {
  ch_schedule_id : Uuid;
  ch_occurrence_id : Uuid;
  ch_due_utc_ms : N;
  ch_due_local : string;
}.
Record AlertLocalOperation := mkAlertLocalOperation {
  lo_op_id : Uuid;
  lo_action : LocalAction;
  lo_occurrence_id : Uuid;
  lo_schedule_id : Uuid;
  lo_revision : N;
  lo_reason : option ExpireReason;
  lo_source : LocalSource;
  lo_child : option ChildRef;
  lo_body : Object;
}.
Record AlertRingEnded := mkAlertRingEnded {
  re_id : string;
  re_kind : RingKind;
  re_reason : RingEndReason;
}.
Record ActiveRing := mkActiveRing {
  ar_id : string;
  ar_kind : RingKind;
  ar_name : string;
  ar_foreground : bool;
  ar_started_mono_ns : N;
  ar_deadline_mono_ns : N;
}.
Record AlertState := mkAlertState {
  st_active : option ActiveRing;
  st_queue : list string;
  st_clock_trusted : bool;
  st_wakelock : WakeLockStatus;
  st_store : StoreStatus;
}.
Inductive AlertInbound :=
  | Ai_Ack (ack : AlertAck)
  | Ai_LocalOperation (op : AlertLocalOperation)
  | Ai_RingEnded (ended : AlertRingEnded)
  | Ai_State (state : AlertState).

Record BodyError := mkBodyError { be_message_type : MessageType; be_detail : string }.

(** ** The reader *)
(** The quoted and escaped text that [{:?}] writes, which only an error's text shows. *)
Class DebugText := debug_text : string -> string.

Record Reader := mkReader { rd_body : Object; rd_message_type : MessageType }.
Definition reader_fail {A} (r : Reader) (key what : string) : result BodyError A :=
  Err (mkBodyError (rd_message_type r) (key +:+ " " +:+ what)).

Definition read_text (r : Reader) (key : string) : result BodyError string :=
  match object_get key (rd_body r) with
  | Some (VString text) => Ok text
  | _ => reader_fail r key "must be a string"
  end.
Definition read_nonempty (r : Reader) (key : string) : result BodyError string :=
  let? text := read_text r key in
  if String.eqb text "" then reader_fail r key "must not be empty" else Ok text.
Definition read_optional_string (r : Reader) (key : string) : result BodyError (option string) :=
  match object_get key (rd_body r) with
  | None | Some VNull => Ok None
  | Some (VString text) => Ok (Some text)
  | _ => reader_fail r key "must be a string or null"
  end.
Definition read_count (r : Reader) (key : string) : result BodyError N :=
  match object_get key (rd_body r) ≫= value_as_u64 with
  | Some n => Ok n
  | None => reader_fail r key "must be a non-negative integer"
  end.
(** [str::parse::<u64>], which takes a leading plus sign. *)
Definition parse_u64 (text : string) : option N :=
  match text with
  | String c rest => if byte_at c =? 43 then parse_u64_decimal rest else parse_u64_decimal text
  | EmptyString => None
  end.
Definition read_count_string (r : Reader) (key : string) : result BodyError N :=
  let? text := read_text r key in
  match parse_u64 text with
  | Some n => Ok n
  | None => reader_fail r key "must be a decimal string"
  end.
Definition read_boolean (r : Reader) (key : string) : result BodyError bool :=
  match object_get key (rd_body r) with
  | Some (VBool b) => Ok b
  | _ => reader_fail r key "must be a boolean"
  end.
Definition read_word {A} `{DebugText, WireEnum A} (r : Reader) (key : string) : result BodyError A :=
  let? text := read_text r key in
  match from_wire text with
  | Some value => Ok value
  | None => reader_fail r key ("has unknown value " +:+ debug_text text)
  end.
Definition read_nested (r : Reader) (key : string) : result BodyError (option Reader) :=
  match object_get key (rd_body r) with
  | None | Some VNull => Ok None
  | Some (VObject body) => Ok (Some (mkReader body (rd_message_type r)))
  | _ => reader_fail r key "must be an object or null"
  end.

(** A UUID in the lowercase hyphenated form the firmware writes. *)
Definition read_uuid `{UuidCrate} (r : Reader) (key : string) : result BodyError Uuid :=
  let? text := read_text r key in
  match uuid_parse_str text with
  | Some id => if String.eqb (uuid_to_string id) text then Ok id else reader_fail r key "must be a lowercase UUID"
  | None => reader_fail r key "must be a lowercase UUID"
  end.

(** ** The decoders *)
Section decoders.
Context `{UuidCrate, DebugText}.

Definition decode_ack (r : Reader) : result BodyError AlertAck :=
  let? delivery_epoch := read_optional_string r "delivery_epoch" in
  let? applied_through := read_count r "applied_through" in
  let? durable := read_boolean r "durable" in
  let? need_snapshot := read_boolean r "need_snapshot" in
  Ok (mkAlertAck delivery_epoch applied_through durable need_snapshot).

Definition decode_reason (r : Reader) : result BodyError (option ExpireReason) :=
  let? text := read_optional_string r "reason" in
  match text with
  | None => Ok None
  | Some text =>
      match from_wire text with
      | Some reason => Ok (Some reason)
      | None => reader_fail r "reason" ("has unknown value " +:+ debug_text text)
      end
  end.
Definition child_ref (c : Reader) : result BodyError ChildRef :=
  let? schedule_id := read_uuid c "schedule_id" in
  let? occurrence_id := read_uuid c "occurrence_id" in
  let? due_utc_ms := read_count_string c "due_utc_ms" in
  let? due_local := read_nonempty c "due_local" in
  Ok (mkChildRef schedule_id occurrence_id due_utc_ms due_local).
Definition decode_child (r : Reader) : result BodyError (option ChildRef) :=
  let? nested := read_nested r "child" in
  match nested with None => Ok None | Some c => let? child := child_ref c in Ok (Some child) end.
Definition is_some {A} (o : option A) : bool := match o with Some _ => true | None => false end.
Definition decode_local_operation (r : Reader) : result BodyError AlertLocalOperation :=
  let? action := read_word r "action" in
  let? reason := decode_reason r in
  let? child := decode_child r in
  if negb (Bool.eqb (bool_decide (action = La_Snooze)) (is_some child)) then
    reader_fail r "child" "must be present exactly for a snooze"
  else if negb (bool_decide (action = La_Expire)) && is_some reason then
    reader_fail r "reason" "belongs to an expiry only"
  else
    let? op_id := read_uuid r "op_id" in
    let? occurrence_id := read_uuid r "occurrence_id" in
    let? schedule_id := read_uuid r "schedule_id" in
    let? revision := read_count r "revision" in
    let? source := read_word r "source" in
    Ok (mkAlertLocalOperation op_id action occurrence_id schedule_id revision reason source child []).

Definition decode_ring_ended (r : Reader) : result BodyError AlertRingEnded :=
  let? id := read_nonempty r "id" in
  let? kind := read_word r "kind" in
  let? reason := read_word r "reason" in
  Ok (mkAlertRingEnded id kind reason).

Definition active_ring (a : Reader) : result BodyError ActiveRing :=
  let? id := read_nonempty a "id" in
  let? kind := read_word a "kind" in
  let? name := read_text a "name" in
  let? foreground := read_boolean a "foreground" in
  let? started := read_count_string a "started_mono_ns" in
  let? deadline := read_count_string a "deadline_mono_ns" in
  Ok (mkActiveRing id kind name foreground started deadline).
Definition decode_active (r : Reader) : result BodyError (option ActiveRing) :=
  let? nested := read_nested r "active" in
  match nested with None => Ok None | Some a => let? ring := active_ring a in Ok (Some ring) end.
Definition decode_state (r : Reader) : result BodyError AlertState :=
  let? active := decode_active r in
  let queue := match object_get "queue" (rd_body r) with
               | Some (VArray items) => mapM value_as_str items
               | _ => None
               end in
  match queue with
  | None => reader_fail r "queue" "must be an array of strings"
  | Some queue =>
      let? clock_trusted := read_boolean r "clock_trusted" in
      let? wakelock := read_word r "wakelock" in
      let? store := read_word r "store" in
      Ok (mkAlertState active queue clock_trusted wakelock store)
  end.

Definition with_body (body : Object) (op : AlertLocalOperation) : AlertLocalOperation :=
  mkAlertLocalOperation (lo_op_id op) (lo_action op) (lo_occurrence_id op) (lo_schedule_id op) (lo_revision op)
    (lo_reason op) (lo_source op) (lo_child op) body.
Definition inbound_decode (message_type : MessageType) (body : Object) : option (result BodyError AlertInbound) :=
  let r := mkReader body message_type in
  match message_type with
  | Mt_AlertAck => Some (let? ack := decode_ack r in Ok (Ai_Ack ack))
  | Mt_AlertLocalOperation => Some (let? op := decode_local_operation r in Ok (Ai_LocalOperation (with_body body op)))
  | Mt_AlertRingEnded => Some (let? ended := decode_ring_ended r in Ok (Ai_RingEnded ended))
  | Mt_AlertState => Some (let? state := decode_state r in Ok (Ai_State state))
  | _ => None
  end.
End decoders.

(** ** What the decoders accept *)
(** The schema of each body the device sends. *)
Definition word_text {A} (e : WireEnum A) (text : string) : bool := is_some (@from_wire A e text).
Definition decimal_text (text : string) : bool := is_some (parse_u64 text).
Definition uuid_text `{UuidCrate} (text : string) : bool :=
  match uuid_parse_str text with Some id => String.eqb (uuid_to_string id) text | None => false end.
Definition ack_schema : Schema := Sc_Record
  [("delivery_epoch", Optional, Sc_Text any_text); ("applied_through", Required, Sc_Count u64_max);
   ("durable", Required, Sc_Bool); ("need_snapshot", Required, Sc_Bool)].
Definition child_schema `{UuidCrate} : Schema := Sc_Record
  [("schedule_id", Required, Sc_Text uuid_text); ("occurrence_id", Required, Sc_Text uuid_text);
   ("due_utc_ms", Required, Sc_Text decimal_text); ("due_local", Required, Sc_Text nonempty_text)].
Definition local_operation_schema `{UuidCrate} : Schema := Sc_Record
  [("action", Required, Sc_Text (word_text LocalAction_wire)); ("reason", Optional, Sc_Text (word_text ExpireReason_wire));
   ("child", Optional, child_schema); ("op_id", Required, Sc_Text uuid_text);
   ("occurrence_id", Required, Sc_Text uuid_text); ("schedule_id", Required, Sc_Text uuid_text);
   ("revision", Required, Sc_Count u64_max); ("source", Required, Sc_Text (word_text LocalSource_wire))].
Definition ring_ended_schema : Schema := Sc_Record
  [("id", Required, Sc_Text nonempty_text); ("kind", Required, Sc_Text (word_text RingKind_wire));
   ("reason", Required, Sc_Text (word_text RingEndReason_wire))].
Definition active_schema : Schema := Sc_Record
  [("id", Required, Sc_Text nonempty_text); ("kind", Required, Sc_Text (word_text RingKind_wire));
   ("name", Required, Sc_Text any_text); ("foreground", Required, Sc_Bool);
   ("started_mono_ns", Required, Sc_Text decimal_text); ("deadline_mono_ns", Required, Sc_Text decimal_text)].
Definition state_schema : Schema := Sc_Record
  [("active", Optional, active_schema); ("queue", Required, Sc_Array (Sc_Text any_text));
   ("clock_trusted", Required, Sc_Bool); ("wakelock", Required, Sc_Text (word_text WakeLockStatus_wire));
   ("store", Required, Sc_Text (word_text StoreStatus_wire))].

(** What one field of a local operation's body says of another: a child exactly for
    a snooze, a reason only for an expiry. *)
Definition local_operation_agrees (body : Object) : bool :=
  let given key := match object_get key body with None | Some VNull => false | _ => true end in
  let action_is (a : LocalAction) := match object_get "action" body with Some (VString text) => String.eqb text (as_str a) | _ => false end in
  Bool.eqb (action_is La_Snooze) (given "child") && (action_is La_Expire || negb (given "reason")).

Section accepts_alerts.
Context `{UuidCrate, DebugText}.
Implicit Types (r : Reader) (key : string).
Local Abbreviation field r key presence s := (field_conforms (conforms s) presence (object_get key (rd_body r))).

Lemma read_text_accepts r key : is_ok (read_text r key) = field r key Required (Sc_Text any_text).
Proof. unfold read_text. by destruct (object_get key (rd_body r)) as [[]|]. Qed.
Lemma read_text_ok r key text : read_text r key = Ok text -> object_get key (rd_body r) = Some (VString text).
Proof. unfold read_text. destruct (object_get key (rd_body r)) as [[]|]; naive_solver. Qed.
Lemma read_nonempty_accepts r key : is_ok (read_nonempty r key) = field r key Required (Sc_Text nonempty_text).
Proof.
  unfold read_nonempty, read_text, nonempty_text. destruct (object_get key (rd_body r)) as [[| | |t| |]|]; cbn; try done.
  by destruct (String.eqb t "").
Qed.
Lemma read_optional_accepts r key : is_ok (read_optional_string r key) = field r key Optional (Sc_Text any_text).
Proof. unfold read_optional_string. by destruct (object_get key (rd_body r)) as [[]|]. Qed.
Lemma read_count_accepts r key : is_ok (read_count r key) = field r key Required (Sc_Count u64_max).
Proof.
  unfold read_count. destruct (object_get key (rd_body r)) as [v|]; [|done]. cbn [mbind option_bind field_conforms conforms orb].
  destruct (value_as_u64 v) as [n|] eqn:E; [|done]. apply value_as_u64_max in E. cbn [is_ok]. symmetry. by apply N.leb_le.
Qed.
Lemma read_boolean_accepts r key : is_ok (read_boolean r key) = field r key Required Sc_Bool.
Proof. unfold read_boolean. by destruct (object_get key (rd_body r)) as [[]|]. Qed.
Lemma read_parsed_accepts {A} r key (parse : string -> option A) (what : string -> string) :
  is_ok (let? text := read_text r key in
         match parse text with Some x => Ok x | None => reader_fail r key (what text) end)
  = field r key Required (Sc_Text (fun text => is_some (parse text))).
Proof. unfold read_text. destruct (object_get key (rd_body r)) as [[| | |t| |]|]; cbn; try done. by destruct (parse t). Qed.
Lemma read_count_string_accepts r key : is_ok (read_count_string r key) = field r key Required (Sc_Text decimal_text).
Proof. apply (read_parsed_accepts r key parse_u64 (fun _ => "must be a decimal string")). Qed.
Lemma read_word_accepts {A} `{W : WireEnum A} r key :
  is_ok (read_word (A := A) r key) = field r key Required (Sc_Text (word_text W)).
Proof. apply (read_parsed_accepts r key from_wire (fun text => "has unknown value " +:+ debug_text text)). Qed.
Lemma read_uuid_accepts r key : is_ok (read_uuid r key) = field r key Required (Sc_Text uuid_text).
Proof.
  unfold read_uuid, read_text, uuid_text. destruct (object_get key (rd_body r)) as [[| | |t| |]|]; cbn; try done.
  destruct (uuid_parse_str t) as [u|]; cbn; [|done]. by destruct (String.eqb _ t).
Qed.
Lemma read_nested_accepts {A} r key (decode : Reader -> result BodyError A) s :
  (forall body, is_ok (decode (mkReader body (rd_message_type r))) = conforms s (VObject body)) ->
  (forall v, value_as_object v = None -> conforms s v = false) ->
  is_ok (let? nested := read_nested r key in
         match nested with None => Ok None | Some c => let? x := decode c in Ok (Some x) end)
  = field r key Optional s.
Proof.
  intros Hd Hs. unfold read_nested. destruct (object_get key (rd_body r)) as [[]|]; cbn -[conforms]; try done;
    try (symmetry; by apply Hs). rewrite <- Hd. by destruct (decode _).
Qed.

(** A record's schema, field by field. *)
Lemma body_conforms_record fields o :
  conforms (Sc_Record fields) (VObject o) =
  List.forallb (fun '(key, presence, s) => field_conforms (conforms s) presence (object_get key o)) fields.
Proof. reflexivity. Qed.
Ltac by_fields := rewrite body_conforms_record; cbn [List.forallb].

Lemma decode_ack_accepts r : is_ok (decode_ack r) = conforms ack_schema (VObject (rd_body r)).
Proof.
  unfold decode_ack. unfold ack_schema; by_fields.
  rewrite <- read_optional_accepts, <- read_count_accepts, <- !read_boolean_accepts.
  repeat (apply is_ok_bind; intros). reflexivity.
Qed.
Lemma decode_ring_ended_accepts r : is_ok (decode_ring_ended r) = conforms ring_ended_schema (VObject (rd_body r)).
Proof.
  unfold decode_ring_ended. unfold ring_ended_schema; by_fields.
  rewrite <- read_nonempty_accepts, <- !read_word_accepts. repeat (apply is_ok_bind; intros). reflexivity.
Qed.
Lemma child_ref_accepts c : is_ok (child_ref c) = conforms child_schema (VObject (rd_body c)).
Proof.
  unfold child_ref. unfold child_schema; by_fields.
  rewrite <- !read_uuid_accepts, <- read_count_string_accepts, <- read_nonempty_accepts.
  repeat (apply is_ok_bind; intros). reflexivity.
Qed.
Lemma active_ring_accepts a : is_ok (active_ring a) = conforms active_schema (VObject (rd_body a)).
Proof.
  unfold active_ring. unfold active_schema; by_fields.
  rewrite <- read_nonempty_accepts, <- read_word_accepts, <- read_text_accepts, <- read_boolean_accepts, <- !read_count_string_accepts.
  repeat (apply is_ok_bind; intros). reflexivity.
Qed.
Lemma queue_accepts items : is_ok (ok_or tt (mapM value_as_str items)) = forallb (conforms (Sc_Text any_text)) items.
Proof.
  induction items as [|v items IH]; [done|]. cbn [forallb]. rewrite <- IH.
  change (mapM value_as_str (v :: items)) with (x ← value_as_str v; k ← mapM value_as_str items; mret (x :: k)).
  destruct v; cbn; try done. by destruct (mapM value_as_str items).
Qed.
Lemma decode_state_accepts r : is_ok (decode_state r) = conforms state_schema (VObject (rd_body r)).
Proof.
  unfold decode_state. unfold state_schema; by_fields.
  rewrite <- (read_nested_accepts r "active" active_ring active_schema) by
    (intros; try apply active_ring_accepts; match goal with |- conforms _ ?v = false => by destruct v end).
  rewrite <- read_boolean_accepts, <- !read_word_accepts. apply is_ok_bind. intros a _.
  destruct (object_get "queue" (rd_body r)) as [[| | | |items|]|]; try reflexivity.
  cbn [field_conforms orb]. change (conforms (Sc_Array ?s) (VArray items)) with (forallb (conforms s) items).
  rewrite <- queue_accepts. destruct (mapM value_as_str items); [|reflexivity]. cbn [ok_or is_ok andb].
  repeat (apply is_ok_bind; intros). reflexivity.
Qed.
End accepts_alerts.

Section local_operations.
Context `{UuidCrate, DebugText}.
Implicit Types (r : Reader).

Definition given (key : string) (body : Object) : bool :=
  match object_get key body with None | Some VNull => false | _ => true end.
Definition action_is (a : LocalAction) (body : Object) : bool :=
  match object_get "action" body with Some (VString text) => String.eqb text (as_str a) | _ => false end.

Lemma read_action r a b :
  read_word (A := LocalAction) r "action" = Ok a -> action_is b (rd_body r) = bool_decide (a = b).
Proof.
  unfold read_word, action_is. destruct (read_text r "action") as [text|] eqn:E; [|done]. apply read_text_ok in E. rewrite E.
  destruct (from_wire text) as [a'|] eqn:F; [|done]. intros [= ->]. apply from_wire_Some in F as <-.
  destruct (String.eqb_spec (as_str a) (as_str b)) as [Eab|Hne].
  - apply (inj as_str) in Eab as ->. symmetry. by apply bool_decide_eq_true_2.
  - symmetry. apply bool_decide_eq_false_2. by intros ->.
Qed.
Lemma decode_child_given r c : decode_child r = Ok c -> is_some c = given "child" (rd_body r).
Proof.
  unfold decode_child, read_nested, given. destruct (object_get "child" (rd_body r)) as [[]|]; try done; try (by intros [= <-]).
  destruct (child_ref _); [|done]. by intros [= <-].
Qed.
Lemma decode_reason_given r x : decode_reason r = Ok x -> is_some x = given "reason" (rd_body r).
Proof.
  unfold decode_reason, read_optional_string, given. destruct (object_get "reason" (rd_body r)) as [[]|]; try done; try (by intros [= <-]).
  destruct (from_wire text); [|done]. by intros [= <-].
Qed.
Lemma decode_reason_accepts r :
  is_ok (decode_reason r) = field_conforms (conforms (Sc_Text (word_text ExpireReason_wire))) Optional (object_get "reason" (rd_body r)).
Proof.
  unfold decode_reason, read_optional_string, word_text. destruct (object_get "reason" (rd_body r)) as [[| | |text| |]|];
    cbn [field_conforms conforms is_null orb is_ok reader_fail]; try done.
  by destruct (from_wire text).
Qed.
Lemma decode_child_accepts r :
  is_ok (decode_child r) = field_conforms (conforms child_schema) Optional (object_get "child" (rd_body r)).
Proof.
  apply read_nested_accepts; intros; [by rewrite child_ref_accepts|]. by destruct v.
Qed.

Lemma decode_local_operation_accepts r :
  is_ok (decode_local_operation r) =
  conforms local_operation_schema (VObject (rd_body r)) && local_operation_agrees (rd_body r).
Proof.
  unfold decode_local_operation, local_operation_schema. rewrite body_conforms_record. cbn [List.forallb].
  rewrite <- decode_reason_accepts, <- decode_child_accepts, <- !read_uuid_accepts, <- read_count_accepts, <- !read_word_accepts.
  rewrite <- !andb_assoc. apply is_ok_bind. intros a Ha. apply is_ok_bind. intros x Hx. apply is_ok_bind. intros c Hc.
  change (local_operation_agrees (rd_body r)) with
    (Bool.eqb (action_is La_Snooze (rd_body r)) (given "child" (rd_body r)) &&
     (action_is La_Expire (rd_body r) || negb (given "reason" (rd_body r)))).
  rewrite !(read_action r a _ Ha), <- (decode_child_given r c Hc), <- (decode_reason_given r x Hx).
  destruct (Bool.eqb _ _); cbn [negb].
  2:{ cbn [is_ok reader_fail]. by rewrite !andb_false_r. }
  replace (bool_decide (a = La_Expire) || negb (is_some x)) with (negb (negb (bool_decide (a = La_Expire)) && is_some x))
    by (by destruct (bool_decide (a = La_Expire)), (is_some x)).
  destruct (negb (bool_decide (a = La_Expire)) && is_some x) eqn:G; cbn [negb].
  - by rewrite !andb_false_r.
  - rewrite !andb_true_r. do 4 (apply is_ok_bind; intros). by destruct (read_word r "source").
Qed.
End local_operations.

(** C30: Each body the device sends is accepted exactly when it has the fields its
    schema names, of the types it names, and, for a local operation, when a child
    comes exactly with a snooze and a reason only with an expiry; the operation then
    keeps the body as received.  No other message type is decoded. *)
Theorem alert_bodies_by_schema `{UuidCrate, DebugText} mt body :
  match inbound_decode mt body with
  | Some r =>
      is_ok r = match mt with
                | Mt_AlertAck => conforms ack_schema (VObject body)
                | Mt_AlertLocalOperation => conforms local_operation_schema (VObject body) && local_operation_agrees body
                | Mt_AlertRingEnded => conforms ring_ended_schema (VObject body)
                | _ => conforms state_schema (VObject body)
                end /\
      (forall op, r = Ok (Ai_LocalOperation op) -> lo_body op = body) /\
      sent_by_device mt = true
  | None => mt <> Mt_AlertAck /\ mt <> Mt_AlertLocalOperation /\ mt <> Mt_AlertRingEnded /\ mt <> Mt_AlertState
  end.
Proof.
  destruct mt; cbn [inbound_decode]; try (by split_and!); (split_and!; [|intros op Hop|done]).
  - etrans; [|exact (decode_ack_accepts (mkReader body Mt_AlertAck))]. by destruct (decode_ack _).
  - by destruct (decode_ack _).
  - etrans; [|exact (decode_local_operation_accepts (mkReader body Mt_AlertLocalOperation))]. by destruct (decode_local_operation _).
  - destruct (decode_local_operation _); [|done]. by injection Hop as <-.
  - etrans; [|exact (decode_ring_ended_accepts (mkReader body Mt_AlertRingEnded))]. by destruct (decode_ring_ended _).
  - by destruct (decode_ring_ended _).
  - etrans; [|exact (decode_state_accepts (mkReader body Mt_AlertState))]. by destruct (decode_state _).
  - by destruct (decode_state _).
Qed.
