(* ===== verification/AlertDelivery.v ===== *)
(** * Delivery of a speaker's alert cache ([alerts/src/delivery.rs])

    One delivery epoch and sequence per speaker: snapshots of the live
    occurrences and deltas after them, decided here and sent by the service once
    the position is durable. *)
From Stdlib Require Import Floats.SpecFloat Sorting.Sorted.
From S2P Require Import Prelude Bytes WireEnum Float Ema Vocab Json Policy Session Clock Evidence Level Transcript Document Values Settings Stored Registry Canonical AlertBodies AlertWire.

Abbreviation SessionId := N.
Abbreviation Cache := (gmap Uuid OccurrenceObject).

Record Desired := mkDesired {
  ds_live : list OccurrenceObject;
  ds_reasons : gmap Uuid TombstoneReason;
}.
Record Outbox := mkOutbox {
  ob_bodies : list PostBody;
  ob_position : option (N * N);
}.
Definition no_outbox : Outbox := mkOutbox [] None.
Record Attached := mkAttached { at_session : SessionId; at_snapshot_owed : bool }.

Record Delivery := mkDelivery {
  dl_epoch : string;
  dl_sequence : N;
  dl_acked : N;
  dl_sent : option Cache;
  dl_unacked : list AlertDelta;
  dl_attached : option Attached;
}.
Definition set_acked (acked : N) (d : Delivery) : Delivery :=
  mkDelivery (dl_epoch d) (dl_sequence d) acked (dl_sent d) (dl_unacked d) (dl_attached d).
Definition set_sent (sent : option Cache) (d : Delivery) : Delivery :=
  mkDelivery (dl_epoch d) (dl_sequence d) (dl_acked d) sent (dl_unacked d) (dl_attached d).
Definition set_unacked (unacked : list AlertDelta) (d : Delivery) : Delivery :=
  mkDelivery (dl_epoch d) (dl_sequence d) (dl_acked d) (dl_sent d) unacked (dl_attached d).
Definition set_attached (attached : option Attached) (d : Delivery) : Delivery :=
  mkDelivery (dl_epoch d) (dl_sequence d) (dl_acked d) (dl_sent d) (dl_unacked d) attached.

(** The derived equality of two gains is that of floats. *)
Definition volume_eqb (a b : option F64) : bool :=
  match a, b with
  | Some a, Some b => f64_eqb a b
  | None, None => true
  | _, _ => false
  end.
Definition same_content (a b : OccurrenceObject) : bool :=
  String.eqb (oo_due_local a) (oo_due_local b) && (oo_due_utc_ms a =? oo_due_utc_ms b) &&
  bool_decide (oo_kind a = oo_kind b) && String.eqb (oo_label a) (oo_label b) &&
  (oo_loop_gap_ms a =? oo_loop_gap_ms b) && (oo_max_ring_ms a =? oo_max_ring_ms b) &&
  (oo_occurrence_id a =? oo_occurrence_id b) && (oo_ramp_ms a =? oo_ramp_ms b) &&
  (oo_schedule_id a =? oo_schedule_id b) && (oo_snooze_ms a =? oo_snooze_ms b) &&
  bool_decide (oo_sound a = oo_sound b) && volume_eqb (oo_volume a) (oo_volume b).

(** [collect] into a [BTreeMap] by occurrence, the last of a repeated one, and its
    values in key order. *)
Definition by_occurrence (l : list OccurrenceObject) : Cache :=
  foldl (fun m o => <[oo_occurrence_id o := o]> m) ∅ l.
Definition in_key_order {V} (m : gmap Uuid V) : list (Uuid * V) :=
  sort_by (fun a b => fst a <=? fst b) (map_to_list m).

(** [slice::chunks(SNAPSHOT_PAGE_OBJECTS)]. *)
Fixpoint chunks_from {A} (fuel : nat) (l : list A) : list (list A) :=
  match fuel, l with
  | S fuel, _ :: _ => take SNAPSHOT_PAGE_OBJECTS l :: chunks_from fuel (drop SNAPSHOT_PAGE_OBJECTS l)
  | _, _ => []
  end.
Definition chunks {A} (l : list A) : list (list A) := chunks_from (length l) l.

(** What one object of a delta, stamped with the delta's sequence, does to what the
    device will hold. *)
Definition stamp (sequence : N) (o : CacheObject) : CacheObject :=
  match o with
  | Co_Occurrence o => Co_Occurrence (with_revision sequence o)
  | Co_Tombstone t => Co_Tombstone (mkTombstoneObject (to_occurrence_id t) sequence (to_tombstone t))
  end.
Definition apply_object (m : Cache) (o : CacheObject) : Cache :=
  match o with
  | Co_Occurrence o => <[oo_occurrence_id o := o]> m
  | Co_Tombstone t => delete (to_occurrence_id t) m
  end.

(** ** Operations *)
Definition delivery_new (epoch : string) (sequence acked : N) : Delivery :=
  mkDelivery epoch sequence (N.min acked sequence) None [] None.
Definition dl_position (d : Delivery) : N * N := (dl_sequence d, dl_acked d).
Definition dl_session (d : Delivery) : option SessionId := at_session <$> dl_attached d.
Definition armed (id : Uuid) (d : Delivery) : bool :=
  match dl_sent d ≫= lookup id with Some o => oo_revision o <=? dl_acked d | None => false end.
Definition snapshot_owed (d : Delivery) : bool :=
  match dl_attached d with Some a => at_snapshot_owed a | None => false end.

Definition hello_position (hello : option HelloAlerts) : option (string * N) :=
  h ← hello; epoch ← ha_delivery_epoch h; acked ← ha_acked_sequence h; Some (epoch, acked).
Definition in_step (d : Delivery) (device : option (string * N)) : option N :=
  match device with
  | Some (epoch, acked) =>
      if String.eqb epoch (dl_epoch d) && bool_decide (is_Some (dl_sent d)) && (acked <=? dl_sequence d) &&
         ((acked =? dl_sequence d) || match head (dl_unacked d) with Some first => ad_sequence first <=? acked + 1 | None => false end)
      then Some acked else None
  | None => None
  end.
Definition attach (session : SessionId) (hello : option HelloAlerts) (d : Delivery) : Delivery * Outbox :=
  match in_step d (hello_position hello) with
  | Some device_acked =>
      let moved := dl_acked d <? device_acked in
      let d := if moved then set_acked device_acked d else d in
      let unacked := retain (fun delta => device_acked <? ad_sequence delta) (dl_unacked d) in
      (set_attached (Some (mkAttached session false)) (set_unacked unacked d),
       mkOutbox (Pb_Delta <$> unacked) (if moved then Some (dl_position d) else None))
  | None => (set_attached (Some (mkAttached session true)) d, no_outbox)
  end.
Definition detach (session : SessionId) (d : Delivery) : Delivery :=
  if bool_decide (dl_session d = Some session) then set_attached None d else d.

Definition owe_snapshot (d : Delivery) : Delivery :=
  set_attached ((fun a => mkAttached (at_session a) true) <$> dl_attached d) d.
Definition delivery_ack (ack : AlertAck) (d : Delivery) : Delivery * Outbox :=
  let d := if aa_need_snapshot ack then owe_snapshot d else d in
  if aa_durable ack && bool_decide (aa_delivery_epoch ack = Some (dl_epoch d)) &&
     (aa_applied_through ack <=? dl_sequence d) && (dl_acked d <? aa_applied_through ack)
  then
    let d := set_acked (aa_applied_through ack) d in
    let d := set_unacked (retain (fun delta => dl_acked d <? ad_sequence delta) (dl_unacked d)) d in
    (d, mkOutbox [] (Some (dl_position d)))
  else (d, no_outbox).

(** [next_delta]; its caller has sent the epoch's state. *)
Definition next_delta (objects : list CacheObject) (d : Delivery) : Delivery * PostBody :=
  let sequence := dl_sequence d + 1 in
  let objects := List.map (stamp sequence) objects in
  let delta := mkAlertDelta (dl_epoch d) sequence objects in
  (mkDelivery (dl_epoch d) sequence (dl_acked d) ((fun sent => foldl apply_object sent objects) <$> dl_sent d)
     (dl_unacked d ++ [delta]) (dl_attached d),
   Pb_Delta delta).
Fixpoint next_deltas (groups : list (list CacheObject)) (d : Delivery) : Delivery * list PostBody :=
  match groups with
  | [] => (d, [])
  | objects :: groups =>
      let '(d, delta) := next_delta objects d in
      let '(d, deltas) := next_deltas groups d in
      (d, delta :: deltas)
  end.

Section refresh.
Context `{UuidCrate, Digest}.

Definition snapshot_object (previous : Cache) (high : N) (o : OccurrenceObject) : OccurrenceObject :=
  with_revision (match previous !! oo_occurrence_id o with
                 | Some old => if same_content old o then oo_revision old else high
                 | None => high
                 end) o.
Definition delivery_snapshot (desired : Desired) (d : Delivery) : Delivery * result SnapshotError Outbox :=
  let high := dl_sequence d + 1 in
  let previous := default ∅ (dl_sent d) in
  let objects := List.map (snapshot_object previous high) (ds_live desired) in
  match snapshot_pages (dl_epoch d) high objects with
  | Err error => (set_sent (Some previous) d, Err error)
  | Ok pages =>
      let d := mkDelivery (dl_epoch d) high (dl_acked d) (Some (by_occurrence objects)) []
                 ((fun a => mkAttached (at_session a) false) <$> dl_attached d) in
      (d, Ok (mkOutbox (Pb_Snapshot <$> pages) (Some (dl_position d))))
  end.

(** What changed since the state last sent: the occurrences that left, then those
    that are new or differ. *)
Definition tombstone_of (desired : Desired) (id : Uuid) : CacheObject :=
  Co_Tombstone (mkTombstoneObject id 0 (default Tr_Deleted (ds_reasons desired !! id))).
Definition delivery_changes (sent : Cache) (desired : Desired) : list CacheObject :=
  let live := by_occurrence (ds_live desired) in
  List.map (fun e => tombstone_of desired (fst e))
    (List.filter (fun e => negb (is_some (live !! fst e))) (in_key_order sent)) ++
  List.map (fun e => Co_Occurrence (snd e))
    (List.filter (fun e => match sent !! fst e with Some old => negb (same_content old (snd e)) | None => true end)
       (in_key_order live)).
Definition delivery_refresh (desired : Desired) (d : Delivery) : Delivery * result SnapshotError Outbox :=
  match dl_attached d with
  | None => (d, Ok no_outbox)
  | Some attached =>
      match dl_sent d with
      | Some sent =>
          if at_snapshot_owed attached then delivery_snapshot desired d
          else
            let '(d, bodies) := next_deltas (chunks (delivery_changes sent desired)) d in
            (d, Ok (mkOutbox bodies (match bodies with [] => None | _ => Some (dl_position d) end)))
      | None => delivery_snapshot desired d
      end
  end.
Definition retract (removed : list (Uuid * TombstoneReason)) (d : Delivery) : Delivery * Outbox :=
  let ready := match dl_attached d with Some a => negb (at_snapshot_owed a) | None => false end in
  if negb ready || (match removed with [] => true | _ => false end) || negb (is_some (dl_sent d)) then (d, no_outbox)
  else
    let '(d, delta) := next_delta (List.map (fun '(id, reason) => Co_Tombstone (mkTombstoneObject id 0 reason)) removed) d in
    (d, mkOutbox [delta] (Some (dl_position d))).
End refresh.

(** ** Facts of the parts *)
Lemma volume_eqb_eq a b : volume_ok b = true -> volume_eqb a b = true -> a = b.
Proof.
  destruct a as [a|], b as [b|]; [|done|done|done]. cbn [volume_ok volume_eqb]. intros Hb He. f_equal.
  unfold f64_eqb, SFeqb in He. destruct (SFcompare a b) as [[]|] eqn:Ec; try done.
  destruct b as [s|s| |s m e], a as [t|t| |t n k]; try done; cbn [SFcompare] in Ec; try (by destruct s); try (by destruct t).
  destruct t, s; try done; destruct (Z.compare_spec k e) as [->|?|?]; try done;
    destruct (Pos.compare_cont Eq n m) eqn:Em; try done; by apply Pos.compare_eq in Em as ->.
Qed.
Lemma volume_eqb_refl a : volume_ok a = true -> volume_eqb a a = true.
Proof.
  destruct a as [[s|s| |s m e]|]; try done; [by destruct s|]. intros _. cbn [volume_eqb]. unfold f64_eqb, SFeqb.
  cbn [SFcompare]. destruct s; rewrite Z.compare_refl; change (Pos.compare_cont Eq m m) with (m ?= m)%positive;
    by rewrite Pos.compare_refl.
Qed.

Lemma same_content_spec a b :
  same_content a b = true <->
  exists volume, a = mkOccurrenceObject (oo_due_local b) (oo_due_utc_ms b) (oo_kind b) (oo_label b) (oo_loop_gap_ms b)
    (oo_max_ring_ms b) (oo_occurrence_id b) (oo_ramp_ms b) (oo_revision a) (oo_schedule_id b) (oo_snooze_ms b) (oo_sound b) volume /\
    volume_eqb volume (oo_volume b) = true.
Proof.
  unfold same_content. rewrite !andb_true_iff, !String.eqb_eq, !N.eqb_eq, !bool_decide_eq_true. destruct a, b.
  simpl. split; [intros; destruct_and!; subst; eauto|]. intros (volume & He & Hv). injection He as -> -> -> -> -> -> -> -> -> -> -> ->. by split_and!.
Qed.
Lemma same_content_eq a b :
  volume_ok (oo_volume b) = true -> same_content a b = true -> a = with_revision (oo_revision a) b.
Proof.
  intros Hb (volume & He & Hv)%same_content_spec. apply volume_eqb_eq in Hv as ->; [|done]. exact He.
Qed.
Lemma same_content_revision o r : volume_ok (oo_volume o) = true -> same_content (with_revision r o) o = true.
Proof. intros Ho. apply same_content_spec. exists (oo_volume o). split; [done|]. by apply volume_eqb_refl. Qed.

Lemma concat_chunks {A} (l : list A) : List.concat (chunks l) = l.
Proof.
  unfold chunks. assert (H : forall n (l : list A), (length l <= n)%nat -> List.concat (chunks_from n l) = l); [|by apply H].
  clear l. induction n as [|n IH]; intros [|a l] Hn; try done; [cbn in Hn; lia|]. cbn [chunks_from].
  cbn [List.concat]. rewrite IH; [apply take_drop|]. rewrite length_drop. unfold SNAPSHOT_PAGE_OBJECTS. cbn [length] in *. lia.
Qed.
Lemma chunks_bounded {A} (l : list A) : Forall (fun c => c <> [] /\ (length c <= SNAPSHOT_PAGE_OBJECTS)%nat) (chunks l).
Proof.
  unfold chunks. generalize (length l) as n. intros n. revert l. induction n as [|n IH]; intros [|a l]; cbn [chunks_from]; constructor; [|apply IH].
  split; [done|]. rewrite length_take. lia.
Qed.
Lemma in_key_order_perm {V} (m : gmap Uuid V) : in_key_order m ≡ₚ map_to_list m.
Proof. apply sort_by_perm. Qed.
Lemma elem_of_in_key_order {V} (m : gmap Uuid V) e : e ∈ in_key_order m <-> m !! fst e = Some (snd e).
Proof. rewrite in_key_order_perm. destruct e. apply elem_of_map_to_list. Qed.

Lemma by_occurrence_snoc l o : by_occurrence (l ++ [o]) = <[oo_occurrence_id o := o]> (by_occurrence l).
Proof. unfold by_occurrence. by rewrite foldl_app. Qed.
Lemma by_occurrence_Some l id o : by_occurrence l !! id = Some o -> o ∈ l /\ oo_occurrence_id o = id.
Proof.
  induction l as [|x l IH] using rev_ind; [done|]. rewrite by_occurrence_snoc, lookup_insert_Some.
  intros [[<- ->]|[_ [? ?]%IH]]; set_solver.
Qed.
Lemma by_occurrence_None l id : by_occurrence l !! id = None <-> id ∉ oo_occurrence_id <$> l.
Proof.
  induction l as [|x l IH] using rev_ind; [cbn; set_solver|].
  rewrite by_occurrence_snoc, lookup_insert_None, IH, fmap_app, elem_of_app. cbn [fmap list_fmap]. rewrite list_elem_of_singleton. naive_solver.
Qed.
Lemma by_occurrence_lookup l o : NoDup (oo_occurrence_id <$> l) -> o ∈ l -> by_occurrence l !! oo_occurrence_id o = Some o.
Proof.
  induction l as [|x l IH] using rev_ind; [set_solver|]. rewrite fmap_app, NoDup_app. intros (Hl & Hd & _) Ho.
  rewrite by_occurrence_snoc. apply elem_of_app in Ho as [Ho|Ho%list_elem_of_singleton].
  - rewrite lookup_insert_ne; [by apply IH|]. intros E. apply (Hd (oo_occurrence_id o)); [by apply list_elem_of_fmap_2|].
    cbn. rewrite E. set_solver.
  - subst. apply lookup_insert_eq.
Qed.
Lemma by_occurrence_perm l l' : NoDup (oo_occurrence_id <$> l) -> l ≡ₚ l' -> by_occurrence l = by_occurrence l'.
Proof.
  intros Hd Hp. apply map_eq. intros id. destruct (by_occurrence l !! id) as [o|] eqn:E.
  - apply by_occurrence_Some in E as [Ho <-]. symmetry. apply by_occurrence_lookup; by rewrite <- ?Hp.
  - symmetry. apply by_occurrence_None. apply by_occurrence_None in E. by rewrite <- Hp.
Qed.

(** ** Deltas *)
Lemma next_deltas_spec groups d :
  let '(d', bodies) := next_deltas groups d in
  let deltas := imap (fun i objects => mkAlertDelta (dl_epoch d) (dl_sequence d + 1 + N.of_nat i)
                        (List.map (stamp (dl_sequence d + 1 + N.of_nat i)) objects)) groups in
  bodies = Pb_Delta <$> deltas /\ dl_unacked d' = dl_unacked d ++ deltas /\
  dl_sequence d' = dl_sequence d + N.of_nat (length groups) /\ dl_epoch d' = dl_epoch d /\ dl_acked d' = dl_acked d /\
  dl_attached d' = dl_attached d /\
  dl_sent d' = (fun sent => foldl (fun m delta => foldl apply_object m (ad_objects delta)) sent deltas) <$> dl_sent d.
Proof.
  revert d. induction groups as [|objects groups IH]; intros d; cbn [next_deltas].
  - cbn. rewrite app_nil_r. split_and!; try done; [lia|]. by destruct (dl_sent d).
  - unfold next_delta. specialize (IH (mkDelivery (dl_epoch d) (dl_sequence d + 1) (dl_acked d)
      ((fun sent => foldl apply_object sent (List.map (stamp (dl_sequence d + 1)) objects)) <$> dl_sent d)
      (dl_unacked d ++ [mkAlertDelta (dl_epoch d) (dl_sequence d + 1) (List.map (stamp (dl_sequence d + 1)) objects)]) (dl_attached d))).
    destruct (next_deltas groups _) as [d' bodies]. cbn [dl_epoch dl_sequence dl_acked dl_sent dl_unacked dl_attached] in IH.
    destruct IH as (-> & -> & -> & -> & -> & -> & ->). cbn [imap].
    assert (Ei : imap (fun i objects0 => mkAlertDelta (dl_epoch d) (dl_sequence d + 1 + 1 + N.of_nat i)
                        (List.map (stamp (dl_sequence d + 1 + 1 + N.of_nat i)) objects0)) groups
               = imap ((fun i objects0 => mkAlertDelta (dl_epoch d) (dl_sequence d + 1 + N.of_nat i)
                        (List.map (stamp (dl_sequence d + 1 + N.of_nat i)) objects0)) ∘ S) groups).
    { apply imap_ext. intros i x _. cbn [compose]. by replace (dl_sequence d + 1 + 1 + N.of_nat i) with (dl_sequence d + 1 + N.of_nat (S i)) by lia. }
    rewrite Ei. change (N.of_nat 0) with 0. rewrite N.add_0_r. cbn [length]. split_and!; try done.
    + by rewrite <- app_assoc.
    + lia.
    + destruct (dl_sent d); done.
Qed.

(** *** What a delta's objects do *)
Definition touched (o : CacheObject) : Uuid :=
  match o with Co_Occurrence o => oo_occurrence_id o | Co_Tombstone t => to_occurrence_id t end.
Definition effect (o : CacheObject) : option OccurrenceObject :=
  match o with Co_Occurrence o => Some o | Co_Tombstone _ => None end.
Lemma apply_object_lookup m o id :
  apply_object m o !! id = if decide (touched o = id) then effect o else m !! id.
Proof.
  destruct o as [o|t]; cbn [apply_object touched effect]; case_decide; subst.
  - by rewrite lookup_insert_eq.
  - by rewrite lookup_insert_ne.
  - by rewrite lookup_delete_eq.
  - by rewrite lookup_delete_ne.
Qed.
Lemma apply_objects_untouched objects m id :
  id ∉ touched <$> objects -> foldl apply_object m objects !! id = m !! id.
Proof.
  revert m. induction objects as [|o objects IH]; intros m Hn; [done|]. cbn [foldl]. cbn [fmap list_fmap] in Hn.
  rewrite IH by set_solver. rewrite apply_object_lookup, decide_False; [done|]. set_solver.
Qed.
Lemma apply_objects_touched objects m o :
  NoDup (touched <$> objects) -> o ∈ objects -> foldl apply_object m objects !! touched o = effect o.
Proof.
  revert m. induction objects as [|o' objects IH]; intros m Hd Ho; [set_solver|]. cbn [fmap list_fmap] in Hd.
  apply NoDup_cons in Hd as [Hn Hd]. cbn [foldl]. apply elem_of_cons in Ho as [->|Ho]; [|by apply IH].
  rewrite apply_objects_untouched by done. rewrite apply_object_lookup. by rewrite decide_True.
Qed.
Lemma apply_objects_keyed objects m :
  map_Forall (fun id o => oo_occurrence_id o = id) m ->
  map_Forall (fun id o => oo_occurrence_id o = id) (foldl apply_object m objects).
Proof.
  revert m. induction objects as [|o objects IH]; intros m Hm; [done|]. cbn [foldl]. apply IH. intros id x.
  rewrite apply_object_lookup. case_decide; [|apply Hm]. subst. destruct o; cbn [effect touched]; [by intros [= ->]|done].
Qed.

(** [m] is what the list says, whatever the revisions. *)
Definition holds_live (m : Cache) (live : list OccurrenceObject) : Prop :=
  forall id, match m !! id, by_occurrence live !! id with
             | Some a, Some b => same_content a b = true
             | None, None => True
             | _, _ => False
             end.

(** The same objects with some sequences stamped. *)
Definition stamped : list CacheObject -> list CacheObject -> Prop := Forall2 (fun c s => exists r, s = stamp r c).
Lemma touched_stamp r o : touched (stamp r o) = touched o.
Proof. by destruct o. Qed.
Lemma touched_stamped cs ss : stamped cs ss -> touched <$> ss = touched <$> cs.
Proof. induction 1 as [|c s cs ss [r ->] _ IH]; [done|]. rewrite !fmap_cons, IH. by rewrite touched_stamp. Qed.
Lemma stamped_deltas (groups : list (list CacheObject)) epoch n :
  stamped (List.concat groups)
    (List.concat (ad_objects <$> imap (fun i objects => mkAlertDelta epoch (n + N.of_nat i) (List.map (stamp (n + N.of_nat i)) objects)) groups)).
Proof.
  revert n. induction groups as [|g groups IH]; intros n; [constructor|]. cbn [imap]. rewrite fmap_cons. cbn [ad_objects List.concat].
  apply Forall2_app.
  - induction g; constructor; [by eexists|done].
  - specialize (IH (n + 1)).
    erewrite (imap_ext _ _ groups); [exact IH|]. intros i x _. cbn [compose]. by replace (n + N.of_nat (S i)) with (n + 1 + N.of_nat i) by lia.
Qed.

Lemma NoDup_filter_list {A} (p : A -> bool) l : NoDup l -> NoDup (List.filter p l).
Proof.
  induction 1 as [|x l Hx _ IH]; cbn [List.filter]; [constructor|]. destruct (p x); [|done]. constructor; [|done].
  intros Hi. apply Hx. apply list_elem_of_In, filter_In in Hi as [Hi _]. by apply list_elem_of_In.
Qed.
Lemma in_key_order_NoDup {V} (m : gmap Uuid V) (p : Uuid * V -> bool) : NoDup (fst <$> List.filter p (in_key_order m)).
Proof.
  assert (Hd : NoDup (fst <$> in_key_order m)) by (rewrite in_key_order_perm; apply NoDup_fst_map_to_list).
  revert Hd. generalize (in_key_order m). intros l. induction l as [|x l IH]; cbn [List.filter]; [done|].
  rewrite fmap_cons. intros [Hx Hd]%NoDup_cons. destruct (p x); [|by apply IH]. rewrite fmap_cons. constructor; [|by apply IH].
  intros (y & Ey & Hy)%list_elem_of_fmap. apply list_elem_of_In, filter_In in Hy as [Hy _]. apply Hx. rewrite Ey. apply list_elem_of_fmap_2. by apply list_elem_of_In.
Qed.

Section changes.
Context (sent : Cache) (desired : Desired).
Let live := by_occurrence (ds_live desired).

Lemma elem_of_changes c :
  c ∈ delivery_changes sent desired <->
  (exists id o, sent !! id = Some o /\ live !! id = None /\ c = tombstone_of desired id) \/
  (exists id o, live !! id = Some o /\ (forall old, sent !! id = Some old -> same_content old o = false) /\ c = Co_Occurrence o).
Proof.
  unfold delivery_changes. fold live. rewrite elem_of_app. split.
  - intros [Hc|Hc]; apply list_elem_of_In, in_map_iff in Hc as ([id o] & <- & Hf); apply filter_In in Hf as [Hi Hp];
      apply list_elem_of_In, elem_of_in_key_order in Hi; cbn [fst snd] in *.
    + left. exists id, o. split_and!; [done| |done]. by destruct (live !! id).
    + right. exists id, o. split_and!; [done| |done]. intros old Eo. rewrite Eo in Hp. by apply negb_true_iff.
  - intros [(id & o & Hs & Hl & ->)|(id & o & Hl & Hs & ->)]; [left|right].
    + apply list_elem_of_In, in_map_iff. exists (id, o). split; [done|]. apply filter_In.
      split; [by apply list_elem_of_In, elem_of_in_key_order|]. cbn [fst]. by rewrite Hl.
    + apply list_elem_of_In, in_map_iff. exists (id, o). split; [done|]. apply filter_In.
      split; [by apply list_elem_of_In, elem_of_in_key_order|]. cbn [fst snd]. destruct (sent !! id) as [old|] eqn:E; [|done].
      by rewrite Hs.
Qed.
Lemma touched_map (f : Uuid * OccurrenceObject -> CacheObject) l :
  (forall e, e ∈ l -> touched (f e) = fst e) -> touched <$> List.map f l = fst <$> l.
Proof.
  induction l as [|e l IH]; intros Hf; [done|]. cbn [List.map]. rewrite !fmap_cons, IH, Hf; [done|set_solver..].
Qed.
Lemma changes_NoDup : NoDup (touched <$> delivery_changes sent desired).
Proof.
  unfold delivery_changes. fold live. rewrite fmap_app. apply NoDup_app. split_and!.
  - rewrite touched_map by done. apply in_key_order_NoDup.
  - intros id Hid Hid'. apply list_elem_of_fmap in Hid as (c & -> & Hc), Hid' as (c' & E & Hc').
    apply list_elem_of_In, in_map_iff in Hc as ([i o] & <- & Hf%filter_In), Hc' as ([i' o'] & <- & Hf'%filter_In).
    destruct Hf as [_ Hn], Hf' as [Hi' _]. cbn [fst snd tombstone_of touched to_occurrence_id] in *.
    apply list_elem_of_In, elem_of_in_key_order in Hi'. cbn [fst snd] in Hi'. pose proof (by_occurrence_Some _ _ _ Hi') as [_ Ei].
    subst. by rewrite Hi' in Hn.
  - rewrite touched_map; [apply in_key_order_NoDup|]. intros [id o] Hf.
    apply list_elem_of_In, filter_In in Hf as [Hi%list_elem_of_In%elem_of_in_key_order _]. by apply by_occurrence_Some in Hi as [_ ?].
Qed.

(** Applying what changed brings what was sent to what is live. *)
Lemma changes_bring_live objects :
  Forall (fun o => volume_ok (oo_volume o) = true) (ds_live desired) ->
  stamped (delivery_changes sent desired) objects -> holds_live (foldl apply_object sent objects) (ds_live desired).
Proof.
  intros Hv Hs id. pose proof (touched_stamped _ _ Hs) as Ht. pose proof changes_NoDup as Hd. rewrite <- Ht in Hd. fold live.
  assert (Hin : forall c, c ∈ delivery_changes sent desired -> touched c = id ->
            exists r, foldl apply_object sent objects !! id = effect (stamp r c)).
  { intros c Hc <-. apply list_elem_of_lookup in Hc as [i Hi]. destruct (Forall2_lookup_l _ _ _ _ _ Hs Hi) as (s & Hsi & r & ->).
    exists r. rewrite <- (touched_stamp r). apply apply_objects_touched; [done|]. by eapply list_elem_of_lookup_2. }
  destruct (live !! id) as [o|] eqn:El.
  - pose proof (by_occurrence_Some _ _ _ El) as [Ho Eid]. rewrite Forall_forall in Hv. apply Hv in Ho.
    destruct (match sent !! id with Some old => same_content old o | None => false end) eqn:Hn.
    + destruct (sent !! id) as [old|] eqn:Es; [|done].
      rewrite apply_objects_untouched; [by rewrite Es|]. rewrite Ht. intros (c & Ec' & Hc)%list_elem_of_fmap.
      apply elem_of_changes in Hc as [(i & x & ? & Hl & ->)|(i & x & Hl & Hx & ->)]; cbn [touched tombstone_of to_occurrence_id] in Ec'; [congruence|].
      pose proof (by_occurrence_Some _ _ _ Hl) as [_ Ei]. assert (i = id) as -> by congruence.
      assert (x = o) as -> by congruence. specialize (Hx _ Es). congruence.
    + destruct (Hin (Co_Occurrence o)) as [r ->]; [|done|by apply same_content_revision].
      apply elem_of_changes. right. exists id, o. split_and!; [done| |done]. intros old Es. by rewrite Es in Hn.
  - destruct (sent !! id) as [o|] eqn:Es.
    + destruct (Hin (tombstone_of desired id)) as [r ->]; [|done|done]. apply elem_of_changes. left. by exists id, o.
    + rewrite apply_objects_untouched; [by rewrite Es|]. rewrite Ht. intros (c & Ec & Hc)%list_elem_of_fmap.
      apply elem_of_changes in Hc as [(i & x & ? & Hl & ->)|(i & x & Hl & Hx & ->)]; cbn [touched tombstone_of to_occurrence_id] in Ec; [congruence|].
      pose proof (by_occurrence_Some _ _ _ Hl) as [_ Ei]. congruence.
Qed.
End changes.

(** ** Refreshing *)
Definition desired_ok (desired : Desired) : Prop :=
  NoDup (oo_occurrence_id <$> ds_live desired) /\ Forall (fun o => object_ok o = true) (ds_live desired).
Lemma desired_volumes desired : desired_ok desired -> Forall (fun o => volume_ok (oo_volume o) = true) (ds_live desired).
Proof. intros [_ Ho]. eapply Forall_impl; [exact Ho|]. intros o. unfold object_ok. by intros [_ ?]%andb_true_iff. Qed.

Lemma snapshot_object_revision previous high o :
  exists r, snapshot_object previous high o = with_revision r o /\
    (r = high \/ exists old, previous !! oo_occurrence_id o = Some old /\ same_content old o = true /\ r = oo_revision old).
Proof.
  unfold snapshot_object. destruct (previous !! oo_occurrence_id o) as [old|] eqn:E; [|eauto].
  destruct (same_content old o) eqn:Ec; eauto 10.
Qed.
Lemma snapshot_object_id previous high o : oo_occurrence_id (snapshot_object previous high o) = oo_occurrence_id o.
Proof. done. Qed.
Lemma snapshot_ids previous high l :
  oo_occurrence_id <$> List.map (snapshot_object previous high) l = oo_occurrence_id <$> l.
Proof. induction l as [|o l IH]; [done|]. cbn [List.map]. by rewrite !fmap_cons, IH. Qed.
Lemma by_occurrence_map f l :
  (forall o, oo_occurrence_id (f o) = oo_occurrence_id o) -> by_occurrence (List.map f l) = f <$> by_occurrence l.
Proof.
  intros Hf. induction l as [|o l IH] using rev_ind.
  { change (by_occurrence []) with (∅ : Cache). symmetry. apply fmap_empty. }
  rewrite List.map_app. cbn [List.map]. by rewrite !by_occurrence_snoc, IH, fmap_insert, Hf.
Qed.
Lemma snapshot_object_ok previous high o : object_ok (snapshot_object previous high o) = object_ok o.
Proof. done. Qed.
Lemma snapshot_holds_live previous high desired :
  desired_ok desired -> holds_live (by_occurrence (List.map (snapshot_object previous high) (ds_live desired))) (ds_live desired).
Proof.
  intros Hok id. rewrite by_occurrence_map by (intros; apply snapshot_object_id). rewrite lookup_fmap.
  destruct (by_occurrence (ds_live desired) !! id) as [o|] eqn:E; [|done]. cbn.
  apply by_occurrence_Some in E as [Ho _]. pose proof (desired_volumes _ Hok) as Hv. rewrite Forall_forall in Hv.
  destruct (snapshot_object_revision previous high o) as (r & -> & _). by apply same_content_revision, Hv.
Qed.

Section refreshing.
Context `{UuidCrate, Digest}.

Lemma snapshot_succeeds desired d :
  desired_ok desired ->
  exists pages, snapshot_pages (dl_epoch d) (dl_sequence d + 1)
      (List.map (snapshot_object (default ∅ (dl_sent d)) (dl_sequence d + 1)) (ds_live desired)) = Ok pages /\
    delivery_snapshot desired d =
    (mkDelivery (dl_epoch d) (dl_sequence d + 1) (dl_acked d)
       (Some (by_occurrence (List.map (snapshot_object (default ∅ (dl_sent d)) (dl_sequence d + 1)) (ds_live desired)))) []
       ((fun a => mkAttached (at_session a) false) <$> dl_attached d),
     Ok (mkOutbox (Pb_Snapshot <$> pages) (Some (dl_sequence d + 1, dl_acked d)))).
Proof.
  intros [_ Hok]. unfold delivery_snapshot. cbv zeta.
  destruct (snapshot_pages_ok (dl_epoch d) (dl_sequence d + 1)
    (List.map (snapshot_object (default ∅ (dl_sent d)) (dl_sequence d + 1)) (ds_live desired))) as [pages E].
  - apply Forall_forall. intros o Ho. apply list_elem_of_In, in_map_iff in Ho as (x & <- & Hx).
    rewrite snapshot_object_ok. rewrite Forall_forall in Hok. by apply Hok, list_elem_of_In.
  - exists pages. rewrite E. done.
Qed.

(** What the deltas of a refresh leave sent. *)
Lemma delta_refresh desired d sent :
  desired_ok desired -> dl_sent d = Some sent ->
  let '(d', bodies) := next_deltas (chunks (delivery_changes sent desired)) d in
  exists m, dl_sent d' = Some m /\ holds_live m (ds_live desired).
Proof.
  intros Hok Hs. pose proof (next_deltas_spec (chunks (delivery_changes sent desired)) d) as Hn.
  destruct (next_deltas _ d) as [d' bodies]. destruct Hn as (_ & _ & _ & _ & _ & _ & Hsent). rewrite Hs in Hsent. cbn [fmap option_fmap option_map] in Hsent.
  eexists. split; [exact Hsent|].
  pose proof (stamped_deltas (chunks (delivery_changes sent desired)) (dl_epoch d) (dl_sequence d + 1)) as Hst.
  rewrite concat_chunks in Hst. revert Hst.
  generalize (imap (fun i objects => mkAlertDelta (dl_epoch d) (dl_sequence d + 1 + N.of_nat i)
                (List.map (stamp (dl_sequence d + 1 + N.of_nat i)) objects)) (chunks (delivery_changes sent desired))).
  intros deltas Hst. apply (changes_bring_live _ _ _ (desired_volumes _ Hok)) in Hst.
  replace (foldl (fun m delta => foldl apply_object m (ad_objects delta)) sent deltas)
    with (foldl apply_object sent (List.concat (ad_objects <$> deltas))); [done|].
  clear. revert sent. induction deltas as [|dt deltas IH]; intros sent; [done|]. rewrite fmap_cons. cbn [List.concat foldl].
  by rewrite foldl_app, IH.
Qed.

(** A refresh of an attached session with well-formed occurrences succeeds and
    leaves, as what the device will hold, exactly the live occurrences, whatever
    their revisions; it owes the session no snapshot then, keeps the epoch and the
    acknowledged sequence, and reports the new position whenever it sends
    anything. *)
Theorem refresh_sends_what_is_live desired d a :
  desired_ok desired -> dl_attached d = Some a ->
  exists d' out m, delivery_refresh desired d = (d', Ok out) /\ dl_sent d' = Some m /\ holds_live m (ds_live desired) /\
    dl_attached d' = Some (mkAttached (at_session a) false) /\ dl_epoch d' = dl_epoch d /\ dl_acked d' = dl_acked d /\
    (ob_bodies out <> [] -> ob_position out = Some (dl_position d') /\ dl_sequence d < dl_sequence d') /\
    (ob_bodies out = [] -> d' = d /\ ob_position out = None).
Proof.
  intros Hok Ha. assert (Hsnap : exists d' out m, delivery_snapshot desired d = (d', Ok out) /\ dl_sent d' = Some m /\
    holds_live m (ds_live desired) /\ dl_attached d' = Some (mkAttached (at_session a) false) /\ dl_epoch d' = dl_epoch d /\
    dl_acked d' = dl_acked d /\ (ob_bodies out <> [] -> ob_position out = Some (dl_position d') /\ dl_sequence d < dl_sequence d') /\
    (ob_bodies out = [] -> d' = d /\ ob_position out = None)).
  { destruct (snapshot_succeeds desired d Hok) as (pages & Hp & ->). do 3 eexists. split; [reflexivity|].
    cbn [dl_sent dl_attached dl_epoch dl_acked dl_sequence ob_bodies ob_position dl_position]. rewrite Ha. split_and!; try done.
    - by apply snapshot_holds_live.
    - intros _. split; [done|lia].
    - apply snapshot_pages_nonempty in Hp. by destruct pages. }
  unfold delivery_refresh. rewrite Ha. destruct (dl_sent d) as [sent|] eqn:Es; [|done].
  destruct (at_snapshot_owed a) eqn:Eo; [done|].
  pose proof (delta_refresh desired d sent Hok Es) as Hd.
  pose proof (next_deltas_spec (chunks (delivery_changes sent desired)) d) as Hn.
  destruct (next_deltas _ d) as [d' bodies] eqn:En. destruct Hd as (m & Hm & Hl).
  destruct Hn as (Hb & Hu & Hseq & He & Hk & Hat & _). do 3 eexists. split; [reflexivity|].
  cbn [ob_bodies ob_position]. split_and!; try done.
  - rewrite Hat, Ha. destruct a as [s o]. cbn in Eo. by subst.
  - intros Hne. destruct bodies as [|b bodies]; [done|]. split; [done|]. rewrite Hseq.
    destruct (chunks _) as [|g groups]; [done|]. cbn [length]. lia.
  - intros ->. destruct (chunks _) as [|g groups]; [|done]. cbn [next_deltas] in En. by injection En as <-.
Qed.
End refreshing.
