(* ===== verification/AlertSync.v ===== *)
(** * A speaker and its device in step

    The contract of [alerts/src/delivery.rs] with the device.  [Receiver] is the
    device's side, [alerts/delivery.go]: a delta at its position plus one, a snapshot
    once all its pages are there and their digest agrees, both only if the
    transaction commits, and the acknowledgement of each; its store can come back
    empty or corrupt.  [Sync] puts the controller's delivery, the session's messages
    in flight and the device together, with losses at every session's end and
    restarts of both ends; [faulty_step] adds writes that fail.  Left out of the
    device: its local operations, rings and sounds, and the checks of a body's form
    ([json.Unmarshal], [parseObject], [IsSHA256]), which is typed here. *)
From Stdlib Require Import Floats.SpecFloat Sorting.Sorted.
From S2P Require Import Prelude Bytes WireEnum Float Ema Vocab Json Policy Session Clock Evidence Level Transcript Document Values Settings Stored Registry Canonical AlertBodies AlertWire AlertDelivery.

(** ** The device *)
(** [snapshotStage]. *)
Record Stage := mkStage {
  sg_epoch : string;
  sg_high : N;
  sg_count : nat;
  sg_sha : string;
  sg_next : nat;
  sg_values : list OccurrenceObject;
}.
(** What the device's store says of the delivery: its position, the delivered
    occurrences and whether the store was found corrupt, with the staged snapshot. *)
Record Receiver := mkReceiver {
  rv_epoch : option string;
  rv_acked : N;
  rv_cache : Cache;
  rv_corrupt : bool;
  rv_stage : option Stage;
}.
Definition set_stage (stage : option Stage) (r : Receiver) : Receiver :=
  mkReceiver (rv_epoch r) (rv_acked r) (rv_cache r) (rv_corrupt r) stage.

(** [ackLocked], and the empty acknowledgement of a page that is not the last. *)
Definition device_ack (need_snapshot durable : bool) (r : Receiver) : AlertAck :=
  mkAlertAck (rv_epoch r) (rv_acked r) durable (need_snapshot || rv_corrupt r).
Definition page_ack : AlertAck := mkAlertAck None 0 false false.
Definition reject_snapshot (r : Receiver) : Receiver * AlertAck :=
  let r := set_stage None r in (r, device_ack true true r).

Section receiver.
Context `{UuidCrate, Digest}.

Definition page_admissible (p : AlertSnapshotPage) : bool :=
  (0 <? sp_page_count p)%nat && (sp_page_index p <? sp_page_count p)%nat && (length (sp_objects p) <=? SNAPSHOT_PAGE_OBJECTS)%nat.
Definition page_continues (p : AlertSnapshotPage) (sg : Stage) : bool :=
  (sg_next sg =? sp_page_index p)%nat && String.eqb (sg_epoch sg) (sp_delivery_epoch p) && (sg_high sg =? sp_high_water_mark p) &&
  (sg_count sg =? sp_page_count p)%nat && String.eqb (sg_sha sg) (sp_sha256 p).
Definition page_stage (p : AlertSnapshotPage) (r : Receiver) : option Stage :=
  if (sp_page_index p =? 0)%nat
  then Some (mkStage (sp_delivery_epoch p) (sp_high_water_mark p) (sp_page_count p) (sp_sha256 p) 0 [])
  else rv_stage r.
(** [stored]: whether the transaction, if the message makes one, commits. *)
Definition install_snapshot (stored : bool) (sg : Stage) (values : list OccurrenceObject) (r : Receiver) : Receiver * AlertAck :=
  let r := set_stage None r in
  match snapshot_digest values with
  | Ok sha =>
      if negb (String.eqb sha (sg_sha sg)) then (r, device_ack true true r)
      else if negb stored then (r, device_ack true false r)
      else let r := mkReceiver (Some (sg_epoch sg)) (sg_high sg) (by_occurrence values) false None in (r, device_ack false true r)
  | Err _ => (r, device_ack true true r)
  end.
Definition receive_page (stored : bool) (p : AlertSnapshotPage) (r : Receiver) : Receiver * AlertAck :=
  if negb (page_admissible p) then reject_snapshot r
  else match page_stage p r with
       | None => reject_snapshot r
       | Some sg =>
           if negb (page_continues p sg) then reject_snapshot r
           else
             let values := sg_values sg ++ sp_objects p in
             let next := S (sg_next sg) in
             if (next <? sg_count sg)%nat then
               (set_stage (Some (mkStage (sg_epoch sg) (sg_high sg) (sg_count sg) (sg_sha sg) next values)) r, page_ack)
             else install_snapshot stored sg values r
       end.
Definition receive_delta (stored : bool) (d : AlertDelta) (r : Receiver) : Receiver * AlertAck :=
  if rv_corrupt r || negb (bool_decide (rv_epoch r = Some (ad_delivery_epoch d)) && (ad_sequence d =? rv_acked r + 1))
  then (r, device_ack true true r)
  else if negb stored then (r, device_ack true false r)
  else
    let r := mkReceiver (rv_epoch r) (ad_sequence d) (foldl apply_object (rv_cache r) (ad_objects d)) (rv_corrupt r) (rv_stage r) in
    (r, device_ack false true r).
Definition device_receive (stored : bool) (r : Receiver) (b : PostBody) : Receiver * option AlertAck :=
  match b with
  | Pb_Snapshot p => let '(r, ack) := receive_page stored p r in (r, Some ack)
  | Pb_Delta d => let '(r, ack) := receive_delta stored d r in (r, Some ack)
  | _ => (r, None)
  end.
(** A message whose transaction commits. *)
Definition receive (r : Receiver) (b : PostBody) : Receiver := fst (device_receive true r b).
End receiver.

(** ** The pair *)
(** What each sequence number of the epoch stands for: the state it brings a device
    to and, for a snapshot, its pages.  A history kept by the model only. *)
Abbreviation Log := (gmap N (Cache * list AlertSnapshotPage)).
Definition log_body (log : Log) (b : PostBody) : Log :=
  match b with
  | Pb_Delta d =>
      match log !! (ad_sequence d - 1) with
      | Some (c, _) => <[ad_sequence d := (foldl apply_object c (ad_objects d), [])]> log
      | None => log
      end
  | Pb_Snapshot p =>
      let '(c, pages) := if (sp_page_index p =? 0)%nat then (∅, []) else default (∅, []) (log !! sp_high_water_mark p) in
      <[sp_high_water_mark p := (foldl (fun m o => <[oo_occurrence_id o := o]> m) c (sp_objects p), pages ++ [p])]> log
  | _ => log
  end.

(** [sy_lost]: the device has lost its cache at some time.  [sy_behind]: it failed to
    store a message of this session, and the controller has not heard of it. *)
Record Sync := mkSync {
  sy_controller : Delivery;
  sy_row : N * N;
  sy_wire : list PostBody;
  sy_acks : list AlertAck;
  sy_device : Receiver;
  sy_log : Log;
  sy_lost : bool;
  sy_behind : bool;
}.
(** A body leaves once the position that covers it is durable. *)
Definition emit (out : Outbox) (s : Sync) (d : Delivery) : Sync :=
  mkSync d (default (sy_row s) (ob_position out)) (sy_wire s ++ ob_bodies out) (sy_acks s) (sy_device s)
    (foldl log_body (sy_log s) (ob_bodies out)) (sy_lost s) (sy_behind s).
(** Nothing in flight: a session that has just started or ended. *)
Definition quiet (s : Sync) (d : Delivery) (r : Receiver) (lost : bool) : Sync :=
  mkSync d (sy_row s) [] [] r (sy_log s) lost false.

(** What a hello reports of the device: nothing, or its position, which a corrupt
    store keeps to itself. *)
Definition reports (hello : option HelloAlerts) (r : Receiver) : Prop :=
  hello_position hello = None \/
  rv_corrupt r = false /\ exists epoch, rv_epoch r = Some epoch /\ hello_position hello = Some (epoch, rv_acked r).

(** The device holds a cache of the epoch, in a sound store. *)
Definition in_epoch (E : string) (r : Receiver) : Prop := rv_epoch r = Some E /\ rv_corrupt r = false.
#[export] Instance in_epoch_dec E r : Decision (in_epoch E r) := and_dec _ _.
(** How a device that restarts comes back without its cache: with none or another
    epoch's, or with what could be recovered of a corrupt store, which is no later
    than what was stored. *)
Definition cache_lost (E : string) (r r' : Receiver) : Prop :=
  rv_stage r' = None /\
  (rv_epoch r' <> Some E \/
   rv_corrupt r' = true /\ rv_epoch r' = rv_epoch r /\ rv_acked r' <= rv_acked r).

Section steps.
Context `{UuidCrate, Digest}.
Context (E : string).

Definition deliver (stored : bool) (b : PostBody) (rest : list PostBody) (s : Sync) : Sync :=
  let '(device, ack) := device_receive stored (sy_device s) b in
  mkSync (sy_controller s) (sy_row s) rest (sy_acks s ++ option_list ack) device (sy_log s) (sy_lost s)
    (negb stored && match ack with Some a => aa_need_snapshot a | None => false end || sy_behind s).

Inductive sync_step (s : Sync) : Sync -> Prop :=
  | Sync_Attach session hello d out :
      reports hello (sy_device s) -> attach session hello (sy_controller s) = (d, out) ->
      sync_step s (mkSync d (default (sy_row s) (ob_position out)) (ob_bodies out) [] (sy_device s) (sy_log s) (sy_lost s) false)
  | Sync_Detach session :
      dl_session (sy_controller s) = Some session ->
      sync_step s (quiet s (detach session (sy_controller s)) (sy_device s) (sy_lost s))
  | Sync_Refresh desired d out :
      desired_ok desired -> delivery_refresh desired (sy_controller s) = (d, Ok out) -> sync_step s (emit out s d)
  | Sync_Retract removed d out :
      retract removed (sy_controller s) = (d, out) -> sync_step s (emit out s d)
  | Sync_Deliver b rest :
      sy_wire s = b :: rest -> sync_step s (deliver true b rest s)
  | Sync_Ack a rest d out :
      sy_acks s = a :: rest -> delivery_ack a (sy_controller s) = (d, out) ->
      sync_step s (mkSync d (default (sy_row s) (ob_position out)) (sy_wire s) rest (sy_device s) (sy_log s) (sy_lost s)
        (negb (aa_need_snapshot a) && sy_behind s))
  | Sync_Restart :
      sync_step s (quiet s (delivery_new E (fst (sy_row s)) (snd (sy_row s))) (sy_device s) (sy_lost s))
  (** Between sessions: the device restarts with its store, or without. *)
  | Sync_Reboot :
      dl_attached (sy_controller s) = None ->
      sync_step s (quiet s (sy_controller s) (set_stage None (sy_device s)) (sy_lost s))
  | Sync_Lose r :
      dl_attached (sy_controller s) = None -> cache_lost E (sy_device s) r ->
      sync_step s (quiet s (sy_controller s) r true).

(** The same with writes of the device that fail. *)
Inductive faulty_step (s : Sync) : Sync -> Prop :=
  | Faulty_Sync s' : sync_step s s' -> faulty_step s s'
  | Faulty_Write b rest : sy_wire s = b :: rest -> faulty_step s (deliver false b rest s).

(** A new speaker whose device holds another epoch's cache, or none. *)
Definition sync_initial (s : Sync) : Prop :=
  sy_controller s = delivery_new E 0 0 /\ sy_row s = (0, 0) /\ sy_wire s = [] /\ sy_acks s = [] /\
  rv_epoch (sy_device s) <> Some E /\ rv_stage (sy_device s) = None /\ sy_log s = ∅ /\ sy_behind s = false.
Inductive sync_reachable : Sync -> Prop :=
  | reachable_initial s : sync_initial s -> sync_reachable s
  | reachable_step s s' : sync_reachable s -> sync_step s s' -> sync_reachable s'.
Inductive faulty_reachable : Sync -> Prop :=
  | faulty_initial s : sync_initial s -> faulty_reachable s
  | faulty_next s s' : faulty_reachable s -> faulty_step s s' -> faulty_reachable s'.
End steps.

(** ** The invariant *)
Definition body_seq (b : PostBody) : N :=
  match b with Pb_Snapshot p => sp_high_water_mark p | Pb_Delta d => ad_sequence d | _ => 0 end.
(** [b] was sent before [b']. *)
Definition body_before (b b' : PostBody) : Prop :=
  body_seq b < body_seq b' \/
  match b, b' with
  | Pb_Snapshot p, Pb_Snapshot p' => sp_high_water_mark p = sp_high_water_mark p' /\ (sp_page_index p < sp_page_index p')%nat
  | _, _ => False
  end.

Section invariant.
Context `{UuidCrate, Digest}.
Context (E : string).
Implicit Types (log : Log) (s : Sync) (d : Delivery).

Definition snapshot_of (high : N) (c : Cache) (pages : list AlertSnapshotPage) : Prop :=
  let objects := List.concat (List.map sp_objects pages) in
  c = by_occurrence objects /\ pages <> [] /\
  exists sha, snapshot_digest objects = Ok sha /\
    forall i p, pages !! i = Some p ->
      sp_delivery_epoch p = E /\ sp_high_water_mark p = high /\ sp_page_index p = i /\
      sp_page_count p = length pages /\ sp_sha256 p = sha /\ (length (sp_objects p) <= SNAPSHOT_PAGE_OBJECTS)%nat.
Definition logged_snapshot log (high : N) (c : Cache) (pages : list AlertSnapshotPage) : Prop :=
  log !! high = Some (c, pages) /\ snapshot_of high c pages.
Definition logged_delta log (dt : AlertDelta) : Prop :=
  ad_delivery_epoch dt = E /\ 1 <= ad_sequence dt /\
  exists c p p', log !! (ad_sequence dt - 1) = Some (c, p) /\
    log !! ad_sequence dt = Some (foldl apply_object c (ad_objects dt), p').
Definition logged log (b : PostBody) : Prop :=
  match b with
  | Pb_Snapshot p => exists c pages, logged_snapshot log (sp_high_water_mark p) c pages /\ pages !! sp_page_index p = Some p
  | Pb_Delta dt => logged_delta log dt
  | _ => False
  end.
(** Deltas with consecutive sequences, the last of them [n]. *)
Definition consecutive (n : N) (deltas : list AlertDelta) : Prop :=
  forall i dt, deltas !! i = Some dt -> ad_sequence dt + N.of_nat (length deltas) = n + 1 + N.of_nat i.

Definition log_bounded log (n : N) : Prop := forall q e, log !! q = Some e -> 1 <= q <= n.
(** An object unchanged since its revision. *)
Definition log_revisions log : Prop :=
  forall q c p id o, log !! q = Some (c, p) -> c !! id = Some o ->
    oo_occurrence_id o = id /\ 1 <= oo_revision o <= q /\
    forall q' c' p', oo_revision o <= q' <= q -> log !! q' = Some (c', p') -> c' !! id = Some o.

Record controller_inv log (row : N * N) d : Prop := {
  ci_epoch : dl_epoch d = E;
  ci_row : row = dl_position d;
  ci_acked : dl_acked d <= dl_sequence d;
  ci_log : log_bounded log (dl_sequence d);
  ci_revisions : log_revisions log;
  ci_sent : forall m, dl_sent d = Some m -> exists pages, log !! dl_sequence d = Some (m, pages);
  ci_unacked : consecutive (dl_sequence d) (dl_unacked d) /\ Forall (logged_delta log) (dl_unacked d);
}.
Definition stage_inv log (sg : Stage) : Prop :=
  exists c pages, logged_snapshot log (sg_high sg) c pages /\ sg_epoch sg = E /\ sg_count sg = length pages /\
    (sg_next sg < length pages)%nat /\ snapshot_digest (List.concat (List.map sp_objects pages)) = Ok (sg_sha sg) /\
    sg_values sg = List.concat (List.map sp_objects (take (sg_next sg) pages)).
Record device_inv log (r : Receiver) : Prop := {
  di_cache : in_epoch E r -> exists pages, log !! rv_acked r = Some (rv_cache r, pages);
  di_stage : forall sg, rv_stage r = Some sg -> stage_inv log sg;
}.
Record wire_inv log (r : Receiver) (wire : list PostBody) : Prop := {
  wi_logged : Forall (logged log) wire;
  wi_order : StronglySorted body_before wire;
  wi_ahead : rv_epoch r = Some E -> Forall (fun b => rv_acked r < body_seq b) wire;
}.
Record sync_inv s : Prop := {
  si_controller : controller_inv (sy_log s) (sy_row s) (sy_controller s);
  si_device : device_inv (sy_log s) (sy_device s);
  si_wire : wire_inv (sy_log s) (sy_device s) (sy_wire s);
  si_bound : rv_epoch (sy_device s) = Some E -> rv_acked (sy_device s) <= dl_sequence (sy_controller s);
  si_acks : Forall (fun a => aa_delivery_epoch a = Some E ->
    rv_epoch (sy_device s) = Some E /\ aa_applied_through a <= rv_acked (sy_device s)) (sy_acks s);
  (** What is acknowledged is held, or was lost since; whatever is in flight is later. *)
  si_acked : in_epoch E (sy_device s) -> dl_acked (sy_controller s) <= rv_acked (sy_device s);
  si_later : Forall (fun b => dl_acked (sy_controller s) <= body_seq b) (sy_wire s);
  si_lost : rv_epoch (sy_device s) = Some E \/ 0 < dl_acked (sy_controller s) ->
    in_epoch E (sy_device s) \/ sy_lost s = true;
  (** A session that is owed no snapshot ends up at the sequence once it has all
      that is in flight, unless a write failed, which an acknowledgement will tell. *)
  si_future : sy_behind s = false -> forall a, dl_attached (sy_controller s) = Some a -> at_snapshot_owed a = false ->
    is_Some (dl_sent (sy_controller s)) /\
    in_epoch E (foldl receive (sy_device s) (sy_wire s)) /\
    rv_acked (foldl receive (sy_device s) (sy_wire s)) = dl_sequence (sy_controller s);
  si_behind : sy_behind s = true -> Exists (fun a => aa_need_snapshot a = true) (sy_acks s);
}.

(** *** A longer history *)
Lemma logged_snapshot_grows log log' high c pages : log ⊆ log' -> logged_snapshot log high c pages -> logged_snapshot log' high c pages.
Proof. intros Hs [Hl Ho]. split; [|done]. by eapply lookup_weaken. Qed.
Lemma logged_delta_grows log log' dt : log ⊆ log' -> logged_delta log dt -> logged_delta log' dt.
Proof.
  intros Hs (He & H1 & c & p & p' & Ha & Hb). split_and!; [done..|]. exists c, p, p'. split; by eapply lookup_weaken.
Qed.
Lemma logged_grows log log' b : log ⊆ log' -> logged log b -> logged log' b.
Proof.
  intros Hs. destruct b; cbn [logged]; try done; [|by apply logged_delta_grows].
  intros (c & pages & Hl & Hp). exists c, pages. split; [by eapply logged_snapshot_grows|done].
Qed.
Lemma device_inv_grows log log' r : log ⊆ log' -> device_inv log r -> device_inv log' r.
Proof.
  intros Hs [Hc Hst]. split.
  - intros He. destruct (Hc He) as [pages Hl]. exists pages. by eapply lookup_weaken.
  - intros sg (c & pages & Hl & Hr)%Hst. exists c, pages. split; [by eapply logged_snapshot_grows|done].
Qed.

(** *** The device *)
Lemma page_stage_inv log p r sg :
  logged log (Pb_Snapshot p) -> device_inv log r -> page_stage p r = Some sg -> stage_inv log sg.
Proof.
  intros (c & pages & Hl & Hi) Hr. unfold page_stage. destruct (Nat.eqb_spec (sp_page_index p) 0) as [E0|]; [|apply Hr].
  intros [= <-]. destruct Hl as (Hl & Hc & Hn & sha & Hd & Hp). destruct (Hp _ _ Hi) as (He & _ & _ & Hcnt & Hsha & _).
  exists c, pages. cbn. split_and!; try done.
  - split; [done|]. split_and!; [done..|]. by exists sha.
  - destruct pages; [done|cbn; lia].
  - by rewrite Hsha.
Qed.

(** What a message does to the device, stored or not: nothing but the stage, or the
    whole snapshot or delta. *)
Definition kept (r r' : Receiver) : Prop :=
  rv_epoch r' = rv_epoch r /\ rv_acked r' = rv_acked r /\ rv_cache r' = rv_cache r /\ rv_corrupt r' = rv_corrupt r.
Lemma kept_stage stage r : kept r (set_stage stage r).
Proof. done. Qed.
Lemma kept_inv log r r' : device_inv log r -> kept r r' -> (forall sg, rv_stage r' = Some sg -> stage_inv log sg) -> device_inv log r'.
Proof.
  intros [Hc _] (He & Ha & Hm & Hx) Hs. split; [|done]. unfold in_epoch. rewrite He, Ha, Hm, Hx. exact Hc.
Qed.
Lemma receive_page_cases stored log p r :
  logged log (Pb_Snapshot p) -> device_inv log r ->
  let '(r', _) := receive_page stored p r in
  device_inv log r' /\
  (kept r r' \/ (in_epoch E r' /\ rv_acked r' = sp_high_water_mark p /\ sp_page_index p = Nat.pred (sp_page_count p))).
Proof.
  intros Hp Hr. assert (Hnone : device_inv log (set_stage None r)) by (apply (kept_inv log r); [done|apply kept_stage|done]).
  assert (Hsame : device_inv log (set_stage None r) /\ (kept r (set_stage None r) \/ (in_epoch E (set_stage None r) /\
    rv_acked (set_stage None r) = sp_high_water_mark p /\ sp_page_index p = Nat.pred (sp_page_count p)))) by (split; [done|by left]).
  unfold receive_page, reject_snapshot. destruct (negb (page_admissible p)) eqn:Ea; [exact Hsame|].
  destruct (page_stage p r) as [sg|] eqn:Es; [|exact Hsame].
  destruct (page_stage_inv log p r sg Hp Hr Es) as (c & pages & Hl & Heg & Hcg & Hng & Hdg & Hvg).
  destruct (page_continues p sg) eqn:Ec; cbn [negb]; [|exact Hsame].
  unfold page_continues in Ec. rewrite !andb_true_iff, !String.eqb_eq, !Nat.eqb_eq, N.eqb_eq in Ec.
  destruct Ec as [[[[En Ee] Eh] Ecnt] Esha].
  destruct Hp as (c' & pages' & Hl' & Hi). rewrite <- Eh in Hl'. destruct Hl as [Hlog Hof], Hl' as [Hlog' _].
  rewrite Hlog in Hlog'. injection Hlog' as <- <-. rewrite <- En in Hi.
  assert (Hvals : sg_values sg ++ sp_objects p = List.concat (List.map sp_objects (take (S (sg_next sg)) pages))).
  { rewrite Hvg, (take_S_r _ _ _ Hi), List.map_app, List.concat_app. cbn [List.map List.concat]. by rewrite app_nil_r. }
  destruct (Nat.ltb_spec (S (sg_next sg)) (sg_count sg)) as [Hlt|Hge].
  - split; [|by left]. apply (kept_inv log r); [done|apply kept_stage|]. cbn [set_stage rv_stage]. intros sg' [= <-]. exists c, pages.
    cbn. split_and!; try done. by rewrite <- Hcg.
  - assert (Hall : take (S (sg_next sg)) pages = pages) by (apply take_ge; lia). rewrite Hall in Hvals. unfold install_snapshot.
    rewrite Hvals, Hdg, (proj2 (String.eqb_eq _ _) eq_refl). cbn [negb]. destruct stored; cbn [negb]; [|exact Hsame].
    split; [|right; cbn; split_and!; [by rewrite Heg|done|lia]].
    split; [|done]. cbn [rv_acked rv_cache]. intros _. exists pages. rewrite Hlog. destruct Hof as [-> _]. done.
Qed.

Lemma receive_delta_cases stored log dt r :
  logged_delta log dt -> device_inv log r ->
  let '(r', _) := receive_delta stored dt r in
  device_inv log r' /\ (kept r r' \/ in_epoch E r' /\ rv_acked r' = ad_sequence dt).
Proof.
  intros (He & H1 & c & p & p' & Ha & Hb) Hr. unfold receive_delta.
  destruct (rv_corrupt r) eqn:Ex; cbn [orb]; [split; [done|by left]|].
  destruct (bool_decide (rv_epoch r = Some (ad_delivery_epoch dt)) && (ad_sequence dt =? rv_acked r + 1)) eqn:Eg;
    cbn [negb]; [|split; [done|by left]].
  destruct stored; cbn [negb]; [|split; [done|by left]].
  apply andb_true_iff in Eg as [Hep%bool_decide_eq_true Hseq%N.eqb_eq]. rewrite He in Hep.
  split; [|right; split; [by split|done]]. destruct Hr as [Hc Hs]. split; [|done]. cbn [rv_acked rv_cache]. intros _.
  destruct (Hc (conj Hep Ex)) as [pages Hl]. replace (ad_sequence dt - 1) with (rv_acked r) in Ha by lia.
  rewrite Hl in Ha. injection Ha as <- <-. by exists p'.
Qed.
End invariant.

Section delivering.
Context `{UuidCrate, Digest}.
Context (E : string).

Lemma receive_cases stored log b r :
  logged E log b -> device_inv E log r ->
  let r' := fst (device_receive stored r b) in
  device_inv E log r' /\
  (kept r r' \/
   (in_epoch E r' /\ rv_acked r' = body_seq b /\
    match b with Pb_Snapshot p => sp_page_index p = Nat.pred (sp_page_count p) | _ => True end)).
Proof.
  intros Hb Hr. destruct b as [p|dt| |]; cbn [logged] in Hb; try done; cbn [device_receive body_seq].
  - pose proof (receive_page_cases E stored log p r Hb Hr) as Hp. by destruct (receive_page stored p r).
  - pose proof (receive_delta_cases E stored log dt r Hb Hr) as Hd. destruct (receive_delta stored dt r) as [r' ack]. cbn [fst].
    destruct Hd as [Hd [Hk|[HE Ha]]]; split; auto.
Qed.
(** What the device answers is true of it, and asks for a snapshot when a write failed. *)
Lemma receive_ack stored r b a :
  snd (device_receive stored r b) = Some a ->
  aa_delivery_epoch a = None \/
  aa_delivery_epoch a = rv_epoch (fst (device_receive stored r b)) /\ aa_applied_through a = rv_acked (fst (device_receive stored r b)).
Proof.
  destruct b as [p|dt| |]; cbn [device_receive]; [| |done|done].
  - unfold receive_page, reject_snapshot, install_snapshot. destruct (negb (page_admissible p)); [intros [= <-]; by right|].
    destruct (page_stage p r); [|intros [= <-]; by right]. destruct (negb _); [intros [= <-]; by right|].
    destruct (_ <? _)%nat; [intros [= <-]; by left|]. destruct (snapshot_digest _); [|intros [= <-]; by right].
    destruct (negb _); [intros [= <-]; by right|]. destruct (negb stored); intros [= <-]; by right.
  - unfold receive_delta. destruct (_ || _); [intros [= <-]; by right|]. destruct (negb stored); intros [= <-]; by right.
Qed.
(** A message that is not stored either is handled as if it were, or asks. *)
Lemma receive_failed r b :
  fst (device_receive false r b) = receive r b \/
  exists a, snd (device_receive false r b) = Some a /\ aa_need_snapshot a = true.
Proof.
  unfold receive. destruct b as [p|dt| |]; cbn [device_receive]; [| |by left|by left].
  - unfold receive_page, install_snapshot, reject_snapshot. destruct (negb (page_admissible p)); [by left|].
    destruct (page_stage p r); [|by left]. destruct (negb _); [by left|]. destruct (_ <? _)%nat; [by left|].
    destruct (snapshot_digest _); [|by left]. destruct (negb _); [by left|]. right. by eexists.
  - unfold receive_delta. destruct (_ || _); [by left|]. right. by eexists.
Qed.

Lemma logged_bound log n b : log_bounded log n -> logged E log b -> body_seq b <= n.
Proof.
  intros Hb. destruct b as [p|dt| |]; cbn [logged body_seq]; try done.
  - intros (c & pages & [Hl _] & _). by destruct (Hb _ _ Hl).
  - intros (_ & _ & c & p & p' & _ & Hl). by destruct (Hb _ _ Hl).
Qed.
Lemma last_page_is_last log p p' :
  logged E log (Pb_Snapshot p) -> logged E log (Pb_Snapshot p') -> sp_high_water_mark p = sp_high_water_mark p' ->
  sp_page_index p = Nat.pred (sp_page_count p) -> (sp_page_index p < sp_page_index p')%nat -> False.
Proof.
  intros (c & pages & [Hl (_ & Hn & sha & _ & Hp)] & Hi) (c' & pages' & [Hl' _] & Hi') Hh Hlast Hlt.
  rewrite Hh, Hl' in Hl. injection Hl as -> ->. pose proof (lookup_lt_Some _ _ _ Hi').
  destruct (Hp _ _ Hi) as (_ & _ & _ & Hc & _). rewrite Hc in Hlast. lia.
Qed.

Lemma receive_ahead stored log b r rest :
  device_inv E log r -> wire_inv E log r (b :: rest) ->
  let r' := fst (device_receive stored r b) in
  wire_inv E log r' rest /\ device_inv E log r' /\
  (rv_epoch r = Some E -> rv_epoch r' = Some E /\ rv_acked r <= rv_acked r') /\
  (kept r r' \/ in_epoch E r' /\ rv_acked r' = body_seq b).
Proof.
  intros Hr [Hl Ho Ha]. apply Forall_cons in Hl as [Hb Hl]. apply StronglySorted_inv in Ho as [Ho Hbefore].
  destruct (receive_cases stored log b r Hb Hr) as [Hd Hc]. set (r' := fst (device_receive stored r b)) in *. cbv zeta. split_and!; [|done| |].
  - split; [done|done|]. intros He. destruct Hc as [(He' & Ha' & _)|(He' & Ha' & Hlast)].
    + rewrite He' in He. rewrite Ha'. specialize (Ha He). by apply Forall_cons in Ha as [_ ?].
    + rewrite Ha'. apply Forall_forall. intros b' Hb'. rewrite Forall_forall in Hl, Hbefore.
      specialize (Hl _ Hb'). destruct (Hbefore _ Hb') as [?|Hbb]; [done|].
      destruct b as [p| | |]; try done. destruct b' as [p'| | |]; try done. destruct Hbb as [Hh Hi].
      exfalso. exact (last_page_is_last log p p' Hb Hl Hh Hlast Hi).
  - intros He. specialize (Ha He). apply Forall_cons in Ha as [Hab _].
    destruct Hc as [(He' & Ha' & _)|([He' _] & Ha' & _)]; rewrite He', Ha'; split; try done; lia.
  - destruct Hc as [Hc|(? & ? & _)]; auto.
Qed.

Lemma deliver_keeps stored s b rest :
  sync_inv E s -> sy_wire s = b :: rest -> sync_inv E (deliver stored b rest s).
Proof.
  intros [Hc Hd Hw Hbd Ha Hk Hlt Hlo Hf Hbh] Ew. rewrite Ew in Hw, Hlt. apply Forall_cons in Hlt as [Hb Hlt].
  destruct (receive_ahead stored _ _ _ _ Hd Hw) as (Hw' & Hd' & Hmono & Hcase). unfold deliver.
  pose proof (receive_ack stored (sy_device s) b) as Hack. pose proof (receive_failed (sy_device s) b) as Hfail.
  assert (Hin : logged E (sy_log s) b) by (destruct Hw as [Hl _ _]; by apply Forall_cons in Hl as [? _]).
  destruct (device_receive stored (sy_device s) b) as [r' ack] eqn:Er. cbn [fst snd] in *.
  split; cbn [sy_controller sy_row sy_wire sy_acks sy_device sy_log sy_lost sy_behind]; try done.
  - intros He. destruct Hcase as [(He' & Ha' & _)|[_ Ha']]; rewrite Ha'; [apply Hbd; congruence|].
    exact (logged_bound _ _ _ (ci_log _ _ _ _ Hc) Hin).
  - apply Forall_app. split.
    + eapply Forall_impl; [exact Ha|]. cbn. intros a Hae He. destruct (Hae He) as [HE Hle]. destruct (Hmono HE). split; [done|lia].
    + destruct ack as [a|]; cbn [option_list]; [|constructor]. apply Forall_singleton. intros He.
      destruct (Hack a eq_refl) as [Hn|[He' Ha']]; [congruence|]. split; [congruence|lia].
  - intros Hi. destruct Hcase as [(He' & Ha' & _ & Hx)|[_ Ha']]; rewrite Ha'; [|done]. apply Hk. destruct Hi. split; congruence.
  - intros Hor. destruct Hcase as [(He' & Ha' & _ & Hx)|[Hi _]]; [|by left].
    destruct Hlo as [[? ?]|?]; [|left; split; congruence|by right]. destruct Hor as [?|?]; [left; congruence|by right].
  - intros [Hst Hno]%orb_false_iff a Eat Eo. specialize (Hf Hno a Eat Eo). rewrite Ew in Hf. cbn [foldl] in Hf.
    enough (r' = receive (sy_device s) b) as -> by done. destruct stored; [unfold receive; by rewrite Er|].
    rewrite Er in Hfail. cbn [fst snd] in Hfail. destruct Hfail as [?|(x & -> & Hx)]; [done|]. cbn in Hst. congruence.
  - intros [Hst|Hno]%orb_true_iff; apply Exists_app; [right|left; auto]. apply andb_true_iff in Hst as [_ Hst].
    destruct ack as [a|]; [by constructor|done].
Qed.

(** *** Whole snapshots and runs of deltas *)
Lemma receive_page_at log high c pages k p r :
  logged_snapshot E log high c pages -> pages !! k = Some p ->
  (k = 0%nat \/ rv_stage r = Some (mkStage E high (length pages) (sp_sha256 p) k (List.concat (List.map sp_objects (take k pages))))) ->
  receive r (Pb_Snapshot p) =
    if (S k <? length pages)%nat
    then set_stage (Some (mkStage E high (length pages) (sp_sha256 p) (S k) (List.concat (List.map sp_objects (take (S k) pages))))) r
    else mkReceiver (Some E) high c false None.
Proof.
  intros [_ (Hc & Hn & sha & Hd & Hp)] Hk Hs. destruct (Hp _ _ Hk) as (He & Hh & Hi & Hcnt & Hsha & Hlen).
  pose proof (lookup_lt_Some _ _ _ Hk) as Hlt. unfold receive. cbn [device_receive]. unfold receive_page, page_admissible.
  rewrite Hcnt, Hi, (proj2 (Nat.ltb_lt 0 _)), (proj2 (Nat.ltb_lt _ _) Hlt), (proj2 (Nat.leb_le _ _) Hlen) by lia. cbn [andb negb].
  assert (Hst : page_stage p r = Some (mkStage E high (length pages) (sp_sha256 p) k (List.concat (List.map sp_objects (take k pages))))).
  { unfold page_stage. rewrite Hi. destruct (Nat.eqb_spec k 0) as [->|Hne]; [by rewrite He, Hh, Hcnt|]. by destruct Hs. }
  rewrite Hst. unfold page_continues. cbn [sg_next sg_epoch sg_high sg_count sg_sha sg_values].
  rewrite Hi, Hcnt, He, Hh, !Nat.eqb_refl, N.eqb_refl, !(proj2 (String.eqb_eq _ _) eq_refl). cbn [andb negb].
  assert (Hv : List.concat (List.map sp_objects (take k pages)) ++ sp_objects p = List.concat (List.map sp_objects (take (S k) pages))).
  { rewrite (take_S_r _ _ _ Hk), List.map_app, List.concat_app. cbn [List.map List.concat]. by rewrite app_nil_r. }
  rewrite Hv. destruct (Nat.ltb_spec (S k) (length pages)); [done|]. unfold install_snapshot. cbn [sg_sha sg_epoch sg_high].
  rewrite take_ge by lia. rewrite Hd, Hsha, (proj2 (String.eqb_eq _ _) eq_refl). cbn [negb fst]. by rewrite Hc.
Qed.

Lemma receive_pages log high c pages r :
  logged_snapshot E log high c pages -> foldl receive r (Pb_Snapshot <$> pages) = mkReceiver (Some E) high c false None.
Proof.
  intros Hl.
  assert (Hgo : forall rest k r, (0 < length rest)%nat -> drop k pages = rest ->
    (k = 0%nat \/ exists sha, (forall p, p ∈ pages -> sp_sha256 p = sha) /\
       rv_stage r = Some (mkStage E high (length pages) sha k (List.concat (List.map sp_objects (take k pages))))) ->
    foldl receive r (Pb_Snapshot <$> rest) = mkReceiver (Some E) high c false None).
  { induction rest as [|p rest IH]; intros k r0 Hlen Hdrop Hs; [cbn in Hlen; lia|].
    assert (Hk : pages !! k = Some p) by (rewrite <- (Nat.add_0_r k), <- lookup_drop, Hdrop; done).
    rewrite fmap_cons. cbn [foldl]. erewrite receive_page_at; [|exact Hl|exact Hk|].
    2:{ destruct Hs as [->|(sha & Hsha & Hst)]; [by left|right]. rewrite (Hsha p); [done|]. by eapply list_elem_of_lookup_2. }
    assert (Hdrop' : drop (S k) pages = rest).
    { replace (S k) with (k + 1)%nat by lia. rewrite <- drop_drop, Hdrop. done. }
    pose proof (f_equal length Hdrop') as Hlen'. rewrite length_drop in Hlen'. pose proof (lookup_lt_Some _ _ _ Hk).
    destruct (Nat.ltb_spec (S k) (length pages)) as [Hlt|Hge].
    - apply (IH (S k)); [lia|done|]. right. exists (sp_sha256 p). split; [|done].
      destruct Hl as [_ (_ & _ & sha & _ & Hp)]. intros q [j Hj]%list_elem_of_lookup.
      destruct (Hp _ _ Hj) as (_ & _ & _ & _ & -> & _). by destruct (Hp _ _ Hk) as (_ & _ & _ & _ & -> & _).
    - destruct rest; [done|cbn in Hlen'; lia]. }
  apply (Hgo pages 0%nat); [|done|by left]. destruct Hl as [_ (_ & Hn & _)]. destruct pages; [done|cbn; lia].
Qed.

Lemma receive_deltas deltas r :
  in_epoch E r ->
  (forall i dt, deltas !! i = Some dt -> ad_delivery_epoch dt = E /\ ad_sequence dt = rv_acked r + 1 + N.of_nat i) ->
  in_epoch E (foldl receive r (Pb_Delta <$> deltas)) /\
  rv_acked (foldl receive r (Pb_Delta <$> deltas)) = rv_acked r + N.of_nat (length deltas).
Proof.
  revert r. induction deltas as [|dt deltas IH]; intros r [He Hx] Hs; [cbn; split; [done|lia]|].
  destruct (Hs 0%nat dt eq_refl) as [Hde Hseq]. rewrite fmap_cons. cbn [foldl].
  assert (Hr : receive r (Pb_Delta dt) = mkReceiver (Some E) (ad_sequence dt) (foldl apply_object (rv_cache r) (ad_objects dt)) false (rv_stage r)).
  { unfold receive. cbn [device_receive]. unfold receive_delta. rewrite Hx, Hde, He, bool_decide_eq_true_2 by done.
    rewrite (proj2 (N.eqb_eq _ _)) by lia. done. }
  rewrite Hr. match goal with |- context [foldl receive ?x _] => destruct (IH x) as [IHe IHa] end.
  - done.
  - intros i dt' Hi. destruct (Hs (S i) dt' Hi) as [? ?]. cbn [rv_acked]. split; [done|lia].
  - split; [done|]. rewrite IHa. cbn [rv_acked length]. lia.
Qed.
End delivering.

Section controlling.
Context `{UuidCrate, Digest}.
Context (E : string).
Implicit Types (log : Log) (d : Delivery).

(** *** Consecutive deltas *)
Lemma consecutive_cons n dt l : consecutive n (dt :: l) <-> ad_sequence dt + N.of_nat (length l) = n /\ consecutive n l.
Proof.
  unfold consecutive. split.
  - intros Hc. split; [specialize (Hc 0%nat dt eq_refl); cbn [length] in Hc; lia|].
    intros i dt' Hi. specialize (Hc (S i) dt' Hi). cbn [length] in Hc. lia.
  - intros [He Hc] [|i] dt' Hi; cbn [length]; [injection Hi as <-; lia|]. specialize (Hc i dt' Hi). lia.
Qed.
Lemma deltas_consecutive_snoc n dt l : consecutive n l -> ad_sequence dt = n + 1 -> consecutive (n + 1) (l ++ [dt]).
Proof.
  intros Hc He i dt' Hi. rewrite length_app. cbn [length]. apply lookup_app_Some in Hi as [Hi|[Hl Hi]].
  - specialize (Hc i dt' Hi). lia.
  - apply list_lookup_singleton_Some in Hi as [Hi <-]. lia.
Qed.
Lemma consecutive_retain n a l : consecutive n l -> consecutive n (retain (fun dt => a <? ad_sequence dt) l).
Proof.
  induction l as [|dt l IH]; [done|]. intros [He Hc]%consecutive_cons. rewrite retain_cons.
  destruct (N.ltb_spec a (ad_sequence dt)) as [Hlt|]; [|by apply IH]. apply consecutive_cons. split; [|by apply IH].
  assert (Hall : retain (fun dt => a <? ad_sequence dt) l = l); [|by rewrite Hall].
  apply forallb_filter_id. apply forallb_forall. intros x Hx. apply list_elem_of_In, list_elem_of_lookup in Hx as [i Hi].
  specialize (Hc i x Hi). pose proof (lookup_lt_Some _ _ _ Hi). apply N.ltb_lt. lia.
Qed.
Lemma consecutive_length n a l :
  consecutive n l -> a <= n -> (a = n \/ exists first, head l = Some first /\ ad_sequence first <= a + 1) ->
  N.of_nat (length (retain (fun dt => a <? ad_sequence dt) l)) = n - a.
Proof.
  induction l as [|dt l IH]; [intros _ _ [->|(? & ? & _)]; [cbn; lia|done]|].
  intros [He Hc]%consecutive_cons Ha Hf. rewrite retain_cons. destruct (N.ltb_spec a (ad_sequence dt)) as [Hlt|Hge].
  - destruct Hf as [->|(first & [= <-] & Hle)]; [lia|].
    assert (Hall : retain (fun dt => a <? ad_sequence dt) l = l).
    { apply forallb_filter_id. apply forallb_forall. intros x Hx. apply list_elem_of_In, list_elem_of_lookup in Hx as [i Hi].
      specialize (Hc i x Hi). pose proof (lookup_lt_Some _ _ _ Hi). apply N.ltb_lt. lia. }
    rewrite Hall. cbn [length]. lia.
  - apply IH; [done|done|]. destruct Hf as [->|_]; [by left|]. destruct l as [|dt' l]; [left; cbn in He; lia|right].
    exists dt'. split; [done|]. apply consecutive_cons in Hc as [Hc _]. cbn [length] in He. lia.
Qed.
Lemma Forall_retain {A} (P : A -> Prop) (p : A -> bool) l : Forall P l -> Forall P (retain p l).
Proof. rewrite !Forall_forall. intros Hl x [Hx _]%elem_of_retain. auto. Qed.

(** *** One delta *)
Lemma stamped_lookup r objects m id o :
  foldl apply_object m (List.map (stamp r) objects) !! id = Some o ->
  m !! id = Some o \/ (oo_occurrence_id o = id /\ oo_revision o = r).
Proof.
  revert m. induction objects as [|c objects IH]; intros m; [by left|]. cbn [List.map foldl]. intros [Hm|?]%IH; [|by right].
  rewrite apply_object_lookup, touched_stamp in Hm. case_decide as Hid; [|by left]. subst.
  destruct c; cbn in Hm; [injection Hm as <-; by right|done].
Qed.
Lemma log_revisions_insert log n c pages :
  log_revisions log -> log_bounded log n -> 
  (forall id o, c !! id = Some o -> oo_occurrence_id o = id /\
     (oo_revision o = n + 1 \/
      exists m p, log !! n = Some (m, p) /\ m !! id = Some o)) ->
  log_revisions (<[n + 1 := (c, pages)]> log).
Proof.
  intros Hr Hb Hc q c1 p id o [[<- [= <- <-]]|[Hne Hq]]%lookup_insert_Some Ho.
  - destruct (Hc id o Ho) as [Hid [Hrev|(m & p & Hm & Hmo)]].
    + split_and!; [done|lia|lia|]. intros q' c' p' Hq' Hl. assert (q' = n + 1) as -> by lia.
      rewrite lookup_insert_eq in Hl. by injection Hl as <- <-.
    + destruct (Hr n m p id o Hm Hmo) as (_ & Hrev & Hall). split_and!; [done|lia|lia|]. intros q' c' p' Hq' Hl.
      apply lookup_insert_Some in Hl as [[_ [= <- <-]]|[Hne Hl]]; [done|]. apply (Hall q' c' p'); [lia|done].
  - destruct (Hr q c1 p id o Hq Ho) as (Hid & Hrev & Hall). split_and!; [done|lia|lia|]. intros q' c' p' Hq' Hl.
    apply Hb in Hq. apply lookup_insert_Some in Hl as [[<- _]|[_ Hl]]; [lia|]. by apply (Hall q' c' p').
Qed.
Lemma log_bounded_insert log n e : log_bounded log n -> log_bounded (<[n + 1 := e]> log) (n + 1).
Proof. intros Hb q e' [[<- _]|[_ Hq]]%lookup_insert_Some; [lia|]. apply Hb in Hq. lia. Qed.
Lemma log_bounded_fresh log n e : log_bounded log n -> log ⊆ <[n + 1 := e]> log.
Proof. intros Hb. apply insert_subseteq. destruct (log !! (n + 1)) as [e'|] eqn:El; [apply Hb in El; lia|done]. Qed.

Lemma next_delta_keeps log objects d m :
  controller_inv E log (dl_position d) d -> dl_sent d = Some m ->
  let '(d', b) := next_delta objects d in
  controller_inv E (log_body log b) (dl_position d') d' /\ log ⊆ log_body log b /\
  exists dt, b = Pb_Delta dt /\ logged_delta E (log_body log b) dt /\ ad_sequence dt = dl_sequence d + 1 /\
    dl_sequence d' = dl_sequence d + 1 /\ dl_acked d' = dl_acked d /\ dl_attached d' = dl_attached d /\ is_Some (dl_sent d').
Proof.
  intros [He Hr Hk Hb Hrev Hs [Hu Hl]] Hm. destruct (Hs m Hm) as [pages Hlog]. unfold next_delta. cbn [log_body ad_sequence ad_objects].
  replace (dl_sequence d + 1 - 1) with (dl_sequence d) by lia. rewrite Hlog.
  set (objs := List.map (stamp (dl_sequence d + 1)) objects). set (e := (foldl apply_object m objs, [])).
  pose proof (log_bounded_fresh log (dl_sequence d) e Hb) as Hsub.
  set (dt := mkAlertDelta (dl_epoch d) (dl_sequence d + 1) objs).
  assert (Hdt : logged_delta E (<[dl_sequence d + 1 := e]> log) dt).
  { split_and!; [done|cbn; lia|]. exists m, pages, []. cbn [ad_sequence ad_objects dt].
    replace (dl_sequence d + 1 - 1) with (dl_sequence d) by lia. split; [by eapply lookup_weaken|]. by rewrite lookup_insert_eq. }
  split_and!; [|done|].
  - split; cbn [dl_epoch dl_sequence dl_acked dl_sent dl_unacked]; try done.
    + lia.
    + by apply log_bounded_insert.
    + apply log_revisions_insert; [done|done|]. intros id o Ho. apply stamped_lookup in Ho as [Ho|[? ?]]; [|by eauto].
      split; [|right; by exists m, pages]. by destruct (Hrev _ _ _ _ _ Hlog Ho).
    + rewrite Hm. intros m' [= <-]. exists []. apply lookup_insert_eq.
    + split; [by apply deltas_consecutive_snoc|]. apply Forall_app. split; [|by apply Forall_singleton].
      eapply Forall_impl; [exact Hl|]. intros x Hx. by eapply logged_delta_grows.
  - exists dt. split_and!; try done. cbn [dl_sent]. rewrite Hm. by eexists.
Qed.

Lemma next_deltas_keep groups log d m :
  controller_inv E log (dl_position d) d -> dl_sent d = Some m ->
  let '(d', bodies) := next_deltas groups d in
  controller_inv E (foldl log_body log bodies) (dl_position d') d' /\ log ⊆ foldl log_body log bodies /\
  exists deltas, bodies = Pb_Delta <$> deltas /\ Forall (logged_delta E (foldl log_body log bodies)) deltas /\
    (forall i dt, deltas !! i = Some dt -> ad_sequence dt = dl_sequence d + 1 + N.of_nat i) /\
    dl_sequence d' = dl_sequence d + N.of_nat (length deltas) /\ dl_acked d' = dl_acked d /\
    dl_attached d' = dl_attached d /\ is_Some (dl_sent d').
Proof.
  revert log d m. induction groups as [|objects groups IH]; intros log d m Hc Hm; cbn [next_deltas].
  - split_and!; [done|done|]. exists []. split_and!; try done; first [by exists m|cbn; lia].
  - pose proof (next_delta_keeps log objects d m Hc Hm) as H1. destruct (next_delta objects d) as [d1 b].
    destruct H1 as (Hc1 & Hs1 & dt & -> & Hdt & Hseq & Hd1 & Hk1 & Ha1 & [m1 Hm1]).
    specialize (IH _ d1 m1 Hc1 Hm1). destruct (next_deltas groups d1) as [d2 bodies]. cbn [foldl].
    destruct IH as (Hc2 & Hs2 & deltas & -> & Hall & Hseqs & Hd2 & Hk2 & Ha2 & Hm2).
    split_and!; [done|by etrans|]. exists (dt :: deltas). split_and!; try done.
    + constructor; [by eapply logged_delta_grows|done].
    + intros [|i] x Hi; [injection Hi as <-; lia|]. rewrite (Hseqs i x Hi), Hd1. lia.
    + rewrite Hd2, Hd1. cbn [length]. lia.
    + congruence.
    + congruence.
Qed.
End controlling.

Section stepping.
Context `{UuidCrate, Digest}.
Context (E : string).
Implicit Types (log : Log) (d : Delivery) (s : Sync).

(** *** One snapshot *)
Lemma log_pages log high pages :
  log !! high = None -> pages <> [] ->
  (forall i p, pages !! i = Some p -> sp_high_water_mark p = high /\ sp_page_index p = i) ->
  foldl log_body log (Pb_Snapshot <$> pages) = <[high := (by_occurrence (List.concat (List.map sp_objects pages)), pages)]> log.
Proof.
  intros Hnone. induction pages as [|p pages IH] using rev_ind; [done|]. intros _ Hp.
  rewrite fmap_app, foldl_app. cbn [fmap list_fmap foldl].
  assert (Hlast : sp_high_water_mark p = high /\ sp_page_index p = length pages).
  { apply Hp. by rewrite lookup_app_r, Nat.sub_diag. }
  destruct Hlast as [Hh Hi]. rewrite List.map_app, List.concat_app. cbn [List.map List.concat]. rewrite app_nil_r.
  destruct (decide (pages = [])) as [->|Hne].
  - cbn [fmap list_fmap foldl log_body]. rewrite Hi, Hh. done.
  - rewrite IH by (done || (intros i q Hq; apply Hp; by apply lookup_app_l_Some)).
    cbn [log_body]. rewrite Hi. destruct pages as [|p0 pages]; [done|]. cbn [length Nat.eqb].
    rewrite Hh, lookup_insert_eq. unfold default, from_option, id. cbv beta iota zeta.
    rewrite insert_insert_eq. f_equal. f_equal. unfold by_occurrence. by rewrite foldl_app.
Qed.

Lemma snapshot_keeps log desired d d' out :
  controller_inv E log (dl_position d) d -> desired_ok desired -> delivery_snapshot desired d = (d', Ok out) ->
  exists pages c, ob_bodies out = Pb_Snapshot <$> pages /\ ob_position out = Some (dl_position d') /\
    controller_inv E (foldl log_body log (ob_bodies out)) (dl_position d') d' /\ log ⊆ foldl log_body log (ob_bodies out) /\
    logged_snapshot E (foldl log_body log (ob_bodies out)) (dl_sequence d + 1) c pages /\
    dl_sequence d' = dl_sequence d + 1 /\ dl_acked d' = dl_acked d /\ is_Some (dl_sent d').
Proof.
  intros [He Hr Hk Hb Hrev Hs [Hu Hl]] Hok. destruct (snapshot_succeeds desired d Hok) as (pages & Hp & ->). intros [= <- <-].
  set (objects := List.map (snapshot_object (default ∅ (dl_sent d)) (dl_sequence d + 1)) (ds_live desired)) in *.
  destruct (snapshot_pages_facts _ _ _ _ Hp) as (Hperm & (sha & Hd & Hpages) & Hne). rewrite He in Hpages.
  assert (Hids : NoDup (oo_occurrence_id <$> objects)) by (unfold objects; rewrite snapshot_ids; apply Hok).
  assert (Hc : by_occurrence objects = by_occurrence (List.concat (List.map sp_objects pages))).
  { by apply by_occurrence_perm. }
  assert (Hfresh : log !! (dl_sequence d + 1) = None).
  { destruct (log !! (dl_sequence d + 1)) as [e|] eqn:El; [apply Hb in El; lia|done]. }
  exists pages, (by_occurrence objects). cbn [ob_bodies ob_position dl_sequence dl_acked dl_sent].
  rewrite (log_pages log (dl_sequence d + 1)) by (done || (intros i p Hi; destruct (Hpages i p Hi) as (_ & ? & ? & _); done)).
  rewrite <- Hc. split_and!; try done; [|by apply log_bounded_fresh|].
  - split; cbn [dl_epoch dl_sequence dl_acked dl_sent dl_unacked]; try done.
    + lia.
    + by apply log_bounded_insert.
    + apply log_revisions_insert; [done|done|]. intros id o [Ho Hid]%by_occurrence_Some. split; [done|].
      unfold objects in Ho. apply list_elem_of_In, in_map_iff in Ho as (x & <- & Hx%list_elem_of_In).
      destruct (snapshot_object_revision (default ∅ (dl_sent d)) (dl_sequence d + 1) x) as (r & Er & Hr').
      destruct Hr' as [->|(old & Ho & Hsame & ->)]; [left; by rewrite Er|right].
      pose proof (desired_volumes _ Hok) as Hv. rewrite Forall_forall in Hv.
      pose proof (same_content_eq _ _ (Hv _ Hx) Hsame) as Eold. rewrite Er, <- Eold.
      destruct (dl_sent d) as [m|]; cbn in Ho; [|by rewrite lookup_empty in Ho].
      destruct (Hs m eq_refl) as [pages' Hlog]. exists m, pages'. split; [done|]. rewrite <- Hid. rewrite snapshot_object_id. done.
    + intros m [= <-]. exists pages. apply lookup_insert_eq.
  - split; [apply lookup_insert_eq|]. split_and!; [done|done|]. exists sha. split; [done|]. intros i p Hi. by apply Hpages.
Qed.
End stepping.

Section preserving.
Context `{UuidCrate, Digest}.
Context (E : string).
Implicit Types (log : Log) (d : Delivery) (s : Sync).

Lemma sorted_app (R : PostBody -> PostBody -> Prop) l1 l2 :
  StronglySorted R l1 -> StronglySorted R l2 -> (forall x y, x ∈ l1 -> y ∈ l2 -> R x y) -> StronglySorted R (l1 ++ l2).
Proof.
  intros H1 H2 Hr. induction H1 as [|x l1 _ IH Hx]; [done|]. cbn [app]. constructor; [apply IH; intros; apply Hr; set_solver|].
  apply Forall_app. split; [done|]. apply Forall_forall. intros y Hy. apply Hr; set_solver.
Qed.
Lemma sorted_deltas n deltas :
  (forall i dt, deltas !! i = Some dt -> ad_sequence dt = n + N.of_nat i) -> StronglySorted body_before (Pb_Delta <$> deltas).
Proof.
  revert n. induction deltas as [|dt deltas IH]; intros n Hs; [constructor|]. rewrite fmap_cons. constructor.
  - apply (IH (n + 1)). intros i x Hi. rewrite (Hs (S i) x Hi). lia.
  - apply Forall_fmap, Forall_forall. intros x [i Hi]%list_elem_of_lookup. left. cbn [body_seq].
    rewrite (Hs 0%nat dt eq_refl), (Hs (S i) x Hi). lia.
Qed.
Lemma sorted_pages high pages :
  (forall i p, pages !! i = Some p -> sp_high_water_mark p = high /\ sp_page_index p = i) ->
  StronglySorted body_before (Pb_Snapshot <$> pages).
Proof.
  intros Hp. assert (Hgo : forall k, StronglySorted body_before (Pb_Snapshot <$> drop k pages)); [|by apply (Hgo 0%nat)].
  intros k. remember (length pages - k)%nat as n eqn:En. revert k En. induction n as [|n IH]; intros k En.
  - rewrite drop_ge by lia. constructor.
  - destruct (lookup_lt_is_Some_2 pages k) as [p Hk]; [lia|]. rewrite (drop_S _ _ _ Hk). rewrite fmap_cons. constructor; [apply IH; lia|].
    apply Forall_fmap, Forall_forall. intros q [i Hi]%list_elem_of_lookup. rewrite lookup_drop in Hi. right. cbn.
    destruct (Hp _ _ Hk) as [-> ->], (Hp _ _ Hi) as [-> ->]. split; [done|lia].
Qed.

(** New bodies, above everything sent so far, join what is in flight. *)
Lemma wire_extends log log' n r wire bodies :
  wire_inv E log r wire -> (rv_epoch r = Some E -> rv_acked r <= n) -> log_bounded log n -> log ⊆ log' ->
  Forall (logged E log') bodies -> StronglySorted body_before bodies -> Forall (fun b => n < body_seq b) bodies ->
  wire_inv E log' r (wire ++ bodies).
Proof.
  intros [Hl Ho Ha] Hbd Hb Hs Hlb Hob Hab. split.
  - apply Forall_app. split; [|done]. eapply Forall_impl; [exact Hl|]. intros b. by apply logged_grows.
  - apply sorted_app; [done..|]. intros x y Hx Hy. left. rewrite Forall_forall in Hl, Hab.
    pose proof (logged_bound E _ _ _ Hb (Hl _ Hx)). specialize (Hab _ Hy). cbn in Hab. lia.
  - intros He. apply Forall_app. split; [by apply Ha|]. specialize (Hbd He).
    eapply Forall_impl; [exact Hab|]. cbn. intros b Hlt. lia.
Qed.

Lemma emit_keeps s d out :
  sync_inv E s ->
  let log' := foldl log_body (sy_log s) (ob_bodies out) in
  controller_inv E log' (default (sy_row s) (ob_position out)) d -> sy_log s ⊆ log' -> dl_acked d = dl_acked (sy_controller s) ->
  dl_sequence (sy_controller s) <= dl_sequence d ->
  Forall (logged E log') (ob_bodies out) -> StronglySorted body_before (ob_bodies out) ->
  Forall (fun b => dl_sequence (sy_controller s) < body_seq b) (ob_bodies out) ->
  (sy_behind s = false -> forall a, dl_attached d = Some a -> at_snapshot_owed a = false ->
    is_Some (dl_sent d) /\ in_epoch E (foldl receive (foldl receive (sy_device s) (sy_wire s)) (ob_bodies out)) /\
    rv_acked (foldl receive (foldl receive (sy_device s) (sy_wire s)) (ob_bodies out)) = dl_sequence d) ->
  sync_inv E (emit out s d).
Proof.
  intros [Hc Hd Hw Hbd Ha Hk Hlt Hlo Hf Hbh] log' Hc' Hs Hack Hseq Hl Ho Hab Hfut.
  split; cbn [emit sy_controller sy_row sy_wire sy_acks sy_device sy_log sy_lost sy_behind]; try done.
  - by eapply device_inv_grows.
  - eapply wire_extends; try done. apply Hc.
  - intros He. specialize (Hbd He). lia.
  - by rewrite Hack.
  - rewrite Hack. apply Forall_app. split; [done|]. eapply Forall_impl; [exact Hab|]. cbn. intros b Hb.
    pose proof (ci_acked _ _ _ _ Hc). lia.
  - by rewrite Hack.
  - intros Hno a Hat Hown. rewrite foldl_app. by apply (Hfut Hno a).
Qed.

Lemma deltas_keep s d out m :
  sync_inv E s -> dl_sent (sy_controller s) = Some m ->
  (exists a, dl_attached (sy_controller s) = Some a /\ at_snapshot_owed a = false) ->
  forall groups, next_deltas groups (sy_controller s) = (d, ob_bodies out) ->
  default (sy_row s) (ob_position out) = dl_position d -> sync_inv E (emit out s d).
Proof.
  intros Hinv Hm (a & Hat & Hown) groups Hn Hpos. pose proof (si_controller _ _ Hinv) as Hc.
  pose proof (ci_row _ _ _ _ Hc) as Hrow. rewrite Hrow in Hc.
  pose proof (next_deltas_keep E groups (sy_log s) (sy_controller s) m Hc Hm) as Hkeep. rewrite Hn in Hkeep.
  destruct Hkeep as (Hc' & Hs & deltas & Eb & Hl & Hseq & Hsq & Hak & Hat' & Hsent).
  apply emit_keeps; try done.
  - by rewrite Hpos.
  - lia.
  - rewrite Eb in Hl |- *. by apply Forall_fmap.
  - rewrite Eb. by eapply sorted_deltas.
  - rewrite Eb. apply Forall_fmap, Forall_forall. intros dt [i Hi]%list_elem_of_lookup. cbn [compose body_seq]. rewrite (Hseq i dt Hi). lia.
  - intros Hno a' _ _. split; [done|]. destruct (si_future _ _ Hinv Hno a Hat Hown) as (_ & HfE & HfA). rewrite Eb in Hl |- *.
    destruct (receive_deltas E deltas (foldl receive (sy_device s) (sy_wire s)) HfE) as [? ->].
    + intros i dt Hi. rewrite Forall_forall in Hl. split; [by apply (Hl dt); eapply list_elem_of_lookup_2|].
      rewrite HfA. by apply Hseq.
    + split; [done|]. rewrite HfA, Hsq. done.
Qed.

Lemma refresh_keeps s desired d out :
  sync_inv E s -> desired_ok desired -> delivery_refresh desired (sy_controller s) = (d, Ok out) -> sync_inv E (emit out s d).
Proof.
  intros Hinv Hok. pose proof (si_controller _ _ Hinv) as Hc. pose proof (ci_row _ _ _ _ Hc) as Hrow.
  assert (Hsnap : delivery_snapshot desired (sy_controller s) = (d, Ok out) -> sync_inv E (emit out s d)).
  { intros Hs. rewrite Hrow in Hc. destruct (snapshot_keeps E _ _ _ _ _ Hc Hok Hs) as (pages & c & Eb & Epos & Hc' & Hsub & Hl & Hsq & Hak & Hsent).
    assert (Hp : forall i p, pages !! i = Some p -> sp_high_water_mark p = dl_sequence (sy_controller s) + 1 /\ sp_page_index p = i).
    { destruct Hl as [_ (_ & _ & sha & _ & Hp)]. intros i p Hi. by destruct (Hp i p Hi) as (_ & ? & ? & _). }
    apply emit_keeps; try done.
    - by rewrite Epos.
    - lia.
    - rewrite Eb in Hl |- *. apply Forall_fmap, Forall_forall. intros p [i Hi]%list_elem_of_lookup. cbn [compose logged].
      exists c, pages. destruct (Hp i p Hi) as [-> ->]. done.
    - rewrite Eb. by eapply sorted_pages.
    - rewrite Eb. apply Forall_fmap, Forall_forall. intros p [i Hi]%list_elem_of_lookup. cbn [compose body_seq].
      destruct (Hp i p Hi) as [-> _]. lia.
    - intros _ a _ _. split; [done|]. rewrite Eb in Hl |- *. by erewrite receive_pages by exact Hl. }
  unfold delivery_refresh. destruct (dl_attached (sy_controller s)) as [a|] eqn:Hat.
  2:{ intros [= <- <-]. unfold emit. cbn. rewrite app_nil_r. by destruct s. }
  destruct (dl_sent (sy_controller s)) as [m|] eqn:Hm; [|done]. destruct (at_snapshot_owed a) eqn:Hown; [done|].
  destruct (next_deltas _ _) as [d' bodies] eqn:Hn. intros [= <- <-].
  eapply deltas_keep; [done|exact Hm|by exists a|exact Hn|]. cbn [ob_position].
  destruct bodies as [|b bodies]; [|done]. cbn [default]. destruct (chunks _) as [|g groups]; [|].
  - injection Hn as <-. done.
  - cbn [next_deltas] in Hn. destruct (next_delta g _) as [d1 b1]. by destruct (next_deltas groups d1).
Qed.

Lemma retract_keeps s removed d out :
  sync_inv E s -> retract removed (sy_controller s) = (d, out) -> sync_inv E (emit out s d).
Proof.
  intros Hinv. unfold retract. cbv zeta.
  destruct (dl_attached (sy_controller s)) as [a|] eqn:Hat; cbn [negb orb].
  2:{ intros [= <- <-]. unfold emit. cbn. rewrite app_nil_r. by destruct s. }
  destruct (at_snapshot_owed a) eqn:Hown; cbn [negb orb].
  { intros [= <- <-]. unfold emit. cbn. rewrite app_nil_r. by destruct s. }
  destruct removed as [|x removed]; cbn [orb]; [intros [= <- <-]; unfold emit; cbn; rewrite app_nil_r; by destruct s|].
  destruct (dl_sent (sy_controller s)) as [m|] eqn:Hm; cbn [is_some negb].
  2:{ intros [= <- <-]. unfold emit. cbn. rewrite app_nil_r. by destruct s. }
  set (objects := List.map _ (x :: removed)).
  destruct (next_delta objects (sy_controller s)) as [d' b] eqn:Hn. intros [= <- <-].
  eapply (deltas_keep s d' _ m Hinv Hm); [by exists a| |done].
  instantiate (1 := [objects]). cbn [next_deltas ob_bodies]. by rewrite Hn.
Qed.
End preserving.

Section reachability.
Context `{UuidCrate, Digest}.
Context (E : string).
Implicit Types (log : Log) (d : Delivery) (s : Sync).

Lemma wire_inv_nil log r : wire_inv E log r [].
Proof. split; [constructor|constructor|intros; constructor]. Qed.
Lemma in_step_spec d device a :
  in_step d device = Some a ->
  device = Some (dl_epoch d, a) /\ is_Some (dl_sent d) /\ a <= dl_sequence d /\
  (a = dl_sequence d \/ exists first, head (dl_unacked d) = Some first /\ ad_sequence first <= a + 1).
Proof.
  unfold in_step. destruct device as [[epoch acked]|]; [|done].
  destruct (String.eqb epoch (dl_epoch d)) eqn:Ee; [|done]. cbn [andb].
  destruct (bool_decide (is_Some (dl_sent d))) eqn:Es; [|done]. cbn [andb].
  destruct (N.leb_spec acked (dl_sequence d)) as [Hle|]; [|done]. cbn [andb].
  destruct ((acked =? dl_sequence d) || _) eqn:Eo; [|done]. intros [= <-].
  apply String.eqb_eq in Ee as ->. apply bool_decide_eq_true in Es. split_and!; try done.
  apply orb_true_iff in Eo as [->%N.eqb_eq|Ef]; [by left|right].
  destruct (head (dl_unacked d)) as [first|]; [|done]. exists first. split; [done|]. by apply N.leb_le.
Qed.

Lemma attach_keeps s session hello d out :
  sync_inv E s -> reports hello (sy_device s) -> attach session hello (sy_controller s) = (d, out) ->
  sync_inv E (mkSync d (default (sy_row s) (ob_position out)) (ob_bodies out) [] (sy_device s) (sy_log s) (sy_lost s) false).
Proof.
  intros [[Ce Cr Ck Cb Crev Cs [Cu Cl]] Hd Hw Hbd Ha Hk Hlt Hlo Hf Hbh] Hrep. unfold attach.
  destruct (in_step (sy_controller s) (hello_position hello)) as [a|] eqn:Ei.
  2:{ intros [= <- <-].
      split; cbn [sy_controller sy_row sy_wire sy_acks sy_device sy_log sy_lost sy_behind ob_bodies ob_position no_outbox default]; try done.
      - apply wire_inv_nil.
      - cbn. intros _ a [= <-] Ho. done. }
  apply in_step_spec in Ei as (Hpos & Hsent & Hle & Hfirst). destruct Hrep as [Hn|(Hx & ep & Hre & Hp)]; [congruence|].
  rewrite Hpos in Hp. injection Hp as Hep ->. rewrite <- Hep, Ce in Hre. cbv zeta. intros [= <- <-].
  set (moved := dl_acked (sy_controller s) <? rv_acked (sy_device s)).
  set (d' := if moved then set_acked (rv_acked (sy_device s)) (sy_controller s) else sy_controller s).
  assert (Hfields : dl_epoch d' = dl_epoch (sy_controller s) /\ dl_sequence d' = dl_sequence (sy_controller s) /\
    dl_sent d' = dl_sent (sy_controller s) /\ dl_unacked d' = dl_unacked (sy_controller s)) by (unfold d'; by destruct moved).
  destruct Hfields as (Fe & Fs & Fm & Fu). assert (Hin : in_epoch E (sy_device s)) by done. specialize (Hk Hin).
  assert (Fk : dl_acked d' = rv_acked (sy_device s)).
  { unfold d', moved. destruct (N.ltb_spec (dl_acked (sy_controller s)) (rv_acked (sy_device s))); cbn; lia. }
  rewrite Fu. set (unacked := retain _ (dl_unacked (sy_controller s))).
  assert (Hu : consecutive (dl_sequence (sy_controller s)) unacked) by by apply consecutive_retain.
  assert (Hl : Forall (logged_delta E (sy_log s)) unacked) by by apply Forall_retain.
  pose proof (consecutive_length _ _ _ Cu Hle Hfirst) as Hlen. fold unacked in Hlen.
  assert (Hseq : forall i dt, unacked !! i = Some dt -> ad_sequence dt = rv_acked (sy_device s) + 1 + N.of_nat i).
  { intros i dt Hi. specialize (Hu i dt Hi). pose proof (lookup_lt_Some _ _ _ Hi). lia. }
  assert (Habove : Forall (fun b => rv_acked (sy_device s) < body_seq b) (Pb_Delta <$> unacked)).
  { apply Forall_fmap, Forall_forall. intros dt [i Hi]%list_elem_of_lookup. cbn [compose body_seq]. rewrite (Hseq i dt Hi). lia. }
  split; cbn [sy_controller sy_row sy_wire sy_acks sy_device sy_log sy_lost sy_behind ob_bodies ob_position]; try done.
  - split; cbn [set_attached set_unacked dl_epoch dl_sequence dl_acked dl_sent dl_unacked].
    + by rewrite Fe.
    + unfold dl_position, set_attached, set_unacked. cbn [dl_sequence dl_acked].
      unfold d'. destruct moved; [done|]. exact Cr.
    + rewrite Fk, Fs. exact (Hbd Hre).
    + by rewrite Fs.
    + done.
    + rewrite Fm, Fs. exact Cs.
    + by rewrite Fs.
  - split; [by apply Forall_fmap|by eapply sorted_deltas|done].
  - cbn [set_attached set_unacked dl_sequence]. by rewrite Fs.
  - cbn [set_attached set_unacked dl_acked]. rewrite Fk. done.
  - cbn [set_attached set_unacked dl_acked]. rewrite Fk. eapply Forall_impl; [exact Habove|]. cbn. intros b Hb. lia.
  - by left.
  - cbn [set_attached set_unacked dl_attached dl_sent dl_sequence]. intros _ x [= <-] _. rewrite Fm, Fs. split; [done|].
    destruct (receive_deltas E unacked (sy_device s) Hin) as [? ->]; [|split; [done|lia]].
    intros i dt Hi. split; [|by apply Hseq]. rewrite Forall_forall in Hl. apply (Hl dt). by eapply list_elem_of_lookup_2.
Qed.

Lemma ack_keeps s a rest d out :
  sync_inv E s -> sy_acks s = a :: rest -> delivery_ack a (sy_controller s) = (d, out) ->
  sync_inv E (mkSync d (default (sy_row s) (ob_position out)) (sy_wire s) rest (sy_device s) (sy_log s) (sy_lost s)
    (negb (aa_need_snapshot a) && sy_behind s)).
Proof.
  intros [[Ce Cr Ck Cb Crev Cs [Cu Cl]] Hd Hw Hbd Ha Hk Hlt Hlo Hf Hbh] Ea. rewrite Ea in Ha, Hbh. apply Forall_cons in Ha as [Ha Hrest].
  unfold delivery_ack. cbv zeta.
  set (d0 := if aa_need_snapshot a then owe_snapshot (sy_controller s) else sy_controller s).
  assert (Hfields : dl_epoch d0 = E /\ dl_position d0 = dl_position (sy_controller s) /\ dl_sequence d0 = dl_sequence (sy_controller s) /\
    dl_acked d0 = dl_acked (sy_controller s) /\ dl_sent d0 = dl_sent (sy_controller s) /\ dl_unacked d0 = dl_unacked (sy_controller s))
    by (unfold d0; by destruct (aa_need_snapshot a)).
  destruct Hfields as (Fe & Fp & Fs & Fk & Fm & Fu).
  assert (Hfut : forall x, negb (aa_need_snapshot a) && sy_behind s = false -> dl_attached d0 = Some x -> at_snapshot_owed x = false ->
    sy_behind s = false /\ dl_attached (sy_controller s) = Some x).
  { unfold d0. destruct (aa_need_snapshot a); [|done]. cbn. destruct (dl_attached (sy_controller s)) as [y|]; [|done].
    cbn. intros x _ [= <-]. done. }
  assert (Hbehind : negb (aa_need_snapshot a) && sy_behind s = true -> Exists (fun a => aa_need_snapshot a = true) rest).
  { intros [Hn Hb]%andb_true_iff. specialize (Hbh Hb). apply Exists_cons in Hbh as [Hx|?]; [|done]. by rewrite Hx in Hn. }
  destruct (aa_durable a && _ && _ && _) eqn:Eg; intros [= <- <-].
  - rewrite !andb_true_iff, bool_decide_eq_true, N.leb_le, N.ltb_lt in Eg. destruct Eg as [[[_ Hep] Hle] Hgt].
    rewrite Fe in Hep. destruct (Ha Hep) as [HE Hacked].
    split; cbn [sy_controller sy_row sy_wire sy_acks sy_device sy_log sy_lost sy_behind ob_position]; try done.
    + split; cbn [set_unacked set_acked dl_epoch dl_sequence dl_acked dl_sent dl_unacked]; try done.
      * by rewrite Fs.
      * by rewrite Fm, Fs.
      * rewrite Fs, Fu. split; [by apply consecutive_retain|by apply Forall_retain].
    + cbn [set_unacked set_acked dl_sequence]. by rewrite Fs.
    + cbn [set_unacked set_acked dl_acked]. eapply Forall_impl; [exact (wi_ahead _ _ _ _ Hw HE)|]. cbn. intros b Hb. lia.
    + intros _. apply Hlo. by left.
    + cbn [set_unacked set_acked dl_attached dl_sent dl_sequence]. rewrite Fm, Fs. intros Hno x Hx Ho.
      destruct (Hfut x Hno Hx Ho) as [? ?]. by apply (Hf ltac:(done) x).
  - split; cbn [sy_controller sy_row sy_wire sy_acks sy_device sy_log sy_lost sy_behind ob_position no_outbox default]; try done.
    + split; rewrite ?Fp, ?Fs, ?Fk, ?Fm, ?Fu; done.
    + by rewrite Fs.
    + by rewrite Fk.
    + by rewrite Fk.
    + by rewrite Fk.
    + rewrite Fm, Fs. intros Hno x Hx Ho. destruct (Hfut x Hno Hx Ho) as [? ?]. by apply (Hf ltac:(done) x).
Qed.

(** Nothing in flight, and a device that holds what it held or has lost it. *)
Lemma quiet_keeps s d r lost :
  sync_inv E s -> dl_epoch d = E -> dl_position d = dl_position (sy_controller s) ->
  (dl_sent d = None \/ dl_sent d = dl_sent (sy_controller s)) ->
  (dl_unacked d = [] \/ dl_unacked d = dl_unacked (sy_controller s)) -> dl_attached d = None ->
  (rv_stage r = None \/ rv_stage r = rv_stage (sy_device s)) ->
  kept (sy_device s) r /\ lost = sy_lost s \/ lost = true /\ cache_lost E (sy_device s) r ->
  sync_inv E (quiet s d r lost).
Proof.
  intros [[Ce Cr Ck Cb Crev Cs [Cu Cl]] [Hdc Hds] Hw Hbd Ha Hk Hlt Hlo Hf Hbh] He Hp Hm Hu Hat Hst Hr.
  unfold dl_position in Hp. injection Hp as Hs Hkk.
  assert (Hin : in_epoch E r -> kept (sy_device s) r /\ in_epoch E (sy_device s)).
  { intros [He' Hx']. destruct Hr as [[(? & ? & ? & ?) _]|(_ & _ & [Hne|(Hx & _ & _)])]; [|congruence|congruence].
    split; [done|]. split; congruence. }
  split; cbn [quiet sy_controller sy_row sy_wire sy_acks sy_device sy_log sy_lost sy_behind]; try done.
  - split; rewrite ?Hs, ?Hkk; try done.
    + unfold dl_position. by rewrite Hs, Hkk.
    + intros m Em. destruct Hm as [Hm|Hm]; [congruence|]. apply Cs. congruence.
    + destruct Hu as [-> | ->]; [|done]. split; [intros i dt Hi; done|constructor].
  - split.
    + intros Hi. destruct (Hin Hi) as [(_ & Ea & Em & _) Hi']. rewrite Ea, Em. by apply Hdc.
    + intros sg Hsg. destruct Hst as [Hst|Hst]; rewrite Hst in Hsg; [done|by apply Hds].
  - apply wire_inv_nil.
  - intros Her. rewrite Hs. destruct Hr as [[(Ee & -> & _ & _) _]|(_ & _ & [?|(_ & Ee & Hle)])]; [apply Hbd; congruence|done|].
    etrans; [exact Hle|]. apply Hbd. congruence.
  - rewrite Hkk. intros Hi. destruct (Hin Hi) as [(_ & -> & _ & _) Hi']. by apply Hk.
  - rewrite Hkk. intros Hor. destruct Hr as [[(Ee & _ & _ & Hx) ->]|[-> _]]; [|by right]. unfold in_epoch. rewrite Ee, Hx.
    apply Hlo. by rewrite <- Ee.
  - intros _ a Ea. congruence.
Qed.

Lemma step_keeps s s' : sync_inv E s -> faulty_step E s s' -> sync_inv E s'.
Proof.
  intros Hinv Hstep. destruct Hstep as [s' Hstep|b rest Ew]; [|by apply deliver_keeps]. destruct Hstep as
    [session hello d out Hr Hat|session Hs|desired d out Hok Hr|removed d out Hr|b rest Ew|a rest d out Ea Hk| |Hn|r Hn Hl].
  - by eapply attach_keeps.
  - unfold detach. rewrite bool_decide_eq_true_2 by done. apply quiet_keeps; try done; try (by right); try (by left). by apply Hinv.
  - by eapply refresh_keeps.
  - by eapply retract_keeps.
  - by apply deliver_keeps.
  - by eapply ack_keeps.
  - destruct (si_controller E s Hinv) as [_ Hrow Hle _ _ _ _].
    apply quiet_keeps; try done; try (by right); try (by left). rewrite Hrow. unfold dl_position, delivery_new. cbn. f_equal. lia.
  - apply quiet_keeps; try done; try (by right); try (by left). by apply Hinv.
  - apply quiet_keeps; try done; try (by right); [by apply Hinv|left; apply Hl].
Qed.

Lemma faulty_reachable_inv s : faulty_reachable E s -> sync_inv E s.
Proof.
  induction 1 as [s (Ec & Er & Ew & Ea & He & Hst & El & Eb)|s s' _ IH Hs]; [|by eapply step_keeps].
  split; rewrite ?Ec, ?Er, ?Ew, ?Ea, ?El, ?Eb; try done.
  - split; [intros [Hx _]; congruence|]. intros sg Hsg. congruence.
  - apply wire_inv_nil.
  - intros [? _]. congruence.
  - cbn. intros [?|?]; [congruence|lia].
Qed.
(** Without failed writes the controller is never behind the device's needs. *)
Lemma sync_reachable_faulty s : sync_reachable E s -> faulty_reachable E s /\ sy_behind s = false.
Proof.
  induction 1 as [s Hi|s s' _ [IH Hb] Hs]; [split; [by apply faulty_initial|apply Hi]|].
  split; [eapply faulty_next; [exact IH|by apply Faulty_Sync]|].
  destruct Hs; cbn [quiet emit sy_behind]; try done; [|by rewrite Hb, andb_false_r].
  unfold deliver. destruct (device_receive true (sy_device s) b) as [r ack]. cbn [sy_behind negb andb orb]. done.
Qed.

(** The device holds exactly what the log says of its position; at the sequence,
    what was sent. *)
Lemma device_at_sequence s m :
  sync_inv E s -> in_epoch E (sy_device s) -> dl_sent (sy_controller s) = Some m ->
  rv_acked (sy_device s) = dl_sequence (sy_controller s) -> rv_cache (sy_device s) = m.
Proof.
  intros [Hc [Hd _] _ _ _ _ _ _ _ _] He Hm Hseq. destruct (Hd He) as [p Hp]. destruct (ci_sent _ _ _ _ Hc m Hm) as [p' Hp'].
  rewrite Hseq, Hp' in Hp. by injection Hp as <- _.
Qed.
Lemma delivered_inv bodies s :
  sync_inv E s -> sy_wire s = bodies ->
  exists s', sync_inv E s' /\ sy_controller s' = sy_controller s /\ sy_device s' = foldl receive (sy_device s) bodies.
Proof.
  revert s. induction bodies as [|b bodies IH]; intros s Hinv Ew; [by exists s|].
  pose proof (deliver_keeps E true s b bodies Hinv Ew) as H1.
  assert (Hd : sy_wire (deliver true b bodies s) = bodies /\ sy_controller (deliver true b bodies s) = sy_controller s /\
    sy_device (deliver true b bodies s) = receive (sy_device s) b).
  { unfold deliver, receive. by destruct (device_receive true (sy_device s) b). }
  destruct Hd as (Hw & Hc & Hd). destruct (IH _ H1 Hw) as (s' & Hs' & Hc' & Hd'). exists s'. split_and!; [done|congruence|].
  by rewrite Hd', Hd.
Qed.
(** Writes may have failed, as long as the controller knows. *)
Lemma converges_when_told s a desired :
  sync_inv E s -> sy_behind s = false -> dl_attached (sy_controller s) = Some a -> desired_ok desired ->
  exists d out, delivery_refresh desired (sy_controller s) = (d, Ok out) /\
    let device := foldl receive (sy_device s) (sy_wire s ++ ob_bodies out) in
    in_epoch E device /\ rv_acked device = dl_sequence d /\ holds_live (rv_cache device) (ds_live desired).
Proof.
  intros Hinv Hb Ha Hok.
  destruct (refresh_sends_what_is_live desired (sy_controller s) a Hok Ha) as (d & out & m & Href & Hm & Hlive & Hat & _).
  exists d, out. split; [done|]. cbv zeta.
  pose proof (refresh_keeps E s desired d out Hinv Hok Href) as Hinv'.
  destruct (si_future E _ Hinv' Hb (mkAttached (at_session a) false) Hat eq_refl) as (_ & He & Hs).
  destruct (delivered_inv _ _ Hinv' eq_refl) as (s' & Hdone & Hc & Hd). cbn [emit sy_controller sy_row sy_wire sy_acks sy_device sy_log] in *.
  split_and!; [done|done|]. pose proof (device_at_sequence s' m Hdone) as Hcache.
  rewrite Hc, Hd in Hcache. by rewrite (Hcache He Hm Hs).
Qed.
End reachability.

(** ** What the pair promises *)
(** C23: Whatever was lost, resent, acknowledged or restarted before, the device's
    cache among it, once an attached speaker refreshes to well-formed occurrences
    and its device has taken in what is then in flight, the device is at the
    controller's delivery position and its cache is exactly those occurrences,
    whatever their revisions. *)
Theorem delivery_converges `{UuidCrate, Digest} E s a desired :
  sync_reachable E s -> dl_attached (sy_controller s) = Some a -> desired_ok desired ->
  exists d out, delivery_refresh desired (sy_controller s) = (d, Ok out) /\
    let device := foldl receive (sy_device s) (sy_wire s ++ ob_bodies out) in
    rv_epoch device = Some E /\ rv_acked device = dl_sequence d /\ holds_live (rv_cache device) (ds_live desired).
Proof.
  intros [Hr Hb]%sync_reachable_faulty Ha Hok.
  destruct (converges_when_told E s a desired (faulty_reachable_inv E s Hr) Hb Ha Hok) as (d & out & Href & [He _] & Hs & Hl).
  by exists d, out.
Qed.

(** C24: Over a link that loses messages, restarts of either end and writes of the
    device that fail, an occurrence the controller reports armed is in the sound
    cache of the device, the object as it was last sent; unless the device lost its
    cache at a restart (none left, another epoch's, or a corrupt store) and has
    installed no snapshot since, and then a session it attached owes it a snapshot,
    has one in flight or has an acknowledgement in flight that asks for one. *)
Theorem armed_is_on_the_device `{UuidCrate, Digest} E s id :
  faulty_reachable E s -> armed id (sy_controller s) = true ->
  in_epoch E (sy_device s) /\
    (exists m o, dl_sent (sy_controller s) = Some m /\ m !! id = Some o /\ rv_cache (sy_device s) !! id = Some o) \/
  ~ in_epoch E (sy_device s) /\ sy_lost s = true /\
    (forall a, dl_attached (sy_controller s) = Some a ->
      at_snapshot_owed a = true \/ in_epoch E (foldl receive (sy_device s) (sy_wire s)) \/
      Exists (fun ack => aa_need_snapshot ack = true) (sy_acks s)).
Proof.
  intros Hr Harm. destruct (faulty_reachable_inv E s Hr) as [Hc Hd Hw Hbd Ha Hk Hlt Hlo Hf Hbh]. unfold armed in Harm.
  destruct (dl_sent (sy_controller s)) as [m|] eqn:Hm; [|done]. cbn [mbind option_bind] in Harm.
  destruct (m !! id) as [o|] eqn:Ho; [|done]. apply N.leb_le in Harm.
  destruct (ci_sent _ _ _ _ Hc m Hm) as [p Hp]. destruct (ci_revisions _ _ _ _ Hc _ _ _ _ _ Hp Ho) as (_ & Hrev & Hsame).
  destruct (decide (in_epoch E (sy_device s))) as [Hin|Hout].
  - left. split; [done|]. exists m, o. split_and!; [done|done|]. specialize (Hk Hin).
    destruct (di_cache _ _ _ Hd Hin) as [p' Hp']. apply (Hsame (rv_acked (sy_device s)) _ p'); [|done].
    pose proof (ci_log _ _ _ _ Hc _ _ Hp'). lia.
  - right. destruct (Hlo ltac:(right; lia)) as [?|Hlost]; [done|]. split_and!; [done|done|]. intros a Hat.
    destruct (at_snapshot_owed a) eqn:Hown; [by left|right]. destruct (sy_behind s); [right; auto|left].
    by destruct (Hf eq_refl a Hat Hown) as (_ & ? & _).
Qed.

(** *** A sample *)
Definition sample_hello : option HelloAlerts := Some (mkHelloAlerts None None None).
Definition empty_device : Receiver := mkReceiver None 0 ∅ false None.
Definition sample_start : Sync := mkSync (delivery_new "e1" 0 0) (0, 0) [] [] empty_device ∅ false false.
Definition sample_desired : Desired := mkDesired [sample_object 2 900 "B"; sample_object 1 700 "A"] ∅.
Definition sample_attached : Sync :=
  mkSync (set_attached (Some (mkAttached 1 true)) (delivery_new "e1" 0 0)) (0, 0) [] [] empty_device ∅ false false.
#[local] Existing Instance sample_crate.
#[local] Existing Instance sample_digest.
Definition sample_sent : Sync :=
  match delivery_refresh sample_desired (sy_controller sample_attached) with
  | (d, Ok out) => emit out sample_attached d
  | _ => sample_attached
  end.
Definition sample_delivered : Sync :=
  match sy_wire sample_sent with
  | b :: rest => deliver true b rest sample_sent
  | [] => sample_sent
  end.
Definition sample_armed : Sync :=
  match sy_acks sample_delivered with
  | a :: rest =>
      let '(d, out) := delivery_ack a (sy_controller sample_delivered) in
      mkSync d (default (sy_row sample_delivered) (ob_position out)) (sy_wire sample_delivered) rest
        (sy_device sample_delivered) (sy_log sample_delivered) (sy_lost sample_delivered)
        (negb (aa_need_snapshot a) && sy_behind sample_delivered)
  | [] => sample_delivered
  end.

Lemma sample_desired_ok : desired_ok sample_desired.
Proof.
  split; [apply (bool_decide_unpack _); vm_compute; exact I|]. apply Forall_forall. intros o Ho.
  apply list_elem_of_In in Ho. destruct Ho as [<-|[<-|[]]]; vm_compute; reflexivity.
Qed.
Lemma sample_attached_reachable : sync_reachable "e1" sample_attached.
Proof.
  apply (reachable_step "e1" sample_start); [apply reachable_initial; by split_and!|].
  exact (Sync_Attach "e1" sample_start 1 sample_hello _ _ (or_introl eq_refl) eq_refl).
Qed.
Lemma sample_sent_reachable : sync_reachable "e1" sample_sent.
Proof.
  unfold sample_sent. destruct (delivery_refresh _ _) as [d [out|err]] eqn:Er; [|exact sample_attached_reachable].
  apply (reachable_step "e1" sample_attached); [exact sample_attached_reachable|].
  exact (Sync_Refresh "e1" sample_attached sample_desired d out sample_desired_ok Er).
Qed.
Lemma sample_delivered_reachable : sync_reachable "e1" sample_delivered.
Proof.
  unfold sample_delivered. destruct (sy_wire sample_sent) as [|b rest] eqn:Ew; [exact sample_sent_reachable|].
  apply (reachable_step "e1" sample_sent); [exact sample_sent_reachable|]. exact (Sync_Deliver "e1" sample_sent b rest Ew).
Qed.
Lemma sample_armed_reachable : sync_reachable "e1" sample_armed.
Proof.
  unfold sample_armed. destruct (sy_acks sample_delivered) as [|a rest] eqn:Ea; [exact sample_delivered_reachable|].
  destruct (delivery_ack a (sy_controller sample_delivered)) as [d out] eqn:Ek.
  apply (reachable_step "e1" sample_delivered); [exact sample_delivered_reachable|]. exact (Sync_Ack "e1" _ a rest d out Ea Ek).
Qed.
(** The device comes back without its cache. *)
Definition sample_wiped : Sync :=
  quiet (quiet sample_armed (detach 1 (sy_controller sample_armed)) (sy_device sample_armed) (sy_lost sample_armed))
    (detach 1 (sy_controller sample_armed)) empty_device true.
Lemma sample_wiped_reachable : sync_reachable "e1" sample_wiped.
Proof.
  eapply reachable_step; [eapply reachable_step; [exact sample_armed_reachable|]|].
  - by apply (Sync_Detach "e1" sample_armed 1).
  - apply (Sync_Lose "e1" (quiet sample_armed (detach 1 (sy_controller sample_armed)) (sy_device sample_armed) (sy_lost sample_armed)));
      [by vm_compute|]. split; [done|by left].
Qed.

Lemma delivery_converges_witness :
  exists d out, delivery_refresh sample_desired (sy_controller sample_attached) = (d, Ok out) /\
    holds_live (rv_cache (foldl receive (sy_device sample_attached) (sy_wire sample_attached ++ ob_bodies out))) (ds_live sample_desired).
Proof.
  destruct (delivery_converges "e1" sample_attached (mkAttached 1 true) sample_desired sample_attached_reachable eq_refl sample_desired_ok)
    as (d & out & Hr & _ & _ & Hl). by exists d, out.
Defined.

Lemma armed_is_on_the_device_witness :
  (armed 1 (sy_controller sample_armed) = true /\ is_Some (rv_cache (sy_device sample_armed) !! 1)) /\
  (armed 1 (sy_controller sample_wiped) = true /\ sy_lost sample_wiped = true).
Proof.
  assert (Ha : armed 1 (sy_controller sample_armed) = true) by (vm_compute; reflexivity).
  assert (Hb : armed 1 (sy_controller sample_wiped) = true) by (vm_compute; reflexivity).
  pose proof (armed_is_on_the_device "e1" sample_armed 1 (proj1 (sync_reachable_faulty "e1" _ sample_armed_reachable)) Ha) as H1.
  pose proof (armed_is_on_the_device "e1" sample_wiped 1 (proj1 (sync_reachable_faulty "e1" _ sample_wiped_reachable)) Hb) as H2.
  split; split; [exact Ha| |exact Hb|].
  - destruct H1 as [(_ & m & o & _ & _ & Ho)|[Hout _]]; [by exists o|]. exfalso. apply Hout. split; vm_compute; reflexivity.
  - destruct H2 as [[[Hin _] _]|(_ & Hlost & _)]; [|exact Hlost]. vm_compute in Hin. discriminate Hin.
Defined.

(** ** A snapshot that cannot be sent

    [snapshot] puts an empty map where no state had been sent when the pages cannot
    be built, and from then on the session's successor is taken to be in step: a
    restarted controller whose first snapshot failed owes a device that reports the
    stored position nothing, though it has sent it nothing, and never removes what
    the device still holds. *)
Definition long_label : string := String.concat "" (replicate 121 "x").
Definition unsendable : Desired := mkDesired [sample_object 1 700 long_label] ∅.
Definition after_failed_snapshot : Delivery :=
  fst (delivery_refresh unsendable (fst (attach 1 sample_hello (delivery_new "e1" 7 7)))).
Definition matching_hello : option HelloAlerts := Some (mkHelloAlerts (Some "e1") (Some 7) None).
Example failed_snapshot_is_taken_for_sent :
  snd (delivery_refresh unsendable (fst (attach 1 sample_hello (delivery_new "e1" 7 7)))) = Err (Se_LabelTooLong 1 121) /\
  snapshot_owed (fst (attach 2 matching_hello (detach 1 after_failed_snapshot))) = false /\
  snapshot_owed (fst (attach 2 matching_hello (delivery_new "e1" 7 7))) = true.
Proof. vm_compute. split_and!; reflexivity. Qed.

(** A device that comes back without its cache is owed a snapshot, and what it held
    is still reported armed, before and after the snapshot is sent. *)
Example armed_outlives_a_lost_cache :
  let back := fst (attach 2 sample_hello (detach 1 (sy_controller sample_armed))) in
  snapshot_owed back = true /\ armed 1 back = true /\
  armed 1 (fst (delivery_refresh sample_desired back)) = true.
Proof. vm_compute. split_and!; reflexivity. Qed.
