(* ===== verification/Schedule.v ===== *)
(** * Alarm times ([alerts/src/schedule.rs])

    When a new alarm first rings, how it repeats, and the text forms of times.
    Dates and time zones are the [jiff] crate's, the class [Jiff]; an instant is
    its number of nanoseconds, a [Zoned] an instant in a zone. *)
From Stdlib Require Import Floats.SpecFloat.
From S2P Require Import Prelude Bytes WireEnum Float Ema Vocab Json Policy Clock Evidence Level Transcript Document.

Abbreviation Timestamp := Z.
Class Jiff := {
  TimeZone : Type;
  Date : Type;
  (** [TimeZone::get], [TimeZone::fixed] of an [Offset::from_seconds]. *)
  tz_get : string -> option TimeZone;
  tz_fixed : Z -> option TimeZone;
  (** [Timestamp::to_zoned(zone).date()], [DateTime::to_zoned(zone)] of a date and a
      time of day, and [Zoned::strftime] with seconds and a numeric offset. *)
  tz_date : TimeZone -> Timestamp -> Date;
  tz_resolve : TimeZone -> Date -> N -> N -> N -> option Timestamp;
  tz_text : TimeZone -> Timestamp -> string;
  (** [Date::weekday] counted from Monday, [Date::tomorrow]. *)
  date_weekday : Date -> N;
  date_tomorrow : Date -> option Date;
  (** [str::parse::<Timestamp>], [from_millisecond], [as_millisecond] and
      [checked_add] of milliseconds. *)
  timestamp_parse : string -> option Timestamp;
  timestamp_from_ms : Z -> option Timestamp;
  timestamp_as_ms : Timestamp -> Z;
  timestamp_add_ms : Timestamp -> Z -> option Timestamp;
}.
(** The days of the week follow each other. *)
Class JiffLaws (J : Jiff) : Prop := {
  weekday_range : forall d, date_weekday d < 7;
  weekday_tomorrow : forall d d', date_tomorrow d = Some d' -> date_weekday d' = (date_weekday d + 1) mod 7;
}.
Record Zoned `{Jiff} := mkZoned { zd_zone : TimeZone; zd_timestamp : Timestamp }.

(** ** The zone *)
Record HaTimeZone `{Jiff} := mkHaTimeZone { hz_name : string; hz_zone : TimeZone }.
Definition zone_named `{Jiff} (name : string) : result string HaTimeZone :=
  match tz_get name with Some zone => Ok (mkHaTimeZone _ name zone) | None => Err name end.
Definition zone_at_ms `{Jiff} (z : HaTimeZone) (utc_ms : Z) : option Zoned :=
  (fun ts => mkZoned _ (hz_zone z) ts) <$> timestamp_from_ms utc_ms.
Definition local_text `{Jiff} (z : Zoned) : string := tz_text (zd_zone z) (zd_timestamp z).
Definition zone_local_text `{Jiff} (z : HaTimeZone) (instant : Timestamp) : string := local_text (mkZoned _ (hz_zone z) instant).
Definition parse_instant `{Jiff} (text : string) : option Timestamp := timestamp_parse text.

(** ** Texts by byte *)
(** [str::get] of the bytes from [a] for [n], between character boundaries. *)
Definition boundary (s : string) (i : nat) : bool :=
  (i =? String.length s)%nat || match String.get i s with Some c => negb (continuation (byte_at c)) | None => false end.
Definition str_get (s : string) (a n : nat) : option string :=
  if (a + n <=? String.length s)%nat && boundary s a && boundary s (a + n)%nat then Some (String.substring a n s) else None.
(** [str::parse] of a short signed decimal. *)
Definition parse_i32 (text : string) : option Z :=
  match text with
  | String c rest =>
      if byte_at c =? 45 then Z.opp ∘ Z.of_N <$> parse_u64_decimal rest
      else if byte_at c =? 43 then Z.of_N <$> parse_u64_decimal rest
      else Z.of_N <$> parse_u64_decimal text
  | EmptyString => None
  end.
Definition shift_same_offset `{Jiff} (text : string) (ms : Z) : option string :=
  instant ← parse_instant text;
  if (String.length text <? 6)%nat then None
  else
    tail ← str_get text (String.length text - 6) 6;
    sign ← match String.get 0 tail with
           | Some c => if byte_at c =? 43 then Some 1%Z else if byte_at c =? 45 then Some (-1)%Z else None
           | None => None
           end;
    hours ← str_get tail 1 2 ≫= parse_i32;
    minutes ← str_get tail 4 2 ≫= parse_i32;
    zone ← tz_fixed (sign * (hours * 3600 + minutes * 60))%Z;
    shifted ← timestamp_add_ms instant ms;
    Some (local_text (mkZoned _ zone shifted)).

(** ** Time of day *)
Record TimeOfDay := mkTimeOfDay { td_hour : N; td_minute : N; td_second : N }.
#[export] Instance TimeOfDay_eq_dec : EqDecision TimeOfDay. Proof. solve_decision. Defined.
Definition time_new (hour minute second : N) : option TimeOfDay :=
  if (hour <? 24) && (minute <? 60) && (second <? 60) then Some (mkTimeOfDay hour minute second) else None.

(** [str::split(c)]. *)
Fixpoint split_on (c : Ascii.ascii) (s : string) : list string :=
  match s with
  | EmptyString => [""]
  | String a s =>
      if Ascii.eqb a c then "" :: split_on c s
      else match split_on c s with
           | part :: parts => String a part :: parts
           | [] => [String a ""]
           end
  end.
Definition COLON : Ascii.ascii := ascii_of 58.
(** One field of at most two digits; [parse::<u8>] cannot fail on them. *)
Definition time_field (part : string) : option N :=
  if negb (String.eqb part "") && (String.length part <=? 2)%nat && all_digits part then parse_u64_decimal part else None.
Definition time_parse (text : string) : option TimeOfDay :=
  match split_on COLON text with
  | [h; m] => hour ← time_field h; minute ← time_field m; time_new hour minute 0
  | [h; m; s] => hour ← time_field h; minute ← time_field m; second ← time_field s; time_new hour minute second
  | _ => None
  end.
(** [split_once('T')], the part after. *)
Fixpoint after_T (s : string) : option string :=
  match s with
  | EmptyString => None
  | String a s => if byte_at a =? 84 then Some s else after_T s
  end.
Definition time_of_local_text (text : string) : option TimeOfDay :=
  clock ← after_T text; clock8 ← str_get clock 0 8; time_parse clock8.
(** [{:02}] *)
Definition two (n : N) : string := let t := pretty n in if (String.length t <? 2)%nat then "0" +:+ t else t.
Definition time_text (t : TimeOfDay) : string :=
  two (td_hour t) +:+ ":" +:+ two (td_minute t) +:+ ":" +:+ two (td_second t).

(** ** Weekdays: the bits of a [u8], Monday the lowest *)
Abbreviation Weekdays := N.
Definition DAYS : list (N * string * string) :=
  [(0, "MO", "mon"); (1, "TU", "tue"); (2, "WE", "wed"); (3, "TH", "thu"); (4, "FR", "fri"); (5, "SA", "sat"); (6, "SU", "sun")].
Definition days_none : Weekdays := 0.
Definition days_all : Weekdays := 127.
Definition day_bit (day : N) : N := N.shiftl 1 day mod 256.
Definition days_with (set : Weekdays) (day : N) : Weekdays := N.lor set (day_bit day).
Definition days_contains (set : Weekdays) (day : N) : bool := negb (N.land set (day_bit day) =? 0).
Definition days_is_empty (set : Weekdays) : bool := set =? 0.
Definition lower_ascii (c : Ascii.ascii) : Ascii.ascii :=
  let n := byte_at c in if (65 <=? n) && (n <=? 90) then ascii_of (n + 32) else c.
Fixpoint eq_ignore_ascii_case (a b : string) : bool :=
  match a, b with
  | EmptyString, EmptyString => true
  | String x a, String y b => Ascii.eqb (lower_ascii x) (lower_ascii y) && eq_ignore_ascii_case a b
  | _, _ => false
  end.
(** [trim] is Unicode's, an argument. *)
Fixpoint days_from_names (trim : string -> string) (names : list string) (set : Weekdays) : option Weekdays :=
  match names with
  | [] => Some set
  | name :: names =>
      match find_first (fun '(_, _, short) => eq_ignore_ascii_case short (trim name)) DAYS with
      | Some (day, _, _) => days_from_names trim names (days_with set day)
      | None => None
      end
  end.
Definition days_names (set : Weekdays) : list string :=
  List.map (fun '(_, _, short) => short) (List.filter (fun '(day, _, _) => days_contains set day) DAYS).
Definition days_byday (set : Weekdays) : string :=
  String.concat "," (List.map (fun '(_, code, _) => code) (List.filter (fun '(day, _, _) => days_contains set day) DAYS)).

(** ** Recurrence *)
Inductive Repeat := Rp_Once | Rp_Daily | Rp_Weekly (days : Weekdays).
#[export] Instance Repeat_eq_dec : EqDecision Repeat. Proof. solve_decision. Defined.
Definition repeat_on (days : Weekdays) : Repeat :=
  if days_is_empty days then Rp_Once else if days =? days_all then Rp_Daily else Rp_Weekly days.
Definition repeat_days (r : Repeat) : Weekdays :=
  match r with Rp_Once => days_none | Rp_Daily => days_all | Rp_Weekly days => days end.
Definition rrule (r : Repeat) : option string :=
  match r with
  | Rp_Once => None
  | Rp_Daily => Some "FREQ=DAILY"
  | Rp_Weekly days => Some ("FREQ=WEEKLY;BYDAY=" +:+ days_byday days)
  end.

(** ** The first instance *)
Section first_due.
Context `{Jiff}.
Record AlarmWhen := mkAlarmWhen {
  aw_time : TimeOfDay;
  aw_date : option Date;
  aw_repeat : Repeat;
}.
Inductive ScheduleError := Sx_InThePast | Sx_OutOfRange.

Definition zone_resolve (z : HaTimeZone) (date : Date) (time : TimeOfDay) : option Zoned :=
  (fun ts => mkZoned _ (hz_zone z) ts) <$> tz_resolve (hz_zone z) date (td_hour time) (td_minute time) (td_second time).
(** The loop, [n] days left. *)
Fixpoint due_from (n : nat) (days : Weekdays) (time : TimeOfDay) (now : Timestamp) (z : HaTimeZone) (date : Date) :
    result ScheduleError Zoned :=
  match n with
  | O => Err Sx_OutOfRange
  | S n =>
      let next := let? tomorrow := ok_or Sx_OutOfRange (date_tomorrow date) in due_from n days time now z tomorrow in
      if days_contains days (date_weekday date) then
        let? due := ok_or Sx_OutOfRange (zone_resolve z date time) in
        if (now <? zd_timestamp due)%Z then Ok due else next
      else next
  end.
Definition first_due (w : AlarmWhen) (now : Timestamp) (z : HaTimeZone) : result ScheduleError Zoned :=
  let today := tz_date (hz_zone z) now in
  let start := default today (aw_date w) in
  match aw_repeat w, aw_date w with
  | Rp_Once, Some _ =>
      let? due := ok_or Sx_OutOfRange (zone_resolve z start (aw_time w)) in
      if (now <? zd_timestamp due)%Z then Ok due else Err Sx_InThePast
  | Rp_Weekly days, _ => due_from 8 days (aw_time w) now z start
  | _, _ => due_from 8 days_all (aw_time w) now z start
  end.
End first_due.

Example time_samples :
  (time_text <$> time_parse "7:05") = Some "07:05:00" /\ time_parse "24:00" = None /\ time_parse "7" = None /\
  time_parse "07:00:00:00" = None /\ time_parse "07:0a" = None /\ time_parse "" = None /\
  (td_second <$> time_parse "23:59:59") = Some 59 /\
  time_of_local_text "2026-09-23T06:30:00-05:00" = Some (mkTimeOfDay 6 30 0).
Proof. vm_compute. split_and!; reflexivity. Qed.
Example rule_samples :
  (rrule <$> (repeat_on <$> days_from_names id ["fri"; "mon"; "Wed"] days_none)) = Some (Some "FREQ=WEEKLY;BYDAY=MO,WE,FR") /\
  days_from_names id ["mon"; "funday"] days_none = None.
Proof. vm_compute. split_and!; reflexivity. Qed.

(** ** Round trips *)
Lemma below_forallb (n : nat) (P : N -> bool) :
  forallb (fun i => P (N.of_nat i)) (seq 0 n) = true -> forall k, k < N.of_nat n -> P k = true.
Proof.
  rewrite forallb_forall. intros Hf k Hk. specialize (Hf (N.to_nat k)). rewrite N2Nat.id in Hf. apply Hf. apply in_seq. lia.
Qed.
Definition field_round (n : N) : bool :=
  match time_field (two n), split_on COLON (two n) with
  | Some m, [t] => (m =? n) && String.eqb t (two n) && (String.length (two n) =? 2)%nat
  | _, _ => false
  end.
Lemma field_rounds n : n < 60 -> field_round n = true.
Proof. intros Hn. apply (below_forallb 60); [vm_compute; reflexivity|lia]. Qed.
Lemma field_facts n :
  n < 60 -> time_field (two n) = Some n /\ split_on COLON (two n) = [two n] /\ String.length (two n) = 2%nat.
Proof.
  intros Hn%field_rounds. unfold field_round in Hn. destruct (time_field (two n)) as [m|]; [|done].
  destruct (split_on COLON (two n)) as [|t [|]]; try done.
  apply andb_true_iff in Hn as [[->%N.eqb_eq ->%String.eqb_eq]%andb_true_iff Hl%Nat.eqb_eq]. done.
Qed.
Lemma split_on_nonempty c a : split_on c a <> [].
Proof. destruct a as [|x a]; [done|]. cbn [split_on]. destruct (Ascii.eqb x c); [done|]. by destruct (split_on c a). Qed.
Lemma split_on_app c a b : split_on c a = [a] -> split_on c (a +:+ String c b) = a :: split_on c b.
Proof.
  induction a as [|x a IH]; intros Ha.
  - change ("" +:+ String c b) with (String c b). cbn [split_on]. by rewrite Ascii.eqb_refl.
  - rewrite append_cons. cbn [split_on] in Ha |- *. destruct (Ascii.eqb x c) eqn:E; [by destruct (split_on c a)|].
    destruct (split_on c a) as [|p [|q ps]] eqn:Es; [by apply split_on_nonempty in Es| |done].
    injection Ha as ->. by rewrite IH.
Qed.
Lemma time_reads_back t h m s : time_new h m s = Some t -> time_parse (time_text t) = Some t.
Proof.
  unfold time_new. destruct ((h <? 24) && (m <? 60) && (s <? 60)) eqn:E; [|done]. intros [= <-].
  pose proof E as E'. rewrite !andb_true_iff, !N.ltb_lt in E'. destruct E' as [[Hh Hm] Hs].
  destruct (field_facts h ltac:(lia)) as (Fh & Sh & _), (field_facts m Hm) as (Fm & Sm & _), (field_facts s Hs) as (Fs & Ss & _).
  unfold time_text, time_parse. cbn [td_hour td_minute td_second].
  change (":" +:+ two m +:+ ":" +:+ two s) with (String COLON (two m +:+ String COLON (two s))).
  rewrite (split_on_app COLON (two h)) by done. rewrite (split_on_app COLON (two m)) by done. rewrite Ss.
  rewrite Fh, Fm, Fs. cbn [mbind option_bind]. unfold time_new. by rewrite E.
Qed.

Definition days_ok (set : Weekdays) : bool := set <? 128.
Definition repeat_ok (r : Repeat) : bool :=
  match r with Rp_Weekly days => days_ok days && negb (days =? 0) && negb (days =? 127) | _ => true end.
Definition days_round (set : N) : bool := bool_decide (days_from_names id (days_names set) days_none = Some set).
Lemma days_round_trip set : days_ok set = true -> days_from_names id (days_names set) days_none = Some set.
Proof.
  intros Hs%N.ltb_lt. apply (bool_decide_eq_true_1 _). apply (below_forallb 128 days_round); [vm_compute; reflexivity|exact Hs].
Qed.
Lemma days_names_listed set : Forall (fun name => name ∈ (fun '(_, _, short) => short) <$> DAYS) (days_names set).
Proof.
  unfold days_names. apply Forall_forall. intros x Hx. apply list_elem_of_In, in_map_iff in Hx as (e & <- & He).
  apply filter_In in He as [He _]. apply list_elem_of_In in He. by apply (list_elem_of_fmap_2 (fun '(_, _, short) => short)) in He.
Qed.
Lemma from_names_ext trim names set :
  Forall (fun name => trim name = name) names -> days_from_names trim names set = days_from_names id names set.
Proof.
  intros Hf. revert set. induction Hf as [|name names Hn _ IH]; intros set; [done|]. cbn [days_from_names]. rewrite Hn. change (id name) with name.
  destruct (find_first _ DAYS) as [[[day ?] ?]|]; [apply IH|done].
Qed.
Definition byday_distinct (a : N) : bool :=
  forallb (fun j => let b := N.of_nat j in (a =? b) || negb (String.eqb (days_byday a) (days_byday b))) (seq 0 128).
Lemma byday_inj a b : days_ok a = true -> days_ok b = true -> days_byday a = days_byday b -> a = b.
Proof.
  intros Ha%N.ltb_lt Hb%N.ltb_lt He.
  assert (Hd : byday_distinct a = true) by (apply (below_forallb 128); [vm_compute; reflexivity|exact Ha]).
  pose proof (below_forallb 128 (fun b => (a =? b) || negb (String.eqb (days_byday a) (days_byday b))) Hd b Hb) as Hab.
  cbn beta in Hab. rewrite He, String.eqb_refl, orb_false_r in Hab. by apply N.eqb_eq.
Qed.

(** What an alarm is made of reads back: a time of day from the text the
    calendar and the relay see, the weekdays from their names, a repeat from its days, and two
    well-formed repeats with one recurrence rule are the same repeat. *)
Theorem schedule_reads_back trim :
  (forall name, name ∈ (fun '(_, _, short) => short) <$> DAYS -> trim name = name) ->
  (forall h m s t, time_new h m s = Some t -> time_parse (time_text t) = Some t) /\
  (forall set, days_ok set = true -> days_from_names trim (days_names set) days_none = Some set) /\
  (forall r, repeat_ok r = true -> repeat_on (repeat_days r) = r) /\
  (forall r r', repeat_ok r = true -> repeat_ok r' = true -> rrule r = rrule r' -> r = r').
Proof.
  intros Ht. split_and!.
  - intros h m s t. apply time_reads_back.
  - intros set Hs. rewrite from_names_ext; [by apply days_round_trip|].
    eapply Forall_impl; [apply days_names_listed|]. intros name. apply Ht.
  - intros [| |days] Hr; try done. cbn [repeat_ok repeat_days] in Hr |- *. unfold repeat_on, days_is_empty, days_all.
    apply andb_true_iff in Hr as [[_ H0%negb_true_iff]%andb_true_iff H1%negb_true_iff]. by rewrite H0, H1.
  - intros [| |a] [| |b] Ha Hb; cbn [rrule]; try done.
    intros He. injection He as He. apply (inj (String.append _)) in He. f_equal. cbn [repeat_ok] in Ha, Hb.
      rewrite !andb_true_iff in Ha, Hb. destruct Ha as [[? _] _], Hb as [[? _] _]. by apply byday_inj.
Qed.
Lemma schedule_reads_back_witness :
  (time_parse (time_text (mkTimeOfDay 6 5 9)) = Some (mkTimeOfDay 6 5 9)) /\
  repeat_on (repeat_days (Rp_Weekly 21)) = Rp_Weekly 21.
Proof.
  destruct (schedule_reads_back id (fun _ _ => eq_refl)) as (Ht & _ & Hr & _).
  split; [exact (Ht 6 5 9 _ eq_refl)|exact (Hr (Rp_Weekly 21) eq_refl)].
Defined.

(** ** When an alarm first rings *)
Section first_due_facts.
Context `{J : Jiff, !JiffLaws J}.
Implicit Types (d : Date) (z : HaTimeZone) (t : TimeOfDay) (now : Timestamp).

(** [k] days after [d]. *)
Fixpoint days_after (k : nat) (d : Date) : option Date :=
  match k with O => Some d | S k => date_tomorrow d ≫= days_after k end.
(** The repeat rings on [d], at [due]. *)
Definition rings_on (days : Weekdays) (z : HaTimeZone) (t : TimeOfDay) (d : Date) (due : Zoned) : Prop :=
  days_contains days (date_weekday d) = true /\ zone_resolve z d t = Some due.
(** It does not ring on [d], or did by [now]. *)
Definition rang_by (days : Weekdays) (z : HaTimeZone) (t : TimeOfDay) (now : Timestamp) (d : Date) : Prop :=
  days_contains days (date_weekday d) = false \/ exists due, zone_resolve z d t = Some due /\ (zd_timestamp due <= now)%Z.

Lemma due_from_ok n days t now z d due :
  due_from n days t now z d = Ok due <->
  exists k dk, (k < n)%nat /\ days_after k d = Some dk /\ rings_on days z t dk due /\ (now < zd_timestamp due)%Z /\
    forall j, (j < k)%nat -> exists dj, days_after j d = Some dj /\ rang_by days z t now dj.
Proof.
  revert d. induction n as [|n IH]; intros d; cbn [due_from]; [split; [done|intros (k & ? & ? & _); lia]|].
  assert (Hnext : rang_by days z t now d ->
    (let? tomorrow := ok_or Sx_OutOfRange (date_tomorrow d) in due_from n days t now z tomorrow) = Ok due <->
    exists k dk, (k < S n)%nat /\ days_after k d = Some dk /\ rings_on days z t dk due /\ (now < zd_timestamp due)%Z /\
      forall j, (j < k)%nat -> exists dj, days_after j d = Some dj /\ rang_by days z t now dj).
  { intros Hrang. split.
    - destruct (date_tomorrow d) as [d'|] eqn:Et; [|done]. cbn [ok_or]. intros (k & dk & Hk & Hd & Hr & Hnow & Hj)%IH.
      exists (S k), dk. split_and!; [lia|cbn [days_after]; rewrite Et; done|done|done|].
      intros [|j] Hjk; [by exists d|]. destruct (Hj j) as (dj & Hdj & ?); [lia|]. exists dj. cbn [days_after]. by rewrite Et.
    - intros (k & dk & Hk & Hd & Hr & Hnow & Hj). destruct k as [|k].
      + injection Hd as <-. destruct Hr as [Hc Hz]. destruct Hrang as [Hc'|(due' & Hz' & Hle)]; [congruence|].
        rewrite Hz in Hz'. injection Hz' as <-. lia.
      + cbn [days_after] in Hd. destruct (date_tomorrow d) as [d'|] eqn:Et; [|done]. cbn [ok_or]. apply IH.
        exists k, dk. split_and!; [lia|done|done|done|]. intros j Hjk. destruct (Hj (S j)) as (dj & Hdj & ?); [lia|].
        exists dj. cbn [days_after] in Hdj. by rewrite Et in Hdj. }
  destruct (days_contains days (date_weekday d)) eqn:Ec; [|apply Hnext; by left].
  destruct (zone_resolve z d t) as [due0|] eqn:Ez; cbn [ok_or].
  2:{ split; [done|]. intros (k & dk & Hk & Hd & [Hc Hr] & _ & Hj). destruct k as [|k]; [injection Hd as <-; congruence|].
      destruct (Hj 0%nat) as (dj & [= <-] & [?|(x & ? & _)]); [lia|congruence..]. }
  destruct (Z.ltb_spec now (zd_timestamp due0)) as [Hlt|Hge].
  - split.
    + intros [= <-]. exists 0%nat, d. split_and!; [lia|done|by split|done|lia].
    + intros (k & dk & Hk & Hd & [Hc Hr] & Hnow & Hj). destruct k as [|k]; [injection Hd as <-; congruence|].
      destruct (Hj 0%nat) as (dj & [= <-] & [?|(x & Hx & Hle)]); [lia|congruence|].
      rewrite Ez in Hx. injection Hx as <-. lia.
  - apply Hnext. right. by exists due0.
Qed.

(** Eight days reach every weekday again. *)
Lemma weekday_after k d dk : days_after k d = Some dk -> date_weekday dk = (date_weekday d + N.of_nat k) mod 7.
Proof.
  revert d. induction k as [|k IH]; intros d; cbn [days_after].
  - intros [= ->]. rewrite N.add_0_r. symmetry. apply N.mod_small, weekday_range.
  - destruct (date_tomorrow d) as [d'|] eqn:Et; [|done]. cbn [mbind option_bind]. intros Hd. rewrite (IH d' Hd).
    rewrite (weekday_tomorrow _ _ Et). rewrite N.Div0.add_mod_idemp_l. f_equal. lia.
Qed.
Lemma allowed_within days d w :
  w < 7 -> days_contains days w = true -> exists k, (1 <= k <= 7)%nat /\ (date_weekday d + N.of_nat k) mod 7 = w.
Proof.
  intros Hw _. pose proof (weekday_range d). destruct (N.lt_ge_cases (date_weekday d) w).
  - exists (N.to_nat (w - date_weekday d)). split; [lia|]. rewrite N2Nat.id. rewrite N.mod_small; lia.
  - exists (N.to_nat (7 + w - date_weekday d)). split; [lia|]. rewrite N2Nat.id.
    replace (date_weekday d + (7 + w - date_weekday d)) with (w + 1 * 7) by lia. rewrite N.Div0.mod_add. by apply N.mod_small.
Qed.
Lemma ok_has_day days : repeat_ok (Rp_Weekly days) = true -> exists w, w < 7 /\ days_contains days w = true.
Proof.
  cbn [repeat_ok]. intros [[Hd%N.ltb_lt H0]%andb_true_iff _]%andb_true_iff.
  assert (Hall : forall s, s < N.of_nat 128 -> (s =? 0) || existsb (fun i => days_contains s (N.of_nat i)) (seq 0 7) = true)
    by (apply below_forallb; vm_compute; reflexivity).
  specialize (Hall days Hd). apply negb_true_iff in H0. rewrite H0 in Hall. cbn [orb] in Hall.
  apply existsb_exists in Hall as (i & Hi & Hc). apply in_seq in Hi. exists (N.of_nat i). split; [lia|done].
Qed.
Definition allowed_days (r : Repeat) : Weekdays := match r with Rp_Weekly days => days | _ => days_all end.
Lemma all_days w : w < 7 -> days_contains days_all w = true.
Proof. intros Hw. apply (below_forallb 7 (days_contains days_all)); [vm_compute; reflexivity|exact Hw]. Qed.
Lemma repeat_has_day r : repeat_ok r = true -> exists w, w < 7 /\ days_contains (allowed_days r) w = true.
Proof. destruct r; intros Hr; [exists 0; by split|exists 0; by split|by apply ok_has_day]. Qed.

Lemma due_from_total n days t now z d :
  (forall k, (k < n)%nat -> exists dk, days_after k d = Some dk /\ is_Some (zone_resolve z dk t)) ->
  (exists k dk due, (k < n)%nat /\ days_after k d = Some dk /\ rings_on days z t dk due /\ (now < zd_timestamp due)%Z) ->
  exists due, due_from n days t now z d = Ok due.
Proof.
  intros Hall (k & dk & due & Hk & Hd & Hr & Hnow). revert d Hall k dk due Hk Hd Hr Hnow.
  induction n as [|n IH]; intros d Hall k dk due Hk Hd Hr Hnow; [lia|]. cbn [due_from].
  assert (Hnext : (0 < k)%nat -> exists due, (let? tomorrow := ok_or Sx_OutOfRange (date_tomorrow d) in due_from n days t now z tomorrow) = Ok due).
  { intros Hpos. destruct k as [|k]; [lia|]. cbn [days_after] in Hd. destruct (date_tomorrow d) as [d'|] eqn:Et; [|done].
    cbn [ok_or]. apply (IH d') with k dk due; try done; [|lia]. intros j Hj. destruct (Hall (S j)) as (dj & Hdj & ?); [lia|].
    exists dj. cbn [days_after] in Hdj. by rewrite Et in Hdj. }
  destruct (Hall 0%nat) as (d0 & [= <-] & [due0 Hz]); [lia|]. rewrite Hz. cbn [ok_or].
  destruct (days_contains days (date_weekday d)) eqn:Ec.
  - destruct (Z.ltb_spec now (zd_timestamp due0)); [by eexists|]. apply Hnext. destruct k; [|lia].
    injection Hd as <-. destruct Hr as [_ Hr]. rewrite Hz in Hr. injection Hr as <-. lia.
  - apply Hnext. destruct k; [|lia]. injection Hd as <-. destruct Hr as [Hr _]. congruence.
Qed.
End first_due_facts.

(** C27: The instant an alarm first rings is after now, at its time of day on a day
    its repeat allows, counted from its date or from today, and on every earlier
    such day the alarm's time was not after now; a one-shot alarm on a date is
    refused as past exactly when its time there is not after now; and an alarm
    without a date always has a first instant when the calendar goes on for a week
    and the days after today come after now. *)
Theorem first_due_is_the_first `{J : Jiff, !JiffLaws J} (w : AlarmWhen) now z :
  repeat_ok (aw_repeat w) = true ->
  let today := tz_date (hz_zone z) now in
  let start := default today (aw_date w) in
  let days := allowed_days (aw_repeat w) in
  (forall due, first_due w now z = Ok due ->
     exists k dk, days_after k start = Some dk /\ rings_on days z (aw_time w) dk due /\ (now < zd_timestamp due)%Z /\
       forall j, (j < k)%nat -> exists dj, days_after j start = Some dj /\ rang_by days z (aw_time w) now dj) /\
  (first_due w now z = Err Sx_InThePast <->
     aw_repeat w = Rp_Once /\ is_Some (aw_date w) /\
     exists due, zone_resolve z start (aw_time w) = Some due /\ (zd_timestamp due <= now)%Z) /\
  (aw_date w = None ->
   (forall k, (k < 8)%nat -> exists dk, days_after k today = Some dk /\ is_Some (zone_resolve z dk (aw_time w))) ->
   (forall k dk due, (0 < k)%nat -> days_after k today = Some dk -> zone_resolve z dk (aw_time w) = Some due -> (now < zd_timestamp due)%Z) ->
   exists due, first_due w now z = Ok due).
Proof.
  intros Hok. cbv zeta. set (today := tz_date (hz_zone z) now).
  assert (Hloop : forall days d due, due_from 8 days (aw_time w) now z d = Ok due ->
     exists k dk, days_after k d = Some dk /\ rings_on days z (aw_time w) dk due /\ (now < zd_timestamp due)%Z /\
       forall j, (j < k)%nat -> exists dj, days_after j d = Some dj /\ rang_by days z (aw_time w) now dj).
  { intros days d due (k & dk & _ & Hd & Hr & Hn & Hj)%due_from_ok. by exists k, dk. }
  assert (Hrange : forall n days d, due_from n days (aw_time w) now z d <> Err Sx_InThePast).
  { induction n as [|n IH]; intros days d; [done|]. cbn [due_from].
    destruct (date_tomorrow d) as [d'|]; cbn [ok_or]; destruct (days_contains _ _), (zone_resolve z d (aw_time w)) as [x|]; cbn [ok_or];
      try destruct (now <? zd_timestamp x)%Z; try done; apply IH. }
  split_and!.
  - intros due. unfold first_due. fold today. destruct (aw_repeat w) as [| |days] eqn:Er; [|apply Hloop..].
    destruct (aw_date w) as [date|] eqn:Ed; [|apply Hloop]. cbn [default from_option].
    destruct (zone_resolve z _ (aw_time w)) as [due0|] eqn:Ez; [|done]. cbn [ok_or].
    destruct (Z.ltb_spec now (zd_timestamp due0)); [|done]. intros [= <-]. exists 0%nat. eexists. split_and!; [reflexivity| |done|lia].
    split; [|done]. apply all_days, weekday_range.
  - unfold first_due. fold today. destruct (aw_repeat w) as [| |days] eqn:Er.
    + destruct (aw_date w) as [date|] eqn:Ed.
      * cbn [default from_option]. destruct (zone_resolve z _ (aw_time w)) as [due0|] eqn:Ez; cbn [ok_or].
        -- destruct (Z.ltb_spec now (zd_timestamp due0)).
           ++ split; [done|]. intros (_ & _ & due & [= <-] & Hle). lia.
           ++ split; [|done]. intros _. split_and!; [done|by eexists|by exists due0].
        -- split; [done|]. by intros (_ & _ & due & ? & _).
      * split; [intros Hx; by apply Hrange in Hx|by intros (_ & [? ?] & _)].
    + split; [intros Hx; by apply Hrange in Hx|by intros (? & _)].
    + split; [intros Hx; by apply Hrange in Hx|by intros (? & _)].
  - intros Ed Hall Hafter.
    assert (Hf : first_due w now z = due_from 8 (allowed_days (aw_repeat w)) (aw_time w) now z today).
    { unfold first_due. fold today. rewrite Ed. by destruct (aw_repeat w). }
    rewrite Hf. apply due_from_total; [done|]. destruct (repeat_has_day _ Hok) as (wd & Hwd & Hc).
    destruct (allowed_within (allowed_days (aw_repeat w)) today wd Hwd Hc) as (k & Hk & Hkw).
    destruct (Hall k) as (dk & Hd & due & Hz); [lia|]. exists k, dk, due. split_and!; [lia|done| |].
    + split; [|done]. by rewrite (weekday_after _ _ _ Hd), Hkw.
    + apply (Hafter k dk due); [lia|done..].
Qed.

(** A repeating alarm whose first day is more than a week gone is refused as out of
    range, though days of it lie ahead: the loop looks at eight days from the date. *)
Lemma stale_start_is_out_of_range `{J : Jiff, !JiffLaws J} (w : AlarmWhen) now z date :
  aw_date w = Some date -> aw_repeat w <> Rp_Once ->
  (forall k, (k < 8)%nat -> exists dk, days_after k date = Some dk /\ rang_by (allowed_days (aw_repeat w)) z (aw_time w) now dk) ->
  is_Some (days_after 8 date) -> first_due w now z = Err Sx_OutOfRange.
Proof.
  intros Ed Hr Hrang _. unfold first_due. rewrite Ed. cbn [default from_option].
  change (id date) with date.
  replace (match aw_repeat w with
           | Rp_Once => _ | Rp_Daily => due_from 8 days_all (aw_time w) now z date
           | Rp_Weekly days => due_from 8 days (aw_time w) now z date end)
    with (due_from 8 (allowed_days (aw_repeat w)) (aw_time w) now z date) by (by destruct (aw_repeat w)).
  destruct (due_from 8 _ _ _ _ _) as [due|[]] eqn:E; [|exfalso|done].
  - apply due_from_ok in E as (k & dk & Hk & Hd & [Hc Hz] & Hnow & _). destruct (Hrang k Hk) as (dk' & Hd' & Hb).
    rewrite Hd in Hd'. injection Hd' as <-. destruct Hb as [?|(x & Hx & Hle)]; [congruence|]. rewrite Hz in Hx. injection Hx as <-. lia.
  - revert E. generalize 8%nat as n, (allowed_days (aw_repeat w)) as days. clear. intros n days. revert date.
    induction n as [|n IH]; intros d; cbn [due_from]; [done|].
    destruct (date_tomorrow d) as [d'|]; cbn [ok_or]; destruct (days_contains _ _), (zone_resolve z d (aw_time w)) as [x|]; cbn [ok_or];
      try destruct (now <? zd_timestamp x)%Z; try done; apply IH.
Qed.

(** ** A sample: days as numbers, zones as fixed offsets *)
Definition sample_jiff : Jiff := {|
  TimeZone := Z;
  Date := Z;
  tz_get name := if String.eqb name "UTC" then Some 0%Z else None;
  tz_fixed offset := Some offset;
  tz_date zone ts := ((ts / 1000000000 + zone) / 86400)%Z;
  tz_resolve zone d h m s := Some ((d * 86400 + Z.of_N (h * 3600 + m * 60 + s) - zone) * 1000000000)%Z;
  tz_text _ ts := pretty ts;
  date_weekday d := Z.to_N ((d + 3) mod 7);
  date_tomorrow d := Some (d + 1)%Z;
  timestamp_parse text := None;
  timestamp_from_ms ms := Some (ms * 1000000)%Z;
  timestamp_as_ms ts := (ts / 1000000)%Z;
  timestamp_add_ms ts ms := Some (ts + ms * 1000000)%Z;
|}.
Lemma sample_jiff_laws : JiffLaws sample_jiff.
Proof.
  split; cbn.
  - intros d. pose proof (Z.mod_pos_bound (d + 3) 7 ltac:(lia)). lia.
  - intros d d' [= <-]. replace (d + 1 + 3)%Z with (d + 3 + 1)%Z by lia. rewrite <- Z.add_mod_idemp_l by lia.
    pose proof (Z.mod_pos_bound (d + 3) 7 ltac:(lia)) as Hx. revert Hx. generalize ((d + 3) mod 7)%Z. intros x Hx.
    destruct (Z.eq_dec x 6%Z) as [->|]; [reflexivity|]. rewrite Z.mod_small, N.mod_small by lia. lia.
Qed.
Definition sample_zone : @HaTimeZone sample_jiff := @mkHaTimeZone sample_jiff "UTC" 0%Z.
(** A Thursday, 08:00; a weekly Thursday alarm at 07:00. *)
Definition sample_now : Timestamp := (8 * 3600 * 1000000000)%Z.
Definition sample_when : @AlarmWhen sample_jiff := @mkAlarmWhen sample_jiff (mkTimeOfDay 7 0 0) None (Rp_Weekly 8).
Lemma sample_days_after k d : @days_after sample_jiff k d = Some (d + Z.of_nat k)%Z.
Proof.
  revert d. induction k as [|k IH]; intros d; cbn [days_after]; [f_equal; lia|].
  change (@date_tomorrow sample_jiff d) with (Some (d + 1)%Z). cbn [mbind option_bind]. rewrite IH. f_equal. lia.
Qed.
Lemma first_due_is_the_first_witness :
  exists due, @first_due sample_jiff sample_when sample_now sample_zone = Ok due /\ (sample_now < @zd_timestamp sample_jiff due)%Z.
Proof.
  destruct (@first_due_is_the_first sample_jiff sample_jiff_laws sample_when sample_now sample_zone eq_refl) as (Hok & _ & Hex).
  destruct Hex as [due Hd].
  - reflexivity.
  - intros k Hk. exists (Z.of_nat k). split; [rewrite sample_days_after; reflexivity|by eexists].
  - intros k dk due Hk Hd. rewrite sample_days_after in Hd. injection Hd as <-.
    change (@tz_date sample_jiff (@hz_zone sample_jiff sample_zone) sample_now) with 0%Z. intros [= <-].
    change (sample_now < ((0 + Z.of_nat k) * 86400 + 25200 - 0) * 1000000000)%Z. unfold sample_now. lia.
  - exists due. split; [exact Hd|]. destruct (Hok due Hd) as (k & dk & _ & _ & Hn & _). exact Hn.
Defined.
Definition due_instant (r : result ScheduleError (@Zoned sample_jiff)) : result ScheduleError Timestamp :=
  match r with Ok due => Ok (@zd_timestamp sample_jiff due) | Err e => Err e end.
Example sample_week_later :
  due_instant (@first_due sample_jiff sample_when sample_now sample_zone) = Ok ((7 * 86400 + 7 * 3600) * 1000000000)%Z /\
  due_instant (@first_due sample_jiff (@mkAlarmWhen sample_jiff (mkTimeOfDay 7 0 0) (Some (-30)%Z) Rp_Daily) sample_now sample_zone)
    = Err Sx_OutOfRange.
Proof. split; vm_compute; reflexivity. Qed.
