(* ===== verification/Journal.v ===== *)
(** * The alert journal ([alerts/src/journal.rs], the tables of [db/schema/v40.sql])

    The rows of [alert_ops], [alert_delivery] and [alert_scripts] as the SQL of each
    command reads and writes them.  A command is one transaction: an error leaves
    the tables as they were.  SQLite itself failing is an argument-less error; JSON
    texts are read by [serde_json], the class [SerdeJson]. *)
From Stdlib Require Import Floats.SpecFloat Sorting.Sorted.
From S2P Require Import Prelude Bytes WireEnum Float Ema Vocab Json Policy Clock Evidence Level Transcript Document Values Settings Stored Registry Canonical AlertBodies.

(** ** Column vocabularies *)
Inductive Action := Ac_Create | Ac_Update | Ac_Dismiss | Ac_Snooze | Ac_Expire | Ac_Cancel.
#[export] Instance Action_eq_dec : EqDecision Action. Proof. solve_decision. Defined.
#[export] Instance Action_wire : WireEnum Action := {
  as_str v := match v with Ac_Create => "create" | Ac_Update => "update" | Ac_Dismiss => "dismiss" | Ac_Snooze => "snooze"
                         | Ac_Expire => "expire" | Ac_Cancel => "cancel" end;
  ALL := [Ac_Create; Ac_Update; Ac_Dismiss; Ac_Snooze; Ac_Expire; Ac_Cancel];
}.
#[export] Instance Action_laws : WireLaws Action. Proof. solve_wire_laws. Qed.
Definition is_terminal (a : Action) : bool :=
  match a with Ac_Dismiss | Ac_Snooze | Ac_Expire | Ac_Cancel => true | _ => false end.

Inductive Source := So_Voice | So_Llm | So_Device | So_Dashboard | So_Engine.
#[export] Instance Source_eq_dec : EqDecision Source. Proof. solve_decision. Defined.
#[export] Instance Source_wire : WireEnum Source := {
  as_str v := match v with So_Voice => "voice" | So_Llm => "llm" | So_Device => "device" | So_Dashboard => "dashboard" | So_Engine => "engine" end;
  ALL := [So_Voice; So_Llm; So_Device; So_Dashboard; So_Engine];
}.
#[export] Instance Source_laws : WireLaws Source. Proof. solve_wire_laws. Qed.

Inductive OpState := Op_Pending | Op_Applied | Op_Rejected.
#[export] Instance OpState_eq_dec : EqDecision OpState. Proof. solve_decision. Defined.
#[export] Instance OpState_wire : WireEnum OpState := {
  as_str v := match v with Op_Pending => "pending" | Op_Applied => "applied" | Op_Rejected => "rejected" end;
  ALL := [Op_Pending; Op_Applied; Op_Rejected];
}.
#[export] Instance OpState_laws : WireLaws OpState. Proof. solve_wire_laws. Qed.

Inductive JournalError := Je_Sql | Je_NotCanonical.
#[export] Instance JournalError_eq_dec : EqDecision JournalError. Proof. solve_decision. Defined.

(** ** Operations *)
Record NewOp := mkNewOp {
  no_op_id : Uuid;
  no_endpoint_id : string;
  no_calendar_entity : string;
  no_action : Action;
  no_schedule_id : Uuid;
  no_occurrence_key : option string;
  no_source : Source;
  no_request : Value;
  no_plan : Value;
  no_created_ms : Z;
}.
Inductive Payload := Pl_Ours (request plan : Value) | Pl_Foreign (text : string).

(** One row of [alert_ops], its columns as they are stored. *)
Record OpColumns := mkOpColumns {
  oc_seq : Z;
  oc_op_id : string;
  oc_endpoint_id : string;
  oc_calendar_entity : string;
  oc_action : string;
  oc_schedule_id : string;
  oc_occurrence_key : option string;
  oc_source : string;
  oc_payload_json : string;
  oc_payload_sha256 : string;
  oc_state : string;
  oc_step : Z;
  oc_result_json : option string;
  oc_created_ms : Z;
  oc_applied_ms : option Z;
}.
Record OpRow := mkOpRow {
  ow_seq : Z;
  ow_op_id : Uuid;
  ow_endpoint_id : string;
  ow_calendar_entity : string;
  ow_action : option Action;
  ow_schedule_id : option Uuid;
  ow_occurrence_key : option string;
  ow_source : option Source;
  ow_payload : Payload;
  ow_payload_sha256 : string;
  ow_state : option OpState;
  ow_step : Z;
  ow_result : option Value;
  ow_created_ms : Z;
  ow_applied_ms : option Z;
}.
Definition row_request (r : OpRow) : option Value :=
  match ow_payload r with Pl_Ours request _ => Some request | Pl_Foreign _ => None end.
Definition row_plan (r : OpRow) : option Value :=
  match ow_payload r with Pl_Ours _ plan => Some plan | Pl_Foreign _ => None end.

(** The table and the last [AUTOINCREMENT] key it gave out. *)
Record OpsTable := mkOpsTable { ot_rows : list OpColumns; ot_last : Z }.

Section journal.
Context `{UuidCrate, Digest, SerdeJson}.

Definition request_digest (request : Value) : result JournalError string :=
  map_err (fun _ => Je_NotCanonical) (canonical_sha256 request).
Definition read_payload (text : string) : Payload :=
  match from_str text with
  | Ok (VObject o) =>
      if (length o =? 2)%nat && bool_decide (is_Some (object_get "plan" o)) && bool_decide (is_Some (object_get "request" o))
      then Pl_Ours (default VNull (object_get "request" o)) (default VNull (object_get "plan" o))
      else Pl_Foreign text
  | _ => Pl_Foreign text
  end.
Definition read_row (c : OpColumns) : OpRow :=
  mkOpRow (oc_seq c) (default 0 (uuid_parse_str (oc_op_id c))) (oc_endpoint_id c) (oc_calendar_entity c)
    (from_wire (oc_action c)) (uuid_parse_str (oc_schedule_id c)) (oc_occurrence_key c) (from_wire (oc_source c))
    (read_payload (oc_payload_json c)) (oc_payload_sha256 c) (from_wire (oc_state c)) (oc_step c)
    (text ← oc_result_json c; match from_str text with Ok v => Some v | Err _ => None end)
    (oc_created_ms c) (oc_applied_ms c).

Definition has_op_id (op_id : Uuid) (c : OpColumns) : bool := String.eqb (oc_op_id c) (uuid_to_string op_id).
Definition columns_by_id (op_id : Uuid) (t : OpsTable) : option OpColumns := find_first (has_op_id op_id) (ot_rows t).
Definition op_by_id (op_id : Uuid) (t : OpsTable) : option OpRow := read_row <$> columns_by_id op_id t.

(** The constraints an inserted row is held to besides its key. *)
Definition needs_key (action : string) : bool :=
  any (String.eqb action) ["dismiss"; "snooze"; "expire"].
Definition checks_hold (c : OpColumns) : bool :=
  bool_decide (is_Some (from_wire (A := Action) (oc_action c))) && bool_decide (is_Some (from_wire (A := Source) (oc_source c))) &&
  bool_decide (is_Some (from_wire (A := OpState) (oc_state c))) &&
  Bool.eqb (String.eqb (oc_state c) "applied") (bool_decide (is_Some (oc_applied_ms c))) &&
  (negb (needs_key (oc_action c)) || bool_decide (is_Some (oc_occurrence_key c))).

Inductive Journaled := Jn_Inserted (row : OpRow) | Jn_Existing (row : OpRow) | Jn_Conflict (row : OpRow).
Definition new_columns (op : NewOp) (seq : Z) (payload digest : string) : OpColumns :=
  mkOpColumns seq (uuid_to_string (no_op_id op)) (no_endpoint_id op) (no_calendar_entity op) (as_str (no_action op))
    (uuid_to_string (no_schedule_id op)) (no_occurrence_key op) (as_str (no_source op)) payload digest "pending" 0 None
    (no_created_ms op) None.
Definition journal_one (op : NewOp) (t : OpsTable) : result JournalError (Journaled * OpsTable) :=
  let? digest := request_digest (no_request op) in
  match op_by_id (no_op_id op) t with
  | Some row => Ok (if String.eqb (ow_payload_sha256 row) digest then Jn_Existing row else Jn_Conflict row, t)
  | None =>
      let? payload := map_err (fun _ => Je_NotCanonical)
                        (canonical_json (VObject [("plan", no_plan op); ("request", no_request op)])) in
      let columns := new_columns op (ot_last t + 1) payload digest in
      if checks_hold columns then
        let t := mkOpsTable (ot_rows t ++ [columns]) (ot_last t + 1) in
        let? row := ok_or Je_Sql (op_by_id (no_op_id op) t) in
        Ok (Jn_Inserted row, t)
      else Err Je_Sql
  end.
Fixpoint journal_ops (ops : list NewOp) (t : OpsTable) : result JournalError (list Journaled * OpsTable) :=
  match ops with
  | [] => Ok ([], t)
  | op :: ops =>
      let? (outcome, t) := journal_one op t in
      let? (outcomes, t) := journal_ops ops t in
      Ok (outcome :: outcomes, t)
  end.

(** [UPDATE ... WHERE op_id = ?1 AND ...]. *)
Definition update_ops (where_ : OpColumns -> bool) (f : OpColumns -> OpColumns) (t : OpsTable) : OpsTable :=
  mkOpsTable (List.map (fun c => if where_ c then f c else c) (ot_rows t)) (ot_last t).
Definition set_step (step : Z) (c : OpColumns) : OpColumns :=
  mkOpColumns (oc_seq c) (oc_op_id c) (oc_endpoint_id c) (oc_calendar_entity c) (oc_action c) (oc_schedule_id c)
    (oc_occurrence_key c) (oc_source c) (oc_payload_json c) (oc_payload_sha256 c) (oc_state c) step (oc_result_json c)
    (oc_created_ms c) (oc_applied_ms c).
Definition set_end (state : OpState) (at_ : option Z) (result : string) (c : OpColumns) : OpColumns :=
  mkOpColumns (oc_seq c) (oc_op_id c) (oc_endpoint_id c) (oc_calendar_entity c) (oc_action c) (oc_schedule_id c)
    (oc_occurrence_key c) (oc_source c) (oc_payload_json c) (oc_payload_sha256 c) (as_str state) (oc_step c) (Some result)
    (oc_created_ms c) at_.
Definition is_pending (c : OpColumns) : bool := String.eqb (oc_state c) "pending".
Definition advance_step (op_id : Uuid) (step : Z) (t : OpsTable) : OpsTable :=
  update_ops (fun c => has_op_id op_id c && is_pending c && (oc_step c <? step)%Z) (set_step step) t.

Inductive Settlement := St_Applied (at_ : Z) (result : Value) | St_Rejected (result : Value).
Definition settle (op_id : Uuid) (s : Settlement) (t : OpsTable) : result JournalError (option OpRow * OpsTable) :=
  let '(state, at_, value) := match s with
                              | St_Applied at_ value => (Op_Applied, Some at_, value)
                              | St_Rejected value => (Op_Rejected, None, value)
                              end in
  let? text := map_err (fun _ => Je_NotCanonical) (canonical_json value) in
  let t := update_ops (fun c => has_op_id op_id c && is_pending c) (set_end state at_ text) t in
  Ok (op_by_id op_id t, t).

Definition by_seq (l : list OpColumns) : list OpColumns := sort_by (fun a b => (oc_seq a <=? oc_seq b)%Z) l.
Definition pending_ops (t : OpsTable) : list OpRow := List.map read_row (by_seq (List.filter is_pending (ot_rows t))).
Definition ops_by_id (ids : list Uuid) (t : OpsTable) : list OpRow := omap (fun id => op_by_id id t) ids.

(** ** The restore guard *)
Record GuardEntry := mkGuardEntry {
  ge_action : Action;
  ge_schedule_id : Uuid;
  ge_occurrence_key : option string;
  ge_op_id : Uuid;
}.
Definition in_guard (endpoint_id : string) (since_ms : Z) (c : OpColumns) : bool :=
  String.eqb (oc_endpoint_id c) endpoint_id && String.eqb (oc_state c) "applied" &&
  any (String.eqb (oc_action c)) ["dismiss"; "snooze"; "expire"; "cancel"] && (since_ms <=? oc_created_ms c)%Z.
Definition guard_entry (c : OpColumns) : option GuardEntry :=
  match from_wire (oc_action c), uuid_parse_str (oc_schedule_id c), uuid_parse_str (oc_op_id c) with
  | Some action, Some schedule_id, Some op =>
      Some (mkGuardEntry action schedule_id (if bool_decide (action = Ac_Cancel) then None else oc_occurrence_key c) op)
  | _, _, _ => None
  end.
Definition restore_guard (endpoint_id : string) (since_ms : Z) (t : OpsTable) : list GuardEntry :=
  omap guard_entry (by_seq (List.filter (in_guard endpoint_id since_ms) (ot_rows t))).
End journal.

(** ** Delivery positions *)
Record DeliveryColumns := mkDeliveryColumns {
  dc_calendar_entry_id : string;
  dc_calendar_entity : string;
  dc_delivery_epoch : string;
  dc_sequence : Z;
  dc_acked_sequence : Z;
}.
Record DeliveryRow := mkDeliveryRow {
  dr_endpoint_id : string;
  dr_calendar_entry_id : string;
  dr_calendar_entity : string;
  dr_delivery_epoch : string;
  dr_sequence : N;
  dr_acked_sequence : N;
}.
Abbreviation DeliveryTable := (gmap string DeliveryColumns).
Definition read_delivery (endpoint_id : string) (c : DeliveryColumns) : DeliveryRow :=
  mkDeliveryRow endpoint_id (dc_calendar_entry_id c) (dc_calendar_entity c) (dc_delivery_epoch c)
    (Z.to_N (Z.max (dc_sequence c) 0)) (Z.to_N (Z.max (dc_acked_sequence c) 0)).
Definition load_delivery (endpoint_id : string) (t : DeliveryTable) : option DeliveryRow :=
  read_delivery endpoint_id <$> t !! endpoint_id.
(** The upsert, then the row as it stands. *)
Definition bind_calendar (endpoint_id entry entity new_epoch : string) (t : DeliveryTable) : DeliveryRow * DeliveryTable :=
  let c := match t !! endpoint_id with
           | Some c => mkDeliveryColumns entry entity (dc_delivery_epoch c) (dc_sequence c) (dc_acked_sequence c)
           | None => mkDeliveryColumns entry entity new_epoch 0 0
           end in
  (read_delivery endpoint_id c, <[endpoint_id := c]> t).
Definition i64_max : Z := 9223372036854775807.
Definition as_i64 (n : N) : Z := Z.min (Z.of_N n) i64_max.
Definition set_delivery_position (endpoint_id : string) (sequence acked : N) (t : DeliveryTable) : DeliveryTable :=
  match t !! endpoint_id with
  | Some c =>
      <[endpoint_id := mkDeliveryColumns (dc_calendar_entry_id c) (dc_calendar_entity c) (dc_delivery_epoch c)
          (Z.max (dc_sequence c) (as_i64 sequence))
          (Z.min (Z.max (dc_acked_sequence c) (as_i64 acked)) (Z.max (dc_sequence c) (as_i64 sequence)))]> t
  | None => t
  end.

(** ** Installed scripts *)
Record ScriptRecord := mkScriptRecord { sr_object_id : string; sr_sha256 : string; sr_revision : Z }.
Abbreviation ScriptTable := (list ScriptRecord).
Definition load_scripts (t : ScriptTable) : list ScriptRecord := t.
Definition record_script (r : ScriptRecord) (t : ScriptTable) : ScriptTable :=
  if any (fun x => String.eqb (sr_object_id x) (sr_object_id r)) t
  then List.map (fun x => if String.eqb (sr_object_id x) (sr_object_id r) then r else x) t
  else t ++ [r].
(** ** Sorted lists *)
Lemma sorted_filter {A} (R : A -> A -> Prop) (p : A -> bool) l : StronglySorted R l -> StronglySorted R (List.filter p l).
Proof.
  induction 1 as [|x l _ IH Hx]; cbn [List.filter]; [constructor|]. destruct (p x); [|done]. constructor; [done|].
  apply Forall_forall. intros y Hy. apply list_elem_of_In, filter_In in Hy as [Hy _]. rewrite Forall_forall in Hx. by apply Hx, list_elem_of_In.
Qed.
Lemma sort_by_fixed {A} (key : A -> Z) l :
  StronglySorted (fun a b => (key a < key b)%Z) l -> sort_by (fun a b => (key a <=? key b)%Z) l = l.
Proof.
  induction 1 as [|x l _ IH Hx]; [done|]. cbn [sort_by foldr]. fold (sort_by (fun a b => (key a <=? key b)%Z) l). rewrite IH.
  destruct l as [|y l]; [done|]. cbn [insert_sorted]. apply Forall_cons in Hx as [Hxy _].
  by rewrite (proj2 (Z.leb_le _ _)) by lia.
Qed.


(** ** The life of a row *)
Section lifecycle.
Context `{UuidCrate, Digest, SerdeJson}.
Implicit Types (t : OpsTable) (c : OpColumns).

(** What an operation was journaled with. *)
Definition same_operation c c' : Prop :=
  oc_seq c' = oc_seq c /\ oc_op_id c' = oc_op_id c /\ oc_endpoint_id c' = oc_endpoint_id c /\
  oc_calendar_entity c' = oc_calendar_entity c /\ oc_action c' = oc_action c /\ oc_schedule_id c' = oc_schedule_id c /\
  oc_occurrence_key c' = oc_occurrence_key c /\ oc_source c' = oc_source c /\ oc_payload_json c' = oc_payload_json c /\
  oc_payload_sha256 c' = oc_payload_sha256 c /\ oc_created_ms c' = oc_created_ms c.
(** A pending row moves forward or ends; one that ended stays as it is. *)
Definition row_evolves c c' : Prop :=
  same_operation c c' /\ (oc_step c <= oc_step c')%Z /\ (is_pending c = false -> c' = c).
Definition table_evolves t t' : Prop :=
  exists l rest, ot_rows t' = l ++ rest /\ Forall2 row_evolves (ot_rows t) l /\ (ot_last t <= ot_last t')%Z.

Definition result_agrees c : bool := Bool.eqb (is_pending c) (negb (bool_decide (is_Some (oc_result_json c)))).
Record table_ok t : Prop := {
  tk_sequence : StronglySorted (fun a b => (oc_seq a < oc_seq b)%Z) (ot_rows t);
  tk_last : Forall (fun c => (oc_seq c <= ot_last t)%Z) (ot_rows t);
  tk_ids : NoDup (oc_op_id <$> ot_rows t);
  tk_checks : Forall (fun c => checks_hold c = true) (ot_rows t);
  tk_results : Forall (fun c => result_agrees c = true) (ot_rows t);
}.

(** The commands that write the table; one that fails leaves it. *)
Inductive OpsCommand :=
  | Oc_Journal (ops : list NewOp)
  | Oc_AdvanceStep (op_id : Uuid) (step : Z)
  | Oc_Settle (op_id : Uuid) (s : Settlement).
Definition run_ops (t : OpsTable) (cmd : OpsCommand) : OpsTable :=
  match cmd with
  | Oc_Journal ops => match journal_ops ops t with Ok (_, t) => t | Err _ => t end
  | Oc_AdvanceStep op_id step => advance_step op_id step t
  | Oc_Settle op_id s => match settle op_id s t with Ok (_, t) => t | Err _ => t end
  end.

Lemma row_evolves_refl c : row_evolves c c.
Proof. split; [by split_and!|]. split; [lia|done]. Qed.
Lemma row_evolves_trans a b c : row_evolves a b -> row_evolves b c -> row_evolves a c.
Proof.
  intros (Hab & Sab & Pab) (Hbc & Sbc & Pbc). split; [|split; [lia|]].
  - unfold same_operation in *. destruct_and!. split_and!; congruence.
  - intros Hp. specialize (Pab Hp). subst. auto.
Qed.
Lemma rows_evolve_refl l : Forall2 row_evolves l l.
Proof. apply Forall2_same_length_lookup_2; [done|]. intros i x y Hx Hy. rewrite Hx in Hy. injection Hy as <-. apply row_evolves_refl. Qed.
Lemma table_evolves_refl t : table_evolves t t.
Proof.
  exists (ot_rows t), []. split_and!; [by rewrite app_nil_r|apply rows_evolve_refl|lia].
Qed.
Lemma table_evolves_trans t1 t2 t3 : table_evolves t1 t2 -> table_evolves t2 t3 -> table_evolves t1 t3.
Proof.
  intros (l & rest & Eb & Hab & Lab) (l' & rest' & Ec & Hbc & Lbc). rewrite Eb in Hbc.
  apply Forall2_app_inv_l in Hbc as (l1 & l2 & Hl1 & _ & ->). exists l1, (l2 ++ rest'). split_and!; [by rewrite Ec, app_assoc| |lia].
  revert Hl1. clear -Hab. revert l1. induction Hab as [|x y xs ys Hxy _ IH]; intros l1 Hl1; inversion Hl1; subst; constructor; [|by apply IH].
  by eapply row_evolves_trans.
Qed.

Lemma columns_by_id_evolves t t' id c :
  table_evolves t t' -> columns_by_id id t = Some c -> exists c', columns_by_id id t' = Some c' /\ row_evolves c c'.
Proof.
  intros (l & rest & El & Hf & _). unfold columns_by_id. rewrite El. revert l El Hf.
  generalize (ot_rows t') as rows'. induction (ot_rows t) as [|x xs IH]; intros rows' l El Hf Hc; [done|].
  inversion Hf as [|? y ? ys Hxy Hys]; subst. cbn [app]. unfold find_first in *. cbn [List.find] in Hc |- *.
  assert (Ei : has_op_id id y = has_op_id id x) by (unfold has_op_id; by destruct Hxy as ((_ & -> & _) & _)).
  rewrite Ei. destruct (has_op_id id x); [injection Hc as <-; by exists y|]. by apply (IH _ ys eq_refl).
Qed.

(** *** Updates *)
Lemma update_evolves where_ f t :
  (forall c, where_ c = true -> row_evolves c (f c)) -> table_evolves t (update_ops where_ f t).
Proof.
  intros Hf. exists (ot_rows (update_ops where_ f t)), []. split_and!; [by rewrite app_nil_r| |done].
  unfold update_ops. cbn [ot_rows]. induction (ot_rows t) as [|c rows IH]; cbn [List.map]; constructor; [|done].
  destruct (where_ c) eqn:E; [by apply Hf|apply row_evolves_refl].
Qed.
Lemma update_ok where_ f t :
  (forall c, where_ c = true -> same_operation c (f c) /\
     (checks_hold c = true -> checks_hold (f c) = true) /\ (result_agrees c = true -> result_agrees (f c) = true)) ->
  table_ok t -> table_ok (update_ops where_ f t).
Proof.
  intros Hf [Hs Hl Hi Hc Hr]. set (g := fun c => if where_ c then f c else c).
  assert (Hg : forall c, oc_seq (g c) = oc_seq c /\ oc_op_id (g c) = oc_op_id c /\
     (checks_hold c = true -> checks_hold (g c) = true) /\ (result_agrees c = true -> result_agrees (g c) = true)).
  { intros c. unfold g. destruct (where_ c) eqn:E; [|done]. destruct (Hf c E) as ((-> & -> & _) & ? & ?). done. }
  split; unfold update_ops; cbn [ot_rows ot_last]; fold g.
  - revert Hs. induction (ot_rows t) as [|c rows IH]; intros Hs; cbn [List.map]; [constructor|].
    apply StronglySorted_inv in Hs as [Hs Hc0]. apply Forall_cons in Hl as [_ Hl], Hc as [_ Hc], Hr as [_ Hr].
    apply NoDup_cons in Hi as [_ Hi]. constructor; [by apply IH|]. apply Forall_forall. intros x Hx.
    apply list_elem_of_In, in_map_iff in Hx as (y & <- & Hy). rewrite Forall_forall in Hc0. destruct (Hg c) as [-> _], (Hg y) as [-> _].
    by apply Hc0, list_elem_of_In.
  - apply Forall_forall. intros x Hx. apply list_elem_of_In, in_map_iff in Hx as (y & <- & Hy). destruct (Hg y) as [-> _].
    rewrite Forall_forall in Hl. by apply Hl, list_elem_of_In.
  - replace (oc_op_id <$> List.map g (ot_rows t)) with (oc_op_id <$> ot_rows t); [done|].
    clear -Hg. induction (ot_rows t) as [|c rows IH]; [done|]. cbn [List.map]. rewrite !fmap_cons, IH. by destruct (Hg c) as (_ & -> & _).
  - apply Forall_forall. intros x Hx. apply list_elem_of_In, in_map_iff in Hx as (y & <- & Hy). rewrite Forall_forall in Hc.
    apply (Hg y). by apply Hc, list_elem_of_In.
  - apply Forall_forall. intros x Hx. apply list_elem_of_In, in_map_iff in Hx as (y & <- & Hy). rewrite Forall_forall in Hr.
    apply (Hg y). by apply Hr, list_elem_of_In.
Qed.

Lemma advance_step_keeps op_id step t :
  table_evolves t (advance_step op_id step t) /\ (table_ok t -> table_ok (advance_step op_id step t)).
Proof.
  split.
  - apply update_evolves. intros c [[_ Hp]%andb_true_iff Hs%Z.ltb_lt]%andb_true_iff. split; [by split_and!|]. cbn [set_step oc_step].
    split; [lia|congruence].
  - apply update_ok. intros c _. by split; [split_and!|].
Qed.
Lemma set_end_checks state at_ text c :
  (state = Op_Applied /\ is_Some at_) \/ (state = Op_Rejected /\ at_ = None) ->
  checks_hold c = true -> checks_hold (set_end state at_ text c) = true /\ result_agrees (set_end state at_ text c) = true.
Proof.
  intros Hs Hc. unfold checks_hold in *. cbn [set_end oc_action oc_source oc_state oc_applied_ms oc_occurrence_key].
  rewrite !andb_true_iff in Hc. destruct Hc as [[[[Ha Hb] _] _] Hk]. rewrite Ha, Hb, Hk.
  destruct Hs as [[-> [a ->]]|[-> ->]]; by vm_compute.
Qed.
Lemma journal_settle_keeps op_id s t r t' :
  settle op_id s t = Ok (r, t') ->
  table_evolves t t' /\ (table_ok t -> table_ok t') /\ r = op_by_id op_id t'.
Proof.
  unfold settle.
  assert (Hgo : forall state at_ value,
    (state = Op_Applied /\ is_Some at_) \/ (state = Op_Rejected /\ at_ = None) ->
    (let? text := map_err (fun _ => Je_NotCanonical) (canonical_json value) in
     let t := update_ops (fun c => has_op_id op_id c && is_pending c) (set_end state at_ text) t in
     Ok (op_by_id op_id t, t)) = Ok (r, t') ->
    table_evolves t t' /\ (table_ok t -> table_ok t') /\ r = op_by_id op_id t').
  { intros state at_ value Hs. destruct (canonical_json value) as [text|]; [|done]. cbn [map_err]. cbv zeta. intros [= <- <-].
    split_and!; [| |done].
    - apply update_evolves. intros c [_ Hp]%andb_true_iff. split; [by split_and!|]. cbn [set_end oc_step]. split; [lia|congruence].
    - apply update_ok. intros c _. split; [by split_and!|]. split; intros Hc; [by apply set_end_checks|].
      unfold result_agrees, is_pending. cbn [set_end oc_state oc_result_json]. by destruct Hs as [[-> _]|[-> _]]. }
  destruct s as [at_ value|value]; apply Hgo; [left; by split; [|eexists]|by right].
Qed.

(** *** Journaling *)
Lemma find_snoc (p : OpColumns -> bool) l c : find_first p l = None -> p c = true -> find_first p (l ++ [c]) = Some c.
Proof.
  intros Hn Hp. unfold find_first in *. induction l as [|x l IH]; cbn [app List.find] in *; [by rewrite Hp|].
  destruct (p x); [done|by apply IH].
Qed.
Definition outcome_row (o : Journaled) : OpRow := match o with Jn_Inserted r | Jn_Existing r | Jn_Conflict r => r end.
Lemma journal_one_spec op t o t' :
  journal_one op t = Ok (o, t') ->
  table_evolves t t' /\ (table_ok t -> table_ok t') /\
  exists digest c, request_digest (no_request op) = Ok digest /\ columns_by_id (no_op_id op) t' = Some c /\
    outcome_row o = read_row c /\
    match o with
    | Jn_Inserted _ => columns_by_id (no_op_id op) t = None /\ oc_payload_sha256 c = digest /\ is_pending c = true
    | Jn_Existing _ => t' = t /\ oc_payload_sha256 c = digest
    | Jn_Conflict _ => t' = t /\ oc_payload_sha256 c <> digest
    end.
Proof.
  unfold journal_one. destruct (request_digest (no_request op)) as [digest|]; [|done].
  unfold op_by_id. destruct (columns_by_id (no_op_id op) t) as [c|] eqn:Ec.
  - cbn [fmap option_fmap option_map]. intros [= <- <-]. split_and!; [apply table_evolves_refl|done|].
    exists digest, c. change (ow_payload_sha256 (read_row c)) with (oc_payload_sha256 c).
    destruct (String.eqb_spec (oc_payload_sha256 c) digest); by split_and!.
  - cbn [fmap option_fmap option_map]. destruct (canonical_json _) as [payload|]; [|done]. cbn [map_err].
    set (c := new_columns op (ot_last t + 1) payload digest). destruct (checks_hold c) eqn:Hk; [|done].
    assert (Hp : has_op_id (no_op_id op) c = true) by (unfold has_op_id; cbn; apply String.eqb_refl).
    assert (Ef : columns_by_id (no_op_id op) (mkOpsTable (ot_rows t ++ [c]) (ot_last t + 1)) = Some c) by by apply find_snoc.
    rewrite Ef. cbn [fmap option_fmap option_map ok_or]. intros [= <- <-]. split_and!.
    + exists (ot_rows t), [c]. split_and!; [done|apply rows_evolve_refl|cbn; lia].
    + intros [Hs Hl Hi Hc Hr]. split; cbn [ot_rows ot_last].
      * clear -Hs Hl. revert Hl. induction Hs as [|x rows _ IH Hx]; intros Hl; cbn [app]; [by repeat constructor|].
        apply Forall_cons in Hl as [Hlx Hl]. constructor; [by apply IH|]. apply Forall_app. split; [done|].
        apply Forall_singleton. cbn. lia.
      * apply Forall_app. split; [|apply Forall_singleton; cbn; lia]. eapply Forall_impl; [exact Hl|]. cbn. lia.
      * rewrite fmap_app. apply NoDup_app. split_and!; [done| |apply NoDup_singleton].
        intros x Hx Hx'. cbn in Hx'. apply list_elem_of_singleton in Hx' as ->.
        apply list_elem_of_fmap in Hx as (y & Ey & Hy). apply find_first_None in Ec. rewrite any_false in Ec.
        specialize (Ec y Hy). unfold has_op_id in Ec. rewrite <- Ey in Ec. by rewrite String.eqb_refl in Ec.
      * apply Forall_app. split; [done|]. by apply Forall_singleton.
      * apply Forall_app. split; [done|]. by apply Forall_singleton.
    + exists digest, c. by split_and!.
Qed.

Lemma journal_ops_keeps ops t outs t' :
  journal_ops ops t = Ok (outs, t') -> table_evolves t t' /\ (table_ok t -> table_ok t').
Proof.
  revert t outs. induction ops as [|op ops IH]; intros t outs; cbn [journal_ops].
  - intros [= <- <-]. split; [apply table_evolves_refl|done].
  - destruct (journal_one op t) as [[o t1]|] eqn:E1; [|done]. destruct (journal_ops ops t1) as [[os t2]|] eqn:E2; [|done].
    intros [= <- <-]. apply journal_one_spec in E1 as (He & Hk & _). apply IH in E2 as [He' Hk'].
    split; [by eapply table_evolves_trans|auto].
Qed.
Lemma run_ops_keeps t cmd : table_evolves t (run_ops t cmd) /\ (table_ok t -> table_ok (run_ops t cmd)).
Proof.
  destruct cmd as [ops|op_id step|op_id s]; cbn [run_ops].
  - destruct (journal_ops ops t) as [[outs t']|] eqn:E; [by eapply journal_ops_keeps|]. split; [apply table_evolves_refl|done].
  - apply advance_step_keeps.
  - destruct (settle op_id s t) as [[r t']|] eqn:E; [|split; [apply table_evolves_refl|done]].
    apply journal_settle_keeps in E as (? & ? & _). done.
Qed.
Lemma run_all_keeps cmds t : table_evolves t (foldl run_ops t cmds) /\ (table_ok t -> table_ok (foldl run_ops t cmds)).
Proof.
  revert t. induction cmds as [|cmd cmds IH]; intros t; cbn [foldl]; [split; [apply table_evolves_refl|done]|].
  destruct (run_ops_keeps t cmd) as [He Hk], (IH (run_ops t cmd)) as [He' Hk']. split; [by eapply table_evolves_trans|auto].
Qed.
End lifecycle.

(** ** What the journal promises *)
Section promises.
Context `{UuidCrate, Digest, SerdeJson}.
Implicit Types (t : OpsTable) (c : OpColumns).

(** [r] is the stored row [c] as it stands, its state, progress and result with it. *)
Definition shows (c : OpColumns) (r : OpRow) : Prop :=
  ow_seq r = oc_seq c /\ ow_endpoint_id r = oc_endpoint_id c /\ ow_calendar_entity r = oc_calendar_entity c /\
  ow_occurrence_key r = oc_occurrence_key c /\ ow_payload_sha256 r = oc_payload_sha256 c /\
  ow_step r = oc_step c /\ ow_created_ms r = oc_created_ms c /\ ow_applied_ms r = oc_applied_ms c /\
  (forall state, ow_state r = Some state <-> oc_state c = as_str state) /\
  (forall result, ow_result r = Some result <-> exists text, oc_result_json c = Some text /\ from_str text = Ok result).
(** The answer to an operation already journaled: the row its id has in the table
    now, which is the same operation as before, further on if it was pending and
    unchanged if it had ended. *)
Definition answers_again t (op : NewOp) (o o' : Journaled) : Prop :=
  (exists c, c ∈ ot_rows t /\ oc_op_id c = uuid_to_string (no_op_id op) /\ shows c (outcome_row o')) /\
  match o, o' with
  | (Jn_Inserted r | Jn_Existing r), Jn_Existing r' | Jn_Conflict r, Jn_Conflict r' =>
      ow_seq r' = ow_seq r /\ ow_op_id r' = ow_op_id r /\ ow_action r' = ow_action r /\ ow_schedule_id r' = ow_schedule_id r /\
      ow_occurrence_key r' = ow_occurrence_key r /\ ow_payload r' = ow_payload r /\ ow_payload_sha256 r' = ow_payload_sha256 r /\
      (ow_step r <= ow_step r')%Z /\ (ow_state r <> Some Op_Pending -> r' = r)
  | _, _ => False
  end.

Lemma shows_read_row c : shows c (read_row c).
Proof.
  unfold shows, read_row. cbn [ow_seq ow_endpoint_id ow_calendar_entity ow_occurrence_key ow_payload_sha256 ow_step ow_created_ms ow_applied_ms ow_state ow_result].
  split_and!; try done; [intros state; rewrite from_wire_iff; done|]. intros result. destruct (oc_result_json c) as [text|]; cbn [mbind option_bind].
  - destruct (from_str text) eqn:E; split; [intros [= <-]; eauto|intros (? & [= <-] & ?); congruence|done|intros (? & [= <-] & ?); congruence].
  - split; [done|by intros (? & ? & _)].
Qed.
Lemma columns_by_id_stored id t c : columns_by_id id t = Some c -> c ∈ ot_rows t /\ oc_op_id c = uuid_to_string id.
Proof.
  unfold columns_by_id, find_first. intros [Hin Hp]%find_some. split; [by apply list_elem_of_In|]. by apply String.eqb_eq.
Qed.
Lemma pending_state c : is_pending c = true <-> ow_state (read_row c) = Some Op_Pending.
Proof. unfold is_pending. rewrite String.eqb_eq. cbn [read_row ow_state]. by rewrite from_wire_iff. Qed.

Lemma journal_one_again op t o t1 t2 :
  journal_one op t = Ok (o, t1) -> table_evolves t1 t2 -> exists o', journal_one op t2 = Ok (o', t2) /\ answers_again t2 op o o'.
Proof.
  intros E He. destruct (journal_one_spec op t o t1 E) as (_ & _ & digest & c & Hd & Hc & Hrow & Ho).
  destruct (columns_by_id_evolves t1 t2 _ c He Hc) as (c' & Hc' & Hs & Hstep & Hend).
  assert (Hin : exists x, x ∈ ot_rows t2 /\ oc_op_id x = uuid_to_string (no_op_id op) /\ shows x (read_row c')).
  { exists c'. destruct (columns_by_id_stored _ _ _ Hc') as [? ?]. split_and!; [done|done|apply shows_read_row]. }
  unfold journal_one, op_by_id. rewrite Hd, Hc'. cbn [fmap option_fmap option_map].
  change (ow_payload_sha256 (read_row c')) with (oc_payload_sha256 c').
  assert (Hfields : forall r, r = read_row c -> ow_seq (read_row c') = ow_seq r /\ ow_op_id (read_row c') = ow_op_id r /\
    ow_action (read_row c') = ow_action r /\ ow_schedule_id (read_row c') = ow_schedule_id r /\
    ow_occurrence_key (read_row c') = ow_occurrence_key r /\ ow_payload (read_row c') = ow_payload r /\
    ow_payload_sha256 (read_row c') = ow_payload_sha256 r /\ (ow_step r <= ow_step (read_row c'))%Z /\
    (ow_state r <> Some Op_Pending -> read_row c' = r)).
  { intros r ->. unfold same_operation in Hs. destruct_and!.
    assert (Hsame : ow_state (read_row c) <> Some Op_Pending -> read_row c' = read_row c).
    { intros Hp. f_equal. apply Hend. destruct (is_pending c) eqn:Ep; [|done]. by apply pending_state in Ep. }
    unfold read_row in Hsame |- *.
    cbn [ow_seq ow_op_id ow_action ow_schedule_id ow_occurrence_key ow_payload ow_payload_sha256 ow_step ow_state] in *.
    split_and!; congruence || lia || done. }
  assert (Hsha : oc_payload_sha256 c' = oc_payload_sha256 c) by apply Hs. rewrite Hsha.
  destruct o as [r|r|r]; cbn [outcome_row] in Hrow.
  - destruct Ho as (_ & -> & _). rewrite String.eqb_refl. eexists. split; [reflexivity|]. split; [exact Hin|by apply Hfields].
  - destruct Ho as (_ & ->). rewrite String.eqb_refl. eexists. split; [reflexivity|]. split; [exact Hin|by apply Hfields].
  - destruct Ho as (_ & Hne). destruct (String.eqb_spec (oc_payload_sha256 c) digest); [done|].
    eexists. split; [reflexivity|]. split; [exact Hin|by apply Hfields].
Qed.
End promises.

(** C25: Journaling is idempotent: once a batch of operations is journaled, asking
    for the same batch again, after any writes, changes nothing and answers each
    with the row its id has in the table at that time, its state, step, result and
    time of application as they now stand; it is the operation first answered,
    unchanged if it had ended.  An id first refused for another request is refused
    again. *)
Theorem journal_is_idempotent `{UuidCrate, Digest, SerdeJson} ops t outs t1 cmds :
  journal_ops ops t = Ok (outs, t1) ->
  let t2 := foldl run_ops t1 cmds in
  exists outs', journal_ops ops t2 = Ok (outs', t2) /\ Forall3 (answers_again t2) ops outs outs'.
Proof.
  intros E. cbv zeta. destruct (run_all_keeps cmds t1) as [He _]. revert He. generalize (foldl run_ops t1 cmds). clear cmds. intros t2 He.
  revert t outs E. induction ops as [|op ops IH]; intros t outs E; cbn [journal_ops] in *.
  - injection E as <- <-. exists []. split; [done|constructor].
  - destruct (journal_one op t) as [[o t0]|] eqn:E1; [|done]. destruct (journal_ops ops t0) as [[os t1']|] eqn:E2; [|done].
    injection E as <- <-. destruct (journal_ops_keeps _ _ _ _ E2) as [He0 _].
    destruct (journal_one_again op t o t0 t2 E1) as (o' & -> & Ho); [by eapply table_evolves_trans|].
    destruct (IH t0 os E2) as (os' & -> & Hos). eexists. split; [reflexivity|]. by constructor.
Qed.

(** C26: Whatever is journaled, advanced and settled, in any order: the table keeps
    unique ids, increasing sequences and its constraints; every row stays, with
    what it was journaled with, its step only rising, and unchanged from the time
    it is no longer pending; the pending rows are listed exactly, in order; and
    an entry of the restore guard stays in it. *)
Theorem journal_keeps_its_history `{UuidCrate, Digest, SerdeJson} cmds t endpoint since :
  table_ok t ->
  let t' := foldl run_ops t cmds in
  table_ok t' /\ table_evolves t t' /\
  (exists l, pending_ops t' = List.map read_row l /\ StronglySorted (fun a b => (oc_seq a < oc_seq b)%Z) l /\
     forall c, c ∈ l <-> c ∈ ot_rows t' /\ is_pending c = true) /\
  (forall g, g ∈ restore_guard endpoint since t -> g ∈ restore_guard endpoint since t').
Proof.
  intros Hok. cbv zeta. destruct (run_all_keeps cmds t) as [He Hk]. specialize (Hk Hok). revert He Hk. generalize (foldl run_ops t cmds).
  intros t' He Hk. split_and!; [done|done| |].
  - exists (List.filter is_pending (ot_rows t')). assert (Hs : StronglySorted (fun a b => (oc_seq a < oc_seq b)%Z) (List.filter is_pending (ot_rows t'))).
    { apply sorted_filter, Hk. }
    split_and!; [|done|].
    + unfold pending_ops, by_seq. by rewrite sort_by_fixed.
    + intros c. rewrite !list_elem_of_In, filter_In. done.
  - intros g. unfold restore_guard, by_seq. rewrite !list_elem_of_omap. intros (c & Hc & Hg). exists c. split; [|done].
    rewrite sort_by_perm in Hc |- *. apply list_elem_of_In, filter_In in Hc as [Hc Hin]. apply list_elem_of_In, filter_In. split; [|done].
    destruct He as (l & rest & -> & Hf & _). apply in_app_iff. left. apply list_elem_of_In in Hc.
    apply list_elem_of_lookup in Hc as [i Hi]. destruct (Forall2_lookup_l _ _ _ _ _ Hf Hi) as (c' & Hi' & _ & _ & Hsame).
    rewrite Hsame in Hi'; [apply list_elem_of_In; by eapply list_elem_of_lookup_2|].
    unfold in_guard in Hin. rewrite !andb_true_iff in Hin. destruct Hin as [[[_ Hst%String.eqb_eq] _] _].
    unfold is_pending. by rewrite Hst.
Qed.

(** ** Delivery positions *)
Definition positions_ok (t : DeliveryTable) : Prop :=
  forall id c, t !! id = Some c -> (0 <= dc_acked_sequence c <= dc_sequence c)%Z.
(** A delivery row keeps its epoch for good, whatever calendar it is bound to;
    its sequence and its acknowledged sequence only rise, and the table's check
    that the second is within the first always holds; the row read back after a
    position the delivery reports is that position, up to the largest integer the
    column holds. *)
Theorem delivery_rows_only_rise (t : DeliveryTable) id entry entity epoch sequence acked :
  positions_ok t ->
  positions_ok (snd (bind_calendar id entry entity epoch t)) /\ positions_ok (set_delivery_position id sequence acked t) /\
  (forall id' c, t !! id' = Some c ->
     (exists c', snd (bind_calendar id entry entity epoch t) !! id' = Some c' /\ dc_delivery_epoch c' = dc_delivery_epoch c /\
        dc_sequence c' = dc_sequence c /\ dc_acked_sequence c' = dc_acked_sequence c) /\
     (exists c', set_delivery_position id sequence acked t !! id' = Some c' /\ dc_delivery_epoch c' = dc_delivery_epoch c /\
        (dc_sequence c <= dc_sequence c' /\ dc_acked_sequence c <= dc_acked_sequence c')%Z)) /\
  (forall row, load_delivery id t = Some row -> dr_sequence row <= sequence -> dr_acked_sequence row <= acked ->
     acked <= sequence -> (Z.of_N sequence <= i64_max)%Z ->
     exists row', load_delivery id (set_delivery_position id sequence acked t) = Some row' /\
       dr_sequence row' = sequence /\ dr_acked_sequence row' = acked /\ dr_delivery_epoch row' = dr_delivery_epoch row).
Proof.
  intros Hok. assert (Hnn : forall n, (0 <= as_i64 n)%Z) by (intros n; unfold as_i64, i64_max; lia). split_and!.
  - intros id' c. unfold bind_calendar. cbn [snd]. rewrite lookup_insert_Some. intros [[<- <-]|[_ Hc]]; [|by eapply Hok].
    destruct (t !! id) as [c|] eqn:E; cbn; [by eapply Hok|lia].
  - intros id' c. unfold set_delivery_position. destruct (t !! id) as [c0|] eqn:E; [|by apply Hok].
    rewrite lookup_insert_Some. intros [[<- <-]|[_ Hc]]; [|by eapply Hok]. cbn. specialize (Hok _ _ E). specialize (Hnn sequence). lia.
  - intros id' c Hc. split.
    + unfold bind_calendar. cbn [snd]. destruct (decide (id = id')) as [<-|Hne].
      * rewrite lookup_insert_eq, Hc. eexists. split; [reflexivity|]. by split_and!.
      * rewrite lookup_insert_ne by done. by exists c.
    + unfold set_delivery_position. destruct (t !! id) as [c0|] eqn:E; [|exists c; split_and!; [done|done|lia|lia]].
      destruct (decide (id = id')) as [<-|Hne].
      * rewrite lookup_insert_eq. rewrite E in Hc. injection Hc as ->. eexists. split; [reflexivity|]. cbn. specialize (Hok _ _ E). split_and!; [done|lia|lia].
      * rewrite lookup_insert_ne by done. exists c. split_and!; [done|done|lia|lia].
  - intros row. unfold load_delivery. destruct (t !! id) as [c|] eqn:E; [|done]. cbn [fmap option_fmap option_map]. intros [= <-].
    specialize (Hok _ _ E). cbn [read_delivery dr_sequence dr_acked_sequence]. intros Hs Ha Has Hmax.
    unfold set_delivery_position. rewrite E, lookup_insert_eq. cbn [fmap option_fmap option_map]. eexists. split; [reflexivity|].
    cbn [read_delivery dr_sequence dr_acked_sequence dr_delivery_epoch dc_sequence dc_acked_sequence dc_delivery_epoch].
    unfold as_i64. split_and!; [lia|lia|done].
Qed.

(** ** A sample *)
Definition sample_serde : SerdeJson := {|
  from_str := fun _ => Err "";
  to_string := fun _ => Err "";
  value_to_string := fun _ => "";
|}.
#[local] Existing Instance sample_crate.
#[local] Existing Instance sample_digest.
#[local] Existing Instance sample_serde.
Definition sample_op (id : Uuid) (action : Action) : NewOp :=
  mkNewOp id "office" "calendar.office" action 77 (Some "k") So_Voice (VObject [("a", VNull)]) VNull 1000.
Definition empty_ops : OpsTable := mkOpsTable [] 0.
Definition sample_ops : list NewOp := [sample_op 5 Ac_Create; sample_op 6 Ac_Dismiss; sample_op 5 Ac_Create].
Definition sample_table : OpsTable := match journal_ops sample_ops empty_ops with Ok (_, t) => t | Err _ => empty_ops end.
Definition sample_cmds : list OpsCommand := [Oc_AdvanceStep 5 1; Oc_Settle 6 (St_Applied 2000 VNull)].
Lemma empty_ops_ok : table_ok empty_ops.
Proof. split; constructor. Qed.
Lemma sample_table_ok : table_ok sample_table.
Proof.
  unfold sample_table. destruct (journal_ops sample_ops empty_ops) as [[outs t]|] eqn:E; [|exact empty_ops_ok].
  apply journal_ops_keeps in E as [_ Hk]. exact (Hk empty_ops_ok).
Qed.
Example sample_outcomes :
  match journal_ops sample_ops empty_ops with
  | Ok ([Jn_Inserted a; Jn_Inserted b; Jn_Existing c], t) => ow_seq a = 1%Z /\ ow_seq b = 2%Z /\ ow_seq c = 1%Z /\ length (ot_rows t) = 2%nat
  | _ => False
  end.
Proof. vm_compute. by split_and!. Qed.

Lemma journal_is_idempotent_witness :
  exists outs outs' t', journal_ops sample_ops empty_ops = Ok (outs, sample_table) /\ length (ot_rows sample_table) = 2%nat /\
    journal_ops sample_ops t' = Ok (outs', t') /\ Forall3 (answers_again t') sample_ops outs outs'.
Proof.
  destruct (journal_ops sample_ops empty_ops) as [[outs t]|] eqn:E; [|vm_compute in E; discriminate].
  assert (Et : t = sample_table) by (unfold sample_table; rewrite E; reflexivity).
  destruct (journal_is_idempotent sample_ops empty_ops outs t sample_cmds E) as (outs' & Hj & Hf).
  exists outs, outs', (foldl run_ops t sample_cmds). split; [by rewrite Et|]. split; [vm_compute; reflexivity|]. split; [exact Hj|exact Hf].
Defined.
Lemma journal_keeps_its_history_witness :
  restore_guard "office" 0 (foldl run_ops sample_table sample_cmds) <> [] /\
  table_ok (foldl run_ops (foldl run_ops sample_table sample_cmds) [Oc_Settle 6 (St_Rejected VNull)]) /\
  restore_guard "office" 0 (foldl run_ops (foldl run_ops sample_table sample_cmds) [Oc_Settle 6 (St_Rejected VNull)]) <> [].
Proof.
  pose proof (proj2 (run_all_keeps sample_cmds sample_table) sample_table_ok) as Hok.
  destruct (journal_keeps_its_history [Oc_Settle 6 (St_Rejected VNull)] (foldl run_ops sample_table sample_cmds) "office" 0 Hok)
    as (Hk & _ & _ & Hg).
  assert (Hin : mkGuardEntry Ac_Dismiss 77 (Some "k") 6 ∈ restore_guard "office" 0 (foldl run_ops sample_table sample_cmds)).
  { vm_compute. left. }
  split; [intros E; rewrite E in Hin; by apply not_elem_of_nil in Hin|]. split; [exact Hk|].
  intros E. apply Hg in Hin. rewrite E in Hin. by apply not_elem_of_nil in Hin.
Defined.

Definition sample_positions : DeliveryTable := {["office" := mkDeliveryColumns "e" "calendar.office" "epoch" 4 2]}.
Lemma delivery_rows_only_rise_witness :
  positions_ok sample_positions /\
  exists row, load_delivery "office" (set_delivery_position "office" 6 4 sample_positions) = Some row /\ dr_sequence row = 6 /\ dr_acked_sequence row = 4.
Proof.
  assert (Hok : positions_ok sample_positions).
  { intros id c Hc. unfold sample_positions in Hc. apply lookup_singleton_Some in Hc as [_ <-]. cbn. lia. }
  split; [exact Hok|].
  destruct (delivery_rows_only_rise sample_positions "office" "e" "calendar.office" "x" 6 4 Hok) as (_ & _ & _ & Hl).
  destruct (Hl (mkDeliveryRow "office" "e" "calendar.office" "epoch" 4 2)) as (row & Hr & Hs & Ha & _);
    [reflexivity|cbn; lia|cbn; lia|lia|unfold i64_max; lia|]. exists row. by split_and!.
Defined.
