(* ===== verification/Timers.v ===== *)
(** * Display copies of timers ([alerts/src/timers.rs])

    Home Assistant owns every timer; a copy ticks down for the device's view and the
    dashboard and is dropped when its finish never comes.  An instant is its
    nanoseconds. *)
From Stdlib Require Import Floats.SpecFloat Sorting.Sorted.
From S2P Require Import Prelude Bytes WireEnum Float Ema Vocab Json Policy Clock Evidence Level Transcript Document Values Settings Stored Registry Canonical AlertBodies AlertWire.

(** ** Events ([core/src/services.rs]) *)
Inductive TimerEventKind := Tk_Started | Tk_Updated | Tk_Cancelled | Tk_Finished.
Record TimerEvent := mkTimerEvent {
  tv_kind : TimerEventKind;
  tv_timer_id : string;
  tv_name : option string;
  tv_total_seconds : N;
  tv_seconds_left : N;
  tv_is_active : bool;
}.

(** ** Copies *)
Definition NS_PER_MS : N := 1000000.
Record TimerCopy := mkTimerCopy {
  tc_name : option string;
  tc_total_ms : N;
  tc_left_ms : N;
  tc_anchor : N;
  tc_active : bool;
}.
Definition remaining (now : N) (c : TimerCopy) : N :=
  if negb (tc_active c) then tc_left_ms c
  else tc_left_ms c - N.min ((now - tc_anchor c) / NS_PER_MS) u64_max.
Definition zero_at (c : TimerCopy) : option N :=
  if tc_active c then Some (tc_anchor c + tc_left_ms c * NS_PER_MS) else None.

Record MissedFinish := mkMissedFinish { mf_timer_id : string; mf_name : option string }.
Abbreviation Timers := (gmap string TimerCopy).
Definition nonempty (name : option string) : option string :=
  match name with Some n => if String.eqb n "" then None else Some n | None => None end.
Definition timers_apply (e : TimerEvent) (now : N) (t : Timers) : Timers :=
  match tv_kind e with
  | Tk_Started | Tk_Updated =>
      <[tv_timer_id e := mkTimerCopy (nonempty (tv_name e)) (tv_total_seconds e * 1000) (tv_seconds_left e * 1000) now (tv_is_active e)]> t
  | Tk_Cancelled | Tk_Finished => delete (tv_timer_id e) t
  end.
Definition timers_is_empty (t : Timers) : bool := bool_decide (t = ∅).

(** A [BTreeMap]'s entries, in key order. *)
Definition key_leb {V} (a b : string * V) : bool := String.leb (fst a) (fst b).
Definition timer_entries (t : Timers) : list (string * TimerCopy) := sort_by key_leb (map_to_list t).
Definition overdue (now grace : N) (c : TimerCopy) : bool :=
  match zero_at c with Some zero => zero + grace <=? now | None => false end.
Definition drop_copy (t : Timers) (e : string * TimerCopy) : Timers := delete (fst e) t.
(** The copies missed, and what is left. *)
Definition timers_sweep (now grace : N) (t : Timers) : list MissedFinish * Timers :=
  let missed := List.filter (fun e => overdue now grace (snd e)) (timer_entries t) in
  (List.map (fun e => mkMissedFinish (fst e) (tc_name (snd e))) missed, foldl drop_copy t missed).

(** The order of the view: active first, by time left, then by id. *)
Definition entry_before (a b : TimerViewEntry) : bool :=
  match te_active a, te_active b with
  | true, false => true
  | false, true => false
  | _, _ =>
      if te_remaining_ms a =? te_remaining_ms b then String.leb (te_id a) (te_id b)
      else te_remaining_ms a <? te_remaining_ms b
  end.
Definition view_entry (now : N) (e : string * TimerCopy) : TimerViewEntry :=
  let '(id, c) := e in mkTimerViewEntry id (tc_name c) (tc_total_ms c) (remaining now c) (tc_active c).
Definition timers_view (now : N) (t : Timers) : TimerView :=
  mkTimerView (sort_by entry_before (List.map (view_entry now) (timer_entries t))).

(** ** Facts *)
Lemma string_leb_trans a b c : String.leb a b = true -> String.leb b c = true -> String.leb a c = true.
Proof.
  revert b c. induction a as [|x a IH]; intros [|y b] [|z c]; try done. unfold String.leb in *. cbn [String.compare].
  unfold Ascii.compare. specialize (IH b c).
  destruct (N.compare_spec (Ascii.N_of_ascii x) (Ascii.N_of_ascii y)), (N.compare_spec (Ascii.N_of_ascii y) (Ascii.N_of_ascii z)),
    (N.compare_spec (Ascii.N_of_ascii x) (Ascii.N_of_ascii z)); try done; try lia.
Qed.
Lemma entry_before_total a b : entry_before a b = true \/ entry_before b a = true.
Proof.
  unfold entry_before. destruct (te_active a), (te_active b); auto;
    rewrite (N.eqb_sym (te_remaining_ms b)); destruct (N.eqb_spec (te_remaining_ms a) (te_remaining_ms b));
    try apply String.leb_total; rewrite !N.ltb_lt; lia.
Qed.
Lemma entry_before_trans a b c : entry_before a b = true -> entry_before b c = true -> entry_before a c = true.
Proof.
  unfold entry_before. generalize (te_remaining_ms a) (te_remaining_ms b) (te_remaining_ms c). intros x y z.
  pose proof (string_leb_trans (te_id a) (te_id b) (te_id c)) as Hs.
  destruct (te_active a), (te_active b), (te_active c); try done;
    destruct (N.eqb_spec x y), (N.eqb_spec y z), (N.eqb_spec x z); rewrite ?N.ltb_lt; subst; auto; lia.
Qed.
Lemma elem_of_timer_entries (t : Timers) e : e ∈ timer_entries t <-> t !! fst e = Some (snd e).
Proof. unfold timer_entries. rewrite sort_by_perm. destruct e. apply elem_of_map_to_list. Qed.
Lemma delete_all (l : list (string * TimerCopy)) (t : Timers) id :
  foldl drop_copy t l !! id = if decide (id ∈ l.*1) then None else t !! id.
Proof.
  revert t. induction l as [|e l IH]; intros t; [done|]. cbn [foldl]. rewrite IH, fmap_cons. unfold drop_copy.
  destruct (decide (id ∈ l.*1)); [rewrite decide_True; [done|set_solver]|].
  destruct (decide (id = fst e)) as [->|].
  - rewrite lookup_delete_eq, decide_True; [done|set_solver].
  - rewrite lookup_delete_ne by done. rewrite decide_False; [done|set_solver].
Qed.

(** A copy ticks down from what Home Assistant said and never grows between its
    messages, a paused one stands still; the view lists every copy once, active
    ones soonest first and paused ones by time left; a sweep drops, and reports,
    exactly the active copies that reached zero a grace ago, so never a paused one, and one sweep
    reports none that another did. *)
Theorem timers_contract (t : Timers) now later grace :
  now <= later ->
  (forall id c, t !! id = Some c -> remaining later c <= remaining now c /\
     (tc_active c = false -> remaining later c = tc_left_ms c) /\
     (forall zero, zero_at c = Some zero -> tc_left_ms c <= u64_max -> zero <= later -> remaining later c = 0)) /\
  tw_timers (timers_view now t) ≡ₚ List.map (view_entry now) (map_to_list t) /\
  StronglySorted (fun a b => entry_before a b = true) (tw_timers (timers_view now t)) /\
  (let '(missed, t') := timers_sweep now grace t in
   (forall id, t' !! id = match t !! id with Some c => if overdue now grace c then None else Some c | None => None end) /\
   (forall m, m ∈ missed <-> exists c, t !! mf_timer_id m = Some c /\ mf_name m = tc_name c /\ overdue now grace c = true) /\
   fst (timers_sweep now grace t') = []).
Proof.
  intros Hle. split_and!.
  - intros id c _. unfold remaining, zero_at. destruct (tc_active c); cbn [negb]; [|split_and!; [lia|done|done]]. split_and!; [|done|].
    + assert ((now - tc_anchor c) / NS_PER_MS <= (later - tc_anchor c) / NS_PER_MS) by (apply N.Div0.div_le_mono; lia). lia.
    + intros zero [= <-] Hmax Hz. assert (tc_left_ms c <= (later - tc_anchor c) / NS_PER_MS).
      { apply N.div_le_lower_bound; [done|]. lia. } lia.
  - unfold timers_view, timer_entries. cbn [tw_timers]. rewrite sort_by_perm. apply Permutation_map, sort_by_perm.
  - apply sort_by_sorted; [apply entry_before_total|apply entry_before_trans].
  - unfold timers_sweep. set (missed := List.filter _ (timer_entries t)).
    assert (Hin : forall id c, (id, c) ∈ missed <-> t !! id = Some c /\ overdue now grace c = true).
    { intros id c. unfold missed. rewrite list_elem_of_In, filter_In, <- list_elem_of_In, elem_of_timer_entries. done. }
    set (t' := foldl _ t missed).
    assert (Ht : forall id, t' !! id = match t !! id with Some c => if overdue now grace c then None else Some c | None => None end).
    { intros id. unfold t'. rewrite delete_all. case_decide as Hid.
      - apply list_elem_of_fmap in Hid as ([i c] & -> & Hc). apply Hin in Hc as [Hc Ho]. cbn [fst]. by rewrite Hc, Ho.
      - destruct (t !! id) as [c|] eqn:E; [|done]. destruct (overdue now grace c) eqn:Eo; [|done]. exfalso. apply Hid.
        apply (list_elem_of_fmap_2 fst _ (id, c)). by apply Hin. }
    split_and!; [done| |].
    + intros [id name]. cbn. rewrite list_elem_of_In, in_map_iff. split.
      * intros ([i c] & [= -> <-] & Hc). apply list_elem_of_In, Hin in Hc as [? ?]. by exists c.
      * intros (c & Hc & -> & Ho). exists (id, c). split; [done|]. by apply list_elem_of_In, Hin.
    + cbn [fst]. destruct (List.filter _ (timer_entries t')) as [|[id c] l] eqn:E; [done|]. exfalso.
      assert (Hc : (id, c) ∈ List.filter (fun e => overdue now grace (snd e)) (timer_entries t')) by (rewrite E; left).
      apply list_elem_of_In, filter_In in Hc as [Hc Ho]. apply list_elem_of_In, elem_of_timer_entries in Hc. cbn [fst snd] in *.
      rewrite Ht in Hc. destruct (t !! id) as [c0|]; [|done]. destruct (overdue now grace c0) eqn:Eo; [done|]. injection Hc as ->. congruence.
Qed.
Definition sample_timers : Timers :=
  timers_apply (mkTimerEvent Tk_Started "tea" None 300 1 false) 0
    (timers_apply (mkTimerEvent Tk_Started "pasta" (Some "pasta") 300 60 true) 0 ∅).
Lemma timers_contract_witness :
  fst (timers_sweep 64999000000 5000000000 sample_timers) = [] /\
  fst (timers_sweep 65000000000 5000000000 sample_timers) = [mkMissedFinish "pasta" (Some "pasta")] /\
  StronglySorted (fun a b => entry_before a b = true) (tw_timers (timers_view 0 sample_timers)).
Proof.
  split; [vm_compute; reflexivity|]. split; [vm_compute; reflexivity|].
  destruct (timers_contract sample_timers 0 10 0) as (_ & _ & Hs & _); [lia|]. exact Hs.
Defined.
