(* ===== verification/Occurrences.v ===== *)
(** * Alarm occurrences ([alerts/src/ids.rs], [description.rs], [calendar.rs])

    The identifiers the alert service derives, the [echomuse:] line that ends the
    description of a calendar event, and the occurrences read from a calendar.  The
    description of an event is where an alarm is stored. *)
From Stdlib Require Import Floats.SpecFloat Sorting.Sorted.
From S2P Require Import Prelude Bytes WireEnum Float Ema Vocab Json Policy Clock Evidence Level Transcript Document Values Settings Stored Registry Canonical AlertBodies AlertWire Schedule.

(** ** Identifiers *)
Section ids.
Context `{UuidCrate}.
(** 6ba7b811-9dad-11d1-80b4-00c04fd430c8 *)
Definition NAMESPACE_URL : Uuid := 0x6ba7b8119dad11d180b400c04fd430c8.
Definition op_voice_alarm (origin_turn_id : string) : Uuid := uuid_new_v5 NAMESPACE_URL origin_turn_id.
Definition op_local_action (turn_id action : string) : Uuid := uuid_new_v5 NAMESPACE_URL (turn_id +:+ "|" +:+ action).
Definition op_relay (request_id : string) : Uuid := uuid_new_v5 NAMESPACE_URL request_id.
Definition op_missed (occurrence_id : Uuid) : Uuid := uuid_new_v5 NAMESPACE_URL ("echomuse-missed:" +:+ uuid_to_string occurrence_id).
Definition op_group_member (root schedule_id : Uuid) : Uuid := uuid_new_v5 root (uuid_to_string schedule_id).
Definition new_schedule_id (op : Uuid) : Uuid := uuid_new_v5 op "schedule".
Definition occurrence_id_of (schedule_id : Uuid) (key : string) : Uuid := uuid_new_v5 schedule_id key.
Definition snooze_child_schedule_id (parent_occurrence : Uuid) : Uuid :=
  uuid_new_v5 NAMESPACE_URL ("echomuse-snooze:" +:+ uuid_to_string parent_occurrence).
Definition ui_schedule_id (calendar_entity uid : string) : Uuid := uuid_new_v5 NAMESPACE_URL (calendar_entity +:+ "/" +:+ uid).
End ids.

(** ** The line *)
Definition SNOOZE_MS : N := 540000.
Definition MAX_RING_MS : N := 600000.
Definition LOOP_GAP_MS : N := 2000.
Definition RAMP_MS : N := 20000.
Definition LABEL : string := "Alarm".
Record ParentRef := mkParentRef { pr_id : Uuid; pr_occ : string }.
Record AlertRingSettings := mkAlertRingSettings {
  rs_loop_gap_ms : N;
  rs_max_ring_ms : N;
  rs_ramp_ms : N;
  rs_snooze_ms : N;
  rs_sound : AlertSound;
  rs_volume : option F64;
}.
Definition ring_defaults (sound : AlertSound) : AlertRingSettings :=
  mkAlertRingSettings LOOP_GAP_MS MAX_RING_MS RAMP_MS SNOOZE_MS sound None.
Record EchomuseLine := mkEchomuseLine {
  el_id : Uuid;
  el_kind : OccurrenceKind;
  el_op : Uuid;
  el_parent : option ParentRef;
  el_ring : AlertRingSettings;
}.
Inductive LineOf := Lo_Absent | Lo_Valid (line : EchomuseLine) | Lo_Malformed (why : string).

(** *** Text: [str::trim], [trim_end] and [lines] *)
Section trimming.
Context `{Unicode}.
Fixpoint trim_start_text (t : Text) : Text :=
  match t with c :: rest => if is_whitespace c then trim_start_text rest else t | [] => [] end.
Definition trim_end_text (t : Text) : Text := rev (trim_start_text (rev t)).
Definition str_trim (s : string) : string := utf8 (trim_start_text (trim_end_text (chars s))).
Definition str_trim_end (s : string) : string := utf8 (trim_end_text (chars s)).
End trimming.
Definition NEWLINE : Ascii.ascii := ascii_of 10.
(** A line that ended with a newline also loses one trailing carriage return; an
    empty piece after the last newline is no line. *)
Fixpoint strip_cr (s : string) : string :=
  match s with
  | EmptyString => ""
  | String c EmptyString => if byte_at c =? 13 then "" else s
  | String c rest => String c (strip_cr rest)
  end.
Fixpoint lines_of (pieces : list string) : list string :=
  match pieces with
  | [] => []
  | [last] => if String.eqb last "" then [] else [last]
  | piece :: rest => strip_cr piece :: lines_of rest
  end.
Definition str_lines (s : string) : list string := lines_of (split_on NEWLINE s).
Definition strip_prefix (prefix s : string) : option string :=
  if String.prefix prefix s then Some (rest_chars (String.length prefix) s) else None.

Section lines.
Context `{UuidCrate, DebugText, Unicode, SerdeJson}.

Definition line_value (l : EchomuseLine) : Value :=
  VObject [("id", VString (uuid_to_string (el_id l))); ("kind", VString (as_str (el_kind l)));
           ("loop_gap_ms", number (rs_loop_gap_ms (el_ring l))); ("max_ring_ms", number (rs_max_ring_ms (el_ring l)));
           ("op", VString (uuid_to_string (el_op l)));
           ("parent", match el_parent l with
                      | Some p => VObject [("id", VString (uuid_to_string (pr_id p))); ("occ", VString (pr_occ p))]
                      | None => VNull
                      end);
           ("ramp_ms", number (rs_ramp_ms (el_ring l))); ("snooze_ms", number (rs_snooze_ms (el_ring l)));
           ("sound", VString (sound_text (rs_sound (el_ring l)))); ("v", number 1);
           ("volume", match rs_volume (el_ring l) with Some gain => VNumber (NFloat gain) | None => VNull end)].
Definition LINE_PREFIX : string := "echomuse: ".
(** [None]: the [expect] panics on a gain that is not finite, which [AlertVolume] rules out. *)
Definition to_line (l : EchomuseLine) : option string :=
  match canonical_json (line_value l) with Ok text => Some (LINE_PREFIX +:+ text) | Err _ => None end.
Definition line_description (l : EchomuseLine) (human : option string) : option string :=
  match human with
  | Some text =>
      let text := str_trim_end text in
      if String.eqb text "" then to_line l else (λ line, text +:+ String NEWLINE line) <$> to_line l
  | None => to_line l
  end.

Definition LINE_KEYS : list string :=
  ["id"; "kind"; "loop_gap_ms"; "max_ring_ms"; "op"; "parent"; "ramp_ms"; "snooze_ms"; "sound"; "v"; "volume"].
Definition debug_list (l : list string) : string := "[" +:+ String.concat ", " (debug_text <$> l) +:+ "]".
Definition get_text (key : string) (o : Object) : option string := object_get key o ≫= value_as_str.
Definition line_uuid (o : Object) (key : string) : result string Uuid :=
  ok_or (key +:+ " is not a UUID") (get_text key o ≫= uuid_parse_str).
Definition line_count (o : Object) (key : string) : result string N :=
  ok_or (key +:+ " is not a non-negative integer") (object_get key o ≫= value_as_u64).
Definition line_kind (o : Object) : result string OccurrenceKind :=
  match get_text "kind" o with
  | Some text =>
      if String.eqb text "alarm" then Ok Ok_Alarm
      else if String.eqb text "snooze" then Ok Ok_Snooze
      else Err "kind is not alarm or snooze"
  | None => Err "kind is not alarm or snooze"
  end.
Definition nonempty_key (occ : string) : option string := if String.eqb occ "" then None else Some occ.
Definition line_parent (o : Object) : result string (option ParentRef) :=
  match object_get "parent" o with
  | Some VNull => Ok None
  | Some (VObject p) =>
      let? id := ok_or "parent.id is not a UUID" (get_text "id" p ≫= uuid_parse_str) in
      let? occ := ok_or "parent.occ is not a key" (get_text "occ" p ≫= nonempty_key) in
      Ok (Some (mkParentRef id occ))
  | _ => Err "parent is not an object or null"
  end.
Definition line_sound (o : Object) : result string AlertSound :=
  match get_text "sound" o with
  | Some text =>
      if String.eqb text "builtin:fallback" then Ok As_Fallback
      else let? sha := ok_or "sound is not a SHA-256" (sha256_parse text) in Ok (As_Asset sha)
  | None => Err "sound is not a string"
  end.
Definition value_as_f64 (v : Value) : option F64 := match v with VNumber n => Some (number_as_f64 n) | _ => None end.
Definition line_volume (o : Object) : result string (option F64) :=
  match object_get "volume" o with
  | Some VNull => Ok None
  | v => let? gain := ok_or "volume is not in (0, 1]" ((v ≫= value_as_f64) ≫= alert_volume_new) in Ok (Some gain)
  end.
Definition read_line (o : Object) : result string EchomuseLine :=
  if negb (length o =? length LINE_KEYS)%nat || any (fun key => negb (is_some (object_get key o))) LINE_KEYS then
    Err ("keys " +:+ debug_list (sort_by String.leb o.*1) +:+ " are not exactly " +:+ debug_list LINE_KEYS)
  else if negb (bool_decide ((object_get "v" o ≫= value_as_u64) = Some 1)) then Err "v is not 1"
  else
    let? kind := line_kind o in
    let? parent := line_parent o in
    if negb (Bool.eqb (bool_decide (kind = Ok_Snooze)) (is_some parent)) then
      Err "a snooze child, and only a snooze child, names its parent"
    else
      let? sound := line_sound o in
      let? volume := line_volume o in
      let? max_ring_ms := line_count o "max_ring_ms" in
      if max_ring_ms =? 0 then Err "max_ring_ms is zero"
      else
        let? id := line_uuid o "id" in
        let? op := line_uuid o "op" in
        let? loop_gap_ms := line_count o "loop_gap_ms" in
        let? ramp_ms := line_count o "ramp_ms" in
        let? snooze_ms := line_count o "snooze_ms" in
        Ok (mkEchomuseLine id kind op parent (mkAlertRingSettings loop_gap_ms max_ring_ms ramp_ms snooze_ms sound volume)).

Definition line_parse (description : option string) : LineOf :=
  match (d ← description; find_first (fun l => negb (String.eqb (str_trim l) "")) (rev (str_lines d))) with
  | None => Lo_Absent
  | Some last =>
      match strip_prefix "echomuse:" (str_trim last) with
      | None => Lo_Absent
      | Some text =>
          match from_str (str_trim text) with
          | Ok (VObject o) => match read_line o with Ok line => Lo_Valid line | Err why => Lo_Malformed why end
          | Ok _ => Lo_Malformed "not a JSON object"
          | Err err => Lo_Malformed ("not JSON: " +:+ err)
          end
      end
  end.
End lines.

(** ** The text of a line is one line *)
Definition visible (c : Ascii.ascii) : bool := (32 <=? byte_at c) && (byte_at c <? 128).
Definition printable (c : Char) : bool := scalar c && (32 <=? c).
(** A string that is UTF-8 of characters from the space on. *)
Definition plain (s : string) : Prop := exists t, forallb printable t = true /\ s = utf8 t.

Lemma utf8_char_append c (a b : string) : utf8_char c a +:+ b = utf8_char c (a +:+ b).
Proof. unfold utf8_char. destruct (c <? 128), (c <? 2048), (c <? 65536); by rewrite ?append_cons. Qed.
Lemma utf8_app t u : utf8 (t ++ u) = utf8 t +:+ utf8 u.
Proof. induction t as [|c t IH]; cbn [utf8 app]; [by rewrite append_nil_l|]. by rewrite IH, utf8_char_append. Qed.
Lemma plain_nil : plain "".
Proof. by exists []. Qed.
Lemma plain_app a b : plain a -> plain b -> plain (a +:+ b).
Proof. intros (t & Ht & ->) (u & Hu & ->). exists (t ++ u). by rewrite forallb_app, Ht, Hu, utf8_app. Qed.
Lemma printable_scalar t : forallb printable t = true -> forallb scalar t = true.
Proof. rewrite !forallb_forall. intros H c Hc. by apply H, andb_true_iff in Hc as [? _]. Qed.

Lemma ascii_byte a : ascii_of (byte_at a) = a.
Proof. apply Ascii.ascii_N_embedding. Qed.
Lemma byte_bound a : byte_at a < 256.
Proof. apply Ascii.N_ascii_bounded. Qed.
Lemma visible_printable a : visible a = true -> printable (byte_at a) = true.
Proof.
  unfold visible, printable, scalar. intros [H1 H2%N.ltb_lt]%andb_true_iff. rewrite H1.
  by rewrite (proj2 (N.ltb_lt _ 55296)) by lia.
Qed.
Lemma plain_cons a s : visible a = true -> plain s -> plain (String a s).
Proof.
  intros Ha (t & Ht & ->). exists (byte_at a :: t). cbn [forallb utf8]. rewrite visible_printable, Ht by done. split; [done|].
  apply andb_true_iff in Ha as [_ Ha]. unfold utf8_char. by rewrite Ha, ascii_byte.
Qed.
Lemma plain_visible s : string_all visible s = true -> plain s.
Proof.
  induction s as [|a s IH]; [intros _; apply plain_nil|]. cbn [string_all]. intros [Ha Hs]%andb_true_iff.
  by apply plain_cons; [|apply IH].
Qed.
Lemma plain_concat sep texts : plain sep -> Forall plain texts -> plain (String.concat sep texts).
Proof.
  intros Hsep. induction 1 as [|t texts Ht H IH]; [apply plain_nil|]. cbn [String.concat]. destruct H; [done|]. auto using plain_app.
Qed.
Lemma string_all_append p (a b : string) : string_all p (a +:+ b) = string_all p a && string_all p b.
Proof. induction a as [|c a IH]; [by rewrite append_nil_l|]. rewrite append_cons. cbn [string_all]. by rewrite IH, andb_assoc. Qed.
Lemma string_all_substring p n m s : string_all p s = true -> string_all p (String.substring n m s) = true.
Proof.
  revert n m. induction s as [|c s IH]; intros [|n] [|m]; cbn [String.substring string_all]; try done.
  all: intros [Hc Hs]%andb_true_iff; rewrite ?Hc; cbn [andb]; by apply IH.
Qed.

(** *** Numbers *)
Lemma visible_digit d : d < 10 -> visible (pretty_N_char d) = true.
Proof. intros Hd. unfold visible, byte_at. rewrite pretty_N_char_value by done. apply andb_true_iff. split; [apply N.leb_le|apply N.ltb_lt]; lia. Qed.
Lemma visible_pretty_go x s : string_all visible s = true -> string_all visible (pretty_N_go x s) = true.
Proof.
  revert s. induction (N.lt_wf_0 x) as [x _ IH]. intros s Hs. destruct (decide (x = 0)) as [->|Hx].
  { by rewrite pretty_N_go_0. }
  rewrite pretty_N_go_step by lia. apply IH; [apply N.div_lt; lia|]. cbn [string_all].
  rewrite visible_digit by (apply N.mod_lt; lia). done.
Qed.
Lemma visible_pretty (n : N) : string_all visible (pretty n) = true.
Proof. unfold pretty, pretty_N. destruct (decide (n = 0)) as [->|Hn]; [done|]. by apply visible_pretty_go. Qed.
Lemma visible_pretty_Z (z : Z) : string_all visible (pretty z) = true.
Proof.
  destruct z as [|p|p]; [done| |]; unfold pretty, pretty_Z.
  - apply visible_pretty.
  - rewrite append_cons, append_nil_l. cbn [string_all]. apply visible_pretty.
Qed.
Lemma visible_zeros n : string_all visible (zeros n) = true.
Proof. induction n; [done|]. cbn [zeros]. by rewrite string_all_append, IHn. Qed.
Lemma visible_digits digits e : string_all visible digits = true -> string_all visible (canonical_digits digits e) = true.
Proof.
  intros Hd. unfold canonical_digits, two_digits, first_chars, rest_chars.
  repeat case_match; rewrite ?string_all_append; cbn [string_all]; rewrite ?visible_zeros, ?Hd, ?visible_pretty, ?string_all_substring by done; done.
Qed.
Lemma visible_float x text : write_float x = Ok text -> string_all visible text = true.
Proof.
  destruct x as [[]| | |s m e]; cbn [write_float]; try by intros [= <-].
  unfold lower_exp. destruct (shortest_from 634 m e 309) as [[d k]|]; [|done]. cbn -[canonical_digits string_all String.append]. intros [= <-].
  rewrite string_all_append, visible_digits by apply visible_pretty. by destruct s.
Qed.

(** *** Strings *)
(** The bytes of a character past ASCII are written as they are. *)
Lemma canonical_high_byte n s : 128 <= n -> n < 256 ->
  canonical_bytes (String (ascii_of n) s) = String (ascii_of n) (canonical_bytes s).
Proof.
  intros Hn Hh. cbn [canonical_bytes]. unfold canonical_byte. rewrite byte_ascii by done.
  repeat match goal with |- context [?a =? ?b] => rewrite (proj2 (N.eqb_neq a b)) by lia end.
  rewrite (proj2 (N.ltb_ge _ _)) by lia. by rewrite append_cons, append_nil_l.
Qed.
Lemma canonical_byte_plain a : byte_at a < 128 -> plain (canonical_byte a).
Proof.
  intros Ha. apply plain_visible. unfold canonical_byte.
  repeat match goal with |- context [?a =? ?b] => destruct (N.eqb_spec a b); [reflexivity|] end.
  destruct (N.ltb_spec (byte_at a) 32).
  - assert (Forall (fun n => string_all visible (escape_unit (N.of_nat n)) = true) (seq 0 32)) as Hf
      by (repeat constructor).
    rewrite Forall_forall in Hf. specialize (Hf (N.to_nat (byte_at a))). rewrite N2Nat.id in Hf.
    apply Hf, elem_of_seq. lia.
  - cbn [string_all]. unfold visible. rewrite andb_true_r. apply andb_true_iff. split; [by apply N.leb_le|by apply N.ltb_lt].
Qed.
Lemma scalar_bound c : scalar c = true -> c < 1114112.
Proof. unfold scalar. intros [?%N.ltb_lt|[_ ?%N.ltb_lt]%andb_true_iff]%orb_true_iff; lia. Qed.
Lemma plain_char c s : printable c = true -> plain s -> plain (utf8_char c s).
Proof. intros Hc (t & Ht & ->). exists (c :: t). cbn [forallb utf8]. by rewrite Hc, Ht. Qed.
Lemma canonical_bytes_plain t : forallb scalar t = true -> plain (canonical_bytes (utf8 t)).
Proof.
  induction t as [|c t IH]; [intros _; apply plain_nil|]. cbn [forallb utf8]. intros [Hc Ht]%andb_true_iff. specialize (IH Ht).
  pose proof (scalar_bound c Hc). unfold utf8_char.
  destruct (N.ltb_spec c 128).
  { cbn [canonical_bytes]. apply plain_app; [|done]. apply canonical_byte_plain. rewrite byte_ascii by lia. done. }
  assert (Hp : printable c = true) by (unfold printable; rewrite Hc; apply N.leb_le; lia).
  apply (plain_char c) in IH; [|done]. revert IH. unfold utf8_char.
  rewrite (proj2 (N.ltb_ge c 128)) by lia.
  destruct (N.ltb_spec c 2048); [|destruct (N.ltb_spec c 65536)]; rewrite !canonical_high_byte by div_lia; done.
Qed.
Lemma canonical_string_plain s : valid_utf8 s = true -> plain (canonical_string s).
Proof.
  intros Hs%String.eqb_eq. unfold canonical_string. apply plain_cons; [reflexivity|]. apply plain_app.
  - rewrite <- Hs. apply canonical_bytes_plain, chars_scalar.
  - by apply plain_visible.
Qed.

Fixpoint valid_strings (v : Value) : bool :=
  match v with
  | VString s => valid_utf8 s
  | VArray items => forallb valid_strings items
  | VObject entries => forallb (fun '(k, w) => valid_utf8 k && valid_strings w) entries
  | _ => true
  end.
Lemma canonical_list_Forall (P : string -> Prop) texts out :
  Forall (fun t => forall text, t = Ok text -> P text) texts -> canonical_list texts = Ok out -> Forall P out.
Proof.
  intros H. revert out. induction H as [|t texts Ht _ IH]; intros out; cbn [canonical_list]; [by intros [= <-]|].
  destruct t as [text|]; [|done]. cbn. destruct (canonical_list texts) as [rest|]; [|done]. cbn. intros [= <-]. eauto.
Qed.
Lemma members_plain entries out :
  Forall (fun kv => valid_utf8 (fst kv) = true /\ forall text, canonical_json (snd kv) = Ok text -> plain text) entries ->
  canonical_list (List.map canonical_member (sort_entries (List.map (fun '(k, w) => (k, canonical_json w)) entries))) = Ok out ->
  plain (String.concat "," out).
Proof.
  intros H E. apply plain_concat; [by apply plain_visible|]. rewrite Forall_forall in H.
  eapply canonical_list_Forall, E. apply Forall_forall. intros t ([k r] & <- & Hr)%list_elem_of_In%in_map_iff.
  apply list_elem_of_In, elem_of_sort_entries, list_elem_of_In, in_map_iff in Hr as ([k' w] & [= <- <-] & Hw%list_elem_of_In).
  destruct (H _ Hw) as [Hk Ht]. intros text. unfold canonical_member. cbn [fst snd] in *.
  destruct (canonical_json w) as [text'|]; [|done]. cbn -[String.append canonical_string]. intros [= <-].
  repeat apply plain_app; [by apply canonical_string_plain|by apply plain_visible|by apply Ht].
Qed.
Lemma canonical_json_plain v text : valid_strings v = true -> canonical_json v = Ok text -> plain text.
Proof.
  revert text. induction v as [|[]|n|s|items IH|entries IH] using value_ind_strong; intros text Hv.
  1-3: by intros [= <-]; apply plain_visible.
  all: [> destruct n as [z|x]|..].
  - intros [= <-]. apply plain_visible, visible_pretty_Z.
  - intros E%visible_float. by apply plain_visible.
  - intros [= <-]. by apply canonical_string_plain.
  - cbn [canonical_json]. destruct (canonical_list _) as [out|] eqn:E; [|done]. cbn -[String.append]. intros [= <-].
    rewrite Forall_forall in IH. cbn [valid_strings] in Hv. rewrite forallb_forall in Hv.
    repeat apply plain_app; try (by apply plain_visible). apply plain_concat; [by apply plain_visible|].
    eapply canonical_list_Forall, E. apply Forall_forall. intros t (w & <- & Hw)%list_elem_of_In%in_map_iff.
    intros text Et. eapply IH, Et; [by apply list_elem_of_In|auto].
  - cbn [canonical_json]. destruct (canonical_list _) as [out|] eqn:E; [|done]. cbn -[String.append]. intros [= <-].
    repeat apply plain_app; try (by apply plain_visible). eapply members_plain, E.
    rewrite Forall_forall in IH |- *. cbn [valid_strings] in Hv. rewrite forallb_forall in Hv.
    intros [k w] Hw. apply list_elem_of_In in Hw as Hi. destruct (proj1 (andb_true_iff _ _) (Hv _ Hi)). split; [done|].
    intros text. by apply (IH (k, w)).
Qed.
(** The text of an object is braces around a plain text. *)
Lemma canonical_object_braced entries text :
  valid_strings (VObject entries) = true -> canonical_json (VObject entries) = Ok text ->
  exists mid, forallb printable mid = true /\ text = utf8 (123 :: mid ++ [125]).
Proof.
  intros Hv. cbn [canonical_json]. destruct (canonical_list _) as [out|] eqn:E; [|done]. cbn -[String.append utf8]. intros [= <-].
  apply members_plain in E as (mid & Hm & ->).
  - exists mid. split; [done|]. change (utf8 (123 :: mid ++ [125])) with (utf8 ([123] ++ mid ++ [125])).
    by rewrite !utf8_app.
  - cbn [valid_strings] in Hv. rewrite forallb_forall in Hv. apply Forall_forall. intros [k w] Hw%list_elem_of_In.
    destruct (proj1 (andb_true_iff _ _) (Hv _ Hw)). split; [done|]. intros text. by apply canonical_json_plain.
Qed.

(** ** The last line of a text *)
Definition not_newline (a : Ascii.ascii) : bool := negb (Ascii.eqb a NEWLINE).
Lemma split_on_one s : string_all not_newline s = true -> split_on NEWLINE s = [s].
Proof.
  induction s as [|a s IH]; [done|]. cbn [string_all split_on]. intros [Ha Hs]%andb_true_iff.
  unfold not_newline in Ha. destruct (Ascii.eqb a NEWLINE); [done|]. by rewrite IH.
Qed.
Lemma split_on_last a b : string_all not_newline b = true ->
  exists p parts, split_on NEWLINE (a +:+ String NEWLINE b) = p :: parts ++ [b].
Proof.
  intros Hb. induction a as [|c a (p & parts & IH)].
  - exists "", []. rewrite append_nil_l. cbn [split_on]. by rewrite Ascii.eqb_refl, split_on_one.
  - rewrite append_cons. cbn [split_on]. rewrite IH. destruct (Ascii.eqb c NEWLINE); [by exists "", (p :: parts)|].
    by exists (String c p), parts.
Qed.
Lemma lines_of_last parts b : b <> "" -> lines_of (parts ++ [b]) = List.map strip_cr parts ++ [b].
Proof.
  intros Hb. induction parts as [|p parts IH]; cbn [app lines_of List.map].
  - by destruct (String.eqb_spec b "").
  - destruct (parts ++ [b]) as [|q rest] eqn:E; [by destruct parts|]. by rewrite IH.
Qed.
Lemma printable_not_newline t : forallb printable t = true -> string_all not_newline (utf8 t) = true.
Proof.
  assert (Hb : forall n, n < 256 -> 32 <= n -> not_newline (ascii_of n) = true).
  { intros n Hn Hl. unfold not_newline. destruct (Ascii.eqb_spec (ascii_of n) NEWLINE) as [E|]; [|done].
    apply (f_equal byte_at) in E. unfold NEWLINE in E. rewrite !byte_ascii in E; lia. }
  induction t as [|c t IH]; [done|]. cbn [forallb utf8]. intros [Hc Ht]%andb_true_iff.
  unfold printable in Hc. apply andb_true_iff in Hc as [Hs%scalar_bound Hl%N.leb_le]. unfold utf8_char.
  destruct (N.ltb_spec c 128); [|destruct (N.ltb_spec c 2048); [|destruct (N.ltb_spec c 65536)]]; cbn [string_all];
    rewrite !Hb by div_lia; cbn [andb]; auto.
Qed.
Lemma last_line_found a t :
  forallb printable t = true -> t <> [] ->
  str_lines (utf8 t) = [utf8 t] /\ exists before, str_lines (a +:+ String NEWLINE (utf8 t)) = before ++ [utf8 t].
Proof.
  intros Ht%printable_not_newline Hn. assert (Hne : utf8 t <> "").
  { destruct t as [|c t]; [done|]. cbn [utf8]. unfold utf8_char. by repeat case_match. }
  unfold str_lines. split.
  - rewrite split_on_one by done. cbn [lines_of]. by destruct (String.eqb_spec (utf8 t) "").
  - destruct (split_on_last a _ Ht) as (p & parts & ->). rewrite (app_comm_cons parts), lines_of_last by done. eauto.
Qed.

(** *** Trimming *)
Section trim_laws.
Context {U : Unicode} {UL : UnicodeLaws U}.
Lemma trim_end_graphic t c : 33 <= c <= 126 -> trim_end_text (t ++ [c]) = t ++ [c].
Proof.
  intros Hc. unfold trim_end_text. rewrite rev_app_distr. cbn [rev app trim_start_text]. rewrite graphic_not_space by done.
  change (c :: rev t) with (rev [c] ++ rev t). by rewrite <- rev_app_distr, rev_involutive.
Qed.
Lemma str_trim_graphic t b c : forallb scalar (b :: t ++ [c]) = true -> 33 <= b <= 126 -> 33 <= c <= 126 ->
  str_trim (utf8 (b :: t ++ [c])) = utf8 (b :: t ++ [c]) /\ str_trim (utf8 (SPACE :: b :: t ++ [c])) = utf8 (b :: t ++ [c]).
Proof.
  intros Hs Hb Hc. unfold str_trim. rewrite !chars_utf8 by (cbn [forallb]; by rewrite ?Hs).
  rewrite !app_comm_cons, !trim_end_graphic by done.
  cbn [app trim_start_text]. by rewrite space_is_whitespace, !graphic_not_space by done.
Qed.
End trim_laws.

(** ** A description reads back *)
Section reads_back.
Context {C : UuidCrate} {CL : UuidLaws C} {D : DebugText} {U : Unicode} {UL : UnicodeLaws U} {S : SerdeJson}.

(** What the types of a line hold: a snooze child, and only it, names its parent. *)
Definition parent_ok (p : ParentRef) : bool :=
  (pr_id p <? 2 ^ 128) && negb (String.eqb (pr_occ p) "") && valid_utf8 (pr_occ p).
Definition sound_ok (s : AlertSound) : bool :=
  match s with As_Fallback => true | As_Asset sha => bool_decide (sha256_parse sha = Some sha) end.
Definition ring_ok (r : AlertRingSettings) : bool :=
  (rs_loop_gap_ms r <=? u64_max) && (rs_max_ring_ms r <=? u64_max) && negb (rs_max_ring_ms r =? 0) &&
  (rs_ramp_ms r <=? u64_max) && (rs_snooze_ms r <=? u64_max) && sound_ok (rs_sound r) && volume_ok (rs_volume r).
Definition line_ok (l : EchomuseLine) : bool :=
  (el_id l <? 2 ^ 128) && (el_op l <? 2 ^ 128) && ring_ok (el_ring l) &&
  Bool.eqb (bool_decide (el_kind l = Ok_Snooze)) (is_some (el_parent l)) &&
  match el_parent l with Some p => parent_ok p | None => true end.

Lemma number_reads n : n <= u64_max -> value_as_u64 (number n) = Some n.
Proof.
  intros Hn. unfold number. cbn [value_as_u64].
  rewrite (proj2 (Z.leb_le 0 _)), (proj2 (Z.leb_le _ (Z.of_N u64_max))) by lia. cbn [andb]. by rewrite N2Z.id.
Qed.
Lemma sha_not_builtin sha : sha256_parse sha = Some sha -> String.eqb sha "builtin:fallback" = false.
Proof. intros H. by destruct (String.eqb_spec sha "builtin:fallback") as [->|]. Qed.

Lemma ascii_valid s : string_all (fun c => byte_at c <? 128) s = true -> valid_utf8 s = true.
Proof.
  intros H. apply String.eqb_eq. induction s as [|a s IH]; [done|]. cbn [string_all] in H. apply andb_true_iff in H as [Ha Hs].
  cbn [chars]. rewrite Ha. cbn [utf8]. unfold utf8_char. rewrite Ha, ascii_byte. by rewrite IH.
Qed.
Lemma sha_text_valid sha : sha256_parse sha = Some sha -> valid_utf8 sha = true.
Proof.
  unfold sha256_parse. destruct (_ && _) eqn:E; [|done]. apply andb_true_iff in E as [_ E]. intros _. apply ascii_valid.
  revert E. induction sha as [|a s IH]; [done|]. cbn [string_all]. intros [Ha Hs]%andb_true_iff. rewrite (IH Hs), andb_true_r.
  apply N.ltb_lt. unfold is_lower_hex in Ha. unfold byte_at.
  apply orb_true_iff in Ha as [[_ ?%N.leb_le]%andb_true_iff|[_ ?%N.leb_le]%andb_true_iff]; lia.
Qed.

Lemma line_parent_reads o p :
  object_get "parent" o = Some (match p with
                                | Some p => VObject [("id", VString (uuid_to_string (pr_id p))); ("occ", VString (pr_occ p))]
                                | None => VNull
                                end) ->
  match p with Some p => parent_ok p | None => true end = true -> line_parent o = Ok p.
Proof.
  intros E. unfold line_parent. rewrite E. destruct p as [p|]; [|done]. unfold parent_ok.
  intros [[Hi%N.ltb_lt Ho%negb_true_iff]%andb_true_iff _]%andb_true_iff. unfold get_text. cbn -[uuid_parse_str uuid_to_string].
  rewrite uuid_reads_back by done. cbn. unfold nonempty_key. rewrite Ho. by destruct p.
Qed.
Lemma line_sound_reads o s : object_get "sound" o = Some (VString (sound_text s)) -> sound_ok s = true -> line_sound o = Ok s.
Proof.
  intros E. unfold line_sound, get_text. rewrite E. cbn. destruct s as [|sha]; [done|]. cbn [sound_text sound_ok].
  intros H%bool_decide_eq_true. by rewrite sha_not_builtin, H.
Qed.
Lemma line_volume_reads o v :
  object_get "volume" o = Some (match v with Some gain => VNumber (NFloat gain) | None => VNull end) ->
  volume_ok v = true -> line_volume o = Ok v.
Proof.
  intros E. unfold line_volume. rewrite E. destruct v as [gain|]; [|done]. cbn [volume_ok].
  intros [H _]%andb_true_iff. cbn [mbind option_bind value_as_f64 number_as_f64]. unfold alert_volume_new. by rewrite H.
Qed.
Lemma line_uuid_reads o key u : object_get key o = Some (VString (uuid_to_string u)) -> u < 2 ^ 128 -> line_uuid o key = Ok u.
Proof. intros E Hu. unfold line_uuid, get_text. rewrite E. cbn. by rewrite uuid_reads_back. Qed.
Lemma line_count_reads o key n : object_get key o = Some (number n) -> n <= u64_max -> line_count o key = Ok n.
Proof. intros E Hn. unfold line_count. rewrite E. cbn [mbind option_bind]. by rewrite number_reads. Qed.

Definition line_entries (l : EchomuseLine) : Object := match line_value l with VObject o => o | _ => [] end.
Lemma read_line_value l : line_ok l = true -> read_line (line_entries l) = Ok l.
Proof.
  unfold line_ok, ring_ok.
  intros [[[[Hid%N.ltb_lt Hop%N.ltb_lt]%andb_true_iff [[[[[[Hlg%N.leb_le Hmr%N.leb_le]%andb_true_iff
    Hz%negb_true_iff]%andb_true_iff Hr%N.leb_le]%andb_true_iff Hs%N.leb_le]%andb_true_iff Hso]%andb_true_iff Hv]%andb_true_iff
    ]%andb_true_iff Hk%Bool.eqb_prop]%andb_true_iff Hp]%andb_true_iff.
  unfold read_line.
  replace (negb (length (line_entries l) =? length LINE_KEYS)%nat || _) with false by reflexivity.
  replace (bool_decide _) with true by reflexivity. cbn [negb].
  replace (line_kind (line_entries l)) with (Ok (E := string) (el_kind l)) by (destruct l as [? []]; reflexivity).
  rewrite (line_parent_reads _ (el_parent l)) by done. rewrite Hk, Bool.eqb_reflx. cbn [negb].
  rewrite (line_sound_reads _ (rs_sound (el_ring l))) by done.
  rewrite (line_volume_reads _ (rs_volume (el_ring l))) by done.
  rewrite (line_count_reads _ "max_ring_ms" (rs_max_ring_ms (el_ring l))) by done. rewrite Hz.
  rewrite (line_uuid_reads _ "id" (el_id l)), (line_uuid_reads _ "op" (el_op l)) by done.
  rewrite (line_count_reads _ "loop_gap_ms" (rs_loop_gap_ms (el_ring l))), (line_count_reads _ "ramp_ms" (rs_ramp_ms (el_ring l))),
    (line_count_reads _ "snooze_ms" (rs_snooze_ms (el_ring l))) by done.
  destruct l as [? ? ? ? []]. reflexivity.
Qed.

(** What a caller wrote is what is read, whatever text stands before the line. *)
Definition uuids_are_text : Prop := forall u, valid_utf8 (uuid_to_string u) = true.
Definition with_volume (volume : option F64) (r : AlertRingSettings) : AlertRingSettings :=
  mkAlertRingSettings (rs_loop_gap_ms r) (rs_max_ring_ms r) (rs_ramp_ms r) (rs_snooze_ms r) (rs_sound r) volume.
Definition reread (volume : option F64) (l : EchomuseLine) : EchomuseLine :=
  mkEchomuseLine (el_id l) (el_kind l) (el_op l) (el_parent l) (with_volume volume (el_ring l)).
(** [serde_json] reads the written object back, its strings and integers exactly and
    its one fractional number, the volume, as the double [volume]: without the crate's
    [float_roundtrip] feature that need not be the double written. *)
Definition line_parses_as (l : EchomuseLine) (volume : option F64) : Prop :=
  (rs_volume (el_ring l) = None -> volume = None) /\
  forall text, canonical_json (line_value l) = Ok text -> from_str text = Ok (line_value (reread volume l)).
Lemma reread_ok l volume : line_ok l = true -> volume_ok volume = true -> line_ok (reread volume l) = true.
Proof.
  unfold line_ok, ring_ok. cbn [reread with_volume el_id el_op el_kind el_parent el_ring rs_loop_gap_ms rs_max_ring_ms rs_ramp_ms
    rs_snooze_ms rs_sound rs_volume]. rewrite !andb_true_iff. intros H ->. tauto.
Qed.

Lemma line_value_text l : line_ok l = true -> uuids_are_text ->
  exists mid, forallb printable mid = true /\ canonical_json (line_value l) = Ok (utf8 (123 :: mid ++ [125])).
Proof.
  unfold line_ok, ring_ok. intros [[[_ [[_ Hso]%andb_true_iff Hv]%andb_true_iff]%andb_true_iff _]%andb_true_iff Hp]%andb_true_iff Hu.
  destruct (canonical_defined (line_value l)) as [text E].
  { unfold line_value. cbn [finite_numbers forallb number]. destruct (el_parent l) as [p|], (rs_volume (el_ring l)) as [gain|];
      try reflexivity; cbn [finite_numbers forallb andb]; by rewrite (volume_finite gain). }
  destruct (canonical_object_braced (line_entries l) text) as (mid & Hm & ->); [|done|by exists mid].
  unfold line_entries, line_value. cbn [valid_strings forallb number]. rewrite !Hu.
  replace (valid_utf8 (as_str (el_kind l))) with true by (by destruct (el_kind l)).
  replace (valid_utf8 (sound_text (rs_sound (el_ring l)))) with true.
  2:{ destruct (rs_sound (el_ring l)) as [|sha]; [done|]. cbn [sound_text sound_ok] in *. apply bool_decide_eq_true in Hso.
      symmetry. by apply sha_text_valid. }
  destruct (el_parent l) as [p|], (rs_volume (el_ring l)); cbn [valid_strings forallb]; try reflexivity;
    unfold parent_ok in Hp; apply andb_true_iff in Hp as [_ ->]; rewrite Hu; reflexivity.
Qed.

Lemma substring_whole s : String.substring 0 (String.length s) s = s.
Proof. induction s as [|a s IH]; [done|]. cbn [String.length String.substring]. by rewrite IH. Qed.
Lemma strip_prefix_append (prefix rest : string) : strip_prefix prefix (prefix +:+ rest) = Some rest.
Proof.
  unfold strip_prefix, rest_chars.
  assert (String.prefix prefix (prefix +:+ rest) = true) as ->.
  { induction prefix as [|a prefix IH]; [by destruct rest|]. rewrite append_cons. cbn [String.prefix].
    by destruct (Ascii.ascii_dec a a). }
  f_equal. induction prefix as [|a prefix IH].
  - rewrite append_nil_l. change (String.length "") with 0%nat. rewrite Nat.sub_0_r. by apply substring_whole.
  - rewrite append_cons. cbn [String.length Nat.sub]. destruct (String.length prefix) eqn:E; cbn [String.substring]; exact IH.
Qed.

(** The characters of [LINE_PREFIX] before its space. *)
Definition PREFIX_CHARS : Text := [101; 99; 104; 111; 109; 117; 115; 101; 58].
Lemma line_is_last l human : line_ok l = true -> uuids_are_text ->
  exists mid text before,
    forallb printable mid = true /\ canonical_json (line_value l) = Ok (utf8 (123 :: mid ++ [125])) /\
    line_description l human = Some text /\
    str_lines text = before ++ [utf8 (101 :: (tail PREFIX_CHARS ++ SPACE :: 123 :: mid) ++ [125])].
Proof.
  intros Hl Hu. destruct (line_value_text l Hl Hu) as (mid & Hm & E).
  set (t := 101 :: (tail PREFIX_CHARS ++ SPACE :: 123 :: mid) ++ [125]).
  assert (Ht : to_line l = Some (utf8 t)).
  { unfold to_line. rewrite E. reflexivity. }
  assert (Hp : forallb printable t = true).
  { unfold t. cbn [forallb tail PREFIX_CHARS app]. by rewrite forallb_app, Hm. }
  destruct (last_line_found "" t Hp) as [H1 _]; [done|]. exists mid. unfold line_description. rewrite Ht.
  destruct human as [text|]; [destruct (String.eqb (str_trim_end text) "")|].
  - exists (utf8 t), []. by rewrite H1.
  - destruct (last_line_found (str_trim_end text) t Hp) as [_ [before H2]]; [done|]. 
    exists (str_trim_end text +:+ String NEWLINE (utf8 t)), before. cbn [fmap option_fmap option_map]. by rewrite H2.
  - exists (utf8 t), []. by rewrite H1.
Qed.

(** The line is canonical JSON on one line, so it is the last line of the text that is
    not blank, and trimming takes nothing from it. *)
Lemma line_parsed l volume human : line_ok l = true -> uuids_are_text -> line_parses_as l volume -> volume_ok volume = true ->
  exists text, line_description l human = Some text /\ line_parse (Some text) = Lo_Valid (reread volume l).
Proof.
  intros Hl Hu [_ Hs] Hv. destruct (line_is_last l human Hl Hu) as (mid & text & before & Hm & E & Ed & Hlines).
  exists text. split; [done|]. unfold line_parse. cbn [mbind option_bind]. rewrite Hlines, rev_unit. unfold find_first. cbn [List.find].
  assert (Hsc : forallb scalar (101 :: (tail PREFIX_CHARS ++ SPACE :: 123 :: mid) ++ [125]) = true).
  { cbn [forallb tail PREFIX_CHARS app]. rewrite forallb_app, printable_scalar by done. reflexivity. }
  destruct (str_trim_graphic _ 101 125 Hsc) as [Ht _]; [done..|]. rewrite Ht.
  replace (String.eqb _ "") with false by (symmetry; by apply String.eqb_neq). cbn [negb]. rewrite Ht.
  replace (strip_prefix "echomuse:" _) with (Some (utf8 (SPACE :: 123 :: mid ++ [125]))).
  2:{ symmetry. change (101 :: (tail PREFIX_CHARS ++ SPACE :: 123 :: mid) ++ [125]) with (PREFIX_CHARS ++ SPACE :: 123 :: mid ++ [125]).
      rewrite utf8_app. apply strip_prefix_append. }
  destruct (str_trim_graphic mid 123 125) as [_ ->]; [|done..|].
  { cbn [forallb]. rewrite forallb_app, printable_scalar by done. reflexivity. }
  rewrite (Hs _ E). change (line_value (reread volume l)) with (VObject (line_entries (reread volume l))). cbv beta iota.
  by rewrite read_line_value by (by apply reread_ok).
Qed.
End reads_back.

(** ** The calendar *)
(** A label the device accepts. *)
Definition device_label (summary : string) : string := utf8 (take MAX_LABEL_CHARS (chars summary)).

Inductive CalendarTime := Ct_DateTime (text : string) | Ct_Date (text : string).
Record CalendarItem := mkCalendarItem {
  ci_summary : string;
  ci_start : CalendarTime;
  ci_end : CalendarTime;
  ci_description : option string;
  ci_uid : option string;
  ci_recurrence_id : option string;
  ci_rrule : option string;
}.
Inductive EventOrigin := Eo_EchoMuse (op : Uuid) | Eo_Ui | Eo_MalformedLine (why : string).
Record Occurrence := mkOccurrence {
  occ_occurrence_id : Uuid;
  occ_schedule_id : Uuid;
  occ_key : string;
  occ_kind : OccurrenceKind;
  occ_summary : string;
  occ_due_utc_ms : Z;
  occ_due_local : string;
  occ_ring : AlertRingSettings;
  occ_uid : string;
  occ_recurrence_id : option string;
  occ_rrule : option string;
  occ_parent : option ParentRef;
  occ_origin : EventOrigin;
}.
Definition occurrence_object (o : Occurrence) (revision : N) : OccurrenceObject :=
  let ring := occ_ring o in
  mkOccurrenceObject (occ_due_local o) (Z.to_N (Z.max (occ_due_utc_ms o) 0)) (occ_kind o) (device_label (occ_summary o))
    (rs_loop_gap_ms ring) (rs_max_ring_ms ring) (occ_occurrence_id o) (rs_ramp_ms ring) revision (occ_schedule_id o)
    (rs_snooze_ms ring) (rs_sound ring) (rs_volume ring).
Definition creating_op (o : Occurrence) : option Uuid :=
  match occ_origin o with Eo_EchoMuse op => Some op | _ => None end.
Inductive Skipped := Sk_AllDay (summary : string) | Sk_NoUid (summary : string) | Sk_UnreadableStart (start : string).
Record Occurrences := mkOccurrences { os_items : list Occurrence; os_skipped : list Skipped }.

Section calendar.
Context `{UuidCrate, DebugText, Unicode, SerdeJson, J : Jiff}.

(** What the loop makes of one item. *)
Definition read_item (calendar_entity : string) (zone : HaTimeZone) (alarm_sound : AlertSound) (item : CalendarItem) :
    result Skipped Occurrence :=
  match ci_start item with
  | Ct_Date _ => Err (Sk_AllDay (ci_summary item))
  | Ct_DateTime start =>
      match ci_uid item with
      | None => Err (Sk_NoUid (ci_summary item))
      | Some uid =>
          match parse_instant start with
          | None => Err (Sk_UnreadableStart start)
          | Some instant =>
              let due_local := zone_local_text zone instant in
              let '(schedule_id, kind, ring, parent, origin) :=
                match line_parse (ci_description item) with
                | Lo_Valid line => (el_id line, el_kind line, el_ring line, el_parent line, Eo_EchoMuse (el_op line))
                | other =>
                    (ui_schedule_id calendar_entity uid, Ok_Alarm, ring_defaults alarm_sound, None,
                     match other with Lo_Malformed why => Eo_MalformedLine why | _ => Eo_Ui end)
                end in
              let key := default due_local (ci_recurrence_id item) in
              Ok (mkOccurrence (occurrence_id_of schedule_id key) schedule_id key kind
                    (if String.eqb (ci_summary item) "" then LABEL else ci_summary item)
                    (timestamp_as_ms instant) due_local ring uid (ci_recurrence_id item) (ci_rrule item) parent origin)
          end
      end
  end.
(** The order of [sort_by_key] over [(due_utc_ms, occurrence_id)]. *)
Definition due_leb (a b : Occurrence) : bool :=
  (occ_due_utc_ms a <? occ_due_utc_ms b)%Z ||
  ((occ_due_utc_ms a =? occ_due_utc_ms b)%Z && (occ_occurrence_id a <=? occ_occurrence_id b)).
Definition push_item (calendar_entity : string) (zone : HaTimeZone) (alarm_sound : AlertSound) (read : Occurrences) (item : CalendarItem) : Occurrences :=
  match read_item calendar_entity zone alarm_sound item with
  | Ok o => mkOccurrences (os_items read ++ [o]) (os_skipped read)
  | Err why => mkOccurrences (os_items read) (os_skipped read ++ [why])
  end.
Definition occurrences (items : list CalendarItem) (calendar_entity : string) (zone : HaTimeZone) (alarm_sound : AlertSound) : Occurrences :=
  let read := foldl (push_item calendar_entity zone alarm_sound) (mkOccurrences [] []) items in
  mkOccurrences (sort_by due_leb (os_items read)) (os_skipped read).
End calendar.

Record CalendarView := mkCalendarView {
  cv_generation : N;
  cv_push : N;
  cv_window_start_ms : Z;
  cv_window_end_ms : Z;
  cv_occurrences : Occurrences;
}.
Definition view_occurrence (v : CalendarView) (id : Uuid) : option Occurrence :=
  find_first (fun o => occ_occurrence_id o =? id) (os_items (cv_occurrences v)).
Definition view_find (v : CalendarView) (schedule_id : Uuid) (key : string) : option Occurrence :=
  find_first (fun o => (occ_schedule_id o =? schedule_id) && String.eqb (occ_key o) key) (os_items (cv_occurrences v)).
Definition schedule_uid (v : CalendarView) (schedule_id : Uuid) : option string :=
  occ_uid <$> find_first (fun o => occ_schedule_id o =? schedule_id) (os_items (cv_occurrences v)).
Definition created_by (v : CalendarView) (op : Uuid) : option Occurrence :=
  find_first (fun o => bool_decide (creating_op o = Some op)) (os_items (cv_occurrences v)).

(** ** What a calendar read gives *)
Lemma due_leb_total a b : due_leb a b = true \/ due_leb b a = true.
Proof. unfold due_leb. rewrite !orb_true_iff, !andb_true_iff, !Z.ltb_lt, !Z.eqb_eq, !N.leb_le. lia. Qed.
Lemma due_leb_trans a b c : due_leb a b = true -> due_leb b c = true -> due_leb a c = true.
Proof. unfold due_leb. rewrite !orb_true_iff, !andb_true_iff, !Z.ltb_lt, !Z.eqb_eq, !N.leb_le. lia. Qed.

Section calendar_laws.
Context `{C : UuidCrate, D : DebugText, U : Unicode, S : SerdeJson, J : Jiff}.

Definition read_ok (r : result Skipped Occurrence) : option Occurrence := match r with Ok o => Some o | Err _ => None end.
Definition read_skipped (r : result Skipped Occurrence) : option Skipped := match r with Ok _ => None | Err why => Some why end.
Lemma push_items items entity zone sound read :
  foldl (push_item entity zone sound) read items =
    mkOccurrences (os_items read ++ omap (fun item => read_ok (read_item entity zone sound item)) items)
                  (os_skipped read ++ omap (fun item => read_skipped (read_item entity zone sound item)) items).
Proof.
  revert read. induction items as [|item items IH]; intros [oks skipped]; cbn [foldl omap list_omap os_items os_skipped].
  { by rewrite !app_nil_r. }
  rewrite IH. unfold push_item. destruct (read_item entity zone sound item); cbn [read_ok read_skipped os_items os_skipped];
    by rewrite <- ?app_assoc.
Qed.
Lemma occurrences_items items entity zone sound :
  os_items (occurrences items entity zone sound) ≡ₚ omap (fun item => read_ok (read_item entity zone sound item)) items.
Proof. unfold occurrences. rewrite push_items. cbn [os_items app]. apply sort_by_perm. Qed.

(** The label of every occurrence fits: no snapshot fails for a label. *)
Lemma labels_fit o revision : (label_chars (occurrence_object o revision) <= MAX_LABEL_CHARS)%nat.
Proof.
  unfold label_chars, occurrence_object, device_label. cbn [oo_label].
  rewrite chars_utf8; [apply firstn_le_length|]. pose proof (chars_scalar (occ_summary o)) as Hs.
  rewrite forallb_forall in Hs |- *. intros c Hc. apply Hs. rewrite <- (take_drop MAX_LABEL_CHARS (chars (occ_summary o))). apply in_or_app. by left.
Qed.

(** A reading of a calendar takes every item once: an occurrence in the order of
    due time and id, or a skip in the order of the calendar with its reason.  An all-day
    item, an item without a uid and an unreadable start are skipped; every other is an
    occurrence whose id is the UUID of its schedule and key, the key the instance id or
    else its local start; without a valid line it is an alarm of the schedule derived
    from its calendar and uid that rings with the defaults. *)
Theorem calendar_contract items entity zone sound :
  let read := occurrences items entity zone sound in
  StronglySorted (fun a b => due_leb a b = true) (os_items read) /\
  (forall o, o ∈ os_items read <-> exists item, item ∈ items /\ read_item entity zone sound item = Ok o) /\
  (length (os_items read) + length (os_skipped read) = length items)%nat /\
  os_skipped read = omap (fun item => read_skipped (read_item entity zone sound item)) items /\
  (forall item, match read_item entity zone sound item with
     | Err (Sk_AllDay summary) => summary = ci_summary item /\ exists day, ci_start item = Ct_Date day
     | Err (Sk_NoUid summary) => summary = ci_summary item /\ ci_uid item = None
     | Err (Sk_UnreadableStart start) => ci_start item = Ct_DateTime start /\ parse_instant start = None
     | Ok o =>
         exists start instant, ci_start item = Ct_DateTime start /\ parse_instant start = Some instant /\
           ci_uid item = Some (occ_uid o) /\ occ_due_local o = zone_local_text zone instant /\
           occ_due_utc_ms o = timestamp_as_ms instant /\
           occ_key o = default (occ_due_local o) (ci_recurrence_id item) /\
           occ_occurrence_id o = occurrence_id_of (occ_schedule_id o) (occ_key o) /\ occ_summary o <> "" /\
           match line_parse (ci_description item) with
           | Lo_Valid line =>
               occ_schedule_id o = el_id line /\ occ_kind o = el_kind line /\ occ_ring o = el_ring line /\
               occ_parent o = el_parent line /\ creating_op o = Some (el_op line)
           | _ =>
               occ_schedule_id o = ui_schedule_id entity (occ_uid o) /\ occ_kind o = Ok_Alarm /\
               occ_ring o = ring_defaults sound /\ occ_parent o = None /\ creating_op o = None
           end
     end).
Proof.
  cbv zeta. split_and!.
  - apply sort_by_sorted; intros; [apply due_leb_total|by eapply due_leb_trans].
  - intros o. rewrite occurrences_items, list_elem_of_omap. unfold read_ok.
    split; intros (item & Hi & E); exists item; (split; [done|]); [|by rewrite E].
    by destruct (read_item entity zone sound item); [injection E as ->|].
  - rewrite occurrences_items. unfold occurrences. rewrite push_items. cbn [os_skipped app].
    induction items as [|item items IH]; [done|]. cbn [omap list_omap]. destruct (read_item entity zone sound item); cbn [read_ok read_skipped length]; lia.
  - unfold occurrences. by rewrite push_items.
  - intros item. unfold read_item. destruct (ci_start item) as [start|day]; [|eauto].
    destruct (ci_uid item) as [uid|] eqn:Eu; [|done]. destruct (parse_instant start) as [instant|] eqn:Ei; [|done].
    assert (Hs : (if String.eqb (ci_summary item) "" then LABEL else ci_summary item) <> "").
    { by destruct (String.eqb_spec (ci_summary item) ""). }
    destruct (line_parse (ci_description item)) as [|line|why]; exists start, instant; unfold creating_op;
      cbn [occ_uid occ_due_local occ_due_utc_ms occ_key occ_occurrence_id occ_schedule_id occ_summary occ_kind occ_ring occ_parent occ_origin];
      split_and!; done.
Qed.
End calendar_laws.

Section written.
Context {C : UuidCrate} {CL : UuidLaws C} {D : DebugText} {U : Unicode} {UL : UnicodeLaws U} {S : SerdeJson} {J : Jiff}.

(** The first occurrence of an operation in due order is the one its search finds. *)
Lemma created_by_first v op o :
  StronglySorted (fun a b => due_leb a b = true) (os_items (cv_occurrences v)) ->
  o ∈ os_items (cv_occurrences v) -> creating_op o = Some op ->
  exists first, created_by v op = Some first /\ first ∈ os_items (cv_occurrences v) /\ creating_op first = Some op /\
    (first = o \/ due_leb first o = true).
Proof.
  unfold created_by, find_first. intros Hs Ho Hop. induction Hs as [|x l Hl IH Hx]; [by apply elem_of_nil in Ho|].
  cbn [List.find]. case_bool_decide as Hc.
  - exists x. split_and!; [done|by left|done|]. apply elem_of_cons in Ho as [->|Ho]; [by left|right].
    rewrite Forall_forall in Hx. by apply Hx.
  - apply elem_of_cons in Ho as [->|Ho]; [done|]. destruct (IH Ho) as (first & ? & ? & ? & ?). exists first. split_and!; [done|by right|done|done].
Qed.

(** C28: An alarm the service writes on a speaker's calendar is read back from it as the
    occurrence it was: the description written for the line, after whatever human text,
    reads back as the line, so among the occurrences is one of its schedule with its
    kind, its parent, its creating operation and its ring settings, the volume as the
    JSON reader takes its decimal, which is assumed to stay in (0, 1].  The search by
    that operation finds it, or an occurrence of the operation due no later.  The
    object the device gets carries the due time, label and kind of the occurrence and
    every ring setting of the line in its own field. *)
Theorem written_alarm_is_read l volume human text items item entity zone sound start instant uid :
  line_ok l = true -> uuids_are_text -> line_parses_as l volume -> volume_ok volume = true ->
  line_description l human = Some text ->
  item ∈ items -> ci_description item = Some text ->
  ci_start item = Ct_DateTime start -> parse_instant start = Some instant -> ci_uid item = Some uid ->
  exists o, o ∈ os_items (occurrences items entity zone sound) /\
    occ_schedule_id o = el_id l /\ occ_kind o = el_kind l /\ occ_ring o = with_volume volume (el_ring l) /\ occ_parent o = el_parent l /\
    creating_op o = Some (el_op l) /\ occ_due_utc_ms o = timestamp_as_ms instant /\
    occ_occurrence_id o = occurrence_id_of (el_id l) (default (zone_local_text zone instant) (ci_recurrence_id item)) /\
    (forall v, cv_occurrences v = occurrences items entity zone sound ->
       exists first, created_by v (el_op l) = Some first /\ creating_op first = Some (el_op l) /\
         (first = o \/ due_leb first o = true) /\
         ((forall o', o' ∈ os_items (cv_occurrences v) -> creating_op o' = Some (el_op l) -> o' = o) -> first = o)) /\
    forall revision, let object := occurrence_object o revision in
      oo_occurrence_id object = occ_occurrence_id o /\ oo_schedule_id object = el_id l /\ oo_kind object = el_kind l /\
      oo_revision object = revision /\ oo_due_local object = zone_local_text zone instant /\
      Z.of_N (oo_due_utc_ms object) = Z.max (timestamp_as_ms instant) 0 /\
      oo_label object = device_label (if String.eqb (ci_summary item) "" then LABEL else ci_summary item) /\
      oo_loop_gap_ms object = rs_loop_gap_ms (el_ring l) /\ oo_max_ring_ms object = rs_max_ring_ms (el_ring l) /\
      oo_ramp_ms object = rs_ramp_ms (el_ring l) /\ oo_snooze_ms object = rs_snooze_ms (el_ring l) /\
      oo_sound object = rs_sound (el_ring l) /\ oo_volume object = volume /\ object_ok object = true.
Proof.
  intros Hl Hu Hs Hvol Hd Hi Ht Hstart Hp Huid. destruct (line_parsed l volume human Hl Hu Hs Hvol) as (text' & Hd' & Hparse).
  rewrite Hd in Hd'. injection Hd' as <-. rewrite <- Ht in Hparse.
  destruct (read_item entity zone sound item) as [o|] eqn:E; unfold read_item in E; rewrite Hstart, Huid, Hp, Hparse in E; [|done].
  injection E as Eo. exists o.
  assert (Hin : o ∈ os_items (occurrences items entity zone sound)).
  { rewrite occurrences_items, list_elem_of_omap. exists item. split; [done|].
    unfold read_item. rewrite Hstart, Huid, Hp, Hparse. cbn [read_ok]. by rewrite <- Eo. }
  split; [exact Hin|]. assert (Hop : creating_op o = Some (el_op l)) by by rewrite <- Eo. split_and!; [by rewrite <- Eo..| |].
  - intros v Hv. rewrite <- Hv in Hin. destruct (created_by_first v (el_op l) o) as (first & Hf & Hfi & Hfo & Hle); [|done|done|].
    + rewrite Hv. apply sort_by_sorted; intros; [apply due_leb_total|by eapply due_leb_trans].
    + exists first. split_and!; [done|done|done|]. intros Hone. by apply Hone.
  - intros revision. subst o. cbn zeta. split_and!; try done.
    + cbn [occurrence_object oo_due_utc_ms occ_due_utc_ms]. lia.
    + unfold object_ok. apply andb_true_iff. split; [apply Nat.leb_le, labels_fit|]. exact Hvol.
Qed.
End written.

(** ** A sample *)
Lemma pretty_go_value x s : all_digits (pretty_N_go x s) = all_digits s /\ decimal_value 0 (pretty_N_go x s) = decimal_value x s.
Proof.
  split; [apply pretty_N_go_reads|]. revert s. induction x as [x IH] using (well_founded_induction N.lt_wf_0); intros s.
  destruct (decide (x = 0)) as [->|Hx]; [by rewrite pretty_N_go_0|].
  rewrite pretty_N_go_step by lia. rewrite IH by (apply N.div_lt; lia). cbn [decimal_value].
  rewrite pretty_N_char_value by (apply N.mod_lt; lia). f_equal. div_lia.
Qed.
Lemma sample_crate_laws : UuidLaws sample_crate.
Proof.
  split. intros u _. cbn. unfold pretty, pretty_N. destruct (decide (u = 0)) as [->|]; [done|].
  destruct (pretty_go_value u "") as [-> ->]. done.
Qed.
Definition sample_line : EchomuseLine :=
  mkEchomuseLine 16 Ok_Snooze 32 (Some (mkParentRef 48 "20260923T063000"))
    (mkAlertRingSettings LOOP_GAP_MS MAX_RING_MS RAMP_MS SNOOZE_MS As_Fallback (Some (f64_ratio 1 2))).
Definition sample_crate_line : Value := @line_value sample_crate sample_line.
(** A parser of that line alone. *)
Definition line_serde : SerdeJson := {|
  from_str text :=
    match canonical_json sample_crate_line with Ok t => if String.eqb text t then Ok sample_crate_line else Err "" | Err _ => Err "" end;
  to_string := fun _ => Err "";
  value_to_string := fun _ => "";
|}.
Definition calendar_jiff : Jiff := {|
  TimeZone := Z; Date := Z;
  tz_get _ := Some 0%Z; tz_fixed := Some; tz_date _ ts := ts; tz_resolve _ d _ _ _ := Some d;
  tz_text _ ts := pretty ts; date_weekday _ := 0; date_tomorrow _ := None;
  timestamp_parse text := Z.of_N <$> parse_u64_decimal text;
  timestamp_from_ms ms := Some (ms * 1000000)%Z; timestamp_as_ms ts := (ts / 1000000)%Z;
  timestamp_add_ms ts ms := Some (ts + ms * 1000000)%Z;
|}.
Definition debug_plain : DebugText := fun text => text.
Definition sample_description : string :=
  default "" (@line_description sample_crate ascii sample_line (Some ("Bins go out" +:+ String NEWLINE ""))).
Definition sample_item : CalendarItem :=
  mkCalendarItem "Wake up" (Ct_DateTime "5000000000") (Ct_DateTime "5000000000") (Some sample_description) (Some "child") None None.
Definition sample_items : list CalendarItem :=
  [mkCalendarItem "Holiday" (Ct_Date "2026-09-24") (Ct_Date "2026-09-25") None (Some "allday") None None; sample_item].
Definition sample_occurrences : Occurrences :=
  @occurrences sample_crate debug_plain ascii line_serde calendar_jiff sample_items "calendar.echomuse_office"
    (@mkHaTimeZone calendar_jiff "UTC" 0%Z) As_Fallback.
Example sample_read :
  os_skipped sample_occurrences = [Sk_AllDay "Holiday"] /\
  (occ_key <$> os_items sample_occurrences) = ["5000000000"] /\ (creating_op <$> os_items sample_occurrences) = [Some 32] /\
  @line_parse sample_crate debug_plain ascii line_serde (Some "Dentist") = Lo_Absent.
Proof. split_and!; vm_compute; reflexivity. Qed.
Lemma pretty_valid (u : N) : valid_utf8 (pretty u) = true.
Proof.
  apply ascii_valid. pose proof (visible_pretty u) as H. revert H. generalize (pretty u : string). intros s.
  induction s as [|a s IH]; [done|]. cbn [string_all]. intros [Ha Hs]%andb_true_iff.
  unfold visible in Ha. apply andb_true_iff in Ha as [_ ->]. by rewrite IH.
Qed.
Lemma written_alarm_is_read_witness :
  exists o, o ∈ os_items sample_occurrences /\ occ_schedule_id o = 16 /\ rs_volume (occ_ring o) = Some (f64_ratio 1 2).
Proof.
  destruct (@written_alarm_is_read sample_crate sample_crate_laws debug_plain ascii ascii_unicode_laws line_serde calendar_jiff
    sample_line (Some (f64_ratio 1 2)) (Some ("Bins go out" +:+ String NEWLINE "")) sample_description sample_items sample_item "calendar.echomuse_office"
    (@mkHaTimeZone calendar_jiff "UTC" 0%Z) As_Fallback "5000000000" 5000000000%Z "child") as (o & Ho & Hs & _ & Hr & _).
  - vm_compute. reflexivity.
  - intros u. apply pretty_valid.
  - split; [discriminate|]. intros text E. cbn [from_str line_serde]. unfold sample_crate_line. rewrite E. by rewrite String.eqb_refl.
  - vm_compute. reflexivity.
  - vm_compute. reflexivity.
  - unfold sample_items. right. left.
  - reflexivity.
  - reflexivity.
  - vm_compute. reflexivity.
  - reflexivity.
  - exists o. split; [exact Ho|]. split; [exact Hs|]. rewrite Hr. reflexivity.
Defined.
