(* ===== verification/Link.v ===== *)
(** * A live session: its end, its queues and its commands
      ([link/src/session.rs], [commands.rs], the writer of [control.rs])

    A session's tasks share the core; each call below runs without waiting, so a
    history of the session is a sequence of calls by the runtime, the control task
    and the control writer in any order.  [request] is two calls, since the writer
    and the control task run between the registration of a waiter and the frame it
    waits for.  What a message's encoding gives is an argument. *)
From stdpp Require Import strings gmap.
From S2P Require Import Prelude Bytes WireEnum Float Ema Vocab Streams Clock Blocks Buffer Timeline Delivery Cursor Uplink UplinkInv UplinkReach Json Policy Session StreamBodies Envelope Arbiter.

(** ** Why a session ended *)
Inductive Transport := Tp_Plain | Tp_Tls.
#[export] Instance Transport_eq_dec : EqDecision Transport. Proof. solve_decision. Defined.
Inductive SocketKind := Sk_Control | Sk_Audio.
Inductive QueueKind := Qk_Ingress | Qk_Urgent | Qk_ControlEgress | Qk_AckRegistrations.
Inductive CloseReason :=
  | Lc_SocketClosed (socket : SocketKind) (detail : string)
  | Lc_AudioNotJoined
  | Lc_HeartbeatLost
  | Lc_ProtocolViolation (error : ProtocolError)
  | Lc_DeviceProtocolError (report : ProtocolErrorReport)
  | Lc_Replaced
  | Lc_Overloaded (queue : QueueKind) (detail : string)
  | Lc_ClosedByController
  | Lc_Declined (detail : string)
  | Lc_Shutdown
  | Lc_TaskPanicked (task : string).

(** ** The core *)
(** [sc_cancelled] is the set of cancelled scope tokens, shared by the process. *)
Record SessionCore := mkSessionCore {
  sc_device : string;
  sc_session_id : string;
  sc_transport : Transport;
  sc_stop : bool;
  sc_end : option CloseReason;
  sc_capture : option WorkScope;
  sc_cancelled : gset nat;
}.
Definition core_new (device session_id : string) (transport : Transport) (cancelled : gset nat) : SessionCore :=
  mkSessionCore device session_id transport false None None cancelled.
Definition set_end_reason (reason : CloseReason) (c : SessionCore) : SessionCore :=
  mkSessionCore (sc_device c) (sc_session_id c) (sc_transport c) (sc_stop c)
    (Some (default reason (sc_end c))) (sc_capture c) (sc_cancelled c).
Definition cancel_stop (c : SessionCore) : SessionCore :=
  mkSessionCore (sc_device c) (sc_session_id c) (sc_transport c) true (sc_end c) (sc_capture c) (sc_cancelled c).
Definition revoke_capture (c : SessionCore) : SessionCore :=
  match sc_capture c with
  | Some scope =>
      mkSessionCore (sc_device c) (sc_session_id c) (sc_transport c) (sc_stop c) (sc_end c) (sc_capture c)
        ({[ ws_token scope ]} ∪ sc_cancelled c)
  | None => c
  end.
Definition core_end (reason : CloseReason) (c : SessionCore) : SessionCore :=
  revoke_capture (cancel_stop (set_end_reason reason c)).
Definition core_reason (c : SessionCore) : option CloseReason :=
  match sc_end c with
  | Some reason => Some reason
  | None => if sc_stop c then Some Lc_Shutdown else None
  end.
Definition ended_reason (c : SessionCore) : CloseReason := default Lc_Shutdown (core_reason c).
Definition set_capture (scope : WorkScope) (c : SessionCore) : SessionCore :=
  mkSessionCore (sc_device c) (sc_session_id c) (sc_transport c) (sc_stop c) (sc_end c) (Some scope) (sc_cancelled c).
Definition publish_capture (scope : WorkScope) (c : SessionCore) : SessionCore :=
  let c := set_capture scope c in if sc_stop c then revoke_capture c else c.

(** ** A bounded queue: [mpsc::channel] and a [Semaphore] of bytes *)
Record Queue (A : Type) := mkQueue {
  qu_capacity : nat;
  qu_items : list (A * N);
  qu_credit : N;
  qu_closed : bool;
}.
Arguments mkQueue {A}.
Arguments qu_capacity {A}.
Arguments qu_items {A}.
Arguments qu_credit {A}.
Arguments qu_closed {A}.
Inductive PushError := Pu_Full | Pu_NoCredit | Pu_Closed.
Section queue.
Context {A : Type}.
Definition queue_new (messages : nat) (bytes : N) : Queue A := mkQueue messages [] bytes false.
(** [try_reserve], [try_acquire_many_owned] and [send]. *)
Definition queue_push (item : A) (bytes : N) (q : Queue A) : result PushError (Queue A) :=
  if qu_closed q then Err Pu_Closed
  else if (qu_capacity q <=? length (qu_items q))%nat then Err Pu_Full
  else
    let permits := N.min bytes u32_max in
    if qu_credit q <? permits then Err Pu_NoCredit
    else Ok (mkQueue (qu_capacity q) (qu_items q ++ [(item, permits)]) (qu_credit q - permits) false).
(** [recv] and [try_recv]; the item keeps its credit until it is dropped. *)
Definition queue_take (q : Queue A) : option (A * N * Queue A) :=
  match qu_items q with
  | (item, permits) :: items => Some (item, permits, mkQueue (qu_capacity q) items (qu_credit q) (qu_closed q))
  | [] => None
  end.
Definition queue_release (permits : N) (q : Queue A) : Queue A :=
  mkQueue (qu_capacity q) (qu_items q) (qu_credit q + permits) (qu_closed q).
(** [Receiver::close]: what is queued can still be taken. *)
Definition queue_close (q : Queue A) : Queue A := mkQueue (qu_capacity q) (qu_items q) (qu_credit q) true.
Definition queue_emptied (q : Queue A) : Queue A := mkQueue (qu_capacity q) [] (qu_credit q) (qu_closed q).
End queue.

(** ** Commands *)
Inductive CommandFailure :=
  | Cf_Timeout (written : bool)
  | Cf_SessionEnded (reason : CloseReason) (written : bool).
Inductive CommandProgress :=
  | Pg_Enqueued
  | Pg_Written
  | Pg_Acknowledged (ack : CommandAck)
  | Pg_Failed (failure : CommandFailure).
Definition is_terminal (p : CommandProgress) : bool :=
  match p with Pg_Acknowledged _ | Pg_Failed _ => true | _ => false end.

(** The [watch] channel the waiter and the [PendingAck] share; its place in the list of
    them is its identity. *)
Record PendingAck := mkPendingAck { pa_message_id : string; pa_progress : CommandProgress }.
Definition with_progress (f : CommandProgress -> CommandProgress) (p : PendingAck) : PendingAck :=
  mkPendingAck (pa_message_id p) (f (pa_progress p)).
Abbreviation Watches := (list PendingAck).
Definition is_written (p : CommandProgress) : bool := match p with Pg_Written => true | _ => false end.
Definition to_written (p : CommandProgress) : CommandProgress := match p with Pg_Enqueued => Pg_Written | p => p end.
Definition to_acknowledged (ack : CommandAck) (p : CommandProgress) : CommandProgress :=
  if is_terminal p then p else Pg_Acknowledged ack.
Definition to_failed (failure : bool -> CommandFailure) (p : CommandProgress) : CommandProgress :=
  if is_terminal p then p else Pg_Failed (failure (is_written p)).
Definition modify (i : nat) (f : CommandProgress -> CommandProgress) (w : Watches) : Watches := alter (with_progress f) i w.
Definition mark_written (i : nat) : Watches -> Watches := modify i to_written.
Definition fail (i : nat) (failure : bool -> CommandFailure) : Watches -> Watches := modify i (to_failed failure).

Record Registration := mkRegistration { rg_message_id : string; rg_progress : nat; rg_deadline : N }.
Record Waiter := mkWaiter { wt_progress : nat; wt_key : nat }.
(** A key of the [DelayQueue] is new whenever one is inserted. *)
Record AckTable := mkAckTable {
  at_waiters : gmap string Waiter;
  at_deadlines : gmap nat (string * N);
  at_next_key : nat;
}.
Definition table_new : AckTable := mkAckTable ∅ ∅ 0.
Definition table_is_empty (t : AckTable) : bool := bool_decide (at_waiters t = ∅).
Definition table_insert (t : AckTable) (r : Registration) : AckTable :=
  let key := at_next_key t in
  let deadlines := <[ key := (rg_message_id r, rg_deadline r) ]> (at_deadlines t) in
  mkAckTable (<[ rg_message_id r := mkWaiter (rg_progress r) key ]> (at_waiters t))
    (match at_waiters t !! rg_message_id r with Some old => delete (wt_key old) deadlines | None => deadlines end)
    (S key).
(** [while let Ok(registration) = pending.try_recv()]. *)
Definition take_pending (pending : Queue Registration) (t : AckTable) : AckTable * Queue Registration :=
  (foldl table_insert t (fst <$> qu_items pending), queue_emptied pending).
Definition table_resolve (ack : CommandAck) (pending : Queue Registration) (t : AckTable) (w : Watches) :
    AckTable * Queue Registration * Watches :=
  let '(t, pending) :=
    match at_waiters t !! ca_message_id ack with Some _ => (t, pending) | None => take_pending pending t end in
  match at_waiters t !! ca_message_id ack with
  | None => (t, pending, w)
  | Some waiter =>
      (mkAckTable (delete (ca_message_id ack) (at_waiters t)) (delete (wt_key waiter) (at_deadlines t)) (at_next_key t), pending,
       modify (wt_progress waiter) (to_acknowledged ack) w)
  end.
(** [expire_next], when the deadline under [key] has passed. *)
Definition table_expire (key : nat) (now : N) (t : AckTable) (w : Watches) : option (AckTable * Watches) :=
  '(message_id, deadline) ← at_deadlines t !! key;
  if deadline <=? now then
    let deadlines := delete key (at_deadlines t) in
    Some (match at_waiters t !! message_id with
          | Some waiter => (mkAckTable (delete message_id (at_waiters t)) deadlines (at_next_key t), fail (wt_progress waiter) Cf_Timeout w)
          | None => (mkAckTable (at_waiters t) deadlines (at_next_key t), w)
          end)
  else None.
Definition fail_waiter (reason : CloseReason) (w : Watches) (waiter : string * Waiter) : Watches :=
  fail (wt_progress (snd waiter)) (Cf_SessionEnded reason) w.
Definition table_fail_all (reason : CloseReason) (pending : Queue Registration) (t : AckTable) (w : Watches) :
    AckTable * Queue Registration * Watches :=
  let '(t, pending) := take_pending (queue_close pending) t in
  (mkAckTable ∅ ∅ (at_next_key t), pending, foldl (fail_waiter reason) w (map_to_list (at_waiters t))).

(** ** Sending *)
Inductive SendError := Se_SessionEnded (reason : CloseReason) | Se_Overloaded | Se_Encode (error : EncodeError).
Record ControlOut := mkControlOut { co_text : string; co_progress : option nat }.
Definition overload (detail : string) (c : SessionCore) : SessionCore := core_end (Lc_Overloaded Qk_ControlEgress detail) c.
(** [ControlEgress::push]. *)
Definition control_push (text : string) (progress : option nat) (c : SessionCore) (q : Queue ControlOut) :
    SessionCore * Queue ControlOut * result SendError unit :=
  match core_reason c with
  | Some reason => (c, q, Err (Se_SessionEnded reason))
  | None =>
      match queue_push (mkControlOut text progress) (text_len text) q with
      | Ok q => (c, q, Ok tt)
      | Err Pu_Full => (overload "every control writer slot is taken" c, q, Err Se_Overloaded)
      | Err Pu_Closed => (c, q, Err (Se_SessionEnded (ended_reason c)))
      | Err Pu_NoCredit => (overload "the control writer byte budget is spent" c, q, Err Se_Overloaded)
      end
  end.

(** ** The calls of a session's tasks *)
(** [cm_calls] are the [request] calls between their two halves; [cm_writing] is the
    frame the writer is sending, with its permits. *)
Record Commands := mkCommands {
  cm_core : SessionCore;
  cm_control : Queue ControlOut;
  cm_registrations : Queue Registration;
  cm_table : AckTable;
  cm_watches : Watches;
  cm_calls : list (nat * string);
  cm_writing : option (ControlOut * N);
  cm_written : list ControlOut;
  cm_task_done : bool;
  cm_writer_done : bool;
}.
Definition commands_new (core : SessionCore) (messages : nat) (bytes : N) : Commands :=
  mkCommands core (queue_new messages bytes) (queue_new messages 0) table_new [] [] None [] false false.
Definition with_core (core : SessionCore) (s : Commands) : Commands :=
  mkCommands core (cm_control s) (cm_registrations s) (cm_table s) (cm_watches s) (cm_calls s) (cm_writing s)
    (cm_written s) (cm_task_done s) (cm_writer_done s).
Definition with_control (core : SessionCore) (control : Queue ControlOut) (s : Commands) : Commands :=
  mkCommands core control (cm_registrations s) (cm_table s) (cm_watches s) (cm_calls s) (cm_writing s)
    (cm_written s) (cm_task_done s) (cm_writer_done s).
Definition with_table (t : AckTable) (pending : Queue Registration) (w : Watches) (s : Commands) : Commands :=
  mkCommands (cm_core s) (cm_control s) pending t w (cm_calls s) (cm_writing s) (cm_written s) (cm_task_done s) (cm_writer_done s).
Definition with_calls (pending : Queue Registration) (w : Watches) (calls : list (nat * string)) (s : Commands) : Commands :=
  mkCommands (cm_core s) (cm_control s) pending (cm_table s) w calls (cm_writing s) (cm_written s) (cm_task_done s) (cm_writer_done s).
Definition with_writer (control : Queue ControlOut) (w : Watches) (writing : option (ControlOut * N)) (written : list ControlOut) (done : bool)
    (s : Commands) : Commands :=
  mkCommands (cm_core s) control (cm_registrations s) (cm_table s) w (cm_calls s) writing written (cm_task_done s) done.

(** [SessionLink::send], its text encoded. *)
Definition link_send (text : string) (s : Commands) : Commands * result SendError unit :=
  let '(core, control, answer) := control_push text None (cm_core s) (cm_control s) in
  (with_control core control s, answer).
(** [SessionLink::request] up to the registration of its waiter. *)
Definition request_register (message_id text : string) (deadline : N) (s : Commands) : Commands * result SendError nat :=
  match core_reason (cm_core s) with
  | Some reason => (s, Err (Se_SessionEnded reason))
  | None =>
      let progress := length (cm_watches s) in
      match queue_push (mkRegistration message_id progress deadline) 0 (cm_registrations s) with
      | Ok pending =>
          (with_calls pending (cm_watches s ++ [mkPendingAck message_id Pg_Enqueued]) (cm_calls s ++ [(progress, text)]) s, Ok progress)
      | Err Pu_Closed => (s, Err (Se_SessionEnded (ended_reason (cm_core s))))
      | Err _ =>
          (with_core (core_end (Lc_Overloaded Qk_AckRegistrations "every acknowledgement registration slot is taken") (cm_core s)) s,
           Err Se_Overloaded)
      end
  end.
(** ... and from there on. *)
Definition request_push (progress : nat) (text : string) (s : Commands) : Commands * result SendError nat :=
  let calls := List.filter (fun c => negb (fst c =? progress)%nat) (cm_calls s) in
  let s := with_calls (cm_registrations s) (cm_watches s) calls s in
  let '(core, control, answer) := control_push text (Some progress) (cm_core s) (cm_control s) in
  (with_control core control s, match answer with Ok _ => Ok progress | Err e => Err e end).

(** The control task. *)
Definition task_registration (s : Commands) : option Commands :=
  '(registration, _, pending) ← queue_take (cm_registrations s);
  Some (with_table (table_insert (cm_table s) registration) pending (cm_watches s) s).
Definition task_ack (ack : CommandAck) (s : Commands) : Commands :=
  let '(t, pending, w) := table_resolve ack (cm_registrations s) (cm_table s) (cm_watches s) in with_table t pending w s.
Definition task_expire (key : nat) (now : N) (s : Commands) : option Commands :=
  '(t, w) ← table_expire key now (cm_table s) (cm_watches s);
  Some (with_table t (cm_registrations s) w s).
(** What [ControlTask::run] does after its loop. *)
Definition task_end (s : Commands) : Commands :=
  let reason := ended_reason (cm_core s) in
  let s := with_core (core_end reason (cm_core s)) s in
  let '(t, pending, w) := table_fail_all reason (cm_registrations s) (cm_table s) (cm_watches s) in
  mkCommands (cm_core s) (cm_control s) pending t w (cm_calls s) (cm_writing s) (cm_written s) true (cm_writer_done s).

(** The control writer: a frame taken, written, not written, and the queue discarded.
    The session may be stopped right after the writer looked, so a frame can still be
    taken then. *)
Definition writer_take (s : Commands) : option Commands :=
  '(out, permits, control) ← queue_take (cm_control s);
  Some (with_writer control (cm_watches s) (Some (out, permits)) (cm_written s) (cm_writer_done s) s).
Definition writer_wrote (s : Commands) : option Commands :=
  '(out, permits) ← cm_writing s;
  let w := match co_progress out with Some i => mark_written i (cm_watches s) | None => cm_watches s end in
  Some (with_writer (queue_release permits (cm_control s)) w None (cm_written s ++ [out]) (cm_writer_done s) s).
Definition writer_failed (detail : string) (s : Commands) : option Commands :=
  '(out, permits) ← cm_writing s;
  let s := with_core (core_end (Lc_SocketClosed Sk_Control detail) (cm_core s)) s in
  Some (with_writer (queue_emptied (queue_close (queue_release permits (cm_control s)))) (cm_watches s) None (cm_written s) true s).
Definition writer_stop (s : Commands) : Commands :=
  with_writer (queue_emptied (queue_close (cm_control s))) (cm_watches s) None (cm_written s) true s.

Inductive CommandEvent :=
  | Ce_Send (text : string)
  | Ce_Register (message_id text : string) (deadline : N)
  | Ce_Push (progress : nat)
  | Ce_TakeRegistration
  | Ce_Ack (ack : CommandAck)
  | Ce_Expire (key : nat) (now : N)
  | Ce_TaskEnd
  | Ce_WriterTake
  | Ce_Wrote
  | Ce_WriteFailed (detail : string)
  | Ce_WriterStop
  | Ce_End (reason : CloseReason)
  | Ce_ServerStop.
(** [None]: the call cannot be made then. *)
Definition command_step (e : CommandEvent) (s : Commands) : option Commands :=
  match e with
  | Ce_Send text => Some (link_send text s).1
  | Ce_Register message_id text deadline => Some (request_register message_id text deadline s).1
  | Ce_Push progress =>
      '(_, text) ← find_first (fun c => fst c =? progress)%nat (cm_calls s);
      Some (request_push progress text s).1
  | Ce_TakeRegistration => if cm_task_done s then None else task_registration s
  | Ce_Ack ack => if cm_task_done s then None else Some (task_ack ack s)
  | Ce_Expire key now => if cm_task_done s then None else task_expire key now s
  | Ce_TaskEnd => if cm_task_done s || negb (sc_stop (cm_core s)) then None else Some (task_end s)
  | Ce_WriterTake => if cm_writer_done s || bool_decide (is_Some (cm_writing s)) then None else writer_take s
  | Ce_Wrote => if cm_writer_done s then None else writer_wrote s
  | Ce_WriteFailed detail => if cm_writer_done s then None else writer_failed detail s
  | Ce_WriterStop =>
      if cm_writer_done s || bool_decide (is_Some (cm_writing s)) || negb (sc_stop (cm_core s)) then None else Some (writer_stop s)
  | Ce_End reason => Some (with_core (core_end reason (cm_core s)) s)
  | Ce_ServerStop => Some (with_core (cancel_stop (cm_core s)) s)
  end.
Inductive commands_reach (s0 : Commands) : Commands -> Prop :=
  | Cr_start : commands_reach s0 s0
  | Cr_step s e s' : commands_reach s0 s -> command_step e s = Some s' -> commands_reach s0 s'.

(** ** Progress only goes forward *)
Definition progress_rank (p : CommandProgress) : nat :=
  match p with Pg_Enqueued => 0 | Pg_Written => 1 | _ => 2 end.
(** From one to the other without going back; an outcome is kept. *)
Definition progress_le (p q : CommandProgress) : Prop :=
  (progress_rank p <= progress_rank q)%nat /\ (is_terminal p = true -> q = p).
#[export] Instance progress_le_preorder : PreOrder progress_le.
Proof.
  split; [by intros p|]. intros p q r [H1 H2] [H3 H4]. split; [lia|]. intros Hp. rewrite (H2 Hp) in H4. auto.
Qed.
(** Every watch of [w] is in [w'], at the same place and no less far. *)
Definition watches_le (w w' : Watches) : Prop :=
  forall i p, w !! i = Some p ->
  exists p', w' !! i = Some p' /\ pa_message_id p' = pa_message_id p /\ progress_le (pa_progress p) (pa_progress p').
#[export] Instance watches_le_preorder : PreOrder watches_le.
Proof.
  split; [intros w i p H; by exists p|]. intros a b c Hab Hbc i p H.
  destruct (Hab i p H) as (p' & H' & E' & L'). destruct (Hbc i p' H') as (q & Hq & Eq & Lq).
  exists q. rewrite Eq. split_and!; [done|done|by etrans].
Qed.

Lemma to_written_le p : progress_le p (to_written p).
Proof. by destruct p; split; cbn; try lia. Qed.
Lemma to_acknowledged_le ack p : progress_le p (to_acknowledged ack p).
Proof. by destruct p; split; cbn; try lia. Qed.
Lemma to_failed_le f p : progress_le p (to_failed f p).
Proof. by destruct p; split; cbn; try lia. Qed.
Lemma modify_lookup i f w j : modify i f w !! j = (if decide (i = j) then with_progress f <$> w !! j else w !! j).
Proof. unfold modify. case_decide as E; [subst; by rewrite list_lookup_alter_eq|by rewrite list_lookup_alter_ne]. Qed.
Lemma modify_le i f w : (forall p, progress_le p (f p)) -> watches_le w (modify i f w).
Proof.
  intros Hf j p H. rewrite modify_lookup, H. case_decide; [exists (with_progress f p)|by exists p]. done.
Qed.
Lemma fail_all_le reason l w : watches_le w (foldl (fail_waiter reason) w l).
Proof.
  revert w. induction l as [|x l IH]; intros w; [done|]. cbn [foldl]. etrans; [|apply IH].
  apply modify_le, to_failed_le.
Qed.
Lemma resolve_le ack pending t w t' pending' w' : table_resolve ack pending t w = (t', pending', w') -> watches_le w w'.
Proof.
  unfold table_resolve. destruct (match at_waiters t !! _ with Some _ => _ | None => _ end) as [t1 p1].
  destruct (at_waiters t1 !! ca_message_id ack); intros [= <- <- <-]; [apply modify_le, to_acknowledged_le|done].
Qed.
Lemma expire_le key now t w t' w' : table_expire key now t w = Some (t', w') -> watches_le w w'.
Proof.
  unfold table_expire. destruct (at_deadlines t !! key) as [[message_id deadline]|]; [|done]. cbn.
  destruct (deadline <=? now); [|done]. destruct (at_waiters t !! message_id); intros [= <- <-]; [apply modify_le, to_failed_le|done].
Qed.
Lemma app_le w x : watches_le w (w ++ x).
Proof. intros i p H. exists p. by rewrite lookup_app_l by (by eapply lookup_lt_Some). Qed.

Lemma control_push_inv text progress c q c' q' answer :
  control_push text progress c q = (c', q', answer) ->
  c' = c \/ exists reason, c' = core_end reason c.
Proof.
  unfold control_push. destruct (core_reason c); [by intros [= <- <- <-]; left|].
  destruct (queue_push _ _ q) as [|[]]; intros [= <- <- <-]; eauto.
Qed.

Ltac step_cases H :=
  repeat match type of H with
    | (if ?b then None else _) = Some _ => destruct b; [discriminate H|]
    | Some _ = Some _ => apply (inj Some) in H; subst
    end.

(** The watches after a step. *)
Lemma step_le e s s' : command_step e s = Some s' -> watches_le (cm_watches s) (cm_watches s').
Proof.
  destruct e; cbn [command_step]; intros H; step_cases H; try done.
  - unfold link_send. by destruct (control_push _ _ _ _) as [[]].
  - unfold request_register. destruct (core_reason _); [done|]. destruct (queue_push _ _ _) as [|[]]; try done. apply app_le.
  - destruct (find_first _ _) as [[]|]; [|done]. cbn in H. step_cases H. unfold request_push. by destruct (control_push _ _ _ _) as [[]].
  - unfold task_registration in H. destruct (queue_take _) as [[[]]|]; [|done]. cbn in H. by step_cases H.
  - unfold task_ack. destruct (table_resolve _ _ _ _) as [[]] eqn:E. by apply resolve_le in E.
  - unfold task_expire in H. destruct (table_expire _ _ _ _) as [[]|] eqn:E; [|done]. cbn in H. step_cases H. by apply expire_le in E.
  - unfold task_end, table_fail_all. destruct (take_pending _ _). apply fail_all_le.
  - unfold writer_take in H. destruct (queue_take _) as [[[]]|]; [|done]. cbn in H. by step_cases H.
  - unfold writer_wrote in H. destruct (cm_writing s) as [[out permits]|]; [|done]. cbn in H. step_cases H.
    cbn [cm_watches with_writer]. destruct (co_progress out); [apply modify_le, to_written_le|done].
  - unfold writer_failed in H. destruct (cm_writing s) as [[]|]; [|done]. cbn in H. by step_cases H.
Qed.

(** ** Every command without an outcome is waited for *)
Definition ids (w : Watches) : list string := pa_message_id <$> w.
Definition refers (w : Watches) (i : nat) (message_id : string) : Prop :=
  exists p, w !! i = Some p /\ pa_message_id p = message_id.
Record table_ok (t : AckTable) : Prop := {
  tk_deadline : forall message_id x, at_waiters t !! message_id = Some x -> exists d, at_deadlines t !! wt_key x = Some (message_id, d);
  tk_waiter : forall key message_id d, at_deadlines t !! key = Some (message_id, d) ->
    exists x, at_waiters t !! message_id = Some x /\ wt_key x = key;
  tk_fresh : forall key, is_Some (at_deadlines t !! key) -> (key < at_next_key t)%nat;
}.
Definition waited (t : AckTable) (l : list Registration) (i : nat) (message_id : string) : Prop :=
  (exists r, r ∈ l /\ rg_progress r = i) \/ (exists x, at_waiters t !! message_id = Some x /\ wt_progress x = i).
Record book (t : AckTable) (l : list Registration) (w : Watches) : Prop := {
  bk_table : table_ok t;
  bk_waiters : forall message_id x, at_waiters t !! message_id = Some x -> refers w (wt_progress x) message_id;
  bk_registrations : forall r, r ∈ l -> refers w (rg_progress r) (rg_message_id r);
  bk_waited : forall i p, w !! i = Some p -> is_terminal (pa_progress p) = false -> waited t l i (pa_message_id p);
}.

Lemma refers_unique w i j m : NoDup (ids w) -> refers w i m -> refers w j m -> i = j.
Proof.
  intros Hn (p & Hp & <-) (q & Hq & E). eapply (NoDup_lookup _ _ _ (pa_message_id p) Hn); unfold ids; rewrite list_lookup_fmap.
  - by rewrite Hp.
  - rewrite Hq. cbn. by rewrite E.
Qed.
Lemma refers_le w w' i m : watches_le w w' -> refers w i m -> refers w' i m.
Proof. intros H (p & Hp & <-). destruct (H i p Hp) as (p' & Hp' & E & _). by exists p'. Qed.
Lemma ids_prefix w w' : watches_le w w' -> ids w `prefix_of` ids w'.
Proof.
  intros H. exists (drop (length w) (ids w')). rewrite <- (take_drop (length w) (ids w')) at 1. f_equal.
  symmetry. apply list_eq. intros i. unfold ids. rewrite list_lookup_fmap. destruct (w !! i) as [p|] eqn:Hp.
  - destruct (H i p Hp) as (p' & Hp' & E & _). rewrite lookup_take_lt by (by eapply lookup_lt_Some).
    rewrite list_lookup_fmap, Hp'. cbn. by rewrite E.
  - cbn. apply lookup_ge_None in Hp. by rewrite lookup_take_ge.
Qed.

Lemma table_insert_ok t r : table_ok t -> table_ok (table_insert t r).
Proof.
  intros [Hd Hw Hf]. set (m := rg_message_id r). unfold table_insert. fold m.
  assert (Hnew : at_deadlines t !! at_next_key t = None).
  { destruct (at_deadlines t !! at_next_key t) eqn:E; [|done]. specialize (Hf (at_next_key t)). rewrite E in Hf. specialize (Hf (ltac:(by eexists))). lia. }
  assert (Hold : forall x, at_waiters t !! m = Some x -> exists d, at_deadlines t !! wt_key x = Some (m, d) /\ wt_key x <> at_next_key t).
  { intros x Hx. destruct (Hd _ _ Hx) as [d E]. exists d. split; [done|]. intros Ek. by rewrite Ek, Hnew in E. }
  split; cbn [at_waiters at_deadlines at_next_key].
  - intros m' x. destruct (decide (m = m')) as [<-|Hm].
    + rewrite lookup_insert_eq. intros [= <-]. cbn [wt_key]. destruct (at_waiters t !! m) as [old|] eqn:Eo.
      * destruct (Hold old eq_refl) as (d & _ & Hne). rewrite lookup_delete_ne, lookup_insert_eq by done. eauto.
      * rewrite lookup_insert_eq. eauto.
    + rewrite lookup_insert_ne by done. intros Hx. destruct (Hd _ _ Hx) as [d E]. exists d.
      assert (wt_key x <> at_next_key t) by (intros Ek; by rewrite Ek, Hnew in E).
      destruct (at_waiters t !! m) as [old|] eqn:Eo; [|by rewrite lookup_insert_ne].
      destruct (Hold old eq_refl) as (d' & E' & _). rewrite lookup_delete_ne, lookup_insert_ne; [done|done|]. intros Ek. rewrite Ek, E in E'. congruence.
  - intros key m' d Hk.
    assert (Hk' : <[at_next_key t := (m, rg_deadline r)]> (at_deadlines t) !! key = Some (m', d) /\
                  (forall old, at_waiters t !! m = Some old -> wt_key old <> key)).
    { destruct (at_waiters t !! m) as [old|] eqn:Eo; [|done].
      destruct (decide (wt_key old = key)) as [<-|]; [by rewrite lookup_delete_eq in Hk|]. rewrite lookup_delete_ne in Hk by done.
      split; [done|]. by intros ? [= <-]. }
    clear Hk. destruct Hk' as [Hk Hne]. destruct (decide (at_next_key t = key)) as [<-|].
    + rewrite lookup_insert_eq in Hk. injection Hk as <- <-. rewrite lookup_insert_eq. by eexists.
    + rewrite lookup_insert_ne in Hk by done. destruct (Hw _ _ _ Hk) as (x & Hx & <-).
      destruct (decide (m = m')) as [->|]; [by destruct (Hne x Hx)|]. rewrite lookup_insert_ne by done. by exists x.
  - intros key Hk. assert (key = at_next_key t \/ is_Some (at_deadlines t !! key)) as [->|H]; [|lia|specialize (Hf _ H); lia].
    destruct (decide (at_next_key t = key)) as [|Hne]; [by left|]. right. destruct (at_waiters t !! m).
    + apply lookup_delete_is_Some in Hk as [_ Hk]. by rewrite lookup_insert_ne in Hk.
    + by rewrite lookup_insert_ne in Hk.
Qed.
Lemma book_insert t r l w : NoDup (ids w) -> book t (r :: l) w -> book (table_insert t r) l w.
Proof.
  intros Hn [Ht Hw Hr Hc]. assert (Href : refers w (rg_progress r) (rg_message_id r)) by (apply Hr; set_solver). split.
  - by apply table_insert_ok.
  - intros m x. unfold table_insert. cbn [at_waiters]. destruct (decide (rg_message_id r = m)) as [<-|].
    + rewrite lookup_insert_eq. by intros [= <-].
    + rewrite lookup_insert_ne by done. apply Hw.
  - intros r' H. apply Hr. set_solver.
  - intros i p Hi Hp. specialize (Hc i p Hi Hp). unfold waited in *. unfold table_insert. cbn [at_waiters].
    destruct Hc as [(r' & [->|Hin]%elem_of_cons & <-)|(x & Hx & <-)]; [|eauto|].
    + right. destruct Href as (q & Hq & Eq). rewrite Hi in Hq. injection Hq as <-. rewrite Eq, lookup_insert_eq. by eexists.
    + right. destruct (decide (rg_message_id r = pa_message_id p)) as [E|].
      * rewrite E, lookup_insert_eq. eexists. split; [done|]. cbn [wt_progress].
        eapply refers_unique; [done|exact Href|]. rewrite E. by exists p.
      * rewrite lookup_insert_ne by done. eauto.
Qed.
Lemma book_insert_all t l w : NoDup (ids w) -> book t l w -> book (foldl table_insert t l) [] w.
Proof. intros Hn. revert t. induction l as [|r l IH]; intros t H; [done|]. cbn [foldl]. by apply IH, book_insert. Qed.

Lemma book_modify t l w i f : (forall p, progress_le p (f p)) -> book t l w -> book t l (modify i f w).
Proof.
  intros Hf [Ht Hw Hr Hc]. pose proof (modify_le i f w Hf) as Hle. split; [done|..].
  - intros m x Hx. eapply refers_le; [done|]. by apply Hw.
  - intros r H. eapply refers_le; [done|]. by apply Hr.
  - intros j p. rewrite modify_lookup. case_decide; [|apply Hc]. destruct (w !! j) as [q|] eqn:Hq; [|done]. cbn. intros [= <-].
    cbn [pa_message_id with_progress pa_progress]. intros Hp. apply (Hc j q Hq).
    destruct (is_terminal (pa_progress q)) eqn:Et; [|done]. destruct (Hf (pa_progress q)) as [_ Hk]. rewrite (Hk Et) in Hp. congruence.
Qed.
(** Taking a waiter out once its command has an outcome. *)
Lemma book_drop t l w message_id x f :
  NoDup (ids w) -> book t l w -> at_waiters t !! message_id = Some x -> (forall p, progress_le p (f p)) -> (forall p, is_terminal (f p) = true) ->
  book (mkAckTable (delete message_id (at_waiters t)) (delete (wt_key x) (at_deadlines t)) (at_next_key t)) l (modify (wt_progress x) f w).
Proof.
  intros Hn Hb Hx Hf Hterm. pose proof Hb as [[Hd Hwt Hfr] Hw _ _]. apply (book_modify _ _ _ (wt_progress x) f Hf) in Hb as [_ Hw' Hr' Hc'].
  split; [split; cbn [at_waiters at_deadlines at_next_key]|..].
  - intros m y. rewrite lookup_delete_Some. intros [Hm Hy]. destruct (Hd _ _ Hy) as [d E]. exists d.
    rewrite lookup_delete_ne; [done|]. intros Ek. destruct (Hd _ _ Hx) as [d' E']. rewrite Ek, E in E'. congruence.
  - intros key m d. rewrite lookup_delete_Some. intros [Hk E]. destruct (Hwt _ _ _ E) as (y & Hy & <-). exists y.
    rewrite lookup_delete_ne; [done|]. intros ->. rewrite Hx in Hy. congruence.
  - intros key. rewrite lookup_delete_is_Some. intros [_ H]. by apply Hfr.
  - intros m y. cbn [at_waiters]. rewrite lookup_delete_Some. intros [_ Hy]. by apply Hw'.
  - exact Hr'.
  - intros i p Hi Hp. destruct (Hc' i p Hi Hp) as [H|(y & Hy & Ei)]; [by left|]. right. exists y. split; [|done]. cbn [at_waiters].
    rewrite lookup_delete_ne; [done|]. intros E. rewrite E in Hx. rewrite Hx in Hy. injection Hy as ->. subst i.
    rewrite modify_lookup, decide_True in Hi by done. destruct (w !! wt_progress y) as [q|]; [|done]. cbn in Hi. injection Hi as <-.
    cbn [pa_progress with_progress] in Hp. by rewrite Hterm in Hp.
Qed.

Definition registered (q : Queue Registration) : list Registration := fst <$> qu_items q.
Definition settled (w : Watches) : Prop := Forall (fun p => is_terminal (pa_progress p) = true) w.
Record commands_inv (s : Commands) : Prop := {
  ci_book : book (cm_table s) (registered (cm_registrations s)) (cm_watches s);
  ci_done : cm_task_done s = true -> settled (cm_watches s) /\ is_Some (core_reason (cm_core s));
}.

Lemma core_end_reason reason c : is_Some (core_reason (core_end reason c)).
Proof. unfold core_end, revoke_capture, core_reason. by destruct (sc_capture _); eexists. Qed.
Lemma cancel_stop_reason c : is_Some (core_reason c) -> is_Some (core_reason (cancel_stop c)).
Proof. unfold core_reason. cbn. by destruct (sc_end c). Qed.
Lemma control_push_reason text progress c q c' q' answer :
  control_push text progress c q = (c', q', answer) -> is_Some (core_reason c) -> is_Some (core_reason c').
Proof. intros [->|[reason ->]]%control_push_inv H; [done|apply core_end_reason]. Qed.

Lemma book_settled t l w : book t l w -> settled w -> table_ok (mkAckTable ∅ ∅ (at_next_key t)) /\ book (mkAckTable ∅ ∅ (at_next_key t)) [] w.
Proof.
  intros _ Hs. assert (Ht : table_ok (mkAckTable ∅ ∅ (at_next_key t))).
  { split; cbn; [intros *; by rewrite lookup_empty..|]. intros k. rewrite lookup_empty. by intros []. }
  split; [done|]. split; [done|intros *; cbn; by rewrite lookup_empty|set_solver|].
  intros i p Hi Hp. unfold settled in Hs. rewrite Forall_lookup in Hs. rewrite (Hs i p Hi) in Hp. congruence.
Qed.
Lemma settled_le w w' : watches_le w w' -> length w' = length w -> settled w -> settled w'.
Proof.
  unfold settled. rewrite !Forall_lookup. intros Hle Hlen Hs i p' Hp'.
  destruct (lookup_lt_is_Some_2 w i) as [p Hp]; [rewrite <- Hlen; by eapply lookup_lt_Some|].
  destruct (Hle i p Hp) as (q & Hq & _ & _ & Hk). rewrite Hp' in Hq. injection Hq as ->. rewrite Hk by (by eapply Hs). by eapply Hs.
Qed.
Lemma fail_waiter_settles reason l w i p :
  w !! i = Some p -> (exists x, x ∈ l /\ wt_progress (snd x) = i) ->
  exists p', foldl (fail_waiter reason) w l !! i = Some p' /\ is_terminal (pa_progress p') = true.
Proof.
  revert w p. induction l as [|x l IH]; intros w p Hp (y & Hy & Ei); [set_solver|]. cbn [foldl].
  apply elem_of_cons in Hy as [<-|Hy].
  - assert (H : fail_waiter reason w y !! i = Some (with_progress (to_failed (Cf_SessionEnded reason)) p)).
    { unfold fail_waiter, fail. by rewrite modify_lookup, decide_True, Hp by done. }
    destruct (fail_all_le reason l _ i _ H) as (p' & Hp' & _ & _ & Hk).
    assert (Ht : is_terminal (to_failed (Cf_SessionEnded reason) (pa_progress p)) = true) by (by destruct (pa_progress p)).
    exists p'. split; [done|]. rewrite Hk; done.
  - destruct (fail_all_le reason [x] w i p Hp) as (q & Hq & _). eapply IH; [exact Hq|]. by exists y.
Qed.
Lemma fail_all_length reason l w : length (foldl (fail_waiter reason) w l) = length w.
Proof. revert w. induction l as [|x l IH]; intros w; [done|]. cbn [foldl]. rewrite IH. apply length_alter. Qed.
Lemma fail_all_settles t w reason : book t [] w -> settled (foldl (fail_waiter reason) w (map_to_list (at_waiters t))).
Proof.
  intros [_ _ _ Hc]. unfold settled. apply Forall_lookup. intros i p' Hp'.
  destruct (lookup_lt_is_Some_2 w i) as [p Hp].
  { rewrite <- (fail_all_length reason (map_to_list (at_waiters t))). by eapply lookup_lt_Some. }
  destruct (is_terminal (pa_progress p)) eqn:Et.
  - destruct (fail_all_le reason (map_to_list (at_waiters t)) w i p Hp) as (q & Hq & _ & _ & Hk).
    rewrite Hp' in Hq. injection Hq as ->. rewrite Hk; done.
  - destruct (Hc i p Hp Et) as [(r & Hr & _)|(x & Hx & Ex)]; [set_solver|].
    destruct (fail_waiter_settles reason (map_to_list (at_waiters t)) w i p Hp) as (q & Hq & Hterm).
    { exists (pa_message_id p, x). split; [by apply elem_of_map_to_list|done]. }
    rewrite Hp' in Hq. by injection Hq as ->.
Qed.

Lemma book_register t l w r :
  rg_progress r = length w -> book t l w -> book t (l ++ [r]) (w ++ [mkPendingAck (rg_message_id r) Pg_Enqueued]).
Proof.
  intros Hr [Ht Hw Hg Hc]. pose proof (app_le w [mkPendingAck (rg_message_id r) Pg_Enqueued]) as Hle. split; [done|..].
  - intros m x Hx. eapply refers_le; [done|]. by apply Hw.
  - intros r' [H| ->%list_elem_of_singleton]%elem_of_app; [eapply refers_le; [done|]; by apply Hg|].
    exists (mkPendingAck (rg_message_id r) Pg_Enqueued). by rewrite Hr, list_lookup_middle.
  - intros i p Hi Hp. apply lookup_app_Some in Hi as [Hi|[Hl Hi]].
    + destruct (Hc i p Hi Hp) as [(r' & H & E)|H]; [|by right]. left. exists r'. split; [set_solver|done].
    + left. exists r. split; [set_solver|]. apply list_lookup_singleton_Some in Hi as [Hi _]. lia.
Qed.
Lemma registered_push r q q' : queue_push r 0 q = Ok q' -> registered q' = registered q ++ [r].
Proof.
  unfold queue_push. destruct (qu_closed q); [done|]. destruct (_ <=? _)%nat; [done|]. destruct (_ <? _); [done|].
  intros [= <-]. unfold registered. cbn. by rewrite fmap_app.
Qed.
Lemma book_pending t q w t' q' : NoDup (ids w) -> book t (registered q) w -> take_pending q t = (t', q') -> book t' (registered q') w.
Proof. intros Hn Hb [= <- <-]. unfold registered. cbn. by apply book_insert_all. Qed.

(** An acknowledgement gives its command its outcome. *)
Lemma resolve_keeps ack q t w t' q' w' :
  NoDup (ids w) -> book t (registered q) w -> table_resolve ack q t w = (t', q', w') ->
  book t' (registered q') w' /\ length w' = length w /\
  forall i p, w !! i = Some p -> pa_message_id p = ca_message_id ack -> is_terminal (pa_progress p) = false ->
    w' !! i = Some (mkPendingAck (pa_message_id p) (Pg_Acknowledged ack)).
Proof.
  intros Hn Hb. unfold table_resolve. set (m := ca_message_id ack).
  destruct (match at_waiters t !! m with Some _ => (t, q) | None => take_pending q t end) as [t1 q1] eqn:E1.
  assert (Hb1 : book t1 (registered q1) w /\ (at_waiters t !! m = None -> registered q1 = []) /\ (at_waiters t !! m <> None -> at_waiters t1 !! m <> None)).
  { destruct (at_waiters t !! m) eqn:Em; [injection E1 as <- <-; split_and!; [done|done|by rewrite Em]|].
    split_and!; [by eapply book_pending|by injection E1 as <- <-|done]. }
  destruct Hb1 as (Hb1 & Hempty & Hkept).
  destruct (at_waiters t1 !! m) as [x|] eqn:Ex; intros [= <- <- <-].
  - split_and!; [|apply length_alter|].
    + apply book_drop; [done..|apply to_acknowledged_le|by intros []].
    + intros i p Hi Hm Hp. pose proof Hb1 as [_ Hw _ _]. assert (wt_progress x = i) as ->.
      { eapply refers_unique; [done|by apply Hw|]. by exists p. }
      rewrite modify_lookup, decide_True, Hi by done. cbn. unfold with_progress, to_acknowledged. by rewrite Hp.
  - split_and!; [done|done|]. intros i p Hi Hm Hp. exfalso. destruct Hb1 as [_ _ _ Hc].
    destruct (Hc i p Hi Hp) as [(r & Hr & _)|(x & Hx & _)]; [|by rewrite Hm in Hx; rewrite Ex in Hx].
    destruct (at_waiters t !! m) eqn:Em; [by apply Hkept|]. rewrite (Hempty eq_refl) in Hr. set_solver.
Qed.
Lemma expire_keeps key now q t w t' w' :
  NoDup (ids w) -> book t (registered q) w -> table_expire key now t w = Some (t', w') ->
  book t' (registered q) w' /\ length w' = length w.
Proof.
  intros Hn Hb. unfold table_expire. destruct (at_deadlines t !! key) as [[m d]|] eqn:E; [|done]. cbn.
  destruct (d <=? now); [|done]. destruct Hb as [Ht ?] eqn:Eb. destruct (tk_waiter _ Ht _ _ _ E) as (x & Hx & Ek). rewrite Hx.
  intros [= <- <-]. subst key. split; [|apply length_alter]. apply book_drop; [done..|apply to_failed_le|by intros []].
Qed.

Lemma modify_length i f w : length (modify i f w) = length w.
Proof. apply length_alter. Qed.
(** Changing what the book is not about. *)
Lemma inv_same s s' :
  cm_table s' = cm_table s -> cm_registrations s' = cm_registrations s -> cm_watches s' = cm_watches s -> cm_task_done s' = cm_task_done s ->
  (is_Some (core_reason (cm_core s)) -> is_Some (core_reason (cm_core s'))) -> commands_inv s -> commands_inv s'.
Proof. intros Et Er Ew Ed Hr [Hb Hd]. split; [by rewrite Et, Er, Ew|]. rewrite Ed, Ew. intros H. destruct (Hd H). auto. Qed.
Lemma inv_watches s s' :
  cm_table s' = cm_table s -> cm_registrations s' = cm_registrations s -> cm_core s' = cm_core s -> cm_task_done s' = cm_task_done s ->
  (cm_watches s' = cm_watches s \/ exists i, cm_watches s' = mark_written i (cm_watches s)) -> commands_inv s -> commands_inv s'.
Proof.
  intros Et Er Ec Ed Hw [Hb Hd]. destruct Hw as [Ew|[i Ew]]; [split; rewrite ?Et, ?Er, ?Ew, ?Ec, ?Ed; done|].
  split; rewrite ?Et, ?Er, ?Ec, ?Ed, Ew.
  - apply book_modify; [apply to_written_le|done].
  - intros H. destruct (Hd H) as [Hs ?]. split; [|done]. eapply settled_le; [apply modify_le, to_written_le|apply modify_length|done].
Qed.

Lemma command_step_inv e s s' : NoDup (ids (cm_watches s)) -> command_step e s = Some s' -> commands_inv s -> commands_inv s'.
Proof.
  intros Hn H Hinv. pose proof Hinv as [Hb Hd]. destruct e; cbn [command_step] in H.
  - step_cases H. unfold link_send. destruct (control_push _ _ _ _) as [[]] eqn:E. eapply inv_same, Hinv; try done. by eapply control_push_reason.
  - step_cases H. unfold request_register. destruct (core_reason (cm_core s)) eqn:Er; [done|].
    destruct (queue_push _ _ _) as [q|[]] eqn:E; try done; try (eapply inv_same, Hinv; try done; intros; apply core_end_reason).
    split; cbn [cm_table cm_registrations cm_watches cm_task_done cm_core with_calls fst].
    + rewrite (registered_push _ _ _ E). by apply book_register.
    + intros Hdone. destruct (Hd Hdone) as [_ [? ?]]. congruence.
  - destruct (find_first _ _) as [[]|]; [|done]. cbn in H. step_cases H. unfold request_push.
    destruct (control_push _ _ _ _) as [[]] eqn:E. eapply inv_same, Hinv; try done. cbn. by eapply control_push_reason.
  - destruct (cm_task_done s) eqn:Edone; [done|]. unfold task_registration, queue_take in H.
    destruct (qu_items (cm_registrations s)) as [|[r n] items] eqn:Ei; [done|]. cbn in H. step_cases H.
    split; cbn [cm_table cm_registrations cm_watches cm_task_done with_table]; [|by rewrite Edone].
    unfold registered in *. cbn. rewrite Ei in Hb. by apply book_insert.
  - destruct (cm_task_done s) eqn:Edone; [done|]. step_cases H. unfold task_ack. destruct (table_resolve _ _ _ _) as [[t q] w] eqn:E.
    destruct (resolve_keeps _ _ _ _ _ _ _ Hn Hb E) as (Hb' & _). split; [done|]. cbn. by rewrite Edone.
  - destruct (cm_task_done s) eqn:Edone; [done|]. unfold task_expire in H. destruct (table_expire _ _ _ _) as [[t w]|] eqn:E; [|done].
    cbn in H. step_cases H. destruct (expire_keeps _ _ _ _ _ _ _ Hn Hb E) as [Hb' _]. split; [done|]. cbn. by rewrite Edone.
  - step_cases H. unfold task_end, table_fail_all. cbn [cm_registrations cm_table cm_watches with_core cm_core].
    destruct (take_pending (queue_close (cm_registrations s)) (cm_table s)) as [t q] eqn:E.
    assert (Hb' : book t (registered q) (cm_watches s)) by exact (book_pending _ (queue_close (cm_registrations s)) _ _ _ Hn Hb E).
    assert (Hq : registered q = []) by (by injection E as <- <-). rewrite Hq in Hb'.
    pose proof (fail_all_settles t (cm_watches s) (ended_reason (cm_core s)) Hb') as Hs. split; cbn [cm_table cm_registrations cm_watches cm_task_done cm_core].
    + rewrite Hq. eapply book_settled; [|done]. split; [apply Hb'|..].
      * intros m x Hx. eapply refers_le; [apply fail_all_le|]. by apply Hb'.
      * intros r Hr. eapply refers_le; [apply fail_all_le|]. by apply Hb'.
      * intros i p Hi Hp. unfold settled in Hs. rewrite Forall_lookup in Hs. rewrite (Hs i p Hi) in Hp. congruence.
    + intros _. split; [done|]. apply core_end_reason.
  - step_cases H. unfold writer_take in H. destruct (queue_take _) as [[[]]|]; [|done]. cbn in H. step_cases H. eapply inv_watches, Hinv; eauto.
  - step_cases H. unfold writer_wrote in H. destruct (cm_writing s) as [[out permits]|]; [|done]. cbn in H. step_cases H.
    eapply inv_watches, Hinv; try done. cbn. destruct (co_progress out); eauto.
  - step_cases H. unfold writer_failed in H. destruct (cm_writing s) as [[]|]; [|done]. cbn in H. step_cases H.
    eapply inv_same, Hinv; try done. intros. apply core_end_reason.
  - step_cases H. eapply inv_watches, Hinv; try done. by left.
  - step_cases H. eapply inv_same, Hinv; try done. intros. apply core_end_reason.
  - step_cases H. eapply inv_same, Hinv; try done. apply cancel_stop_reason.
Qed.

Lemma new_inv core messages bytes : commands_inv (commands_new core messages bytes).
Proof.
  split; [|done]. split; cbn; [split; cbn|..].
  - intros *. by rewrite lookup_empty.
  - intros *. by rewrite lookup_empty.
  - intros key. rewrite lookup_empty. by intros [].
  - intros *. by rewrite lookup_empty.
  - set_solver.
  - done.
Qed.
Lemma reach_inv core messages bytes s :
  commands_reach (commands_new core messages bytes) s -> NoDup (ids (cm_watches s)) -> commands_inv s.
Proof.
  induction 1 as [|s e s' _ IH Hs]; intros Hn; [apply new_inv|].
  assert (NoDup (ids (cm_watches s))).
  { apply step_le, ids_prefix in Hs as [rest E]. rewrite E in Hn. by apply NoDup_app in Hn as [? _]. }
  eapply command_step_inv; [|done|]; auto.
Qed.

(** Taking every registration, as the control task does before anything else. *)
Lemma registrations_taken s :
  cm_task_done s = false ->
  exists s', commands_reach s s' /\ cm_task_done s' = false /\ registered (cm_registrations s') = [] /\ cm_watches s' = cm_watches s /\
    cm_table s' = foldl table_insert (cm_table s) (registered (cm_registrations s)).
Proof.
  remember (registered (cm_registrations s)) as l eqn:El. revert s El. induction l as [|r l IH]; intros s El Hd.
  - exists s. split_and!; [constructor|done|by rewrite <- El|done|done].
  - unfold registered in El. destruct (qu_items (cm_registrations s)) as [|[r' n] items] eqn:Ei; [done|]. injection El as -> El.
    set (s1 := with_table (table_insert (cm_table s) r') (mkQueue (qu_capacity (cm_registrations s)) items (qu_credit (cm_registrations s)) (qu_closed (cm_registrations s))) (cm_watches s) s).
    assert (Hs1 : command_step Ce_TakeRegistration s = Some s1).
    { cbn [command_step]. rewrite Hd. unfold task_registration, queue_take. by rewrite Ei. }
    destruct (IH s1) as (s' & Hr & Hd' & Hq & Hw & Ht); [by subst l|done|]. exists s'. split_and!; [|done|done|by rewrite Hw|by rewrite Ht].
    clear -Hr Hs1. induction Hr as [|s2 e s3 Hr IH Hs]; [eapply Cr_step; [constructor|exact Hs1]|]. eapply Cr_step; [exact IH|exact Hs].
Qed.

(** C18: Every command that was sent gets one outcome.  However the runtime, the control
    task and the writer interleave, a command only goes forward - queued, written, then
    acknowledged or failed - and its outcome never changes; an acknowledgement the
    control task receives for a command without an outcome is its outcome, also when it
    overtakes the command's own registration or the writer; a command nobody answers
    can be timed out once its registration is taken, and not before a deadline; and once
    the control task has ended every command has its outcome. *)
Theorem every_command_gets_its_outcome core messages bytes s :
  commands_reach (commands_new core messages bytes) s -> NoDup (ids (cm_watches s)) ->
  (forall e s', command_step e s = Some s' -> watches_le (cm_watches s) (cm_watches s')) /\
  (forall ack s' i p, command_step (Ce_Ack ack) s = Some s' -> cm_watches s !! i = Some p ->
     pa_message_id p = ca_message_id ack -> is_terminal (pa_progress p) = false ->
     cm_watches s' !! i = Some (mkPendingAck (pa_message_id p) (Pg_Acknowledged ack))) /\
  (forall i p, cm_task_done s = false -> cm_watches s !! i = Some p -> is_terminal (pa_progress p) = false ->
     exists s1 key deadline, commands_reach s s1 /\ cm_watches s1 = cm_watches s /\
       at_deadlines (cm_table s1) !! key = Some (pa_message_id p, deadline) /\
       (forall now, now < deadline -> command_step (Ce_Expire key now) s1 = None) /\
       (forall now, deadline <= now -> exists s2, command_step (Ce_Expire key now) s1 = Some s2 /\
          cm_watches s2 !! i = Some (mkPendingAck (pa_message_id p) (Pg_Failed (Cf_Timeout (is_written (pa_progress p))))))) /\
  (cm_task_done s = true -> settled (cm_watches s)).
Proof.
  intros Hr Hn. pose proof (reach_inv _ _ _ _ Hr Hn) as [Hb Hd]. split_and!.
  - intros e s'. apply step_le.
  - intros ack s' i p. cbn [command_step]. destruct (cm_task_done s); [done|]. intros [= <-] Hi Hm Hp. unfold task_ack.
    destruct (table_resolve _ _ _ _) as [[t q] w] eqn:E. destruct (resolve_keeps _ _ _ _ _ _ _ Hn Hb E) as (_ & _ & Hk). by apply Hk.
  - intros i p Hdone Hi Hp. destruct (registrations_taken s Hdone) as (s1 & Hr1 & Hd1 & Hq1 & Hw1 & Ht1).
    pose proof (book_insert_all _ _ _ Hn Hb) as Hb1. rewrite <- Ht1 in Hb1.
    destruct (bk_waited _ _ _ Hb1 i p Hi Hp) as [(r & H & _)|(x & Hx & Ex)]; [set_solver|].
    destruct (tk_deadline _ (bk_table _ _ _ Hb1) _ _ Hx) as [d Ek]. exists s1, (wt_key x), d.
    split_and!; [done|done|done|..]; intros now Hnow; cbn [command_step]; rewrite Hd1; unfold task_expire, table_expire; rewrite Ek; cbn.
    + by rewrite (proj2 (N.leb_gt _ _)) by lia.
    + rewrite (proj2 (N.leb_le _ _)) by lia. rewrite Hx. cbn. eexists. split; [done|]. cbn. rewrite Hw1. unfold fail.
      rewrite modify_lookup, decide_True, Hi by done. cbn. unfold with_progress, to_failed. by rewrite Hp.
  - intros H. by apply Hd.
Qed.

(** ** What ends a session revokes its capture *)
(** [end] and [publish_capture] are not atomic: each line below is one access to the
    shared slots.  [cr_begun], [cr_named] and [cr_stopped] count the [end] calls before
    their reason is set, before the stop is cancelled and before capture is revoked;
    [cr_published] the [publish_capture] calls before they look at the stop.  A stop by
    the server's token makes the control task call [end]. *)
Record CaptureRace := mkCaptureRace {
  cr_core : SessionCore;
  cr_begun : nat;
  cr_named : nat;
  cr_stopped : nat;
  cr_published : nat;
}.
Definition capture_new (core : SessionCore) : CaptureRace := mkCaptureRace core 0 0 0 0.
Inductive capture_step : CaptureRace -> CaptureRace -> Prop :=
  | Cs_Call c b n s p : capture_step (mkCaptureRace c b n s p) (mkCaptureRace c (S b) n s p)
  | Cs_Name reason c b n s p : capture_step (mkCaptureRace c (S b) n s p) (mkCaptureRace (set_end_reason reason c) b (S n) s p)
  | Cs_Stop c b n s p : capture_step (mkCaptureRace c b (S n) s p) (mkCaptureRace (cancel_stop c) b n (S s) p)
  | Cs_Revoke c b n s p : capture_step (mkCaptureRace c b n (S s) p) (mkCaptureRace (revoke_capture c) b n s p)
  | Cs_ServerStop c b n s p : capture_step (mkCaptureRace c b n s p) (mkCaptureRace (cancel_stop c) (S b) n s p)
  | Cs_Publish scope c b n s p : capture_step (mkCaptureRace c b n s p) (mkCaptureRace (set_capture scope c) b n s (S p))
  | Cs_Look c b n s p :
      capture_step (mkCaptureRace c b n s (S p)) (mkCaptureRace (if sc_stop c then revoke_capture c else c) b n s p)
  | Cs_Mute c b n s p : capture_step (mkCaptureRace c b n s p) (mkCaptureRace (revoke_capture c) b n s p)
  | Cs_Cancel token c b n s p :
      capture_step (mkCaptureRace c b n s p)
        (mkCaptureRace (mkSessionCore (sc_device c) (sc_session_id c) (sc_transport c) (sc_stop c) (sc_end c) (sc_capture c)
                          ({[ token ]} ∪ sc_cancelled c)) b n s p).
Definition capture_live (c : SessionCore) : bool :=
  match sc_capture c with Some scope => negb (is_cancelled (sc_cancelled c) scope) | None => false end.
Definition capture_owed (r : CaptureRace) : Prop :=
  sc_stop (cr_core r) = true -> capture_live (cr_core r) = true -> (0 < cr_begun r + cr_named r + cr_stopped r + cr_published r)%nat.

Lemma revoke_not_live c : capture_live (revoke_capture c) = false.
Proof.
  unfold capture_live, revoke_capture. destruct (sc_capture c) as [scope|] eqn:E; cbn [sc_capture sc_cancelled]; [|by rewrite E].
  apply negb_false_iff. unfold is_cancelled. apply bool_decide_eq_true. set_solver.
Qed.
Lemma capture_owed_step r r' : capture_step r r' -> capture_owed r -> capture_owed r'.
Proof.
  unfold capture_owed. destruct 1; cbn [cr_core cr_begun cr_named cr_stopped cr_published]; intros H Hstop Hlive; try lia.
  - rewrite revoke_not_live in Hlive. done.
  - destruct (sc_stop c) eqn:Es; [by rewrite revoke_not_live in Hlive|]. congruence.
  - by rewrite revoke_not_live in Hlive.
  - cbn in Hstop. apply H; [done|]. unfold capture_live in *. cbn in Hlive. destruct (sc_capture c); [|done].
    apply negb_true_iff in Hlive. apply negb_true_iff. unfold is_cancelled in *. rewrite bool_decide_eq_false in *. set_solver.
Qed.
(** A scope that was cancelled stays so, whoever publishes or ends what. *)
Lemma cancelled_grows r r' : capture_step r r' -> sc_cancelled (cr_core r) ⊆ sc_cancelled (cr_core r').
Proof.
  destruct 1; cbn; try done; unfold revoke_capture; repeat case_match; cbn; set_solver.
Qed.

(** C21: Capture ends with the session.  However calls that end a session race with one
    another, with the device's mute and with the runtime publishing a new capture scope,
    once the session has stopped and those calls have run out the published scope is
    cancelled, and no scope that was ever cancelled is live again. *)
Theorem ended_sessions_capture_nothing core r :
  rtc capture_step (capture_new core) r -> sc_stop core = false ->
  (sc_stop (cr_core r) = true -> (cr_begun r + cr_named r + cr_stopped r + cr_published r = 0)%nat -> capture_live (cr_core r) = false) /\
  (forall r', rtc capture_step r r' -> sc_cancelled (cr_core r) ⊆ sc_cancelled (cr_core r')).
Proof.
  intros Hr Hnew. split.
  - intros Hstop Hquiet. assert (Ho : capture_owed r).
    { assert (H0 : capture_owed (capture_new core)) by (intros H; cbn in H; congruence). clear Hstop Hquiet Hnew. revert H0.
      induction Hr as [|x y z Hs _ IH]; [done|]. intros H0. by apply IH, (capture_owed_step x). }
    destruct (capture_live (cr_core r)) eqn:Hl; [|done]. specialize (Ho Hstop Hl). lia.
  - intros r' H. induction H as [|x y z Hs _ IH]; [done|]. etrans; [by eapply cancelled_grows|]. apply IH. by eapply rtc_r.
Qed.

(** ** Samples *)
Fixpoint commands_run (events : list CommandEvent) (s : Commands) : option Commands :=
  match events with [] => Some s | e :: events => s' ← command_step e s; commands_run events s' end.
Lemma commands_run_reach s0 events s s' : commands_reach s0 s -> commands_run events s = Some s' -> commands_reach s0 s'.
Proof.
  revert s. induction events as [|e events IH]; intros s Hr; cbn [commands_run]; [by intros [= <-]|].
  destruct (command_step e s) as [s1|] eqn:E; [|done]. cbn. apply IH. by eapply Cr_step.
Qed.
Definition sample_core : SessionCore := core_new "dev-1" "s-1" Tp_Tls ∅.
Definition sample_ack : CommandAck := mkCommandAck "m-1" Ack_Applied None.
(** Two commands: the first is answered before its registration is taken, the second
    is in flight when the session ends. *)
Definition sample_calls : list CommandEvent :=
  [Ce_Register "m-1" "one" 50; Ce_Push 0; Ce_Register "m-2" "two" 60; Ce_Push 1; Ce_WriterTake; Ce_Ack sample_ack; Ce_Wrote; Ce_WriterTake].
Definition sample_state : Commands :=
  default (commands_new sample_core 2 1000) (commands_run sample_calls (commands_new sample_core 2 1000)).
Example sample_command_outcomes :
  (pa_progress <$> cm_watches sample_state) = [Pg_Acknowledged sample_ack; Pg_Enqueued] /\
  (pa_progress <$> cm_watches (default sample_state (commands_run [Ce_End Lc_Replaced; Ce_TaskEnd; Ce_Wrote] sample_state)))
    = [Pg_Acknowledged sample_ack; Pg_Failed (Cf_SessionEnded Lc_Replaced false)].
Proof. split; vm_compute; reflexivity. Qed.
Definition sample_ended : Commands := default sample_state (commands_run [Ce_End Lc_Replaced; Ce_TaskEnd] sample_state).
Lemma every_command_gets_its_outcome_witness : settled (cm_watches sample_ended).
Proof.
  assert (Hr : commands_reach (commands_new sample_core 2 1000) sample_ended).
  { apply (commands_run_reach _ (sample_calls ++ [Ce_End Lc_Replaced; Ce_TaskEnd]) (commands_new sample_core 2 1000)); [constructor|].
    vm_compute. reflexivity. }
  assert (Hn : NoDup (ids (cm_watches sample_ended))) by (apply (bool_decide_unpack _); vm_compute; exact I).
  destruct (every_command_gets_its_outcome sample_core 2 1000 sample_ended Hr Hn) as (_ & _ & _ & H).
  apply H. vm_compute. reflexivity.
Defined.

Definition sample_scope (token : nat) : WorkScope := mkWorkScope (mkWorkIdentity "dev-1" 1 1 None) token.
(** A scope published while the session ends is cancelled by one of the two. *)
Lemma ended_sessions_capture_nothing_witness :
  exists r, rtc capture_step (capture_new sample_core) r /\ sc_capture (cr_core r) = Some (sample_scope 7) /\ capture_live (cr_core r) = false.
Proof.
  set (c1 := cancel_stop (set_end_reason Lc_HeartbeatLost sample_core)).
  set (c2 := set_capture (sample_scope 7) (revoke_capture c1)).
  exists (mkCaptureRace (revoke_capture c2) 0 0 0 0).
  assert (Hr : rtc capture_step (capture_new sample_core) (mkCaptureRace (revoke_capture c2) 0 0 0 0)).
  { apply (rtc_l _ _ _ _ (Cs_Call sample_core 0 0 0 0)). apply (rtc_l _ _ _ _ (Cs_Name Lc_HeartbeatLost sample_core 0 0 0 0)).
    apply (rtc_l _ _ _ _ (Cs_Stop _ 0 0 0 0)). apply (rtc_l _ _ _ _ (Cs_Revoke _ 0 0 0 0)).
    apply (rtc_l _ _ _ _ (Cs_Publish (sample_scope 7) _ 0 0 0 0)). apply (rtc_l _ _ _ _ (Cs_Look _ 0 0 0 0)). apply rtc_refl. }
  split; [exact Hr|]. split; [reflexivity|].
  refine (proj1 (ended_sessions_capture_nothing sample_core _ Hr eq_refl) eq_refl _). reflexivity.
Defined.
