(* ===== verification/LinkIngress.v ===== *)
(** * From a session's sockets to its runtime ([link/src/ingress.rs])

    The ordered ingress, the urgent path and telemetry.  A channel's two ends are one
    state here; a receiver that would wait has no step. *)
From stdpp Require Import strings gmap.
From S2P Require Import Prelude Bytes WireEnum Float Ema Vocab Streams Clock Blocks Buffer Timeline Delivery Cursor Uplink UplinkInv UplinkReach Json Policy Session StreamBodies Envelope Arbiter Link.

(** ** Ordered ingress *)
Inductive Ingress := Ig_Control (env : DeviceEnvelope) | Ig_Audio (packet : Packet).
Record Queued := mkQueued { qd_ingress : Ingress; qd_enqueued_at : N }.
Record IngressItem := mkIngressItem { ii_ordinal : N; ii_enqueued_at : N; ii_ingress : Ingress }.
Record IngressChannel := mkIngressChannel { ic_queue : Queue Queued; ic_max_age : N; ic_next : N }.
Definition ingress_channel (messages : nat) (bytes max_age : N) : IngressChannel :=
  mkIngressChannel (queue_new messages bytes) max_age 0.
(** [IngressProducer::push]. *)
Definition ingress_push (ingress : Ingress) (bytes now : N) (ch : IngressChannel) : result CloseReason IngressChannel :=
  match queue_push (mkQueued ingress now) bytes (ic_queue ch) with
  | Ok q => Ok (mkIngressChannel q (ic_max_age ch) (ic_next ch))
  | Err Pu_Full => Err (Lc_Overloaded Qk_Ingress "every ingress slot is taken")
  | Err Pu_Closed => Err Lc_ClosedByController
  | Err Pu_NoCredit => Err (Lc_Overloaded Qk_Ingress ("the ingress byte budget cannot take " +:+ pretty bytes +:+ " more bytes"))
  end.
(** [IngressReceiver::recv]; [None] waits. *)
Definition ingress_recv (now : N) (c : SessionCore) (ch : IngressChannel) : option (SessionCore * IngressChannel * option IngressItem) :=
  let closed := mkIngressChannel (queue_close (ic_queue ch)) (ic_max_age ch) (ic_next ch) in
  if sc_stop c then Some (c, closed, None)
  else
    match queue_take (ic_queue ch) with
    | None => if qu_closed (ic_queue ch) then Some (c, ch, None) else None
    | Some (queued, permits, q) =>
        let q := queue_release permits q in
        let waited := now - qd_enqueued_at queued in
        if ic_max_age ch <? waited then
          Some (core_end (Lc_Overloaded Qk_Ingress
                            ("an item waited " +:+ pretty (waited / 1000000) +:+ " ms, over the " +:+
                             pretty (ic_max_age ch / 1000000) +:+ " ms residence limit")) c,
                mkIngressChannel (queue_close q) (ic_max_age ch) (ic_next ch), None)
        else
          Some (c, mkIngressChannel q (ic_max_age ch) (ic_next ch + 1),
                Some (mkIngressItem (ic_next ch) (qd_enqueued_at queued) (qd_ingress queued)))
    end.

(** ** Urgent *)
Record PrivacyChange := mkPrivacyChange { pv_muted : bool; pv_capture_epoch : option N; pv_physical_seq : option N }.
Definition privacy_malformed (detail : string) : ProtocolError :=
  mkProtocolError Pe_MalformedMessage ("privacy.changed." +:+ detail).
(** [str::parse::<u64>], which takes a leading plus. *)
Definition parse_u64_text (text : string) : option N :=
  match text with
  | String c rest => if Ascii.N_of_ascii c =? 43 then parse_u64_decimal rest else parse_u64_decimal text
  | EmptyString => None
  end.
Definition privacy_parse (body : Object) : result ProtocolError PrivacyChange :=
  let? muted := ok_or (privacy_malformed "muted must be a boolean")
                  (match object_get "muted" body with Some (VBool b) => Some b | _ => None end) in
  let? capture_epoch :=
    match object_get "capture_epoch" body with
    | None | Some VNull => Ok None
    | Some (VString text) =>
        let? n := ok_or (privacy_malformed "capture_epoch must be a uint64 decimal string") (parse_u64_text text) in Ok (Some n)
    | Some _ => Err (privacy_malformed "capture_epoch must be a string or null")
    end in
  let? physical_seq :=
    match object_get "physical_seq" body with
    | None | Some VNull => Ok None
    | Some v => let? n := ok_or (privacy_malformed "physical_seq must be a non-negative integer") (value_as_u64 v) in Ok (Some n)
    end in
  Ok (mkPrivacyChange muted capture_epoch physical_seq).

Inductive UrgentEvent :=
  | Ue_Privacy (header : EnvelopeHeader) (change : PrivacyChange)
  | Ue_Ended (reason : CloseReason).
Record UrgentChannel := mkUrgentChannel { uc_queue : Queue UrgentEvent; uc_ended : bool }.
Definition urgent_channel (capacity : nat) : UrgentChannel := mkUrgentChannel (queue_new capacity 0) false.
Definition urgent_push (event : UrgentEvent) (ch : UrgentChannel) : result CloseReason UrgentChannel :=
  match queue_push event 0 (uc_queue ch) with
  | Ok q => Ok (mkUrgentChannel q (uc_ended ch))
  | Err Pu_Closed => Err Lc_ClosedByController
  | Err _ => Err (Lc_Overloaded Qk_Urgent "every urgent slot is taken")
  end.
(** [UrgentReceiver::recv]: [senders] tells whether the control task still holds its
    end. *)
Definition urgent_recv (senders : bool) (c : SessionCore) (ch : UrgentChannel) : option (UrgentChannel * option UrgentEvent) :=
  if uc_ended ch then Some (ch, None)
  else
    match queue_take (uc_queue ch) with
    | Some (event, _, q) => Some (mkUrgentChannel q false, Some event)
    | None =>
        if sc_stop c || negb senders then
          Some (mkUrgentChannel (queue_close (uc_queue ch)) true, Some (Ue_Ended (ended_reason c)))
        else None
    end.

(** ** Telemetry *)
Inductive TelemetryKind := Tk_Stats | Tk_WakeStats | Tk_AmbientLight | Tk_VolumeState | Tk_Log | Tk_BleAdverts.
#[export] Instance TelemetryKind_eq_dec : EqDecision TelemetryKind. Proof. solve_decision. Defined.
Definition telemetry_kind (t : MessageType) : option TelemetryKind :=
  match t with
  | Mt_Stats => Some Tk_Stats
  | Mt_WakeStats => Some Tk_WakeStats
  | Mt_AmbientLight => Some Tk_AmbientLight
  | Mt_VolumeState => Some Tk_VolumeState
  | Mt_Log => Some Tk_Log
  | Mt_BleAdverts => Some Tk_BleAdverts
  | _ => None
  end.
Record Telemetry := mkTelemetry { te_kind : TelemetryKind; te_envelope : DeviceEnvelope; te_dropped_before : N }.
(** A [watch] slot: its value and whether the receiver has not seen it. *)
Record Slot := mkSlot { sl_value : option Telemetry; sl_unread : bool }.
Record TelemetryChannel := mkTelemetryChannel {
  tc_stats : Slot;
  tc_wake_stats : Slot;
  tc_ambient_light : Slot;
  tc_volume_state : Slot;
  tc_queued : Queue Telemetry;
  tc_dropped : N;
}.
Definition telemetry_channel (capacity : nat) : TelemetryChannel :=
  let slot := mkSlot None false in mkTelemetryChannel slot slot slot slot (queue_new capacity 0) 0.
Definition telemetry_push (kind : TelemetryKind) (env : DeviceEnvelope) (ch : TelemetryChannel) : TelemetryChannel :=
  let slot := mkSlot (Some (mkTelemetry kind env 0)) true in
  match kind with
  | Tk_Stats => mkTelemetryChannel slot (tc_wake_stats ch) (tc_ambient_light ch) (tc_volume_state ch) (tc_queued ch) (tc_dropped ch)
  | Tk_WakeStats => mkTelemetryChannel (tc_stats ch) slot (tc_ambient_light ch) (tc_volume_state ch) (tc_queued ch) (tc_dropped ch)
  | Tk_AmbientLight => mkTelemetryChannel (tc_stats ch) (tc_wake_stats ch) slot (tc_volume_state ch) (tc_queued ch) (tc_dropped ch)
  | Tk_VolumeState => mkTelemetryChannel (tc_stats ch) (tc_wake_stats ch) (tc_ambient_light ch) slot (tc_queued ch) (tc_dropped ch)
  | Tk_Log | Tk_BleAdverts =>
      match queue_push (mkTelemetry kind env (tc_dropped ch)) 0 (tc_queued ch) with
      | Ok q => mkTelemetryChannel (tc_stats ch) (tc_wake_stats ch) (tc_ambient_light ch) (tc_volume_state ch) q 0
      | Err _ => mkTelemetryChannel (tc_stats ch) (tc_wake_stats ch) (tc_ambient_light ch) (tc_volume_state ch) (tc_queued ch) (tc_dropped ch + 1)
      end
  end.
Definition seen (s : Slot) : Slot := mkSlot (sl_value s) false.
(** [TelemetryReceiver::recv]; the inner [None] is the end, the outer one waits.  A slot
    is unread only once it has a value. *)
Definition telemetry_recv (c : SessionCore) (ch : TelemetryChannel) : option (TelemetryChannel * option Telemetry) :=
  if sc_stop c then Some (ch, None)
  else
    match queue_take (tc_queued ch) with
    | Some (t, _, q) =>
        Some (mkTelemetryChannel (tc_stats ch) (tc_wake_stats ch) (tc_ambient_light ch) (tc_volume_state ch) q (tc_dropped ch), Some t)
    | None =>
        if sl_unread (tc_stats ch) then
          Some (mkTelemetryChannel (seen (tc_stats ch)) (tc_wake_stats ch) (tc_ambient_light ch) (tc_volume_state ch) (tc_queued ch) (tc_dropped ch),
                sl_value (tc_stats ch))
        else if sl_unread (tc_wake_stats ch) then
          Some (mkTelemetryChannel (tc_stats ch) (seen (tc_wake_stats ch)) (tc_ambient_light ch) (tc_volume_state ch) (tc_queued ch) (tc_dropped ch),
                sl_value (tc_wake_stats ch))
        else if sl_unread (tc_ambient_light ch) then
          Some (mkTelemetryChannel (tc_stats ch) (tc_wake_stats ch) (seen (tc_ambient_light ch)) (tc_volume_state ch) (tc_queued ch) (tc_dropped ch),
                sl_value (tc_ambient_light ch))
        else if sl_unread (tc_volume_state ch) then
          Some (mkTelemetryChannel (tc_stats ch) (tc_wake_stats ch) (tc_ambient_light ch) (seen (tc_volume_state ch)) (tc_queued ch) (tc_dropped ch),
                sl_value (tc_volume_state ch))
        else None
    end.

(** ** The order and the bounds of ingress *)
(** A history of a session's ingress: what the socket tasks queued and what the runtime
    took. *)
Record IngressRun := mkIngressRun {
  ir_core : SessionCore;
  ir_channel : IngressChannel;
  ir_accepted : list Ingress;
  ir_received : list IngressItem;
}.
Inductive ingress_step : IngressRun -> IngressRun -> Prop :=
  | Is_Push ingress bytes now c ch ch' accepted received :
      ingress_push ingress bytes now ch = Ok ch' ->
      ingress_step (mkIngressRun c ch accepted received) (mkIngressRun c ch' (accepted ++ [ingress]) received)
  | Is_Refused ingress bytes now reason c ch accepted received :
      ingress_push ingress bytes now ch = Err reason ->
      ingress_step (mkIngressRun c ch accepted received) (mkIngressRun (core_end reason c) ch accepted received)
  | Is_Received now item c ch c' ch' accepted received :
      ingress_recv now c ch = Some (c', ch', Some item) ->
      ingress_step (mkIngressRun c ch accepted received) (mkIngressRun c' ch' accepted (received ++ [item]))
  | Is_Over now c ch c' ch' accepted received :
      ingress_recv now c ch = Some (c', ch', None) ->
      ingress_step (mkIngressRun c ch accepted received) (mkIngressRun c' ch' accepted received)
  | Is_Ended reason c ch accepted received :
      ingress_step (mkIngressRun c ch accepted received) (mkIngressRun (core_end reason c) ch accepted received).

Fixpoint permits_held {A} (items : list (A * N)) : N :=
  match items with [] => 0 | (_, permits) :: items => permits + permits_held items end.
Lemma permits_held_app {A} (a b : list (A * N)) : permits_held (a ++ b) = permits_held a + permits_held b.
Proof. induction a as [|[x n] a IH]; cbn [app permits_held]; [lia|]. rewrite IH. lia. Qed.

(** What a push that succeeds leaves. *)
Lemma queue_push_ok {A} (item : A) bytes q q' :
  queue_push item bytes q = Ok q' ->
  qu_closed q = false /\ qu_closed q' = false /\ qu_capacity q' = qu_capacity q /\ (length (qu_items q) < qu_capacity q)%nat /\
  qu_items q' = qu_items q ++ [(item, N.min bytes u32_max)] /\ qu_credit q' + N.min bytes u32_max = qu_credit q.
Proof.
  unfold queue_push. destruct (qu_closed q); [done|]. destruct (Nat.leb_spec (qu_capacity q) (length (qu_items q))); [done|].
  destruct (N.ltb_spec (qu_credit q) (N.min bytes u32_max)); [done|]. intros [= <-]. cbn. split_and!; try done; lia.
Qed.

Section ingress.
Context (messages : nat) (bytes max_age : N).

Definition queued_ingress (ch : IngressChannel) : list Ingress := (fun x => qd_ingress (fst x)) <$> qu_items (ic_queue ch).
Record ingress_inv (r : IngressRun) : Prop := {
  ii_lost : exists lost, ir_accepted r = (ii_ingress <$> ir_received r) ++ lost ++ queued_ingress (ir_channel r) /\
    (lost <> [] -> qu_closed (ic_queue (ir_channel r)) = true /\ sc_stop (ir_core r) = true);
  ii_ordinals : ii_ordinal <$> ir_received r = N.of_nat <$> seq 0 (length (ir_received r));
  ii_next : ic_next (ir_channel r) = N.of_nat (length (ir_received r));
  ii_capacity : qu_capacity (ic_queue (ir_channel r)) = messages /\ (length (qu_items (ic_queue (ir_channel r))) <= messages)%nat;
  ii_credit : qu_credit (ic_queue (ir_channel r)) + permits_held (qu_items (ic_queue (ir_channel r))) = bytes;
  ii_max_age : ic_max_age (ir_channel r) = max_age;
}.

Lemma core_end_stop reason c : sc_stop (core_end reason c) = true.
Proof. unfold core_end, revoke_capture. by destruct (sc_capture _). Qed.
Lemma recv_inv now c ch c' ch' item :
  ingress_recv now c ch = Some (c', ch', item) ->
  (item = None /\ qu_items (ic_queue ch') = qu_items (ic_queue ch) /\ qu_credit (ic_queue ch') = qu_credit (ic_queue ch) /\
   qu_capacity (ic_queue ch') = qu_capacity (ic_queue ch) /\ ic_next ch' = ic_next ch /\ ic_max_age ch' = ic_max_age ch /\
   c' = c /\ (qu_closed (ic_queue ch') = true)) \/
  (exists queued permits rest, qu_items (ic_queue ch) = (queued, permits) :: rest /\ qu_items (ic_queue ch') = rest /\
     qu_credit (ic_queue ch') = qu_credit (ic_queue ch) + permits /\ qu_capacity (ic_queue ch') = qu_capacity (ic_queue ch) /\
     ic_max_age ch' = ic_max_age ch /\ sc_stop c = false /\
     ((item = None /\ qu_closed (ic_queue ch') = true /\ sc_stop c' = true /\ ic_next ch' = ic_next ch /\ ic_max_age ch < now - qd_enqueued_at queued) \/
      (item = Some (mkIngressItem (ic_next ch) (qd_enqueued_at queued) (qd_ingress queued)) /\ ic_next ch' = ic_next ch + 1 /\ c' = c /\
       qu_closed (ic_queue ch') = qu_closed (ic_queue ch) /\ now - qd_enqueued_at queued <= ic_max_age ch))).
Proof.
  unfold ingress_recv, queue_take. destruct (sc_stop c) eqn:Es; [intros [= <- <- <-]; left; by split_and!|].
  destruct (qu_items (ic_queue ch)) as [|[queued permits] rest] eqn:Ei.
  - destruct (qu_closed (ic_queue ch)) eqn:Ec; [|done]. intros [= <- <- <-]. left. rewrite Ei. by split_and!.
  - destruct (N.ltb_spec (ic_max_age ch) (now - qd_enqueued_at queued)); intros [= <- <- <-]; right; exists queued, permits, rest;
      split_and!; try done; [left|right]; split_and!; try done; apply core_end_stop.
Qed.

Lemma ingress_step_inv r r' : ingress_step r r' -> ingress_inv r -> ingress_inv r'.
Proof.
  intros Hs [(lost & Ha & Hl) Ho Hn [Hc Hlen] Hcr Hm]. destruct Hs as [ingress b now c ch ch' accepted received Hp| |now item c ch c' ch' accepted received Hp|now c ch c' ch' accepted received Hp|];
    cbn [ir_core ir_channel ir_accepted ir_received] in *.
  - unfold ingress_push in Hp. destruct (queue_push _ _ _) as [q|[]] eqn:E; try done. injection Hp as <-.
    apply queue_push_ok in E as (Eo & Eo' & Ecap & Hroom & Ei & Ecr). split; cbn [ir_core ir_channel ir_accepted ir_received ic_queue ic_next ic_max_age]; try done.
    + exists lost. split; [|intros Hx; destruct (Hl Hx); congruence]. unfold queued_ingress in *. cbn. rewrite Ei, fmap_app, Ha. cbn. by rewrite <- !app_assoc.
    + rewrite Ecap, Ei, length_app. cbn. split; [done|lia].
    + rewrite Ei, permits_held_app. cbn. lia.
  - split; cbn; try done. exists lost. split; [done|]. intros Hx. destruct (Hl Hx). split; [done|apply core_end_stop].
  - apply recv_inv in Hp as [(? & _)|(queued & permits & rest & Ei & Ei' & Ecr & Ecap & Em & Es & [(? & _)|(Eit & En & -> & Eo & _)])]; [done|done|].
    injection Eit as ->. assert (lost = []) as -> by (destruct lost; [done|]; destruct Hl as [_ Hst]; [done|congruence]).
    split; cbn [ir_core ir_channel ir_accepted ir_received]; try done; try congruence.
    + exists []. split; [|done]. unfold queued_ingress in *. rewrite Ha, Ei, Ei', !fmap_app. cbn. by rewrite <- !app_assoc.
    + rewrite fmap_app, length_app, seq_app, fmap_app, Ho. cbn. by rewrite Hn.
    + rewrite length_app. cbn. lia.
    + rewrite Ecap, Ei'. split; [done|]. rewrite Ei in Hlen. cbn in Hlen. lia.
    + rewrite Ecr, Ei'. rewrite Ei in Hcr. cbn in Hcr. lia.
  - apply recv_inv in Hp as [(_ & Ei & Ecr & Ecap & En & Em & -> & Eo)|(queued & permits & rest & Ei & Ei' & Ecr & Ecap & Em & Es & [(_ & Eo & Est & En & _)|(? & _)])]; [| |done];
      split; cbn [ir_core ir_channel ir_accepted ir_received]; try done; try congruence.
    + exists lost. unfold queued_ingress in *. rewrite Ei. split; [done|]. intros Hx. destruct (Hl Hx). done.
    + split; [congruence|]. by rewrite Ei.
    + exists (lost ++ [qd_ingress queued]). unfold queued_ingress in *. rewrite Ha, Ei, Ei'. cbn. rewrite <- !app_assoc. done.
    + rewrite Ecap, Ei'. split; [done|]. rewrite Ei in Hlen. cbn in Hlen. lia.
    + rewrite Ecr, Ei'. rewrite Ei in Hcr. cbn in Hcr. lia.
  - split; cbn; try done. exists lost. split; [done|]. intros Hx. destruct (Hl Hx). split; [done|apply core_end_stop].
Qed.
End ingress.

(** C22: The runtime takes what the sockets queued, in the order they queued it.  However
    the socket tasks, the runtime and whatever ends the session interleave, the items
    taken are the first items queued, numbered from zero without a gap; until the
    session ends none is lost; never more items than the slots or more bytes than the
    budget are held; and an item is handed over only within its residence limit. *)
Theorem ingress_is_ordered messages bytes max_age core r :
  rtc ingress_step (mkIngressRun core (ingress_channel messages bytes max_age) [] []) r ->
  (ii_ingress <$> ir_received r) `prefix_of` ir_accepted r /\
  (ii_ordinal <$> ir_received r = N.of_nat <$> seq 0 (length (ir_received r))) /\
  (sc_stop (ir_core r) = false -> ir_accepted r = (ii_ingress <$> ir_received r) ++ queued_ingress (ir_channel r)) /\
  (length (qu_items (ic_queue (ir_channel r))) <= messages)%nat /\ permits_held (qu_items (ic_queue (ir_channel r))) <= bytes /\
  (forall now c' ch' item, ingress_recv now (ir_core r) (ir_channel r) = Some (c', ch', Some item) ->
     now - ii_enqueued_at item <= max_age).
Proof.
  intros Hr. assert (Hinv : ingress_inv messages bytes max_age r).
  { assert (H0 : ingress_inv messages bytes max_age (mkIngressRun core (ingress_channel messages bytes max_age) [] [])).
    { split; cbn; try done; [by exists []|split; [done|lia]|lia]. }
    revert H0. induction Hr as [|x y z Hs _ IH]; [done|]. intros H0. by apply IH, (ingress_step_inv _ _ _ x). }
  destruct Hinv as [(lost & Ha & Hl) Ho Hn [Hc Hlen] Hcr Hm]. split_and!; [|done| |done|lia|].
  - rewrite Ha. by eexists.
  - intros Hstop. assert (lost = []) as -> by (destruct lost; [done|]; destruct Hl as [_ ?]; [done|congruence]). done.
  - intros now c' ch' item [(? & _)|(queued & permits & rest & _ & _ & _ & _ & _ & _ & [(? & _)|(Eit & _ & _ & _ & Hage)])]%recv_inv; [done|done|].
    injection Eit as ->. cbn. by rewrite <- Hm.
Qed.

(** ** The urgent path ends with the session's end *)
Record UrgentRun := mkUrgentRun {
  ur_core : SessionCore;
  ur_senders : bool;
  ur_channel : UrgentChannel;
  ur_accepted : list UrgentEvent;
  ur_received : list UrgentEvent;
}.
(** The control task queues privacy changes while it runs; it drops its end when the
    session has ended. *)
Inductive urgent_step : UrgentRun -> UrgentRun -> Prop :=
  | Us_Push header change c ch ch' accepted received :
      urgent_push (Ue_Privacy header change) ch = Ok ch' ->
      urgent_step (mkUrgentRun c true ch accepted received) (mkUrgentRun c true ch' (accepted ++ [Ue_Privacy header change]) received)
  | Us_Received event c senders ch ch' accepted received :
      urgent_recv senders c ch = Some (ch', Some event) ->
      urgent_step (mkUrgentRun c senders ch accepted received) (mkUrgentRun c senders ch' accepted (received ++ [event]))
  | Us_Over c senders ch ch' accepted received :
      urgent_recv senders c ch = Some (ch', None) ->
      urgent_step (mkUrgentRun c senders ch accepted received) (mkUrgentRun c senders ch' accepted received)
  | Us_Ended reason c senders ch accepted received :
      urgent_step (mkUrgentRun c senders ch accepted received) (mkUrgentRun (core_end reason c) senders ch accepted received)
  | Us_TaskDone c senders ch accepted received :
      sc_stop c = true -> urgent_step (mkUrgentRun c senders ch accepted received) (mkUrgentRun c false ch accepted received).
Definition urgent_events (ch : UrgentChannel) : list UrgentEvent := fst <$> qu_items (uc_queue ch).
Record urgent_inv (r : UrgentRun) : Prop := {
  uv_order : exists tail, ur_received r ++ urgent_events (ur_channel r) = ur_accepted r ++ tail /\
    if uc_ended (ur_channel r) then exists reason, tail = [Ue_Ended reason] /\ core_reason (ur_core r) = Some reason /\ sc_stop (ur_core r) = true
    else tail = [];
  uv_privacy : Forall (fun e => exists header change, e = Ue_Privacy header change) (ur_accepted r);
  uv_closed : uc_ended (ur_channel r) = true -> qu_closed (uc_queue (ur_channel r)) = true /\ urgent_events (ur_channel r) = [];
  uv_senders : ur_senders r = false -> sc_stop (ur_core r) = true;
}.

Lemma core_end_first reason r c : core_reason c = Some r -> sc_end c = Some r -> core_reason (core_end reason c) = Some r.
Proof. unfold core_end, revoke_capture, core_reason. intros _ E. destruct (sc_capture _); cbn; by rewrite E. Qed.
Lemma urgent_step_inv r r' :
  urgent_step r r' -> (sc_stop (ur_core r) = true -> is_Some (sc_end (ur_core r))) -> urgent_inv r ->
  urgent_inv r' /\ (sc_stop (ur_core r') = true -> is_Some (sc_end (ur_core r'))).
Proof.
  intros Hs Hn [(tail & Ho & Ht) Hp Hc Hse]. destruct Hs as [header change c ch ch' accepted received Hx|event c senders ch ch' accepted received Hx|c senders ch ch' accepted received Hx|reason c senders ch accepted received|c senders ch accepted received Hx];
    cbn [ur_core ur_senders ur_channel ur_accepted ur_received] in *.
  - split; [|done]. unfold urgent_push in Hx. destruct (queue_push _ _ _) as [q|[]] eqn:E; try done. injection Hx as <-.
    apply queue_push_ok in E as (Eo & Eo' & _ & _ & Ei & _).
    destruct (uc_ended ch) eqn:Ed; [destruct (Hc eq_refl); congruence|]. subst tail. rewrite app_nil_r in Ho.
    split; cbn; [|by apply Forall_app; split; [|constructor; eauto]|congruence|done].
    exists []. split; [|done]. unfold urgent_events in *. cbn. rewrite Ei, fmap_app, app_assoc, Ho. by rewrite app_nil_r.
  - split; [|done]. unfold urgent_recv, queue_take in Hx. destruct (uc_ended ch) eqn:Ed; [done|]. subst tail.
    unfold urgent_events in *. destruct (qu_items (uc_queue ch)) as [|[ev n] items] eqn:Ei.
    + destruct (sc_stop c || negb senders) eqn:Es; [|done]. injection Hx as <- <-. cbn in Ho. rewrite !app_nil_r in Ho. subst received.
      assert (Hstop : sc_stop c = true) by (destruct (sc_stop c); [done|]; destruct senders; [done|by apply Hse]).
      destruct (Hn Hstop) as [reason Hend]. assert (Hr : core_reason c = Some reason) by (unfold core_reason; by rewrite Hend).
      split; cbn; [|done|by rewrite Ei|done]. exists [Ue_Ended (ended_reason c)]. rewrite Ei. cbn. rewrite app_nil_r. split; [done|].
      exists reason. unfold ended_reason. rewrite Hr. by split_and!.
    + injection Hx as <- <-. split; cbn; [|done|done|done]. exists []. split; [|done]. rewrite <- Ho. cbn. by rewrite <- app_assoc.
  - split; [|done]. unfold urgent_recv, queue_take in Hx. destruct (uc_ended ch) eqn:Ed.
    + injection Hx as <-. split; cbn; [|done|intros _; exact (Hc eq_refl)|done]. exists tail. rewrite Ed. done.
    + destruct (qu_items (uc_queue ch)) as [|[]]; [|done]. by destruct (sc_stop c || negb senders).
  - assert (Hsome : is_Some (sc_end (core_end reason c))) by (unfold core_end, revoke_capture; destruct (sc_capture _); cbn; by eexists).
    split; [|done]. split; cbn; [|done|done|intros _; apply core_end_stop].
    exists tail. split; [done|]. destruct (uc_ended ch); [|done]. destruct Ht as (rs & -> & Hr & Hstop). exists rs.
    split_and!; [done| |apply core_end_stop]. destruct (Hn Hstop) as [rs' He]. apply core_end_first; [done|]. unfold core_reason in Hr. by rewrite He in *.
  - split; [|done]. split; cbn; [|done|done|done]. exists tail. done.
Qed.

(** The urgent events come in order, all of them before the end, which comes once, with
    the reason the session ended for, and last. *)
Theorem urgent_ends_once core capacity r :
  rtc urgent_step (mkUrgentRun core true (urgent_channel capacity) [] []) r -> sc_stop core = false ->
  (ur_received r `prefix_of` ur_accepted r /\ uc_ended (ur_channel r) = false) \/
  (exists reason, ur_received r = ur_accepted r ++ [Ue_Ended reason] /\ core_reason (ur_core r) = Some reason).
Proof.
  intros Hr Hnew. assert (Hinv : urgent_inv r).
  { assert (H0 : urgent_inv (mkUrgentRun core true (urgent_channel capacity) [] [])) by (split; cbn; [by exists []|done|done|done]).
    assert (Hn : sc_stop (ur_core (mkUrgentRun core true (urgent_channel capacity) [] [])) = true ->
                 is_Some (sc_end (ur_core (mkUrgentRun core true (urgent_channel capacity) [] [])))) by (cbn; congruence).
    clear Hnew. revert H0 Hn. induction Hr as [|x y z Hs _ IH]; [done|]. intros H0 Hn.
    destruct (urgent_step_inv x y Hs Hn H0) as [H1 Hn1]. by apply IH. }
  destruct Hinv as [(tail & Ho & Ht) _ Hc _]. destruct (uc_ended (ur_channel r)) eqn:Ed.
  - right. destruct (Hc eq_refl) as [_ Hq]. rewrite Hq, app_nil_r in Ho. destruct Ht as (reason & -> & Hre & _). by exists reason.
  - left. subst tail. rewrite app_nil_r in Ho. split; [|done]. rewrite <- Ho. by eexists.
Qed.

(** ** Telemetry is counted *)
(** A history of [log] and [ble_adverts]: how many were offered, and those delivered. *)
Record TelemetryRun := mkTelemetryRun { tr_channel : TelemetryChannel; tr_offered : N; tr_delivered : list Telemetry }.
Definition queued_kind (k : TelemetryKind) : bool := bool_decide (k = Tk_Log) || bool_decide (k = Tk_BleAdverts).
Inductive telemetry_step (c : SessionCore) : TelemetryRun -> TelemetryRun -> Prop :=
  | Ts_Push kind env ch offered delivered :
      telemetry_step c (mkTelemetryRun ch offered delivered)
        (mkTelemetryRun (telemetry_push kind env ch) (if queued_kind kind then offered + 1 else offered) delivered)
  | Ts_Received t ch ch' offered delivered :
      telemetry_recv c ch = Some (ch', Some t) ->
      telemetry_step c (mkTelemetryRun ch offered delivered)
        (mkTelemetryRun ch' offered (if queued_kind (te_kind t) then delivered ++ [t] else delivered)).
Fixpoint counted (l : list Telemetry) : N := match l with [] => 0 | t :: l => te_dropped_before t + 1 + counted l end.
Lemma counted_app a b : counted (a ++ b) = counted a + counted b.
Proof. induction a as [|t a IH]; cbn [app counted]; [lia|]. rewrite IH. lia. Qed.
Definition slot_ok (k : TelemetryKind) (s : Slot) : Prop :=
  match sl_value s with Some t => te_kind t = k /\ te_dropped_before t = 0 | None => sl_unread s = false end.
Record telemetry_inv (r : TelemetryRun) : Prop := {
  ti_stats : slot_ok Tk_Stats (tc_stats (tr_channel r));
  ti_wake_stats : slot_ok Tk_WakeStats (tc_wake_stats (tr_channel r));
  ti_ambient_light : slot_ok Tk_AmbientLight (tc_ambient_light (tr_channel r));
  ti_volume_state : slot_ok Tk_VolumeState (tc_volume_state (tr_channel r));
  ti_queued : Forall (fun t => queued_kind (te_kind t) = true) (fst <$> qu_items (tc_queued (tr_channel r)));
  ti_count : tr_offered r = counted (tr_delivered r) + counted (fst <$> qu_items (tc_queued (tr_channel r))) + tc_dropped (tr_channel r);
}.
Lemma telemetry_step_inv c r r' : telemetry_step c r r' -> telemetry_inv r -> telemetry_inv r'.
Proof.
  intros Hs [H1 H2 H3 H4 Hq Hc]. destruct Hs as [kind env ch offered delivered|t ch ch' offered delivered Hx]; cbn [tr_channel tr_offered tr_delivered] in *.
  - destruct kind; cbn [telemetry_push queued_kind];
      try (split; cbn [tr_channel tr_offered tr_delivered tc_stats tc_wake_stats tc_ambient_light tc_volume_state tc_queued tc_dropped]; by try done).
    all: destruct (queue_push _ _ _) as [q|] eqn:E;
      [apply queue_push_ok in E as (_ & _ & _ & _ & Ei & _); split;
         cbn [tr_channel tr_offered tr_delivered tc_stats tc_wake_stats tc_ambient_light tc_volume_state tc_queued tc_dropped]; try done; rewrite ?Ei, fmap_app;
         [apply Forall_app; split; [done|by apply Forall_singleton]|rewrite counted_app; cbn [fmap list_fmap fst counted te_dropped_before]]
      |split; cbn [tr_channel tr_offered tr_delivered tc_stats tc_wake_stats tc_ambient_light tc_volume_state tc_queued tc_dropped]; try done].
    all: replace (queued_kind _) with true by reflexivity; lia.
  - unfold telemetry_recv, queue_take in Hx. destruct (sc_stop c); [done|].
    destruct (qu_items (tc_queued ch)) as [|[q n] items] eqn:Ei.
    + cbn in Hc. destruct (sl_unread (tc_stats ch)) eqn:E1; [|destruct (sl_unread (tc_wake_stats ch)) eqn:E2;
        [|destruct (sl_unread (tc_ambient_light ch)) eqn:E3; [|destruct (sl_unread (tc_volume_state ch)) eqn:E4; [|done]]]];
        injection Hx as <- Et.
      all: match type of Et with sl_value ?s = _ => match goal with H : slot_ok _ s |- _ => pose proof H as Hk; unfold slot_ok in Hk; rewrite Et in Hk; destruct Hk as [Hk Hk0] end end.
      all: rewrite Hk; split; cbn [tr_channel tr_offered tr_delivered tc_stats tc_wake_stats tc_ambient_light tc_volume_state tc_queued tc_dropped];
        rewrite ?Ei; try done; unfold slot_ok, seen; cbn [sl_value]; rewrite Et; by split.
    + injection Hx as <- <-. cbn in Hq, Hc. apply Forall_cons in Hq as [Hk Hq]. rewrite Hk. split; cbn; try done.
      rewrite counted_app. cbn. lia.
Qed.
(** Each delivered [log] or [ble_adverts] tells how many were dropped before it, so none
    goes uncounted: those offered are those delivered or queued, those they count, and
    those dropped since the last one queued. *)
Theorem telemetry_is_counted c capacity r :
  rtc (telemetry_step c) (mkTelemetryRun (telemetry_channel capacity) 0 []) r ->
  tr_offered r = counted (tr_delivered r) + counted (fst <$> qu_items (tc_queued (tr_channel r))) + tc_dropped (tr_channel r).
Proof.
  intros Hr. assert (telemetry_inv r) as [? ? ? ? ? Hc]; [|done].
  assert (H0 : telemetry_inv (mkTelemetryRun (telemetry_channel capacity) 0 [])) by (by split).
  revert H0. induction Hr as [|x y z Hs _ IH]; [done|]. intros H0. by apply IH, (telemetry_step_inv c x).
Qed.

(** ** Samples *)
Definition sample_ingress (n : N) : Ingress :=
  Ig_Control (mkDeviceEnvelope (mkEnvelopeHeader (Some "s-1") ("m-" +:+ pretty n) "dev-1" 0) (Dm_Heartbeat (mkHeartbeat n))).
Definition sample_channel : IngressChannel := ingress_channel 2 100 2000.
Definition sample_push (n bytes now : N) (ch : IngressChannel) : IngressChannel :=
  match ingress_push (sample_ingress n) bytes now ch with Ok ch => ch | Err _ => ch end.
Definition sample_two : IngressChannel := sample_push 2 60 11 (sample_push 1 40 10 sample_channel).
Definition refused (r : result CloseReason IngressChannel) : option CloseReason := match r with Ok _ => None | Err reason => Some reason end.
Example sample_bounds :
  refused (ingress_push (sample_ingress 3) 1 12 sample_two) = Some (Lc_Overloaded Qk_Ingress "every ingress slot is taken") /\
  refused (ingress_push (sample_ingress 2) 61 12 (sample_push 1 40 10 sample_channel))
    = Some (Lc_Overloaded Qk_Ingress "the ingress byte budget cannot take 61 more bytes").
Proof. split; vm_compute; reflexivity. Qed.
Definition sample_taken : IngressRun :=
  match ingress_recv 500 sample_core sample_two with
  | Some (c, ch, Some item) => mkIngressRun c ch [sample_ingress 1; sample_ingress 2] [item]
  | _ => mkIngressRun sample_core sample_two [] []
  end.
Lemma ingress_is_ordered_witness : (ii_ingress <$> ir_received sample_taken) `prefix_of` [sample_ingress 1; sample_ingress 2].
Proof.
  refine (proj1 (ingress_is_ordered 2 100 2000 sample_core sample_taken _)).
  eapply rtc_l; [apply (Is_Push (sample_ingress 1) 40 10); vm_compute; reflexivity|].
  eapply rtc_l; [apply (Is_Push (sample_ingress 2) 60 11); vm_compute; reflexivity|].
  eapply rtc_l; [apply (Is_Received 500); vm_compute; reflexivity|]. apply rtc_refl.
Defined.
