(* ===== verification/LinkControl.v ===== *)
(** * The control task and the audio sockets ([link/src/control.rs])

    [SessionRunner::run] and [ControlTask::run] with every arm of its loop, the audio
    reader and the audio writer, and the limits and deadlines they run under
    ([link/src/config.rs]).  Times are nanoseconds of one monotonic clock. *)
From stdpp Require Import strings gmap pretty.
From S2P Require Import Prelude Bytes WireEnum Float Ema Vocab Streams Clock Blocks Buffer Timeline Delivery Cursor Uplink UplinkInv UplinkReach Json Policy Session StreamBodies Envelope Arbiter Link LinkIngress.

(** ** The text of a refused audio frame ([Display for FrameError]) *)
(** [{:02x}] of a byte and [{:x}] of a word. *)
Definition hex2 (b : N) : string := String (hex_digit (b / 16)) (String (hex_digit (b mod 16)) "").
Fixpoint hex_digits (fuel : nat) (n : N) (acc : string) : string :=
  match fuel with
  | O => acc
  | S fuel =>
      let acc := String (hex_digit (n mod 16)) acc in
      if n / 16 =? 0 then acc else hex_digits fuel (n / 16) acc
  end.
(** Eight digits write every [u32]. *)
Definition hex32 (n : N) : string := hex_digits 8 n "".
Definition bytes_debug (bytes : list byte) : string :=
  "[" +:+ String.concat ", " ((fun b => hex2 (Byte.to_N b)) <$> bytes) +:+ "]".
Definition cell_error_display (e : CellError) : string :=
  match e with
  | Loudness e => "loudness " +:+ pretty e +:+ " outside [-12000, 0]"
  | CellUndefinedFlags b => "flags 0x" +:+ hex2 b +:+ " set undefined bits"
  | CellUndefinedSources b => "source mask 0x" +:+ hex2 b +:+ " sets undefined bits"
  | GapLoudness e => "gap cell has loudness " +:+ pretty e +:+ ", not -12000"
  end.
Definition afe_error_display (e : AfeError) : string :=
  match e with
  | ReservedFlags b => "flags 0x" +:+ hex2 b +:+ " set reserved bits"
  | OutOfRange field value max => field +:+ " " +:+ pretty value +:+ " above " +:+ pretty max
  end.
Definition frame_error_display (e : FrameError) : string :=
  match e with
  | Fe_Short n => "frame of " +:+ pretty n +:+ " bytes is shorter than the header"
  | Fe_Magic m => "bad magic " +:+ bytes_debug m
  | Fe_Kind k => "unknown kind " +:+ pretty k
  | Fe_UndefinedFlags b => "flags 0x" +:+ hex2 b +:+ " set undefined bits"
  | Fe_DigitalSilenceOutsideReference k =>
      "digital silence on kind " +:+ pretty (kind_u8 k) +:+ ", defined for reference packets only"
  | Fe_Channels c => "channels must be 1, got " +:+ pretty c
  | Fe_Format kind format => "format " +:+ pretty format +:+ " is wrong for kind " +:+ pretty (kind_u8 kind)
  | Fe_ZeroEpoch => "epoch 0 is reserved"
  | Fe_SampleRate kind rate => "sample rate " +:+ pretty rate +:+ " is wrong for kind " +:+ pretty (kind_u8 kind)
  | Fe_FrameCount kind count =>
      "frame count " +:+ pretty count +:+ " outside 1..=" +:+ pretty (kind_max_frames kind) +:+ " for kind " +:+ pretty (kind_u8 kind)
  | Fe_Generation kind generation =>
      "generation " +:+ pretty generation +:+ " on kind " +:+ pretty (kind_u8 kind) +:+ ", allowed on kind 3 only"
  | Fe_SourceMask kind mask => "source mask 0x" +:+ hex32 mask +:+ " invalid for kind " +:+ pretty (kind_u8 kind)
  | Fe_CellAlignment s => "cell packet first sample " +:+ pretty s +:+ " is not a multiple of 512"
  | Fe_AfeAlignment s => "afe packet first sample " +:+ pretty s +:+ " is not a multiple of 1280"
  | Fe_PayloadBytes expected header => "payload bytes " +:+ pretty header +:+ ", expected " +:+ pretty expected
  | Fe_FrameLength header actual =>
      "frame carries " +:+ pretty actual +:+ " payload bytes, header says " +:+ pretty header
  | Fe_SampleOverflow => "sample index overflows uint64"
  | Fe_Cell index error => "cell record " +:+ pretty index +:+ ": " +:+ cell_error_display error
  | Fe_Afe index error => "afe record " +:+ pretty index +:+ ": " +:+ afe_error_display error
  | Fe_UncertaintySentinel => "uncertainty 0xffffffff means unknown; encode None"
  | Fe_PayloadTooLong n => "payload of " +:+ pretty n +:+ " bytes does not fit the header"
  end.
Definition frame_violation (e : FrameError) : ProtocolError := mkProtocolError Pe_MalformedFrame (frame_error_display e).

(** ** Limits and deadlines *)
(** [tokio::sync::Semaphore::MAX_PERMITS], [usize::MAX >> 3] on a 64-bit machine. *)
Definition MAX_PERMITS : N := 2 ^ 61 - 1.
Record QueueLimits := mkQueueLimits { ql_messages : nat; ql_bytes : N; ql_max_age : N }.
Definition queue_limits_valid (l : QueueLimits) : bool :=
  negb ((ql_messages l =? 0)%nat || (ql_bytes l =? 0) || (ql_max_age l =? 0) ||
        (MAX_PERMITS <? N.of_nat (ql_messages l)) || (MAX_PERMITS <? ql_bytes l)).
Record EgressLimits := mkEgressLimits { el_messages : nat; el_bytes : N }.
Record LinkLimits := mkLinkLimits {
  ll_ingress : QueueLimits;
  ll_urgent_events : nat;
  ll_telemetry_events : nat;
  ll_control_egress : EgressLimits;
  ll_render_egress : EgressLimits;
}.
Inductive LinkConfigError := Lk_MissingTlsCredentials | Lk_InvalidLimits | Lk_InvalidTimings.
Definition egress_ok (e : EgressLimits) : bool :=
  (0 <? el_messages e)%nat && (N.of_nat (el_messages e) <=? MAX_PERMITS) && (0 <? el_bytes e) && (el_bytes e <=? MAX_PERMITS).
Definition limits_validate (l : LinkLimits) : result LinkConfigError unit :=
  let ok := queue_limits_valid (ll_ingress l)
    && (0 <? ll_urgent_events l)%nat && (N.of_nat (ll_urgent_events l) <=? MAX_PERMITS)
    && (0 <? ll_telemetry_events l)%nat && (N.of_nat (ll_telemetry_events l) <=? MAX_PERMITS)
    && egress_ok (ll_control_egress l) && egress_ok (ll_render_egress l)
    && (MAX_CONTROL_BYTES <=? el_bytes (ll_control_egress l)) in
  if ok then Ok tt else Err Lk_InvalidLimits.
Definition default_limits : LinkLimits :=
  mkLinkLimits (mkQueueLimits 1024 (4 * 1024 * 1024) 2000000000) 16 64
    (mkEgressLimits 256 (4 * 1024 * 1024)) (mkEgressLimits 128 (1024 * 1024)).

Record LinkTimings := mkLinkTimings {
  lt_hello : N; lt_ready : N; lt_audio_join : N; lt_heartbeat : N; lt_degraded : N; lt_lost : N; lt_write : N; lt_tls_handshake : N;
}.
Definition timings_validate (t : LinkTimings) : result LinkConfigError unit :=
  let all := [lt_hello t; lt_ready t; lt_audio_join t; lt_heartbeat t; lt_degraded t; lt_lost t; lt_write t; lt_tls_handshake t] in
  if existsb (fun d => d =? 0) all || (lt_lost t <? lt_degraded t) then Err Lk_InvalidTimings else Ok tt.
Definition default_timings : LinkTimings :=
  mkLinkTimings 10000000000 10000000000 10000000000 1000000000 2000000000 3000000000 3000000000 10000000000.
Definition config_validate (limits : LinkLimits) (timings : LinkTimings) : result LinkConfigError unit :=
  let? _ := limits_validate limits in timings_validate timings.

(** ** The control task *)
Record HeartbeatSample := mkHeartbeatSample { hs_device_mono_ns : N; hs_received_at : N }.
Record LinkStatus := mkLinkStatus { lk_degraded : bool; lk_last_heartbeat : option HeartbeatSample; lk_audio_joined : bool }.
Definition status_default : LinkStatus := mkLinkStatus false None false.
Definition with_degraded (degraded : bool) (s : LinkStatus) : LinkStatus :=
  mkLinkStatus degraded (lk_last_heartbeat s) (lk_audio_joined s).
Definition with_heartbeat (sample : HeartbeatSample) (s : LinkStatus) : LinkStatus :=
  mkLinkStatus (lk_degraded s) (Some sample) (lk_audio_joined s).
Definition with_audio_joined (s : LinkStatus) : LinkStatus := mkLinkStatus (lk_degraded s) (lk_last_heartbeat s) true.

(** [kt_render_rx]: the render queue's receiver has not been taken. *)
Record ControlTask := mkControlTask {
  kt_commands : Commands;
  kt_ingress : IngressChannel;
  kt_urgent : UrgentChannel;
  kt_telemetry : TelemetryChannel;
  kt_status : LinkStatus;
  kt_render_rx : bool;
  kt_last_rx : N;
  kt_degraded : bool;
}.
Definition kt_core (t : ControlTask) : SessionCore := cm_core (kt_commands t).
(** [new_session] and what [SessionRunner::run] starts the task with. *)
Definition new_session (core : SessionCore) (limits : LinkLimits) (now : N) : ControlTask :=
  mkControlTask (commands_new core (el_messages (ll_control_egress limits)) (el_bytes (ll_control_egress limits)))
    (ingress_channel (ql_messages (ll_ingress limits)) (ql_bytes (ll_ingress limits)) (ql_max_age (ll_ingress limits)))
    (urgent_channel (ll_urgent_events limits)) (telemetry_channel (ll_telemetry_events limits))
    status_default true now false.
Definition set_commands (s : Commands) (t : ControlTask) : ControlTask :=
  mkControlTask s (kt_ingress t) (kt_urgent t) (kt_telemetry t) (kt_status t) (kt_render_rx t) (kt_last_rx t) (kt_degraded t).
Definition set_core (c : SessionCore) (t : ControlTask) : ControlTask := set_commands (with_core c (kt_commands t)) t.
Definition set_ingress (ch : IngressChannel) (t : ControlTask) : ControlTask :=
  mkControlTask (kt_commands t) ch (kt_urgent t) (kt_telemetry t) (kt_status t) (kt_render_rx t) (kt_last_rx t) (kt_degraded t).
Definition set_urgent (ch : UrgentChannel) (t : ControlTask) : ControlTask :=
  mkControlTask (kt_commands t) (kt_ingress t) ch (kt_telemetry t) (kt_status t) (kt_render_rx t) (kt_last_rx t) (kt_degraded t).
Definition set_telemetry (ch : TelemetryChannel) (t : ControlTask) : ControlTask :=
  mkControlTask (kt_commands t) (kt_ingress t) (kt_urgent t) ch (kt_status t) (kt_render_rx t) (kt_last_rx t) (kt_degraded t).
Definition set_status (f : LinkStatus -> LinkStatus) (t : ControlTask) : ControlTask :=
  mkControlTask (kt_commands t) (kt_ingress t) (kt_urgent t) (kt_telemetry t) (f (kt_status t)) (kt_render_rx t) (kt_last_rx t) (kt_degraded t).
Definition set_liveness (last_rx : N) (degraded : bool) (t : ControlTask) : ControlTask :=
  mkControlTask (kt_commands t) (kt_ingress t) (kt_urgent t) (kt_telemetry t) (kt_status t) (kt_render_rx t) last_rx degraded.
Definition take_render (t : ControlTask) : ControlTask :=
  mkControlTask (kt_commands t) (kt_ingress t) (kt_urgent t) (kt_telemetry t) (kt_status t) false (kt_last_rx t) (kt_degraded t).

(** A step of the task: what it leaves, and why the session ends when it does. *)
Abbreviation Step := (ControlTask * result CloseReason unit)%type.

Section task.
Context `{SerdeJson}.

(** [ControlTask::send]. *)
Definition task_send {B} `{ControlBody B} (fresh : string) (body : B) (t : ControlTask) : Step :=
  match encode_envelope fresh body (Some (sc_session_id (kt_core t))) (sc_device (kt_core t)) 0 with
  | Err _ => (t, Ok tt)
  | Ok encoded =>
      let '(s, answer) := link_send (ee_text encoded) (kt_commands t) in
      (set_commands s t,
       match answer with
       | Ok _ => Ok tt
       | Err (Se_SessionEnded reason) => Err reason
       | Err (Se_Overloaded | Se_Encode _) => Err (ended_reason (cm_core s))
       end)
  end.
Definition reply_clock (fresh : string) (utc_ms : option N) (request : ClockRequest) (t : ControlTask) : Step :=
  match utc_ms with
  | None => (t, Ok tt)
  | Some utc_ms => task_send fresh (clock_reply_to request utc_ms) t
  end.
(** [elapsed]: since the server started. *)
Definition send_heartbeat (fresh : string) (elapsed : N) (t : ControlTask) : Step :=
  task_send fresh (mkHeartbeat (if elapsed <=? u64_max then elapsed else u64_max)) t.

Definition on_privacy (header : EnvelopeHeader) (change : PrivacyChange) (t : ControlTask) : Step :=
  let t := if pv_muted change then set_core (revoke_capture (kt_core t)) t else t in
  match urgent_push (Ue_Privacy header change) (kt_urgent t) with
  | Ok ch => (set_urgent ch t, Ok tt)
  | Err reason => (t, Err reason)
  end.

(** The last arm of [on_text]. *)
Definition on_other (now : N) (text : string) (envelope : DeviceEnvelope) (t : ControlTask) : Step :=
  match telemetry_kind (message_type (de_message envelope)) with
  | Some kind => (set_telemetry (telemetry_push kind envelope (kt_telemetry t)) t, Ok tt)
  | None =>
      match ingress_push (Ig_Control envelope) (text_len text) now (kt_ingress t) with
      | Ok ch => (set_ingress ch t, Ok tt)
      | Err reason => (t, Err reason)
      end
  end.
(** [utc_ms] is what the wall clock gives, [fresh] the id of a message the answer needs. *)
Definition on_text (fresh : string) (utc_ms : option N) (now : N) (text : string) (t : ControlTask) : Step :=
  match parse_envelope (Cf_Text text) with
  | Err e => (t, Err (Lc_ProtocolViolation e))
  | Ok inbound =>
      match check_live_session inbound (sc_session_id (kt_core t)) (sc_device (kt_core t)) with
      | Err e => (t, Err (Lc_ProtocolViolation e))
      | Ok _ =>
          match inbound with
          | In_Unknown _ => (t, Ok tt)
          | In_Known envelope =>
              match de_message envelope with
              | Dm_Heartbeat heartbeat => (set_status (with_heartbeat (mkHeartbeatSample (hb_mono_ns heartbeat) now)) t, Ok tt)
              | Dm_ClockRequest request => reply_clock fresh utc_ms request t
              | Dm_CommandAck ack => (set_commands (task_ack ack (kt_commands t)) t, Ok tt)
              | Dm_ProtocolError report => (t, Err (Lc_DeviceProtocolError report))
              | Dm_SessionHello _ =>
                  (t, Err (Lc_ProtocolViolation (mkProtocolError Pe_UnexpectedMessage "session.hello on a live session")))
              | Dm_Other Mt_PrivacyChanged body =>
                  match privacy_parse body with
                  | Err e => (t, Err (Lc_ProtocolViolation e))
                  | Ok change => on_privacy (de_header envelope) change t
                  end
              | _ => on_other now text envelope t
              end
          end
      end
  end.

(** What [stream.next] gives: a frame, the end of the stream or an error. *)
Inductive SocketRead :=
  | Rd_Text (text : string)
  | Rd_Binary (bytes : list byte)
  | Rd_KeepAlive
  | Rd_Closed
  | Rd_Failed (detail : string).
Definition saw_control (now : N) (t : ControlTask) : ControlTask :=
  if kt_degraded t then set_status (with_degraded false) (set_liveness now false t) else set_liveness now false t.
(** The parse of a binary frame never succeeds ([binary_never_parses]); the
    [PanicGuard] would end the session if it did. *)
Definition on_message (fresh : string) (utc_ms : option N) (now : N) (message : SocketRead) (t : ControlTask) : Step :=
  match message with
  | Rd_Text text => on_text fresh utc_ms now text (saw_control now t)
  | Rd_Binary bytes =>
      let t := saw_control now t in
      match parse_envelope (Cf_Binary bytes) with
      | Err e => (t, Err (Lc_ProtocolViolation e))
      | Ok _ => (t, Err (Lc_TaskPanicked "control"))
      end
  | Rd_KeepAlive => (t, Ok tt)
  | Rd_Closed => (t, Err (Lc_SocketClosed Sk_Control "closed by the device"))
  | Rd_Failed detail => (t, Err (Lc_SocketClosed Sk_Control detail))
  end.
Definition on_silence (t : ControlTask) : Step :=
  if kt_degraded t then (t, Err Lc_HeartbeatLost)
  else (set_status (with_degraded true) (set_liveness (kt_last_rx t) true t), Ok tt).
(** The sockets' tasks it spawns have their own steps below. *)
Definition start_audio (t : ControlTask) : ControlTask :=
  if kt_render_rx t then set_status with_audio_joined (take_render t) else t.

(** The last text frame the control writer sends once the queue is discarded. *)
Definition writer_last_frame (fresh : string) (c : SessionCore) : option string :=
  match core_reason c with
  | Some (Lc_ProtocolViolation e) =>
      match encode_envelope fresh e (Some (sc_session_id c)) (sc_device c) 0 with Ok encoded => Some (ee_text encoded) | Err _ => None end
  | _ => None
  end.

(** ** The loop *)
(** The interval's next tick, from the last one's time, the time it was taken at and the
    period: Tokio's [Interval] with [MissedTickBehavior::Delay]. *)
Context (next_tick : N -> N -> N -> N).
Record ControlLoop := mkControlLoop {
  cl_task : ControlTask;
  cl_start : N;
  cl_audio_pending : bool;
  cl_join_open : bool;
  cl_next_beat : N;
  cl_done : bool;
}.
Definition loop_start (timings : LinkTimings) (t : ControlTask) (now : N) : ControlLoop :=
  mkControlLoop t now true true (now + lt_heartbeat timings) false.
Definition loop_with (t : ControlTask) (l : ControlLoop) : ControlLoop :=
  mkControlLoop t (cl_start l) (cl_audio_pending l) (cl_join_open l) (cl_next_beat l) (cl_done l).

(** The arms of the [select]; the token's arm leaves the loop. *)
Inductive Arm :=
  | Arm_Registration
  | Arm_LinksDropped
  | Arm_Expire (key : nat)
  | Arm_AudioJoined
  | Arm_AudioSenderDropped
  | Arm_AudioDeadline
  | Arm_Message (message : SocketRead)
  | Arm_Heartbeat (elapsed : N)
  | Arm_Silence.
(** [None]: the arm is not ready. *)
Definition loop_arm (timings : LinkTimings) (fresh : string) (utc_ms : option N) (now : N) (arm : Arm) (l : ControlLoop) :
    option (ControlLoop * result CloseReason unit) :=
  let t := cl_task l in
  let go := fun step : Step => Some (loop_with step.1 l, step.2) in
  match arm with
  | Arm_Registration => s ← task_registration (kt_commands t); go (set_commands s t, Ok tt)
  | Arm_LinksDropped => go (t, Err Lc_ClosedByController)
  | Arm_Expire key => s ← task_expire key now (kt_commands t); go (set_commands s t, Ok tt)
  | Arm_AudioJoined =>
      if cl_join_open l then Some (mkControlLoop (start_audio t) (cl_start l) false false (cl_next_beat l) (cl_done l), Ok tt) else None
  | Arm_AudioSenderDropped =>
      if cl_join_open l then Some (mkControlLoop t (cl_start l) (cl_audio_pending l) false (cl_next_beat l) (cl_done l), Ok tt) else None
  | Arm_AudioDeadline =>
      if cl_audio_pending l && (cl_start l + lt_audio_join timings <=? now) then go (t, Err Lc_AudioNotJoined) else None
  | Arm_Message message => go (on_message fresh utc_ms now message t)
  | Arm_Heartbeat elapsed =>
      if cl_next_beat l <=? now then
        let '(t, r) := send_heartbeat fresh elapsed t in
        Some (mkControlLoop t (cl_start l) (cl_audio_pending l) (cl_join_open l)
                (next_tick (cl_next_beat l) now (lt_heartbeat timings)) (cl_done l), r)
      else None
  | Arm_Silence =>
      let silence_limit := if kt_degraded t then lt_lost timings else lt_degraded timings in
      if kt_last_rx t + silence_limit <=? now then go (on_silence t) else None
  end.
(** One turn: an arm, then [core.end] when it failed and what follows the loop. *)
Definition loop_finish (l : ControlLoop) : ControlLoop :=
  mkControlLoop (set_commands (task_end (kt_commands (cl_task l))) (cl_task l)) (cl_start l) (cl_audio_pending l) (cl_join_open l)
    (cl_next_beat l) true.
Definition loop_turn (timings : LinkTimings) (fresh : string) (utc_ms : option N) (now : N) (arm : Arm) (l : ControlLoop) : option ControlLoop :=
  if cl_done l then None
  else
    '(l, r) ← loop_arm timings fresh utc_ms now arm l;
    Some (match r with
          | Ok _ => l
          | Err reason => loop_finish (loop_with (set_core (core_end reason (kt_core (cl_task l))) (cl_task l)) l)
          end).
(** The token's arm. *)
Definition loop_stopped (l : ControlLoop) : option ControlLoop :=
  if cl_done l || negb (sc_stop (kt_core (cl_task l))) then None else Some (loop_finish l).
End task.

(** ** The audio socket *)
(** One turn of [audio_reader], its token not seen cancelled. *)
Definition audio_read (now : N) (message : SocketRead) (ch : IngressChannel) : IngressChannel * result CloseReason unit :=
  match message with
  | Rd_Binary frame =>
      match Ema.parse frame with
      | Ok packet =>
          match ingress_push (Ig_Audio packet) (N.of_nat (length frame)) now ch with
          | Ok ch => (ch, Ok tt)
          | Err reason => (ch, Err reason)
          end
      | Err e => (ch, Err (Lc_ProtocolViolation (frame_violation e)))
      end
  | Rd_Text _ => (ch, Err (Lc_ProtocolViolation (mkProtocolError Pe_MalformedFrame "audio frames are binary")))
  | Rd_KeepAlive => (ch, Ok tt)
  | Rd_Closed => (ch, Err (Lc_SocketClosed Sk_Audio "closed by the device"))
  | Rd_Failed detail => (ch, Err (Lc_SocketClosed Sk_Audio detail))
  end.
Definition audio_reader_turn (now : N) (message : SocketRead) (t : ControlTask) : ControlTask * bool :=
  let '(ch, r) := audio_read now message (kt_ingress t) in
  let t := set_ingress ch t in
  match r with
  | Ok _ => (t, true)
  | Err reason => (set_core (core_end reason (kt_core t)) t, false)
  end.

(** A render frame and the token of its playback. *)
Record RenderOut := mkRenderOut { ro_frame : list byte; ro_playback : nat }.
Inductive RenderError := Rr_Full (frame : list byte) | Rr_NotRender | Rr_PlaybackCancelled | Rr_SessionEnded (reason : CloseReason).
Definition check_render (frame : list byte) (playback : nat) (cancelled : gset nat) (c : SessionCore) : result RenderError unit :=
  match core_reason c with
  | Some reason => Err (Rr_SessionEnded reason)
  | None =>
      if bool_decide (playback ∈ cancelled) then Err Rr_PlaybackCancelled
      else
        let? header := map_err (fun _ => Rr_NotRender) (decode_header frame) in
        let whole := N.of_nat (length frame) =? N.of_nat HEADER_BYTES + header_payload_bytes header in
        if negb (bool_decide (h_kind header = K_Render)) || negb whole then Err Rr_NotRender else Ok tt
  end.
Definition try_send_render (frame : list byte) (playback : nat) (cancelled : gset nat) (c : SessionCore) (q : Queue RenderOut) :
    result RenderError (Queue RenderOut) :=
  let? _ := check_render frame playback cancelled c in
  match queue_push (mkRenderOut frame playback) (N.of_nat (length frame)) q with
  | Ok q => Ok q
  | Err (Pu_Full | Pu_NoCredit) => Err (Rr_Full frame)
  | Err Pu_Closed => Err (Rr_SessionEnded (ended_reason c))
  end.
(** [audio_writer]: the frame it takes is written unless its playback is cancelled. *)
Record AudioWriter := mkAudioWriter {
  aw_core : SessionCore;
  aw_cancelled : gset nat;
  aw_queue : Queue RenderOut;
  aw_sending : option (RenderOut * N);
  aw_sent : list RenderOut;
  aw_done : bool;
}.
Definition audio_writer_new (c : SessionCore) (cancelled : gset nat) (limits : EgressLimits) : AudioWriter :=
  mkAudioWriter c cancelled (queue_new (el_messages limits) (el_bytes limits)) None [] false.
Definition aw_take (w : AudioWriter) : option AudioWriter :=
  if aw_done w || bool_decide (is_Some (aw_sending w)) then None
  else
    '(out, permits, q) ← queue_take (aw_queue w);
    if bool_decide (ro_playback out ∈ aw_cancelled w) then
      Some (mkAudioWriter (aw_core w) (aw_cancelled w) (queue_release permits q) None (aw_sent w) false)
    else Some (mkAudioWriter (aw_core w) (aw_cancelled w) q (Some (out, permits)) (aw_sent w) false).
Definition aw_wrote (w : AudioWriter) : option AudioWriter :=
  '(out, permits) ← aw_sending w;
  Some (mkAudioWriter (aw_core w) (aw_cancelled w) (queue_release permits (aw_queue w)) None (aw_sent w ++ [out]) (aw_done w)).
Definition aw_failed (detail : string) (w : AudioWriter) : option AudioWriter :=
  '(_, permits) ← aw_sending w;
  Some (mkAudioWriter (core_end (Lc_SocketClosed Sk_Audio detail) (aw_core w)) (aw_cancelled w)
          (queue_emptied (queue_close (queue_release permits (aw_queue w)))) None (aw_sent w) true).
Definition aw_stop (w : AudioWriter) : option AudioWriter :=
  if aw_done w || bool_decide (is_Some (aw_sending w)) || negb (sc_stop (aw_core w)) then None
  else Some (mkAudioWriter (aw_core w) (aw_cancelled w) (queue_emptied (queue_close (aw_queue w))) None (aw_sent w) true).

(** ** Silence *)
(** A history of the loop: its turns with their times, and what the runtime and the
    other tasks did in between to the state they share with it. *)
Definition same_clock (t t' : ControlTask) : Prop :=
  kt_status t' = kt_status t /\ kt_last_rx t' = kt_last_rx t /\ kt_degraded t' = kt_degraded t.
#[export] Instance same_clock_preorder : PreOrder same_clock.
Proof. split; [by intros t|]. intros a b c (? & ? & ?) (? & ? & ?). unfold same_clock. split_and!; congruence. Qed.

Section silence.
Context `{SerdeJson} (next_tick : N -> N -> N -> N) (timings : LinkTimings).

Inductive control_run (l0 : ControlLoop) : list (N * Arm) -> ControlLoop -> Prop :=
  | Rn_Start : control_run l0 [] l0
  | Rn_Turn turns l fresh utc_ms now arm l' :
      control_run l0 turns l -> Forall (fun turn => turn.1 <= now) turns -> cl_start l0 <= now ->
      loop_turn next_tick timings fresh utc_ms now arm l = Some l' ->
      control_run l0 (turns ++ [(now, arm)]) l'
  | Rn_Elsewhere turns l t :
      control_run l0 turns l -> same_clock (cl_task l) t -> control_run l0 turns (loop_with t l).

(** When a control frame, text or binary, was read. *)
Definition heard (turn : N * Arm) : option N :=
  match turn.2 with Arm_Message (Rd_Text _ | Rd_Binary _) => Some turn.1 | _ => None end.
Definition heard_at (start : N) (turns : list (N * Arm)) : list N := start :: omap heard turns.

Lemma send_clock {B} `{ControlBody B} fresh (body : B) t t' r : task_send fresh body t = (t', r) -> same_clock t t'.
Proof.
  unfold task_send. destruct (encode_envelope _ _ _ _ _); [|by intros [= <- <-]].
  destruct (link_send _ _). by intros [= <- <-].
Qed.
Lemma text_clock fresh utc_ms now text t t' r :
  on_text fresh utc_ms now text t = (t', r) ->
  kt_last_rx t' = kt_last_rx t /\ kt_degraded t' = kt_degraded t /\ lk_degraded (kt_status t') = lk_degraded (kt_status t).
Proof.
  assert (Hs : forall t t', same_clock t t' -> kt_last_rx t' = kt_last_rx t /\ kt_degraded t' = kt_degraded t /\ lk_degraded (kt_status t') = lk_degraded (kt_status t))
    by (intros a b (-> & -> & ->); done).
  unfold on_text. destruct (parse_envelope _) as [inbound|]; [|by intros [= <- <-]].
  destruct (check_live_session _ _ _); [|by intros [= <- <-]]. destruct inbound as [[h m]|]; [|by intros [= <- <-]].
  cbn [de_message de_header].
  assert (Ho : forall env, on_other now text env t = (t', r) ->
     kt_last_rx t' = kt_last_rx t /\ kt_degraded t' = kt_degraded t /\ lk_degraded (kt_status t') = lk_degraded (kt_status t)).
  { intros env. unfold on_other. destruct (telemetry_kind _); [by intros [= <- <-]|]. destruct (ingress_push _ _ _ _); by intros [= <- <-]. }
  destruct m as [| |request| | | | | |mt body]; try exact (Ho _); try (by intros [= <- <-]).
  - unfold reply_clock. destruct utc_ms; [|by intros [= <- <-]]. intros E. by apply Hs, (send_clock _ _ _ _ _ E).
  - destruct mt; try exact (Ho _). destruct (privacy_parse body); [|by intros [= <- <-]]. unfold on_privacy.
    destruct (urgent_push _ _); destruct (pv_muted _); by intros [= <- <-].
Qed.
Lemma binary_never_parses bytes : exists e, parse_envelope (Cf_Binary bytes) = Err e.
Proof. unfold parse_envelope, unpack, frame_object. eexists. reflexivity. Qed.

Lemma commands_clock s t : same_clock t (set_commands s t).
Proof. done. Qed.
Lemma saw_control_clock now t :
  kt_last_rx (saw_control now t) = now /\ kt_degraded (saw_control now t) = false /\
  (lk_degraded (kt_status t) = kt_degraded t -> lk_degraded (kt_status (saw_control now t)) = false).
Proof. unfold saw_control. destruct (kt_degraded t) eqn:E; by split_and!. Qed.

(** What the task knows of the silence. *)
Record silence_inv (start : N) (turns : list (N * Arm)) (t : ControlTask) : Prop := {
  si_heard : kt_last_rx t ∈ heard_at start turns;
  si_last : Forall (fun h => h <= kt_last_rx t) (heard_at start turns);
  si_status : lk_degraded (kt_status t) = kt_degraded t;
  si_degraded : kt_degraded t = true -> exists at_, (at_, Arm_Silence) ∈ turns /\ kt_last_rx t + lt_degraded timings <= at_;
}.
Lemma silence_clock start turns t t' : same_clock t t' -> silence_inv start turns t -> silence_inv start turns t'.
Proof. intros (E1 & E2 & E3) [H1 H2 H3 H4]. split; rewrite ?E1, ?E2, ?E3; done. Qed.
Lemma heard_app start turns turn : heard_at start (turns ++ [turn]) = heard_at start turns ++ option_list (heard turn).
Proof. unfold heard_at. rewrite omap_app. cbn. by destruct (heard turn). Qed.
(** A turn that heard nothing, the silence apart. *)
Lemma silence_quiet start turns turn t t' :
  heard turn = None -> same_clock t t' -> silence_inv start turns t -> silence_inv start (turns ++ [turn]) t'.
Proof.
  intros Hh (E1 & E2 & E3) [H1 H2 H3 H4]. split; rewrite ?heard_app, ?Hh, ?E1, ?E2, ?E3; cbn [option_list]; rewrite ?app_nil_r; try done.
  intros Hd. destruct (H4 Hd) as (at_ & Hin & Hle). exists at_. split; [set_solver|done].
Qed.
Lemma silence_heard start turns now arm t t' :
  heard (now, arm) = Some now -> Forall (fun turn => turn.1 <= now) turns -> start <= now ->
  kt_last_rx t' = now -> kt_degraded t' = false -> (lk_degraded (kt_status t) = kt_degraded t -> lk_degraded (kt_status t') = false) ->
  silence_inv start turns t -> silence_inv start (turns ++ [(now, arm)]) t'.
Proof.
  intros Hh Hle Hs E1 E2 E3 [H1 H2 H3 H4]. split; rewrite ?heard_app, ?Hh, ?E1, ?E2; cbn [option_list]; try done.
  - set_solver.
  - apply Forall_app. split; [|by apply Forall_singleton]. apply Forall_forall. intros h Hin. unfold heard_at in Hin.
    apply elem_of_cons in Hin as [->|Hin]; [done|]. apply list_elem_of_omap in Hin as ([at_ a] & Hin & Ha).
    rewrite Forall_forall in Hle. specialize (Hle _ Hin). cbn in Hle. unfold heard in Ha. cbn in Ha.
    destruct a as [| | | | | |[]| |]; simplify_eq; done.
  - by apply E3.
Qed.

(** An arm other than a frame and the silence leaves the clock alone. *)
Lemma arm_quiet fresh utc_ms now arm l l' r :
  loop_arm next_tick timings fresh utc_ms now arm l = Some (l', r) ->
  match arm with Arm_Message (Rd_Text _ | Rd_Binary _) | Arm_Silence => True | Arm_AudioJoined => True | _ => same_clock (cl_task l) (cl_task l') end.
Proof.
  destruct arm as [| |key| | | |[]| |]; cbn [loop_arm]; try done.
  - unfold task_registration. destruct (queue_take _) as [[[]]|]; [|done]. cbn. by intros [= <- <-].
  - by intros [= <- <-].
  - unfold task_expire. destruct (table_expire _ _ _ _) as [[]|]; [|done]. cbn. by intros [= <- <-].
  - destruct (cl_join_open l); [|done]. by intros [= <- <-].
  - destruct (_ && _); [|done]. by intros [= <- <-].
  - by intros [= <- <-].
  - by intros [= <- <-].
  - by intros [= <- <-].
  - destruct (_ <=? _); [|done]. destruct (send_heartbeat _ _ _) as [t' r'] eqn:E. intros [= <- <-]. exact (send_clock _ _ _ _ _ E).
Qed.

Lemma arm_inv start fresh utc_ms turns now arm l l' r :
  silence_inv start turns (cl_task l) -> Forall (fun turn => turn.1 <= now) turns -> start <= now ->
  loop_arm next_tick timings fresh utc_ms now arm l = Some (l', r) -> silence_inv start (turns ++ [(now, arm)]) (cl_task l').
Proof.
  intros Hinv Hle Hs Ha. pose proof (arm_quiet _ _ _ _ _ _ _ Ha) as Hq.
  destruct arm as [| |key| | | |[text|bytes| | |]| |]; try (by eapply silence_quiet); cbn [loop_arm] in Ha.
  - (* audio joined *) destruct (cl_join_open l); [|done]. injection Ha as <- <-. cbn [cl_task].
    destruct (silence_quiet start turns (now, Arm_AudioJoined) _ (cl_task l) eq_refl (reflexivity _) Hinv) as [I1 I2 I3 I4].
    assert (E : kt_last_rx (start_audio (cl_task l)) = kt_last_rx (cl_task l) /\ kt_degraded (start_audio (cl_task l)) = kt_degraded (cl_task l) /\
              lk_degraded (kt_status (start_audio (cl_task l))) = lk_degraded (kt_status (cl_task l)))
      by (unfold start_audio; by destruct (kt_render_rx _)).
    destruct E as (E1 & E2 & E3). split; rewrite ?E1, ?E2, ?E3; done.
  - (* text *) destruct (saw_control_clock now (cl_task l)) as (E1 & E2 & E3). cbn [on_message] in Ha.
    destruct (on_text _ _ _ _ _) as [t' r'] eqn:Et. injection Ha as <- <-. apply text_clock in Et as (F1 & F2 & F3).
    cbn [cl_task loop_with fst]. eapply silence_heard; try done; rewrite ?F1, ?F2, ?F3; done.
  - destruct (saw_control_clock now (cl_task l)) as (E1 & E2 & E3). cbn [on_message] in Ha.
    destruct (binary_never_parses bytes) as (e & He). rewrite He in Ha. injection Ha as <- <-. by eapply silence_heard.
  - destruct (N.leb_spec (kt_last_rx (cl_task l) + (if kt_degraded (cl_task l) then lt_lost timings else lt_degraded timings)) now) as [Hg|]; [|done].
    unfold on_silence in Ha. destruct (kt_degraded (cl_task l)) eqn:Ed; injection Ha as <- <-; cbn [cl_task loop_with fst].
    + by eapply silence_quiet.
    + destruct Hinv as [I1 I2 I3 I4]. split; rewrite ?heard_app; cbn; rewrite ?app_nil_r; try done.
      intros _. exists now. split; [set_solver|done].
Qed.

Lemma loop_run_inv l0 turns l :
  kt_last_rx (cl_task l0) = cl_start l0 -> kt_degraded (cl_task l0) = false -> lk_degraded (kt_status (cl_task l0)) = false ->
  control_run l0 turns l -> silence_inv (cl_start l0) turns (cl_task l).
Proof.
  intros E1 E2 E3. induction 1 as [|turns l fresh utc_ms now arm l' Hr IH Hle Hs Ht|turns l t Hr IH Hc].
  - split; rewrite ?E1, ?E2, ?E3; try done; cbn; [set_solver|by apply Forall_singleton].
  - unfold loop_turn in Ht. destruct (cl_done l); [done|]. destruct (loop_arm _ _ _ _ _ _ _) as [[l1 r]|] eqn:Ea; [|done].
    cbn in Ht. injection Ht as <-. pose proof (arm_inv _ _ _ _ _ _ _ _ _ IH Hle Hs Ea) as Hi.
    destruct r; (eapply silence_clock; [|exact Hi]); done.
  - by eapply silence_clock.
Qed.

(** No arm but the silence gives [HeartbeatLost] while the session has no reason yet. *)
Lemma send_reason {B} `{ControlBody B} fresh (body : B) t t' r :
  core_reason (kt_core t) = None -> task_send fresh body t = (t', r) -> r <> Err Lc_HeartbeatLost.
Proof.
  unfold task_send, link_send, control_push. destruct (encode_envelope _ _ _ _ _); [|by intros _ [= <- <-]].
  unfold kt_core. intros Hc. rewrite Hc. 
  assert (Ho : forall detail, ended_reason (overload detail (cm_core (kt_commands t))) = Lc_Overloaded Qk_ControlEgress detail).
  { intros detail. unfold ended_reason, overload, core_end, core_reason, revoke_capture, cancel_stop, set_end_reason in *.
    destruct (sc_end (cm_core (kt_commands t))) eqn:Ee; [done|]. cbn [sc_capture]. destruct (sc_capture _); reflexivity. }
  destruct (queue_push _ _ _) as [|[]]; intros [= <- <-]; cbn [cm_core with_control]; rewrite ?Ho; try done.
  unfold ended_reason. by rewrite Hc.
Qed.
Lemma text_reason fresh utc_ms now text t t' r :
  core_reason (kt_core t) = None -> on_text fresh utc_ms now text t = (t', r) -> r <> Err Lc_HeartbeatLost.
Proof.
  intros Hc. unfold on_text. destruct (parse_envelope _) as [inbound|]; [|by intros [= <- <-]].
  destruct (check_live_session _ _ _); [|by intros [= <- <-]]. destruct inbound as [[h m]|]; [|by intros [= <- <-]].
  cbn [de_message de_header].
  assert (Ho : forall env, on_other now text env t = (t', r) -> r <> Err Lc_HeartbeatLost).
  { intros env. unfold on_other. destruct (telemetry_kind _); [by intros [= <- <-]|]. unfold ingress_push. destruct (queue_push _ _ _) as [|[]]; by intros [= <- <-]. }
  destruct m as [| |request| | | | | |mt body]; try exact (Ho _); try (by intros [= <- <-]).
  - unfold reply_clock. destruct utc_ms; [|by intros [= <- <-]]. by apply send_reason.
  - destruct mt; try exact (Ho _). destruct (privacy_parse body); [|by intros [= <- <-]]. unfold on_privacy, urgent_push.
    destruct (queue_push _ _ _) as [|[]]; by intros [= <- <-].
Qed.

(** C20: A session is lost to silence only after the loss deadline without a control
    frame.  In every history of the control task (its turns in time order, with
    whatever the other tasks and the runtime do in between), while no other reason
    ended the session, an arm gives [HeartbeatLost] only from the silence timer, only
    when every text or binary control frame read so far, and the start, is at least
    [lost] old, and only after the runtime could see the session degraded; and it sees
    it degraded only when a silence of [degraded] was observed after the last frame. *)
Theorem lost_only_after_silence core limits start turns l fresh utc_ms now arm l' :
  let l0 := loop_start timings (new_session core limits start) start in
  control_run l0 turns l ->
  Forall (fun turn => turn.1 <= now) turns -> start <= now ->
  (lk_degraded (kt_status (cl_task l)) = true ->
     exists at_, (at_, Arm_Silence) ∈ turns /\ Forall (fun h => h + lt_degraded timings <= at_) (heard_at start turns)) /\
  (core_reason (kt_core (cl_task l)) = None ->
   loop_arm next_tick timings fresh utc_ms now arm l = Some (l', Err Lc_HeartbeatLost) ->
   arm = Arm_Silence /\ Forall (fun h => h + lt_lost timings <= now) (heard_at start turns) /\
   lk_degraded (kt_status (cl_task l)) = true).
Proof.
  intros l0 Hrun Hle Hs. destruct (loop_run_inv l0 turns l) as [I1 I2 I3 I4]; try done. cbn [l0 cl_start loop_start] in *.
  split.
  - rewrite I3. intros Hd. destruct (I4 Hd) as (at_ & Hin & Hat). exists at_. split; [done|].
    eapply Forall_impl; [exact I2|]. cbn. lia.
  - intros Hc Ha. destruct arm as [| |key| | | |[]| |]; cbn [loop_arm on_message] in Ha.
    + destruct (task_registration _); [|done]. by injection Ha.
    + done.
    + destruct (task_expire _ _ _); [|done]. by injection Ha.
    + destruct (cl_join_open l); [|done]. by injection Ha.
    + destruct (cl_join_open l); [|done]. by injection Ha.
    + destruct (_ && _); [|done]. by injection Ha.
    + destruct (on_text _ _ _ _ _) as [t' r] eqn:E. injection Ha as _ ->. apply text_reason in E; [done|].
      unfold saw_control. by destruct (kt_degraded _).
    + destruct (binary_never_parses bytes) as (e & He). by rewrite He in Ha.
    + done.
    + done.
    + done.
    + destruct (_ <=? _); [|done]. destruct (send_heartbeat _ _ _) as [t' r] eqn:E. injection Ha as _ ->.
      by apply send_reason in E.
    + split; [done|]. destruct (N.leb_spec (kt_last_rx (cl_task l) + (if kt_degraded (cl_task l) then lt_lost timings else lt_degraded timings)) now) as [Hg|]; [|done].
      unfold on_silence in Ha. destruct (kt_degraded (cl_task l)) eqn:Ed; [|by injection Ha]. split; [|congruence].
      eapply Forall_impl; [exact I2|]. cbn. lia.
Qed.
End silence.

(** ** Where a device frame goes *)
Section routes.
Context `{SerdeJson}.
(** The frame parses and carries this session's id and device. *)
Definition accepted (t : ControlTask) (text : string) (env : DeviceEnvelope) : Prop :=
  parse_envelope (Cf_Text text) = Ok (In_Known env) /\
  eh_session_id (de_header env) = Some (sc_session_id (kt_core t)) /\ eh_device_id (de_header env) = sc_device (kt_core t) /\
  forall hello, de_message env <> Dm_SessionHello hello.
Definition order_sensitive (m : DeviceMessage) : bool :=
  match m with
  | Dm_StreamOpen _ | Dm_StreamEnd _ | Dm_UplinkEnded _ => true
  | Dm_Other mt _ => negb (bool_decide (mt = Mt_PrivacyChanged)) && negb (bool_decide (is_Some (telemetry_kind mt)))
  | _ => false
  end.

Lemma accepted_live t text env :
  accepted t text env ->
  parse_envelope (Cf_Text text) = Ok (In_Known env) /\
  check_live_session (In_Known env) (sc_session_id (kt_core t)) (sc_device (kt_core t)) = Ok tt.
Proof.
  intros (Hp & Hs & Hd & Hh). split; [done|]. unfold check_live_session. cbn [inbound_header]. rewrite Hs, Hd.
  rewrite bool_decide_eq_true_2 by done. rewrite String.eqb_refl. cbn [negb]. destruct (de_message env); try done. by edestruct Hh.
Qed.
Lemma live_accepted t text env :
  parse_envelope (Cf_Text text) = Ok (In_Known env) ->
  check_live_session (In_Known env) (sc_session_id (kt_core t)) (sc_device (kt_core t)) = Ok tt -> accepted t text env.
Proof.
  intros Hp. unfold check_live_session. cbn [inbound_header]. case_bool_decide as Hs; [|done]. cbn [negb].
  destruct (String.eqb_spec (eh_device_id (de_header env)) (sc_device (kt_core t))) as [Hd|]; [|done]. cbn [negb].
  intros Hm. split_and!; try done. intros hello E. by rewrite E in Hm.
Qed.

(** What a send of the task leaves alone. *)
Lemma send_frame {B} `{ControlBody B} fresh (body : B) t t' r :
  task_send fresh body t = (t', r) -> kt_ingress t' = kt_ingress t /\ kt_urgent t' = kt_urgent t /\ kt_telemetry t' = kt_telemetry t.
Proof.
  unfold task_send. destruct (encode_envelope _ _ _ _ _); [|by intros [= <- <-]].
  destruct (link_send _ _). by intros [= <- <-].
Qed.
Lemma ingress_push_queued ingress bytes now ch ch' :
  ingress_push ingress bytes now ch = Ok ch' -> queued_ingress ch' = queued_ingress ch ++ [ingress].
Proof.
  unfold ingress_push. destruct (queue_push _ _ _) as [q|[]] eqn:E; try done. intros [= <-].
  apply queue_push_ok in E as (_ & _ & _ & _ & Ei & _). unfold queued_ingress. cbn [ic_queue]. by rewrite Ei, fmap_app.
Qed.
Lemma urgent_push_queued event ch ch' :
  urgent_push event ch = Ok ch' -> urgent_events ch' = urgent_events ch ++ [event].
Proof.
  unfold urgent_push. destruct (queue_push _ _ _) as [q|[]] eqn:E; try done. intros [= <-].
  apply queue_push_ok in E as (_ & _ & _ & _ & Ei & _). unfold urgent_events. cbn [uc_queue]. by rewrite Ei, fmap_app.
Qed.

(** What a control frame may do: the three queues the runtime reads from. *)
Record one_place (t : ControlTask) (text : string) (t' : ControlTask) (r : result CloseReason unit) : Prop := {
  op_ingress : kt_ingress t' = kt_ingress t \/
    exists env, accepted t text env /\ order_sensitive (de_message env) = true /\ r = Ok tt /\
      queued_ingress (kt_ingress t') = queued_ingress (kt_ingress t) ++ [Ig_Control env] /\
      kt_urgent t' = kt_urgent t /\ kt_telemetry t' = kt_telemetry t;
  op_urgent : kt_urgent t' = kt_urgent t \/
    exists h body change, accepted t text (mkDeviceEnvelope h (Dm_Other Mt_PrivacyChanged body)) /\
      privacy_parse body = Ok change /\ r = Ok tt /\
      urgent_events (kt_urgent t') = urgent_events (kt_urgent t) ++ [Ue_Privacy h change] /\
      kt_ingress t' = kt_ingress t /\ kt_telemetry t' = kt_telemetry t;
  op_telemetry : kt_telemetry t' = kt_telemetry t \/
    exists env kind, accepted t text env /\ telemetry_kind (message_type (de_message env)) = Some kind /\
      r = Ok tt /\ kt_ingress t' = kt_ingress t /\ kt_urgent t' = kt_urgent t;
  op_ordered : forall env, accepted t text env -> order_sensitive (de_message env) = true ->
    (r = Ok tt /\ queued_ingress (kt_ingress t') = queued_ingress (kt_ingress t) ++ [Ig_Control env]) \/
    exists reason, r = Err reason;
  op_mute : forall h body change, accepted t text (mkDeviceEnvelope h (Dm_Other Mt_PrivacyChanged body)) ->
    privacy_parse body = Ok change -> pv_muted change = true ->
    capture_live (kt_core t') = false /\
    ((r = Ok tt /\ urgent_events (kt_urgent t') = urgent_events (kt_urgent t) ++ [Ue_Privacy h change]) \/
     exists reason, r = Err reason);
}.
Lemma one_place_quiet t text t' r :
  kt_ingress t' = kt_ingress t -> kt_urgent t' = kt_urgent t -> kt_telemetry t' = kt_telemetry t ->
  (forall env, accepted t text env -> order_sensitive (de_message env) = true -> exists reason, r = Err reason) ->
  (forall h body change, accepted t text (mkDeviceEnvelope h (Dm_Other Mt_PrivacyChanged body)) ->
     privacy_parse body = Ok change -> False) ->
  one_place t text t' r.
Proof. intros E1 E2 E3 H1 H2. split; [by left|by left|by left|intros; right; eauto|]. intros * Ha Hp. by destruct (H2 _ _ _ Ha Hp). Qed.
Lemma one_place_other now text h m t t' r :
  accepted t text (mkDeviceEnvelope h m) -> (forall env, accepted t text env -> env = mkDeviceEnvelope h m) ->
  order_sensitive m = true \/ is_Some (telemetry_kind (message_type m)) -> (forall body, m <> Dm_Other Mt_PrivacyChanged body) ->
  on_other now text (mkDeviceEnvelope h m) t = (t', r) -> one_place t text t' r.
Proof.
  intros Ha Hone Hm Hp. unfold on_other. cbn [de_message].
  assert (Hno : forall h' body, accepted t text (mkDeviceEnvelope h' (Dm_Other Mt_PrivacyChanged body)) -> False)
    by (intros h' body [= _ E]%Hone; by eapply Hp).
  assert (Hs : order_sensitive m = true -> telemetry_kind (message_type m) = None).
  { destruct m; cbn; try done. rewrite andb_true_iff, !negb_true_iff, !bool_decide_eq_false, <- eq_None_not_Some. tauto. }
  destruct (telemetry_kind (message_type m)) as [kind|] eqn:Ek.
  - intros [= <- <-]. split; [by left|by left| |intros env ->%Hone Ho; by specialize (Hs Ho)|intros * []%Hno].
    right. by exists (mkDeviceEnvelope h m), kind.
  - assert (Ho : order_sensitive m = true) by (by destruct Hm as [|[]]).
    destruct (ingress_push _ _ _ _) as [ch|reason] eqn:Ei; intros [= <- <-].
    + apply ingress_push_queued in Ei. split; [|by left|by left|intros env ->%Hone _; by left|intros * []%Hno].
      right. by exists (mkDeviceEnvelope h m).
    + apply one_place_quiet; try done; [eauto|]. intros * []%Hno.
Qed.
Lemma one_place_privacy text h body change t t' r :
  accepted t text (mkDeviceEnvelope h (Dm_Other Mt_PrivacyChanged body)) ->
  (forall env, accepted t text env -> env = mkDeviceEnvelope h (Dm_Other Mt_PrivacyChanged body)) ->
  privacy_parse body = Ok change -> on_privacy h change t = (t', r) -> one_place t text t' r.
Proof.
  intros Ha Hone Hb. unfold on_privacy. set (t1 := if pv_muted change then _ else t).
  assert (Et : kt_ingress t1 = kt_ingress t /\ kt_urgent t1 = kt_urgent t /\ kt_telemetry t1 = kt_telemetry t /\
            (pv_muted change = true -> capture_live (kt_core t1) = false)).
  { subst t1. destruct (pv_muted change); split_and!; try done. intros _. apply revoke_not_live. }
  destruct Et as (E1 & E2 & E3 & E4).
  destruct (urgent_push _ _) as [ch|reason] eqn:Eu; intros [= <- <-].
  - apply urgent_push_queued in Eu. rewrite E2 in Eu. split; cbn [kt_ingress kt_telemetry kt_urgent set_urgent].
    + by left.
    + right. exists h, body, change. by split_and!.
    + by left.
    + by intros env ->%Hone.
    + intros h' body' change' [= -> ->]%Hone Hb' Hm. rewrite Hb in Hb'. injection Hb' as <-. split; [by apply E4|]. by left.
  - split; [by left|by left|by left|by intros env ->%Hone|].
    intros h' body' change' [= -> ->]%Hone Hb' Hm. rewrite Hb in Hb'. injection Hb' as <-. split; [by apply E4|]. right. eauto.
Qed.

(** C19: A control frame of a live session reaches one place or ends the session.  The
    ordered ingress grows only by an order-sensitive message of a frame that carries
    this session's id and device, and such a message is queued at its end or the
    session ends; the urgent path grows only by the privacy change of an accepted
    frame, and a change that reports the mute has already cancelled the published
    capture scope, even when the urgent path is full; telemetry changes only for a
    message of a telemetry kind.  No frame changes two of the three, and a refused one
    changes none. *)
Theorem frames_reach_one_place fresh utc_ms now text t t' r :
  on_text fresh utc_ms now text t = (t', r) -> one_place t text t' r.
Proof.
  intros Ht. unfold on_text in Ht.
  destruct (parse_envelope (Cf_Text text)) as [inbound|e] eqn:Ep.
  2:{ injection Ht as <- <-. apply one_place_quiet; try done; intros * (Hp & _); congruence. }
  destruct (check_live_session inbound _ _) as [[]|e] eqn:Ec.
  2:{ injection Ht as <- <-. apply one_place_quiet; try done; intros * [Hp Hl]%accepted_live; congruence. }
  destruct inbound as [env|u].
  2:{ injection Ht as <- <-. apply one_place_quiet; try done; intros * (Hp & _); congruence. }
  pose proof (live_accepted t text env Ep Ec) as Hacc.
  assert (Hone : forall env', accepted t text env' -> env' = env) by (intros env' (Hp & _); congruence).
  destruct env as [h m]. cbn [de_message de_header] in *.
  destruct m as [| |request| | | | | |mt body] eqn:Em;
    try (eapply one_place_other; [exact Hacc|exact Hone|by left|done|exact Ht]);
    try (injection Ht as <- <-; apply one_place_quiet; try done; [intros env ->%Hone; done|intros * [=]%Hone]).
  - assert (Hq : kt_ingress t' = kt_ingress t /\ kt_urgent t' = kt_urgent t /\ kt_telemetry t' = kt_telemetry t).
    { unfold reply_clock in Ht. destruct utc_ms; [by apply send_frame in Ht|by injection Ht as <- <-]. }
    destruct Hq as (? & ? & ?). apply one_place_quiet; try done; [by intros env ->%Hone|intros * [=]%Hone].
  - destruct (decide (mt = Mt_PrivacyChanged)) as [->|Hmt].
    + destruct (privacy_parse body) as [change|e] eqn:Eb; [by eapply one_place_privacy|].
      injection Ht as <- <-. apply one_place_quiet; try done; [by intros env ->%Hone|]. intros * [= _ ->]%Hone. congruence.
    + assert (Ht' : on_other now text (mkDeviceEnvelope h (Dm_Other mt body)) t = (t', r)) by (by destruct mt).
      eapply one_place_other; [exact Hacc|exact Hone| |congruence|exact Ht'].
      cbn. destruct (decide (is_Some (telemetry_kind mt))); [by right|left].
      by rewrite !bool_decide_eq_false_2.
Qed.
End routes.

(** ** The control queue and the limits *)
(** With valid limits, the control queue takes every frame that encodes whenever a slot
    and one maximum frame's bytes are free: such a send never ends the session. *)
Theorem queues_hold_any_frame `{SerdeJson} {B} `{ControlBody B} limits fresh (body : B) session device generation encoded progress c (q : Queue ControlOut) :
  limits_validate limits = Ok tt ->
  encode_envelope fresh body session device generation = Ok encoded ->
  core_reason c = None -> qu_closed q = false -> qu_capacity q = el_messages (ll_control_egress limits) ->
  (length (qu_items q) < el_messages (ll_control_egress limits))%nat ->
  (qu_items q = [] /\ qu_credit q = el_bytes (ll_control_egress limits) \/ MAX_CONTROL_BYTES <= qu_credit q) ->
  exists q', control_push (ee_text encoded) progress c q = (c, q', Ok tt) /\
    qu_items q' = qu_items q ++ [(mkControlOut (ee_text encoded) progress, text_len (ee_text encoded))] /\
    qu_credit q' + text_len (ee_text encoded) = qu_credit q.
Proof.
  intros Hv He Hc Hopen Hcap Hroom Hcredit. apply encoded_ok in He as (_ & _ & Hlen & _).
  unfold limits_validate in Hv. destruct (_ && _) eqn:Eok in Hv; [|done].
  apply andb_true_iff in Eok as [_ Hbytes%N.leb_le].
  assert (Hcr : text_len (ee_text encoded) <= qu_credit q) by (destruct Hcredit as [[_ ->]|]; lia).
  assert (Hmin : N.min (text_len (ee_text encoded)) u32_max = text_len (ee_text encoded))
    by (unfold u32_max, MAX_CONTROL_BYTES in *; lia).
  unfold control_push, queue_push. rewrite Hc, Hopen, Hcap, Hmin.
  destruct (Nat.leb_spec (el_messages (ll_control_egress limits)) (length (qu_items q))); [lia|].
  destruct (N.ltb_spec (qu_credit q) (text_len (ee_text encoded))); [lia|].
  eexists. split; [reflexivity|]. cbn. split; [done|lia].
Qed.
Example defaults_are_valid : config_validate default_limits default_timings = Ok tt.
Proof. vm_compute. reflexivity. Qed.

(** ** Render frames *)
Record RenderRun := mkRenderRun { rr_writer : AudioWriter; rr_accepted : list RenderOut }.
Definition with_queue (q : Queue RenderOut) (w : AudioWriter) : AudioWriter :=
  mkAudioWriter (aw_core w) (aw_cancelled w) q (aw_sending w) (aw_sent w) (aw_done w).
Inductive render_step : RenderRun -> RenderRun -> Prop :=
  | Rs_Send frame playback w q accepted :
      try_send_render frame playback (aw_cancelled w) (aw_core w) (aw_queue w) = Ok q ->
      render_step (mkRenderRun w accepted) (mkRenderRun (with_queue q w) (accepted ++ [mkRenderOut frame playback]))
  | Rs_Cancel playback w accepted :
      render_step (mkRenderRun w accepted)
        (mkRenderRun (mkAudioWriter (aw_core w) ({[ playback ]} ∪ aw_cancelled w) (aw_queue w) (aw_sending w) (aw_sent w) (aw_done w)) accepted)
  | Rs_Take w w' accepted : aw_take w = Some w' -> render_step (mkRenderRun w accepted) (mkRenderRun w' accepted)
  | Rs_Wrote w w' accepted : aw_wrote w = Some w' -> render_step (mkRenderRun w accepted) (mkRenderRun w' accepted)
  | Rs_Failed detail w w' accepted : aw_failed detail w = Some w' -> render_step (mkRenderRun w accepted) (mkRenderRun w' accepted)
  | Rs_Stop w w' accepted : aw_stop w = Some w' -> render_step (mkRenderRun w accepted) (mkRenderRun w' accepted)
  | Rs_End reason w accepted :
      render_step (mkRenderRun w accepted)
        (mkRenderRun (mkAudioWriter (core_end reason (aw_core w)) (aw_cancelled w) (aw_queue w) (aw_sending w) (aw_sent w) (aw_done w)) accepted).
(** One whole kind-3 frame: its header decodes and its length is what the header says. *)
Definition whole_render (frame : list byte) : Prop :=
  exists h, decode_header frame = Ok h /\ h_kind h = K_Render /\ N.of_nat (length frame) = N.of_nat HEADER_BYTES + header_payload_bytes h.
(** Sent, being sent and queued, in this order. *)
Definition in_hand (w : AudioWriter) : list RenderOut :=
  aw_sent w ++ option_list (fst <$> aw_sending w) ++ (fst <$> qu_items (aw_queue w)).
Definition of_playback (p : nat) (l : list RenderOut) : list RenderOut := List.filter (fun out => ro_playback out =? p)%nat l.
Record render_inv (r : RenderRun) : Prop := {
  ri_order : in_hand (rr_writer r) `sublist_of` rr_accepted r;
  ri_whole : Forall (fun out => whole_render (ro_frame out)) (rr_accepted r);
  ri_kept : aw_done (rr_writer r) = false -> forall p, p ∉ aw_cancelled (rr_writer r) ->
    of_playback p (in_hand (rr_writer r)) = of_playback p (rr_accepted r);
}.
Lemma of_playback_app p a b : of_playback p (a ++ b) = of_playback p a ++ of_playback p b.
Proof. apply List.filter_app. Qed.
Lemma check_render_whole frame playback cancelled c :
  check_render frame playback cancelled c = Ok tt -> whole_render frame /\ playback ∉ cancelled /\ core_reason c = None.
Proof.
  unfold check_render. destruct (core_reason c); [done|]. case_bool_decide as Hp; [done|].
  destruct (decode_header frame) as [h|] eqn:Eh; cbn [map_err]; [|done].
  case_bool_decide as Hk; cbn [negb orb]; [|done].
  destruct (N.eqb_spec (N.of_nat (length frame)) (N.of_nat HEADER_BYTES + header_payload_bytes h)) as [El|]; cbn [negb]; [|done].
  intros _. split_and!; try done. by exists h.
Qed.
Lemma emptied_sublist {A} (a b c l : list A) : a ++ b ++ c `sublist_of` l -> a `sublist_of` l.
Proof. intros Hs. etrans; [|exact Hs]. apply sublist_inserts_r. done. Qed.
Lemma render_step_inv r r' : render_step r r' -> render_inv r -> render_inv r'.
Proof.
  intros Hs [Ho Hw Hk]. unfold in_hand in *.
  destruct Hs as [frame playback w q accepted Hq|playback w accepted|w w' accepted Ht|w w' accepted Ht|detail w w' accepted Ht|w w' accepted Ht|reason w accepted];
    cbn [rr_writer rr_accepted] in *.
  - unfold try_send_render in Hq. destruct (check_render _ _ _ _) as [[]|] eqn:Ec; [|done].
    apply check_render_whole in Ec as (Hwhole & Hlive & _).
    destruct (queue_push _ _ _) as [q'|[]] eqn:Eq; try done. injection Hq as ->. apply queue_push_ok in Eq as (_ & _ & _ & _ & Ei & _).
    split; unfold in_hand; cbn [rr_writer rr_accepted aw_sent aw_sending aw_queue aw_done aw_cancelled with_queue].
    + rewrite Ei, fmap_app, !app_assoc. apply sublist_app; [by rewrite <- !app_assoc|done].
    + apply Forall_app. split; [done|by apply Forall_singleton].
    + intros Hd p Hp. rewrite Ei, fmap_app. cbn [fmap list_fmap fst]. rewrite !app_assoc, !(of_playback_app p _ [_]), <- !app_assoc. 
      by rewrite (Hk Hd p Hp).
  - split; unfold in_hand; cbn [rr_writer rr_accepted aw_sent aw_sending aw_queue aw_done aw_cancelled]; try done.
    intros Hd p Hp. apply Hk; [done|set_solver].
  - unfold aw_take in Ht. destruct (aw_done w) eqn:Ed; [done|]. cbn [orb] in Ht. case_bool_decide as Hsnd; [done|].
    destruct (queue_take (aw_queue w)) as [[[out permits] q]|] eqn:Eq; [|done]. cbn in Ht.
    unfold queue_take in Eq. destruct (qu_items (aw_queue w)) as [|[out' permits'] items] eqn:Ei; [done|]. injection Eq as -> -> <-.
    destruct (aw_sending w) as [x|]; [by destruct Hsnd|]. cbn [option_list fmap option_fmap option_map app list_fmap fst] in *.
    case_bool_decide as Hc; injection Ht as <-; split; unfold in_hand; cbn [rr_writer rr_accepted aw_sent aw_sending aw_queue aw_done aw_cancelled qu_items queue_release option_list fmap option_fmap option_map app fst]; try done.
    + etrans; [|exact Ho]. apply sublist_app; [done|]. by apply sublist_cons.
    + intros _ p Hp. rewrite <- (Hk eq_refl p Hp), !of_playback_app. f_equal. cbn.
      destruct (Nat.eqb_spec (ro_playback out) p); [by subst|done].
  - unfold aw_wrote in Ht. destruct (aw_sending w) as [[out permits]|]; [|done]. cbn in Ht. injection Ht as <-.
    split; unfold in_hand; cbn [rr_writer rr_accepted aw_sent aw_sending aw_queue aw_done aw_cancelled qu_items queue_release option_list fmap option_fmap option_map app fst] in *;
      rewrite <- ?app_assoc; done.
  - unfold aw_failed in Ht. destruct (aw_sending w) as [[out permits]|]; [|done]. cbn in Ht. injection Ht as <-.
    split; unfold in_hand; cbn; try done. rewrite app_nil_r. by eapply emptied_sublist.
  - unfold aw_stop in Ht. destruct (_ || _); [done|]. injection Ht as <-.
    split; unfold in_hand; cbn; try done. rewrite app_nil_r. by eapply emptied_sublist.
  - split; unfold in_hand; cbn; done.
Qed.

(** In every history of the render queue and the audio writer, what was written is in
    the order it was queued and is whole kind-3 frames, and while the writer runs, every
    frame of a playback that was not cancelled is written, being written or queued. *)
Theorem render_frames_are_kept c cancelled limits r :
  rtc render_step (mkRenderRun (audio_writer_new c cancelled limits) []) r ->
  aw_sent (rr_writer r) `sublist_of` rr_accepted r /\
  Forall (fun out => whole_render (ro_frame out)) (aw_sent (rr_writer r)) /\
  (aw_done (rr_writer r) = false -> forall p, p ∉ aw_cancelled (rr_writer r) ->
     of_playback p (in_hand (rr_writer r)) = of_playback p (rr_accepted r)).
Proof.
  intros Hr. assert (Hi : render_inv r).
  { apply (rtc_ind_r (fun r => render_inv r) _) in Hr as Hr'; [done| |by intros; eapply render_step_inv]. split; done. }
  destruct Hi as [Ho Hw Hk]. unfold in_hand in Ho. apply emptied_sublist in Ho. split_and!; [done| |done].
  apply Forall_forall. intros out Hin. rewrite Forall_forall in Hw. by apply Hw, (elem_of_sublist _ _ _ Hin).
Qed.

(** ** Samples *)
(** One frame: the device reports the mute. *)
Definition sample_mute : Value :=
  VObject [("protocol", VNumber (NInt 1)); ("type", VString "privacy.changed"); ("session_id", VString "s-1"); ("message_id", VString "m-9");
           ("device_id", VString "dev-1"); ("generation", VNumber (NInt 0)); ("body", VObject [("muted", VBool true)])].
Definition mute_serde : SerdeJson := {| from_str _ := Ok sample_mute; to_string _ := Err "none"; value_to_string _ := "" |}.
Definition sample_task : ControlTask := new_session (set_capture (sample_scope 7) sample_core) default_limits 0.
Definition sample_header : EnvelopeHeader := mkEnvelopeHeader (Some "s-1") "m-9" "dev-1" 0.
Lemma frames_reach_one_place_witness :
  let step := on_text (H := mute_serde) "" None 5 "{}" sample_task in
  capture_live (kt_core sample_task) = true /\ capture_live (kt_core step.1) = false /\
  urgent_events (kt_urgent step.1) = [Ue_Privacy sample_header (mkPrivacyChange true None None)].
Proof.
  intros step. split; [reflexivity|].
  assert (Ha : accepted (H := mute_serde) sample_task "{}" (mkDeviceEnvelope sample_header (Dm_Other Mt_PrivacyChanged [("muted", VBool true)])))
    by (split_and!; [vm_compute; reflexivity..|done]).
  destruct (frames_reach_one_place (H := mute_serde) "" None 5 "{}" sample_task step.1 step.2 (surjective_pairing step)) as [_ _ _ _ Hm].
  destruct (Hm _ _ (mkPrivacyChange true None None) Ha eq_refl eq_refl) as [Hl [[_ Hq]|[reason Hr]]]; [split; [exact Hl|exact Hq]|].
  exfalso. vm_compute in Hr. discriminate Hr.
Defined.

Definition sample_tick (last now period : N) : N := now + period.
Definition sample_loop : ControlLoop := loop_start default_timings sample_task 0.
Definition sample_silent : ControlLoop :=
  default sample_loop (loop_turn (H := mute_serde) sample_tick default_timings "" None 2000000000 Arm_Silence sample_loop).
(** Two seconds of silence degrade the session and a third one loses it. *)
Lemma lost_only_after_silence_witness :
  lk_degraded (kt_status (cl_task sample_silent)) = true /\
  Forall (fun h => h + lt_lost default_timings <= 3000000000) (heard_at 0 [(2000000000, Arm_Silence)]).
Proof.
  assert (Hrun : control_run (H := mute_serde) sample_tick default_timings sample_loop ([] ++ [(2000000000, Arm_Silence)]) sample_silent).
  { eapply (Rn_Turn (H := mute_serde) _ _ _ [] sample_loop "" None 2000000000 Arm_Silence); [constructor|constructor|vm_compute; discriminate|].
    vm_compute. reflexivity. }
  destruct (lost_only_after_silence (H := mute_serde) sample_tick default_timings (set_capture (sample_scope 7) sample_core) default_limits 0
              [(2000000000, Arm_Silence)] sample_silent "" None 3000000000 Arm_Silence sample_silent Hrun) as [_ Hlost].
  - apply Forall_singleton. vm_compute. discriminate.
  - vm_compute. discriminate.
  - destruct Hlost as (_ & Hf & Hd); [reflexivity|vm_compute; reflexivity|]. split; [exact Hd|exact Hf].
Defined.
Example frame_texts :
  frame_violation (Fe_Magic [Byte.x45; Byte.x4d; Byte.x41; Byte.x32]) = mkProtocolError Pe_MalformedFrame "bad magic [45, 4d, 41, 32]" /\
  frame_error_display (Fe_SourceMask K_Mic 496) = "source mask 0x1f0 invalid for kind 1".
Proof. split; vm_compute; reflexivity. Qed.
