(* ===== verification/LinkAdmission.v ===== *)
(** * Admission of a device's sockets
      ([link/src/auth.rs], [registry.rs], [handshake.rs], [server.rs])

    The token rules, the checks of a hello, the routing table of sessions, and the
    handshake from a claimed session to its release, interleaved over many sockets.
    What the database answers is an argument of each check. *)
From stdpp Require Import strings gmap.
From S2P Require Import Prelude Bytes WireEnum Float Ema Vocab Streams Clock Blocks Buffer Timeline Delivery Cursor Uplink UplinkInv UplinkReach Json Policy Session StreamBodies Envelope Arbiter Document Link.

(** ** Tokens *)
Inductive TokenRefusal := Tr_Mismatch | Tr_NotTls | Tr_Missing | Tr_NoStoredToken.
(** A token is the bytes of its header, or of the stored text. *)
Definition authorize (presented stored : option string) (transport : Transport) (require_tls : bool) : result TokenRefusal unit :=
  if require_tls then
    if negb (bool_decide (transport = Tp_Tls)) then Err Tr_NotTls
    else
      let? presented := ok_or Tr_Missing presented in
      let? stored := ok_or Tr_NoStoredToken stored in
      if String.eqb presented stored then Ok tt else Err Tr_Mismatch
  else
    match presented, stored with
    | Some presented, Some stored => if String.eqb presented stored then Ok tt else Err Tr_Mismatch
    | _, _ => Ok tt
    end.

(** ** The checks of a hello *)
(** The columns of a device's row the link reads. *)
Record DeviceRow := mkDeviceRow { dv_device_id : string; dv_label : option string; dv_approved : bool; dv_token : option string }.
Inductive ApprovalMode := Am_Strict | Am_Auto.
Inductive Verdict :=
  | Vd_Admit (request : HelloRequest) (platform : Platform) (row : DeviceRow)
  | Vd_Reject (device : string) (reason : RejectReason)
  | Vd_Close.
Inductive Approval := Ap_Approved (row : DeviceRow) | Ap_Pending | Ap_Failed.

(** [RecordConnectionAttempt], [ReadApprovalMode] and [ApproveDevice]: the row an attempt
    leaves, the mode, and whether a write succeeded; [None] is a database failure. *)
Record Database := mkDatabase {
  db_attempt : string -> option string -> option string -> option DeviceRow;
  db_approval_mode : option ApprovalMode;
  db_approve : string -> string -> bool;
}.
Section checks.
Context (db : Database) (require_tls : bool).
Definition approve_label (row : DeviceRow) : string :=
  match dv_label row with Some label => label | None => "Unknown " +:+ utf8 (take 8 (chars (dv_device_id row))) end.
Definition approve (row : DeviceRow) : Approval :=
  match db_approval_mode db with
  | None => Ap_Failed
  | Some Am_Strict => Ap_Pending
  | Some Am_Auto =>
      let label := approve_label row in
      if db_approve db (dv_device_id row) label then Ap_Approved (mkDeviceRow (dv_device_id row) (Some label) true (dv_token row))
      else Ap_Failed
  end.
Definition check_hello (parsed : result HelloRefused HelloRequest) (transport : Transport) (token : option string) : Verdict :=
  match parsed with
  | Err refused =>
      match hf_device_id refused with
      | Some device => Vd_Reject device Rj_Protocol
      | None => Vd_Close
      end
  | Ok request =>
      let device := eh_device_id (hr_header request) in
      let hello := hr_hello request in
      match db_attempt db device (sh_firmware_version hello) (sh_os_version hello) with
      | None => Vd_Close
      | Some row =>
          match check_admission hello with
          | Err refusal => Vd_Reject device (refusal_reason refusal)
          | Ok platform =>
              match authorize token (dv_token row) transport require_tls with
              | Err _ => Vd_Reject device Rj_Unauthorized
              | Ok _ =>
                  if dv_approved row then Vd_Admit request platform row
                  else
                    match approve row with
                    | Ap_Approved row => Vd_Admit request platform row
                    | Ap_Pending => Vd_Reject device Rj_PendingApproval
                    | Ap_Failed => Vd_Close
                    end
              end
          end
      end
  end.
(** The attempt recorded for a frame: its device and the versions it named. *)
Definition attempt_of (parsed : result HelloRefused HelloRequest) : option (string * option string * option string) :=
  match parsed with
  | Err refused => device ← hf_device_id refused; Some (device, None, None)
  | Ok request => Some (eh_device_id (hr_header request), sh_firmware_version (hr_hello request), sh_os_version (hr_hello request))
  end.
End checks.

(** The frame a rejected device reads before its socket closes. *)
Definition rejection_frame `{SerdeJson} (fresh : string) (verdict : Verdict) : option string :=
  match verdict with
  | Vd_Reject device reason =>
      match encode_envelope fresh (mkSessionRejected reason) None device 0 with Ok rejected => Some (ee_text rejected) | Err _ => None end
  | _ => None
  end.

(** ** The grant *)
(** What [Admission::admit] gives, or that the deadline passed first. *)
Inductive AdmissionDecision := Ad_Ready (grant : ReadyGrant) | Ad_Decline (detail : string) | Ad_Deadline.
(** [None]: the session ended before the decision. *)
Definition session_ready `{SerdeJson} (fresh : string) (utc_ms : option N) (server_boot_id : string) (capabilities : Capabilities)
    (decision : option AdmissionDecision) (c : SessionCore) : result CloseReason string :=
  match decision with
  | None => Err (ended_reason c)
  | Some (Ad_Decline detail) => Err (Lc_Declined detail)
  | Some Ad_Deadline => Err (Lc_Declined "admission did not answer before the ready deadline")
  | Some (Ad_Ready grant) =>
      let? utc_ms := ok_or (Lc_Declined "the wall clock reads before 1970") utc_ms in
      let ready := session_ready_new grant capabilities (sc_session_id c) server_boot_id utc_ms in
      match encode_envelope fresh ready (Some (sc_session_id c)) (sc_device c) 0 with
      | Ok encoded => Ok (ee_text encoded)
      | Err e => Err (Lc_Declined ("session.ready: " +:+ encode_error_display e))
      end
  end.

(** ** The routing table *)
(** A core is its place in the list of the sessions the server created. *)
Record Active := mkActive { ac_core : nat; ac_audio : bool }.
Record Registry := mkRegistry { rs_claims : gmap string nat; rs_active : gmap string Active }.
Definition registry_default : Registry := mkRegistry ∅ ∅.
Abbreviation Cores := (list SessionCore).
Definition claim (cores : Cores) (core : nat) (c : SessionCore) (r : Registry) : option nat * Registry :=
  let old := rs_claims r !! sc_device c in
  let active :=
    match old ≫= (fun i => cores !! i) with
    | Some old => delete (sc_session_id old) (rs_active r)
    | None => rs_active r
    end in
  (old, mkRegistry (<[ sc_device c := core ]> (rs_claims r)) active).
Definition is_current (core : nat) (c : SessionCore) (r : Registry) : bool := bool_decide (rs_claims r !! sc_device c = Some core).
Definition activate (core : nat) (c : SessionCore) (r : Registry) : bool * Registry :=
  if is_current core c r then (true, mkRegistry (rs_claims r) (<[ sc_session_id c := mkActive core true ]> (rs_active r))) else (false, r).
Definition release (core : nat) (c : SessionCore) (r : Registry) : Registry :=
  mkRegistry (if is_current core c r then delete (sc_device c) (rs_claims r) else rs_claims r) (delete (sc_session_id c) (rs_active r)).
Definition lookup_session (session_id : string) (cores : Cores) (r : Registry) : option nat :=
  active ← rs_active r !! session_id;
  c ← cores !! ac_core active;
  if sc_stop c then None else Some (ac_core active).
Definition live (core : nat) (c : SessionCore) (r : Registry) : option Active :=
  active ← rs_active r !! sc_session_id c;
  if bool_decide (ac_core active = core) && negb (sc_stop c) then Some active else None.
Definition is_live (core : nat) (c : SessionCore) (r : Registry) : bool := bool_decide (is_Some (live core c r)).
Definition take_audio (core : nat) (c : SessionCore) (r : Registry) : option Registry :=
  active ← live core c r;
  if ac_audio active then Some (mkRegistry (rs_claims r) (<[ sc_session_id c := mkActive core false ]> (rs_active r))) else None.

(** [joinable_session] up to the read of the token, and from there on; [stored] is what
    the database gives, [None] a failure. *)
Inductive StatusCode := Http_Forbidden | Http_ServiceUnavailable.
Definition join_lookup (session_id : option string) (transport : Transport) (cores : Cores) (r : Registry) : result StatusCode nat :=
  match session_id ≫= (fun id => lookup_session id cores r) with
  | None => Err Http_Forbidden
  | Some core =>
      match cores !! core with
      | Some c => if bool_decide (sc_transport c = transport) then Ok core else Err Http_Forbidden
      | None => Err Http_Forbidden
      end
  end.
Definition check_device_token (token : option string) (stored : option (option string)) (transport : Transport) (require_tls : bool) :
    result StatusCode unit :=
  match stored with
  | None => Err Http_ServiceUnavailable
  | Some stored => match authorize token stored transport require_tls with Ok _ => Ok tt | Err _ => Err Http_Forbidden end
  end.
Definition join_session (core : nat) (token : option string) (stored : option (option string)) (transport : Transport) (require_tls : bool)
    (c : SessionCore) (r : Registry) : result StatusCode unit :=
  let? _ := check_device_token token stored transport require_tls in
  if is_live core c r then Ok tt else Err Http_Forbidden.

(** ** Handshakes, one after another and side by side *)
(** Where the task of a session is: ending the session it replaced, asking for the
    grant, about to activate, about to write [session.ready], running, about to
    release, gone. *)
Inductive Phase := Ph_Ending (old : nat) | Ph_Asking | Ph_Granted | Ph_Activated | Ph_Writing | Ph_Running | Ph_Closing | Ph_Done.
(** [sv_joining]: audio upgrades between the read of the token and the hand-off, each a
    core; [sv_joined]: the cores whose hand-off was taken. *)
Record Server := mkServer {
  sv_cores : Cores;
  sv_phases : list Phase;
  sv_registry : Registry;
  sv_joining : list nat;
  sv_joined : list nat;
}.
Definition server_new : Server := mkServer [] [] registry_default [] [].
Definition with_phase (core : nat) (phase : Phase) (s : Server) : Server :=
  mkServer (sv_cores s) (<[ core := phase ]> (sv_phases s)) (sv_registry s) (sv_joining s) (sv_joined s).
Definition with_registry (r : Registry) (s : Server) : Server :=
  mkServer (sv_cores s) (sv_phases s) r (sv_joining s) (sv_joined s).
Definition end_core (core : nat) (reason : CloseReason) (s : Server) : Server :=
  mkServer (alter (core_end reason) core (sv_cores s)) (sv_phases s) (sv_registry s) (sv_joining s) (sv_joined s).
(** [admit], from [new_session] to the claim. *)
Definition admit_session (device session_id : string) (transport : Transport) (cancelled : gset nat) (s : Server) : Server :=
  let core := length (sv_cores s) in
  let c := core_new device session_id transport cancelled in
  let '(old, r) := claim (sv_cores s) core c (sv_registry s) in
  mkServer (sv_cores s ++ [c]) (sv_phases s ++ [match old with Some old => Ph_Ending old | None => Ph_Asking end]) r (sv_joining s) (sv_joined s).
Inductive HandshakeEvent :=
  | He_Admit (device session_id : string) (transport : Transport) (cancelled : gset nat)
  | He_EndOld (core : nat)
  | He_Granted (core : nat)
  | He_Refused (core : nat) (reason : CloseReason)
  | He_Activate (core : nat)
  | He_Check (core : nat)
  | He_Written (core : nat)
  | He_WriteFailed (core : nat) (detail : string)
  | He_Over (core : nat)
  | He_Release (core : nat)
  | He_Panicked (core : nat)
  | He_End (core : nat) (reason : CloseReason)
  | He_ServerStop
  | He_JoinLookup (session_id : option string) (transport : Transport)
  | He_JoinAudio (core : nat) (token : option string) (stored : option (option string)) (transport : Transport) (require_tls : bool)
  | He_JoinRefused (core : nat).
(** [None]: the task is not there.  A generated session id is a new one.  The hand-off
    looks again at what [join_session] has just seen, so the two are one step. *)
Definition handshake_step (e : HandshakeEvent) (s : Server) : option Server :=
  match e with
  | He_Admit device session_id transport cancelled =>
      if existsb (fun c => String.eqb (sc_session_id c) session_id) (sv_cores s) then None
      else Some (admit_session device session_id transport cancelled s)
  | He_EndOld core =>
      match sv_phases s !! core with Some (Ph_Ending old) => Some (with_phase core Ph_Asking (end_core old Lc_Replaced s)) | _ => None end
  | He_Granted core => match sv_phases s !! core with Some Ph_Asking => Some (with_phase core Ph_Granted s) | _ => None end
  | He_Refused core reason =>
      match sv_phases s !! core with Some Ph_Asking => Some (with_phase core Ph_Closing (end_core core reason s)) | _ => None end
  | He_Activate core =>
      match sv_phases s !! core, sv_cores s !! core with
      | Some Ph_Granted, Some c =>
          let '(current, r) := activate core c (sv_registry s) in
          let s := with_phase core Ph_Activated (with_registry r s) in
          Some (if current then s else end_core core Lc_Replaced s)
      | _, _ => None
      end
  | He_Check core =>
      match sv_phases s !! core, sv_cores s !! core with
      | Some Ph_Activated, Some c =>
          Some (if sc_stop c then with_phase core Ph_Closing (end_core core (ended_reason c) s) else with_phase core Ph_Writing s)
      | _, _ => None
      end
  | He_Written core => match sv_phases s !! core with Some Ph_Writing => Some (with_phase core Ph_Running s) | _ => None end
  | He_WriteFailed core detail =>
      match sv_phases s !! core with
      | Some Ph_Writing => Some (with_phase core Ph_Closing (end_core core (Lc_SocketClosed Sk_Control detail) s))
      | _ => None
      end
  | He_Over core =>
      match sv_phases s !! core, sv_cores s !! core with
      | Some Ph_Running, Some c => if sc_stop c then Some (with_phase core Ph_Closing s) else None
      | _, _ => None
      end
  | He_Release core =>
      match sv_phases s !! core, sv_cores s !! core with
      | Some Ph_Closing, Some c => Some (with_phase core Ph_Done (with_registry (release core c (sv_registry s)) s))
      | _, _ => None
      end
  | He_Panicked core =>
      match sv_phases s !! core with
      | Some (Ph_Asking | Ph_Granted | Ph_Activated | Ph_Writing | Ph_Running) =>
          Some (with_phase core Ph_Closing (end_core core (Lc_TaskPanicked "control") s))
      | _ => None
      end
  | He_End core reason => Some (end_core core reason s)
  | He_ServerStop => Some (mkServer (cancel_stop <$> sv_cores s) (sv_phases s) (sv_registry s) (sv_joining s) (sv_joined s))
  | He_JoinLookup session_id transport =>
      match join_lookup session_id transport (sv_cores s) (sv_registry s) with
      | Ok core => Some (mkServer (sv_cores s) (sv_phases s) (sv_registry s) (core :: sv_joining s) (sv_joined s))
      | Err _ => Some s
      end
  | He_JoinAudio core token stored transport require_tls =>
      if bool_decide (core ∈ sv_joining s) then
        match sv_cores s !! core with
        | Some c =>
            match join_session core token stored transport require_tls c (sv_registry s), take_audio core c (sv_registry s) with
            | Ok _, Some r => Some (mkServer (sv_cores s) (sv_phases s) r (sv_joining s) (core :: sv_joined s))
            | _, _ => Some s
            end
        | None => None
        end
      else None
  | He_JoinRefused core => Some (mkServer (sv_cores s) (sv_phases s) (sv_registry s) (List.filter (fun i => negb (i =? core)%nat) (sv_joining s)) (sv_joined s))
  end.
Inductive server_reach : Server -> Prop :=
  | Sr_Start : server_reach server_new
  | Sr_Step s e s' : server_reach s -> handshake_step e s = Some s' -> server_reach s'.

(** ** Who is admitted *)
(** [REQUIRE_DEVICE_TLS]: TLS and the stored token; otherwise a presented token must not
    differ from a stored one. *)
Definition token_accepted (token stored : option string) (transport : Transport) (require_tls : bool) : Prop :=
  if require_tls then transport = Tp_Tls /\ exists t, token = Some t /\ stored = Some t
  else forall t t', token = Some t -> stored = Some t' -> t = t'.
Lemma authorize_spec token stored transport require_tls :
  authorize token stored transport require_tls = Ok tt <-> token_accepted token stored transport require_tls.
Proof.
  unfold authorize, token_accepted. destruct require_tls.
  - case_bool_decide as Ht; cbn [negb]; [|naive_solver].
    destruct token as [t|], stored as [t'|]; cbn [ok_or]; try naive_solver.
    destruct (String.eqb_spec t t'); naive_solver.
  - destruct token as [t|], stored as [t'|]; try naive_solver. destruct (String.eqb_spec t t'); naive_solver.
Qed.

(** The row the admission goes on with: approved, or approved now under its label. *)
Definition admitted_row (db : Database) (row row' : DeviceRow) : Prop :=
  dv_approved row = true /\ row' = row \/
  dv_approved row = false /\ db_approval_mode db = Some Am_Auto /\ db_approve db (dv_device_id row) (approve_label row) = true /\
  row' = mkDeviceRow (dv_device_id row) (Some (approve_label row)) true (dv_token row).

(** C17: A device is admitted exactly when its hello passes every check: the frame is a
    hello, the attempt was recorded, the required capabilities and the platform are
    there, the token rules hold, and its row is approved or the approval mode is
    [auto] and the approval was written.  A rejection names the first check that
    failed: [protocol] before [unauthorized] before [pending_approval], and a device
    the database could not answer for is neither admitted nor rejected. *)
Theorem admission_is_checked db require_tls parsed transport token :
  let verdict := check_hello db require_tls parsed transport token in
  (forall request platform row',
     verdict = Vd_Admit request platform row' <->
     parsed = Ok request /\ check_admission (hr_hello request) = Ok platform /\
     exists row, db_attempt db (eh_device_id (hr_header request)) (sh_firmware_version (hr_hello request)) (sh_os_version (hr_hello request)) = Some row /\
       token_accepted token (dv_token row) transport require_tls /\
       admitted_row db row row') /\
  (forall device reason,
     verdict = Vd_Reject device reason <->
     (exists error, parsed = Err (mkHelloRefused (Some device) error) /\ reason = Rj_Protocol) \/
     (exists request row, parsed = Ok request /\ device = eh_device_id (hr_header request) /\
        db_attempt db device (sh_firmware_version (hr_hello request)) (sh_os_version (hr_hello request)) = Some row /\
        ((reason = Rj_Protocol /\ exists refusal, check_admission (hr_hello request) = Err refusal) \/
         (reason = Rj_Unauthorized /\ is_ok (check_admission (hr_hello request)) = true /\ ~ token_accepted token (dv_token row) transport require_tls) \/
         (reason = Rj_PendingApproval /\ is_ok (check_admission (hr_hello request)) = true /\
          token_accepted token (dv_token row) transport require_tls /\ dv_approved row = false /\ db_approval_mode db = Some Am_Strict)))).
Proof.
  intros verdict. subst verdict. unfold check_hello. destruct parsed as [request|[[device|] error]]; cbn [hf_device_id].
  2:{ split; [naive_solver|]. intros device' reason. split; [intros [= <- <-]; left; by exists error|].
      intros [(e & [= -> ->] & ->)|(? & ? & ? & _)]; done. }
  2:{ split; [naive_solver|]. intros device reason. split; [done|]. intros [(e & [=] & _)|(? & ? & ? & _)]; done. }
  destruct (db_attempt _ _ _ _) as [row|] eqn:Ea; [|split; [naive_solver|]; intros d r; split; [done|]; intros [(e & [=] & _)|H]; naive_solver].
  destruct (check_admission (hr_hello request)) as [platform|refusal] eqn:Ec.
  2:{ split; [intros ? ? ?; split; [done|]; intros ([= <-] & E & _); congruence|].
      intros d r. split; [intros [= <- <-]; right; exists request, row; naive_solver|].
      intros [(e & [=] & _)|(? & ? & [= <-] & -> & E & H)]. rewrite Ec in H. naive_solver. }
  destruct (authorize token (dv_token row) transport require_tls) as [[]|r] eqn:Et.
  2:{ assert (Hn : ~ token_accepted token (dv_token row) transport require_tls) by (rewrite <- authorize_spec; congruence).
      split; [naive_solver|]. intros d r'. split; [intros [= <- <-]; right; exists request, row; rewrite Ec; naive_solver|].
      intros [(e & [=] & _)|(? & ? & [= <-] & -> & E & H)]. rewrite Ec in H. naive_solver. }
  apply authorize_spec in Et.
  assert (Hrej : forall d r, (exists error, (Ok request : result HelloRefused HelloRequest) = Err (mkHelloRefused (Some d) error) /\ r = Rj_Protocol) \/
      (exists request0 row0, Ok request = (Ok request0 : result HelloRefused HelloRequest) /\ d = eh_device_id (hr_header request0) /\
        db_attempt db d (sh_firmware_version (hr_hello request0)) (sh_os_version (hr_hello request0)) = Some row0 /\
        ((r = Rj_Protocol /\ exists refusal, check_admission (hr_hello request0) = Err refusal) \/
         (r = Rj_Unauthorized /\ is_ok (check_admission (hr_hello request0)) = true /\ ~ token_accepted token (dv_token row0) transport require_tls) \/
         (r = Rj_PendingApproval /\ is_ok (check_admission (hr_hello request0)) = true /\
          token_accepted token (dv_token row0) transport require_tls /\ dv_approved row0 = false /\ db_approval_mode db = Some Am_Strict)))
     <-> d = eh_device_id (hr_header request) /\ r = Rj_PendingApproval /\ dv_approved row = false /\ db_approval_mode db = Some Am_Strict).
  { intros d r. split.
    - intros [(e & [=] & _)|(? & ? & [= <-] & -> & E & H)]. rewrite Ea in E. injection E as <-. rewrite Ec in H. naive_solver.
    - intros (-> & -> & H1 & H2). right. exists request, row. rewrite Ec. naive_solver. }
  assert (Hadm : forall r p row', (Ok request = (Ok r : result HelloRefused HelloRequest) /\ check_admission (hr_hello r) = Ok p /\
      exists row, db_attempt db (eh_device_id (hr_header r)) (sh_firmware_version (hr_hello r)) (sh_os_version (hr_hello r)) = Some row /\
        token_accepted token (dv_token row) transport require_tls /\ admitted_row db row row') <->
      r = request /\ p = platform /\ admitted_row db row row').
  { intros r p row'. split.
    - intros ([= <-] & E & row0 & E0 & _ & Hr). rewrite Ea in E0. injection E0 as <-. rewrite Ec in E. injection E as <-. done.
    - intros (-> & -> & Hr). split_and!; [done|done|]. by exists row. }
  split; [intros r p row'; rewrite Hadm|intros d r; rewrite Hrej]; clear Hadm Hrej Ea Ec Et;
    unfold admitted_row, approve; destruct (dv_approved row) eqn:Eap;
    try (destruct (db_approval_mode db) as [[]|] eqn:Em); try (destruct (db_approve db _ _) eqn:Ew); clear Eap;
    split; try (intros [=]; subst; split_and!; try done; first [by left|by right]);
    try (by intros (-> & -> & [[? ->]|(? & ? & ? & ->)])); by intros (-> & -> & ? & ?).
Qed.

(** ** One session per device *)
Definition ended_in (core : nat) (s : Server) : Prop := exists c, sv_cores s !! core = Some c /\ sc_stop c = true.
(** Before the task of a session activates it. *)
Definition not_activated (p : Phase) : Prop := match p with Ph_Ending _ | Ph_Asking | Ph_Granted => True | _ => False end.
Record server_inv (s : Server) : Prop := {
  vi_length : length (sv_phases s) = length (sv_cores s);
  vi_ids : forall i j ci cj, sv_cores s !! i = Some ci -> sv_cores s !! j = Some cj -> sc_session_id ci = sc_session_id cj -> i = j;
  vi_claims : forall device i, rs_claims (sv_registry s) !! device = Some i ->
    exists c, sv_cores s !! i = Some c /\ sc_device c = device;
  vi_active : forall id a, rs_active (sv_registry s) !! id = Some a ->
    exists c, sv_cores s !! ac_core a = Some c /\ sc_session_id c = id /\ rs_claims (sv_registry s) !! sc_device c = Some (ac_core a) /\
      (exists p, sv_phases s !! ac_core a = Some p /\ ~ not_activated p) /\ (ac_audio a = true -> ac_core a ∉ sv_joined s);
  vi_replaced : forall i c p, sv_cores s !! i = Some c -> sv_phases s !! i = Some p ->
    rs_claims (sv_registry s) !! sc_device c = Some i \/ sc_stop c = true \/ p = Ph_Done \/
    exists j, sv_phases s !! j = Some (Ph_Ending i);
  vi_joined : NoDup (sv_joined s) /\ forall i, i ∈ sv_joined s ->
    exists c p, sv_cores s !! i = Some c /\ sv_phases s !! i = Some p /\ ~ not_activated p;
}.

Lemma core_end_fields reason c :
  sc_device (core_end reason c) = sc_device c /\ sc_session_id (core_end reason c) = sc_session_id c /\
  sc_transport (core_end reason c) = sc_transport c /\ sc_stop (core_end reason c) = true.
Proof. unfold core_end, revoke_capture. by destruct (sc_capture _). Qed.

(** A step that only ends sessions and moves tasks on keeps the invariant. *)
Record ends (cores cores' : Cores) : Prop := {
  en_length : length cores' = length cores;
  en_same : forall i c, cores !! i = Some c -> exists c', cores' !! i = Some c' /\ sc_device c' = sc_device c /\ sc_session_id c' = sc_session_id c /\
    (sc_stop c = true -> sc_stop c' = true);
}.
Lemma ends_refl cores : ends cores cores.
Proof. split; [done|]. intros i c Hc. by exists c. Qed.
Lemma ends_end cores core reason : ends cores (alter (core_end reason) core cores).
Proof.
  split; [by rewrite length_alter|]. intros i c Hc. destruct (decide (core = i)) as [->|Hn].
  - exists (core_end reason c). rewrite list_lookup_alter_eq, Hc. destruct (core_end_fields reason c) as (E1 & E2 & _ & E3). by split_and!.
  - exists c. by rewrite list_lookup_alter_ne.
Qed.
Lemma ends_stop cores : ends cores (cancel_stop <$> cores).
Proof.
  split; [by rewrite length_fmap|]. intros i c Hc. exists (cancel_stop c). by rewrite list_lookup_fmap, Hc.
Qed.
Lemma ends_back cores cores' i c' :
  ends cores cores' -> cores' !! i = Some c' ->
  exists c, cores !! i = Some c /\ sc_device c' = sc_device c /\ sc_session_id c' = sc_session_id c /\ (sc_stop c = true -> sc_stop c' = true).
Proof.
  intros [Hl Hs] Hc'. destruct (cores !! i) as [c|] eqn:E.
  - destruct (Hs i c E) as (d & Hd & H). rewrite Hc' in Hd. injection Hd as <-. by exists c.
  - apply lookup_ge_None in E. apply lookup_lt_Some in Hc'. lia.
Qed.
(** Tasks moved on: none goes back before its activation, none is [Ph_Done] or out of
    [Ph_Ending] without cause. *)
Record moves (s s' : Server) : Prop := {
  mv_length : length (sv_phases s') = length (sv_phases s);
  mv_back : forall i p', sv_phases s' !! i = Some p' -> exists p, sv_phases s !! i = Some p /\ (not_activated p' -> not_activated p) /\ (p = Ph_Done -> p' = Ph_Done);
  mv_ending : forall i j, sv_phases s !! j = Some (Ph_Ending i) -> sv_phases s' !! j = Some (Ph_Ending i) \/ ended_in i s' \/ sv_cores s' !! i = None;
}.
Lemma inv_moves s s' :
  server_inv s -> ends (sv_cores s) (sv_cores s') -> moves s s' -> sv_registry s' = sv_registry s -> sv_joined s' = sv_joined s -> server_inv s'.
Proof.
  intros [Vl Vi Vc Va Vr Vj] He Hm Er Ej. split; rewrite ?Er, ?Ej.
  - rewrite (mv_length _ _ Hm), (en_length _ _ He). done.
  - intros i j ci cj Hi Hj Heq. destruct (ends_back _ _ _ _ He Hi) as (di & Hdi & _ & E1 & _), (ends_back _ _ _ _ He Hj) as (dj & Hdj & _ & E2 & _).
    apply (Vi i j di dj Hdi Hdj). congruence.
  - intros device i Hd. destruct (Vc _ _ Hd) as (c & Hc & E). destruct (en_same _ _ He _ _ Hc) as (c' & Hc' & E1 & _). exists c'. split; [done|congruence].
  - intros id a Ha. destruct (Va _ _ Ha) as (c & Hc & E & Hcl & (p & Hp & Hna) & Hau). destruct (en_same _ _ He _ _ Hc) as (c' & Hc' & E1 & E2 & _).
    exists c'. rewrite E1, E2. split_and!; try done.
    destruct (lookup_lt_is_Some_2 (sv_phases s') (ac_core a)) as [p' Hp']; [rewrite (mv_length _ _ Hm); by eapply lookup_lt_Some|].
    exists p'. split; [done|]. destruct (mv_back _ _ Hm _ _ Hp') as (q & Hq & Hqq & _). intros Hx. apply Hna. rewrite Hp in Hq. injection Hq as ->. auto.
  - intros i c' p' Hc' Hp'. destruct (ends_back _ _ _ _ He Hc') as (c & Hc & E1 & _ & E3), (mv_back _ _ Hm _ _ Hp') as (p & Hp & _ & Hd).
    rewrite E1. destruct (Vr i c p Hc Hp) as [H|[H|[H|(j & Hj)]]]; [by left|right; left; auto|right; right; left; auto|].
    destruct (mv_ending _ _ Hm i j Hj) as [H|[(d & Hd' & Hst)|H]]; [right; right; right; by exists j|right; left; congruence|congruence].
  - destruct Vj as [Hn Hj]. split; [done|]. intros i Hi. destruct (Hj i Hi) as (c & p & Hc & Hp & Hna).
    destruct (en_same _ _ He _ _ Hc) as (c' & Hc' & _).
    destruct (lookup_lt_is_Some_2 (sv_phases s') i) as [p' Hp']; [rewrite (mv_length _ _ Hm); by eapply lookup_lt_Some|].
    exists c', p'. split_and!; [done|done|]. destruct (mv_back _ _ Hm _ _ Hp') as (q & Hq & Hqq & _). intros Hx. apply Hna. rewrite Hp in Hq. injection Hq as ->. auto.
Qed.
Lemma moves_refl s s' : sv_phases s' = sv_phases s -> moves s s'.
Proof. intros E. split; rewrite E; [done|by eauto|by eauto]. Qed.
(** One task moved from [p] to [q]. *)
Lemma moves_one s s' core p q :
  sv_phases s !! core = Some p -> sv_phases s' = <[ core := q ]> (sv_phases s) -> (not_activated q -> not_activated p) -> p <> Ph_Done ->
  (forall i, p = Ph_Ending i -> ended_in i s' \/ sv_cores s' !! i = None) -> moves s s'.
Proof.
  intros Hp E Hna Hd Hend. split; rewrite E.
  - by rewrite length_insert.
  - intros i p' Hi. destruct (decide (core = i)) as [<-|Hn].
    + rewrite list_lookup_insert_eq in Hi by (by eapply lookup_lt_Some). injection Hi as <-. by exists p.
    + rewrite list_lookup_insert_ne in Hi by done. by exists p'.
  - intros i j Hj. destruct (decide (core = j)) as [<-|Hn].
    + right. apply Hend. congruence.
    + left. by rewrite list_lookup_insert_ne.
Qed.

(** The steps that write the table. *)
Lemma inv_admit device session_id transport cancelled s :
  server_inv s -> (forall i c, sv_cores s !! i = Some c -> sc_session_id c <> session_id) ->
  server_inv (admit_session device session_id transport cancelled s).
Proof.
  intros [Vl Vi Vc Va Vr Vj] Hfresh. unfold admit_session, claim. cbn [sc_device core_new].
  set (n := length (sv_cores s)). set (c0 := core_new device session_id transport cancelled).
  set (old := rs_claims (sv_registry s) !! device).
  set (active := match old ≫= (fun i => sv_cores s !! i) with Some o => delete (sc_session_id o) (rs_active (sv_registry s)) | None => _ end).
  set (phase := match old with Some o => Ph_Ending o | None => Ph_Asking end).
  assert (Hold : forall i c, i <> n -> (sv_cores s ++ [c0]) !! i = Some c -> sv_cores s !! i = Some c).
  { intros i c Hn Hi. apply lookup_app_Some in Hi as [Hi|[Hge Hi]]; [done|]. apply list_lookup_singleton_Some in Hi as [Hi _]. subst n. lia. }
  assert (Hnew : (sv_cores s ++ [c0]) !! n = Some c0) by (subst n; by rewrite lookup_app_r, Nat.sub_diag).
  assert (Hlt : forall i c, sv_cores s !! i = Some c -> i <> n) by (intros i c Hi%lookup_lt_Some; subst n; lia).
  (* an active entry of before is of another device *)
  assert (Hact : forall id a, active !! id = Some a -> rs_active (sv_registry s) !! id = Some a /\ rs_claims (sv_registry s) !! device <> Some (ac_core a)).
  { intros id a. subst active. destruct (old ≫= _) as [o|] eqn:Eo.
    - destruct old as [i|] eqn:Ei; [|done]. cbn in Eo. intros [Hne Ha]%lookup_delete_Some. split; [done|].
      subst old. rewrite Ei. intros [= Hi]. subst i. destruct (Va _ _ Ha) as (c & Hc & E & _). congruence.
    - intros Ha. split; [done|]. intros Hd. subst old. rewrite Hd in Eo. cbn in Eo. destruct (Vc _ _ Hd) as (c & Hc & _). congruence. }
  split; cbn [sv_cores sv_phases sv_registry rs_claims rs_active sv_joined].
  - by rewrite !length_app, Vl.
  - intros i j ci cj Hi Hj Heq. destruct (decide (i = n)) as [->|Hin], (decide (j = n)) as [->|Hjn]; [done| | |].
    + rewrite Hnew in Hi. injection Hi as <-. apply Hold in Hj; [|done]. by destruct (Hfresh _ _ Hj).
    + rewrite Hnew in Hj. injection Hj as <-. apply Hold in Hi; [|done]. by destruct (Hfresh _ _ Hi).
    + apply Hold in Hi, Hj; try done. by apply (Vi i j ci cj).
  - intros d i [[<- <-]|[Hne Hd]]%lookup_insert_Some; [by exists c0|]. destruct (Vc _ _ Hd) as (c & Hc & E). exists c. split; [by apply lookup_app_l_Some|done].
  - intros id a [Ha Hd]%Hact. destruct (Va _ _ Ha) as (c & Hc & E & Hcl & (p & Hp & Hna) & Hau). exists c.
    split_and!; [by apply lookup_app_l_Some|done| |exists p; split; [by apply lookup_app_l_Some|done]|done].
    rewrite lookup_insert_ne; [done|]. intros E'. rewrite <- E' in Hcl. done.
  - intros i c p Hc Hp. destruct (decide (i = n)) as [->|Hin].
    + rewrite Hnew in Hc. injection Hc as <-. left. apply lookup_insert_eq.
    + apply Hold in Hc; [|done]. assert (Hp' : sv_phases s !! i = Some p).
      { apply lookup_app_Some in Hp as [Hp|[Hge Hp]]; [done|]. apply list_lookup_singleton_Some in Hp as [Hp _]. apply lookup_lt_Some in Hc. subst n. lia. }
      destruct (Vr i c p Hc Hp') as [H|[H|[H|(j & Hj)]]]; [|by right; left|by right; right; left|right; right; right; exists j; by apply lookup_app_l_Some].
      destruct (decide (sc_device c = device)) as [Ed|Ed].
      * right; right; right. exists n. subst n phase old. rewrite <- Vl, lookup_app_r, Nat.sub_diag by done. cbn. rewrite <- Ed, H. done.
      * left. by rewrite lookup_insert_ne by congruence.
  - destruct Vj as [Hn Hj]. split; [done|]. intros i Hi. destruct (Hj i Hi) as (c & p & Hc & Hp & Hna). exists c, p.
    split_and!; [by apply lookup_app_l_Some|by apply lookup_app_l_Some|done].
Qed.

Lemma inv_activate core c s :
  server_inv s -> sv_phases s !! core = Some Ph_Granted -> sv_cores s !! core = Some c -> is_current core c (sv_registry s) = true ->
  server_inv (with_phase core Ph_Activated (with_registry (mkRegistry (rs_claims (sv_registry s)) (<[ sc_session_id c := mkActive core true ]> (rs_active (sv_registry s)))) s)).
Proof.
  intros Hv Hp Hc Hcur%bool_decide_eq_true.
  assert (Hnj : core ∉ sv_joined s).
  { intros Hin. destruct (vi_joined _ Hv) as [_ Hj]. destruct (Hj _ Hin) as (c' & p & _ & Hp' & Hna). rewrite Hp in Hp'. injection Hp' as <-. by apply Hna. }
  assert (Hv' : server_inv (with_phase core Ph_Activated s)).
  { eapply inv_moves; [exact Hv|apply ends_refl| |done|done]. by eapply moves_one. }
  destruct Hv' as [Vl Vi Vc Va Vr Vj]. split; try done. cbn [with_phase with_registry sv_registry rs_active rs_claims sv_cores sv_phases sv_joined] in *.
  intros id a [[<- <-]|[Hne Ha]]%lookup_insert_Some; [|by apply Va]. cbn [ac_core ac_audio]. exists c. split_and!; try done.
  exists Ph_Activated. split; [|by intros []]. by rewrite list_lookup_insert_eq by (by eapply lookup_lt_Some).
Qed.
Lemma inv_release core c s :
  server_inv s -> sv_phases s !! core = Some Ph_Closing -> sv_cores s !! core = Some c ->
  server_inv (with_phase core Ph_Done (with_registry (release core c (sv_registry s)) s)).
Proof.
  intros Hv Hp Hc.
  assert (Hv' : server_inv (with_phase core Ph_Done s)).
  { eapply inv_moves; [exact Hv|apply ends_refl| |done|done]. by eapply moves_one. }
  pose proof (vi_ids _ Hv) as Vi0. destruct Hv' as [Vl Vi Vc Va Vr Vj].
  unfold release. cbn [with_phase with_registry sv_registry sv_cores sv_phases sv_joined] in *.
  split; cbn [sv_cores sv_phases sv_registry rs_claims rs_active sv_joined with_phase with_registry]; try done.
  - intros d i Hd. apply Vc. destruct (is_current _ _ _); [|done]. by apply lookup_delete_Some in Hd as [_ Hd].
  - intros id a [Hne Ha]%lookup_delete_Some. destruct (Va _ _ Ha) as (ca & Hca & E & Hcl & Hr). exists ca. split_and!; try done; [|by apply Hr..].
    destruct (is_current core c _) eqn:Ecur; [|done]. apply bool_decide_eq_true in Ecur.
    rewrite lookup_delete_ne; [done|]. intros Ed. rewrite <- Ed, Ecur in Hcl. injection Hcl as Hcl.
    rewrite <- Hcl in Hca. congruence.
  - intros i ci p Hi Hpi. destruct (decide (i = core)) as [->|Hn].
    + right; right; left. rewrite list_lookup_insert_eq in Hpi by (by eapply lookup_lt_Some). congruence.
    + destruct (Vr i ci p Hi Hpi) as [H|H]; [|by right]. left. destruct (is_current core c _) eqn:Ecur; [|done].
      apply bool_decide_eq_true in Ecur. rewrite lookup_delete_ne; [done|]. intros Ed. rewrite <- Ed, Ecur in H. congruence.
Qed.
Lemma inv_audio core c r joining s :
  server_inv s -> sv_cores s !! core = Some c -> take_audio core c (sv_registry s) = Some r ->
  server_inv (mkServer (sv_cores s) (sv_phases s) r joining (core :: sv_joined s)).
Proof.
  intros [Vl Vi Vc Va Vr [Vn Vj]] Hc Ht. unfold take_audio, live in Ht.
  destruct (rs_active (sv_registry s) !! sc_session_id c) as [a|] eqn:Ea; [|done]. cbn in Ht.
  case_bool_decide as Hcore; [|done]. destruct (sc_stop c) eqn:Es; [done|]. cbn in Ht.
  destruct (ac_audio a) eqn:Eau; [|done]. injection Ht as <-. destruct (Va _ _ Ea) as (c' & Hc' & E & Hcl & (p & Hp & Hna) & Hau).
  rewrite Hcore in *. rewrite Hc in Hc'. injection Hc' as <-. specialize (Hau Eau).
  split; cbn [sv_cores sv_phases sv_registry rs_claims rs_active sv_joined]; try done.
  - intros id b [[<- <-]|[Hne Hb]]%lookup_insert_Some; cbn [ac_core ac_audio].
    + exists c. split_and!; try done. by exists p.
    + destruct (Va _ _ Hb) as (cb & Hcb & Eb & Hclb & Hpb & Haub). exists cb. split_and!; try done. intros Hx.
      apply not_elem_of_cons. split; [|by apply Haub]. intros Ecore. rewrite Ecore, Hc in Hcb. congruence.
  - split; [by apply NoDup_cons|]. intros i [->|Hi]%elem_of_cons; [by exists c, p|by apply Vj].
Qed.

Lemma ends_phase core q s : ends (sv_cores s) (sv_cores (with_phase core q s)).
Proof. apply ends_refl. Qed.
Lemma inv_step e s s' : handshake_step e s = Some s' -> server_inv s -> server_inv s'.
Proof.
  intros Hs Hv. destruct e as [device session_id transport cancelled|core|core|core reason|core|core|core|core detail|core|core|core|core reason| |session_id transport|core token stored transport require_tls|core];
    cbn [handshake_step] in Hs.
  - destruct (existsb _ _) eqn:Ex; [done|]. injection Hs as <-. apply inv_admit; [done|]. intros i c Hc E.
    assert (Ht : existsb (fun c => String.eqb (sc_session_id c) session_id) (sv_cores s) = true); [|congruence].
    apply existsb_exists. exists c. split; [apply list_elem_of_In; by eapply list_elem_of_lookup_2|]. by apply String.eqb_eq.
  - destruct (sv_phases s !! core) as [[old| | | | | | |]|] eqn:Ep; try done. injection Hs as <-.
    eapply inv_moves; [exact Hv|apply ends_end| |done|done]. eapply moves_one; [exact Ep|done|done|done|].
    intros i [= ->]. unfold ended_in. cbn [sv_cores with_phase end_core]. rewrite list_lookup_alter_eq.
    destruct (sv_cores s !! i) as [c|]; [left|by right]. eexists. split; [reflexivity|]. apply core_end_fields.
  - destruct (sv_phases s !! core) as [[old| | | | | | |]|] eqn:Ep; try done. injection Hs as <-.
    eapply inv_moves; [exact Hv|apply ends_refl|by eapply moves_one|done|done].
  - destruct (sv_phases s !! core) as [[old| | | | | | |]|] eqn:Ep; try done. injection Hs as <-.
    eapply inv_moves; [exact Hv|apply ends_end|by eapply moves_one|done|done].
  - destruct (sv_phases s !! core) as [[old| | | | | | |]|] eqn:Ep; try done.
    destruct (sv_cores s !! core) as [c|] eqn:Ec; [|done]. unfold activate in Hs.
    destruct (is_current core c (sv_registry s)) eqn:Ecur; injection Hs as <-; [by apply inv_activate|].
    eapply inv_moves; [exact Hv|apply ends_end|by eapply moves_one|done|done].
  - destruct (sv_phases s !! core) as [[old| | | | | | |]|] eqn:Ep; try done.
    destruct (sv_cores s !! core) as [c|] eqn:Ec; [|done]. injection Hs as <-.
    destruct (sc_stop c); (eapply inv_moves; [exact Hv| |by eapply moves_one|done|done]); [apply ends_end|apply ends_refl].
  - destruct (sv_phases s !! core) as [[old| | | | | | |]|] eqn:Ep; try done. injection Hs as <-.
    eapply inv_moves; [exact Hv|apply ends_refl|by eapply moves_one|done|done].
  - destruct (sv_phases s !! core) as [[old| | | | | | |]|] eqn:Ep; try done. injection Hs as <-.
    eapply inv_moves; [exact Hv|apply ends_end|by eapply moves_one|done|done].
  - destruct (sv_phases s !! core) as [[old| | | | | | |]|] eqn:Ep; try done.
    destruct (sv_cores s !! core) as [c|] eqn:Ec; [|done]. destruct (sc_stop c); [|done]. injection Hs as <-.
    eapply inv_moves; [exact Hv|apply ends_refl|by eapply moves_one|done|done].
  - destruct (sv_phases s !! core) as [[old| | | | | | |]|] eqn:Ep; try done.
    destruct (sv_cores s !! core) as [c|] eqn:Ec; [|done]. injection Hs as <-. by apply inv_release.
  - destruct (sv_phases s !! core) as [[old| | | | | | |]|] eqn:Ep; try done; injection Hs as <-;
      (eapply inv_moves; [exact Hv|apply ends_end|by eapply moves_one|done|done]).
  - injection Hs as <-. eapply inv_moves; [exact Hv|apply ends_end|by apply moves_refl|done|done].
  - injection Hs as <-. eapply inv_moves; [exact Hv|apply ends_stop|by apply moves_refl|done|done].
  - destruct (join_lookup _ _ _ _); injection Hs as <-; [|done]. eapply inv_moves; [exact Hv|apply ends_refl|by apply moves_refl|done|done].
  - case_bool_decide; [|done]. destruct (sv_cores s !! core) as [c|] eqn:Ec; [|done].
    destruct (join_session _ _ _ _ _ _ _); [|by injection Hs as <-].
    destruct (take_audio core c (sv_registry s)) as [r|] eqn:Et; [|by injection Hs as <-]. injection Hs as <-. by eapply inv_audio.
  - injection Hs as <-. eapply inv_moves; [exact Hv|apply ends_refl|by apply moves_refl|done|done].
Qed.
Lemma server_reach_inv s : server_reach s -> server_inv s.
Proof.
  induction 1 as [|s e s' Hr IH Hs]; [|by eapply inv_step]. split; cbn; try done.
  split; [constructor|]. intros i Hi. by apply elem_of_nil in Hi.
Qed.

(** C16: A device has one session.  In every interleaving of handshakes, sockets, ends
    and the server's shutdown: two routed sessions of a device are the same; what is
    routed is the session of the device's newest admitted hello, open and not ended; a
    session that is not the newest has ended, or is about to be ended by the handshake
    that replaced it before that one asks for its grant, or its task is gone; and the
    hand-off of a session's audio socket is taken at most once, after its activation. *)
Theorem one_session_per_device s :
  server_reach s ->
  (forall id id' i j ci cj, lookup_session id (sv_cores s) (sv_registry s) = Some i -> lookup_session id' (sv_cores s) (sv_registry s) = Some j ->
     sv_cores s !! i = Some ci -> sv_cores s !! j = Some cj -> sc_device ci = sc_device cj -> i = j /\ id = id') /\
  (forall id i, lookup_session id (sv_cores s) (sv_registry s) = Some i ->
     exists c, sv_cores s !! i = Some c /\ sc_session_id c = id /\ sc_stop c = false /\ rs_claims (sv_registry s) !! sc_device c = Some i) /\
  (forall i c p, sv_cores s !! i = Some c -> sv_phases s !! i = Some p -> rs_claims (sv_registry s) !! sc_device c <> Some i ->
     sc_stop c = true \/ p = Ph_Done \/ exists j, sv_phases s !! j = Some (Ph_Ending i)) /\
  NoDup (sv_joined s) /\ (forall i, i ∈ sv_joined s -> exists p, sv_phases s !! i = Some p /\ ~ not_activated p).
Proof.
  intros Hr%server_reach_inv. destruct Hr as [Vl Vi Vc Va Vr [Vn Vj]].
  assert (Hl : forall id i, lookup_session id (sv_cores s) (sv_registry s) = Some i ->
     exists c, sv_cores s !! i = Some c /\ sc_session_id c = id /\ sc_stop c = false /\ rs_claims (sv_registry s) !! sc_device c = Some i).
  { intros id i. unfold lookup_session. destruct (rs_active (sv_registry s) !! id) as [a|] eqn:Ea; [|done]. cbn.
    destruct (Va _ _ Ea) as (c & Hc & E & Hcl & _). rewrite Hc. cbn. destruct (sc_stop c) eqn:Es; [done|]. intros [= <-]. by exists c. }
  split_and!; [|exact Hl| |done|].
  - intros id id' i j ci cj (c1 & H1 & E1 & _ & F1)%Hl (c2 & H2 & E2 & _ & F2)%Hl Hi Hj Hd.
    assert (i = j) as -> by congruence. split; [done|congruence].
  - intros i c p Hc Hp Hn. destruct (Vr i c p Hc Hp) as [H|H]; [done|exact H].
  - intros i Hi. destruct (Vj i Hi) as (c & p & _ & Hp & Hna). by exists p.
Qed.

(** ** Samples *)
Fixpoint handshake_run (events : list HandshakeEvent) (s : Server) : option Server :=
  match events with [] => Some s | e :: events => s' ← handshake_step e s; handshake_run events s' end.
Lemma handshake_run_reach events s s' : server_reach s -> handshake_run events s = Some s' -> server_reach s'.
Proof.
  revert s. induction events as [|e events IH]; intros s Hr; cbn [handshake_run]; [by intros [= <-]|].
  destruct (handshake_step e s) as [s1|] eqn:E; [|done]. cbn. apply IH. by eapply Sr_Step.
Qed.
(** A session with its audio, replaced by a newer hello of its device. *)
Definition sample_handshakes : list HandshakeEvent :=
  [He_Admit "dev-1" "s-1" Tp_Tls ∅; He_Granted 0; He_Activate 0; He_Check 0; He_Written 0;
   He_JoinLookup (Some "s-1") Tp_Tls; He_JoinAudio 0 (Some "t") (Some (Some "t")) Tp_Tls true;
   He_JoinLookup (Some "s-1") Tp_Tls; He_JoinAudio 0 (Some "t") (Some (Some "t")) Tp_Tls true;
   He_Admit "dev-1" "s-2" Tp_Tls ∅; He_EndOld 1; He_Granted 1; He_Activate 1; He_Over 0; He_Release 0; He_Check 1; He_Written 1].
Definition sample_server : Server := default server_new (handshake_run sample_handshakes server_new).
Example sample_routes :
  lookup_session "s-1" (sv_cores sample_server) (sv_registry sample_server) = None /\
  lookup_session "s-2" (sv_cores sample_server) (sv_registry sample_server) = Some 1%nat /\
  sv_phases sample_server = [Ph_Done; Ph_Running] /\ sv_joined sample_server = [0%nat] /\
  (sc_end <$> sv_cores sample_server) = [Some Lc_Replaced; None].
Proof. split_and!; vm_compute; reflexivity. Qed.
Lemma one_session_per_device_witness :
  exists c, sv_cores sample_server !! 1%nat = Some c /\ rs_claims (sv_registry sample_server) !! sc_device c = Some 1%nat /\ NoDup (sv_joined sample_server).
Proof.
  assert (Hr : server_reach sample_server).
  { apply (handshake_run_reach sample_handshakes server_new); [constructor|]. vm_compute. reflexivity. }
  destruct (one_session_per_device sample_server Hr) as (_ & Hl & _ & Hn & _).
  destruct (Hl "s-2" 1%nat ltac:(vm_compute; reflexivity)) as (c & Hc & _ & _ & Hcl). exists c. exact (conj Hc (conj Hcl Hn)).
Defined.
(** [REQUIRE_DEVICE_TLS] and the plain rules. *)
Example sample_tokens :
  authorize (Some "t") (Some "t") Tp_Plain true = Err Tr_NotTls /\ authorize None (Some "t") Tp_Tls true = Err Tr_Missing /\
  authorize (Some "t") None Tp_Tls true = Err Tr_NoStoredToken /\ authorize (Some "x") (Some "t") Tp_Tls true = Err Tr_Mismatch /\
  authorize (Some "x") None Tp_Plain false = Ok tt /\ authorize None (Some "t") Tp_Plain false = Ok tt.
Proof. split_and!; reflexivity. Qed.
